(* ===== verification/_CoqProject ===== *)
-Q . S2P
Prelude.v
Parity.v
ChecksumDefs.v
PageWords.v
ChecksumEcc.v
ChecksumNew.v
ChecksumVariants.v
ChecksumAvx.v
Checksum.v
EccRepair.v
HeaderHelpers.v
Xpress.v
XpressRef.v
XpressSim.v
XpressSpec.v
PtrCache.v
ObjectPool.v
XpressFrame.v
Decompress.v
DecompressSpec.v
DecompressTop.v
RedBlack.v
RedBlackProofs.v
RedBlackMap.v
RedBlackNodes.v
RedBlackHeap.v
InvasiveList.v
InvasiveListProofs.v
InvasiveListSystem.v
SimpleQueue.v
SimpleQueueProofs.v
SimpleQueueTop.v
StupidQueue.v
DynArray.v
DynArrayProofs.v
DynArrayTop.v
Table.v
TableSort.v
TableTop.v
HashBucket.v
HashBucketProofs.v
HashBucketOps.v
HashSplit.v
HashMerge.v
HashBucketTop.v
Threads.v
CPool.v
HashTable.v
HashStates.v
HashDir.v
HashViews.v
HashMemory.v
HashInv.v
HashLockSteps.v
HashMoveSteps.v
HashPolicySteps.v
HashArraySteps.v
HashInit.v
HashInitProofs.v
HashTop.v
HashProgram.v
LocklessList.v
LocklessListTop.v
ControlWord.v
RWLock.v
RWLockProofs.v
RWLockTop.v
BinaryLock.v
BinaryLockProofs.v
BinaryLockTop.v
SXWLatch.v
SXWLatchProofs.v
SXWLatchTop.v
Semaphore.v
CriticalSection.v
SemaphoreProofs.v
SemaphoreInv.v
SemaphoreTop.v
InitTermLock.v
MeteredSection.v
