(* ===== verification/Prelude.v ===== *)
(** * A verification of the ESE parser's C++ library

    ese_parser reads Extensible Storage Engine databases.  Its C++ part
    (src/lib/cpp) is the decompression of column data, called from the Rust
    parser through the C function [decompress], on top of Microsoft's ESE sources
    (src/lib/cpp/ms): page checksums with error correction, the block cache's
    header helpers, and a collection library.  This development models the parts
    that carry logic of their own and proves what makes them correct.  The build
    modelled is the one of the project: AMD64, without DEBUG and without the
    optional Xpress9/Xpress10 codecs.  Where DEBUG changes what the code does (the
    gates, the circular queue, the nodes of the red-black tree) the definitions take the
    build as an argument and the theorems hold for both.

    ** Conventions

    A w-bit integer is a [Z] with its wrap-around written out ([wrapu], [wraps]);
    a buffer is a list of bytes; an access outside a buffer, through a null
    pointer or to freed memory is [None], so a theorem that a function returns
    [Some] is also a safety theorem.  In the collection classes a [COLLAssert]
    that does not hold is [None] too, although the build compiles it to nothing:
    the theorems then also show that the assertions hold.  What the environment
    decides (the processor's features and number, whether an allocation
    succeeds, the contents of memory outside a buffer, the address [new] returns,
    the file behind a filter) is an argument.  Loops run on fuel that the theorems
    show to be enough: a deletion from a tree descends at most as many levels as
    the tree has nodes, the Xpress decoder consumes input or produces output in
    every round, and the other loops are bounded by a count the code computes.

    ** Parts

    - [Prelude] (this file): integers, bytes, partial memory access, loops and
      their lemmas, and the JET error codes, shared by every file.
    - Page checksums (ms/checksum.cxx, checksum_amd64.cxx, checksum_avx.cxx).
      [ChecksumDefs] translates the plain, 64-bit, SSE, SSE2 and AVX routines of
      both formats; [Checksum] the selection through the function pointers
      ([dispatch]) and the comparison functions.  [Parity], [PageWords],
      [ChecksumEcc], [ChecksumNew], [ChecksumVariants]
      and [ChecksumAvx] prove each routine equal to one
      reference: the exclusive or of the words and, for every bit of a bit index,
      the parity of the page's bits whose index has that bit clear or set.  The
      class [NewFormatImpl] is what an implementation promises to the dispatcher.
      [EccRepair] derives that one inverted bit is located, two are
      detected, and what exactly the correctability test decides.
    - Header helpers (ms/blockcache/_headerhelpers.hxx): [HeaderHelpers], on the
      checksums' interface: loading repairs one inverted bit, rejects two, and
      returns only valid headers.
    - Xpress (ms/_xpress/xdecode.c, xdecode.i): [Xpress] is the decoder with its
      fast and careful loops over one buffer; [XpressRef] a decoder that checks
      every bound and copies byte by byte; [XpressSim] the simulation between
      them, [XpressSpec] the refinement, [XpressFrame] that the decoder ignores
      what follows its buffer, as the class [XpressDecoder] its client needs.
    - Decompression (decompress.cpp): [Decompress] is the scheme dispatch, the two
      7-bit codecs, Xpress with its cache of streams, and the entry point;
      [DecompressSpec] the 7-bit format and a packer,
      [DecompressTop] safety, the round trip and the behaviour per scheme.
    - Collections (ms/collection.hxx).  [PtrCache]: the lock-free pointer
      cache, also as interleaved atomic steps of threads.  [ObjectPool]: the pool
      with its heap.  [RedBlack], [RedBlackProofs], [RedBlackMap]: the left-leaning
      red-black tree as a value, its order and balance invariants, and the refinement of
      a finite map; [RedBlackNodes]: the intrusive tree itself, whose nodes are linked in
      memory through the client's objects, refined to the value and so to the map, for
      clients that do not insert an object that is linked; [RedBlackHeap]: the variant
      that owns its nodes, with the heap.
      [InvasiveList], [InvasiveListProofs], [InvasiveListSystem]: the intrusive
      lists over a shared memory, refined to sequences.  [SimpleQueue],
      [SimpleQueueProofs], [SimpleQueueTop]: the singly linked lock-less list and
      the queue on it, which exchange objects, refined to sequences;
      [LocklessList], [LocklessListTop]: the list shared by threads, refined to
      atomic insertions, and the end of every insertion that is not disturbed.
      [StupidQueue]: the
      circular queue as a first-in first-out queue, for any outcome of its allocations.  [DynArray], [DynArrayProofs],
      [DynArrayTop]: the growable array, its sorting and searching.  [Table],
      [TableSort], [TableTop]: the sorted table on the array, with its insertion
      sort, quick sort and searches.  [CPool]: the pool of objects that threads wait for,
      as threads that interleave (see below), with its allocator of aligned memory: no object
      is lost or handed out twice, no client is stuck, and a removal that has its unit of
      the semaphore ends with an object.
    - The dynamic hash table (ms/dht.hxx).  [HashBucket] is the memory of buckets and
      the operations on a chain of buckets, with the tagged word that links them;
      [HashBucketProofs], [HashBucketOps], [HashSplit], [HashMerge] prove each
      operation against the list of the chain's entries, with what it touches and
      releases; [HashBucketTop] states the refinement.  [HashTable] is the table on
      top: the directory of bucket arrays, the state machine that lets it grow and
      shrink while clients use it, and every call of a client as steps between which the
      others run; [HashInit] its initialisation and termination.  The invariant
      ([HashInv]) is put together from parts that have files of their own: the state
      machine and the metered sections ([HashStates]), linear hashing ([HashDir]), the
      bucket locks and what a client between two steps knows of the
      directory ([HashViews]), the memory ([HashMemory]).  The files ending in [Steps]
      show that every step keeps it and is a step of the map that [HashInv]
      specifies; [HashInitProofs] covers the beginning and the end; [HashTop] the executions and their traces of calls and results, and [HashProgram]
      states the theorems: every execution has the calls and results of an execution of
      a map, no failed assertion, entries in place, no deadlock, no leak.  The
      clients of these theorems put an entry only under the key they have
      locked; the number of steps is below 2^63, because the counts of operations must
      not wrap around; the allocator returns room for what it is asked for.

    - Synchronisation (ms/sync.hxx, sync.cxx), as threads that interleave atomic
      operations.  A thread is its position between two accesses to shared memory,
      with its local variables; the function [tstep] of a file makes its next access,
      which leads on ([Next]), is not possible now ([Blocked]) or violates an
      assertion of the code ([Fault]).  [Threads] has these notions, sums over the
      threads, and invariants of reachable configurations; [ControlWord] the words
      with two counters and two flags.  [Semaphore], [SemaphoreProofs],
      [SemaphoreInv] and [SemaphoreTop]: [CSemaphore] with
      timeouts on the shared pool of kernel semaphores, refined to counting
      semaphores.  [RWLock], [RWLockProofs], [RWLockTop]:
      [CReaderWriterLock].  [BinaryLock], [BinaryLockProofs],
      [BinaryLockTop]: [CBinaryLock].  [SXWLatch], [SXWLatchProofs], [SXWLatchTop]:
      [CSXWLatch].  [InitTermLock]: [CInitTermLock], in any
      storage that its constructor, which initialises nothing, accepts.  [MeteredSection]:
      [CMeteredSection].  [CriticalSection]: [CCriticalSection],
      [CNestableCriticalSection], and [CGate] on the pool of kernel semaphores.  For each the theorems give mutual exclusion (or what stands
      for it), that no assertion fails in any interleaving, and that no wake-up is
      lost: when nothing can move, nobody waits who should not.  In the locks a
      semaphore is a count that [Acquire] takes one from and [Release] adds to
      ([sem_acquire], [sem_release]), which is what [SemaphoreTop] shows of
      [CSemaphore].  The bounds on the number of threads are those of the code's
      bit fields: 2^15 owners and waiters for the locks, 2^15 - 1 for the latch, 2^14
      for the semaphores (a thread may hold two references to a kernel semaphore
      and the reference count has 15 bits), 2^15 - 1 for the gates, 2^11 for [CInitTermLock], none for
      [CMeteredSection], which refuses entry.  The atomic operations are those of a
      sequentially consistent memory; lock ranks, ownership tracking, deadlock
      detection and statistics of the debug build are left out.

    ** Not modelled

    The operating-system layer (files, disks, threads, kernel objects, time,
    tracing), the debugger extension, generated code, the Xpress encoder (the
    library does not call it) and the Rust and Python parts.  Of sync.hxx the
    signals and lock ranking are not modelled yet; of the
    hash table the scans are not, nor the alignment of its memory blocks.

    ** Plan

    Next: the signals of sync.hxx on the kernel semaphore pool, the remaining collections ([CInvasiveConcurrentModSet],
    the approximate index), the scans of the hash table, the block cache's journal segments (format,
    checks and repair on the checksum interface), and the
    little-endian and time types of types.hxx. *)

From Stdlib Require Export ZArith Lia Bool.
From stdpp Require Export base list numbers option.
Open Scope Z_scope.

(** ** Machine integers

    A w-bit unsigned integer is a [Z] in [0, 2^w); [wrapu] is the conversion
    to it, [wraps] the conversion to the signed (two's complement) type of the
    same width.  MSVC's [ULONG]/[DWORD]/[UINT] are 32 bits wide, [LONG]/[INT]
    are signed 32 bits, [BYTE] 8, [WORD]/[USHORT] 16 and [QWORD] 64. *)

Definition wrapu (w x : Z) : Z := x mod 2 ^ w.

Definition wraps (w x : Z) : Z := (x + 2 ^ (w - 1)) mod 2 ^ w - 2 ^ (w - 1).

Declare Scope word_scope.
Delimit Scope word_scope with word.
Abbreviation u8 := (wrapu 8) (only parsing).
Abbreviation u16 := (wrapu 16) (only parsing).
Abbreviation u32 := (wrapu 32) (only parsing).
Abbreviation u64 := (wrapu 64) (only parsing).
Abbreviation s16 := (wraps 16) (only parsing).
Abbreviation s32 := (wraps 32) (only parsing).
Infix "^^" := Z.lxor (at level 50, left associativity) : word_scope.
Infix ".&" := Z.land (at level 45, left associativity) : word_scope.
Infix ".|" := Z.lor (at level 52, left associativity) : word_scope.
Open Scope word_scope.

(** [in_u w x]: [x] is a value of the unsigned [w]-bit type. *)
Definition in_u (w x : Z) : Prop := 0 <= x < 2 ^ w.

Definition in_s (w x : Z) : Prop := - 2 ^ (w - 1) <= x < 2 ^ (w - 1).

(** C's [/] and [%] on signed operands truncate towards zero. *)
Definition cdiv (a b : Z) : Z := Z.quot a b.

Definition cmod (a b : Z) : Z := Z.rem a b.

(** ** Bytes in memory *)

(** A buffer is a list of byte values. *)
Definition byte_ok (b : Z) : Prop := 0 <= b < 256.

Definition bytes_ok (l : list Z) : Prop := Forall byte_ok l.

(** Little-endian value of a byte string, and its inverse on [n] bytes. *)
Fixpoint le_num (l : list Z) : Z :=
  match l with
  | [] => 0
  | b :: l => b + 256 * le_num l
  end.

Fixpoint le_bytes (n : nat) (x : Z) : list Z :=
  match n with
  | O => []
  | S n => x mod 256 :: le_bytes n (x / 256)
  end.

(** The bytes [l[ofs], ..., l[ofs+n-1]]. *)
Definition slice {A} (ofs n : nat) (l : list A) : list A := take n (drop ofs l).

(** ** Partial memory access

    [None] is undefined behaviour: an access outside of the buffer. *)

Definition rd {A} (l : list A) (i : Z) : option A :=
  if 0 <=? i then l !! Z.to_nat i else None.

Definition wr {A} (l : list A) (i : Z) (x : A) : option (list A) :=
  if (0 <=? i) && (i <? Z.of_nat (length l)) then Some (<[Z.to_nat i := x]> l)
  else None.

(** Little-endian load of [n] bytes at byte offset [i]. *)
Definition rd_le (n : nat) (l : list Z) (i : Z) : option Z :=
  if (0 <=? i) && (i + Z.of_nat n <=? Z.of_nat (length l))
  then Some (le_num (slice (Z.to_nat i) n l)) else None.

(** ** Loops *)

(** [do body while (cond)], for at most [fuel] further rounds. *)
Fixpoint do_while {S} (fuel : nat) (body : S -> S) (cond : S -> bool) (s : S) : S :=
  let s' := body s in
  match fuel with
  | O => s'
  | S fuel => if cond s' then do_while fuel body cond s' else s'
  end.

(** [while (cond) body], for at most [fuel] rounds. *)
Fixpoint while_do {S} (fuel : nat) (cond : S -> bool) (body : S -> S) (s : S) : S :=
  match fuel with
  | O => s
  | S fuel => if cond s then while_do fuel cond body (body s) else s
  end.

(** ** Automation *)

Create HintDb words.
Create HintDb bytes.

(** Destruct every [if] on a comparison of integers in the goal. *)
Ltac case_ifs :=
  repeat match goal with
  | |- context [if ?b then _ else _] =>
      lazymatch b with
      | context [if _ then _ else _] => fail
      | _ => let E := fresh "Hif" in destruct b eqn:E
      end
  end.

Ltac bool_to_prop :=
  repeat match goal with
  | H : (_ && _) = true |- _ => apply andb_true_iff in H; destruct H
  | H : (_ && _) = false |- _ => apply andb_false_iff in H
  | H : (_ || _) = false |- _ => apply orb_false_iff in H; destruct H
  | H : (_ || _) = true |- _ => apply orb_true_iff in H
  | H : negb _ = true |- _ => apply negb_true_iff in H
  | H : negb _ = false |- _ => apply negb_false_iff in H
  | H : (_ <? _) = true |- _ => apply Z.ltb_lt in H
  | H : (_ <? _) = false |- _ => apply Z.ltb_ge in H
  | H : (_ <=? _) = true |- _ => apply Z.leb_le in H
  | H : (_ <=? _) = false |- _ => apply Z.leb_gt in H
  | H : (_ =? _) = true |- _ => apply Z.eqb_eq in H
  | H : (_ =? _) = false |- _ => apply Z.eqb_neq in H
  end.

(** Equality of integers bit by bit: leaves the goal for a bit index [i]. *)
Ltac bitwise i := apply Z.bits_inj'; intros i ?.

(** Push [Z.testbit] through the bit operations. *)
Ltac testbits :=
  repeat first
    [ rewrite Z.lxor_spec | rewrite Z.land_spec | rewrite Z.lor_spec
    | rewrite Z.shiftr_spec by lia | rewrite Z.shiftl_spec by lia
    | rewrite Z.testbit_mod_pow2 by lia | rewrite Z.bits_0
    | rewrite Z.pow2_bits_eqb by lia ].

(** ** Lemmas on machine integers *)

Lemma pow2_pos n : 0 <= n -> 0 < 2 ^ n.
Proof. intros. now apply Z.pow_pos_nonneg. Qed.

Lemma wrapu_range w x : 0 <= w -> in_u w (wrapu w x).
Proof. intros. apply Z.mod_pos_bound, pow2_pos; lia. Qed.

Lemma wrapu_small w x : in_u w x -> wrapu w x = x.
Proof. intros. now apply Z.mod_small. Qed.

Lemma wraps_range w x : 0 < w -> in_s w (wraps w x).
Proof.
  intros Hw. unfold in_s, wraps.
  pose proof (Z.mod_pos_bound (x + 2 ^ (w - 1)) (2 ^ w) (pow2_pos w ltac:(lia))).
  replace (2 ^ w) with (2 * 2 ^ (w - 1)) in *; [lia|].
  rewrite <- Z.pow_succ_r by lia. f_equal; lia.
Qed.

Lemma wraps_small w x : 0 < w -> in_s w x -> wraps w x = x.
Proof.
  intros Hw. unfold in_s, wraps. intros.
  rewrite Z.mod_small; [lia|].
  replace (2 ^ w) with (2 * 2 ^ (w - 1)); [lia|].
  rewrite <- Z.pow_succ_r by lia. f_equal; lia.
Qed.

Lemma testbit_wrapu w x i : 0 <= w -> Z.testbit (wrapu w x) i = (i <? w) && Z.testbit x i.
Proof. intros. unfold wrapu. now rewrite Z.testbit_mod_pow2. Qed.

(** A value of a [w]-bit type has no bit at or above [w]. *)
Lemma in_u_testbit_high w x i : in_u w x -> 0 <= w <= i -> Z.testbit x i = false.
Proof.
  intros Hx Hi. rewrite <- (wrapu_small w x Hx), testbit_wrapu by lia.
  now rewrite (proj2 (Z.ltb_ge i w)) by lia.
Qed.

Lemma in_u_of_testbit w x :
  0 <= w -> 0 <= x -> (forall i, w <= i -> Z.testbit x i = false) -> in_u w x.
Proof.
  intros Hw Hx H.
  assert (x = wrapu w x) as ->; [|now apply wrapu_range].
  bitwise i. rewrite testbit_wrapu by lia.
  destruct (Z.ltb_spec i w); [easy|]. now rewrite H by lia.
Qed.

Lemma in_u_lxor w x y : 0 <= w -> in_u w x -> in_u w y -> in_u w (x ^^ y).
Proof.
  intros Hw Hx Hy. apply in_u_of_testbit; [easy|apply Z.lxor_nonneg; unfold in_u in *; lia|].
  intros i Hi. rewrite Z.lxor_spec.
  now rewrite (in_u_testbit_high w x), (in_u_testbit_high w y) by (easy || lia).
Qed.

Lemma in_u_lor w x y : 0 <= w -> in_u w x -> in_u w y -> in_u w (x .| y).
Proof.
  intros Hw Hx Hy. apply in_u_of_testbit; [easy|apply Z.lor_nonneg; unfold in_u in *; lia|].
  intros i Hi. rewrite Z.lor_spec.
  now rewrite (in_u_testbit_high w x), (in_u_testbit_high w y) by (easy || lia).
Qed.

Lemma in_u_land w x y : 0 <= w -> in_u w x -> in_u w (x .& y).
Proof.
  intros Hw Hx. apply in_u_of_testbit; [easy|apply Z.land_nonneg; unfold in_u in *; lia|].
  intros i Hi. rewrite Z.land_spec.
  now rewrite (in_u_testbit_high w x) by (easy || lia).
Qed.

Lemma in_u_shiftr w x n : 0 <= w -> 0 <= n -> in_u w x -> in_u w (Z.shiftr x n).
Proof.
  intros Hw Hn Hx. apply in_u_of_testbit; [easy|apply Z.shiftr_nonneg; unfold in_u in *; lia|].
  intros i Hi. rewrite Z.shiftr_spec by lia. apply (in_u_testbit_high w); [easy|lia].
Qed.

#[export] Hint Resolve in_u_lxor in_u_lor in_u_land in_u_shiftr wrapu_range : words.

Lemma lor_disjoint_add a b : a .& b = 0 -> a .| b = a + b.
Proof. intros H. rewrite <- Z.lxor_lor by easy. symmetry. now apply Z.add_nocarry_lxor. Qed.

(** Concatenation of bit fields: [a] below bit [n], [b] from bit [n] on. *)
Lemma testbit_concat n a b i :
  in_u n a -> 0 <= n -> 0 <= i ->
  Z.testbit (a + 2 ^ n * b) i = if i <? n then Z.testbit a i else Z.testbit b (i - n).
Proof.
  intros Ha Hn Hi.
  replace (a + 2 ^ n * b) with (a .| Z.shiftl b n).
  - rewrite Z.lor_spec, Z.shiftl_spec by lia.
    destruct (Z.ltb_spec i n).
    + rewrite (Z.testbit_neg_r b) by lia. now rewrite orb_false_r.
    + now rewrite (in_u_testbit_high n a) by (easy || lia).
  - rewrite lor_disjoint_add; [rewrite Z.shiftl_mul_pow2 by lia; lia|].
    bitwise j. rewrite Z.land_spec, Z.bits_0, Z.shiftl_spec by lia.
    destruct (Z.ltb_spec j n).
    + rewrite (Z.testbit_neg_r b) by lia. now rewrite andb_false_r.
    + now rewrite (in_u_testbit_high n a) by (easy || lia).
Qed.

(** ** Lemmas on bytes *)

Lemma bytes_ok_lookup l i b : bytes_ok l -> l !! i = Some b -> byte_ok b.
Proof. intros H Hl. now apply (Forall_lookup_1 _ _ _ _ H Hl). Qed.

Lemma le_num_nonneg l : bytes_ok l -> 0 <= le_num l.
Proof. induction 1 as [|b l Hb _ IH]; unfold byte_ok in *; simpl; lia. Qed.

Lemma le_num_range l : bytes_ok l -> in_u (8 * Z.of_nat (length l)) (le_num l).
Proof.
  induction 1 as [|b l Hb _ IH]; [unfold in_u; simpl; lia|].
  unfold in_u in *. cbn [length le_num]. rewrite Nat2Z.inj_succ.
  replace (8 * Z.succ (Z.of_nat (length l))) with (8 + 8 * Z.of_nat (length l)) by lia.
  rewrite Z.pow_add_r by lia. change (2 ^ 8) with 256. unfold byte_ok in Hb. lia.
Qed.

(** Bit [i] of a little-endian number is bit [i mod 8] of byte [i / 8]. *)
Lemma le_num_testbit l i :
  bytes_ok l -> 0 <= i ->
  Z.testbit (le_num l) i =
    match l !! Z.to_nat (i / 8) with Some b => Z.testbit b (i mod 8) | None => false end.
Proof.
  intros Hl; revert i; induction Hl as [|b l Hb _ IH]; intros i Hi.
  - simpl. apply Z.bits_0.
  - cbn [le_num]. change 256 with (2 ^ 8).
    rewrite testbit_concat by (unfold in_u, byte_ok in *; lia).
    destruct (Z.ltb_spec i 8).
    + rewrite Z.div_small, Z.mod_small by lia. easy.
    + rewrite IH by lia.
      replace (Z.to_nat (i / 8)) with (S (Z.to_nat ((i - 8) / 8)));
        [|replace i with ((i - 8) + 1 * 8) at 2 by lia; rewrite Z.div_add by lia;
          pose proof (Z.div_pos (i - 8) 8); lia].
      replace (i mod 8) with ((i - 8) mod 8);
        [easy|replace i with ((i - 8) + 1 * 8) at 2 by lia; now rewrite Z.mod_add by lia].
Qed.

Lemma le_num_app l1 l2 :
  le_num (l1 ++ l2) = le_num l1 + 2 ^ (8 * Z.of_nat (length l1)) * le_num l2.
Proof.
  induction l1 as [|b l IH]; cbn [app le_num length]; [rewrite Z.mul_0_r; lia|].
  rewrite IH, Nat2Z.inj_succ.
  replace (8 * Z.succ (Z.of_nat (length l))) with (8 + 8 * Z.of_nat (length l)) by lia.
  rewrite Z.pow_add_r by lia. lia.
Qed.

Lemma bytes_ok_take n l : bytes_ok l -> bytes_ok (take n l).
Proof. apply Forall_take. Qed.

Lemma bytes_ok_drop n l : bytes_ok l -> bytes_ok (drop n l).
Proof. apply Forall_drop. Qed.

Lemma bytes_ok_slice ofs n l : bytes_ok l -> bytes_ok (slice ofs n l).
Proof. intros. now apply bytes_ok_take, bytes_ok_drop. Qed.

Lemma bytes_ok_app l1 l2 : bytes_ok l1 -> bytes_ok l2 -> bytes_ok (l1 ++ l2).
Proof. intros. now apply Forall_app. Qed.

Lemma bytes_ok_insert i b l : bytes_ok l -> byte_ok b -> bytes_ok (<[i:=b]> l).
Proof. intros. now apply Forall_insert. Qed.

#[export] Hint Resolve bytes_ok_take bytes_ok_drop bytes_ok_slice bytes_ok_app
  bytes_ok_insert : bytes.

(** A word loaded from memory is a bit field of the whole buffer's number. *)
Lemma le_num_slice_testbit ofs n l i :
  bytes_ok l -> 0 <= i ->
  Z.testbit (le_num (slice ofs n l)) i =
    (i <? 8 * Z.of_nat n) && Z.testbit (le_num l) (8 * Z.of_nat ofs + i).
Proof.
  intros Hl Hi. rewrite !le_num_testbit by (auto with bytes; lia).
  replace (Z.to_nat ((8 * Z.of_nat ofs + i) / 8)) with (ofs + Z.to_nat (i / 8))%nat.
  2:{ replace (8 * Z.of_nat ofs + i) with (i + Z.of_nat ofs * 8) by lia.
      rewrite Z.div_add by lia. pose proof (Z.div_pos i 8). lia. }
  replace ((8 * Z.of_nat ofs + i) mod 8) with (i mod 8).
  2:{ replace (8 * Z.of_nat ofs + i) with (i + Z.of_nat ofs * 8) by lia.
      now rewrite Z.mod_add by lia. }
  unfold slice. rewrite lookup_take, lookup_drop.
  assert (i / 8 < Z.of_nat n <-> i < 8 * Z.of_nat n).
  { split; intros; [|apply Z.div_lt_upper_bound; lia].
    pose proof (Z.mul_div_le i 8). pose proof (Z.mod_pos_bound i 8). 
    pose proof (Z.div_mod i 8). lia. }
  case_decide; destruct (Z.ltb_spec i (8 * Z.of_nat n)); try easy;
    pose proof (Z.div_pos i 8); lia.
Qed.

Lemma length_le_bytes n x : length (le_bytes n x) = n.
Proof. revert x; induction n; intros; simpl; auto. Qed.

Lemma le_bytes_ok n x : bytes_ok (le_bytes n x).
Proof.
  unfold bytes_ok. revert x; induction n; intros; simpl; constructor; [|easy].
  unfold byte_ok. apply Z.mod_pos_bound. lia.
Qed.

Lemma le_num_le_bytes n x : le_num (le_bytes n x) = x mod 2 ^ (8 * Z.of_nat n).
Proof.
  revert x; induction n as [|n IH]; intros x; cbn [le_bytes le_num].
  - now rewrite Z.mod_1_r.
  - rewrite IH, Nat2Z.inj_succ.
    replace (8 * Z.succ (Z.of_nat n)) with (8 + 8 * Z.of_nat n) by lia.
    rewrite Z.pow_add_r, Z.rem_mul_r by (lia || (pose proof (pow2_pos (8 * Z.of_nat n)); lia)).
    easy.
Qed.

Lemma le_bytes_le_num l : bytes_ok l -> le_bytes (length l) (le_num l) = l.
Proof.
  induction 1 as [|b l Hb Hl IH]; [easy|]. cbn [length le_bytes le_num].
  unfold byte_ok in Hb.
  replace ((b + 256 * le_num l) mod 256) with b by
    (rewrite Z.mul_comm, Z.mod_add, Z.mod_small; lia).
  replace ((b + 256 * le_num l) / 256) with (le_num l) by
    (rewrite Z.mul_comm, Z.div_add, Z.div_small; lia).
  now rewrite IH.
Qed.

#[export] Hint Resolve le_bytes_ok : bytes.

Lemma length_slice {A} ofs n (l : list A) :
  (ofs + n <= length l)%nat -> length (slice ofs n l) = n.
Proof. intros. unfold slice. rewrite length_take, length_drop. lia. Qed.

(** ** Lemmas on partial accesses *)

Lemma rd_Some {A} (l : list A) i :
  0 <= i < Z.of_nat (length l) -> exists x, rd l i = Some x /\ l !! Z.to_nat i = Some x.
Proof.
  intros H. unfold rd. rewrite (proj2 (Z.leb_le 0 i)) by lia.
  destruct (lookup_lt_is_Some_2 l (Z.to_nat i)) as [x Hx]; [lia|]. eauto.
Qed.

Lemma rd_of_nat {A} (l : list A) i : 0 <= i -> rd l i = l !! Z.to_nat i.
Proof. intros H. unfold rd. now rewrite (proj2 (Z.leb_le 0 i)). Qed.

Lemma wr_Some {A} (l : list A) i x :
  0 <= i < Z.of_nat (length l) -> wr l i x = Some (<[Z.to_nat i := x]> l).
Proof.
  intros H. unfold wr.
  now rewrite (proj2 (Z.leb_le 0 i)), (proj2 (Z.ltb_lt i _)) by lia.
Qed.

Lemma wr_inv {A} (l l' : list A) i x :
  wr l i x = Some l' -> 0 <= i < Z.of_nat (length l) /\ l' = <[Z.to_nat i := x]> l.
Proof.
  unfold wr. intros H. destruct (_ && _) eqn:E; [|easy].
  bool_to_prop. simplify_eq. split; [lia|easy].
Qed.

Lemma rd_le_Some n l i :
  0 <= i -> i + Z.of_nat n <= Z.of_nat (length l) ->
  rd_le n l i = Some (le_num (slice (Z.to_nat i) n l)).
Proof.
  intros. unfold rd_le.
  now rewrite (proj2 (Z.leb_le 0 i)), (proj2 (Z.leb_le (i + _) _)) by lia.
Qed.

Lemma take_S_insert {A} (l : list A) (d : nat) b :
  (d < length l)%nat -> take (S d) (<[d := b]> l) = take d l ++ [b].
Proof.
  intros H. rewrite (take_S_r _ _ b).
  - now rewrite take_insert_ge by lia.
  - now apply list_lookup_insert_eq.
Qed.

(** ** Lemmas on loops *)

(** A [do]-[while] whose condition holds after rounds 1..n-1 and fails after
    round n runs its body exactly n times. *)
Lemma do_while_iter {S} (body : S -> S) cond n : forall fuel s,
  (n <= fuel)%nat ->
  (forall k, (k < n)%nat -> cond (Nat.iter (1 + k) body s) = true) ->
  cond (Nat.iter (1 + n) body s) = false ->
  do_while fuel body cond s = Nat.iter (1 + n) body s.
Proof.
  induction n as [|n IH]; intros fuel s Hf Hlt Hn.
  - destruct fuel; simpl in *; [easy|]. now rewrite Hn.
  - destruct fuel; [lia|]. simpl.
    pose proof (Hlt 0%nat ltac:(lia)) as H0. simpl in H0. rewrite H0.
    assert (Hs : forall k, Nat.iter k body (body s) = Nat.iter (1 + k) body s).
    { intros k. simpl. now rewrite <- Nat.iter_swap. }
    rewrite IH.
    + simpl. now rewrite <- !Nat.iter_swap.
    + lia.
    + intros k Hk. rewrite Hs. apply (Hlt (1 + k)%nat). lia.
    + now rewrite Hs.
Qed.

(** A [while] whose condition holds before rounds 1..n and fails afterwards. *)
Lemma while_do_iter {S} (body : S -> S) cond n : forall fuel s,
  (n <= fuel)%nat ->
  (forall k, (k < n)%nat -> cond (Nat.iter k body s) = true) ->
  cond (Nat.iter n body s) = false ->
  while_do fuel cond body s = Nat.iter n body s.
Proof.
  induction n as [|n IH]; intros fuel s Hf Hlt Hn.
  - destruct fuel; simpl in *; [easy|]. now rewrite Hn.
  - destruct fuel; [lia|]. simpl.
    rewrite (Hlt 0%nat ltac:(lia) : cond s = true).
    assert (Hs : forall k, Nat.iter k body (body s) = Nat.iter (1 + k) body s).
    { intros k. simpl. now rewrite <- Nat.iter_swap. }
    rewrite IH.
    + apply Hs.
    + lia.
    + intros k Hk. rewrite Hs. apply (Hlt (1 + k)%nat). lia.
    + now rewrite Hs.
Qed.

(** A [while] loop that stops early: extra fuel is not used. *)
Lemma while_do_stop {S} fuel (body : S -> S) cond s :
  cond s = false -> while_do fuel cond body s = s.
Proof. intros H. destruct fuel; simpl; [easy|]. now rewrite H. Qed.

(** Counting rule for [while]: the invariant [I k] holds before round [k], the
    condition holds up to round [n] and fails there. *)
Lemma while_do_inv {S} (I : nat -> S -> Prop) cond (body : S -> S) n : forall fuel k s,
  (k <= n)%nat -> (n - k <= fuel)%nat -> I k s ->
  (forall j s, (k <= j < n)%nat -> I j s -> cond s = true /\ I (1 + j)%nat (body s)) ->
  (forall s, I n s -> cond s = false) ->
  I n (while_do fuel cond body s).
Proof.
  induction fuel as [|fuel IH]; intros k s Hk Hf HI Hbody Hstop.
  - replace k with n in HI by lia. easy.
  - destruct (decide (k = n)) as [->|Hne].
    + simpl. now rewrite (Hstop s HI).
    + simpl. destruct (Hbody k s) as [Hc HI']; [lia|easy|]. rewrite Hc.
      apply (IH (1 + k)%nat); [lia|lia|easy| |easy].
      intros j s' Hj. apply Hbody. lia.
Qed.

(** ** Finite case analysis on small integers *)

Lemma Z16_cases (P : Z -> Prop) :
  P 0 -> P 1 -> P 2 -> P 3 -> P 4 -> P 5 -> P 6 -> P 7 ->
  P 8 -> P 9 -> P 10 -> P 11 -> P 12 -> P 13 -> P 14 -> P 15 ->
  forall t, 0 <= t < 16 -> P t.
Proof.
  intros. assert (t = 0 \/ t = 1 \/ t = 2 \/ t = 3 \/ t = 4 \/ t = 5 \/ t = 6 \/ t = 7 \/
    t = 8 \/ t = 9 \/ t = 10 \/ t = 11 \/ t = 12 \/ t = 13 \/ t = 14 \/ t = 15) by lia.
  destruct_or!; subst; assumption.
Qed.

(** Evaluate the bits of literal constants. *)
Ltac testbit_consts :=
  repeat match goal with
  | |- context [Z.testbit (Zpos ?p) ?t] =>
      let v := eval vm_compute in (Z.testbit (Zpos p) t) in
      lazymatch v with
      | true => change (Z.testbit (Zpos p) t) with true
      | false => change (Z.testbit (Zpos p) t) with false
      end
  end.

(** Evaluate comparisons of literal constants. *)
Ltac leb_consts :=
  repeat match goal with
  | |- context [(?a <=? ?b)%Z] =>
      let v := eval vm_compute in (a <=? b)%Z in
      lazymatch v with
      | true => change (a <=? b)%Z with true
      | false => change (a <=? b)%Z with false
      end
  end.

#[export] Hint Rewrite andb_true_l andb_true_r andb_false_l andb_false_r
  orb_true_l orb_true_r orb_false_l orb_false_r xorb_false_l xorb_false_r : bools.

(** Case analysis on every boolean atom of the shape [f x] left in the goal. *)
Ltac destruct_bools :=
  repeat match goal with
  | |- context [xorb ?a _] => lazymatch a with
      | true => fail | false => fail | context [xorb _ _] => fail | context [andb _ _] => fail
      | _ => destruct a eqn:? end
  | |- context [xorb _ ?a] => lazymatch a with
      | true => fail | false => fail | context [xorb _ _] => fail | context [andb _ _] => fail
      | _ => destruct a eqn:? end
  | |- context [andb ?a _] => lazymatch a with
      | true => fail | false => fail | context [xorb _ _] => fail | context [andb _ _] => fail
      | _ => destruct a eqn:? end
  end.

(** ** Ends of a sequence of addresses *)

(** The first and the last of a sequence, or the given end. *)
Definition hd (d : Z) (l : list Z) : Z := default d (head l).

Definition lst (d : Z) (l : list Z) : Z := default d (list.last l).

Lemma lst_cons (p x : Z) (l : list Z) : lst p (x :: l) = lst x l.
Proof. unfold lst. rewrite last_cons. by destruct (list.last l). Qed.

Lemma lst_snoc (p x : Z) (l : list Z) : lst p (l ++ [x]) = x.
Proof. unfold lst. by rewrite last_snoc. Qed.

Lemma lst_app_cons (p x : Z) (l1 l2 : list Z) : lst p (l1 ++ x :: l2) = lst x l2.
Proof.
  unfold lst. rewrite last_app, last_cons. by destruct (list.last l2).
Qed.

Lemma hd_app (n : Z) (l1 l2 : list Z) : hd n (l1 ++ l2) = hd (hd n l2) l1.
Proof. by destruct l1. Qed.

(** ** Two lists related pointwise, around a position *)

Lemma Forall2_split {A B} (R : A -> B -> Prop) (l : list A) (k : list B) (i : nat) (x : A) (y : B) :
  Forall2 R l k -> l !! i = Some x -> k !! i = Some y -> exists l1 l2 k1 k2,
    l = l1 ++ x :: l2 /\ k = k1 ++ y :: k2 /\ Forall2 R l1 k1 /\ Forall2 R l2 k2 /\
    (forall x', <[i := x']> l = l1 ++ x' :: l2) /\ (forall y', <[i := y']> k = k1 ++ y' :: k2).
Proof.
  intros H. revert i. induction H as [|a b l k Hab H IH]; intros [|i] Hx Hy; simplify_eq/=.
  - by exists [], l, [], k.
  - destruct (IH i Hx Hy) as (l1 & l2 & k1 & k2 & -> & -> & H1 & H2 & Hl & Hk).
    exists (a :: l1), l2, (b :: k1), k2. split_and!; [done..|by constructor|done| |].
    + intros x'. by rewrite Hl.
    + intros y'. by rewrite Hk.
Qed.

(** ** Assertions of collection.hxx *)

(** [COLLAssert( b )]: an assertion that does not hold is [None]. *)
Definition COLLAssert (b : bool) : option unit := if b then Some tt else None.

(** ** Error codes the modelled code returns (esent.h) *)

Definition JET_errSuccess : Z := 0.
Definition JET_wrnBufferTruncated : Z := 1006.
Definition JET_errInvalidParameter : Z := -1003.
Definition JET_errOutOfMemory : Z := -1011.
Definition JET_errReadVerifyFailure : Z := -1018.
Definition JET_errDiskIO : Z := -1022.
Definition JET_errBufferTooSmall : Z := -1038.
Definition JET_errDecompressionFailed : Z := -1620.
Definition JET_errDecryptionFailed : Z := -1622.
Definition errRECCannotCompress : Z := -418.
