(* ===== verification/Parity.v ===== *)
(** * Parity: sums over GF(2)

    The error-correcting checksums of [checksum*.cxx] are linear over GF(2).
    This file holds the two sums the checksum theorems are stated with:
    [xsum], the exclusive or of the booleans [f 0 .. f (n-1)], and [xorZ],
    the bitwise exclusive or of the integers [f 0 .. f (n-1)], with the laws
    (additivity, exchange, regrouping into blocks) the proofs rewrite with. *)

From S2P Require Import Prelude.

Fixpoint xsum (n : nat) (f : nat -> bool) : bool :=
  match n with
  | O => false
  | S n => xorb (xsum n f) (f n)
  end.

Fixpoint xorZ (n : nat) (f : nat -> Z) : Z :=
  match n with
  | O => 0
  | S n => xorZ n f ^^ f n
  end.

(** Parity of the low [n] bits of [x]. *)
Definition parity (n : nat) (x : Z) : bool := xsum n (fun i => Z.testbit x (Z.of_nat i)).

(** [sel b x] is [x] when [b] holds and 0 otherwise: what the code writes as
    [x & mask] with an all-ones or all-zeroes mask. *)
Definition sel (b : bool) (x : Z) : Z := if b then x else 0.

(** ** Laws of [xsum] *)

Lemma xsum_ext n f g : (forall k, (k < n)%nat -> f k = g k) -> xsum n f = xsum n g.
Proof. induction n as [|n IH]; intros H; simpl; [easy|]. rewrite IH, H by auto. easy. Qed.

Lemma xsum_xorb n f g : xsum n (fun k => xorb (f k) (g k)) = xorb (xsum n f) (xsum n g).
Proof.
  induction n as [|n IH]; simpl; [easy|]. rewrite IH.
  destruct (xsum n f), (xsum n g), (f n), (g n); easy.
Qed.

Lemma xsum_false n : xsum n (fun _ => false) = false.
Proof. induction n as [|n IH]; simpl; [easy|]. now rewrite IH. Qed.

Lemma xsum_andb_l n b f : xsum n (fun k => b && f k) = b && xsum n f.
Proof. induction n as [|n IH]; simpl; [now rewrite andb_false_r|]. rewrite IH. now destruct b. Qed.

Lemma xsum_andb_r n b f : xsum n (fun k => f k && b) = xsum n f && b.
Proof.
  rewrite andb_comm, <- xsum_andb_l. apply xsum_ext. intros. apply andb_comm.
Qed.

Lemma xsum_add n m f : xsum (n + m) f = xorb (xsum n f) (xsum m (fun k => f (n + k)%nat)).
Proof.
  induction m as [|m IH]; [now rewrite Nat.add_0_r, xorb_false_r|].
  rewrite Nat.add_succ_r. simpl. rewrite IH. apply xorb_assoc.
Qed.

(** Terms above [m] vanish. *)
Lemma xsum_trunc n m f :
  (m <= n)%nat -> (forall k, (m <= k < n)%nat -> f k = false) -> xsum n f = xsum m f.
Proof.
  intros Hm H. replace n with (m + (n - m))%nat by lia. rewrite xsum_add.
  rewrite (xsum_ext (n - m) _ (fun _ => false)), xsum_false, xorb_false_r; [easy|].
  intros k Hk. apply H. lia.
Qed.

(** A sum over [g * s] indices, block by block. *)
Lemma xsum_blocks g s f :
  xsum (g * s) f = xsum g (fun i => xsum s (fun j => f (i * s + j)%nat)).
Proof.
  induction g as [|g IH]; simpl; [easy|].
  rewrite Nat.add_comm, xsum_add, IH. easy.
Qed.

Lemma xsum_exchange n m f :
  xsum n (fun i => xsum m (fun j => f i j)) = xsum m (fun j => xsum n (fun i => f i j)).
Proof.
  induction n as [|n IH]; simpl; [now rewrite xsum_false|].
  now rewrite IH, xsum_xorb.
Qed.

(** A sum with a single possibly non-zero term. *)
Lemma xsum_single n f k :
  (k < n)%nat -> (forall j, (j < n)%nat -> j <> k -> f j = false) -> xsum n f = f k.
Proof.
  intros Hk H. replace n with (k + S (n - S k))%nat by lia.
  rewrite xsum_add, (xsum_ext k _ (fun _ => false)), xsum_false, xorb_false_l by
    (intros; apply H; lia).
  replace (S (n - S k)) with (1 + (n - S k))%nat by lia.
  rewrite xsum_add, (xsum_ext (n - S k) _ (fun _ => false)), xsum_false, xorb_false_r by
    (intros; apply H; lia).
  cbn [xsum]. now rewrite xorb_false_l, Nat.add_0_r.
Qed.

(** ** Selection sums

    [sum_sel n bits sigma] is the parity of the bits whose index is selected by
    [sigma].  When [sigma] only looks at the block number (or only at the
    position inside the block), the sum factors through the block parities
    (or through the exclusive or of the blocks). *)

Definition sum_sel (n : nat) (bits sigma : nat -> bool) : bool :=
  xsum n (fun k => bits k && sigma k).

Lemma sum_sel_high g s bits sigma tau :
  (forall i j, (i < g)%nat -> (j < s)%nat -> sigma (i * s + j)%nat = tau i) ->
  sum_sel (g * s) bits sigma =
    sum_sel g (fun i => xsum s (fun j => bits (i * s + j)%nat)) tau.
Proof.
  intros H. unfold sum_sel. rewrite xsum_blocks. apply xsum_ext. intros i Hi.
  rewrite <- xsum_andb_r. apply xsum_ext. intros j Hj. now rewrite H.
Qed.

Lemma sum_sel_low g s bits sigma tau :
  (forall i j, (i < g)%nat -> (j < s)%nat -> sigma (i * s + j)%nat = tau j) ->
  sum_sel (g * s) bits sigma =
    sum_sel s (fun j => xsum g (fun i => bits (i * s + j)%nat)) tau.
Proof.
  intros H. unfold sum_sel. rewrite xsum_blocks, xsum_exchange. apply xsum_ext. intros j Hj.
  rewrite <- xsum_andb_r. apply xsum_ext. intros i Hi. now rewrite H.
Qed.

Lemma sum_sel_ext n bits bits' sigma sigma' :
  (forall k, (k < n)%nat -> bits k = bits' k) ->
  (forall k, (k < n)%nat -> sigma k = sigma' k) ->
  sum_sel n bits sigma = sum_sel n bits' sigma'.
Proof. intros H H'. apply xsum_ext. intros. now rewrite H, H'. Qed.

(** ** Laws of [xorZ] *)

Lemma xorZ_testbit n f i : Z.testbit (xorZ n f) i = xsum n (fun k => Z.testbit (f k) i).
Proof. induction n as [|n IH]; simpl; [apply Z.bits_0|]. now rewrite Z.lxor_spec, IH. Qed.

Lemma xorZ_ext n f g : (forall k, (k < n)%nat -> f k = g k) -> xorZ n f = xorZ n g.
Proof. induction n as [|n IH]; intros H; simpl; [easy|]. rewrite IH, H by auto. easy. Qed.

Lemma xorZ_lxor n f g : xorZ n (fun k => f k ^^ g k) = xorZ n f ^^ xorZ n g.
Proof.
  bitwise i. rewrite Z.lxor_spec, !xorZ_testbit, <- xsum_xorb.
  apply xsum_ext. intros. apply Z.lxor_spec.
Qed.

Lemma xorZ_in_u w n f :
  0 <= w -> (forall k, (k < n)%nat -> in_u w (f k)) -> in_u w (xorZ n f).
Proof.
  intros Hw. induction n as [|n IH]; intros H; simpl.
  - unfold in_u. pose proof (pow2_pos w). lia.
  - apply in_u_lxor; [easy|apply IH; auto|apply H; lia].
Qed.

Lemma xorZ_add n m f : xorZ (n + m) f = xorZ n f ^^ xorZ m (fun k => f (n + k)%nat).
Proof.
  bitwise i. now rewrite Z.lxor_spec, !xorZ_testbit, xsum_add.
Qed.

Lemma xorZ_blocks g s f : xorZ (g * s) f = xorZ g (fun i => xorZ s (fun j => f (i * s + j)%nat)).
Proof.
  bitwise t. rewrite !xorZ_testbit, xsum_blocks. apply xsum_ext.
  intros. now rewrite xorZ_testbit.
Qed.

Lemma xorZ_single n f k :
  (k < n)%nat -> (forall j, (j < n)%nat -> j <> k -> f j = 0) -> xorZ n f = f k.
Proof.
  intros Hk H. bitwise i. rewrite xorZ_testbit.
  apply (xsum_single n (fun j => Z.testbit (f j) i) k Hk).
  intros j Hj Hne. now rewrite H, Z.bits_0.
Qed.

Lemma sel_testbit b x i : Z.testbit (sel b x) i = b && Z.testbit x i.
Proof. destruct b; simpl; [easy|apply Z.bits_0]. Qed.

(** ** Laws of [parity] *)

Lemma parity_lxor n x y : parity n (x ^^ y) = xorb (parity n x) (parity n y).
Proof.
  unfold parity. rewrite <- xsum_xorb. apply xsum_ext. intros. apply Z.lxor_spec.
Qed.

Lemma parity_0 n : parity n 0 = false.
Proof.
  unfold parity. rewrite (xsum_ext _ _ (fun _ => false)); [apply xsum_false|].
  intros. apply Z.bits_0.
Qed.

(** Bits above the width do not count. *)
Lemma parity_wider n m x : in_u (Z.of_nat n) x -> (n <= m)%nat -> parity m x = parity n x.
Proof.
  intros Hx Hm. apply xsum_trunc; [easy|].
  intros k Hk. apply (in_u_testbit_high (Z.of_nat n)); [easy|lia].
Qed.

(** The parity of a word is the parity of its two halves added together. *)
Lemma parity_fold n x :
  parity (n + n) x = parity n (x ^^ Z.shiftr x (Z.of_nat n)).
Proof.
  unfold parity at 1. rewrite xsum_add, parity_lxor. f_equal.
  apply xsum_ext. intros k Hk. rewrite Z.shiftr_spec by lia. f_equal. lia.
Qed.

Lemma parity_xorZ n m f : parity n (xorZ m f) = xsum m (fun k => parity n (f k)).
Proof.
  induction m as [|m IH]; simpl; [apply parity_0|]. now rewrite parity_lxor, IH.
Qed.

#[export] Hint Rewrite Z.lxor_spec Z.land_spec Z.lor_spec Z.bits_0 sel_testbit xorZ_testbit
  : testbits.
