(* ===== verification/ChecksumDefs.v ===== *)
(** * ChecksumDefs: the page checksums of checksum.cxx, checksum_amd64.cxx
      and checksum_avx.cxx

    The definitions are translated one function at a time.  Every variant
    (plain, SSE, SSE2 with and without popcnt, 64 bit, AVX) is kept, with its
    own block size, its own index constants and its own folding steps; the
    theorems about them are in ChecksumEcc.v and ChecksumNew.v.

    Memory: [pb] is the list of the bytes of the page.  A load that leaves the
    buffer yields [oob n i], an arbitrary value the definitions are
    parametrised by, so a theorem that holds for every [oob] shows that the
    code does not depend on anything outside of the page. *)

From S2P Require Import Prelude.

Section Loads.

Context (oob : nat -> Z -> Z).

(** [((T* )pb)[i]] for a type of [n] bytes on a little-endian host. *)
Definition ld (n : nat) (pb : list Z) (i : Z) : Z :=
  match rd_le n pb (Z.of_nat n * i) with
  | Some x => x
  | None => oob n i
  end.

(** ** Old format (checksum.cxx, checksum_amd64.cxx) *)

(** The loop [while ((cbT -= cbStep) >= 0) { acc ^= pw[0] ^ ... ; pw += c; }] over
    [c] words of [n] bytes per round; [cbT] is a signed 64-bit counter. *)
Fixpoint xor_words (c : nat) (n : nat) (pb : list Z) (ofs : Z) : Z :=
  match c with
  | O => 0
  | S c => xor_words c n pb ofs ^^ ld n pb (ofs + Z.of_nat c)
  end.

Record oldacc := OldAcc { o_cbT : Z; o_pw : Z; o_acc : Z }.

Definition old_round (c n : nat) (pb : list Z) (s : oldacc) : oldacc :=
  OldAcc (o_cbT s - Z.of_nat (c * n)) (o_pw s + Z.of_nat c)
    (o_acc s ^^ xor_words c n pb (o_pw s)).

Definition old_loop (c n : nat) (pb : list Z) (cb acc : Z) : Z :=
  o_acc (while_do (Z.to_nat cb) (fun s => 0 <=? o_cbT s - Z.of_nat (c * n))
           (old_round c n pb) (OldAcc cb 0 acc)).

Definition ChecksumOldFormatSlowly (pb : list Z) (cb : Z) : Z :=
  old_loop 8 4 pb cb (0x89abcdef ^^ ld 4 pb 0).

Definition ChecksumOldFormatSSE (pb : list Z) (cb : Z) : Z :=
  old_loop 8 4 pb cb (0x89abcdef ^^ ld 4 pb 0).

Definition ChecksumOldFormat64Bit (pb : list Z) (cb : Z) : Z :=
  let qwChecksum := 0 ^^ (ld 8 pb 0 .& 0x00000000FFFFFFFF) in
  let qwChecksum := old_loop 4 8 pb cb qwChecksum in
  let qwUpper := Z.shiftr qwChecksum (4 * 8) in
  let qwLower := qwChecksum .& 0x00000000FFFFFFFF in
  let qwChecksum := qwUpper ^^ qwLower in
  u32 qwChecksum ^^ 0x89abcdef.

(** [__m128i] is a 128-bit integer; [lane k x] is its 32-bit lane [k]. *)
Definition lane (k : Z) (x : Z) : Z := u32 (Z.shiftr x (32 * k)).

Definition ChecksumOldFormatSSE2 (pb : list Z) (cb : Z) : Z :=
  let owChecksum := old_loop 8 16 pb cb 0 in
  let ulChecksum := 0x89abcdef ^^ ld 4 pb 0 in
  ulChecksum ^^ (lane 0 owChecksum ^^ lane 1 owChecksum ^^ lane 2 owChecksum
                 ^^ lane 3 owChecksum).

(** ** New format: common parts *)

Definition MakeChecksumFromECCXORAndPgno (eccChecksum xorChecksum pgno : Z) : Z :=
  let low := xorChecksum ^^ pgno in
  let high := u64 (Z.shiftl eccChecksum 32) in
  high .| low.

Definition g_bParityLookupTable : list Z :=
  [ 0; (-1); (-1); 0; (-1); 0; 0; (-1); (-1); 0; 0; (-1); 0; (-1); (-1); 0
  ; (-1); 0; 0; (-1); 0; (-1); (-1); 0; 0; (-1); (-1); 0; (-1); 0; 0; (-1)
  ; (-1); 0; 0; (-1); 0; (-1); (-1); 0; 0; (-1); (-1); 0; (-1); 0; 0; (-1)
  ; 0; (-1); (-1); 0; (-1); 0; 0; (-1); (-1); 0; 0; (-1); 0; (-1); (-1); 0
  ; (-1); 0; 0; (-1); 0; (-1); (-1); 0; 0; (-1); (-1); 0; (-1); 0; 0; (-1)
  ; 0; (-1); (-1); 0; (-1); 0; 0; (-1); (-1); 0; 0; (-1); 0; (-1); (-1); 0
  ; 0; (-1); (-1); 0; (-1); 0; 0; (-1); (-1); 0; 0; (-1); 0; (-1); (-1); 0
  ; (-1); 0; 0; (-1); 0; (-1); (-1); 0; 0; (-1); (-1); 0; (-1); 0; 0; (-1)
  ; (-1); 0; 0; (-1); 0; (-1); (-1); 0; 0; (-1); (-1); 0; (-1); 0; 0; (-1)
  ; 0; (-1); (-1); 0; (-1); 0; 0; (-1); (-1); 0; 0; (-1); 0; (-1); (-1); 0
  ; 0; (-1); (-1); 0; (-1); 0; 0; (-1); (-1); 0; 0; (-1); 0; (-1); (-1); 0
  ; (-1); 0; 0; (-1); 0; (-1); (-1); 0; 0; (-1); (-1); 0; (-1); 0; 0; (-1)
  ; 0; (-1); (-1); 0; (-1); 0; 0; (-1); (-1); 0; 0; (-1); 0; (-1); (-1); 0
  ; (-1); 0; 0; (-1); 0; (-1); (-1); 0; 0; (-1); (-1); 0; (-1); 0; 0; (-1)
  ; (-1); 0; 0; (-1); 0; (-1); (-1); 0; 0; (-1); (-1); 0; (-1); 0; 0; (-1)
  ; 0; (-1); (-1); 0; (-1); 0; 0; (-1); (-1); 0; 0; (-1); 0; (-1); (-1); 0 ].

Definition lParityMask (dw : Z) : Z :=
  let dw1 := Z.shiftr dw 16 in
  let dw2 := dw ^^ dw1 in
  let dw3 := Z.shiftr dw2 8 in
  let dw4 := dw2 ^^ dw3 in
  nth (Z.to_nat (dw4 .& 0xff)) g_bParityLookupTable 0.

(** [const ULONG mask = ( cb << 19 ) - 1;] *)
Definition cb_mask (cb : Z) : Z := u32 (u32 (Z.shiftl cb 19) - 1).

(** ** New format on 32-bit words: Basic, Slowly, SSE *)

Definition DwXORChecksumBasic (pb : list Z) (cb : Z) : Z :=
  old_loop 8 4 pb cb (ld 4 pb 0 ^^ ld 4 pb 1).

Record dwacc := DwAcc {
  d_p : Z; d_idxp : Z; d_i : Z; d_p0 : Z; d_p1 : Z; d_p2 : Z; d_p3 : Z }.

Definition dw_init : dwacc := DwAcc 0 0xff800000 0 0 0 0 0.

(** The loop body from the label [Start:] to [i += 8]. *)
Definition dw_start (pb : list Z) (pT0 pT1 : Z) (s : dwacc) : dwacc :=
  let i := d_i s in
  let pT2 := ld 4 pb (i + 2) in
  let pT3 := ld 4 pb (i + 3) in
  let p0 := d_p0 s ^^ pT0 in
  let p1 := d_p1 s ^^ pT1 in
  let p2 := d_p2 s ^^ pT2 in
  let p3 := d_p3 s ^^ pT3 in
  let p := d_p s ^^ (d_idxp s .& lParityMask (pT0 ^^ pT1 ^^ pT2 ^^ pT3)) in
  let idxp := u32 (d_idxp s + 0xff800080) in
  let pT4 := ld 4 pb (i + 4) in
  let pT5 := ld 4 pb (i + 5) in
  let pT6 := ld 4 pb (i + 6) in
  let pT7 := ld 4 pb (i + 7) in
  let p0 := p0 ^^ pT4 in
  let p1 := p1 ^^ pT5 in
  let p2 := p2 ^^ pT6 in
  let p3 := p3 ^^ pT7 in
  let p := p ^^ (idxp .& lParityMask (pT4 ^^ pT5 ^^ pT6 ^^ pT7)) in
  let idxp := u32 (idxp + 0xff800080) in
  DwAcc p idxp (u32 (i + 8)) p0 p1 p2 p3.

Definition dw_body (pb : list Z) (s : dwacc) : dwacc :=
  dw_start pb (ld 4 pb (d_i s + 0)) (ld 4 pb (d_i s + 1)) s.

(** [if (fHeaderBlock) goto Start; do { ... Start: ... } while (i < cdw);] *)
Definition dw_loop (pb : list Z) (cb : Z) (fHeaderBlock : bool) : dwacc :=
  let cdw := cb / 4 in
  let s := if fHeaderBlock then dw_start pb 0 0 dw_init else dw_body pb dw_init in
  while_do (Z.to_nat cdw) (fun s => d_i s <? cdw) (dw_body pb) s.

(** [for (ULONG i = 1; i; i += i)]: fold the 32 columns of [r2]. *)
Record colacc := ColAcc { c_i : Z; c_r : Z; c_idxr : Z }.

Definition col_body (r2 : Z) (s : colacc) : colacc :=
  let mask := if r2 .& c_i s =? 0 then 0 else -1 in
  ColAcc (u32 (c_i s + c_i s)) (c_r s ^^ (mask .& c_idxr s)) (u32 (c_idxr s + 0xffff0001)).

Definition col_loop (r2 : Z) : Z :=
  c_r (while_do 64 (fun s => negb (c_i s =? 0)) (col_body r2) (ColAcc 1 0 0xffff0000)).

(** From the end of the page loop to the ECC word; also returns [r2]. *)
Definition dw_finish (cb : Z) (s : dwacc) : Z * Z :=
  let p := d_p s in
  let p := p .| (0x00400000 .& lParityMask (d_p0 s ^^ d_p1 s)) in
  let p := p .| (0x00000040 .& lParityMask (d_p2 s ^^ d_p3 s)) in
  let r0 := d_p0 s ^^ d_p2 s in
  let r1 := d_p1 s ^^ d_p3 s in
  let p := p .| (0x00200000 .& lParityMask r0) in
  let p := p .| (0x00000020 .& lParityMask r1) in
  let r2 := r0 ^^ r1 in
  let r := col_loop r2 in
  ((p .& 0xffe0ffe0 .& cb_mask cb) .| (r .& 0x001f001f), r2).

Definition ChecksumNewFormatBasic (pb : list Z) (cb pgno : Z) (fHeaderBlock : bool) : Z :=
  let '(eccChecksum, _) := dw_finish cb (dw_loop pb cb fHeaderBlock) in
  let xorChecksum := DwXORChecksumBasic pb cb in
  MakeChecksumFromECCXORAndPgno eccChecksum xorChecksum pgno.

Definition ChecksumNewFormatSlowly (pb : list Z) (cb pgno : Z) (fHeaderBlock : bool) : Z :=
  let '(ecc, xor_) := dw_finish cb (dw_loop pb cb fHeaderBlock) in
  MakeChecksumFromECCXORAndPgno ecc xor_ pgno.

Definition ChecksumNewFormatSSE (pb : list Z) (cb pgno : Z) (fHeaderBlock : bool) : Z :=
  let '(ecc, xor_) := dw_finish cb (dw_loop pb cb fHeaderBlock) in
  MakeChecksumFromECCXORAndPgno ecc xor_ pgno.

(** ** New format, 64 bit *)

Record rowacc := RowAcc { w_i : Z; w_col : Z; w_p : Z; w_q : Z }.

Definition row_body (pb : list Z) (s : rowacc) : rowacc :=
  let iRow := w_i s in
  let dwRow := ld 4 pb iRow in
  let maskRow := lParityMask dwRow in
  RowAcc (u32 (iRow + 1)) (w_col s ^^ dwRow)
    (w_p s ^^ (maskRow .& iRow)) (w_q s ^^ (maskRow .& u32 (Z.lnot iRow))).

Definition column_body (dwColumnParity : Z) (s : Z * Z * Z) : Z * Z * Z :=
  let '(iColumn, r, s) := s in
  let maskColumn := if dwColumnParity .& u32 (Z.shiftl 1 iColumn) =? 0 then 0 else -1 in
  (u32 (iColumn + 1), r ^^ (maskColumn .& iColumn),
   s ^^ (maskColumn .& u32 (Z.lnot iColumn))).

Definition ChecksumNewFormat64Bit (pb : list Z) (cb pgno : Z) (fHeaderBlock : bool) : Z :=
  let cColumn := 32 in
  let cRow := cb / (cColumn / 8) in
  let rows := while_do (Z.to_nat cRow) (fun s => w_i s <? cRow) (row_body pb)
                (RowAcc (if fHeaderBlock then 2 else 0) 0 0 0) in
  let dwColumnParity := w_col rows in
  let '(_, r, s) := while_do 32 (fun s => s.1.1 <? cColumn) (column_body dwColumnParity) (0, 0, 0) in
  let ulEcc := (u32 (Z.shiftl (w_q rows .& u32 (cRow - 1)) 21))
            .| (u32 (Z.shiftl (s .& u32 (cColumn - 1)) 16))
            .| (u32 (Z.shiftl (w_p rows .& u32 (cRow - 1)) 5))
            .| (u32 (Z.shiftl (r .& u32 (cColumn - 1)) 0))
            .| 0 in
  MakeChecksumFromECCXORAndPgno ulEcc dwColumnParity pgno.

(** ** New format, SSE2 *)

Definition mk128 (a b c d : Z) : Z := a + 2 ^ 32 * (b + 2 ^ 32 * (c + 2 ^ 32 * d)).

(** [_mm_shuffle_epi32]: lane [k] of the result is the lane of [x] that bits
    [2k+1:2k] of [imm] select. *)
Definition mm_shuffle_epi32 (x imm : Z) : Z :=
  mk128 (lane (imm .& 3) x) (lane (Z.shiftr imm 2 .& 3) x)
        (lane (Z.shiftr imm 4 .& 3) x) (lane (Z.shiftr imm 6 .& 3) x).

(** [_mm_unpackhi_epi64]: the high quadwords of [a] and of [b]. *)
Definition mm_unpackhi_epi64 (a b : Z) : Z :=
  u64 (Z.shiftr a 64) + 2 ^ 64 * u64 (Z.shiftr b 64).

(** [_mm_popcnt_u32], [_mm_popcnt_u64]: the number of set bits. *)
Fixpoint popcnt (n : nat) (x : Z) : Z :=
  match n with
  | O => 0
  | S n => popcnt n x + Z.b2z (Z.testbit x (Z.of_nat n))
  end.

Inductive ChecksumParityMaskFunc := ParityMaskFuncDefault | ParityMaskFuncPopcnt.

Definition lParityMask_m128 (dq : Z) : Z :=
  let dq1 := mm_shuffle_epi32 dq 0x4e in
  let dq2 := dq ^^ dq1 in
  let dq3 := mm_shuffle_epi32 dq2 0x1b in
  let dq4 := dq2 ^^ dq3 in
  lParityMask (u32 dq4).

Definition lParityMaskPopcnt_m128 (dq : Z) : Z :=
  let dq1 := mm_shuffle_epi32 dq 0x4e in
  let dq2 := dq ^^ dq1 in
  - (popcnt 64 (u64 dq2) .& 0x01).

Definition lParityMaskPopcnt (dw : Z) : Z := - (popcnt 32 dw .& 0x01).

Definition g_bECCLookupTable : list Z :=
  [ 0x00; 0x70; 0x61; 0x11; 0x52; 0x22; 0x33; 0x43; 0x43; 0x33; 0x22; 0x52; 0x11; 0x61; 0x70; 0x00
  ; 0x34; 0x44; 0x55; 0x25; 0x66; 0x16; 0x07; 0x77; 0x77; 0x07; 0x16; 0x66; 0x25; 0x55; 0x44; 0x34
  ; 0x25; 0x55; 0x44; 0x34; 0x77; 0x07; 0x16; 0x66; 0x66; 0x16; 0x07; 0x77; 0x34; 0x44; 0x55; 0x25
  ; 0x11; 0x61; 0x70; 0x00; 0x43; 0x33; 0x22; 0x52; 0x52; 0x22; 0x33; 0x43; 0x00; 0x70; 0x61; 0x11
  ; 0x16; 0x66; 0x77; 0x07; 0x44; 0x34; 0x25; 0x55; 0x55; 0x25; 0x34; 0x44; 0x07; 0x77; 0x66; 0x16
  ; 0x22; 0x52; 0x43; 0x33; 0x70; 0x00; 0x11; 0x61; 0x61; 0x11; 0x00; 0x70; 0x33; 0x43; 0x52; 0x22
  ; 0x33; 0x43; 0x52; 0x22; 0x61; 0x11; 0x00; 0x70; 0x70; 0x00; 0x11; 0x61; 0x22; 0x52; 0x43; 0x33
  ; 0x07; 0x77; 0x66; 0x16; 0x55; 0x25; 0x34; 0x44; 0x44; 0x34; 0x25; 0x55; 0x16; 0x66; 0x77; 0x07
  ; 0x07; 0x77; 0x66; 0x16; 0x55; 0x25; 0x34; 0x44; 0x44; 0x34; 0x25; 0x55; 0x16; 0x66; 0x77; 0x07
  ; 0x33; 0x43; 0x52; 0x22; 0x61; 0x11; 0x00; 0x70; 0x70; 0x00; 0x11; 0x61; 0x22; 0x52; 0x43; 0x33
  ; 0x22; 0x52; 0x43; 0x33; 0x70; 0x00; 0x11; 0x61; 0x61; 0x11; 0x00; 0x70; 0x33; 0x43; 0x52; 0x22
  ; 0x16; 0x66; 0x77; 0x07; 0x44; 0x34; 0x25; 0x55; 0x55; 0x25; 0x34; 0x44; 0x07; 0x77; 0x66; 0x16
  ; 0x11; 0x61; 0x70; 0x00; 0x43; 0x33; 0x22; 0x52; 0x52; 0x22; 0x33; 0x43; 0x00; 0x70; 0x61; 0x11
  ; 0x25; 0x55; 0x44; 0x34; 0x77; 0x07; 0x16; 0x66; 0x66; 0x16; 0x07; 0x77; 0x34; 0x44; 0x55; 0x25
  ; 0x34; 0x44; 0x55; 0x25; 0x66; 0x16; 0x07; 0x77; 0x77; 0x07; 0x16; 0x66; 0x25; 0x55; 0x44; 0x34
  ; 0x00; 0x70; 0x61; 0x11; 0x52; 0x22; 0x33; 0x43; 0x43; 0x33; 0x22; 0x52; 0x11; 0x61; 0x70; 0x00 ].

Definition lECCLookup8bit (byte : Z) : Z :=
  nth (Z.to_nat (byte .& 0xff)) g_bECCLookupTable 0.

Record dqacc := DqAcc {
  q_p : Z; q_idxp : Z; q_i : Z; q_0 : Z; q_1 : Z; q_2 : Z; q_3 : Z }.

Definition dq_init : dqacc := DqAcc 0 0xfe000000 0 0 0 0 0.

Definition parity_m128 (T : ChecksumParityMaskFunc) (dq : Z) : Z :=
  match T with
  | ParityMaskFuncPopcnt => lParityMaskPopcnt_m128 dq
  | ParityMaskFuncDefault => lParityMask_m128 dq
  end.

Definition parity_dw (T : ChecksumParityMaskFunc) (dw : Z) : Z :=
  match T with
  | ParityMaskFuncPopcnt => lParityMaskPopcnt dw
  | ParityMaskFuncDefault => lParityMask dw
  end.

(** The loop body from the label [Start:] to [i += 8]. *)
Definition dq_start (T : ChecksumParityMaskFunc) (pb : list Z) (dqL0 : Z) (s : dqacc) : dqacc :=
  let i := q_i s in
  let dqL1 := ld 16 pb (i + 1) in
  let dqL2 := ld 16 pb (i + 2) in
  let dqL3 := ld 16 pb (i + 3) in
  let dq0 := q_0 s ^^ dqL0 in
  let dq1 := q_1 s ^^ dqL1 in
  let dq2 := q_2 s ^^ dqL2 in
  let dq3 := q_3 s ^^ dqL3 in
  let dqLAcc := dqL0 ^^ dqL1 ^^ dqL2 ^^ dqL3 in
  let p := q_p s ^^ (q_idxp s .& parity_m128 T dqLAcc) in
  let idxp := u32 (q_idxp s + 0xfe000200) in
  let dqH0 := ld 16 pb (i + 4) in
  let dqH1 := ld 16 pb (i + 5) in
  let dqH2 := ld 16 pb (i + 6) in
  let dqH3 := ld 16 pb (i + 7) in
  let dq0 := dq0 ^^ dqH0 in
  let dq1 := dq1 ^^ dqH1 in
  let dq2 := dq2 ^^ dqH2 in
  let dq3 := dq3 ^^ dqH3 in
  let dqHAcc := dqH0 ^^ dqH1 ^^ dqH2 ^^ dqH3 in
  let p := p ^^ (idxp .& parity_m128 T dqHAcc) in
  let idxp := u32 (idxp + 0xfe000200) in
  DqAcc p idxp (u32 (i + 8)) dq0 dq1 dq2 dq3.

Definition dq_body (T : ChecksumParityMaskFunc) (pb : list Z) (s : dqacc) : dqacc :=
  dq_start T pb (ld 16 pb (q_i s + 0)) s.

Definition dq_loop (T : ChecksumParityMaskFunc) (pb : list Z) (cb : Z) (fHeaderBlock : bool) : dqacc :=
  let cdq := cb / 16 in
  let s := if fHeaderBlock
           then dq_start T pb (mm_unpackhi_epi64 0 (ld 16 pb 0)) dq_init
           else dq_body T pb dq_init in
  while_do (Z.to_nat cdq) (fun s => q_i s <? cdq) (dq_body T pb) s.

(** [for (i = 0; i < n; ++i) { dwT = pdw[i]; dw0 ^= dwT; q ^= idxq & parity(dwT);
    idxq += 0xffe00020; }] over the 32-bit lanes [pdw] of an aligned array. *)
Fixpoint dw_fold (par : Z -> Z) (pdw : list Z) (s : Z * Z * Z) : Z * Z * Z :=
  match pdw with
  | [] => s
  | dwT :: pdw =>
      let '(q, dw0, idxq) := s in
      dw_fold par pdw (q ^^ (idxq .& par dwT), dw0 ^^ dwT, u32 (idxq + 0xffe00020))
  end.

Definition dwords_of_m128 (dq : Z) : list Z := [lane 0 dq; lane 1 dq; lane 2 dq; lane 3 dq].

(** The four bytes of [dw0]: [r ^= idxr & parity(byteT & 0xff); byte0 ^= byteT;
    byteT >>= 8; idxr += 0xfff80008]. *)
Fixpoint byte_fold (par : Z -> Z) (n : nat) (s : Z * Z * Z * Z) : Z * Z * Z * Z :=
  match n with
  | O => s
  | S n =>
      let '(r, byteT, byte0, idxr) := s in
      byte_fold par n
        (r ^^ (idxr .& par (byteT .& 0xff)), Z.shiftr byteT 8, byte0 ^^ byteT,
         u32 (idxr + 0xfff80008))
  end.

(** [r] with the low three index bits looked up for the folded byte. *)
Definition ecc_low_bits (r byte0 : Z) : Z :=
  let bits := lECCLookup8bit byte0 in
  let r := r .| (bits .& 0x07) in
  r .| (Z.shiftl bits 12 .& 0x00070000).

(** [g_bParityLookupTable[byteT & 0xff]], the table read at a byte. *)
Definition parity_byte (T : ChecksumParityMaskFunc) (b : Z) : Z :=
  match T with
  | ParityMaskFuncPopcnt => lParityMaskPopcnt b
  | ParityMaskFuncDefault => nth (Z.to_nat b) g_bParityLookupTable 0
  end.

Definition ChecksumNewFormatSSE2 (T : ChecksumParityMaskFunc) (pb : list Z) (cb pgno : Z)
    (fHeaderBlock : bool) : Z :=
  let s := dq_loop T pb cb fHeaderBlock in
  let pdw := dwords_of_m128 (q_0 s) ++ dwords_of_m128 (q_1 s)
             ++ dwords_of_m128 (q_2 s) ++ dwords_of_m128 (q_3 s) in
  let '(q, dw0, _) := dw_fold (parity_dw T) pdw (0, 0, 0xffe00000) in
  let '(r, _, byte0, _) := byte_fold (parity_byte T) 4 (0, dw0, 0, 0xfff80000) in
  let r := ecc_low_bits r byte0 in
  let ecc := (q_p s .& 0xfe00fe00 .& cb_mask cb) .| (q .& 0x01e001e0) .| (r .& 0x001f001f) in
  MakeChecksumFromECCXORAndPgno ecc dw0 pgno.

(** ** New format, AVX (checksum_avx.cxx) *)

(** [_mm256_permute2f128_si256(x, x, 0x01)]: swap the 128-bit halves. *)
Definition mm256_swap_halves (x : Z) : Z :=
  wrapu 128 (Z.shiftr x 128) + 2 ^ 128 * wrapu 128 x.

(** [_mm256_insertf128_si256(x, y, 1)]: replace the high half. *)
Definition mm256_insert_high (x y : Z) : Z := wrapu 128 x + 2 ^ 128 * y.

Definition lParityMaskAVX (qq : Z) : Z :=
  let qq1 := mm256_swap_halves qq in
  let dq2 := wrapu 128 (qq1 ^^ qq) in
  let dq3 := mm_shuffle_epi32 dq2 0x4e in
  let dq4 := dq3 ^^ dq2 in
  - (popcnt 64 (u64 dq4) .& 0x01).

Record qqacc := QqAcc {
  v_p : Z; v_idxp : Z; v_i : Z; v_0 : Z; v_1 : Z; v_2 : Z; v_3 : Z }.

Definition qq_init : qqacc := QqAcc 0 0xfc000000 0 0 0 0 0.

Definition qq_start (pb : list Z) (qqL0 : Z) (s : qqacc) : qqacc :=
  let i := v_i s in
  let qqL1 := ld 32 pb (i + 1) in
  let qqL2 := ld 32 pb (i + 2) in
  let qqL3 := ld 32 pb (i + 3) in
  let qqLAcc := qqL0 ^^ qqL1 ^^ qqL2 ^^ qqL3 in
  QqAcc (v_p s ^^ (v_idxp s .& lParityMaskAVX qqLAcc)) (u32 (v_idxp s + 0xfc000400))
    (u32 (i + 4)) (v_0 s ^^ qqL0) (v_1 s ^^ qqL1) (v_2 s ^^ qqL2) (v_3 s ^^ qqL3).

Definition qq_body (pb : list Z) (s : qqacc) : qqacc :=
  qq_start pb (ld 32 pb (v_i s + 0)) s.

Definition qq_loop (pb : list Z) (cb : Z) (fHeaderBlock : bool) : qqacc :=
  let cqq := cb / 32 in
  let s := if fHeaderBlock
           then qq_start pb (mm256_insert_high (mm_unpackhi_epi64 0 (ld 16 pb 0)) (ld 16 pb 1))
                  qq_init
           else qq_body pb qq_init in
  while_do (Z.to_nat cqq) (fun s => v_i s <? cqq) (qq_body pb) s.

(** [q ^= idxq & lParityMaskAVX(qq); idxq += 0xff000100], for the four accumulators. *)
Fixpoint qq_fold (qqs : list Z) (s : Z * Z) : Z * Z :=
  match qqs with
  | [] => s
  | qq :: qqs => qq_fold qqs (s.1 ^^ (s.2 .& lParityMaskAVX qq), u32 (s.2 + 0xff000100))
  end.

Definition dwords_of_m256 (qq : Z) : list Z :=
  [lane 0 qq; lane 1 qq; lane 2 qq; lane 3 qq; lane 4 qq; lane 5 qq; lane 6 qq; lane 7 qq].

Definition ChecksumNewFormatAVX (pb : list Z) (cb pgno : Z) (fHeaderBlock : bool) : Z :=
  let s := qq_loop pb cb fHeaderBlock in
  let qqAcc := v_0 s ^^ v_1 s ^^ v_2 s ^^ v_3 s in
  let '(q, _) := qq_fold [v_0 s; v_1 s; v_2 s; v_3 s] (0, 0xff000000) in
  let '(q_, dwAcc, _) := dw_fold lParityMaskPopcnt (dwords_of_m256 qqAcc) (0, 0, 0xffe00000) in
  let '(r, _, byte0, _) := byte_fold lParityMaskPopcnt 4 (0, dwAcc, 0, 0xfff80000) in
  let r := ecc_low_bits r byte0 in
  let ecc := (v_p s .& 0xfc00fc00 .& cb_mask cb) .| (q .& 0x03000300)
             .| (q_ .& 0x00e000e0) .| (r .& 0x001f001f) in
  MakeChecksumFromECCXORAndPgno ecc dwAcc pgno.

End Loads.
