(* ===== verification/PageWords.v ===== *)
(** * PageWords: a page as one integer

    A page of [cb] bytes is the integer [le_num pb]; the word a variant loads
    at index [g] of width [s] is the bit field [word s B g].  The lemmas relate
    the loads, the exclusive or of all words at one width and the lanes of the
    accumulator at a wider one. *)

From S2P Require Import Prelude Parity ChecksumDefs.

Definition word (s : Z) (B : Z) (g : nat) : Z := wrapu s (Z.shiftr B (s * Z.of_nat g)).

Lemma word_testbit s B g i :
  0 <= s -> 0 <= i ->
  Z.testbit (word s B g) i = (i <? s) && Z.testbit B (s * Z.of_nat g + i).
Proof.
  intros Hs Hi. unfold word. rewrite testbit_wrapu, Z.shiftr_spec by lia.
  now rewrite (Z.add_comm i).
Qed.

Lemma word_in_u s B g : 0 <= s -> in_u s (word s B g).
Proof. intros. now apply wrapu_range. Qed.

#[export] Hint Resolve word_in_u : words.

(** A load inside of the page. *)
Lemma ld_word oob n pb i :
  bytes_ok pb -> 0 <= i -> Z.of_nat n * (i + 1) <= Z.of_nat (length pb) ->
  ld oob n pb i = word (8 * Z.of_nat n) (le_num pb) (Z.to_nat i).
Proof.
  intros Hok Hi Hlen. unfold ld. rewrite rd_le_Some by lia.
  bitwise j. rewrite le_num_slice_testbit, word_testbit by (easy || lia).
  f_equal. f_equal. lia.
Qed.

(** Lane [q] of the exclusive or of wide words. *)
Lemma word_xorZ_lane s (G k q : nat) B :
  0 < s -> (q < k)%nat ->
  word s (xorZ G (word (Z.of_nat k * s) B)) q = xorZ G (fun g => word s B (k * g + q)).
Proof.
  intros Hs Hq. bitwise i. rewrite xorZ_testbit, word_testbit, xorZ_testbit by nia.
  rewrite <- xsum_andb_l. apply xsum_ext. intros g Hg. rewrite !word_testbit by nia.
  destruct (Z.ltb_spec i s); [|easy]. rewrite !andb_true_l.
  rewrite (proj2 (Z.ltb_lt _ (Z.of_nat k * s))) by nia. rewrite andb_true_l.
  f_equal. rewrite Nat2Z.inj_add, Nat2Z.inj_mul. lia.
Qed.

(** A narrow word of a wide word. *)
Lemma word_word s (k g q : nat) B :
  0 < s -> (q < k)%nat -> word s (word (Z.of_nat k * s) B g) q = word s B (k * g + q).
Proof.
  intros Hs Hq. bitwise i. rewrite !word_testbit by nia.
  destruct (Z.ltb_spec i s); [|easy]. rewrite !andb_true_l.
  rewrite (proj2 (Z.ltb_lt _ (Z.of_nat k * s))) by nia. rewrite andb_true_l.
  f_equal. rewrite Nat2Z.inj_add, Nat2Z.inj_mul. lia.
Qed.

(** Exclusive or of the [g * m] narrow words, grouped by position inside the
    wide word: the lanes of the exclusive or of the [m] wide words. *)
Lemma xorZ_word_lanes s (m g : nat) B :
  0 < s ->
  xorZ (m * g) (word s B) =
  xorZ g (word s (xorZ m (word (Z.of_nat g * s) B))).
Proof.
  intros Hs. bitwise i. rewrite !xorZ_testbit.
  destruct (Z.ltb_spec i s) as [Hi|Hi].
  - rewrite xsum_blocks, xsum_exchange. apply xsum_ext. intros q Hq.
    rewrite word_testbit, (proj2 (Z.ltb_lt i s)), andb_true_l, xorZ_testbit by lia.
    apply xsum_ext. intros k Hk.
    rewrite !word_testbit by nia. rewrite (proj2 (Z.ltb_lt i s)) by lia.
    rewrite (proj2 (Z.ltb_lt _ (Z.of_nat g * s))) by nia. rewrite !andb_true_l.
    f_equal. rewrite Nat2Z.inj_add, Nat2Z.inj_mul. lia.
  - assert (Hz : forall n X, xsum n (fun k => Z.testbit (word s X k) i) = false).
    { intros n X. rewrite <- (xsum_false n). apply xsum_ext. intros k Hk.
      rewrite word_testbit by lia. now rewrite (proj2 (Z.ltb_ge i s)) by lia. }
    now rewrite !Hz.
Qed.

(** Parity of one wide word, from its lanes. *)
Lemma parity_word_lanes (s g : nat) x :
  parity (g * s) x = xsum g (fun q => parity s (word (Z.of_nat s) x q)).
Proof.
  unfold parity. rewrite xsum_blocks. apply xsum_ext. intros q Hq.
  apply xsum_ext. intros j Hj. rewrite word_testbit by lia.
  rewrite (proj2 (Z.ltb_lt _ _)) by lia. rewrite andb_true_l. f_equal. lia.
Qed.

(** The sizes the checksum routines accept:
    [Assert( 0 == ( cb & ( cb - 1 ) ) ); Assert( 1024 <= cb && cb <= 8192 );] *)
Definition page_size_ok (cb : Z) : bool :=
  (cb .& (cb - 1) =? 0) && (1024 <=? cb) && (cb <=? 8192).

Lemma page_size_cases cb :
  page_size_ok cb = true -> cb = 1024 \/ cb = 2048 \/ cb = 4096 \/ cb = 8192.
Proof.
  unfold page_size_ok. intros H. bool_to_prop.
  assert (Hlog : cb = 2 ^ Z.log2 cb).
  { destruct (Z.log2_spec cb) as [Hl Hu]; [lia|].
    destruct (Z.eq_dec cb (2 ^ Z.log2 cb)) as [|Hne]; [easy|exfalso].
    assert (Hb : Z.testbit (cb .& (cb - 1)) (Z.log2 cb) = true).
    { rewrite Z.land_spec. rewrite Z.bit_log2 by lia.
      replace (Z.log2 cb) with (Z.log2 (cb - 1)); [now rewrite Z.bit_log2 by lia|].
      apply Z.log2_unique; [apply Z.log2_nonneg|]. lia. }
    match goal with H : _ .& _ = 0 |- _ => rewrite H, Z.bits_0 in Hb end. easy. }
  assert (10 <= Z.log2 cb <= 13).
  { split; [change 10 with (Z.log2 1024)|change 13 with (Z.log2 8192)];
      apply Z.log2_le_mono; lia. }
  assert (Z.log2 cb = 10 \/ Z.log2 cb = 11 \/ Z.log2 cb = 12 \/ Z.log2 cb = 13) as [E|[E|[E|E]]]
    by lia; rewrite E in Hlog; simpl in Hlog; lia.
Qed.

(** The page as checksummed: with [fHeaderBlock] the first 8 bytes (the stored
    checksum) are taken as zero. *)
Definition page_num (pb : list Z) (fHeaderBlock : bool) : Z :=
  if fHeaderBlock then Z.shiftl (Z.shiftr (le_num pb) 64) 64 else le_num pb.

Lemma page_num_testbit pb h k :
  0 <= k -> Z.testbit (page_num pb h) k = negb (h && (k <? 64)) && Z.testbit (le_num pb) k.
Proof.
  intros Hk. destruct h; simpl; [|easy].
  rewrite Z.shiftl_spec by lia. destruct (Z.ltb_spec k 64).
  - rewrite Z.testbit_neg_r by lia. easy.
  - rewrite Z.shiftr_spec by lia. simpl. f_equal. lia.
Qed.

Lemma page_num_word s pb h g :
  0 < s -> (h = true -> 64 <= s * Z.of_nat g) -> word s (le_num pb) g = word s (page_num pb h) g.
Proof.
  intros Hs Hh. bitwise i. rewrite !word_testbit, page_num_testbit by nia.
  destruct h; simpl; [|easy].
  rewrite (proj2 (Z.ltb_ge (s * Z.of_nat g + i) 64)) by lia. easy.
Qed.

Lemma page_num_word_zero pb g : 32 * Z.of_nat g + 32 <= 64 -> word 32 (page_num pb true) g = 0.
Proof.
  intros Hg. bitwise i. rewrite word_testbit, page_num_testbit, Z.bits_0 by lia.
  destruct (Z.ltb_spec i 32); [|easy].
  rewrite (proj2 (Z.ltb_lt _ 64)) by lia. easy.
Qed.

(** A load that does not touch the header. *)
Lemma ld_page_num oob pb h n i :
  bytes_ok pb -> (0 < n)%nat -> 0 <= i -> Z.of_nat n * (i + 1) <= Z.of_nat (length pb) ->
  (h = true -> 64 <= 8 * Z.of_nat n * i) ->
  ld oob n pb i = word (8 * Z.of_nat n) (page_num pb h) (Z.to_nat i).
Proof.
  intros Hpb Hn Hi Hr Hh. rewrite ld_word by (easy || lia).
  apply page_num_word; [lia|]. intros E. specialize (Hh E). rewrite Z2Nat.id by lia. lia.
Qed.
