(* ===== verification/ChecksumEcc.v ===== *)
(** * ChecksumEcc: the reference error-correcting checksum

    [ecc_ref n B]: the low half is the exclusive or of the indices of the set
    bits of the [n]-bit page [B], the high half the exclusive or of their
    complements.  [xor_ref] is the exclusive or of the 32-bit words.  The
    checksum routines are shown to compute these in ChecksumNew.v; here is what
    makes the code correct one flipped bit and recognise two. *)

From S2P Require Import Prelude Parity ChecksumDefs PageWords.

(** ** The old page checksum

    The four implementations of the old format (plain 32-bit, SSE prefetching,
    64-bit and 128-bit accumulators) compute the same function of the page:
    a constant, the first word, and the exclusive or of all words. *)

(** What the old format promises: [cdw] is the number of 32-bit words. *)
Definition old_checksum_spec (pb : list Z) (cdw : nat) : Z :=
  0x89abcdef ^^ word 32 (le_num pb) 0 ^^ xorZ cdw (word 32 (le_num pb)).

Section OldFormat.

Context (oob : nat -> Z -> Z) (pb : list Z).
Hypothesis Hpb : bytes_ok pb.

Lemma xor_words_xorZ c n ofs :
  0 <= ofs -> Z.of_nat n * (ofs + Z.of_nat c) <= Z.of_nat (length pb) ->
  xor_words oob c n pb ofs =
  xorZ c (fun j => word (8 * Z.of_nat n) (le_num pb) (Z.to_nat ofs + j)).
Proof.
  intros Hofs. induction c as [|c IH]; intros Hlen; simpl; [easy|].
  rewrite IH, ld_word by (easy || nia). do 2 f_equal. lia.
Qed.

(** The state after [m] rounds. *)
Lemma old_rounds c n cb acc m :
  Z.of_nat (m * (c * n)) <= Z.of_nat (length pb) ->
  Nat.iter m (old_round oob c n pb) (OldAcc cb 0 acc) =
  OldAcc (cb - Z.of_nat (m * (c * n))) (Z.of_nat (m * c))
    (acc ^^ xorZ (m * c) (word (8 * Z.of_nat n) (le_num pb))).
Proof.
  induction m as [|m IH]; intros Hlen.
  - simpl. rewrite Z.sub_0_r, Z.lxor_0_r. easy.
  - simpl Nat.iter. rewrite IH by nia. unfold old_round. cbn [o_cbT o_pw o_acc].
    rewrite xor_words_xorZ by nia. rewrite Nat2Z.id. f_equal; [lia|lia|].
    rewrite Z.lxor_assoc. f_equal.
    replace (S m * c)%nat with (m * c + c)%nat by lia. now rewrite xorZ_add.
Qed.

Lemma old_loop_spec c n cb acc (m : nat) :
  (0 < c * n)%nat -> cb = Z.of_nat (m * (c * n)) -> cb <= Z.of_nat (length pb) ->
  old_loop oob c n pb cb acc = acc ^^ xorZ (m * c) (word (8 * Z.of_nat n) (le_num pb)).
Proof.
  intros Hc Hcb Hlen. unfold old_loop.
  rewrite (while_do_iter _ _ m).
  - rewrite old_rounds by lia. easy.
  - nia.
  - intros k Hk. rewrite old_rounds by nia. cbn [o_cbT]. apply Z.leb_le. nia.
  - rewrite old_rounds by lia. cbn [o_cbT]. apply Z.leb_gt. nia.
Qed.

Context (cb : Z).
Hypothesis Hlen : cb = Z.of_nat (length pb).
Hypothesis Hpos : 0 < cb.

Lemma old_slowly_spec :
  cb mod 32 = 0 -> ChecksumOldFormatSlowly oob pb cb = old_checksum_spec pb (Z.to_nat (cb / 4)).
Proof.
  intros H32. unfold ChecksumOldFormatSlowly, old_checksum_spec.
  assert (Hm : cb = 32 * (cb / 32)) by (apply Z.div_exact; lia).
  rewrite (old_loop_spec 8 4 cb _ (Z.to_nat (cb / 32))) by lia.
  rewrite ld_word by (easy || lia).
  replace (Z.to_nat (cb / 32) * 8)%nat with (Z.to_nat (cb / 4)); [easy|].
  replace (cb / 4) with (8 * (cb / 32)); [lia|].
  rewrite Hm at 2. replace (32 * (cb / 32)) with (8 * (cb / 32) * 4) by lia.
  now rewrite Z.div_mul.
Qed.

Lemma old_64bit_spec :
  cb mod 32 = 0 -> ChecksumOldFormat64Bit oob pb cb = old_checksum_spec pb (Z.to_nat (cb / 4)).
Proof.
  intros H32. unfold ChecksumOldFormat64Bit, old_checksum_spec.
  assert (Hm : cb = 32 * (cb / 32)) by (apply Z.div_exact; lia).
  rewrite (old_loop_spec 4 8 cb _ (Z.to_nat (cb / 32))) by lia.
  rewrite ld_word by (easy || lia).
  replace (Z.to_nat (cb / 4)) with (Z.to_nat (cb / 32) * 4 * 2)%nat.
  2:{ replace (cb / 4) with (8 * (cb / 32)); [lia|].
      rewrite Hm at 2. replace (32 * (cb / 32)) with (8 * (cb / 32) * 4) by lia.
      now rewrite Z.div_mul. }
  rewrite (xorZ_word_lanes 32 _ 2) by lia.
  change (8 * Z.of_nat 8) with 64. change (Z.of_nat 2 * 32) with 64.
  set (X := xorZ _ (word 64 _)).
  assert (HX : in_u 64 X) by (apply xorZ_in_u; auto with words zarith).
  change 0xFFFFFFFF with (Z.ones 32). change (4 * 8) with 32.
  bitwise i. cbn [xorZ].
  rewrite ?Z.lxor_spec, testbit_wrapu, ?Z.lxor_spec, ?Z.shiftr_spec, ?Z.land_spec,
    ?Z.lxor_spec, ?Z.land_spec, ?Z.bits_0, ?word_testbit, !Z.testbit_ones_nonneg by lia.
  change (Z.of_nat (Z.to_nat 0)) with 0. change (Z.of_nat 0) with 0.
  change (Z.of_nat 1) with 1. rewrite ?Z.mul_0_r, ?Z.add_0_l, ?Z.mul_1_r, (Z.add_comm 32 i).
  destruct (Z.ltb_spec i 32).
  - rewrite (proj2 (Z.ltb_ge (i + 32) 32)), (proj2 (Z.ltb_lt i 64)),
      (proj2 (Z.ltb_lt (i + 32) 64)) by lia.
    rewrite !andb_true_l, !andb_true_r, !andb_false_r, !xorb_false_l.
    destruct (Z.testbit 2309737967 i), (Z.testbit X i), (Z.testbit X (i + 32)),
      (Z.testbit (le_num pb) i); easy.
  - rewrite !andb_false_l. now rewrite !xorb_false_r, xorb_false_l.
Qed.

Lemma old_sse2_spec :
  cb mod 128 = 0 -> ChecksumOldFormatSSE2 oob pb cb = old_checksum_spec pb (Z.to_nat (cb / 4)).
Proof.
  intros H128. unfold ChecksumOldFormatSSE2, old_checksum_spec.
  assert (Hm : cb = 128 * (cb / 128)) by (apply Z.div_exact; lia).
  rewrite (old_loop_spec 8 16 cb _ (Z.to_nat (cb / 128))) by lia.
  rewrite ld_word by (easy || lia).
  replace (Z.to_nat (cb / 4)) with (Z.to_nat (cb / 128) * 8 * 4)%nat.
  2:{ replace (cb / 4) with (32 * (cb / 128)); [lia|].
      rewrite Hm at 2. replace (128 * (cb / 128)) with (32 * (cb / 128) * 4) by lia.
      now rewrite Z.div_mul. }
  rewrite (xorZ_word_lanes 32 _ 4) by lia.
  change (8 * Z.of_nat 16) with (Z.of_nat 4 * 32). rewrite Z.lxor_0_l.
  set (X := xorZ _ (word (Z.of_nat 4 * 32) _)).
  f_equal.
Qed.

End OldFormat.

Definition ecc_lo (n : nat) (B : Z) : Z :=
  xorZ n (fun k => sel (Z.testbit B (Z.of_nat k)) (Z.of_nat k)).

Definition ecc_hi (n : nat) (B : Z) : Z :=
  xorZ n (fun k => sel (Z.testbit B (Z.of_nat k)) (Z.of_nat (n - 1 - k))).

Definition ecc_ref (n : nat) (B : Z) : Z := ecc_lo n B + 2 ^ 16 * ecc_hi n B.

Definition xor_ref (n : nat) (B : Z) : Z := xorZ (n / 32) (word 32 B).

(** The checksum every variant of the new format promises. *)
Definition new_checksum_spec (pb : list Z) (cb pgno : Z) (fHeaderBlock : bool) : Z :=
  let n := Z.to_nat (8 * cb) in
  let B := page_num pb fHeaderBlock in
  MakeChecksumFromECCXORAndPgno (ecc_ref n B) (xor_ref n B) pgno.

(** The bits [sum_sel] sees. *)
Definition bit (B : Z) (k : nat) : bool := Z.testbit B (Z.of_nat k).

Definition ibit (t : Z) (k : nat) : bool := Z.testbit (Z.of_nat k) t.

Definition nibit (t : Z) (k : nat) : bool := negb (Z.testbit (Z.of_nat k) t).

Lemma ecc_lo_testbit n B t : Z.testbit (ecc_lo n B) t = sum_sel n (bit B) (ibit t).
Proof.
  unfold ecc_lo. rewrite xorZ_testbit. apply xsum_ext. intros. apply sel_testbit.
Qed.

(** Complement of an index below [2^m], bit by bit. *)
Lemma complement_testbit m k t :
  0 <= m -> 0 <= k < 2 ^ m -> 0 <= t ->
  Z.testbit (2 ^ m - 1 - k) t = (t <? m) && negb (Z.testbit k t).
Proof.
  intros Hm Hk Ht.
  replace (2 ^ m - 1 - k) with (Z.lnot k mod 2 ^ m).
  - rewrite Z.testbit_mod_pow2 by lia. now rewrite Z.lnot_spec by lia.
  - unfold Z.lnot. replace (Z.pred (- k)) with ((2 ^ m - 1 - k) + (-1) * 2 ^ m) by lia.
    rewrite Z.mod_add by lia. apply Z.mod_small. lia.
Qed.

Lemma ecc_hi_testbit (m : nat) B t :
  0 <= t -> Z.testbit (ecc_hi (2 ^ m) B) t =
            (t <? Z.of_nat m) && sum_sel (2 ^ m) (bit B) (nibit t).
Proof.
  intros Ht. unfold ecc_hi, sum_sel. rewrite xorZ_testbit, <- xsum_andb_l.
  apply xsum_ext. intros k Hk. rewrite sel_testbit. unfold bit, nibit.
  replace (Z.of_nat (2 ^ m - 1 - k)) with (2 ^ Z.of_nat m - 1 - Z.of_nat k).
  2:{ rewrite !Nat2Z.inj_sub, Nat2Z.inj_pow by (pose proof (Nat.pow_nonzero 2 m); lia). lia. }
  assert (Z.of_nat k < 2 ^ Z.of_nat m) by
    (change 2 with (Z.of_nat 2); rewrite <- Nat2Z.inj_pow; lia).
  rewrite complement_testbit by lia.
  destruct (t <? _); simpl; [easy|]. apply andb_false_r.
Qed.

Lemma ecc_lo_range (m : nat) B : in_u (Z.of_nat m) (ecc_lo (2 ^ m) B).
Proof.
  apply xorZ_in_u; [lia|]. intros k Hk. unfold in_u.
  assert (Z.of_nat k < 2 ^ Z.of_nat m) by
    (change 2 with (Z.of_nat 2); rewrite <- Nat2Z.inj_pow; lia).
  destruct (Z.testbit _ _); simpl; lia.
Qed.

Lemma ecc_hi_range (m : nat) B : in_u (Z.of_nat m) (ecc_hi (2 ^ m) B).
Proof.
  apply xorZ_in_u; [lia|]. intros k Hk. unfold in_u.
  assert (Z.of_nat (2 ^ m) = 2 ^ Z.of_nat m) by (rewrite Nat2Z.inj_pow; lia).
  destruct (Z.testbit _ _); simpl; lia.
Qed.

(** A 32-bit word with the right bits is the reference. *)
Lemma ecc_ref_intro (m : nat) B X :
  (m <= 16)%nat -> in_u 32 X ->
  (forall t, 0 <= t < 16 -> Z.testbit X t = sum_sel (2 ^ m) (bit B) (ibit t)) ->
  (forall t, 0 <= t < 16 ->
     Z.testbit X (t + 16) = (t <? Z.of_nat m) && sum_sel (2 ^ m) (bit B) (nibit t)) ->
  X = ecc_ref (2 ^ m) B.
Proof.
  intros Hm HX Hlo Hhi. unfold ecc_ref.
  assert (Hr : in_u 16 (ecc_lo (2 ^ m) B)).
  { pose proof (ecc_lo_range m B) as [? ?]. split; [easy|].
    eapply Z.lt_le_trans; [eassumption|]. apply Z.pow_le_mono_r; lia. }
  bitwise i. rewrite testbit_concat by (easy || lia).
  destruct (Z.ltb_spec i 16).
  - rewrite Hlo, ecc_lo_testbit by lia. easy.
  - destruct (Z.ltb_spec i 32).
    + replace i with (i - 16 + 16) at 1 by lia. rewrite Hhi, ecc_hi_testbit by lia. easy.
    + rewrite (in_u_testbit_high 32 X), (in_u_testbit_high (Z.of_nat m) (ecc_hi _ _))
        by (try apply ecc_hi_range; easy || lia). easy.
Qed.

Lemma ecc_ref_in_u (m : nat) B : (m <= 16)%nat -> in_u 32 (ecc_ref (2 ^ m) B).
Proof.
  intros Hm. pose proof (ecc_lo_range m B) as [? ?]. pose proof (ecc_hi_range m B) as [? ?].
  assert (2 ^ Z.of_nat m <= 2 ^ 16) by (apply Z.pow_le_mono_r; lia).
  unfold in_u, ecc_ref. change (2 ^ 32) with (2 ^ 16 * 2 ^ 16). nia.
Qed.

(** ** Linearity and single bits *)

Lemma ecc_lo_lxor n A B : ecc_lo n (A ^^ B) = ecc_lo n A ^^ ecc_lo n B.
Proof.
  unfold ecc_lo. rewrite <- xorZ_lxor. apply xorZ_ext. intros k Hk.
  rewrite Z.lxor_spec. destruct (Z.testbit A _), (Z.testbit B _); simpl;
    now rewrite ?Z.lxor_nilpotent, ?Z.lxor_0_r, ?Z.lxor_0_l.
Qed.

Lemma ecc_hi_lxor n A B : ecc_hi n (A ^^ B) = ecc_hi n A ^^ ecc_hi n B.
Proof.
  unfold ecc_hi. rewrite <- xorZ_lxor. apply xorZ_ext. intros k Hk.
  rewrite Z.lxor_spec. destruct (Z.testbit A _), (Z.testbit B _); simpl;
    now rewrite ?Z.lxor_nilpotent, ?Z.lxor_0_r, ?Z.lxor_0_l.
Qed.

Lemma xor_ref_lxor n A B : xor_ref n (A ^^ B) = xor_ref n A ^^ xor_ref n B.
Proof.
  unfold xor_ref. rewrite <- xorZ_lxor. apply xorZ_ext. intros k Hk.
  bitwise i. rewrite Z.lxor_spec, !word_testbit, Z.lxor_spec by lia.
  now destruct (i <? 32).
Qed.

Lemma ecc_lo_pow2 n k : (k < n)%nat -> ecc_lo n (2 ^ Z.of_nat k) = Z.of_nat k.
Proof.
  intros Hk. unfold ecc_lo. rewrite (xorZ_single _ _ k Hk).
  - now rewrite Z.pow2_bits_true by lia.
  - intros j Hj Hne. now rewrite Z.pow2_bits_false by lia.
Qed.

Lemma ecc_hi_pow2 n k : (k < n)%nat -> ecc_hi n (2 ^ Z.of_nat k) = Z.of_nat (n - 1 - k).
Proof.
  intros Hk. unfold ecc_hi. rewrite (xorZ_single _ _ k Hk).
  - now rewrite Z.pow2_bits_true by lia.
  - intros j Hj Hne. now rewrite Z.pow2_bits_false by lia.
Qed.

Lemma xor_ref_pow2 n k :
  (32 * (n / 32) = n)%nat -> (k < n)%nat ->
  xor_ref n (2 ^ Z.of_nat k) = 2 ^ (Z.of_nat k mod 32).
Proof.
  intros Hn Hk. unfold xor_ref. rewrite (xorZ_single _ _ (k / 32)%nat).
  - bitwise i. rewrite word_testbit, !Z.pow2_bits_eqb by
      (try apply Z.mod_pos_bound; lia).
    rewrite Nat2Z.inj_div. change (Z.of_nat 32) with 32.
    pose proof (Z.div_mod (Z.of_nat k) 32). pose proof (Z.mod_pos_bound (Z.of_nat k) 32).
    destruct (Z.ltb_spec i 32); simpl; [|symmetry; apply Z.eqb_neq; lia].
    destruct (Z.eqb_spec (Z.of_nat k) (32 * (Z.of_nat k / 32) + i));
      destruct (Z.eqb_spec (Z.of_nat k mod 32) i); lia || easy.
  - apply Nat.Div0.div_lt_upper_bound. lia.
  - intros j Hj Hne. bitwise i. rewrite word_testbit, Z.bits_0, Z.pow2_bits_eqb by lia.
    destruct (Z.ltb_spec i 32); [|easy]. simpl. apply Z.eqb_neq. intros E.
    apply Hne. apply Nat2Z.inj. rewrite Nat2Z.inj_div. change (Z.of_nat 32) with 32.
    rewrite E. rewrite Z.add_comm, Z.mul_comm, Z.div_add, Z.div_small; lia.
Qed.
