(* ===== verification/ChecksumNew.v ===== *)
(** * ChecksumNew: the variants of the new format compute the reference

    Every routine reduces the page in levels: blocks, then the words of the
    folded block, then the columns or bytes of the folded word.  [level s G par]
    is the contribution of one level: the [G] blocks of [2^s] bits, [par] their
    parities, [idx s g] the index constant the code keeps adding to. *)

From S2P Require Import Prelude Parity ChecksumDefs PageWords ChecksumEcc.

(** ** Index constants *)

Definition idx (s : Z) (i : nat) : Z :=
  u32 (- 2 ^ (16 + s) * (Z.of_nat i + 1) + 2 ^ s * Z.of_nat i).

Lemma idx_succ s i step :
  u32 step = u32 (- 2 ^ (16 + s) + 2 ^ s) -> u32 (idx s i + step) = idx s (S i).
Proof.
  unfold idx, wrapu. intros H. rewrite Z.add_mod_idemp_l, Z.add_mod, H, <- Z.add_mod by easy.
  f_equal. lia.
Qed.

Lemma idx_eq s i :
  0 <= s <= 16 -> 2 ^ s * (Z.of_nat i + 1) <= 2 ^ 16 ->
  idx s i = 2 ^ s * Z.of_nat i + 2 ^ 16 * (2 ^ s * (2 ^ (16 - s) - 1 - Z.of_nat i)).
Proof.
  intros Hs Hi. unfold idx, wrapu.
  assert (E : 2 ^ s * 2 ^ (16 - s) = 2 ^ 16) by (rewrite <- Z.pow_add_r by lia; f_equal; lia).
  rewrite Z.pow_add_r by lia. pose proof (pow2_pos s).
  replace (- (2 ^ 16 * 2 ^ s) * (Z.of_nat i + 1) + 2 ^ s * Z.of_nat i) with
    (2 ^ s * Z.of_nat i + 2 ^ 16 * (2 ^ s * (2 ^ (16 - s) - 1 - Z.of_nat i)) + (-1) * 2 ^ 32).
  2:{ replace (2 ^ s * (2 ^ (16 - s) - 1 - Z.of_nat i)) with (2 ^ 16 - 2 ^ s * (Z.of_nat i + 1))
        by (rewrite <- E; ring). change (2 ^ 32) with (2 ^ 16 * 2 ^ 16). ring. }
  rewrite Z.mod_add by easy. apply Z.mod_small.
  replace (2 ^ s * (2 ^ (16 - s) - 1 - Z.of_nat i)) with (2 ^ 16 - 2 ^ s * (Z.of_nat i + 1))
    by (rewrite <- E; ring).
  change (2 ^ 32) with (2 ^ 16 * 2 ^ 16). nia.
Qed.

Lemma testbit_mul_pow2' s x t :
  0 <= s -> 0 <= t -> Z.testbit (2 ^ s * x) t = (s <=? t) && Z.testbit x (t - s).
Proof.
  intros Hs Ht. rewrite Z.mul_comm, <- Z.shiftl_mul_pow2, Z.shiftl_spec by lia.
  destruct (Z.leb_spec s t); [easy|]. now rewrite Z.testbit_neg_r by lia.
Qed.

Section IdxBits.

Context (s t : Z) (i : nat).
Hypothesis Hs : 0 <= s <= 16.
Hypothesis Hi : 2 ^ s * (Z.of_nat i + 1) <= 2 ^ 16.
Hypothesis Ht : 0 <= t < 16.

Lemma idx_index_range : in_u 16 (2 ^ s * Z.of_nat i).
Proof. unfold in_u. pose proof (pow2_pos s). nia. Qed.

Lemma idx_lo : Z.testbit (idx s i) t = (s <=? t) && ibit (t - s) i.
Proof.
  rewrite idx_eq, testbit_concat by (apply idx_index_range || lia).
  rewrite (proj2 (Z.ltb_lt t 16)) by lia. now rewrite testbit_mul_pow2' by lia.
Qed.

Lemma idx_hi : Z.testbit (idx s i) (t + 16) = (s <=? t) && nibit (t - s) i.
Proof.
  rewrite idx_eq, testbit_concat by (apply idx_index_range || lia).
  rewrite (proj2 (Z.ltb_ge (t + 16) 16)) by lia.
  rewrite testbit_mul_pow2' by lia. replace (t + 16 - 16) with t by lia.
  destruct (Z.leb_spec s t); [|easy]. rewrite !andb_true_l.
  assert (Z.of_nat i + 1 <= 2 ^ (16 - s)).
  { pose proof (pow2_pos s). apply (Z.mul_le_mono_pos_l _ _ (2 ^ s)); [lia|].
    rewrite <- Z.pow_add_r by lia. replace (s + (16 - s)) with 16 by lia. lia. }
  rewrite complement_testbit by lia. now rewrite (proj2 (Z.ltb_lt _ _)) by lia.
Qed.

End IdxBits.

(** ** Levels *)

Definition level (s : Z) (G : nat) (par : nat -> bool) : Z :=
  xorZ G (fun g => sel (par g) (idx s g)).

Lemma idx_in_u s i : in_u 32 (idx s i).
Proof. now apply wrapu_range. Qed.

Lemma sel_in_u w b x : 0 <= w -> in_u w x -> in_u w (sel b x).
Proof. intros Hw Hx. destruct b; [easy|]. unfold in_u. pose proof (pow2_pos w). simpl. lia. Qed.

Lemma level_in_u s G par : in_u 32 (level s G par).
Proof. apply xorZ_in_u; [easy|]. intros. apply sel_in_u; [easy|apply idx_in_u]. Qed.

Lemma level_ext s G par par' :
  (forall g, (g < G)%nat -> par g = par' g) -> level s G par = level s G par'.
Proof. intros H. apply xorZ_ext. intros. now rewrite H. Qed.

Lemma level_succ s G par : level s (S G) par = level s G par ^^ sel (par G) (idx s G).
Proof. easy. Qed.

Section LevelBits.

Context (s t : Z) (G : nat) (par : nat -> bool).
Hypothesis Hs : 0 <= s <= 16.
Hypothesis HG : 2 ^ s * Z.of_nat G <= 2 ^ 16.
Hypothesis Ht : 0 <= t < 16.

Lemma level_lo : Z.testbit (level s G par) t = (s <=? t) && sum_sel G par (ibit (t - s)).
Proof.
  unfold level, sum_sel. rewrite xorZ_testbit, <- xsum_andb_l. apply xsum_ext. intros g Hg.
  rewrite sel_testbit, idx_lo by (pose proof (pow2_pos s); nia).
  destruct (par g), (s <=? t); easy.
Qed.

Lemma level_hi : Z.testbit (level s G par) (t + 16) = (s <=? t) && sum_sel G par (nibit (t - s)).
Proof.
  unfold level, sum_sel. rewrite xorZ_testbit, <- xsum_andb_l. apply xsum_ext. intros g Hg.
  rewrite sel_testbit, idx_hi by (pose proof (pow2_pos s); nia).
  destruct (par g), (s <=? t); easy.
Qed.

End LevelBits.

(** ** From the page to its blocks *)

Section Blocks.

Context (s : Z) (S_ : nat) (G : nat) (B : Z) (t : Z).
Hypothesis HS : Z.of_nat S_ = 2 ^ s.
Hypothesis Hs : 0 <= s.
Hypothesis Ht : 0 <= t.

Lemma ibit_block i j : (j < S_)%nat ->
  ibit t (i * S_ + j) = if s <=? t then ibit (t - s) i else ibit t j.
Proof.
  intros Hj. unfold ibit. rewrite Nat2Z.inj_add, Nat2Z.inj_mul, HS.
  replace (Z.of_nat i * 2 ^ s + Z.of_nat j) with (Z.of_nat j + 2 ^ s * Z.of_nat i) by lia.
  rewrite testbit_concat by (unfold in_u; lia).
  destruct (Z.ltb_spec t s), (Z.leb_spec s t); lia || easy.
Qed.

Lemma block_bits g j : (j < S_)%nat -> bit B (g * S_ + j) = bit (word (Z.of_nat S_) B g) j.
Proof.
  intros Hj. unfold bit. rewrite word_testbit by lia.
  rewrite (proj2 (Z.ltb_lt _ _)), andb_true_l by lia. f_equal. lia.
Qed.

Definition block_parity (g : nat) : bool := parity S_ (word (Z.of_nat S_) B g).

Lemma sel_high : s <= t ->
  sum_sel (G * S_) (bit B) (ibit t) = sum_sel G block_parity (ibit (t - s)).
Proof.
  intros Hst. rewrite (sum_sel_high _ _ _ _ (ibit (t - s))).
  - apply sum_sel_ext; [|easy]. intros g Hg. apply xsum_ext. intros j Hj.
    now rewrite block_bits.
  - intros i j Hi Hj. rewrite ibit_block by easy. now rewrite (proj2 (Z.leb_le s t)).
Qed.

Lemma sel_high_n : s <= t ->
  sum_sel (G * S_) (bit B) (nibit t) = sum_sel G block_parity (nibit (t - s)).
Proof.
  intros Hst. rewrite (sum_sel_high _ _ _ _ (nibit (t - s))).
  - apply sum_sel_ext; [|easy]. intros g Hg. apply xsum_ext. intros j Hj.
    now rewrite block_bits.
  - intros i j Hi Hj. change (negb (ibit t (i * S_ + j)) = negb (ibit (t - s) i)).
    rewrite ibit_block by easy. now rewrite (proj2 (Z.leb_le s t)).
Qed.

Lemma fold_bits j : (j < S_)%nat ->
  xsum G (fun i => bit B (i * S_ + j)) = bit (xorZ G (word (Z.of_nat S_) B)) j.
Proof.
  intros Hj. unfold bit at 2. rewrite xorZ_testbit. apply xsum_ext. intros i Hi.
  now rewrite block_bits.
Qed.

Lemma sel_low : t < s ->
  sum_sel (G * S_) (bit B) (ibit t) =
  sum_sel S_ (bit (xorZ G (word (Z.of_nat S_) B))) (ibit t).
Proof.
  intros Hst. rewrite (sum_sel_low _ _ _ _ (ibit t)).
  - apply sum_sel_ext; [|easy]. intros j Hj. now apply fold_bits.
  - intros i j Hi Hj. rewrite ibit_block by easy. now rewrite (proj2 (Z.leb_gt s t)).
Qed.

Lemma sel_low_n : t < s ->
  sum_sel (G * S_) (bit B) (nibit t) =
  sum_sel S_ (bit (xorZ G (word (Z.of_nat S_) B))) (nibit t).
Proof.
  intros Hst. rewrite (sum_sel_low _ _ _ _ (nibit t)).
  - apply sum_sel_ext; [|easy]. intros j Hj. now apply fold_bits.
  - intros i j Hi Hj. change (negb (ibit t (i * S_ + j)) = negb (ibit t j)).
    rewrite ibit_block by easy. now rewrite (proj2 (Z.leb_gt s t)).
Qed.

End Blocks.

(** ** Parity masks *)

(** What a parity routine promises: all ones when the parity is odd. *)
Definition pmask (b : bool) : Z := if b then -1 else 0.

Lemma land_pmask x b : x .& pmask b = sel b x.
Proof. destruct b; simpl; [apply Z.land_m1_r|apply Z.land_0_r]. Qed.

Lemma pmask_land x b : pmask b .& x = sel b x.
Proof. rewrite Z.land_comm. apply land_pmask. Qed.

Lemma parity_table : forall b : nat, (b < 256)%nat ->
  nth b g_bParityLookupTable 0 = pmask (parity 8 (Z.of_nat b)).
Proof.
  assert (H : forallb (fun b => nth b g_bParityLookupTable 0 =?
                                pmask (parity 8 (Z.of_nat b))) (seq 0 256) = true)
    by (vm_compute; reflexivity).
  intros b Hb. rewrite forallb_forall in H. apply Z.eqb_eq, H, in_seq. lia.
Qed.

Lemma land_ff_range x : in_u 8 (x .& 0xff).
Proof. change 0xff with (Z.ones 8). rewrite Z.land_ones by lia. now apply wrapu_range. Qed.

Lemma parity_land_ff x : parity 8 (x .& 0xff) = parity 8 x.
Proof.
  apply xsum_ext. intros k Hk. change 0xff with (Z.ones 8).
  rewrite Z.land_spec, Z.testbit_ones_nonneg, (proj2 (Z.ltb_lt _ 8)) by lia. apply andb_true_r.
Qed.

Lemma parity_table_byte x : in_u 8 x ->
  nth (Z.to_nat x) g_bParityLookupTable 0 = pmask (parity 8 x).
Proof.
  unfold in_u. intros Hx. rewrite parity_table by (change 256%nat with (Z.to_nat 256); lia).
  now rewrite Z2Nat.id by lia.
Qed.

Lemma lParityMask_spec dw : in_u 32 dw -> lParityMask dw = pmask (parity 32 dw).
Proof.
  intros Hdw. unfold lParityMask. rewrite parity_table_byte by apply land_ff_range.
  rewrite parity_land_ff.
  rewrite <- (parity_fold 8 (dw ^^ Z.shiftr dw 16) : _ = parity 8 (_ ^^ Z.shiftr _ 8)).
  change (8 + 8)%nat with 16%nat.
  rewrite <- (parity_fold 16 dw : _ = parity 16 (dw ^^ Z.shiftr dw 16)). easy.
Qed.

Lemma popcnt_parity n x : popcnt n x .& 1 = Z.b2z (parity n x).
Proof.
  change 1 with (Z.ones 1). rewrite Z.land_ones by lia. change (2 ^ 1) with 2.
  induction n as [|n IH]; [easy|]. cbn [popcnt]. unfold parity in *. cbn [xsum].
  rewrite Z.add_mod, IH by lia. destruct (xsum n _), (Z.testbit x _); easy.
Qed.

Lemma popcnt_mask n x : - (popcnt n x .& 1) = pmask (parity n x).
Proof. rewrite popcnt_parity. now destruct (parity n x). Qed.

Lemma parity_word_ext n x y :
  (forall k, (k < n)%nat -> Z.testbit x (Z.of_nat k) = Z.testbit y (Z.of_nat k)) ->
  parity n x = parity n y.
Proof. intros. now apply xsum_ext. Qed.

Lemma lane_word k x : 0 <= k -> lane k x = word 32 x (Z.to_nat k).
Proof. intros. unfold lane, word. now rewrite Z2Nat.id by lia. Qed.

(** ** 128- and 256-bit parities *)

(** A word assembled from two fields. *)
Lemma concat_in_u n k a b : 0 <= n -> 0 <= k -> in_u n a -> in_u k b -> in_u (n + k) (a + 2 ^ n * b).
Proof. intros Hn Hk Ha Hb. unfold in_u in *. rewrite Z.pow_add_r by lia. nia. Qed.

Lemma mk128_testbit a b c d i :
  in_u 32 a -> in_u 32 b -> in_u 32 c -> in_u 32 d -> 0 <= i ->
  Z.testbit (mk128 a b c d) i =
    if i <? 32 then Z.testbit a i else
    if i <? 64 then Z.testbit b (i - 32) else
    if i <? 96 then Z.testbit c (i - 64) else Z.testbit d (i - 96).
Proof.
  intros Ha Hb Hc Hd Hi. unfold mk128.
  repeat (rewrite testbit_concat by (easy || lia || (unfold in_u in *; lia));
    match goal with
    | |- (if ?x <? ?y then _ else _) = _ => destruct (Z.ltb_spec x y)
    end).
  all: rewrite ?(proj2 (Z.ltb_lt i 32)), ?(proj2 (Z.ltb_lt i 64)), ?(proj2 (Z.ltb_lt i 96)),
    ?(proj2 (Z.ltb_ge i 32)), ?(proj2 (Z.ltb_ge i 64)), ?(proj2 (Z.ltb_ge i 96)) by lia;
    try easy; f_equal; lia.
Qed.

Lemma mk128_in_u a b c d :
  in_u 32 a -> in_u 32 b -> in_u 32 c -> in_u 32 d -> in_u 128 (mk128 a b c d).
Proof.
  intros. unfold mk128.
  apply (concat_in_u 32 96), (concat_in_u 32 64), (concat_in_u 32 32); easy.
Qed.

Lemma lane_in_u k x : in_u 32 (lane k x).
Proof. now apply wrapu_range. Qed.

#[local] Hint Resolve lane_in_u mk128_in_u : words.

(** [0x4e] exchanges the two 64-bit halves. *)
Lemma shuffle_4e_testbit x i : in_u 128 x -> 0 <= i < 64 ->
  Z.testbit (mm_shuffle_epi32 x 0x4e) i = Z.testbit x (i + 64).
Proof.
  intros Hx Hi. unfold mm_shuffle_epi32. rewrite mk128_testbit by (auto with words; lia).
  change (0x4e .& 3) with 2. change (Z.shiftr 0x4e 2 .& 3) with 3.
  rewrite !lane_word by easy.
  destruct (Z.ltb_spec i 32); [|rewrite (proj2 (Z.ltb_lt i 64)) by lia];
    rewrite word_testbit by lia; rewrite (proj2 (Z.ltb_lt _ 32)) by lia;
    rewrite andb_true_l; f_equal; lia.
Qed.

(** [0x1b] reverses the four lanes. *)
Lemma shuffle_1b_testbit x i : in_u 128 x -> 0 <= i < 32 ->
  Z.testbit (mm_shuffle_epi32 x 0x1b) i = Z.testbit x (i + 96).
Proof.
  intros Hx Hi. unfold mm_shuffle_epi32. rewrite mk128_testbit by (auto with words; lia).
  rewrite (proj2 (Z.ltb_lt i 32)) by lia. change (0x1b .& 3) with 3.
  rewrite lane_word by easy. rewrite word_testbit by lia.
  rewrite (proj2 (Z.ltb_lt _ 32)) by lia. rewrite andb_true_l. f_equal; lia.
Qed.

Lemma shuffle_in_u x imm : in_u 128 (mm_shuffle_epi32 x imm).
Proof. unfold mm_shuffle_epi32. auto with words. Qed.

#[local] Hint Resolve shuffle_in_u : words.

(** Folding the halves together keeps the parity. *)
Lemma parity_swap64 x : in_u 128 x ->
  parity 64 (x ^^ mm_shuffle_epi32 x 0x4e) = parity 128 x.
Proof.
  intros Hx. change 128%nat with (64 + 64)%nat. rewrite parity_fold, !parity_lxor. f_equal.
  apply parity_word_ext. intros k Hk.
  rewrite shuffle_4e_testbit, Z.shiftr_spec by (easy || lia). easy.
Qed.

Lemma parity_u64 x : parity 64 (u64 x) = parity 64 x.
Proof.
  apply parity_word_ext. intros k Hk. rewrite testbit_wrapu by easy.
  now rewrite (proj2 (Z.ltb_lt _ 64)) by lia.
Qed.

Lemma lParityMaskPopcnt_m128_spec x : in_u 128 x ->
  lParityMaskPopcnt_m128 x = pmask (parity 128 x).
Proof.
  intros Hx. unfold lParityMaskPopcnt_m128. now rewrite popcnt_mask, parity_u64, parity_swap64.
Qed.

Lemma lParityMask_m128_spec x : in_u 128 x -> lParityMask_m128 x = pmask (parity 128 x).
Proof.
  intros Hx. unfold lParityMask_m128. set (y := x ^^ mm_shuffle_epi32 x 0x4e).
  rewrite lParityMask_spec by now apply wrapu_range. f_equal.
  rewrite <- parity_swap64 by easy. fold y.
  change 64%nat with (32 + 32)%nat. rewrite parity_fold.
  assert (Hy : in_u 128 y) by (apply in_u_lxor; auto with words; easy).
  apply parity_word_ext. intros k Hk.
  rewrite testbit_wrapu, (proj2 (Z.ltb_lt _ 32)), andb_true_l, !Z.lxor_spec,
    shuffle_1b_testbit, Z.shiftr_spec by (easy || lia).
  f_equal. unfold y. rewrite !Z.lxor_spec.
  change (Z.of_nat 32) with 32.
  rewrite (shuffle_4e_testbit x (Z.of_nat k + 32)) by (easy || lia). rewrite xorb_comm.
  replace (Z.of_nat k + 32 + 64) with (Z.of_nat k + 96) by lia. f_equal.
  set (j := Z.of_nat k + 96). replace (Z.of_nat k + 32) with (j - 64) by lia.
  unfold mm_shuffle_epi32. rewrite mk128_testbit by (auto with words; lia).
  change (Z.shiftr 0x4e 6 .& 3) with 1. change (Z.shiftr 0x4e 4 .& 3) with 0.
  rewrite (proj2 (Z.ltb_ge j 32)), (proj2 (Z.ltb_ge j 64)), (proj2 (Z.ltb_ge j 96)) by lia.
  rewrite lane_word, word_testbit by lia. rewrite (proj2 (Z.ltb_lt (j - 96) 32)) by lia.
  rewrite andb_true_l. f_equal. lia.
Qed.

Lemma parity_m128_spec T x : in_u 128 x -> parity_m128 T x = pmask (parity 128 x).
Proof. destruct T; [apply lParityMask_m128_spec|apply lParityMaskPopcnt_m128_spec]. Qed.

Lemma lParityMaskPopcnt_spec x : lParityMaskPopcnt x = pmask (parity 32 x).
Proof. apply popcnt_mask. Qed.

Lemma parity_dw_spec T x : in_u 32 x -> parity_dw T x = pmask (parity 32 x).
Proof. destruct T; intros; [now apply lParityMask_spec|apply lParityMaskPopcnt_spec]. Qed.

Lemma parity_byte_spec T x : in_u 8 x -> parity_byte T x = pmask (parity 8 x).
Proof.
  destruct T; intros Hx; [now apply parity_table_byte|]. cbn [parity_byte].
  rewrite lParityMaskPopcnt_spec. f_equal. now apply (parity_wider 8 32); [|lia].
Qed.

Lemma swap_halves_testbit x i : in_u 256 x -> 0 <= i < 128 ->
  Z.testbit (mm256_swap_halves x) i = Z.testbit x (i + 128).
Proof.
  intros Hx Hi. unfold mm256_swap_halves.
  rewrite testbit_concat by (now apply wrapu_range || lia).
  rewrite (proj2 (Z.ltb_lt i 128)) by lia. rewrite testbit_wrapu, Z.shiftr_spec by lia.
  now rewrite (proj2 (Z.ltb_lt i 128)) by lia.
Qed.

Lemma lParityMaskAVX_spec x : in_u 256 x -> lParityMaskAVX x = pmask (parity 256 x).
Proof.
  intros Hx. unfold lParityMaskAVX. set (y := wrapu 128 _).
  assert (Hy : in_u 128 y) by now apply wrapu_range.
  rewrite popcnt_mask, parity_u64, Z.lxor_comm, parity_swap64 by easy. f_equal.
  change 256%nat with (128 + 128)%nat. rewrite parity_fold.
  apply parity_word_ext. intros k Hk. unfold y.
  rewrite testbit_wrapu, (proj2 (Z.ltb_lt _ 128)), andb_true_l, !Z.lxor_spec,
    swap_halves_testbit, Z.shiftr_spec by (easy || lia).
  apply xorb_comm.
Qed.
