(* ===== verification/ChecksumVariants.v ===== *)
(** * ChecksumVariants: every implementation equals the reference

    One section per page; the loops of the variants are brought to closed form
    with the counting rule [while_do_inv], then the ECC word is compared with
    [ecc_ref] bit by bit. *)

From S2P Require Import Prelude Parity ChecksumDefs PageWords ChecksumEcc ChecksumNew.

(** ** The mask over the high half *)

Lemma cb_mask_ones cb (m : nat) :
  8 * cb = 2 ^ Z.of_nat m -> (13 <= m <= 16)%nat -> cb_mask cb = Z.ones (Z.of_nat m + 16).
Proof.
  intros Hcb Hm. unfold cb_mask, wrapu. rewrite Z.shiftl_mul_pow2 by easy.
  replace (cb * 2 ^ 19) with (2 ^ (Z.of_nat m + 16)).
  2:{ rewrite Z.pow_add_r, <- Hcb by lia. change (2 ^ 19) with (8 * 2 ^ 16). ring. }
  rewrite Z.ones_equiv.
  destruct (decide (m = 16%nat)) as [->|Hne]; [easy|].
  assert (2 ^ (Z.of_nat m + 16) <= 2 ^ 31) by (apply Z.pow_le_mono_r; lia).
  pose proof (pow2_pos (Z.of_nat m + 16)).
  change (2 ^ 31) with 2147483648 in *. change (2 ^ 32) with 4294967296.
  rewrite (Z.mod_small (2 ^ _)), Z.mod_small by lia. lia.
Qed.

Lemma page_size_pow2 cb :
  page_size_ok cb = true -> exists m : nat, 8 * cb = 2 ^ Z.of_nat m /\ (13 <= m <= 16)%nat.
Proof.
  intros H. apply page_size_cases in H as [E|[E|[E|E]]]; subst cb;
    [exists 13%nat|exists 14%nat|exists 15%nat|exists 16%nat]; split; (reflexivity || lia).
Qed.

(** The mask over the high half cuts exactly the index bits beyond the page. *)
Lemma high_mask (m : nat) t : (t + 16 <? Z.of_nat m + 16) = (t <? Z.of_nat m).
Proof. destruct (Z.ltb_spec t (Z.of_nat m)); [apply Z.ltb_lt|apply Z.ltb_ge]; lia. Qed.

(** Evaluate the bits of one ECC word at a literal position: the levels become
    selection sums, the constants disappear. *)
Ltac ecc_pre :=
  rewrite !Z.lor_spec, !Z.land_spec, ?Z.lor_spec, ?sel_testbit; testbit_consts;
  rewrite ?level_lo, ?level_hi by lia; leb_consts;
  rewrite !Z.testbit_ones_nonneg by lia; autorewrite with bools.

(** Sums over a few literal indices. *)
Ltac sum_small :=
  unfold sum_sel, block_parity; cbn [xsum]; unfold ibit, nibit;
  repeat match goal with
  | |- context [Z.testbit (Z.of_nat ?n) ?t] =>
      let v := eval vm_compute in (Z.testbit (Z.of_nat n) t) in
      change (Z.testbit (Z.of_nat n) t) with v
  end; cbn [negb]; autorewrite with bools.

(** ** Sizes *)

Section Sizes.

Context (cb : Z) (m : nat).
Hypothesis Hcb : 8 * cb = 2 ^ Z.of_nat m.
Hypothesis Hm : (13 <= m <= 16)%nat.

Lemma cb_bound : 1024 <= cb <= 8192.
Proof.
  assert (2 ^ 13 <= 2 ^ Z.of_nat m <= 2 ^ 16) by (split; apply Z.pow_le_mono_r; lia). lia.
Qed.

Lemma page_blocks (G S_ : nat) :
  8 * cb = Z.of_nat (G * S_) -> (2 ^ m = G * S_)%nat.
Proof.
  intros H. apply Nat2Z.inj. rewrite <- H, Hcb, Nat2Z.inj_pow. easy.
Qed.

Lemma page_rounds k : 0 < k -> 2 ^ 8 mod k = 0 -> cb = Z.of_nat (Z.to_nat (cb / k)) * k.
Proof.
  pose proof cb_bound. intros Hk Hd. rewrite Z2Nat.id by (apply Z.div_pos; lia).
  rewrite Z.mul_comm. apply Z.div_exact; [lia|]. apply Z.mod_divide; [lia|].
  apply Z.mod_divide in Hd as [q Hq]; [|lia].
  exists (2 ^ (Z.of_nat m - 11) * q). rewrite <- Z.mul_assoc, <- Hq.
  apply (Z.mul_cancel_l _ _ 8); [easy|]. rewrite Hcb, Z.mul_comm, <- Z.mul_assoc.
  change (2 ^ 8 * 8) with (2 ^ 11). rewrite <- Z.pow_add_r by lia. f_equal. lia.
Qed.

Lemma page_bits_nat : Z.to_nat (8 * cb) = (2 ^ m)%nat.
Proof.
  rewrite Hcb. change 2 with (Z.of_nat 2). now rewrite <- Nat2Z.inj_pow, Nat2Z.id.
Qed.

End Sizes.

(** ** Four words of width [W] make a block *)

Section Quads.

Context (W : nat) (B : Z).
Hypothesis HW : (0 < W)%nat.

Definition quad_par (g : nat) : bool := parity (4 * W) (word (Z.of_nat (4 * W)) B g).

Definition quad_acc (G q : nat) : Z :=
  word (Z.of_nat W) (xorZ G (word (Z.of_nat (4 * W)) B)) q.

Lemma quad_width : Z.of_nat (4 * W) = Z.of_nat 4 * Z.of_nat W.
Proof. lia. Qed.

Lemma quad_acc_xorZ G q : (q < 4)%nat ->
  quad_acc G q = xorZ G (fun g => word (Z.of_nat W) B (4 * g + q)).
Proof. intros Hq. unfold quad_acc. rewrite quad_width, word_xorZ_lane by lia. easy. Qed.

Lemma quad_acc_succ G q : (q < 4)%nat ->
  quad_acc (S G) q = quad_acc G q ^^ word (Z.of_nat W) B (4 * G + q).
Proof. intros Hq. now rewrite !quad_acc_xorZ by easy. Qed.

Lemma quad_acc_0 q : (q < 4)%nat -> quad_acc 0 q = 0.
Proof. intros Hq. now rewrite quad_acc_xorZ. Qed.

Lemma quad_acc_in_u G q : in_u (Z.of_nat W) (quad_acc G q).
Proof. unfold quad_acc. auto with words zarith. Qed.

Lemma quad_par_words g :
  quad_par g = parity W (word (Z.of_nat W) B (4 * g + 0) ^^ word (Z.of_nat W) B (4 * g + 1)
                         ^^ word (Z.of_nat W) B (4 * g + 2) ^^ word (Z.of_nat W) B (4 * g + 3)).
Proof.
  unfold quad_par. rewrite parity_word_lanes, !parity_lxor. cbn [xsum].
  rewrite xorb_false_l. rewrite quad_width, !word_word by lia. easy.
Qed.

Section QuadSums.

Context (s t : Z) (G : nat).
Hypothesis Hs : Z.of_nat (4 * W) = 2 ^ s.
Hypothesis Hs0 : 0 <= s.
Hypothesis Ht : 0 <= t.

Definition quad_fold : Z := xorZ G (word (Z.of_nat (4 * W)) B).

Lemma quad_high : s <= t ->
  sum_sel (G * (4 * W)) (bit B) (ibit t) = sum_sel G quad_par (ibit (t - s)).
Proof. intros. now apply (sel_high s). Qed.

Lemma quad_high_n : s <= t ->
  sum_sel (G * (4 * W)) (bit B) (nibit t) = sum_sel G quad_par (nibit (t - s)).
Proof. intros. now apply (sel_high_n s). Qed.

Lemma quad_low : t < s ->
  sum_sel (G * (4 * W)) (bit B) (ibit t) = sum_sel (4 * W) (bit quad_fold) (ibit t).
Proof. intros. now apply (sel_low s). Qed.

Lemma quad_low_n : t < s ->
  sum_sel (G * (4 * W)) (bit B) (nibit t) = sum_sel (4 * W) (bit quad_fold) (nibit t).
Proof. intros. now apply (sel_low_n s). Qed.

End QuadSums.

End Quads.

(** The [n] 32-bit lanes of a folded block [F] of [n * 32] bits. *)

Section LaneSums.

Context (F : Z) (n : nat) (t : Z).
Hypothesis Ht : 0 <= t.

Definition lane_par (i : nat) : bool := parity 32 (word 32 F i).

Lemma lane_high : 5 <= t ->
  sum_sel (n * 32) (bit F) (ibit t) = sum_sel n lane_par (ibit (t - 5)).
Proof. intros. now apply (sel_high 5 32). Qed.

Lemma lane_high_n : 5 <= t ->
  sum_sel (n * 32) (bit F) (nibit t) = sum_sel n lane_par (nibit (t - 5)).
Proof. intros. now apply (sel_high_n 5 32). Qed.

Lemma lane_low : t < 5 ->
  sum_sel (n * 32) (bit F) (ibit t) = sum_sel 32 (bit (xorZ n (word 32 F))) (ibit t).
Proof. intros. now apply (sel_low 5 32). Qed.

Lemma lane_low_n : t < 5 ->
  sum_sel (n * 32) (bit F) (nibit t) = sum_sel 32 (bit (xorZ n (word 32 F))) (nibit t).
Proof. intros. now apply (sel_low_n 5 32). Qed.

End LaneSums.

Lemma land_pow2_eqb x j : 0 <= j ->
  (x .& 2 ^ j =? 0) = negb (Z.testbit x j).
Proof.
  intros Hj.
  destruct (Z.testbit x j) eqn:Eb; simpl.
  - apply Z.eqb_neq. intros E0. apply (f_equal (fun z => Z.testbit z j)) in E0.
    rewrite Z.land_spec, Eb, Z.pow2_bits_true, Z.bits_0 in E0 by lia. easy.
  - apply Z.eqb_eq. bitwise i. rewrite Z.land_spec, Z.pow2_bits_eqb, Z.bits_0 by lia.
    destruct (Z.eqb_spec j i) as [<-|]; [now rewrite Eb|apply andb_false_r].
Qed.

Lemma land_shifted_one x j : 0 <= j < 32 ->
  (x .& u32 (Z.shiftl 1 j) =? 0) = negb (Z.testbit x j).
Proof.
  intros Hj. rewrite Z.shiftl_1_l, wrapu_small by
    (split; [apply Z.pow_nonneg; lia|apply Z.pow_lt_mono_r; lia]).
  apply land_pow2_eqb. lia.
Qed.

(** ** Columns of the folded word *)

Lemma col_loop_level r2 : in_u 32 r2 -> col_loop r2 = level 0 32 (bit r2).
Proof.
  intros Hr. unfold col_loop.
  set (I := fun (k : nat) s => s = ColAcc (u32 (2 ^ Z.of_nat k)) (level 0 k (bit r2)) (idx 0 k)).
  enough (HI : I 32%nat (while_do 64 (fun s => negb (c_i s =? 0)) (col_body r2)
                           (ColAcc 1 0 0xffff0000))) by now rewrite HI.
  apply (while_do_inv I _ _ _ _ 0%nat); [lia|lia|easy| |].
  - intros j s Hj ->. unfold col_body. cbn [c_i c_r c_idxr].
    assert (Hp : u32 (2 ^ Z.of_nat j) = 2 ^ Z.of_nat j).
    { apply wrapu_small. split; [apply Z.pow_nonneg; lia|]. apply Z.pow_lt_mono_r; lia. }
    rewrite Hp. pose proof (pow2_pos (Z.of_nat j)). split; [apply negb_true_iff, Z.eqb_neq; lia|].
    unfold I. f_equal.
    + replace (Z.of_nat (1 + j)) with (Z.succ (Z.of_nat j)) by lia.
      rewrite Z.pow_succ_r by lia. f_equal. lia.
    + change (1 + j)%nat with (S j). rewrite level_succ. f_equal. unfold bit.
      rewrite land_pow2_eqb by lia. destruct (Z.testbit r2 _); simpl; [apply Z.land_m1_l|apply Z.land_0_l].
    + now apply idx_succ.
  - intros s ->. easy.
Qed.

(** ** Loads from the page *)

Section Page.

Context (oob : nat -> Z -> Z) (pb : list Z) (cb : Z) (h : bool) (m : nat).
Hypothesis Hpb : bytes_ok pb.
Hypothesis Hlen : Z.of_nat (length pb) = cb.
Hypothesis Hcb : 8 * cb = 2 ^ Z.of_nat m.
Hypothesis Hm : (13 <= m <= 16)%nat.

Let B := page_num pb h.
Let cb_bound := cb_bound cb m Hcb Hm.
Let page_blocks := page_blocks cb m Hcb.
Let page_rounds := page_rounds cb m Hcb Hm.

Lemma ld_page n i :
  (0 < n)%nat -> 0 <= i -> Z.of_nat n * (i + 1) <= cb -> (h = true -> 64 <= 8 * Z.of_nat n * i) ->
  ld oob n pb i = word (8 * Z.of_nat n) B (Z.to_nat i).
Proof.
  intros Hn Hi Hr Hh. apply ld_page_num; easy || lia.
Qed.

(** ** 32-bit words *)

Definition dw_inv (M : nat) (s : dwacc) : Prop :=
  s = DwAcc (level 7 (2 * M) (quad_par 32 B)) (idx 7 (2 * M)) (Z.of_nat (8 * M))
        (quad_acc 32 B (2 * M) 0) (quad_acc 32 B (2 * M) 1)
        (quad_acc 32 B (2 * M) 2) (quad_acc 32 B (2 * M) 3).

Lemma dw_inv_0 : dw_inv 0 dw_init.
Proof. unfold dw_inv. rewrite !quad_acc_0 by lia. easy. Qed.

Lemma dw_step M s pT0 pT1 :
  dw_inv M s -> 32 * (Z.of_nat M + 1) <= cb ->
  pT0 = word 32 B (8 * M) -> pT1 = word 32 B (8 * M + 1) ->
  dw_inv (1 + M) (dw_start oob pb pT0 pT1 s).
Proof.
  pose proof cb_bound. intros -> HM H0 H1. unfold dw_start.
  cbn [d_p d_idxp d_i d_p0 d_p1 d_p2 d_p3].
  rewrite !(ld_page 4) by lia.
  change (8 * Z.of_nat 4) with 32.
  replace (Z.to_nat (Z.of_nat (8 * M) + 2)) with (8 * M + 2)%nat by lia.
  replace (Z.to_nat (Z.of_nat (8 * M) + 3)) with (8 * M + 3)%nat by lia.
  replace (Z.to_nat (Z.of_nat (8 * M) + 4)) with (8 * M + 4)%nat by lia.
  replace (Z.to_nat (Z.of_nat (8 * M) + 5)) with (8 * M + 5)%nat by lia.
  replace (Z.to_nat (Z.of_nat (8 * M) + 6)) with (8 * M + 6)%nat by lia.
  replace (Z.to_nat (Z.of_nat (8 * M) + 7)) with (8 * M + 7)%nat by lia.
  subst pT0 pT1. rewrite !lParityMask_spec by auto 10 with words zarith.
  rewrite !land_pmask, !(idx_succ 7) by easy.
  unfold dw_inv. replace (2 * (1 + M))%nat with (S (S (2 * M))) by lia.
  rewrite !level_succ, !quad_par_words, !quad_acc_succ by lia.
  change (Z.of_nat 32) with 32.
  replace (4 * (2 * M) + 0)%nat with (8 * M)%nat by lia.
  replace (4 * (2 * M) + 1)%nat with (8 * M + 1)%nat by lia.
  replace (4 * (2 * M) + 2)%nat with (8 * M + 2)%nat by lia.
  replace (4 * (2 * M) + 3)%nat with (8 * M + 3)%nat by lia.
  replace (4 * S (2 * M) + 0)%nat with (8 * M + 4)%nat by lia.
  replace (4 * S (2 * M) + 1)%nat with (8 * M + 5)%nat by lia.
  replace (4 * S (2 * M) + 2)%nat with (8 * M + 6)%nat by lia.
  replace (4 * S (2 * M) + 3)%nat with (8 * M + 7)%nat by lia.
  f_equal. rewrite wrapu_small by (unfold in_u; change (2 ^ 32) with 4294967296; lia). lia.
Qed.

Lemma dw_body_step M s :
  dw_inv M s -> 32 * (Z.of_nat M + 1) <= cb -> (h = true -> (0 < M)%nat) ->
  dw_inv (1 + M) (dw_body oob pb s).
Proof.
  pose proof cb_bound. intros HI HM Hh. unfold dw_body.
  apply dw_step; [easy|easy| |]; rewrite HI; cbn [d_i];
    (rewrite (ld_page 4) by (lia || (intros E; specialize (Hh E); lia)));
    change (8 * Z.of_nat 4) with 32; f_equal; lia.
Qed.

Lemma dw_first : dw_inv 1 (if h then dw_start oob pb 0 0 dw_init else dw_body oob pb dw_init).
Proof.
  pose proof cb_bound. assert (Hh : h = true \/ h = false) by (destruct h; auto).
  destruct Hh as [Eh|Eh]; rewrite Eh.
  - apply (dw_step 0); [apply dw_inv_0|lia| |]; symmetry; unfold B; rewrite Eh;
      now apply page_num_word_zero.
  - apply (dw_body_step 0); [apply dw_inv_0|lia|]. congruence.
Qed.

Lemma dw_loop_inv : dw_inv (Z.to_nat (cb / 32)) (dw_loop oob pb cb h).
Proof.
  pose proof cb_bound. unfold dw_loop.
  pose proof (page_rounds 32 ltac:(lia) ltac:(easy)) as Hc.
  pose proof (page_rounds 4 ltac:(lia) ltac:(easy)) as H4.
  assert (0 <= cb / 4) by (apply Z.div_pos; lia).
  assert (0 <= cb / 32) by (apply Z.div_pos; lia).
  apply (while_do_inv dw_inv _ _ _ _ 1%nat); [lia|lia|apply dw_first| |].
  - intros j s Hj HI. split.
    + rewrite HI. cbn [d_i]. apply Z.ltb_lt. lia.
    + apply dw_body_step; [easy|lia|lia].
  - intros s ->. cbn [d_i]. apply Z.ltb_ge. lia.
Qed.

Section DwEcc.

Context (M : nat).
Hypothesis HM : 8 * cb = Z.of_nat (2 * M * (4 * 32)).

Let F := quad_fold 32 B (2 * M).
Let r2 := word 32 F 0 ^^ word 32 F 2 ^^ (word 32 F 1 ^^ word 32 F 3).

Lemma dw_r2 : r2 = xorZ 4 (word 32 F).
Proof.
  unfold r2. cbn [xorZ]. bitwise i. rewrite !Z.lxor_spec, Z.bits_0.
  destruct (Z.testbit (word 32 F 0) i), (Z.testbit (word 32 F 1) i),
    (Z.testbit (word 32 F 2) i), (Z.testbit (word 32 F 3) i); easy.
Qed.

Definition dw_ecc : Z :=
  ((level 7 (2 * M) (quad_par 32 B)
     .| sel (parity 32 (word 32 F 0 ^^ word 32 F 1)) 0x00400000
     .| sel (parity 32 (word 32 F 2 ^^ word 32 F 3)) 0x00000040
     .| sel (parity 32 (word 32 F 0 ^^ word 32 F 2)) 0x00200000
     .| sel (parity 32 (word 32 F 1 ^^ word 32 F 3)) 0x00000020)
    .& 0xffe0ffe0 .& Z.ones (Z.of_nat m + 16))
  .| (level 0 32 (bit r2) .& 0x001f001f).

Lemma dw_ecc_lo : forall t, 0 <= t < 16 ->
  Z.testbit dw_ecc t = sum_sel (2 * M * (4 * 32)) (bit B) (ibit t).
Proof.
  pose proof cb_bound. unfold dw_ecc. apply Z16_cases; ecc_pre.
  all: rewrite ?(proj2 (Z.ltb_lt _ (Z.of_nat m + 16))) by lia; autorewrite with bools.
  all: first [now rewrite (quad_high 32 B 7) by lia
             | rewrite (quad_low 32 B 7) by lia; fold F;
               first [rewrite lane_high by lia; unfold lane_par
                     |now rewrite lane_low, dw_r2 by lia]].
  all: rewrite parity_lxor; sum_small; easy.
Qed.

Lemma dw_ecc_hi : forall t, 0 <= t < 16 ->
  Z.testbit dw_ecc (t + 16) = (t <? Z.of_nat m) && sum_sel (2 * M * (4 * 32)) (bit B) (nibit t).
Proof.
  pose proof cb_bound. unfold dw_ecc. apply Z16_cases; ecc_pre.
  all: rewrite ?(high_mask m), ?(andb_comm (sum_sel _ _ _)).
  all: first [now rewrite (quad_high_n 32 B 7) by lia
             | rewrite (quad_low_n 32 B 7) by lia; fold F;
               rewrite ?(proj2 (Z.ltb_lt _ (Z.of_nat m))) by lia; autorewrite with bools;
               first [rewrite lane_high_n by lia; unfold lane_par
                     |now rewrite lane_low_n, dw_r2 by lia]].
  all: rewrite parity_lxor; sum_small; easy.
Qed.

Lemma dw_ecc_in_u : in_u 32 dw_ecc.
Proof.
  unfold dw_ecc.
  repeat first [apply in_u_lor; [lia| |] | apply in_u_land; [lia|] | apply level_in_u
               | apply sel_in_u; [lia|unfold in_u; lia]].
Qed.

Lemma dw_finish_ecc s :
  dw_inv M s -> dw_finish cb s = (ecc_ref (2 ^ m) B, xor_ref (2 ^ m) B).
Proof.
  pose proof cb_bound. intros ->. unfold dw_finish.
  cbn [d_p d_idxp d_i d_p0 d_p1 d_p2 d_p3].
  change (quad_acc 32 B (2 * M)) with (word 32 F). fold r2.
  assert (Hn : (2 ^ m = 2 * M * (4 * 32))%nat) by now apply page_blocks.
  rewrite !lParityMask_spec by auto 10 with words zarith.
  rewrite !land_pmask, col_loop_level, (cb_mask_ones cb m) by
    (easy || (unfold r2; auto 10 with words zarith)).
  fold dw_ecc. f_equal.
  - apply ecc_ref_intro; [lia|apply dw_ecc_in_u| |]; rewrite Hn;
      [apply dw_ecc_lo|apply dw_ecc_hi].
  - rewrite dw_r2. unfold xor_ref, F, quad_fold. change (Z.of_nat (4 * 32)) with (Z.of_nat 4 * 32).
    rewrite <- xorZ_word_lanes by easy. rewrite Hn.
    replace (2 * M * (4 * 32) / 32)%nat with (2 * M * 4)%nat; [easy|].
    replace (2 * M * (4 * 32))%nat with (2 * M * 4 * 32)%nat by lia. now rewrite Nat.div_mul.
Qed.

End DwEcc.

Lemma dw_page : dw_finish cb (dw_loop oob pb cb h) = (ecc_ref (2 ^ m) B, xor_ref (2 ^ m) B).
Proof.
  apply (dw_finish_ecc (Z.to_nat (cb / 32))); [|apply dw_loop_inv].
  pose proof (page_rounds 32 ltac:(lia) ltac:(easy)). lia.
Qed.

(** ** 64 bit: rows and columns *)

Definition not_sum (n : nat) (par : nat -> bool) : Z :=
  xorZ n (fun j => sel (par j) (u32 (Z.lnot (Z.of_nat j)))).

Definition idx_sum (n : nat) (par : nat -> bool) : Z :=
  xorZ n (fun j => sel (par j) (Z.of_nat j)).

Lemma idx_sum_testbit n par t : Z.testbit (idx_sum n par) t = sum_sel n par (ibit t).
Proof. unfold idx_sum. rewrite xorZ_testbit. apply xsum_ext. intros. apply sel_testbit. Qed.

Lemma not_sum_testbit n par t : 0 <= t < 32 ->
  Z.testbit (not_sum n par) t = sum_sel n par (nibit t).
Proof.
  intros Ht. unfold not_sum. rewrite xorZ_testbit. apply xsum_ext. intros j Hj.
  rewrite sel_testbit, testbit_wrapu, (proj2 (Z.ltb_lt t 32)), Z.lnot_spec by lia. easy.
Qed.

Let row_par (j : nat) := parity 32 (word 32 B j).

Definition row_inv (k : nat) (s : rowacc) : Prop :=
  s = RowAcc (Z.of_nat k) (xorZ k (word 32 B)) (idx_sum k row_par) (not_sum k row_par).

Lemma row_step k s :
  row_inv k s -> 4 * (Z.of_nat k + 1) <= cb -> (h = true -> (2 <= k)%nat) ->
  row_inv (1 + k) (row_body oob pb s).
Proof.
  pose proof cb_bound. intros -> Hk Hh. unfold row_body. cbn [w_i w_col w_p w_q].
  rewrite (ld_page 4), Nat2Z.id by (lia || (intros E; specialize (Hh E); lia)).
  change (8 * Z.of_nat 4) with 32. rewrite lParityMask_spec, !pmask_land by auto with words zarith.
  unfold row_inv. f_equal.
  rewrite wrapu_small by (unfold in_u; change (2 ^ 32) with 4294967296; lia). lia.
Qed.

Lemma row_start : row_inv (if h then 2 else 0) (RowAcc (if h then 2 else 0) 0 0 0).
Proof.
  assert (Hh : h = true \/ h = false) by (destruct h; auto). destruct Hh as [Eh|Eh]; rewrite Eh.
  - unfold row_inv, idx_sum, not_sum, row_par. cbn [xorZ].
    unfold B. rewrite Eh, !page_num_word_zero by easy. now rewrite parity_0.
  - easy.
Qed.

Lemma rows_spec :
  row_inv (Z.to_nat (cb / 4))
    (while_do (Z.to_nat (cb / 4)) (fun s => w_i s <? cb / 4) (row_body oob pb)
       (RowAcc (if h then 2 else 0) 0 0 0)).
Proof.
  pose proof cb_bound. pose proof (page_rounds 4 ltac:(lia) ltac:(easy)) as H4.
  assert (0 <= cb / 4) by (apply Z.div_pos; lia).
  apply (while_do_inv row_inv _ _ _ _ (if h then 2 else 0)%nat).
  - destruct h; lia.
  - lia.
  - apply row_start.
  - intros j s Hj HI. split.
    + rewrite HI. cbn [w_i]. apply Z.ltb_lt. lia.
    + apply row_step; [easy|lia|]. intros E. rewrite E in Hj. lia.
  - intros s ->. cbn [w_i]. apply Z.ltb_ge. lia.
Qed.

Lemma columns_spec col :
  while_do 32 (fun s => s.1.1 <? 32) (column_body col) (0, 0, 0) =
  (32, idx_sum 32 (bit col), not_sum 32 (bit col)).
Proof.
  set (I := fun (k : nat) s => s = (Z.of_nat k, idx_sum k (bit col), not_sum k (bit col))).
  apply (while_do_inv I _ _ 32 _ 0%nat); [lia|lia|easy| |].
  - intros j s Hj ->. split; [apply Z.ltb_lt; simpl; lia|].
    unfold I, column_body. rewrite land_shifted_one by lia.
    replace (u32 (Z.of_nat j + 1)) with (Z.of_nat (1 + j)) by
      (rewrite wrapu_small by (unfold in_u; change (2 ^ 32) with 4294967296; lia); lia).
    change (if negb (Z.testbit col (Z.of_nat j)) then 0 else -1) with
      (if negb (bit col j) then 0 else -1).
    replace (if negb (bit col j) then 0 else -1) with (pmask (bit col j)) by
      now destruct (bit col j).
    now rewrite !pmask_land.
  - intros s ->. easy.
Qed.

Section BitEcc.

Let R := Z.to_nat (cb / 4).
Let col := xorZ R (word 32 B).

Definition bit64_ecc : Z :=
  u32 (Z.shiftl (not_sum R row_par .& u32 (cb / 4 - 1)) 21)
    .| u32 (Z.shiftl (not_sum 32 (bit col) .& 31) 16)
    .| u32 (Z.shiftl (idx_sum R row_par .& u32 (cb / 4 - 1)) 5)
    .| u32 (Z.shiftl (idx_sum 32 (bit col) .& 31) 0)
    .| 0.

Lemma rows_pow2 : cb / 4 = 2 ^ (Z.of_nat m - 5).
Proof.
  pose proof (page_rounds 4 ltac:(lia) ltac:(easy)) as H4. pose proof cb_bound.
  assert (0 <= cb / 4) by (apply Z.div_pos; lia).
  apply (Z.mul_cancel_l _ _ 32); [easy|]. change 32 with (2 ^ 5) at 2.
  rewrite <- Z.pow_add_r by lia. replace (5 + (Z.of_nat m - 5)) with (Z.of_nat m) by lia. lia.
Qed.

Lemma row_mask_ones : u32 (cb / 4 - 1) = Z.ones (Z.of_nat m - 5).
Proof.
  rewrite rows_pow2, Z.ones_equiv.
  assert (2 ^ (Z.of_nat m - 5) <= 2 ^ 11) by (apply Z.pow_le_mono_r; lia).
  pose proof (pow2_pos (Z.of_nat m - 5)). apply wrapu_small. unfold in_u.
  change (2 ^ 11) with 2048 in *. change (2 ^ 32) with 4294967296. lia.
Qed.

(** Row indices fit into the mask. *)
Lemma idx_sum_masked : idx_sum R row_par .& u32 (cb / 4 - 1) = idx_sum R row_par.
Proof.
  pose proof cb_bound. rewrite row_mask_ones, Z.land_ones by lia. apply Z.mod_small.
  apply (xorZ_in_u (Z.of_nat m - 5)); [lia|]. intros k Hk. apply sel_in_u; [lia|].
  unfold in_u. rewrite <- rows_pow2. subst R. lia.
Qed.

Lemma testbit_shifted X k t :
  0 <= k -> 0 <= t < 32 ->
  Z.testbit (u32 (Z.shiftl X k)) t = (k <=? t) && Z.testbit X (t - k).
Proof.
  intros Hk Ht. rewrite testbit_wrapu, (proj2 (Z.ltb_lt t 32)), andb_true_l, Z.shiftl_spec by lia.
  destruct (Z.leb_spec k t); [easy|]. now rewrite Z.testbit_neg_r by lia.
Qed.

Lemma row_mask t : (t + 16 - 21 <? Z.of_nat m - 5) = (t <? Z.of_nat m).
Proof. destruct (Z.ltb_spec t (Z.of_nat m)); [apply Z.ltb_lt|apply Z.ltb_ge]; lia. Qed.

Lemma bit64_blocks : (2 ^ m = R * 32)%nat.
Proof.
  apply page_blocks. pose proof (page_rounds 4 ltac:(lia) ltac:(easy)).
  subst R. lia.
Qed.

Ltac bit64_pre :=
  rewrite !Z.lor_spec, !testbit_shifted, ?Z.land_spec, ?Z.bits_0 by lia; leb_consts;
  autorewrite with bools; rewrite ?idx_sum_testbit, ?not_sum_testbit by lia; testbit_consts; autorewrite with bools.

Lemma bit64_ecc_lo : forall t, 0 <= t < 16 ->
  Z.testbit bit64_ecc t = sum_sel (R * 32) (bit B) (ibit t).
Proof.
  unfold bit64_ecc. rewrite idx_sum_masked. apply Z16_cases; bit64_pre.
  all: first [now rewrite (sel_high 5 32) by (easy || lia)
             |now rewrite (sel_low 5 32) by (easy || lia)].
Qed.

Lemma bit64_ecc_hi : forall t, 0 <= t < 16 ->
  Z.testbit bit64_ecc (t + 16) = (t <? Z.of_nat m) && sum_sel (R * 32) (bit B) (nibit t).
Proof.
  pose proof cb_bound. unfold bit64_ecc. rewrite row_mask_ones. apply Z16_cases; bit64_pre.
  all: rewrite ?Z.testbit_ones_nonneg, ?row_mask by lia.
  all: rewrite ?(proj2 (Z.ltb_ge (_ + 16 - 5) (Z.of_nat m - 5))) by lia; autorewrite with bools.
  all: first [rewrite (sel_high_n 5 32) by (easy || lia)
             |rewrite (sel_low_n 5 32) by (easy || lia)].
  all: rewrite ?(andb_comm (sum_sel _ _ _)).
  all: rewrite ?(proj2 (Z.ltb_lt _ (Z.of_nat m))) by lia; autorewrite with bools; easy.
Qed.

Lemma bit64_ecc_in_u : in_u 32 bit64_ecc.
Proof.
  unfold bit64_ecc.
  repeat first [apply in_u_lor; [lia| |] | apply wrapu_range; lia | unfold in_u; lia].
Qed.

Lemma bit64_page pgno :
  ChecksumNewFormat64Bit oob pb cb pgno h =
  MakeChecksumFromECCXORAndPgno (ecc_ref (2 ^ m) B) (xor_ref (2 ^ m) B) pgno.
Proof.
  unfold ChecksumNewFormat64Bit. change (32 / 8) with 4.
  pose proof rows_spec as Hrows. unfold row_inv in Hrows. cbv zeta. rewrite !Hrows.
  cbn [w_col w_p w_q]. fold R. fold col. rewrite columns_spec.
  change (u32 (32 - 1)) with 31. fold bit64_ecc. f_equal.
  - apply ecc_ref_intro; [lia|apply bit64_ecc_in_u| |]; rewrite bit64_blocks;
      [apply bit64_ecc_lo|apply bit64_ecc_hi].
  - unfold xor_ref. rewrite bit64_blocks. now rewrite Nat.div_mul.
Qed.

End BitEcc.

(** ** 128-bit words *)

Definition dq_inv (M : nat) (s : dqacc) : Prop :=
  s = DqAcc (level 9 (2 * M) (quad_par 128 B)) (idx 9 (2 * M)) (Z.of_nat (8 * M))
        (quad_acc 128 B (2 * M) 0) (quad_acc 128 B (2 * M) 1)
        (quad_acc 128 B (2 * M) 2) (quad_acc 128 B (2 * M) 3).

Lemma dq_inv_0 : dq_inv 0 dq_init.
Proof. unfold dq_inv. rewrite !quad_acc_0 by lia. easy. Qed.

Lemma dq_step T M s dqL0 :
  dq_inv M s -> 128 * (Z.of_nat M + 1) <= cb -> dqL0 = word 128 B (8 * M) ->
  dq_inv (1 + M) (dq_start oob T pb dqL0 s).
Proof.
  pose proof cb_bound. intros -> HM H0. unfold dq_start.
  cbn [q_p q_idxp q_i q_0 q_1 q_2 q_3].
  rewrite !(ld_page 16) by lia. change (8 * Z.of_nat 16) with 128.
  replace (Z.to_nat (Z.of_nat (8 * M) + 1)) with (8 * M + 1)%nat by lia.
  replace (Z.to_nat (Z.of_nat (8 * M) + 2)) with (8 * M + 2)%nat by lia.
  replace (Z.to_nat (Z.of_nat (8 * M) + 3)) with (8 * M + 3)%nat by lia.
  replace (Z.to_nat (Z.of_nat (8 * M) + 4)) with (8 * M + 4)%nat by lia.
  replace (Z.to_nat (Z.of_nat (8 * M) + 5)) with (8 * M + 5)%nat by lia.
  replace (Z.to_nat (Z.of_nat (8 * M) + 6)) with (8 * M + 6)%nat by lia.
  replace (Z.to_nat (Z.of_nat (8 * M) + 7)) with (8 * M + 7)%nat by lia.
  subst dqL0. rewrite !parity_m128_spec by auto 10 with words zarith.
  rewrite !land_pmask, !(idx_succ 9) by easy.
  unfold dq_inv. replace (2 * (1 + M))%nat with (S (S (2 * M))) by lia.
  rewrite !level_succ, !quad_par_words, !quad_acc_succ by lia.
  change (Z.of_nat 128) with 128.
  replace (4 * (2 * M) + 0)%nat with (8 * M)%nat by lia.
  replace (4 * (2 * M) + 1)%nat with (8 * M + 1)%nat by lia.
  replace (4 * (2 * M) + 2)%nat with (8 * M + 2)%nat by lia.
  replace (4 * (2 * M) + 3)%nat with (8 * M + 3)%nat by lia.
  replace (4 * S (2 * M) + 0)%nat with (8 * M + 4)%nat by lia.
  replace (4 * S (2 * M) + 1)%nat with (8 * M + 5)%nat by lia.
  replace (4 * S (2 * M) + 2)%nat with (8 * M + 6)%nat by lia.
  replace (4 * S (2 * M) + 3)%nat with (8 * M + 7)%nat by lia.
  f_equal. rewrite wrapu_small by (unfold in_u; change (2 ^ 32) with 4294967296; lia). lia.
Qed.

Lemma dq_body_step T M s :
  dq_inv M s -> 128 * (Z.of_nat M + 1) <= cb -> (h = true -> (0 < M)%nat) ->
  dq_inv (1 + M) (dq_body oob T pb s).
Proof.
  pose proof cb_bound. intros HI HM Hh. unfold dq_body. apply dq_step; [easy|easy|].
  rewrite HI; cbn [q_i].
  rewrite (ld_page 16) by (lia || (intros E; specialize (Hh E); lia)).
  change (8 * Z.of_nat 16) with 128. f_equal. lia.
Qed.

(** The header block: the low quadword is replaced by zero. *)
Lemma unpackhi_header : mm_unpackhi_epi64 0 (ld oob 16 pb 0) = word 128 (page_num pb true) 0.
Proof.
  pose proof cb_bound. rewrite ld_word by (easy || lia). unfold mm_unpackhi_epi64.
  bitwise i. rewrite testbit_concat by (try apply wrapu_range; lia).
  rewrite !testbit_wrapu, word_testbit, page_num_testbit by lia.
  change (8 * Z.of_nat 16) with 128. change (Z.to_nat 0) with 0%nat.
  change (Z.of_nat 0) with 0. rewrite Z.mul_0_r, Z.add_0_l.
  destruct (Z.ltb_spec i 64).
  - rewrite Z.shiftr_0_l, Z.bits_0. simpl. now rewrite !andb_false_r.
  - rewrite Z.shiftr_spec, word_testbit by lia. change (Z.of_nat 0) with 0.
    rewrite Z.mul_0_r, Z.add_0_l.
    destruct (Z.ltb_spec i 128).
    + rewrite (proj2 (Z.ltb_lt (i - 64) 64)), (proj2 (Z.ltb_lt (i - 64 + 64) 128)) by lia.
      simpl. f_equal. lia.
    + now rewrite (proj2 (Z.ltb_ge (i - 64) 64)) by lia.
Qed.

Lemma dq_first T :
  dq_inv 1 (if h then dq_start oob T pb (mm_unpackhi_epi64 0 (ld oob 16 pb 0)) dq_init
            else dq_body oob T pb dq_init).
Proof.
  pose proof cb_bound. assert (Hh : h = true \/ h = false) by (destruct h; auto).
  destruct Hh as [Eh|Eh]; rewrite Eh.
  - apply (dq_step T 0); [apply dq_inv_0|lia|]. rewrite unpackhi_header. unfold B. now rewrite Eh.
  - apply (dq_body_step T 0); [apply dq_inv_0|lia|]. congruence.
Qed.

Lemma dq_loop_inv T : dq_inv (Z.to_nat (cb / 128)) (dq_loop oob T pb cb h).
Proof.
  pose proof cb_bound. unfold dq_loop.
  pose proof (page_rounds 128 ltac:(lia) ltac:(easy)) as Hc.
  pose proof (page_rounds 16 ltac:(lia) ltac:(easy)) as H16.
  assert (0 <= cb / 16) by (apply Z.div_pos; lia).
  assert (0 <= cb / 128) by (apply Z.div_pos; lia).
  apply (while_do_inv dq_inv _ _ _ _ 1%nat); [lia|lia|apply dq_first| |].
  - intros j s Hj HI. split.
    + rewrite HI. cbn [q_i]. apply Z.ltb_lt. lia.
    + apply dq_body_step; [easy|lia|lia].
  - intros s ->. cbn [q_i]. apply Z.ltb_ge. lia.
Qed.

End Page.
