(* ===== verification/ChecksumAvx.v ===== *)
(** * ChecksumAvx: the AVX variant equals the reference

    Blocks of 128 bytes are folded to one, its four 256-bit words to one, that
    word to a 32-bit word through its lanes and that word to a byte. *)

From S2P Require Import Prelude Parity ChecksumDefs PageWords ChecksumEcc ChecksumNew ChecksumVariants.

(** ** The SSE2 and AVX variants equal the reference

    The vector variants fold the page to a block of 64 (SSE2) or 128 (AVX)
    bytes, then to one word through its 32-bit lanes, then to one byte, whose
    index bits come from a table. *)

(** ** The lanes of the folded block *)

Definition lanes (F : Z) (n : nat) : list Z := map (word 32 F) (seq 0 n).

Lemma dw_fold_app par l1 l2 s : dw_fold par (l1 ++ l2) s = dw_fold par l2 (dw_fold par l1 s).
Proof.
  revert s; induction l1 as [|x l1 IH]; intros [[q dw0] idxq]; simpl; [easy|]. apply IH.
Qed.

Lemma dw_fold_lanes par F n :
  (forall x, in_u 32 x -> par x = pmask (parity 32 x)) ->
  dw_fold par (lanes F n) (0, 0, 0xffe00000) =
  (level 5 n (fun i => parity 32 (word 32 F i)), xorZ n (word 32 F), idx 5 n).
Proof.
  intros Hpar. induction n as [|n IH]; [easy|].
  unfold lanes. rewrite seq_S, map_app, dw_fold_app. fold (lanes F n). rewrite IH.
  cbn [map dw_fold Nat.add]. rewrite Hpar, land_pmask, (idx_succ 5) by auto with words zarith.
  easy.
Qed.

(** ** The bytes of the folded word *)

Lemma land_ff_word x k : 0 <= x -> Z.shiftr x (8 * Z.of_nat k) .& 0xff = word 8 x k.
Proof. intros. change 0xff with (Z.ones 8). now rewrite Z.land_ones. Qed.

Definition byte_state (x : Z) (k : nat) : Z * Z * Z * Z :=
  (level 3 k (fun i => parity 8 (word 8 x i)), Z.shiftr x (8 * Z.of_nat k),
   xorZ k (fun i => Z.shiftr x (8 * Z.of_nat i)), idx 3 k).

Lemma byte_fold_spec par x n k :
  (forall y, in_u 8 y -> par y = pmask (parity 8 y)) -> 0 <= x ->
  byte_fold par n (byte_state x k) = byte_state x (k + n).
Proof.
  intros Hpar Hx. revert k. induction n as [|n IH]; intros k; [now rewrite Nat.add_0_r|].
  replace (k + S n)%nat with (S k + n)%nat by lia. rewrite <- IH.
  cbn [byte_fold byte_state]. unfold byte_state. f_equal.
  rewrite land_ff_word, Hpar, land_pmask, (idx_succ 3), Z.shiftr_shiftr by
    (auto with words zarith; lia).
  repeat f_equal. lia.
Qed.

Lemma byte0_fold x : 0 <= x ->
  xorZ 4 (fun i => Z.shiftr x (8 * Z.of_nat i)) .& 0xff = xorZ 4 (word 8 x).
Proof.
  intros Hx. bitwise i. change 0xff with (Z.ones 8).
  rewrite Z.land_spec, !xorZ_testbit, <- xsum_andb_r, Z.testbit_ones_nonneg by lia.
  apply xsum_ext. intros k Hk. rewrite Z.shiftr_spec, word_testbit by lia.
  rewrite andb_comm. f_equal. f_equal. lia.
Qed.

(** The table holds the index bits of a byte. *)
Lemma ecc_table : forall b : nat, (b < 256)%nat ->
  nth b g_bECCLookupTable 0 = ecc_lo 8 (Z.of_nat b) + 2 ^ 4 * ecc_hi 8 (Z.of_nat b).
Proof.
  assert (H : forallb (fun b => nth b g_bECCLookupTable 0 =?
                 ecc_lo 8 (Z.of_nat b) + 2 ^ 4 * ecc_hi 8 (Z.of_nat b)) (seq 0 256) = true)
    by (vm_compute; reflexivity).
  intros b Hb. rewrite forallb_forall in H. apply Z.eqb_eq, H, in_seq. lia.
Qed.

Lemma lECCLookup_spec x :
  lECCLookup8bit x = ecc_lo 8 (x .& 0xff) + 2 ^ 4 * ecc_hi 8 (x .& 0xff).
Proof.
  pose proof (land_ff_range x) as Hr. unfold in_u in Hr. change (2 ^ 8) with 256 in Hr.
  unfold lECCLookup8bit. rewrite ecc_table by (change 256%nat with (Z.to_nat 256); lia).
  now rewrite Z2Nat.id by lia.
Qed.

Lemma lECCLookup_lo x t : 0 <= t < 3 ->
  Z.testbit (lECCLookup8bit x) t = sum_sel 8 (bit (x .& 0xff)) (ibit t).
Proof.
  intros Ht. rewrite lECCLookup_spec.
  pose proof (ecc_lo_range 3 (x .& 0xff)) as [Hl Hu]. change (2 ^ 3)%nat with 8%nat in *.
  rewrite testbit_concat by (try (unfold in_u; change (2 ^ Z.of_nat 3) with 8 in Hu); lia).
  rewrite (proj2 (Z.ltb_lt t 4)) by lia. apply ecc_lo_testbit.
Qed.

Lemma lECCLookup_hi x t : 0 <= t < 3 ->
  Z.testbit (lECCLookup8bit x) (t + 4) = sum_sel 8 (bit (x .& 0xff)) (nibit t).
Proof.
  intros Ht. rewrite lECCLookup_spec.
  pose proof (ecc_lo_range 3 (x .& 0xff)) as [Hl Hu]. change (2 ^ 3)%nat with 8%nat in *.
  rewrite testbit_concat by (try (unfold in_u; change (2 ^ Z.of_nat 3) with 8 in Hu); lia).
  rewrite (proj2 (Z.ltb_ge (t + 4) 4)) by lia. replace (t + 4 - 4) with t by lia.
  change 8%nat with (2 ^ 3)%nat. rewrite ecc_hi_testbit by lia.
  now rewrite (proj2 (Z.ltb_lt t _)) by lia.
Qed.

(** The five index bits of a column of the folded word [x]. *)
Definition column_ecc (x : Z) : Z :=
  ecc_low_bits (level 3 4 (fun i => parity 8 (word 8 x i)))
    (xorZ 4 (fun i => Z.shiftr x (8 * Z.of_nat i))).

Lemma Z5_cases (P : Z -> Prop) :
  P 0 -> P 1 -> P 2 -> P 3 -> P 4 -> forall t, 0 <= t < 5 -> P t.
Proof.
  intros. assert (t = 0 \/ t = 1 \/ t = 2 \/ t = 3 \/ t = 4) by lia.
  destruct_or!; subst; assumption.
Qed.

Lemma column_ecc_lo x : 0 <= x -> forall t, 0 <= t < 5 ->
  Z.testbit (column_ecc x) t = sum_sel 32 (bit x) (ibit t).
Proof.
  intros Hx. unfold column_ecc, ecc_low_bits. change 32%nat with (4 * 8)%nat.
  apply Z5_cases; rewrite !Z.lor_spec, !Z.land_spec; testbit_consts; rewrite level_lo by lia;
    leb_consts; autorewrite with bools.
  all: first [rewrite (sel_high 3 8) by (reflexivity || lia); reflexivity
             |rewrite (sel_low 3 8) by (reflexivity || lia);
              now rewrite lECCLookup_lo, byte0_fold by lia].
Qed.

Lemma column_ecc_hi x : 0 <= x -> forall t, 0 <= t < 5 ->
  Z.testbit (column_ecc x) (t + 16) = sum_sel 32 (bit x) (nibit t).
Proof.
  intros Hx. unfold column_ecc, ecc_low_bits. change 32%nat with (4 * 8)%nat.
  apply Z5_cases; rewrite !Z.lor_spec, !Z.land_spec; testbit_consts; rewrite level_hi by lia;
    leb_consts; autorewrite with bools.
  all: first [rewrite (sel_high_n 3 8) by (reflexivity || lia); reflexivity
             |rewrite (sel_low_n 3 8) by (reflexivity || lia);
              rewrite Z.shiftl_spec by lia;
              match goal with |- Z.testbit (lECCLookup8bit ?b) ?i = sum_sel _ _ (nibit ?t) =>
                change i with (t + 4) end;
              now rewrite lECCLookup_hi, byte0_fold by lia].
Qed.

Lemma byte_fold_column par x :
  (forall y, in_u 8 y -> par y = pmask (parity 8 y)) -> 0 <= x ->
  (let '(r, _, byte0, _) := byte_fold par 4 (0, x, 0, 0xfff80000) in ecc_low_bits r byte0)
  = column_ecc x.
Proof.
  intros Hpar Hx.
  change (0, x, 0, 0xfff80000) with (byte_state x 0). now rewrite byte_fold_spec.
Qed.

Lemma m128_lanes F k :
  dwords_of_m128 (word 128 F k) = map (word 32 F) (seq (4 * k) 4).
Proof.
  unfold dwords_of_m128. rewrite !lane_word by easy. change 128 with (Z.of_nat 4 * 32).
  rewrite !word_word by (easy || (change (Z.to_nat 3) with 3%nat; lia) || simpl; lia).
  cbn [seq map]. repeat f_equal; lia.
Qed.

Lemma m256_lanes F : in_u 256 F -> dwords_of_m256 F = lanes F 8.
Proof. intros _. unfold dwords_of_m256. now rewrite !lane_word by easy. Qed.

Section VectorPage.

Context (oob : nat -> Z -> Z) (pb : list Z) (cb : Z) (h : bool) (m : nat).
Hypothesis Hpb : bytes_ok pb.
Hypothesis Hlen : Z.of_nat (length pb) = cb.
Hypothesis Hcb : 8 * cb = 2 ^ Z.of_nat m.
Hypothesis Hm : (13 <= m <= 16)%nat.

Let B := page_num pb h.

(** ** SSE2 *)

Section Sse2Ecc.

Context (G : nat).
Hypothesis HG : 8 * cb = Z.of_nat (G * 512).

Let F := quad_fold 128 B G.
Let dw0 := xorZ 16 (word 32 F).

Definition sse2_ecc : Z :=
  (level 9 G (quad_par 128 B) .& 0xfe00fe00 .& Z.ones (Z.of_nat m + 16))
  .| (level 5 16 (lane_par F) .& 0x01e001e0)
  .| (column_ecc dw0 .& 0x001f001f).

Lemma dw0_nonneg : 0 <= dw0.
Proof. apply (xorZ_in_u 32); [easy|]. intros. now apply word_in_u. Qed.

Lemma sse2_split k : sum_sel (4 * 128) (bit (quad_fold 128 B G)) k = sum_sel (16 * 32) (bit F) k.
Proof. easy. Qed.

Lemma sse2_ecc_lo : forall t, 0 <= t < 16 ->
  Z.testbit sse2_ecc t = sum_sel (G * (4 * 128)) (bit B) (ibit t).
Proof.
  pose proof (cb_bound cb m Hcb Hm). pose proof dw0_nonneg. unfold sse2_ecc.
  apply Z16_cases; ecc_pre.
  all: rewrite ?(proj2 (Z.ltb_lt _ (Z.of_nat m + 16))) by lia; autorewrite with bools.
  all: first [now rewrite (quad_high 128 B 9) by lia
             | rewrite (quad_low 128 B 9), sse2_split by lia;
               first [now rewrite lane_high by lia
                     |rewrite column_ecc_lo by lia; now rewrite lane_low by lia]].
Qed.

Lemma sse2_ecc_hi : forall t, 0 <= t < 16 ->
  Z.testbit sse2_ecc (t + 16) = (t <? Z.of_nat m) && sum_sel (G * (4 * 128)) (bit B) (nibit t).
Proof.
  pose proof (cb_bound cb m Hcb Hm). pose proof dw0_nonneg. unfold sse2_ecc.
  apply Z16_cases; ecc_pre.
  all: rewrite ?(high_mask m), ?(andb_comm (sum_sel _ _ _)).
  all: first [now rewrite (quad_high_n 128 B 9) by lia
             | rewrite (quad_low_n 128 B 9), sse2_split by lia;
               rewrite ?(proj2 (Z.ltb_lt _ (Z.of_nat m))) by lia; autorewrite with bools;
               first [now rewrite lane_high_n by lia
                     |rewrite column_ecc_hi by lia; now rewrite lane_low_n by lia]].
Qed.

Lemma sse2_ecc_in_u : in_u 32 sse2_ecc.
Proof.
  unfold sse2_ecc.
  repeat first [apply in_u_lor; [lia| |] | apply level_in_u
               | rewrite Z.land_comm; apply in_u_land; [lia|unfold in_u; lia]
               | apply in_u_land; [lia|]].
Qed.

Lemma sse2_xor : dw0 = xor_ref (2 ^ m) B.
Proof.
  unfold dw0, F, quad_fold, xor_ref. rewrite (page_blocks cb m Hcb G 512) by easy.
  change 512 with (Z.of_nat 16 * 32). rewrite <- xorZ_word_lanes by easy.
  replace (G * 512 / 32)%nat with (G * 16)%nat; [easy|].
  replace (G * 512)%nat with (G * 16 * 32)%nat by lia. now rewrite Nat.div_mul.
Qed.

End Sse2Ecc.

Lemma sse2_pdw G :
  dwords_of_m128 (quad_acc 128 B G 0) ++ dwords_of_m128 (quad_acc 128 B G 1)
    ++ dwords_of_m128 (quad_acc 128 B G 2) ++ dwords_of_m128 (quad_acc 128 B G 3)
  = lanes (quad_fold 128 B G) 16.
Proof. unfold quad_acc. change (Z.of_nat 128) with 128. fold (quad_fold 128 B G). now rewrite !m128_lanes. Qed.

Lemma sse2_page T pgno :
  ChecksumNewFormatSSE2 oob T pb cb pgno h =
  MakeChecksumFromECCXORAndPgno (ecc_ref (2 ^ m) B) (xor_ref (2 ^ m) B) pgno.
Proof.
  pose proof (cb_bound cb m Hcb Hm).
  pose proof (page_rounds cb m Hcb Hm 128 ltac:(lia) ltac:(easy)) as H128.
  set (G := (2 * Z.to_nat (cb / 128))%nat).
  assert (HG : 8 * cb = Z.of_nat (G * 512)) by (unfold G; lia).
  unfold ChecksumNewFormatSSE2. cbv zeta.
  pose proof (dq_loop_inv oob pb cb h m Hpb Hlen Hcb Hm T) as Hs. unfold dq_inv in Hs.
  rewrite !Hs.
  cbn [q_p q_idxp q_i q_0 q_1 q_2 q_3]. fold B. fold G. rewrite sse2_pdw.
  rewrite dw_fold_lanes by (intros; now apply parity_dw_spec).
  pose proof (byte_fold_column (parity_byte T) (xorZ 16 (word 32 (quad_fold 128 B G)))
    (parity_byte_spec T) (dw0_nonneg G)) as Hc.
  destruct (byte_fold _ 4 _) as [[[r ?] byte0] ?]. rewrite Hc.
  rewrite (cb_mask_ones cb m) by easy. change (level 5 16 (fun i => parity 32 (word 32 (quad_fold 128 B G) i)))
    with (level 5 16 (lane_par (quad_fold 128 B G))). fold (sse2_ecc G).
  rewrite (sse2_xor G HG). f_equal.
  apply ecc_ref_intro; [lia|now apply sse2_ecc_in_u| |];
    rewrite (page_blocks cb m Hcb G 512) by easy; [now apply sse2_ecc_lo|now apply sse2_ecc_hi].
Qed.

End VectorPage.

(** ** Index sums over the 256-bit words of a block *)

Section WideSums.

Context (F : Z) (n : nat) (t : Z).
Hypothesis Ht : 0 <= t.

Definition wide_par (i : nat) : bool := parity 256 (word 256 F i).

Definition wide_fold : Z := xorZ n (word 256 F).

Lemma wide_high : 8 <= t ->
  sum_sel (n * 256) (bit F) (ibit t) = sum_sel n wide_par (ibit (t - 8)).
Proof. intros. now apply (sel_high 8 256). Qed.

Lemma wide_high_n : 8 <= t ->
  sum_sel (n * 256) (bit F) (nibit t) = sum_sel n wide_par (nibit (t - 8)).
Proof. intros. now apply (sel_high_n 8 256). Qed.

Lemma wide_low : t < 8 ->
  sum_sel (n * 256) (bit F) (ibit t) = sum_sel (8 * 32) (bit wide_fold) (ibit t).
Proof. intros. now apply (sel_low 8 256). Qed.

Lemma wide_low_n : t < 8 ->
  sum_sel (n * 256) (bit F) (nibit t) = sum_sel (8 * 32) (bit wide_fold) (nibit t).
Proof. intros. now apply (sel_low_n 8 256). Qed.

End WideSums.

Lemma popcnt_byte_spec x : in_u 8 x -> lParityMaskPopcnt x = pmask (parity 8 x).
Proof.
  intros Hx. rewrite lParityMaskPopcnt_spec. f_equal. now apply (parity_wider 8 32); [|lia].
Qed.

Section AvxPage.

Context (oob : nat -> Z -> Z) (pb : list Z) (cb : Z) (h : bool) (m : nat).
Hypothesis Hpb : bytes_ok pb.
Hypothesis Hlen : Z.of_nat (length pb) = cb.
Hypothesis Hcb : 8 * cb = 2 ^ Z.of_nat m.
Hypothesis Hm : (13 <= m <= 16)%nat.

Let B := page_num pb h.

Definition qq_inv (M : nat) (s : qqacc) : Prop :=
  s = QqAcc (level 10 M (quad_par 256 B)) (idx 10 M) (Z.of_nat (4 * M))
        (quad_acc 256 B M 0) (quad_acc 256 B M 1) (quad_acc 256 B M 2) (quad_acc 256 B M 3).

Lemma qq_inv_0 : qq_inv 0 qq_init.
Proof. unfold qq_inv. rewrite !quad_acc_0 by lia. easy. Qed.

Lemma qq_step M s qqL0 :
  qq_inv M s -> 128 * (Z.of_nat M + 1) <= cb -> qqL0 = word 256 B (4 * M) ->
  qq_inv (1 + M) (qq_start oob pb qqL0 s).
Proof.
  pose proof (cb_bound cb m Hcb Hm). intros -> HM H0. unfold qq_start.
  cbn [v_p v_idxp v_i v_0 v_1 v_2 v_3].
  rewrite !(ld_page_num oob pb h) by (easy || lia). change (8 * Z.of_nat 32) with 256. fold B.
  replace (Z.to_nat (Z.of_nat (4 * M) + 1)) with (4 * M + 1)%nat by lia.
  replace (Z.to_nat (Z.of_nat (4 * M) + 2)) with (4 * M + 2)%nat by lia.
  replace (Z.to_nat (Z.of_nat (4 * M) + 3)) with (4 * M + 3)%nat by lia.
  subst qqL0. rewrite !lParityMaskAVX_spec by auto 10 with words zarith.
  rewrite !land_pmask, !(idx_succ 10) by easy. unfold qq_inv.
  rewrite level_succ, !quad_par_words, !quad_acc_succ by lia. change (Z.of_nat 256) with 256.
  replace (4 * M + 0)%nat with (4 * M)%nat by lia.
  f_equal. rewrite wrapu_small by (unfold in_u; change (2 ^ 32) with 4294967296; lia). lia.
Qed.

Lemma qq_body_step M s :
  qq_inv M s -> 128 * (Z.of_nat M + 1) <= cb -> (h = true -> (0 < M)%nat) ->
  qq_inv (1 + M) (qq_body oob pb s).
Proof.
  pose proof (cb_bound cb m Hcb Hm). intros HI HM Hh. unfold qq_body. apply qq_step; [easy|easy|].
  rewrite HI; cbn [v_i].
  rewrite (ld_page_num oob pb h) by (easy || lia || (intros E; specialize (Hh E); lia)).
  change (8 * Z.of_nat 32) with 256. fold B. f_equal. lia.
Qed.

Lemma avx_header :
  mm256_insert_high (mm_unpackhi_epi64 0 (ld oob 16 pb 0)) (ld oob 16 pb 1)
  = word 256 (page_num pb true) 0.
Proof.
  pose proof (cb_bound cb m Hcb Hm).
  rewrite (unpackhi_header oob pb cb h m) by (easy || lia).
  rewrite (ld_page_num oob pb true) by (easy || lia).
  change (8 * Z.of_nat 16) with 128. change (Z.to_nat 1) with 1%nat.
  unfold mm256_insert_high. bitwise i. rewrite testbit_concat by (try apply wrapu_range; lia).
  rewrite (word_testbit 256) by lia. destruct (Z.ltb_spec i 128).
  - rewrite testbit_wrapu, word_testbit by lia.
    rewrite (proj2 (Z.ltb_lt i 128)), (proj2 (Z.ltb_lt i 256)) by lia. easy.
  - rewrite word_testbit by lia. destruct (Z.ltb_spec i 256).
    + rewrite (proj2 (Z.ltb_lt (i - 128) 128)) by lia. rewrite !andb_true_l. f_equal. lia.
    + now rewrite (proj2 (Z.ltb_ge (i - 128) 128)) by lia.
Qed.

Lemma qq_first :
  qq_inv 1 (if h then qq_start oob pb (mm256_insert_high (mm_unpackhi_epi64 0 (ld oob 16 pb 0))
                                         (ld oob 16 pb 1)) qq_init
            else qq_body oob pb qq_init).
Proof.
  pose proof (cb_bound cb m Hcb Hm). assert (Hh : h = true \/ h = false) by (destruct h; auto).
  destruct Hh as [Eh|Eh]; rewrite Eh.
  - apply (qq_step 0); [apply qq_inv_0|lia|]. rewrite avx_header. unfold B. now rewrite Eh.
  - apply (qq_body_step 0); [apply qq_inv_0|lia|]. congruence.
Qed.

Lemma qq_loop_inv : qq_inv (Z.to_nat (cb / 128)) (qq_loop oob pb cb h).
Proof.
  pose proof (cb_bound cb m Hcb Hm). unfold qq_loop.
  pose proof (page_rounds cb m Hcb Hm 128 ltac:(lia) ltac:(easy)) as Hc.
  pose proof (page_rounds cb m Hcb Hm 32 ltac:(lia) ltac:(easy)) as H32.
  assert (0 <= cb / 32) by (apply Z.div_pos; lia).
  assert (0 <= cb / 128) by (apply Z.div_pos; lia).
  apply (while_do_inv qq_inv _ _ _ _ 1%nat); [lia|lia|apply qq_first| |].
  - intros j s Hj HI. split.
    + rewrite HI. cbn [v_i]. apply Z.ltb_lt. lia.
    + apply qq_body_step; [easy|lia|lia].
  - intros s ->. cbn [v_i]. apply Z.ltb_ge. lia.
Qed.

Section AvxEcc.

Context (G : nat).
Hypothesis HG : 8 * cb = Z.of_nat (G * (4 * 256)).

Let F := quad_fold 256 B G.
Let F2 := wide_fold F 4.
Let dwAcc := xorZ 8 (word 32 F2).

Definition avx_ecc : Z :=
  (level 10 G (quad_par 256 B) .& 0xfc00fc00 .& Z.ones (Z.of_nat m + 16))
  .| (level 8 4 (wide_par F) .& 0x03000300)
  .| (level 5 8 (lane_par F2) .& 0x00e000e0)
  .| (column_ecc dwAcc .& 0x001f001f).

Lemma dwAcc_nonneg : 0 <= dwAcc.
Proof. apply (xorZ_in_u 32); [easy|]. intros. now apply word_in_u. Qed.

Lemma avx_ecc_lo : forall t, 0 <= t < 16 ->
  Z.testbit avx_ecc t = sum_sel (G * (4 * 256)) (bit B) (ibit t).
Proof.
  pose proof (cb_bound cb m Hcb Hm). pose proof dwAcc_nonneg. unfold avx_ecc.
  apply Z16_cases; ecc_pre.
  all: rewrite ?(proj2 (Z.ltb_lt _ (Z.of_nat m + 16))) by lia; autorewrite with bools.
  all: first [now rewrite (quad_high 256 B 10) by lia
             | rewrite (quad_low 256 B 10) by lia; fold F;
               first [now rewrite wide_high by lia
                     |rewrite wide_low by lia; fold F2;
                      first [now rewrite lane_high by lia
                            |rewrite column_ecc_lo by lia; now rewrite lane_low by lia]]].
Qed.

Lemma avx_ecc_hi : forall t, 0 <= t < 16 ->
  Z.testbit avx_ecc (t + 16) = (t <? Z.of_nat m) && sum_sel (G * (4 * 256)) (bit B) (nibit t).
Proof.
  pose proof (cb_bound cb m Hcb Hm). pose proof dwAcc_nonneg. unfold avx_ecc.
  apply Z16_cases; ecc_pre.
  all: rewrite ?(high_mask m), ?(andb_comm (sum_sel _ _ _)).
  all: first [now rewrite (quad_high_n 256 B 10) by lia
             | rewrite (quad_low_n 256 B 10) by lia; fold F;
               rewrite ?(proj2 (Z.ltb_lt _ (Z.of_nat m))) by lia; autorewrite with bools;
               first [now rewrite wide_high_n by lia
                     |rewrite wide_low_n by lia; fold F2;
                      first [now rewrite lane_high_n by lia
                            |rewrite column_ecc_hi by lia; now rewrite lane_low_n by lia]]].
Qed.

Lemma avx_ecc_in_u : in_u 32 avx_ecc.
Proof.
  unfold avx_ecc.
  repeat first [apply in_u_lor; [lia| |] | apply level_in_u
               | rewrite Z.land_comm; apply in_u_land; [lia|unfold in_u; lia]
               | apply in_u_land; [lia|]].
Qed.

Lemma avx_xor : dwAcc = xor_ref (2 ^ m) B.
Proof.
  unfold dwAcc, F2, F, wide_fold, quad_fold, xor_ref. rewrite (page_blocks cb m Hcb G (4 * 256)) by easy.
  change (Z.of_nat (4 * 256)) with (Z.of_nat 4 * 256).
  rewrite <- (xorZ_word_lanes 256 G 4), <- (xorZ_word_lanes 32 (G * 4) 8) by easy.
  replace (G * (4 * 256) / 32)%nat with (G * 4 * 8)%nat; [easy|].
  replace (G * (4 * 256))%nat with (G * 4 * 8 * 32)%nat by lia. now rewrite Nat.div_mul.
Qed.

Lemma qq_fold_spec :
  qq_fold [quad_acc 256 B G 0; quad_acc 256 B G 1; quad_acc 256 B G 2; quad_acc 256 B G 3]
    (0, 0xff000000) = (level 8 4 (wide_par F), idx 8 4).
Proof.
  cbn [qq_fold fst snd]. rewrite !lParityMaskAVX_spec by apply quad_acc_in_u.
  change 0xff000000 with (idx 8 0).
  rewrite !(idx_succ 8), !land_pmask by easy. easy.
Qed.

Lemma qq_acc_fold :
  quad_acc 256 B G 0 ^^ quad_acc 256 B G 1 ^^ quad_acc 256 B G 2 ^^ quad_acc 256 B G 3 = F2.
Proof. unfold F2, wide_fold. cbn [xorZ]. now rewrite Z.lxor_0_l. Qed.

End AvxEcc.

Lemma F2_in_u G : in_u 256 (wide_fold (quad_fold 256 B G) 4).
Proof. apply xorZ_in_u; [easy|]. intros. now apply word_in_u. Qed.

Lemma avx_page pgno :
  ChecksumNewFormatAVX oob pb cb pgno h =
  MakeChecksumFromECCXORAndPgno (ecc_ref (2 ^ m) B) (xor_ref (2 ^ m) B) pgno.
Proof.
  pose proof (cb_bound cb m Hcb Hm).
  pose proof (page_rounds cb m Hcb Hm 128 ltac:(lia) ltac:(easy)) as H128.
  set (G := Z.to_nat (cb / 128)).
  assert (HG : 8 * cb = Z.of_nat (G * (4 * 256))) by (unfold G; lia).
  unfold ChecksumNewFormatAVX. cbv zeta.
  pose proof qq_loop_inv as Hs. unfold qq_inv in Hs. fold G in Hs. rewrite !Hs.
  cbn [v_p v_idxp v_i v_0 v_1 v_2 v_3]. rewrite qq_acc_fold, qq_fold_spec.
  rewrite m256_lanes by apply F2_in_u.
  rewrite dw_fold_lanes by (intros; apply lParityMaskPopcnt_spec).
  pose proof (byte_fold_column lParityMaskPopcnt
    (xorZ 8 (word 32 (wide_fold (quad_fold 256 B G) 4))) popcnt_byte_spec (dwAcc_nonneg G)) as Hc.
  destruct (byte_fold _ 4 _) as [[[r ?] byte0] ?]. rewrite Hc.
  rewrite (cb_mask_ones cb m) by easy. change (level 5 8 (fun i => parity 32 (word 32 (wide_fold (quad_fold 256 B G) 4) i)))
    with (level 5 8 (lane_par (wide_fold (quad_fold 256 B G) 4))). fold (avx_ecc G).
  rewrite (avx_xor G HG). f_equal.
  apply ecc_ref_intro; [lia|now apply avx_ecc_in_u| |];
    rewrite (page_blocks cb m Hcb G (4 * 256)) by easy; [now apply avx_ecc_lo|now apply avx_ecc_hi].
Qed.

End AvxPage.
