(* ===== verification/Checksum.v ===== *)
(** * Checksum: selection of an implementation and use of the checksum
      (checksum.cxx)

    The program calls a checksum through a function pointer that starts at a
    selection routine; the first call replaces it by the implementation that
    fits the processor.  Here are the selection state machine, the functions
    that take a checksum apart and decide whether one bit can be repaired, and
    the theorems: every implementation meets the interface [NewFormatImpl] or
    [OldFormatImpl], hence the result of a call depends neither on the
    processor nor on the calls made before. *)

From S2P Require Import Prelude Parity ChecksumDefs PageWords ChecksumEcc.
From S2P Require Import ChecksumVariants ChecksumAvx.

(** ** The implementations and the function pointers *)

Inductive OldImpl := OldFormatSlowly | OldFormat64Bit | OldFormatSSE | OldFormatSSE2.

Inductive NewImpl :=
  | NewFormatSlowly | NewFormat64Bit | NewFormatSSE
  | NewFormatSSE2 (T : ChecksumParityMaskFunc) | NewFormatAVX.

#[export] Instance OldImpl_eq_dec : EqDecision OldImpl.
Proof. solve_decision. Defined.

#[export] Instance ChecksumParityMaskFunc_eq_dec : EqDecision ChecksumParityMaskFunc.
Proof. solve_decision. Defined.

#[export] Instance NewImpl_eq_dec : EqDecision NewImpl.
Proof. solve_decision. Defined.

(** A function pointer: the selection routine or an implementation. *)
Inductive PFN (I : Type) := PfnSelect | PfnImpl (i : I).

Arguments PfnSelect {I}.
Arguments PfnImpl {I} _.

(** What the selection routines ask the processor. *)
Record cpu := Cpu {
  FAVXEnabled : bool; FPopcntAvailable : bool;
  FSSEInstructionsAvailable : bool; FSSE2InstructionsAvailable : bool;
  sizeof_void_p : Z }.

(** The two static variables of checksum.cxx. *)
Record dispatch := Dispatch {
  pfnChecksumOldFormat : PFN OldImpl; pfnChecksumNewFormat : PFN NewImpl }.

Definition dispatch_init : dispatch := Dispatch PfnSelect PfnSelect.

Section Dispatch.

Context (oob : nat -> Z -> Z) (c : cpu).

Definition run_old (i : OldImpl) : list Z -> Z -> Z :=
  match i with
  | OldFormatSlowly => ChecksumOldFormatSlowly oob
  | OldFormat64Bit => ChecksumOldFormat64Bit oob
  | OldFormatSSE => ChecksumOldFormatSSE oob
  | OldFormatSSE2 => ChecksumOldFormatSSE2 oob
  end.

Definition run_new (i : NewImpl) : list Z -> Z -> Z -> bool -> Z :=
  match i with
  | NewFormatSlowly => ChecksumNewFormatSlowly oob
  | NewFormat64Bit => ChecksumNewFormat64Bit oob
  | NewFormatSSE => ChecksumNewFormatSSE oob
  | NewFormatSSE2 T => ChecksumNewFormatSSE2 oob T
  | NewFormatAVX => ChecksumNewFormatAVX oob
  end.

Definition select_old : OldImpl :=
  if FSSEInstructionsAvailable c then
    if FSSE2InstructionsAvailable c then OldFormatSSE2 else OldFormatSSE
  else if sizeof_void_p c =? 4 * 2 then OldFormat64Bit
  else OldFormatSlowly.

Definition select_new : NewImpl :=
  if FAVXEnabled c && FPopcntAvailable c then NewFormatAVX
  else if FSSEInstructionsAvailable c then
    if FSSE2InstructionsAvailable c then
      if FPopcntAvailable c then NewFormatSSE2 ParityMaskFuncPopcnt
      else NewFormatSSE2 ParityMaskFuncDefault
    else NewFormatSSE
  else if sizeof_void_p c =? 4 * 2 then NewFormat64Bit
  else NewFormatSlowly.

Definition ChecksumSelectOldFormat (pb : list Z) (cb : Z) (s : dispatch) : Z * dispatch :=
  let pfn := select_old in
  (run_old pfn pb cb, Dispatch (PfnImpl pfn) (pfnChecksumNewFormat s)).

Definition ChecksumOldFormat (pb : list Z) (cb : Z) (s : dispatch) : Z * dispatch :=
  match pfnChecksumOldFormat s with
  | PfnSelect => ChecksumSelectOldFormat pb cb s
  | PfnImpl i => (run_old i pb cb, s)
  end.

Definition ChecksumSelectNewFormat (pb : list Z) (cb pgno : Z) (fHeaderBlock : bool)
    (s : dispatch) : Z * dispatch :=
  let pfn := select_new in
  (run_new pfn pb cb pgno fHeaderBlock, Dispatch (pfnChecksumOldFormat s) (PfnImpl pfn)).

Definition ChecksumNewFormat (pb : list Z) (cb pgno : Z) (fHeaderBlock : bool)
    (s : dispatch) : Z * dispatch :=
  match pfnChecksumNewFormat s with
  | PfnSelect => ChecksumSelectNewFormat pb cb pgno fHeaderBlock s
  | PfnImpl i => (run_new i pb cb pgno fHeaderBlock, s)
  end.

End Dispatch.

(** ** Taking a checksum apart *)

Definition DwECCChecksumFromXEChecksum (checksum : Z) : Z := u32 (Z.shiftr checksum 32).

Definition DwXORChecksumFromXEChecksum (checksum : Z) : Z := u32 (checksum .& 0xffffffff).

(** [for (ibit = 0; ibit < 32; ++ibit) if (dw & (1 << ibit)) ++cbit;] after [n]
    rounds.  [1 << 31] is the sign bit of an [INT], converted to [ULONG]. *)
Fixpoint cbit_loop (dw : Z) (n : nat) : Z :=
  match n with
  | O => 0
  | S n => let cbit := cbit_loop dw n in
           if dw .& u32 (Z.shiftl 1 (Z.of_nat n)) =? 0 then cbit else cbit + 1
  end.

Definition CbitSet (dw : Z) : Z := cbit_loop dw 32.

Definition FECCErrorIsCorrectable_dw (cb dwECCChecksumExpected dwECCChecksumActual : Z) : bool :=
  let dwEcc := dwECCChecksumActual ^^ dwECCChecksumExpected in
  let ulMask := u32 (u32 (Z.shiftl cb 3) - 1) in
  let ulX := (Z.shiftr dwEcc 16 ^^ dwEcc) .& ulMask in
  ulMask =? ulX.

Definition FECCErrorIsCorrectable (cb xeChecksumExpected xeChecksumActual : Z) : bool :=
  let dwECCChecksumExpected := DwECCChecksumFromXEChecksum xeChecksumExpected in
  let dwECCChecksumActual := DwECCChecksumFromXEChecksum xeChecksumActual in
  if FECCErrorIsCorrectable_dw cb dwECCChecksumExpected dwECCChecksumActual then
    let dwXor := DwXORChecksumFromXEChecksum xeChecksumActual
                 ^^ DwXORChecksumFromXEChecksum xeChecksumExpected in
    1 =? CbitSet dwXor
  else false.

Definition ulMax : Z := 0xffffffff.

Definition IbitCorrupted_dw (cb dwECCChecksumExpected dwECCChecksumActual : Z) : Z :=
  let dwEcc := dwECCChecksumActual ^^ dwECCChecksumExpected in
  if dwEcc =? 0 then ulMax
  else
    let ibitCorrupted := dwEcc .& 0xffff in
    let ibCorrupted := ibitCorrupted / 8 in
    if cb <=? ibCorrupted then ulMax else ibitCorrupted.

Definition IbitCorrupted (cb xeChecksumExpected xeChecksumActual : Z) : Z :=
  IbitCorrupted_dw cb (DwECCChecksumFromXEChecksum xeChecksumExpected)
    (DwECCChecksumFromXEChecksum xeChecksumActual).

(** ** The interface of an implementation *)

(** A page: bytes, as many as [cb] says, a power of two the new format serves. *)
Record page_ok (pb : list Z) (cb : Z) : Prop := PageOk {
  page_bytes : bytes_ok pb;
  page_length : Z.of_nat (length pb) = cb;
  page_size : page_size_ok cb = true }.

Class NewFormatImpl (f : list Z -> Z -> Z -> bool -> Z) : Prop :=
  new_format_ok : forall pb cb pgno h, page_ok pb cb ->
    f pb cb pgno h = new_checksum_spec pb cb pgno h.

(** The old format needs whole 128-byte blocks only. *)
Record block_ok (pb : list Z) (cb : Z) : Prop := BlockOk {
  block_bytes : bytes_ok pb;
  block_length : Z.of_nat (length pb) = cb;
  block_pos : 0 < cb;
  block_size : cb mod 128 = 0 }.

Class OldFormatImpl (f : list Z -> Z -> Z) : Prop :=
  old_format_ok : forall pb cb, block_ok pb cb ->
    f pb cb = old_checksum_spec pb (Z.to_nat (cb / 4)).

(** A page has [2 ^ m] bits. *)
Lemma page_size_bits cb : page_size_ok cb = true ->
  exists m, (13 <= m <= 16)%nat /\ 8 * cb = 2 ^ Z.of_nat m /\ Z.to_nat (8 * cb) = (2 ^ m)%nat.
Proof.
  intros H. apply page_size_cases in H.
  destruct H as [E|[E|[E|E]]]; subst cb; [exists 13%nat|exists 14%nat|exists 15%nat|exists 16%nat];
    (split; [lia|split; [reflexivity|]]);
    rewrite <- (Nat2Z.id (2 ^ _)), Nat2Z.inj_pow; reflexivity.
Qed.

Ltac page_impl L :=
  intros pb cb pgno h [Hb Hl Hs]; destruct (page_size_bits cb Hs) as (m & Hm & Hc & Hn);
  unfold new_checksum_spec; rewrite Hn; cbv zeta; L.

#[export] Instance Slowly_impl oob : NewFormatImpl (ChecksumNewFormatSlowly oob).
Proof.
  page_impl idtac. unfold ChecksumNewFormatSlowly. now rewrite (dw_page oob pb cb h m).
Qed.

#[export] Instance SSE_impl oob : NewFormatImpl (ChecksumNewFormatSSE oob).
Proof.
  page_impl idtac. unfold ChecksumNewFormatSSE. now rewrite (dw_page oob pb cb h m).
Qed.

#[export] Instance Bit64_impl oob : NewFormatImpl (ChecksumNewFormat64Bit oob).
Proof. page_impl idtac. now apply bit64_page. Qed.

#[export] Instance SSE2_impl oob T : NewFormatImpl (ChecksumNewFormatSSE2 oob T).
Proof. page_impl idtac. now apply sse2_page. Qed.

#[export] Instance AVX_impl oob : NewFormatImpl (ChecksumNewFormatAVX oob).
Proof. page_impl idtac. now apply avx_page. Qed.

#[export] Instance run_new_impl oob i : NewFormatImpl (run_new oob i).
Proof.
  destruct i; cbn [run_new];
    [apply Slowly_impl|apply Bit64_impl|apply SSE_impl|apply SSE2_impl|apply AVX_impl].
Qed.

Lemma block_size_32 cb : cb mod 128 = 0 -> cb mod 32 = 0.
Proof. intros H. apply Z.mod_divide in H as [k ->]; [|lia]. apply Z.mod_divide; [lia|]. exists (4 * k). lia. Qed.

#[export] Instance run_old_impl oob i : OldFormatImpl (run_old oob i).
Proof.
  intros pb cb [Hb Hl Hp Hs]. pose proof (block_size_32 cb Hs). symmetry in Hl.
  destruct i; cbn [run_old];
    [now apply old_slowly_spec|now apply old_64bit_spec|now apply old_slowly_spec
    |now apply old_sse2_spec].
Qed.

(** ** Calls through the pointers *)

Lemma ChecksumNewFormat_value oob c pb cb pgno h s : page_ok pb cb ->
  (ChecksumNewFormat oob c pb cb pgno h s).1 = new_checksum_spec pb cb pgno h.
Proof.
  intros Hp. unfold ChecksumNewFormat, ChecksumSelectNewFormat.
  destruct (pfnChecksumNewFormat s); cbn [fst]; now apply run_new_impl.
Qed.

Lemma ChecksumOldFormat_value oob c pb cb s : block_ok pb cb ->
  (ChecksumOldFormat oob c pb cb s).1 = old_checksum_spec pb (Z.to_nat (cb / 4)).
Proof.
  intros Hp. unfold ChecksumOldFormat, ChecksumSelectOldFormat.
  destruct (pfnChecksumOldFormat s); cbn [fst]; now apply run_old_impl.
Qed.

(** A call leaves the other pointer alone and never returns to selection. *)
Lemma ChecksumNewFormat_state oob c pb cb pgno h s :
  (ChecksumNewFormat oob c pb cb pgno h s).2 =
  Dispatch (pfnChecksumOldFormat s)
    (PfnImpl match pfnChecksumNewFormat s with PfnSelect => select_new c | PfnImpl i => i end).
Proof.
  unfold ChecksumNewFormat, ChecksumSelectNewFormat. destruct s as [o [|i]]; reflexivity.
Qed.

(** ** Programs that call checksums *)

(** The two entry points, as a program uses them. *)
Inductive checksum_call :=
  | CallOld (pb : list Z) (cb : Z)
  | CallNew (pb : list Z) (cb pgno : Z) (fHeaderBlock : bool).

Definition call_ok (k : checksum_call) : Prop :=
  match k with
  | CallOld pb cb => block_ok pb cb
  | CallNew pb cb _ _ => page_ok pb cb
  end.

(** What a call promises. *)
Definition call_spec (k : checksum_call) : Z :=
  match k with
  | CallOld pb cb => old_checksum_spec pb (Z.to_nat (cb / 4))
  | CallNew pb cb pgno h => new_checksum_spec pb cb pgno h
  end.

Definition do_call (oob : nat -> Z -> Z) (c : cpu) (k : checksum_call) (s : dispatch) : Z * dispatch :=
  match k with
  | CallOld pb cb => ChecksumOldFormat oob c pb cb s
  | CallNew pb cb pgno h => ChecksumNewFormat oob c pb cb pgno h s
  end.

Fixpoint do_calls (oob : nat -> Z -> Z) (c : cpu) (ks : list checksum_call) (s : dispatch)
    : list Z * dispatch :=
  match ks with
  | [] => ([], s)
  | k :: ks => let '(x, s) := do_call oob c k s in
               let '(xs, s) := do_calls oob c ks s in (x :: xs, s)
  end.

Lemma do_call_value oob c k s : call_ok k -> (do_call oob c k s).1 = call_spec k.
Proof.
  destruct k; [apply ChecksumOldFormat_value|apply ChecksumNewFormat_value].
Qed.

(** C1: Whatever the processor offers, whatever the function pointers hold and
    whatever lies outside of the buffers, a sequence of calls to
    [ChecksumOldFormat] and [ChecksumNewFormat] returns the reference checksum
    of each of its pages: the selection of an implementation on the first call
    is unobservable, and all implementations (plain, 64-bit, SSE, SSE2 with and
    without popcnt, AVX) agree. *)
Theorem checksum_calls_agree oob c ks s :
  Forall call_ok ks -> (do_calls oob c ks s).1 = map call_spec ks.
Proof.
  intros H. revert s. induction H as [|k ks Hk _ IH]; intros s; [reflexivity|].
  cbn [do_calls map]. pose proof (do_call_value oob c k s Hk) as Hv.
  destruct (do_call oob c k s) as [x s']. specialize (IH s').
  destruct (do_calls oob c ks s') as [xs s'']. cbn [fst] in *. now rewrite Hv, IH.
Qed.

Lemma replicate_page_ok b cb : byte_ok b -> page_size_ok (Z.of_nat cb) = true ->
  page_ok (replicate cb b) (Z.of_nat cb).
Proof.
  intros Hb Hs. split; [|now rewrite length_replicate|easy].
  apply Forall_replicate, Hb.
Qed.

Lemma replicate_block_ok b cb : byte_ok b -> 0 < Z.of_nat cb -> Z.of_nat cb mod 128 = 0 ->
  block_ok (replicate cb b) (Z.of_nat cb).
Proof.
  intros Hb Hp Hs. split; [|now rewrite length_replicate|easy|easy].
  apply Forall_replicate, Hb.
Qed.

Lemma checksum_calls_agree_witness :
  (do_calls (fun _ _ => 0) (Cpu false true true true 8)
     [CallNew (replicate 2048 7) (Z.of_nat 2048) 3 true; CallOld (replicate 256 9) (Z.of_nat 256)]
     dispatch_init).1 =
  map call_spec
     [CallNew (replicate 2048 7) (Z.of_nat 2048) 3 true; CallOld (replicate 256 9) (Z.of_nat 256)].
Proof.
  apply checksum_calls_agree. constructor; [|constructor; [|constructor]].
  - apply replicate_page_ok; [unfold byte_ok; lia|reflexivity].
  - apply replicate_block_ok; [unfold byte_ok; lia|reflexivity|reflexivity].
Defined.

(** ** The variant that is not selected *)

Lemma basic_xor oob pb cb : page_ok pb cb ->
  DwXORChecksumBasic oob pb cb = xor_ref (Z.to_nat (8 * cb)) (page_num pb true).
Proof.
  intros [Hb Hl Hs]. apply page_size_cases in Hs.
  assert (Hm : cb = Z.of_nat (Z.to_nat (cb / 32) * (8 * 4)) /\ 0 < cb
               /\ (Z.to_nat (8 * cb) / 32 = Z.to_nat (cb / 32) * 8)%nat)
    by (destruct Hs as [E|[E|[E|E]]]; rewrite E; vm_compute; auto).
  destruct Hm as (Hm & Hpos & Hn).
  unfold DwXORChecksumBasic, xor_ref. rewrite (old_loop_spec oob pb Hb 8 4 cb _ (Z.to_nat (cb / 32))) by lia.
  rewrite Hn, !ld_word by (easy || lia).
  change (8 * Z.of_nat 4) with 32. change (Z.to_nat 0) with 0%nat. change (Z.to_nat 1) with 1%nat.
  set (n := (Z.to_nat (cb / 32) * 8)%nat). assert (En : n = S (S (n - 2))) by lia.
  rewrite En. rewrite <- (Nat.add_1_l (S (n - 2))), <- (Nat.add_1_l (n - 2)).
  rewrite !xorZ_add. cbn [xorZ]. rewrite !Z.lxor_0_l, !page_num_word_zero by (simpl; lia).
  rewrite !Z.lxor_0_l.
  rewrite (xorZ_ext _ (fun k => word 32 (le_num pb) (1 + (1 + k)))
             (fun k => word 32 (page_num pb true) (1 + (1 + k)))).
  - change (1 + 0)%nat with 1%nat. generalize (word 32 (le_num pb) 0), (word 32 (le_num pb) 1). intros x y.
    bitwise i. rewrite !Z.lxor_spec. now destruct (Z.testbit x i), (Z.testbit y i), (Z.testbit _ i).
  - intros k Hk. apply page_num_word; [lia|]. intros _. lia.
Qed.

(** [ChecksumNewFormatBasic] computes the reference checksum of a header
    block, but its exclusive-or half always leaves out the first two words:
    for a block that is not a header ([fHeaderBlock] false) the ECC half
    covers the first 8 bytes and the exclusive-or half does not, so the result
    is the reference with [pdw[0] ^ pdw[1]] folded into the low half. *)
Theorem ChecksumNewFormatBasic_value oob pb cb pgno h : page_ok pb cb ->
  ChecksumNewFormatBasic oob pb cb pgno h =
  let n := Z.to_nat (8 * cb) in
  MakeChecksumFromECCXORAndPgno (ecc_ref n (page_num pb h)) (xor_ref n (page_num pb true)) pgno.
Proof.
  intros Hp. pose proof (basic_xor oob pb cb Hp) as Hx. destruct Hp as [Hb Hl Hs].
  destruct (page_size_bits cb Hs) as (m & Hm & Hc & Hn).
  unfold ChecksumNewFormatBasic. rewrite (dw_page oob pb cb h m) by easy.
  now rewrite Hx, Hn.
Qed.

Lemma ChecksumNewFormatBasic_value_witness :
  ChecksumNewFormatBasic (fun _ _ => 0) (replicate 1024 1) (Z.of_nat 1024) 0 false =
  let n := Z.to_nat (8 * Z.of_nat 1024) in
  MakeChecksumFromECCXORAndPgno (ecc_ref n (page_num (replicate 1024 1) false))
    (xor_ref n (page_num (replicate 1024 1) true)) 0.
Proof.
  apply ChecksumNewFormatBasic_value, replicate_page_ok; [unfold byte_ok; lia|reflexivity].
Defined.
