(* ===== verification/EccRepair.v ===== *)
(** * EccRepair: what the error-correcting checksum detects and repairs

    For two pages of the same size the difference of their checksums is the
    checksum of the difference [D] of the pages.  The test on the ECC words
    holds exactly when an odd number of bits differ; the full test holds
    exactly when the exclusive or of the words of [D] has one set bit. *)

From S2P Require Import Prelude Parity ChecksumDefs PageWords ChecksumEcc ChecksumNew.
From S2P Require Import ChecksumVariants Checksum.

(** ** The two halves of a checksum *)

Lemma make_halves ecc xor_ pgno : in_u 32 ecc -> in_u 32 xor_ -> in_u 32 pgno ->
  DwECCChecksumFromXEChecksum (MakeChecksumFromECCXORAndPgno ecc xor_ pgno) = ecc /\
  DwXORChecksumFromXEChecksum (MakeChecksumFromECCXORAndPgno ecc xor_ pgno) = xor_ ^^ pgno.
Proof.
  intros He Hx Hp. assert (Hl : in_u 32 (xor_ ^^ pgno)) by (apply in_u_lxor; auto; lia).
  unfold DwECCChecksumFromXEChecksum, DwXORChecksumFromXEChecksum, MakeChecksumFromECCXORAndPgno.
  change 0xffffffff with (Z.ones 32). split; bitwise i.
  - rewrite testbit_wrapu, Z.shiftr_spec, Z.lor_spec, testbit_wrapu, Z.shiftl_spec by lia.
    rewrite (in_u_testbit_high 32 (xor_ ^^ pgno)) by (easy || lia).
    rewrite orb_false_r. destruct (Z.ltb_spec i 32).
    + rewrite (proj2 (Z.ltb_lt (i + 32) 64)) by lia. simpl. f_equal. lia.
    + symmetry. now apply (in_u_testbit_high 32); [|lia].
  - rewrite testbit_wrapu, Z.land_spec, Z.lor_spec, testbit_wrapu, Z.shiftl_spec by lia.
    rewrite Z.testbit_ones_nonneg by lia. destruct (Z.ltb_spec i 32).
    + rewrite (Z.testbit_neg_r ecc) by lia. now rewrite andb_false_r, andb_true_r.
    + symmetry. now apply (in_u_testbit_high 32); [|lia].
Qed.

(** ** Counting bits *)

Lemma cbit_loop_popcnt dw n : (n <= 32)%nat -> cbit_loop dw n = popcnt n dw.
Proof.
  induction n as [|n IH]; intros Hn; [easy|]. cbn [cbit_loop popcnt].
  rewrite IH by lia. rewrite Z.shiftl_1_l, wrapu_small, land_pow2_eqb by
    (try split; try lia; try (apply Z.pow_lt_mono_r; lia); try (apply Z.pow_nonneg; lia)).
  destruct (Z.testbit dw (Z.of_nat n)); simpl; lia.
Qed.

Lemma CbitSet_popcnt dw : CbitSet dw = popcnt 32 dw.
Proof. now apply cbit_loop_popcnt. Qed.

Lemma popcnt_nonneg n x : 0 <= popcnt n x.
Proof. induction n; simpl; [lia|]. destruct (Z.testbit _ _); simpl; lia. Qed.

(** One set bit is a power of two. *)
Lemma popcnt_0 n x i : popcnt n x = 0 -> 0 <= i < Z.of_nat n -> Z.testbit x i = false.
Proof.
  induction n as [|n IH]; intros H Hi; [lia|]. cbn [popcnt] in H.
  pose proof (popcnt_nonneg n x). destruct (Z.testbit x (Z.of_nat n)) eqn:E; simpl in H; [lia|].
  destruct (Z.eq_dec i (Z.of_nat n)) as [->|]; [easy|]. apply IH; lia.
Qed.

Lemma popcnt_1 n x : popcnt n x = 1 ->
  exists k, (k < n)%nat /\ forall i, 0 <= i < Z.of_nat n -> Z.testbit x i = (i =? Z.of_nat k).
Proof.
  induction n as [|n IH]; intros H; [simpl in H; lia|]. cbn [popcnt] in H.
  destruct (Z.testbit x (Z.of_nat n)) eqn:E; simpl in H.
  - exists n. split; [lia|]. intros i Hi. destruct (Z.eqb_spec i (Z.of_nat n)) as [->|]; [easy|].
    apply (popcnt_0 n); lia.
  - destruct IH as (k & Hk & IH); [lia|]. exists k. split; [lia|]. intros i Hi.
    destruct (Z.eq_dec i (Z.of_nat n)) as [->|]; [|apply IH; lia].
    rewrite E. symmetry. apply Z.eqb_neq. lia.
Qed.

Lemma popcnt_pow2 (n k : nat) : (k < n)%nat -> popcnt n (2 ^ Z.of_nat k) = 1.
Proof.
  assert (H0 : forall j, (j <= k)%nat -> popcnt j (2 ^ Z.of_nat k) = 0).
  { induction j as [|j IH]; intros Hj; [easy|]. cbn [popcnt].
    rewrite IH, Z.pow2_bits_false by lia. easy. }
  induction n as [|n IH]; intros Hk; [lia|]. cbn [popcnt].
  destruct (Nat.eq_dec k n) as [->|].
  - rewrite H0, Z.pow2_bits_true by lia. easy.
  - rewrite IH, Z.pow2_bits_false by lia. easy.
Qed.

(** ** The difference of two pages *)

Lemma concat_lxor n a b c d : 0 <= n -> in_u n a -> in_u n c ->
  (a + 2 ^ n * b) ^^ (c + 2 ^ n * d) = (a ^^ c) + 2 ^ n * (b ^^ d).
Proof.
  intros Hn Ha Hc. bitwise i.
  rewrite Z.lxor_spec, !testbit_concat by (try apply in_u_lxor; easy || lia).
  destruct (i <? n); now rewrite Z.lxor_spec.
Qed.

Lemma ecc_lo_16 (m : nat) B : (m <= 16)%nat -> in_u 16 (ecc_lo (2 ^ m) B).
Proof.
  intros Hm. pose proof (ecc_lo_range m B) as [? ?]. split; [easy|].
  eapply Z.lt_le_trans; [eassumption|]. apply Z.pow_le_mono_r; lia.
Qed.

Lemma ecc_ref_lxor (m : nat) A B : (m <= 16)%nat ->
  ecc_ref (2 ^ m) A ^^ ecc_ref (2 ^ m) B = ecc_ref (2 ^ m) (A ^^ B).
Proof.
  intros Hm. unfold ecc_ref. rewrite concat_lxor by (try apply ecc_lo_16; easy || lia).
  now rewrite ecc_lo_lxor, ecc_hi_lxor.
Qed.

(** Every index bit of the two halves together counts every bit of the page. *)
Lemma ecc_halves_parity (m : nat) D t : 0 <= t < Z.of_nat m ->
  xorb (Z.testbit (ecc_hi (2 ^ m) D) t) (Z.testbit (ecc_lo (2 ^ m) D) t) = parity (2 ^ m) D.
Proof.
  intros Ht. rewrite ecc_lo_testbit, ecc_hi_testbit, (proj2 (Z.ltb_lt t _)), andb_true_l by lia.
  unfold sum_sel. rewrite <- xsum_xorb. apply xsum_ext. intros k Hk. unfold bit, nibit, ibit.
  now destruct (Z.testbit D _), (Z.testbit _ t).
Qed.

Lemma ul_mask cb (m : nat) : 8 * cb = 2 ^ Z.of_nat m -> (m <= 16)%nat ->
  u32 (u32 (Z.shiftl cb 3) - 1) = Z.ones (Z.of_nat m).
Proof.
  intros Hcb Hm. rewrite Z.shiftl_mul_pow2 by lia. change (2 ^ 3) with 8.
  rewrite (Z.mul_comm cb), Hcb, Z.ones_equiv.
  pose proof (pow2_pos (Z.of_nat m) ltac:(lia)).
  assert (2 ^ Z.of_nat m <= 2 ^ 16) by (apply Z.pow_le_mono_r; lia).
  change (2 ^ 16) with 65536 in *.
  rewrite !wrapu_small; unfold in_u; change (2 ^ 32) with 4294967296;
    rewrite ?wrapu_small; unfold in_u; change (2 ^ 32) with 4294967296; lia.
Qed.

(** The test on ECC words that differ by [ecc_ref D]. *)
Lemma FECC_dw_parity cb (m : nat) e e' D :
  8 * cb = 2 ^ Z.of_nat m -> (0 < m <= 16)%nat -> e' ^^ e = ecc_ref (2 ^ m) D ->
  FECCErrorIsCorrectable_dw cb e e' = parity (2 ^ m) D.
Proof.
  intros Hcb Hm HD. unfold FECCErrorIsCorrectable_dw. rewrite HD, (ul_mask cb m) by (easy || lia).
  set (X := _ .& _).
  assert (HX : forall t, 0 <= t -> Z.testbit X t = (t <? Z.of_nat m) && parity (2 ^ m) D).
  { intros t Ht. unfold X. rewrite Z.land_spec, Z.testbit_ones_nonneg, Z.lxor_spec,
      Z.shiftr_spec by lia. rewrite andb_comm. destruct (Z.ltb_spec t (Z.of_nat m)); [|easy].
    rewrite !andb_true_l. unfold ecc_ref. rewrite !testbit_concat by (try apply ecc_lo_16; lia).
    rewrite (proj2 (Z.ltb_ge (t + 16) 16)), (proj2 (Z.ltb_lt t 16)) by lia.
    replace (t + 16 - 16) with t by lia. now apply ecc_halves_parity. }
  destruct (parity (2 ^ m) D).
  - apply Z.eqb_eq. bitwise t. rewrite HX, Z.testbit_ones_nonneg by lia. now rewrite andb_true_r.
  - apply Z.eqb_neq. intros E. specialize (HX 0 ltac:(lia)).
    rewrite <- E, andb_false_r, Z.testbit_ones_nonneg in HX by lia. apply Z.ltb_ge in HX. lia.
Qed.

(** The exclusive or of the words has the parity of the page. *)
Lemma xor_ref_parity (m : nat) D : (5 <= m)%nat -> parity 32 (xor_ref (2 ^ m) D) = parity (2 ^ m) D.
Proof.
  intros Hm. unfold xor_ref. rewrite parity_xorZ.
  replace (2 ^ m)%nat with ((2 ^ m / 32) * 32)%nat at 2.
  - unfold parity at 2. rewrite xsum_blocks. apply xsum_ext. intros g Hg. apply xsum_ext.
    intros j Hj. rewrite word_testbit, (proj2 (Z.ltb_lt _ 32)), andb_true_l by lia.
    f_equal. lia.
  - replace m with (m - 5 + 5)%nat by lia. rewrite Nat.pow_add_r.
    change (2 ^ 5)%nat with 32%nat. now rewrite Nat.div_mul.
Qed.

Lemma popcnt_1_parity n x : popcnt n x = 1 -> parity n x = true.
Proof.
  intros H. destruct (popcnt_1 n x H) as (k & Hk & Hb). unfold parity.
  rewrite (xsum_single _ _ k Hk).
  - rewrite Hb by lia. apply Z.eqb_refl.
  - intros j Hj Hne. rewrite Hb by lia. apply Z.eqb_neq. lia.
Qed.

(** The located bit when the ECC words differ by that of one bit. *)
Lemma ibit_located cb (m : nat) e e' (k : nat) :
  8 * cb = 2 ^ Z.of_nat m -> (13 <= m <= 16)%nat -> (k < 2 ^ m)%nat ->
  e' ^^ e = ecc_ref (2 ^ m) (2 ^ Z.of_nat k) -> IbitCorrupted_dw cb e e' = Z.of_nat k.
Proof.
  intros Hc Hm Hk He. unfold IbitCorrupted_dw. rewrite He.
  unfold ecc_ref. rewrite ecc_lo_pow2, ecc_hi_pow2 by easy.
  assert (Hnz : Z.of_nat (2 ^ m) = 8 * cb) by (rewrite Nat2Z.inj_pow; now rewrite Hc).
  assert (8 * cb <= 2 ^ 16) by (rewrite Hc; apply Z.pow_le_mono_r; lia).
  assert (0 <= cb) by (pose proof (pow2_pos (Z.of_nat m)); lia).
  set (hi := Z.of_nat (2 ^ m - 1 - k)). assert (Hhi : 0 <= hi) by lia.
  assert (8192 <= 2 ^ Z.of_nat m) by (change 8192 with (2 ^ 13); apply Z.pow_le_mono_r; lia).
  rewrite (proj2 (Z.eqb_neq (Z.of_nat k + 2 ^ 16 * hi) 0)) by (unfold hi; lia).
  assert (El : (Z.of_nat k + 2 ^ 16 * hi) .& 0xffff = Z.of_nat k).
  { change 0xffff with (Z.ones 16). rewrite Z.land_ones, Z.mul_comm, Z.mod_add by lia.
    apply Z.mod_small. lia. }
  rewrite El, (proj2 (Z.leb_gt cb (Z.of_nat k / 8))); [easy|].
  apply Z.div_lt_upper_bound; lia.
Qed.

Lemma ecc_one_bit (m k : nat) : (1 <= m)%nat -> (k < 2 ^ m)%nat ->
  ecc_ref (2 ^ m) (2 ^ Z.of_nat k) <> 0.
Proof.
  intros Hm Hk. unfold ecc_ref. rewrite ecc_lo_pow2, ecc_hi_pow2 by easy.
  assert (2 <= 2 ^ m)%nat by (change 2%nat with (2 ^ 1)%nat at 1; apply Nat.pow_le_mono_r; lia).
  lia.
Qed.

Lemma ecc_two_bits (m j k : nat) : (m <= 16)%nat -> (j < 2 ^ m)%nat -> (k < 2 ^ m)%nat -> j <> k ->
  ecc_ref (2 ^ m) (2 ^ Z.of_nat j ^^ 2 ^ Z.of_nat k) <> 0.
Proof.
  intros Hm Hj Hk Hne. rewrite <- ecc_ref_lxor by easy. unfold ecc_ref.
  rewrite !ecc_lo_pow2, !ecc_hi_pow2 by easy. rewrite Z.lxor_eq_0_iff. lia.
Qed.

Lemma parity_one_bit (n k : nat) : (k < n)%nat -> parity n (2 ^ Z.of_nat k) = true.
Proof. intros. now apply popcnt_1_parity, popcnt_pow2. Qed.

(** ** Flipped bits *)

(** The page with bit [k] inverted. *)
Definition flip (pb : list Z) (k : nat) : list Z :=
  alter (fun b => b ^^ 2 ^ Z.of_nat (k mod 8)) (k / 8)%nat pb.

Lemma flip_length pb k : length (flip pb k) = length pb.
Proof. apply length_alter. Qed.

Lemma mod8_bound (k : nat) : (k mod 8 < 8)%nat.
Proof. apply Nat.mod_upper_bound. lia. Qed.

Lemma flip_byte_ok b k : byte_ok b -> byte_ok (b ^^ 2 ^ Z.of_nat (k mod 8)).
Proof.
  intros Hb. pose proof (mod8_bound k). change (in_u 8 (b ^^ 2 ^ Z.of_nat (k mod 8))).
  apply in_u_lxor; [lia|easy|]. split; [apply Z.pow_nonneg; lia|apply Z.pow_lt_mono_r; lia].
Qed.

Lemma flip_bytes_ok pb k : bytes_ok pb -> bytes_ok (flip pb k).
Proof.
  intros H. apply Forall_lookup. intros i b Hi. unfold flip in Hi.
  destruct (decide (i = (k / 8)%nat)) as [->|].
  - rewrite list_lookup_alter_eq in Hi. apply fmap_Some in Hi as (b0 & Hb0 & ->).
    apply flip_byte_ok. now apply (bytes_ok_lookup pb (k / 8)%nat).
  - rewrite list_lookup_alter_ne in Hi by easy. now apply (bytes_ok_lookup pb i).
Qed.

Lemma flip_flip pb k : flip (flip pb k) k = pb.
Proof.
  unfold flip. apply list_eq. intros i. destruct (decide (i = (k / 8)%nat)) as [->|].
  - rewrite !list_lookup_alter_eq. destruct (pb !! _); simpl; [|easy].
    now rewrite Z.lxor_assoc, Z.lxor_nilpotent, Z.lxor_0_r.
  - now rewrite !list_lookup_alter_ne by easy.
Qed.

Lemma le_num_flip pb (k : nat) : bytes_ok pb -> (k < 8 * length pb)%nat ->
  le_num (flip pb k) = le_num pb ^^ 2 ^ Z.of_nat k.
Proof.
  intros Hb Hk. bitwise i.
  rewrite Z.lxor_spec, !le_num_testbit, Z.pow2_bits_eqb by (try apply flip_bytes_ok; easy || lia).
  pose proof (Nat.div_mod_eq k 8). pose proof (mod8_bound k).
  pose proof (Z.div_mod i 8 ltac:(lia)). pose proof (Z.mod_pos_bound i 8 ltac:(lia)).
  unfold flip. destruct (decide (Z.to_nat (i / 8) = (k / 8)%nat)) as [E|Hne].
  - rewrite E, list_lookup_alter_eq.
    destruct (lookup_lt_is_Some_2 pb (k / 8)%nat) as [b Eb];
      [apply Nat.Div0.div_lt_upper_bound; lia|]. rewrite Eb. cbn [fmap option_fmap option_map].
    rewrite Z.lxor_spec, Z.pow2_bits_eqb by lia. f_equal.
    apply eq_iff_eq_true. rewrite !Z.eqb_eq. lia.
  - rewrite list_lookup_alter_ne by easy.
    rewrite (proj2 (Z.eqb_neq (Z.of_nat k) i)); [now rewrite xorb_false_r|].
    intros <-. apply Hne. change 8 with (Z.of_nat 8). now rewrite <- Nat2Z.inj_div, Nat2Z.id.
Qed.

Lemma page_num_flip pb (k : nat) h : bytes_ok pb -> (k < 8 * length pb)%nat ->
  page_num (flip pb k) h =
  page_num pb h ^^ (if h && (Z.of_nat k <? 64) then 0 else 2 ^ Z.of_nat k).
Proof.
  intros Hb Hk. bitwise i. rewrite Z.lxor_spec, !page_num_testbit, le_num_flip, Z.lxor_spec by easy.
  destruct h; simpl; [|easy].
  destruct (Z.ltb_spec (Z.of_nat k) 64), (Z.ltb_spec i 64); simpl; rewrite ?Z.bits_0;
    rewrite ?Z.pow2_bits_eqb by lia; autorewrite with bools; try easy.
  - rewrite (proj2 (Z.eqb_neq _ _)) by lia. now rewrite xorb_false_r.
  - symmetry. apply Z.eqb_neq. lia.
Qed.

Lemma page_ok_flip pb cb k : page_ok pb cb -> page_ok (flip pb k) cb.
Proof.
  intros [Hb Hl Hs]. split; [now apply flip_bytes_ok|now rewrite flip_length|easy].
Qed.

(** ** Checksums of two pages *)

Section TwoPages.

Context (oob : nat -> Z -> Z) (c c' : cpu) (s s' : dispatch).
Context (pb pb' : list Z) (cb pgno : Z) (h : bool).
Hypothesis Hp : page_ok pb cb.
Hypothesis Hp' : page_ok pb' cb.
Hypothesis Hpgno : in_u 32 pgno.

(** The stored checksum and the one computed on reading, possibly on another
    machine. *)
Let xe := (ChecksumNewFormat oob c pb cb pgno h s).1.
Let xe' := (ChecksumNewFormat oob c' pb' cb pgno h s').1.

Let D := page_num pb' h ^^ page_num pb h.
Let n := Z.to_nat (8 * cb).

Lemma checksum_diff :
  exists m, (13 <= m <= 16)%nat /\ 8 * cb = 2 ^ Z.of_nat m /\ n = (2 ^ m)%nat /\
  DwECCChecksumFromXEChecksum xe' ^^ DwECCChecksumFromXEChecksum xe = ecc_ref (2 ^ m) D /\
  DwXORChecksumFromXEChecksum xe' ^^ DwXORChecksumFromXEChecksum xe = xor_ref (2 ^ m) D.
Proof.
  destruct (page_size_bits cb (page_size _ _ Hp)) as (m & Hm & Hc & Hn).
  exists m. repeat (split; [easy|]).
  unfold xe, xe'. rewrite !ChecksumNewFormat_value by easy. unfold new_checksum_spec.
  rewrite Hn. cbv zeta.
  assert (Hx : forall B, in_u 32 (xor_ref (2 ^ m) B)).
  { intros B. apply xorZ_in_u; [lia|]. intros. now apply word_in_u. }
  pose proof (fun B => make_halves (ecc_ref (2 ^ m) B) (xor_ref (2 ^ m) B) pgno
                (ecc_ref_in_u m B ltac:(lia)) (Hx B) Hpgno) as Hmake.
  destruct (Hmake (page_num pb h)) as [-> ->], (Hmake (page_num pb' h)) as [-> ->].
  split; [apply ecc_ref_lxor; lia|]. unfold D. rewrite xor_ref_lxor.
  generalize (xor_ref (2 ^ m) (page_num pb' h)), (xor_ref (2 ^ m) (page_num pb h)). intros x y.
  bitwise i. rewrite !Z.lxor_spec.
  now destruct (Z.testbit x i), (Z.testbit y i), (Z.testbit pgno i).
Qed.

Lemma ecc_test_parity :
  FECCErrorIsCorrectable_dw cb (DwECCChecksumFromXEChecksum xe) (DwECCChecksumFromXEChecksum xe')
    = parity n D.
Proof.
  destruct checksum_diff as (m & Hm & Hc & Hn & He & Hx). rewrite Hn.
  apply FECC_dw_parity; [easy|lia|easy].
Qed.

Lemma full_test_popcnt : FECCErrorIsCorrectable cb xe xe' = (1 =? popcnt 32 (xor_ref n D)).
Proof.
  pose proof ecc_test_parity as Hdw. destruct checksum_diff as (m & Hm & Hc & Hn & He & Hx).
  unfold FECCErrorIsCorrectable. rewrite Hdw, Hx, CbitSet_popcnt, Hn.
  rewrite <- (xor_ref_parity m) by lia.
  destruct (parity 32 _) eqn:E; [easy|]. symmetry. apply Z.eqb_neq. intros E1.
  symmetry in E1. apply popcnt_1_parity in E1. congruence.
Qed.

Lemma located_bit (k : nat) : D = 2 ^ Z.of_nat k -> (k < n)%nat -> IbitCorrupted cb xe xe' = Z.of_nat k.
Proof.
  intros HD Hk. destruct checksum_diff as (m & Hm & Hc & Hn & He & _).
  unfold IbitCorrupted. apply (ibit_located cb m); [easy|lia|now rewrite Hn in Hk|now rewrite <- HD].
Qed.

(** Pages whose difference has a nonzero index sum have different checksums. *)
Lemma checksum_differs : ecc_ref n D <> 0 -> xe <> xe'.
Proof.
  intros Hne E. destruct checksum_diff as (m & Hm & Hc & Hn & He & Hx). rewrite E in He.
  rewrite Z.lxor_nilpotent in He. rewrite Hn in Hne. congruence.
Qed.

End TwoPages.

(** ** The theorems *)

(** On the checksums of two pages, the ECC test of
    [FECCErrorIsCorrectable] holds exactly when an odd number of their bits
    differ, and the test on full checksums holds exactly when the exclusive or
    of the 32-bit words of the difference has one set bit (the ECC test then
    holds by itself). *)
Theorem FECCErrorIsCorrectable_iff oob c c' s s' pb pb' cb pgno h :
  page_ok pb cb -> page_ok pb' cb -> in_u 32 pgno ->
  let xe := (ChecksumNewFormat oob c pb cb pgno h s).1 in
  let xe' := (ChecksumNewFormat oob c' pb' cb pgno h s').1 in
  let D := page_num pb' h ^^ page_num pb h in
  FECCErrorIsCorrectable_dw cb (DwECCChecksumFromXEChecksum xe) (DwECCChecksumFromXEChecksum xe')
    = parity (Z.to_nat (8 * cb)) D /\
  FECCErrorIsCorrectable cb xe xe' = (1 =? popcnt 32 (xor_ref (Z.to_nat (8 * cb)) D)).
Proof. intros Hp Hp' Hg. split; [now apply ecc_test_parity|now apply full_test_popcnt]. Qed.

Lemma FECCErrorIsCorrectable_iff_witness :
  let xe := (ChecksumNewFormat (fun _ _ => 0) (Cpu true true true true 8)
               (replicate 1024 3) (Z.of_nat 1024) 7 true dispatch_init).1 in
  let xe' := (ChecksumNewFormat (fun _ _ => 0) (Cpu false false false false 4)
               (replicate 1024 5) (Z.of_nat 1024) 7 true dispatch_init).1 in
  let D := page_num (replicate 1024 5) true ^^ page_num (replicate 1024 3) true in
  FECCErrorIsCorrectable_dw (Z.of_nat 1024) (DwECCChecksumFromXEChecksum xe)
    (DwECCChecksumFromXEChecksum xe') = parity (Z.to_nat (8 * Z.of_nat 1024)) D /\
  FECCErrorIsCorrectable (Z.of_nat 1024) xe xe'
    = (1 =? popcnt 32 (xor_ref (Z.to_nat (8 * Z.of_nat 1024)) D)).
Proof.
  apply FECCErrorIsCorrectable_iff;
    [apply replicate_page_ok; [unfold byte_ok; lia|reflexivity]..|unfold in_u; lia].
Defined.

(** The bits of a page that the checksum covers. *)
Definition covered (pb : list Z) (h : bool) (k : nat) : Prop :=
  (k < 8 * length pb)%nat /\ (h = true -> (64 <= k)%nat).

Lemma covered_flip pb cb h k : page_ok pb cb -> covered pb h k ->
  page_num (flip pb k) h ^^ page_num pb h = 2 ^ Z.of_nat k /\ (k < Z.to_nat (8 * cb))%nat.
Proof.
  intros [Hb Hl Hs] [Hk Hh]. split; [|lia]. rewrite page_num_flip by easy.
  replace (h && (Z.of_nat k <? 64)) with false.
  - rewrite Z.lxor_comm, <- Z.lxor_assoc, Z.lxor_nilpotent. apply Z.lxor_0_l.
  - destruct h; [|easy]. symmetry. apply Z.ltb_ge. specialize (Hh eq_refl). lia.
Qed.

Lemma pow2_bits cb : page_size_ok cb = true ->
  (32 * (Z.to_nat (8 * cb) / 32) = Z.to_nat (8 * cb))%nat.
Proof.
  intros H. destruct (page_size_bits cb H) as (m & Hm & _ & ->).
  replace m with (m - 5 + 5)%nat by lia. rewrite Nat.pow_add_r.
  change (2 ^ 5)%nat with 32%nat. rewrite Nat.div_mul; lia.
Qed.

Lemma covered_flip_two pb cb h k j : page_ok pb cb -> covered pb h k -> covered pb h j ->
  page_num (flip (flip pb k) j) h ^^ page_num pb h = 2 ^ Z.of_nat j ^^ 2 ^ Z.of_nat k
  /\ (k < Z.to_nat (8 * cb))%nat /\ (j < Z.to_nat (8 * cb))%nat.
Proof.
  intros Hp Hk Hj. destruct (covered_flip pb cb h k Hp Hk) as [HD Hlt].
  destruct (covered_flip (flip pb k) cb h j (page_ok_flip pb cb k Hp)) as [HD' Hlt'];
    [unfold covered in *; now rewrite flip_length|].
  split; [|easy]. rewrite <- HD, <- HD'. rewrite Z.lxor_assoc. f_equal.
  rewrite <- Z.lxor_assoc, Z.lxor_nilpotent. now rewrite Z.lxor_0_l.
Qed.

(** C2: One flipped bit is repaired: when any bit the checksum covers is
    inverted, the checksums differ, the error is reported correctable and
    [IbitCorrupted] returns exactly the index of the inverted bit, whichever
    implementations computed the two checksums. *)
Theorem single_bit_located oob c c' s s' pb cb pgno h k :
  page_ok pb cb -> in_u 32 pgno -> covered pb h k ->
  let xe := (ChecksumNewFormat oob c pb cb pgno h s).1 in
  let xe' := (ChecksumNewFormat oob c' (flip pb k) cb pgno h s').1 in
  xe <> xe' /\ FECCErrorIsCorrectable cb xe xe' = true /\ IbitCorrupted cb xe xe' = Z.of_nat k.
Proof.
  intros Hp Hg Hk. destruct (covered_flip pb cb h k Hp Hk) as [HD Hlt].
  pose proof (page_ok_flip pb cb k Hp) as Hp'. split_and!.
  - apply checksum_differs; [easy..|]. rewrite HD.
    destruct (page_size_bits cb (page_size _ _ Hp)) as (m & Hm & Hc & Hn).
    rewrite Hn in *. apply ecc_one_bit; [lia|easy].
  - rewrite full_test_popcnt by easy. rewrite HD, xor_ref_pow2 by (try apply pow2_bits, (page_size _ _ Hp); easy).
    pose proof (Z.mod_pos_bound (Z.of_nat k) 32 ltac:(lia)).
    rewrite <- (Z2Nat.id (Z.of_nat k mod 32)), popcnt_pow2 by lia. easy.
  - now apply located_bit.
Qed.

Lemma single_bit_located_witness :
  let xe := (ChecksumNewFormat (fun _ _ => 0) (Cpu true true true true 8)
               (replicate 4096 3) (Z.of_nat 4096) 7 true dispatch_init).1 in
  let xe' := (ChecksumNewFormat (fun _ _ => 0) (Cpu false false false false 8)
               (flip (replicate 4096 3) 4321) (Z.of_nat 4096) 7 true dispatch_init).1 in
  xe <> xe' /\ FECCErrorIsCorrectable (Z.of_nat 4096) xe xe' = true
  /\ IbitCorrupted (Z.of_nat 4096) xe xe' = Z.of_nat 4321.
Proof.
  apply single_bit_located;
    [apply replicate_page_ok; [unfold byte_ok; lia|reflexivity]|unfold in_u; lia|].
  split; [rewrite length_replicate; lia|intros _; lia].
Defined.

(** Two flipped bits are detected and never mistaken for one: the
    checksums differ and the error is reported as not correctable. *)
Theorem double_bit_detected oob c c' s s' pb cb pgno h k j :
  page_ok pb cb -> in_u 32 pgno -> covered pb h k -> covered pb h j -> k <> j ->
  let xe := (ChecksumNewFormat oob c pb cb pgno h s).1 in
  let xe' := (ChecksumNewFormat oob c' (flip (flip pb k) j) cb pgno h s').1 in
  xe <> xe' /\ FECCErrorIsCorrectable cb xe xe' = false.
Proof.
  intros Hp Hg Hk Hj Hne.
  pose proof (page_ok_flip pb cb k Hp) as Hp'. pose proof (page_ok_flip _ cb j Hp') as Hp''.
  destruct (covered_flip_two pb cb h k j Hp Hk Hj) as (E & Hlt & Hlt').
  destruct (page_size_bits cb (page_size _ _ Hp)) as (m & Hm & Hc & Hn).
  pose proof (pow2_bits cb (page_size _ _ Hp)) as H32. split.
  - apply checksum_differs; [easy..|]. rewrite E. rewrite Hn in *. apply ecc_two_bits; lia.
  - rewrite full_test_popcnt by easy. apply Z.eqb_neq. intros E1. symmetry in E1.
    apply popcnt_1_parity in E1. rewrite E, xor_ref_lxor, parity_lxor in E1.
    rewrite !xor_ref_pow2 in E1 by easy.
    assert (Hpar : forall i : nat, parity 32 (2 ^ (Z.of_nat i mod 32)) = true).
    { intros i. pose proof (Z.mod_pos_bound (Z.of_nat i) 32 ltac:(lia)).
      rewrite <- (Z2Nat.id (Z.of_nat i mod 32)) by lia. apply parity_one_bit. lia. }
    rewrite !Hpar in E1. easy.
Qed.

Lemma double_bit_detected_witness :
  let xe := (ChecksumNewFormat (fun _ _ => 0) (Cpu false false true true 8)
               (replicate 4096 3) (Z.of_nat 4096) 7 false dispatch_init).1 in
  let xe' := (ChecksumNewFormat (fun _ _ => 0) (Cpu false false true false 8)
               (flip (flip (replicate 4096 3) 4321) 0) (Z.of_nat 4096) 7 false dispatch_init).1 in
  xe <> xe' /\ FECCErrorIsCorrectable (Z.of_nat 4096) xe xe' = false.
Proof.
  apply double_bit_detected;
    [apply replicate_page_ok; [unfold byte_ok; lia|reflexivity]|unfold in_u; lia| | |lia];
    (split; [rewrite length_replicate; lia|easy]).
Defined.
