(* ===== verification/HeaderHelpers.v ===== *)
(** * HeaderHelpers: loading, validating and repairing block cache headers
      (blockcache/_headerhelpers.hxx)

    A header of the block cache carries its checksum in its first four bytes.
    [CBlockCacheHeaderHelpers] loads a header from a file or from memory,
    compares checksums and, for the headers that use the error-correcting
    checksum, inverts the bit the checksum locates before it compares again.

    The bytes of the header are threaded through ([ErrRepairHeader] writes to
    them through a [const] pointer); [None] is an access outside of them.  The
    file and the page allocator are arguments. *)

From S2P Require Import Prelude Parity ChecksumDefs PageWords ChecksumEcc.
From S2P Require Import Checksum EccRepair.

(** [enum class ChecksumType]; [checksumDefault] is [checksumLegacy]. *)
Inductive ChecksumType := checksumLegacy | checksumECC.

Definition checksumDefault : ChecksumType := checksumLegacy.

#[export] Instance ChecksumType_eq_dec : EqDecision ChecksumType.
Proof. solve_decision. Defined.

Section Helpers.

Context (oob : nat -> Z -> Z) (c : cpu).

Definition GenerateChecksum (CT : ChecksumType) (pv : list Z) (cb : Z) (s : dispatch) : Z * dispatch :=
  match CT with
  | checksumLegacy => ChecksumOldFormat oob c pv cb s
  | checksumECC =>
      let '(xe, s) := ChecksumNewFormat oob c pv cb 0 true s in
      (DwECCChecksumFromXEChecksum xe, s)
  end.

(** [ErrRepairHeader<checksumDefault>]: nothing is repaired. *)
Definition ErrRepairHeader_default (ulChecksumExpected ulChecksumActual : Z) : Z :=
  if negb (ulChecksumExpected =? ulChecksumActual) then JET_errReadVerifyFailure
  else JET_errSuccess.

(** The bytes after the repair attempt of [ErrRepairHeader<checksumECC>]. *)
Definition repair_bit (pv : list Z) (cb ulChecksumExpected ulChecksumActual : Z) : option (list Z) :=
  if FECCErrorIsCorrectable_dw cb ulChecksumExpected ulChecksumActual then
    let ibitCorrupted := IbitCorrupted_dw cb ulChecksumExpected ulChecksumActual in
    let ib := ibitCorrupted / 8 in
    if ib <? cb then
      b ← rd pv ib; wr pv ib (u8 (b ^^ u8 (Z.shiftl 1 (ibitCorrupted mod 8))))
    else Some pv
  else Some pv.

Definition ErrRepairHeader (CT : ChecksumType) (pv : list Z) (cb ulChecksumExpected ulChecksumActual : Z)
    (s : dispatch) : option (Z * list Z * dispatch) :=
  match CT with
  | checksumLegacy => Some (ErrRepairHeader_default ulChecksumExpected ulChecksumActual, pv, s)
  | checksumECC =>
      pv ← repair_bit pv cb ulChecksumExpected ulChecksumActual;
      let '(ulChecksumCurrent, s) := GenerateChecksum checksumECC pv cb s in
      Some (ErrRepairHeader_default ulChecksumExpected ulChecksumCurrent, pv, s)
  end.

(** [ErrValidateHeader( pt )] on the [cb = sizeof( T )] bytes at [pt]. *)
Definition ErrValidateHeader (CT : ChecksumType) (pv : list Z) (cb : Z) (s : dispatch)
    : option (Z * list Z * dispatch) :=
  ulChecksumExpected ← rd_le 4 pv 0;
  let '(ulChecksumActual, s) := GenerateChecksum CT pv cb s in
  if negb (ulChecksumActual =? ulChecksumExpected)
  then ErrRepairHeader CT pv cb ulChecksumExpected ulChecksumActual s
  else Some (JET_errSuccess, pv, s).

(** What the helpers call of [IFileFilter]: the size, and a read of [cb] bytes
    at [ib] into a buffer. *)
Record IFileFilter := FileFilter {
  ErrSize : Z * Z;
  ErrRead : Z -> Z -> list Z -> Z * list Z }.

(** [ErrLoadHeader( pff, ib, ppt )]: [pvAlloc] is what the page allocator
    returns.  The result is the error, the header [*ppt] points to and the
    state of the checksum dispatcher. *)
Definition ErrLoadHeader_file (CT : ChecksumType) (sizeofT : Z) (pff : IFileFilter) (ib : Z)
    (pvAlloc : option (list Z)) (s : dispatch) : option (Z * option (list Z) * dispatch) :=
  let '(err, cbSize) := ErrSize pff in
  if err <? JET_errSuccess then Some (err, None, s)
  else if cbSize <? u64 (ib + sizeofT) then Some (JET_errReadVerifyFailure, None, s)
  else match pvAlloc with
  | None => Some (JET_errOutOfMemory, None, s)
  | Some pvData =>
      let '(err, pvData) := ErrRead pff ib sizeofT pvData in
      if err <? JET_errSuccess then Some (err, None, s)
      else '(err, pvData, s) ← ErrValidateHeader CT pvData sizeofT s;
           if err <? JET_errSuccess then Some (err, None, s)
           else Some (err, Some pvData, s)
  end.

(** [ErrLoadHeader( pbHeader, cbHeader, ppt )]. *)
Definition ErrLoadHeader_memory (CT : ChecksumType) (sizeofT : Z) (pbHeader : list Z) (cbHeader : Z)
    (pvAlloc : option (list Z)) (s : dispatch) : option (Z * option (list Z) * dispatch) :=
  match pvAlloc with
  | None => Some (JET_errOutOfMemory, None, s)
  | Some pvData =>
      let cbCopy := Z.to_nat (Z.min sizeofT cbHeader) in
      if (cbCopy <=? length pbHeader)%nat && (cbCopy <=? length pvData)%nat then
        let pvData := take cbCopy pbHeader ++ drop cbCopy pvData in
        '(err, pvData, s) ← ErrValidateHeader CT pvData sizeofT s;
        if err <? JET_errSuccess then Some (err, None, s)
        else Some (err, Some pvData, s)
      else None
  end.

End Helpers.

(** [ErrGetFileId] and [ErrVerifyFileId]; [ids] is what
    [IFileFilter::ErrGetPhysicalId] returns: an error and the two identifiers. *)
Definition ErrGetFileId (volumeidInvalid fileidInvalid : Z) (ids : Z * Z * Z) : Z * Z * Z :=
  let '(err, volumeid, fileid) := ids in
  if err <? JET_errSuccess then (err, volumeidInvalid, fileidInvalid)
  else (err, volumeid, fileid).

(** Also returns whether the mismatch event was reported. *)
Definition ErrVerifyFileId (ids : Z * Z * Z) (volumeidExpected fileidExpected : Z) : Z * bool :=
  let '(err, volumeidActual, fileidActual) := ids in
  if err <? JET_errSuccess then (err, false)
  else if negb (volumeidActual =? volumeidExpected) then (JET_errDiskIO, true)
  else if negb (fileidActual =? fileidExpected) then (JET_errDiskIO, true)
  else (err, false).

(** ** Lemmas *)

Section Facts.

Context (oob : nat -> Z -> Z) (c : cpu).

(** The checksum a header of [cb] bytes should carry. *)
Definition header_checksum (CT : ChecksumType) (pv : list Z) (cb : Z) : Z :=
  match CT with
  | checksumLegacy => old_checksum_spec pv (Z.to_nat (cb / 4))
  | checksumECC => ecc_ref (Z.to_nat (8 * cb)) (page_num pv true)
  end.

Definition stored_checksum (pv : list Z) : Z := le_num (take 4 pv).

Lemma page_block_ok pb cb : page_ok pb cb -> block_ok pb cb.
Proof.
  intros [Hb Hl Hs]. apply page_size_cases in Hs.
  split; [easy|easy|lia|]. destruct Hs as [E|[E|[E|E]]]; rewrite E; reflexivity.
Qed.

Lemma xor_ref_in_u n B : in_u 32 (xor_ref n B).
Proof. apply xorZ_in_u; [lia|]. intros. now apply word_in_u. Qed.

Lemma GenerateChecksum_value CT pv cb s : page_ok pv cb ->
  (GenerateChecksum oob c CT pv cb s).1 = header_checksum CT pv cb.
Proof.
  intros Hp. destruct CT; cbn [GenerateChecksum header_checksum].
  - now apply ChecksumOldFormat_value, page_block_ok.
  - pose proof (ChecksumNewFormat_value oob c pv cb 0 true s Hp) as Hv.
    destruct (ChecksumNewFormat oob c pv cb 0 true s) as [xe s']. cbn [fst] in *. rewrite Hv.
    destruct (page_size_bits cb (page_size _ _ Hp)) as (m & Hm & Hc & Hn).
    unfold new_checksum_spec. rewrite Hn. apply make_halves;
      [apply ecc_ref_in_u; lia|apply xor_ref_in_u|unfold in_u; lia].
Qed.

Lemma alter_insert {A} (f : A -> A) (l : list A) i x :
  l !! i = Some x -> alter f i l = <[i := f x]> l.
Proof.
  intros H. apply list_eq. intros j. destruct (decide (i = j)) as [<-|].
  - rewrite list_lookup_alter_eq, H, list_lookup_insert_eq; [easy|]. exact (lookup_lt_Some _ _ _ H).
  - now rewrite list_lookup_alter_ne, list_lookup_insert_ne.
Qed.

Lemma repair_bit_flip pv cb e e' : page_ok pv cb ->
  repair_bit pv cb e e' =
  Some (if FECCErrorIsCorrectable_dw cb e e' && (IbitCorrupted_dw cb e e' / 8 <? cb)
        then flip pv (Z.to_nat (IbitCorrupted_dw cb e e')) else pv).
Proof.
  intros [Hb Hl Hs]. unfold repair_bit. destruct (FECCErrorIsCorrectable_dw cb e e'); [|easy].
  set (k := IbitCorrupted_dw cb e e'). destruct (Z.ltb_spec (k / 8) cb) as [Hlt|]; [|easy].
  assert (Hk : 0 <= k).
  { unfold k, IbitCorrupted_dw. case_ifs; try (unfold ulMax; lia).
    apply Z.land_nonneg. now right. }
  pose proof (Z.div_pos k 8 Hk ltac:(lia)).
  destruct (rd_Some pv (k / 8)) as (b & Eb & El); [lia|]. rewrite Eb. cbn [mbind option_bind].
  rewrite wr_Some by lia. cbn [andb]. f_equal. unfold flip.
  assert (Ek : (Z.to_nat k / 8)%nat = Z.to_nat (k / 8)) by now rewrite Z2Nat.inj_div by lia.
  assert (Em : Z.of_nat (Z.to_nat k mod 8) = k mod 8)
    by (rewrite Nat2Z.inj_mod, Z2Nat.id by lia; reflexivity).
  rewrite Ek, Em. pose proof (Z.mod_pos_bound k 8 ltac:(lia)).
  assert (Hw : in_u 8 (2 ^ (k mod 8))) by
    (split; [apply Z.pow_nonneg; lia|apply Z.pow_lt_mono_r; lia]).
  assert (Hbk : in_u 8 b) by exact (bytes_ok_lookup pv _ b Hb El).
  rewrite Z.shiftl_1_l, !wrapu_small by (try apply in_u_lxor; try rewrite wrapu_small; easy || lia).
  symmetry. exact (alter_insert _ _ _ _ El).
Qed.

(** The header after the repair attempt. *)
Definition repaired (pv : list Z) (cb : Z) : list Z :=
  let e := stored_checksum pv in
  let e' := header_checksum checksumECC pv cb in
  if FECCErrorIsCorrectable_dw cb e e' && (IbitCorrupted_dw cb e e' / 8 <? cb)
  then flip pv (Z.to_nat (IbitCorrupted_dw cb e e')) else pv.

Lemma repaired_page_ok pv cb : page_ok pv cb -> page_ok (repaired pv cb) cb.
Proof. intros Hp. unfold repaired. case_ifs; [now apply page_ok_flip|easy]. Qed.

Lemma load_stored pv cb : page_ok pv cb -> rd_le 4 pv 0 = Some (stored_checksum pv).
Proof.
  intros [Hb Hl Hs]. apply page_size_cases in Hs. apply (rd_le_Some 4 pv 0); lia.
Qed.

Lemma validate_legacy pv cb s : page_ok pv cb -> exists s',
  ErrValidateHeader oob c checksumLegacy pv cb s =
  Some (if stored_checksum pv =? header_checksum checksumLegacy pv cb then JET_errSuccess
        else JET_errReadVerifyFailure, pv, s').
Proof.
  intros Hp. unfold ErrValidateHeader. rewrite (load_stored pv cb) by easy. cbn [mbind option_bind].
  pose proof (GenerateChecksum_value checksumLegacy pv cb s Hp) as Hv.
  destruct (GenerateChecksum oob c checksumLegacy pv cb s) as [a s']. cbn [fst] in Hv. subst a.
  exists s'. cbn [ErrRepairHeader]. unfold ErrRepairHeader_default.
  rewrite (Z.eqb_sym _ (stored_checksum pv)).
  now destruct (stored_checksum pv =? header_checksum checksumLegacy pv cb).
Qed.

Lemma validate_ecc pv cb s : page_ok pv cb -> exists s',
  ErrValidateHeader oob c checksumECC pv cb s =
  Some (if stored_checksum pv =? header_checksum checksumECC pv cb then (JET_errSuccess, pv, s')
        else (if stored_checksum pv =? header_checksum checksumECC (repaired pv cb) cb
              then JET_errSuccess else JET_errReadVerifyFailure, repaired pv cb, s')).
Proof.
  intros Hp. unfold ErrValidateHeader. rewrite (load_stored pv cb) by easy. cbn [mbind option_bind].
  pose proof (GenerateChecksum_value checksumECC pv cb s Hp) as Hv.
  destruct (GenerateChecksum oob c checksumECC pv cb s) as [a s']. cbn [fst] in Hv. subst a.
  rewrite (Z.eqb_sym _ (stored_checksum pv)).
  destruct (stored_checksum pv =? header_checksum checksumECC pv cb); [now exists s'|].
  cbn [negb ErrRepairHeader]. rewrite repair_bit_flip by easy. fold (repaired pv cb).
  cbn [mbind option_bind].
  pose proof (GenerateChecksum_value checksumECC (repaired pv cb) cb s'
                (repaired_page_ok pv cb Hp)) as Hv.
  destruct (GenerateChecksum oob c checksumECC (repaired pv cb) cb s') as [a s'']. cbn [fst] in Hv.
  subst a. exists s''. unfold ErrRepairHeader_default. now case_ifs.
Qed.

(** Bits of the first four bytes change the stored checksum only, other bits
    of the first eight bytes nothing. *)
Lemma stored_flip pv k : (32 <= k)%nat -> stored_checksum (flip pv k) = stored_checksum pv.
Proof.
  intros Hk. unfold stored_checksum, flip. rewrite take_alter_ge; [easy|].
  apply (Nat.div_le_mono 32 k 8); lia.
Qed.

Lemma ecc_flip_uncovered pv cb k : page_ok pv cb -> (k < 64)%nat ->
  header_checksum checksumECC (flip pv k) cb = header_checksum checksumECC pv cb.
Proof.
  intros [Hb Hl Hs] Hk. pose proof (page_size_cases cb Hs). cbn [header_checksum].
  rewrite page_num_flip by (easy || lia). rewrite (proj2 (Z.ltb_lt (Z.of_nat k) 64)) by lia.
  now rewrite Z.lxor_0_r.
Qed.

(** The located bit of a header whose stored checksum is that of the header
    with bit [k] inverted. *)
Lemma repaired_flip pv cb k : page_ok pv cb -> covered pv true k ->
  stored_checksum pv = header_checksum checksumECC (flip pv k) cb -> repaired pv cb = flip pv k.
Proof.
  intros Hp Hk Hst. destruct (page_size_bits cb (page_size _ _ Hp)) as (m & Hm & Hc & Hn).
  destruct (covered_flip pv cb true k Hp Hk) as [HD Hlt].
  unfold repaired. rewrite Hst. cbn [header_checksum]. rewrite Hn in *.
  assert (He : ecc_ref (2 ^ m) (page_num pv true) ^^ ecc_ref (2 ^ m) (page_num (flip pv k) true)
               = ecc_ref (2 ^ m) (2 ^ Z.of_nat k)).
  { rewrite ecc_ref_lxor, Z.lxor_comm, HD by lia. easy. }
  rewrite (FECC_dw_parity cb m _ _ (2 ^ Z.of_nat k)) by (easy || lia).
  rewrite (ibit_located cb m _ _ k) by (easy || lia).
  rewrite (popcnt_1_parity (2 ^ m)) by now apply popcnt_pow2.
  rewrite (proj2 (Z.ltb_lt (Z.of_nat k / 8) cb)).
  - now rewrite Nat2Z.id.
  - apply Z.div_lt_upper_bound; [lia|]. destruct Hp, Hk. lia.
Qed.

End Facts.

(** ** The theorems *)

Section Claims.

Context (oob : nat -> Z -> Z) (c : cpu).

(** A header that carries its own checksum. *)
Definition header_valid (CT : ChecksumType) (pv : list Z) (cb : Z) : Prop :=
  page_ok pv cb /\ stored_checksum pv = header_checksum CT pv cb.

Lemma validate_sound CT pv cb s : page_ok pv cb -> exists err pv' s',
  ErrValidateHeader oob c CT pv cb s = Some (err, pv', s') /\
  (err = JET_errSuccess /\ header_valid CT pv' cb
   /\ (pv' = pv \/ CT = checksumECC /\ exists k, covered pv true k /\ pv' = flip pv k)
   \/ err = JET_errReadVerifyFailure /\ stored_checksum pv <> header_checksum CT pv cb).
Proof.
  intros Hp. destruct CT.
  - destruct (validate_legacy oob c pv cb s Hp) as [s' E].
    destruct (Z.eqb_spec (stored_checksum pv) (header_checksum checksumLegacy pv cb)).
    + exists JET_errSuccess, pv, s'. split; [easy|]. left. unfold header_valid. auto.
    + exists JET_errReadVerifyFailure, pv, s'. split; [easy|]. right. auto.
  - destruct (validate_ecc oob c pv cb s Hp) as [s' E].
    destruct (Z.eqb_spec (stored_checksum pv) (header_checksum checksumECC pv cb)) as [|Hne].
    { exists JET_errSuccess, pv, s'. split; [easy|]. left. unfold header_valid. auto. }
    destruct (Z.eqb_spec (stored_checksum pv) (header_checksum checksumECC (repaired pv cb) cb)) as [Hr|].
    2:{ exists JET_errReadVerifyFailure, (repaired pv cb), s'. split; [easy|]. right. auto. }
    exists JET_errSuccess, (repaired pv cb), s'. split; [easy|]. left.
    split; [easy|]. pose proof (repaired_page_ok pv cb Hp) as Hp'.
    unfold repaired in *. destruct (_ && _) eqn:Eb; [|congruence].
    set (k := Z.to_nat _) in *. destruct (Nat.ltb_spec k 64) as [Hlt|Hge].
    { rewrite ecc_flip_uncovered in Hr by easy. congruence. }
    apply andb_true_iff in Eb as [_ Eb]. apply Z.ltb_lt in Eb.
    assert (Hk : covered pv true k).
    { split; [|easy]. pose proof (page_length _ _ Hp).
      pose proof (Z.div_mod (IbitCorrupted_dw cb (stored_checksum pv)
        (header_checksum checksumECC pv cb)) 8 ltac:(lia)).
      pose proof (Z.mod_pos_bound (IbitCorrupted_dw cb (stored_checksum pv)
        (header_checksum checksumECC pv cb)) 8 ltac:(lia)). lia. }
    split; [|right; eauto]. split; [easy|]. rewrite stored_flip by lia. easy.
Qed.

(** A file filter that holds [pv] at offset [ib]. *)
Definition file_holds (pff : IFileFilter) (ib cb : Z) (buf pv : list Z) : Prop :=
  exists cbSize, ErrSize pff = (JET_errSuccess, cbSize) /\ 0 <= ib /\ ib + cb <= cbSize
  /\ cbSize < 2 ^ 64 /\ ErrRead pff ib cb buf = (JET_errSuccess, pv).

Lemma load_file_validate CT cb pff ib buf pv s : 0 <= cb -> file_holds pff ib cb buf pv ->
  ErrLoadHeader_file oob c CT cb pff ib (Some buf) s =
  ('(err, pvData, s) ← ErrValidateHeader oob c CT pv cb s;
   if err <? JET_errSuccess then Some (err, None, s) else Some (err, Some pvData, s)).
Proof.
  intros Hcb (cbSize & Hsz & Hib & Hle & Hlt & Hrd). unfold ErrLoadHeader_file. rewrite Hsz.
  change (JET_errSuccess <? JET_errSuccess) with false. cbv iota.
  rewrite wrapu_small by (unfold in_u; lia).
  rewrite (proj2 (Z.ltb_ge cbSize (ib + cb))) by lia. rewrite Hrd. reflexivity.
Qed.

(** A difference of two pages that the ECC half sees. *)
Lemma header_checksum_diff pv pv' cb m : (m <= 16)%nat -> Z.to_nat (8 * cb) = (2 ^ m)%nat ->
  ecc_ref (2 ^ m) (page_num pv' true ^^ page_num pv true) <> 0 ->
  header_checksum checksumECC pv cb <> header_checksum checksumECC pv' cb.
Proof.
  intros Hm Hn Hne E. cbn [header_checksum] in E. rewrite Hn in E. apply Hne.
  rewrite <- ecc_ref_lxor by easy. rewrite E. apply Z.lxor_nilpotent.
Qed.

Lemma validate_single_flip pv cb k s :
  header_valid checksumECC pv cb -> covered pv true k -> exists s',
  ErrValidateHeader oob c checksumECC (flip pv k) cb s = Some (JET_errSuccess, pv, s').
Proof.
  intros [Hp Hst] Hk. pose proof (page_ok_flip pv cb k Hp) as Hp'.
  destruct (covered_flip pv cb true k Hp Hk) as [HD Hlt].
  destruct (page_size_bits cb (page_size _ _ Hp)) as (m & Hm & Hc & Hn).
  assert (Hst' : stored_checksum (flip pv k) = header_checksum checksumECC pv cb).
  { rewrite stored_flip; [easy|]. destruct Hk as [_ Hk]. specialize (Hk eq_refl). lia. }
  destruct (validate_ecc oob c (flip pv k) cb s Hp') as [s' E]. exists s'. rewrite E, Hst'.
  rewrite (proj2 (Z.eqb_neq _ _)).
  - rewrite (repaired_flip (flip pv k) cb k Hp'), flip_flip.
    + now rewrite Z.eqb_refl.
    + unfold covered in *. now rewrite flip_length.
    + now rewrite flip_flip.
  - apply (header_checksum_diff _ _ cb m); [lia|easy|]. rewrite HD.
    apply ecc_one_bit; [lia|]. now rewrite <- Hn.
Qed.

Lemma validate_double_flip pv cb k j s :
  header_valid checksumECC pv cb -> covered pv true k -> covered pv true j -> k <> j -> exists s',
  ErrValidateHeader oob c checksumECC (flip (flip pv k) j) cb s =
  Some (JET_errReadVerifyFailure, flip (flip pv k) j, s').
Proof.
  intros [Hp Hst] Hk Hj Hne. set (pv' := flip (flip pv k) j).
  assert (Hp' : page_ok pv' cb) by now apply page_ok_flip, page_ok_flip.
  destruct (covered_flip_two pv cb true k j Hp Hk Hj) as (HD & Hlt & Hlt').
  fold pv' in HD. destruct (page_size_bits cb (page_size _ _ Hp)) as (m & Hm & Hc & Hn).
  assert (Hst' : stored_checksum pv' = header_checksum checksumECC pv cb).
  { destruct Hk as [_ Hk], Hj as [_ Hj]. specialize (Hk eq_refl). specialize (Hj eq_refl).
    unfold pv'. now rewrite !stored_flip by lia. }
  assert (Hd : header_checksum checksumECC pv cb <> header_checksum checksumECC pv' cb).
  { apply (header_checksum_diff _ _ cb m); [lia|easy|]. rewrite HD. rewrite Hn in *.
    apply ecc_two_bits; lia. }
  assert (Hr : repaired pv' cb = pv').
  { unfold repaired. rewrite Hst'. cbn [header_checksum]. rewrite Hn in *.
    rewrite (FECC_dw_parity cb m _ _ (2 ^ Z.of_nat j ^^ 2 ^ Z.of_nat k))
      by (try (rewrite ecc_ref_lxor, HD by lia); easy || lia).
    rewrite parity_lxor, !parity_one_bit by easy. easy. }
  destruct (validate_ecc oob c pv' cb s Hp') as [s' E]. exists s'. rewrite E, Hst', Hr.
  now rewrite (proj2 (Z.eqb_neq _ _) Hd).
Qed.

End Claims.

(** C11: A header protected by the error-correcting checksum survives the
    inversion of any one bit after its first 8 bytes: loading it from a file
    that holds the damaged header succeeds and yields the original header. *)
Theorem load_repairs_single_bit oob c cb pff ib buf pv k s :
  header_valid checksumECC pv cb -> covered pv true k -> file_holds pff ib cb buf (flip pv k) ->
  exists s', ErrLoadHeader_file oob c checksumECC cb pff ib (Some buf) s =
             Some (JET_errSuccess, Some pv, s').
Proof.
  intros Hv Hk Hf. destruct (validate_single_flip oob c pv cb k s Hv Hk) as [s' E].
  exists s'. rewrite (load_file_validate oob c _ _ _ _ _ (flip pv k)).
  - now rewrite E.
  - destruct Hv as [Hp _]. pose proof (page_length _ _ Hp). lia.
  - easy.
Qed.

(** Two inverted bits are never accepted: loading such a header from a file
    fails with [JET_errReadVerifyFailure] and yields no header. *)
Theorem load_rejects_double_bit oob c cb pff ib buf pv k j s :
  header_valid checksumECC pv cb -> covered pv true k -> covered pv true j -> k <> j ->
  file_holds pff ib cb buf (flip (flip pv k) j) ->
  exists s', ErrLoadHeader_file oob c checksumECC cb pff ib (Some buf) s =
             Some (JET_errReadVerifyFailure, None, s').
Proof.
  intros Hv Hk Hj Hne Hf. destruct (validate_double_flip oob c pv cb k j s Hv Hk Hj Hne) as [s' E].
  exists s'. rewrite (load_file_validate oob c _ _ _ _ _ (flip (flip pv k) j)).
  - now rewrite E.
  - destruct Hv as [Hp _]. pose proof (page_length _ _ Hp). lia.
  - easy.
Qed.

(** Loading is sound and safe: for any contents of the file, with any
    allocation and read outcome, no access leaves the header; a header is
    returned exactly on success, and then it carries its own checksum and is
    the file's header, up to one repaired bit for the error-correcting type. *)
Theorem load_sound oob c CT cb pff ib alloc s :
  page_size_ok cb = true ->
  (forall buf, alloc = Some buf -> page_ok (ErrRead pff ib cb buf).2 cb) ->
  exists err ppt s', ErrLoadHeader_file oob c CT cb pff ib alloc s = Some (err, ppt, s') /\
  (err < JET_errSuccess /\ ppt = None \/
   JET_errSuccess <= err /\ exists buf pv, alloc = Some buf /\ ppt = Some pv /\ header_valid CT pv cb
     /\ (pv = (ErrRead pff ib cb buf).2 \/
         CT = checksumECC /\ exists k, covered pv true k /\ pv = flip (ErrRead pff ib cb buf).2 k)).
Proof.
  intros Hs Hrd. unfold ErrLoadHeader_file. destruct (ErrSize pff) as [err cbSize].
  destruct (Z.ltb_spec err JET_errSuccess); [exists err, None, s; auto|].
  destruct (cbSize <? _); [exists JET_errReadVerifyFailure, None, s; split; [easy|left; easy]|].
  destruct alloc as [buf|]; [|exists JET_errOutOfMemory, None, s; split; [easy|left; easy]].
  specialize (Hrd buf eq_refl). destruct (ErrRead pff ib cb buf) as [err' pv] eqn:Er. cbn [snd] in Hrd.
  destruct (Z.ltb_spec err' JET_errSuccess); [exists err', None, s; auto|].
  destruct (validate_sound oob c CT pv cb s Hrd) as (e & pv' & s' & E & Hcase).
  rewrite E. cbn [mbind option_bind]. destruct Hcase as [(-> & Hv & Hpv)|[-> _]].
  - exists JET_errSuccess, (Some pv'), s'. split; [easy|]. right. split; [easy|].
    exists buf, pv'. rewrite Er. split_and!; [easy|easy|easy|]. destruct Hpv as [|(? & k & Hk & ->)]; [auto|].
    right. split; [easy|]. exists k. split; [|easy]. unfold covered in *. now rewrite flip_length.
  - exists JET_errReadVerifyFailure, None, s'. split; [easy|]. left. easy.
Qed.

(** A valid header of zeroes: its ECC checksum is 0. *)
Lemma zero_header_valid : header_valid checksumECC (replicate 1024 0) (Z.of_nat 1024).
Proof.
  split; [apply replicate_page_ok; [unfold byte_ok; lia|reflexivity]|].
  unfold stored_checksum. cbn [header_checksum].
  replace (page_num (replicate 1024 0) true) with 0 by (vm_compute; reflexivity).
  unfold ecc_ref. replace (ecc_lo _ 0) with 0. 1: replace (ecc_hi _ 0) with 0; [reflexivity|].
  - symmetry. apply Z.bits_inj_0. intros i. unfold ecc_hi. rewrite xorZ_testbit.
    rewrite (xsum_ext _ _ (fun _ => false)); [apply xsum_false|]. intros. now rewrite Z.bits_0, Z.bits_0.
  - symmetry. apply Z.bits_inj_0. intros i. rewrite ecc_lo_testbit. unfold sum_sel.
    rewrite (xsum_ext _ _ (fun _ => false)); [apply xsum_false|]. intros. unfold bit. now rewrite Z.bits_0.
Qed.

(** A file of 4096 bytes that holds [pv] everywhere it is read. *)
Definition file_of (pv : list Z) : IFileFilter :=
  FileFilter (JET_errSuccess, 4096) (fun _ _ _ => (JET_errSuccess, pv)).

Lemma file_of_holds pv : file_holds (file_of pv) 1024 (Z.of_nat 1024) [] pv.
Proof. exists 4096. split_and!; easy || lia. Qed.

Lemma load_repairs_single_bit_witness :
  exists s', ErrLoadHeader_file (fun _ _ => 0) (Cpu true true true true 8) checksumECC
    (Z.of_nat 1024) (file_of (flip (replicate 1024 0) 100)) 1024 (Some []) dispatch_init =
    Some (JET_errSuccess, Some (replicate 1024 0), s').
Proof.
  apply (load_repairs_single_bit _ _ _ _ _ _ _ 100);
    [apply zero_header_valid| |apply file_of_holds].
  split; [rewrite length_replicate|intros _]; lia.
Defined.

Lemma load_rejects_double_bit_witness :
  exists s', ErrLoadHeader_file (fun _ _ => 0) (Cpu true true true true 8) checksumECC
    (Z.of_nat 1024) (file_of (flip (flip (replicate 1024 0) 100) (64 * 127 + 63))) 1024 (Some []) dispatch_init =
    Some (JET_errReadVerifyFailure, None, s').
Proof.
  apply (load_rejects_double_bit _ _ _ _ _ _ (replicate 1024 0) 100 (64 * 127 + 63));
    [apply zero_header_valid| | |lia|apply file_of_holds];
    (split; [rewrite length_replicate|intros _]; lia).
Defined.

Lemma load_sound_witness :
  exists err ppt s', ErrLoadHeader_file (fun _ _ => 0) (Cpu true true true true 8) checksumLegacy
    (Z.of_nat 1024) (file_of (replicate 1024 5)) 0 (Some [1]) dispatch_init = Some (err, ppt, s') /\
  (err < JET_errSuccess /\ ppt = None \/
   JET_errSuccess <= err /\ exists buf pv, Some [1] = Some buf /\ ppt = Some pv
     /\ header_valid checksumLegacy pv (Z.of_nat 1024)
     /\ (pv = (ErrRead (file_of (replicate 1024 5)) 0 (Z.of_nat 1024) buf).2 \/
         checksumLegacy = checksumECC /\ exists k, covered pv true k /\
           pv = flip (ErrRead (file_of (replicate 1024 5)) 0 (Z.of_nat 1024) buf).2 k)).
Proof.
  apply load_sound; [reflexivity|]. intros buf _. cbn [file_of ErrRead snd].
  apply replicate_page_ok; [unfold byte_ok; lia|reflexivity].
Defined.
