(* ===== verification/Xpress.v ===== *)
(** * Xpress: the LZ77 decoder (ms/_xpress/xdecode.c, xdecode.i)

    [do_decode] is one source text included twice: once fast, without bounds
    checks and with 8-byte copies, once careful.  The fast copy runs while both
    buffers have room for a whole tag word; it jumps into the careful copy at
    [restart] and at [careful_copy_tail] and never returns.  Here the text is
    one step function with a flag [c] for the copy being executed.

    Pointers into the output are offsets from [info->dst.beg], pointers into
    the input offsets from the start of the compressed data.  An access outside
    of a buffer is [None].  The build is the one for AMD64 ([CODING_DIRECT2],
    [i386] and [_M_ARM] undefined). *)

From S2P Require Import Prelude.

Definition MIN_MATCH : Z := 3.
Definition MAX_OFFSET : Z := 13.
Definition DIRECT2_LEN_LOG : Z := 16 - MAX_OFFSET.
Definition DIRECT2_MAX_LEN : Z := Z.shiftl 1 DIRECT2_LEN_LOG - 1.
Definition MIN_SIZE : Z := 8.
Definition BUFF_SIZE : Z := Z.shiftl 1 16.
Definition sizeof_tag_t : Z := 4.
Definition RESERVE_DST : Z := (8 * 8 + 2) * sizeof_tag_t.
Definition RESERVE_SRC : Z := (7 * 8 + 2) * sizeof_tag_t.

(** [decode_info]: [dst.beg] and [src.beg] are 0, [src.end_1] is [src_end - 1]
    and [src.end_tag] is [src_end - 3]. *)
Record decode_info := DecodeInfo {
  dst_end : Z; dst_careful : Z; dst_stop : Z; src_end : Z; src_careful : Z }.

(** The locals of [do_decode] and the output buffer. *)
Record xstate := XState {
  bmask : Z; ptr : option Z; dst : Z; src : Z; out : list Z }.

(** The labels a step ends at. *)
Inductive pc := Start | CopyByte | Next.

Inductive xres :=
  | Cont (c : bool) (k : pc) (s : xstate)
  | RetOk (eof : bool) (s : xstate)
  | RetErr (s : xstate).

(** [n] times [*dst++ = *src++] within one buffer, from [s] to [d]. *)
Fixpoint copy_bytes (n : nat) (d s : Z) (buf : list Z) : option (list Z) :=
  match n with
  | O => Some buf
  | S n => b ← rd buf s; buf ← wr buf d b; copy_bytes n (d + 1) (s + 1) buf
  end.

Definition COPY_8_BYTES (d s : Z) (buf : list Z) : option (list Z) := copy_bytes 8 d s buf.

(** [if (len > 8) do { COPY_8_BYTES; len -= 8; dst += 8; src += 8; } while (len > 8);
    do *dst++ = *src++, --len; while (len)], the second loop run [len] times
    for [len > 0]; for [len = 0] it would not stop within the buffer. *)
Fixpoint copy_block (fuel : nat) (len d s : Z) (buf : list Z) : option (list Z) :=
  match fuel with
  | O => None
  | S fuel =>
      if 8 <? len
      then buf ← COPY_8_BYTES d s buf; copy_block fuel (len - 8) (d + 8) (s + 8) buf
      else if 0 <? len then copy_bytes (Z.to_nat len) d s buf else None
  end.

Definition COPY_BLOCK_SLOW (d s len : Z) (buf : list Z) : option (list Z) :=
  copy_block (S (Z.to_nat len)) len d s buf.

Section Decode.

Context (info : decode_info) (comp : list Z).

(** [CAREFUL_OK_IF (dst >= stop); CAREFUL_ERR_IF (src >= end); *dst++ = *src++;] *)
Definition literal (c : bool) (s : xstate) : option xres :=
  if c && (dst_stop info <=? dst s) then Some (RetOk false s)
  else if c && (src_end info <=? src s) then Some (RetErr s)
  else
    b ← rd comp (src s);
    buf ← wr (out s) (dst s) b;
    Some (Cont c Next (XState (bmask s) (ptr s) (dst s + 1) (src s + 1) buf)).

(** The length of a match whose length field is [len]: the length, [ptr] and
    [src] after it, or nothing for [RET_ERR]. *)
Definition match_len (c : bool) (len : Z) (p : option Z) (sp : Z) : option (option (Z * option Z * Z)) :=
  if len =? DIRECT2_MAX_LEN then
    quad ← match p with
           | None => if c && (src_end info <=? sp) then Some None
                     else b ← rd comp sp; Some (Some (b .& 15, Some sp, sp + 1))
           | Some q => b ← rd comp q; Some (Some (Z.shiftr b 4, None, sp))
           end;
    match quad with
    | None => Some None
    | Some (len, p, sp) =>
        if len =? 15 then
          if c && (src_end info <=? sp) then Some None
          else
            len ← rd comp sp;
            let sp := sp + 1 in
            if len =? 255 then
              if c && (src_end info - 1 <=? sp) then Some None
              else
                len ← rd_le 2 comp sp;
                let sp := sp + 2 in
                if len <? 255 + 15 + DIRECT2_MAX_LEN then Some None
                else Some (Some (len + MIN_MATCH, p, sp))
            else Some (Some (len + 15 + (DIRECT2_MAX_LEN + MIN_MATCH), p, sp))
        else Some (Some (len + (DIRECT2_MAX_LEN + MIN_MATCH), p, sp))
    end
  else Some (Some (len + MIN_MATCH, p, sp)).

(** From [done_len] (with [careful_copy_tail] in the careful copy) to
    [goto next]. *)
Definition copy_match (c : bool) (ofs len : Z) (s : xstate) : option xres :=
  let sp := dst s + ofs in
  let c := c || (dst_careful info <=? dst s + len) in
  if c && (dst_stop info <? dst s + len) then
    if sp <? 0 then Some (RetErr s)
    else
      let len := dst_stop info - dst s in
      buf ← COPY_BLOCK_SLOW (dst s) sp len (out s);
      Some (RetOk false (XState (bmask s) (ptr s) (dst s + len) (src s) buf))
  else if sp <? 0 then Some (RetErr s)
  else
    buf ← COPY_BLOCK_SLOW (dst s) sp len (out s);
    Some (Cont c Next (XState (bmask s) (ptr s) (dst s + len) (src s) buf)).

(** A match, from [CAREFUL_EOF_IF (dst >= stop)]. *)
Definition match_item (c : bool) (s : xstate) : option xres :=
  if c && (dst_stop info <=? dst s) then Some (RetOk (dst s =? dst_end info) s)
  else if c && (src_end info - 1 <=? src s) then Some (RetErr s)
  else
    w ← rd_le 2 comp (src s);
    let sp := src s + 2 in
    let len := w .& DIRECT2_MAX_LEN in
    let ofs := Z.lnot (Z.shiftr w DIRECT2_LEN_LOG) in
    if negb c && (len <=? 8 - MIN_MATCH) then
      if dst s + ofs <? 0 then Some (RetErr s)
      else
        buf ← COPY_8_BYTES (dst s) (dst s + ofs) (out s);
        Some (Cont c Next (XState (bmask s) (ptr s) (dst s + (len + MIN_MATCH)) sp buf))
    else
      r ← match_len c len (ptr s) sp;
      match r with
      | None => Some (RetErr s)
      | Some (len, p, sp) => copy_match c ofs len (XState (bmask s) p (dst s) sp (out s))
      end.

(** The tag word is used up: [start] in the fast copy, [restart] in the
    careful one. *)
Definition load_tag (c : bool) (s : xstate) : option xres :=
  let c := c || ((src_careful info <=? src s) || (dst_careful info <=? dst s)) in
  if c && (src_end info - 3 <=? src s) then Some (RetErr s)
  else
    w ← rd_le 4 comp (src s);
    let b := s32 w in
    let s := XState (s32 (s32 (b * 2) + 1)) (ptr s) (dst s) (src s + sizeof_tag_t) (out s) in
    if 0 <=? b then Some (Cont c CopyByte s) else match_item c s.

(** [next]: the [do]-[while] over literals is a jump back to the label. *)
Definition next_item (c : bool) (s : xstate) : option xres :=
  let b := s32 (bmask s * 2) in
  let s' := XState b (ptr s) (dst s) (src s) (out s) in
  if 0 <=? bmask s then literal c s'
  else if b =? 0 then load_tag c s' else match_item c s'.

Definition xstep (c : bool) (k : pc) (s : xstate) : option xres :=
  match k with
  | Start => load_tag c s
  | CopyByte => literal c s
  | Next => next_item c s
  end.

Fixpoint xrun (fuel : nat) (c : bool) (k : pc) (s : xstate) : option xres :=
  match fuel with
  | O => Some (Cont c k s)
  | S fuel =>
      r ← xstep c k s;
      match r with
      | Cont c k s => xrun fuel c k s
      | r => Some r
      end
  end.

(** [do_decode]: every step consumes input, so the fuel is the input. *)
Definition do_decode (buf : list Z) : option xres :=
  xrun (S (length comp)) false Start (XState 0 None 0 0 buf).

End Decode.

(** [XpressDecode]: [stream] and [addr] are the addresses the parameters
    [stream] and [comp] hold; they only decide where the careful copy starts. *)
Definition decode_info_of (stream addr orig_size decode_size comp_size : Z) : decode_info :=
  DecodeInfo orig_size
    (if RESERVE_DST <? decode_size then decode_size - RESERVE_DST else 0)
    decode_size comp_size
    (if RESERVE_SRC <? addr + comp_size - stream then comp_size - RESERVE_SRC else stream - addr).

Definition XpressDecode (stream addr : Z) (orig : list Z) (orig_size decode_size : Z)
    (comp : list Z) (comp_size : Z) : option (Z * list Z) :=
  let decode_size := if orig_size <? decode_size then orig_size else decode_size in
  if (comp_size =? orig_size) || (decode_size =? 0) then Some (decode_size, orig)
  else if (orig_size <? comp_size) || (comp_size <? 0) || (orig_size <=? MIN_SIZE)
          || (comp_size <? MIN_SIZE) || (BUFF_SIZE <? orig_size) || (decode_size <? 0)
  then Some (-1, orig)
  else
    let info := decode_info_of stream addr orig_size decode_size comp_size in
    r ← do_decode info comp orig;
    match r with
    | RetOk eof s =>
        if (dst_stop info <? dst s) || (src_end info <? src s)
           || ((dst_stop info =? dst_end info) && negb eof)
        then Some (-1, out s) else Some (decode_size, out s)
    | RetErr s => Some (-1, out s)
    | Cont _ _ _ => None
    end.

(** [XpressDecodeCreate], [XpressDecodeClose] with [ALLOCATE_ON_STACK]. *)
Definition XpressDecodeCreate : Z := 1.

(** ** Examples: literals, a match that overlaps its own output *)

(** Bits of the first tag word, most significant first: eight literals, a
    match, end of data. *)
Definition sample_comp : list Z :=
  [0; 0; 0x40; 0; 1; 2; 3; 4; 5; 6; 7; 8; 9].

Example decode_short_input :
  XpressDecode 1 65536 (replicate 20 0) 20 20 sample_comp 13 = Some (-1, [1;2;3;4;5;6;7;8;9] ++ replicate 11 0).
Proof. vm_compute. reflexivity. Qed.
