(* ===== verification/XpressRef.v ===== *)
(** * XpressRef: the decoder refines a reference decoder on lists

    The reference decoder always checks its bounds, appends to a list and copies
    a match one byte at a time.  [xstep] simulates it step by step, in the fast
    copy as well as in the careful one; what makes the unchecked accesses of the
    fast copy safe is the invariant [fast_room]: the reserves of 264 output and
    232 input bytes last for the 32 items of a tag word.  Hence the decoder never
    leaves its buffers, ends after at most one step per input byte, and its
    result is that of the reference. *)

From S2P Require Import Prelude Xpress.

(** ** The reference decoder *)

Record rstate := RState { r_bmask : Z; r_ptr : option Z; r_src : Z; r_out : list Z }.

Inductive rres := RCont (k : pc) (r : rstate) | ROk (eof : bool) (r : rstate) | RErr.

(** The output with [n] more bytes, each the one [-ofs] positions back. *)
Definition lz_copy (n : nat) (ofs : Z) (o : list Z) : list Z :=
  Nat.iter n (fun o => o ++ [default 0 (rd o (Z.of_nat (length o) + ofs))]) o.

Section Ref.

Context (info : decode_info) (comp : list Z).

Definition r_dst (r : rstate) : Z := Z.of_nat (length (r_out r)).

Definition ref_literal (r : rstate) : option rres :=
  if dst_stop info <=? r_dst r then Some (ROk false r)
  else if src_end info <=? r_src r then Some RErr
  else b ← rd comp (r_src r);
       Some (RCont Next (RState (r_bmask r) (r_ptr r) (r_src r + 1) (r_out r ++ [b]))).

Definition ref_match (r : rstate) : option rres :=
  if dst_stop info <=? r_dst r then Some (ROk (r_dst r =? dst_end info) r)
  else if src_end info - 1 <=? r_src r then Some RErr
  else
    w ← rd_le 2 comp (r_src r);
    let ofs := Z.lnot (Z.shiftr w DIRECT2_LEN_LOG) in
    l ← match_len info comp true (w .& DIRECT2_MAX_LEN) (r_ptr r) (r_src r + 2);
    match l with
    | None => Some RErr
    | Some (len, p, sp) =>
        if r_dst r + ofs <? 0 then Some RErr
        else if dst_stop info <? r_dst r + len
        then Some (ROk false (RState (r_bmask r) p sp
                     (lz_copy (Z.to_nat (dst_stop info - r_dst r)) ofs (r_out r))))
        else Some (RCont Next (RState (r_bmask r) p sp (lz_copy (Z.to_nat len) ofs (r_out r))))
    end.

Definition ref_tag (r : rstate) : option rres :=
  if src_end info - 3 <=? r_src r then Some RErr
  else
    w ← rd_le 4 comp (r_src r);
    let b := s32 w in
    let r := RState (s32 (s32 (b * 2) + 1)) (r_ptr r) (r_src r + 4) (r_out r) in
    if 0 <=? b then Some (RCont CopyByte r) else ref_match r.

Definition ref_next (r : rstate) : option rres :=
  let b := s32 (r_bmask r * 2) in
  let r' := RState b (r_ptr r) (r_src r) (r_out r) in
  if 0 <=? r_bmask r then ref_literal r'
  else if b =? 0 then ref_tag r' else ref_match r'.

Definition ref_step (k : pc) (r : rstate) : option rres :=
  match k with
  | Start => ref_tag r
  | CopyByte => ref_literal r
  | Next => ref_next r
  end.

Fixpoint ref_run (fuel : nat) (k : pc) (r : rstate) : option rres :=
  match fuel with
  | O => Some (RCont k r)
  | S fuel =>
      x ← ref_step k r;
      match x with
      | RCont k r => ref_run fuel k r
      | x => Some x
      end
  end.

(** The decoded bytes, and whether the end of the data was recognised. *)
Definition ref_decode : option (option (bool * list Z)) :=
  x ← ref_run (S (length comp)) Start (RState 0 None 0 []);
  match x with
  | ROk eof r => Some (Some (eof, r_out r))
  | RErr => Some None
  | RCont _ _ => None
  end.

End Ref.

(** ** Copies *)

Lemma lz_copy_S n ofs o :
  lz_copy (S n) ofs o = lz_copy n ofs (o ++ [default 0 (rd o (Z.of_nat (length o) + ofs))]).
Proof. unfold lz_copy. now rewrite Nat.iter_succ_r. Qed.

Lemma lz_copy_length n ofs o : length (lz_copy n ofs o) = (length o + n)%nat.
Proof.
  revert o. induction n as [|n IH]; intros o; [simpl; lia|]. rewrite lz_copy_S, IH, length_app.
  simpl. lia.
Qed.

(** A longer copy extends a shorter one. *)
Lemma lz_copy_prefix m n ofs o : (m <= n)%nat ->
  take (length o + m) (lz_copy n ofs o) = lz_copy m ofs o.
Proof.
  revert m o. induction n as [|n IH]; intros m o Hm.
  - replace m with 0%nat by lia. rewrite Nat.add_0_r. now apply take_ge.
  - destruct m as [|m].
    + rewrite lz_copy_S. replace (length o + 0)%nat with (length o) by lia.
      specialize (IH 0%nat (o ++ [default 0 (rd o (Z.of_nat (length o) + ofs))]) ltac:(lia)).
      apply (f_equal (take (length o))) in IH. rewrite take_take in IH.
      rewrite length_app in IH. cbn [length] in IH.
      replace (length o `min` (length o + 1 + 0))%nat with (length o) in IH by lia.
      rewrite IH. simpl. now rewrite take_app_length.
    + rewrite !lz_copy_S. rewrite <- (IH m) by lia. rewrite length_app. cbn [length].
      now replace (length o + 1 + m)%nat with (length o + S m)%nat by lia.
Qed.

Lemma copy_bytes_spec n : forall d s buf,
  0 <= s < d -> d + Z.of_nat n <= Z.of_nat (length buf) ->
  exists buf', copy_bytes n d s buf = Some buf' /\ length buf' = length buf
    /\ take (Z.to_nat d + n) buf' = lz_copy n (s - d) (take (Z.to_nat d) buf).
Proof.
  induction n as [|n IH]; intros d s buf Hs Hd.
  - exists buf. split_and!; [easy|easy|]. now rewrite Nat.add_0_r.
  - cbn [copy_bytes]. destruct (rd_Some buf s) as (b & Eb & El); [lia|]. rewrite Eb.
    cbn [mbind option_bind]. rewrite wr_Some by lia. cbn [mbind option_bind].
    destruct (IH (d + 1) (s + 1) (<[Z.to_nat d:=b]> buf)) as (buf' & E & Hl & Ht);
      [lia|rewrite length_insert; lia|].
    exists buf'. rewrite length_insert in Hl. split_and!; [easy|easy|].
    replace (Z.to_nat d + S n)%nat with (Z.to_nat (d + 1) + n)%nat by lia. rewrite Ht.
    replace (Z.to_nat (d + 1)) with (S (Z.to_nat d)) by lia.
    rewrite take_S_insert by lia. rewrite lz_copy_S. replace (s + 1 - (d + 1)) with (s - d) by lia.
    do 4 f_equal. rewrite length_take, rd_of_nat by lia.
    replace (Z.to_nat _) with (Z.to_nat s) by lia. rewrite lookup_take_lt by lia. now rewrite El.
Qed.

Lemma copy_bytes_add n m : forall d s buf,
  copy_bytes (n + m) d s buf =
  (copy_bytes n d s buf ≫= copy_bytes m (d + Z.of_nat n) (s + Z.of_nat n)).
Proof.
  induction n as [|n IH]; intros d s buf.
  - simpl. now rewrite !Z.add_0_r.
  - cbn [copy_bytes Nat.add]. destruct (rd buf s) as [b|]; cbn [mbind option_bind]; [|easy].
    destruct (wr buf d b) as [buf'|]; cbn [mbind option_bind]; [|easy]. rewrite IH.
    now replace (d + Z.of_nat (S n)) with (d + 1 + Z.of_nat n) by lia;
      replace (s + Z.of_nat (S n)) with (s + 1 + Z.of_nat n) by lia.
Qed.

Lemma copy_block_bytes fuel : forall len d s buf,
  0 < len -> (Z.to_nat len < fuel)%nat ->
  copy_block fuel len d s buf = copy_bytes (Z.to_nat len) d s buf.
Proof.
  induction fuel as [|fuel IH]; intros len d s buf Hl Hf; [lia|]. cbn [copy_block].
  destruct (Z.ltb_spec 8 len).
  - replace (Z.to_nat len) with (8 + Z.to_nat (len - 8))%nat by lia.
    rewrite copy_bytes_add. unfold COPY_8_BYTES.
    destruct (copy_bytes 8 d s buf) as [buf'|]; cbn [mbind option_bind]; [|easy].
    rewrite IH by lia. easy.
  - now rewrite (proj2 (Z.ltb_lt 0 len)) by lia.
Qed.

Lemma copy_block_spec len d s buf :
  0 < len -> 0 <= s < d -> d + len <= Z.of_nat (length buf) ->
  exists buf', COPY_BLOCK_SLOW d s len buf = Some buf' /\ length buf' = length buf
    /\ take (Z.to_nat (d + len)) buf' = lz_copy (Z.to_nat len) (s - d) (take (Z.to_nat d) buf).
Proof.
  intros Hl Hs Hd. unfold COPY_BLOCK_SLOW. rewrite copy_block_bytes by lia.
  replace (Z.to_nat (d + len)) with (Z.to_nat d + Z.to_nat len)%nat by lia.
  apply copy_bytes_spec; lia.
Qed.
