(* ===== verification/XpressSim.v ===== *)
(** * XpressSim: one step of the decoder simulates the reference *)

From S2P Require Import Prelude Xpress XpressRef.

(** ** The position of the sentinel in the tag word

    A tag word is loaded with a 1 shifted in at the bottom; [tagpos j b]: after
    [j] shifts the lowest set bit is bit [j].  The word is empty when the
    sentinel is shifted out, after 32 items. *)

Definition tagpos (j b : Z) : Prop := b mod 2 ^ (j + 1) = 2 ^ j.

Lemma s32_mod x j : 0 <= j <= 32 -> s32 x mod 2 ^ j = x mod 2 ^ j.
Proof.
  intros Hj. unfold wraps. replace (32 - 1) with 31 by lia.
  assert (E : forall y, (y mod 2 ^ 32) mod 2 ^ j = y mod 2 ^ j).
  { intros y. apply Z.mod_mod_divide.
    exists (2 ^ (32 - j)). rewrite <- Z.pow_add_r by lia. f_equal. lia. }
  rewrite Zminus_mod, E, <- Zminus_mod. f_equal. lia.
Qed.

Lemma tag_load b : tagpos 0 (s32 (s32 (b * 2) + 1)).
Proof.
  unfold tagpos. rewrite s32_mod by lia. change (2 ^ (0 + 1)) with 2.
  rewrite Zplus_mod. change 2 with (2 ^ 1) at 2. rewrite s32_mod by lia. change (2 ^ 1) with 2.
  now rewrite Z.mod_mul by lia.
Qed.

Lemma tag_shift j b : 0 <= j <= 30 -> tagpos j b -> tagpos (j + 1) (s32 (b * 2)).
Proof.
  intros Hj H. unfold tagpos in *. rewrite s32_mod by lia.
  rewrite (Z.pow_add_r 2 (j + 1) 1) by lia. change (2 ^ 1) with 2.
  pose proof (pow2_pos (j + 1) ltac:(lia)).
  rewrite Z.mul_mod_distr_r by lia. rewrite H, Z.pow_add_r by lia. lia.
Qed.

Lemma tag_nonneg j b : in_s 32 b -> 0 <= b -> 0 <= j <= 31 -> tagpos j b -> j <= 30.
Proof.
  intros Hb H0 Hj H. destruct (Z.eq_dec j 31) as [->|]; [|lia].
  unfold tagpos, in_s in *. change (2 ^ (31 + 1)) with 4294967296 in *.
  change (2 ^ (32 - 1)) with 2147483648 in *. change (2 ^ 31) with 2147483648 in *.
  rewrite Z.mod_small in H; lia.
Qed.

Lemma tag_nonzero j b : s32 (b * 2) <> 0 -> 0 <= j <= 31 -> tagpos j b -> j <= 30.
Proof.
  intros Hb Hj H. destruct (Z.eq_dec j 31) as [->|]; [|lia]. exfalso. apply Hb.
  unfold tagpos in H. change (2 ^ (31 + 1)) with 4294967296 in H. change (2 ^ 31) with 2147483648 in H.
  pose proof (Z.div_mod b 4294967296 ltac:(lia)) as E. rewrite H in E.
  unfold wraps. change (2 ^ (32 - 1)) with 2147483648. change (2 ^ 32) with 4294967296.
  replace (b * 2 + 2147483648) with (2147483648 + (2 * (b / 4294967296) + 1) * 4294967296) by lia.
  rewrite Z.mod_add by lia. reflexivity.
Qed.

Section Sim.

Context (info : decode_info) (comp : list Z).
Hypothesis Hcomp : bytes_ok comp.
Hypothesis Hend : src_end info = Z.of_nat (length comp).
Hypothesis Hdc : dst_careful info + RESERVE_DST <= dst_stop info \/ dst_careful info <= 0.
Hypothesis Hsc : src_careful info + RESERVE_SRC <= src_end info \/ src_careful info <= 0.

(** The state within its buffers. *)
Record base (s : xstate) : Prop := Base {
  base_out : Z.of_nat (length (out s)) = dst_stop info;
  base_dst : 0 <= dst s <= dst_stop info;
  base_src : 0 <= src s <= src_end info;
  base_ptr : forall p, ptr s = Some p -> 0 <= p < src_end info;
  base_bmask : in_s 32 (bmask s) }.

(** Room for the items of a tag word from item [i] on. *)
Record room (i : Z) (s : xstate) : Prop := Room {
  room_i : 0 <= i <= 32;
  room_dst : dst s < dst_careful info + 8 * i;
  room_src : src s < src_careful info + 4 + 6 * i;
  room_dst_stop : dst_careful info + 264 <= dst_stop info;
  room_src_end : src_careful info + 232 <= src_end info }.

Definition fast (k : pc) (s : xstate) : Prop :=
  match k with
  | Start => True
  | CopyByte => room 0 s /\ tagpos 0 (bmask s)
  | Next => exists j, j <= 31 /\ room (j + 1) s /\ 0 <= j /\ tagpos j (bmask s)
  end.

(** The reference state a state stands for. *)
Definition R_of (s : xstate) : rstate :=
  RState (bmask s) (ptr s) (src s) (take (Z.to_nat (dst s)) (out s)).

Lemma r_dst_of s : base s -> r_dst (R_of s) = dst s.
Proof.
  intros [Ho Hd _ _ _]. unfold r_dst. cbn [R_of r_out]. rewrite length_take. lia.
Qed.

Definition sim_res (src0 : Z) (x : option xres) (y : option rres) : Prop :=
  match x with
  | Some (Cont c k s) =>
      base s /\ (c = false -> fast k s) /\ src0 < src s /\ y = Some (RCont k (R_of s))
  | Some (RetOk eof s) => base s /\ dst s = dst_stop info /\ y = Some (ROk eof (R_of s))
  | Some (RetErr s) => base s /\ y = Some RErr
  | None => False
  end.

(** An item may be handled unchecked when there is room for it. *)
Definition item_ok (c : bool) (s : xstate) : Prop :=
  c = false -> exists i, i <= 31 /\ room i s /\ tagpos i (bmask s).

Lemma item_bounds c s : item_ok c s ->
  c && (dst_stop info <=? dst s) = (dst_stop info <=? dst s) /\
  c && (src_end info <=? src s) = (src_end info <=? src s) /\
  c && (src_end info - 1 <=? src s) = (src_end info - 1 <=? src s) /\
  (c = false -> dst s + 8 <= dst_stop info /\ src s + 6 <= src_end info).
Proof.
  intros H. destruct c; [split_and!; easy|]. destruct (H eq_refl) as (i & Hi & [? ? ? ? ?] & _).
  cbn [andb]. rewrite (proj2 (Z.leb_gt _ _)), (proj2 (Z.leb_gt (src_end info) _)),
    (proj2 (Z.leb_gt (src_end info - 1) _)) by lia. split_and!; [easy..|lia].
Qed.

(** The state after an item that fits. *)
Lemma fast_after c s s' : item_ok c s -> bmask s' = bmask s ->
  dst s' <= dst s + 8 -> src s' <= src s + 6 -> c = false -> fast Next s'.
Proof.
  intros H Eb Hd Hs E. destruct (H E) as (i & Hi & [? ? ? ? ?] & Ht). exists i.
  rewrite Eb. split_and!; [easy| |lia|easy]. split; lia.
Qed.

Lemma literal_sim c s : base s -> item_ok c s ->
  sim_res (src s) (literal info comp c s) (ref_literal info comp (R_of s)).
Proof.
  intros Hb Hi. destruct (item_bounds c s Hi) as (E1 & E2 & _ & Hroom).
  pose proof (r_dst_of s Hb) as Hr. unfold literal, ref_literal. rewrite E1, E2, Hr.
  destruct Hb as [Ho Hd Hs Hp Hm] eqn:EHb. cbn [R_of r_src].
  destruct (Z.leb_spec (dst_stop info) (dst s)); [cbn; split_and!; [easy|lia|easy]|].
  destruct (Z.leb_spec (src_end info) (src s)); [cbn; easy|].
  destruct (rd_Some comp (src s)) as (b & Eb & _); [lia|]. rewrite Eb. cbn [mbind option_bind].
  rewrite wr_Some by lia. cbn [mbind option_bind sim_res]. split_and!.
  - split; cbn [out dst src ptr bmask]; [now rewrite length_insert|lia|lia|easy|easy].
  - apply (fast_after c s); cbn [dst src bmask]; easy || lia.
  - cbn [src]. lia.
  - unfold R_of. cbn [out dst src ptr bmask r_bmask r_ptr r_out].
    replace (Z.to_nat (dst s + 1)) with (S (Z.to_nat (dst s))) by lia.
    now rewrite take_S_insert by lia.
Qed.

(** ** Matches *)

Lemma rd_byte l i b : bytes_ok l -> rd l i = Some b -> 0 <= b < 256.
Proof.
  intros Hl H. unfold rd in H. destruct (0 <=? i); [|easy]. exact (bytes_ok_lookup l _ b Hl H).
Qed.

(** What a parsed length promises. *)
Definition len_ok (sp : Z) (r : option (Z * option Z * Z)) : Prop :=
  match r with
  | None => True
  | Some (len, p, sp') =>
      3 <= len /\ sp <= sp' <= sp + 4 /\ sp' <= src_end info
      /\ forall q, p = Some q -> 0 <= q < src_end info
  end.

Lemma rd_comp i : 0 <= i < src_end info -> exists b, rd comp i = Some b /\ 0 <= b < 256.
Proof.
  intros Hi. destruct (rd_Some comp i) as (b & Eb & _); [lia|]. exists b. split; [easy|].
  now apply (rd_byte comp i).
Qed.

Lemma rd_le_comp n i : 0 <= i -> i + Z.of_nat n <= src_end info ->
  exists w, rd_le n comp i = Some w /\ 0 <= w < 2 ^ (8 * Z.of_nat n).
Proof.
  intros Hi Hn. rewrite rd_le_Some by lia. eexists. split; [easy|].
  pose proof (le_num_range (slice (Z.to_nat i) n comp) ltac:(auto with bytes)) as H.
  rewrite length_slice in H by lia. exact H.
Qed.

(** The part of [match_len] after the first nibble. *)
Definition long_len (c : bool) (len : Z) (p : option Z) (sp : Z) : option (option (Z * option Z * Z)) :=
  if len =? 15 then
    if c && (src_end info <=? sp) then Some None
    else
      len ← rd comp sp;
      if len =? 255 then
        if c && (src_end info - 1 <=? sp + 1) then Some None
        else
          len ← rd_le 2 comp (sp + 1);
          if len <? 255 + 15 + DIRECT2_MAX_LEN then Some None
          else Some (Some (len + MIN_MATCH, p, sp + 1 + 2))
      else Some (Some (len + 15 + (DIRECT2_MAX_LEN + MIN_MATCH), p, sp + 1))
  else Some (Some (len + (DIRECT2_MAX_LEN + MIN_MATCH), p, sp)).

Lemma match_len_long c p sp :
  match_len info comp c 7 p sp =
  match p with
  | None => if c && (src_end info <=? sp) then Some None
            else b ← rd comp sp; long_len c (b .& 15) (Some sp) (sp + 1)
  | Some q => b ← rd comp q; long_len c (Z.shiftr b 4) None sp
  end.
Proof.
  unfold match_len, long_len. change (7 =? DIRECT2_MAX_LEN) with true. cbv iota.
  destruct p as [q|]; [now destruct (rd comp q)|].
  destruct (c && _); [easy|]. now destruct (rd comp sp).
Qed.

Lemma long_len_sim c len p sp :
  0 <= len -> 0 <= sp <= src_end info -> (forall q, p = Some q -> 0 <= q < src_end info) ->
  (c = false -> sp + 3 <= src_end info) ->
  exists r, long_len c len p sp = Some r /\ long_len true len p sp = Some r
    /\ match r with None => True | Some (len, p, sp') =>
         3 <= len /\ sp <= sp' <= sp + 3 /\ sp' <= src_end info
         /\ forall q, p = Some q -> 0 <= q < src_end info end.
Proof.
  intros Hl Hsp Hp Hc. unfold long_len. change DIRECT2_MAX_LEN with 7. change MIN_MATCH with 3.
  destruct (len =? 15); [|eexists; split_and!; [easy..|cbn; split_and!; easy || lia]].
  replace (c && (src_end info <=? sp)) with (true && (src_end info <=? sp)).
  2:{ destruct c; [easy|]. specialize (Hc eq_refl). apply Z.leb_gt. lia. }
  destruct (Z.leb_spec (src_end info) sp); [now exists None|]. cbn [andb].
  destruct (rd_comp sp) as (b & -> & Hb); [lia|]. cbn [mbind option_bind].
  destruct (b =? 255); [|eexists; split_and!; [easy..|cbn; split_and!; easy || lia]].
  replace (c && (src_end info - 1 <=? sp + 1)) with (src_end info - 1 <=? sp + 1).
  2:{ destruct c; [easy|]. specialize (Hc eq_refl). apply Z.leb_gt. lia. }
  destruct (Z.leb_spec (src_end info - 1) (sp + 1)); [now exists None|].
  destruct (rd_le_comp 2 (sp + 1)) as (w & -> & Hw); [lia|lia|]. cbn [mbind option_bind].
  destruct (Z.ltb_spec w (255 + 15 + 7)); [now exists None|].
  eexists; split_and!; [easy..|cbn; split_and!; easy || lia].
Qed.

Lemma match_len_sim c len p sp :
  0 <= len <= 7 -> 0 <= sp <= src_end info -> (forall q, p = Some q -> 0 <= q < src_end info) ->
  (c = false -> sp + 4 <= src_end info) ->
  exists r, match_len info comp c len p sp = Some r /\ match_len info comp true len p sp = Some r
    /\ len_ok sp r.
Proof.
  intros Hl Hsp Hp Hc. destruct (Z.eq_dec len 7) as [->|Hne].
  2:{ unfold match_len. change DIRECT2_MAX_LEN with 7. rewrite (proj2 (Z.eqb_neq len 7)) by easy.
      change MIN_MATCH with 3. eexists; split_and!; [easy..|cbn; split_and!; easy || lia]. }
  rewrite !match_len_long. destruct p as [q|].
  - destruct (rd_comp q) as (b & -> & Hb); [now apply Hp|]. cbn [mbind option_bind].
    destruct (long_len_sim c (Z.shiftr b 4) None sp) as (r & E & E' & Hr);
      [apply Z.shiftr_nonneg; lia|easy|easy|intros; specialize (Hc H); lia|].
    exists r. split_and!; [easy..|]. destruct r as [[[? ?] ?]|]; [|easy].
    destruct Hr as (? & ? & ? & ?). cbn. split_and!; easy || lia.
  - replace (c && (src_end info <=? sp)) with (true && (src_end info <=? sp)).
    2:{ destruct c; [easy|]. specialize (Hc eq_refl). apply Z.leb_gt. lia. }
    destruct (Z.leb_spec (src_end info) sp); [now exists None|]. cbn [andb].
    destruct (rd_comp sp) as (b & -> & Hb); [lia|]. cbn [mbind option_bind].
    destruct (long_len_sim c (b .& 15) (Some sp) (sp + 1)) as (r & E & E' & Hr).
    + apply Z.land_nonneg. lia.
    + lia.
    + intros q [= <-]. lia.
    + intros E. specialize (Hc E). lia.
    + exists r. split_and!; [easy..|]. destruct r as [[[? ?] ?]|]; [|easy].
      destruct Hr as (? & ? & ? & ?). cbn. split_and!; easy || lia.
Qed.

(** The fields of a match word. *)
Lemma match_word w : 0 <= w < 2 ^ 16 ->
  0 <= w .& DIRECT2_MAX_LEN <= 7 /\ -8192 <= Z.lnot (Z.shiftr w DIRECT2_LEN_LOG) <= -1.
Proof.
  intros Hw. change DIRECT2_MAX_LEN with (Z.ones 3). rewrite Z.land_ones by lia.
  change DIRECT2_LEN_LOG with 3. rewrite Z.shiftr_div_pow2 by lia. change (2 ^ 3) with 8.
  pose proof (Z.mod_pos_bound w 8 ltac:(lia)). unfold Z.lnot.
  assert (0 <= w / 8) by (apply Z.div_pos; lia).
  assert (w / 8 < 8192) by (apply Z.div_lt_upper_bound; lia). lia.
Qed.

(** [r_out] of a copy. *)
Lemma R_of_copy b p sp d len sofs buf buf' :
  take (Z.to_nat (d + len)) buf' = lz_copy (Z.to_nat len) (d + sofs - d) (take (Z.to_nat d) buf) ->
  R_of (XState b p (d + len) sp buf') =
  RState b p sp (lz_copy (Z.to_nat len) sofs (take (Z.to_nat d) buf)).
Proof.
  intros H. unfold R_of. cbn [out dst src ptr bmask]. rewrite H.
  now replace (d + sofs - d) with sofs by lia.
Qed.

Lemma copy_match_sim c ofs len s src0 :
  base s -> dst s < dst_stop info -> ofs <= -1 -> 3 <= len -> src0 < src s ->
  (c = false -> exists i, i <= 31 /\ 0 <= i /\ tagpos i (bmask s) /\ src s < src_careful info + 4 + 6 * (i + 1)
     /\ dst_careful info + 264 <= dst_stop info /\ src_careful info + 232 <= src_end info) ->
  sim_res src0 (copy_match info c ofs len s)
    (if dst s + ofs <? 0 then Some RErr
     else if dst_stop info <? dst s + len
     then Some (ROk false (RState (bmask s) (ptr s) (src s)
            (lz_copy (Z.to_nat (dst_stop info - dst s)) ofs (take (Z.to_nat (dst s)) (out s)))))
     else Some (RCont Next (RState (bmask s) (ptr s) (src s)
            (lz_copy (Z.to_nat len) ofs (take (Z.to_nat (dst s)) (out s)))))).
Proof.
  intros Hb Hlt Hofs Hlen Hsrc Hc. unfold copy_match.
  pose proof Hb as [Ho Hd Hs Hp Hm].
  assert (Ec : (c || (dst_careful info <=? dst s + len)) && (dst_stop info <? dst s + len)
               = (dst_stop info <? dst s + len)).
  { destruct c; [easy|]. cbn [orb]. destruct (Z.leb_spec (dst_careful info) (dst s + len)); [easy|].
    destruct (Hc eq_refl) as (i & ? & ? & ? & ? & ? & ?). symmetry. apply Z.ltb_ge. lia. }
  rewrite Ec. destruct (Z.ltb_spec (dst s + ofs) 0).
  { destruct (dst_stop info <? dst s + len); cbn; easy. }
  destruct (Z.ltb_spec (dst_stop info) (dst s + len)).
  - destruct (copy_block_spec (dst_stop info - dst s) (dst s) (dst s + ofs) (out s))
      as (buf & -> & Hlb & Ht); [lia|lia|lia|]. cbn [mbind option_bind sim_res]. split_and!.
    + split; cbn [out dst src ptr bmask]; [now rewrite Hlb|lia|easy|easy|easy].
    + cbn [dst]. lia.
    + now rewrite (R_of_copy _ _ _ _ _ ofs (out s)).
  - destruct (copy_block_spec len (dst s) (dst s + ofs) (out s))
      as (buf & -> & Hlb & Ht); [lia|lia|lia|]. cbn [mbind option_bind sim_res]. split_and!.
    + split; cbn [out dst src ptr bmask]; [now rewrite Hlb|lia|easy|easy|easy].
    + intros E. apply orb_false_iff in E as [E1 E2]. apply Z.leb_gt in E2.
      destruct (Hc E1) as (i & ? & ? & ? & ? & ? & ?). exists i. cbn [bmask].
      split_and!; [easy| |easy|easy]. split; cbn [dst src]; lia.
    + easy.
    + now rewrite (R_of_copy _ _ _ _ _ ofs (out s)).
Qed.

(** The unchecked short match: eight bytes are copied, [len + 3] are kept. *)
Lemma short_match_sim len ofs s :
  base s -> 0 <= len <= 5 -> ofs <= -1 -> 0 <= dst s + ofs -> dst s + 8 <= dst_stop info ->
  exists buf, COPY_8_BYTES (dst s) (dst s + ofs) (out s) = Some buf /\ length buf = length (out s) /\
  take (Z.to_nat (dst s + (len + 3))) buf =
    lz_copy (Z.to_nat (len + 3)) (dst s + ofs - dst s) (take (Z.to_nat (dst s)) (out s)).
Proof.
  intros [Ho Hd _ _ _] Hl Hofs H0 H8.
  destruct (copy_bytes_spec 8 (dst s) (dst s + ofs) (out s)) as (buf & E & Hlb & Ht); [lia|lia|].
  exists buf. split_and!; [easy|easy|].
  rewrite <- (lz_copy_prefix _ 8) by lia. rewrite <- Ht, take_take, length_take. f_equal. lia.
Qed.

Lemma match_item_sim c s : base s -> item_ok c s ->
  sim_res (src s) (match_item info comp c s) (ref_match info comp (R_of s)).
Proof.
  intros Hb Hi. destruct (item_bounds c s Hi) as (E1 & _ & E2 & Hroom).
  pose proof (r_dst_of s Hb) as Hr. unfold match_item, ref_match. rewrite E1, E2, Hr.
  pose proof Hb as [Ho Hd Hs Hp Hm]. cbn [R_of r_src r_ptr r_bmask r_out].
  destruct (Z.leb_spec (dst_stop info) (dst s)); [cbn; split_and!; [easy|lia|easy]|].
  destruct (Z.leb_spec (src_end info - 1) (src s)); [cbn; easy|].
  destruct (rd_le_comp 2 (src s)) as (w & -> & Hw); [lia|lia|]. cbn [mbind option_bind].
  destruct (match_word w Hw) as [Hlen Hofs].
  set (len := w .& DIRECT2_MAX_LEN) in *. set (ofs := Z.lnot _) in *.
  destruct (match_len_sim c len (ptr s) (src s + 2)) as (r & El & El' & Hok);
    [easy|lia|easy|intros E; specialize (Hroom E); lia|].
  change (8 - MIN_MATCH) with 5. destruct (negb c && (len <=? 5)) eqn:Eshort.
  - apply andb_true_iff in Eshort as [Ec E5]. apply negb_true_iff in Ec. apply Z.leb_le in E5.
    specialize (Hroom Ec). unfold match_len in El'. change DIRECT2_MAX_LEN with 7 in El' at 1.
    rewrite (proj2 (Z.eqb_neq len 7)) in El' by lia. injection El' as <-.
    unfold match_len. change (DIRECT2_MAX_LEN) with 7 at 1.
    rewrite (proj2 (Z.eqb_neq len 7)) by lia. cbn [mbind option_bind]. change MIN_MATCH with 3.
    destruct (Z.ltb_spec (dst s + ofs) 0); [cbn; easy|].
    destruct (short_match_sim len ofs s) as (buf & -> & Hlb & Ht); [easy|lia|lia|lia|lia|].
    rewrite (proj2 (Z.ltb_ge (dst_stop info) _)) by lia. cbn [mbind option_bind sim_res]. split_and!.
    + split; cbn [out dst src ptr bmask]; [now rewrite Hlb|lia|lia|easy|easy].
    + apply (fast_after c s); cbn [dst src bmask]; easy || lia.
    + cbn [src]. lia.
    + now rewrite (R_of_copy _ _ _ _ _ ofs (out s)).
  - rewrite El, El'. cbn [mbind option_bind]. destruct r as [[[len' p'] sp']|]; [|cbn; easy].
    destruct Hok as (Hl3 & Hsp & Hse & Hp').
    apply (copy_match_sim c ofs len' (XState (bmask s) p' (dst s) sp' (out s)) (src s));
      cbn [out dst src ptr bmask]; [|easy|lia|easy|lia|].
    + split; cbn [out dst src ptr bmask]; easy || lia.
    + intros E. destruct (Hi E) as (i & ? & [? ? ? ? ?] & ?). exists i. split_and!; easy || lia.
Qed.

Lemma load_tag_sim c s : base s ->
  sim_res (src s) (load_tag info comp c s) (ref_tag info comp (R_of s)).
Proof.
  intros Hb. pose proof Hb as [Ho Hd Hs Hp Hm]. unfold load_tag, ref_tag. cbn [R_of r_src r_ptr r_out].
  set (c' := c || _).
  assert (Ec : c' && (src_end info - 3 <=? src s) = (src_end info - 3 <=? src s)).
  { destruct c' eqn:E; [easy|]. unfold c' in E. apply orb_false_iff in E as [_ E].
    apply orb_false_iff in E as [E _]. apply Z.leb_gt in E. symmetry. apply Z.leb_gt.
    unfold RESERVE_SRC, sizeof_tag_t in Hsc. lia. }
  rewrite Ec. destruct (Z.leb_spec (src_end info - 3) (src s)); [cbn; easy|].
  destruct (rd_le_comp 4 (src s)) as (w & -> & Hw); [lia|lia|]. cbn [mbind option_bind].
  change sizeof_tag_t with 4.
  set (s' := XState (s32 (s32 (s32 w * 2) + 1)) (ptr s) (dst s) (src s + 4) (out s)).
  assert (Hb' : base s').
  { split; cbn [s' out dst src ptr bmask]; [easy|easy|lia|easy|now apply wraps_range]. }
  assert (Hi : item_ok c' s').
  { intros E. exists 0. unfold c' in E. apply orb_false_iff in E as [_ E].
    apply orb_false_iff in E as [E1 E2]. apply Z.leb_gt in E1, E2.
    unfold RESERVE_SRC, RESERVE_DST, sizeof_tag_t in Hsc, Hdc.
    split_and!; [easy| |apply tag_load]. split; cbn [s' dst src]; lia. }
  change (RState _ _ _ _) with (R_of s').
  assert (Hsrc : src s < src s') by (cbn [s' src]; lia).
  destruct (0 <=? s32 w).
  - cbn [sim_res]. split_and!; [easy| |easy|easy].
    intros E. destruct (Hi E) as (i & Hi31 & [? ? ? ? ?] & Ht). cbn [fast]. split; [|apply tag_load].
    unfold c' in E. apply orb_false_iff in E as [_ E].
    apply orb_false_iff in E as [E1 E2]. apply Z.leb_gt in E1, E2.
    split; cbn [s' dst src] in *; lia.
  - pose proof (match_item_sim c' s' Hb' Hi) as H'.
    destruct (match_item info comp c' s') as [[c1 k1 s1|e1 s1|s1]|]; cbn [sim_res] in *;
      [destruct H' as (? & ? & ? & ?); split_and!; easy || lia|easy..].
Qed.

Lemma next_item_sim c s : base s -> (c = false -> fast Next s) ->
  sim_res (src s) (next_item info comp c s) (ref_next info comp (R_of s)).
Proof.
  intros Hb Hf. pose proof Hb as [Ho Hd Hs Hp Hm]. unfold next_item, ref_next.
  cbn [R_of r_bmask r_src r_ptr r_out].
  set (s' := XState (s32 (bmask s * 2)) (ptr s) (dst s) (src s) (out s)).
  assert (Hb' : base s').
  { split; cbn [s' out dst src ptr bmask]; [easy..|now apply wraps_range]. }
  change (RState _ _ _ _) with (R_of s').
  assert (Hi : 0 <= bmask s \/ s32 (bmask s * 2) <> 0 -> item_ok c s').
  { intros Hne E. destruct (Hf E) as (j & Hj & [? ? ? ? ?] & Hj0 & Ht). exists (j + 1).
    assert (j <= 30) by
      (destruct Hne; [now apply (tag_nonneg j (bmask s))|now apply (tag_nonzero j (bmask s))]).
    split_and!; [lia| |now apply tag_shift]. split; cbn [s' dst src]; lia. }
  change (src s) with (src s').
  destruct (Z.leb_spec 0 (bmask s)); [now apply literal_sim; [|apply Hi; left]|].
  destruct (Z.eqb_spec (s32 (bmask s * 2)) 0); [now apply load_tag_sim|].
  now apply match_item_sim; [|apply Hi; right].
Qed.

Lemma xstep_sim c k s : base s -> (c = false -> fast k s) ->
  sim_res (src s) (xstep info comp c k s) (ref_step info comp k (R_of s)).
Proof.
  intros Hb Hf. destruct k; cbn [xstep ref_step].
  - now apply load_tag_sim.
  - apply literal_sim; [easy|]. intros E. destruct (Hf E) as [? ?]. now exists 0.
  - now apply next_item_sim.
Qed.

(** A run: it ends within the input, and as the reference ends. *)
Lemma xrun_sim fuel : forall c k s, base s -> (c = false -> fast k s) ->
  src_end info - src s < Z.of_nat fuel ->
  match xrun info comp fuel c k s with
  | Some (RetOk eof s') =>
      base s' /\ dst s' = dst_stop info /\ ref_run info comp fuel k (R_of s) = Some (ROk eof (R_of s'))
  | Some (RetErr s') => base s' /\ ref_run info comp fuel k (R_of s) = Some RErr
  | _ => False
  end.
Proof.
  induction fuel as [|fuel IH]; intros c k s Hb Hf Hfuel.
  - destruct Hb. lia.
  - cbn [xrun ref_run]. pose proof (xstep_sim c k s Hb Hf) as H.
    destruct (xstep info comp c k s) as [[c1 k1 s1|e1 s1|s1]|]; cbn [sim_res mbind option_bind] in *.
    + destruct H as (Hb1 & Hf1 & Hs1 & E). rewrite E. cbn [mbind option_bind].
      apply IH; [easy|easy|lia].
    + destruct H as (Hb1 & Hd1 & E). rewrite E. easy.
    + destruct H as (Hb1 & E). rewrite E. easy.
    + easy.
Qed.

End Sim.
