(* ===== verification/XpressSpec.v ===== *)
(** * XpressSpec: what [XpressDecode] returns *)

From S2P Require Import Prelude Xpress XpressRef XpressSim.

(** The reference decoder at the sizes of a call; it has no reserves. *)
Definition xpress_ref (comp : list Z) (orig_size decode_size : Z) : option (option (bool * list Z)) :=
  ref_decode (DecodeInfo orig_size 0 decode_size (Z.of_nat (length comp)) 0) comp.

(** The sizes [XpressDecode] does not answer at once. *)
Definition sizes_ok (orig_size decode_size comp_size : Z) : bool :=
  (comp_size <? orig_size) && (MIN_SIZE <=? comp_size) && (MIN_SIZE <? orig_size)
  && (orig_size <=? BUFF_SIZE) && (0 <? decode_size) && (decode_size <=? orig_size).

Section Call.

Context (stream addr : Z) (orig comp : list Z) (orig_size decode_size : Z).
Hypothesis Hcomp : bytes_ok comp.
Hypothesis Haddr : stream <= addr.
Hypothesis Horig : Z.of_nat (length orig) = decode_size.
Hypothesis Hsizes : sizes_ok orig_size decode_size (Z.of_nat (length comp)) = true.

Let info := decode_info_of stream addr orig_size decode_size (Z.of_nat (length comp)).

Lemma call_bounds : Z.of_nat (length comp) < orig_size /\ 8 <= Z.of_nat (length comp)
  /\ 8 < orig_size <= 65536 /\ 0 < decode_size <= orig_size.
Proof.
  unfold sizes_ok in Hsizes. change MIN_SIZE with 8 in Hsizes. change BUFF_SIZE with 65536 in Hsizes.
  bool_to_prop. lia.
Qed.

Lemma call_run : exists r, do_decode info comp orig = Some r /\
  match r with
  | RetOk eof s => length (out s) = length orig /\ dst s = decode_size /\ src s <= Z.of_nat (length comp)
                   /\ xpress_ref comp orig_size decode_size = Some (Some (eof, out s))
  | RetErr s => length (out s) = length orig /\ xpress_ref comp orig_size decode_size = Some None
  | Cont _ _ _ => False
  end.
Proof.
  pose proof call_bounds. unfold do_decode.
  assert (Hdc : dst_careful info + RESERVE_DST <= dst_stop info \/ dst_careful info <= 0).
  { unfold info, decode_info_of. cbn [dst_careful dst_stop]. destruct (_ <? _); lia. }
  assert (Hsc : src_careful info + RESERVE_SRC <= src_end info \/ src_careful info <= 0).
  { unfold info, decode_info_of. cbn [src_careful src_end]. destruct (_ <? _); lia. }
  assert (Hb : base info (XState 0 None 0 0 orig)).
  { split; cbn [out dst src ptr bmask]; unfold info, decode_info_of; cbn [dst_stop src_end];
      [easy|lia|lia|easy|]. unfold in_s. change (2 ^ (32 - 1)) with 2147483648. lia. }
  pose proof (xrun_sim info comp Hcomp eq_refl Hdc Hsc (S (length comp)) false Start _ Hb
                (fun _ => I) ltac:(cbn; lia)) as Hrun.
  change (R_of (XState 0 None 0 0 orig)) with (RState 0 None 0 []) in Hrun.
  assert (Href : xpress_ref comp orig_size decode_size = ref_decode info comp) by reflexivity.
  rewrite Href. unfold ref_decode.
  destruct (xrun info comp (S (length comp)) false Start (XState 0 None 0 0 orig))
    as [[c k s|eof s|s]|]; [easy| | |easy].
  - destruct Hrun as ([Ho Hd Hs Hp Hm] & Hstop & E). eexists. split; [easy|]. cbn in Ho, Hs, Hstop.
    split_and!; [lia|easy|lia|]. rewrite E. cbn [mbind option_bind R_of r_out].
    rewrite take_ge by lia. easy.
  - destruct Hrun as ([Ho Hd Hs Hp Hm] & E). eexists. split; [easy|]. cbn in Ho.
    split; [lia|]. rewrite E. easy.
Qed.

Lemma decode_result : exists ret buf,
  XpressDecode stream addr orig orig_size decode_size comp (Z.of_nat (length comp)) = Some (ret, buf) /\
  length buf = length orig /\
  match xpress_ref comp orig_size decode_size with
  | Some (Some (eof, o)) =>
      if (decode_size =? orig_size) && negb eof then ret = -1 else ret = decode_size /\ buf = o
  | Some None => ret = -1
  | None => False
  end.
Proof.
  pose proof call_bounds as Hbd. destruct call_run as (r & E & Hr).
  unfold XpressDecode. rewrite (proj2 (Z.ltb_ge orig_size decode_size)) by lia.
  rewrite (proj2 (Z.eqb_neq (Z.of_nat (length comp)) orig_size)),
    (proj2 (Z.eqb_neq decode_size 0)) by lia. cbn [orb].
  change MIN_SIZE with 8. change BUFF_SIZE with 65536.
  rewrite (proj2 (Z.ltb_ge orig_size (Z.of_nat (length comp)))),
    (proj2 (Z.ltb_ge (Z.of_nat (length comp)) 0)), (proj2 (Z.leb_gt orig_size 8)),
    (proj2 (Z.ltb_ge (Z.of_nat (length comp)) 8)), (proj2 (Z.ltb_ge 65536 orig_size)),
    (proj2 (Z.ltb_ge decode_size 0)) by lia. cbn [orb].
  fold info. rewrite E. cbn [mbind option_bind]. destruct r as [?|eof s|s]; [easy| |].
  - destruct Hr as (Hl & Hd & Hs & ->). unfold info, decode_info_of. cbn [dst_stop src_end dst_end].
    rewrite (proj2 (Z.ltb_ge decode_size (dst s))), (proj2 (Z.ltb_ge (Z.of_nat (length comp)) (src s)))
      by lia. cbn [orb].
    destruct ((decode_size =? orig_size) && negb eof); eexists _, _; split_and!; easy.
  - destruct Hr as (Hl & ->). eexists _, _; split_and!; easy.
Qed.

End Call.


(** A stream: the letters 1 2 3, a match of length 7 three bytes back, a long
    match through a nibble, end of data; bits [0001 1 1...]. *)
Definition sample_stream : list Z :=
  [0; 0; 0; 0x1c; 1; 2; 3; 0x14; 0; 0x17; 0; 0x05; 0; 0].

Example sample_decoded :
  xpress_ref sample_stream 25 25 = Some (Some (true, [1;2;3;1;2;3;1;2;3;1;2;3;1;2;3;1;2;3;1;2;3;1;2;3;1])).
Proof. vm_compute. reflexivity. Qed.

