(* ===== verification/PtrCache.v ===== *)
(** * PtrCache: the lock-free pointer cache and the object pool
      (collection.hxx, [GetCachedPtr], [FCachePtr], [ObjectPool])

    A cache is an array of pointers, 0 for an empty slot.  A thread starts at
    the slot of its processor and tries every slot once, with an atomic
    exchange to take a pointer out and an atomic compare-exchange to put one in.
    First the two loops as functions, for a thread that runs alone, then the
    interleavings of any number of threads as a step relation. *)

From stdpp Require Import relations.
From S2P Require Import Prelude.

(** ** The loops *)

(** [AtomicExchangePointer( &array[index], 0 )] and
    [AtomicCompareExchangePointer( &array[index], 0, ptr )]: the old value and
    the array after the operation. *)
Definition xchg0 (array : list Z) (index : Z) : option (Z * list Z) :=
  p ← rd array index; array' ← wr array index 0; Some (p, array').

Definition cmpxchg0 (array : list Z) (index p : Z) : option (Z * list Z) :=
  old ← rd array index;
  if old =? 0 then array' ← wr array index p; Some (old, array') else Some (old, array).

Fixpoint get_loop (fuel : nat) (startIndex index arraySize : Z) (array : list Z) : option (Z * list Z) :=
  match fuel with
  | O => None
  | S fuel =>
      '(p, array) ← xchg0 array index;
      if negb (p =? 0) then Some (p, array)
      else
        let index := cmod (index + 1) arraySize in
        if startIndex =? index then Some (0, array)
        else get_loop fuel startIndex index arraySize array
  end.

Definition GetCachedPtr (iproc : Z) (array : list Z) (arraySize : Z) : option (Z * list Z) :=
  let startIndex := cmod iproc arraySize in
  get_loop (Z.to_nat arraySize) startIndex startIndex arraySize array.

Fixpoint cache_loop (fuel : nat) (startIndex index arraySize p : Z) (array : list Z) : option (bool * list Z) :=
  match fuel with
  | O => None
  | S fuel =>
      '(old, array) ← cmpxchg0 array index p;
      if old =? 0 then Some (true, array)
      else
        let index := cmod (index + 1) arraySize in
        if startIndex =? index then Some (false, array)
        else cache_loop fuel startIndex index arraySize p array
  end.

Definition FCachePtr (iproc p : Z) (array : list Z) (arraySize : Z) : option (bool * list Z) :=
  let startIndex := cmod iproc arraySize in
  cache_loop (Z.to_nat arraySize) startIndex startIndex arraySize p array.

(** ** The loops visit every slot once *)

Section Loops.

Context (iproc n : Z).
Hypothesis Hn : 0 < n.
Hypothesis Hproc : 0 <= iproc.

Let st := iproc mod n.

(** The slot of round [k]. *)
Let slot (k : Z) : Z := (st + k) mod n.

Lemma cmod_start : cmod iproc n = st.
Proof. unfold cmod. apply Z.rem_mod_nonneg; lia. Qed.

Lemma slot_range k : 0 <= slot k < n.
Proof. apply Z.mod_pos_bound. lia. Qed.

Lemma slot_0 : slot 0 = st.
Proof. unfold slot, st. rewrite Z.add_0_r. apply Z.mod_mod. lia. Qed.

Lemma slot_succ k : cmod (slot k + 1) n = slot (k + 1).
Proof.
  pose proof (slot_range k). unfold cmod. rewrite Z.rem_mod_nonneg by lia. unfold slot.
  rewrite Zplus_mod_idemp_l. f_equal. lia.
Qed.

(** The loop is back at its start exactly after [n] rounds. *)
Lemma slot_start k : 0 < k <= n -> (st =? slot k) = (k =? n).
Proof.
  intros Hk. destruct (Z.eqb_spec k n) as [->|Hne].
  - apply Z.eqb_eq. unfold slot. replace (st + n) with (st + 1 * n) by lia.
    rewrite Z.mod_add by lia. symmetry. apply Z.mod_small, Z.mod_pos_bound. lia.
  - apply Z.eqb_neq. intros E. assert (Hst : 0 <= st < n) by (apply Z.mod_pos_bound; lia).
    unfold slot in E. destruct (Z.lt_ge_cases (st + k) n).
    + rewrite Z.mod_small in E by lia. lia.
    + replace (st + k) with (st + k - n + 1 * n) in E by lia.
      rewrite Z.mod_add, Z.mod_small in E by lia. lia.
Qed.

Lemma slot_all i : 0 <= i < n -> exists k, 0 <= k < n /\ slot k = i.
Proof.
  intros Hi. exists ((i - st) mod n). split; [apply Z.mod_pos_bound; lia|].
  unfold slot. rewrite Zplus_mod_idemp_r. replace (st + (i - st)) with i by lia.
  apply Z.mod_small. lia.
Qed.

Lemma get_loop_spec (array : list Z) (Hlen : Z.of_nat (length array) = n) fuel : forall k,
  (0 <= k < n) -> Z.of_nat fuel = n - k ->
  (forall j, 0 <= j < k -> rd array (slot j) = Some 0) ->
  exists p array', get_loop fuel st (slot k) n array = Some (p, array') /\
  (p = 0 /\ array' = array /\ (forall i, 0 <= i < n -> rd array i = Some 0) \/
   p <> 0 /\ exists i, 0 <= i < n /\ rd array i = Some p /\ array' = <[Z.to_nat i := 0]> array).
Proof.
  induction fuel as [|fuel IH]; intros k Hk Hf Hz; [lia|]. cbn [get_loop]. unfold xchg0.
  pose proof (slot_range k) as Hs. destruct (rd_Some array (slot k)) as (p & Ep & Elp); [lia|].
  rewrite Ep. cbn [mbind option_bind]. rewrite wr_Some by lia. cbn [mbind option_bind].
  destruct (Z.eqb_spec p 0) as [->|Hp]; cbn [negb].
  2:{ eexists _, _. split; [easy|]. right. split; [easy|]. now exists (slot k). }
  assert (Eid : <[Z.to_nat (slot k):=0]> array = array) by now apply list_insert_id.
  rewrite Eid, slot_succ. rewrite slot_start by lia.
  assert (Hz' : forall j, 0 <= j < k + 1 -> rd array (slot j) = Some 0).
  { intros j Hj. destruct (Z.eq_dec j k) as [->|]; [easy|]. apply Hz. lia. }
  destruct (Z.eqb_spec (k + 1) n) as [E|].
  - eexists _, _. split; [easy|]. left. split_and!; [easy|easy|]. intros i Hi.
    destruct (slot_all i Hi) as (j & Hj & <-). apply Hz'. lia.
  - apply IH; [lia|lia|easy].
Qed.

Lemma cache_loop_spec p (array : list Z) (Hlen : Z.of_nat (length array) = n) fuel : forall k,
  (0 <= k < n) -> Z.of_nat fuel = n - k ->
  (forall j, 0 <= j < k -> rd array (slot j) <> Some 0) ->
  exists f array', cache_loop fuel st (slot k) n p array = Some (f, array') /\
  (f = false /\ array' = array /\ (forall i, 0 <= i < n -> rd array i <> Some 0) \/
   f = true /\ exists i, 0 <= i < n /\ rd array i = Some 0 /\ array' = <[Z.to_nat i := p]> array).
Proof.
  induction fuel as [|fuel IH]; intros k Hk Hf Hz; [lia|]. cbn [cache_loop]. unfold cmpxchg0.
  pose proof (slot_range k) as Hs. destruct (rd_Some array (slot k)) as (q & Eq & _); [lia|].
  rewrite Eq. cbn [mbind option_bind]. destruct (Z.eqb_spec q 0) as [->|Hq].
  { rewrite wr_Some by lia. cbn [mbind option_bind]. change (0 =? 0) with true. cbv iota.
    eexists _, _. split; [easy|]. right. split; [easy|]. now exists (slot k). }
  cbn [mbind option_bind]. rewrite (proj2 (Z.eqb_neq q 0)) by easy.
  rewrite slot_succ. rewrite slot_start by lia.
  assert (Hz' : forall j, 0 <= j < k + 1 -> rd array (slot j) <> Some 0).
  { intros j Hj. destruct (Z.eq_dec j k) as [->|]; [congruence|]. apply Hz. lia. }
  destruct (Z.eqb_spec (k + 1) n) as [E|].
  - eexists _, _. split; [easy|]. left. split_and!; [easy|easy|]. intros i Hi.
    destruct (slot_all i Hi) as (j & Hj & <-). apply Hz'. lia.
  - apply IH; [lia|lia|easy].
Qed.

End Loops.

Lemma GetCachedPtr_spec iproc array n :
  0 <= iproc -> 0 < n -> Z.of_nat (length array) = n ->
  exists p array', GetCachedPtr iproc array n = Some (p, array') /\
  (p = 0 /\ array' = array /\ (forall i, 0 <= i < n -> rd array i = Some 0) \/
   p <> 0 /\ exists i, 0 <= i < n /\ rd array i = Some p /\ array' = <[Z.to_nat i := 0]> array).
Proof.
  intros Hp Hn Hl. unfold GetCachedPtr. rewrite cmod_start by easy.
  pose proof (get_loop_spec iproc n Hn array Hl (Z.to_nat n) 0) as H.
  cbv beta zeta in H. rewrite slot_0 in H by easy. apply H; lia.
Qed.

Lemma FCachePtr_spec iproc p array n :
  0 <= iproc -> 0 < n -> Z.of_nat (length array) = n ->
  exists f array', FCachePtr iproc p array n = Some (f, array') /\
  (f = false /\ array' = array /\ (forall i, 0 <= i < n -> rd array i <> Some 0) \/
   f = true /\ exists i, 0 <= i < n /\ rd array i = Some 0 /\ array' = <[Z.to_nat i := p]> array).
Proof.
  intros Hp Hn Hl. unfold FCachePtr. rewrite cmod_start by easy.
  pose proof (cache_loop_spec iproc n Hn p array Hl (Z.to_nat n) 0) as H.
  cbv beta zeta in H. rewrite slot_0 in H by easy. apply H; lia.
Qed.

(** ** Interleavings

    A thread between two atomic operations: idle, looking for a pointer, with a
    pointer it got ([TGot 0] when the cache was empty), putting a pointer in, or
    with a pointer that found no slot. *)

Inductive tstate :=
  | TIdle
  | TGet (startIndex index : Z)
  | TGot (p : Z)
  | TCache (p startIndex index : Z)
  | TFull (p : Z).

Record system := System { slots : list Z; threads : list tstate }.

(** One atomic operation of one thread, on [n] slots. *)
Inductive tstep (n : Z) : list Z -> tstate -> list Z -> tstate -> Prop :=
  | step_begin_get array iproc : 0 <= iproc ->
      tstep n array TIdle array (TGet (cmod iproc n) (cmod iproc n))
  | step_get_found array st i p array' :
      xchg0 array i = Some (p, array') -> p <> 0 ->
      tstep n array (TGet st i) array' (TGot p)
  | step_get_end array st i array' :
      xchg0 array i = Some (0, array') -> st = cmod (i + 1) n ->
      tstep n array (TGet st i) array' (TGot 0)
  | step_get_next array st i array' :
      xchg0 array i = Some (0, array') -> st <> cmod (i + 1) n ->
      tstep n array (TGet st i) array' (TGet st (cmod (i + 1) n))
  | step_begin_cache array p iproc : 0 <= iproc -> p <> 0 ->
      tstep n array (TGot p) array (TCache p (cmod iproc n) (cmod iproc n))
  | step_cache_done array p st i array' :
      cmpxchg0 array i p = Some (0, array') ->
      tstep n array (TCache p st i) array' TIdle
  | step_cache_end array p st i old array' :
      cmpxchg0 array i p = Some (old, array') -> old <> 0 -> st = cmod (i + 1) n ->
      tstep n array (TCache p st i) array' (TFull p)
  | step_cache_next array p st i old array' :
      cmpxchg0 array i p = Some (old, array') -> old <> 0 -> st <> cmod (i + 1) n ->
      tstep n array (TCache p st i) array' (TCache p st (cmod (i + 1) n))
  | step_give_up array : tstep n array (TGot 0) array TIdle.

Inductive sysstep (n : Z) : system -> system -> Prop :=
  | sys_thread array array' ts t (i : nat) t' :
      ts !! i = Some t -> tstep n array t array' t' ->
      sysstep n (System array ts) (System array' (<[i := t']> ts)).

(** The pointers of a list of slots, and of a thread. *)
Definition nonzero (l : list Z) : list Z := filter (fun p => p <> 0) l.

Definition held (t : tstate) : list Z :=
  nonzero match t with TIdle | TGet _ _ => [] | TGot p | TCache p _ _ | TFull p => [p] end.

(** Every pointer of the system, once per place it is held in. *)
Definition owned (s : system) : list Z := nonzero (slots s) ++ concat (map held (threads s)).

Lemma nonzero_insert array i p q : array !! i = Some p ->
  nonzero [p] ++ nonzero (<[i := q]> array) ≡ₚ nonzero [q] ++ nonzero array.
Proof.
  intros H. unfold nonzero. rewrite <- !list.filter_app. apply filter_Permutation.
  rewrite (insert_take_drop array i q) by exact (lookup_lt_Some _ _ _ H).
  rewrite <- (take_drop_middle array i p H) at 3. simpl.
  rewrite <- !Permutation_middle. apply Permutation_swap.
Qed.

Lemma rd_lookup {A} (l : list A) i x : rd l i = Some x -> l !! Z.to_nat i = Some x.
Proof. unfold rd. now destruct (0 <=? i). Qed.

Lemma tstep_owned n array t array' t' : tstep n array t array' t' ->
  nonzero array' ++ held t' ≡ₚ nonzero array ++ held t.
Proof.
  assert (Hx : forall array i p array', xchg0 array i = Some (p, array') ->
            nonzero [p] ++ nonzero array' ≡ₚ nonzero array).
  { intros a i p a' H. unfold xchg0 in H. destruct (rd a i) as [q|] eqn:Er; [|easy].
    simpl in H. destruct (wr a i 0) as [b|] eqn:Ew; [|easy]. simpl in H. injection H as <- <-.
    apply wr_inv in Ew as [_ ->]. apply rd_lookup in Er. now apply nonzero_insert. }
  assert (Hc : forall array i p old array', cmpxchg0 array i p = Some (old, array') ->
            (old = 0 -> nonzero array' ≡ₚ nonzero [p] ++ nonzero array) /\ (old <> 0 -> array' = array)).
  { intros a i p old a' H. unfold cmpxchg0 in H. destruct (rd a i) as [q|] eqn:Er; [|easy].
    simpl in H. destruct (Z.eqb_spec q 0) as [->|]; simpl in H.
    - destruct (wr a i p) as [b|] eqn:Ew; [|easy]. simpl in H. injection H as <- <-.
      apply wr_inv in Ew as [_ ->]. apply rd_lookup in Er.
      split; [intros _; now apply (nonzero_insert a _ 0 p)|easy].
    - injection H as <- <-. now split. }
  destruct 1 as [| ? ? ? ? ? H| ? ? ? ? H| ? ? ? ? H| | ? ? ? ? ? H| ? ? ? ? ? ? H Hne| ? ? ? ? ? ? H Hne|];
    cbn [held]; try easy.
  - apply Hx in H. rewrite <- H. now rewrite app_nil_r, Permutation_app_comm.
  - apply Hx in H. rewrite <- H. easy.
  - apply Hx in H. rewrite <- H. easy.
  - destruct (Hc _ _ _ _ _ H) as [H0 _]. rewrite H0 by easy. now rewrite app_nil_r, Permutation_app_comm.
  - destruct (Hc _ _ _ _ _ H) as [_ H1]. now rewrite H1.
  - destruct (Hc _ _ _ _ _ H) as [_ H1]. now rewrite H1.
Qed.

Lemma concat_held_insert (ts : list tstate) i t t' : ts !! i = Some t ->
  held t ++ concat (map held (<[i := t']> ts)) ≡ₚ held t' ++ concat (map held ts).
Proof.
  intros H. rewrite (insert_take_drop ts i t') by exact (lookup_lt_Some _ _ _ H).
  rewrite <- (take_drop_middle ts i t H) at 3.
  rewrite !map_app, !concat_app. cbn [map concat].
  generalize (concat (map held (take i ts))), (concat (map held (drop (S i) ts))). intros A R.
  rewrite (Permutation_app_swap_app A (held t') R), (Permutation_app_swap_app A (held t) R).
  apply Permutation_app_swap_app.
Qed.

Lemma sysstep_owned n s s' : sysstep n s s' -> owned s' ≡ₚ owned s.
Proof.
  destruct 1 as [array array' ts t i t' Hi Hs]. unfold owned. cbn [slots threads].
  apply tstep_owned in Hs. apply (Permutation_app_inv_l (held t)).
  rewrite (Permutation_app_swap_app (held t) (nonzero array')), (concat_held_insert ts i t t' Hi).
  rewrite app_assoc, Hs, <- app_assoc. apply Permutation_app_swap_app.
Qed.

(** C36: Under any interleaving of any number of threads that take pointers from
    the cache and put pointers back, no pointer is lost and none is duplicated:
    the pointers in the slots and in the hands of the threads stay the same,
    counted with multiplicity. *)
Theorem cache_conserves_pointers n s s' : rtc (sysstep n) s s' -> owned s' ≡ₚ owned s.
Proof.
  induction 1 as [|s1 s2 s3 H12 _ IH]; [easy|]. rewrite IH. now apply (sysstep_owned n).
Qed.

Lemma cache_conserves_pointers_witness :
  owned (System [0; 0] [TGot 5; TGot 7]) ≡ₚ owned (System [7; 5] [TIdle; TIdle]).
Proof.
  apply (cache_conserves_pointers 2).
  assert (H1 : sysstep 2 (System [7; 5] [TIdle; TIdle]) (System [7; 5] [TGet 1 1; TIdle]))
    by exact (sys_thread 2 _ _ [TIdle; TIdle] TIdle 0 (TGet 1 1) eq_refl
                (step_begin_get 2 [7; 5] 1 ltac:(lia))).
  assert (H2 : sysstep 2 (System [7; 5] [TGet 1 1; TIdle]) (System [7; 0] [TGot 5; TIdle]))
    by exact (sys_thread 2 _ _ [TGet 1 1; TIdle] (TGet 1 1) 0 (TGot 5) eq_refl
                (step_get_found 2 [7; 5] 1 1 5 [7; 0] eq_refl ltac:(lia))).
  assert (H3 : sysstep 2 (System [7; 0] [TGot 5; TIdle]) (System [7; 0] [TGot 5; TGet 0 0]))
    by exact (sys_thread 2 _ _ [TGot 5; TIdle] TIdle 1 (TGet 0 0) eq_refl
                (step_begin_get 2 [7; 0] 0 ltac:(lia))).
  assert (H4 : sysstep 2 (System [7; 0] [TGot 5; TGet 0 0]) (System [0; 0] [TGot 5; TGot 7]))
    by exact (sys_thread 2 _ _ [TGot 5; TGet 0 0] (TGet 0 0) 1 (TGot 7) eq_refl
                (step_get_found 2 [7; 0] 0 0 7 [0; 0] eq_refl ltac:(lia))).
  exact (rtc_l _ _ _ _ H1 (rtc_l _ _ _ _ H2 (rtc_l _ _ _ _ H3 (rtc_once _ _ H4)))).
Defined.

(** [GetCachedPtr] by itself tries every slot exactly once and stays inside
    the array: it returns 0 only if every slot is empty, and otherwise empties
    exactly the slot whose pointer it returns. *)
Theorem GetCachedPtr_total iproc array n :
  0 <= iproc -> 0 < n -> Z.of_nat (length array) = n ->
  exists p array', GetCachedPtr iproc array n = Some (p, array') /\
  (p = 0 /\ array' = array /\ (forall i, 0 <= i < n -> rd array i = Some 0) \/
   p <> 0 /\ exists i, 0 <= i < n /\ rd array i = Some p /\ array' = <[Z.to_nat i := 0]> array).
Proof. apply GetCachedPtr_spec. Qed.

Lemma GetCachedPtr_total_witness :
  exists p array', GetCachedPtr 5 [0; 9; 0] 3 = Some (p, array') /\
  (p = 0 /\ array' = [0; 9; 0] /\ (forall i, 0 <= i < 3 -> rd [0; 9; 0] i = Some 0) \/
   p <> 0 /\ exists i, 0 <= i < 3 /\ rd [0; 9; 0] i = Some p /\ array' = <[Z.to_nat i := 0]> [0; 9; 0]).
Proof. apply GetCachedPtr_total; [lia|lia|reflexivity]. Defined.
