(* ===== verification/ObjectPool.v ===== *)
(** * ObjectPool: the object pool of collection.hxx

    A pool caches freed objects in the slots of a pointer cache.  The heap of
    the model is the set of live objects; deleting an object that is not live
    is an error ([None]). *)

From stdpp Require Import gmap sets.
From S2P Require Import Prelude PtrCache.

Record pool := Pool {
  m_rgpobjects : list Z; m_cobjectsAllocated : Z; m_cobjectsFreed : Z; heap : gset Z }.

(** [ObjectPool()] with [n] slots. *)
Definition ObjectPool_ctor (n : nat) : pool := Pool (replicate n 0) 0 0 ∅.

(** [NewObject]: [fresh] is what [new] returns, 0 when it fails. *)
Definition NewObject (fresh : Z) (s : pool) : Z * pool :=
  if negb (fresh =? 0)
  then (fresh, Pool (m_rgpobjects s) (s32 (m_cobjectsAllocated s + 1)) (m_cobjectsFreed s)
                 ({[fresh]} ∪ heap s))
  else (fresh, s).

Definition DeleteObject (p : Z) (s : pool) : option pool :=
  if negb (p =? 0)
  then if decide (p ∈ heap s)
       then Some (Pool (m_rgpobjects s) (m_cobjectsAllocated s) (s32 (m_cobjectsFreed s + 1))
                    (heap s ∖ {[p]}))
       else None
  else Some s.

Definition Allocate (iproc fresh : Z) (s : pool) : option (Z * pool) :=
  '(pt, a) ← GetCachedPtr iproc (m_rgpobjects s) (Z.of_nat (length (m_rgpobjects s)));
  let s := Pool a (m_cobjectsAllocated s) (m_cobjectsFreed s) (heap s) in
  if pt =? 0 then Some (NewObject fresh s) else Some (pt, s).

Definition Free (iproc p : Z) (s : pool) : option pool :=
  '(f, a) ← FCachePtr iproc p (m_rgpobjects s) (Z.of_nat (length (m_rgpobjects s)));
  let s := Pool a (m_cobjectsAllocated s) (m_cobjectsFreed s) (heap s) in
  if negb f then DeleteObject p s else Some s.

(** [for (i = 0; i < NumObjectsInPool; ++i) DeleteObject( m_rgpobjects[i] )]: the
    slots keep their pointers. *)
Fixpoint delete_all (ps : list Z) (s : pool) : option pool :=
  match ps with
  | [] => Some s
  | p :: ps => s ← DeleteObject p s; delete_all ps s
  end.

Definition FreeAllEntries (s : pool) : option pool := delete_all (m_rgpobjects s) s.

Definition ObjectPool_dtor (s : pool) : option pool := FreeAllEntries s.

(** ** The invariant

    [out] are the objects the clients hold. *)

Record pool_ok (out : list Z) (s : pool) : Prop := PoolOk {
  pool_nodup : NoDup (nonzero (m_rgpobjects s) ++ out);
  pool_heap : heap s = list_to_set (nonzero (m_rgpobjects s) ++ out);
  pool_count : m_cobjectsAllocated s = s32 (m_cobjectsFreed s + Z.of_nat (size (heap s)));
  pool_freed : in_s 32 (m_cobjectsFreed s);
  pool_out : Forall (fun p => p <> 0) out }.

Lemma nonzero_replicate n : nonzero (replicate n 0) = [].
Proof.
  induction n as [|n IH]; [easy|]. cbn [replicate]. unfold nonzero.
  rewrite filter_cons_False by lia. exact IH.
Qed.

Lemma nonzero_single p : p <> 0 -> nonzero [p] = [p].
Proof. intros H. unfold nonzero. now rewrite filter_cons_True. Qed.

Lemma ctor_ok n : pool_ok [] (ObjectPool_ctor n).
Proof.
  split; cbn; rewrite ?nonzero_replicate; [constructor|easy|easy| |constructor].
  unfold in_s. lia.
Qed.

(** The counters only depend on the difference. *)
Lemma s32_s32_add x y : s32 (s32 x + y) = s32 (x + y).
Proof.
  unfold wraps. change (2 ^ (32 - 1)) with 2147483648. change (2 ^ 32) with 4294967296.
  f_equal. replace ((x + 2147483648) mod 4294967296 - 2147483648 + y + 2147483648)
    with ((x + 2147483648) mod 4294967296 + y) by lia.
  rewrite Zplus_mod_idemp_l. f_equal. lia.
Qed.

(** Moving the slots' contents into the clients' hands and back. *)
Lemma pool_ok_perm out s out' a :
  pool_ok out s -> nonzero a ++ out' ≡ₚ nonzero (m_rgpobjects s) ++ out -> Forall (fun p => p <> 0) out' ->
  pool_ok out' (Pool a (m_cobjectsAllocated s) (m_cobjectsFreed s) (heap s)).
Proof.
  intros [Hn Hh Hc Hf Ho] Hp Ho'. split; cbn; [now rewrite Hp| |easy|easy|easy].
  rewrite Hh. apply set_eq. intros x. now rewrite !elem_of_list_to_set, Hp.
Qed.

Lemma NewObject_ok out s fresh : pool_ok out s -> fresh ∉ heap s ->
  pool_ok (nonzero [fresh] ++ out) (NewObject fresh s).2.
Proof.
  intros Hs Hfr. unfold NewObject. destruct (Z.eqb_spec fresh 0) as [->|Hne]; cbn [negb snd].
  { exact Hs. }
  rewrite nonzero_single by easy. destruct Hs as [Hn Hh Hc Hf Ho].
  split; cbn [m_rgpobjects m_cobjectsAllocated m_cobjectsFreed heap app].
  - rewrite <- Permutation_middle. apply list.NoDup_cons. split; [|easy].
    intros Hin. apply Hfr. rewrite Hh. now apply elem_of_list_to_set.
  - rewrite Hh. apply set_eq. intros x.
    rewrite elem_of_union, elem_of_singleton, !elem_of_list_to_set, !elem_of_app, elem_of_cons. tauto.
  - rewrite Hc, size_union, size_singleton by set_solver.
    rewrite s32_s32_add. f_equal. lia.
  - easy.
  - now constructor.
Qed.

Lemma DeleteObject_ok out s p : pool_ok (p :: out) s -> exists s', DeleteObject p s = Some s' /\ pool_ok out s'.
Proof.
  intros [Hn Hh Hc Hf Ho]. apply list.Forall_cons in Ho as [Hp Ho]. unfold DeleteObject.
  rewrite (proj2 (Z.eqb_neq p 0)) by easy. cbn [negb].
  assert (Hin : p ∈ heap s).
  { rewrite Hh. apply elem_of_list_to_set, elem_of_app. right. left. }
  rewrite decide_True by easy. eexists. split; [easy|].
  rewrite <- Permutation_middle in Hn. apply list.NoDup_cons in Hn as [Hni Hn].
  split; cbn [m_rgpobjects m_cobjectsAllocated m_cobjectsFreed heap]; [easy| | |now apply wraps_range|easy].
  - rewrite Hh. apply set_eq. intros x.
    rewrite elem_of_difference, elem_of_singleton, !elem_of_list_to_set.
    rewrite elem_of_app in Hni. rewrite !elem_of_app, elem_of_cons.
    destruct (decide (x = p)) as [->|]; tauto.
  - rewrite Hc, s32_s32_add. f_equal. rewrite size_difference by set_solver.
    rewrite size_singleton. assert (size (heap s) <> 0%nat).
    { intros E. apply size_empty_inv in E. set_solver. } lia.
Qed.

Lemma Allocate_ok out s iproc fresh : pool_ok out s -> 0 <= iproc -> (0 < length (m_rgpobjects s))%nat ->
  fresh ∉ heap s -> exists p s', Allocate iproc fresh s = Some (p, s') /\
  pool_ok (nonzero [p] ++ out) s' /\ (p = 0 -> fresh = 0) /\ length (m_rgpobjects s') = length (m_rgpobjects s).
Proof.
  intros Hs Hi Hl Hfr. unfold Allocate.
  destruct (GetCachedPtr_spec iproc (m_rgpobjects s) (Z.of_nat (length (m_rgpobjects s))))
    as (p & a & -> & [(-> & -> & _)|(Hp & i & Hr & Ei & ->)]); [easy|lia|easy| |].
  - cbn [mbind option_bind]. change (0 =? 0) with true. cbv iota.
    assert (Hs' : pool_ok out (Pool (m_rgpobjects s) (m_cobjectsAllocated s) (m_cobjectsFreed s) (heap s)))
      by now apply (pool_ok_perm out); [|easy|apply (pool_out out s)].
    pose proof (NewObject_ok out _ fresh Hs' Hfr) as Hn.
    destruct (NewObject fresh _) as [p s'] eqn:E. exists p, s'. cbn [snd] in Hn.
    assert (p = fresh /\ m_rgpobjects s' = m_rgpobjects s) as [-> ->].
    { unfold NewObject in E. destruct (negb _); injection E as <- <-; easy. }
    easy.
  - cbn [mbind option_bind]. rewrite (proj2 (Z.eqb_neq p 0)) by easy. eexists p, _.
    split; [easy|]. rewrite nonzero_single by easy. apply rd_lookup in Ei. split_and!.
    + apply (pool_ok_perm out); [easy| |constructor; [easy|apply (pool_out out s Hs)]].
      pose proof (nonzero_insert (m_rgpobjects s) (Z.to_nat i) p 0 Ei) as H.
      rewrite nonzero_single in H by easy. cbn [app]. rewrite <- Permutation_middle.
      change (nonzero [0]) with (@nil Z) in H. rewrite <- H. easy.
    + easy.
    + cbn [m_rgpobjects]. now rewrite length_insert.
Qed.

Lemma Free_ok out s iproc p : pool_ok (p :: out) s -> 0 <= iproc -> (0 < length (m_rgpobjects s))%nat ->
  exists s', Free iproc p s = Some s' /\ pool_ok out s' /\ length (m_rgpobjects s') = length (m_rgpobjects s).
Proof.
  intros Hs Hi Hl. unfold Free. pose proof (pool_out _ _ Hs) as Ho.
  apply list.Forall_cons in Ho as [Hp Ho].
  destruct (FCachePtr_spec iproc p (m_rgpobjects s) (Z.of_nat (length (m_rgpobjects s))))
    as (f & a & -> & [(-> & -> & _)|(-> & i & Hr & Ei & ->)]); [easy|lia|easy| |]; cbn [mbind option_bind negb].
  - destruct (DeleteObject_ok out (Pool (m_rgpobjects s) (m_cobjectsAllocated s) (m_cobjectsFreed s) (heap s)) p)
      as (s' & E & Hs'); [apply (pool_ok_perm (p :: out)); [easy|easy|now constructor]|].
    exists s'. split_and!; [easy..|]. unfold DeleteObject in E. rewrite (proj2 (Z.eqb_neq p 0)) in E by easy.
    cbn [negb] in E. destruct (decide _); [|easy]. now injection E as <-.
  - eexists. split; [easy|]. apply rd_lookup in Ei. split; [|cbn [m_rgpobjects]; now rewrite length_insert].
    apply (pool_ok_perm (p :: out)); [easy| |easy].
    pose proof (nonzero_insert (m_rgpobjects s) (Z.to_nat i) 0 p Ei) as H.
    rewrite (nonzero_single p) in H by easy. change (nonzero [0]) with (@nil Z) in H. cbn [app] in H.
    rewrite H. cbn [app]. now rewrite Permutation_middle.
Qed.

(** ** Clients *)

(** A client allocates (the allocator offers [fresh]) or returns an object. *)
Inductive pool_op := OpAllocate (iproc fresh : Z) | OpFree (iproc p : Z).

(** Take one object out of those a client holds. *)
Fixpoint take_out (p : Z) (out : list Z) : list Z :=
  match out with
  | [] => []
  | q :: out => if decide (q = p) then out else q :: take_out p out
  end.

(** What becomes of a client: it is through, with the objects it still holds; it, or the
    allocator, has broken the contract (a client returns only what it holds, and the allocator
    returns no live object); or the pool has failed. *)
Inductive verdict := Done (out : list Z) (s : pool) | Misused | Broken.

Fixpoint client (ops : list pool_op) (out : list Z) (s : pool) : verdict :=
  match ops with
  | [] => Done out s
  | OpAllocate iproc fresh :: ops =>
      if bool_decide (0 <= iproc /\ fresh ∉ heap s)
      then match Allocate iproc fresh s with Some (p, s) => client ops (nonzero [p] ++ out) s | None => Broken end
      else Misused
  | OpFree iproc p :: ops =>
      if bool_decide (0 <= iproc /\ p ∈ out)
      then match Free iproc p s with Some s => client ops (take_out p out) s | None => Broken end
      else Misused
  end.

Lemma take_out_perm p out : p ∈ out -> out ≡ₚ p :: take_out p out.
Proof.
  induction out as [|q out IH]; [set_solver|]. cbn [take_out]. case_decide as E; [now subst|].
  intros [->|Hp]%list.elem_of_cons; [easy|]. rewrite (IH Hp) at 1. constructor.
Qed.

Lemma pool_ok_out out out' s : out ≡ₚ out' -> pool_ok out s -> pool_ok out' s.
Proof.
  intros E [Hn Hh Hc Hf Ho]. split; [now rewrite <- E| |easy|easy|now rewrite <- E].
  rewrite Hh. apply set_eq. intros x. now rewrite !elem_of_list_to_set, E.
Qed.

Lemma client_ok ops : forall out s, pool_ok out s -> (0 < length (m_rgpobjects s))%nat ->
  match client ops out s with
  | Done out' s' => pool_ok out' s' /\ length (m_rgpobjects s') = length (m_rgpobjects s)
  | Misused => True
  | Broken => False
  end.
Proof.
  induction ops as [|[iproc fresh|iproc p] ops IH]; intros out s Hs Hl; cbn [client]; [easy| |].
  - case_bool_decide as Hc; [|easy]. destruct (Allocate_ok out s iproc fresh Hs) as (p' & s1 & -> & Hs1 & _ & Hl1); [tauto|easy|tauto|].
    rewrite <- Hl1. apply IH; [easy|lia].
  - case_bool_decide as Hc; [|easy]. apply (pool_ok_out _ (p :: take_out p out)) in Hs; [|now apply take_out_perm].
    destruct (Free_ok _ s iproc p Hs) as (s1 & -> & Hs1 & Hl1); [tauto|easy|]. rewrite <- Hl1. apply IH; [easy|lia].
Qed.

(** The pool without its slots, for the objects that are being deleted. *)
Definition no_slots (s : pool) : pool :=
  Pool [] (m_cobjectsAllocated s) (m_cobjectsFreed s) (heap s).

Lemma DeleteObject_no_slots p s : DeleteObject p (no_slots s) = no_slots <$> DeleteObject p s.
Proof.
  unfold DeleteObject. destruct (negb _); [|easy]. cbn [no_slots heap]. now destruct (decide _).
Qed.

(** Deleting distinct live objects. *)
Lemma delete_all_ok ps : forall s, pool_ok (nonzero ps) (no_slots s) ->
  exists s', delete_all ps s = Some s' /\ pool_ok [] (no_slots s').
Proof.
  induction ps as [|p ps IH]; intros s Hs; [now exists s|].
  cbn [delete_all]. destruct (Z.eq_dec p 0) as [->|Hp].
  - cbn [DeleteObject negb Z.eqb mbind option_bind]. apply IH. unfold nonzero in *.
    now rewrite filter_cons_False in Hs by lia.
  - unfold nonzero in Hs. rewrite filter_cons_True in Hs by easy. fold (nonzero ps) in Hs.
    destruct (DeleteObject_ok _ _ _ Hs) as (s1 & E & Hs1). rewrite DeleteObject_no_slots in E.
    apply fmap_Some in E as (s2 & -> & ->). cbn [mbind option_bind]. now apply IH.
Qed.

Lemma dtor_ok s : pool_ok [] s -> exists s', ObjectPool_dtor s = Some s' /\ pool_ok [] (no_slots s').
Proof.
  intros [Hn Hh Hc Hf Ho]. apply delete_all_ok. rewrite app_nil_r in Hn, Hh.
  split; cbn; [easy|easy|easy|easy|]. apply list.Forall_forall. intros p Hp.
  apply (list_elem_of_filter (fun p => p <> 0)) in Hp. tauto.
Qed.

(** C37: Whatever a client allocates and returns, as long as it returns only what it
    holds and the allocator returns no live object, no call of the pool fails: no object
    that is not live is deleted.  At every end the objects in the slots and those the client
    holds are different, and are exactly the live ones; and when the client has
    returned everything, the destructor deletes every object once: afterwards none is
    live and the two counters that the destructor compares are equal. *)
Theorem pool_lifecycle n ops : (0 < n)%nat ->
  client ops [] (ObjectPool_ctor n) <> Broken /\
  forall out s, client ops [] (ObjectPool_ctor n) = Done out s ->
    NoDup (nonzero (m_rgpobjects s) ++ out) /\ heap s = list_to_set (nonzero (m_rgpobjects s) ++ out) /\
    (out = [] -> exists s', ObjectPool_dtor s = Some s' /\ heap s' = ∅ /\ m_cobjectsAllocated s' = m_cobjectsFreed s').
Proof.
  intros Hn. pose proof (client_ok ops [] (ObjectPool_ctor n) (ctor_ok n)) as Hc.
  specialize (Hc ltac:(cbn; rewrite length_replicate; lia)).
  split; [now intros E; rewrite E in Hc|]. intros out s E. rewrite E in Hc. destruct Hc as [Hs _].
  split_and!; [apply Hs|apply Hs|]. intros ->.
  destruct (dtor_ok s Hs) as (s' & Ed & [_ Hh Hcnt Hf _]). exists s'. cbn in Hh, Hcnt, Hf.
  split_and!; [easy|easy|]. rewrite Hcnt, Hh, size_empty, Z.add_0_r. now apply wraps_small.
Qed.

(** Three objects, two slots: the second is deleted when it is returned. *)
Lemma pool_lifecycle_witness : exists s s',
  client [OpAllocate 0 8; OpAllocate 0 16; OpAllocate 1 24; OpFree 0 8; OpFree 1 24; OpFree 0 16] [] (ObjectPool_ctor 2) = Done [] s /\
  m_cobjectsFreed s = 1 /\ ObjectPool_dtor s = Some s' /\ heap s' = ∅ /\ m_cobjectsAllocated s' = m_cobjectsFreed s'.
Proof.
  destruct (pool_lifecycle 2 [OpAllocate 0 8; OpAllocate 0 16; OpAllocate 1 24; OpFree 0 8; OpFree 1 24; OpFree 0 16] ltac:(lia)) as [_ H].
  eexists. destruct (H [] _ ltac:(vm_compute; reflexivity)) as (_ & _ & Hd). destruct (Hd eq_refl) as (s' & E & Hh & Hc).
  exists s'. split; [vm_compute; reflexivity|]. split; [reflexivity|]. split; [exact E|]. split; [exact Hh|exact Hc].
Defined.

Lemma delete_all_gone ps : forall s s', delete_all ps s = Some s' ->
  m_rgpobjects s' = m_rgpobjects s /\ heap s' ⊆ heap s /\ (forall q, q ∈ ps -> q <> 0 -> q ∉ heap s').
Proof.
  induction ps as [|q ps IH]; intros t t' Et; [injection Et as <-; set_solver|].
  cbn [delete_all] in Et. destruct (DeleteObject q t) as [t1|] eqn:E1; [|easy].
  cbn [mbind option_bind] in Et. destruct (IH _ _ Et) as (H1 & H2 & H3).
  unfold DeleteObject in E1. destruct (Z.eqb_spec q 0) as [->|Hq]; cbn [negb] in E1.
  - injection E1 as ->. split_and!; [easy|easy|]. intros r Hr Hr0.
    apply list.elem_of_cons in Hr as [->|]; [easy|]. now apply H3.
  - destruct (decide _); [|easy]. injection E1 as <-. cbn in H1, H2.
    split_and!; [easy|set_solver|]. intros r Hr Hr0.
    apply list.elem_of_cons in Hr as [->|]; [set_solver|]. now apply H3.
Qed.

(** A dangling pointer cannot be deleted. *)
Lemma delete_all_dangling p ps : p <> 0 -> forall s, p ∈ ps -> p ∉ heap s -> delete_all ps s = None.
Proof.
  intros Hp. induction ps as [|q ps IH]; intros t Hq Ht; [set_solver|]. cbn [delete_all].
  destruct (DeleteObject q t) as [t1|] eqn:E1; [|easy]. cbn [mbind option_bind].
  unfold DeleteObject in E1. apply list.elem_of_cons in Hq as [<-|Hq].
  - rewrite (proj2 (Z.eqb_neq p 0)) in E1 by easy. cbn [negb] in E1. now destruct (decide _).
  - apply IH; [easy|]. destruct (negb _); [|now injection E1 as <-].
    destruct (decide _); [|easy]. injection E1 as <-. cbn. set_solver.
Qed.

(** [FreeAllEntries] leaves the deleted objects in the slots, so a pool
    that still caches an object does not survive a second call: an explicit
    [FreeAllEntries] followed by the destructor deletes that object twice. *)
Theorem FreeAllEntries_twice s p :
  pool_ok [] s -> p ∈ m_rgpobjects s -> p <> 0 ->
  exists s', FreeAllEntries s = Some s' /\ ObjectPool_dtor s' = None.
Proof.
  intros Hs Hin Hp. destruct (dtor_ok s Hs) as (s' & E & _). exists s'. split; [exact E|].
  destruct (delete_all_gone _ _ _ E) as (H1 & H2 & H3). unfold ObjectPool_dtor, FreeAllEntries.
  rewrite H1. apply (delete_all_dangling p); [easy..|]. now apply H3.
Qed.

Lemma FreeAllEntries_twice_witness :
  exists s', FreeAllEntries (Pool [8] 1 0 {[8]}) = Some s' /\ ObjectPool_dtor s' = None.
Proof.
  apply (FreeAllEntries_twice _ 8); [|left|lia].
  split; cbn; [|set_solver|reflexivity|unfold in_s; lia|constructor].
  apply list.NoDup_cons. split; [set_solver|constructor].
Defined.
