(* ===== verification/XpressFrame.v ===== *)
(** * XpressFrame: the decoder does not touch the rest of a larger buffer

    A run that stays inside its buffer does the same, and leaves the rest
    alone, when the buffer is followed by more memory. *)

From S2P Require Import Prelude Xpress XpressRef XpressSim XpressSpec.

Definition ext_state (e : list Z) (s : xstate) : xstate :=
  XState (bmask s) (ptr s) (dst s) (src s) (out s ++ e).

Definition ext_res (e : list Z) (r : xres) : xres :=
  match r with
  | Cont c k s => Cont c k (ext_state e s)
  | RetOk eof s => RetOk eof (ext_state e s)
  | RetErr s => RetErr (ext_state e s)
  end.

Lemma rd_frame {A} (l e : list A) i x : rd l i = Some x -> rd (l ++ e) i = Some x.
Proof.
  unfold rd. destruct (0 <=? i); [|easy]. intros H. now apply lookup_app_l_Some.
Qed.

Lemma wr_frame {A} (l e l' : list A) i x : wr l i x = Some l' -> wr (l ++ e) i x = Some (l' ++ e).
Proof.
  intros H. apply wr_inv in H as [Hi ->]. rewrite wr_Some by (rewrite length_app; lia).
  f_equal. apply insert_app_l. lia.
Qed.

Lemma copy_bytes_frame e n : forall d s buf buf',
  copy_bytes n d s buf = Some buf' -> copy_bytes n d s (buf ++ e) = Some (buf' ++ e).
Proof.
  induction n as [|n IH]; intros d s buf buf' H; [now injection H as ->|]. cbn [copy_bytes] in *.
  destruct (rd buf s) as [b|] eqn:Er; [|easy]. rewrite (rd_frame _ e _ _ Er).
  cbn [mbind option_bind] in *. destruct (wr buf d b) as [b1|] eqn:Ew; [|easy].
  rewrite (wr_frame _ e _ _ _ Ew). cbn [mbind option_bind] in *. now apply IH.
Qed.

Lemma copy_block_frame e fuel : forall len d s buf buf',
  copy_block fuel len d s buf = Some buf' -> copy_block fuel len d s (buf ++ e) = Some (buf' ++ e).
Proof.
  induction fuel as [|fuel IH]; intros len d s buf buf' H; [easy|]. cbn [copy_block] in *.
  destruct (8 <? len).
  - unfold COPY_8_BYTES in *. destruct (copy_bytes 8 d s buf) as [b1|] eqn:E; [|easy].
    rewrite (copy_bytes_frame e _ _ _ _ _ E). cbn [mbind option_bind] in *. now apply IH.
  - destruct (0 <? len); [|easy]. now apply copy_bytes_frame.
Qed.

Section Frame.

Context (info : decode_info) (comp e : list Z).

Lemma literal_frame c s r : literal info comp c s = Some r ->
  literal info comp c (ext_state e s) = Some (ext_res e r).
Proof.
  unfold literal. cbn [ext_state dst src out bmask ptr]. intros H.
  destruct (c && _); [now injection H as <-|]. destruct (c && _); [now injection H as <-|].
  destruct (rd comp (src s)) as [b|]; [|easy]. cbn [mbind option_bind] in *.
  destruct (wr (out s) (dst s) b) as [b1|] eqn:Ew; [|easy].
  rewrite (wr_frame _ e _ _ _ Ew). now injection H as <-.
Qed.

Lemma copy_match_frame c ofs len s r : copy_match info c ofs len s = Some r ->
  copy_match info c ofs len (ext_state e s) = Some (ext_res e r).
Proof.
  unfold copy_match, COPY_BLOCK_SLOW. cbn [ext_state dst src out bmask ptr]. intros H.
  destruct (_ && _); (destruct (_ <? 0); [now injection H as <-|]);
    match type of H with (?m ≫= _) = _ => destruct m as [b1|] eqn:E; [|easy] end;
    rewrite (copy_block_frame e _ _ _ _ _ _ E); cbn [mbind option_bind] in *; now injection H as <-.
Qed.

Lemma match_item_frame c s r : match_item info comp c s = Some r ->
  match_item info comp c (ext_state e s) = Some (ext_res e r).
Proof.
  unfold match_item. cbn [ext_state dst src out bmask ptr]. intros H.
  destruct (c && _); [now injection H as <-|]. destruct (c && _); [now injection H as <-|].
  destruct (rd_le 2 comp (src s)) as [w|]; [|easy]. cbn [mbind option_bind] in *.
  destruct (negb c && _).
  - destruct (_ <? 0); [now injection H as <-|]. unfold COPY_8_BYTES in *.
    match type of H with (?m ≫= _) = _ => destruct m as [b1|] eqn:E; [|easy] end.
    rewrite (copy_bytes_frame e _ _ _ _ _ E). cbn [mbind option_bind] in *. now injection H as <-.
  - destruct (match_len _ _ _ _ _ _) as [[[[len p] sp]|]|]; [| |easy]; cbn [mbind option_bind] in *.
    + apply copy_match_frame in H. exact H.
    + now injection H as <-.
Qed.

Lemma load_tag_frame c s r : load_tag info comp c s = Some r ->
  load_tag info comp c (ext_state e s) = Some (ext_res e r).
Proof.
  unfold load_tag. cbn [ext_state dst src out bmask ptr]. intros H.
  destruct (_ && _); [now injection H as <-|].
  destruct (rd_le 4 comp (src s)) as [w|]; [|easy]. cbn [mbind option_bind] in *.
  destruct (0 <=? _); [now injection H as <-|]. apply match_item_frame in H. exact H.
Qed.

Lemma xstep_frame c k s r : xstep info comp c k s = Some r ->
  xstep info comp c k (ext_state e s) = Some (ext_res e r).
Proof.
  destruct k; cbn [xstep].
  - apply load_tag_frame.
  - apply literal_frame.
  - unfold next_item. cbn [ext_state dst src out bmask ptr].
    destruct (0 <=? bmask s); [intros H; apply literal_frame in H; exact H|].
    destruct (_ =? 0); intros H; [apply load_tag_frame in H|apply match_item_frame in H]; exact H.
Qed.

Lemma xrun_frame fuel : forall c k s r, xrun info comp fuel c k s = Some r ->
  xrun info comp fuel c k (ext_state e s) = Some (ext_res e r).
Proof.
  induction fuel as [|fuel IH]; intros c k s r H; [now injection H as <-|]. cbn [xrun] in *.
  destruct (xstep info comp c k s) as [r1|] eqn:E; [|easy]. rewrite (xstep_frame _ _ _ _ E).
  cbn [mbind option_bind] in *. destruct r1; cbn [ext_res]; [now apply IH|now injection H as <-..].
Qed.

End Frame.

Lemma XpressDecode_frame stream addr orig e orig_size decode_size comp comp_size ret buf :
  XpressDecode stream addr orig orig_size decode_size comp comp_size = Some (ret, buf) ->
  XpressDecode stream addr (orig ++ e) orig_size decode_size comp comp_size = Some (ret, buf ++ e).
Proof.
  unfold XpressDecode. intros H. destruct (_ || _); [now injection H as <- <-|].
  destruct (_ || _); [now injection H as <- <-|]. unfold do_decode in *.
  match type of H with (?m ≫= _) = _ => destruct m as [r|] eqn:E; [|easy] end.
  apply (xrun_frame _ _ e) in E. unfold ext_state in E at 1. cbn [bmask ptr dst src out] in E.
  rewrite E. cbn [mbind option_bind] in *. destruct r as [|eof s|s]; cbn [ext_res]; [easy| |].
  - cbn [ext_state dst src out]. destruct (_ || _); now injection H as <- <-.
  - now injection H as <- <-.
Qed.

(** What a client of the decoder may rely on; the theorems about
    decompression use only this. *)
Class XpressDecoder (decode : list Z -> Z -> Z -> list Z -> Z -> option (Z * list Z)) : Prop :=
  xpress_decoder : forall orig e comp orig_size decode_size,
    bytes_ok comp -> Z.of_nat (length orig) = decode_size -> 0 <= orig_size < 2 ^ 16 ->
    decode_size <= orig_size ->
    exists ret buf,
    decode (orig ++ e) orig_size decode_size comp (Z.of_nat (length comp)) = Some (ret, buf ++ e) /\
    length buf = length orig /\
    (if (Z.of_nat (length comp) =? orig_size) || (decode_size =? 0)
     then ret = decode_size /\ buf = orig
     else if sizes_ok orig_size decode_size (Z.of_nat (length comp)) then
       match xpress_ref comp orig_size decode_size with
       | Some (Some (eof, o)) =>
           if (decode_size =? orig_size) && negb eof then ret = -1 else ret = decode_size /\ buf = o
       | _ => ret = -1
       end
     else ret = -1 /\ buf = orig).

#[export] Instance XpressDecode_decoder stream addr : stream <= addr ->
  XpressDecoder (XpressDecode stream addr).
Proof.
  intros Ha orig e comp orig_size decode_size Hc Hl Ho Hd.
  destruct ((Z.of_nat (length comp) =? orig_size) || (decode_size =? 0)) eqn:E0.
  { exists decode_size, orig. split; [|easy]. apply XpressDecode_frame. unfold XpressDecode.
    rewrite (proj2 (Z.ltb_ge orig_size decode_size)) by lia. now rewrite E0. }
  destruct (sizes_ok orig_size decode_size (Z.of_nat (length comp))) eqn:Es.
  - destruct (decode_result stream addr orig comp orig_size decode_size Hc Ha Hl Es)
      as (ret & buf & E & Hlb & Hr).
    exists ret, buf. split; [now apply XpressDecode_frame|]. split; [easy|].
    destruct (xpress_ref comp orig_size decode_size) as [[[? ?]|]|]; easy.
  - exists (-1), orig. split; [|easy]. apply XpressDecode_frame. unfold XpressDecode.
    rewrite (proj2 (Z.ltb_ge orig_size decode_size)) by lia. rewrite E0.
    apply orb_false_iff in E0 as [E1 E2]. apply Z.eqb_neq in E1, E2.
    unfold sizes_ok in Es. change MIN_SIZE with 8 in *. change BUFF_SIZE with 65536 in *.
    change (2 ^ 16) with 65536 in Ho.
    rewrite !andb_false_iff, !Z.ltb_ge, !Z.leb_gt in Es.
    replace (_ || _) with true; [easy|]. symmetry.
    rewrite !orb_true_iff, !Z.ltb_lt, Z.leb_le. lia.
Qed.
