(* ===== verification/Decompress.v ===== *)
(** * Decompress: the column decompressor (decompress.cpp)

    The first byte of compressed data names the scheme (upper five bits).  The
    schemes are 7-bit packing of ASCII and of UTF-16 text, Xpress, and scrubbed
    data.  [None] is an access outside of the compressed data or of the output
    buffer.  Signed 32-bit arithmetic wraps, as compiled. *)

From S2P Require Import Prelude PtrCache.

(** [DATA] of daedef.hxx: a pointer and a length. *)
Record DATA := Data { Pv : list Z; m_cb : Z }.

Definition Cb (d : DATA) : Z := s32 (m_cb d).

Definition COMPRESS_7BITASCII : Z := 0x1.
Definition COMPRESS_7BITUNICODE : Z := 0x2.
Definition COMPRESS_XPRESS : Z := 0x3.
Definition COMPRESS_SCRUB : Z := 0x4.

(** [CDataCompressor]: the cache of decode streams ([None] when [ErrInit] could
    not allocate it; the constructor drops the error). *)
Record CDataCompressor := Compressor {
  m_rgdecodeXpress : option (list Z); m_cdecodeCachedMax : Z }.

(** [ErrInit] with [OSSyncGetProcessorCountMax()] processors. *)
Definition ErrInit (cproc : Z) (fAlloc : bool) : Z * CDataCompressor :=
  if fAlloc then (JET_errSuccess, Compressor (Some (replicate (Z.to_nat cproc) 0)) cproc)
  else (JET_errOutOfMemory, Compressor None cproc).

(** What a decompression returns: the error, the output buffer, the size of
    the decompressed data and the state. *)
Record result := Result {
  r_err : Z; r_pbData : option (list Z); r_cbActual : Z; r_state : CDataCompressor }.

(** ** 7-bit packing *)

(** The seven bits at bit [ibit] of byte [ib]. *)
Definition read7 (pbCompressed : list Z) (ibCompressed ibitCompressed : Z) : option Z :=
  if ibitCompressed <=? 1 then
    bCompressed ← rd pbCompressed ibCompressed;
    Some (u8 (Z.shiftr bCompressed ibitCompressed .& 0x7F))
  else
    b0 ← rd pbCompressed ibCompressed;
    b1 ← rd pbCompressed (ibCompressed + 1);
    let wCompressed := u16 (b0 .| Z.shiftl b1 8) in
    Some (u8 (Z.shiftr wCompressed ibitCompressed .& 0x7F)).

(** [ibitCompressed += 7; if (ibitCompressed >= 8) { ibitCompressed %= 8; ++ibCompressed; }] *)
Definition advance7 (p : Z * Z) : Z * Z :=
  let '(ibCompressed, ibitCompressed) := p in
  let ibitCompressed := ibitCompressed + 7 in
  if 8 <=? ibitCompressed then (ibCompressed + 1, cmod ibitCompressed 8)
  else (ibCompressed, ibitCompressed).

Fixpoint ascii_loop (fuel : nat) (pbCompressed : list Z) (ibDataMax ibData : Z) (p : Z * Z)
    (pbData : list Z) : option (list Z) :=
  if ibData <? ibDataMax then
    match fuel with
    | O => None
    | S fuel =>
        bDecompressed ← read7 pbCompressed p.1 p.2;
        pbData ← wr pbData ibData bDecompressed;
        ascii_loop fuel pbCompressed ibDataMax (ibData + 1) (advance7 p) pbData
    end
  else Some pbData.

(** The number of bits a 7-bit payload holds. *)
Definition cbitTotal (d : DATA) (bHeader : Z) : Z :=
  let cbitFinal := (bHeader .& 0x7) + 1 in
  s32 (s32 (s32 (Cb d - 2) * 8) + cbitFinal).

Definition ErrDecompress7BitAscii_ (d : DATA) (pbData : option (list Z)) (cbDataMax : Z)
    (st : CDataCompressor) : option result :=
  bHeader ← rd (Pv d) 0;
  let cbTotal := cdiv (cbitTotal d bHeader) 7 in
  let err := if cbDataMax <? cbTotal then JET_wrnBufferTruncated else JET_errSuccess in
  match pbData with
  | Some buf =>
      if cbDataMax =? 0 then Some (Result err pbData cbTotal st)
      else
        let ibDataMax := Z.min cbTotal cbDataMax in
        buf ← ascii_loop (Z.to_nat ibDataMax) (Pv d) ibDataMax 0 (1, 0) buf;
        Some (Result err (Some buf) cbTotal st)
  | None => Some (Result err None cbTotal st)
  end.

Fixpoint unicode_loop (fuel : nat) (pbCompressed : list Z) (ibDataMax ibData : Z) (p : Z * Z)
    (pbData : list Z) : option (list Z) :=
  if ibData <? ibDataMax then
    match fuel with
    | O => None
    | S fuel =>
        bDecompressed ← read7 pbCompressed p.1 p.2;
        pbData ← wr pbData ibData bDecompressed;
        if ibDataMax <=? ibData + 1 then Some pbData
        else
          pbData ← wr pbData (ibData + 1) 0;
          if ibDataMax <=? ibData + 2 then Some pbData
          else unicode_loop fuel pbCompressed ibDataMax (ibData + 2) (advance7 p) pbData
    end
  else Some pbData.

Definition ErrDecompress7BitUnicode_ (d : DATA) (pbData : option (list Z)) (cbDataMax : Z)
    (st : CDataCompressor) : option result :=
  bHeader ← rd (Pv d) 0;
  let cwTotal := cdiv (cbitTotal d bHeader) 7 in
  let cbActual := s32 (cwTotal * 2) in
  let err := if cbDataMax <? cbActual then JET_wrnBufferTruncated else JET_errSuccess in
  match pbData with
  | Some buf =>
      if cbDataMax =? 0 then Some (Result err pbData cbActual st)
      else
        let ibDataMax := Z.min cbActual cbDataMax in
        buf ← unicode_loop (Z.to_nat ibDataMax) (Pv d) ibDataMax 0 (1, 0) buf;
        Some (Result err (Some buf) cbActual st)
  | None => Some (Result err None cbActual st)
  end.

(** ** Xpress *)

Section Xpress.

(** [xdecode stream orig orig_size decode_size comp comp_size] is [XpressDecode];
    [create] what [XpressDecodeCreate] returns. *)
Context (xdecode : Z -> list Z -> Z -> Z -> list Z -> Z -> option (Z * list Z)) (create : Z).

Definition ErrXpressDecodeOpen_ (iproc : Z) (st : CDataCompressor) : option (Z * Z * CDataCompressor) :=
  array ← m_rgdecodeXpress st;
  '(decode, array) ← GetCachedPtr iproc array (m_cdecodeCachedMax st);
  let st := Compressor (Some array) (m_cdecodeCachedMax st) in
  if negb (decode =? 0) then Some (JET_errSuccess, decode, st)
  else if create =? 0 then Some (JET_errOutOfMemory, 0, st)
  else Some (JET_errSuccess, create, st).

(** [XpressDecodeRelease_] calls [XpressDecodeClose], which has nothing to free. *)
Definition XpressDecodeClose_ (iproc decode : Z) (st : CDataCompressor) : option CDataCompressor :=
  if decode =? 0 then Some st
  else
    array ← m_rgdecodeXpress st;
    '(_, array) ← FCachePtr iproc decode array (m_cdecodeCachedMax st);
    Some (Compressor (Some array) (m_cdecodeCachedMax st)).

(** [iproc] and [iproc'] are the processors the thread runs on when it opens
    and when it closes the stream. *)
Definition ErrDecompressXpress_ (iproc iproc' : Z) (d : DATA) (pbData : option (list Z)) (cbDataMax : Z)
    (st : CDataCompressor) : option result :=
  cbUncompressed ← rd_le 2 (Pv d) 1;
  bHeader ← rd (Pv d) 0;
  let cbHeader := 3 in
  let cbCompressedData := s32 (Cb d - cbHeader) in
  let cbWanted := Z.min cbUncompressed cbDataMax in
  match pbData with
  | None => Some (Result JET_wrnBufferTruncated None cbUncompressed st)
  | Some buf =>
      if cbDataMax =? 0 then Some (Result JET_wrnBufferTruncated pbData cbUncompressed st)
      else
        '(err, decode, st) ← ErrXpressDecodeOpen_ iproc st;
        if err <? JET_errSuccess then Some (Result err pbData cbUncompressed st)
        else
          '(cbDecoded, buf) ← xdecode decode buf cbUncompressed cbWanted (drop 3 (Pv d)) cbCompressedData;
          let err := if cbDecoded =? -1 then JET_errDecompressionFailed
                     else if cbDataMax <? cbUncompressed then JET_wrnBufferTruncated
                     else err in
          st ← XpressDecodeClose_ iproc' decode st;
          Some (Result err (Some buf) cbUncompressed st)
  end.

Definition ErrDecompressScrub_ : Z := 0.

(** ** Dispatch *)

Definition ErrDecompress (iproc iproc' : Z) (d : DATA) (pbData : option (list Z)) (cbDataMax : Z)
    (st : CDataCompressor) : option result :=
  bHeader ← rd (Pv d) 0;
  let bIdentifier := Z.shiftr bHeader 3 in
  if bIdentifier =? COMPRESS_7BITASCII then ErrDecompress7BitAscii_ d pbData cbDataMax st
  else if bIdentifier =? COMPRESS_7BITUNICODE then ErrDecompress7BitUnicode_ d pbData cbDataMax st
  else if bIdentifier =? COMPRESS_XPRESS then ErrDecompressXpress_ iproc iproc' d pbData cbDataMax st
  else if bIdentifier =? COMPRESS_SCRUB then Some (Result ErrDecompressScrub_ pbData 0 st)
  else Some (Result JET_errDecompressionFailed pbData 0 st).

(** The exported function: sizes are unsigned, the result too. *)
Definition decompress (iproc iproc' : Z) (data : list Z) (data_size : Z) (out_buffer : option (list Z))
    (out_buffer_size : Z) (worker : CDataCompressor) : option (Z * option (list Z) * Z * CDataCompressor) :=
  r ← ErrDecompress iproc iproc' (Data data (u32 data_size)) out_buffer (s32 out_buffer_size) worker;
  Some (u32 (r_err r), r_pbData r, u32 (r_cbActual r), r_state r).

End Xpress.
