(* ===== verification/DecompressSpec.v ===== *)
(** * DecompressSpec: what the decompressor returns

    The results of each scheme as equations, the round trip with a reference
    packer, the behaviour for arbitrary input, and the inputs on which the code
    misbehaves. *)

From S2P Require Import Prelude PtrCache Decompress Xpress XpressSpec XpressFrame.

(** ** The 7-bit text packing

    The loops of [ErrDecompress7BitAscii_] and [ErrDecompress7BitUnicode_] walk
    the payload with a byte and a bit index; here they are shown to deliver the
    base-128 digits of the payload read as one little-endian number, and to
    invert a reference packer. *)

(** Character [k] of the data: seven bits after the header byte. *)
Definition sym (pb : list Z) (k : nat) : Z := Z.shiftr (le_num pb) (8 + 7 * Z.of_nat k) mod 2 ^ 7.

Definition unpack7 (pb : list Z) (n : nat) : list Z := map (sym pb) (seq 0 n).

Definition utf16 (l : list Z) : list Z := flat_map (fun v => [v; 0]) l.

Section Payload.

Context (pb : list Z).
Hypothesis Hpb : bytes_ok pb.

(** A bit of the payload. *)
Lemma payload_bit ib b j : rd pb ib = Some b -> 0 <= j < 8 ->
  Z.testbit (le_num pb) (8 * ib + j) = Z.testbit b j.
Proof.
  intros Hr Hj. unfold rd in Hr. destruct (Z.leb_spec 0 ib); [|easy].
  rewrite le_num_testbit by (easy || lia).
  replace ((8 * ib + j) / 8) with ib by (rewrite Z.mul_comm, Z.div_add_l, (Z.div_small j) by lia; lia).
  rewrite Hr. f_equal. rewrite Z.add_comm, Z.mul_comm, Z.mod_add by lia. apply Z.mod_small. lia.
Qed.

Lemma read7_spec ib ibit :
  0 <= ib -> 0 <= ibit < 8 -> 8 * ib + ibit + 7 <= 8 * Z.of_nat (length pb) ->
  read7 pb ib ibit = Some (Z.shiftr (le_num pb) (8 * ib + ibit) mod 2 ^ 7).
Proof.
  intros Hib Hbit Hlen. unfold read7.
  destruct (rd_Some pb ib) as (b0 & E0 & El0); [lia|]. rewrite E0.
  change 0x7F with (Z.ones 7).
  assert (Hb0 : in_u 8 b0) by exact (bytes_ok_lookup pb _ b0 Hpb El0).
  destruct (Z.leb_spec ibit 1); cbn [mbind option_bind].
  - f_equal. bitwise j. rewrite testbit_wrapu, Z.land_spec, Z.testbit_ones_nonneg, Z.shiftr_spec by lia.
    rewrite Z.testbit_mod_pow2, Z.shiftr_spec by lia.
    destruct (Z.ltb_spec j 7); [|now rewrite !andb_false_r].
    rewrite (proj2 (Z.ltb_lt j 8)), andb_true_l, andb_true_r, andb_true_l by lia.
    replace (j + (8 * ib + ibit)) with (8 * ib + (j + ibit)) by lia.
    symmetry. now apply payload_bit; [|lia].
  - destruct (rd_Some pb (ib + 1)) as (b1 & E1 & El1); [lia|]. rewrite E1. cbn [mbind option_bind].
    f_equal. bitwise j. rewrite testbit_wrapu, Z.land_spec, Z.testbit_ones_nonneg, Z.shiftr_spec by lia.
    rewrite Z.testbit_mod_pow2, Z.shiftr_spec by lia.
    destruct (Z.ltb_spec j 7); [|now rewrite !andb_false_r].
    rewrite (proj2 (Z.ltb_lt j 8)), andb_true_l, andb_true_r, andb_true_l by lia.
    rewrite testbit_wrapu, Z.lor_spec, Z.shiftl_spec by lia.
    rewrite (proj2 (Z.ltb_lt (j + ibit) 16)), andb_true_l by lia.
    destruct (Z.ltb_spec (j + ibit) 8).
    + rewrite (Z.testbit_neg_r b1) by lia. rewrite orb_false_r.
      replace (j + (8 * ib + ibit)) with (8 * ib + (j + ibit)) by lia.
      symmetry. now apply payload_bit; [|lia].
    + rewrite (in_u_testbit_high 8 b0) by (easy || lia). rewrite orb_false_l.
      replace (j + (8 * ib + ibit)) with (8 * (ib + 1) + (j + ibit - 8)) by lia.
      symmetry. now apply payload_bit; [|lia].
Qed.

(** The indices of character [k]. *)
Definition at7 (k : nat) (p : Z * Z) : Prop := 8 * p.1 + p.2 = 8 + 7 * Z.of_nat k /\ 0 <= p.2 < 8.

Lemma at7_0 : at7 0 (1, 0).
Proof. split; simpl; lia. Qed.

Lemma at7_S k p : at7 k p -> at7 (S k) (advance7 p).
Proof.
  destruct p as [ib ibit]. unfold at7, advance7. cbn [fst snd]. intros [H1 H2].
  destruct (Z.leb_spec 8 (ibit + 7)); cbn [fst snd]; [|lia].
  unfold cmod. rewrite Z.rem_mod_nonneg by lia.
  replace (ibit + 7) with (ibit - 1 + 1 * 8) by lia. rewrite Z.mod_add, Z.mod_small by lia. lia.
Qed.

Lemma read7_at k p : at7 k p -> 8 + 7 * (Z.of_nat k + 1) <= 8 * Z.of_nat (length pb) ->
  read7 pb p.1 p.2 = Some (sym pb k).
Proof.
  intros [H1 H2] Hlen. rewrite read7_spec by lia. unfold sym. now rewrite H1.
Qed.

Lemma ascii_loop_spec n : forall k p buf,
  at7 k p -> (k + n <= length buf)%nat -> 8 + 7 * Z.of_nat (k + n) <= 8 * Z.of_nat (length pb) ->
  ascii_loop n pb (Z.of_nat (k + n)) (Z.of_nat k) p buf =
  Some (take k buf ++ map (sym pb) (seq k n) ++ drop (k + n) buf).
Proof.
  induction n as [|n IH]; intros k p buf Hp Hb Hl; cbn [ascii_loop].
  - rewrite (proj2 (Z.ltb_ge _ _)) by lia. rewrite Nat.add_0_r. simpl. now rewrite take_drop.
  - rewrite (proj2 (Z.ltb_lt _ _)) by lia. rewrite (read7_at k) by (easy || lia).
    cbn [mbind option_bind]. rewrite wr_Some by lia. rewrite Nat2Z.id. cbn [mbind option_bind].
    replace (Z.of_nat k + 1) with (Z.of_nat (S k)) by lia.
    replace (k + S n)%nat with (S k + n)%nat by lia.
    rewrite IH by (try apply at7_S; rewrite ?length_insert; easy || lia).
    rewrite take_S_insert, drop_insert_lt by lia. cbn [seq map]. now rewrite <- app_assoc.
Qed.

(** [m] is the number of bytes still to write, up to two per character. *)
Lemma unicode_loop_spec fuel : forall k m p buf,
  at7 k p -> (m <= 2 * fuel)%nat -> (2 * k + m <= length buf)%nat ->
  8 + 7 * (Z.of_nat k + (Z.of_nat m + 1) / 2) <= 8 * Z.of_nat (length pb) ->
  unicode_loop fuel pb (Z.of_nat (2 * k + m)) (Z.of_nat (2 * k)) p buf =
  Some (take (2 * k) buf ++ take m (utf16 (map (sym pb) (seq k fuel))) ++ drop (2 * k + m) buf).
Proof.
  induction fuel as [|fuel IH]; intros k m p buf Hp Hm Hb Hl; cbn [unicode_loop].
  - rewrite (proj2 (Z.ltb_ge _ _)) by lia. replace m with 0%nat by lia. rewrite Nat.add_0_r. simpl.
    now rewrite take_drop.
  - destruct m as [|m]; [|destruct m as [|m]].
    + rewrite (proj2 (Z.ltb_ge _ _)) by lia. rewrite Nat.add_0_r, take_0. simpl. now rewrite take_drop.
    + rewrite (proj2 (Z.ltb_lt _ _)) by lia. change ((Z.of_nat 1 + 1) / 2) with 1 in Hl.
      rewrite (read7_at k) by (easy || lia). cbn [mbind option_bind]. rewrite wr_Some by lia.
      rewrite Nat2Z.id. cbn [mbind option_bind]. rewrite (proj2 (Z.leb_le _ _)) by lia. f_equal.
      rewrite <- (take_drop (2 * k + 1) (<[(2 * k)%nat:=_]> buf)).
      replace (2 * k + 1)%nat with (S (2 * k)) by lia.
      rewrite take_S_insert, drop_insert_lt by lia. now rewrite <- app_assoc.
    + rewrite (proj2 (Z.ltb_lt _ _)) by lia.
      assert (Hdiv : (Z.of_nat (S (S m)) + 1) / 2 = 1 + (Z.of_nat m + 1) / 2).
      { replace (Z.of_nat (S (S m)) + 1) with (Z.of_nat m + 1 + 1 * 2) by lia.
        rewrite Z.div_add by lia. lia. }
      rewrite Hdiv in Hl. assert (0 <= (Z.of_nat m + 1) / 2) by (apply Z.div_pos; lia).
      rewrite (read7_at k) by (easy || lia). cbn [mbind option_bind]. rewrite wr_Some by lia.
      rewrite Nat2Z.id. cbn [mbind option_bind]. rewrite (proj2 (Z.leb_gt _ _)) by lia.
      rewrite wr_Some by (rewrite length_insert; lia). cbn [mbind option_bind].
      replace (Z.to_nat (Z.of_nat (2 * k) + 1)) with (S (2 * k)) by lia.
      set (buf2 := <[S (2 * k):=0]> (<[(2 * k)%nat:=sym pb k]> buf)).
      assert (Ht : take (2 * S k) buf2 = take (2 * k) buf ++ [sym pb k; 0]).
      { unfold buf2. replace (2 * S k)%nat with (S (S (2 * k))) by lia.
        rewrite take_S_insert by (rewrite length_insert; lia). rewrite take_S_insert by lia.
        now rewrite <- app_assoc. }
      assert (Hd : forall j, (S (2 * k) < j)%nat -> drop j buf2 = drop j buf).
      { intros j Hj. unfold buf2. now rewrite !drop_insert_lt by lia. }
      assert (Hlb : length buf2 = length buf) by (unfold buf2; now rewrite !length_insert).
      cbn [seq map utf16 flat_map app].
      replace (2 * k + S (S m))%nat with (2 * S k + m)%nat by lia.
      destruct (Z.leb_spec (Z.of_nat (2 * S k + m)) (Z.of_nat (2 * k) + 2)).
      * replace m with 0%nat by lia. f_equal. rewrite <- (take_drop (2 * S k) buf2), Ht, Hd by lia.
        rewrite <- app_assoc, Nat.add_0_r. cbn [take app]. now rewrite take_0.
      * replace (Z.of_nat (2 * k) + 2) with (Z.of_nat (2 * S k)) by lia.
        rewrite IH by (try apply at7_S; rewrite ?Hlb; easy || lia).
        rewrite Ht, Hd by lia. rewrite <- app_assoc. easy.
Qed.

End Payload.

(** ** Sizes of the 7-bit schemes *)

Definition chars7 (data : list Z) (bHeader : Z) : Z :=
  (8 * (Z.of_nat (length data) - 2) + ((bHeader .& 0x7) + 1)) / 7.

Lemma low3_range b : 0 <= b .& 0x7 <= 7.
Proof.
  change (b .& 0x7) with (b .& Z.ones 3). rewrite Z.land_ones by lia.
  pose proof (Z.mod_pos_bound b (2 ^ 3) ltac:(lia)). lia.
Qed.

Lemma s32_small x : - 2147483648 <= x < 2147483648 -> s32 x = x.
Proof. intros. apply wraps_small; [lia|]. unfold in_s. change (2 ^ (32 - 1)) with 2147483648. lia. Qed.

Lemma u32_small x : 0 <= x < 4294967296 -> u32 x = x.
Proof. intros. apply wrapu_small. unfold in_u. change (2 ^ 32) with 4294967296. lia. Qed.

Lemma cbitTotal_value data bHeader : Z.of_nat (length data) < 134217728 ->
  cbitTotal (Data data (Z.of_nat (length data))) bHeader =
  8 * (Z.of_nat (length data) - 2) + ((bHeader .& 0x7) + 1).
Proof.
  intros Hlen. pose proof (low3_range bHeader).
  unfold cbitTotal, Cb. cbn [m_cb]. set (len := Z.of_nat (length data)) in *.
  assert (0 <= len) by (unfold len; lia).
  rewrite (s32_small len), (s32_small (len - 2)), (s32_small ((len - 2) * 8)), s32_small by lia. lia.
Qed.

Lemma take_unpack7 data k n : take k (unpack7 data n) = unpack7 data (k `min` n).
Proof. unfold unpack7. now rewrite firstn_map, take_seq. Qed.

Lemma length_unpack7 data n : length (unpack7 data n) = n.
Proof. unfold unpack7. now rewrite length_map, length_seq. Qed.

Lemma length_utf16 l : length (utf16 l) = (2 * length l)%nat.
Proof. induction l as [|x l IH]; [easy|]. cbn [utf16 flat_map app length]. fold (utf16 l). rewrite IH. lia. Qed.

(** A prefix of the text in UTF-16 depends on a prefix of the text. *)
Lemma take_utf16_seq (f : nat -> Z) m a b : (m <= 2 * a)%nat -> (m <= 2 * b)%nat ->
  take m (utf16 (map f (seq 0 a))) = take m (utf16 (map f (seq 0 b))).
Proof.
  assert (H : forall a c, (m <= 2 * a)%nat ->
            take m (utf16 (map f (seq 0 (a + c)))) = take m (utf16 (map f (seq 0 a)))).
  { intros a' c' Ha. rewrite seq_app, map_app. unfold utf16. rewrite flat_map_app.
    apply take_app_le. fold (utf16 (map f (seq 0 a'))). rewrite length_utf16, length_map, length_seq. lia. }
  intros Ha Hb. destruct (Nat.le_ge_cases a b).
  - replace b with (a + (b - a))%nat by lia. now rewrite H.
  - replace a with (b + (a - b))%nat by lia. now rewrite H.
Qed.

Section Seven.

Context (data : list Z) (bHeader : Z).
Hypothesis Hdata : bytes_ok data.
Hypothesis Hlen2 : (2 <= length data)%nat.
Hypothesis Hlen : Z.of_nat (length data) < 134217728.
Hypothesis Hhdr : rd data 0 = Some bHeader.

Let d := Data data (Z.of_nat (length data)).
Let n := Z.to_nat (chars7 data bHeader).

Lemma chars7_bounds : 0 <= chars7 data bHeader /\ 8 + 7 * chars7 data bHeader <= 8 * Z.of_nat (length data)
  /\ chars7 data bHeader < 1073741824.
Proof.
  pose proof (low3_range bHeader). unfold chars7.
  set (x := 8 * _ + _). assert (0 <= x) by (unfold x; lia).
  pose proof (Z.mul_div_le x 7 ltac:(lia)). assert (0 <= x / 7) by (apply Z.div_pos; lia).
  unfold x in *. lia.
Qed.

Lemma chars7_cdiv : cdiv (cbitTotal d bHeader) 7 = chars7 data bHeader.
Proof.
  unfold cdiv, d. rewrite cbitTotal_value by easy. pose proof (low3_range bHeader).
  rewrite Z.quot_div_nonneg by lia. easy.
Qed.

Lemma ascii_result buf st : (Z.of_nat (length buf) < 2147483648) ->
  ErrDecompress7BitAscii_ d (Some buf) (Z.of_nat (length buf)) st =
  Some (Result (if Z.of_nat (length buf) <? Z.of_nat n then JET_wrnBufferTruncated else JET_errSuccess)
         (Some (take (length buf) (unpack7 data n) ++ drop n buf)) (Z.of_nat n) st).
Proof.
  intros Hb. pose proof chars7_bounds as (H0 & H1 & _). unfold ErrDecompress7BitAscii_. cbn [Pv d].
  rewrite Hhdr. cbn [mbind option_bind]. fold d. rewrite chars7_cdiv.
  replace (chars7 data bHeader) with (Z.of_nat n) by (unfold n; lia).
  destruct (Z.eqb_spec (Z.of_nat (length buf)) 0) as [E|].
  { destruct buf; [|simpl in E; lia]. simpl. now rewrite drop_nil. }
  set (m := Nat.min n (length buf)).
  replace (Z.min (Z.of_nat n) (Z.of_nat (length buf))) with (Z.of_nat (0 + m)) by (unfold m; lia).
  replace (Z.to_nat (Z.of_nat (0 + m))) with m by lia.
  change 0 with (Z.of_nat 0) at 2.
  rewrite (ascii_loop_spec data Hdata m 0) by (try apply at7_0; unfold m, n in *; lia).
  cbn [mbind option_bind take app Nat.add]. rewrite take_unpack7. fold (unpack7 data m).
  replace (length buf `min` n)%nat with m by (unfold m; lia).
  assert (Hd : drop m buf = drop n buf).
  { destruct (Nat.le_ge_cases n (length buf)); [now replace m with n by (unfold m; lia)|].
    now rewrite !drop_ge by (unfold m; lia). }
  now rewrite Hd.
Qed.

Lemma unicode_result buf st : (Z.of_nat (length buf) < 2147483648) ->
  ErrDecompress7BitUnicode_ d (Some buf) (Z.of_nat (length buf)) st =
  Some (Result (if Z.of_nat (length buf) <? Z.of_nat (2 * n) then JET_wrnBufferTruncated else JET_errSuccess)
         (Some (take (length buf) (utf16 (unpack7 data n)) ++ drop (2 * n) buf)) (Z.of_nat (2 * n)) st).
Proof.
  intros Hb. pose proof chars7_bounds as (H0 & H1 & H2). unfold ErrDecompress7BitUnicode_. cbn [Pv d].
  rewrite Hhdr. cbn [mbind option_bind]. fold d. rewrite chars7_cdiv.
  rewrite s32_small by lia.
  replace (chars7 data bHeader * 2) with (Z.of_nat (2 * n)) by (unfold n; lia).
  destruct (Z.eqb_spec (Z.of_nat (length buf)) 0) as [E|].
  { destruct buf; [|simpl in E; lia]. rewrite drop_nil. reflexivity. }
  set (m := Nat.min (2 * n) (length buf)).
  replace (Z.min (Z.of_nat (2 * n)) (Z.of_nat (length buf))) with (Z.of_nat (2 * 0 + m)) by (unfold m; lia).
  replace (Z.to_nat (Z.of_nat (2 * 0 + m))) with m by lia.
  change 0 with (Z.of_nat (2 * 0)) at 2.
  assert (Hdiv : (Z.of_nat m + 1) / 2 <= Z.of_nat n).
  { apply Z.lt_succ_r. apply Z.div_lt_upper_bound; unfold m; lia. }
  rewrite (unicode_loop_spec data Hdata m 0 m) by (try apply at7_0; unfold m, n in *; lia).
  cbn [mbind option_bind]. change (2 * 0)%nat with 0%nat. cbn [take app Nat.add].
  rewrite (take_utf16_seq (sym data) m m n) by (unfold m; lia). fold (unpack7 data n).
  assert (Hd : take m (utf16 (unpack7 data n)) ++ drop m buf =
               take (length buf) (utf16 (unpack7 data n)) ++ drop (2 * n) buf).
  { destruct (Nat.le_ge_cases (2 * n) (length buf)).
    - replace m with (2 * n)%nat by (unfold m; lia).
      now rewrite !take_ge by (rewrite length_utf16, length_unpack7; lia).
    - replace m with (length buf) by (unfold m; lia). now rewrite !drop_ge by lia. }
  now rewrite Hd.
Qed.

End Seven.

(** ** A reference packer *)

Fixpoint num7 (text : list Z) : Z :=
  match text with
  | [] => 0
  | v :: text => v + 2 ^ 7 * num7 text
  end.

(** [text] is a list of 7-bit characters; the header names the scheme and the
    number of bits in the last byte. *)
Definition pack7 (scheme : Z) (text : list Z) : list Z :=
  let n := length text in
  let nb := ((7 * n + 7) / 8)%nat in
  (8 * scheme + (7 * Z.of_nat n - 8 * (Z.of_nat nb - 1) - 1)) :: le_bytes nb (num7 text).

Definition text7 (text : list Z) : Prop := Forall (in_u 7) text.

Lemma num7_range text : text7 text -> in_u (7 * Z.of_nat (length text)) (num7 text).
Proof.
  unfold in_u. induction 1 as [|v text Hv _ IH]; [simpl; lia|]. cbn [num7 length].
  replace (7 * Z.of_nat (S (length text))) with (7 + 7 * Z.of_nat (length text)) by lia.
  rewrite Z.pow_add_r by lia. unfold in_u in Hv. change (2 ^ 7) with 128 in *. lia.
Qed.

Lemma num7_digit text k v : text7 text -> text !! k = Some v ->
  Z.shiftr (num7 text) (7 * Z.of_nat k) mod 2 ^ 7 = v.
Proof.
  intros Ht. revert k. induction Ht as [|w text Hw _ IH]; intros k Hk; [easy|].
  cbn [num7]. destruct k as [|k].
  - injection Hk as <-. rewrite Z.mul_0_r, Z.shiftr_0_r, Z.mul_comm, Z.mod_add by lia.
    apply Z.mod_small. exact Hw.
  - rewrite <- (IH k Hk). replace (7 * Z.of_nat (S k)) with (7 + 7 * Z.of_nat k) by lia.
    rewrite <- Z.shiftr_shiftr by lia. do 2 f_equal. rewrite Z.shiftr_div_pow2 by lia.
    rewrite Z.mul_comm, Z.div_add by lia. rewrite Z.div_small by exact Hw. lia.
Qed.

Section Pack.

Context (scheme : Z) (text : list Z).
Hypothesis Htext : text7 text.
Hypothesis Hne : text <> [].
Hypothesis Hscheme : 0 <= scheme < 32.

Let nb := ((7 * length text + 7) / 8)%nat.

Lemma nb_bounds : (7 * length text <= 8 * nb < 7 * length text + 8)%nat /\ (1 <= nb)%nat.
Proof.
  assert (Hl : (1 <= length text)%nat) by (destruct text; [easy|simpl; lia]).
  pose proof (Nat.div_mod_eq (7 * length text + 7) 8) as E.
  pose proof (Nat.mod_upper_bound (7 * length text + 7) 8 ltac:(lia)).
  change ((7 * length text + 7) / 8)%nat with nb in E. lia.
Qed.

Let hdr := 8 * scheme + (7 * Z.of_nat (length text) - 8 * (Z.of_nat nb - 1) - 1).

Lemma pack7_hdr : pack7 scheme text = hdr :: le_bytes nb (num7 text) /\ 0 <= hdr < 256
  /\ Z.shiftr hdr 3 = scheme /\ hdr .& 0x7 = 7 * Z.of_nat (length text) - 8 * (Z.of_nat nb - 1) - 1.
Proof.
  pose proof nb_bounds as [H1 H2]. split; [easy|]. unfold hdr. split; [lia|].
  set (f := 7 * Z.of_nat (length text) - 8 * (Z.of_nat nb - 1) - 1). assert (0 <= f < 8) by (unfold f; lia).
  change 0x7 with (Z.ones 3). rewrite Z.land_ones, Z.shiftr_div_pow2 by lia. change (2 ^ 3) with 8.
  rewrite (Z.mul_comm 8 scheme). split.
  - rewrite Z.div_add_l, Z.div_small by lia. lia.
  - rewrite Z.add_comm, Z.mod_add by lia. apply Z.mod_small. lia.
Qed.

Lemma pack7_bytes : bytes_ok (pack7 scheme text).
Proof.
  destruct pack7_hdr as (-> & Hh & _). constructor; [exact Hh|apply le_bytes_ok].
Qed.

Lemma length_pack7 : length (pack7 scheme text) = S nb.
Proof. destruct pack7_hdr as (-> & _). simpl. now rewrite length_le_bytes. Qed.

Lemma pack7_chars : chars7 (pack7 scheme text) hdr = Z.of_nat (length text).
Proof.
  destruct pack7_hdr as (_ & _ & _ & Hl). unfold chars7. rewrite length_pack7, Hl.
  replace (8 * _ + _) with (Z.of_nat (length text) * 7) by lia. now apply Z.div_mul.
Qed.

Lemma pack7_unpack : unpack7 (pack7 scheme text) (length text) = text.
Proof.
  pose proof nb_bounds as [H1 _]. pose proof (num7_range text Htext) as Hr.
  apply list_eq. intros k.
  change (unpack7 (pack7 scheme text) (length text))
    with (sym (pack7 scheme text) <$> seq 0 (length text)).
  rewrite list_lookup_fmap. destruct (text !! k) as [v|] eqn:E.
  - rewrite lookup_seq_lt by exact (lookup_lt_Some _ _ _ E). cbn [fmap option_fmap option_map Nat.add].
    f_equal. rewrite <- (num7_digit text k v Htext E). unfold sym.
    destruct pack7_hdr as (-> & Hh & _). cbn [le_num].
    rewrite le_num_le_bytes, (Z.mod_small (num7 text)).
    2:{ split; [apply Hr|]. eapply Z.lt_le_trans; [apply Hr|]. apply Z.pow_le_mono_r; lia. }
    rewrite <- Z.shiftr_shiftr by lia. do 2 f_equal. rewrite Z.shiftr_div_pow2 by lia.
    change (2 ^ 8) with 256. rewrite Z.add_comm, Z.mul_comm, Z.div_add_l, Z.div_small by lia. lia.
  - rewrite lookup_seq_ge by (apply lookup_ge_None; exact E). easy.
Qed.

End Pack.
