(* ===== verification/DecompressTop.v ===== *)
(** * DecompressTop: the theorems about the exported [decompress] *)

From S2P Require Import Prelude PtrCache Decompress DecompressSpec Xpress XpressSpec.
From S2P Require Import XpressFrame.

(** The decoder as the program links it: [addr] is where the compressed data
    lies in memory, the only thing the result could depend on besides the
    arguments. *)
Definition xdecode_at (addr : Z) (stream : Z) : list Z -> Z -> Z -> list Z -> Z -> option (Z * list Z) :=
  XpressDecode stream addr.

(** ** The cache of decode streams *)

(** One slot per processor; every cached stream is the one
    [XpressDecodeCreate] returns. *)
Definition worker_ok (st : CDataCompressor) : Prop :=
  exists array, m_rgdecodeXpress st = Some array /\ Z.of_nat (length array) = m_cdecodeCachedMax st
  /\ 0 < m_cdecodeCachedMax st /\ Forall (fun p => p = 0 \/ p = XpressDecodeCreate) array.

Lemma init_worker_ok cproc : 0 < cproc -> worker_ok (ErrInit cproc true).2.
Proof.
  intros H. eexists. cbn. split_and!; [easy|rewrite length_replicate; lia|easy|].
  apply Forall_replicate. now left.
Qed.

Lemma open_ok iproc st : worker_ok st -> 0 <= iproc -> exists st',
  ErrXpressDecodeOpen_ XpressDecodeCreate iproc st = Some (JET_errSuccess, XpressDecodeCreate, st')
  /\ worker_ok st'.
Proof.
  intros (array & Ea & Hl & Hn & Hf) Hi. unfold ErrXpressDecodeOpen_. rewrite Ea. cbn [mbind option_bind].
  destruct (GetCachedPtr_spec iproc array (m_cdecodeCachedMax st) Hi Hn Hl)
    as (p & a & -> & [(-> & -> & _)|(Hp & i & Hr & Ei & ->)]); cbn [mbind option_bind].
  - eexists. split; [easy|]. exists array. now split_and!.
  - apply rd_lookup in Ei. assert (p = XpressDecodeCreate) as ->.
    { pose proof (Forall_lookup_1 _ _ _ _ Hf Ei) as H. now destruct H. }
    eexists. split; [easy|]. eexists. cbn. split_and!; [easy|now rewrite length_insert|easy|].
    apply Forall_insert; [easy|now left].
Qed.

Lemma close_ok iproc st : worker_ok st -> 0 <= iproc -> exists st',
  XpressDecodeClose_ iproc XpressDecodeCreate st = Some st' /\ worker_ok st'.
Proof.
  intros (array & Ea & Hl & Hn & Hf) Hi. unfold XpressDecodeClose_. rewrite Ea.
  change (XpressDecodeCreate =? 0) with false. cbn [mbind option_bind].
  destruct (FCachePtr_spec iproc XpressDecodeCreate array (m_cdecodeCachedMax st) Hi Hn Hl)
    as (f & a & -> & [(_ & -> & _)|(_ & i & Hr & Ei & ->)]); cbn [mbind option_bind].
  - eexists. split; [easy|]. exists array. now split_and!.
  - eexists. split; [easy|]. eexists. cbn. split_and!; [easy|now rewrite length_insert|easy|].
    apply Forall_insert; [easy|now right].
Qed.

(** ** Xpress data *)

Section XpressData.

(** The client is proved against the interface of the decoder. *)
Context (xdecode : Z -> list Z -> Z -> Z -> list Z -> Z -> option (Z * list Z)).
Context {Hx : XpressDecoder (xdecode XpressDecodeCreate)}.

Context (iproc iproc' : Z) (st : CDataCompressor).
Hypothesis Hi : 0 <= iproc.
Hypothesis Hi' : 0 <= iproc'.
Hypothesis Hst : worker_ok st.

Context (hdr lo hi : Z) (comp : list Z).
Hypothesis Hdata : bytes_ok (hdr :: lo :: hi :: comp).
Hypothesis Hlen : Z.of_nat (length (hdr :: lo :: hi :: comp)) < 134217728.

Let data := hdr :: lo :: hi :: comp.
Let size := lo + 256 * hi.

Lemma size_range : 0 <= size < 65536.
Proof.
  unfold size. inversion Hdata as [|? ? _ H1]. inversion H1 as [|? ? Hlo H2].
  inversion H2 as [|? ? Hhi _]. unfold byte_ok in *. lia.
Qed.

Lemma comp_ok : bytes_ok comp.
Proof. inversion Hdata as [|? ? _ H1]. inversion H1 as [|? ? _ H2]. now inversion H2. Qed.

Lemma xpress_size : rd_le 2 data 1 = Some size.
Proof.
  unfold data. rewrite rd_le_Some by (cbn [length]; lia). unfold size.
  change (slice (Z.to_nat 1) 2 (hdr :: lo :: hi :: comp)) with [lo; hi]. cbn [le_num]. f_equal. lia.
Qed.

Lemma comp_size : s32 (Cb (Data data (Z.of_nat (length data))) - 3) = Z.of_nat (length comp).
Proof.
  unfold Cb. cbn [m_cb]. unfold data. cbn [length] in *.
  rewrite (s32_small (Z.of_nat _)), s32_small by lia. lia.
Qed.

(** The result for a buffer of [max > 0] bytes, as the decoder's contract. *)
Lemma xpress_result buf : (0 < length buf)%nat ->
  exists ret b st',
  ErrDecompressXpress_ xdecode XpressDecodeCreate iproc iproc' (Data data (Z.of_nat (length data)))
    (Some buf) (Z.of_nat (length buf)) st =
  Some (Result (if ret =? -1 then JET_errDecompressionFailed
                else if Z.of_nat (length buf) <? size then JET_wrnBufferTruncated else JET_errSuccess)
          (Some (b ++ drop (Z.to_nat size) buf)) size st') /\
  worker_ok st' /\ length b = Nat.min (Z.to_nat size) (length buf) /\
  let wanted := Z.min size (Z.of_nat (length buf)) in
  if (Z.of_nat (length comp) =? size) || (wanted =? 0)
  then ret = wanted /\ b = take (Z.to_nat wanted) buf
  else if sizes_ok size wanted (Z.of_nat (length comp)) then
    match xpress_ref comp size wanted with
    | Some (Some (eof, o)) =>
        if (wanted =? size) && negb eof then ret = -1 else ret = wanted /\ b = o
    | _ => ret = -1
    end
  else ret = -1 /\ b = take (Z.to_nat wanted) buf.
Proof.
  intros Hb. pose proof size_range as Hsz. unfold ErrDecompressXpress_. cbn [Pv].
  rewrite xpress_size. cbn [mbind option_bind]. change (rd data 0) with (Some hdr). cbn [mbind option_bind].
  rewrite (proj2 (Z.eqb_neq (Z.of_nat (length buf)) 0)) by lia.
  destruct (open_ok iproc st Hst Hi) as (st1 & -> & Hst1). cbn [mbind option_bind].
  change (JET_errSuccess <? JET_errSuccess) with false. cbv iota.
  rewrite comp_size. change (drop 3 data) with comp.
  set (wanted := Z.min size (Z.of_nat (length buf))).
  set (w := Z.to_nat wanted).
  destruct (Hx (take w buf) (drop w buf) comp size wanted comp_ok)
    as (ret & b & E & Hlb & Hspec);
    [rewrite length_take; unfold w, wanted; lia|change (2 ^ 16) with 65536; lia|unfold wanted; lia|].
  rewrite take_drop in E. rewrite E. cbn [mbind option_bind].
  destruct (close_ok iproc' st1 Hst1 Hi') as (st2 & -> & Hst2). cbn [mbind option_bind].
  rewrite length_take in Hlb.
  assert (Hd : drop w buf = drop (Z.to_nat size) buf).
  { unfold w, wanted. destruct (Z.le_ge_cases size (Z.of_nat (length buf))).
    - now rewrite Z.min_l by lia.
    - now rewrite !drop_ge by lia. }
  exists ret, b, st2. split; [now rewrite Hd|]. split_and!; [easy|unfold w, wanted in *; lia|].
  exact Hspec.
Qed.

End XpressData.

(** ** The exported function *)

Lemma data_size_u32 (data : list Z) : Z.of_nat (length data) < 134217728 ->
  u32 (Z.of_nat (length data)) = Z.of_nat (length data).
Proof. intros H. apply u32_small. lia. Qed.

(** The full text of packed data. *)
Definition text_of (scheme : Z) (text : list Z) : list Z :=
  if scheme =? COMPRESS_7BITASCII then text else utf16 text.

(** C25: 7-bit text round trip: data packed by the reference packer (ASCII as
    scheme 1, UTF-16 of 7-bit characters as scheme 2) decompresses to the
    original text; a buffer that is too short receives a prefix and the warning
    [JET_wrnBufferTruncated], the rest of a longer one is left alone, and the
    size of the whole text is returned in every case. *)
Theorem decompress_text_roundtrip addr iproc iproc' scheme text buf st :
  scheme = COMPRESS_7BITASCII \/ scheme = COMPRESS_7BITUNICODE ->
  text7 text -> text <> [] -> Z.of_nat (length (pack7 scheme text)) < 134217728 ->
  Z.of_nat (length buf) < 2 ^ 31 ->
  let data := pack7 scheme text in
  let full := text_of scheme text in
  decompress (xdecode_at addr) XpressDecodeCreate iproc iproc' data (Z.of_nat (length data)) (Some buf)
    (Z.of_nat (length buf)) st =
  Some (if Z.of_nat (length buf) <? Z.of_nat (length full) then JET_wrnBufferTruncated else JET_errSuccess,
        Some (take (length buf) full ++ drop (length full) buf), Z.of_nat (length full), st).
Proof.
  intros Hs Ht Hne Hlen Hb. change (2 ^ 31) with 2147483648 in Hb. cbv zeta.
  assert (Hr : 0 <= scheme < 32) by (unfold COMPRESS_7BITASCII, COMPRESS_7BITUNICODE in Hs; lia).
  pose proof (pack7_bytes scheme text Ht Hne Hr) as Hby.
  pose proof (length_pack7 scheme text Ht Hne Hr) as Hl.
  pose proof (nb_bounds text Ht Hne) as [Hb8 Hnb].
  pose proof (pack7_chars scheme text Ht Hne Hr) as Hch.
  pose proof (pack7_unpack scheme text Ht Hne Hr) as Hun.
  destruct (pack7_hdr scheme text Ht Hne Hr) as (Ep & Hh & Hid & _).
  assert (Hsmall : Z.of_nat (length text) < 1073741824).
  { rewrite Hl in Hlen. lia. }
  set (hdr := 8 * scheme + _) in *.
  unfold decompress. rewrite data_size_u32, s32_small by lia.
  assert (Hrd : rd (pack7 scheme text) 0 = Some hdr) by now rewrite Ep.
  unfold ErrDecompress. cbn [Pv]. rewrite Hrd. cbn [mbind option_bind]. rewrite Hid.
  unfold text_of. destruct Hs as [-> | ->].
  - change (COMPRESS_7BITASCII =? COMPRESS_7BITASCII) with true. cbv iota.
    rewrite (ascii_result _ hdr) by (assumption || lia). rewrite Hch, Nat2Z.id, Hun.
    cbn [mbind option_bind r_err r_pbData r_cbActual r_state].
    rewrite (u32_small (Z.of_nat (length text))) by lia.
    destruct (_ <? _); reflexivity.
  - change (COMPRESS_7BITUNICODE =? COMPRESS_7BITASCII) with false.
    change (COMPRESS_7BITUNICODE =? COMPRESS_7BITUNICODE) with true. cbv iota.
    rewrite (unicode_result _ hdr) by (assumption || lia). rewrite Hch, Nat2Z.id, Hun.
    cbn [mbind option_bind r_err r_pbData r_cbActual r_state]. rewrite length_utf16.
    rewrite (u32_small (Z.of_nat (2 * length text))) by lia.
    destruct (_ <? _); reflexivity.
Qed.

Definition worker0 : CDataCompressor := (ErrInit 4 true).2.

Lemma decompress_text_roundtrip_witness :
  decompress (xdecode_at 65536) XpressDecodeCreate 0 1 (pack7 2 [72; 105; 33])
    (Z.of_nat (length (pack7 2 [72; 105; 33]))) (Some [9; 9; 9; 9; 9]) (Z.of_nat 5) worker0 =
  Some (JET_wrnBufferTruncated, Some [72; 0; 105; 0; 33], 6, worker0).
Proof.
  apply (decompress_text_roundtrip 65536 0 1 2 [72; 105; 33] [9; 9; 9; 9; 9] worker0);
    [now right| |easy|vm_compute; reflexivity|vm_compute; reflexivity].
  repeat (constructor; [unfold in_u; lia|]). constructor.
Defined.

(** Data with the bytes [decompress] reads unconditionally: the header, and the size
    word when the scheme is Xpress ([header_present] below decides it). *)
Record input_ok (data : list Z) : Prop := InputOk {
  input_bytes : bytes_ok data;
  input_len : 1 <= Z.of_nat (length data) < 134217728;
  input_size : forall hdr, rd data 0 = Some hdr -> Z.shiftr hdr 3 = COMPRESS_XPRESS -> (3 <= length data)%nat }.

Definition buffer_ok (out : option (list Z)) (cb : Z) : Prop :=
  0 <= cb < 2147483648 /\ (forall buf, out = Some buf -> Z.of_nat (length buf) = cb).

Definition same_length (o o' : option (list Z)) : Prop := length <$> o = length <$> o'.

Lemma input_cases data : input_ok data -> exists hdr rest, data = hdr :: rest /\ 0 <= hdr < 256.
Proof.
  intros [Hb Hl _]. destruct data as [|hdr rest]; [simpl in Hl; lia|]. exists hdr, rest.
  split; [easy|]. now inversion Hb.
Qed.

(** With a single byte no character follows. *)
Lemma single_byte_total hdr : cdiv (cbitTotal (Data [hdr] (Z.of_nat 1)) hdr) 7 =
  if hdr .& 0x7 =? 0 then -1 else 0.
Proof.
  change (Z.of_nat 1) with (Z.of_nat (length [hdr])). rewrite cbitTotal_value by (simpl; lia).
  pose proof (low3_range hdr). cbn [length]. unfold cdiv.
  assert (hdr .& 0x7 = 0 \/ hdr .& 0x7 = 1 \/ hdr .& 0x7 = 2 \/ hdr .& 0x7 = 3 \/ hdr .& 0x7 = 4
          \/ hdr .& 0x7 = 5 \/ hdr .& 0x7 = 6 \/ hdr .& 0x7 = 7) by lia.
  destruct_or!; match goal with H : _ .& _ = _ |- _ => rewrite H end; reflexivity.
Qed.

Section Safe.

Context (addr iproc iproc' : Z) (st : CDataCompressor).
Hypothesis Haddr : XpressDecodeCreate <= addr.
Hypothesis Hi : 0 <= iproc.
Hypothesis Hi' : 0 <= iproc'.
Hypothesis Hst : worker_ok st.

Lemma Hx : XpressDecoder (xdecode_at addr XpressDecodeCreate).
Proof. now apply XpressDecode_decoder. Qed.

(** What every scheme guarantees. *)
Definition outcome_ok (pbData : option (list Z)) (cb : Z) (r : option result) : Prop :=
  exists r', r = Some r' /\ worker_ok (r_state r') /\ same_length pbData (r_pbData r') /\
  (r_err r' = JET_errSuccess \/ r_err r' = JET_wrnBufferTruncated \/ r_err r' = JET_errDecompressionFailed)
  /\ (r_err r' = JET_errSuccess -> r_cbActual r' <= cb).

Lemma ascii_safe data out cb hdr : input_ok data -> buffer_ok out cb -> rd data 0 = Some hdr ->
  outcome_ok out cb (ErrDecompress7BitAscii_ (Data data (Z.of_nat (length data))) out cb st).
Proof.
  intros [Hb Hl _] [Hcb Hbuf] Hrd. destruct out as [buf|].
  - specialize (Hbuf buf eq_refl). subst cb. destruct (Nat.eq_dec (length data) 1%nat) as [E1|].
    + destruct data as [|h [|? ?]]; [discriminate E1| |discriminate E1]. injection Hrd as ->.
      unfold ErrDecompress7BitAscii_. cbn [Pv length]. change (rd [hdr] 0) with (Some hdr).
      cbn [mbind option_bind]. rewrite single_byte_total.
      set (t := if hdr .& 0x7 =? 0 then -1 else 0). assert (Ht : t <= 0) by (unfold t; destruct (_ =? 0); lia). clearbody t.
      rewrite (proj2 (Z.ltb_ge _ t)) by lia. destruct (_ =? 0).
      * eexists. split; [reflexivity|]. cbn. split_and!; [easy|easy|now left|intros _; lia].
      * replace (Z.to_nat (Z.min t _)) with 0%nat by lia. cbn [ascii_loop].
        rewrite (proj2 (Z.ltb_ge 0 _)) by lia. eexists. split; [reflexivity|]. cbn.
        split_and!; [easy|easy|now left|intros _; lia].
    + rewrite (ascii_result data hdr) by (assumption || lia). eexists. split; [reflexivity|]. cbn.
      split_and!; [easy| |destruct (_ <? _); auto|].
      * unfold same_length. cbn. f_equal. rewrite length_app, length_take, length_drop, length_unpack7. lia.
      * destruct (Z.ltb_spec (Z.of_nat (length buf)) (Z.of_nat (Z.to_nat (chars7 data hdr)))); [easy|lia].
  - unfold ErrDecompress7BitAscii_. cbn [Pv]. rewrite Hrd. eexists. split; [reflexivity|]. cbn.
    split_and!; [easy|easy|destruct (_ <? _); auto|].
    destruct (Z.ltb_spec cb (cdiv (cbitTotal (Data data (Z.of_nat (length data))) hdr) 7)); [easy|lia].
Qed.

Lemma unicode_safe data out cb hdr : input_ok data -> buffer_ok out cb -> rd data 0 = Some hdr ->
  outcome_ok out cb (ErrDecompress7BitUnicode_ (Data data (Z.of_nat (length data))) out cb st).
Proof.
  intros [Hb Hl _] [Hcb Hbuf] Hrd. destruct out as [buf|].
  - specialize (Hbuf buf eq_refl). subst cb. destruct (Nat.eq_dec (length data) 1%nat) as [E1|].
    + destruct data as [|h [|? ?]]; [discriminate E1| |discriminate E1]. injection Hrd as ->.
      unfold ErrDecompress7BitUnicode_. cbn [Pv length]. change (rd [hdr] 0) with (Some hdr).
      cbn [mbind option_bind]. rewrite single_byte_total.
      set (t := s32 _). assert (Ht : t <= 0) by (unfold t; destruct (_ =? 0); rewrite s32_small; lia). clearbody t.
      rewrite (proj2 (Z.ltb_ge _ t)) by lia. destruct (_ =? 0).
      * eexists. split; [reflexivity|]. cbn. split_and!; [easy|easy|now left|intros _; lia].
      * replace (Z.to_nat (Z.min t _)) with 0%nat by lia. cbn [unicode_loop].
        rewrite (proj2 (Z.ltb_ge 0 _)) by lia. eexists. split; [reflexivity|]. cbn.
        split_and!; [easy|easy|now left|intros _; lia].
    + rewrite (unicode_result data hdr) by (assumption || lia). eexists. split; [reflexivity|].
      cbn [r_state r_pbData r_err r_cbActual].
      split_and!; [easy| |destruct (_ <? _); auto|].
      * unfold same_length. cbn [fmap option_fmap option_map]. f_equal.
        rewrite length_app, length_take, length_drop, length_utf16, length_unpack7. lia.
      * destruct (Z.ltb_spec (Z.of_nat (length buf)) (Z.of_nat (2 * Z.to_nat (chars7 data hdr)))); [easy|lia].
  - unfold ErrDecompress7BitUnicode_. cbn [Pv]. rewrite Hrd. eexists. split; [reflexivity|]. cbn.
    split_and!; [easy|easy|destruct (_ <? _); auto|].
    destruct (Z.ltb_spec cb (s32 (cdiv (cbitTotal (Data data (Z.of_nat (length data))) hdr) 7 * 2)));
      [easy|lia].
Qed.

Lemma xpress_safe data out cb : input_ok data -> buffer_ok out cb -> (3 <= length data)%nat ->
  outcome_ok out cb (ErrDecompressXpress_ (xdecode_at addr) XpressDecodeCreate iproc iproc'
    (Data data (Z.of_nat (length data))) out cb st).
Proof.
  intros [Hb Hl _] [Hcb Hbuf] H3. destruct data as [|hdr [|lo [|hi comp]]]; try (cbn in H3; lia).
  destruct out as [buf|].
  2:{ unfold ErrDecompressXpress_. cbn [Pv]. rewrite xpress_size. eexists. split; [reflexivity|]. cbn.
      split_and!; [exact Hst|reflexivity|right; left; reflexivity|discriminate]. }
  specialize (Hbuf buf eq_refl). subst cb. destruct (Nat.eq_dec (length buf) 0%nat) as [E0|].
  { unfold ErrDecompressXpress_. cbn [Pv]. rewrite xpress_size. rewrite E0. eexists. split; [reflexivity|]. cbn.
    split_and!; [exact Hst|reflexivity|right; left; reflexivity|discriminate]. }
  destruct (xpress_result (xdecode_at addr) (Hx := Hx) iproc iproc' st Hi Hi' Hst hdr lo hi comp Hb ltac:(lia) buf
              ltac:(lia)) as (ret & b & st' & E & Hst' & Hlb & _).
  rewrite E. clear E. eexists. split; [reflexivity|]. cbn [r_state r_pbData r_err r_cbActual].
  split_and!; [easy| |case_ifs; auto|].
  - unfold same_length. cbn [fmap option_fmap option_map]. f_equal.
    rewrite length_app, length_drop, Hlb. lia.
  - destruct (ret =? -1); [discriminate|].
    destruct (Z.ltb_spec (Z.of_nat (length buf)) (lo + 256 * hi)); [discriminate|lia].
Qed.

Lemma ErrDecompress_safe data out cb : input_ok data -> buffer_ok out cb ->
  outcome_ok out cb (ErrDecompress (xdecode_at addr) XpressDecodeCreate iproc iproc'
    (Data data (Z.of_nat (length data))) out cb st).
Proof.
  intros Hin Hout. destruct (input_cases data Hin) as (hdr & rest & E & Hh).
  assert (Hrd : rd data 0 = Some hdr) by now rewrite E.
  unfold ErrDecompress. cbn [Pv]. rewrite Hrd. cbn [mbind option_bind].
  destruct (_ =? _); [now apply (ascii_safe _ _ _ hdr)|].
  destruct (_ =? _); [now apply (unicode_safe _ _ _ hdr)|].
  destruct (Z.eqb_spec (Z.shiftr hdr 3) COMPRESS_XPRESS).
  { apply xpress_safe; [easy|easy|]. now apply (input_size data Hin hdr). }
  destruct Hout as [Hcb _].
  destruct (_ =? _); eexists; (split; [easy|]); cbn; split_and!; auto; easy || lia.
Qed.

End Safe.

(** The bytes [decompress] reads without a look at the length are there: the header
    byte, and the size word after it when the scheme is Xpress. *)
Definition header_present (data : list Z) : bool :=
  match data with
  | [] => false
  | hdr :: _ => negb (Z.shiftr hdr 3 =? COMPRESS_XPRESS) || (3 <=? Z.of_nat (length data))
  end.

Lemma header_present_ok data : bytes_ok data -> Z.of_nat (length data) < 134217728 ->
  header_present data = true -> input_ok data.
Proof.
  intros Hb Hl Hp. destruct data as [|hdr rest]; [discriminate Hp|]. split; [done|cbn [length] in *; lia|].
  intros h [= <-] Hx. unfold header_present in Hp. rewrite Hx, Z.eqb_refl in Hp. cbn [negb orb] in Hp. lia.
Qed.

Lemma header_missing addr iproc iproc' data out cb st : header_present data = false ->
  decompress (xdecode_at addr) XpressDecodeCreate iproc iproc' data (Z.of_nat (length data)) out cb st = None.
Proof.
  intros Hp. destruct data as [|hdr rest]; [reflexivity|]. unfold header_present in Hp.
  destruct (Z.eqb_spec (Z.shiftr hdr 3) COMPRESS_XPRESS) as [Hx|]; [|discriminate Hp].
  unfold decompress, ErrDecompress. cbn [Pv]. change (rd (hdr :: rest) 0) with (Some hdr).
  cbn [mbind option_bind]. rewrite Hx. cbn [Z.eqb negb orb] in *.
  destruct rest as [|lo [|hi rest]]; [reflexivity..|]. exfalso. apply Z.leb_gt in Hp. cbn [length] in Hp. lia.
Qed.

(** C10: When [decompress] is memory safe.  For any bytes (fewer than 2^27), any buffer
    or none, and on any processor: if the header byte is there, and with it the size
    word when it names Xpress, the call reads and writes only inside its buffers,
    returns, keeps the stream cache well formed, and reports success, truncation or a
    failed decompression, and on success the decompressed data fits the buffer; and if
    they are not there (empty data, or Xpress data of fewer than three bytes) it reads
    outside the data, because the code never compares the length with what it reads of
    the header. *)
Theorem decompress_safe addr iproc iproc' data out cb st :
  XpressDecodeCreate <= addr -> 0 <= iproc -> 0 <= iproc' -> worker_ok st ->
  bytes_ok data -> Z.of_nat (length data) < 134217728 -> buffer_ok out cb ->
  if header_present data then
    exists err out' actual st',
    decompress (xdecode_at addr) XpressDecodeCreate iproc iproc' data (Z.of_nat (length data)) out cb st =
      Some (u32 err, out', u32 actual, st') /\ worker_ok st' /\ same_length out out' /\
    (err = JET_errSuccess \/ err = JET_wrnBufferTruncated \/ err = JET_errDecompressionFailed) /\
    (err = JET_errSuccess -> actual <= cb)
  else
    decompress (xdecode_at addr) XpressDecodeCreate iproc iproc' data (Z.of_nat (length data)) out cb st = None.
Proof.
  intros Ha Hi Hi' Hst Hb Hl Hout. destruct (header_present data) eqn:Hp; [|by apply header_missing].
  pose proof (header_present_ok data Hb Hl Hp) as Hin.
  destruct (ErrDecompress_safe addr iproc iproc' st Ha Hi Hi' Hst data out cb Hin Hout)
    as (r & E & H1 & H2 & H3 & H4).
  exists (r_err r), (r_pbData r), (r_cbActual r), (r_state r). split; [|easy].
  unfold decompress. rewrite data_size_u32 by apply (input_len data Hin).
  rewrite s32_small by (destruct Hout; lia). rewrite E. reflexivity.
Qed.

Lemma worker0_ok : worker_ok worker0.
Proof. apply init_worker_ok. lia. Qed.

(** Xpress data, and no data at all. *)
Lemma decompress_safe_witness :
  (exists err out' actual st',
   decompress (xdecode_at 65536) XpressDecodeCreate 0 3 [0x1b; 2; 0; 7] (Z.of_nat 4) (Some [1]) 1 worker0 =
     Some (u32 err, out', u32 actual, st') /\ worker_ok st' /\ same_length (Some [1]) out' /\
   (err = JET_errSuccess \/ err = JET_wrnBufferTruncated \/ err = JET_errDecompressionFailed) /\
   (err = JET_errSuccess -> actual <= 1)) /\
  decompress (xdecode_at 65536) XpressDecodeCreate 0 3 [] (Z.of_nat 0) None 0 worker0 = None.
Proof.
  split.
  - apply (decompress_safe 65536 0 3 [0x1b; 2; 0; 7] (Some [1]) 1 worker0);
      [unfold XpressDecodeCreate; lia|lia|lia|apply worker0_ok| |cbn; lia|].
    + repeat (constructor; [unfold byte_ok; lia|]); constructor.
    + split; [lia|intros buf [= <-]; reflexivity].
  - apply (decompress_safe 65536 0 3 [] None 0 worker0);
      [unfold XpressDecodeCreate; lia|lia|lia|apply worker0_ok|constructor|cbn; lia|].
    split; [lia|discriminate].
Defined.

Lemma decompress_is_xpress addr iproc iproc' hdr rest cb out cbOut st :
  Z.shiftr hdr 3 = COMPRESS_XPRESS ->
  decompress (xdecode_at addr) XpressDecodeCreate iproc iproc' (hdr :: rest) cb out cbOut st =
  (r ← ErrDecompressXpress_ (xdecode_at addr) XpressDecodeCreate iproc iproc' (Data (hdr :: rest) (u32 cb))
         out (s32 cbOut) st;
   Some (u32 (r_err r), r_pbData r, u32 (r_cbActual r), r_state r)).
Proof.
  intros Hid. unfold decompress, ErrDecompress. cbn [Pv].
  change (rd (hdr :: rest) 0) with (Some hdr). cbn [mbind option_bind]. rewrite Hid. reflexivity.
Qed.



(** The size query: called without a buffer, [decompress] returns the size
    of the data without touching the state; called again with a buffer of that
    size it reports the same size and does not truncate. *)
Theorem size_query addr iproc iproc' data buf st :
  XpressDecodeCreate <= addr -> 0 <= iproc -> 0 <= iproc' -> worker_ok st ->
  input_ok data -> (2 <= length data)%nat ->
  exists err n, decompress (xdecode_at addr) XpressDecodeCreate iproc iproc' data (Z.of_nat (length data))
                  None 0 st = Some (err, None, n, st) /\
  (Z.of_nat (length buf) = n -> 0 < n ->
   exists err' out' st',
   decompress (xdecode_at addr) XpressDecodeCreate iproc iproc' data (Z.of_nat (length data))
     (Some buf) (Z.of_nat (length buf)) st = Some (err', out', n, st') /\
   (err' = JET_errSuccess \/ err' = u32 JET_errDecompressionFailed)).
Proof.
  intros Ha Hi Hi' Hst Hin H2. destruct (input_cases data Hin) as (hdr & rest & Ed & Hh).
  assert (Hrd : rd data 0 = Some hdr) by now rewrite Ed.
  pose proof (input_len data Hin) as Hlen. pose proof (input_bytes data Hin) as Hby.
  pose proof (chars7_bounds data hdr H2 ltac:(lia)) as (Hc0 & _ & Hc1).
  pose proof (chars7_cdiv data hdr H2 ltac:(lia)) as Hcd.
  unfold decompress. rewrite data_size_u32 by lia. change (s32 0) with 0.
  unfold ErrDecompress. cbn [Pv]. rewrite Hrd. cbn [mbind option_bind].
  destruct (_ =? COMPRESS_7BITASCII).
  { unfold ErrDecompress7BitAscii_ at 1. cbn [Pv]. rewrite Hrd. cbn [mbind option_bind]. rewrite Hcd.
    eexists _, _. split; [reflexivity|]. cbn [r_cbActual]. rewrite u32_small by lia. intros Hl Hn.
    rewrite s32_small by lia. rewrite (ascii_result data hdr) by (assumption || lia).
    eexists _, _, _. cbn [mbind option_bind r_err r_pbData r_cbActual r_state].
    rewrite Z2Nat.id, Hl, Z.ltb_irrefl, (u32_small (chars7 data hdr)) by lia. split; [reflexivity|now left]. }
  destruct (_ =? COMPRESS_7BITUNICODE).
  { unfold ErrDecompress7BitUnicode_ at 1. cbn [Pv]. rewrite Hrd. cbn [mbind option_bind].
    rewrite Hcd, s32_small by lia. eexists _, _. split; [reflexivity|]. cbn [r_cbActual].
    rewrite u32_small by lia. intros Hl Hn.
    rewrite s32_small by lia. rewrite (unicode_result data hdr) by (assumption || lia).
    eexists _, _, _. cbn [mbind option_bind r_err r_pbData r_cbActual r_state].
    replace (Z.of_nat (2 * Z.to_nat (chars7 data hdr))) with (chars7 data hdr * 2) by lia.
    rewrite Hl, Z.ltb_irrefl, (u32_small (_ * 2)) by lia. split; [reflexivity|now left]. }
  destruct (Z.eqb_spec (Z.shiftr hdr 3) COMPRESS_XPRESS) as [Ex|].
  { pose proof (input_size data Hin hdr Hrd Ex) as H3.
    destruct data as [|hdr' [|lo [|hi comp]]]; try (cbn in H3; lia). injection Hrd as ->.
    pose proof (size_range hdr lo hi comp Hby) as Hsz.
    unfold ErrDecompressXpress_ at 1. cbn [Pv]. rewrite xpress_size. cbn [mbind option_bind].
    change (rd (hdr :: lo :: hi :: comp) 0) with (Some hdr). cbn [mbind option_bind].
    eexists _, _. split; [reflexivity|]. cbn [r_cbActual]. rewrite u32_small by lia. intros Hl Hn.
    rewrite s32_small by lia.
    destruct (xpress_result (xdecode_at addr) (Hx := Hx addr Ha) iproc iproc' st Hi Hi' Hst hdr lo hi comp
                Hby ltac:(lia) buf ltac:(lia)) as (ret & b & st' & E & _).
    rewrite E. clear E. eexists _, _, _. cbn [mbind option_bind r_err r_pbData r_cbActual r_state].
    rewrite Hl, Z.ltb_irrefl, (u32_small (lo + 256 * hi)) by lia. split; [reflexivity|].
    destruct (ret =? -1); auto. }
  destruct (_ =? COMPRESS_SCRUB); eexists _, _; (split; [reflexivity|]); cbn [r_cbActual];
    change (u32 0) with 0; intros Hl Hn; lia.
Qed.

Lemma size_query_witness :
  exists err n, decompress (xdecode_at 65536) XpressDecodeCreate 0 0 [0x0e; 0xc8; 0x34] (Z.of_nat 3)
                  None 0 worker0 = Some (err, None, n, worker0) /\
  (Z.of_nat (length [5; 5]) = n -> 0 < n ->
   exists err' out' st',
   decompress (xdecode_at 65536) XpressDecodeCreate 0 0 [0x0e; 0xc8; 0x34] (Z.of_nat 3)
     (Some [5; 5]) (Z.of_nat (length [5; 5])) worker0 = Some (err', out', n, st') /\
   (err' = JET_errSuccess \/ err' = u32 JET_errDecompressionFailed)).
Proof.
  apply (size_query 65536 0 0 [0x0e; 0xc8; 0x34] [5; 5] worker0);
    [unfold XpressDecodeCreate; lia|lia|lia|apply worker0_ok| |cbn; lia].
  split; [repeat (constructor; [unfold byte_ok; lia|]); constructor|cbn; lia|].
  intros hdr [= <-]. discriminate.
Defined.

(** ** Inputs on which the code misbehaves *)

(** A single byte 0x08 (7-bit ASCII, one bit in the last byte) is reported
    as success with a size of -1: the caller of [decompress] sees 0xFFFFFFFF
    bytes in a buffer of any size. *)
Theorem single_byte_size addr iproc iproc' out cb st :
  buffer_ok out cb ->
  decompress (xdecode_at addr) XpressDecodeCreate iproc iproc' [0x08] 1 out cb st =
  Some (JET_errSuccess, out, 0xFFFFFFFF, st).
Proof.
  intros [Hcb _]. unfold decompress. rewrite s32_small by lia.
  change (ErrDecompress _ _ _ _ _ out cb st)
    with (ErrDecompress7BitAscii_ (Data [0x08] (Z.of_nat 1)) out cb st).
  unfold ErrDecompress7BitAscii_. cbn [Pv]. change (rd [0x08] 0) with (Some 0x08).
  cbn [mbind option_bind]. rewrite single_byte_total. change (0x08 .& 0x7 =? 0) with true. cbv iota.
  rewrite (proj2 (Z.ltb_ge cb (-1))) by lia. destruct out as [buf|]; [|reflexivity].
  destruct (cb =? 0); [reflexivity|]. replace (Z.min (-1) cb) with (-1) by lia. reflexivity.
Qed.

Lemma single_byte_size_witness :
  decompress (xdecode_at 65536) XpressDecodeCreate 0 0 [0x08] 1 (Some [1; 2]) 2 worker0 =
  Some (JET_errSuccess, Some [1; 2], 0xFFFFFFFF, worker0).
Proof. apply single_byte_size. split; [lia|intros buf [= <-]; reflexivity]. Defined.

(** Xpress data shorter than its three-byte header is read beyond its end:
    the size word is loaded before any length check. *)
Theorem xpress_header_overread addr iproc iproc' hdr rest out cb st :
  Z.shiftr hdr 3 = COMPRESS_XPRESS -> (length rest < 2)%nat ->
  decompress (xdecode_at addr) XpressDecodeCreate iproc iproc' (hdr :: rest) (Z.of_nat (S (length rest)))
    out cb st = None.
Proof.
  intros Hid Hl. rewrite decompress_is_xpress by exact Hid.
  unfold ErrDecompressXpress_. cbn [Pv]. unfold rd_le. cbn [length].
  rewrite (proj2 (Z.leb_gt (1 + Z.of_nat 2) _)) by lia. now rewrite andb_false_r.
Qed.

Lemma xpress_header_overread_witness :
  decompress (xdecode_at 65536) XpressDecodeCreate 0 0 [0x18; 5] (Z.of_nat 2) None 0 worker0 = None.
Proof. apply (xpress_header_overread _ _ _ 0x18 [5]); [reflexivity|cbn; lia]. Defined.

(** When the payload is exactly as long as the announced size, [XpressDecode]
    answers before it decodes: [decompress] reports success and the size, and
    the output buffer is left as it was. *)
Theorem xpress_equal_size_unwritten addr iproc iproc' hdr lo hi comp buf st :
  XpressDecodeCreate <= addr -> 0 <= iproc -> 0 <= iproc' -> worker_ok st ->
  bytes_ok (hdr :: lo :: hi :: comp) -> Z.shiftr hdr 3 = COMPRESS_XPRESS ->
  Z.of_nat (length comp) = lo + 256 * hi -> 0 < lo + 256 * hi <= Z.of_nat (length buf) ->
  Z.of_nat (length buf) < 2147483648 ->
  exists st',
  decompress (xdecode_at addr) XpressDecodeCreate iproc iproc' (hdr :: lo :: hi :: comp)
    (Z.of_nat (length (hdr :: lo :: hi :: comp))) (Some buf) (Z.of_nat (length buf)) st =
  Some (JET_errSuccess, Some buf, lo + 256 * hi, st') /\ worker_ok st'.
Proof.
  intros Ha Hi Hi' Hst Hb Hid Heq Hsz Hlen.
  pose proof (size_range hdr lo hi comp Hb) as Hr.
  assert (Hcl : Z.of_nat (length (hdr :: lo :: hi :: comp)) < 134217728) by (cbn [length]; lia).
  destruct (xpress_result (xdecode_at addr) (Hx := Hx addr Ha) iproc iproc' st Hi Hi' Hst hdr lo hi comp
              Hb Hcl buf ltac:(lia)) as (ret & b & st' & E & Hst' & Hlb & Hspec).
  exists st'. split; [|exact Hst'].
  rewrite decompress_is_xpress, data_size_u32, s32_small by (exact Hid || lia). rewrite E. clear E.
  cbn [mbind option_bind r_err r_pbData r_cbActual r_state]. cbv zeta in Hspec.
  rewrite Z.min_l in Hspec by lia. rewrite (proj2 (Z.eqb_eq _ _) Heq) in Hspec.
  cbn [orb] in Hspec. destruct Hspec as [-> ->].
  rewrite (proj2 (Z.eqb_neq (lo + 256 * hi) (-1))), (proj2 (Z.ltb_ge _ (lo + 256 * hi))),
    (u32_small (lo + 256 * hi)), take_drop by lia. reflexivity.
Qed.

Lemma xpress_equal_size_unwritten_witness :
  exists st',
  decompress (xdecode_at 65536) XpressDecodeCreate 0 0 (0x18 :: 2 :: 0 :: [65; 66])
    (Z.of_nat (length (0x18 :: 2 :: 0 :: [65; 66]))) (Some [0; 0; 0]) (Z.of_nat (length [0; 0; 0])) worker0 =
  Some (JET_errSuccess, Some [0; 0; 0], 2 + 256 * 0, st') /\ worker_ok st'.
Proof.
  apply xpress_equal_size_unwritten;
    [unfold XpressDecodeCreate; lia|lia|lia|apply worker0_ok| |reflexivity|reflexivity|cbn; lia|cbn; lia].
  repeat (constructor; [unfold byte_ok; lia|]). constructor.
Defined.
