(* ===== verification/RedBlack.v ===== *)
(** * RedBlack: the red-black trees of collection.hxx

    [InvasiveRedBlackTree] is a left-leaning red-black tree whose nodes are
    embedded in the objects it indexes; [CRedBlackTree] wraps it with nodes it
    allocates itself.  A subtree is a value here, and [SetLeft], [SetRight]
    and [SetColor] are its reconstruction; a node is its color, its key, its object
    and its subtrees.  That is the abstraction of nodes linked in memory with every
    object in one place; [RedBlackNodes] has the nodes themselves, and shows that the
    operations on them do what the operations here do as long as no object is inserted
    that is linked already (the nodes of [CRedBlackTree] are new ones).
    Dereferencing a null pointer, and a [COLLAssert] that does not hold, is [None]. *)

From S2P Require Import Prelude.

Inductive RedBlackTreeColor := Red | Black.

#[export] Instance RedBlackTreeColor_eq_dec : EqDecision RedBlackTreeColor.
Proof. solve_decision. Defined.

(** What the pointer to a node leads to ([laid] of [RedBlackNodes] relates the two). *)
Inductive tree := Nil | Node (c : RedBlackTreeColor) (l : tree) (k o : Z) (r : tree).

#[export] Instance tree_eq_dec : EqDecision tree.
Proof. solve_decision. Defined.

Inductive ERR := errSuccess | errOutOfMemory | errEntryNotFound | errDuplicateEntry.

#[export] Instance ERR_eq_dec : EqDecision ERR.
Proof. solve_decision. Defined.

Definition flip_color (c : RedBlackTreeColor) : RedBlackTreeColor :=
  match c with Red => Black | Black => Red end.

Definition FIsNonNullAndRed (t : tree) : bool :=
  match t with Node Red _ _ _ _ => true | _ => false end.

(** [pnode->FlipColor()] behind a null check. *)
Definition FlipColor (t : tree) : tree :=
  match t with Nil => Nil | Node c l k o r => Node (flip_color c) l k o r end.

Definition PnodeLeft (t : tree) : option tree :=
  match t with Nil => None | Node _ l _ _ _ => Some l end.

Definition PnodeRight (t : tree) : option tree :=
  match t with Nil => None | Node _ _ _ _ r => Some r end.

Definition is_null (t : tree) : bool := match t with Nil => true | _ => false end.

Definition Color (t : tree) : option RedBlackTreeColor :=
  match t with Nil => None | Node c _ _ _ _ => Some c end.

(** ** Lookups *)

Fixpoint Find_ (t : tree) (key : Z) : option (Z * Z) :=
  match t with
  | Nil => None
  | Node _ l k o r =>
      if key =? k then Some (k, o)
      else if key <? k then Find_ l key else Find_ r key
  end.

Definition ErrFind (t : tree) (key : Z) : ERR * option Z :=
  match Find_ t key with
  | None => (errEntryNotFound, None)
  | Some (_, o) => (errSuccess, Some o)
  end.

Fixpoint nearest (t : tree) (key : Z) : option (Z * Z) :=
  match t with
  | Nil => None
  | Node _ l k o r =>
      if key =? k then Some (k, o)
      else if key <? k then match l with Nil => Some (k, o) | _ => nearest l key end
      else match r with Nil => Some (k, o) | _ => nearest r key end
  end.

Definition ErrFindNearest (t : tree) (key : Z) : ERR * option (Z * Z) :=
  match nearest t key with
  | None => (errEntryNotFound, None)
  | Some x => (errSuccess, Some x)
  end.

(** The loop of [ErrFindGreaterThanOrEqual]; [m] is [pnodeMatch]. *)
Fixpoint find_ge (t : tree) (key : Z) (m : option (Z * Z)) : option (Z * Z) :=
  match t with
  | Nil => m
  | Node _ l k o r =>
      if key =? k then Some (k, o)
      else if key <? k then find_ge l key (Some (k, o)) else find_ge r key m
  end.

Definition ErrFindGreaterThanOrEqual (t : tree) (key : Z) : ERR * option (Z * Z) :=
  match find_ge t key None with
  | None => (errEntryNotFound, None)
  | Some x => (errSuccess, Some x)
  end.

Definition FContainsKey_ (t : tree) (key : Z) : bool :=
  match Find_ t key with None => false | Some _ => true end.

Fixpoint PnodeMin_ (t : tree) : option (Z * Z) :=
  match t with
  | Nil => None
  | Node _ Nil k o _ => Some (k, o)
  | Node _ l _ _ _ => PnodeMin_ l
  end.

(** ** Restructuring *)

Definition RotateLeft_ (t : tree) : option tree :=
  match t with
  | Node c a k o (Node _ b k' o' d) => Some (Node c (Node Red a k o b) k' o' d)
  | _ => None
  end.

Definition RotateRight_ (t : tree) : option tree :=
  match t with
  | Node c (Node _ a k o b) k' o' d => Some (Node c a k o (Node Red b k' o' d))
  | _ => None
  end.

Definition FlipColors_ (t : tree) : option tree :=
  match t with
  | Nil => None
  | Node c l k o r => Some (Node (flip_color c) (FlipColor l) k o (FlipColor r))
  end.

Definition Fixup_ (t : tree) : option tree :=
  r ← PnodeRight t;
  t ← (if FIsNonNullAndRed r then RotateLeft_ t else Some t);
  l ← PnodeLeft t;
  t ← (if FIsNonNullAndRed l
       then ll ← PnodeLeft l;
            if FIsNonNullAndRed ll
            then r ← PnodeRight t; _ ← COLLAssert (negb (FIsNonNullAndRed r)); RotateRight_ t
            else Some t
       else Some t);
  l ← PnodeLeft t;
  r ← PnodeRight t;
  if FIsNonNullAndRed l && FIsNonNullAndRed r then FlipColors_ t else Some t.

Definition MoveRedRight_ (t : tree) : option tree :=
  t ← FlipColors_ t;
  l ← PnodeLeft t;
  ll ← PnodeLeft l;
  if FIsNonNullAndRed ll then t ← RotateRight_ t; FlipColors_ t else Some t.

Definition SetLeft (t l : tree) : option tree :=
  match t with Nil => None | Node c _ k o r => Some (Node c l k o r) end.

Definition SetRight (t r : tree) : option tree :=
  match t with Nil => None | Node c l k o _ => Some (Node c l k o r) end.

Definition MoveRedLeft_ (t : tree) : option tree :=
  t ← FlipColors_ t;
  r ← PnodeRight t;
  rl ← PnodeLeft r;
  if FIsNonNullAndRed rl
  then r ← RotateRight_ r; t ← SetRight t r; t ← RotateLeft_ t; FlipColors_ t
  else Some t.

(** [!FIsNonNullAndRed( p ) && !FIsNonNullAndRed( p->PnodeLeft() )] for a child
    [p]: the second operand dereferences [p]. *)
Definition both_black (p : tree) : option bool :=
  if FIsNonNullAndRed p then Some false
  else pl ← PnodeLeft p; Some (negb (FIsNonNullAndRed pl)).

(** The assertions of [InvasiveContext::AssertValid]. *)
Definition AssertValid (t : tree) : option unit :=
  match t with
  | Nil => None
  | Node c l k _ r =>
      _ ← COLLAssert (match l with Nil => true | Node _ _ kl _ _ => kl <? k end);
      _ ← COLLAssert (match r with Nil => true | Node _ _ kr _ _ => k <? kr end);
      _ ← COLLAssert (is_null l || is_null r ||
                      negb (bool_decide (c = Red) && FIsNonNullAndRed l && FIsNonNullAndRed r));
      COLLAssert (negb (FIsNonNullAndRed r) || FIsNonNullAndRed l)
  end.

(** ** Insertion *)

Fixpoint ErrInsert_ (t : tree) (key obj : Z) : option (ERR * tree) :=
  match t with
  | Nil => Some (errSuccess, Node Red Nil key obj Nil)
  | Node c l k o r =>
      '(err, t) ← (if key =? k then Some (errDuplicateEntry, t)
                   else if key <? k
                   then '(err, l) ← ErrInsert_ l key obj; Some (err, Node c l k o r)
                   else '(err, r) ← ErrInsert_ r key obj; Some (err, Node c l k o r));
      t ← Fixup_ t;
      _ ← AssertValid t;
      Some (err, t)
  end.

(** ** Deletion *)

(** Before descending to the left or to the right of [t], unless the child or
    its left child is red, a red link is moved there. *)
Definition prepare_left (t : tree) : option tree :=
  l ← PnodeLeft t;
  b ← both_black l;
  if (b : bool) then MoveRedLeft_ t else Some t.

Definition prepare_right (t : tree) : option tree :=
  r ← PnodeRight t;
  b ← both_black r;
  if (b : bool) then MoveRedRight_ t else Some t.

Definition rotate_red_left (t : tree) : option tree :=
  l ← PnodeLeft t;
  if FIsNonNullAndRed l then RotateRight_ t else Some t.

Fixpoint RemoveMinNode_ (fuel : nat) (t : tree) : option tree :=
  match fuel with
  | O => None
  | S fuel =>
      l ← PnodeLeft t;
      match l with
      | Nil => r ← PnodeRight t; _ ← COLLAssert (is_null r); Some Nil
      | _ =>
          t ← prepare_left t;
          l ← PnodeLeft t;
          l ← RemoveMinNode_ fuel l;
          t ← SetLeft t l;
          Fixup_ t
      end
  end.

Definition Key (t : tree) : option Z :=
  match t with Nil => None | Node _ _ k _ _ => Some k end.

Definition node_of (t : tree) : option (Z * Z) :=
  match t with Nil => None | Node _ _ k o _ => Some (k, o) end.

(** The node [x] put in the place of the node [t]: its subtrees become [t]'s left
    subtree and [r], its color [t]'s. *)
Definition replace_node (t : tree) (x : Z * Z) (r : tree) : option tree :=
  match t with Nil => None | Node c l _ _ _ => Some (Node c l x.1 x.2 r) end.

(** The subtree after the deletion and the node that was deleted. *)
Fixpoint Delete_ (fuel : nat) (t : tree) (key : Z) : option (tree * (Z * Z)) :=
  match fuel with
  | O => None
  | S fuel =>
      k ← Key t;
      if key <? k then
        t ← prepare_left t;
        l ← PnodeLeft t;
        '(l, del) ← Delete_ fuel l key;
        t ← SetLeft t l;
        t ← Fixup_ t;
        Some (t, del)
      else
        t ← rotate_red_left t;
        k ← Key t;
        r ← PnodeRight t;
        if (key =? k) && is_null r
        then
          l ← PnodeLeft t;
          _ ← COLLAssert (is_null l);
          c ← Color t;
          _ ← COLLAssert (bool_decide (c = Red));
          del ← node_of t;
          Some (Nil, del)
        else
          t ← prepare_right t;
          k ← Key t;
          r ← PnodeRight t;
          if key =? k then
            del ← node_of t;
            pmin ← PnodeMin_ r;
            r ← RemoveMinNode_ fuel r;
            t ← replace_node t pmin r;
            t ← Fixup_ t;
            Some (t, del)
          else
            '(r, del) ← Delete_ fuel r key;
            t ← SetRight t r;
            t ← Fixup_ t;
            Some (t, del)
  end.

Fixpoint node_count (t : tree) : nat :=
  match t with Nil => 0 | Node _ l _ _ r => S (node_count l + node_count r) end.

(** ** The interface *)

Definition FEmpty (t : tree) : bool := is_null t.

Definition ErrInsert (t : tree) (key obj : Z) : option (ERR * tree) :=
  '(err, t) ← ErrInsert_ t key obj;
  _ ← COLLAssert (FContainsKey_ t key);
  Some (err, t).

(** A deletion descends at most [node_count t] levels. *)
Definition ErrDelete (t : tree) (key : Z) : option (ERR * tree * option Z) :=
  if negb (FContainsKey_ t key) then Some (errEntryNotFound, t, None)
  else
    '(t, del) ← Delete_ (node_count t) t key;
    _ ← COLLAssert (negb (FContainsKey_ t key));
    Some (errSuccess, t, Some del.2).

Definition MakeEmpty (t : tree) : tree := Nil.

(** [Move]: the destination must be empty. *)
Definition Move (dest src : tree) : tree * tree :=
  if negb (FEmpty dest) then (dest, src) else (src, Nil).

(** The loop of [ErrMerge] over the root of the source. *)
Fixpoint merge_loop (fuel : nat) (dest src leftOvers : tree) : option (tree * tree * tree) :=
  match src with
  | Nil => Some (dest, src, leftOvers)
  | Node _ _ keyMove objMove _ =>
      match fuel with
      | O => None
      | S fuel =>
          '(errDel, src, _) ← ErrDelete src keyMove;
          _ ← COLLAssert (bool_decide (errDel = errSuccess));
          '(errMove, dest) ← ErrInsert dest keyMove objMove;
          if negb (bool_decide (errMove = errSuccess)) then
            _ ← COLLAssert (bool_decide (errMove = errDuplicateEntry));
            '(errLeftOver, leftOvers) ← ErrInsert leftOvers keyMove objMove;
            _ ← COLLAssert (bool_decide (errLeftOver = errSuccess));
            merge_loop fuel dest src leftOvers
          else merge_loop fuel dest src leftOvers
      end
  end.

Definition ErrMerge (dest src : tree) : option (ERR * tree * tree) :=
  let '(dest, src) := if FEmpty dest then Move dest src else (dest, src) in
  '(dest, src, leftOvers) ← merge_loop (node_count src) dest src Nil;
  if negb (FEmpty leftOvers)
  then let '(src, _) := Move src leftOvers in Some (errDuplicateEntry, dest, src)
  else Some (errSuccess, dest, src).
