(* ===== verification/RedBlackProofs.v ===== *)
(** * RedBlackProofs: the red-black tree as a map

    The two invariants of the tree, its keys in order and its black height
    uniform with red links leaning left, and the behaviour of every operation
    under them: insertion and deletion neither dereference a null pointer nor
    leave the invariants, and act on the in-order sequence of entries as the
    insertion and the removal of one entry. *)

From Stdlib Require Import Sorting.Sorted.
From stdpp Require Import gmap.
From S2P Require Import Prelude RedBlack.

(** ** The in-order sequence *)

Fixpoint entries (t : tree) : list (Z * Z) :=
  match t with Nil => [] | Node _ l k o r => entries l ++ (k, o) :: entries r end.

Definition keys (l : list (Z * Z)) : list Z := l.*1.

Definition ordered (l : list (Z * Z)) : Prop := StronglySorted Z.lt (keys l).

Definition contents (t : tree) : gmap Z Z := list_to_map (entries t).

Lemma node_count_entries (t : tree) : node_count t = length (entries t).
Proof. induction t as [|c l IHl k o r IHr]; simpl; [done|]. rewrite length_app; simpl. lia. Qed.

Lemma ordered_mid (a b : list (Z * Z)) (k o : Z) :
  ordered (a ++ (k, o) :: b) <->
  ordered a /\ ordered b /\ (forall x, x ∈ keys a -> x < k) /\ (forall x, x ∈ keys b -> k < x).
Proof.
  unfold ordered, keys. rewrite fmap_app, fmap_cons. simpl.
  induction a as [|[k' o'] a IH]; simpl.
  - split.
    + intros [Hs Hf]%StronglySorted_inv. rewrite list.Forall_forall in Hf.
      split_and!; [constructor | done | set_solver | done].
    + intros (_ & Hb & _ & Hf). constructor; [done|]. by rewrite list.Forall_forall.
  - split.
    + intros [Hs Hf]%StronglySorted_inv. apply IH in Hs as (Ha & Hb & H1 & H2).
      rewrite Forall_app, list.Forall_cons in Hf. destruct Hf as (Hfa & Hk & _).
      split_and!; [by constructor | done | | done].
      intros x [->|Hx]%list.elem_of_cons; auto.
    + intros (Ha & Hb & H1 & H2). apply StronglySorted_inv in Ha as [Ha Hfa].
      constructor; [apply IH; split_and!; auto; set_solver|].
      assert (k' < k) by (apply H1; set_solver).
      rewrite Forall_app, list.Forall_cons. split_and!; [done|done|].
      rewrite list.Forall_forall. intros x Hx. specialize (H2 x Hx). lia.
Qed.

Lemma ordered_remove (a b : list (Z * Z)) (k o : Z) :
  ordered (a ++ (k, o) :: b) -> ordered (a ++ b).
Proof.
  unfold ordered, keys. rewrite !fmap_app, fmap_cons. simpl.
  induction a as [|x a IH]; simpl; intros [Hs Hf]%StronglySorted_inv; [done|].
  constructor; [by apply IH|].
  rewrite Forall_app in *. rewrite list.Forall_cons in Hf. tauto.
Qed.

Lemma keys_mid (a b : list (Z * Z)) (k o x : Z) :
  x ∈ keys (a ++ (k, o) :: b) <-> x ∈ keys a \/ x = k \/ x ∈ keys b.
Proof. unfold keys. rewrite fmap_app, fmap_cons. set_solver. Qed.

(** ** Shape *)

(** [black_ok n t]: [t] is empty or has a black root, every path of [t] has [n]
    black nodes, and every red node is a left child with black children. *)
Fixpoint black_ok (n : nat) (t : tree) : Prop :=
  match t, n with
  | Nil, O => True
  | Node Black l _ _ r, S n =>
      (black_ok n l \/
       match l with Node Red a _ _ b => black_ok n a /\ black_ok n b | _ => False end) /\
      black_ok n r
  | _, _ => False
  end.

Definition red_ok (n : nat) (t : tree) : Prop :=
  match t with Node Red a _ _ b => black_ok n a /\ black_ok n b | _ => False end.

Definition any_ok (n : nat) (t : tree) : Prop := black_ok n t \/ red_ok n t.

(** A node of color [c] over two black subtrees, and one that may have a red left child. *)
Definition node_bb (c : RedBlackTreeColor) (n : nat) (t : tree) : Prop :=
  match t with Node c' l _ _ r => c' = c /\ black_ok n l /\ black_ok n r | Nil => False end.

Definition node_any (c : RedBlackTreeColor) (n : nat) (t : tree) : Prop :=
  match t with Node c' l _ _ r => c' = c /\ any_ok n l /\ black_ok n r | Nil => False end.

(** The color of the root is the one of a new node, changed at every level the
    tree has grown. *)
Fixpoint root_color (n : nat) : RedBlackTreeColor :=
  match n with O => Red | S n => flip_color (root_color n) end.

Definition balanced (t : tree) : Prop := t = Nil \/ exists n, node_any (root_color n) n t.

Lemma black_ok_S (n : nat) (t : tree) : black_ok (S n) t <-> node_any Black n t.
Proof.
  destruct t as [|[] l k o r]; simpl; unfold any_ok, red_ok; [tauto| |].
  - split; [done|]. intros (? & ?); discriminate.
  - destruct l as [|[] ?]; tauto.
Qed.

Lemma red_ok_node (n : nat) (t : tree) : red_ok n t <-> node_bb Red n t.
Proof. destruct t as [|[] l k o r]; simpl; intuition discriminate. Qed.

Lemma node_bb_any (c : RedBlackTreeColor) (n : nat) (t : tree) : node_bb c n t -> node_any c n t.
Proof. destruct t; simpl; unfold any_ok; tauto. Qed.

Lemma black_ok_not_red (n : nat) (t : tree) : black_ok n t -> FIsNonNullAndRed t = false.
Proof. by destruct t as [|[] ?], n. Qed.

Lemma red_ok_red (n : nat) (t : tree) : red_ok n t -> FIsNonNullAndRed t = true.
Proof. by destruct t as [|[] ?]. Qed.

Lemma black_ok_Red (n : nat) (l r : tree) (k o : Z) : ~ black_ok n (Node Red l k o r).
Proof. destruct n; simpl; tauto. Qed.

(** The shapes a subtree of each kind can have. *)
Ltac shape :=
  repeat match goal with
  | H : black_ok _ (Node Red _ _ _ _) |- _ => destruct (black_ok_Red _ _ _ _ _ H)
  | H : _ /\ _ |- _ => destruct H
  | H : False |- _ => destruct H
  | H : Red = Black |- _ => discriminate H
  | H : Black = Red |- _ => discriminate H
  | H : any_ok _ (Node Black _ _ _ _) |- _ => destruct H as [H|[]]
  | H : any_ok _ (Node Red _ _ _ _) |- _ => destruct H as [H|H]
  | H : any_ok _ Nil |- _ => destruct H as [H|[]]
  | H : red_ok _ _ |- _ => progress simpl in H
  | H : node_bb _ _ (Node _ _ _ _ _) |- _ => simpl in H
  | H : node_any _ _ (Node _ _ _ _ _) |- _ => simpl in H
  | H : black_ok 0 (Node _ _ _ _ _) |- _ => simpl in H
  | H : black_ok (S _) Nil |- _ => simpl in H
  end; subst.

(** Restructured trees with the same entries. *)
Ltac same_entries :=
  repeat first [progress cbn [entries app] | rewrite <- app_assoc]; reflexivity.

(** ** Fixup_ *)

(** Fixup_ on a node whose subtrees have the same black height and at most one
    violation gives a node of the same color and height, or one of the other
    color whose children are a level higher; the entries stay. *)
Lemma Fixup_id (c : RedBlackTreeColor) (n : nat) (l r : tree) (k o : Z) :
  any_ok n l -> black_ok n r -> Fixup_ (Node c l k o r) = Some (Node c l k o r).
Proof.
  intros Hl Hr. unfold Fixup_. simpl.
  rewrite (black_ok_not_red n r Hr). simpl.
  destruct l as [|[] [|[] ? ? ? ?] ? ? ?]; simpl; rewrite ?(black_ok_not_red n r Hr); try done.
  shape.
Qed.

Definition fixed (c : RedBlackTreeColor) (n : nat) (t : tree) : Prop :=
  node_any c n t \/ node_bb (flip_color c) (S n) t.

Lemma Fixup_left (c : RedBlackTreeColor) (n : nat) (l r : tree) (k o : Z) :
  any_ok n l \/ node_any Red n l -> black_ok n r ->
  exists t, Fixup_ (Node c l k o r) = Some t /\ entries t = entries (Node c l k o r) /\ fixed c n t.
Proof.
  intros Hl Hr.
  assert (any_ok n l \/ exists a k' o' b, l = Node Red a k' o' b /\ red_ok n a /\ black_ok n b)
    as [Ha|(a & k' & o' & b & -> & Ha & Hb)].
  { destruct Hl as [?|Hl]; [by left|]. destruct l as [|[] a k' o' b]; simpl in Hl; [done| |by destruct Hl].
    destruct Hl as (_ & [Ha|Ha] & Hb); [left; right; done | right; eauto 10]. }
  - rewrite (Fixup_id c n l r k o) by done. eexists; split_and!; [done..|]. left. done.
  - destruct a as [|[] a1 k1 o1 a2]; shape.
    unfold Fixup_. simpl. do 2 (rewrite (black_ok_not_red n r Hr); simpl).
    eexists; split_and!; [done| |].
    + same_entries.
    + right. simpl. tauto.
Qed.

Lemma Fixup_right_black (c : RedBlackTreeColor) (n : nat) (l r : tree) (k o : Z) :
  black_ok n l -> any_ok n r ->
  exists t, Fixup_ (Node c l k o r) = Some t /\ entries t = entries (Node c l k o r) /\ node_any c n t.
Proof.
  intros Hl [Hr|Hr].
  - rewrite (Fixup_id c n l r k o); [|by left|done].
    eexists; split_and!; [done..|]. simpl. split_and!; [done|by left|done].
  - destruct r as [|[] a k' o' b]; shape. unfold Fixup_. simpl.
    rewrite (black_ok_not_red n l Hl). simpl. rewrite (black_ok_not_red n b) by done.
    eexists; split_and!; [done| |].
    + same_entries.
    + simpl. split_and!; [done | right; done | done].
Qed.

Lemma Fixup_right (c : RedBlackTreeColor) (n : nat) (l r : tree) (k o : Z) :
  any_ok n l -> any_ok n r ->
  exists t, Fixup_ (Node c l k o r) = Some t /\ entries t = entries (Node c l k o r) /\ fixed c n t.
Proof.
  intros [Hl|Hl] Hr.
  - destruct (Fixup_right_black c n l r k o Hl Hr) as (t & ? & ? & ?).
    exists t. split_and!; [done..|by left].
  - destruct Hr as [Hr|Hr]; [apply Fixup_left; [left; by right | done]|].
    destruct l as [|[] a1 k1 o1 b1], r as [|[] a k' o' b]; shape.
    unfold Fixup_. simpl. rewrite (black_ok_not_red n b) by done. simpl.
    eexists; split_and!; [done| |].
    + same_entries.
    + right. simpl. tauto.
Qed.

(** ** Insertion *)

(** The entries after an insertion: one more, at its place. *)
Definition inserted (key obj : Z) (l l' : list (Z * Z)) : Prop :=
  exists a b, l = a ++ b /\ l' = a ++ (key, obj) :: b.

Lemma inserted_left (key obj : Z) (l l' r : list (Z * Z)) :
  inserted key obj l l' -> inserted key obj (l ++ r) (l' ++ r).
Proof. intros (a & b & -> & ->). exists a, (b ++ r). by rewrite <- !app_assoc. Qed.

Lemma inserted_right (key obj : Z) (l r r' : list (Z * Z)) :
  inserted key obj r r' -> inserted key obj (l ++ r) (l ++ r').
Proof. intros (a & b & -> & ->). exists (l ++ a), b. by rewrite <- !app_assoc. Qed.

(** What [ErrInsert_] does to the entries of a subtree, by whether the key is there. *)
Definition insert_effect (key obj : Z) (t : tree) (err : ERR) (t' : tree) : Prop :=
  (err = errSuccess /\ (key ∉ keys (entries t)) /\ inserted key obj (entries t) (entries t') /\
   ordered (entries t')) \/
  (err = errDuplicateEntry /\ (key ∈ keys (entries t)) /\ entries t' = entries t).

Lemma AssertValid_ok (c : RedBlackTreeColor) (n : nat) (t : tree) :
  fixed c n t -> ordered (entries t) -> AssertValid t = Some tt.
Proof.
  intros Hf Ho. destruct t as [|c' l k o r]; [by destruct Hf|].
  assert (FIsNonNullAndRed r = false) as Hr
    by (destruct Hf as [(_ & _ & Hr)|(_ & _ & Hr)]; by eapply black_ok_not_red).
  simpl in Ho. apply ordered_mid in Ho as (_ & _ & Hlt & Hgt). unfold AssertValid. rewrite Hr.
  replace (match l with Nil => true | _ => _ end) with true.
  2: { destruct l; [done|]. symmetry. apply Z.ltb_lt, Hlt. simpl. rewrite keys_mid. auto. }
  replace (match r with Nil => true | _ => _ end) with true.
  2: { destruct r; [done|]. symmetry. apply Z.ltb_lt, Hgt. simpl. rewrite keys_mid. auto. }
  rewrite andb_false_r, orb_true_r. done.
Qed.

Lemma insert_effect_ordered (key obj : Z) (t t' : tree) (err : ERR) :
  insert_effect key obj t err t' -> ordered (entries t) -> ordered (entries t').
Proof. by intros [(_ & _ & _ & H)|(_ & _ & ->)]. Qed.

Definition insert_ok (t : tree) : Prop :=
  forall key obj c n, ordered (entries t) -> node_any c n t ->
  exists err t', ErrInsert_ t key obj = Some (err, t') /\ insert_effect key obj t err t' /\
    fixed c n t' /\ (node_bb c n t -> node_any c n t').

Lemma insert_nil (key obj : Z) :
  ErrInsert_ Nil key obj = Some (errSuccess, Node Red Nil key obj Nil) /\
  insert_effect key obj Nil errSuccess (Node Red Nil key obj Nil).
Proof.
  split; [done|]. left. simpl. split_and!; [done|set_solver| |repeat constructor].
  by exists [], [].
Qed.

Lemma insert_into_black (t : tree) (key obj : Z) (n : nat) :
  insert_ok t -> ordered (entries t) -> black_ok n t ->
  exists err t', ErrInsert_ t key obj = Some (err, t') /\ insert_effect key obj t err t' /\ any_ok n t'.
Proof.
  intros Hi Ho Hb. destruct n as [|n].
  - destruct t as [|[]]; shape. destruct (insert_nil key obj) as [-> ?].
    eexists _, _; split_and!; [done..|]. right. simpl. done.
  - apply black_ok_S in Hb. destruct (Hi key obj Black n Ho Hb) as (err & t' & E & He & Hf & _).
    exists err, t'. split_and!; [done..|]. destruct Hf as [Hf|Hf].
    + left. by apply black_ok_S.
    + right. by apply red_ok_node.
Qed.

Lemma insert_into_any (t : tree) (key obj : Z) (n : nat) :
  insert_ok t -> ordered (entries t) -> any_ok n t ->
  exists err t', ErrInsert_ t key obj = Some (err, t') /\ insert_effect key obj t err t' /\
    (any_ok n t' \/ node_any Red n t') /\ (black_ok n t -> any_ok n t').
Proof.
  intros Hi Ho [Hb|Hr].
  - destruct (insert_into_black t key obj n Hi Ho Hb) as (err & t' & ? & ? & ?).
    exists err, t'. split_and!; auto.
  - assert (FIsNonNullAndRed t = true) as Hred by by apply (red_ok_red n).
    apply red_ok_node in Hr.
    destruct (Hi key obj Red n Ho (node_bb_any _ _ _ Hr)) as (err & t' & E & He & _ & Hf).
    exists err, t'. split_and!; [done..|right; auto|].
    intros Hb. by rewrite (black_ok_not_red n t Hb) in Hred.
Qed.

Lemma insert_effect_left (key obj k o : Z) (c : RedBlackTreeColor) (l r l' t' : tree) (err : ERR) :
  ordered (entries (Node c l k o r)) -> key < k -> insert_effect key obj l err l' ->
  entries t' = entries (Node c l' k o r) -> insert_effect key obj (Node c l k o r) err t'.
Proof.
  intros Ho Hk He Et. unfold insert_effect at 1. rewrite Et.
  destruct He as [(-> & Hn & Hi & Ho')|(-> & Hin & E)]; simpl in *;
    rewrite keys_mid; apply ordered_mid in Ho as (Hl & Hr & Hlt & Hgt).
  - left. split_and!; [done| | by apply inserted_left |].
    + intros [?|[-> |Hx]]; [done|lia|]. specialize (Hgt _ Hx). lia.
    + apply ordered_mid. split_and!; [done|done| |done].
      intros x. destruct Hi as (a & b & E1 & E2). rewrite E2, keys_mid.
      intros [?|[-> |?]]; [|done|]; apply Hlt; rewrite E1; unfold keys; rewrite fmap_app; set_solver.
  - right. split_and!; [done|by left|by rewrite E].
Qed.

Lemma insert_effect_right (key obj k o : Z) (c : RedBlackTreeColor) (l r r' t' : tree) (err : ERR) :
  ordered (entries (Node c l k o r)) -> k < key -> insert_effect key obj r err r' ->
  entries t' = entries (Node c l k o r') -> insert_effect key obj (Node c l k o r) err t'.
Proof.
  intros Ho Hk He Et. unfold insert_effect at 1. rewrite Et.
  destruct He as [(-> & Hn & Hi & Ho')|(-> & Hin & E)]; simpl in *;
    rewrite keys_mid; apply ordered_mid in Ho as (Hl & Hr & Hlt & Hgt).
  - left. split_and!; [done| | |].
    + intros [Hx|[-> |?]]; [|lia|done]. specialize (Hlt _ Hx). lia.
    + apply (inserted_right key obj (entries l ++ [(k, o)])) in Hi. by rewrite <- !app_assoc in Hi.
    + apply ordered_mid. split_and!; [done|done|done|].
      intros x. destruct Hi as (a & b & E1 & E2). rewrite E2, keys_mid.
      intros [?|[-> |?]]; [|done|]; apply Hgt; rewrite E1; unfold keys; rewrite fmap_app; set_solver.
  - right. split_and!; [done|by right; right|by rewrite E].
Qed.

Lemma ErrInsert_ok (t : tree) : insert_ok t.
Proof.
  induction t as [|c l IHl k o r IHr]; intros key obj c' n Ho Hn; [done|].
  simpl in Hn. destruct Hn as (<- & Hl & Hr).
  assert (Ho' := Ho). simpl in Ho'. apply ordered_mid in Ho' as (Hol & Hor & _).
  cbn [ErrInsert_].
  destruct (Z.eqb_spec key k) as [->|Hne]; [|destruct (Z.ltb_spec key k)].
  - cbn [mbind option_bind]. rewrite (Fixup_id c n l r k o Hl Hr). cbn [mbind option_bind].
    assert (fixed c n (Node c l k o r)) as Hf by by left.
    rewrite (AssertValid_ok c n _ Hf Ho). eexists _, _. split_and!; [done| |done|].
    + right. split_and!; [done| |done]. simpl. rewrite keys_mid. auto.
    + apply node_bb_any.
  - destruct (insert_into_any l key obj n IHl Hol Hl) as (err & l' & -> & He & Hl' & Hbl).
    cbn [mbind option_bind].
    destruct (Fixup_left c n l' r k o Hl' Hr) as (t & Ef & Hent & Hf). rewrite Ef.
    assert (insert_effect key obj (Node c l k o r) err t) as He' by by eapply insert_effect_left.
    cbn [mbind option_bind]. rewrite (AssertValid_ok c n t Hf) by by eapply insert_effect_ordered.
    eexists _, _. split_and!; [done..|]. intros (_ & Hbb & _). specialize (Hbl Hbb).
    rewrite (Fixup_id c n l' r k o Hbl Hr) in Ef. injection Ef as <-. done.
  - assert (k < key) by lia.
    destruct (insert_into_black r key obj n IHr Hor Hr) as (err & r' & -> & He & Hr').
    cbn [mbind option_bind].
    destruct (Fixup_right c n l r' k o Hl Hr') as (t & Ef & Hent & Hf). rewrite Ef.
    assert (insert_effect key obj (Node c l k o r) err t) as He' by by eapply insert_effect_right.
    cbn [mbind option_bind]. rewrite (AssertValid_ok c n t Hf) by by eapply insert_effect_ordered.
    eexists _, _. split_and!; [done..|]. intros (_ & Hbb & _).
    destruct (Fixup_right_black c n l r' k o Hbb Hr') as (t2 & Ef2 & _ & ?).
    rewrite Ef in Ef2. injection Ef2 as <-. done.
Qed.

(** ** Deletion *)

(** The shapes a deletion descends into: both subtrees black, a red left child,
    or (below a right rotation) a red right child. *)
Inductive kind := BB | RB | BR.

Definition pre (q : kind) (c : RedBlackTreeColor) (n : nat) (t : tree) : Prop :=
  match t with
  | Nil => False
  | Node c' l _ _ r =>
      c' = c /\
      match q with
      | BB => (n = 0%nat -> c = Red) /\ black_ok n l /\ black_ok n r
      | RB => red_ok n l /\ black_ok n r
      | BR => black_ok n l /\ red_ok n r
      end
  end.

(** The shape it leaves: one level lower at most, and only from [BB]. *)
Definition post (q : kind) (c : RedBlackTreeColor) (n : nat) (t : tree) : Prop :=
  match q with
  | BB => (n = 0%nat /\ t = Nil) \/ node_bb c n t \/
          match n with O => False | S m => node_any (flip_color c) m t end
  | _ => node_any c n t
  end.

Lemma post_any (n : nat) (t : tree) : post BB Red n t -> any_ok n t.
Proof.
  intros [[-> ->]|[H|H]]; [by left | right; by apply red_ok_node |].
  destruct n; [done|]. left. by apply black_ok_S.
Qed.

Lemma post_black (q : kind) (n : nat) (t : tree) :
  q <> BB -> post q Black n t -> black_ok (S n) t.
Proof. intros Hq H. destruct q; [done|by apply black_ok_S..]. Qed.

Lemma flip_color_flip (c : RedBlackTreeColor) : flip_color (flip_color c) = c.
Proof. by destruct c. Qed.

Lemma fixed_post (c : RedBlackTreeColor) (m : nat) (t : tree) :
  fixed (flip_color c) m t -> post BB c (S m) t.
Proof. unfold fixed. rewrite flip_color_flip. intros [H|H]; simpl; auto. Qed.

Lemma both_black_false (p : tree) : FIsNonNullAndRed p = true -> both_black p = Some false.
Proof. unfold both_black. by intros ->. Qed.

(** What preparing a step establishes: the subtree [s1] to descend into, and that
    putting any subtree of the right shape in its place (with [put]) can be fixed up. *)
Definition prepared (q : kind) (c : RedBlackTreeColor) (n : nat)
    (q1 : kind) (s1 : tree) (put : tree -> tree) : Prop :=
  exists c1 n1, pre q1 c1 n1 s1 /\
    forall s2, post q1 c1 n1 s2 ->
    exists t', Fixup_ (put s2) = Some t' /\ entries t' = entries (put s2) /\ post q c n t'.

(** The two outcomes of [MoveRedLeft_] on a node whose children are black:
    a red left child, or a black one that has a red left child. *)
Lemma MoveRedLeft_ok (c : RedBlackTreeColor) (m : nat) (l r : tree) (k o : Z) :
  node_bb Black m l -> node_any Black m r ->
  exists c1 l1 k1 o1 r1 x,
    MoveRedLeft_ (Node c l k o r) = Some (Node c1 l1 k1 o1 r1) /\
    entries (Node c1 l1 k1 o1 r1) = entries (Node c l k o r) /\ entries l1 = entries l ++ x /\
    ((c1 = flip_color c /\ pre BB Red m l1 /\ red_ok m r1) \/
     (c1 = c /\ pre RB Black m l1 /\ black_ok (S m) r1)).
Proof.
  destruct l as [|cl ll kl ol lr]; [done|]. intros (-> & Hll & Hlr).
  destruct r as [|cr rl kr or rr]; [done|]. intros (-> & Hrl & Hrr).
  unfold MoveRedLeft_. simpl. destruct (FIsNonNullAndRed rl) eqn:E.
  - destruct rl as [|[] a ka oa b]; try done. destruct Hrl as [Hrl|[Ha Hb]]; [shape|].
    simpl. rewrite flip_color_flip. eexists _, _, _, _, _, _.
    split_and!; [done | | reflexivity |].
    + same_entries.
    + right. split; [done|]. split; simpl; auto.
  - assert (black_ok m rl) by (destruct Hrl as [?|Hrl]; [done|by rewrite (red_ok_red m rl Hrl) in E]).
    eexists _, _, _, _, _, []. split_and!; [done | done | by rewrite app_nil_r |].
    left. simpl. split_and!; done.
Qed.

Lemma prepare_left_ok (q : kind) (c : RedBlackTreeColor) (n : nat) (l r : tree) (k o : Z) :
  pre q c n (Node c l k o r) -> q <> BR -> l <> Nil ->
  exists c1 l1 k1 o1 r1 x q1,
    prepare_left (Node c l k o r) = Some (Node c1 l1 k1 o1 r1) /\
    entries (Node c1 l1 k1 o1 r1) = entries (Node c l k o r) /\
    entries l1 = entries l ++ x /\ q1 <> BR /\
    prepared q c n q1 l1 (fun s => Node c1 s k1 o1 r1).
Proof.
  intros [_ Hp] Hq Hnil. unfold prepare_left. cbn [PnodeLeft mbind option_bind].
  destruct q; [destruct Hp as (_ & Hl & Hr)|destruct Hp as [Hl Hr]|done].
  - destruct n as [|m]; [destruct l as [|[]]; simpl in Hl; done|].
    assert (Hr' := Hr). apply black_ok_S in Hl, Hr.
    destruct l as [|cl ll kl ol lr]; [done|]. destruct Hl as (-> & [Hll|Hll] & Hlr).
    + unfold both_black. simpl. rewrite (black_ok_not_red m ll Hll). simpl.
      destruct (MoveRedLeft_ok c m (Node Black ll kl ol lr) r k o) as
        (c1 & l1 & k1 & o1 & r1 & x & -> & Hent & Hx & Hcase); [done|done|].
      destruct Hcase as [(-> & Hl1 & Hr1)|(-> & Hl1 & Hr1)].
      * eexists _, _, _, _, _, x, BB. split_and!; try done.
        exists Red, m. split; [done|]. intros s2 Hs%post_any.
        destruct (Fixup_right (flip_color c) m s2 r1 k1 o1 Hs (or_intror Hr1)) as (t' & ? & ? & Hf).
        exists t'. split_and!; [done..|by apply fixed_post].
      * eexists _, _, _, _, _, x, RB. split_and!; try done.
        exists Black, m. split; [done|]. intros s2 Hs%black_ok_S.
        rewrite (Fixup_id c (S m) s2 r1 k1 o1 (or_introl Hs) Hr1).
        eexists. split_and!; [done..|]. right. left. done.
    + unfold both_black. simpl. rewrite (red_ok_red m ll Hll). simpl.
      eexists _, _, _, _, _, [], RB. split_and!; [done|done|by rewrite app_nil_r|done|].
      exists Black, m. split; [done|]. intros s2 Hs%black_ok_S.
      rewrite (Fixup_id c (S m) s2 r k o (or_introl Hs) Hr').
      eexists. split_and!; [done..|]. right. left. done.
  - rewrite (both_black_false l (red_ok_red n l Hl)). simpl.
    eexists _, _, _, _, _, [], BB. split_and!; [done|done|by rewrite app_nil_r|done|].
    exists Red, n. split; [by destruct l as [|[]]; simpl in *; auto|]. intros s2 Hs%post_any.
    rewrite (Fixup_id c n s2 r k o Hs Hr). eexists. split_and!; [done..|].
    simpl. split_and!; done.
Qed.

Lemma PnodeMin_head (t : tree) : PnodeMin_ t = head (entries t).
Proof.
  induction t as [|c l IHl k o r _]; [done|]. cbn [PnodeMin_ entries].
  destruct l as [|cl ll kl ol lr]; [done|].
  rewrite IHl. cbn [entries]. by destruct (entries ll).
Qed.

Lemma entries_nil (t : tree) : entries t = [] -> t = Nil.
Proof. destruct t; [done|]. simpl. by destruct (entries t1). Qed.

Lemma tail_app_mid {A} (a b : list A) : a <> [] -> tail (a ++ b) = tail a ++ b.
Proof. by destruct a. Qed.

Lemma RemoveMinNode_ok (fuel : nat) (q : kind) (c : RedBlackTreeColor) (n : nat) (t : tree) :
  pre q c n t -> q <> BR -> (node_count t <= fuel)%nat ->
  exists t', RemoveMinNode_ fuel t = Some t' /\ entries t' = tail (entries t) /\ post q c n t'.
Proof.
  revert q c n t. induction fuel as [|fuel IH]; intros q c n t Hp Hq Hs;
    [destruct t; [done|simpl in Hs; lia]|].
  destruct t as [|c0 l k o r]; [done|]. assert (c0 = c) as -> by apply Hp.
  cbn [RemoveMinNode_ PnodeLeft mbind option_bind].
  destruct (decide (l = Nil)) as [->|Hl].
  { exists Nil. destruct q; [destruct Hp as (_ & _ & Hl & Hr)|by destruct Hp as (_ & [] & _)|done].
    destruct n; [|done]. destruct r as [|[]]; [|done..]. split_and!; [done..|]. by left. }
  destruct (prepare_left_ok q c n l r k o Hp Hq Hl) as
    (c1 & l1 & k1 & o1 & r1 & x & q1 & E & Hent & Hx & Hq1 & (cc & n1 & Hp1 & Hput)).
  rewrite E. destruct l as [|cl ll kl ol lr]; [done|]. cbn [mbind option_bind PnodeLeft].
  assert (node_count l1 <= fuel)%nat.
  { rewrite !node_count_entries in *. rewrite <- Hent in Hs. simpl in Hs. rewrite length_app in Hs.
    simpl in Hs. lia. }
  destruct (IH q1 cc n1 l1 Hp1 Hq1) as (l2 & -> & Hl2 & Hpost); [done|].
  destruct (Hput l2 Hpost) as (t' & Ef & Hf & Ht'). cbn [mbind option_bind SetLeft].
  exists t'. split_and!; [done| |done].
  rewrite Hf, <- Hent. simpl. rewrite Hl2, tail_app_mid; [done|].
  rewrite Hx. simpl. by destruct (entries ll).
Qed.

(** The key of the root, when there is one, is at most [key]. *)
Definition root_le (t : tree) (key : Z) : Prop := forall k, Key t = Some k -> k <= key.

(** The counterpart of [prepare_left_ok] for a step to the right: [k2] is the key
    of the node after the restructuring. *)
Lemma MoveRedRight_ok (c : RedBlackTreeColor) (m : nat) (l r : tree) (k o key : Z) :
  node_any Black m l -> node_bb Black m r -> k <= key -> ordered (entries (Node c l k o r)) ->
  exists c1 l1 k1 o1 r1,
    MoveRedRight_ (Node c l k o r) = Some (Node c1 l1 k1 o1 r1) /\
    entries (Node c1 l1 k1 o1 r1) = entries (Node c l k o r) /\ k1 <= key /\
    ((c1 = flip_color c /\ red_ok m l1 /\ pre BB Red m r1) \/
     (c1 = c /\ k1 < key /\ black_ok (S m) l1 /\ pre BR Black m r1 /\ root_le r1 key)).
Proof.
  destruct l as [|cl ll kl ol lr]; [done|]. intros (-> & Hll & Hlr).
  destruct r as [|cr rl kr or rr]; [done|]. intros (-> & Hrl & Hrr) Hk Ho.
  assert (kl < k) as Hkl.
  { apply ordered_mid in Ho as (_ & _ & Ho & _). apply Ho. simpl. rewrite keys_mid. auto. }
  unfold MoveRedRight_. simpl. destruct (FIsNonNullAndRed ll) eqn:E.
  - destruct ll as [|[] a ka oa b]; try done. destruct Hll as [Hll|[Ha Hb]]; [shape|].
    simpl. rewrite flip_color_flip. eexists _, _, _, _, _.
    split_and!; [done | same_entries | lia |].
    right. split; [done|]. split; [lia|]. split; [simpl; auto|].
    split; [simpl; auto|]. intros ? [= <-]. done.
  - assert (black_ok m ll) by (destruct Hll as [?|Hll]; [done|by rewrite (red_ok_red m ll Hll) in E]).
    eexists _, _, _, _, _. split_and!; [done | done | done |].
    left. simpl. split_and!; done.
Qed.

Definition prepared_right (q : kind) (c : RedBlackTreeColor) (n : nat) (key : Z) (t t2 : tree) : Prop :=
  exists c2 l2 k2 o2 r2 q2,
    t2 = Node c2 l2 k2 o2 r2 /\ entries t2 = entries t /\ k2 <= key /\
    (k2 = key -> q2 <> BR) /\ (q2 = BR -> root_le r2 key) /\
    forall k3 o3, prepared q c n q2 r2 (fun s => Node c2 l2 k3 o3 s).

Lemma prepare_right_ok (q : kind) (c : RedBlackTreeColor) (n : nat) (l r : tree) (k o key : Z) :
  pre q c n (Node c l k o r) -> q <> RB -> k <= key -> r <> Nil ->
  ordered (entries (Node c l k o r)) ->
  exists t2, prepare_right (Node c l k o r) = Some t2 /\ prepared_right q c n key (Node c l k o r) t2.
Proof.
  intros [_ Hp] Hq Hk Hnil Ho. unfold prepare_right. cbn [PnodeRight mbind option_bind].
  destruct q; [destruct Hp as (_ & Hl & Hr)|done|destruct Hp as [Hl Hr]].
  - destruct n as [|m]; [destruct r as [|[]]; simpl in Hr; done|].
    assert (Hl' := Hl). apply black_ok_S in Hl, Hr.
    destruct r as [|cr rl kr or rr]; [done|]. destruct Hr as (-> & [Hrl|Hrl] & Hrr).
    + unfold both_black. simpl. rewrite (black_ok_not_red m rl Hrl). simpl.
      destruct (MoveRedRight_ok c m l (Node Black rl kr or rr) k o key) as
        (c1 & l1 & k1 & o1 & r1 & -> & Hent & Hk1 & Hcase); [done..|].
      eexists. split; [done|].
      destruct Hcase as [(-> & Hl1 & Hr1)|(-> & Hk1' & Hl1 & Hr1 & Hroot)].
      * eexists _, _, _, _, _, BB. split_and!; try done.
        intros k3 o3. exists Red, m. split; [done|]. intros s2 Hs%post_any.
        destruct (Fixup_right (flip_color c) m l1 s2 k3 o3 (or_intror Hl1) Hs) as (t' & ? & ? & Hf).
        exists t'. split_and!; [done..|by apply fixed_post].
      * eexists _, _, _, _, _, BR. split_and!; try done; [lia|].
        intros k3 o3. exists Black, m. split; [done|]. intros s2 Hs%black_ok_S.
        rewrite (Fixup_id c (S m) l1 s2 k3 o3 (or_introl Hl1) Hs).
        eexists. split_and!; [done..|]. right. left. done.
    + unfold both_black. simpl. rewrite (red_ok_red m rl Hrl). simpl.
      eexists. split; [done|]. eexists _, _, _, _, _, RB. split_and!; try done.
      intros k3 o3. exists Black, m. split; [done|]. intros s2 Hs%black_ok_S.
      rewrite (Fixup_id c (S m) l s2 k3 o3 (or_introl Hl') Hs).
      eexists. split_and!; [done..|]. right. left. done.
  - rewrite (both_black_false r (red_ok_red n r Hr)). simpl.
    eexists. split; [done|]. eexists _, _, _, _, _, BB. split_and!; try done.
    intros k3 o3. exists Red, n. split; [by destruct r as [|[]]; simpl in *; auto|]. intros s2 Hs%post_any.
    apply Fixup_right_black; done.
Qed.

(** Rotating a red left child away leaves a node with a black left subtree. *)
Lemma rotate_red_left_ok (q : kind) (c : RedBlackTreeColor) (n : nat) (l r : tree) (k o key : Z) :
  pre q c n (Node c l k o r) -> k <= key -> ordered (entries (Node c l k o r)) ->
  exists q1 l1 k1 o1 r1,
    rotate_red_left (Node c l k o r) = Some (Node c l1 k1 o1 r1) /\
    entries (Node c l1 k1 o1 r1) = entries (Node c l k o r) /\ k1 <= key /\
    q1 <> RB /\ pre q1 c n (Node c l1 k1 o1 r1) /\
    (r1 = Nil -> q = BB /\ n = 0%nat /\ l1 = Nil /\ c = Red) /\ (forall t', post q1 c n t' -> post q c n t').
Proof.
  intros [_ Hp] Hk Ho. unfold rotate_red_left. simpl. destruct q; [destruct Hp as (Hc & Hl & Hr)|destruct Hp as [Hl Hr]..].
  - rewrite (black_ok_not_red n l Hl). eexists BB, _, _, _, _. split_and!; try done.
    intros ->. destruct n; [|done]. destruct l as [|[]]; [auto|done..].
  - rewrite (red_ok_red n l Hl). destruct l as [|[] a kl ol b]; [done| |done]. destruct Hl as [Ha Hb].
    assert (kl < k).
    { apply ordered_mid in Ho as (_ & _ & Ho & _). apply Ho. simpl. rewrite keys_mid. auto. }
    eexists BR, _, _, _, _. split_and!; [done|same_entries|lia|done|..]; try done.
  - rewrite (black_ok_not_red n l Hl). eexists BR, _, _, _, _. split_and!; try done. by intros ->.
Qed.

(** The entries after a deletion: all but the one deleted. *)
Definition deleted (key : Z) (del : Z * Z) (l l' : list (Z * Z)) : Prop :=
  exists a b, l = a ++ del :: b /\ l' = a ++ b /\ del.1 = key.

Lemma deleted_left (key : Z) (del : Z * Z) (l l' r : list (Z * Z)) :
  deleted key del l l' -> deleted key del (l ++ r) (l' ++ r).
Proof. intros (a & b & -> & -> & ?). exists a, (b ++ r). by rewrite <- !app_assoc. Qed.

Lemma deleted_right (key : Z) (del : Z * Z) (l r r' : list (Z * Z)) :
  deleted key del r r' -> deleted key del (l ++ r) (l ++ r').
Proof. intros (a & b & -> & -> & ?). exists (l ++ a), b. by rewrite <- !app_assoc. Qed.

(** Where the key of an entry is, by comparison with the root's. *)
Lemma in_left (l r : list (Z * Z)) (k o key : Z) :
  ordered (l ++ (k, o) :: r) -> key ∈ keys (l ++ (k, o) :: r) -> key < k -> key ∈ keys l.
Proof.
  intros (_ & _ & _ & Hgt)%ordered_mid [?|[-> |Hx]]%keys_mid Hk; [done|lia|].
  specialize (Hgt _ Hx). lia.
Qed.

Lemma in_right (l r : list (Z * Z)) (k o key : Z) :
  ordered (l ++ (k, o) :: r) -> key ∈ keys (l ++ (k, o) :: r) -> k < key -> key ∈ keys r.
Proof.
  intros (_ & _ & Hlt & _)%ordered_mid [Hx|[-> |?]]%keys_mid Hk; [|lia|done].
  specialize (Hlt _ Hx). lia.
Qed.

Definition delete_ok (fuel : nat) : Prop :=
  forall q c n t key, pre q c n t -> (q = BR -> root_le t key) -> (node_count t <= fuel)%nat ->
  ordered (entries t) -> key ∈ keys (entries t) ->
  exists t' del, Delete_ fuel t key = Some (t', del) /\
    deleted key del (entries t) (entries t') /\ post q c n t'.

Lemma Delete_left_ok (fuel : nat) (q : kind) (c : RedBlackTreeColor) (n : nat)
    (l r : tree) (k o key : Z) :
  delete_ok fuel -> pre q c n (Node c l k o r) -> (q = BR -> k <= key) ->
  (node_count (Node c l k o r) <= S fuel)%nat -> ordered (entries (Node c l k o r)) ->
  key ∈ keys (entries (Node c l k o r)) -> key < k ->
  exists t' del, Delete_ (S fuel) (Node c l k o r) key = Some (t', del) /\
    deleted key del (entries (Node c l k o r)) (entries t') /\ post q c n t'.
Proof.
  intros IH Hp HBR Hs Ho Hin Hk.
  assert (key ∈ keys (entries l)) as Hl by by eapply in_left.
  assert (q <> BR) as Hq by (intros ->; specialize (HBR eq_refl); lia).
  assert (l <> Nil) as Hnil by (intros ->; simpl in Hl; set_solver).
  destruct (prepare_left_ok q c n l r k o Hp Hq Hnil) as
    (c1 & l1 & k1 & o1 & r1 & x & q1 & E & Hent & Hx & Hq1 & (cc & n1 & Hp1 & Hput)).
  cbn [Delete_ Key mbind option_bind]. rewrite (proj2 (Z.ltb_lt key k) Hk), E.
  cbn [mbind option_bind PnodeLeft].
  rewrite node_count_entries, <- Hent in Hs. rewrite <- Hent in Ho |- *. simpl in Ho, Hs.
  rewrite length_app, <- node_count_entries in Hs. simpl in Hs. apply ordered_mid in Ho as (Ho & _).
  destruct (IH q1 cc n1 l1 key Hp1) as (l2 & del & -> & Hdel & Hpost);
    [done | lia | done | rewrite Hx; unfold keys; rewrite fmap_app; set_solver |].
  destruct (Hput l2 Hpost) as (t' & Ef & Hf & Ht'). cbn [mbind option_bind SetLeft]. rewrite Ef.
  eexists _, _. split_and!; [done| |done]. rewrite Hf. by apply deleted_left.
Qed.

Lemma Delete_right_ok (fuel : nat) (q : kind) (c : RedBlackTreeColor) (n : nat)
    (l r : tree) (k o key : Z) :
  delete_ok fuel -> pre q c n (Node c l k o r) ->
  (node_count (Node c l k o r) <= S fuel)%nat -> ordered (entries (Node c l k o r)) ->
  key ∈ keys (entries (Node c l k o r)) -> k <= key ->
  exists t' del, Delete_ (S fuel) (Node c l k o r) key = Some (t', del) /\
    deleted key del (entries (Node c l k o r)) (entries t') /\ post q c n t'.
Proof.
  intros IH Hp Hs Ho Hin Hk. cbn [Delete_ Key mbind option_bind].
  destruct (Z.ltb_spec key k); [lia|].
  destruct (rotate_red_left_ok q c n l r k o key Hp Hk Ho) as
    (q1 & l1 & k1 & o1 & r1 & -> & Hent & Hk1 & Hq1 & Hp1 & Hnil & Hpost1).
  rewrite node_count_entries, <- Hent, <- node_count_entries in Hs. rewrite <- Hent in Ho, Hin |- *.
  clear Hp Hent. cbn [mbind option_bind Key PnodeRight].
  destruct (decide (r1 = Nil)) as [->|Hr1].
  - destruct (Hnil eq_refl) as (-> & -> & -> & ->).
    assert (k1 = key) as -> by (simpl in Hin; set_solver).
    rewrite Z.eqb_refl. simpl. eexists _, _. split_and!; [done| |by left].
    exists [], []. done.
  - destruct (prepare_right_ok q1 c n l1 r1 k1 o1 key Hp1 Hq1 Hk1 Hr1 Ho) as (t2 & -> & Ht2).
    replace ((key =? k1) && _) with false by (destruct r1; [done|by rewrite andb_false_r]).
    destruct Ht2 as (c2 & l2 & k2 & o2 & r2 & q2 & -> & Hent & Hk2 & Hqk & Hq2 & Hput).
    rewrite node_count_entries, <- Hent in Hs. rewrite <- Hent in Ho, Hin |- *. clear Hent.
    simpl in Hs. rewrite length_app in Hs. simpl in Hs. rewrite <- !node_count_entries in Hs.
    simpl in Ho. assert (Ho' := Ho). apply ordered_mid in Ho' as (_ & Hor & _).
    cbn [mbind option_bind Key PnodeRight].
    destruct (Z.eqb_spec key k2) as [->|Hne].
    + (* the root: its successor takes its place *)
      destruct (entries r2) as [|[k3 o3] rest] eqn:Er.
      { apply entries_nil in Er as ->. by destruct (Hput 0 0) as (? & ? & [] & _). }
      rewrite PnodeMin_head, Er. cbn [mbind option_bind head node_of].
      destruct (Hput k3 o3) as (cc & n2 & Hp2 & Hput2).
      destruct (RemoveMinNode_ok fuel q2 cc n2 r2) as (r3 & -> & Hr3 & Hpost); [done|auto|lia|].
      destruct (Hput2 r3 Hpost) as (t' & Ef & Hf & Ht'). cbn [mbind option_bind replace_node fst snd].
      rewrite Ef. eexists _, _. split_and!; [done| |auto]. rewrite Hf. simpl. rewrite Hr3, Er.
      by exists (entries l2), ((k3, o3) :: rest).
    + destruct (Hput k2 o2) as (cc & n2 & Hp2 & Hput2).
      destruct (IH q2 cc n2 r2 key Hp2 Hq2) as (r3 & del & -> & Hdel & Hpost);
        [lia | done | eapply in_right; [done..|lia] |].
      destruct (Hput2 r3 Hpost) as (t' & Ef & Hf & Ht'). cbn [mbind option_bind SetRight].
      rewrite Ef. eexists _, _. split_and!; [done| |auto]. rewrite Hf. simpl.
      apply (deleted_right _ _ (entries l2 ++ [(k2, o2)])) in Hdel. by rewrite <- !app_assoc in Hdel.
Qed.

Lemma Delete_ok (fuel : nat) : delete_ok fuel.
Proof.
  induction fuel as [|fuel IH]; intros q c n t key Hp HBR Hs Ho Hin;
    (destruct t as [|c0 l k o r]; [done|]); [simpl in Hs; lia|].
  assert (c0 = c) as -> by apply Hp.
  destruct (Z.lt_ge_cases key k).
  - apply Delete_left_ok; try done. intros E. by apply HBR.
  - by apply Delete_right_ok.
Qed.

