(* ===== verification/RedBlackMap.v ===== *)
(** * RedBlackMap: the red-black tree implements a finite map

    The interface of the tree against the abstract specification, a finite map
    from keys to objects: every operation succeeds in keeping the invariant,
    reports what the map says and changes the map as the specification does;
    sequences of operations, the depth of the tree and merging follow.  [RedBlackNodes]
    carries the results over to the linked nodes. *)

From Stdlib Require Import Sorting.Sorted.
From stdpp Require Import gmap.
From S2P Require Import Prelude RedBlack RedBlackProofs.

(** The invariant of a tree between calls. *)
Definition tree_ok (t : tree) : Prop := ordered (entries t) /\ balanced t.

Lemma ordered_NoDup (l : list (Z * Z)) : ordered l -> NoDup (keys l).
Proof.
  unfold ordered. induction 1 as [|x xs _ IH Hf]; [constructor|].
  apply list.NoDup_cons. split; [|done]. intros Hx.
  rewrite list.Forall_forall in Hf. specialize (Hf _ Hx). lia.
Qed.

Lemma entries_lookup (l : list (Z * Z)) (k o : Z) :
  ordered l -> (list_to_map l : gmap Z Z) !! k = Some o <-> (k, o) ∈ l.
Proof. intros Hl%ordered_NoDup. symmetry. by apply elem_of_list_to_map. Qed.

Lemma contents_None (t : tree) (k : Z) : contents t !! k = None <-> k ∉ keys (entries t).
Proof. unfold contents. symmetry. apply not_elem_of_list_to_map. Qed.

Lemma contents_Some (t : tree) (k : Z) :
  is_Some (contents t !! k) <-> k ∈ keys (entries t).
Proof.
  rewrite <- not_eq_None_Some, contents_None.
  destruct (decide (k ∈ keys (entries t))); tauto.
Qed.

Lemma contents_inserted (key obj : Z) (t t' : tree) :
  inserted key obj (entries t) (entries t') -> key ∉ keys (entries t) ->
  contents t' = <[key := obj]> (contents t).
Proof.
  intros (a & b & Ea & Eb) Hn. unfold contents. rewrite Ea, Eb in *.
  rewrite !list_to_map_app. simpl. unfold keys in Hn. rewrite fmap_app in Hn.
  rewrite <- insert_union_r; [done|]. apply not_elem_of_list_to_map. set_solver.
Qed.

Lemma contents_deleted (key : Z) (del : Z * Z) (t t' : tree) :
  deleted key del (entries t) (entries t') -> ordered (entries t) ->
  contents t !! key = Some del.2 /\ contents t' = delete key (contents t) /\ ordered (entries t').
Proof.
  intros (a & b & Ea & Eb & <-) Ho. destruct del as [k o]. rewrite Ea in Ho. simpl. split_and!.
  - unfold contents. rewrite Ea. apply entries_lookup; [done|set_solver].
  - unfold contents. rewrite Ea, Eb. rewrite !list_to_map_app. simpl.
    pose proof (ordered_NoDup _ Ho) as Hd. unfold keys in Hd. rewrite fmap_app, fmap_cons in Hd. simpl in Hd.
    apply list.NoDup_app in Hd as (_ & Hab & Hb). apply list.NoDup_cons in Hb as [Hkb _].
    rewrite delete_union, delete_insert_eq, !delete_id; [done| |];
      apply not_elem_of_list_to_map; [done|]. intros Hx. apply (Hab _ Hx). set_solver.
  - rewrite Eb. by eapply ordered_remove.
Qed.

(** ** Insertion and deletion *)

Lemma fixed_balanced (n : nat) (t : tree) : fixed (root_color n) n t -> balanced t.
Proof. intros [H|H]; right; [by eauto | exists (S n); by apply node_bb_any]. Qed.

Lemma post_balanced (q : kind) (n : nat) (t : tree) : post q (root_color n) n t -> balanced t.
Proof.
  destruct q; simpl; [intros [[_ ->]|[H|H]] | intros H; right; by eauto..].
  - by left.
  - right. exists n. by apply node_bb_any.
  - destruct n; [done|]. right. exists n. simpl in H. by rewrite flip_color_flip in H.
Qed.

Lemma balanced_pre (t : tree) :
  balanced t -> t <> Nil -> exists q n, q <> BR /\ pre q (root_color n) n t.
Proof.
  intros [->|(n & H)]; [done|]. destruct t as [|c' l k o r]; [done|]. intros _.
  destruct H as (-> & [Hl|Hl] & Hr); [exists BB, n | exists RB, n]; simpl; split_and!; try done.
  by intros ->.
Qed.

Definition spec_insert (m : gmap Z Z) (key obj : Z) : ERR * gmap Z Z :=
  match m !! key with
  | Some _ => (errDuplicateEntry, m)
  | None => (errSuccess, <[key := obj]> m)
  end.

Definition spec_delete (m : gmap Z Z) (key : Z) : ERR * gmap Z Z * option Z :=
  match m !! key with
  | Some o => (errSuccess, delete key m, Some o)
  | None => (errEntryNotFound, m, None)
  end.

Lemma Find_contents (t : tree) (key : Z) :
  ordered (entries t) -> Find_ t key = (key,.) <$> contents t !! key.
Proof.
  intros Ho. assert (forall o, Find_ t key = Some (key, o) <-> (key, o) ∈ entries t) as H.
  { intros o. induction t as [|c l IHl k o' r IHr]; simpl in *; [set_solver|].
    assert (Ho' := Ho). apply ordered_mid in Ho' as (Hl & Hr & Hlt & Hgt).
    specialize (IHl Hl). specialize (IHr Hr). rewrite elem_of_app, list.elem_of_cons.
    assert (forall l', (key, o) ∈ l' -> key ∈ keys l') as Hk
      by (intros l' Hx; apply (list_elem_of_fmap_2 fst) in Hx; done).
    destruct (Z.eqb_spec key k) as [->|]; [|destruct (Z.ltb_spec key k)].
    - split; [by intros [= ->]; auto|]. intros [Hx|[[= ->]|Hx]]; [|done|].
      + specialize (Hlt _ (Hk _ Hx)). lia.
      + specialize (Hgt _ (Hk _ Hx)). lia.
    - rewrite IHl. split; [by auto|]. intros [Hx|[[= -> ->]|Hx]]; [done|lia|].
      specialize (Hgt _ (Hk _ Hx)). lia.
    - rewrite IHr. split; [by auto|]. intros [Hx|[[= -> ->]|Hx]]; [|lia|done].
      specialize (Hlt _ (Hk _ Hx)). lia. }
  assert (forall p, Find_ t key = Some p -> p.1 = key) as Hk.
  { clear. induction t as [|c l IHl k o r IHr]; [done|]. simpl. intros p.
    destruct (Z.eqb_spec key k); [by intros [= <-]|]. destruct (key <? k); auto. }
  destruct (contents t !! key) as [o|] eqn:E; simpl.
  - apply H. by apply entries_lookup in E.
  - destruct (Find_ t key) as [[k o]|] eqn:Ef; [|done]. specialize (Hk _ eq_refl). simpl in Hk. subst k.
    pose proof (proj1 (H o) eq_refl) as Hin. apply (entries_lookup _ _ _ Ho) in Hin. unfold contents in E. congruence.
Qed.

Lemma FContainsKey_contents (t : tree) (key : Z) :
  ordered (entries t) -> FContainsKey_ t key = bool_decide (is_Some (contents t !! key)).
Proof.
  intros Ho. unfold FContainsKey_. rewrite (Find_contents t key Ho).
  by destruct (contents t !! key).
Qed.

Lemma ErrInsert_map (t : tree) (key obj : Z) :
  tree_ok t -> exists err t', ErrInsert t key obj = Some (err, t') /\ tree_ok t' /\
    (err, contents t') = spec_insert (contents t) key obj.
Proof.
  intros [Ho Hb].
  assert (exists err t', ErrInsert_ t key obj = Some (err, t') /\ insert_effect key obj t err t' /\
    balanced t') as (err & t' & E & He & Hb').
  { destruct Hb as [->|(n & Hn)].
    - eexists _, _. split; [done|]. split; [apply insert_nil|]. right. exists 0%nat.
      simpl. split_and!; [done|by left|done].
    - destruct (ErrInsert_ok t key obj (root_color n) n Ho Hn) as (err & t' & ? & ? & Hf & _).
      exists err, t'. split_and!; [done..|]. by eapply fixed_balanced. }
  assert (ordered (entries t')) as Ho' by by eapply insert_effect_ordered.
  assert ((err, contents t') = spec_insert (contents t) key obj) as Hspec.
  { unfold spec_insert. destruct He as [(-> & Hn & Hi & _)|(-> & Hin & Ee)].
    - rewrite (proj2 (contents_None t key) Hn). by rewrite (contents_inserted key obj t t' Hi Hn).
    - apply contents_Some in Hin as [o ->]. unfold contents. by rewrite Ee. }
  exists err, t'. split_and!; [|done|done]. unfold ErrInsert. rewrite E. cbn [mbind option_bind].
  rewrite (FContainsKey_contents t' key Ho'), bool_decide_true; [done|].
  unfold spec_insert in Hspec. destruct (contents t !! key) as [o|] eqn:El; injection Hspec as _ ->.
  - by eexists.
  - rewrite lookup_insert_eq. by eexists.
Qed.

Lemma ErrDelete_map (t : tree) (key : Z) :
  tree_ok t -> exists err t' res, ErrDelete t key = Some (err, t', res) /\ tree_ok t' /\
    (err, contents t', res) = spec_delete (contents t) key.
Proof.
  intros [Ho Hb]. unfold ErrDelete, spec_delete. rewrite (FContainsKey_contents t key Ho).
  destruct (contents t !! key) as [o|] eqn:E; [|by eexists _, _, _].
  assert (key ∈ keys (entries t)) as Hin by (apply contents_Some; by eexists).
  destruct (balanced_pre t Hb) as (q & n & Hq & Hp); [by intros ->; simpl in Hin; set_solver|].
  destruct (Delete_ok (node_count t) q (root_color n) n t key Hp) as (t' & del & -> & Hdel & Hpost);
    [done..|].
  destruct (contents_deleted key del t t' Hdel Ho) as (E' & Hc & Ho').
  rewrite bool_decide_true by by eexists. cbn [negb mbind option_bind].
  rewrite (FContainsKey_contents t' key Ho'), Hc, lookup_delete_eq.
  eexists _, _, _. split; [done|]. split; [split; [done|by eapply post_balanced]|].
  rewrite Hc. congruence.
Qed.

(** ** Lookups *)

Definition ge (key : Z) (p : Z * Z) : Prop := key <= p.1.

#[export] Instance ge_dec (key : Z) (p : Z * Z) : Decision (ge key p).
Proof. unfold ge. apply _. Defined.

Lemma filter_ge_lt (key : Z) (l : list (Z * Z)) :
  (forall x, x ∈ keys l -> x < key) -> filter (ge key) l = [].
Proof.
  intros H. apply elem_of_nil_inv. intros p [Hge Hp]%list_elem_of_filter.
  apply (list_elem_of_fmap_2 fst) in Hp. specialize (H _ Hp). unfold ge in Hge. lia.
Qed.

Lemma find_ge_head (t : tree) (key : Z) (m : option (Z * Z)) :
  ordered (entries t) ->
  find_ge t key m = match head (filter (ge key) (entries t)) with Some p => Some p | None => m end.
Proof.
  revert m. induction t as [|c l IHl k o r IHr]; intros m Ho; [done|]. simpl in *.
  assert (Ho' := Ho). apply ordered_mid in Ho' as (Hl & Hr & Hlt & Hgt).
  rewrite list.filter_app, filter_cons.
  destruct (Z.eqb_spec key k) as [->|]; [|destruct (Z.ltb_spec key k)].
  - rewrite filter_ge_lt by done. rewrite decide_True by (unfold ge; simpl; lia). done.
  - rewrite IHl by done. rewrite decide_True by (unfold ge; simpl; lia).
    by destruct (filter (ge key) (entries l)).
  - rewrite IHr by done. rewrite (filter_ge_lt key (entries l)).
    + rewrite decide_False by (unfold ge; simpl; lia). done.
    + intros x Hx. specialize (Hlt _ Hx). lia.
Qed.

Lemma head_filter_least (key : Z) (l : list (Z * Z)) (p : Z * Z) :
  ordered l -> head (filter (ge key) l) = Some p ->
  p ∈ l /\ key <= p.1 /\ forall x, x ∈ keys l -> key <= x -> p.1 <= x.
Proof.
  induction l as [|[k o] l IH]; [done|]. intros Ho.
  apply (ordered_mid [] l k o) in Ho as (_ & Ho & _ & Hgt). rewrite filter_cons.
  destruct (decide (ge key (k, o))) as [Hge|Hge]; unfold ge in Hge; simpl in *.
  - intros [= <-]. simpl. split_and!; [set_solver|done|].
    intros x [-> |Hx]%list.elem_of_cons _; [lia|]. specialize (Hgt _ Hx). lia.
  - intros Hf. destruct (IH Ho Hf) as (Hin & Hp & Hmin). split_and!; [set_solver|done|].
    intros x [-> |Hx]%list.elem_of_cons ?; [lia|]. by apply Hmin.
Qed.

(** [least_ge m key r]: [r] is the entry of [m] with the least key not below [key]. *)
Definition least_ge (m : gmap Z Z) (key : Z) (r : option (Z * Z)) : Prop :=
  match r with
  | Some (k, o) => m !! k = Some o /\ key <= k /\ forall x, is_Some (m !! x) -> key <= x -> k <= x
  | None => forall x, is_Some (m !! x) -> x < key
  end.

Lemma find_ge_least (t : tree) (key : Z) :
  ordered (entries t) -> least_ge (contents t) key (find_ge t key None).
Proof.
  intros Ho. rewrite find_ge_head by done.
  destruct (head (filter (ge key) (entries t))) as [[k o]|] eqn:E.
  - destruct (head_filter_least key (entries t) (k, o) Ho E) as (Hin & Hk & Hmin).
    split_and!; [by apply entries_lookup | done |]. intros x Hx. apply Hmin. by apply contents_Some.
  - intros x Hx%contents_Some. apply head_None in E. apply Z.lt_nge. intros Hge.
    apply list_elem_of_fmap_1 in Hx as (p & -> & Hp).
    assert (p ∈ filter (ge key) (entries t)) as Hf by (apply list_elem_of_filter; done).
    rewrite E in Hf. set_solver.
Qed.

(** [adjacent m key k]: no key of [m] lies between [key] and [k] ([k] apart). *)
Definition adjacent (m : gmap Z Z) (key k : Z) : Prop :=
  forall x, is_Some (m !! x) -> ~ (key <= x < k) /\ ~ (k < x <= key).

Lemma nearest_adjacent (t : tree) (key : Z) :
  ordered (entries t) -> t <> Nil ->
  exists k o, nearest t key = Some (k, o) /\ contents t !! k = Some o /\ adjacent (contents t) key k.
Proof.
  intros Ho Hnil.
  assert (exists k o, nearest t key = Some (k, o) /\ (k, o) ∈ entries t /\
    forall x, x ∈ keys (entries t) -> ~ (key <= x < k) /\ ~ (k < x <= key)) as (k & o & E & Hin & Had).
  { induction t as [|c l IHl k o r IHr]; [done|]. clear Hnil. cbn [entries nearest] in *.
    assert (Ho' := Ho). apply ordered_mid in Ho' as (Hl & Hr & Hlt & Hgt).
    assert (forall p l', p ∈ l' -> p.1 ∈ keys l') as Hk by (intros; by apply list_elem_of_fmap_2).
    destruct (Z.eqb_spec key k) as [->|]; [|destruct (Z.ltb_spec key k)].
    - exists k, o. split_and!; [done|set_solver|lia].
    - destruct (decide (l = Nil)) as [->|Hn].
      + exists k, o. split_and!; [done|set_solver|]. intros x Hx. apply (keys_mid [] _ k o) in Hx.
        destruct Hx as [Hx|[-> |Hx]]; [by apply elem_of_nil in Hx | lia | specialize (Hgt _ Hx); lia].
      + destruct (IHl Hl Hn) as (k1 & o1 & E & Hin & Had). exists k1, o1.
        split_and!; [by destruct l|set_solver|]. specialize (Hlt _ (Hk _ _ Hin)). simpl in Hlt.
        intros x [Hx|[-> |Hx]]%keys_mid; [by apply Had|lia|specialize (Hgt _ Hx); lia].
    - destruct (decide (r = Nil)) as [->|Hn].
      + exists k, o. split_and!; [done|set_solver|].
        intros x [Hx|[-> |Hx]]%keys_mid; [specialize (Hlt _ Hx); lia | lia | by apply elem_of_nil in Hx].
      + destruct (IHr Hr Hn) as (k1 & o1 & E & Hin & Had). exists k1, o1.
        split_and!; [by destruct r|set_solver|]. specialize (Hgt _ (Hk _ _ Hin)). simpl in Hgt.
        intros x [Hx|[-> |Hx]]%keys_mid; [specialize (Hlt _ Hx); lia|lia|by apply Had]. }
  exists k, o. split_and!; [done|by apply entries_lookup|].
  intros x Hx%contents_Some. by apply Had.
Qed.

(** ** Depth *)

Fixpoint depth (t : tree) : nat :=
  match t with Nil => 0 | Node _ l _ _ r => S (Nat.max (depth l) (depth r)) end.

Lemma black_ok_count (n : nat) (t : tree) :
  black_ok n t -> (2 ^ n <= S (node_count t) /\ depth t <= 2 * n)%nat.
Proof.
  revert t. induction n as [|n IH]; intros t H; [by destruct t as [|[]]|].
  apply black_ok_S in H. destruct t as [|c l k o r]; [done|]. destruct H as (-> & Hl & Hr).
  apply IH in Hr. assert (2 ^ n <= S (node_count l) /\ depth l <= S (2 * n))%nat as [? ?].
  { destruct Hl as [Hl%IH|Hl]; [lia|]. destruct l as [|[] a ? ? b]; try done.
    destruct Hl as [?%IH ?%IH]. simpl. lia. }
  rewrite Nat.pow_succ_r'. simpl. lia.
Qed.

Lemma balanced_depth (t : tree) : balanced t -> (2 ^ depth t <= S (node_count t) ^ 2)%nat.
Proof.
  intros [->|(n & H)]; [by simpl|]. destruct t as [|c' l k o r]; [done|].
  destruct H as (-> & Hl & Hr). apply black_ok_count in Hr.
  assert (2 ^ n <= S (node_count l) /\ depth l <= S (2 * n))%nat as [? ?].
  { destruct Hl as [Hl%black_ok_count|Hl]; [lia|]. destruct l as [|[] a ? ? b]; try done.
    destruct Hl as [?%black_ok_count ?%black_ok_count]. simpl. lia. }
  transitivity (2 ^ (2 * S n))%nat.
  - apply Nat.pow_le_mono_r; [lia|]. simpl. lia.
  - rewrite Nat.mul_comm, Nat.pow_mul_r. apply Nat.pow_le_mono_l.
    rewrite Nat.pow_succ_r'. simpl. lia.
Qed.

(** ** Merging *)

Lemma node_count_contents (t : tree) : ordered (entries t) -> node_count t = size (contents t).
Proof.
  intros Ho%ordered_NoDup. unfold contents. rewrite node_count_entries.
  by rewrite map_size_list_to_map.
Qed.

Lemma tree_ok_Nil : tree_ok Nil.
Proof. split; [constructor | by left]. Qed.

Lemma FEmpty_contents (t : tree) : FEmpty t = true <-> contents t = ∅.
Proof.
  split; [by destruct t|]. intros H. destruct t as [|c l k o r]; [done|]. exfalso.
  assert (k ∈ keys (entries (Node c l k o r))) as [o' Hs]%contents_Some by (simpl; rewrite keys_mid; auto).
  rewrite H in Hs. by rewrite lookup_empty in Hs.
Qed.

(** One entry moved from [src]: its key is in [dest] already, or not. *)
Lemma merge_duplicate (dest src lo : gmap Z Z) (k o o' : Z) :
  dest !! k = Some o' -> src !! k = Some o -> lo !! k = None ->
  dest ∪ delete k src = dest ∪ src /\
  <[k := o]> lo ∪ (delete k src ∩ dest) = lo ∪ (src ∩ dest).
Proof.
  intros Hd Hs Hl. split; apply map_eq; intros i; rewrite !lookup_union, ?lookup_intersection;
    (destruct (decide (i = k)) as [->|]; [|by rewrite ?lookup_insert_ne, ?lookup_delete_ne by done]).
  - by rewrite lookup_delete_eq, Hd, Hs.
  - by rewrite lookup_insert_eq, lookup_delete_eq, Hd, Hs, Hl.
Qed.

Lemma merge_fresh (dest src lo : gmap Z Z) (k o : Z) :
  dest !! k = None -> src !! k = Some o ->
  <[k := o]> dest ∪ delete k src = dest ∪ src /\
  lo ∪ (delete k src ∩ <[k := o]> dest) = lo ∪ (src ∩ dest).
Proof.
  intros Hd Hs. split; apply map_eq; intros i; rewrite !lookup_union, ?lookup_intersection;
    (destruct (decide (i = k)) as [->|]; [|by rewrite ?lookup_insert_ne, ?lookup_delete_ne by done]).
  - by rewrite lookup_insert_eq, lookup_delete_eq, Hd, Hs.
  - by rewrite lookup_insert_eq, lookup_delete_eq, Hd, Hs.
Qed.

Lemma merge_loop_Nil (fuel : nat) (dest lo : tree) : merge_loop fuel dest Nil lo = Some (dest, Nil, lo).
Proof. by destruct fuel. Qed.

Lemma merge_loop_ok (fuel : nat) (dest src lo : tree) :
  tree_ok dest -> tree_ok src -> tree_ok lo -> (node_count src <= fuel)%nat ->
  contents src ##ₘ contents lo ->
  exists dest' lo', merge_loop fuel dest src lo = Some (dest', Nil, lo') /\ tree_ok dest' /\ tree_ok lo' /\
    contents dest' = contents dest ∪ contents src /\
    contents lo' = contents lo ∪ (contents src ∩ contents dest).
Proof.
  revert dest src lo. induction fuel as [|fuel IH]; intros dest src lo Hd Hs Hlo Hfuel Hdis;
    (destruct src as [|c l k o r];
      [rewrite merge_loop_Nil; exists dest, lo; change (contents Nil) with (∅ : gmap Z Z);
       rewrite (left_absorb_L ∅ (∩) (contents dest)), !(right_id_L ∅ (∪)); done|]).
  { simpl in Hfuel. lia. }
  assert (contents (Node c l k o r) !! k = Some o) as Hk
    by (apply entries_lookup; [apply Hs|simpl; set_solver]).
  cbn [merge_loop]. remember (Node c l k o r) as src eqn:E. clear E.
  destruct (ErrDelete_map src k Hs) as (e & src' & res & -> & Hs' & Espec).
  unfold spec_delete in Espec. rewrite Hk in Espec. injection Espec as -> Esrc ->.
  destruct (ErrInsert_map dest k o Hd) as (e & dest' & -> & Hd' & Edest).
  assert (node_count src' <= fuel)%nat as Hfuel'.
  { rewrite node_count_contents in Hfuel |- * by (apply Hs || apply Hs').
    rewrite Esrc, map_size_delete, Hk. simpl. lia. }
  cbn [mbind option_bind]. unfold spec_insert in Edest.
  destruct (contents dest !! k) as [o'|] eqn:Ed; injection Edest as -> Edest; simpl.
  - destruct (ErrInsert_map lo k o Hlo) as (e & lo' & -> & Hlo' & Elo).
    assert (contents lo !! k = None) as Hn by by eapply map_disjoint_Some_l.
    unfold spec_insert in Elo. rewrite Hn in Elo. injection Elo as -> Elo.
    cbn [mbind option_bind].
    destruct (IH dest' src' lo') as (d2 & l2 & -> & ? & ? & E1 & E2); try done.
    { rewrite Esrc, Elo. apply map_disjoint_insert_r. split; [apply lookup_delete_eq|].
      by apply map_disjoint_delete_l. }
    destruct (merge_duplicate _ _ _ k o o' Ed Hk Hn) as [M1 M2].
    rewrite Edest, Esrc in E1, E2. rewrite Elo, M2 in E2. rewrite M1 in E1. by exists d2, l2.
  - destruct (IH dest' src' lo) as (d2 & l2 & -> & ? & ? & E1 & E2); try done.
    { rewrite Esrc. by apply map_disjoint_delete_l. }
    destruct (merge_fresh _ _ (contents lo) k o Ed Hk) as [M1 M2].
    rewrite Edest, Esrc in E1, E2. rewrite M2 in E2. rewrite M1 in E1. by exists d2, l2.
Qed.

(** ** Sequences of operations *)

Inductive op := OpInsert (key obj : Z) | OpDelete (key : Z) | OpFind (key : Z).

Definition step (t : tree) (x : op) : option (tree * (ERR * option Z)) :=
  match x with
  | OpInsert key obj => '(err, t) ← ErrInsert t key obj; Some (t, (err, None))
  | OpDelete key => '(err, t, res) ← ErrDelete t key; Some (t, (err, res))
  | OpFind key => Some (t, ErrFind t key)
  end.

Fixpoint run (t : tree) (ops : list op) : option (tree * list (ERR * option Z)) :=
  match ops with
  | [] => Some (t, [])
  | x :: ops => '(t, res) ← step t x; '(t, l) ← run t ops; Some (t, res :: l)
  end.

(** The same operations on a map. *)
Definition spec_find (m : gmap Z Z) (key : Z) : ERR * option Z :=
  match m !! key with
  | Some o => (errSuccess, Some o)
  | None => (errEntryNotFound, None)
  end.

Definition spec_step (m : gmap Z Z) (x : op) : gmap Z Z * (ERR * option Z) :=
  match x with
  | OpInsert key obj => let '(err, m) := spec_insert m key obj in (m, (err, None))
  | OpDelete key => let '(err, m, res) := spec_delete m key in (m, (err, res))
  | OpFind key => (m, spec_find m key)
  end.

Fixpoint spec_run (m : gmap Z Z) (ops : list op) : gmap Z Z * list (ERR * option Z) :=
  match ops with
  | [] => (m, [])
  | x :: ops =>
      let '(m, res) := spec_step m x in let '(m, l) := spec_run m ops in (m, res :: l)
  end.

Lemma ErrFind_map (t : tree) (key : Z) : tree_ok t -> ErrFind t key = spec_find (contents t) key.
Proof.
  intros [Ho _]. unfold ErrFind, spec_find. rewrite Find_contents by done.
  by destruct (contents t !! key).
Qed.

Lemma step_map (t : tree) (x : op) :
  tree_ok t -> exists t' res, step t x = Some (t', res) /\ tree_ok t' /\
    spec_step (contents t) x = (contents t', res).
Proof.
  intros Ht. destruct x as [key obj|key|key]; simpl.
  - destruct (ErrInsert_map t key obj Ht) as (err & t' & -> & ? & <-). simpl. by eexists _, _.
  - destruct (ErrDelete_map t key Ht) as (err & t' & res & -> & ? & <-). simpl. by eexists _, _.
  - rewrite ErrFind_map by done. by eexists _, _.
Qed.

Lemma run_map (ops : list op) (t : tree) :
  tree_ok t -> exists t' res, run t ops = Some (t', res) /\ tree_ok t' /\
    spec_run (contents t) ops = (contents t', res).
Proof.
  revert t. induction ops as [|x ops IH]; intros t Ht; simpl; [by eexists _, _|].
  destruct (step_map t x Ht) as (t1 & r & -> & Ht1 & ->). simpl.
  destruct (IH t1 Ht1) as (t2 & l & -> & Ht2 & ->). simpl. by eexists _, _.
Qed.


(** ** The claims *)

Definition sample : tree :=
  match run Nil [OpInsert 4 104; OpInsert 2 102; OpInsert 6 106; OpInsert 1 101; OpInsert 3 103;
                 OpInsert 5 105; OpInsert 7 107; OpDelete 4] with
  | Some (t, _) => t
  | None => Nil
  end.

Lemma sample_ok : tree_ok sample.
Proof.
  unfold sample.
  match goal with |- context [run Nil ?ops] =>
    destruct (run_map ops Nil tree_ok_Nil) as (t & res & -> & H & _) end.
  exact H.
Qed.

(** the two ordered lookups.  ErrFindGreaterThanOrEqual returns the entry
    with the least key that is not below the given one, or errEntryNotFound
    when every key is below it; ErrFindNearest on a tree with entries returns an
    entry such that no key of the tree lies between it and the given key, which
    is therefore the entry of the key itself when there is one. *)
Theorem tree_ordered_lookups (t : tree) (key : Z) :
  tree_ok t ->
  (exists r, ErrFindGreaterThanOrEqual t key =
      (match r with Some _ => errSuccess | None => errEntryNotFound end, r) /\
      least_ge (contents t) key r) /\
  (FEmpty t = true -> ErrFindNearest t key = (errEntryNotFound, None)) /\
  (FEmpty t = false -> exists k o, ErrFindNearest t key = (errSuccess, Some (k, o)) /\
      contents t !! k = Some o /\ adjacent (contents t) key k /\
      (is_Some (contents t !! key) -> k = key)).
Proof.
  intros [Ho _]. split; [|split].
  - exists (find_ge t key None). split; [|by apply find_ge_least].
    unfold ErrFindGreaterThanOrEqual. by destruct (find_ge t key None).
  - by destruct t.
  - intros Hf. destruct (nearest_adjacent t key Ho) as (k & o & E & Hk & Had); [by intros ->|].
    exists k, o. unfold ErrFindNearest. rewrite E. split_and!; [done..|].
    intros Hkey. specialize (Had key Hkey). lia.
Qed.

Lemma tree_ordered_lookups_witness :
  tree_ok sample /\
  (exists r, ErrFindGreaterThanOrEqual sample 4 =
      (match r with Some _ => errSuccess | None => errEntryNotFound end, r) /\
      least_ge (contents sample) 4 r) /\
  ErrFindGreaterThanOrEqual sample 4 = (errSuccess, Some (5, 105)).
Proof.
  split; [exact sample_ok|]. split; [exact (proj1 (tree_ordered_lookups sample 4 sample_ok))|].
  vm_compute. reflexivity.
Defined.

(** ErrMerge moves the entries of the source whose keys the destination
    lacks and leaves exactly the duplicates in the source: afterwards the
    destination holds the union (its own objects winning), the source the
    entries whose keys the destination had, and the result is errDuplicateEntry
    when there are any and errSuccess otherwise.  It always terminates, and
    its assertions on error codes hold. *)
Theorem ErrMerge_union (dest src : tree) :
  tree_ok dest -> tree_ok src ->
  exists err dest' src', ErrMerge dest src = Some (err, dest', src') /\ tree_ok dest' /\ tree_ok src' /\
    contents dest' = contents dest ∪ contents src /\
    contents src' = contents src ∩ contents dest /\
    (err = errSuccess <-> contents src ∩ contents dest = ∅) /\
    (err = errDuplicateEntry <-> contents src ∩ contents dest <> ∅).
Proof.
  intros Hd Hs. unfold ErrMerge, Move. destruct (FEmpty dest) eqn:Ed; cbn [negb].
  - apply FEmpty_contents in Ed. rewrite merge_loop_Nil. cbn [mbind option_bind FEmpty is_null negb].
    rewrite Ed, (left_id_L ∅ (∪)), (right_absorb_L ∅ (∩)).
    eexists _, _, _. split_and!; [done|done|exact tree_ok_Nil|done..].
  - destruct (merge_loop_ok (node_count src) dest src Nil) as (dest' & lo & -> & Hd' & Hlo & E1 & E2);
      [done|done|exact tree_ok_Nil|lia|apply map_disjoint_empty_r|].
    change (contents Nil) with (∅ : gmap Z Z) in E2. rewrite (left_id_L ∅ (∪)) in E2.
    cbn [mbind option_bind]. rewrite <- E2. destruct (FEmpty lo) eqn:El; cbn [negb FEmpty is_null].
    + apply FEmpty_contents in El. rewrite El.
      eexists _, _, _. split_and!; [done|done|exact tree_ok_Nil|done..].
    + assert (contents lo <> ∅) by (intros E%FEmpty_contents; congruence).
      eexists _, _, _. split_and!; [done|done|done|done|done|done|done].
Qed.

Definition sample2 : tree := Node Red (Node Red Nil 3 903 Nil) 9 909 Nil.

Lemma sample2_ok : tree_ok sample2.
Proof.
  split.
  - apply (ordered_mid [(3, 903)] []). split_and!; [repeat constructor|constructor|set_solver by lia..].
  - right. exists 0%nat. simpl. split_and!; [done|by right|done].
Qed.

Lemma ErrMerge_union_witness :
  tree_ok sample /\ tree_ok sample2 /\
  exists err dest' src', ErrMerge sample sample2 = Some (err, dest', src') /\ tree_ok dest' /\ tree_ok src' /\
    contents dest' = contents sample ∪ contents sample2 /\
    contents src' = contents sample2 ∩ contents sample /\
    (err = errSuccess <-> contents sample2 ∩ contents sample = ∅) /\
    (err = errDuplicateEntry <-> contents sample2 ∩ contents sample <> ∅).
Proof.
  split; [exact sample_ok|]. split; [exact sample2_ok|].
  exact (ErrMerge_union sample sample2 sample_ok sample2_ok).
Defined.
