(* ===== verification/RedBlackNodes.v ===== *)
(** * RedBlackNodes: InvasiveRedBlackTree on linked nodes in memory

    The nodes of [InvasiveRedBlackTree] are embedded in the client's objects and linked by
    pointers.  Here memory maps the address of a node to its fields, and every operation
    reads and writes the fields in the order of the code.  An object is named by the
    address of its node ([CObjectToNode] and [NodeToCObject] add and subtract a constant);
    0 is the null pointer.  Dereferencing the null pointer or an address where there is no
    object, and a [COLLAssert] that does not hold, is [None].  [RedBlack] has the same
    operations on trees as values; here they are shown to be what the linked nodes do,
    provided that an object is not inserted while it is linked. *)

From stdpp Require Import gmap.
From S2P Require Import Prelude RedBlack RedBlackProofs RedBlackMap.

Module Nodes.

(** [InvasiveContext]. *)
Record node := Context_ { m_key : Z; m_color : RedBlackTreeColor; m_pnodeLeft : Z; m_pnodeRight : Z }.

Abbreviation memory := (gmap Z node).

(** ** Statements *)

Definition M (A : Type) : Type := memory -> option (A * memory).

Definition ret {A} (a : A) : M A := fun h => Some (a, h).

Definition bind {A B} (m : M A) (k : A -> M B) : M B :=
  fun h => match m h with Some (a, h) => k a h | None => None end.

#[local] Notation "'let*' x ':=' m 'in' k" := (bind m (fun x => k)) (at level 200, x name, m at level 100, k at level 200).
#[local] Notation "'do*' m 'in' k" := (bind m (fun _ => k)) (at level 200, m at level 100, k at level 200).

Definition check (b : bool) : M unit := fun h => if b then Some (tt, h) else None.

Definition load (p : Z) : M node := fun h => if p =? 0 then None else match h !! p with Some n => Some (n, h) | None => None end.

Definition store (p : Z) (n : node) : M unit :=
  fun h => if p =? 0 then None else match h !! p with Some _ => Some (tt, <[p := n]> h) | None => None end.

(** ** Fields *)

Definition Key (p : Z) : M Z := let* n := load p in ret (m_key n).

Definition Color (p : Z) : M RedBlackTreeColor := let* n := load p in ret (m_color n).

Definition PnodeLeft (p : Z) : M Z := let* n := load p in ret (m_pnodeLeft n).

Definition PnodeRight (p : Z) : M Z := let* n := load p in ret (m_pnodeRight n).

Definition SetColor (p : Z) (c : RedBlackTreeColor) : M unit :=
  let* n := load p in store p (Context_ (m_key n) c (m_pnodeLeft n) (m_pnodeRight n)).

Definition FlipColor (p : Z) : M unit := let* c := Color p in SetColor p (flip_color c).

Definition SetLeft (p q : Z) : M unit :=
  let* n := load p in store p (Context_ (m_key n) (m_color n) q (m_pnodeRight n)).

Definition SetRight (p q : Z) : M unit :=
  let* n := load p in store p (Context_ (m_key n) (m_color n) (m_pnodeLeft n) q).

Definition FIsNonNullAndRed (p : Z) : M bool :=
  if p =? 0 then ret false else let* c := Color p in ret (bool_decide (c = Red)).

(** [a && b], [b] evaluated only when [a] holds. *)
Definition and_then (a b : M bool) : M bool := let* x := a in if (x : bool) then b else ret false.

Definition not_ (a : M bool) : M bool := let* x := a in ret (negb x).

(** [InitNode_]: placement [new] in the object. *)
Definition InitNode_ (key p : Z) : M unit := store p (Context_ key Red 0 0).

(** ** Restructuring *)

Definition RotateLeft_ (pnode : Z) : M Z :=
  do* check (negb (pnode =? 0)) in
  let* r := PnodeRight pnode in
  do* check (negb (r =? 0)) in
  let* pnodeNewTop := PnodeRight pnode in
  let* l := PnodeLeft pnodeNewTop in
  do* SetRight pnode l in
  do* SetLeft pnodeNewTop pnode in
  let* l := PnodeLeft pnodeNewTop in
  let* c := Color l in
  do* SetColor pnodeNewTop c in
  let* l := PnodeLeft pnodeNewTop in
  do* SetColor l Red in
  ret pnodeNewTop.

Definition RotateRight_ (pnode : Z) : M Z :=
  do* check (negb (pnode =? 0)) in
  let* l := PnodeLeft pnode in
  do* check (negb (l =? 0)) in
  let* pnodeNewTop := PnodeLeft pnode in
  let* r := PnodeRight pnodeNewTop in
  do* SetLeft pnode r in
  do* SetRight pnodeNewTop pnode in
  let* r := PnodeRight pnodeNewTop in
  let* c := Color r in
  do* SetColor pnodeNewTop c in
  let* r := PnodeRight pnodeNewTop in
  do* SetColor r Red in
  ret pnodeNewTop.

Definition FlipColors_ (pnode : Z) : M unit :=
  do* check (negb (pnode =? 0)) in
  do* FlipColor pnode in
  let* l := PnodeLeft pnode in
  do* (if l =? 0 then ret tt else FlipColor l) in
  let* r := PnodeRight pnode in
  (if r =? 0 then ret tt else FlipColor r).

Definition Fixup_ (pnode : Z) : M Z :=
  do* check (negb (pnode =? 0)) in
  let* r := PnodeRight pnode in
  let* b := FIsNonNullAndRed r in
  let* pnodeT := (if (b : bool) then RotateLeft_ pnode else ret pnode) in
  let* l := PnodeLeft pnodeT in
  let* b := and_then (FIsNonNullAndRed l) (let* ll := PnodeLeft l in FIsNonNullAndRed ll) in
  let* pnodeT :=
    (if (b : bool) then
       let* r := PnodeRight pnodeT in
       let* b := FIsNonNullAndRed r in
       do* check (negb b) in
       RotateRight_ pnodeT
     else ret pnodeT) in
  let* l := PnodeLeft pnodeT in
  let* b := and_then (FIsNonNullAndRed l) (let* r := PnodeRight pnodeT in FIsNonNullAndRed r) in
  do* (if (b : bool) then FlipColors_ pnodeT else ret tt) in
  ret pnodeT.

Definition MoveRedRight_ (pnode : Z) : M Z :=
  do* check (negb (pnode =? 0)) in
  do* FlipColors_ pnode in
  let* l := PnodeLeft pnode in
  do* check (negb (l =? 0)) in
  let* ll := PnodeLeft l in
  let* b := FIsNonNullAndRed ll in
  if (b : bool) then
    let* pnodeT := RotateRight_ pnode in
    do* FlipColors_ pnodeT in
    ret pnodeT
  else ret pnode.

Definition MoveRedLeft_ (pnode : Z) : M Z :=
  do* check (negb (pnode =? 0)) in
  do* FlipColors_ pnode in
  let* r := PnodeRight pnode in
  do* check (negb (r =? 0)) in
  let* rl := PnodeLeft r in
  let* b := FIsNonNullAndRed rl in
  if (b : bool) then
    let* r := PnodeRight pnode in
    let* r := RotateRight_ r in
    do* SetRight pnode r in
    let* pnodeT := RotateLeft_ pnode in
    do* FlipColors_ pnodeT in
    ret pnodeT
  else ret pnode.

(** The assertions of [InvasiveContext::AssertValid]. *)
Definition AssertValid (p : Z) : M unit :=
  let* n := load p in
  let l := m_pnodeLeft n in
  let r := m_pnodeRight n in
  do* (if l =? 0 then ret tt else let* kl := Key l in do* check (kl <? m_key n) in check (negb (p =? l))) in
  do* (if r =? 0 then ret tt else let* kr := Key r in do* check (m_key n <? kr) in check (negb (p =? r))) in
  do* (if (l =? 0) || (r =? 0) then ret tt
       else let* cl := Color l in
            let* cr := Color r in
            check (bool_decide (m_color n = Black) || bool_decide (cl = Black) || bool_decide (cr = Black))) in
  let* b := FIsNonNullAndRed r in
  if (b : bool) then
    do* check (negb (l =? 0)) in
    let* cl := Color l in
    check (bool_decide (cl = Red))
  else ret tt.

(** ** Lookups; loops and recursions take a bound on the number of nodes *)

Fixpoint Find_ (fuel : nat) (p key : Z) : M Z :=
  match fuel with
  | O => fun _ => None
  | S fuel =>
      if p =? 0 then ret 0
      else
        let* k := Key p in
        if key =? k then ret p
        else if key <? k then let* l := PnodeLeft p in Find_ fuel l key
        else let* r := PnodeRight p in Find_ fuel r key
  end.

Fixpoint PnodeMin_ (fuel : nat) (p : Z) : M Z :=
  match fuel with
  | O => fun _ => None
  | S fuel => let* l := PnodeLeft p in if l =? 0 then ret p else PnodeMin_ fuel l
  end.

(** ** Insertion *)

(** The root after the insertion is the second component of the result. *)
Fixpoint ErrInsert_ (fuel : nat) (key pnodeNew pnodeRoot : Z) : M (ERR * Z) :=
  match fuel with
  | O => fun _ => None
  | S fuel =>
      if pnodeRoot =? 0 then do* InitNode_ key pnodeNew in ret (errSuccess, pnodeNew)
      else
        let* k := Key pnodeRoot in
        let* err :=
          (if key =? k then ret errDuplicateEntry
           else if key <? k then
             let* pnodeT := PnodeLeft pnodeRoot in
             let* x := ErrInsert_ fuel key pnodeNew pnodeT in
             do* SetLeft pnodeRoot x.2 in
             ret x.1
           else
             let* pnodeT := PnodeRight pnodeRoot in
             let* x := ErrInsert_ fuel key pnodeNew pnodeT in
             do* SetRight pnodeRoot x.2 in
             ret x.1) in
        let* pnodeRoot := Fixup_ pnodeRoot in
        do* AssertValid pnodeRoot in
        ret (err, pnodeRoot)
  end.

(** ** Deletion *)

(** [!FIsNonNullAndRed( p ) && !FIsNonNullAndRed( p->PnodeLeft() )] *)
Definition both_black (p : Z) : M bool :=
  and_then (not_ (FIsNonNullAndRed p)) (not_ (let* l := PnodeLeft p in FIsNonNullAndRed l)).

Fixpoint RemoveMinNode_ (fuel : nat) (pnode : Z) : M Z :=
  match fuel with
  | O => fun _ => None
  | S fuel =>
      let* l := PnodeLeft pnode in
      if l =? 0 then
        let* r := PnodeRight pnode in
        do* check (r =? 0) in
        ret 0
      else
        let* b := both_black l in
        let* pnodeT := (if (b : bool) then MoveRedLeft_ pnode else ret pnode) in
        let* l := PnodeLeft pnodeT in
        let* l := RemoveMinNode_ fuel l in
        do* SetLeft pnodeT l in
        Fixup_ pnodeT
  end.

Section Build.
Context (fDEBUG : bool).

(** [ScrubNode_]: the destructor clears the fields in the build with DEBUG. *)
Definition ScrubNode_ (p : Z) : M unit := if fDEBUG then store p (Context_ 0 Red 0 0) else let* _ := load p in ret tt.

(** The subtree after the deletion and the node that was deleted. *)
Fixpoint Delete_ (fuel : nat) (pnode key : Z) : M (Z * Z) :=
  match fuel with
  | O => fun _ => None
  | S fuel =>
      do* check (negb (pnode =? 0)) in
      let* k := Key pnode in
      if key <? k then
        let* l := PnodeLeft pnode in
        do* check (negb (l =? 0)) in
        let* b := both_black l in
        let* pnodeT := (if (b : bool) then MoveRedLeft_ pnode else ret pnode) in
        let* l := PnodeLeft pnodeT in
        let* x := Delete_ fuel l key in
        do* SetLeft pnodeT x.1 in
        do* check (negb (x.2 =? 0)) in
        let* pnodeT := Fixup_ pnodeT in
        ret (pnodeT, x.2)
      else
        let* l := PnodeLeft pnode in
        let* b := FIsNonNullAndRed l in
        let* pnodeT := (if (b : bool) then RotateRight_ pnode else ret pnode) in
        let* k := Key pnodeT in
        let* r := PnodeRight pnodeT in
        if (key =? k) && (r =? 0) then
          let* l := PnodeLeft pnodeT in
          do* check (l =? 0) in
          let* c := Color pnodeT in
          do* check (bool_decide (c = Red)) in
          do* ScrubNode_ pnodeT in
          ret (0, pnodeT)
        else
          let* b := both_black r in
          let* pnodeT := (if (b : bool) then MoveRedRight_ pnodeT else ret pnodeT) in
          let* k := Key pnodeT in
          if key =? k then
            let* r := PnodeRight pnodeT in
            let* pnodeMin := PnodeMin_ fuel r in
            let* r := PnodeRight pnodeT in
            let* pnodeRight := RemoveMinNode_ fuel r in
            let* l := PnodeLeft pnodeT in
            do* SetLeft pnodeMin l in
            do* SetRight pnodeMin pnodeRight in
            let* c := Color pnodeT in
            do* SetColor pnodeMin c in
            do* ScrubNode_ pnodeT in
            do* check (negb (pnodeT =? 0)) in
            let* pnodeN := Fixup_ pnodeMin in
            ret (pnodeN, pnodeT)
          else
            let* r := PnodeRight pnodeT in
            let* x := Delete_ fuel r key in
            do* SetRight pnodeT x.1 in
            do* check (negb (x.2 =? 0)) in
            let* pnodeT := Fixup_ pnodeT in
            ret (pnodeT, x.2)
  end.

(** ** The interface *)

(** [m_pnodeRoot] and the memory.  No path is longer than there are objects. *)
Record state := State { m_pnodeRoot : Z; mem : memory }.

Definition bound (h : memory) : nat := S (S (size h)).

Definition FContainsKey_ (p key : Z) : M bool := fun h => (let* n := Find_ (bound h) p key in ret (negb (n =? 0))) h.

Definition ErrFind (s : state) (key : Z) : option (ERR * option Z) :=
  '(p, _) ← Find_ (bound (mem s)) (m_pnodeRoot s) key (mem s);
  Some (if p =? 0 then (errEntryNotFound, None) else (errSuccess, Some p)).

Definition ErrInsert (s : state) (key obj : Z) : option (ERR * state) :=
  '(err, p, h) ← ErrInsert_ (bound (mem s)) key obj (m_pnodeRoot s) (mem s);
  _ ← COLLAssert (negb (p =? 0));
  '(b, h) ← FContainsKey_ p key h;
  _ ← COLLAssert b;
  Some (err, State p h).

Definition ErrDelete (s : state) (key : Z) : option (ERR * state * option Z) :=
  '(b, h) ← FContainsKey_ (m_pnodeRoot s) key (mem s);
  if negb b then Some (errEntryNotFound, s, None)
  else
    _ ← COLLAssert (negb (m_pnodeRoot s =? 0));
    '(p, pnodeDeleted, h) ← Delete_ (bound h) (m_pnodeRoot s) key h;
    '(b, h) ← FContainsKey_ p key h;
    _ ← COLLAssert (negb b);
    Some (errSuccess, State p h, Some pnodeDeleted).

(** [CDepth_] *)
Fixpoint CDepth_ (fuel : nat) (p : Z) (h : memory) : option Z :=
  match fuel with
  | O => None
  | S fuel =>
      if p =? 0 then Some 0
      else
        n ← h !! p;
        dl ← CDepth_ fuel (m_pnodeLeft n) h;
        dr ← CDepth_ fuel (m_pnodeRight n) h;
        Some (1 + Z.max dl dr)
  end.

(** A call of the client. *)
Definition step (s : state) (x : op) : option (state * (ERR * option Z)) :=
  match x with
  | OpInsert key obj => '(err, s) ← ErrInsert s key obj; Some (s, (err, None))
  | OpDelete key => '(err, s, res) ← ErrDelete s key; Some (s, (err, res))
  | OpFind key => res ← ErrFind s key; Some (s, res)
  end.

Fixpoint run (s : state) (ops : list op) : option (state * list (ERR * option Z)) :=
  match ops with
  | [] => Some (s, [])
  | x :: ops => '(s, res) ← step s x; '(s, l) ← run s ops; Some (s, res :: l)
  end.

End Build.

(** ** A tree in memory *)

Definition objs (t : tree) : list Z := (entries t).*2.

Definition ptr (t : tree) : Z := match t with Nil => 0 | Node _ _ _ o _ => o end.

(** The nodes of [t] are linked in memory. *)
Fixpoint laid (h : memory) (t : tree) : Prop :=
  match t with
  | Nil => True
  | Node c l k o r => o <> 0 /\ h !! o = Some (Context_ k c (ptr l) (ptr r)) /\ laid h l /\ laid h r
  end.

(** From [h] to [h'] only objects in [F] have changed, none has gone, and [t'] is linked. *)
Record changes (F : list Z) (h : memory) (t' : tree) (h' : memory) : Prop := {
  ch_laid : laid h' t';
  ch_frame : forall a, a ∉ F -> h' !! a = h !! a;
  ch_dom : forall a, is_Some (h !! a) -> is_Some (h' !! a) }.

Lemma objs_node c l k o r : objs (Node c l k o r) = objs l ++ o :: objs r.
Proof. unfold objs. cbn [entries]. by rewrite fmap_app. Qed.

Lemma elem_of_node x c l k o r : x ∈ objs (Node c l k o r) <-> x ∈ objs l \/ x = o \/ x ∈ objs r.
Proof. rewrite objs_node. set_solver. Qed.

Lemma NoDup_node c l k o r : NoDup (objs (Node c l k o r)) <->
  NoDup (objs l) /\ NoDup (objs r) /\ o ∉ objs l /\ o ∉ objs r /\ objs l ## objs r.
Proof.
  rewrite objs_node, list.NoDup_app, list.NoDup_cons. split.
  - intros (Hl & Hd & Ho & Hr). split_and!; [done|done| |done|].
    + intros Hx. apply (Hd o Hx). left.
    + intros x Hx Hy. apply (Hd x Hx). by right.
  - intros (Hl & Hr & Hol & Hor & Hd). split_and!; [done| |done|done]. intros x Hx [->|Hy]%list.elem_of_cons; [done|]. by apply (Hd x).
Qed.

Lemma not_elem_node x c l k o r : x ∉ objs (Node c l k o r) <-> x ∉ objs l /\ x <> o /\ x ∉ objs r.
Proof. rewrite elem_of_node. tauto. Qed.

Lemma disjoint_node_l c l k o r (X : list Z) : objs (Node c l k o r) ## X <-> objs l ## X /\ o ∉ X /\ objs r ## X.
Proof.
  split.
  - intros H. split_and!; [intros x Hx|intros Ho|intros x Hx]; [apply H|apply (H o); [|done]|apply H]; apply elem_of_node; auto.
  - intros (H1 & H2 & H3) x [Hx|[->|Hx]]%elem_of_node Hy; [by apply (H1 x)|done|by apply (H3 x)].
Qed.

Lemma disjoint_node_r c l k o r (X : list Z) : X ## objs (Node c l k o r) <-> X ## objs l /\ o ∉ X /\ X ## objs r.
Proof.
  split.
  - intros H. split_and!; [intros x Hx Hy; apply (H x)|intros Ho; apply (H o)|intros x Hx Hy; apply (H x)]; try done; apply elem_of_node; auto.
  - intros (H1 & H2 & H3) x Hy [Hx|[->|Hx]]%elem_of_node; [by apply (H1 x)|done|by apply (H3 x)].
Qed.

Lemma laid_frame h h' t : laid h t -> (forall a, a ∈ objs t -> h' !! a = h !! a) -> laid h' t.
Proof.
  induction t as [|c l IHl k o r IHr]; [done|]. cbn [laid]. intros (Ho & Hn & Hl & Hr) Hf.
  setoid_rewrite elem_of_node in Hf. split_and!; [done|by rewrite Hf by auto|apply IHl; auto|apply IHr; auto].
Qed.

Lemma laid_insert h t o n : o ∉ objs t -> laid h t -> laid (<[o := n]> h) t.
Proof. intros Ho Hl. apply (laid_frame h); [done|]. intros a Ha. apply lookup_insert_ne. by intros ->. Qed.

Lemma laid_ptr h t : laid h t -> (ptr t =? 0) = is_null t.
Proof. destruct t; [done|]. intros [Ho _]. by apply Z.eqb_neq. Qed.

Lemma changes_refl F h t : laid h t -> changes F h t h.
Proof. by split. Qed.

Lemma changes_trans F h t1 h1 t2 h2 : changes F h t1 h1 -> changes F h1 t2 h2 -> changes F h t2 h2.
Proof.
  intros [_ F1 D1] [L2 F2 D2]. split; [done| |by auto]. intros a Ha. by rewrite F2, F1.
Qed.

Lemma changes_weaken F F' h t h' : F ⊆ F' -> changes F h t h' -> changes F' h t h'.
Proof. intros HF [L Fr D]. split; [done| |done]. intros a Ha. apply Fr. set_solver. Qed.

Lemma changes_insert F h t o n h' : changes F h t h' -> o ∈ F -> is_Some (h' !! o) -> forall t', laid (<[o := n]> h') t' -> changes F h t' (<[o := n]> h').
Proof.
  intros [_ Fr D] Ho Hs t' Hl. split; [done| |].
  - intros a Ha. rewrite lookup_insert_ne by (by intros ->). by apply Fr.
  - intros a Ha. apply lookup_insert_is_Some'. right. by apply D.
Qed.

(** ** Running a statement *)

Lemma bind_some {A B} (m : M A) (k : A -> M B) h a h' : m h = Some (a, h') -> bind m k h = k a h'.
Proof. intros E. unfold bind. by rewrite E. Qed.

Lemma load_ok h o n : o <> 0 -> h !! o = Some n -> load o h = Some (n, h).
Proof. intros Ho Hn. unfold load. by rewrite (proj2 (Z.eqb_neq _ _) Ho), Hn. Qed.

Lemma store_ok h o n n' : o <> 0 -> h !! o = Some n -> store o n' h = Some (tt, <[o := n']> h).
Proof. intros Ho Hn. unfold store. by rewrite (proj2 (Z.eqb_neq _ _) Ho), Hn. Qed.

Lemma check_ok b h : b = true -> check b h = Some (tt, h).
Proof. by intros ->. Qed.

Section At.
Context (h : memory) (o : Z) (n : node) (Ho : o <> 0) (Hn : h !! o = Some n).

Lemma Key_at : Key o h = Some (m_key n, h).
Proof. unfold Key. by rewrite (bind_some _ _ _ _ _ (load_ok h o n Ho Hn)). Qed.

Lemma Color_at : Color o h = Some (m_color n, h).
Proof. unfold Color. by rewrite (bind_some _ _ _ _ _ (load_ok h o n Ho Hn)). Qed.

Lemma PnodeLeft_at : PnodeLeft o h = Some (m_pnodeLeft n, h).
Proof. unfold PnodeLeft. by rewrite (bind_some _ _ _ _ _ (load_ok h o n Ho Hn)). Qed.

Lemma PnodeRight_at : PnodeRight o h = Some (m_pnodeRight n, h).
Proof. unfold PnodeRight. by rewrite (bind_some _ _ _ _ _ (load_ok h o n Ho Hn)). Qed.

Lemma SetColor_at c : SetColor o c h = Some (tt, <[o := Context_ (m_key n) c (m_pnodeLeft n) (m_pnodeRight n)]> h).
Proof. unfold SetColor. rewrite (bind_some _ _ _ _ _ (load_ok h o n Ho Hn)). by apply (store_ok h o n). Qed.

Lemma FlipColor_at : FlipColor o h = Some (tt, <[o := Context_ (m_key n) (flip_color (m_color n)) (m_pnodeLeft n) (m_pnodeRight n)]> h).
Proof. unfold FlipColor. rewrite (bind_some _ _ _ _ _ Color_at). apply SetColor_at. Qed.

Lemma SetLeft_at q : SetLeft o q h = Some (tt, <[o := Context_ (m_key n) (m_color n) q (m_pnodeRight n)]> h).
Proof. unfold SetLeft. rewrite (bind_some _ _ _ _ _ (load_ok h o n Ho Hn)). by apply (store_ok h o n). Qed.

Lemma SetRight_at q : SetRight o q h = Some (tt, <[o := Context_ (m_key n) (m_color n) (m_pnodeLeft n) q]> h).
Proof. unfold SetRight. rewrite (bind_some _ _ _ _ _ (load_ok h o n Ho Hn)). by apply (store_ok h o n). Qed.

End At.

Ltac lookups := repeat first [rewrite lookup_insert_eq | rewrite lookup_insert_ne by congruence]; try eassumption; try reflexivity.

Ltac at_ L := eapply L; [first [done|congruence]|lookups].

(** Run the first statement. *)
Ltac run1 :=
  match goal with
  | |- context [bind (check _) _ _] => erewrite bind_some by (apply check_ok; first [done | by apply negb_true_iff, Z.eqb_neq])
  | |- context [bind (ret _) _ _] => erewrite bind_some by reflexivity
  | |- context [bind (Key _) _ _] => erewrite bind_some by (at_ Key_at)
  | |- context [bind (Color _) _ _] => erewrite bind_some by (at_ Color_at)
  | |- context [bind (PnodeLeft _) _ _] => erewrite bind_some by (at_ PnodeLeft_at)
  | |- context [bind (PnodeRight _) _ _] => erewrite bind_some by (at_ PnodeRight_at)
  | |- context [bind (SetColor _ _) _ _] => erewrite bind_some by (at_ SetColor_at)
  | |- context [bind (FlipColor _) _ _] => erewrite bind_some by (at_ FlipColor_at)
  | |- context [bind (SetLeft _ _) _ _] => erewrite bind_some by (at_ SetLeft_at)
  | |- context [bind (SetRight _ _) _ _] => erewrite bind_some by (at_ SetRight_at)
  | |- context [bind (load _) _ _] => erewrite bind_some by (at_ load_ok)
  end; cbn [m_key m_color m_pnodeLeft m_pnodeRight].

(** The objects of a tree that is taken apart. *)
Ltac parts :=
  repeat match goal with
  | H : laid _ (Node _ _ _ _ _) |- _ => destruct H as (? & ? & ? & ?)
  | H : NoDup (objs (Node _ _ _ _ _)) |- _ => apply NoDup_node in H as (? & ? & ? & ? & ?)
  | H : _ ∉ objs (Node _ _ _ _ _) |- _ => apply not_elem_node in H as (? & ? & ?)
  | H : objs (Node _ _ _ _ _) ## _ |- _ => apply disjoint_node_l in H as (? & ? & ?)
  | H : _ ## objs (Node _ _ _ _ _) |- _ => apply disjoint_node_r in H as (? & ? & ?)
  end.

Ltac changed :=
  split;
  [ cbn [laid ptr RedBlack.FlipColor] in *; split_and!; try done; try (lookups; fail); repeat (apply laid_insert; [assumption|]); assumption
  | intros x Hx; parts; rewrite ?lookup_insert_ne by congruence; reflexivity
  | intros x Hx; repeat (apply lookup_insert_is_Some'; right); assumption ].

(** *** Rotations *)

Lemma RotateLeft_ok h t t' : laid h t -> NoDup (objs t) -> RedBlack.RotateLeft_ t = Some t' ->
  exists h', RotateLeft_ (ptr t) h = Some (ptr t', h') /\ changes (objs t) h t' h'.
Proof.
  intros Hl Hd E. destruct t as [|c a k o [|c' b k' o' d]]; try done. cbn [RedBlack.RotateLeft_] in E. injection E as <-.
  parts. cbn [ptr] in *. eexists. split.
  - unfold RotateLeft_. repeat run1. reflexivity.
  - changed.
Qed.

Lemma RotateRight_ok h t t' : laid h t -> NoDup (objs t) -> RedBlack.RotateRight_ t = Some t' ->
  exists h', RotateRight_ (ptr t) h = Some (ptr t', h') /\ changes (objs t) h t' h'.
Proof.
  intros Hl Hd E. destruct t as [|c [|c' a k o b] k' o' d]; try done. cbn [RedBlack.RotateRight_] in E. injection E as <-.
  parts. cbn [ptr] in *. eexists. split.
  - unfold RotateRight_. repeat run1. reflexivity.
  - changed.
Qed.

Lemma FlipColors_ok h t t' : laid h t -> NoDup (objs t) -> RedBlack.FlipColors_ t = Some t' ->
  ptr t' = ptr t /\ exists h', FlipColors_ (ptr t) h = Some (tt, h') /\ changes (objs t) h t' h'.
Proof.
  intros Hl Hd E. destruct t as [|c l k o r]; [done|]. cbn [RedBlack.FlipColors_] in E. injection E as <-. split; [done|].
  pose proof (laid_ptr h l (proj1 (proj2 (proj2 Hl)))) as El. pose proof (laid_ptr h r (proj2 (proj2 (proj2 Hl)))) as Er.
  destruct l as [|cl ll kl ol rl], r as [|cr lr kr or rr]; parts; cbn [ptr is_null] in *;
    (eexists; split; [unfold FlipColors_; repeat (run1; rewrite ?El, ?Er); first [reflexivity|at_ FlipColor_at]|cbn [m_key m_color m_pnodeLeft m_pnodeRight]; changed]).
Qed.

(** *** What the value operations keep *)

Lemma RotateLeft_entries t t' : RedBlack.RotateLeft_ t = Some t' -> entries t' = entries t.
Proof. destruct t as [|c a k o [|c' b k' o' d]]; try done. intros [= <-]. same_entries. Qed.

Lemma RotateRight_entries t t' : RedBlack.RotateRight_ t = Some t' -> entries t' = entries t.
Proof. destruct t as [|c [|c' a k o b] k' o' d]; try done. intros [= <-]. same_entries. Qed.

Lemma FlipColors_entries t t' : RedBlack.FlipColors_ t = Some t' -> entries t' = entries t.
Proof. destruct t as [|c [|] k o [|]]; try done; by intros [= <-]. Qed.

Lemma red_at h t : laid h t -> FIsNonNullAndRed (ptr t) h = Some (RedBlack.FIsNonNullAndRed t, h).
Proof.
  intros Hl. unfold FIsNonNullAndRed. rewrite (laid_ptr h t Hl). destruct t as [|c l k o r]; [done|]. cbn [is_null ptr]. parts.
  run1. by destruct c.
Qed.

(** *** Reading a tree *)

Section Read.
Context (h : memory) (t : tree) (Hl : laid h t).

Lemma right_at r : RedBlack.PnodeRight t = Some r -> PnodeRight (ptr t) h = Some (ptr r, h) /\ laid h r /\ ptr t <> 0.
Proof. destruct t as [|c l k o r']; [done|]. intros [= ->]. destruct Hl as (Ho & Hn & _ & Hr). split_and!; [|done|done]. cbn [ptr]. by rewrite (PnodeRight_at h o _ Ho Hn). Qed.

Lemma left_at l : RedBlack.PnodeLeft t = Some l -> PnodeLeft (ptr t) h = Some (ptr l, h) /\ laid h l /\ ptr t <> 0.
Proof. destruct t as [|c l' k o r']; [done|]. intros [= ->]. destruct Hl as (Ho & Hn & Hl' & _). split_and!; [|done|done]. cbn [ptr]. by rewrite (PnodeLeft_at h o _ Ho Hn). Qed.

Lemma key_at k : RedBlack.Key t = Some k -> Key (ptr t) h = Some (k, h) /\ ptr t <> 0.
Proof. destruct t as [|c l k' o r]; [done|]. intros [= ->]. destruct Hl as (Ho & Hn & _). split; [|done]. cbn [ptr]. by rewrite (Key_at h o _ Ho Hn). Qed.

Lemma color_at c : RedBlack.Color t = Some c -> Color (ptr t) h = Some (c, h).
Proof. destruct t as [|c' l k' o r]; [done|]. intros [= ->]. destruct Hl as (Ho & Hn & _). cbn [ptr]. by rewrite (Color_at h o _ Ho Hn). Qed.

End Read.

(** A value operation done in memory; it keeps the entries. *)
Definition does (f : Z -> M Z) (g : tree -> option tree) : Prop :=
  forall h t t', laid h t -> NoDup (objs t) -> g t = Some t' ->
  exists h', f (ptr t) h = Some (ptr t', h') /\ changes (objs t) h t' h' /\ entries t' = entries t.

Lemma does_RotateLeft : does RotateLeft_ RedBlack.RotateLeft_.
Proof. intros h t t' Hl Hd E. destruct (RotateLeft_ok h t t' Hl Hd E) as (h' & ? & ?). exists h'. split_and!; [done..|]. by apply RotateLeft_entries. Qed.

Lemma does_RotateRight : does RotateRight_ RedBlack.RotateRight_.
Proof. intros h t t' Hl Hd E. destruct (RotateRight_ok h t t' Hl Hd E) as (h' & ? & ?). exists h'. split_and!; [done..|]. by apply RotateRight_entries. Qed.

Lemma does_FlipColors : does (fun p => do* FlipColors_ p in ret p) RedBlack.FlipColors_.
Proof.
  intros h t t' Hl Hd E. destruct (FlipColors_ok h t t' Hl Hd E) as (Ep & h' & E' & ?). exists h'.
  rewrite (bind_some _ _ _ _ _ E'), Ep. split_and!; [done|done|]. by apply FlipColors_entries.
Qed.

Lemma does_if (b : bool) f g : does f g -> does (fun p => if b then f p else ret p) (fun t => if b then g t else Some t).
Proof.
  intros Hf h t t' Hl Hd E. destruct b; [by apply Hf|]. injection E as <-. exists h. split_and!; [done|by apply changes_refl|done].
Qed.

Lemma does_seq f1 g1 f2 g2 : does f1 g1 -> does f2 g2 -> does (fun p => let* q := f1 p in f2 q) (fun t => t ← g1 t; g2 t).
Proof.
  intros H1 H2 h t t' Hl Hd (t1 & E1 & E2)%bind_Some. destruct (H1 h t t1 Hl Hd E1) as (h1 & R1 & C1 & N1).
  assert (Eo : objs t1 = objs t) by (unfold objs; by rewrite N1).
  destruct (H2 h1 t1 t' (ch_laid _ _ _ _ C1)) as (h2 & R2 & C2 & N2); [by rewrite Eo|done|]. exists h2.
  rewrite (bind_some _ _ _ _ _ R1). rewrite Eo in C2. split_and!; [done|by eapply changes_trans|congruence].
Qed.

(** *** Fixup_ *)

(** The three steps of [Fixup_], on trees and in memory. *)
Definition fix1 (t : tree) : option tree := r ← RedBlack.PnodeRight t; if RedBlack.FIsNonNullAndRed r then RedBlack.RotateLeft_ t else Some t.

Definition fix2 (t : tree) : option tree :=
  l ← RedBlack.PnodeLeft t;
  if RedBlack.FIsNonNullAndRed l
  then ll ← RedBlack.PnodeLeft l;
       if RedBlack.FIsNonNullAndRed ll
       then r ← RedBlack.PnodeRight t; _ ← COLLAssert (negb (RedBlack.FIsNonNullAndRed r)); RedBlack.RotateRight_ t
       else Some t
  else Some t.

Definition fix3 (t : tree) : option tree :=
  l ← RedBlack.PnodeLeft t;
  r ← RedBlack.PnodeRight t;
  if RedBlack.FIsNonNullAndRed l && RedBlack.FIsNonNullAndRed r then RedBlack.FlipColors_ t else Some t.

Lemma fix1_does : does (fun p => do* check (negb (p =? 0)) in let* r := PnodeRight p in let* b := FIsNonNullAndRed r in if (b : bool) then RotateLeft_ p else ret p) fix1.
Proof.
  intros h t t' Hl Hd (r & Er & E)%bind_Some. destruct (right_at h t Hl r Er) as (R1 & Lr & Hp).
  run1. rewrite (bind_some _ _ _ _ _ R1), (bind_some _ _ _ _ _ (red_at h r Lr)). by apply (does_if _ _ _ does_RotateLeft).
Qed.

Lemma fix2_does : does (fun p => let* l := PnodeLeft p in
  let* b := and_then (FIsNonNullAndRed l) (let* ll := PnodeLeft l in FIsNonNullAndRed ll) in
  if (b : bool) then let* r := PnodeRight p in let* b := FIsNonNullAndRed r in do* check (negb b) in RotateRight_ p else ret p) fix2.
Proof.
  intros h t t' Hl Hd (l & El & E)%bind_Some. destruct (left_at h t Hl l El) as (R1 & Ll & Hp).
  rewrite (bind_some _ _ _ _ _ R1). unfold and_then.
  assert (Hsame : t = t' -> exists h', ret (ptr t) h = Some (ptr t', h') /\ changes (objs t) h t' h' /\ entries t' = entries t).
  { intros <-. exists h. split_and!; [done|by apply changes_refl|done]. }
  destruct (RedBlack.FIsNonNullAndRed l) eqn:Erl.
  - apply bind_Some in E as (ll & Ell & E). destruct (left_at h l Ll ll Ell) as (R2 & Lll & _).
    assert (Rb : forall b, RedBlack.FIsNonNullAndRed ll = b -> bind (FIsNonNullAndRed (ptr l)) (fun x => if (x : bool) then let* ll := PnodeLeft (ptr l) in FIsNonNullAndRed ll else ret false) h = Some (b, h)).
    { intros b <-. rewrite (bind_some _ _ _ _ _ (red_at h l Ll)), Erl, (bind_some _ _ _ _ _ R2). by apply red_at. }
    destruct (RedBlack.FIsNonNullAndRed ll) eqn:Erll; rewrite (bind_some _ _ _ _ _ (Rb _ eq_refl)); [|apply Hsame; congruence].
    apply bind_Some in E as (r & Er & E). destruct (right_at h t Hl r Er) as (R3 & Lr & _).
    rewrite (bind_some _ _ _ _ _ R3), (bind_some _ _ _ _ _ (red_at h r Lr)).
    destruct (RedBlack.FIsNonNullAndRed r); [done|]. run1. by apply does_RotateRight.
  - assert (Rb : bind (FIsNonNullAndRed (ptr l)) (fun x => if (x : bool) then let* ll := PnodeLeft (ptr l) in FIsNonNullAndRed ll else ret false) h = Some (false, h))
      by (by rewrite (bind_some _ _ _ _ _ (red_at h l Ll)), Erl).
    rewrite (bind_some _ _ _ _ _ Rb). apply Hsame. congruence.
Qed.

Lemma fix3_does : does (fun p => let* l := PnodeLeft p in
  let* b := and_then (FIsNonNullAndRed l) (let* r := PnodeRight p in FIsNonNullAndRed r) in
  do* (if (b : bool) then FlipColors_ p else ret tt) in ret p) fix3.
Proof.
  intros h t t' Hl Hd (l & El & E)%bind_Some. destruct (left_at h t Hl l El) as (R1 & Ll & Hp).
  apply bind_Some in E as (r & Er & E). destruct (right_at h t Hl r Er) as (R2 & Lr & _).
  assert (Rb : and_then (FIsNonNullAndRed (ptr l)) (let* r := PnodeRight (ptr t) in FIsNonNullAndRed r) h = Some (RedBlack.FIsNonNullAndRed l && RedBlack.FIsNonNullAndRed r, h)).
  { unfold and_then. rewrite (bind_some _ _ _ _ _ (red_at h l Ll)). destruct (RedBlack.FIsNonNullAndRed l); [|done]. rewrite (bind_some _ _ _ _ _ R2). by apply red_at. }
  rewrite (bind_some _ _ _ _ _ R1), (bind_some _ _ _ _ _ Rb). destruct (_ && _); [by apply does_FlipColors|].
  injection E as <-. exists h. split_and!; [done|by apply changes_refl|done].
Qed.

Lemma bind_assoc {A B C} (m : M A) (f : A -> M B) (g : B -> M C) h : bind (bind m f) g h = bind m (fun a => bind (f a) g) h.
Proof. unfold bind. by destruct (m h) as [[a h']|]. Qed.

Lemma bind_ext {A B} (m : M A) (f g : A -> M B) h : (forall a h', f a h' = g a h') -> bind m f h = bind m g h.
Proof. intros Hfg. unfold bind. destruct (m h) as [[a h']|]; [|done]. apply Hfg. Qed.

Lemma does_Fixup : does Fixup_ RedBlack.Fixup_.
Proof.
  pose proof (does_seq _ _ _ _ fix1_does (does_seq _ _ _ _ fix2_does fix3_does)) as H.
  intros h t t' Hl Hd E. unfold RedBlack.Fixup_ in E. apply bind_Some in E as (r & Er & E). apply bind_Some in E as (t1 & E1 & E).
  apply bind_Some in E as (l1 & El1 & E). apply bind_Some in E as (t2 & E2 & E3).
  assert (F1 : fix1 t = Some t1) by (unfold fix1; by rewrite Er). assert (F2 : fix2 t1 = Some t2) by (unfold fix2; by rewrite El1).
  assert (F3 : fix3 t2 = Some t') by exact E3.
  destruct (H h t t' Hl Hd) as (h' & R & Hc); [by rewrite F1; cbn; rewrite F2|]. exists h'. split; [|done]. rewrite <- R. unfold Fixup_.
  repeat (rewrite bind_assoc; apply bind_ext; intros ? ?). apply bind_ext. intros ? ?.
  repeat (rewrite bind_assoc; apply bind_ext; intros ? ?). apply bind_ext. intros ? ?. done.
Qed.

(** *** Changing a subtree *)

Lemma put_left F h c l k o r h1 l1 : laid h (Node c l k o r) -> o ∉ objs r -> o ∉ objs l1 -> o ∉ F -> objs r ## F -> changes F h l1 h1 ->
  exists h2, SetLeft o (ptr l1) h1 = Some (tt, h2) /\ changes (o :: F) h (Node c l1 k o r) h2 /\ forall a, a <> o -> h2 !! a = h1 !! a.
Proof.
  intros (Ho & Hn & Hl & Hr) Hor Hol HoF HrF [L1 F1 D1]. assert (Hn1 : h1 !! o = Some (Context_ k c (ptr l) (ptr r))) by (by rewrite F1).
  eexists. split; [by apply (SetLeft_at h1 o _ Ho Hn1)|]. cbn [m_key m_color m_pnodeLeft m_pnodeRight].
  split; [|intros a Ha; apply lookup_insert_ne; congruence]. split.
  - cbn [laid]. split_and!; [done|lookups|by apply laid_insert|]. apply laid_insert; [done|]. apply (laid_frame h); [done|].
    intros a Ha. apply F1. intros Hf. by apply (HrF a).
  - intros a [Hao HaF]%not_elem_of_cons. rewrite lookup_insert_ne by congruence. by apply F1.
  - intros a Ha. apply lookup_insert_is_Some'. right. by apply D1.
Qed.

Lemma put_right F h c l k o r h1 r1 : laid h (Node c l k o r) -> o ∉ objs l -> o ∉ objs r1 -> o ∉ F -> objs l ## F -> changes F h r1 h1 ->
  exists h2, SetRight o (ptr r1) h1 = Some (tt, h2) /\ changes (o :: F) h (Node c l k o r1) h2 /\ forall a, a <> o -> h2 !! a = h1 !! a.
Proof.
  intros (Ho & Hn & Hl & Hr) Hol Hor HoF HlF [L1 F1 D1]. assert (Hn1 : h1 !! o = Some (Context_ k c (ptr l) (ptr r))) by (by rewrite F1).
  eexists. split; [by apply (SetRight_at h1 o _ Ho Hn1)|]. cbn [m_key m_color m_pnodeLeft m_pnodeRight].
  split; [|intros a Ha; apply lookup_insert_ne; congruence]. split.
  - cbn [laid]. split_and!; [done|lookups| |by apply laid_insert]. apply laid_insert; [done|]. apply (laid_frame h); [done|].
    intros a Ha. apply F1. intros Hf. by apply (HlF a).
  - intros a [Hao HaF]%not_elem_of_cons. rewrite lookup_insert_ne by congruence. by apply F1.
  - intros a Ha. apply lookup_insert_is_Some'. right. by apply D1.
Qed.

Lemma does_right f g : does f g -> does (fun p => let* r := PnodeRight p in let* r := f r in do* SetRight p r in ret p)
  (fun t => r ← RedBlack.PnodeRight t; r ← g r; RedBlack.SetRight t r).
Proof.
  intros Hf h t t' Hl Hd (r & Er & E)%bind_Some. apply bind_Some in E as (r1 & E1 & E2).
  destruct t as [|c l k o r0]; [done|]. injection Er as ->. injection E2 as <-. pose proof Hd as Hd0. apply NoDup_node in Hd as (Dl & Dr & Ol & Or & Dis).
  destruct (right_at h _ Hl r eq_refl) as (R & Lr & Hp). cbn [ptr] in *. destruct (Hf h r r1 Lr Dr E1) as (h1 & R1 & C1 & N1).
  assert (Eo : objs r1 = objs r) by (unfold objs; by rewrite N1).
  destruct (put_right (objs r) h c l k o r h1 r1 Hl Ol ltac:(by rewrite Eo) Or Dis C1) as (h2 & R2 & C2 & _). exists h2.
  rewrite (bind_some _ _ _ _ _ R), (bind_some _ _ _ _ _ R1), (bind_some _ _ _ _ _ R2). split_and!; [done| |cbn [entries]; by rewrite N1].
  eapply changes_weaken; [|exact C2]. rewrite objs_node. set_solver.
Qed.

(** *** The moves of red links *)

Lemma does_MoveRedRight : does MoveRedRight_ RedBlack.MoveRedRight_.
Proof.
  intros h t t' Hl Hd (t1 & E1 & E)%bind_Some. apply bind_Some in E as (l & El & E). apply bind_Some in E as (ll & Ell & E).
  destruct (FlipColors_ok h t t1 Hl Hd E1) as (Ep & h1 & R1 & C1). pose proof (FlipColors_entries t t1 E1) as N1.
  assert (Eo : objs t1 = objs t) by (unfold objs; by rewrite N1). pose proof (ch_laid _ _ _ _ C1) as L1.
  destruct (left_at h1 t1 L1 l El) as (R2 & Ll & Hp). destruct (left_at h1 l Ll ll Ell) as (R3 & Lll & Hpl).
  destruct (does_if (RedBlack.FIsNonNullAndRed ll) _ _ (does_seq _ _ _ _ does_RotateRight does_FlipColors) h1 t1 t' L1 ltac:(by rewrite Eo)) as (h2 & R4 & C2 & N2).
  { by destruct (RedBlack.FIsNonNullAndRed ll). }
  exists h2. rewrite Eo in C2. split_and!; [|by eapply changes_trans|congruence]. rewrite Ep in *. unfold MoveRedRight_. run1.
  rewrite (bind_some _ _ _ _ _ R1), (bind_some _ _ _ _ _ R2). run1. rewrite (bind_some _ _ _ _ _ R3), (bind_some _ _ _ _ _ (red_at h1 ll Lll)). done.
Qed.

Lemma does_MoveRedLeft : does MoveRedLeft_ RedBlack.MoveRedLeft_.
Proof.
  intros h t t' Hl Hd (t1 & E1 & E)%bind_Some. apply bind_Some in E as (r & Er & E). apply bind_Some in E as (rl & Erl & E).
  destruct (FlipColors_ok h t t1 Hl Hd E1) as (Ep & h1 & R1 & C1). pose proof (FlipColors_entries t t1 E1) as N1.
  assert (Eo : objs t1 = objs t) by (unfold objs; by rewrite N1). pose proof (ch_laid _ _ _ _ C1) as L1.
  destruct (right_at h1 t1 L1 r Er) as (R2 & Lr & Hp). destruct (left_at h1 r Lr rl Erl) as (R3 & Lrl & Hpr).
  destruct (does_if (RedBlack.FIsNonNullAndRed rl) _ _ (does_seq _ _ _ _ (does_right _ _ does_RotateRight) (does_seq _ _ _ _ does_RotateLeft does_FlipColors)) h1 t1 t' L1 ltac:(by rewrite Eo))
    as (h2 & R4 & C2 & N2).
  { destruct (RedBlack.FIsNonNullAndRed rl); [|done]. apply bind_Some in E as (r1 & F1 & E). apply bind_Some in E as (t2 & F2 & E).
    rewrite Er. cbn. rewrite F1. cbn. by rewrite F2. }
  exists h2. rewrite Eo in C2. split_and!; [|by eapply changes_trans|congruence]. rewrite Ep in *. unfold MoveRedLeft_. run1.
  rewrite (bind_some _ _ _ _ _ R1), (bind_some _ _ _ _ _ R2). run1. rewrite (bind_some _ _ _ _ _ R3), (bind_some _ _ _ _ _ (red_at h1 rl Lrl)).
  rewrite <- R4. destruct (RedBlack.FIsNonNullAndRed rl); [|done]. rewrite bind_assoc. apply bind_ext. intros ? ?. rewrite bind_assoc. apply bind_ext. intros ? ?.
  rewrite bind_assoc. apply bind_ext. intros ? ?. done.
Qed.

Lemma both_black_at h p b : laid h p -> RedBlack.both_black p = Some b -> both_black (ptr p) h = Some (b, h).
Proof.
  intros Hl E. unfold RedBlack.both_black in E. unfold both_black, and_then, not_. rewrite bind_assoc, (bind_some _ _ _ _ _ (red_at h p Hl)).
  destruct (RedBlack.FIsNonNullAndRed p); [injection E as <-; done|]. apply bind_Some in E as (l & El & E). injection E as <-. run1. cbn [negb].
  destruct (left_at h p Hl l El) as (R & Ll & _). rewrite bind_assoc, (bind_some _ _ _ _ _ R), (bind_some _ _ _ _ _ (red_at h l Ll)). done.
Qed.

Lemma does_prepare_left : does (fun p => let* l := PnodeLeft p in let* b := both_black l in if (b : bool) then MoveRedLeft_ p else ret p) prepare_left.
Proof.
  intros h t t' Hl Hd (l & El & E)%bind_Some. apply bind_Some in E as (b & Eb & E). destruct (left_at h t Hl l El) as (R & Ll & _).
  rewrite (bind_some _ _ _ _ _ R), (bind_some _ _ _ _ _ (both_black_at h l b Ll Eb)). by apply (does_if b _ _ does_MoveRedLeft).
Qed.

Lemma does_prepare_right : does (fun p => let* r := PnodeRight p in let* b := both_black r in if (b : bool) then MoveRedRight_ p else ret p) prepare_right.
Proof.
  intros h t t' Hl Hd (l & El & E)%bind_Some. apply bind_Some in E as (b & Eb & E). destruct (right_at h t Hl l El) as (R & Ll & _).
  rewrite (bind_some _ _ _ _ _ R), (bind_some _ _ _ _ _ (both_black_at h l b Ll Eb)). by apply (does_if b _ _ does_MoveRedRight).
Qed.

Lemma does_rotate_red_left : does (fun p => let* l := PnodeLeft p in let* b := FIsNonNullAndRed l in if (b : bool) then RotateRight_ p else ret p) rotate_red_left.
Proof.
  intros h t t' Hl Hd (l & El & E)%bind_Some. destruct (left_at h t Hl l El) as (R & Ll & _).
  rewrite (bind_some _ _ _ _ _ R), (bind_some _ _ _ _ _ (red_at h l Ll)). by apply (does_if _ _ _ does_RotateRight).
Qed.

(** *** Assertions and lookups *)

Lemma AssertValid_at h t : laid h t -> NoDup (objs t) -> RedBlack.AssertValid t = Some tt -> AssertValid (ptr t) h = Some (tt, h).
Proof.
  intros Hl Hd E. destruct t as [|c l k o r]; [done|]. pose proof Hl as (Ho & Hn & Ll & Lr). pose proof (laid_ptr h l Ll) as El. pose proof (laid_ptr h r Lr) as Er.
  pose proof (red_at h r Lr) as Rr. unfold AssertValid. cbn [ptr]. run1. rewrite El, Er.
  cbn [RedBlack.AssertValid] in E. apply bind_Some in E as ([] & E1 & E). apply bind_Some in E as ([] & E2 & E). apply bind_Some in E as ([] & E3 & E4).
  unfold COLLAssert in *. pose proof Hd as (_ & _ & Ol & Or & _)%NoDup_node.
  erewrite bind_some.
  2:{ destruct l as [|cl ll kl ol rl]; cbn [is_null ptr]; [reflexivity|]. destruct (kl <? k) eqn:Ek; [|done]. parts. repeat run1.
      by rewrite (proj2 (Z.eqb_neq o ol)). }
  erewrite bind_some.
  2:{ destruct r as [|cr lr kr or rr]; cbn [is_null ptr]; [reflexivity|]. destruct (k <? kr) eqn:Ek; [|done]. parts. repeat run1.
      by rewrite (proj2 (Z.eqb_neq o or)). }
  erewrite bind_some.
  2:{ destruct l as [|cl ll kl ol rl]; cbn [is_null ptr orb]; [reflexivity|]. destruct r as [|cr lr kr or rr]; cbn [is_null ptr orb]; [reflexivity|].
      cbn in E3. parts. repeat run1. by destruct c, cl, cr. }
  rewrite (bind_some _ _ _ _ _ Rr). destruct (RedBlack.FIsNonNullAndRed r); [|done]. destruct l as [|cl ll kl ol rl]; [done|]. cbn [is_null ptr negb]. parts.
  repeat run1. by destruct cl.
Qed.

Lemma Find_at fuel h t key : laid h t -> (node_count t < fuel)%nat ->
  Find_ fuel (ptr t) key h = Some (match RedBlack.Find_ t key with Some x => x.2 | None => 0 end, h).
Proof.
  revert fuel. induction t as [|c l IHl k o r IHr]; intros [|fuel] Hl Hf; try (cbn in Hf; lia); [done|]. cbn [node_count] in Hf. cbn [Find_ ptr RedBlack.Find_].
  destruct Hl as (Ho & Hn & Hl & Hr). rewrite (proj2 (Z.eqb_neq _ _) Ho). run1.
  destruct (key =? k); [done|]. destruct (key <? k); run1; [apply IHl|apply IHr]; (done || lia).
Qed.

Lemma FContainsKey_at h p t key : laid h t -> p = ptr t -> (node_count t < bound h)%nat ->
  FContainsKey_ p key h = Some (RedBlack.FContainsKey_ t key, h).
Proof.
  intros Hl -> Hf. unfold FContainsKey_, RedBlack.FContainsKey_. rewrite (bind_some _ _ _ _ _ (Find_at _ h t key Hl Hf)). unfold ret. do 2 f_equal.
  clear Hf. induction t as [|c l IHl k o r IHr]; [done|]. cbn [RedBlack.Find_]. destruct Hl as (Ho & _ & Hl & Hr).
  destruct (key =? k); [by apply negb_true_iff, Z.eqb_neq|]. destruct (key <? k); auto.
Qed.

Lemma PnodeMin_at fuel h t k o : laid h t -> RedBlack.PnodeMin_ t = Some (k, o) -> (node_count t <= fuel)%nat -> PnodeMin_ fuel (ptr t) h = Some (o, h).
Proof.
  revert fuel. induction t as [|c l IHl k' o' r _]; intros fuel Hl E Hf; [done|]. destruct Hl as (Ho & Hn & Hl & Hr). cbn [node_count] in Hf. destruct fuel as [|fuel]; [lia|].
  cbn [PnodeMin_ ptr]. run1. rewrite (laid_ptr h l Hl). destruct l as [|cl ll kl ol rl]; cbn [is_null].
  - by injection E as -> ->.
  - apply IHl; [done|done|lia].
Qed.

(** The tree fits the memory. *)
Lemma laid_in h t a : laid h t -> a ∈ objs t -> is_Some (h !! a).
Proof.
  induction t as [|c l IHl k o r IHr]; [by intros _ ?%elem_of_nil|]. intros (Ho & Hn & Hl & Hr) [Ha|[->|Ha]]%elem_of_node; eauto.
Qed.

Lemma laid_size h t : laid h t -> NoDup (objs t) -> (node_count t <= size h)%nat.
Proof.
  intros Hl Hd. rewrite node_count_entries, <- (length_fmap snd (entries t)). change (length (objs t) <= size h)%nat.
  rewrite <- (size_dom (D := gset Z) h), <- (size_list_to_set (C := gset Z)) by done. apply subseteq_size. intros a [x Hx]%elem_of_list_to_set%(laid_in h t a Hl).
  apply elem_of_dom. by eexists.
Qed.

(** *** Insertion *)

Lemma Fixup_entries t t' : RedBlack.Fixup_ t = Some t' -> entries t' = entries t.
Proof.
  unfold RedBlack.Fixup_. intros (r & Er & E)%bind_Some. apply bind_Some in E as (t1 & E1 & E). apply bind_Some in E as (l1 & El1 & E). apply bind_Some in E as (t2 & E2 & E).
  apply bind_Some in E as (l2 & El2 & E). apply bind_Some in E as (r2 & Er2 & E3).
  assert (N1 : entries t1 = entries t) by (destruct (RedBlack.FIsNonNullAndRed r); [by apply RotateLeft_entries|by injection E1 as ->]).
  assert (N2 : entries t2 = entries t1).
  { destruct (RedBlack.FIsNonNullAndRed l1); [|by injection E2 as ->]. apply bind_Some in E2 as (ll & Ell & E2).
    destruct (RedBlack.FIsNonNullAndRed ll); [|by injection E2 as ->]. apply bind_Some in E2 as (r1 & Er1 & E2). apply bind_Some in E2 as (u & Eu & E2). by apply RotateRight_entries. }
  destruct (_ && _); [apply FlipColors_entries in E3|injection E3 as <-]; congruence.
Qed.

(** The objects after an insertion. *)
Definition inserted_objs (err : ERR) (new : Z) (os os' : list Z) : Prop :=
  err = errSuccess /\ os' ≡ₚ new :: os \/ err = errDuplicateEntry /\ os' ≡ₚ os.

Lemma inserted_sub err new os os' a : inserted_objs err new os os' -> a ∈ os' -> a = new \/ a ∈ os.
Proof. intros [[_ ->]|[_ ->]] Ha; [by apply list.elem_of_cons in Ha|by right]. Qed.

Lemma inserted_NoDup err new os os' : inserted_objs err new os os' -> new ∉ os -> NoDup os -> NoDup os'.
Proof. intros [[_ ->]|[_ ->]] Hn Hd; [by constructor|done]. Qed.

Lemma ErrInsert_at t : forall fuel h key new err t', laid h t -> NoDup (objs t) -> new ∉ objs t -> new <> 0 -> is_Some (h !! new) ->
  RedBlack.ErrInsert_ t key new = Some (err, t') -> (node_count t < fuel)%nat ->
  exists h', ErrInsert_ fuel key new (ptr t) h = Some ((err, ptr t'), h') /\ changes (new :: objs t) h t' h' /\ inserted_objs err new (objs t) (objs t').
Proof.
  induction t as [|c l IHl k o r IHr]; intros [|fuel] h key new err t' Hl Hd Hnew H0 [n Hn] E Hf; try (cbn in Hf; lia).
  { injection E as <- <-. eexists. split; [cbn [ErrInsert_ ptr Z.eqb]; unfold InitNode_; erewrite bind_some by (by eapply store_ok); reflexivity|].
    split; [|left; by split]. split.
    - cbn [laid ptr]. split_and!; try done. lookups.
    - intros a [Ha _]%not_elem_of_cons. rewrite lookup_insert_ne by congruence. done.
    - intros a Ha. apply lookup_insert_is_Some'. by right. }
  cbn [node_count] in Hf. cbn [RedBlack.ErrInsert_] in E. apply bind_Some in E as ([err1 t1] & E1 & E). apply bind_Some in E as (t2 & E2 & E).
  apply bind_Some in E as ([] & E3 & E). injection E as <- <-. pose proof Hl as (Ho & Hno & Ll & Lr). pose proof Hd as (Dl & Dr & Ol & Or & Dis)%NoDup_node.
  pose proof Hnew as (Nl & No & Nr)%not_elem_node.
  (* the subtree *)
  assert (Hsub : exists h1, (if key =? k then ret errDuplicateEntry
       else if key <? k then let* pnodeT := PnodeLeft o in let* x := ErrInsert_ fuel key new pnodeT in do* SetLeft o x.2 in ret x.1
       else let* pnodeT := PnodeRight o in let* x := ErrInsert_ fuel key new pnodeT in do* SetRight o x.2 in ret x.1) h = Some (err1, h1) /\
     ptr t1 = o /\ changes (new :: objs (Node c l k o r)) h t1 h1 /\ inserted_objs err1 new (objs (Node c l k o r)) (objs t1)).
  { destruct (key =? k).
    - injection E1 as <- <-. exists h. split_and!; [done|done|by apply changes_refl|right; by split].
    - destruct (key <? k).
      + apply bind_Some in E1 as ([e l1] & E1 & Ex). injection Ex as -> <-. destruct (IHl fuel h key new err1 l1 Ll Dl Nl H0 ltac:(by eexists) E1 ltac:(lia)) as (h1 & R1 & C1 & I1).
        destruct (put_left (new :: objs l) h c l k o r h1 l1 Hl Or) as (h2 & R2 & C2 & _);
          [intros [->|?]%(inserted_sub _ _ _ _ _ I1); done|by intros [->|?]%list.elem_of_cons|intros x Hx [->|Hy]%list.elem_of_cons; [done|by apply (Dis x)]|done|].
        exists h2. run1. rewrite (bind_some _ _ _ _ _ R1). cbn [fst snd]. rewrite (bind_some _ _ _ _ _ R2). split_and!; [done|done| |].
        * eapply changes_weaken; [|exact C2]. rewrite objs_node. set_solver.
        * rewrite !objs_node. destruct I1 as [[-> I1]|[-> I1]]; [left|right]; split; [done|by rewrite I1|done|by rewrite I1].
      + apply bind_Some in E1 as ([e r1] & E1 & Ex). injection Ex as -> <-. destruct (IHr fuel h key new err1 r1 Lr Dr Nr H0 ltac:(by eexists) E1 ltac:(lia)) as (h1 & R1 & C1 & I1).
        destruct (put_right (new :: objs r) h c l k o r h1 r1 Hl Ol) as (h2 & R2 & C2 & _);
          [intros [->|?]%(inserted_sub _ _ _ _ _ I1); done|by intros [->|?]%list.elem_of_cons|intros x Hx [->|Hy]%list.elem_of_cons; [done|by apply (Dis x)]|done|].
        exists h2. run1. rewrite (bind_some _ _ _ _ _ R1). cbn [fst snd]. rewrite (bind_some _ _ _ _ _ R2). split_and!; [done|done| |].
        * eapply changes_weaken; [|exact C2]. rewrite objs_node. set_solver.
        * rewrite !objs_node. destruct I1 as [[-> I1]|[-> I1]]; [left|right]; split; [done| |done|by rewrite I1].
          rewrite I1. rewrite (Permutation_middle (objs l) (o :: objs r) new). apply Permutation_app_head, perm_swap. }
  destruct Hsub as (h1 & R1 & Ep & C1 & I1). pose proof (inserted_NoDup _ _ _ _ I1 Hnew Hd) as D1.
  destruct (does_Fixup h1 t1 t2 (ch_laid _ _ _ _ C1) D1 E2) as (h2 & R2 & C2 & N2). assert (Eo : objs t2 = objs t1) by (unfold objs; by rewrite N2).
  exists h2. split; [|split; [|by rewrite Eo]].
  { cbn [ErrInsert_ ptr]. rewrite (proj2 (Z.eqb_neq _ _) Ho). run1. rewrite (bind_some _ _ _ _ _ R1). rewrite <- Ep, (bind_some _ _ _ _ _ R2).
    by rewrite (bind_some _ _ _ _ _ (AssertValid_at h2 t2 (ch_laid _ _ _ _ C2) ltac:(by rewrite Eo) E3)). }
  eapply changes_trans; [exact C1|]. eapply changes_weaken; [|exact C2]. intros a Ha. apply list.elem_of_cons. by apply (inserted_sub _ _ _ _ _ I1).
Qed.

(** *** Deletion *)

Lemma does_objs h t t' h' : changes (objs t) h t' h' -> entries t' = entries t -> NoDup (objs t) -> laid h' t' /\ objs t' = objs t /\ NoDup (objs t') /\ node_count t' = node_count t.
Proof.
  intros C N D. assert (E : objs t' = objs t) by (unfold objs; by rewrite N). split_and!; [apply C|done|by rewrite E|by rewrite !node_count_entries, N].
Qed.

Lemma RemoveMinNode_at fuel : forall fuel' h t t', (fuel <= fuel')%nat -> laid h t -> NoDup (objs t) -> RedBlack.RemoveMinNode_ fuel t = Some t' ->
  exists h' k o, RemoveMinNode_ fuel' (ptr t) h = Some (ptr t', h') /\ changes (objs t) h t' h' /\ entries t = (k, o) :: entries t' /\ m_key <$> h' !! o = Some k.
Proof.
  induction fuel as [|fuel IH]; intros [|fuel'] h t t' Hf Hl Hd E; try done; [lia|]. cbn [RedBlack.RemoveMinNode_] in E.
  apply bind_Some in E as (l & El & E). destruct (left_at h t Hl l El) as (R & Ll & Hp). cbn [RemoveMinNode_]. rewrite (bind_some _ _ _ _ _ R), (laid_ptr h l Ll).
  destruct l as [|cl ll kl ol rl]; cbn [is_null].
  - apply bind_Some in E as (r & Er & E). apply bind_Some in E as ([] & Ea & E). injection E as <-. destruct (right_at h t Hl r Er) as (R2 & Lr & _).
    unfold COLLAssert in Ea. destruct r; [|done]. destruct t as [|c l0 k o r0]; [done|]. injection El as ->. injection Er as ->.
    exists h, k, o. rewrite (bind_some _ _ _ _ _ R2). split_and!; [done|by split|done|]. destruct Hl as (_ & -> & _). done.
  - set (l := Node cl ll kl ol rl) in *. apply bind_Some in E as (t1 & E1 & E). apply bind_Some in E as (l1 & El1 & E). apply bind_Some in E as (l2 & E2 & E).
    apply bind_Some in E as (t2 & E3 & E4). destruct (does_prepare_left h t t1 Hl Hd E1) as (h1 & R1 & C1 & N1). destruct (does_objs _ _ _ _ C1 N1 Hd) as (L1 & O1 & D1 & _).
    rewrite (bind_some _ _ _ _ _ R) in R1.
    destruct t1 as [|c1 l1' k1 o1 r1]; [done|]. injection El1 as ->. injection E3 as <-. pose proof L1 as (Ho1 & Hn1 & Ll1 & Lr1). pose proof D1 as (Dl & Dr & Ol & Or & Dis)%NoDup_node.
    destruct (IH fuel' h1 l1 l2 ltac:(lia) Ll1 Dl E2) as (h2 & k & o & R2 & C2 & N2 & K2).
    assert (O2 : objs l1 = o :: objs l2) by (unfold objs; by rewrite N2).
    assert (No1 : o <> o1) by (intros ->; apply Ol; rewrite O2; left).
    destruct (put_left (objs l1) h1 c1 l1 k1 o1 r1 h2 l2 L1 Or) as (h3 & R3 & C3 & F3);
      [intros Hx; apply Ol; rewrite O2; by right|done|intros x Hx Hy; by apply (Dis x)|done|].
    rewrite O2 in Dl. apply list.NoDup_cons in Dl as [Nol2 Dl2].
    assert (D3 : NoDup (objs (Node c1 l2 k1 o1 r1))).
    { apply NoDup_node. split_and!; [done|done|intros Hx; apply Ol; rewrite O2; by right|done|]. intros x Hx Hy. apply (Dis x); [rewrite O2; by right|done]. }
    destruct (does_Fixup h3 _ t' (ch_laid _ _ _ _ C3) D3 E4) as (h4 & R4 & C4 & N4). exists h4, k, o.
    rewrite <- bind_assoc, (bind_some _ _ _ _ _ R1). cbn [ptr]. run1. rewrite (bind_some _ _ _ _ _ R2), (bind_some _ _ _ _ _ R3). split_and!; [done| | |].
    + eapply changes_trans; [exact C1|]. rewrite <- O1. eapply changes_trans; [eapply changes_weaken; [|exact C3]|eapply changes_weaken; [|exact C4]]; rewrite !objs_node, ?O2; set_solver.
    + rewrite <- N1, N4. cbn [entries]. by rewrite N2.
    + rewrite (ch_frame _ _ _ _ C4), F3; [done|done|]. apply not_elem_node. split_and!; [done|done|]. intros Hx. apply (Dis o); [rewrite O2; left|done].
Qed.

(** The object [del] has been taken out. *)
Record cut (h : memory) (t t' : tree) (h' : memory) (del : Z) : Prop := {
  cut_changes : changes (objs t) h t' h';
  cut_objs : objs t ≡ₚ del :: objs t';
  cut_null : del <> 0 }.

Lemma cut_after h t t1 h1 t' h' del : changes (objs t) h t1 h1 -> objs t1 = objs t -> cut h1 t1 t' h' del -> cut h t t' h' del.
Proof. intros C E [C' P N]. rewrite E in *. split; [by eapply changes_trans|done|done]. Qed.

Lemma cut_Fixup h t t1 h1 t' del : changes (objs t) h t1 h1 -> objs t ≡ₚ del :: objs t1 -> del <> 0 -> NoDup (objs t) -> RedBlack.Fixup_ t1 = Some t' ->
  exists h', Fixup_ (ptr t1) h1 = Some (ptr t', h') /\ cut h t t' h' del.
Proof.
  intros C P N D E. assert (D1 : NoDup (objs t1)) by (rewrite P in D; by apply list.NoDup_cons in D as [_ D]).
  destruct (does_Fixup h1 t1 t' (ch_laid _ _ _ _ C) D1 E) as (h' & R & C' & N'). exists h'. split; [done|].
  assert (Eo : objs t' = objs t1) by (unfold objs; by rewrite N'). split; [|by rewrite Eo|done].
  eapply changes_trans; [exact C|]. eapply changes_weaken; [|exact C']. intros a Ha. rewrite P. by right.
Qed.

Section Delete.
Context (fDEBUG : bool) (fuel : nat) (key : Z).

(** The deletion goes on in a subtree. *)
Definition sub_cut (h : memory) (t t' : tree) (del : Z) : Prop := exists h', Delete_ fDEBUG fuel (ptr t) key h = Some ((ptr t', del), h') /\ cut h t t' h' del.

Lemma delete_left h t l l' t' del : laid h t -> NoDup (objs t) -> RedBlack.PnodeLeft t = Some l -> sub_cut h l l' del ->
  (t1 ← RedBlack.SetLeft t l'; RedBlack.Fixup_ t1) = Some t' ->
  exists h', (let* l := PnodeLeft (ptr t) in let* x := Delete_ fDEBUG fuel l key in do* SetLeft (ptr t) x.1 in do* check (negb (x.2 =? 0)) in
     let* pnodeT := Fixup_ (ptr t) in ret (pnodeT, x.2)) h = Some ((ptr t', del), h') /\ cut h t t' h' del.
Proof.
  intros Hl Hd El (h1 & R1 & [C1 P1 N1]) E. destruct t as [|c l0 k o r]; [done|]. injection El as ->. cbn [RedBlack.SetLeft mbind option_bind] in E.
  pose proof Hl as (Ho & Hn & Ll & Lr). pose proof Hd as (Dl & Dr & Ol & Or & Dis)%NoDup_node.
  destruct (put_left (objs l) h c l k o r h1 l' Hl Or) as (h2 & R2 & C2 & _); [intros Hx; apply Ol; rewrite P1; by right|done|intros x Hx Hy; by apply (Dis x)|done|].
  destruct (cut_Fixup h (Node c l k o r) (Node c l' k o r) h2 t' del) as (h3 & R3 & C3); [|rewrite !objs_node, P1; done|done|done|done|].
  { eapply changes_weaken; [|exact C2]. rewrite objs_node. set_solver. }
  exists h3. split; [|done]. cbn [ptr] in *. run1. rewrite (bind_some _ _ _ _ _ R1). cbn [fst snd]. rewrite (bind_some _ _ _ _ _ R2). run1. by rewrite (bind_some _ _ _ _ _ R3).
Qed.

Lemma delete_right h t r r' t' del : laid h t -> NoDup (objs t) -> RedBlack.PnodeRight t = Some r -> sub_cut h r r' del ->
  (t1 ← RedBlack.SetRight t r'; RedBlack.Fixup_ t1) = Some t' ->
  exists h', (let* r := PnodeRight (ptr t) in let* x := Delete_ fDEBUG fuel r key in do* SetRight (ptr t) x.1 in do* check (negb (x.2 =? 0)) in
     let* pnodeT := Fixup_ (ptr t) in ret (pnodeT, x.2)) h = Some ((ptr t', del), h') /\ cut h t t' h' del.
Proof.
  intros Hl Hd El (h1 & R1 & [C1 P1 N1]) E. destruct t as [|c l k o r0]; [done|]. injection El as ->. cbn [RedBlack.SetRight mbind option_bind] in E.
  pose proof Hl as (Ho & Hn & Ll & Lr). pose proof Hd as (Dl & Dr & Ol & Or & Dis)%NoDup_node.
  destruct (put_right (objs r) h c l k o r h1 r' Hl Ol) as (h2 & R2 & C2 & _); [intros Hx; apply Or; rewrite P1; by right|done|intros x Hx Hy; by apply (Dis x)|done|].
  destruct (cut_Fixup h (Node c l k o r) (Node c l k o r') h2 t' del) as (h3 & R3 & C3); [| |done|done|done|].
  { eapply changes_weaken; [|exact C2]. rewrite objs_node. set_solver. }
  { rewrite !objs_node, P1. rewrite (Permutation_middle (objs l) (o :: objs r') del). apply Permutation_app_head, perm_swap. }
  exists h3. split; [|done]. cbn [ptr] in *. run1. rewrite (bind_some _ _ _ _ _ R1). cbn [fst snd]. rewrite (bind_some _ _ _ _ _ R2). run1. by rewrite (bind_some _ _ _ _ _ R3).
Qed.

Lemma ScrubNode_at h o : o <> 0 -> is_Some (h !! o) ->
  exists h', ScrubNode_ fDEBUG o h = Some (tt, h') /\ (forall a, a <> o -> h' !! a = h !! a) /\ forall a, is_Some (h !! a) -> is_Some (h' !! a).
Proof.
  intros Ho [n Hn]. unfold ScrubNode_. destruct fDEBUG.
  - eexists. split; [by eapply store_ok|]. split; intros a Ha; [by apply lookup_insert_ne|]. apply lookup_insert_is_Some'. by right.
  - exists h. by rewrite (bind_some _ _ _ _ _ (load_ok h o n Ho Hn)).
Qed.

(** The node is replaced by the least one to its right. *)
Lemma delete_here h t r pmin r' t' del fuel0 : (fuel0 <= fuel)%nat -> (node_count t <= S fuel)%nat -> laid h t -> NoDup (objs t) -> RedBlack.PnodeRight t = Some r -> node_of t = Some del ->
  RedBlack.PnodeMin_ r = Some pmin -> RedBlack.RemoveMinNode_ fuel0 r = Some r' -> (t1 ← replace_node t pmin r'; RedBlack.Fixup_ t1) = Some t' ->
  exists h', (let* r := PnodeRight (ptr t) in let* pnodeMin := PnodeMin_ fuel r in let* r := PnodeRight (ptr t) in let* pnodeRight := RemoveMinNode_ fuel r in
     let* l := PnodeLeft (ptr t) in do* SetLeft pnodeMin l in do* SetRight pnodeMin pnodeRight in let* c := Color (ptr t) in do* SetColor pnodeMin c in
     do* ScrubNode_ fDEBUG (ptr t) in do* check (negb (ptr t =? 0)) in let* pnodeN := Fixup_ pnodeMin in ret (pnodeN, ptr t)) h = Some ((ptr t', del.2), h') /\ cut h t t' h' del.2.
Proof.
  intros Hf Hc Hl Hd Er Edel Emin Erem E. destruct t as [|c l k o r0]; [done|]. injection Er as ->. injection Edel as <-. destruct pmin as [km om]. cbn [replace_node mbind option_bind fst snd] in *.
  pose proof Hl as (Ho & Hn & Ll & Lr). pose proof Hd as (Dl & Dr & Ol & Or & Dis)%NoDup_node. cbn [node_count] in Hc.
  pose proof (PnodeMin_at fuel h r km om Lr Emin ltac:(lia)) as R1. destruct (RemoveMinNode_at fuel0 fuel h r r' Hf Lr Dr Erem) as (h1 & km' & om' & R2 & C1 & N1 & K1).
  assert (km' = km /\ om' = om) as [-> ->] by (rewrite PnodeMin_head, N1 in Emin; by injection Emin).
  assert (Or' : objs r = om :: objs r') by (unfold objs; by rewrite N1). rewrite Or' in Dr. apply list.NoDup_cons in Dr as [Nom Dr'].
  assert (Hom : om ∉ objs l) by (intros Hx; apply (Dis om Hx); rewrite Or'; left). assert (Hoom : o <> om) by (intros ->; apply Or; rewrite Or'; left).
  assert (Hor' : o ∉ objs r') by (intros Hx; apply Or; rewrite Or'; by right).
  assert (Hom0 : om <> 0).
  { assert (Hx : om ∈ objs r) by (rewrite Or'; left). clear -Lr Hx. induction r as [|cr lr IHl kr or rr IHr]; [by apply elem_of_nil in Hx|]. destruct Lr as (? & _ & ? & ?).
    apply elem_of_node in Hx as [Hx|[->|Hx]]; auto. }
  destruct (h1 !! om) as [n|] eqn:Hn1; [|done]. injection K1 as K1. assert (Ho1 : h1 !! o = Some (Context_ k c (ptr l) (ptr r))) by (by rewrite (ch_frame _ _ _ _ C1)).
  cbn [ptr] in *. run1. rewrite (bind_some _ _ _ _ _ R1). run1. rewrite (bind_some _ _ _ _ _ R2). do 5 run1. rewrite K1.
  rewrite !insert_insert_eq. set (h2 := <[om := _]> h1).
  destruct (ScrubNode_at h2 o Ho ltac:(unfold h2; rewrite lookup_insert_ne by congruence; by eexists)) as (h3 & R3 & F3 & D3).
  assert (F2 : forall a, a <> om -> h2 !! a = h1 !! a) by (intros a Ha; apply lookup_insert_ne; congruence).
  destruct (cut_Fixup h (Node c l k o r) (Node c l km om r') h3 t' o) as (h4 & R4 & C4); [| |done|done|done|].
  - split.
    + cbn [laid]. split_and!; [done|rewrite F3 by congruence; apply lookup_insert_eq| |].
      * apply (laid_frame h); [done|]. intros a Ha. rewrite F3 by (by intros ->). rewrite F2 by (by intros ->). apply (ch_frame _ _ _ _ C1). intros Hx. by apply (Dis a).
      * apply (laid_frame h1); [apply C1|]. intros a Ha. rewrite F3 by (by intros ->). by rewrite F2 by (by intros ->).
    + intros a (Ha1 & Ha2 & Ha3)%not_elem_node. rewrite F3 by done. rewrite F2 by (intros ->; apply Ha3; rewrite Or'; left). by apply C1.
    + intros a Ha. apply D3. apply lookup_insert_is_Some'. right. by apply C1.
  - rewrite !objs_node, Or'. symmetry. apply Permutation_middle.
  - exists h4. split; [|done]. rewrite (bind_some _ _ _ _ _ R3). run1. cbn [ptr] in R4. by rewrite (bind_some _ _ _ _ _ R4).
Qed.

(** A node without children. *)
Lemma delete_leaf h t t' del : laid h t -> RedBlack.PnodeRight t = Some Nil ->
  (l ← RedBlack.PnodeLeft t; _ ← COLLAssert (is_null l); c ← RedBlack.Color t; _ ← COLLAssert (bool_decide (c = Red)); del ← node_of t; Some (Nil, del)) = Some (t', del) ->
  exists h', (let* l := PnodeLeft (ptr t) in do* check (l =? 0) in let* c := Color (ptr t) in do* check (bool_decide (c = Red)) in
     do* ScrubNode_ fDEBUG (ptr t) in ret (0, ptr t)) h = Some ((ptr t', del.2), h') /\ cut h t t' h' del.2.
Proof.
  intros Hl Er (l & El & E)%bind_Some. apply bind_Some in E as ([] & Ea & E). apply bind_Some in E as (c1 & Ec & E). apply bind_Some in E as ([] & Eb & E).
  apply bind_Some in E as (del' & Edel & E). injection E as <- ->. unfold COLLAssert in *. destruct l; [|done]. destruct (bool_decide (c1 = Red)) eqn:Ered; [|done].
  destruct t as [|c l' k o r']; [done|]. injection El as ->. injection Er as ->. injection Ec as ->. injection Edel as <-. pose proof Hl as (Ho & Hn & _). cbn [ptr fst snd] in *.
  destruct (ScrubNode_at h o Ho ltac:(by eexists)) as (h2 & R2 & F2 & D2). exists h2.
  split; [run1; run1; run1; rewrite Ered; run1; by rewrite (bind_some _ _ _ _ _ R2)|]. split; [|done|done]. split; [done| |done]. intros a (_ & Ha & _)%not_elem_node. by apply F2.
Qed.
End Delete.

Lemma Delete_at fDEBUG fuel : forall fuel' h t key t' del, (fuel <= fuel')%nat -> (node_count t <= fuel')%nat -> laid h t -> NoDup (objs t) ->
  RedBlack.Delete_ fuel t key = Some (t', del) -> sub_cut fDEBUG fuel' key h t t' del.2.
Proof.
  induction fuel as [|fuel IH]; intros [|fuel'] h t key t' del Hf Hc Hl Hd E; try done; [lia|]. cbn [RedBlack.Delete_] in E.
  apply bind_Some in E as (k & Ek & E). destruct (key_at h t Hl k Ek) as (Rk & Hp). unfold sub_cut. cbn [Delete_]. run1. rewrite (bind_some _ _ _ _ _ Rk).
  destruct (key <? k).
  - apply bind_Some in E as (t1 & E1 & E). apply bind_Some in E as (l1 & El1 & E). apply bind_Some in E as ([l2 del'] & E2 & E). apply bind_Some in E as (t2 & E3 & E).
    apply bind_Some in E as (t3 & E4 & E). injection E as <- <-. pose proof E1 as (l & El & _)%bind_Some. destruct (left_at h t Hl l El) as (Rl & Ll & _).
    destruct (does_prepare_left h t t1 Hl Hd E1) as (h1 & R1 & C1 & N1). destruct (does_objs _ _ _ _ C1 N1 Hd) as (L1 & O1 & D1 & Nc). rewrite (bind_some _ _ _ _ _ Rl) in R1.
    rewrite (bind_some _ _ _ _ _ Rl). rewrite (laid_ptr h l Ll). destruct l as [|cl ll kl ol rl]; [unfold prepare_left in E1; by rewrite El in E1|]. cbn [is_null]. run1.
    rewrite <- bind_assoc, (bind_some _ _ _ _ _ R1).
    destruct (delete_left fDEBUG fuel' key h1 t1 l1 l2 t3 del'.2 L1 D1 El1) as (h2 & R2 & C2); [|by rewrite E3|].
    { destruct t1 as [|c1 l1' k1 o1 r1]; [done|]. injection El1 as ->. cbn [node_count] in Nc. apply (IH fuel' h1 l1 key l2 del'); [lia|lia|apply L1| |done].
      by apply NoDup_node in D1 as (D1 & _). }
    exists h2. split; [done|]. by eapply cut_after.
  - apply bind_Some in E as (t1 & E1 & E). apply bind_Some in E as (k1 & Ek1 & E). apply bind_Some in E as (r1 & Er1 & E).
    pose proof E1 as (l & El & _)%bind_Some. destruct (left_at h t Hl l El) as (Rl & Ll & _). destruct (does_rotate_red_left h t t1 Hl Hd E1) as (h1 & R1 & C1 & N1).
    destruct (does_objs _ _ _ _ C1 N1 Hd) as (L1 & O1 & D1 & Nc1). rewrite (bind_some _ _ _ _ _ Rl), (bind_some _ _ _ _ _ (red_at h l Ll)) in R1.
    rewrite (bind_some _ _ _ _ _ Rl), (bind_some _ _ _ _ _ (red_at h l Ll)), (bind_some _ _ _ _ _ R1).
    destruct (key_at h1 t1 L1 k1 Ek1) as (Rk1 & Hp1). destruct (right_at h1 t1 L1 r1 Er1) as (Rr1 & Lr1 & _). rewrite (bind_some _ _ _ _ _ Rk1), (bind_some _ _ _ _ _ Rr1), (laid_ptr h1 r1 Lr1).
    destruct ((key =? k1) && is_null r1) eqn:Eleaf.
    + apply andb_prop in Eleaf as [_ Eleaf]. destruct r1; [|done]. destruct (delete_leaf fDEBUG h1 t1 t' del L1 Er1 E) as (h2 & R2 & C2). exists h2. split; [done|]. by eapply cut_after.
    + apply bind_Some in E as (t2 & E2 & E). apply bind_Some in E as (k2 & Ek2 & E). apply bind_Some in E as (r2 & Er2 & E).
      destruct (does_prepare_right h1 t1 t2 L1 D1 E2) as (h2 & R2 & C2 & N2). destruct (does_objs _ _ _ _ C2 N2 D1) as (L2 & O2 & D2 & Nc2). rewrite (bind_some _ _ _ _ _ Rr1) in R2.
      rewrite <- bind_assoc, (bind_some _ _ _ _ _ R2). destruct (key_at h2 t2 L2 k2 Ek2) as (Rk2 & Hp2). rewrite (bind_some _ _ _ _ _ Rk2).
      assert (Hend : forall h', cut h2 t2 t' h' del.2 -> cut h t t' h' del.2) by (intros h' Hcut; eapply cut_after; [exact C1|done|]; by eapply cut_after).
      destruct (key =? k2).
      * apply bind_Some in E as (del' & Edel & E). apply bind_Some in E as (pmin & Emin & E). apply bind_Some in E as (r3 & E3 & E). apply bind_Some in E as (t3 & E4 & E).
        apply bind_Some in E as (t4 & E5 & E). injection E as -> ->.
        destruct (delete_here fDEBUG fuel' h2 t2 r2 pmin r3 t' del fuel ltac:(lia) ltac:(lia) L2 D2 Er2 Edel Emin E3) as (h3 & R3 & C3); [by rewrite E4|]. exists h3. split; [done|]. by apply Hend.
      * apply bind_Some in E as ([r3 del'] & E3 & E). apply bind_Some in E as (t3 & E4 & E). apply bind_Some in E as (t4 & E5 & E). injection E as -> ->.
        destruct (delete_right fDEBUG fuel' key h2 t2 r2 r3 t' del.2 L2 D2 Er2) as (h3 & R3 & C3); [|by rewrite E4|exists h3; split; [done|by apply Hend]].
        destruct t2 as [|c2 l2 k2' o2 r2']; [done|]. injection Er2 as ->. cbn [node_count] in Nc2. apply (IH fuel' h2 r2 key r3 del); [lia|lia|apply L2| |done].
        by apply NoDup_node in D2 as (_ & D2 & _).
Qed.

(** ** Calls *)

(** The state holds the tree [t]. *)
Record holds (s : state) (t : tree) : Prop := {
  ho_root : m_pnodeRoot s = ptr t;
  ho_laid : laid (mem s) t;
  ho_objs : NoDup (objs t);
  ho_tree : tree_ok t }.

Definition linked (m : gmap Z Z) (obj : Z) : bool := bool_decide (obj ∈ (map_to_list m).*2).

Lemma linked_objs t obj : tree_ok t -> linked (contents t) obj = bool_decide (obj ∈ objs t).
Proof.
  intros [Ho _]. unfold linked. apply bool_decide_ext. unfold objs, contents. pose proof (ordered_NoDup _ Ho) as Hd. by rewrite (map_to_list_to_map (entries t) Hd).
Qed.

Lemma holds_bound s t : holds s t -> (node_count t < bound (mem s))%nat.
Proof. intros [_ Hl Hd _]. pose proof (laid_size _ _ Hl Hd). unfold bound. lia. Qed.

(** What a call leaves alone. *)
Definition untouched (F : list Z) (s s' : state) : Prop :=
  (forall a, a ∉ F -> mem s' !! a = mem s !! a) /\ forall a, is_Some (mem s !! a) -> is_Some (mem s' !! a).

Lemma ErrInsert_step s t key obj : holds s t -> obj ∉ objs t -> obj <> 0 -> is_Some (mem s !! obj) ->
  exists err s' t', ErrInsert s key obj = Some (err, s') /\ holds s' t' /\ untouched (obj :: objs t) s s' /\ (forall a, a ∈ objs t' -> a = obj \/ a ∈ objs t) /\
    (err, contents t') = spec_insert (contents t) key obj.
Proof.
  intros Hs Hobj H0 Hm. pose proof Hs as [Hroot Hl Hd Ht]. destruct (ErrInsert_map t key obj Ht) as (err & t' & E & Ht' & Hspec).
  unfold RedBlack.ErrInsert in E. apply bind_Some in E as ([err' t1] & E1 & E). apply bind_Some in E as ([] & E2 & E). injection E as -> ->.
  destruct (ErrInsert_at t (bound (mem s)) (mem s) key obj err t' Hl Hd Hobj H0 Hm E1 (holds_bound _ _ Hs)) as (h' & R & [L' F' D'] & I).
  assert (Hs' : holds (State (ptr t') h') t') by (split; [done|done|by eapply inserted_NoDup|done]).
  unfold COLLAssert in E2. destruct (RedBlack.FContainsKey_ t' key) eqn:Ec; [|done].
  exists err, (State (ptr t') h'), t'. unfold ErrInsert. rewrite Hroot, R. cbn [mbind option_bind]. rewrite (laid_ptr h' t' L').
  assert (is_null t' = false) as -> by (by destruct t'). cbn [negb COLLAssert mbind option_bind].
  rewrite (FContainsKey_at h' _ t' key L' eq_refl (holds_bound _ _ Hs')), Ec. cbn [mbind option_bind COLLAssert].
  split_and!; [done|done|by split|intros a; by eapply inserted_sub|done].
Qed.

Lemma ErrDelete_step fDEBUG s t key : holds s t ->
  exists err s' res t', ErrDelete fDEBUG s key = Some (err, s', res) /\ holds s' t' /\ untouched (objs t) s s' /\ (forall a, a ∈ objs t' -> a ∈ objs t) /\
    (err, contents t', res) = spec_delete (contents t) key.
Proof.
  intros Hs. pose proof Hs as [Hroot Hl Hd Ht]. destruct (ErrDelete_map t key Ht) as (err & t' & res & E & Ht' & Hspec). unfold RedBlack.ErrDelete in E.
  unfold ErrDelete. rewrite (FContainsKey_at (mem s) _ t key Hl Hroot (holds_bound _ _ Hs)). cbn [mbind option_bind].
  destruct (RedBlack.FContainsKey_ t key) eqn:Ec; cbn [negb] in *.
  - apply bind_Some in E as ([t1 del] & E1 & E). apply bind_Some in E as ([] & E2 & E). injection E as <- -> <-. pose proof (holds_bound _ _ Hs) as Hb.
    destruct (Delete_at fDEBUG (node_count t) (bound (mem s)) (mem s) t key t' del ltac:(lia) ltac:(lia) Hl Hd E1) as (h' & R & [[L' F' D'] P N]).
    assert (Hs' : holds (State (ptr t') h') t') by (split; [done|done|rewrite P in Hd; by apply list.NoDup_cons in Hd as [_ Hd]|done]).
    unfold COLLAssert in E2. destruct (RedBlack.FContainsKey_ t' key) eqn:Ec'; [done|].
    eexists _, _, _, t'. rewrite Hroot, (laid_ptr _ _ Hl), R. assert (is_null t = false) as -> by (by destruct t). cbn [negb COLLAssert mbind option_bind]. cbn [mbind option_bind]. rewrite (FContainsKey_at h' _ t' key L' eq_refl (holds_bound _ _ Hs')), Ec'.
    cbn [mbind option_bind negb COLLAssert]. split_and!; [done|done|by split| |done]. intros a Ha. rewrite P. by right.
  - injection E as <- -> <-. exists errEntryNotFound, s, None, t'. by split_and!.
Qed.

Lemma ErrFind_step s t key : holds s t -> ErrFind s key = Some (spec_find (contents t) key).
Proof.
  intros Hs. pose proof Hs as [Hroot Hl Hd Ht]. rewrite <- (ErrFind_map t key Ht). unfold ErrFind. rewrite Hroot, (Find_at _ _ t key Hl (holds_bound _ _ Hs)).
  cbn [mbind option_bind]. f_equal. unfold RedBlack.ErrFind. clear -Hl. induction t as [|c l IHl k o r IHr]; [done|]. destruct Hl as (Ho & _ & Hl & Hr).
  cbn [RedBlack.Find_]. destruct (key =? k); [cbn [snd]; by rewrite (proj2 (Z.eqb_neq _ _) Ho)|]. destruct (key <? k); auto.
Qed.

(** ** What the client must see to

    An object that is inserted exists and is not linked in the tree at that time: its node
    has room for one place in one tree. *)
Definition fits (objects : gset Z) (m : gmap Z Z) (x : op) : bool :=
  match x with OpInsert _ obj => negb (obj =? 0) && bool_decide (obj ∈ objects) && negb (linked m obj) | _ => true end.

Fixpoint disciplined (objects : gset Z) (m : gmap Z Z) (ops : list op) : bool :=
  match ops with [] => true | x :: ops => fits objects m x && disciplined objects (spec_step m x).1 ops end.

Definition inserts (ops : list op) : list Z := omap (fun x => match x with OpInsert _ obj => Some obj | _ => None end) ops.

Lemma step_holds fDEBUG (objects : gset Z) s t x : holds s t -> (forall a, a ∈ objects -> is_Some (mem s !! a)) -> fits objects (contents t) x = true ->
  exists s' t' res, step fDEBUG s x = Some (s', res) /\ holds s' t' /\ untouched (inserts [x] ++ objs t) s s' /\ (forall a, a ∈ objs t' -> a ∈ inserts [x] ++ objs t) /\
    spec_step (contents t) x = (contents t', res).
Proof.
  intros Hs Hobj Hfit. destruct x as [key obj|key|key]; cbn [step RedBlackMap.spec_step fits] in *.
  - apply andb_prop in Hfit as [[H0%negb_true_iff%Z.eqb_neq Hin%bool_decide_eq_true]%andb_prop Hfree%negb_true_iff].
    rewrite (linked_objs _ _ (ho_tree _ _ Hs)) in Hfree. apply bool_decide_eq_false in Hfree.
    destruct (ErrInsert_step s t key obj Hs Hfree H0 (Hobj obj Hin)) as (err & s' & t' & R & Hs' & Hu & Ho & Hspec). exists s', t', (err, None).
    rewrite R, <- Hspec. split_and!; [done|done|exact Hu| |done]. intros a Ha. apply list.elem_of_cons. by apply Ho.
  - destruct (ErrDelete_step fDEBUG s t key Hs) as (err & s' & res & t' & R & Hs' & Hu & Ho & Hspec). exists s', t', (err, res). rewrite R, <- Hspec. by split_and!.
  - exists s, t, (spec_find (contents t) key). rewrite (ErrFind_step s t key Hs). by split_and!.
Qed.

Lemma run_holds fDEBUG (objects : gset Z) ops : forall s t, holds s t -> (forall a, a ∈ objects -> is_Some (mem s !! a)) -> disciplined objects (contents t) ops = true ->
  exists s' t' res, run fDEBUG s ops = Some (s', res) /\ holds s' t' /\ untouched (inserts ops ++ objs t) s s' /\ spec_run (contents t) ops = (contents t', res).
Proof.
  induction ops as [|x ops IH]; intros s t Hs Hobj Hd; [by exists s, t, []|]. cbn [disciplined] in Hd. apply andb_prop in Hd as [Hfit Hd].
  destruct (step_holds fDEBUG objects s t x Hs Hobj Hfit) as (s1 & t1 & res & R1 & Hs1 & [F1 D1] & O1 & E1). rewrite E1 in Hd. cbn [fst] in Hd.
  destruct (IH s1 t1 Hs1 ltac:(intros a Ha; apply D1, Hobj, Ha) Hd) as (s2 & t2 & l & R2 & Hs2 & [F2 D2] & E2). exists s2, t2, (res :: l).
  cbn [run RedBlackMap.spec_run]. rewrite R1, E1. cbn [mbind option_bind]. rewrite R2, E2. split_and!; [done|done| |done].
  assert (Hi : inserts (x :: ops) = inserts [x] ++ inserts ops) by (by destruct x). rewrite Hi. split; [|by auto]. intros a Ha. rewrite F2, F1; [done|set_solver|].
  intros [Hx|Hx%O1]%elem_of_app; set_solver.
Qed.

(** *** Depth *)

Lemma CDepth_at fuel h t : laid h t -> (node_count t < fuel)%nat -> CDepth_ fuel (ptr t) h = Some (Z.of_nat (depth t)).
Proof.
  revert fuel. induction t as [|c l IHl k o r IHr]; intros [|fuel] Hl Hf; try (cbn in Hf; lia); [done|]. cbn [node_count] in Hf. destruct Hl as (Ho & Hn & Hl & Hr).
  cbn [CDepth_ ptr depth]. rewrite (proj2 (Z.eqb_neq _ _) Ho), Hn. cbn [mbind option_bind m_pnodeLeft m_pnodeRight]. rewrite IHl, IHr by (done || lia). cbn [mbind option_bind]. f_equal. lia.
Qed.

(** ** The claims *)

Lemma run_empty fDEBUG ops (h : memory) : disciplined (dom h) ∅ ops = true ->
  exists s t res, run fDEBUG (State 0 h) ops = Some (s, res) /\ holds s t /\ spec_run ∅ ops = (contents t, res) /\ forall a, a ∉ inserts ops -> mem s !! a = h !! a.
Proof.
  intros Hd. destruct (run_holds fDEBUG (dom h) ops (State 0 h) Nil) as (s & t & res & R & Hs & [F _] & E); [..|by exists s, t, res; split_and!; [..|intros a Ha; apply F; set_solver]].
  - split; [done|done|constructor|exact tree_ok_Nil].
  - intros a Ha. by apply elem_of_dom.
  - done.
Qed.

(** C3: the tree that is linked through the client's objects implements a finite map.  In
    either build, any sequence of insertions, deletions and lookups on an empty tree in
    which an object is inserted only when it exists and is not linked at that time (an
    object that was deleted may be inserted again) ends without dereferencing a null or
    dangling pointer and without failing an assertion, and returns exactly the error codes
    and objects that the same sequence returns on a finite map.  The root then leads to
    distinct nodes that form a balanced search tree with the entries of that map, and
    memory outside the objects that were inserted is as before. *)
Theorem tree_implements_map (fDEBUG : bool) (ops : list op) (h : memory) :
  disciplined (dom h) ∅ ops = true ->
  exists s t res, run fDEBUG (State 0 h) ops = Some (s, res) /\
    m_pnodeRoot s = ptr t /\ laid (mem s) t /\ NoDup (objs t) /\ tree_ok t /\
    spec_run ∅ ops = (contents t, res) /\
    forall a, a ∉ inserts ops -> mem s !! a = h !! a.
Proof. intros Hd. destruct (run_empty fDEBUG ops h Hd) as (s & t & res & R & [] & E & F). by exists s, t, res. Qed.

(** Eight objects with arbitrary contents, and calls that link seven of them, delete some
    and link a deleted one again under another key. *)
Definition demo_memory : memory :=
  list_to_map ((fun a => (a, Context_ 77 Black 5 a)) <$> [101; 102; 103; 104; 105; 106; 107; 108]).

Definition demo_ops : list op :=
  [OpInsert 4 104; OpInsert 2 102; OpInsert 6 106; OpInsert 1 101; OpInsert 3 103; OpInsert 5 105; OpInsert 7 107;
   OpInsert 3 108; OpDelete 4; OpFind 4; OpInsert 9 104; OpFind 9; OpDelete 8; OpDelete 1].

Lemma tree_implements_map_witness :
  disciplined (dom demo_memory) ∅ demo_ops = true /\
  (spec_run ∅ demo_ops).2 =
    [(errSuccess, None); (errSuccess, None); (errSuccess, None); (errSuccess, None); (errSuccess, None); (errSuccess, None); (errSuccess, None);
     (errDuplicateEntry, None); (errSuccess, Some 104); (errEntryNotFound, None); (errSuccess, None); (errSuccess, Some 104);
     (errEntryNotFound, None); (errSuccess, Some 101)] /\
  exists s t res, run true (State 0 demo_memory) demo_ops = Some (s, res) /\
    m_pnodeRoot s = ptr t /\ laid (mem s) t /\ NoDup (objs t) /\ tree_ok t /\
    spec_run ∅ demo_ops = (contents t, res) /\
    forall a, a ∉ inserts demo_ops -> mem s !! a = demo_memory !! a.
Proof.
  split; [vm_compute; reflexivity|]. split; [vm_compute; reflexivity|].
  apply (tree_implements_map true demo_ops demo_memory). vm_compute. reflexivity.
Defined.

(** The condition on the client is needed: the node of an object that is inserted while it
    is linked is initialised again.  Here the root is inserted a second time: it loses its
    subtrees and becomes its own right child, and an assertion of AssertValid fails. *)
Example insert_linked_object :
  exists s, run false (State 0 demo_memory) [OpInsert 2 102; OpInsert 1 101; OpInsert 3 103; OpInsert 4 102] = None /\
    run false (State 0 demo_memory) [OpInsert 2 102; OpInsert 1 101; OpInsert 3 103] = Some s.
Proof. eexists. vm_compute. split; reflexivity. Qed.

(** C40: after any such sequence of calls the recursion of the operations is logarithmic:
    the depth of the linked nodes, as [CDepth_] computes it, is at most twice the binary
    logarithm of the number of entries plus one (two to the depth is at most the square of
    the number of entries plus one). *)
Theorem tree_depth_bound (fDEBUG : bool) (ops : list op) (h : memory) :
  disciplined (dom h) ∅ ops = true ->
  exists s res d, run fDEBUG (State 0 h) ops = Some (s, res) /\
    CDepth_ (bound (mem s)) (m_pnodeRoot s) (mem s) = Some d /\
    0 <= d /\ 2 ^ d <= (Z.of_nat (size (spec_run ∅ ops).1) + 1) ^ 2.
Proof.
  intros Hd. destruct (run_empty fDEBUG ops h Hd) as (s & t & res & R & Hs & E & _). pose proof Hs as [Hroot Hl _ [Ho Hb]].
  exists s, res, (Z.of_nat (depth t)). rewrite Hroot, (CDepth_at _ _ t Hl (holds_bound _ _ Hs)), E. cbn [fst].
  split_and!; [done|done|lia|]. rewrite <- (node_count_contents t Ho). apply balanced_depth in Hb. apply inj_le in Hb. rewrite !Nat2Z.inj_pow, (Nat2Z.inj_succ (node_count t)) in Hb. exact Hb.
Qed.

Lemma tree_depth_bound_witness :
  disciplined (dom demo_memory) ∅ demo_ops = true /\
  exists s res d, run false (State 0 demo_memory) demo_ops = Some (s, res) /\
    CDepth_ (bound (mem s)) (m_pnodeRoot s) (mem s) = Some d /\
    0 <= d /\ 2 ^ d <= (Z.of_nat (size (spec_run ∅ demo_ops).1) + 1) ^ 2.
Proof. split; [|apply (tree_depth_bound false demo_ops demo_memory)]; vm_compute; reflexivity. Defined.

End Nodes.
