(* ===== verification/RedBlackHeap.v ===== *)
(** * RedBlackHeap: CRedBlackTree, the red-black tree that owns its nodes

    [CRedBlackTree] allocates a node per entry and keeps the nodes in an
    [InvasiveRedBlackTree].  The state is the base tree, whose objects are node
    pointers, and the nodes allocated and not yet freed with their data.  Reading
    or freeing a node that is not allocated is [None].  The allocator is a
    parameter: [new live] is the pointer that [new] returns when the nodes [live]
    are allocated, or [None] for a null pointer. *)

From stdpp Require Import gmap.
From S2P Require Import Prelude RedBlack RedBlackProofs RedBlackMap.

Module CRedBlackTree.

Record state := State { m_irbtBase : tree; live : gmap Z Z }.

Definition init : state := State Nil ∅.

Definition Free_ (h : gmap Z Z) (pnode : Z) : option (gmap Z Z) :=
  _ ← h !! pnode; Some (delete pnode h).

(** The data of the node found, when the lookup succeeded. *)
Definition ErrFind (s : state) (key : Z) : option (ERR * option Z) :=
  match RedBlack.ErrFind (m_irbtBase s) key with
  | (errSuccess, Some pnode) => data ← live s !! pnode; Some (errSuccess, Some data)
  | (err, _) => Some (err, None)
  end.

Definition with_data (s : state) (r : ERR * option (Z * Z)) : option (ERR * option (Z * Z)) :=
  match r with
  | (errSuccess, Some (k, pnode)) => data ← live s !! pnode; Some (errSuccess, Some (k, data))
  | (err, _) => Some (err, None)
  end.

Definition ErrFindNearest (s : state) (key : Z) : option (ERR * option (Z * Z)) :=
  with_data s (RedBlack.ErrFindNearest (m_irbtBase s) key).

Definition ErrFindGreaterThanOrEqual (s : state) (key : Z) : option (ERR * option (Z * Z)) :=
  with_data s (RedBlack.ErrFindGreaterThanOrEqual (m_irbtBase s) key).

Definition PnodeAlloc_ (new : gmap Z Z -> option Z) (h : gmap Z Z) (data : Z) : option Z * gmap Z Z :=
  match new h with None => (None, h) | Some p => (Some p, <[p := data]> h) end.

Definition ErrInsert (new : gmap Z Z -> option Z) (s : state) (key data : Z) : option (ERR * state) :=
  match PnodeAlloc_ new (live s) data with
  | (None, _) => Some (errOutOfMemory, s)
  | (Some pnode, h) =>
      '(err, t) ← RedBlack.ErrInsert (m_irbtBase s) key pnode;
      h ← (if negb (bool_decide (err = errSuccess)) then Free_ h pnode else Some h);
      Some (err, State t h)
  end.

Definition ErrDelete (s : state) (key : Z) : option (ERR * state) :=
  '(err, t, res) ← RedBlack.ErrDelete (m_irbtBase s) key;
  h ← (if bool_decide (err = errSuccess)
       then pnode ← res; Free_ (live s) pnode
       else Some (live s));
  Some (err, State t h).

Fixpoint MakeEmpty_ (t : tree) (h : gmap Z Z) : option (gmap Z Z) :=
  match t with
  | Nil => Some h
  | Node _ l _ pnode r =>
      _ ← h !! pnode;
      h ← MakeEmpty_ l h;
      h ← MakeEmpty_ r h;
      Free_ h pnode
  end.

(** [InvasiveRedBlackTree::MakeEmpty_] scrubs every node it reaches. *)
Fixpoint scrub (t : tree) (h : gmap Z Z) : option unit :=
  match t with
  | Nil => Some tt
  | Node _ l _ pnode r => _ ← h !! pnode; _ ← scrub l h; _ ← scrub r h; Some tt
  end.

Definition MakeEmpty (s : state) : option state :=
  match m_irbtBase s with
  | Nil => Some s
  | Node c l k pnodeRoot r =>
      _ ← live s !! pnodeRoot;
      h ← MakeEmpty_ l (live s);
      h ← MakeEmpty_ r h;
      let t := Node c Nil k pnodeRoot Nil in
      _ ← scrub t h;
      let t := RedBlack.MakeEmpty t in
      h ← Free_ h pnodeRoot;
      Some (State t h)
  end.

(** ** Invariant *)

(** Every entry has its own node, and the allocated nodes are those of the entries. *)
Definition nodes_ok (m h : gmap Z Z) : Prop :=
  (forall k1 k2 p, m !! k1 = Some p -> m !! k2 = Some p -> k1 = k2) /\
  (forall p, is_Some (h !! p) <-> exists k, m !! k = Some p).

Definition heap_ok (s : state) : Prop :=
  tree_ok (m_irbtBase s) /\ nodes_ok (contents (m_irbtBase s)) (live s).

(** The map from keys to data that the tree represents. *)
Definition abs (s : state) : gmap Z Z := omap (fun p => live s !! p) (contents (m_irbtBase s)).

Lemma abs_lookup (t : tree) (h : gmap Z Z) (k : Z) :
  abs (State t h) !! k = (contents t !! k) ≫= (h !!.).
Proof. apply lookup_omap. Qed.

Lemma nodes_ok_live (m h : gmap Z Z) (k p : Z) : nodes_ok m h -> m !! k = Some p -> is_Some (h !! p).
Proof. intros [_ H] E. apply H. by exists k. Qed.

Lemma abs_None (s : state) (k : Z) :
  heap_ok s -> abs s !! k = None <-> contents (m_irbtBase s) !! k = None.
Proof.
  destruct s as [t h]. intros [_ Hn]. rewrite abs_lookup. simpl in *.
  destruct (contents t !! k) as [p|] eqn:E; [|done]. simpl.
  destruct (nodes_ok_live _ _ k p Hn E) as [d ->]. split; discriminate.
Qed.

Lemma nodes_ok_insert (m h : gmap Z Z) (k p d : Z) :
  nodes_ok m h -> m !! k = None -> h !! p = None -> nodes_ok (<[k := p]> m) (<[p := d]> h).
Proof.
  intros Hn Hk Hp. assert (forall k', m !! k' <> Some p) as Hfresh.
  { intros k' E. destruct (nodes_ok_live m h k' p Hn E). congruence. }
  destruct Hn as [Hinj Hcov]. split.
  - intros k1 k2 q. rewrite !lookup_insert_Some.
    intros [[<- <-]|[? E1]] [[<- ?]|[? E2]]; subst; try done; try by destruct (Hfresh _ E2).
    + by destruct (Hfresh _ E1).
    + by eapply Hinj.
  - intros q. destruct (decide (q = p)) as [->|Hne].
    + rewrite lookup_insert_eq. split; [|by eexists]. exists k. apply lookup_insert_eq.
    + rewrite lookup_insert_ne, Hcov by done. split; intros [k' E]; exists k'.
      * rewrite lookup_insert_ne; [done|]. intros ->. congruence.
      * rewrite lookup_insert_Some in E. destruct E as [[_ ?]|[_ ?]]; congruence.
Qed.

Lemma nodes_ok_delete (m h : gmap Z Z) (k p : Z) :
  nodes_ok m h -> m !! k = Some p -> nodes_ok (delete k m) (delete p h).
Proof.
  intros [Hinj Hcov] Hk. split.
  - intros k1 k2 q. rewrite !lookup_delete_Some. intros [? ?] [? ?]. by eapply Hinj.
  - intros q. destruct (decide (q = p)) as [->|Hne].
    + rewrite lookup_delete_eq. split; [by intros []|]. intros [k' [Hne E]%lookup_delete_Some].
      by destruct (Hne (Hinj k k' p Hk E)).
    + rewrite lookup_delete_ne, Hcov by done. split; intros [k' E]; exists k'.
      * rewrite lookup_delete_ne; [done|]. intros ->. congruence.
      * by apply lookup_delete_Some in E as [_ E].
Qed.

Lemma free_fresh (h : gmap Z Z) (p d : Z) : h !! p = None -> Free_ (<[p := d]> h) p = Some h.
Proof.
  intros E. unfold Free_. rewrite lookup_insert_eq. simpl. by rewrite delete_insert_id.
Qed.

(** ** Operations against the map *)

Section alloc.
Context (new : gmap Z Z -> option Z).
Context (new_fresh : forall h p, new h = Some p -> h !! p = None).

Lemma ErrInsert_heap (s : state) (key data : Z) :
  heap_ok s -> exists err s', ErrInsert new s key data = Some (err, s') /\ heap_ok s' /\
    match new (live s) with
    | None => err = errOutOfMemory /\ s' = s
    | Some _ => (err, abs s') = spec_insert (abs s) key data
    end.
Proof.
  intros Hs. unfold ErrInsert, PnodeAlloc_. destruct (new (live s)) as [p|] eqn:En; [|by eexists _, _].
  apply new_fresh in En. destruct Hs as [Ht Hn].
  destruct (ErrInsert_map (m_irbtBase s) key p Ht) as (err & t' & -> & Ht' & E). simpl.
  unfold spec_insert in *. destruct s as [t h]. simpl in *.
  destruct (contents t !! key) as [q|] eqn:Ek; injection E as -> E; simpl.
  - rewrite free_fresh by done. eexists _, _. split; [done|]. split; [split; simpl; [done|by rewrite E]|].
    rewrite abs_lookup, Ek. simpl. destruct (nodes_ok_live _ _ key q Hn Ek) as [d ->].
    unfold abs. simpl. by rewrite E.
  - assert (heap_ok (State t' (<[p := data]> h))) as Hok.
    { split; simpl; [done|]. rewrite E. by apply nodes_ok_insert. }
    eexists _, _. split; [done|]. split; [done|]. rewrite abs_lookup, Ek. simpl. f_equal.
    apply map_eq. intros i. rewrite abs_lookup, E.
    destruct (decide (i = key)) as [->|].
    + rewrite !lookup_insert_eq. simpl. by rewrite lookup_insert_eq.
    + rewrite !lookup_insert_ne, abs_lookup by done.
      destruct (contents t !! i) as [q|] eqn:Ei; simpl; [|done].
      rewrite lookup_insert_ne; [done|]. intros ->.
      destruct (nodes_ok_live _ _ i q Hn Ei). congruence.
Qed.

Lemma ErrDelete_heap (s : state) (key : Z) :
  heap_ok s -> exists err s', ErrDelete s key = Some (err, s') /\ heap_ok s' /\
    (err, abs s') = match abs s !! key with
                    | Some _ => (errSuccess, delete key (abs s))
                    | None => (errEntryNotFound, abs s)
                    end.
Proof.
  intros [Ht Hn]. unfold ErrDelete. destruct s as [t h]. simpl in *.
  destruct (ErrDelete_map t key Ht) as (err & t' & res & -> & Ht' & E). unfold spec_delete in E.
  rewrite abs_lookup. destruct (contents t !! key) as [p|] eqn:Ek; injection E as -> E ->; simpl.
  - destruct (nodes_ok_live _ _ key p Hn Ek) as [d Hd]. unfold Free_. rewrite Hd. simpl.
    eexists _, _. split; [done|]. split; [split; simpl; [done|rewrite E; by apply nodes_ok_delete]|].
    f_equal. apply map_eq. intros i. rewrite abs_lookup, E.
    destruct (decide (i = key)) as [->|]; [by rewrite !lookup_delete_eq|].
    rewrite !(lookup_delete_ne _ key), abs_lookup by done.
    destruct (contents t !! i) as [q|] eqn:Ei; simpl; [|done].
    rewrite lookup_delete_ne; [done|]. intros ->. destruct Hn as [Hinj _].
    by specialize (Hinj _ _ _ Ek Ei).
  - eexists _, _. split; [done|]. split; [split; simpl; [done|by rewrite E]|].
    unfold abs. simpl. by rewrite E.
Qed.

Lemma ErrFind_heap (s : state) (key : Z) :
  heap_ok s -> ErrFind s key = Some (spec_find (abs s) key).
Proof.
  intros [Ht Hn]. unfold ErrFind. rewrite ErrFind_map by done. unfold spec_find.
  destruct s as [t h]. rewrite abs_lookup. simpl in *.
  destruct (contents t !! key) as [p|] eqn:E; simpl; [|done].
  by destruct (nodes_ok_live _ _ key p Hn E) as [d ->].
Qed.

(** *** Emptying *)

Lemma MakeEmpty_frees (t : tree) (h : gmap Z Z) :
  NoDup (entries t).*2 -> (forall p, p ∈ (entries t).*2 -> is_Some (h !! p)) ->
  exists h', MakeEmpty_ t h = Some h' /\
    forall p, h' !! p = if decide (p ∈ (entries t).*2) then None else h !! p.
Proof.
  revert h. induction t as [|c l IHl k o r IHr]; intros h Hd Hlive; cbn [entries] in *.
  - exists h. split; [done|]. intros p. by rewrite decide_False by (simpl; set_solver).
  - rewrite fmap_app, fmap_cons in Hd, Hlive. simpl in Hd, Hlive.
    apply list.NoDup_app in Hd as (Hl & Hlr & Hr). apply list.NoDup_cons in Hr as [Hor Hr].
    destruct (Hlive o) as [d Hd]; [set_solver|]. cbn [MakeEmpty_]. rewrite Hd. cbn [mbind option_bind].
    destruct (IHl h Hl) as (h1 & -> & E1); [intros p Hp; apply Hlive; set_solver|].
    cbn [mbind option_bind].
    destruct (IHr h1 Hr) as (h2 & -> & E2).
    { intros p Hp. rewrite E1, decide_False; [apply Hlive; set_solver|].
      intros Hp'. apply (Hlr _ Hp'). set_solver. }
    cbn [mbind option_bind]. unfold Free_.
    assert (h2 !! o = Some d) as ->.
    { rewrite E2, decide_False, E1, decide_False; [done| |done]. intros Ho. apply (Hlr _ Ho). set_solver. }
    cbn [mbind option_bind]. eexists. split; [done|]. intros p. rewrite fmap_app, fmap_cons. simpl.
    destruct (decide (p = o)) as [->|Hne].
    + rewrite lookup_delete_eq, decide_True by set_solver. done.
    + rewrite lookup_delete_ne, E2, E1 by done.
      repeat case_decide; try done; set_solver.
Qed.

Lemma nodes_NoDup (t : tree) (h : gmap Z Z) :
  ordered (entries t) -> nodes_ok (contents t) h -> NoDup (entries t).*2.
Proof.
  intros Ho [Hinj _]. apply NoDup_fmap_2_strong.
  - intros [k1 o1] [k2 o2] H1 H2 E. simpl in E. subst o2. f_equal.
    apply (Hinj k1 k2 o1); by apply entries_lookup.
  - apply (NoDup_fmap_1 fst). by apply ordered_NoDup.
Qed.

Lemma MakeEmpty_heap (s : state) : heap_ok s -> MakeEmpty s = Some init.
Proof.
  intros [[Ho _] Hn]. destruct s as [t h]. simpl in *.
  assert (Hd := nodes_NoDup t h Ho Hn).
  assert (forall p, p ∈ (entries t).*2 -> is_Some (h !! p)) as Hlive.
  { intros p ([k o] & -> & Hp)%list_elem_of_fmap_1. apply (nodes_ok_live _ h k o Hn).
    by apply entries_lookup. }
  assert (forall p, is_Some (h !! p) -> p ∈ (entries t).*2) as Hall.
  { intros p [k Hk]%(proj2 Hn). apply (entries_lookup _ _ _ Ho) in Hk.
    by apply (list_elem_of_fmap_2 snd) in Hk. }
  destruct t as [|c l k o r]; unfold MakeEmpty; simpl in *.
  - assert (h = ∅) as ->; [|done]. apply map_eq. intros p. rewrite lookup_empty.
    destruct (h !! p) eqn:E; [|done]. assert (p ∈ @nil Z) by (apply Hall; by eexists). set_solver.
  - rewrite fmap_app, fmap_cons in Hd, Hlive, Hall. simpl in Hd, Hlive, Hall.
    apply list.NoDup_app in Hd as (Hl & Hlr & Hr). apply list.NoDup_cons in Hr as [Hor Hr].
    destruct (Hlive o) as [d Hd]; [set_solver|]. rewrite Hd. cbn [mbind option_bind].
    destruct (MakeEmpty_frees l h Hl) as (h1 & -> & E1); [intros p Hp; apply Hlive; set_solver|].
    cbn [mbind option_bind]. destruct (MakeEmpty_frees r h1 Hr) as (h2 & -> & E2).
    { intros p Hp. rewrite E1, decide_False; [apply Hlive; set_solver|].
      intros Hp'. apply (Hlr _ Hp'). set_solver. }
    cbn [mbind option_bind]. unfold Free_.
    assert (h2 !! o = Some d) as ->.
    { rewrite E2, decide_False, E1, decide_False; [done| |done]. intros Ho'. apply (Hlr _ Ho'). set_solver. }
    cbn [mbind option_bind]. unfold init. repeat f_equal.
    apply map_eq. intros p. rewrite lookup_empty.
    destruct (decide (p = o)) as [->|Hne]; [apply lookup_delete_eq|].
    rewrite lookup_delete_ne, E2, E1 by done. repeat case_decide; try done.
    destruct (h !! p) eqn:E; [|done]. assert (p ∈ (entries l).*2 ++ o :: (entries r).*2) by (apply Hall; by eexists).
    set_solver.
Qed.

(** *** Sequences of calls *)

Inductive call := Insert (key data : Z) | Delete (key : Z) | Find (key : Z) | Empty.

Definition exec (s : state) (x : call) : option (state * (ERR * option Z)) :=
  match x with
  | Insert key data => '(err, s) ← ErrInsert new s key data; Some (s, (err, None))
  | Delete key => '(err, s) ← ErrDelete s key; Some (s, (err, None))
  | Find key => r ← ErrFind s key; Some (s, r)
  | Empty => s ← MakeEmpty s; Some (s, (errSuccess, None))
  end.

Fixpoint execs (s : state) (l : list call) : option (state * list (ERR * option Z)) :=
  match l with
  | [] => Some (s, [])
  | x :: l => '(s, r) ← exec s x; '(s, rs) ← execs s l; Some (s, r :: rs)
  end.

(** The calls a map with a fallible insertion allows. *)
Inductive allowed : gmap Z Z -> list call -> list (ERR * option Z) -> gmap Z Z -> Prop :=
  | allowed_nil m : allowed m [] [] m
  | allowed_insert m key data err m1 l rs m' :
      spec_insert m key data = (err, m1) -> allowed m1 l rs m' ->
      allowed m (Insert key data :: l) ((err, None) :: rs) m'
  | allowed_oom m key data l rs m' :
      allowed m l rs m' -> allowed m (Insert key data :: l) ((errOutOfMemory, None) :: rs) m'
  | allowed_delete m key o l rs m' :
      m !! key = Some o -> allowed (delete key m) l rs m' ->
      allowed m (Delete key :: l) ((errSuccess, None) :: rs) m'
  | allowed_delete_absent m key l rs m' :
      m !! key = None -> allowed m l rs m' ->
      allowed m (Delete key :: l) ((errEntryNotFound, None) :: rs) m'
  | allowed_find m key l rs m' :
      allowed m l rs m' -> allowed m (Find key :: l) (spec_find m key :: rs) m'
  | allowed_empty m l rs m' :
      allowed ∅ l rs m' -> allowed m (Empty :: l) ((errSuccess, None) :: rs) m'.

Lemma init_ok : heap_ok init.
Proof.
  split; [exact tree_ok_Nil|]. split; [done|]. intros p. simpl. rewrite lookup_empty.
  split; [by intros []|by intros []].
Qed.

Lemma execs_allowed (l : list call) (s : state) :
  heap_ok s -> exists s' rs, execs s l = Some (s', rs) /\ heap_ok s' /\ allowed (abs s) l rs (abs s').
Proof.
  revert s. induction l as [|x l IH]; intros s Hs; [eexists _, _; split_and!; [done|done|constructor]|].
  destruct x as [key data|key|key|]; cbn [execs exec].
  - destruct (ErrInsert_heap s key data Hs) as (err & s1 & -> & Hs1 & E). cbn [mbind option_bind].
    destruct (IH s1 Hs1) as (s2 & rs & -> & Hs2 & Ha). eexists _, _. split; [done|]. split; [done|].
    destruct (new (live s)); [by econstructor|]. destruct E as [-> ->]. by constructor.
  - destruct (ErrDelete_heap s key Hs) as (err & s1 & -> & Hs1 & E). cbn [mbind option_bind].
    destruct (IH s1 Hs1) as (s2 & rs & -> & Hs2 & Ha). eexists _, _. split; [done|]. split; [done|].
    destruct (abs s !! key) eqn:Ek; injection E as -> E; rewrite E in Ha;
      [by eapply allowed_delete | by eapply allowed_delete_absent].
  - rewrite ErrFind_heap by done. cbn [mbind option_bind].
    destruct (IH s Hs) as (s2 & rs & -> & Hs2 & Ha). eexists _, _. split; [done|]. split; [done|].
    by constructor.
  - rewrite MakeEmpty_heap by done. cbn [mbind option_bind].
    destruct (IH init init_ok) as (s2 & rs & -> & Hs2 & Ha). eexists _, _. split; [done|]. split; [done|].
    constructor. exact Ha.
Qed.

(** C15: the red-black tree that allocates its nodes, under any sequence of
    insertions, deletions, lookups and MakeEmpty calls and any allocator that
    returns a pointer not in use or null.  No call reads or frees a node that is
    not allocated; the results are those of a map from keys to data, with
    errOutOfMemory only from an insertion, which then changes nothing; the
    nodes allocated are always exactly the nodes of the tree, so none leaks,
    and a final MakeEmpty leaves none. *)
Theorem owned_nodes_never_leak (l : list call) :
  exists s rs, execs init l = Some (s, rs) /\ allowed ∅ l rs (abs s) /\
    (forall p, is_Some (live s !! p) <-> exists k, contents (m_irbtBase s) !! k = Some p) /\
    MakeEmpty s = Some init.
Proof.
  destruct (execs_allowed l init init_ok) as (s & rs & E & Hs & Ha).
  exists s, rs. split_and!; [done|exact Ha|apply Hs|by apply MakeEmpty_heap].
Qed.
End alloc.

(** An allocator that hands out the least free address above zero, up to three nodes. *)
Definition new3 (h : gmap Z Z) : option Z := find (fun p => bool_decide (h !! p = None)) [1; 2; 3].

Lemma new3_fresh (h : gmap Z Z) (p : Z) : new3 h = Some p -> h !! p = None.
Proof. intros [_ H]%find_some. by apply bool_decide_eq_true in H. Qed.

Lemma owned_nodes_never_leak_witness :
  (forall h p, new3 h = Some p -> h !! p = None) /\
  let l := [Insert 5 50; Insert 6 60; Insert 5 51; Insert 4 40; Insert 3 30; Find 4; Delete 6;
            Insert 3 31; Find 3; Empty; Find 3] in
  (exists s rs, execs new3 init l = Some (s, rs) /\ allowed ∅ l rs (abs s) /\
    (forall p, is_Some (live s !! p) <-> exists k, contents (m_irbtBase s) !! k = Some p) /\
    MakeEmpty s = Some init) /\
  (snd <$> execs new3 init l) =
    Some [(errSuccess, None); (errSuccess, None); (errDuplicateEntry, None); (errSuccess, None);
          (errOutOfMemory, None); (errSuccess, Some 40); (errSuccess, None); (errSuccess, None);
          (errSuccess, Some 31); (errSuccess, None); (errEntryNotFound, None)].
Proof.
  split; [exact new3_fresh|]. split.
  - exact (owned_nodes_never_leak new3 new3_fresh _).
  - vm_compute. reflexivity.
Defined.
End CRedBlackTree.
