(* ===== verification/InvasiveList.v ===== *)
(** * InvasiveList: the doubly linked list embedded in its objects

    [CInvasiveList] and [CCountedInvasiveList] of collection.hxx.  An object holds
    a [CElement] at the offset [OffsetOfILE()], and elements point to elements;
    the null object's element address marks the ends and the address -1 an element
    in no list.  The memory is a finite map from the address of an element to its
    two links, shared by every list.  Following the link of an address that is not
    an element, and a [COLLAssert] that does not hold, is [None]. *)

From stdpp Require Import gmap.
From S2P Require Import Prelude.

Record CElement := Element { m_pilePrev : Z; m_pileNext : Z }.

Record CInvasiveList := ListEnds { m_pilePrevMost : Z; m_pileNextMost : Z }.

Abbreviation heap := (gmap Z CElement).

(** The element address -1. *)
Definition pileNone : Z := 2 ^ 64 - 1.

Definition CElement_ctor : CElement := Element pileNone pileNone.

Definition FUninitialized (e : CElement) : bool :=
  (m_pilePrev e =? pileNone) && (m_pileNext e =? pileNone).

Section Operations.
Context (OffsetOfILE : Z).

Definition _PobjFromPile (pile : Z) : Z := wrapu 64 (pile - OffsetOfILE).

Definition _PileFromPobj (pobj : Z) : Z := wrapu 64 (pobj + OffsetOfILE).

Definition set_prev (h : heap) (pile p : Z) : option heap :=
  e ← h !! pile; Some (<[pile := Element p (m_pileNext e)]> h).

Definition set_next (h : heap) (pile n : Z) : option heap :=
  e ← h !! pile; Some (<[pile := Element (m_pilePrev e) n]> h).

Definition Empty : CInvasiveList := ListEnds (_PileFromPobj 0) (_PileFromPobj 0).

Definition FEmpty (il : CInvasiveList) : bool := m_pilePrevMost il =? _PileFromPobj 0.

Definition FMember (h : heap) (pobj : Z) : option bool :=
  e ← h !! _PileFromPobj pobj; Some (negb (m_pilePrev e =? pileNone)).

Definition Prev (h : heap) (pobj : Z) : option Z :=
  e ← h !! _PileFromPobj pobj; Some (_PobjFromPile (m_pilePrev e)).

Definition Next (h : heap) (pobj : Z) : option Z :=
  e ← h !! _PileFromPobj pobj; Some (_PobjFromPile (m_pileNext e)).

Definition PrevMost (il : CInvasiveList) : Z := _PobjFromPile (m_pilePrevMost il).

Definition NextMost (il : CInvasiveList) : Z := _PobjFromPile (m_pileNextMost il).

Definition Pnil : Z := _PobjFromPile pileNone.

(** The assertions at the start of an insertion: the object is in no list. *)
Definition assert_free (h : heap) (pobj : Z) : option unit :=
  m ← FMember h pobj;
  _ ← COLLAssert (negb m);
  e ← h !! _PileFromPobj pobj;
  COLLAssert (FUninitialized e).

Definition InsertAsPrevMost (h : heap) (il : CInvasiveList) (pobj : Z) : option (heap * CInvasiveList) :=
  let pile := _PileFromPobj pobj in
  _ ← assert_free h pobj;
  if m_pilePrevMost il =? _PileFromPobj 0 then
    h ← set_prev h pile (_PileFromPobj 0);
    h ← set_next h pile (_PileFromPobj 0);
    Some (h, ListEnds pile pile)
  else
    h ← set_prev h pile (_PileFromPobj 0);
    h ← set_next h pile (m_pilePrevMost il);
    h ← set_prev h (m_pilePrevMost il) pile;
    Some (h, ListEnds pile (m_pileNextMost il)).

Definition InsertAsNextMost (h : heap) (il : CInvasiveList) (pobj : Z) : option (heap * CInvasiveList) :=
  let pile := _PileFromPobj pobj in
  _ ← assert_free h pobj;
  if m_pileNextMost il =? _PileFromPobj 0 then
    h ← set_prev h pile (_PileFromPobj 0);
    h ← set_next h pile (_PileFromPobj 0);
    Some (h, ListEnds pile pile)
  else
    h ← set_prev h pile (m_pileNextMost il);
    h ← set_next h pile (_PileFromPobj 0);
    h ← set_next h (m_pileNextMost il) pile;
    Some (h, ListEnds (m_pilePrevMost il) pile).

Definition Insert (h : heap) (il : CInvasiveList) (pobj pobjNext : Z) : option (heap * CInvasiveList) :=
  let pileNext := _PileFromPobj pobjNext in
  _ ← (if pileNext =? _PileFromPobj 0 then Some tt else m ← FMember h pobjNext; COLLAssert m);
  if pileNext =? _PileFromPobj 0 then InsertAsNextMost h il pobj
  else if pileNext =? m_pilePrevMost il then InsertAsPrevMost h il pobj
  else
    let pile := _PileFromPobj pobj in
    _ ← assert_free h pobj;
    eNext ← h !! pileNext;
    h ← set_prev h pile (m_pilePrev eNext);
    h ← set_next h (m_pilePrev eNext) pile;
    h ← set_next h pile pileNext;
    h ← set_prev h pileNext pile;
    Some (h, il).

Definition Remove (h : heap) (il : CInvasiveList) (pobj : Z) : option (heap * CInvasiveList) :=
  let pile := _PileFromPobj pobj in
  m ← FMember h pobj;
  _ ← COLLAssert m;
  e ← h !! pile;
  '(h, il) ← (if negb (m_pileNext e =? _PileFromPobj 0)
              then h ← set_prev h (m_pileNext e) (m_pilePrev e); Some (h, il)
              else Some (h, ListEnds (m_pilePrevMost il) (m_pilePrev e)));
  e ← h !! pile;
  '(h, il) ← (if negb (m_pilePrev e =? _PileFromPobj 0)
              then h ← set_next h (m_pilePrev e) (m_pileNext e); Some (h, il)
              else Some (h, ListEnds (m_pileNext e) (m_pileNextMost il)));
  h ← set_prev h pile pileNone;
  h ← set_next h pile pileNone;
  Some (h, il).
End Operations.

(** ** The counted list *)

Module Counted.

Record CCountedInvasiveList := CountedList { base : CInvasiveList; m_c : Z }.

Section Operations.
Context (OffsetOfILE : Z).

Definition ctor : CCountedInvasiveList := CountedList (InvasiveList.Empty OffsetOfILE) 0.

Definition lift (d : Z) (c : Z) (r : option (heap * CInvasiveList)) : option (heap * CCountedInvasiveList) :=
  '(h, il) ← r; Some (h, CountedList il (wrapu 64 (c + d))).

Definition InsertAsPrevMost (h : heap) (l : CCountedInvasiveList) (pobj : Z) : option (heap * CCountedInvasiveList) :=
  lift 1 (m_c l) (InvasiveList.InsertAsPrevMost OffsetOfILE h (base l) pobj).

Definition InsertAsNextMost (h : heap) (l : CCountedInvasiveList) (pobj : Z) : option (heap * CCountedInvasiveList) :=
  lift 1 (m_c l) (InvasiveList.InsertAsNextMost OffsetOfILE h (base l) pobj).

Definition Insert (h : heap) (l : CCountedInvasiveList) (pobj pobjNext : Z) : option (heap * CCountedInvasiveList) :=
  lift 1 (m_c l) (InvasiveList.Insert OffsetOfILE h (base l) pobj pobjNext).

Definition Remove (h : heap) (l : CCountedInvasiveList) (pobj : Z) : option (heap * CCountedInvasiveList) :=
  lift (-1) (m_c l) (InvasiveList.Remove OffsetOfILE h (base l) pobj).

Definition Empty (l : CCountedInvasiveList) : CCountedInvasiveList :=
  CountedList (InvasiveList.Empty OffsetOfILE) 0.

Definition Count (l : CCountedInvasiveList) : Z := m_c l.
End Operations.
End Counted.
