(* ===== verification/InvasiveListSystem.v ===== *)
(** * InvasiveListSystem: several lists over one set of objects

    Objects are linked into any of several counted lists of one memory, as a
    client does that keeps the documented discipline (an object is inserted when
    it is in no list and removed from the list it is in).  The lists behave as
    independent sequences of objects. *)

From stdpp Require Import gmap.
From S2P Require Import Prelude InvasiveList InvasiveListProofs.

Inductive lop :=
  | InsPrevMost (i : nat) (p : Z)
  | InsNextMost (i : nat) (p : Z)
  | InsBefore (i : nat) (p q : Z)
  | Rem (i : nat) (p : Z).

(** ** Sequences *)

Fixpoint insert_before (p q : Z) (l : list Z) : list Z :=
  match l with
  | [] => [p]
  | x :: l => if decide (x = q) then p :: x :: l else x :: insert_before p q l
  end.

Lemma insert_before_split (p q : Z) (l : list Z) :
  q ∈ l -> exists l1 l2, l = l1 ++ q :: l2 /\ insert_before p q l = l1 ++ p :: q :: l2.
Proof.
  induction l as [|x l IH]; [by intros ?%elem_of_nil|]. intros Hq. simpl.
  destruct (decide (x = q)) as [->|Hne]; [by exists [], l|].
  destruct IH as (l1 & l2 & -> & ->); [set_solver|]. by exists (x :: l1), l2.
Qed.

Definition removed (p : Z) (l : list Z) : list Z := filter (fun x => x <> p) l.

Lemma removed_absent (p : Z) (l : list Z) : p ∉ l -> removed p l = l.
Proof.
  unfold removed. induction l as [|x l IH]; [done|]. intros [? ?]%not_elem_of_cons.
  rewrite filter_cons, decide_True by done. by rewrite IH.
Qed.

Lemma removed_split (p : Z) (l : list Z) :
  NoDup l -> p ∈ l -> exists l1 l2, l = l1 ++ p :: l2 /\ removed p l = l1 ++ l2.
Proof.
  intros Hd (l1 & l2 & ->)%list_elem_of_split. exists l1, l2. split; [done|].
  apply list.NoDup_app in Hd as (_ & H12 & H2). apply list.NoDup_cons in H2 as [H2 _].
  unfold removed. rewrite list.filter_app, filter_cons, decide_False by auto.
  f_equal; apply removed_absent; [|done]. intros Hp. apply (H12 _ Hp). set_solver.
Qed.

Definition spec_op (ls : list (list Z)) (x : lop) : option (list (list Z)) :=
  match x with
  | InsPrevMost i p => l ← ls !! i; Some (<[i := p :: l]> ls)
  | InsNextMost i p => l ← ls !! i; Some (<[i := l ++ [p]]> ls)
  | InsBefore i p q =>
      l ← ls !! i; Some (<[i := if decide (q = 0) then l ++ [p] else insert_before p q l]> ls)
  | Rem i p => l ← ls !! i; Some (<[i := removed p l]> ls)
  end.

Section System.
Context (ofs : Z).
Context (ofs_ok : 0 <= ofs < pileNone).

Local Abbreviation pile := (_PileFromPobj ofs).

(** The addresses an object can have. *)
Definition obj_ok (p : Z) : Prop := in_u 64 p /\ p <> 0 /\ pile p <> pileNone.

Lemma pobj_pile (p : Z) : in_u 64 p -> _PobjFromPile ofs (pile p) = p.
Proof.
  intros Hp. unfold _PobjFromPile, _PileFromPobj, wrapu. rewrite Zminus_mod_idemp_l.
  replace (p + ofs - ofs) with p by lia. by apply Z.mod_small.
Qed.

Lemma pile_inj (p q : Z) : in_u 64 p -> in_u 64 q -> pile p = pile q -> p = q.
Proof. intros Hp Hq E. rewrite <- (pobj_pile p Hp), <- (pobj_pile q Hq). by rewrite E. Qed.

Lemma obj_valid (p : Z) : obj_ok p -> valid ofs (pile p).
Proof.
  intros (Hp & H0 & Hn). split; [|done]. intros E. apply H0, (pile_inj p 0); [done|split; lia|done].
Qed.

Lemma obj_ok_range (p : Z) : 0 < p -> p + ofs < pileNone -> obj_ok p.
Proof.
  unfold obj_ok, _PileFromPobj, wrapu, in_u. intros H1 H2. unfold pileNone in *.
  rewrite Z.mod_small by lia. lia.
Qed.

(** ** The system *)

Record system := System { mem : heap; lists : list Counted.CCountedInvasiveList }.

Definition on_list (s : system) (i : nat)
    (f : heap -> Counted.CCountedInvasiveList -> option (heap * Counted.CCountedInvasiveList)) : option system :=
  l ← lists s !! i;
  '(h, l) ← f (mem s) l;
  Some (System h (<[i := l]> (lists s))).

Definition exec_op (s : system) (x : lop) : option system :=
  match x with
  | InsPrevMost i p => on_list s i (fun h l => Counted.InsertAsPrevMost ofs h l p)
  | InsNextMost i p => on_list s i (fun h l => Counted.InsertAsNextMost ofs h l p)
  | InsBefore i p q => on_list s i (fun h l => Counted.Insert ofs h l p q)
  | Rem i p => on_list s i (fun h l => Counted.Remove ofs h l p)
  end.

Fixpoint exec_ops (s : system) (xs : list lop) : option system :=
  match xs with [] => Some s | x :: xs => s ← exec_op s x; exec_ops s xs end.

(** [n] empty lists, and the objects [objs] in none of them. *)
Definition start (n : nat) (objs : list Z) : system :=
  System (list_to_map ((fun p => (pile p, CElement_ctor)) <$> objs)) (replicate n (Counted.ctor ofs)).

(** The objects of [objs] that are in no list of [ls]. *)
Definition free_in (ls : list (list Z)) (p : Z) : Prop := forall l, l ∈ ls -> p ∉ l.

(** The discipline of the client. *)
Definition legal (objs : list Z) (ls : list (list Z)) (x : lop) : Prop :=
  match x with
  | InsPrevMost i p | InsNextMost i p => (i < length ls)%nat /\ p ∈ objs /\ free_in ls p
  | InsBefore i p q =>
      p ∈ objs /\ free_in ls p /\ exists l, ls !! i = Some l /\ (q = 0 \/ q ∈ l)
  | Rem i p => exists l, ls !! i = Some l /\ p ∈ l
  end.

Inductive legal_run (objs : list Z) : list (list Z) -> list lop -> list (list Z) -> Prop :=
  | legal_nil ls : legal_run objs ls [] ls
  | legal_cons ls x ls1 xs ls' :
      legal objs ls x -> spec_op ls x = Some ls1 -> legal_run objs ls1 xs ls' ->
      legal_run objs ls (x :: xs) ls'.

(** ** The invariant *)

Definition one_ok (h : heap) (c : Counted.CCountedInvasiveList) (l : list Z) : Prop :=
  list_ok ofs h (Counted.base c) (pile <$> l) /\ Counted.m_c c = wrapu 64 (Z.of_nat (length l)).

Record sys_ok (objs : list Z) (s : system) (ls : list (list Z)) : Prop := SysOk {
  sys_objs : Forall obj_ok objs;
  sys_lists : Forall2 (one_ok (mem s)) (lists s) ls;
  sys_sub : forall l p, l ∈ ls -> p ∈ l -> p ∈ objs;
  sys_disj : forall i j li lj p, ls !! i = Some li -> ls !! j = Some lj -> p ∈ li -> p ∈ lj -> i = j;
  sys_free : forall p, p ∈ objs -> free_in ls p -> mem s !! pile p = Some CElement_ctor
}.

Lemma obj_in_u (objs : list Z) (p : Z) : Forall obj_ok objs -> p ∈ objs -> in_u 64 p.
Proof. intros H Hp. by apply (proj1 (list.Forall_forall _ _) H p Hp). Qed.

Lemma pile_elem (objs l : list Z) (p : Z) :
  Forall obj_ok objs -> (forall q, q ∈ l -> q ∈ objs) -> p ∈ objs -> pile p ∈ pile <$> l -> p ∈ l.
Proof.
  intros Ho Hl Hp (q & E & Hq)%list_elem_of_fmap_1.
  apply (pile_inj p q) in E as ->; [done|apply (obj_in_u objs); auto..].
Qed.

(** A list keeps its links when the memory changes at other elements only. *)
Lemma one_ok_frame (h h' : heap) (c : Counted.CCountedInvasiveList) (l : list Z) :
  one_ok h c l -> (forall p, p ∈ l -> h' !! pile p = h !! pile p) -> one_ok h' c l.
Proof.
  intros [[Hpm Hnm Hs Hd Hv] Hc] H. split; [|done]. split; try done. apply (seg_agree h); [|done].
  intros y (p & -> & Hp)%list_elem_of_fmap_1. by apply H.
Qed.

(** Replacing list [i] keeps the invariant, when the new memory differs from the
    old one at the old and the new elements of that list only. *)
Lemma sys_update (objs : list Z) (s : system) (ls : list (list Z)) (i : nat) (l l' : list Z)
    (c' : Counted.CCountedInvasiveList) (h' : heap) :
  sys_ok objs s ls -> ls !! i = Some l -> one_ok h' c' l' ->
  (forall p, p ∈ l' -> p ∈ objs /\ (p ∈ l \/ free_in ls p)) ->
  (forall p, p ∈ objs -> p ∉ l -> p ∉ l' -> h' !! pile p = mem s !! pile p) ->
  (forall p, p ∈ l -> p ∉ l' -> h' !! pile p = Some CElement_ctor) ->
  sys_ok objs (System h' (<[i := c']> (lists s))) (<[i := l']> ls).
Proof.
  intros [Ho Hl Hsub Hdis Hfree] Hi Hc Hin Hkeep Hout.
  assert (i < length ls)%nat as Hlen by by eapply lookup_lt_Some.
  assert (forall j lj, ls !! j = Some lj -> lj ∈ ls) as Hel by (intros; by eapply list_elem_of_lookup_2).
  assert (forall j lj p, j <> i -> ls !! j = Some lj -> p ∈ lj -> p ∉ l') as Hother.
  { intros j lj p Hj Ej Hp Hp'. destruct (Hin p Hp') as [_ [Hp2|Hf]].
    - apply Hj. by eapply Hdis.
    - by apply (Hf lj (Hel j lj Ej)). }
  split; simpl; [done| | | |].
  - apply Forall2_same_length_lookup. split; [rewrite !length_insert; by eapply Forall2_length|].
    intros j cj lj Ej1 Ej2. destruct (decide (j = i)) as [->|Hj].
    + assert (i < length (lists s))%nat by (apply Forall2_length in Hl; lia).
      rewrite list_lookup_insert_eq in Ej1 by done. rewrite list_lookup_insert_eq in Ej2 by done. injection Ej1 as <-. by injection Ej2 as <-.
    + rewrite list_lookup_insert_ne in Ej1 by done. rewrite list_lookup_insert_ne in Ej2 by done.
      apply (one_ok_frame (mem s)); [by eapply Forall2_lookup_lr|]. intros p Hp. apply Hkeep.
      * by eapply Hsub; [eapply Hel|].
      * intros Hp'. apply Hj. by eapply Hdis.
      * by eapply Hother.
  - intros lj p Hj Hp. apply list_elem_of_lookup_1 in Hj as [j Hj].
    destruct (decide (j = i)) as [->|Hji].
    + rewrite list_lookup_insert_eq in Hj by done. injection Hj as <-. by apply Hin.
    + rewrite list_lookup_insert_ne in Hj by done. by eapply Hsub; [eapply Hel|].
  - intros a b la lb p Ea Eb Ha Hb.
    destruct (decide (a = i)) as [->|Hai], (decide (b = i)) as [->|Hbi]; [done| | |].
    + rewrite list_lookup_insert_eq in Ea by done. injection Ea as <-.
      rewrite list_lookup_insert_ne in Eb by done. by destruct (Hother b lb p Hbi Eb Hb).
    + rewrite list_lookup_insert_eq in Eb by done. injection Eb as <-.
      rewrite list_lookup_insert_ne in Ea by done. by destruct (Hother a la p Hai Ea Ha).
    + rewrite list_lookup_insert_ne in Ea, Eb by done. by eapply Hdis.
  - intros p Hp Hf. assert (p ∉ l') as Hp'.
    { apply Hf. eapply list_elem_of_lookup_2. by apply list_lookup_insert_eq. }
    destruct (decide (p ∈ l)) as [Hpl|Hpl]; [by apply Hout|].
    rewrite Hkeep by done. apply Hfree; [done|]. intros lj Hj Hpj.
    apply list_elem_of_lookup_1 in Hj as [j Hj].
    destruct (decide (j = i)) as [->|Hji]; [congruence|].
    apply (Hf lj); [|done]. eapply list_elem_of_lookup_2. by rewrite list_lookup_insert_ne.
Qed.

(** ** Steps *)

Definition step_ok (objs : list Z) (s : system) (i : nat) (l' : list Z) (ls : list (list Z))
    (r : option system) : Prop :=
  exists s', r = Some s' /\ sys_ok objs s' (<[i := l']> ls).

Lemma insert_step (objs : list Z) (s : system) (ls : list (list Z)) (i : nat) (l l' : list Z) (p : Z)
    (c : Counted.CCountedInvasiveList) (f : heap -> CInvasiveList -> option (heap * CInvasiveList)) :
  sys_ok objs s ls -> ls !! i = Some l -> lists s !! i = Some c -> p ∈ objs -> free_in ls p ->
  l' ≡ₚ p :: l -> inserted_as ofs (mem s) (f (mem s) (Counted.base c)) (pile <$> l') ->
  step_ok objs s i l' ls
    (on_list s i (fun h c => Counted.lift 1 (Counted.m_c c) (f h (Counted.base c)))).
Proof.
  intros Hok Hi Hci Hp Hf HP (h' & il' & E & Hl & Hfr). unfold on_list, Counted.lift. rewrite Hci.
  cbn [mbind option_bind]. rewrite E. cbn [mbind option_bind]. eexists. split; [done|].
  assert (l ∈ ls) as Hls by by eapply list_elem_of_lookup_2.
  assert (forall q, q ∈ l' -> q ∈ objs /\ (q ∈ l \/ free_in ls q)) as Hin.
  { intros q Hq. rewrite HP in Hq. apply list.elem_of_cons in Hq as [-> |Hq]; [auto|].
    split; [by eapply (sys_sub _ _ _ Hok)|auto]. }
  apply (sys_update objs s ls i l); try done.
  - split; [done|]. simpl. assert (one_ok (mem s) c l) as [_ ->].
    { by eapply Forall2_lookup_lr; [apply (sys_lists _ _ _ Hok)|..]. }
    rewrite HP. simpl. unfold wrapu. rewrite Zplus_mod_idemp_l. f_equal. lia.
  - intros q Hq _ Hq'. apply Hfr. intros Hx. apply Hq'. apply (pile_elem objs); try done.
    + apply Hok.
    + intros; by apply Hin.
  - intros q Hq Hq'. destruct Hq'. rewrite HP. set_solver.
Qed.

Lemma remove_step (objs : list Z) (s : system) (ls : list (list Z)) (i : nat) (l1 l2 : list Z) (p : Z)
    (c : Counted.CCountedInvasiveList) :
  sys_ok objs s ls -> ls !! i = Some (l1 ++ p :: l2) -> lists s !! i = Some c ->
  step_ok objs s i (l1 ++ l2) ls (on_list s i (fun h c => Counted.Remove ofs h c p)).
Proof.
  intros Hok Hi Hci. assert (one_ok (mem s) c (l1 ++ p :: l2)) as [Hl Hc].
  { by eapply Forall2_lookup_lr; [apply (sys_lists _ _ _ Hok)|..]. }
  rewrite fmap_app, fmap_cons in Hl. assert (Hd := ok_nodup _ _ _ _ Hl).
  apply Remove_ok in Hl as (h' & il' & E & Hl' & Hx & Hfr); [|done].
  unfold on_list, Counted.Remove, Counted.lift. rewrite Hci. cbn [mbind option_bind].
  rewrite E. cbn [mbind option_bind]. eexists. split; [done|].
  assert (l1 ++ p :: l2 ∈ ls) as Hls by by eapply list_elem_of_lookup_2.
  apply (sys_update objs s ls i (l1 ++ p :: l2)); try done.
  - split; [by rewrite fmap_app|]. simpl. rewrite Hc, !length_app. simpl. unfold wrapu.
    rewrite Zplus_mod_idemp_l. f_equal. lia.
  - intros q Hq. assert (q ∈ l1 ++ p :: l2) as Hq' by set_solver.
    split; [by eapply (sys_sub _ _ _ Hok)|auto].
  - intros q Hq Hq' _. apply Hfr. rewrite <- fmap_cons, <- fmap_app. intros Hy. apply Hq'.
    apply (pile_elem objs); try done; [apply Hok|]. intros q' ?. by eapply (sys_sub _ _ _ Hok).
  - intros q Hq Hq'. assert (q = p) as -> by set_solver. done.
Qed.

Lemma exec_op_ok (objs : list Z) (s : system) (ls : list (list Z)) (x : lop) :
  sys_ok objs s ls -> legal objs ls x ->
  exists s' ls', exec_op s x = Some s' /\ spec_op ls x = Some ls' /\ sys_ok objs s' ls'.
Proof.
  intros Hok Hx.
  assert (forall i l, ls !! i = Some l -> exists c, lists s !! i = Some c /\ one_ok (mem s) c l) as Hlist.
  { intros i l Hi. destruct (Forall2_lookup_r _ _ _ i l (sys_lists _ _ _ Hok) Hi) as (c & ? & ?). eauto. }
  assert (forall p, p ∈ objs -> free_in ls p ->
    mem s !! pile p = Some CElement_ctor /\ valid ofs (pile p)) as Hfree.
  { intros p Hp Hf. split; [by apply (sys_free _ _ _ Hok)|]. apply obj_valid.
    by apply (proj1 (list.Forall_forall _ _) (sys_objs _ _ _ Hok)). }
  destruct x as [i p|i p|i p q|i p]; cbn [exec_op spec_op legal] in *.
  - destruct Hx as (Hi & Hp & Hf). apply lookup_lt_is_Some_2 in Hi as [l Hi]. rewrite Hi. simpl.
    destruct (Hlist i l Hi) as (c & Hci & Hl & _), (Hfree p Hp Hf) as [Ex Hv].
    destruct (insert_step objs s ls i l (p :: l) p c (fun h il => InsertAsPrevMost ofs h il p))
      as (s' & E & Hs'); try done; [by apply InsertAsPrevMost_ok|]. by eexists _, _.
  - destruct Hx as (Hi & Hp & Hf). apply lookup_lt_is_Some_2 in Hi as [l Hi]. rewrite Hi. simpl.
    destruct (Hlist i l Hi) as (c & Hci & Hl & _), (Hfree p Hp Hf) as [Ex Hv].
    destruct (insert_step objs s ls i l (l ++ [p]) p c (fun h il => InsertAsNextMost ofs h il p))
      as (s' & E & Hs'); try done; [by rewrite Permutation_app_comm | |by eexists _, _].
    rewrite fmap_app. by apply InsertAsNextMost_ok.
  - destruct Hx as (Hp & Hf & l & Hi & Hq). rewrite Hi. simpl.
    destruct (Hlist i l Hi) as (c & Hci & Hl & _), (Hfree p Hp Hf) as [Ex Hv].
    set (l' := if decide (q = 0) then _ else _).
    destruct (insert_step objs s ls i l l' p c (fun h il => Insert ofs h il p q))
      as (s' & E & Hs'); try done; [| |by eexists _, _]; unfold l';
      destruct (decide (q = 0)) as [->|Hq0].
    + by rewrite Permutation_app_comm.
    + destruct Hq as [?|Hq]; [done|]. destruct (insert_before_split p q l Hq) as (l1 & l2 & -> & ->).
      by rewrite Permutation_middle.
    + unfold Insert. rewrite Z.eqb_refl. rewrite fmap_app. by apply InsertAsNextMost_ok.
    + destruct Hq as [?|Hq]; [done|]. destruct (insert_before_split p q l Hq) as (l1 & l2 & -> & ->).
      rewrite fmap_app, !fmap_cons in *. by apply Insert_ok.
  - destruct Hx as (l & Hi & Hp). rewrite Hi. simpl. destruct (Hlist i l Hi) as (c & Hci & Hl & _).
    assert (NoDup l) as Hd by (eapply NoDup_fmap_1, ok_nodup; exact Hl).
    destruct (removed_split p l Hd Hp) as (l1 & l2 & -> & ->).
    destruct (remove_step objs s ls i l1 l2 p c Hok Hi Hci) as (s' & E & Hs'). by eexists _, _.
Qed.

Lemma start_ok (n : nat) (objs : list Z) :
  Forall obj_ok objs -> sys_ok objs (start n objs) (replicate n []).
Proof.
  intros Ho. split; simpl; [done| | | |].
  - apply Forall2_replicate. split; [apply Empty_ok|done].
  - intros l p Hl Hp. apply elem_of_replicate in Hl as [-> _]. set_solver.
  - intros i j li lj p Ei _ Hp _. apply lookup_replicate in Ei as [-> _]. set_solver.
  - intros p Hp _. clear Ho. induction objs as [|q objs IH]; [set_solver|]. simpl.
    destruct (decide (pile p = pile q)) as [->|Hne]; [apply lookup_insert_eq|].
    rewrite lookup_insert_ne by done. apply IH. set_solver.
Qed.

Lemma exec_ops_ok (objs : list Z) (ls ls' : list (list Z)) (xs : list lop) :
  legal_run objs ls xs ls' -> forall s, sys_ok objs s ls ->
  exists s', exec_ops s xs = Some s' /\ sys_ok objs s' ls'.
Proof.
  induction 1 as [ls|ls x ls1 xs ls' Hx E _ IH]; intros s Hs; [by exists s|].
  destruct (exec_op_ok objs s ls x Hs Hx) as (s1 & ls2 & E1 & E2 & Hs1). rewrite E in E2.
  injection E2 as <-. simpl. rewrite E1. simpl. by apply IH.
Qed.

(** ** Reading a list *)

(** What the operations of list [c] report of the sequence [l]. *)
Record reads (h : heap) (c : Counted.CCountedInvasiveList) (l : list Z) : Prop := Reads {
  reads_empty : FEmpty ofs (Counted.base c) = bool_decide (l = []);
  reads_count : Counted.Count c = wrapu 64 (Z.of_nat (length l));
  reads_first : PrevMost ofs (Counted.base c) = hd 0 l;
  reads_last : NextMost ofs (Counted.base c) = lst 0 l;
  reads_next : forall l1 p l2, l = l1 ++ p :: l2 -> Next ofs h p = Some (hd 0 l2);
  reads_prev : forall l1 p l2, l = l1 ++ p :: l2 -> Prev ofs h p = Some (lst 0 l1);
  reads_member : forall p, p ∈ l -> FMember ofs h p = Some true
}.

Lemma pobj_hd (l : list Z) :
  Forall (in_u 64) l -> _PobjFromPile ofs (hd (pile 0) (pile <$> l)) = hd 0 l.
Proof.
  intros Hl. destruct l as [|x l]; unfold hd; simpl; apply pobj_pile; [split; lia|].
  by apply list.Forall_cons in Hl as [? _].
Qed.

Lemma pobj_lst (l : list Z) :
  Forall (in_u 64) l -> _PobjFromPile ofs (lst (pile 0) (pile <$> l)) = lst 0 l.
Proof.
  intros Hl. unfold lst. rewrite fmap_last. destruct (list.last l) as [x|] eqn:E; simpl; apply pobj_pile;
    [|split; lia]. apply last_Some in E as [l' ->]. apply Forall_app in Hl as [_ Hl].
  by apply list.Forall_cons in Hl as [? _].
Qed.

Lemma one_ok_reads (h : heap) (c : Counted.CCountedInvasiveList) (l : list Z) :
  one_ok h c l -> Forall obj_ok l -> reads h c l.
Proof.
  intros [Hl Hc] Ho. assert (Forall (in_u 64) l) as Hu by (eapply list.Forall_impl; [exact Ho|]; by intros ? []).
  assert (Hs := ok_seg _ _ _ _ Hl). split.
  - unfold FEmpty. rewrite (ok_prevmost _ _ _ _ Hl). destruct l as [|x l]; unfold hd; simpl.
    + by rewrite Z.eqb_refl.
    + apply Z.eqb_neq. apply obj_valid. by apply list.Forall_cons in Ho as [? _].
  - done.
  - unfold PrevMost. rewrite (ok_prevmost _ _ _ _ Hl). by apply pobj_hd.
  - unfold NextMost. rewrite (ok_nextmost _ _ _ _ Hl). by apply pobj_lst.
  - intros l1 p l2 ->. rewrite fmap_app, fmap_cons in Hs. apply seg_lookup in Hs.
    unfold Next. rewrite Hs. simpl. f_equal. apply pobj_hd.
    rewrite Forall_app, list.Forall_cons in Hu. tauto.
  - intros l1 p l2 ->. rewrite fmap_app, fmap_cons in Hs. apply seg_lookup in Hs.
    unfold Prev. rewrite Hs. simpl. f_equal. apply pobj_lst. rewrite Forall_app in Hu. tauto.
  - intros p Hp. apply (FMember_member ofs ofs_ok h (Counted.base c) (pile <$> l) p Hl).
    by apply list_elem_of_fmap_2.
Qed.

(** C12: objects linked into several lists of one memory.  Under any sequence of
    insertions (at either end or before a member) and removals that respects the
    discipline, an object being inserted only when it is in no list and removed
    from the list it is in, no call follows a dangling or uninitialised link or
    fails an assertion, and the lists act as independent sequences: after the
    calls each list reports, through FEmpty, Count, PrevMost, NextMost, Next,
    Prev and FMember, exactly the sequence that the same calls give
    on plain sequences, and FMember is false of every object left in no list. *)
Theorem lists_are_sequences (n : nat) (objs : list Z) (xs : list lop) (ls : list (list Z)) :
  Forall obj_ok objs -> legal_run objs (replicate n []) xs ls ->
  exists s, exec_ops (start n objs) xs = Some s /\ length (lists s) = length ls /\
    (forall i c l, lists s !! i = Some c -> ls !! i = Some l -> reads (mem s) c l) /\
    (forall p, p ∈ objs -> free_in ls p -> FMember ofs (mem s) p = Some false).
Proof.
  intros Ho Hrun. destruct (exec_ops_ok objs _ _ _ Hrun _ (start_ok n objs Ho)) as (s & E & Hs).
  exists s. split_and!; [done|by eapply Forall2_length, (sys_lists _ _ _ Hs)| |].
  - intros i c l Hc Hl. apply one_ok_reads.
    + by eapply Forall2_lookup_lr; [apply (sys_lists _ _ _ Hs)|..].
    + apply list.Forall_forall. intros p Hp. apply (proj1 (list.Forall_forall _ _) Ho).
      eapply (sys_sub _ _ _ Hs); [|exact Hp]. by eapply list_elem_of_lookup_2.
  - intros p Hp Hf. unfold FMember. by rewrite (sys_free _ _ _ Hs p Hp Hf).
Qed.
End System.

Lemma free_in_dec (ls : list (list Z)) (p : Z) :
  bool_decide (Forall (fun l => p ∉ l) ls) = true -> free_in ls p.
Proof.
  intros H%bool_decide_eq_true l Hl. by apply (proj1 (list.Forall_forall _ _) H).
Qed.

(** Three objects whose element is at offset 8, moved between two lists. *)
Lemma lists_are_sequences_witness :
  let xs := [InsNextMost 0 4096; InsPrevMost 0 8192; InsBefore 0 12288 4096; Rem 0 8192; InsNextMost 1 8192] in
  let ls := [[12288; 4096]; [8192]] in
  (0 <= 8 < pileNone) /\ Forall (obj_ok 8) [4096; 8192; 12288] /\
  legal_run [4096; 8192; 12288] (replicate 2 []) xs ls /\
  exists s, exec_ops 8 (start 8 2 [4096; 8192; 12288]) xs = Some s /\ length (lists s) = length ls /\
    (forall i c l, lists s !! i = Some c -> ls !! i = Some l -> reads 8 (mem s) c l) /\
    (forall p, p ∈ [4096; 8192; 12288] -> free_in ls p -> FMember 8 (mem s) p = Some false).
Proof.
  assert (0 <= 8 < pileNone) as Hofs by (unfold pileNone; lia).
  assert (Forall (obj_ok 8) [4096; 8192; 12288]) as Ho.
  { repeat apply Forall_cons_2; try apply Forall_nil_2; apply (obj_ok_range 8 Hofs); unfold pileNone; lia. }
  assert (legal_run [4096; 8192; 12288] (replicate 2 [])
    [InsNextMost 0 4096; InsPrevMost 0 8192; InsBefore 0 12288 4096; Rem 0 8192; InsNextMost 1 8192]
    [[12288; 4096]; [8192]]) as Hrun.
  { eapply legal_cons; [|reflexivity|eapply legal_cons; [|reflexivity|eapply legal_cons; [|reflexivity|
      eapply legal_cons; [|reflexivity|eapply legal_cons; [|reflexivity|apply legal_nil]]]]];
      cbn [legal];
      repeat match goal with
      | |- _ /\ _ => split
      | |- free_in _ _ => apply free_in_dec; vm_compute; reflexivity
      | |- _ ∈ _ => cbn; solve [repeat first [apply list_elem_of_here | apply list_elem_of_further]]
      | |- (_ < _)%nat => simpl; lia
      | |- exists _, _ => eexists; split; [reflexivity|]
      | |- _ \/ _ => right
      end. }
  intros xs ls. split; [exact Hofs|]. split; [exact Ho|]. split; [exact Hrun|].
  exact (lists_are_sequences 8 Hofs 2 [4096; 8192; 12288] xs ls Ho Hrun).
Defined.
