(* ===== verification/SimpleQueue.v ===== *)
(** * SimpleQueue: the lock-less list and the queue built on it

    [CLocklessLinkedList] and [CSimpleQueue] of collection.hxx with
    [AtomicAddLinklistNode] and [PvAtomicRetrieveLinklist] of sync.hxx.  An object
    holds the address of the next object at the offset [cbOffsetOfNext].  The
    memory is a finite map from the address of such a link to its value, shared by
    all lists and queues; 0 is the null pointer.  Following the link of an address
    that is no object, and a [COLLAssert] that does not hold, is [None].  The checks
    that a pointer is aligned for atomic access are left out.

    The operations are those of a thread that runs alone; the interleavings of
    several threads on one list are in [LocklessList]. *)

From stdpp Require Import gmap.
From S2P Require Import Prelude.

Abbreviation links := (gmap Z Z).

(** The links that [CObject** ] values point to. *)
Definition rd_link (h : links) (pp : Z) : option Z := h !! pp.

Definition wr_link (h : links) (pp v : Z) : option links :=
  _ ← h !! pp; Some (<[pp := v]> h).

(** [AtomicCompareExchangePointer( ppvHead, pvHead, pvNode )]: the old value of
    the head and its value afterwards. *)
Definition cmpxchg (head pvHead pvNode : Z) : Z * Z :=
  (head, if head =? pvHead then pvNode else head).

(** The loop of [AtomicAddLinklistNode]: no other thread changes the head between
    the read and the compare-exchange, so that one round is enough. *)
Fixpoint add_loop (fuel : nat) (pvNode ppvNext : Z) (h : links) (head : Z) : option (links * Z) :=
  match fuel with
  | O => None
  | S fuel =>
      let pvHead := head in
      h ← wr_link h ppvNext pvHead;
      let '(pvResult, head) := cmpxchg head pvHead pvNode in
      if pvResult =? pvHead then Some (h, head) else add_loop fuel pvNode ppvNext h head
  end.

Definition AtomicAddLinklistNode (pvNode ppvNext : Z) (h : links) (head : Z) : option (links * Z) :=
  add_loop 1 pvNode ppvNext h head.

(** [AtomicExchangePointer( ppvHead, NULL )]: the result and the new head. *)
Definition PvAtomicRetrieveLinklist (head : Z) : Z * Z := (head, 0).

(** The size of an object and the offset of its link, which every call passes. *)
Class Layout := { sizeof_CObject : Z; cbOffsetOfNext : Z }.

Section Links.
Context `{L : Layout}.

Definition link (pobj : Z) : Z := wrapu 64 (pobj + cbOffsetOfNext).

Definition Ppnext_ (h : links) (pobj : Z) : option Z :=
  _ ← COLLAssert (cbOffsetOfNext + 8 <=? sizeof_CObject);
  n ← rd_link h (link pobj);
  _ ← COLLAssert (negb (pobj =? n));
  Some (link pobj).

(** [*Ppnext_( pobj, cbOffsetOfNext )] *)
Definition next_of (h : links) (pobj : Z) : option Z := pp ← Ppnext_ h pobj; rd_link h pp.

End Links.

(** ** CLocklessLinkedList: its state is [m_pHead] *)

Module Lockless.
Section Operations.
Context `{L : Layout}.

Definition ctor : Z := 0.

Definition ctor_head (phead : Z) : Z := phead.

(** What [AtomicInsertAsPrevMost] does before its loop: the assertions, and the
    address of the object's link. *)
Definition insert_link (h : links) (pobj : Z) : option Z :=
  _ ← COLLAssert (negb (pobj =? 0));
  _ ← COLLAssert (cbOffsetOfNext + 8 <=? sizeof_CObject);
  n ← next_of h pobj;
  _ ← COLLAssert (0 =? n);
  Ppnext_ h pobj.

Definition AtomicInsertAsPrevMost (h : links) (m_pHead pobj : Z) : option (links * Z) :=
  pp ← insert_link h pobj; AtomicAddLinklistNode pobj pp h m_pHead.

Definition AtomicRemoveList (m_pHead : Z) : Z * Z := PvAtomicRetrieveLinklist m_pHead.

Definition RemovePrevMost (h : links) (m_pHead : Z) : option (Z * links * Z) :=
  _ ← COLLAssert (cbOffsetOfNext + 8 <=? sizeof_CObject);
  let pobj := m_pHead in
  if negb (pobj =? 0) then
    m_pHead ← next_of h pobj;
    pp ← Ppnext_ h pobj;
    h ← wr_link h pp 0;
    Some (pobj, h, m_pHead)
  else Some (pobj, h, m_pHead).

Definition FEmpty (m_pHead : Z) : bool := 0 =? m_pHead.

Definition Head (m_pHead : Z) : Z := m_pHead.

End Operations.
End Lockless.

(** ** CSimpleQueue *)

Section Operations.
Context `{L : Layout}.

Record CSimpleQueue := Queue { m_Head : Z; m_pTail : Z; m_cObject : Z }.

Definition FValid (q : CSimpleQueue) : bool :=
  ((Lockless.FEmpty (m_Head q) && (0 =? m_pTail q) && (0 =? m_cObject q)) ||
   (negb (Lockless.FEmpty (m_Head q)) && negb (m_pTail q =? 0) && negb (m_cObject q =? 0))) &&
  (negb (1 =? m_cObject q) || (Lockless.Head (m_Head q) =? m_pTail q)) &&
  (negb (2 =? m_cObject q) || negb (Lockless.Head (m_Head q) =? m_pTail q)).

Definition FEmpty (q : CSimpleQueue) : option bool :=
  _ ← COLLAssert (FValid q);
  _ ← COLLAssert ((Lockless.FEmpty (m_Head q) && (0 =? m_pTail q) && (0 =? m_cObject q)) ||
                  (negb (Lockless.FEmpty (m_Head q)) && negb (m_pTail q =? 0) && negb (m_cObject q =? 0)));
  Some (Lockless.FEmpty (m_Head q)).

Definition CElements (q : CSimpleQueue) : option Z := _ ← COLLAssert (FValid q); Some (m_cObject q).

Definition Head (q : CSimpleQueue) : option Z := _ ← COLLAssert (FValid q); Some (Lockless.Head (m_Head q)).

Definition Tail (q : CSimpleQueue) : option Z := _ ← COLLAssert (FValid q); Some (m_pTail q).

(** [COLLAssert( FEmpty() )] and [COLLAssert( !FEmpty() )] *)
Definition assert_empty (b : bool) (q : CSimpleQueue) : option unit :=
  e ← FEmpty q; COLLAssert (Bool.eqb e b).

Definition CSimpleQueue_ctor : option CSimpleQueue :=
  _ ← COLLAssert (Lockless.FEmpty Lockless.ctor); Some (Queue Lockless.ctor 0 0).

(** The loop of the constructor from a list, [pobj2] being its next object. *)
Fixpoint count_loop (fuel : nat) (h : links) (pobj2 : Z) (q : CSimpleQueue) : option CSimpleQueue :=
  match fuel with
  | O => None
  | S fuel =>
      if pobj2 =? 0 then Some q
      else
        n ← next_of h pobj2;
        _ ← COLLAssert (negb (pobj2 =? n));
        n ← next_of h pobj2;
        let q := Queue (m_Head q) (if 0 =? n then pobj2 else m_pTail q) (u32 (m_cObject q + 1)) in
        n ← next_of h pobj2;
        count_loop fuel h n q
  end.

Definition CSimpleQueue_ctor_list (h : links) (pobj : Z) : option CSimpleQueue :=
  let q := Queue (Lockless.ctor_head pobj) 0 0 in
  _ ← COLLAssert (negb (pobj =? 0));
  _ ← COLLAssert (negb (Lockless.FEmpty (m_Head q)));
  q ← (if negb (Lockless.FEmpty (m_Head q)) then
         _ ← COLLAssert (negb (Lockless.Head (m_Head q) =? 0));
         _ ← COLLAssert (0 =? m_cObject q);
         q ← count_loop (S (size h)) h (Lockless.Head (m_Head q)) (Queue (m_Head q) (m_pTail q) 0);
         c ← CElements q;
         _ ← COLLAssert (negb (c =? 0));
         Some q
       else
         _ ← COLLAssert (Lockless.Head (m_Head q) =? 0);
         c ← CElements q;
         _ ← COLLAssert (0 =? c);
         Some q);
  _ ← COLLAssert (FValid q);
  _ ← assert_empty (negb (negb (pobj =? 0))) q;
  Some q.

Definition InsertAsPrevMost (h : links) (q : CSimpleQueue) (pobj : Z) : option (links * CSimpleQueue) :=
  _ ← COLLAssert (FValid q);
  _ ← COLLAssert (negb (pobj =? 0));
  _ ← COLLAssert (cbOffsetOfNext + 8 <=? sizeof_CObject);
  n ← next_of h pobj;
  _ ← COLLAssert (0 =? n);
  '(h, head) ← Lockless.AtomicInsertAsPrevMost h (m_Head q) pobj;
  q ← (if 0 =? m_pTail q then
         n ← next_of h (Lockless.Head head);
         _ ← COLLAssert (0 =? n);
         Some (Queue head pobj (m_cObject q))
       else Some (Queue head (m_pTail q) (m_cObject q)));
  let q := Queue (m_Head q) (m_pTail q) (u32 (m_cObject q + 1)) in
  _ ← COLLAssert (FValid q);
  _ ← assert_empty false q;
  Some (h, q).

Definition InsertAsNextMost (h : links) (q : CSimpleQueue) (pobj : Z) : option (links * CSimpleQueue) :=
  _ ← COLLAssert (FValid q);
  _ ← COLLAssert (negb (pobj =? 0));
  _ ← COLLAssert (cbOffsetOfNext + 8 <=? sizeof_CObject);
  n ← next_of h pobj;
  _ ← COLLAssert (0 =? n);
  '(h, q) ← (if negb (m_pTail q =? 0) then
               n ← next_of h (m_pTail q);
               _ ← COLLAssert (0 =? n);
               pp ← Ppnext_ h (m_pTail q);
               h ← wr_link h pp pobj;
               Some (h, Queue (m_Head q) pobj (m_cObject q))
             else
               _ ← COLLAssert (0 =? Lockless.Head (m_Head q));
               _ ← assert_empty true q;
               _ ← COLLAssert (Lockless.FEmpty (m_Head q));
               '(h, head) ← Lockless.AtomicInsertAsPrevMost h (m_Head q) pobj;
               Some (h, Queue head pobj (m_cObject q)));
  let q := Queue (m_Head q) (m_pTail q) (u32 (m_cObject q + 1)) in
  _ ← COLLAssert (FValid q);
  _ ← assert_empty false q;
  Some (h, q).

Definition RemoveList (q : CSimpleQueue) : option (Z * CSimpleQueue) :=
  _ ← COLLAssert (FValid q);
  let '(pobj, head) := Lockless.AtomicRemoveList (m_Head q) in
  _ ← COLLAssert (Lockless.FEmpty head);
  let q := Queue head 0 0 in
  _ ← COLLAssert (FValid q);
  _ ← assert_empty true q;
  Some (pobj, q).

Definition RemovePrevMost (h : links) (q : CSimpleQueue) : option (Z * links * CSimpleQueue) :=
  _ ← COLLAssert (FValid q);
  _ ← COLLAssert (cbOffsetOfNext + 8 <=? sizeof_CObject);
  '(pobj, h, head) ← Lockless.RemovePrevMost h (m_Head q);
  let q := Queue head (if 0 =? Lockless.Head head then 0 else m_pTail q) (m_cObject q) in
  let q := if negb (pobj =? 0) then Queue (m_Head q) (m_pTail q) (u32 (m_cObject q - 1)) else q in
  Some (pobj, h, q).

End Operations.
