(* ===== verification/SimpleQueueProofs.v ===== *)
(** * SimpleQueueProofs: the queue implements a sequence of objects

    A head whose objects are linked as the sequence [l] is a chain of [l]; a queue
    of [l] is a chain of [l] with its last object and its length.  Each operation
    of [SimpleQueue] takes a chain or queue of a sequence to that of the changed
    sequence, writing one link, and none of its assertions fails. *)

From stdpp Require Import gmap.
From S2P Require Import Prelude SimpleQueue.

Section Chains.
Context `{L : Layout}.

(** An object that is not null and whose link is in the address space. *)
Definition obj_ok (p : Z) : Prop := 0 < p /\ 0 <= p + cbOffsetOfNext < 2 ^ 64.

Lemma link_inj (p q : Z) : obj_ok p -> obj_ok q -> link p = link q -> p = q.
Proof. unfold obj_ok, link, wrapu. intros [??] [??]. rewrite !Z.mod_small by lia. lia. Qed.

(** [lseg h l n]: the objects [l] are linked in this order, the last one to [n]. *)
Fixpoint lseg (h : links) (l : list Z) (n : Z) : Prop :=
  match l with
  | [] => True
  | x :: l => h !! link x = Some (hd n l) /\ lseg h l n
  end.

Lemma lseg_app (h : links) (l1 l2 : list Z) (n : Z) :
  lseg h (l1 ++ l2) n <-> lseg h l1 (hd n l2) /\ lseg h l2 n.
Proof. induction l1 as [|x l1 IH]; simpl; [tauto|]. rewrite IH, hd_app. tauto. Qed.

Lemma lseg_write (h : links) (l : list Z) (n z v : Z) :
  obj_ok z -> Forall obj_ok l -> z ∉ l -> lseg h l n -> lseg (<[link z := v]> h) l n.
Proof.
  intros Hz Hl. induction Hl as [|x l Hx Hl IH]; simpl; [done|].
  rewrite not_elem_of_cons. intros [Hne Hn] [E Hs]. split; [|by apply IH].
  rewrite lookup_insert_ne; [done|]. intros Heq. by apply Hne, link_inj.
Qed.

Record chain (h : links) (head : Z) (l : list Z) : Prop := {
  chain_head : head = hd 0 l;
  chain_links : lseg h l 0;
  chain_nodup : NoDup l;
  chain_objs : Forall obj_ok l }.

Lemma chain_nil (h : links) : chain h 0 [].
Proof. split; [done..|apply NoDup_nil_2|by constructor]. Qed.

Lemma chain_write (h : links) (head z v : Z) (l : list Z) :
  obj_ok z -> z ∉ l -> chain h head l -> chain (<[link z := v]> h) head l.
Proof. intros Hz Hn []. split; [done|by apply lseg_write|done..]. Qed.

Lemma chain_null (h : links) (head : Z) (l : list Z) : chain h head l -> head = 0 <-> l = [].
Proof.
  intros [-> _ _ Ho]. destruct l as [|x l]; [done|].
  apply list.Forall_cons in Ho as [[Hx _] _]. unfold hd; simpl. split; [lia|done].
Qed.

(** The link of the first object of a chain is not itself. *)
Lemma chain_no_loop (h : links) (head x : Z) (l : list Z) : chain h head (x :: l) -> x <> hd 0 l.
Proof.
  intros [_ _ Hd Ho]. apply list.Forall_cons in Ho as [[Hx _] _]. apply list.NoDup_cons in Hd as [Hd _].
  destruct l as [|y l]; unfold hd; simpl; [lia|]. set_solver.
Qed.

Lemma chain_cons (h : links) (head x : Z) (l : list Z) :
  chain h head (x :: l) <-> head = x /\ h !! link x = Some (hd 0 l) /\ chain h (hd 0 l) l /\ x ∉ l /\ obj_ok x.
Proof.
  split.
  - intros [Hh [E Hs] Hd Ho]. apply list.NoDup_cons in Hd as [Hn Hd]. apply list.Forall_cons in Ho as [Hx Ho]. done.
  - intros (-> & E & [? ? ? ?] & Hn & Hx). split; [done|done|by apply list.NoDup_cons|by apply list.Forall_cons].
Qed.

(** ** Reading and writing links *)

Hypothesis Hlayout : cbOffsetOfNext + 8 <= sizeof_CObject.

Lemma layout_assert : cbOffsetOfNext + 8 <=? sizeof_CObject = true.
Proof. lia. Qed.

Lemma Ppnext_eq (h : links) (x n : Z) : h !! link x = Some n -> x <> n -> Ppnext_ h x = Some (link x).
Proof.
  intros E Hn. unfold Ppnext_, rd_link. rewrite layout_assert, E. cbn.
  by rewrite (proj2 (Z.eqb_neq x n)).
Qed.

Lemma next_of_eq (h : links) (x n : Z) : h !! link x = Some n -> x <> n -> next_of h x = Some n.
Proof. intros E Hn. unfold next_of. by rewrite (Ppnext_eq h x n). Qed.

Lemma wr_link_eq (h : links) (pp v n : Z) : h !! pp = Some n -> wr_link h pp v = Some (<[pp := v]> h).
Proof. intros E. unfold wr_link. by rewrite E. Qed.

(** ** The lock-less list, one thread *)

Lemma insert_link_eq (h : links) (p : Z) : obj_ok p -> h !! link p = Some 0 ->
  Lockless.insert_link h p = Some (link p).
Proof.
  intros [Hp _] E. unfold Lockless.insert_link. rewrite layout_assert.
  rewrite (next_of_eq h p 0), (Ppnext_eq h p 0) by (done || lia).
  by rewrite (proj2 (Z.eqb_neq p 0)) by lia.
Qed.

Lemma insert_eq (h : links) (head p : Z) : obj_ok p -> h !! link p = Some 0 ->
  Lockless.AtomicInsertAsPrevMost h head p = Some (<[link p := head]> h, p).
Proof.
  intros Hp E. unfold Lockless.AtomicInsertAsPrevMost. rewrite insert_link_eq by done. cbn.
  unfold AtomicAddLinklistNode. cbn. rewrite (wr_link_eq h _ _ 0) by done. cbn. by rewrite !Z.eqb_refl.
Qed.

Lemma chain_push (h : links) (head p : Z) (l : list Z) :
  obj_ok p -> p ∉ l -> chain h head l -> chain (<[link p := head]> h) p (p :: l).
Proof.
  intros Hp Hn Hc. apply chain_cons. pose proof (chain_head _ _ _ Hc) as ->.
  split_and!; [done|by rewrite lookup_insert_eq|by apply chain_write|done|done].
Qed.

Lemma remove_eq (h : links) (head x : Z) (l : list Z) : chain h head (x :: l) ->
  Lockless.RemovePrevMost h head = Some (x, <[link x := 0]> h, hd 0 l).
Proof.
  intros Hc. pose proof (chain_no_loop _ _ _ _ Hc) as Hx.
  apply chain_cons in Hc as (-> & E & _ & _ & [H0 _]). unfold Lockless.RemovePrevMost.
  rewrite layout_assert, (proj2 (Z.eqb_neq x 0)) by lia. cbn [negb COLLAssert mbind option_bind].
  rewrite (next_of_eq h x (hd 0 l)), (Ppnext_eq h x (hd 0 l)) by done. cbn.
  by rewrite (wr_link_eq h _ _ (hd 0 l)).
Qed.

Lemma remove_empty (h : links) : Lockless.RemovePrevMost h 0 = Some (0, h, 0).
Proof. unfold Lockless.RemovePrevMost. by rewrite layout_assert. Qed.

Lemma chain_pop (h : links) (head x : Z) (l : list Z) :
  chain h head (x :: l) -> chain (<[link x := 0]> h) (hd 0 l) l.
Proof. intros (-> & _ & Hc & Hn & Hx)%chain_cons. by apply chain_write. Qed.

(** ** The queue *)

Record queue_ok (h : links) (q : CSimpleQueue) (l : list Z) : Prop := {
  queue_chain : chain h (m_Head q) l;
  queue_tail : m_pTail q = lst 0 l;
  queue_count : m_cObject q = Z.of_nat (length l);
  queue_bound : Z.of_nat (length l) < 2 ^ 32 }.

Lemma queue_write (h : links) (q : CSimpleQueue) (z v : Z) (l : list Z) :
  obj_ok z -> z ∉ l -> queue_ok h q l -> queue_ok (<[link z := v]> h) q l.
Proof. intros Hz Hn []. split; [by apply chain_write|done..]. Qed.

Lemma lst_in (l : list Z) (d : Z) : l <> [] -> lst d l ∈ l.
Proof.
  destruct l as [|x l _] using rev_ind; [done|]. rewrite lst_snoc. set_solver.
Qed.

Lemma lst_nonzero (l : list Z) : Forall obj_ok l -> l <> [] -> lst 0 l <> 0.
Proof. intros Ho Hl Hz. pose proof (proj1 (list.Forall_forall _ _) Ho _ (lst_in l 0 Hl)) as []. lia. Qed.

Lemma queue_valid (h : links) (q : CSimpleQueue) (l : list Z) : queue_ok h q l -> FValid q = true.
Proof.
  intros [[Hh _ Hd Ho] Ht Hc _]. unfold FValid, Lockless.FEmpty, Lockless.Head. rewrite Hh, Ht, Hc.
  destruct l as [|x l]; [done|]. pose proof (lst_nonzero (x :: l) Ho ltac:(done)) as Hz.
  apply list.Forall_cons in Ho as [[Hx _] _]. change (hd 0 (x :: l)) with x.
  assert (H1 : length l = 0%nat -> lst 0 (x :: l) = x) by (by destruct l).
  assert (H2 : length l = 1%nat -> lst 0 (x :: l) <> x).
  { destruct l as [|y [|]]; try done. intros _. apply list.NoDup_cons in Hd as [Hn _].
    unfold lst; simpl. set_solver. }
  rewrite length_cons. generalize dependent (lst 0 (x :: l)). intros.
  repeat match goal with |- context [?a =? ?b] => destruct (Z.eqb_spec a b) end; cbn; first [done | lia].
Qed.

Lemma queue_FEmpty (h : links) (q : CSimpleQueue) (l : list Z) :
  queue_ok h q l -> FEmpty q = Some (bool_decide (l = [])).
Proof.
  intros Hq. pose proof (queue_valid h q l Hq) as Hv. unfold FEmpty. rewrite Hv. cbn [COLLAssert mbind option_bind].
  unfold FValid in Hv. rewrite !andb_true_iff in Hv. destruct Hv as [[-> _] _]. cbn [COLLAssert mbind option_bind]. f_equal.
  pose proof (chain_null _ _ _ (queue_chain _ _ _ Hq)) as Hn. unfold Lockless.FEmpty.
  rewrite Z.eqb_sym. destruct (Z.eqb_spec (m_Head q) 0) as [Ez|Ez]; case_bool_decide as Hl; tauto.
Qed.

Lemma assert_empty_eq (h : links) (q : CSimpleQueue) (l : list Z) (b : bool) :
  queue_ok h q l -> bool_decide (l = []) = b -> assert_empty b q = Some tt.
Proof. intros Hq <-. unfold assert_empty. rewrite (queue_FEmpty h q l Hq). cbn. by rewrite eqb_reflx. Qed.

Lemma chain_snoc (h : links) (head p : Z) (l : list Z) :
  l <> [] -> obj_ok p -> p ∉ l -> h !! link p = Some 0 -> chain h head l ->
  chain (<[link (lst 0 l) := p]> h) head (l ++ [p]).
Proof.
  destruct l as [|t l _] using rev_ind; [done|]. intros _ Hp Hn E [Hh Hs Hd Ho]. rewrite lst_snoc.
  apply Forall_app in Ho as [Ho Ht]. apply list.Forall_cons in Ht as [Ht _].
  assert (Htl : t ∉ l) by (apply list.NoDup_app in Hd; set_solver).
  assert (Hne : link t <> link p) by (intros ->%link_inj; [set_solver|done..]).
  apply lseg_app in Hs as [Hs _]. split.
  - by rewrite Hh, !hd_app.
  - rewrite <- app_assoc. apply lseg_app. split; [by apply lseg_write|].
    simpl. rewrite lookup_insert_eq, lookup_insert_ne by done. done.
  - apply list.NoDup_app. split_and!; [done|set_solver|apply NoDup_singleton].
  - rewrite !Forall_app, !list.Forall_cons. auto.
Qed.

(** The bookkeeping at the end of both insertions. *)
Lemma counted (h : links) (head tail c : Z) (l l' : list Z) :
  c = Z.of_nat (length l) -> length l' = S (length l) -> Z.of_nat (length l') < 2 ^ 32 ->
  chain h head l' -> tail = lst 0 l' -> queue_ok h (Queue head tail (u32 (c + 1))) l'.
Proof.
  intros -> Hl Hb Hc Ht. split; cbn; [done|done| |done]. unfold wrapu. rewrite Z.mod_small; lia.
Qed.

Lemma queue_InsertAsPrevMost (h : links) (q : CSimpleQueue) (l : list Z) (p : Z) :
  queue_ok h q l -> obj_ok p -> p ∉ l -> h !! link p = Some 0 -> Z.of_nat (length (p :: l)) < 2 ^ 32 ->
  exists q', InsertAsPrevMost h q p = Some (<[link p := m_Head q]> h, q') /\
    queue_ok (<[link p := m_Head q]> h) q' (p :: l).
Proof.
  intros Hq Hp Hn E Hb. pose proof (queue_valid h q l Hq) as Hv. destruct (Hq) as [Hc Ht Hk _].
  set (h' := <[link p := m_Head q]> h).
  assert (Hc' : chain h' p (p :: l)) by by apply chain_push.
  set (q' := Queue p (lst 0 (p :: l)) (u32 (m_cObject q + 1))).
  assert (Hq' : queue_ok h' q' (p :: l)) by by apply (counted h' _ _ _ l).
  exists q'. split; [|done]. destruct (Hp) as [Hp0 _]. unfold InsertAsPrevMost.
  rewrite Hv, layout_assert, (next_of_eq h p 0), insert_eq by (done || lia).
  rewrite (proj2 (Z.eqb_neq p 0)) by lia. cbn [COLLAssert mbind option_bind negb]. rewrite Z.eqb_refl. fold h'.
  cbn [COLLAssert mbind option_bind]. destruct (Z.eqb_spec 0 (m_pTail q)) as [Et|Et].
  - assert (l = []) as ->. { destruct l; [done|]. destruct (lst_nonzero _ (chain_objs _ _ _ Hc) ltac:(done)). lia. }
    apply chain_cons in Hc' as (_ & E' & _). unfold Lockless.Head. rewrite (next_of_eq h' p 0) by (done || lia).
    cbn [COLLAssert mbind option_bind m_Head m_pTail m_cObject].
    rewrite Z.eqb_refl. cbn [COLLAssert mbind option_bind m_Head m_pTail m_cObject].
    change (Queue p p _) with q'. by rewrite (queue_valid _ _ _ Hq'), (assert_empty_eq _ _ _ false Hq').
  - cbn [COLLAssert mbind option_bind m_Head m_pTail m_cObject].
    assert (m_pTail q = lst 0 (p :: l)) as ->. { rewrite Ht, lst_cons. destruct l; [done|]. by rewrite !lst_cons. }
    fold q'. by rewrite (queue_valid _ _ _ Hq'), (assert_empty_eq _ _ _ false Hq').
Qed.

Lemma queue_InsertAsNextMost (h : links) (q : CSimpleQueue) (l : list Z) (p : Z) :
  queue_ok h q l -> obj_ok p -> p ∉ l -> h !! link p = Some 0 -> Z.of_nat (length (l ++ [p])) < 2 ^ 32 ->
  exists q' z v, InsertAsNextMost h q p = Some (<[link z := v]> h, q') /\ z ∈ p :: l /\
    queue_ok (<[link z := v]> h) q' (l ++ [p]).
Proof.
  intros Hq Hp Hn E Hb. pose proof (queue_valid h q l Hq) as Hv. destruct (Hq) as [Hc Ht Hk _].
  destruct (Hp) as [Hp0 _]. unfold InsertAsNextMost.
  rewrite Hv, layout_assert, (next_of_eq h p 0) by (done || lia).
  rewrite (proj2 (Z.eqb_neq p 0)) by lia. cbn [COLLAssert mbind option_bind negb]. rewrite Z.eqb_refl.
  cbn [COLLAssert mbind option_bind]. destruct (Z.eqb_spec (m_pTail q) 0) as [Et|Et]; cbn [negb].
  - assert (l = []) as ->. { destruct l; [done|]. destruct (lst_nonzero _ (chain_objs _ _ _ Hc) ltac:(done)). lia. }
    pose proof (chain_head _ _ _ Hc) as Hh. cbn in Hh. exists (Queue p p (u32 (m_cObject q + 1))), p, 0.
    assert (Hq' : queue_ok (<[link p := 0]> h) (Queue p p (u32 (m_cObject q + 1))) [p]).
    { apply (counted _ _ _ _ []); [done..| |done]. apply chain_push; [done..|]. by rewrite <- Hh. }
    split_and!; [|set_solver|done].
    rewrite (assert_empty_eq h q [] true) by done. unfold Lockless.Head, Lockless.FEmpty.
    rewrite Hh, insert_eq by done. cbn [COLLAssert mbind option_bind m_Head m_pTail m_cObject Z.eqb].
    by rewrite (queue_valid _ _ _ Hq'), (assert_empty_eq _ _ _ false Hq').
  - assert (Hl : l <> []) by (intros ->; done).
    set (q' := Queue (m_Head q) p (u32 (m_cObject q + 1))).
    assert (Hq' : queue_ok (<[link (lst 0 l) := p]> h) q' (l ++ [p])).
    { apply (counted _ _ _ _ l); [done|rewrite length_app; simpl; lia|done|by apply chain_snoc|by rewrite lst_snoc]. }
    exists q', (lst 0 l), p. split_and!; [|by apply list_elem_of_further, lst_in|done].
    assert (Et' : h !! link (lst 0 l) = Some 0).
    { destruct l as [|t l _] using rev_ind; [done|]. rewrite lst_snoc.
      apply chain_links, lseg_app in Hc as [_ [? _]]. done. }
    rewrite Ht in *. rewrite (next_of_eq h (lst 0 l) 0), (Ppnext_eq h (lst 0 l) 0) by done.
    cbn [COLLAssert mbind option_bind Z.eqb]. rewrite (wr_link_eq h _ _ 0) by done.
    cbn [COLLAssert mbind option_bind m_Head m_pTail m_cObject]. fold q'.
    by rewrite (queue_valid _ _ _ Hq'), (assert_empty_eq _ _ _ false Hq' ltac:(by destruct l)).
Qed.

Lemma queue_empty_ok (h : links) : queue_ok h (Queue 0 0 0) [].
Proof. split; [apply chain_nil|done..]. Qed.

Lemma RemoveList_ok (h : links) (q : CSimpleQueue) (l : list Z) :
  queue_ok h q l -> RemoveList q = Some (hd 0 l, Queue 0 0 0).
Proof.
  intros Hq. unfold RemoveList. rewrite (queue_valid h q l Hq). cbn.
  by rewrite (chain_head _ _ _ (queue_chain _ _ _ Hq)).
Qed.

Lemma RemovePrevMost_empty (h : links) (q : CSimpleQueue) :
  queue_ok h q [] -> RemovePrevMost h q = Some (0, h, q).
Proof.
  intros Hq. pose proof (queue_valid h q [] Hq) as Hv. destruct q as [head tail c].
  destruct Hq as [[Hh _ _ _] Ht Hc _]. cbn in *. subst. unfold RemovePrevMost.
  rewrite Hv, layout_assert. cbn. by rewrite remove_empty.
Qed.

Lemma RemovePrevMost_ok (h : links) (q : CSimpleQueue) (x : Z) (l : list Z) :
  queue_ok h q (x :: l) ->
  exists q', RemovePrevMost h q = Some (x, <[link x := 0]> h, q') /\ queue_ok (<[link x := 0]> h) q' l.
Proof.
  intros Hq. pose proof (queue_valid h q _ Hq) as Hv. destruct (Hq) as [Hc Ht Hk Hb].
  rewrite length_cons in *. unfold RemovePrevMost. rewrite Hv, layout_assert, (remove_eq _ _ x l) by done.
  pose proof (chain_pop _ _ _ _ Hc) as Hc'. pose proof (chain_null _ _ _ Hc') as Hnl.
  apply chain_cons in Hc as (_ & _ & _ & _ & [Hx _]).
  cbn [COLLAssert mbind option_bind m_Head m_pTail m_cObject]. rewrite (proj2 (Z.eqb_neq x 0)) by lia.
  eexists. split; [done|]. split; cbn [negb m_Head m_pTail m_cObject]; [done| | |lia].
  - unfold Lockless.Head. rewrite Z.eqb_sym, Ht, lst_cons. destruct (Z.eqb_spec (hd 0 l) 0) as [Ez|Ez].
    + apply Hnl in Ez as ->. done.
    + destruct l; [done|]. by rewrite !lst_cons.
  - rewrite Hk. unfold wrapu. rewrite Z.mod_small; lia.
Qed.

(** A chain has no more objects than the memory has links, so the loop of the
    constructor has enough rounds. *)
Lemma chain_size (h : links) (head : Z) (l : list Z) : chain h head l -> (length l <= size h)%nat.
Proof.
  intros [_ Hs Hd Ho].
  assert (Hn : NoDup (link <$> l)).
  { clear Hs. induction l as [|x l IH]; [apply NoDup_nil_2|]. apply list.NoDup_cons in Hd as [Hx Hd].
    apply list.Forall_cons in Ho as [Hxo Ho]. apply list.NoDup_cons. split; [|by apply IH].
    intros (y & Hy & Hyl)%list_elem_of_fmap. apply link_inj in Hy as ->; [done..|].
    by apply (proj1 (list.Forall_forall _ _) Ho). }
  assert (Hsub : list_to_set (link <$> l) ⊆ dom h).
  { clear Hd Ho Hn. induction l as [|x l IH]; [set_solver|]. destruct Hs as [E Hs]. specialize (IH Hs).
    apply elem_of_dom_2 in E. set_solver. }
  apply subseteq_size in Hsub. rewrite size_list_to_set, length_fmap, size_dom in Hsub; done.
Qed.

Lemma count_loop_ok (h : links) (l : list Z) : forall fuel head c tail H, chain h head l -> (length l < fuel)%nat ->
  0 <= c -> c + Z.of_nat (length l) < 2 ^ 32 ->
  count_loop fuel h head (Queue H tail c) = Some (Queue H (lst tail l) (c + Z.of_nat (length l))).
Proof.
  induction l as [|x l IH]; intros [|fuel] head c tail H Hc Hf H0 Hb; try lia; cbn [count_loop].
  - rewrite (chain_head _ _ _ Hc). cbn. by rewrite Z.add_0_r.
  - pose proof (chain_no_loop _ _ _ _ Hc) as Hx. apply chain_cons in Hc as (-> & E & Hc & _ & [Hx0 _]).
    rewrite length_cons in *. rewrite (proj2 (Z.eqb_neq x 0)) by lia. rewrite !(next_of_eq h x (hd 0 l)) by done.
    cbn [COLLAssert mbind option_bind negb m_Head m_pTail m_cObject].
    rewrite (proj2 (Z.eqb_neq x (hd 0 l))) by done. cbn [COLLAssert mbind option_bind negb].
    unfold wrapu. rewrite Z.mod_small by lia. rewrite IH by (done || lia). do 2 f_equal; [|lia].
    rewrite lst_cons, Z.eqb_sym. pose proof (chain_null _ _ _ Hc) as Hn.
    destruct (Z.eqb_spec (hd 0 l) 0) as [Ez|Ez]; [by apply Hn in Ez as ->|]. destruct l; [done|]. by rewrite !lst_cons.
Qed.

Lemma CSimpleQueue_ctor_list_ok (h : links) (head : Z) (l : list Z) :
  chain h head l -> l <> [] -> Z.of_nat (length l) < 2 ^ 32 ->
  exists q, CSimpleQueue_ctor_list h head = Some q /\ queue_ok h q l.
Proof.
  intros Hc Hl Hb. set (q := Queue head (lst 0 l) (0 + Z.of_nat (length l))).
  assert (Hq : queue_ok h q l) by by split. exists q. split; [|done].
  assert (Hne : (head =? 0) = false) by (apply Z.eqb_neq; intros E; by apply (chain_null _ _ _ Hc) in E).
  unfold CSimpleQueue_ctor_list, Lockless.ctor_head, Lockless.FEmpty, Lockless.Head. cbn [m_Head m_pTail m_cObject].
  rewrite (Z.eqb_sym 0 head), Hne. cbn [negb COLLAssert mbind option_bind Z.eqb].
  pose proof (chain_size _ _ _ Hc). rewrite (count_loop_ok h l) by (done || lia). fold q.
  cbn [mbind option_bind]. unfold CElements. rewrite (queue_valid _ _ _ Hq). cbn [COLLAssert mbind option_bind].
  rewrite (proj2 (Z.eqb_neq (m_cObject q) 0)) by (destruct l; [done|simpl; lia]).
  cbn [negb COLLAssert mbind option_bind]. rewrite (queue_valid _ _ _ Hq). cbn [COLLAssert mbind option_bind].
  by rewrite (assert_empty_eq _ _ _ _ Hq (bool_decide_eq_false_2 _ Hl)).
Qed.

End Chains.

(** Objects of 32 bytes with the link at offset 24. *)
Definition layout32 : Layout := {| sizeof_CObject := 32; cbOffsetOfNext := 24 |}.
