(* ===== verification/SimpleQueueTop.v ===== *)
(** * SimpleQueueTop: a queue and lists that exchange objects

    The I/O layer fills a [CSimpleQueue], takes the whole list out of it, works
    through it as a [CLocklessLinkedList], and builds queues from lists.  Here one
    queue and any number of lists share the memory, and sequences of calls on them
    are compared with the same calls on plain sequences. *)

From stdpp Require Import gmap.
From S2P Require Import Prelude SimpleQueue SimpleQueueProofs.

Inductive qop :=
  | QInsertAsPrevMost (pobj : Z)
  | QInsertAsNextMost (pobj : Z)
  | QRemovePrevMost
  | QRemoveList                          (** the result becomes a new list *)
  | QFromList (i : nat)                  (** all objects of list [i] become the queue *)
  | LInsertAsPrevMost (i : nat) (pobj : Z)
  | LRemovePrevMost (i : nat).

(** ** The specification: plain sequences *)

Record aqueue := Seqs { aq : list Z; als : list (list Z) }.

Definition objects (a : aqueue) : list Z := aq a ++ concat (als a).

(** What each call does and returns; [None] where the caller breaks the discipline:
    it inserts an object that is not one of [objs] or is in the queue or a list
    already, replaces a queue that still has objects, builds one from an empty
    list, or lets the queue grow beyond its 32-bit count. *)
Definition spec_op (objs : list Z) (a : aqueue) (x : qop) : option (aqueue * Z) :=
  let free p := bool_decide (p ∈ objs) && bool_decide (p ∉ objects a) in
  let small (l : list Z) := bool_decide (Z.of_nat (length l) < 2 ^ 32) in
  match x with
  | QInsertAsPrevMost p => if free p && small (p :: aq a) then Some (Seqs (p :: aq a) (als a), 0) else None
  | QInsertAsNextMost p => if free p && small (aq a ++ [p]) then Some (Seqs (aq a ++ [p]) (als a), 0) else None
  | QRemovePrevMost => Some (Seqs (tail (aq a)) (als a), hd 0 (aq a))
  | QRemoveList => Some (Seqs [] (als a ++ [aq a]), hd 0 (aq a))
  | QFromList i =>
      l ← als a !! i;
      if bool_decide (aq a = []) && negb (bool_decide (l = [])) && small l
      then Some (Seqs l (<[i := []]> (als a)), 0) else None
  | LInsertAsPrevMost i p =>
      l ← als a !! i; if free p then Some (Seqs (aq a) (<[i := p :: l]> (als a)), 0) else None
  | LRemovePrevMost i => l ← als a !! i; Some (Seqs (aq a) (<[i := tail l]> (als a)), hd 0 l)
  end.

Section Run.
Context {S X : Type} (f : S -> X -> option (S * Z)).

(** The state and the results of a sequence of calls. *)
Fixpoint run (s : S) (xs : list X) : option (S * list Z) :=
  match xs with
  | [] => Some (s, [])
  | x :: xs => '(s, r) ← f s x; '(s, rs) ← run s xs; Some (s, r :: rs)
  end.

End Run.

(** ** The implementation *)

Record qsys := QSys { mem : links; queue : CSimpleQueue; heads : list Z }.

Section System.
Context `{L : Layout}.

Definition exec_op (s : qsys) (x : qop) : option (qsys * Z) :=
  match x with
  | QInsertAsPrevMost p => '(h, q) ← InsertAsPrevMost (mem s) (queue s) p; Some (QSys h q (heads s), 0)
  | QInsertAsNextMost p => '(h, q) ← InsertAsNextMost (mem s) (queue s) p; Some (QSys h q (heads s), 0)
  | QRemovePrevMost => '(r, h, q) ← RemovePrevMost (mem s) (queue s); Some (QSys h q (heads s), r)
  | QRemoveList => '(r, q) ← RemoveList (queue s); Some (QSys (mem s) q (heads s ++ [Lockless.ctor_head r]), r)
  | QFromList i =>
      c ← heads s !! i;
      let '(r, c) := Lockless.AtomicRemoveList c in
      q ← CSimpleQueue_ctor_list (mem s) r; Some (QSys (mem s) q (<[i := c]> (heads s)), 0)
  | LInsertAsPrevMost i p =>
      c ← heads s !! i;
      '(h, c) ← Lockless.AtomicInsertAsPrevMost (mem s) c p; Some (QSys h (queue s) (<[i := c]> (heads s)), 0)
  | LRemovePrevMost i =>
      c ← heads s !! i;
      '(r, h, c) ← Lockless.RemovePrevMost (mem s) c; Some (QSys h (queue s) (<[i := c]> (heads s)), r)
  end.

(** Objects with a null link, and an empty queue. *)
Definition start (objs : list Z) : option qsys :=
  q ← CSimpleQueue_ctor; Some (QSys (list_to_map ((fun p => (link p, 0)) <$> objs)) q []).

(** What the calls that read a queue say of the sequence [l]. *)
Definition reads (q : CSimpleQueue) (l : list Z) : Prop :=
  FEmpty q = Some (bool_decide (l = [])) /\ CElements q = Some (Z.of_nat (length l)) /\
  Head q = Some (hd 0 l) /\ Tail q = Some (lst 0 l).

Record sys_ok (objs : list Z) (s : qsys) (a : aqueue) : Prop := {
  ok_queue : queue_ok (mem s) (queue s) (aq a);
  ok_lists : Forall2 (chain (mem s)) (heads s) (als a);
  ok_nodup : NoDup (objects a);
  ok_sub : forall p, p ∈ objects a -> p ∈ objs;
  ok_free : forall p, p ∈ objs -> p ∉ objects a -> mem s !! link p = Some 0 }.

Lemma chains_write (h : links) (z v : Z) (cs : list Z) (ls : list (list Z)) :
  obj_ok z -> z ∉ concat ls -> Forall2 (chain h) cs ls -> Forall2 (chain (<[link z := v]> h)) cs ls.
Proof.
  intros Hz Hn H. induction H as [|c l cs ls Hc H IH]; [constructor|]. cbn in Hn.
  constructor; [apply chain_write; set_solver|apply IH; set_solver].
Qed.

(** List [i] and the others. *)
Lemma lists_split (h : links) (cs : list Z) (ls : list (list Z)) (i : nat) (l : list Z) :
  ls !! i = Some l -> Forall2 (chain h) cs ls -> exists c cs1 cs2 ls1 ls2,
    cs !! i = Some c /\ chain h c l /\ ls = ls1 ++ l :: ls2 /\
    Forall2 (chain h) cs1 ls1 /\ Forall2 (chain h) cs2 ls2 /\
    (forall c', <[i := c']> cs = cs1 ++ c' :: cs2) /\ (forall l', <[i := l']> ls = ls1 ++ l' :: ls2).
Proof.
  intros Hi H. destruct (Forall2_lookup_r _ _ _ _ _ H Hi) as (c & Hc & Hcl).
  destruct (Forall2_split _ _ _ _ _ _ H Hc Hi) as (cs1 & cs2 & ls1 & ls2 & _ & ? & ? & ? & ? & ?).
  by exists c, cs1, cs2, ls1, ls2.
Qed.

Hypothesis Hlayout : cbOffsetOfNext + 8 <= sizeof_CObject.
Context (objs : list Z) (Hobjs : Forall obj_ok objs).

Lemma objs_ok (p : Z) : p ∈ objs -> obj_ok p.
Proof. by apply list.Forall_forall. Qed.

(** ** The three ways the objects in use change *)

Lemma inserted_ok (s s' : qsys) (a a' : aqueue) (p z v : Z) :
  sys_ok objs s a -> p ∈ objs -> p ∉ objects a -> objects a' ≡ₚ p :: objects a ->
  mem s' = <[link z := v]> (mem s) -> z ∈ objects a' ->
  queue_ok (mem s') (queue s') (aq a') -> Forall2 (chain (mem s')) (heads s') (als a') -> sys_ok objs s' a'.
Proof.
  intros [_ _ Hd Hs Hf] Hp Hn HP Hm Hz Hq Hl.
  assert (Hs' : forall p, p ∈ objects a' -> p ∈ objs) by (intros p'; rewrite HP; set_solver).
  split; [done..| |done|].
  - rewrite HP. by apply list.NoDup_cons.
  - intros p' Hp' Hn'. rewrite Hm, lookup_insert_ne; [|by intros ->%link_inj; auto using objs_ok].
    apply Hf; [done|]. rewrite HP in Hn'. set_solver.
Qed.

Lemma removed_ok (s s' : qsys) (a a' : aqueue) (x : Z) :
  sys_ok objs s a -> objects a ≡ₚ x :: objects a' -> mem s' = <[link x := 0]> (mem s) ->
  queue_ok (mem s') (queue s') (aq a') -> Forall2 (chain (mem s')) (heads s') (als a') -> sys_ok objs s' a'.
Proof.
  intros [_ _ Hd Hs Hf] HP Hm Hq Hl. rewrite HP in Hd. apply list.NoDup_cons in Hd as [Hx Hd].
  split; [done..| |].
  - intros p Hp. apply Hs. rewrite HP. set_solver.
  - intros p Hp Hn. rewrite Hm. destruct (decide (p = x)) as [->|Hne]; [by rewrite lookup_insert_eq|].
    rewrite lookup_insert_ne.
    + apply Hf; [done|]. rewrite HP. set_solver.
    + intros ->%link_inj; [done| |by apply objs_ok]. apply objs_ok, Hs. rewrite HP. set_solver.
Qed.

Lemma moved_ok (s s' : qsys) (a a' : aqueue) :
  sys_ok objs s a -> objects a' ≡ₚ objects a -> mem s' = mem s ->
  queue_ok (mem s') (queue s') (aq a') -> Forall2 (chain (mem s')) (heads s') (als a') -> sys_ok objs s' a'.
Proof.
  intros [_ _ Hd Hs Hf] HP Hm Hq Hl. split; [done|done|by rewrite HP| |].
  - intros p. rewrite HP. apply Hs.
  - intros p Hp. rewrite HP, Hm. by apply Hf.
Qed.

(** ** Each call *)

Lemma Permutation_mid (x : Z) (A B C : list Z) : A ++ B ++ x :: C ≡ₚ x :: A ++ B ++ C.
Proof. rewrite !app_assoc. symmetry. apply Permutation_middle. Qed.

Definition simulated (s : qsys) (x : qop) (a' : aqueue) (r : Z) : Prop :=
  exists s', exec_op s x = Some (s', r) /\ sys_ok objs s' a'.

Lemma QInsert_sim (s : qsys) (a : aqueue) (p : Z) :
  sys_ok objs s a -> p ∈ objs -> p ∉ objects a -> Z.of_nat (S (length (aq a))) < 2 ^ 32 ->
  simulated s (QInsertAsPrevMost p) (Seqs (p :: aq a) (als a)) 0 /\
  simulated s (QInsertAsNextMost p) (Seqs (aq a ++ [p]) (als a)) 0.
Proof.
  intros Hs Hp Hn Hb. pose proof Hs as [Hq Hl Hd Hsub Hf]. specialize (Hf p Hp Hn).
  pose proof (objs_ok p Hp) as Hpo. unfold objects in Hn, Hd. apply list.NoDup_app in Hd as (_ & Hdis & _). split.
  - destruct (queue_InsertAsPrevMost Hlayout _ _ _ p Hq Hpo ltac:(set_solver) Hf Hb) as (q' & E & Hq').
    eexists. cbn [exec_op]. rewrite E. split; [done|].
    eapply (inserted_ok s _ a _ p p); [done..|set_solver|done|]. apply chains_write; set_solver.
  - destruct (queue_InsertAsNextMost Hlayout _ _ _ p Hq Hpo ltac:(set_solver) Hf) as (q' & z & v & E & Hz & Hq').
    { rewrite length_app. simpl. lia. }
    eexists. cbn [exec_op]. rewrite E. split; [done|].
    eapply (inserted_ok s _ a _ p z); [done..| |done|set_solver|done|].
    + unfold objects; cbn. by rewrite <- app_assoc, Permutation_middle.
    + apply chains_write; [|set_solver|done]. apply elem_of_cons in Hz as [->|Hz]; [done|].
      apply objs_ok, Hsub. set_solver.
Qed.

Lemma QRemovePrevMost_sim (s : qsys) (a : aqueue) :
  sys_ok objs s a -> simulated s QRemovePrevMost (Seqs (tail (aq a)) (als a)) (hd 0 (aq a)).
Proof.
  intros Hs. pose proof Hs as [Hq Hl Hd Hsub Hf]. destruct a as [[|x l] ls]; cbn [aq als tail] in *.
  - eexists. cbn [exec_op]. rewrite (RemovePrevMost_empty Hlayout) by done. split; [done|]. by destruct s.
  - destruct (RemovePrevMost_ok Hlayout _ _ _ _ Hq) as (q' & E & Hq').
    eexists. cbn [exec_op]. rewrite E. split; [done|]. eapply (removed_ok s _ _ _ x); [done..|].
    cbn [mem heads als]. unfold objects in *; cbn [aq als] in *.
    apply chains_write; [apply objs_ok, Hsub; set_solver| |done].
    apply list.NoDup_app in Hd as (_ & Hdis & _). set_solver.
Qed.

Lemma QRemoveList_sim (s : qsys) (a : aqueue) :
  sys_ok objs s a -> simulated s QRemoveList (Seqs [] (als a ++ [aq a])) (hd 0 (aq a)).
Proof.
  intros Hs. pose proof Hs as [Hq Hl Hd Hsub Hf].
  eexists. cbn [exec_op]. rewrite (RemoveList_ok Hlayout _ _ _ Hq). split; [done|].
  eapply (moved_ok s _ a); [done| |done|apply queue_empty_ok|].
  - unfold objects; cbn [aq als app]. rewrite concat_app. cbn. rewrite app_nil_r. apply Permutation_app_comm.
  - apply Forall2_app; [done|]. constructor; [|constructor]. pose proof (queue_chain _ _ _ Hq) as Hc.
    unfold Lockless.ctor_head. by rewrite <- (chain_head _ _ _ Hc).
Qed.

Lemma QFromList_sim (s : qsys) (a : aqueue) (i : nat) (l : list Z) :
  sys_ok objs s a -> als a !! i = Some l -> aq a = [] -> l <> [] -> Z.of_nat (length l) < 2 ^ 32 ->
  simulated s (QFromList i) (Seqs l (<[i := []]> (als a))) 0.
Proof.
  intros Hs Hi Ha Hne Hb. pose proof Hs as [Hq Hl Hd Hsub Hf].
  destruct (lists_split _ _ _ _ _ Hi Hl) as (c & cs1 & cs2 & ls1 & ls2 & Ec & Hc & Els & H1 & H2 & Ecs & Eins).
  destruct (CSimpleQueue_ctor_list_ok Hlayout _ _ _ Hc Hne Hb) as (q' & E & Hq').
  eexists. cbn [exec_op]. rewrite Ec. cbn [mbind option_bind Lockless.AtomicRemoveList PvAtomicRetrieveLinklist].
  rewrite E. split; [done|]. eapply (moved_ok s _ a); [done| |done|done|].
  - unfold objects; cbn [aq als]. rewrite Ha, Eins, Els, !concat_app. cbn. rewrite !app_assoc.
    by rewrite (Permutation_app_comm l (concat ls1)).
  - cbn [mem heads als]. rewrite Ecs, Eins. apply Forall2_app; [done|]. constructor; [apply chain_nil|done].
Qed.

Lemma LInsertAsPrevMost_sim (s : qsys) (a : aqueue) (i : nat) (l : list Z) (p : Z) :
  sys_ok objs s a -> als a !! i = Some l -> p ∈ objs -> p ∉ objects a ->
  simulated s (LInsertAsPrevMost i p) (Seqs (aq a) (<[i := p :: l]> (als a))) 0.
Proof.
  intros Hs Hi Hp Hn. pose proof Hs as [Hq Hl Hd Hsub Hf]. specialize (Hf p Hp Hn). pose proof (objs_ok p Hp) as Hpo.
  destruct (lists_split _ _ _ _ _ Hi Hl) as (c & cs1 & cs2 & ls1 & ls2 & Ec & Hc & Els & H1 & H2 & Ecs & Eins).
  eexists. cbn [exec_op]. rewrite Ec. cbn [mbind option_bind]. rewrite (insert_eq Hlayout) by done. split; [done|].
  pose proof Hn as Hn'. unfold objects in *. rewrite Els, concat_app in Hn. cbn in Hn.
  eapply (inserted_ok s _ a _ p p); unfold objects; cbn [mem queue heads aq als]; [done..| |done| | |].
  - rewrite Eins, Els, !concat_app. cbn. apply Permutation_mid.
  - rewrite Eins, concat_app. set_solver.
  - apply queue_write; [done|set_solver|done].
  - rewrite Ecs, Eins. apply Forall2_app; [|constructor]; [apply chains_write|apply chain_push|apply chains_write]; set_solver.
Qed.

Lemma LRemovePrevMost_sim (s : qsys) (a : aqueue) (i : nat) (l : list Z) :
  sys_ok objs s a -> als a !! i = Some l ->
  simulated s (LRemovePrevMost i) (Seqs (aq a) (<[i := tail l]> (als a))) (hd 0 l).
Proof.
  intros Hs Hi. pose proof Hs as [Hq Hl Hd Hsub Hf].
  destruct (lists_split _ _ _ _ _ Hi Hl) as (c & cs1 & cs2 & ls1 & ls2 & Ec & Hc & Els & H1 & H2 & Ecs & Eins).
  unfold simulated. cbn [exec_op]. rewrite Ec. cbn [mbind option_bind]. destruct l as [|x l]; cbn [tail].
  - rewrite (proj2 (chain_null _ _ _ Hc) eq_refl) in Ec |- *. rewrite (remove_empty Hlayout).
    eexists. split; [done|]. rewrite !list_insert_id by done. by destruct s, a.
  - rewrite (remove_eq Hlayout _ _ _ _ Hc). eexists. split; [done|].
    unfold objects in *. rewrite Els, concat_app in Hd, Hsub. cbn in Hd, Hsub.
    assert (Hx : obj_ok x) by (apply objs_ok, Hsub; set_solver).
    rewrite Permutation_mid in Hd. apply list.NoDup_cons in Hd as [Hx' _].
    eapply (removed_ok s _ a _ x); unfold objects; cbn [mem queue heads aq als]; [done| |done| |].
    + by rewrite Eins, Els, !concat_app; cbn; rewrite Permutation_mid.
    + apply queue_write; [done|set_solver|done].
    + rewrite Ecs, Eins. apply Forall2_app; [|constructor]; [apply chains_write|by eapply chain_pop|apply chains_write]; set_solver.
Qed.

Lemma exec_op_sim (s : qsys) (a a' : aqueue) (x : qop) (r : Z) :
  sys_ok objs s a -> spec_op objs a x = Some (a', r) -> simulated s x a' r.
Proof.
  intros Hs E. destruct x as [p|p| | |i|i p|i]; cbn [spec_op] in E;
    try (destruct (als a !! i) as [l|] eqn:Hi; [|done]; cbn [mbind option_bind] in E);
    try match type of E with (if ?b then _ else _) = _ => destruct b eqn:Hb; [|done] end;
    try (rewrite ?andb_true_iff, ?bool_decide_eq_true, ?negb_true_iff, ?bool_decide_eq_false in Hb);
    try destruct_and! Hb; simplify_eq.
  - by apply QInsert_sim.
  - rewrite length_app in *. simpl in *. apply QInsert_sim; [done..|lia].
  - by apply QRemovePrevMost_sim.
  - by apply QRemoveList_sim.
  - by apply QFromList_sim.
  - by apply LInsertAsPrevMost_sim.
  - by apply LRemovePrevMost_sim.
Qed.

Lemma run_sim (xs : list qop) : forall s a a' rs, sys_ok objs s a -> run (spec_op objs) a xs = Some (a', rs) ->
  exists s', run exec_op s xs = Some (s', rs) /\ sys_ok objs s' a'.
Proof.
  induction xs as [|x xs IH]; intros s a a' rs Hs E; cbn [run] in *; [simplify_eq; eauto|].
  destruct (spec_op objs a x) as [[a1 r]|] eqn:Ex; [|done]. cbn in E.
  destruct (run (spec_op objs) a1 xs) as [[a2 rs']|] eqn:Er; [|done]. simplify_eq/=.
  destruct (exec_op_sim _ _ _ _ _ Hs Ex) as (s1 & -> & Hs1). cbn.
  destruct (IH _ _ _ _ Hs1 Er) as (s' & -> & Hs'). eauto.
Qed.

Lemma start_sys_ok : NoDup objs -> exists s, start objs = Some s /\ sys_ok objs s (Seqs [] []).
Proof.
  intros Hd. eexists. split; [done|]. split; cbn; [apply queue_empty_ok|constructor|apply NoDup_nil_2|set_solver|].
  intros p Hp _. apply elem_of_list_to_map_1'.
  - intros y (q & Hy & _)%list_elem_of_fmap. congruence.
  - apply list_elem_of_fmap. by exists p.
Qed.

Lemma queue_reads (s : qsys) (a : aqueue) : sys_ok objs s a -> reads (queue s) (aq a).
Proof.
  intros [Hq _ _ _ _]. pose proof (queue_valid Hlayout _ _ _ Hq) as Hv. unfold reads, CElements, Head, Tail, Lockless.Head.
  rewrite Hv, (queue_FEmpty Hlayout _ _ _ Hq). destruct Hq as [Hc Ht Hk _]. cbn.
  by rewrite Ht, Hk, (chain_head _ _ _ Hc).
Qed.

(** C14: one queue and any number of lock-less lists over the same objects.  For
    every sequence of insertions at either end, removals, detachments of the
    queue's whole list and constructions of a queue from a list that inserts an
    object only while it is in none of them and stays below 2^32 objects, every
    call returns (no assertion fails, no link of anything but an object is
    followed, the counting loop ends), its result is that of the same call on
    plain sequences, and afterwards FEmpty, CElements, Head and Tail of the queue
    report exactly the sequence the calls leave. *)
Theorem simple_queue_refines (xs : list qop) (a : aqueue) (rs : list Z) :
  NoDup objs -> run (spec_op objs) (Seqs [] []) xs = Some (a, rs) ->
  exists s0 s, start objs = Some s0 /\ run exec_op s0 xs = Some (s, rs) /\ reads (queue s) (aq a) /\
    length (heads s) = length (als a) /\
    forall i c l, heads s !! i = Some c -> als a !! i = Some l ->
      Lockless.Head c = hd 0 l /\ Lockless.FEmpty c = bool_decide (l = []).
Proof.
  intros Hd E. destruct (start_sys_ok Hd) as (s0 & E0 & H0). destruct (run_sim _ _ _ _ _ H0 E) as (s & Es & Hs).
  exists s0, s. split_and!; [done|done|by apply queue_reads|by eapply Forall2_length, (ok_lists _ _ _ Hs)|].
  intros i c l Hc Hl. pose proof (Forall2_lookup_lr _ _ _ _ _ _ (ok_lists _ _ _ Hs) Hc Hl) as Hch. split.
  - apply (chain_head _ _ _ Hch).
  - pose proof (chain_null _ _ _ Hch) as Hn. unfold Lockless.FEmpty. rewrite Z.eqb_sym.
    destruct (Z.eqb_spec c 0); case_bool_decide; tauto.
Qed.

End System.

Lemma simple_queue_refines_witness :
  let objs := [4096; 8192; 12288; 16384] in
  let xs := [QInsertAsNextMost 4096; QInsertAsNextMost 8192; QInsertAsPrevMost 12288; QRemovePrevMost; QRemoveList;
             LInsertAsPrevMost 0 16384; LRemovePrevMost 0; LInsertAsPrevMost 0 12288; QFromList 0; QRemovePrevMost] in
  exists s0 s, @start layout32 objs = Some s0 /\
    run (@exec_op layout32) s0 xs = Some (s, [0; 0; 0; 12288; 4096; 0; 16384; 0; 0; 12288]) /\
    reads (queue s) [4096; 8192] /\ length (heads s) = 1%nat.
Proof.
  intros objs xs. assert (Ho : Forall (@obj_ok layout32) objs).
  { repeat (apply Forall_cons_2; [unfold obj_ok; cbn; lia|]). apply Forall_nil_2. }
  destruct (@simple_queue_refines layout32 ltac:(cbn; lia) objs Ho xs (Seqs [4096; 8192] [[]])
    [0; 0; 0; 12288; 4096; 0; 16384; 0; 0; 12288]) as (s0 & s & E0 & E & Hr & Hl & _).
  - apply (bool_decide_unpack (NoDup objs)). vm_compute. exact I.
  - vm_compute. reflexivity.
  - exists s0, s. auto.
Defined.
