(* ===== verification/StupidQueue.v ===== *)
(** * StupidQueue: the circular queue of collection.hxx

    [CStupidQueue] keeps elements of [m_cbElement] bytes in a circular buffer
    that doubles when it is full.  The buffer is modelled by the elements it has
    room for, [None] for one that has not been written; the sizes and offsets are
    the 32-bit products the code computes, and an access outside the buffer,
    through a null pointer or at an offset that is not the start of an element is
    [None].  Whether an allocation succeeds is an argument of the operations.

    [fDEBUG] says whether the assertions ([AssertValid] and the other [COLLAssert]s)
    are compiled in; then one that does not hold is [None] too. *)

From S2P Require Import Prelude.

Inductive qerr := errSuccess | errInvalidParameter | errOutOfMemory | wrnEmptyQueue.

#[export] Instance qerr_eq_dec : EqDecision qerr.
Proof. solve_decision. Defined.

Record CStupidQueue := Queue {
  m_cbElement : Z; m_iHead : Z; m_iTail : Z; m_cAlloc : Z; m_rg : option (list (option Z))
}.

Section Build.
Context (fDEBUG : bool).

(** A [COLLAssert] of this class. *)
Definition q_assert (b : bool) : option unit := if fDEBUG then COLLAssert b else Some tt.

Definition AssertValid (q : CStupidQueue) : option unit :=
  q_assert (negb (m_cbElement q =? 0) && eqb (negb (m_cAlloc q =? 0)) (bool_decide (is_Some (m_rg q)))).

Definition CStupidQueue_ctor (cbElement : Z) : option CStupidQueue :=
  let q := Queue cbElement 0 0 0 None in
  _ ← AssertValid q;
  Some q.

(** [malloc] of [cb] bytes, as the elements of [cbElement] bytes that fit. *)
Definition malloc (fAlloc : bool) (cbElement cb : Z) : option (list (option Z)) :=
  if fAlloc then Some (replicate (Z.to_nat (cb / cbElement)) None) else None.

(** The byte offset of an element, and the element at a byte offset. *)
Definition PvElement (q : CStupidQueue) (iElement : Z) : option Z :=
  _ ← AssertValid q;
  _ ← q_assert (iElement <? m_cAlloc q);
  Some (u32 (iElement * m_cbElement q)).

Definition index_of (cbElement ofs : Z) : option nat :=
  if ofs mod cbElement =? 0 then Some (Z.to_nat (ofs / cbElement)) else None.

(** [memcpy] of [cb] bytes between element positions of two buffers. *)
Definition memcpy (cbElement : Z) (dst : list (option Z)) (ofsDst : Z) (src : list (option Z)) (ofsSrc cb : Z)
  : option (list (option Z)) :=
  d ← index_of cbElement ofsDst;
  s ← index_of cbElement ofsSrc;
  n ← index_of cbElement cb;
  if (d + n <=? length dst)%nat && (s + n <=? length src)%nat
  then Some (take d dst ++ slice s n src ++ drop (d + n) dst)
  else None.

Definition ErrAdjustSize (fAlloc : bool) (q : CStupidQueue) : option (qerr * CStupidQueue) :=
  let cb := m_cbElement q in
  _ ← AssertValid q;
  let cNew := u32 (m_cAlloc q * 2) in
  match malloc fAlloc cb (u32 (cb * cNew)) with
  | None => _ ← AssertValid q; Some (errOutOfMemory, q)
  | Some rgNew =>
      rg ← m_rg q;
      rgNew ← memcpy cb rgNew 0 rg 0 (u32 (m_cAlloc q * cb));
      let q := Queue cb (m_iHead q) (m_iTail q) cNew (Some rgNew) in
      if cNew / 2 =? 0 then None
      else
        let iT := u32 (m_iTail q + 1) mod (cNew / 2) in
        if negb (iT =? 0) then
          pvDst ← PvElement q (cNew / 2);
          pvSrc ← PvElement q 0;
          rgNew ← memcpy cb rgNew pvDst rgNew pvSrc (u32 (iT * cb));
          let q := Queue cb (m_iHead q) (u32 (cNew / 2 + m_iTail q)) cNew (Some rgNew) in
          _ ← q_assert (m_iTail q <? m_cAlloc q);
          _ ← AssertValid q;
          Some (errSuccess, q)
        else
          _ ← q_assert (m_iHead q =? 0);
          _ ← AssertValid q;
          Some (errSuccess, q)
  end.

(** The first allocation; the count is set before it is known to succeed. *)
Definition first_alloc (fAlloc : bool) (q : CStupidQueue) : option (qerr * CStupidQueue) :=
  if m_cAlloc q =? 0 then
    _ ← q_assert (bool_decide (m_rg q = None));
    match malloc fAlloc (m_cbElement q) (u32 (m_cbElement q * 32)) with
    | None => Some (errOutOfMemory, Queue (m_cbElement q) (m_iHead q) (m_iTail q) 32 None)
    | Some rg => Some (errSuccess, Queue (m_cbElement q) (m_iHead q) (m_iTail q) 32 (Some rg))
    end
  else Some (errSuccess, q).

Definition put (q : CStupidQueue) (pvEntry : Z) : option CStupidQueue :=
  let iTail := u32 (m_iTail q + 1) mod m_cAlloc q in
  _ ← q_assert (negb (m_iHead q =? iTail));
  pv ← PvElement (Queue (m_cbElement q) (m_iHead q) iTail (m_cAlloc q) (m_rg q)) iTail;
  rg ← m_rg q;
  i ← index_of (m_cbElement q) pv;
  if (i <? length rg)%nat
  then Some (Queue (m_cbElement q) (m_iHead q) iTail (m_cAlloc q) (Some (<[i := Some pvEntry]> rg)))
  else None.

(** The label [HandleError]. *)
Definition HandleError (err : qerr) (q : CStupidQueue) : option (qerr * CStupidQueue) :=
  _ ← AssertValid q;
  Some (err, q).

Definition ErrEnqueue (fAlloc : bool) (q : CStupidQueue) (pvEntry : Z) : option (qerr * CStupidQueue) :=
  _ ← AssertValid q;
  '(err, q) ← first_alloc fAlloc q;
  if negb (bool_decide (err = errSuccess)) then HandleError err q
  else
    '(err, q) ← (if m_iHead q =? u32 (m_iTail q + 1) mod m_cAlloc q then ErrAdjustSize fAlloc q
                 else Some (errSuccess, q));
    if negb (bool_decide (err = errSuccess)) then HandleError err q
    else
      q ← put q pvEntry;
      HandleError errSuccess q.

(** The element read is the outer [option]'s second component. *)
Definition ErrPeek (q : CStupidQueue) : option (qerr * option Z) :=
  if m_iHead q =? m_iTail q then Some (wrnEmptyQueue, None)
  else
    let iPeek := u32 (m_iHead q + 1) mod m_cAlloc q in
    pv ← PvElement q iPeek;
    rg ← m_rg q;
    i ← index_of (m_cbElement q) pv;
    v ← rg !! i;
    _ ← AssertValid q;
    Some (errSuccess, v).

Definition ErrDequeue (q : CStupidQueue) : option (qerr * option Z * CStupidQueue) :=
  '(err, v) ← ErrPeek q;
  let q := if bool_decide (err = errSuccess)
           then Queue (m_cbElement q) (u32 (m_iHead q + 1) mod m_cAlloc q) (m_iTail q) (m_cAlloc q) (m_rg q)
           else q in
  _ ← AssertValid q;
  Some (err, v, q).

Definition CStupidQueue_dtor (q : CStupidQueue) : option CStupidQueue :=
  _ ← AssertValid q;
  let q := match m_rg q with
           | Some _ => Queue (m_cbElement q) (m_iHead q) (m_iTail q) 0 None
           | None => q
           end in
  _ ← AssertValid q;
  Some (Queue (m_cbElement q) 0 0 (m_cAlloc q) (m_rg q)).

(** ** Invariant *)

(** The buffer [rg] of [n] elements holds the sequence [l] after position [head]. *)
Definition ring (rg : list (option Z)) (n head : Z) (l : list Z) : Prop :=
  Z.of_nat (length rg) = n /\
  forall j v, l !! j = Some v -> rg !! Z.to_nat ((head + 1 + Z.of_nat j) mod n) = Some (Some v).

Inductive queue_ok (q : CStupidQueue) (l : list Z) : Prop :=
  | queue_new : q = Queue (m_cbElement q) 0 0 0 None -> l = [] -> queue_ok q l
  | queue_alloc rg :
      m_rg q = Some rg -> ring rg (m_cAlloc q) (m_iHead q) l ->
      32 <= m_cAlloc q -> m_cbElement q * m_cAlloc q < 2 ^ 32 ->
      0 <= m_iHead q < m_cAlloc q -> Z.of_nat (length l) < m_cAlloc q ->
      m_iTail q = (m_iHead q + Z.of_nat (length l)) mod m_cAlloc q ->
      queue_ok q l.

Lemma valid_ok q : m_cbElement q <> 0 -> (m_cAlloc q <> 0 <-> is_Some (m_rg q)) -> AssertValid q = Some tt.
Proof.
  intros Hcb Hrg. unfold AssertValid, q_assert. destruct fDEBUG; [|done].
  rewrite (proj2 (Z.eqb_neq _ _) Hcb). cbn [negb andb].
  destruct (Z.eqb_spec (m_cAlloc q) 0) as [E|E]; [rewrite bool_decide_false|rewrite bool_decide_true]; try done; tauto.
Qed.

Lemma valid_alloc cb head tail n rg : 0 < cb -> 0 < n -> AssertValid (Queue cb head tail n (Some rg)) = Some tt.
Proof. intros Hcb Hn. apply valid_ok; cbn; [lia|]. split; [done|lia]. Qed.

Lemma assert_ok b : b = true -> q_assert b = Some tt.
Proof. intros ->. unfold q_assert. by destruct fDEBUG. Qed.

Lemma stupid_queue_valid q l : 0 < m_cbElement q -> queue_ok q l -> AssertValid q = Some tt.
Proof.
  intros Hcb Hq. apply valid_ok; [lia|]. destruct Hq as [-> _|rg Erg _ Hn _ _ _ _]; cbn.
  - split; [done|intros [? ?]; done].
  - rewrite Erg. split; [done|lia].
Qed.

Section Facts.
Context (cb : Z).
Context (cb_pos : 0 < cb).

Lemma index_of_mul (i : Z) : 0 <= i -> index_of cb (cb * i) = Some (Z.to_nat i).
Proof.
  intros Hi. unfold index_of. rewrite Z.mul_comm, Z.mod_mul, Z.div_mul by lia. done.
Qed.

Lemma index_of_element (i n : Z) :
  0 <= i -> i <= n -> cb * n < 2 ^ 32 -> index_of cb (u32 (i * cb)) = Some (Z.to_nat i).
Proof.
  intros H0 Hi Hn. unfold wrapu. rewrite Z.mod_small by nia. rewrite Z.mul_comm. by apply index_of_mul.
Qed.

Lemma n_bound (n : Z) : 0 <= n -> cb * n < 2 ^ 32 -> n < 2 ^ 32.
Proof. nia. Qed.

Lemma succ_mod (i n : Z) :
  0 <= i < n -> n < 2 ^ 32 -> u32 (i + 1) mod n = (i + 1) mod n.
Proof. intros Hi Hn. unfold wrapu. rewrite (Z.mod_small (i + 1)); [done|lia]. Qed.

(** Reading the first element, and dropping it. *)
Lemma ring_peek (rg : list (option Z)) (n head v : Z) (l : list Z) :
  ring rg n head (v :: l) -> rg !! Z.to_nat ((head + 1) mod n) = Some (Some v).
Proof. intros [_ H]. specialize (H 0%nat v eq_refl). by rewrite Z.add_0_r in H. Qed.

Lemma ring_drop (rg : list (option Z)) (n head v : Z) (l : list Z) :
  0 < n -> ring rg n head (v :: l) -> ring rg n ((head + 1) mod n) l.
Proof.
  intros Hn [Hlen H]. split; [done|]. intros j w Hj. specialize (H (S j) w Hj).
  rewrite <- H. do 2 f_equal. rewrite <- !(Z.add_assoc ((head + 1) mod n)), Zplus_mod_idemp_l. f_equal. lia.
Qed.

Lemma mod_inj (a b n : Z) : 0 <= b - a < n -> a mod n = b mod n -> a = b.
Proof.
  intros Hab E. assert ((b - a) mod n = 0) as E2.
  { rewrite Zminus_mod, E, Z.sub_diag. apply Z.mod_0_l. lia. }
  rewrite Z.mod_small in E2 by lia. lia.
Qed.

(** Writing the position after the last element appends. *)
Lemma ring_append (rg : list (option Z)) (n head v : Z) (l : list Z) :
  0 < n -> Z.of_nat (length l) + 1 < n -> ring rg n head l ->
  ring (<[Z.to_nat ((head + 1 + Z.of_nat (length l)) mod n) := Some v]> rg) n head (l ++ [v]).
Proof.
  intros Hn Hl [Hlen H]. split; [by rewrite length_insert|]. intros j w Hj.
  assert (0 <= (head + 1 + Z.of_nat (length l)) mod n < n) as Hb by (apply Z.mod_pos_bound; lia).
  destruct (decide (j = length l)) as [->|Hne].
  - rewrite lookup_app_r, Nat.sub_diag in Hj by lia. injection Hj as <-.
    rewrite list_lookup_insert_eq; [done|lia].
  - assert (j < length l)%nat as Hlt.
    { apply lookup_lt_Some in Hj. rewrite length_app in Hj. simpl in Hj. lia. }
    rewrite lookup_app_l in Hj by done. rewrite list_lookup_insert_ne; [by apply H|].
    intros E. apply Z2Nat.inj in E; [|lia|apply Z.mod_pos_bound; lia].
    symmetry in E. apply mod_inj in E; lia.
Qed.

(** Doubling a full buffer: the part before [head] is copied behind the rest. *)
Lemma ring_grow (rg : list (option Z)) (n head : Z) (l : list Z) (t : list (option Z)) :
  0 <= head < n -> Z.of_nat (length l) = n - 1 -> Z.of_nat (length t) = 2 * n ->
  ring rg n head l ->
  (forall k, 0 <= k < n -> t !! Z.to_nat k = rg !! Z.to_nat k) ->
  (forall k, 0 <= k < head -> t !! Z.to_nat (n + k) = rg !! Z.to_nat k) ->
  ring t (2 * n) head l.
Proof.
  intros Hh Hl Ht [_ H] H1 H2. split; [done|]. intros j v Hj. assert (Hjl := lookup_lt_Some _ _ _ Hj).
  specialize (H j v Hj). rewrite Z.mod_small by lia.
  destruct (Z.lt_ge_cases (head + 1 + Z.of_nat j) n) as [Hlt|Hge].
  - rewrite H1 by lia. by rewrite Z.mod_small in H by lia.
  - replace (head + 1 + Z.of_nat j) with (n + (head + 1 + Z.of_nat j - n)) by lia.
    rewrite H2 by lia. rewrite <- H. do 2 f_equal.
    replace (head + 1 + Z.of_nat j) with (head + 1 + Z.of_nat j - n + 1 * n) at 2 by lia.
    rewrite Z.mod_add by lia. symmetry. apply Z.mod_small. lia.
Qed.

Lemma lookup_splice (dst src : list (option Z)) (d s n : nat) :
  (d + n <= length dst)%nat -> (s + n <= length src)%nat ->
  length (take d dst ++ slice s n src ++ drop (d + n) dst) = length dst /\
  forall k, (take d dst ++ slice s n src ++ drop (d + n) dst) !! k =
    if decide (d <= k < d + n)%nat then src !! (s + (k - d))%nat else dst !! k.
Proof.
  intros Hd Hs. assert (length (slice s n src) = n) as Hn.
  { unfold slice. rewrite length_take, length_drop. lia. }
  split; [rewrite !length_app, length_take, length_drop, Hn; lia|]. intros k.
  destruct (decide (k < d)%nat) as [Hk|Hk].
  - rewrite lookup_app_l by (rewrite length_take; lia). rewrite lookup_take_lt by done.
    rewrite decide_False by lia. done.
  - rewrite lookup_app_r by (rewrite length_take; lia). rewrite length_take.
    replace (k - min d (length dst))%nat with (k - d)%nat by lia.
    destruct (decide (k - d < n)%nat) as [Hk2|Hk2].
    + rewrite lookup_app_l by lia. rewrite decide_True by lia.
      unfold slice. rewrite lookup_take_lt by done. by rewrite lookup_drop.
    + rewrite lookup_app_r by lia. rewrite decide_False by lia. rewrite lookup_drop. f_equal. lia.
Qed.

Lemma memcpy_ok (dst src : list (option Z)) (od os c : Z) (d s n : nat) :
  index_of cb od = Some d -> index_of cb os = Some s -> index_of cb c = Some n ->
  (d + n <= length dst)%nat -> (s + n <= length src)%nat ->
  exists t, memcpy cb dst od src os c = Some t /\ length t = length dst /\
    forall k, t !! k = if decide (d <= k < d + n)%nat then src !! (s + (k - d))%nat else dst !! k.
Proof.
  intros Ed Es En Hd Hs. unfold memcpy. rewrite Ed, Es, En. cbn [mbind option_bind].
  rewrite (proj2 (Nat.leb_le _ _) Hd), (proj2 (Nat.leb_le _ _) Hs). cbn [andb].
  destruct (lookup_splice dst src d s n Hd Hs). by eexists.
Qed.
End Facts.

(** ** Operations *)

Lemma index_of_0 (cb : Z) : index_of cb 0 = Some 0%nat.
Proof. unfold index_of. rewrite Zmod_0_l, Zdiv_0_l. done. Qed.

Lemma PvElement_ok cb head tail n rg i : 0 < cb -> 0 <= i < n ->
  PvElement (Queue cb head tail n (Some rg)) i = Some (u32 (i * cb)).
Proof. intros Hcb Hi. unfold PvElement. rewrite valid_alloc, assert_ok by (cbn; lia). done. Qed.

(** Doubling a full buffer keeps the sequence. *)
Lemma ErrAdjustSize_ok (cb head tail n : Z) (rg : list (option Z)) (l : list Z) :
  0 < cb -> ring rg n head l -> 32 <= n -> cb * (2 * n) < 2 ^ 32 -> 0 <= head < n ->
  Z.of_nat (length l) = n - 1 -> tail = (head + (n - 1)) mod n ->
  exists t, ErrAdjustSize true (Queue cb head tail n (Some rg)) =
      Some (errSuccess, Queue cb head (head + (n - 1)) (2 * n) (Some t)) /\ ring t (2 * n) head l.
Proof.
  intros Hcb Hr Hn Hbig Hh Hl Ht. assert (Hlen := proj1 Hr).
  unfold ErrAdjustSize. cbn [m_cbElement m_cAlloc m_rg m_iHead m_iTail malloc].
  rewrite valid_alloc by lia. cbn [mbind option_bind].
  assert (u32 (n * 2) = 2 * n) as -> by (unfold wrapu; rewrite Z.mod_small; nia).
  assert (u32 (cb * (2 * n)) = cb * (2 * n)) as -> by (unfold wrapu; apply Z.mod_small; nia).
  replace (cb * (2 * n) / cb) with (2 * n) by (rewrite (Z.mul_comm cb), Z.div_mul; lia).
  cbn [mbind option_bind]. set (fresh := replicate (Z.to_nat (2 * n)) None).
  assert (length fresh = Z.to_nat (2 * n)) as Hfresh by apply length_replicate.
  destruct (memcpy_ok cb fresh rg 0 0 (u32 (n * cb)) 0 0 (Z.to_nat n)) as (t1 & -> & Hlen1 & Ht1);
    [apply index_of_0..|apply (index_of_element cb Hcb n n); nia|lia|lia|].
  cbn [mbind option_bind]. replace (2 * n / 2) with n by (rewrite (Z.mul_comm 2), Z.div_mul; lia).
  rewrite (proj2 (Z.eqb_neq n 0)) by lia.
  assert (0 <= tail < n) as Htail by (subst tail; apply Z.mod_pos_bound; lia).
  rewrite succ_mod by nia.
  assert ((tail + 1) mod n = head) as ->.
  { subst tail. rewrite Zplus_mod_idemp_l. replace (head + (n - 1) + 1) with (head + 1 * n) by lia.
    rewrite Z.mod_add by lia. apply Z.mod_small. lia. }
  destruct (Z.eqb_spec head 0) as [->|Hh0]; cbn [negb].
  - rewrite assert_ok, valid_alloc by (done || lia). cbn [mbind option_bind]. exists t1. split.
    + do 3 f_equal. subst tail. rewrite Z.mod_small; lia.
    + apply (ring_grow rg n 0 l t1); try done; [lia| |lia]. intros k Hk. rewrite Ht1, decide_True by lia.
      f_equal. lia.
  - rewrite !PvElement_ok by lia. cbn [mbind option_bind]. rewrite Z.mul_0_l. change (u32 0) with 0.
    destruct (memcpy_ok cb t1 t1 (u32 (n * cb)) 0 (u32 (head * cb)) (Z.to_nat n) 0 (Z.to_nat head))
      as (t2 & -> & Hlen2 & Ht2);
      [apply (index_of_element cb Hcb n n); nia | apply index_of_0
      |apply (index_of_element cb Hcb head n); nia | lia | lia |].
    assert (u32 (n + tail) = head + (n - 1)) as ->.
    { subst tail. replace (head + (n - 1)) with (head - 1 + 1 * n) at 1 by lia. rewrite Z.mod_add by lia.
      rewrite (Z.mod_small (head - 1)) by lia. unfold wrapu. rewrite Z.mod_small; nia. }
    cbn [mbind option_bind m_iTail m_cAlloc]. rewrite assert_ok, valid_alloc by lia.
    cbn [mbind option_bind]. exists t2. split; [done|].
    apply (ring_grow rg n head l t2); try done; [lia| |].
    + intros k Hk. rewrite Ht2, decide_False, Ht1, decide_True by lia. f_equal. lia.
    + intros k Hk. rewrite Ht2, decide_True, Ht1, decide_True by lia. f_equal. lia.
Qed.

(** The position after the last element of a buffer that is not full is not the head. *)
Lemma next_not_head (head len n : Z) :
  0 <= head < n -> 0 <= len -> len + 1 < n -> negb (head =? (head + 1 + len) mod n) = true.
Proof.
  intros Hh H0 Hl. apply negb_true_iff, Z.eqb_neq. rewrite <- (Z.mod_small head n) at 1 by lia.
  intros E. apply mod_inj in E; lia.
Qed.

Lemma put_ok (cb head tail n : Z) (rg : list (option Z)) (l : list Z) (v : Z) :
  0 < cb -> ring rg n head l -> 32 <= n -> cb * n < 2 ^ 32 -> 0 <= head < n ->
  Z.of_nat (length l) + 1 < n -> tail = (head + Z.of_nat (length l)) mod n ->
  exists q, put (Queue cb head tail n (Some rg)) v = Some q /\
    m_cbElement q = cb /\ m_cAlloc q = n /\ queue_ok q (l ++ [v]).
Proof.
  intros Hcb Hr Hn Hbig Hh Hl Ht. assert (Hlen := proj1 Hr). unfold put.
  cbn [m_cbElement m_iHead m_iTail m_cAlloc m_rg].
  assert (0 <= tail < n) by (subst tail; apply Z.mod_pos_bound; lia).
  assert (n < 2 ^ 32) by nia. rewrite succ_mod by lia.
  assert ((tail + 1) mod n = (head + 1 + Z.of_nat (length l)) mod n) as ->
    by (subst tail; rewrite Zplus_mod_idemp_l; f_equal; lia).
  rewrite (assert_ok (negb _)) by (apply next_not_head; lia). cbn [mbind option_bind].
  set (i := (head + 1 + Z.of_nat (length l)) mod n).
  assert (0 <= i < n) as Hi by (apply Z.mod_pos_bound; lia).
  rewrite PvElement_ok by lia. cbn [mbind option_bind]. rewrite (index_of_element cb Hcb i n) by lia. simpl.
  rewrite (proj2 (Nat.ltb_lt _ _)) by lia. eexists. split; [done|]. split; [done|]. split; [done|].
  eapply queue_alloc; simpl; try done.
  - apply ring_append; [lia|lia|done].
  - rewrite length_app. simpl. lia.
  - unfold i. rewrite length_app. simpl. f_equal. lia.
Qed.

(** The buffer is full when the position after the last element is the head. *)
Lemma full_iff (head len n : Z) :
  0 <= head < n -> 0 <= len < n -> n < 2 ^ 32 ->
  (head =? u32 ((head + len) mod n + 1) mod n) = (len =? n - 1).
Proof.
  intros Hh Hl Hn. assert (0 <= (head + len) mod n < n) by (apply Z.mod_pos_bound; lia).
  rewrite succ_mod, Zplus_mod_idemp_l by lia.
  destruct (Z.eqb_spec len (n - 1)) as [->|Hne].
  - replace (head + (n - 1) + 1) with (head + 1 * n) by lia. rewrite Z.mod_add, Z.mod_small by lia.
    apply Z.eqb_refl.
  - apply Z.eqb_neq. rewrite <- (Z.mod_small head n) at 1 by lia. intros E. apply mod_inj in E; lia.
Qed.

(** Making room in a buffer that is full. *)
Lemma grow_ok (fAlloc : bool) (cb head tail n : Z) (rg : list (option Z)) (l : list Z) :
  0 < cb -> ring rg n head l -> 32 <= n -> cb * n < 2 ^ 32 -> 0 <= head < n ->
  Z.of_nat (length l) < n -> tail = (head + Z.of_nat (length l)) mod n ->
  cb * (2 * (Z.of_nat (length l) + 1)) < 2 ^ 32 ->
  let q := Queue cb head tail n (Some rg) in
  let r := if head =? u32 (tail + 1) mod n then ErrAdjustSize fAlloc q else Some (errSuccess, q) in
  (fAlloc = false /\ r = Some (errOutOfMemory, q)) \/
  exists tail' n' rg', r = Some (errSuccess, Queue cb head tail' n' (Some rg')) /\ ring rg' n' head l /\
    32 <= n' /\ cb * n' < 2 ^ 32 /\ 0 <= head < n' /\ Z.of_nat (length l) + 1 < n' /\
    tail' = (head + Z.of_nat (length l)) mod n'.
Proof.
  intros Hcb Hr Hn Hbig Hh Hl -> Hcap q r. unfold r. rewrite full_iff by (lia || nia).
  destruct (Z.eqb_spec (Z.of_nat (length l)) (n - 1)) as [Hfull|Hroom].
  - destruct fAlloc.
    + right. destruct (ErrAdjustSize_ok cb head ((head + Z.of_nat (length l)) mod n) n rg l Hcb Hr Hn)
        as (t & E & Ht); [lia|lia|done|by rewrite Hfull|].
      exists (head + (n - 1)), (2 * n), t. split; [done|]. split_and!; try done; try lia. rewrite Hfull, Z.mod_small; lia.
    + left. split; [done|]. unfold ErrAdjustSize, q. rewrite !valid_alloc by lia. done.
  - right. exists ((head + Z.of_nat (length l)) mod n), n, rg. split; [done|]. split_and!; done || lia.
Qed.

Lemma ErrEnqueue_alloc_ok (fAlloc : bool) (q : CStupidQueue) (rg : list (option Z)) (l : list Z) (v : Z) :
  0 < m_cbElement q -> m_rg q = Some rg -> ring rg (m_cAlloc q) (m_iHead q) l -> 32 <= m_cAlloc q ->
  m_cbElement q * m_cAlloc q < 2 ^ 32 -> 0 <= m_iHead q < m_cAlloc q -> Z.of_nat (length l) < m_cAlloc q ->
  m_iTail q = (m_iHead q + Z.of_nat (length l)) mod m_cAlloc q ->
  m_cbElement q * (2 * (Z.of_nat (length l) + 1)) < 2 ^ 32 ->
  exists err q', ErrEnqueue fAlloc q v = Some (err, q') /\ m_cbElement q' = m_cbElement q /\ m_cAlloc q' <> 0 /\
    ((err = errSuccess /\ queue_ok q' (l ++ [v])) \/ (fAlloc = false /\ err = errOutOfMemory /\ q' = q)).
Proof.
  intros Hcb Erg Hr Hn Hbig Hh Hl Ht Hcap. destruct q as [cb head tail n rg']. cbn [m_cbElement m_iHead m_iTail m_cAlloc m_rg] in *.
  subst rg'. unfold ErrEnqueue, first_alloc. rewrite valid_alloc by lia. cbn [mbind option_bind m_cAlloc].
  rewrite (proj2 (Z.eqb_neq n 0)) by lia. cbn [mbind option_bind m_iHead m_iTail m_cAlloc].
  change (negb (bool_decide (errSuccess = errSuccess))) with false. cbv iota.
  destruct (grow_ok fAlloc cb head tail n rg l Hcb Hr Hn Hbig Hh Hl Ht Hcap) as [(Hf & ->)|(tail' & n' & rg' & -> & Hr' & Hn' & Hb' & Hh' & Hl' & Ht')];
    cbn [mbind option_bind].
  - change (negb (bool_decide (errOutOfMemory = errSuccess))) with true. cbv iota. unfold HandleError.
    rewrite valid_alloc by lia. eexists _, _. split; [done|]. split; [done|]. split; [cbn; lia|]. by right.
  - change (negb (bool_decide (errSuccess = errSuccess))) with false. cbv iota.
    destruct (put_ok cb head tail' n' rg' l v Hcb Hr' Hn' Hb' Hh' Hl' Ht') as (q' & -> & Hc' & Hn2 & Hq).
    cbn [mbind option_bind]. unfold HandleError. rewrite (stupid_queue_valid q' _ ltac:(lia) Hq). cbn [mbind option_bind].
    eexists _, _. split; [done|]. split; [done|]. split; [lia|]. by left.
Qed.

Lemma ErrEnqueue_ok (fAlloc : bool) (q : CStupidQueue) (l : list Z) (v : Z) :
  0 < m_cbElement q -> m_cbElement q * 32 < 2 ^ 32 -> queue_ok q l ->
  (m_cAlloc q = 0 -> fAlloc = true) ->
  m_cbElement q * (2 * (Z.of_nat (length l) + 1)) < 2 ^ 32 ->
  exists err q', ErrEnqueue fAlloc q v = Some (err, q') /\ m_cbElement q' = m_cbElement q /\
    m_cAlloc q' <> 0 /\
    ((err = errSuccess /\ queue_ok q' (l ++ [v])) \/ (fAlloc = false /\ err = errOutOfMemory /\ q' = q)).
Proof.
  intros Hcb H32 Hq Hfirst Hcap. pose proof Hq as Hq0.
  destruct Hq as [E ->|rg Erg Hr Hn Hbig Hh Hl Ht]; [|by eapply ErrEnqueue_alloc_ok].
  unfold ErrEnqueue, first_alloc. rewrite (stupid_queue_valid q [] Hcb Hq0). clear Hq0. rewrite E in *. cbn [m_cAlloc m_cbElement m_iHead m_iTail] in *.
  rewrite (Hfirst eq_refl), assert_ok by done. cbn [mbind option_bind malloc].
  assert (u32 (m_cbElement q * 32) / m_cbElement q = 32) as ->.
  { unfold wrapu. rewrite Z.mod_small, Z.mul_comm, Z.div_mul; lia. }
  destruct (put_ok (m_cbElement q) 0 0 32 (replicate (Z.to_nat 32) None) [] v) as (q' & Eq & Hc & Hn & Hq'); try done.
  change (0 =? 0) with true. cbn [mbind option_bind m_iHead m_iTail m_cAlloc].
  change (negb (bool_decide (errSuccess = errSuccess))) with false. cbv iota. change (0 =? u32 (0 + 1) mod 32) with false.
  cbn [mbind option_bind]. change (negb (bool_decide (errSuccess = errSuccess))) with false. cbv iota. rewrite Eq.
  cbn [mbind option_bind]. unfold HandleError. rewrite (stupid_queue_valid q' _ ltac:(lia) Hq'). cbn [mbind option_bind].
  eexists _, _. split; [done|]. split; [done|]. split; [lia|]. by left.
Qed.

Lemma ErrPeek_ok (q : CStupidQueue) (l : list Z) :
  0 < m_cbElement q -> queue_ok q l ->
  ErrPeek q = Some (match l with [] => (wrnEmptyQueue, None) | v :: _ => (errSuccess, Some v) end).
Proof.
  intros Hcb [-> ->|rg Erg Hr Hn Hbig Hh Hl Ht]; [done|]. unfold ErrPeek. rewrite Ht.
  assert (m_cAlloc q < 2 ^ 32) by nia.
  destruct l as [|v l].
  - rewrite Z.add_0_r, Z.mod_small by lia. by rewrite Z.eqb_refl.
  - replace (m_iHead q =? _) with false.
    2: { symmetry. apply Z.eqb_neq. rewrite <- (Z.mod_small (m_iHead q) (m_cAlloc q)) at 1 by lia.
         intros E. apply mod_inj in E; simpl in *; lia. }
    pose proof (queue_alloc q (v :: l) rg Erg Hr Hn Hbig Hh Hl Ht) as Hq. rewrite succ_mod by lia.
    assert (0 <= (m_iHead q + 1) mod m_cAlloc q < m_cAlloc q) by (apply Z.mod_pos_bound; lia).
    unfold PvElement. rewrite (stupid_queue_valid q _ Hcb Hq), assert_ok by lia. rewrite Erg. cbn [mbind option_bind].
    rewrite (index_of_element _ Hcb _ (m_cAlloc q)) by lia. cbn [mbind option_bind].
    rewrite (ring_peek rg (m_cAlloc q) (m_iHead q) v l) by done. done.
Qed.

Lemma ErrDequeue_ok (q : CStupidQueue) (l : list Z) :
  0 < m_cbElement q -> queue_ok q l ->
  exists q', ErrDequeue q =
      Some (match l with [] => (wrnEmptyQueue, None) | v :: _ => (errSuccess, Some v) end, q') /\
    m_cbElement q' = m_cbElement q /\ m_cAlloc q' = m_cAlloc q /\ queue_ok q' (tail l).
Proof.
  intros Hcb Hq. unfold ErrDequeue. rewrite (ErrPeek_ok q l Hcb Hq). destruct l as [|v l]; cbn [mbind option_bind].
  - change (bool_decide (wrnEmptyQueue = errSuccess)) with false. cbv iota. rewrite (stupid_queue_valid q [] Hcb Hq). by exists q.
  - change (bool_decide (errSuccess = errSuccess)) with true. cbv iota.
    assert (Hq' : queue_ok (Queue (m_cbElement q) (u32 (m_iHead q + 1) mod m_cAlloc q) (m_iTail q) (m_cAlloc q) (m_rg q)) l).
    { destruct Hq as [_ ?|rg Erg Hr Hn Hbig Hh Hl Ht]; [done|]. simpl in Hl, Ht.
      assert (m_cAlloc q < 2 ^ 32) by nia. rewrite succ_mod by lia. eapply (queue_alloc _ _ rg); simpl; try done.
      + eapply ring_drop; [lia|exact Hr].
      + apply Z.mod_pos_bound. lia.
      + lia.
      + rewrite Ht, Zplus_mod_idemp_l. f_equal. lia. }
    pose proof (fun H => stupid_queue_valid _ l H Hq') as Hv. cbn [m_cbElement] in Hv. rewrite Hv by done.
    eexists. split; [done|]. by split_and!.
Qed.

(** ** Sequences of calls *)

Inductive qop := Enqueue (fAlloc : bool) (v : Z) | Dequeue | Peek.

Definition qstep (q : CStupidQueue) (x : qop) : option (CStupidQueue * (qerr * option Z)) :=
  match x with
  | Enqueue fAlloc v => '(err, q) ← ErrEnqueue fAlloc q v; Some (q, (err, None))
  | Dequeue => '(err, v, q) ← ErrDequeue q; Some (q, (err, v))
  | Peek => '(err, v) ← ErrPeek q; Some (q, (err, v))
  end.

Fixpoint qrun (q : CStupidQueue) (xs : list qop) : option (CStupidQueue * list (qerr * option Z)) :=
  match xs with
  | [] => Some (q, [])
  | x :: xs => '(q, r) ← qstep q x; '(q, rs) ← qrun q xs; Some (q, r :: rs)
  end.

(** What a first-in first-out queue answers; an enqueue whose allocation would
    fail may be refused. *)
Definition front (l : list Z) : qerr * option Z :=
  match l with [] => (wrnEmptyQueue, None) | v :: _ => (errSuccess, Some v) end.

Inductive fifo : list Z -> list qop -> list (qerr * option Z) -> list Z -> Prop :=
  | fifo_nil l : fifo l [] [] l
  | fifo_enqueue l fAlloc v xs rs l' :
      fifo (l ++ [v]) xs rs l' -> fifo l (Enqueue fAlloc v :: xs) ((errSuccess, None) :: rs) l'
  | fifo_refuse l v xs rs l' :
      fifo l xs rs l' -> fifo l (Enqueue false v :: xs) ((errOutOfMemory, None) :: rs) l'
  | fifo_dequeue l xs rs l' : fifo (tail l) xs rs l' -> fifo l (Dequeue :: xs) (front l :: rs) l'
  | fifo_peek l xs rs l' : fifo l xs rs l' -> fifo l (Peek :: xs) (front l :: rs) l'.

(** The first enqueue's allocation succeeds. *)
Fixpoint first_allocates (xs : list qop) : bool :=
  match xs with
  | [] => true
  | Enqueue fAlloc _ :: _ => fAlloc
  | _ :: xs => first_allocates xs
  end.

Definition is_enqueue (x : qop) : bool := match x with Enqueue _ _ => true | _ => false end.

(** The calls the class can serve when the first allocation failed: no enqueue follows
    it.  With assertions, [AssertValid] stops at the failure itself. *)
Fixpoint usable (xs : list qop) : bool :=
  match xs with
  | [] => true
  | Enqueue true _ :: _ => true
  | Enqueue false _ :: xs => negb fDEBUG && forallb (fun x => negb (is_enqueue x)) xs
  | _ :: xs => usable xs
  end.

Lemma qrun_fifo (xs : list qop) (q : CStupidQueue) (l : list Z) :
  0 < m_cbElement q -> queue_ok q l -> (m_cAlloc q = 0 -> first_allocates xs = true) ->
  m_cbElement q * (2 * (Z.of_nat (length l + length xs)) + 32) < 2 ^ 32 ->
  exists q' rs l', qrun q xs = Some (q', rs) /\ fifo l xs rs l' /\ queue_ok q' l'.
Proof.
  revert q l. induction xs as [|x xs IH]; intros q l Hcb Hq Hf Hb; [by eexists _, _, _; split_and!; [|constructor|]|].
  simpl in Hb. destruct x as [fAlloc v| |]; simpl in Hf; cbn [qrun qstep].
  - destruct (ErrEnqueue_ok fAlloc q l v) as (err & q1 & -> & Hcb1 & Hal & Hr); [done|nia|done|done|nia|].
    cbn [mbind option_bind]. destruct Hr as [[-> Hq1]|(-> & -> & ->)].
    + destruct (IH q1 (l ++ [v])) as (q2 & rs & l' & -> & ? & ?); [lia|done|done|rewrite length_app; simpl; nia|].
      eexists _, _, _. split_and!; [done|by constructor|done].
    + destruct (IH q l) as (q2 & rs & l' & -> & ? & ?); [done..|nia|].
      eexists _, _, _. split_and!; [done|by constructor|done].
  - destruct (ErrDequeue_ok q l Hcb Hq) as (q1 & -> & Hcb1 & Hal & Hq1).
    destruct (IH q1 (tail l)) as (q2 & rs & l' & E & ? & ?); [lia|done|by rewrite Hal| |].
    { assert (length (tail l) <= length l)%nat by (destruct l; simpl; lia). nia. }
    eexists q2, (front l :: rs), l'. destruct l; cbn [mbind option_bind front]; rewrite E;
      (split_and!; [done|by constructor|done]).
  - rewrite (ErrPeek_ok q l Hcb Hq).
    destruct (IH q l) as (q2 & rs & l' & E & ? & ?); [done..|nia|].
    eexists q2, (front l :: rs), l'. destruct l; cbn [mbind option_bind front]; rewrite E;
      (split_and!; [done|by constructor|done]).
Qed.

(** The state after a failed first allocation. *)
Definition no_buffer (cb : Z) : CStupidQueue := Queue cb 0 0 32 None.

Lemma first_refused cb v : 0 < cb ->
  ErrEnqueue false (Queue cb 0 0 0 None) v = if fDEBUG then None else Some (errOutOfMemory, no_buffer cb).
Proof.
  intros Hcb. unfold ErrEnqueue. rewrite (stupid_queue_valid _ []) by (done || by apply queue_new).
  cbn [mbind option_bind]. unfold first_alloc, HandleError, AssertValid, q_assert. cbn [m_cAlloc m_rg m_cbElement].
  destruct fDEBUG; [|done]. cbn. by destruct (negb (cb =? 0)).
Qed.

(** Without a buffer the queue is empty, and an enqueue fails. *)
Lemma no_buffer_run cb xs : fDEBUG = false ->
  if forallb (fun x => negb (is_enqueue x)) xs
  then exists rs, qrun (no_buffer cb) xs = Some (no_buffer cb, rs) /\ fifo [] xs rs []
  else qrun (no_buffer cb) xs = None.
Proof.
  intros Hd. induction xs as [|x xs IH]; [exists []; split; [done|constructor]|].
  assert (HA : forall q, AssertValid q = Some tt) by (intros q; unfold AssertValid, q_assert; by rewrite Hd).
  destruct x as [fAlloc v| |]; cbn [forallb is_enqueue negb andb qrun qstep].
  - unfold ErrEnqueue, first_alloc, put, PvElement, q_assert. rewrite Hd, !HA. cbn [mbind option_bind m_cAlloc no_buffer].
    change (32 =? 0) with false. cbn [mbind option_bind m_iHead m_iTail m_cAlloc no_buffer m_rg].
    change (0 =? u32 (0 + 1) mod 32) with false. cbn [mbind option_bind m_rg]. by rewrite !HA.
  - assert (E : ErrDequeue (no_buffer cb) = Some (wrnEmptyQueue, None, no_buffer cb))
      by (unfold ErrDequeue, ErrPeek; cbn; by rewrite HA).
    rewrite E. cbn [mbind option_bind]. destruct (forallb _ _); [|by rewrite IH].
    destruct IH as (rs & -> & Hf). eexists. split; [done|]. by apply (fifo_dequeue []).
  - change (ErrPeek (no_buffer cb)) with (Some (wrnEmptyQueue, @None Z)). cbn [mbind option_bind].
    destruct (forallb _ _); [|by rewrite IH].
    destruct IH as (rs & -> & Hf). eexists. split; [done|]. by apply (fifo_peek []).
Qed.

Lemma first_allocates_usable xs : first_allocates xs = true -> usable xs = true.
Proof. induction xs as [|[[] v| |] xs IH]; cbn; try done; auto. Qed.

(** The first allocation fails. *)
Lemma refused_run cb xs : 0 < cb -> first_allocates xs = false ->
  let q0 := Queue cb 0 0 0 None in
  if usable xs then exists q rs l, qrun q0 xs = Some (q, rs) /\ fifo [] xs rs l else qrun q0 xs = None.
Proof.
  intros Hcb Hf q0. assert (H0 : queue_ok q0 []) by (by apply queue_new).
  induction xs as [|x xs IH]; [done|]. destruct x as [fAlloc v| |]; cbn [first_allocates] in Hf; cbn [usable qrun qstep].
  - subst fAlloc. unfold q0. rewrite first_refused by done. destruct fDEBUG eqn:Hd; [done|]. cbn [negb andb mbind option_bind].
    pose proof (no_buffer_run cb xs Hd) as H. destruct (forallb _ _); [|by rewrite H].
    destruct H as (rs & -> & Hr). eexists _, _, _. split; [done|]. by constructor.
  - assert (E : ErrDequeue q0 = Some (wrnEmptyQueue, None, q0)).
    { unfold ErrDequeue. change (ErrPeek q0) with (Some (wrnEmptyQueue, @None Z)). cbn [mbind option_bind].
      change (bool_decide (wrnEmptyQueue = errSuccess)) with false. cbv iota. by rewrite (stupid_queue_valid q0 [] Hcb H0). }
    rewrite E. cbn [mbind option_bind]. specialize (IH Hf). destruct (usable xs); [|by rewrite IH].
    destruct IH as (q & rs & l & -> & Hr). eexists _, _, _. split; [done|]. by apply (fifo_dequeue []).
  - change (ErrPeek q0) with (Some (wrnEmptyQueue, @None Z)). cbn [mbind option_bind].
    specialize (IH Hf). destruct (usable xs); [|by rewrite IH].
    destruct IH as (q & rs & l & -> & Hr). eexists _, _, _. split; [done|]. by apply (fifo_peek []).
Qed.
End Build.

(** ** The claims *)

(** C38: When the circular queue is first-in first-out.  For elements of [cb] bytes, any
    sequence of calls and any outcome of each allocation, in the build with assertions
    and in the one without, provided that the largest buffer the calls can need is
    smaller than 2^32 bytes ([m_cbElement * m_cAlloc] is a 32-bit product and is not
    checked): if the calls are [usable], every call stays inside its buffer, no
    assertion fails and every call answers as a queue of the elements does, through
    wrapping around and doubling, and an enqueue is refused with errOutOfMemory only
    when its allocation fails, and then leaves the elements as they were.  They are
    not [usable] only when the very first allocation fails; then the assertions fail,
    and without them the next enqueue writes through the null pointer. *)
Theorem queue_is_fifo (fDEBUG : bool) (cb : Z) (xs : list qop) :
  0 < cb -> cb * (2 * Z.of_nat (length xs) + 32) < 2 ^ 32 ->
  exists q0, CStupidQueue_ctor fDEBUG cb = Some q0 /\
  if usable fDEBUG xs
  then exists q rs l, qrun fDEBUG q0 xs = Some (q, rs) /\ fifo [] xs rs l /\
         (first_allocates xs = true -> queue_ok q l)
  else qrun fDEBUG q0 xs = None /\ first_allocates xs = false.
Proof.
  intros Hcb Hb. exists (Queue cb 0 0 0 None).
  assert (H0 : queue_ok (Queue cb 0 0 0 None) []) by (by apply queue_new).
  split; [unfold CStupidQueue_ctor; by rewrite (stupid_queue_valid fDEBUG (Queue cb 0 0 0 None) [] Hcb H0)|].
  destruct (first_allocates xs) eqn:Hf.
  - rewrite (first_allocates_usable fDEBUG xs Hf).
    destruct (qrun_fifo fDEBUG xs (Queue cb 0 0 0 None) []) as (q & rs & l & E & Hl & Hq); [done..|exact Hb|]. by exists q, rs, l.
  - pose proof (refused_run fDEBUG cb xs Hcb Hf) as H. cbv zeta in H. destruct (usable fDEBUG xs); [|done].
    destruct H as (q & rs & l & E & Hl). by exists q, rs, l.
Qed.

(** A run through the doubling and the end of the buffer, with a refused enqueue, in
    both builds; and a first allocation that fails, after which an enqueue is lost. *)
Lemma queue_is_fifo_witness :
  let xs := Peek :: (Enqueue true <$> seqZ 1 31) ++ [Enqueue false 99; Dequeue; Dequeue] ++
            (Enqueue true <$> seqZ 32 10) ++ [Dequeue; Peek] in
  let q0 := Queue 8 0 0 0 None in
  0 < 8 /\ 8 * (2 * Z.of_nat (length xs) + 32) < 2 ^ 32 /\
  (forall fDEBUG, exists q rs l, qrun fDEBUG q0 xs = Some (q, rs) /\ fifo [] xs rs l /\ queue_ok q l) /\
  (drop 32 <$> (snd <$> qrun true q0 xs)) =
    Some ([(errOutOfMemory, None); (errSuccess, Some 1); (errSuccess, Some 2)] ++
          replicate 10 (errSuccess, None) ++ [(errSuccess, Some 3); (errSuccess, Some 4)]) /\
  (exists q rs l, qrun false q0 [Enqueue false 7; Peek] = Some (q, rs) /\ fifo [] [Enqueue false 7; Peek] rs l) /\
  qrun false q0 [Enqueue false 7; Enqueue true 7] = None.
Proof.
  intros xs q0. assert (8 * (2 * Z.of_nat (length xs) + 32) < 2 ^ 32) as Hb by (vm_compute; reflexivity).
  split; [lia|]. split; [exact Hb|]. split; [|split; [|split]].
  - intros fDEBUG. destruct (queue_is_fifo fDEBUG 8 xs ltac:(lia) Hb) as (q1 & E & H).
    assert (q1 = q0) as -> by (destruct fDEBUG; injection E; auto).
    assert (Hu : usable fDEBUG xs = true) by reflexivity. rewrite Hu in H.
    destruct H as (q & rs & l & E1 & H1 & H2). exists q, rs, l. split; [exact E1|]. split; [exact H1|]. by apply H2.
  - vm_compute. reflexivity.
  - destruct (queue_is_fifo false 8 [Enqueue false 7; Peek] ltac:(lia) ltac:(cbn; lia)) as (q1 & [= <-] & H).
    destruct H as (q & rs & l & E1 & H1 & _). by exists q, rs, l.
  - destruct (queue_is_fifo false 8 [Enqueue false 7; Enqueue true 7] ltac:(lia) ltac:(cbn; lia)) as (q1 & [= <-] & H).
    exact (proj1 H).
Defined.
