(* ===== verification/DynArray.v ===== *)
(** * DynArray: the growable array of collection.hxx

    [CArray< CEntry >] owns a buffer of [m_centryMax] entries of which the first
    [m_centry] are in use.  The entry type is arbitrary; [fresh i] is what entry
    [i] of a new buffer holds, [entryDefault] what a value-initialised entry
    holds, and whether [new] succeeds is an argument.  Counts are 64-bit
    [size_t]s; accessing an entry through a null pointer or outside the buffer is
    [None].  [qsort] and [bsearch] are parameters, with the contract the C
    standard gives them. *)

From Stdlib Require Import Sorting.Sorted.
From stdpp Require Import sorting.
From S2P Require Import Prelude.

Inductive aerr := errSuccess | errOutOfMemory.

#[export] Instance aerr_eq_dec : EqDecision aerr.
Proof. solve_decision. Defined.

Definition SIZE_MAX : Z := 2 ^ 64 - 1.

Definition iEntryNotFound : Z := SIZE_MAX.

Record CArray (E : Type) := Array {
  m_centry : Z; m_centryMax : Z; m_rgentry : option (list E);
  m_entryDefault : E; m_fEntryDefault : bool; m_centryGrowth : Z
}.
Arguments Array {E}.
Arguments m_centry {E}.
Arguments m_centryMax {E}.
Arguments m_rgentry {E}.
Arguments m_entryDefault {E}.
Arguments m_fEntryDefault {E}.
Arguments m_centryGrowth {E}.

Section Operations.
Context {E : Type} (fresh : nat -> E) (entryDefault : E).

Definition CArray_ctor : CArray E := Array 0 0 None entryDefault false 1.

Definition SetCapacityGrowth (a : CArray E) (centryGrowth : Z) : CArray E :=
  Array (m_centry a) (m_centryMax a) (m_rgentry a) (m_entryDefault a) (m_fEntryDefault a)
    (if centryGrowth =? 0 then 1 else centryGrowth).

Definition CArray_ctor_growth (centryGrowth : Z) : CArray E :=
  SetCapacityGrowth (Array 0 0 None entryDefault false 0) centryGrowth.

Definition Size (a : CArray E) : Z := m_centry a.

Definition Capacity (a : CArray E) : Z := m_centryMax a.

(** The index an entry pointer stands for, [None] for null. *)
Definition PEntry (a : CArray E) (ientry : Z) : option Z :=
  if ientry <? m_centry a then Some ientry else None.

Definition Entry (a : CArray E) (ientry : Z) : option E :=
  p ← PEntry a ientry; rg ← m_rgentry a; rd rg p.

(** [new CEntry[ n ]]. *)
Definition new_array (fAlloc : bool) (n : Z) : option (list E) :=
  if fAlloc then Some (fresh <$> seq 0 (Z.to_nat n)) else None.

(** The loop that copies the entries [i], ..., [i + n - 1] of [a] to the buffer [rg]. *)
Fixpoint copy_entries (n : nat) (a : CArray E) (i : Z) (rg : list E) : option (list E) :=
  match n with
  | O => Some rg
  | S n => x ← Entry a i; rg ← wr rg i x; copy_entries n a (i + 1) rg
  end.

Definition ErrSetCapacity (fAlloc : bool) (a : CArray E) (centryMax : Z) : option (aerr * CArray E) :=
  if negb (m_centryMax a =? centryMax) then
    if negb (centryMax =? 0) then
      match new_array fAlloc centryMax with
      | None => Some (errOutOfMemory, a)
      | Some rgentryNew =>
          let centry := if m_centry a >? centryMax then centryMax else m_centry a in
          let a := Array centry (m_centryMax a) (m_rgentry a) (m_entryDefault a) (m_fEntryDefault a) (m_centryGrowth a) in
          rgentryNew ← copy_entries (Z.to_nat centry) a 0 rgentryNew;
          Some (errSuccess, Array centry centryMax (Some rgentryNew) (m_entryDefault a) (m_fEntryDefault a) (m_centryGrowth a))
      end
    else Some (errSuccess, Array 0 0 None (m_entryDefault a) (m_fEntryDefault a) (m_centryGrowth a))
  else Some (errSuccess, a).

(** The loop that sets the entries [i], ..., [i + n - 1] to the default. *)
Fixpoint fill_default (n : nat) (x : E) (i : Z) (rg : list E) : option (list E) :=
  match n with
  | O => Some rg
  | S n => rg ← wr rg i x; fill_default n x (i + 1) rg
  end.

(** The capacity [ErrSetSize] asks for. *)
Definition grown (centryMax centryGrowth centry : Z) : Z :=
  let centryT := u64 (centryMax + u64 (u64 (centry - centryMax - 1) / centryGrowth * centryGrowth)) in
  if centryT <=? u64 (SIZE_MAX - centryGrowth) then u64 (centryT + centryGrowth) else centry.

Definition ErrSetSize (fAlloc : bool) (a : CArray E) (centry : Z) : option (aerr * CArray E) :=
  '(err, a) ← (if m_centryMax a <? centry
               then ErrSetCapacity fAlloc a (grown (m_centryMax a) (m_centryGrowth a) centry)
               else Some (errSuccess, a));
  if negb (bool_decide (err = errSuccess)) then Some (err, a)
  else
    rg ← (if m_fEntryDefault a && (centry >? m_centry a)
          then rg ← m_rgentry a; rg ← fill_default (Z.to_nat (centry - m_centry a)) (m_entryDefault a) (m_centry a) rg;
               Some (Some rg)
          else Some (m_rgentry a));
    Some (errSuccess, Array centry (m_centryMax a) rg (m_entryDefault a) (m_fEntryDefault a) (m_centryGrowth a)).

Definition SetEntryDefault (a : CArray E) (entry : E) : CArray E :=
  Array (m_centry a) (m_centryMax a) (m_rgentry a) entry true (m_centryGrowth a).

(** Writing through an entry pointer. *)
Definition SetEntry (a : CArray E) (pentry : option Z) (entry : E) : option (CArray E) :=
  p ← pentry; rg ← m_rgentry a; rg ← wr rg p entry;
  Some (Array (m_centry a) (m_centryMax a) (Some rg) (m_entryDefault a) (m_fEntryDefault a) (m_centryGrowth a)).

Definition ErrSetEntry (fAlloc : bool) (a : CArray E) (ientry : Z) (entry : E) : option (aerr * CArray E) :=
  let centryReq := u64 (ientry + 1) in
  '(err, a) ← (if m_centry a <? centryReq then ErrSetSize fAlloc a centryReq else Some (errSuccess, a));
  if negb (bool_decide (err = errSuccess)) then Some (err, a)
  else a ← SetEntry a (PEntry a ientry) entry; Some (errSuccess, a).

Definition ErrClone (fAlloc : bool) (a array : CArray E) : option (aerr * CArray E) :=
  match (if negb (m_centryMax array =? 0) then Some <$> new_array fAlloc (m_centryMax array) else Some None) with
  | None => Some (errOutOfMemory, a)
  | Some rgentryNew =>
      rgentryNew ← (match rgentryNew with
                    | None => if Size array =? 0 then Some None else None
                    | Some rg => Some <$> copy_entries (Z.to_nat (Size array)) array 0 rg
                    end);
      Some (errSuccess, Array (m_centry array) (m_centryMax array) rgentryNew
        (m_entryDefault array) (m_fEntryDefault array) (m_centryGrowth array))
  end.

Definition CArray_dtor (fAlloc : bool) (a : CArray E) : option (aerr * CArray E) := ErrSetCapacity fAlloc a 0.

(** ** Sorting and searching *)

Context (qsort : (E -> E -> Z) -> list E -> list E).
Context (bsearch : (E -> E -> Z) -> E -> list E -> option nat).

Definition Sort (a : CArray E) (pfnCompare : E -> E -> Z) : CArray E :=
  match m_rgentry a with
  | None => a
  | Some rg =>
      let n := Z.to_nat (m_centry a) in
      Array (m_centry a) (m_centryMax a) (Some (qsort pfnCompare (take n rg) ++ drop n rg))
        (m_entryDefault a) (m_fEntryDefault a) (m_centryGrowth a)
  end.

(** The loop of [SortAndRemoveDuplicates] over the [n] entries from [i] on; [u] is
    the index of [pEntryUnique]. *)
Fixpoint unique_loop (pfnCompare : E -> E -> Z) (n : nat) (i u : Z) (rg : list E) : option (Z * list E) :=
  match n with
  | O => Some (u, rg)
  | S n =>
      x ← rd rg u;
      y ← rd rg i;
      if negb (pfnCompare x y =? 0)
      then rg ← wr rg (u + 1) y; unique_loop pfnCompare n (i + 1) (u + 1) rg
      else unique_loop pfnCompare n (i + 1) u rg
  end.

Definition SortAndRemoveDuplicates (fAlloc : bool) (a : CArray E) (pfnCompare : E -> E -> Z)
  : option (aerr * CArray E) :=
  let a := Sort a pfnCompare in
  let cInitialSize := m_centry a in
  '(u, rg) ← (match m_rgentry a with
              | None => if cInitialSize =? 0 then Some (0, None) else None
              | Some rg => '(u, rg) ← unique_loop pfnCompare (Z.to_nat cInitialSize) 0 0 rg; Some (u, Some rg)
              end);
  let a := Array (m_centry a) (m_centryMax a) rg (m_entryDefault a) (m_fEntryDefault a) (m_centryGrowth a) in
  ErrSetSize fAlloc a (Z.min cInitialSize (u + 1)).

Fixpoint linear_loop (pfnCompare : E -> E -> Z) (entrySearch : E) (n : nat) (i : Z) (rg : list E) : option Z :=
  match n with
  | O => Some iEntryNotFound
  | S n =>
      y ← rd rg i;
      if pfnCompare entrySearch y =? 0 then Some i else linear_loop pfnCompare entrySearch n (i + 1) rg
  end.

Definition SearchLinear (a : CArray E) (entrySearch : E) (pfnCompare : E -> E -> Z) : option Z :=
  match m_rgentry a with
  | None => Some iEntryNotFound
  | Some rg => linear_loop pfnCompare entrySearch (Z.to_nat (m_centry a)) 0 rg
  end.

Definition SearchBinary (a : CArray E) (entrySearch : E) (pfnCompare : E -> E -> Z) : Z :=
  match m_rgentry a with
  | None => iEntryNotFound
  | Some rg =>
      match bsearch pfnCompare entrySearch (take (Z.to_nat (m_centry a)) rg) with
      | None => iEntryNotFound
      | Some i => Z.of_nat i
      end
  end.
End Operations.
