(* ===== verification/DynArrayProofs.v ===== *)
(** * DynArrayProofs: the growable array as a sequence of entries

    The array holds the sequence [view a].  Growing keeps it and asks for a
    capacity that is large enough, computed without overflow; setting an entry,
    sorting with removal of duplicates and searching act on the sequence. *)

From Stdlib Require Import Sorting.Sorted Sorting.Permutation.
From stdpp Require Import sorting sets.
From S2P Require Import Prelude DynArray.

(** ** Writing a run of entries *)

Definition put_at {A} (i : nat) (xs rg : list A) : list A := take i rg ++ xs ++ drop (i + length xs) rg.

Lemma put_at_cons {A} (i : nat) (x : A) (xs rg : list A) :
  (i < length rg)%nat -> put_at (S i) xs (<[i := x]> rg) = put_at i (x :: xs) rg.
Proof.
  intros Hi. unfold put_at. simpl. rewrite (take_S_r _ _ x) by (by apply list_lookup_insert_eq).
  rewrite take_insert_ge by lia. rewrite <- app_assoc. simpl.
  rewrite drop_insert_lt by lia. do 4 f_equal. lia.
Qed.

Lemma put_at_nil {A} (i : nat) (rg : list A) : put_at i [] rg = rg.
Proof. unfold put_at. simpl. rewrite Nat.add_0_r. apply take_drop. Qed.

Lemma length_put_at {A} (i : nat) (xs rg : list A) :
  (i + length xs <= length rg)%nat -> length (put_at i xs rg) = length rg.
Proof. intros H. unfold put_at. rewrite !length_app, length_take, length_drop. lia. Qed.

Lemma wr_nat {A} (l : list A) (i : nat) (x : A) :
  (i < length l)%nat -> wr l (Z.of_nat i) x = Some (<[i := x]> l).
Proof.
  intros H. unfold wr. rewrite (proj2 (Z.leb_le 0 _)), (proj2 (Z.ltb_lt _ _)) by lia.
  simpl. by rewrite Nat2Z.id.
Qed.

Lemma rd_nat {A} (l : list A) (i : nat) : rd l (Z.of_nat i) = l !! i.
Proof. unfold rd. rewrite (proj2 (Z.leb_le 0 _)) by lia. by rewrite Nat2Z.id. Qed.

(** The capacity asked for: at least [c], less than one growth step above it, and
    never more than a [size_t] holds. *)
Lemma grown_ok (m g c : Z) :
  0 <= m < c -> c <= SIZE_MAX -> 1 <= g <= SIZE_MAX ->
  c <= grown m g c < c + g /\ grown m g c <= SIZE_MAX.
Proof.
  unfold grown, SIZE_MAX. intros Hm Hc Hg. pose proof (Z.mod_pos_bound (c - m - 1) g ltac:(lia)) as Hr.
  pose proof (Z.div_mod (c - m - 1) g ltac:(lia)) as Hd.
  set (k := (c - m - 1) / g) in *. assert (0 <= k) by (apply Z.div_pos; lia).
  assert (0 <= k * g <= c - m - 1) by nia. unfold wrapu.
  rewrite (Z.mod_small (c - m - 1)) by lia. fold k. rewrite (Z.mod_small (k * g)) by lia.
  rewrite (Z.mod_small (m + k * g)) by lia. rewrite (Z.mod_small (2 ^ 64 - 1 - g)) by lia.
  destruct (Z.leb_spec (m + k * g) (2 ^ 64 - 1 - g)); [|lia].
  rewrite Z.mod_small by lia. nia.
Qed.

Section Array.
Context {E : Type} (fresh : nat -> E) (entryDefault : E).

Definition array_ok (a : CArray E) : Prop :=
  0 <= m_centry a <= m_centryMax a /\ m_centryMax a <= SIZE_MAX /\ 1 <= m_centryGrowth a <= SIZE_MAX /\
  match m_rgentry a with
  | None => m_centryMax a = 0
  | Some rg => Z.of_nat (length rg) = m_centryMax a /\ 0 < m_centryMax a
  end.

(** The entries in use. *)
Definition view (a : CArray E) : list E :=
  match m_rgentry a with None => [] | Some rg => take (Z.to_nat (m_centry a)) rg end.

Lemma array_ctor_ok : array_ok (CArray_ctor entryDefault) /\ view (CArray_ctor entryDefault) = [].
Proof. unfold array_ok, SIZE_MAX. simpl. split; [lia|done]. Qed.

Lemma length_view (a : CArray E) : array_ok a -> Z.of_nat (length (view a)) = Size a.
Proof.
  unfold array_ok, view, Size. intros (H1 & _ & _ & H). destruct (m_rgentry a); simpl; [|lia].
  rewrite length_take. lia.
Qed.

Lemma Entry_view (a : CArray E) (i : nat) :
  array_ok a -> Z.of_nat i < Size a -> Entry a (Z.of_nat i) = view a !! i.
Proof.
  unfold array_ok, Entry, PEntry, view, Size. intros (H1 & _ & _ & H) Hi.
  rewrite (proj2 (Z.ltb_lt _ _) Hi). cbn [mbind option_bind]. destruct (m_rgentry a) as [rg|]; [|simpl; lia].
  cbn [mbind option_bind]. rewrite rd_nat. symmetry. apply lookup_take_lt. lia.
Qed.

Lemma copy_entries_ok (n i : nat) (a : CArray E) (src rg : list E) :
  m_rgentry a = Some src -> Z.of_nat (i + n) <= m_centry a -> m_centry a <= Z.of_nat (length src) ->
  (i + n <= length rg)%nat ->
  copy_entries n a (Z.of_nat i) rg = Some (put_at i (slice i n src) rg).
Proof.
  revert i rg. induction n as [|n IH]; intros i rg Ha Hi Hs Hr;
    [unfold slice; by rewrite take_0, put_at_nil|].
  cbn [copy_entries]. unfold Entry, PEntry. rewrite (proj2 (Z.ltb_lt _ _)) by lia.
  rewrite Ha. cbn [mbind option_bind]. rewrite rd_nat.
  destruct (lookup_lt_is_Some_2 src i) as [x Hx]; [lia|]. rewrite Hx. cbn [mbind option_bind].
  rewrite wr_nat by lia. cbn [mbind option_bind]. replace (Z.of_nat i + 1) with (Z.of_nat (S i)) by lia.
  rewrite IH; [|done|lia|lia|rewrite length_insert; lia]. rewrite put_at_cons by lia.
  f_equal. f_equal. unfold slice. by rewrite (drop_S _ _ _ Hx).
Qed.

Lemma fill_default_ok (n i : nat) (x : E) (rg : list E) :
  (i + n <= length rg)%nat ->
  fill_default n x (Z.of_nat i) rg = Some (put_at i (replicate n x) rg).
Proof.
  revert i rg. induction n as [|n IH]; intros i rg Hr; [simpl; by rewrite put_at_nil|].
  cbn [fill_default]. rewrite wr_nat by lia. cbn [mbind option_bind].
  replace (Z.of_nat i + 1) with (Z.of_nat (S i)) by lia.
  rewrite IH by (rewrite length_insert; lia). by rewrite put_at_cons by lia.
Qed.

(** ** Capacity and size *)

Lemma ErrSetCapacity_ok (fAlloc : bool) (a : CArray E) (c : Z) :
  array_ok a -> 0 <= c <= SIZE_MAX ->
  (fAlloc = false /\ c <> 0 /\ c <> m_centryMax a /\
   ErrSetCapacity fresh fAlloc a c = Some (errOutOfMemory, a)) \/
  exists a', ErrSetCapacity fresh fAlloc a c = Some (errSuccess, a') /\ array_ok a' /\
    Capacity a' = c /\ view a' = take (Z.to_nat c) (view a) /\
    m_entryDefault a' = m_entryDefault a /\ m_fEntryDefault a' = m_fEntryDefault a /\
    m_centryGrowth a' = m_centryGrowth a.
Proof.
  intros Hok Hc. assert (Hv := length_view a Hok). unfold Size in Hv.
  unfold ErrSetCapacity. destruct (Z.eqb_spec (m_centryMax a) c) as [<-|Hne]; cbn [negb].
  { right. exists a. split_and!; try done. destruct Hok as (? & _). rewrite take_ge; [done|lia]. }
  destruct (Z.eqb_spec c 0) as [->|Hc0]; cbn [negb].
  { right. eexists. split; [done|]. unfold array_ok. destruct Hok as (_ & _ & Hg & _). simpl.
    split_and!; try done; lia. }
  destruct fAlloc; [right|left; done]. cbn [new_array].
  set (rgNew := fresh <$> seq 0 (Z.to_nat c)).
  assert (length rgNew = Z.to_nat c) as Hlen by (unfold rgNew; by rewrite length_fmap, length_seq).
  set (centry := if m_centry a >? c then c else m_centry a).
  assert (centry = Z.min c (m_centry a)) as Hcentry by (unfold centry; destruct (Z.gtb_spec (m_centry a) c); lia).
  destruct Hok as (Hcm & Hmax & Hg & Hrg). unfold view in *.
  destruct (m_rgentry a) as [rg|] eqn:Erg.
  - rewrite (copy_entries_ok (Z.to_nat centry) 0 _ rg rgNew); [|done|simpl; lia|simpl; lia|lia].
    cbn [mbind option_bind]. eexists. split; [done|].
    assert (length (slice 0 (Z.to_nat centry) rg) = Z.to_nat centry) as Hsl
      by (unfold slice; rewrite length_take, length_drop; lia).
    split; [|split_and!; try done].
    + unfold array_ok. simpl. rewrite length_put_at by lia. lia.
    + simpl. unfold put_at. simpl. rewrite take_app_length' by lia. unfold slice. rewrite drop_0, take_take.
      f_equal. lia.
  - simpl in *. assert (centry = 0) as -> by lia. eexists. split; [done|]. split; [|split_and!; try done].
    + unfold array_ok. simpl. lia.
    + simpl. by rewrite take_nil.
Qed.

(** The entries after the size is set to [c]: the old ones, cut or extended by
    [default] entries or by entries the code does not initialise. *)
Definition resized (fDefault : bool) (x : E) (l l' : list E) (c : Z) : Prop :=
  Z.of_nat (length l') = c /\ take (length l) l' = take (Z.to_nat c) l /\
  (fDefault = true -> forall i, (length l <= i < length l')%nat -> l' !! i = Some x).

Lemma set_size_ok (a : CArray E) (c : Z) :
  array_ok a -> 0 <= c <= m_centryMax a ->
  exists rg, (if m_fEntryDefault a && (c >? m_centry a)
       then rg ← m_rgentry a; rg ← fill_default (Z.to_nat (c - m_centry a)) (m_entryDefault a) (m_centry a) rg;
            Some (Some rg)
       else Some (m_rgentry a)) = Some rg /\
    let a' := Array c (m_centryMax a) rg (m_entryDefault a) (m_fEntryDefault a) (m_centryGrowth a) in
    array_ok a' /\ resized (m_fEntryDefault a) (m_entryDefault a) (view a) (view a') c.
Proof.
  intros (Hcm & Hmax & Hg & Hrg) Hc. unfold array_ok, resized, view. simpl.
  destruct (m_rgentry a) as [rg|].
  2: { destruct (m_fEntryDefault a && (c >? m_centry a)) eqn:Ef.
       - apply andb_prop in Ef as [_ Ef]. destruct (Z.gtb_spec c (m_centry a)); [lia|done].
       - eexists. split; [done|]. simpl. rewrite take_nil. split_and!; try done; lia. }
  cbn [mbind option_bind]. destruct (m_fEntryDefault a) eqn:Efd; cbn [andb].
  - destruct (Z.gtb_spec c (m_centry a)) as [Hgt|Hle].
    + pose proof (fill_default_ok (Z.to_nat (c - m_centry a)) (Z.to_nat (m_centry a)) (m_entryDefault a) rg) as Hfill.
      rewrite Z2Nat.id in Hfill by lia. rewrite Hfill by lia. cbn [mbind option_bind]. eexists. split; [done|]. split.
      * rewrite length_put_at by (rewrite length_replicate; lia). lia.
      * rewrite length_take, length_put_at by (rewrite length_replicate; lia). split_and!; [lia| |].
        -- rewrite take_take, length_take. rewrite (take_ge (take _ rg)) by (rewrite length_take; lia).
           replace (min _ _) with (Z.to_nat (m_centry a)) by lia. unfold put_at.
           rewrite take_app_le by (rewrite length_take; lia). rewrite take_take. f_equal. lia.
        -- intros _ i Hi. rewrite !length_take in Hi. rewrite lookup_take_lt by lia. unfold put_at.
           rewrite lookup_app_r by (rewrite length_take; lia). rewrite length_take.
           rewrite lookup_app_l by (rewrite length_replicate; lia). apply lookup_replicate_2. lia.
    + eexists. split; [done|]. split; [lia|]. rewrite !length_take. split_and!; [lia| |].
      * rewrite !take_take. f_equal. lia.
      * intros _ i Hi. lia.
  - eexists. split; [done|]. split; [lia|]. rewrite !length_take. split_and!; [lia| |done].
    rewrite !take_take. f_equal. lia.
Qed.

Lemma resized_view (a : CArray E) (fDefault : bool) (x : E) (l' : list E) (m c : Z) :
  array_ok a -> Size a <= m -> resized fDefault x (take (Z.to_nat m) (view a)) l' c ->
  resized fDefault x (view a) l' c.
Proof. intros Hok Hm. rewrite take_ge; [done|]. pose proof (length_view a Hok). lia. Qed.

Lemma ErrSetSize_ok (fAlloc : bool) (a : CArray E) (c : Z) :
  array_ok a -> 0 <= c <= SIZE_MAX ->
  (fAlloc = false /\ m_centryMax a < c /\ ErrSetSize fresh fAlloc a c = Some (errOutOfMemory, a)) \/
  exists a', ErrSetSize fresh fAlloc a c = Some (errSuccess, a') /\ array_ok a' /\ Size a' = c /\
    resized (m_fEntryDefault a) (m_entryDefault a) (view a) (view a') c /\
    (if c <=? Capacity a then Capacity a' = Capacity a else c <= Capacity a' < c + m_centryGrowth a) /\
    m_fEntryDefault a' = m_fEntryDefault a /\ m_entryDefault a' = m_entryDefault a.
Proof.
  intros Hok Hc. unfold ErrSetSize, Capacity. destruct (Z.ltb_spec (m_centryMax a) c) as [Hlt|Hge].
  - rewrite (proj2 (Z.leb_gt _ _)) by lia. assert (Hok' := Hok). destruct Hok' as (Hcm & Hmax & Hg & _).
    destruct (grown_ok (m_centryMax a) (m_centryGrowth a) c) as [Hgr1 Hgr2]; [lia|lia|lia|].
    destruct (ErrSetCapacity_ok fAlloc a (grown (m_centryMax a) (m_centryGrowth a) c) Hok) as
      [(-> & _ & _ & ->)|(a1 & -> & Hok1 & Hcap & Hview & Hd & Hfd & Hgrow)]; [lia|by left|].
    right. cbn [mbind option_bind]. unfold Capacity in Hcap.
    destruct (set_size_ok a1 c Hok1) as (rg & E1 & Hok2 & Hres); [lia|].
    rewrite bool_decide_true by done. cbn [negb]. rewrite E1. cbn [mbind option_bind].
    eexists. split; [done|]. split; [done|]. split; [done|]. rewrite Hview, Hfd, Hd in Hres.
    apply resized_view in Hres; [|done|unfold Size; lia]. rewrite Hfd, Hd in *. simpl.
    split; [done|]. split; [lia|done].
  - right. rewrite (proj2 (Z.leb_le _ _)) by lia. cbn [mbind option_bind].
    destruct (set_size_ok a c Hok) as (rg & E1 & Hok2 & Hres); [lia|].
    rewrite bool_decide_true by done. cbn [negb]. rewrite E1. cbn [mbind option_bind].
    eexists. split; [done|]. split; [done|]. split; [done|]. split; [exact Hres|]. done.
Qed.

Lemma SetEntry_ok (a : CArray E) (i : nat) (x : E) :
  array_ok a -> Z.of_nat i < Size a ->
  exists a', SetEntry a (PEntry a (Z.of_nat i)) x = Some a' /\ array_ok a' /\ Size a' = Size a /\
    view a' = <[i := x]> (view a).
Proof.
  unfold SetEntry, PEntry, Size, array_ok, view. intros (Hcm & Hmax & Hg & Hrg) Hi.
  rewrite (proj2 (Z.ltb_lt _ _) Hi). cbn [mbind option_bind].
  destruct (m_rgentry a) as [rg|]; [|lia]. cbn [mbind option_bind]. rewrite wr_nat by lia.
  cbn [mbind option_bind]. eexists. split; [done|]. simpl. rewrite length_insert.
  split; [lia|]. split; [done|]. by rewrite take_insert_lt by lia.
Qed.
End Array.

(** ** Comparison functions *)

(** What [qsort] and [bsearch] require of the comparison: a total preorder. *)
Record compare_ok {E} (cmp : E -> E -> Z) : Prop := CompareOk {
  cmp_refl : forall x, cmp x x = 0;
  cmp_sym : forall x y, cmp x y < 0 <-> 0 < cmp y x;
  cmp_trans : forall x y z, cmp x y <= 0 -> cmp y z <= 0 -> cmp x z <= 0
}.

Definition le_of {E} (cmp : E -> E -> Z) (x y : E) : Prop := cmp x y <= 0.

Definition lt_of {E} (cmp : E -> E -> Z) (x y : E) : Prop := cmp x y < 0.

#[export] Instance le_of_dec {E} (cmp : E -> E -> Z) (x y : E) : Decision (le_of cmp x y).
Proof. unfold le_of. apply _. Defined.

(** The contracts of the two library functions. *)
Definition qsort_ok {E} (qsort : (E -> E -> Z) -> list E -> list E) : Prop :=
  forall cmp l, compare_ok cmp -> Permutation (qsort cmp l) l /\ StronglySorted (le_of cmp) (qsort cmp l).

Definition bsearch_ok {E} (bsearch : (E -> E -> Z) -> E -> list E -> option nat) : Prop :=
  forall cmp key l, compare_ok cmp -> StronglySorted (le_of cmp) l ->
  match bsearch cmp key l with
  | Some i => exists x, l !! i = Some x /\ cmp key x = 0
  | None => forall x, x ∈ l -> cmp key x <> 0
  end.

(** ** Removing duplicates *)

(** The first entry of each run of equal ones, [x] heading the first run. *)
Fixpoint uniq {E} (cmp : E -> E -> Z) (x : E) (l : list E) : list E :=
  match l with
  | [] => [x]
  | y :: l => if negb (cmp x y =? 0) then x :: uniq cmp y l else uniq cmp x l
  end.

Section Unique.
Context {E : Type} (cmp : E -> E -> Z).

(** Writing [y] behind [l] when it is also the next entry to read. *)
Lemma insert_shift (l junk rest : list E) (y : E) :
  <[length l := y]> (l ++ junk ++ y :: rest) =
  l ++ y :: match junk with [] => [] | _ :: j => j ++ [y] end ++ rest.
Proof.
  rewrite insert_app_r_alt, Nat.sub_diag by lia. f_equal.
  destruct junk as [|j junk]; simpl; [done|]. by rewrite <- app_assoc.
Qed.

(** The loop in the middle: entries [done] and [x] are final, [junk] is between the
    two pointers, [rest] is still to be read. *)
Lemma unique_loop_ok (rest fin junk tl : list E) (x : E) :
  exists rg', unique_loop cmp (length rest) (Z.of_nat (length fin + 1 + length junk))
      (Z.of_nat (length fin)) (fin ++ x :: junk ++ rest ++ tl)
    = Some (Z.of_nat (length fin + length (uniq cmp x rest)) - 1, rg') /\
    length rg' = length (fin ++ x :: junk ++ rest ++ tl) /\
    take (length fin + length (uniq cmp x rest)) rg' = fin ++ uniq cmp x rest.
Proof.
  revert fin junk x. induction rest as [|y rest IH]; intros fin junk x; cbn [uniq unique_loop length].
  - eexists. split; [f_equal; f_equal; simpl; lia|]. split; [done|]. simpl.
    rewrite cons_middle, app_assoc. apply take_app_length'. rewrite length_app. done.
  - rewrite !rd_nat. rewrite (list_lookup_middle fin _ x (length fin) eq_refl). cbn [mbind option_bind].
    replace (fin ++ x :: junk ++ (y :: rest) ++ tl) with ((fin ++ x :: junk) ++ y :: rest ++ tl)
      by (by rewrite <- app_assoc).
    rewrite list_lookup_middle by (rewrite length_app; simpl; lia). cbn [mbind option_bind].
    rewrite <- app_assoc. cbn [app].
    replace (Z.of_nat (length fin + 1 + length junk) + 1)
      with (Z.of_nat (length fin + 1 + length (junk ++ [y]))) by (rewrite length_app; simpl; lia).
    destruct (cmp x y =? 0); cbn [negb].
    + destruct (IH fin (junk ++ [y]) x) as (rg' & IHe & IHl & IHt). rewrite <- app_assoc in IHe, IHl. simpl in IHe, IHl.
      exists rg'. rewrite <- IHe. done.
    + replace (Z.of_nat (length fin) + 1) with (Z.of_nat (length (fin ++ [x]))) by (rewrite length_app; simpl; lia).
      rewrite wr_nat by (rewrite !length_app; simpl; rewrite length_app; simpl; lia).
      cbn [mbind option_bind].
      destruct (IH (fin ++ [x]) (match junk with [] => [] | _ :: j => j ++ [y] end) y) as (rg' & IHe & IHl & IHt).
      exists rg'. replace (fin ++ x :: junk ++ y :: rest ++ tl)
        with ((fin ++ [x]) ++ junk ++ y :: rest ++ tl) by (by rewrite <- app_assoc).
      rewrite insert_shift. split_and!.
      * replace (length fin + 1 + length (junk ++ [y]))%nat with
          (length (fin ++ [x]) + 1 + length (match junk with [] => [] | _ :: j => j ++ [y] end))%nat
          by (rewrite !length_app; destruct junk; simpl; rewrite ?length_app; simpl; lia).
        rewrite IHe. f_equal. f_equal. rewrite length_app. simpl. lia.
      * rewrite IHl, !length_app. simpl. destruct junk; simpl; rewrite ?length_app; simpl; lia.
      * rewrite length_app, <- app_assoc, <- Nat.add_assoc in IHt. exact IHt.
Qed.

Context (Hcmp : compare_ok cmp).

Lemma cmp_zero_sym (x y : E) : cmp x y = 0 -> cmp y x = 0.
Proof. intros H. pose proof (cmp_sym _ Hcmp x y). pose proof (cmp_sym _ Hcmp y x). lia. Qed.

Lemma cmp_zero_trans (x y z : E) : cmp x y = 0 -> cmp y z = 0 -> cmp x z = 0.
Proof.
  intros H1 H2. pose proof (cmp_trans _ Hcmp x y z ltac:(lia) ltac:(lia)).
  apply cmp_zero_sym in H1, H2. pose proof (cmp_trans _ Hcmp z y x ltac:(lia) ltac:(lia)).
  pose proof (cmp_sym _ Hcmp x z). lia.
Qed.

Lemma cmp_lt_le (x y z : E) : cmp x y < 0 -> cmp y z <= 0 -> cmp x z < 0.
Proof.
  intros H1 H2. pose proof (cmp_trans _ Hcmp x y z ltac:(lia) H2).
  destruct (decide (cmp x z = 0)) as [Hz|]; [|lia]. apply cmp_zero_sym in Hz.
  pose proof (cmp_trans _ Hcmp y z x H2 ltac:(lia)). pose proof (cmp_sym _ Hcmp x y). lia.
Qed.

Lemma uniq_ok (l : list E) (x : E) :
  StronglySorted (le_of cmp) (x :: l) ->
  StronglySorted (lt_of cmp) (uniq cmp x l) /\ (forall z, z ∈ uniq cmp x l -> z ∈ x :: l) /\
  (forall z, z ∈ x :: l -> exists w, w ∈ uniq cmp x l /\ cmp w z = 0).
Proof.
  revert x. induction l as [|y l IH]; intros x Hs; simpl.
  - split; [repeat constructor|]. split; [done|]. intros z Hz. exists z. split; [done|apply Hcmp].
  - apply StronglySorted_inv in Hs as [Hs Hx]. apply list.Forall_cons in Hx as [Hxy Hx].
    destruct (Z.eqb_spec (cmp x y) 0) as [Heq|Hne]; simpl.
    + apply StronglySorted_inv in Hs as [Hs _]. destruct (IH x) as (H1 & H2 & H3); [by constructor|].
      split; [done|]. split; [set_solver|]. intros z Hz.
      apply list.elem_of_cons in Hz as [-> |Hz]; [apply H3; set_solver|].
      apply list.elem_of_cons in Hz as [-> |Hz]; [|apply H3; set_solver].
      destruct (H3 x) as (w & Hw & E1); [set_solver|]. exists w. split; [done|].
      by apply (cmp_zero_trans w x y).
    + destruct (IH y Hs) as (H1 & H2 & H3). apply StronglySorted_inv in Hs as [_ Hy].
      split; [|split; [set_solver|]].
      * constructor; [done|]. apply list.Forall_forall. intros z Hz. unfold lt_of, le_of in *.
        apply H2, list.elem_of_cons in Hz as [-> |Hz]; [lia|].
        apply (cmp_lt_le x y z); [lia|]. by apply (proj1 (list.Forall_forall _ _) Hy).
      * intros z [-> |Hz]%list.elem_of_cons.
        -- exists x. split; [set_solver|apply Hcmp].
        -- destruct (H3 z Hz) as (w & Hw & E1). exists w. split; [set_solver|done].
Qed.
End Unique.

Lemma StronglySorted_lt {E} (R : E -> E -> Prop) (l : list E) (i j : nat) (x y : E) :
  StronglySorted R l -> l !! i = Some x -> l !! j = Some y -> (i < j)%nat -> R x y.
Proof.
  intros Hs. revert i j. induction Hs as [|z l _ IH Hf]; intros i j Hi Hj Hlt; [done|].
  destruct j as [|j]; [lia|]. destruct i as [|i]; simpl in *.
  - injection Hi as <-. apply (proj1 (list.Forall_forall _ _) Hf). by eapply list_elem_of_lookup_2.
  - eapply IH; [done..|lia].
Qed.

(** [found l key i]: [i] is the index of an entry equal to [key], or says there is none. *)
Definition found {E} (cmp : E -> E -> Z) (key : E) (l : list E) (i : Z) : Prop :=
  (i = iEntryNotFound /\ forall x, x ∈ l -> cmp key x <> 0) \/
  (exists x, 0 <= i < Z.of_nat (length l) /\ l !! Z.to_nat i = Some x /\ cmp key x = 0).

Lemma linear_loop_ok {E} (cmp : E -> E -> Z) (key : E) (rest pre tl : list E) :
  exists r, linear_loop cmp key (length rest) (Z.of_nat (length pre)) (pre ++ rest ++ tl) = Some r /\
    ((r = iEntryNotFound /\ forall x, x ∈ rest -> cmp key x <> 0) \/
     (exists x l1 l2, rest = l1 ++ x :: l2 /\ r = Z.of_nat (length pre + length l1) /\ cmp key x = 0 /\
        forall y, y ∈ l1 -> cmp key y <> 0)).
Proof.
  revert pre. induction rest as [|y rest IH]; intros pre; cbn [length linear_loop].
  - exists iEntryNotFound. split; [done|]. left. split; [done|]. set_solver.
  - rewrite rd_nat. cbn [app]. rewrite (list_lookup_middle pre _ y (length pre) eq_refl).
    cbn [mbind option_bind]. destruct (Z.eqb_spec (cmp key y) 0) as [Heq|Hne].
    + eexists. split; [done|]. right. exists y, [], rest. split_and!; [done|simpl; lia|done|set_solver].
    + destruct (IH (pre ++ [y])) as (r & E1 & Hr). rewrite length_app, <- app_assoc in E1. simpl in E1.
      replace (Z.of_nat (length pre) + 1) with (Z.of_nat (length pre + 1)) by lia.
      exists r. split; [done|]. destruct Hr as [[-> Hr]|(x & l1 & l2 & -> & -> & Hx & Hl1)].
      * left. split; [done|]. intros x [-> |Hx]%list.elem_of_cons; auto.
      * right. exists x, (y :: l1), l2. split_and!; [done| |done|].
        -- rewrite length_app. simpl. lia.
        -- intros z [-> |Hz]%list.elem_of_cons; auto.
Qed.

Section Searching.
Context {E : Type} (fresh : nat -> E).

Lemma SearchLinear_ok (a : CArray E) (key : E) (cmp : E -> E -> Z) :
  array_ok a -> exists i, SearchLinear a key cmp = Some i /\ found cmp key (view a) i /\
    forall j x, 0 <= Z.of_nat j < i -> view a !! j = Some x -> cmp key x <> 0.
Proof.
  intros Hok. assert (Hlen := length_view a Hok). unfold Size in Hlen.
  destruct Hok as (Hcm & _ & _ & Hrg). unfold SearchLinear, view in *. destruct (m_rgentry a) as [rg|].
  - destruct Hrg as [Hrg _]. destruct (linear_loop_ok cmp key (take (Z.to_nat (m_centry a)) rg) [] (drop (Z.to_nat (m_centry a)) rg)) as (r & E1 & Hr).
    simpl in E1. rewrite take_drop, length_take, Nat.min_l in E1 by lia. exists r. split; [done|].
    destruct Hr as [[-> Hr]|(x & l1 & l2 & Hl & -> & Hx & Hl1)].
    + split; [by left|]. intros j x _ Hj. apply Hr. by eapply list_elem_of_lookup_2.
    + rewrite Hl. split.
      * right. exists x. rewrite length_app. simpl. split; [lia|]. split; [|done].
        apply list_lookup_middle. lia.
      * intros j y Hj Hy. apply Hl1. rewrite lookup_app_l in Hy by (simpl in Hj; lia).
        by eapply list_elem_of_lookup_2.
  - exists iEntryNotFound. split; [done|]. split; [left; split; [done|set_solver]|]. intros j x _ Hj. done.
Qed.

Lemma found_unique (cmp : E -> E -> Z) (key : E) (l : list E) (i j : Z) :
  compare_ok cmp -> StronglySorted (lt_of cmp) l -> found cmp key l i -> found cmp key l j -> i = j.
Proof.
  intros Hc Hs. assert (forall k x, l !! k = Some x -> x ∈ l) as Hel
    by (intros; by eapply list_elem_of_lookup_2).
  intros [[-> Hi]|(x & Hi & Ex & Hx)] [[-> Hj]|(y & Hj & Ey & Hy)]; [done| | |].
  - by destruct (Hi y (Hel _ _ Ey)).
  - by destruct (Hj x (Hel _ _ Ex)).
  - assert (cmp x y = 0) as Hxy by (apply (cmp_zero_trans cmp Hc x key y); [by apply cmp_zero_sym|done]).
    assert (cmp y x = 0) as Hyx by by apply cmp_zero_sym.
    destruct (Z.lt_trichotomy i j) as [Hlt|[?|Hlt]]; [|done|].
    + pose proof (StronglySorted_lt _ l _ _ x y Hs Ex Ey ltac:(lia)) as Hr. unfold lt_of in Hr. lia.
    + pose proof (StronglySorted_lt _ l _ _ y x Hs Ey Ex ltac:(lia)) as Hr. unfold lt_of in Hr. lia.
Qed.

Lemma lt_le_sorted (cmp : E -> E -> Z) (l : list E) :
  StronglySorted (lt_of cmp) l -> StronglySorted (le_of cmp) l.
Proof.
  induction 1 as [|x l _ IH Hf]; constructor; [done|]. eapply list.Forall_impl; [exact Hf|].
  unfold lt_of, le_of. intros; lia.
Qed.

Lemma SearchBinary_ok (bsearch : (E -> E -> Z) -> E -> list E -> option nat)
    (a : CArray E) (key : E) (cmp : E -> E -> Z) :
  bsearch_ok bsearch -> compare_ok cmp -> array_ok a -> StronglySorted (le_of cmp) (view a) ->
  found cmp key (view a) (SearchBinary bsearch a key cmp).
Proof.
  intros Hb Hc Hok Hs. unfold SearchBinary, view in *. destruct (m_rgentry a) as [rg|].
  - specialize (Hb cmp key _ Hc Hs). destruct (bsearch cmp key _) as [i|].
    + destruct Hb as (x & Hx & E1). right. exists x. rewrite Nat2Z.id. split; [|done].
      apply lookup_lt_Some in Hx. lia.
    + by left.
  - left. split; [done|]. set_solver.
Qed.

Lemma Sort_ok (qsort : (E -> E -> Z) -> list E -> list E) (a : CArray E) (cmp : E -> E -> Z) :
  qsort_ok qsort -> compare_ok cmp -> array_ok a ->
  array_ok (Sort qsort a cmp) /\ Size (Sort qsort a cmp) = Size a /\ Capacity (Sort qsort a cmp) = Capacity a /\
  Permutation (view (Sort qsort a cmp)) (view a) /\ StronglySorted (le_of cmp) (view (Sort qsort a cmp)).
Proof.
  intros Hq Hc Hok. assert (Hlen := length_view a Hok). unfold Size in Hlen.
  unfold Sort, array_ok, view in *. destruct (m_rgentry a) as [rg|] eqn:Erg; simpl.
  - destruct (Hq cmp (take (Z.to_nat (m_centry a)) rg) Hc) as [HP HS].
    assert (Hl := Permutation_length HP). rewrite length_app, length_drop, Hl.
    rewrite take_app_length' by lia. rewrite length_take in *. split; [lia|]. done.
  - rewrite Erg. split; [done|]. split; [done|]. split; [done|]. split; [done|constructor].
Qed.

(** The loop on an array's buffer. *)
Lemma unique_entries (cmp : E -> E -> Z) (rg : list E) (n : nat) (x : E) (l : list E) :
  compare_ok cmp -> take n rg = x :: l -> length (take n rg) = n ->
  exists rg', unique_loop cmp n 0 0 rg = Some (Z.of_nat (length (uniq cmp x l)) - 1, rg') /\
    length rg' = length rg /\ take (length (uniq cmp x l)) rg' = uniq cmp x l.
Proof.
  intros Hc Ht Hn. rewrite <- (take_drop n rg). rewrite Ht in *. simpl in Hn. subst n.
  cbn [unique_loop]. change (rd _ 0) with (rd ((x :: l) ++ drop (S (length l)) rg) (Z.of_nat 0)).
  rewrite rd_nat. cbn [app lookup list_lookup mbind option_bind]. rewrite (cmp_refl _ Hc x). simpl.
  destruct (unique_loop_ok cmp l [] [] (drop (S (length l)) rg) x) as (rg' & E1 & Hl & Ht').
  simpl in *. exists rg'. split_and!; [exact E1|exact Hl|exact Ht'].
Qed.

Lemma length_uniq (cmp : E -> E -> Z) (x : E) (l : list E) : (1 <= length (uniq cmp x l) <= S (length l))%nat.
Proof.
  revert x. induction l as [|y l IH]; intros x; simpl; [lia|].
  pose proof (IH x). pose proof (IH y). destruct (cmp x y =? 0); simpl; lia.
Qed.
End Searching.
