(* ===== verification/DynArrayTop.v ===== *)
(** * DynArrayTop: what CArray promises

    The claims about the growable array: growth and entry writes, removal of
    duplicates, and the two searches. *)

From Stdlib Require Import Sorting.Sorted Sorting.Permutation.
From stdpp Require Import sorting sets.
From S2P Require Import Prelude DynArray DynArrayProofs.

Section Claims.
Context {E : Type} (fresh : nat -> E).

(** setting entry [i] of an array, for any index below SIZE_MAX.  When a
    larger buffer is needed and cannot be allocated the call returns
    errOutOfMemory and leaves the array as it was.  Otherwise it succeeds: the
    array keeps its entries, has entry [i] set, has at least i + 1 entries, and
    the entries skipped between the old end and [i] hold the default entry when
    one has been set; its capacity is unchanged if it was enough and otherwise
    covers the new size with less than one growth step to spare, computed without
    overflow. *)
Theorem array_set_entry (fAlloc : bool) (a : CArray E) (i : nat) (x : E) :
  array_ok a -> Z.of_nat i < SIZE_MAX ->
  (fAlloc = false /\ Capacity a <= Z.of_nat i /\
   ErrSetEntry fresh fAlloc a (Z.of_nat i) x = Some (errOutOfMemory, a)) \/
  exists a', ErrSetEntry fresh fAlloc a (Z.of_nat i) x = Some (errSuccess, a') /\ array_ok a' /\
    Size a' = Z.max (Size a) (Z.of_nat i + 1) /\ Entry a' (Z.of_nat i) = Some x /\
    (forall j, j <> i -> Z.of_nat j < Size a -> Entry a' (Z.of_nat j) = Entry a (Z.of_nat j)) /\
    (m_fEntryDefault a = true -> forall j, Size a <= Z.of_nat j -> (j < i)%nat ->
       Entry a' (Z.of_nat j) = Some (m_entryDefault a)) /\
    (if Z.of_nat i <? Capacity a then Capacity a' = Capacity a
     else Z.of_nat i + 1 <= Capacity a' < Z.of_nat i + 1 + m_centryGrowth a).
Proof.
  intros Hok Hi. unfold ErrSetEntry, SIZE_MAX in *.
  assert (u64 (Z.of_nat i + 1) = Z.of_nat i + 1) as -> by (unfold wrapu; apply Z.mod_small; lia).
  assert (Hcap : Size a <= Capacity a) by (unfold Size, Capacity; destruct Hok as (? & _); lia).
  change (m_centry a) with (Size a).
  destruct (Z.ltb_spec (Size a) (Z.of_nat i + 1)) as [Hgrow|Hin].
  - destruct (ErrSetSize_ok fresh fAlloc a (Z.of_nat i + 1) Hok) as
      [(-> & Hc & ->)|(a1 & -> & Hok1 & Hs1 & (Hl & Hpre & Hdef) & Hc1 & _)]; [unfold SIZE_MAX; lia| |].
    { left. unfold Capacity. split_and!; [done|lia|done]. }
    right. cbn [mbind option_bind]. rewrite bool_decide_true by done. cbn [negb].
    assert (Hlen := length_view a Hok).
    destruct (SetEntry_ok a1 i x Hok1) as (a2 & E2 & Hok2 & Hs2 & Hv2); [lia|]. rewrite E2.
    cbn [mbind option_bind]. exists a2.
    assert (forall j, j <> i -> Z.of_nat j < Size a1 -> Entry a2 (Z.of_nat j) = view a1 !! j) as Hent.
    { intros j Hj Hlt. rewrite Entry_view by (done || lia). rewrite Hv2. by apply list_lookup_insert_ne. }
    split; [done|]. split; [done|]. split; [lia|]. split_and!.
    + rewrite Entry_view by (done || lia). rewrite Hv2. apply list_lookup_insert_eq. lia.
    + intros j Hj Hlt. rewrite Hent by (done || lia). rewrite Entry_view by done.
      rewrite <- (lookup_take_lt (view a1) (length (view a))) by lia. rewrite Hpre.
      apply lookup_take_lt. lia.
    + intros Hd j Hge Hlt. rewrite Hent by lia. apply Hdef; [done|lia].
    + assert (Capacity a2 = Capacity a1) as ->.
      { unfold SetEntry, PEntry in E2. destruct (_ <? _); [|done]. cbn [mbind option_bind] in E2.
        destruct (m_rgentry a1); [|done]. cbn [mbind option_bind] in E2. destruct (wr _ _ _); [|done].
        cbn [mbind option_bind] in E2. by injection E2 as <-. }
      destruct (Z.leb_spec (Z.of_nat i + 1) (Capacity a)), (Z.ltb_spec (Z.of_nat i) (Capacity a)); lia.
  - right. cbn [mbind option_bind]. rewrite bool_decide_true by done. cbn [negb].
    destruct (SetEntry_ok a i x Hok) as (a2 & E2 & Hok2 & Hs2 & Hv2); [lia|]. rewrite E2.
    cbn [mbind option_bind]. exists a2. split; [done|]. split; [done|]. split; [lia|]. split_and!.
    + rewrite Entry_view by (done || lia). rewrite Hv2. apply list_lookup_insert_eq.
      pose proof (length_view a Hok). lia.
    + intros j Hj Hlt. rewrite !Entry_view by (done || lia). rewrite Hv2. by apply list_lookup_insert_ne.
    + lia.
    + rewrite (proj2 (Z.ltb_lt _ _)) by lia. unfold SetEntry, PEntry in E2. destruct (_ <? _); [|done].
      cbn [mbind option_bind] in E2. destruct (m_rgentry a); [|done]. cbn [mbind option_bind] in E2.
      destruct (wr _ _ _); [|done]. cbn [mbind option_bind] in E2. by injection E2 as <-.
Qed.

(** the index that stands for "not found" cannot be rejected by ErrSetEntry:
    its successor wraps to zero, the array is taken to be large enough, and the
    entry is written through a null pointer, whatever the array holds. *)
Theorem set_entry_at_not_found (fAlloc : bool) (a : CArray E) (x : E) :
  array_ok a -> ErrSetEntry fresh fAlloc a iEntryNotFound x = None.
Proof.
  intros (Hc & Hm & _). unfold ErrSetEntry. change (u64 (iEntryNotFound + 1)) with 0.
  rewrite (proj2 (Z.ltb_ge _ _)) by lia. cbn [mbind option_bind]. rewrite bool_decide_true by done.
  cbn [negb]. unfold PEntry, iEntryNotFound. rewrite (proj2 (Z.ltb_ge _ _)) by lia. done.
Qed.

(** Cutting an array to a smaller size. *)
Lemma shrink_ok (fAlloc : bool) (a : CArray E) (c : Z) :
  array_ok a -> 0 <= c <= Size a ->
  exists a', ErrSetSize fresh fAlloc a c = Some (errSuccess, a') /\ array_ok a' /\
    Capacity a' = Capacity a /\ view a' = take (Z.to_nat c) (view a).
Proof.
  intros Hok Hc. assert (Hlen := length_view a Hok). unfold Size in *.
  assert (Hok' := Hok). destruct Hok' as (Hcm & Hmax & _).
  destruct (ErrSetSize_ok fresh fAlloc a c Hok) as
    [(_ & Hbad & _)|(a2 & -> & Hok2 & Hs2 & (Hl2 & Hpre & _) & Hcap2 & _)]; [lia|lia|].
  exists a2. rewrite (proj2 (Z.leb_le _ _)) in Hcap2 by (unfold Capacity; lia).
  split_and!; [done..|]. rewrite <- Hpre. symmetry. apply take_ge. lia.
Qed.

(** The loop over the entries of a sorted array. *)
Lemma unique_array (a : CArray E) (cmp : E -> E -> Z) :
  compare_ok cmp -> array_ok a -> StronglySorted (le_of cmp) (view a) ->
  exists u rg,
    match m_rgentry a with
    | None => if m_centry a =? 0 then Some (0, None) else None
    | Some rg => '(u, rg) ← unique_loop cmp (Z.to_nat (m_centry a)) 0 0 rg; Some (u, Some rg)
    end = Some (u, rg) /\
    let b := Array (m_centry a) (m_centryMax a) rg (m_entryDefault a) (m_fEntryDefault a) (m_centryGrowth a) in
    let l := take (Z.to_nat (Z.min (m_centry a) (u + 1))) (view b) in
    array_ok b /\ 0 <= u /\ StronglySorted (lt_of cmp) l /\
    (forall x, x ∈ l -> x ∈ view a) /\ (forall x, x ∈ view a -> exists y, y ∈ l /\ cmp y x = 0).
Proof.
  intros Hc Hok HS. assert (Hlen := length_view a Hok). unfold Size in Hlen.
  destruct Hok as (Hcm & Hmax & Hg & Hrg). unfold array_ok, view in *. cbn [m_rgentry m_centry m_centryMax m_centryGrowth].
  destruct (m_rgentry a) as [rg|].
  - destruct Hrg as [Hrg Hpos]. destruct (take (Z.to_nat (m_centry a)) rg) as [|x l] eqn:Et.
    + simpl in Hlen. assert (m_centry a = 0) as Hz by lia. rewrite Hz. cbn [unique_loop Z.to_nat mbind option_bind].
      eexists _, _. split; [done|]. simpl. split_and!; try done; try lia; [constructor|set_solver..].
    + destruct (unique_entries cmp rg (Z.to_nat (m_centry a)) x l Hc Et) as (rg' & -> & Hl' & Ht');
        [rewrite Et; simpl in *; lia|]. cbn [mbind option_bind].
      pose proof (length_uniq cmp x l) as Hu. simpl in Hlen.
      eexists _, _. split; [done|]. cbn zeta.
      replace (Z.min (m_centry a) (Z.of_nat (length (uniq cmp x l)) - 1 + 1))
        with (Z.of_nat (length (uniq cmp x l))) by lia.
      rewrite take_take, Nat2Z.id, Nat.min_l, Ht' by lia.
      destruct (uniq_ok cmp Hc l x HS) as (H1 & H2 & H3). split_and!; try done; lia.
  - assert (m_centry a = 0) as Hz by lia. rewrite Hz. eexists _, _. split; [done|]. simpl.
    split_and!; try done; try lia; [constructor|set_solver..].
Qed.

(** SortAndRemoveDuplicates leaves exactly one entry of each class of equal
    entries, in strictly increasing order: every entry left was there before,
    and every entry that was there is equal to one that is left.  It needs no
    memory, so it succeeds and keeps the capacity. *)
Theorem array_sort_unique (qsort : (E -> E -> Z) -> list E -> list E) (fAlloc : bool) (a : CArray E)
    (cmp : E -> E -> Z) :
  qsort_ok qsort -> compare_ok cmp -> array_ok a ->
  exists a', SortAndRemoveDuplicates fresh qsort fAlloc a cmp = Some (errSuccess, a') /\ array_ok a' /\
    Capacity a' = Capacity a /\ StronglySorted (lt_of cmp) (view a') /\
    (forall x, x ∈ view a' -> x ∈ view a) /\
    (forall x, x ∈ view a -> exists y, y ∈ view a' /\ cmp y x = 0).
Proof.
  intros Hq Hc Hok. destruct (Sort_ok qsort a cmp Hq Hc Hok) as (Hok1 & Hs1 & Hcap1 & HP & HS).
  assert (forall x, x ∈ view a <-> x ∈ view (Sort qsort a cmp)) as Hmem by (intros x; by rewrite HP).
  destruct (unique_array _ cmp Hc Hok1 HS) as (u & rg & E1 & Hb & Hu & H1 & H2 & H3).
  unfold SortAndRemoveDuplicates. rewrite E1. cbn [mbind option_bind].
  edestruct (shrink_ok fAlloc) as (a2 & E2 & Hok2 & Hcap2 & Hv2); [exact Hb| |rewrite E2].
  { unfold Size. simpl. destruct Hok1 as (? & _). split; [|apply Z.le_min_l]. lia. }
  exists a2. rewrite Hv2. split_and!; [done|done|by rewrite Hcap2|exact H1| |].
  - intros x Hx. by apply Hmem, H2.
  - intros x Hx%Hmem. by apply H3.
Qed.

(** on an array in strictly increasing order, such as SortAndRemoveDuplicates
    leaves, the linear and the binary search return the same index: the one of
    the entry equal to the one searched for, or iEntryNotFound when there is none. *)
Theorem array_searches_agree (bsearch : (E -> E -> Z) -> E -> list E -> option nat) (a : CArray E)
    (key : E) (cmp : E -> E -> Z) :
  bsearch_ok bsearch -> compare_ok cmp -> array_ok a -> StronglySorted (lt_of cmp) (view a) ->
  exists i, SearchLinear a key cmp = Some i /\ SearchBinary bsearch a key cmp = i /\
    found cmp key (view a) i.
Proof.
  intros Hb Hc Hok Hs. destruct (SearchLinear_ok a key cmp Hok) as (i & E1 & Hf & _).
  exists i. split_and!; [done| |done]. eapply found_unique; [exact Hc|exact Hs| |exact Hf].
  apply SearchBinary_ok; try done. by apply lt_le_sorted.
Qed.

(** ErrClone makes an array hold a copy of another: the same entries, size,
    capacity, default entry and growth, in a buffer of its own; when that buffer
    cannot be allocated it returns errOutOfMemory and changes nothing. *)
Theorem array_clone (fAlloc : bool) (a array : CArray E) :
  array_ok array ->
  (fAlloc = false /\ Capacity array <> 0 /\ ErrClone fresh fAlloc a array = Some (errOutOfMemory, a)) \/
  exists a', ErrClone fresh fAlloc a array = Some (errSuccess, a') /\ array_ok a' /\
    view a' = view array /\ Size a' = Size array /\ Capacity a' = Capacity array /\
    m_entryDefault a' = m_entryDefault array /\ m_fEntryDefault a' = m_fEntryDefault array /\
    m_centryGrowth a' = m_centryGrowth array.
Proof.
  intros (Hcm & Hmax & Hg & Hrg). unfold ErrClone, Capacity, Size.
  destruct (Z.eqb_spec (m_centryMax array) 0) as [H0|Hne]; cbn [negb].
  - destruct (m_rgentry array) as [rg|] eqn:Erg; [lia|]. right.
    rewrite (proj2 (Z.eqb_eq (m_centry array) 0)) by lia. cbn [mbind option_bind].
    eexists. split; [done|]. unfold array_ok, view. rewrite Erg. simpl. split_and!; try done; lia.
  - destruct fAlloc; [right|by left]. destruct (m_rgentry array) as [rg|] eqn:Erg; [|done].
    destruct Hrg as [Hrg Hpos]. cbn [new_array fmap option_fmap option_map].
    set (rgNew := fresh <$> seq 0 (Z.to_nat (m_centryMax array))).
    assert (length rgNew = Z.to_nat (m_centryMax array)) as Hlen by (unfold rgNew; by rewrite length_fmap, length_seq).
    change 0 with (Z.of_nat 0).
    rewrite (copy_entries_ok (Z.to_nat (m_centry array)) 0 array rg rgNew) by (done || lia).
    cbn [fmap option_fmap option_map mbind option_bind]. eexists. split; [done|].
    assert (length (slice 0 (Z.to_nat (m_centry array)) rg) = Z.to_nat (m_centry array)) as Hsl
      by (unfold slice; rewrite length_take, length_drop; lia).
    split; [|split_and!; try done].
    + unfold array_ok. simpl. rewrite length_put_at by lia. lia.
    + unfold view. rewrite Erg. simpl. unfold put_at. simpl. rewrite take_app_length' by lia.
      unfold slice. by rewrite drop_0.
Qed.
End Claims.

(** ** Concrete instances *)

Definition cmpZ (x y : Z) : Z := x - y.

Lemma cmpZ_ok : compare_ok cmpZ.
Proof. unfold cmpZ. split; intros; lia. Qed.

Definition qsort_merge (cmp : Z -> Z -> Z) (l : list Z) : list Z := merge_sort (le_of cmp) l.

Lemma qsort_merge_ok : qsort_ok qsort_merge.
Proof.
  intros cmp l Hc. split; [apply merge_sort_Permutation|].
  assert (Transitive (le_of cmp)) by (intros x y z; apply Hc).
  assert (Total (le_of cmp)).
  { intros x y. unfold le_of. pose proof (cmp_sym _ Hc x y). pose proof (cmp_sym _ Hc y x).
    destruct (decide (cmp x y <= 0)); [by left|right; lia]. }
  apply (StronglySorted_merge_sort (le_of cmp)).
Qed.

Definition bsearch_scan (cmp : Z -> Z -> Z) (key : Z) (l : list Z) : option nat :=
  fst <$> list_find (fun x => cmp key x = 0) l.

Lemma bsearch_scan_ok : bsearch_ok bsearch_scan.
Proof.
  intros cmp key l _ _. unfold bsearch_scan. destruct (list_find _ l) as [[i x]|] eqn:E; simpl.
  - apply list_find_Some in E as (H1 & H2 & _). by exists x.
  - apply list_find_None in E. intros x Hx. by apply (proj1 (list.Forall_forall _ _) E).
Qed.

Definition demo : CArray Z := Array 5 6 (Some [30; 10; 30; 20; 10; 0]) 0 false 4.

Lemma demo_ok : array_ok demo.
Proof. unfold array_ok, SIZE_MAX. simpl. lia. Qed.

Lemma array_set_entry_witness :
  array_ok demo /\ Z.of_nat 8 < SIZE_MAX /\
  ((true = false /\ Capacity demo <= Z.of_nat 8 /\
    ErrSetEntry (fun _ => 7) true demo (Z.of_nat 8) 99 = Some (errOutOfMemory, demo)) \/
   exists a', ErrSetEntry (fun _ => 7) true demo (Z.of_nat 8) 99 = Some (errSuccess, a') /\ array_ok a' /\
    Size a' = Z.max (Size demo) (Z.of_nat 8 + 1) /\ Entry a' (Z.of_nat 8) = Some 99 /\
    (forall j, j <> 8%nat -> Z.of_nat j < Size demo -> Entry a' (Z.of_nat j) = Entry demo (Z.of_nat j)) /\
    (m_fEntryDefault demo = true -> forall j, Size demo <= Z.of_nat j -> (j < 8)%nat ->
       Entry a' (Z.of_nat j) = Some (m_entryDefault demo)) /\
    (if Z.of_nat 8 <? Capacity demo then Capacity a' = Capacity demo
     else Z.of_nat 8 + 1 <= Capacity a' < Z.of_nat 8 + 1 + m_centryGrowth demo)).
Proof.
  assert (Z.of_nat 8 < SIZE_MAX) as Hi by (unfold SIZE_MAX; lia).
  split; [exact demo_ok|]. split; [exact Hi|].
  exact (array_set_entry (fun _ => 7) true demo 8 99 demo_ok Hi).
Defined.

Lemma set_entry_at_not_found_witness :
  array_ok demo /\ ErrSetEntry (fun _ => 7) true demo iEntryNotFound 99 = None.
Proof. split; [exact demo_ok|]. exact (set_entry_at_not_found (fun _ => 7) true demo 99 demo_ok). Defined.

Lemma array_sort_unique_witness :
  qsort_ok qsort_merge /\ compare_ok cmpZ /\ array_ok demo /\
  (exists a', SortAndRemoveDuplicates (fun _ => 7) qsort_merge true demo cmpZ = Some (errSuccess, a') /\ array_ok a' /\
    Capacity a' = Capacity demo /\ StronglySorted (lt_of cmpZ) (view a') /\
    (forall x, x ∈ view a' -> x ∈ view demo) /\
    (forall x, x ∈ view demo -> exists y, y ∈ view a' /\ cmpZ y x = 0)) /\
  (view ∘ snd <$> SortAndRemoveDuplicates (fun _ => 7) qsort_merge true demo cmpZ) = Some [10; 20; 30].
Proof.
  split; [exact qsort_merge_ok|]. split; [exact cmpZ_ok|]. split; [exact demo_ok|]. split.
  - exact (array_sort_unique (fun _ => 7) qsort_merge true demo cmpZ qsort_merge_ok cmpZ_ok demo_ok).
  - vm_compute. reflexivity.
Defined.

Definition demo_sorted : CArray Z := Array 3 6 (Some [10; 20; 30; 20; 30; 0]) 0 false 4.

Lemma array_searches_agree_witness :
  bsearch_ok bsearch_scan /\ compare_ok cmpZ /\ array_ok demo_sorted /\
  StronglySorted (lt_of cmpZ) (view demo_sorted) /\
  exists i, SearchLinear demo_sorted 20 cmpZ = Some i /\ SearchBinary bsearch_scan demo_sorted 20 cmpZ = i /\
    found cmpZ 20 (view demo_sorted) i.
Proof.
  assert (array_ok demo_sorted) as Hok by (unfold array_ok, SIZE_MAX; simpl; lia).
  assert (StronglySorted (lt_of cmpZ) (view demo_sorted)) as Hs
    by (unfold view; simpl; repeat constructor; unfold lt_of, cmpZ; lia).
  split; [exact bsearch_scan_ok|]. split; [exact cmpZ_ok|]. split; [exact Hok|]. split; [exact Hs|].
  exact (array_searches_agree bsearch_scan demo_sorted 20 cmpZ bsearch_scan_ok cmpZ_ok Hok Hs).
Defined.

Lemma array_clone_witness :
  array_ok demo /\
  ((true = false /\ Capacity demo <> 0 /\
    ErrClone (fun _ => 7) true (CArray_ctor 0) demo = Some (errOutOfMemory, CArray_ctor 0)) \/
   exists a', ErrClone (fun _ => 7) true (CArray_ctor 0) demo = Some (errSuccess, a') /\ array_ok a' /\
    view a' = view demo /\ Size a' = Size demo /\ Capacity a' = Capacity demo /\
    m_entryDefault a' = m_entryDefault demo /\ m_fEntryDefault a' = m_fEntryDefault demo /\
    m_centryGrowth a' = m_centryGrowth demo).
Proof. split; [exact demo_ok|]. exact (array_clone (fun _ => 7) true (CArray_ctor 0) demo demo_ok). Defined.
