(* ===== verification/Table.v ===== *)
(** * Table: the sorted table of collection.hxx

    [CTable< CKey, CEntry >] keeps its entries in a [CArray] and sorts them itself:
    by insertion for small tables, where it then searches linearly, and by quick
    sort with a bounded stack of partitions otherwise, where it searches by
    bisection.  Entries are compared with each other ([CmpEntry]) and with keys
    ([CmpKey]) by functions of the client.  Indices are 64-bit [size_t]s with their
    wrap-around; reading or writing an entry outside the array is [None].

    The constructor that takes an array of entries is left out: it names a
    constructor that [CArray] does not have. *)

From S2P Require Import Prelude DynArray.

Inductive PfnSearch := LinearSearch | BinarySearch.

Record CTable (E : Type) := Table { m_arrayKeyEntry : CArray E; m_pfnSearch : PfnSearch }.
Arguments Table {E}.
Arguments m_arrayKeyEntry {E}.
Arguments m_pfnSearch {E}.

Inductive terr := terrSuccess | terrInvalidParameter | terrOutOfMemory | terrKeyChange.

#[export] Instance terr_eq_dec : EqDecision terr.
Proof. solve_decision. Defined.

Section Operations.
Context {E K : Type} (fresh : nat -> E) (entryDefault : E) (CmpEntry : E -> E -> Z) (CmpKey : E -> K -> Z).

(** ** Access to the entries *)

Definition _Entry (a : CArray E) (ikeyentry : Z) : option E := Entry a ikeyentry.

Definition _SetEntry (a : CArray E) (ikeyentry : Z) (keyentry : E) : option (CArray E) :=
  SetEntry a (PEntry a ikeyentry) keyentry.

Definition _SwapEntry (a : CArray E) (ikeyentry1 ikeyentry2 : Z) : option (CArray E) :=
  keyentryT ← _Entry a ikeyentry1;
  x2 ← _Entry a ikeyentry2;
  a ← _SetEntry a ikeyentry1 x2;
  _SetEntry a ikeyentry2 keyentryT.

(** ** Insertion sort *)

(** The inner loop, from [ikeyentryFirst] down; its result is the array and the
    value of [ikeyentryFirst] after the loop. *)
Fixpoint shift_loop (fuel : nat) (a : CArray E) (keyentryKey : E) (ikeyentryMinIn ikeyentryFirst : Z)
  : option (CArray E * Z) :=
  match fuel with
  | O => None
  | S fuel =>
      let fMore := ikeyentryFirst >=? u64 (ikeyentryMinIn + 1) in
      let ikeyentryFirst := u64 (ikeyentryFirst - 1) in
      if fMore then
        x ← _Entry a ikeyentryFirst;
        if CmpEntry x keyentryKey >? 0 then
          a ← _SetEntry a (u64 (ikeyentryFirst + 1)) x;
          shift_loop fuel a keyentryKey ikeyentryMinIn ikeyentryFirst
        else Some (a, ikeyentryFirst)
      else Some (a, ikeyentryFirst)
  end.

(** The body of the outer loop. *)
Definition insert_entry (a : CArray E) (ikeyentryMinIn ikeyentryFirst ikeyentryLast : Z) : option (CArray E) :=
  x ← _Entry a ikeyentryFirst;
  y ← _Entry a ikeyentryLast;
  if CmpEntry x y >? 0 then
    keyentryKey ← _Entry a ikeyentryLast;
    x ← _Entry a ikeyentryFirst;
    a ← _SetEntry a ikeyentryLast x;
    '(a, ikeyentryFirst) ← shift_loop (S (Z.to_nat ikeyentryFirst)) a keyentryKey ikeyentryMinIn ikeyentryFirst;
    _SetEntry a (u64 (ikeyentryFirst + 1)) keyentryKey
  else Some a.

Fixpoint insertion_loop (fuel : nat) (a : CArray E) (ikeyentryMinIn ikeyentryMaxIn ikeyentryFirst ikeyentryLast : Z)
  : option (CArray E) :=
  match fuel with
  | O => None
  | S fuel =>
      if ikeyentryLast <? ikeyentryMaxIn then
        a ← insert_entry a ikeyentryMinIn ikeyentryFirst ikeyentryLast;
        insertion_loop fuel a ikeyentryMinIn ikeyentryMaxIn ikeyentryLast (u64 (ikeyentryLast + 1))
      else Some a
  end.

Definition _InsertionSort (a : CArray E) (ikeyentryMinIn ikeyentryMaxIn : Z) : option (CArray E) :=
  insertion_loop (S (Z.to_nat ikeyentryMaxIn)) a ikeyentryMinIn ikeyentryMaxIn ikeyentryMinIn (u64 (ikeyentryMinIn + 1)).

(** ** Quick sort *)

(** The smallest of three entries to the front. *)
Definition order_entries (a : CArray E) (ikeyentry1 ikeyentry2 : Z) : option (CArray E) :=
  x ← _Entry a ikeyentry1;
  y ← _Entry a ikeyentry2;
  if CmpEntry x y >? 0 then _SwapEntry a ikeyentry1 ikeyentry2 else Some a.

Definition choose_pivot (a : CArray E) (ikeyentryFirst ikeyentryMid ikeyentryLast : Z) : option (CArray E) :=
  a ← order_entries a ikeyentryFirst ikeyentryMid;
  a ← order_entries a ikeyentryFirst ikeyentryLast;
  order_entries a ikeyentryMid ikeyentryLast.

(** The two inner loops of the partitioning. *)
Fixpoint first_loop (fuel : nat) (a : CArray E) (ikeyentryMin ikeyentryFirst ikeyentryLast : Z) : option Z :=
  match fuel with
  | O => None
  | S fuel =>
      if ikeyentryFirst <=? ikeyentryLast then
        x ← _Entry a ikeyentryFirst;
        p ← _Entry a ikeyentryMin;
        if CmpEntry x p <=? 0 then first_loop fuel a ikeyentryMin (u64 (ikeyentryFirst + 1)) ikeyentryLast
        else Some ikeyentryFirst
      else Some ikeyentryFirst
  end.

Fixpoint last_loop (fuel : nat) (a : CArray E) (ikeyentryMin ikeyentryFirst ikeyentryLast : Z) : option Z :=
  match fuel with
  | O => None
  | S fuel =>
      if ikeyentryFirst <=? ikeyentryLast then
        x ← _Entry a ikeyentryLast;
        p ← _Entry a ikeyentryMin;
        if CmpEntry x p >? 0 then last_loop fuel a ikeyentryMin ikeyentryFirst (u64 (ikeyentryLast - 1))
        else Some ikeyentryLast
      else Some ikeyentryLast
  end.

(** The do-while loop around them. *)
Fixpoint partition_loop (fuel : nat) (a : CArray E) (ikeyentryMin ikeyentryFirst ikeyentryLast : Z)
  : option (CArray E * Z * Z) :=
  match fuel with
  | O => None
  | S fuel =>
      let rounds := S (S (Z.to_nat ikeyentryLast)) in
      ikeyentryFirst ← first_loop rounds a ikeyentryMin ikeyentryFirst ikeyentryLast;
      ikeyentryLast ← last_loop rounds a ikeyentryMin ikeyentryFirst ikeyentryLast;
      '(a, ikeyentryFirst, ikeyentryLast) ←
        (if ikeyentryFirst <? ikeyentryLast then
           a ← _SwapEntry a ikeyentryFirst ikeyentryLast;
           Some (a, u64 (ikeyentryFirst + 1), u64 (ikeyentryLast - 1))
         else Some (a, ikeyentryFirst, ikeyentryLast));
      if ikeyentryFirst <=? ikeyentryLast then partition_loop fuel a ikeyentryMin ikeyentryFirst ikeyentryLast
      else Some (a, ikeyentryFirst, ikeyentryLast)
  end.

Definition ckeyentryMin : Z := 32.

Definition cpartMax : nat := 16.

(** The smaller and the larger part. *)
Definition choose_parts (ikeyentryMin ikeyentryMax ikeyentryFirst ikeyentryLast : Z) : (Z * Z) * (Z * Z) :=
  if u64 (ikeyentryMax - ikeyentryFirst) =? 0 then
    ((ikeyentryLast, ikeyentryMax), (ikeyentryMin, ikeyentryLast))
  else if u64 (ikeyentryMax - ikeyentryFirst) >? u64 (ikeyentryFirst - ikeyentryMin) then
    ((ikeyentryMin, ikeyentryFirst), (ikeyentryFirst, ikeyentryMax))
  else
    ((ikeyentryFirst, ikeyentryMax), (ikeyentryMin, ikeyentryFirst)).

(** One partitioning of [ikeyentryMin, ikeyentryMax). *)
Definition partition (a : CArray E) (ikeyentryMin ikeyentryMax : Z) : option (CArray E * Z * Z) :=
  let ikeyentryFirst := ikeyentryMin in
  let ikeyentryMid := u64 (ikeyentryMin + u64 (ikeyentryMax - ikeyentryMin) / 2) in
  let ikeyentryLast := u64 (ikeyentryMax - 1) in
  a ← choose_pivot a ikeyentryFirst ikeyentryMid ikeyentryLast;
  '(a, ikeyentryFirst, ikeyentryLast) ←
    partition_loop (S (Z.to_nat ikeyentryMax)) a ikeyentryMin ikeyentryFirst ikeyentryLast;
  a ← _SwapEntry a ikeyentryMin ikeyentryLast;
  Some (a, ikeyentryFirst, ikeyentryLast).

(** The loop of [_QuickSort]; [rgpart] holds the parts still to be sorted, the
    last one pushed first.  A part that does not fit is sorted by a recursive call,
    which starts with no parts. *)
Fixpoint quick_loop (fuel : nat) (a : CArray E) (ikeyentryMin ikeyentryMax : Z) (rgpart : list (Z * Z))
  : option (CArray E) :=
  match fuel with
  | O => None
  | S fuel =>
      if u64 (ikeyentryMax - ikeyentryMin) <? ckeyentryMin then
        a ← _InsertionSort a ikeyentryMin ikeyentryMax;
        match rgpart with
        | [] => Some a
        | (ikeyentryMin, ikeyentryMax) :: rgpart => quick_loop fuel a ikeyentryMin ikeyentryMax rgpart
        end
      else
        '(a, ikeyentryFirst, ikeyentryLast) ← partition a ikeyentryMin ikeyentryMax;
        let '((ikeyentrySmallMin, ikeyentrySmallMax), (ikeyentryLargeMin, ikeyentryLargeMax)) :=
          choose_parts ikeyentryMin ikeyentryMax ikeyentryFirst ikeyentryLast in
        if bool_decide (length rgpart < cpartMax)%nat then
          quick_loop fuel a ikeyentrySmallMin ikeyentrySmallMax ((ikeyentryLargeMin, ikeyentryLargeMax) :: rgpart)
        else
          a ← quick_loop fuel a ikeyentryLargeMin ikeyentryLargeMax [];
          quick_loop fuel a ikeyentrySmallMin ikeyentrySmallMax rgpart
  end.

Definition _QuickSort (a : CArray E) (ikeyentryMinIn ikeyentryMaxIn : Z) : option (CArray E) :=
  quick_loop (S (2 * Z.to_nat (ikeyentryMaxIn - ikeyentryMinIn))) a ikeyentryMinIn ikeyentryMaxIn [].

(** ** Searching *)

Fixpoint linear_search (fuel : nat) (a : CArray E) (key : K) (fHigh : bool) (ikeyentry : Z) : option Z :=
  match fuel with
  | O => None
  | S fuel =>
      if ikeyentry <? Size a then
        x ← _Entry a ikeyentry;
        let cmp := CmpKey x key in
        if negb ((cmp <? 0) || (cmp =? 0) && fHigh) then Some ikeyentry
        else linear_search fuel a key fHigh (u64 (ikeyentry + 1))
      else Some ikeyentry
  end.

Definition _LinearSearch (a : CArray E) (key : K) (fHigh : bool) : option Z :=
  linear_search (S (Z.to_nat (Size a))) a key fHigh 0.

Fixpoint binary_search (fuel : nat) (a : CArray E) (key : K) (fHigh : bool) (ikeyentryMin ikeyentryMax : Z) : option Z :=
  match fuel with
  | O => None
  | S fuel =>
      if ikeyentryMin <? ikeyentryMax then
        let ikeyentryMid := u64 (ikeyentryMin + u64 (ikeyentryMax - ikeyentryMin) / 2) in
        x ← _Entry a ikeyentryMid;
        let cmp := CmpKey x key in
        if (cmp <? 0) || (cmp =? 0) && fHigh
        then binary_search fuel a key fHigh (u64 (ikeyentryMid + 1)) ikeyentryMax
        else binary_search fuel a key fHigh ikeyentryMin ikeyentryMid
      else Some ikeyentryMax
  end.

Definition _BinarySearch (a : CArray E) (key : K) (fHigh : bool) : option Z :=
  binary_search (S (Z.to_nat (Size a))) a key fHigh 0 (Size a).

(** ** The table *)

Definition CTable_ctor : CTable E := Table (CArray_ctor entryDefault) LinearSearch.

Definition TSize (t : CTable E) : Z := Size (m_arrayKeyEntry t).

(** [( this->*m_pfnSearch )( key, fHigh )] *)
Definition search (t : CTable E) (key : K) (fHigh : bool) : option Z :=
  match m_pfnSearch t with
  | LinearSearch => _LinearSearch (m_arrayKeyEntry t) key fHigh
  | BinarySearch => _BinarySearch (m_arrayKeyEntry t) key fHigh
  end.

(** [for ( n = Size(), log2n = 0; n; n = n / 2, log2n++ )] *)
Fixpoint log2_loop (fuel : nat) (n log2n : Z) : option Z :=
  match fuel with
  | O => None
  | S fuel => if negb (n =? 0) then log2_loop fuel (n / 2) (log2n + 1) else Some log2n
  end.

Definition _ConfigureSearch (t : CTable E) (fInOrder : bool) : option (CTable E) :=
  log2n ← log2_loop 65 (TSize t) 0;
  if 2 * log2n <? TSize t then
    a ← (if negb fInOrder then _QuickSort (m_arrayKeyEntry t) 0 (TSize t) else Some (m_arrayKeyEntry t));
    Some (Table a BinarySearch)
  else
    a ← (if negb fInOrder then _InsertionSort (m_arrayKeyEntry t) 0 (TSize t) else Some (m_arrayKeyEntry t));
    Some (Table a LinearSearch).

(** The loop of [ErrLoad]. *)
Fixpoint load_loop (fuel : nat) (fAlloc : bool) (a : CArray E) (ientry ientryMin ientryMax : Z) (rgentry : list E)
  : option (CArray E) :=
  match fuel with
  | O => None
  | S fuel =>
      if ientry <? ientryMax then
        x ← rd rgentry (u64 (ientry - ientryMin));
        '(err, a) ← ErrSetEntry fresh fAlloc a ientry x;
        _ ← COLLAssert (bool_decide (err = errSuccess));
        load_loop fuel fAlloc a (u64 (ientry + 1)) ientryMin ientryMax rgentry
      else Some a
  end.

Definition ErrLoad (fAlloc : bool) (t : CTable E) (centry : Z) (rgentry : list E) : option (terr * CTable E) :=
  let ientryMin := TSize t in
  let ientryMax := u64 (TSize t + centry) in
  '(err, a) ← ErrSetSize fresh fAlloc (m_arrayKeyEntry t) (u64 (TSize t + centry));
  if negb (bool_decide (err = errSuccess)) then
    _ ← COLLAssert (bool_decide (err = errOutOfMemory));
    Some (terrOutOfMemory, Table a (m_pfnSearch t))
  else
    a ← load_loop (S (Z.to_nat centry)) fAlloc a ientryMin ientryMin ientryMax rgentry;
    t ← _ConfigureSearch (Table a (m_pfnSearch t)) false;
    Some (terrSuccess, t).

Definition TErrClone (fAlloc : bool) (t table : CTable E) : option (terr * CTable E) :=
  '(err, a) ← ErrClone fresh fAlloc (m_arrayKeyEntry t) (m_arrayKeyEntry table);
  if negb (bool_decide (err = errSuccess)) then
    _ ← COLLAssert (bool_decide (err = errOutOfMemory));
    Some (terrOutOfMemory, Table a (m_pfnSearch t))
  else Some (terrSuccess, Table a (m_pfnSearch table)).

Definition ErrCloneArray (fAlloc : bool) (t : CTable E) (array : CArray E) : option (terr * CTable E) :=
  '(err, a) ← ErrClone fresh fAlloc (m_arrayKeyEntry t) array;
  if negb (bool_decide (err = errSuccess)) then
    _ ← COLLAssert (bool_decide (err = errOutOfMemory));
    Some (terrOutOfMemory, Table a (m_pfnSearch t))
  else
    t ← _ConfigureSearch (Table a (m_pfnSearch t)) false;
    Some (terrSuccess, t).

(** [pentry] is a pointer to an entry of the table. *)
Definition ErrUpdateEntry (t : CTable E) (pentry : option Z) (entry : E) : option (terr * CTable E) :=
  p ← pentry;
  x ← _Entry (m_arrayKeyEntry t) p;
  if CmpEntry x entry =? 0 then
    a ← SetEntry (m_arrayKeyEntry t) pentry entry;
    Some (terrSuccess, Table a (m_pfnSearch t))
  else Some (terrKeyChange, t).

Definition Clear (fAlloc : bool) (t : CTable E) : option (CTable E) :=
  '(err, a) ← ErrSetCapacity fresh fAlloc (m_arrayKeyEntry t) 0;
  _ ← COLLAssert (bool_decide (err = errSuccess));
  Some (Table a (m_pfnSearch t)).

(** A pointer to an entry is its index, null is [None]. *)
Definition TPEntry (t : CTable E) (ientry : Z) : option Z := PEntry (m_arrayKeyEntry t) ientry.

(** [ikeyentry < Size() && cond( _Entry( ikeyentry ).Cmp( key ) )] *)
Definition entry_is (t : CTable E) (key : K) (cond : Z -> bool) (ikeyentry : Z) : option bool :=
  if ikeyentry <? TSize t then x ← _Entry (m_arrayKeyEntry t) ikeyentry; Some (cond (CmpKey x key)) else Some false.

(** [ikeyentry > 0 && _Entry( ikeyentry - 1 ).Cmp( key ) == 0] *)
Definition entry_before_is (t : CTable E) (key : K) (ikeyentry : Z) : option bool :=
  if ikeyentry >? 0 then x ← _Entry (m_arrayKeyEntry t) (u64 (ikeyentry - 1)); Some (CmpKey x key =? 0) else Some false.

Definition SeekLT (t : CTable E) (key : K) : option (option Z) :=
  ikeyentry ← search t key false;
  b ← entry_is t key (fun cmp => cmp <? 0) ikeyentry;
  Some (if b : bool then TPEntry t ikeyentry else TPEntry t (u64 (ikeyentry - 1))).

Definition SeekLE (t : CTable E) (key : K) : option (option Z) :=
  ikeyentry ← search t key false;
  b ← entry_is t key (fun cmp => cmp <=? 0) ikeyentry;
  Some (if b : bool then TPEntry t ikeyentry else TPEntry t (u64 (ikeyentry - 1))).

Definition SeekEQ (t : CTable E) (key : K) : option (option Z) :=
  ikeyentry ← search t key false;
  b ← entry_is t key (fun cmp => cmp =? 0) ikeyentry;
  Some (if b : bool then TPEntry t ikeyentry else None).

Definition SeekHI (t : CTable E) (key : K) : option (option Z) :=
  ikeyentry ← search t key true;
  b ← entry_before_is t key ikeyentry;
  Some (if b : bool then TPEntry t (u64 (ikeyentry - 1)) else None).

Definition SeekGE (t : CTable E) (key : K) : option (option Z) :=
  ikeyentry ← search t key true;
  b ← entry_before_is t key ikeyentry;
  Some (if b : bool then TPEntry t (u64 (ikeyentry - 1)) else TPEntry t ikeyentry).

Definition SeekGT (t : CTable E) (key : K) : option (option Z) :=
  ikeyentry ← search t key true;
  Some (TPEntry t ikeyentry).

End Operations.
