(* ===== verification/TableSort.v ===== *)
(** * TableSort: the sorting routines of the table

    Each routine works on a range of the array's entries: it permutes them, leaves
    the others alone, and the range is sorted afterwards.  The quick sort ends
    because every partitioning splits its range into two that are not empty. *)

From Stdlib Require Import Sorting.Sorted.
From stdpp Require Import sorting.
From S2P Require Import Prelude DynArray DynArrayProofs Table.

Lemma u64_small (x : Z) : 0 <= x <= SIZE_MAX -> u64 x = x.
Proof. unfold SIZE_MAX, wrapu. intros. apply Z.mod_small. lia. Qed.

(** ** Permutations within a range *)

Section Ranges.
Context {E : Type}.
Implicit Types l : list E.

Definition swap (i j : nat) l : list E :=
  match l !! i, l !! j with Some x, Some y => <[j := x]> (<[i := y]> l) | _, _ => l end.

Lemma length_swap (i j : nat) l : length (swap i j l) = length l.
Proof. unfold swap. destruct (l !! i), (l !! j); try done. by rewrite !length_insert. Qed.

Lemma lookup_swap (i j k : nat) l : (i < length l)%nat -> (j < length l)%nat ->
  swap i j l !! k = if decide (k = j) then l !! i else if decide (k = i) then l !! j else l !! k.
Proof.
  intros Hi Hj. unfold swap. destruct (lookup_lt_is_Some_2 l i Hi) as [x Hx].
  destruct (lookup_lt_is_Some_2 l j Hj) as [y Hy]. rewrite Hx, Hy. case_decide as H1; [subst k|].
  - rewrite list_lookup_insert_eq; [done|by rewrite length_insert].
  - rewrite list_lookup_insert_ne by done. case_decide as H2; [subst k|].
    + by rewrite list_lookup_insert_eq.
    + by rewrite list_lookup_insert_ne.
Qed.

Lemma swap_Permutation (i j : nat) l : swap i j l ≡ₚ l.
Proof.
  unfold swap. destruct (l !! i) as [x|] eqn:Hx; [|done]. destruct (l !! j) as [y|] eqn:Hy; [|done].
  by apply Permutation_insert_swap.
Qed.

(** [l'] is [l] with the entries of the range permuted. *)
Definition perm_in (m M : nat) l l' : Prop := l' ≡ₚ l /\ forall k, (k < m \/ M <= k)%nat -> l' !! k = l !! k.

Lemma perm_in_refl (m M : nat) l : perm_in m M l l.
Proof. done. Qed.

Lemma perm_in_trans (m M : nat) l1 l2 l3 : perm_in m M l1 l2 -> perm_in m M l2 l3 -> perm_in m M l1 l3.
Proof. intros [HP1 H1] [HP2 H2]. split; [by rewrite HP2|]. intros k Hk. by rewrite H2, H1. Qed.

Lemma perm_in_weaken (m M m' M' : nat) l l' :
  (m' <= m)%nat -> (M <= M')%nat -> perm_in m M l l' -> perm_in m' M' l l'.
Proof. intros Hm HM [HP H]. split; [done|]. intros k Hk. apply H. lia. Qed.

Lemma perm_in_length (m M : nat) l l' : perm_in m M l l' -> length l' = length l.
Proof. intros [HP _]. by apply Permutation_length. Qed.

Lemma perm_in_swap (m M i j : nat) l :
  (m <= i < M)%nat -> (m <= j < M)%nat -> (M <= length l)%nat -> perm_in m M l (swap i j l).
Proof.
  intros Hi Hj HM. split; [apply swap_Permutation|]. intros k Hk. rewrite lookup_swap by lia. repeat case_decide; lia || done.
Qed.

Lemma same_take_drop (m M : nat) l l' : (m <= M <= length l)%nat -> perm_in m M l l' ->
  take m l' = take m l /\ drop M l' = drop M l.
Proof.
  intros HM [HP H]. split; apply list_eq; intros k.
  - destruct (decide (k < m)%nat); [rewrite !lookup_take_lt by lia; apply H; lia|by rewrite !lookup_take_ge by lia].
  - rewrite !lookup_drop. apply H. lia.
Qed.

(** What holds of every entry of the range holds of them after the permutation. *)
Lemma perm_in_forall (m M : nat) l l' (P : E -> Prop) : (m <= M <= length l)%nat -> perm_in m M l l' ->
  (forall k x, (m <= k < M)%nat -> l !! k = Some x -> P x) -> forall k x, (m <= k < M)%nat -> l' !! k = Some x -> P x.
Proof.
  intros HM Hp HP k x Hk Hx. destruct (same_take_drop m M l l' HM Hp) as [Ht Hd]. pose proof (perm_in_length _ _ _ _ Hp).
  assert (Hs : slice m (M - m) l' ≡ₚ slice m (M - m) l).
  { destruct Hp as [Hp _]. assert (Hsp : forall l0, length l0 = length l ->
      l0 = take m l0 ++ slice m (M - m) l0 ++ drop M l0).
    { intros l0 Hl0. unfold slice. rewrite <- (take_drop m l0) at 1. f_equal.
      rewrite <- (take_drop (M - m) (drop m l0)) at 1. f_equal. rewrite drop_drop. f_equal. lia. }
    rewrite (Hsp l'), (Hsp l), Ht, Hd in Hp by lia. by apply Permutation_app_inv_l, Permutation_app_inv_r in Hp. }
  assert (Hin : x ∈ slice m (M - m) l').
  { apply list_elem_of_lookup. exists (k - m)%nat. unfold slice. rewrite lookup_take_lt, lookup_drop by lia.
    by replace (m + (k - m))%nat with k by lia. }
  rewrite Hs in Hin. apply list_elem_of_lookup in Hin as [i Hi]. unfold slice in Hi.
  apply lookup_take_Some in Hi as [Hi Hlt]. rewrite lookup_drop in Hi. apply (HP (m + i)%nat); [lia|done].
Qed.

End Ranges.

(** ** Arrays with given entries *)

Section Sort.
Context {E : Type} (cmp : E -> E -> Z) (Hcmp : compare_ok cmp).
Context (cap : Z) (spare : list E) (d : E) (fd : bool) (g : Z).
Implicit Types l : list E.

(** The array whose entries in use are [l]. *)
Definition arr l : CArray E := Array (Z.of_nat (length l)) cap (Some (l ++ spare)) d fd g.

Lemma get_arr l (i : nat) : (i < length l)%nat -> _Entry (arr l) (Z.of_nat i) = l !! i.
Proof.
  intros Hi. unfold _Entry, Entry, PEntry, arr; cbn [m_centry m_rgentry]. rewrite (proj2 (Z.ltb_lt _ _)) by lia.
  cbn. by rewrite rd_nat, lookup_app_l.
Qed.

Lemma set_arr l (i : nat) x : (i < length l)%nat -> _SetEntry (arr l) (Z.of_nat i) x = Some (arr (<[i := x]> l)).
Proof.
  intros Hi. unfold _SetEntry, SetEntry, PEntry, arr; cbn [m_centry m_rgentry]. rewrite (proj2 (Z.ltb_lt _ _)) by lia.
  cbn. rewrite wr_nat by (rewrite length_app; lia). cbn. by rewrite length_insert, insert_app_l.
Qed.

Lemma swap_arr l (i j : nat) : (i < length l)%nat -> (j < length l)%nat ->
  _SwapEntry (arr l) (Z.of_nat i) (Z.of_nat j) = Some (arr (swap i j l)).
Proof.
  intros Hi Hj. unfold _SwapEntry, swap. rewrite !get_arr by done.
  destruct (lookup_lt_is_Some_2 l i Hi) as [x ->]. destruct (lookup_lt_is_Some_2 l j Hj) as [y ->]. cbn.
  rewrite set_arr by done. cbn. by rewrite set_arr by (by rewrite length_insert).
Qed.

Definition sorted_in (m M : nat) l : Prop :=
  forall i j x y, (m <= i < j)%nat -> (j < M)%nat -> l !! i = Some x -> l !! j = Some y -> cmp x y <= 0.

Definition sorts (m M : nat) l l' : Prop := perm_in m M l l' /\ sorted_in m M l'.

(** ** Insertion sort *)

(** The key is not in the array while it is moved; [<[ h := key ]> l] is the
    array with the key put into the hole [h]. *)
Record hole_ok (m last : nat) (l0 : list E) (h : nat) (key : E) l : Prop := {
  hole_perm : perm_in m (S last) l0 (<[h := key]> l);
  hole_range : (m <= h < last)%nat;
  hole_sorted : forall i j x y, (m <= i < j)%nat -> (j <= last)%nat -> i <> h -> j <> h ->
    l !! i = Some x -> l !! j = Some y -> cmp x y <= 0;
  hole_above : forall j y, (h < j <= last)%nat -> l !! j = Some y -> cmp key y <= 0 }.

Lemma hole_move (h : nat) (key x : E) l : (S h < length l)%nat -> l !! h = Some x ->
  <[h := key]> (<[S h := x]> l) = swap h (S h) (<[S h := key]> l).
Proof.
  intros Hh Hx. unfold swap. rewrite list_lookup_insert_ne, Hx by lia. rewrite list_lookup_insert_eq by done.
  rewrite (list_insert_insert_ne l h (S h) key key) by lia. rewrite list_insert_insert_eq.
  by rewrite list_insert_insert_ne by lia.
Qed.

Lemma hole_step (m last : nat) (l0 : list E) (h : nat) (key x : E) l :
  (last < length l)%nat -> (m <= h)%nat -> hole_ok m last l0 (S h) key l -> l !! h = Some x -> 0 < cmp x key ->
  hole_ok m last l0 h key (<[S h := x]> l).
Proof.
  intros Hlen Hm [Hp Hr Hs Ha] Hx Hc. apply (cmp_sym _ Hcmp) in Hc. split.
  - rewrite hole_move by (done || lia). eapply perm_in_trans; [done|]. apply perm_in_swap; rewrite ?length_insert; lia.
  - lia.
  - intros i j a b Hij Hj Hih Hjh Ei Ej.
    destruct (decide (j = S h)) as [->|Hj1]; [rewrite list_lookup_insert_eq in Ej by lia; simplify_eq|].
    + rewrite list_lookup_insert_ne in Ei by lia. by apply (Hs i h); [lia..|done|done].
    + rewrite list_lookup_insert_ne in Ej by done.
      destruct (decide (i = S h)) as [->|Hi1]; [rewrite list_lookup_insert_eq in Ei by lia; simplify_eq|].
      * by apply (Hs h j); [lia..|done|done].
      * rewrite list_lookup_insert_ne in Ei by done. by apply (Hs i j).
  - intros j y Hj Ej. destruct (decide (j = S h)) as [->|Hj1].
    + rewrite list_lookup_insert_eq in Ej by lia. simplify_eq. lia.
    + rewrite list_lookup_insert_ne in Ej by done. apply (Ha j); [lia|done].
Qed.

(** Putting the key into the hole sorts the range, once everything below is smaller. *)
Lemma hole_done (m last : nat) (l0 : list E) (h : nat) (key : E) l :
  hole_ok m last l0 h key l ->
  (forall i x, (m <= i < h)%nat -> l !! i = Some x -> cmp x key <= 0) -> sorts m (S last) l0 (<[h := key]> l).
Proof.
  intros [Hp Hr Hs Ha] Hb. split; [done|]. intros i j x y Hij Hj Ei Ej.
  destruct (decide (i = h)) as [->|Hi1].
  - apply list_lookup_insert_Some in Ei as [(_ & <- & _)|[? _]]; [|done].
    rewrite list_lookup_insert_ne in Ej by lia. apply (Ha j); [lia|done].
  - rewrite list_lookup_insert_ne in Ei by done. destruct (decide (j = h)) as [->|Hj1].
    + apply list_lookup_insert_Some in Ej as [(_ & <- & _)|[? _]]; [|done]. by apply (Hb i); [lia|].
    + rewrite list_lookup_insert_ne in Ej by done. apply (Hs i j); [lia..|done|done].
Qed.

Lemma shift_loop_ok (m last : nat) (l0 : list E) (key : E) : forall fuel h l,
  (last < length l)%nat -> Z.of_nat (length l) <= SIZE_MAX -> (h - m < fuel)%nat -> hole_ok m last l0 h key l ->
  exists h' l', shift_loop cmp fuel (arr l) key (Z.of_nat m) (Z.of_nat h) = Some (arr l', u64 (Z.of_nat h' - 1)) /\
    (h' < length l')%nat /\ length l' = length l /\ sorts m (S last) l0 (<[h' := key]> l').
Proof.
  induction fuel as [|fuel IH]; intros h l Hlen Hmax Hf Hok; [lia|]. pose proof (hole_range _ _ _ _ _ _ Hok) as Hr.
  cbn [shift_loop]. rewrite (u64_small (Z.of_nat m + 1)) by lia. rewrite Z.geb_leb.
  destruct (Z.leb_spec (Z.of_nat m + 1) (Z.of_nat h)) as [Hh|Hh].
  - destruct h as [|h]; [lia|]. replace (Z.of_nat (S h) - 1) with (Z.of_nat h) by lia.
    rewrite (u64_small (Z.of_nat h)) by lia. rewrite get_arr by lia.
    destruct (lookup_lt_is_Some_2 l h ltac:(lia)) as [x Hx]. rewrite Hx. cbn [mbind option_bind].
    rewrite Z.gtb_ltb. destruct (Z.ltb_spec 0 (cmp x key)) as [Hc|Hc].
    + rewrite (u64_small (Z.of_nat h + 1)) by lia. replace (Z.of_nat h + 1) with (Z.of_nat (S h)) by lia.
      rewrite set_arr by lia. cbn [mbind option_bind].
      destruct (IH h (<[S h := x]> l)) as (h' & l' & Er & H1 & H2 & H3); [by rewrite length_insert..|lia| |].
      { by apply hole_step; [lia|lia|..]. }
      exists h', l'. rewrite length_insert in H2. done.
    + exists (S h), l. replace (Z.of_nat (S h) - 1) with (Z.of_nat h) by lia. rewrite (u64_small (Z.of_nat h)) by lia.
      split_and!; [done|lia|done|]. apply hole_done; [done|]. intros i a Hi Ei.
      destruct (decide (i = h)) as [->|Hne]; [by simplify_eq|]. eapply (cmp_trans _ Hcmp); [|exact Hc].
      apply (hole_sorted _ _ _ _ _ _ Hok i h); [lia..|done|done].
  - exists h, l. split_and!; [done|lia|done|]. apply hole_done; [done|]. intros; lia.
Qed.

Lemma insert_entry_ok (m first : nat) l :
  (m <= first)%nat -> (S first < length l)%nat -> Z.of_nat (length l) <= SIZE_MAX -> sorted_in m (S first) l ->
  exists l', insert_entry cmp (arr l) (Z.of_nat m) (Z.of_nat first) (Z.of_nat (S first)) = Some (arr l') /\
    sorts m (S (S first)) l l'.
Proof.
  intros Hm Hlen Hmax Hs. unfold insert_entry. rewrite !get_arr by lia.
  destruct (lookup_lt_is_Some_2 l first ltac:(lia)) as [x Hx]. destruct (lookup_lt_is_Some_2 l (S first) Hlen) as [y Hy].
  rewrite Hx, Hy. cbn [mbind option_bind]. rewrite Z.gtb_ltb. destruct (Z.ltb_spec 0 (cmp x y)) as [Hc|Hc].
  - rewrite set_arr by done. cbn [mbind option_bind].
    destruct (shift_loop_ok m (S first) l y (S (Z.to_nat (Z.of_nat first))) first (<[S first := x]> l))
      as (h' & l' & Er & H1 & H2 & H3); rewrite ?length_insert in *; [lia..| |].
    { split; [|lia| |].
      - pose proof (perm_in_swap m (S (S first)) first (S first) l ltac:(lia) ltac:(lia) ltac:(lia)) as Hp.
        unfold swap in Hp. rewrite Hx, Hy in Hp. by rewrite (list_insert_insert_ne _ first (S first)) by lia.
      - intros i j a b Hij Hj Hi1 Hj1 Ei Ej. rewrite list_lookup_insert_ne in Ei by lia.
        destruct (decide (j = S first)) as [->|].
        + rewrite list_lookup_insert_eq in Ej by lia. simplify_eq. apply (Hs i first); [lia..|done|done].
        + rewrite list_lookup_insert_ne in Ej by lia. apply (Hs i j); [lia..|done|done].
      - intros j b Hj Ej. replace j with (S first) in Ej by lia. rewrite list_lookup_insert_eq in Ej by lia. simplify_eq.
        apply (cmp_sym _ Hcmp) in Hc. lia. }
    rewrite Er. cbn [mbind option_bind]. exists (<[h' := y]> l'). split; [|done].
    assert (Hw : u64 (u64 (Z.of_nat h' - 1) + 1) = Z.of_nat h').
    { unfold wrapu. rewrite Zplus_mod_idemp_l. replace (Z.of_nat h' - 1 + 1) with (Z.of_nat h') by lia.
      apply Z.mod_small. unfold SIZE_MAX in Hmax. lia. }
    rewrite Hw. by apply set_arr.
  - exists l. split; [done|]. split; [apply perm_in_refl|]. intros i j a b Hij Hj Ei Ej.
    destruct (decide (j = S first)) as [->|]; [simplify_eq|apply (Hs i j); [lia..|done|done]].
    destruct (decide (i = first)) as [->|]; [by simplify_eq|]. eapply (cmp_trans _ Hcmp); [|exact Hc].
    apply (Hs i first); [lia..|done|done].
Qed.

Lemma insertion_loop_ok (m M : nat) : forall fuel first l,
  (m <= first)%nat -> (M <= length l)%nat -> Z.of_nat (length l) <= SIZE_MAX -> Z.of_nat first < SIZE_MAX ->
  (M - first < fuel)%nat -> sorted_in m (S first) l ->
  exists l', insertion_loop cmp fuel (arr l) (Z.of_nat m) (Z.of_nat M) (Z.of_nat first) (Z.of_nat (S first)) = Some (arr l') /\
    sorts m M l l'.
Proof.
  induction fuel as [|fuel IH]; intros first l Hm HM Hmax Hfm Hf Hs; [lia|]. cbn [insertion_loop].
  destruct (Z.ltb_spec (Z.of_nat (S first)) (Z.of_nat M)) as [Hlt|Hge].
  - destruct (insert_entry_ok m first l) as (l1 & -> & [Hp1 Hs1]); [lia..|done|]. cbn [mbind option_bind].
    pose proof (perm_in_length _ _ _ _ Hp1) as Hl1. rewrite (u64_small (Z.of_nat (S first) + 1)) by lia.
    replace (Z.of_nat (S first) + 1) with (Z.of_nat (S (S first))) by lia.
    destruct (IH (S first) l1) as (l2 & Er & [Hp2 Hs2]); [lia..|done|].
    exists l2. split; [done|]. split; [|done]. eapply perm_in_trans; [|done]. eapply perm_in_weaken; [| |done]; lia.
  - exists l. split; [done|]. split; [apply perm_in_refl|]. intros i j x y Hij Hj. apply Hs; lia.
Qed.

Lemma InsertionSort_ok (m M : nat) l :
  (M <= length l)%nat -> Z.of_nat (length l) <= SIZE_MAX -> Z.of_nat m < SIZE_MAX ->
  exists l', _InsertionSort cmp (arr l) (Z.of_nat m) (Z.of_nat M) = Some (arr l') /\ sorts m M l l'.
Proof.
  intros HM Hmax Hm. unfold _InsertionSort. rewrite (u64_small (Z.of_nat m + 1)) by lia.
  replace (Z.of_nat m + 1) with (Z.of_nat (S m)) by lia.
  apply insertion_loop_ok; [lia..|]. intros i j x y Hij Hj. lia.
Qed.

(** ** Partitioning *)

Lemma first_loop_ok (m last : nat) (p : E) l : forall fuel first,
  (m < length l)%nat -> l !! m = Some p -> (last < length l)%nat -> Z.of_nat (length l) <= SIZE_MAX ->
  (first <= S last)%nat -> (S last - first < fuel)%nat ->
  exists f, first_loop cmp fuel (arr l) (Z.of_nat m) (Z.of_nat first) (Z.of_nat last) = Some (Z.of_nat f) /\
    (first <= f <= S last)%nat /\ (forall k x, (first <= k < f)%nat -> l !! k = Some x -> cmp x p <= 0) /\
    ((f <= last)%nat -> exists x, l !! f = Some x /\ 0 < cmp x p).
Proof.
  induction fuel as [|fuel IH]; intros first Hm Hp Hlast Hmax Hfl Hf; [lia|]. cbn [first_loop].
  destruct (Z.leb_spec (Z.of_nat first) (Z.of_nat last)) as [Hle|Hgt].
  - rewrite !get_arr by lia. destruct (lookup_lt_is_Some_2 l first ltac:(lia)) as [x Hx].
    rewrite Hx, Hp. cbn [mbind option_bind]. destruct (Z.leb_spec (cmp x p) 0) as [Hc|Hc].
    + rewrite (u64_small (Z.of_nat first + 1)) by lia. replace (Z.of_nat first + 1) with (Z.of_nat (S first)) by lia.
      destruct (IH (S first)) as (f & Ef & Hr & Hl & Hs); [done || lia..|].
      exists f. split_and!; [done|lia|lia| |done]. intros k y Hk Hy.
      destruct (decide (k = first)) as [->|]; [by simplify_eq|]. by apply (Hl k); [lia|].
    + exists first. split_and!; [done|lia|lia|intros; lia|eauto].
  - exists first. split_and!; [done|lia|lia|intros; lia|lia].
Qed.

Lemma last_loop_ok (m first : nat) (p : E) l : forall fuel last,
  (m < length l)%nat -> l !! m = Some p -> (last < length l)%nat -> Z.of_nat (length l) <= SIZE_MAX ->
  (1 <= first <= S last)%nat -> (S last - first < fuel)%nat ->
  exists e, last_loop cmp fuel (arr l) (Z.of_nat m) (Z.of_nat first) (Z.of_nat last) = Some (Z.of_nat e) /\
    (first <= S e)%nat /\ (e <= last)%nat /\ (forall k x, (e < k <= last)%nat -> l !! k = Some x -> 0 < cmp x p) /\
    ((first <= e)%nat -> exists x, l !! e = Some x /\ cmp x p <= 0).
Proof.
  induction fuel as [|fuel IH]; intros last Hm Hp Hlast Hmax Hfl Hf; [lia|]. cbn [last_loop].
  destruct (Z.leb_spec (Z.of_nat first) (Z.of_nat last)) as [Hle|Hgt].
  - rewrite !get_arr by lia. destruct (lookup_lt_is_Some_2 l last ltac:(lia)) as [x Hx].
    rewrite Hx, Hp. cbn [mbind option_bind]. rewrite Z.gtb_ltb. destruct (Z.ltb_spec 0 (cmp x p)) as [Hc|Hc].
    + rewrite (u64_small (Z.of_nat last - 1)) by lia. replace (Z.of_nat last - 1) with (Z.of_nat (last - 1)) by lia.
      destruct (IH (last - 1)%nat) as (e & Ee & He1 & He2 & Hr & Hs); [done || lia..|].
      exists e. split_and!; [done|lia|lia| |done]. intros k y Hk Hy.
      destruct (decide (k = last)) as [->|]; [by simplify_eq|]. by apply (Hr k); [lia|].
    + exists last. split_and!; [done|lia|lia|intros; lia|eauto].
  - exists last. split_and!; [done|lia|lia|intros; lia|lia].
Qed.

(** The entries before [first] are at most the pivot, those after [last] above it;
    the pivot is the first entry of the range. *)
Record parted (m M : nat) (p : E) l0 l (first last : nat) : Prop := {
  part_perm : perm_in m M l0 l;
  part_pivot : l !! m = Some p;
  part_range : (m <= first <= S last)%nat /\ (last < M)%nat;
  part_low : forall k x, (m <= k < first)%nat -> l !! k = Some x -> cmp x p <= 0;
  part_high : forall k x, (last < k < M)%nat -> l !! k = Some x -> 0 < cmp x p }.

Lemma parted_narrow (m M : nat) (p : E) l0 l (first last f e : nat) :
  parted m M p l0 l first last -> (first <= f <= S e)%nat -> (e <= last)%nat ->
  (forall k x, (first <= k < f)%nat -> l !! k = Some x -> cmp x p <= 0) ->
  (forall k x, (e < k <= last)%nat -> l !! k = Some x -> 0 < cmp x p) -> parted m M p l0 l f e.
Proof.
  intros [Hp Hv Hr Hl Hh] Hf He Hl' Hh'. split; [done|done|lia| |].
  - intros k x Hk Hx. destruct (decide (k < first)%nat); [apply (Hl k)|apply (Hl' k)]; lia || done.
  - intros k x Hk Hx. destruct (decide (last < k)%nat); [apply (Hh k)|apply (Hh' k)]; lia || done.
Qed.

Lemma parted_swap (m M : nat) (p x y : E) l0 l (f e : nat) : (M <= length l)%nat ->
  parted m M p l0 l f e -> (m < f < e)%nat -> l !! f = Some x -> l !! e = Some y -> 0 < cmp x p -> cmp y p <= 0 ->
  parted m M p l0 (swap f e l) (S f) (e - 1).
Proof.
  intros HM [Hp Hv Hr Hl Hh] Hfe Hx Hy Hcx Hcy. split; [| |lia| |].
  - eapply perm_in_trans; [done|]. apply perm_in_swap; lia.
  - rewrite lookup_swap by lia. by repeat case_decide; [lia|lia|].
  - intros k z Hk Hz. rewrite lookup_swap in Hz by lia. repeat case_decide; simplify_eq; [lia|done|].
    by apply (Hl k); [lia|].
  - intros k z Hk Hz. rewrite lookup_swap in Hz by lia. repeat case_decide; simplify_eq; [done|lia|].
    by apply (Hh k); [lia|].
Qed.

Lemma partition_loop_ok (m M : nat) (p : E) l0 : forall fuel first last l,
  (M <= length l)%nat -> Z.of_nat (length l) <= SIZE_MAX -> (S last - first < fuel)%nat -> (first <= last)%nat ->
  parted m M p l0 l first last ->
  exists l' f, partition_loop cmp fuel (arr l) (Z.of_nat m) (Z.of_nat first) (Z.of_nat last) =
      Some (arr l', Z.of_nat (S f), Z.of_nat f) /\
    (m <= f)%nat /\ parted m M p l0 l' (S f) f.
Proof.
  induction fuel as [|fuel IH]; intros first last l HM Hmax Hf Hfl Hpart; [lia|].
  pose proof Hpart as [Hperm Hv Hr Hlow Hhigh]. cbn [partition_loop].
  destruct (first_loop_ok m last p l (S (S (Z.to_nat (Z.of_nat last)))) first) as (f & -> & Hf1 & Hf2 & Hf3);
    [lia|done|lia..|]. cbn [mbind option_bind].
  assert (Hmf : (m < f)%nat).
  { destruct (decide (f = m)) as [->|]; [|lia]. destruct Hf3 as (x & Hx & Hc); [lia|]. simplify_eq.
    rewrite (cmp_refl _ Hcmp) in Hc. lia. }
  destruct (last_loop_ok m f p l (S (S (Z.to_nat (Z.of_nat last)))) last) as (e & -> & He1 & He2 & He3 & He4);
    [lia|done|lia..|]. cbn [mbind option_bind].
  pose proof (parted_narrow _ _ _ _ _ _ _ f e Hpart ltac:(lia) He2 Hf2 He3) as Hpart'.
  destruct (Z.ltb_spec (Z.of_nat f) (Z.of_nat e)) as [Hlt|Hge].
  - rewrite swap_arr by lia. cbn [mbind option_bind]. destruct Hf3 as (x & Hx & Hcx); [lia|].
    destruct He4 as (y & Hy & Hcy); [lia|].
    pose proof (parted_swap _ _ _ _ _ _ _ _ _ HM Hpart' ltac:(lia) Hx Hy Hcx Hcy) as Hpart''.
    rewrite (u64_small (Z.of_nat f + 1)), (u64_small (Z.of_nat e - 1)) by lia.
    replace (Z.of_nat f + 1) with (Z.of_nat (S f)) by lia. replace (Z.of_nat e - 1) with (Z.of_nat (e - 1)) by lia.
    destruct (Z.leb_spec (Z.of_nat (S f)) (Z.of_nat (e - 1))) as [Hle|Hgt].
    + apply IH; [by rewrite length_swap..|lia|lia|done].
    + exists (swap f e l), f. replace (e - 1)%nat with f in Hpart'' |- * by lia. split_and!; [done|lia|done].
  - assert (f = S e) as ->.
    { destruct (decide (f = e)) as [->|]; [|lia]. destruct Hf3 as (x & Hx & Hcx); [lia|].
      destruct He4 as (y & Hy & Hcy); [lia|]. simplify_eq. lia. }
    cbn [mbind option_bind]. rewrite (proj2 (Z.leb_gt _ _)) by lia. exists l, e. split_and!; [done|lia|done].
Qed.

Lemma order_entries_ok (m M i j : nat) l : (M <= length l)%nat -> (m <= i < M)%nat -> (m <= j < M)%nat ->
  exists l', order_entries cmp (arr l) (Z.of_nat i) (Z.of_nat j) = Some (arr l') /\ perm_in m M l l'.
Proof.
  intros HM Hi Hj. unfold order_entries. rewrite !get_arr by lia.
  destruct (lookup_lt_is_Some_2 l i ltac:(lia)) as [x Hx]. destruct (lookup_lt_is_Some_2 l j ltac:(lia)) as [y Hy].
  rewrite Hx, Hy. cbn [mbind option_bind]. destruct (cmp x y >? 0); [|exists l; split; [done|apply perm_in_refl]].
  rewrite swap_arr by lia. exists (swap i j l). split; [done|]. by apply perm_in_swap.
Qed.

Lemma choose_pivot_ok (m M i j k : nat) l :
  (M <= length l)%nat -> (m <= i < M)%nat -> (m <= j < M)%nat -> (m <= k < M)%nat ->
  exists l', choose_pivot cmp (arr l) (Z.of_nat i) (Z.of_nat j) (Z.of_nat k) = Some (arr l') /\ perm_in m M l l'.
Proof.
  intros HM Hi Hj Hk. unfold choose_pivot.
  destruct (order_entries_ok m M i j l HM Hi Hj) as (l1 & -> & H1). cbn [mbind option_bind].
  pose proof (perm_in_length _ _ _ _ H1). destruct (order_entries_ok m M i k l1) as (l2 & -> & H2); [lia..|].
  cbn [mbind option_bind]. pose proof (perm_in_length _ _ _ _ H2).
  destruct (order_entries_ok m M j k l2) as (l3 & -> & H3); [lia..|].
  exists l3. split; [done|]. eauto using perm_in_trans.
Qed.

(** After partitioning, the pivot is at [f], and everything after it is above it. *)
Lemma partition_ok (m M : nat) l :
  (m < M <= length l)%nat -> Z.of_nat (length l) <= SIZE_MAX ->
  exists l' f p, partition cmp (arr l) (Z.of_nat m) (Z.of_nat M) = Some (arr l', Z.of_nat (S f), Z.of_nat f) /\
    (m <= f < M)%nat /\ perm_in m M l l' /\ l' !! f = Some p /\
    (forall k x, (m <= k < S f)%nat -> l' !! k = Some x -> cmp x p <= 0) /\
    (forall k x, (f < k < M)%nat -> l' !! k = Some x -> 0 < cmp x p).
Proof.
  intros HM Hmax. unfold partition.
  assert (Hq : 0 <= (Z.of_nat M - Z.of_nat m) / 2 < Z.of_nat M - Z.of_nat m).
  { split; [apply Z.div_pos; lia|apply Z.div_lt; lia]. }
  rewrite (u64_small (Z.of_nat M - Z.of_nat m)), (u64_small (Z.of_nat M - 1)) by lia.
  rewrite (u64_small (Z.of_nat m + _)) by lia.
  set (mid := Z.to_nat (Z.of_nat m + (Z.of_nat M - Z.of_nat m) / 2)).
  replace (Z.of_nat m + (Z.of_nat M - Z.of_nat m) / 2) with (Z.of_nat mid) by lia.
  replace (Z.of_nat M - 1) with (Z.of_nat (M - 1)) by lia.
  destruct (choose_pivot_ok m M m mid (M - 1) l) as (l1 & -> & Hp1); [lia..|]. cbn [mbind option_bind].
  pose proof (perm_in_length _ _ _ _ Hp1) as Hl1. destruct (lookup_lt_is_Some_2 l1 m ltac:(lia)) as [p Hp].
  destruct (partition_loop_ok m M p l (S (Z.to_nat (Z.of_nat M))) m (M - 1) l1) as (l2 & f & -> & Hmf & [H1 H2 H3 H4 H5]);
    [lia..| |].
  { split; [done|done|lia|intros; lia|intros; lia]. }
  cbn [mbind option_bind]. pose proof (perm_in_length _ _ _ _ H1) as Hl2.
  rewrite swap_arr by lia. exists (swap m f l2), f, p. split_and!; [done|lia|lia| | | |].
  - eapply perm_in_trans; [done|]. apply perm_in_swap; lia.
  - rewrite lookup_swap by lia. by rewrite decide_True.
  - intros k x Hk Hx. rewrite lookup_swap in Hx by lia. repeat case_decide; simplify_eq.
    + rewrite (cmp_refl _ Hcmp). lia.
    + by apply (H4 f); [lia|].
    + by apply (H4 k).
  - intros k x Hk Hx. rewrite lookup_swap in Hx by lia. repeat case_decide; simplify_eq; [lia|lia|]. by apply (H5 k).
Qed.

(** ** Quick sort *)

(** Nothing before [c] is above anything from [c] on. *)
Definition splits (m c M : nat) l : Prop :=
  forall i j x y, (m <= i < c)%nat -> (c <= j < M)%nat -> l !! i = Some x -> l !! j = Some y -> cmp x y <= 0.

Lemma splits_left (m c M : nat) l l' :
  (m <= c)%nat -> (c <= length l)%nat -> splits m c M l -> perm_in m c l l' -> splits m c M l'.
Proof.
  intros Hmc Hc Hs Hp i j x y Hi Hj Hx Hy. destruct (Hp) as [_ Hout]. rewrite Hout in Hy by lia.
  apply (perm_in_forall m c l l' (fun x => cmp x y <= 0) ltac:(lia) Hp) with (k := i); [|done|done].
  intros k z Hk Hz. by apply (Hs k j).
Qed.

Lemma splits_right (m c M : nat) l l' :
  (c <= M)%nat -> (M <= length l)%nat -> splits m c M l -> perm_in c M l l' -> splits m c M l'.
Proof.
  intros Hmc Hc Hs Hp i j x y Hi Hj Hx Hy. destruct (Hp) as [_ Hout]. rewrite Hout in Hx by lia.
  apply (perm_in_forall c M l l' (fun y => cmp x y <= 0) ltac:(lia) Hp) with (k := j); [|done|done].
  intros k z Hk Hz. by apply (Hs i k).
Qed.

Lemma sorted_join (m c M : nat) l : splits m c M l -> sorted_in m c l -> sorted_in c M l -> sorted_in m M l.
Proof.
  intros Hs H1 H2 i j x y Hij Hj Hx Hy. destruct (decide (j < c)%nat); [by apply (H1 i j)|].
  destruct (decide (c <= i)%nat); [by apply (H2 i j); [lia|..]|]. apply (Hs i j); [lia|lia|done|done].
Qed.

Lemma sorted_frame (m M m' M' : nat) l l' : (M <= m' \/ M' <= m)%nat -> perm_in m' M' l l' -> sorted_in m M l -> sorted_in m M l'.
Proof.
  intros Hd [_ Hout] Hs i j x y Hij Hj Hx Hy. rewrite Hout in Hx, Hy by lia. by apply (Hs i j).
Qed.

(** Sorting both parts, in either order, sorts the range. *)
Lemma sorts_parts (m c M : nat) l l1 l2 l3 :
  (m <= c <= M)%nat -> (M <= length l)%nat -> perm_in m M l l1 -> splits m c M l1 ->
  (sorts m c l1 l2 /\ sorts c M l2 l3 \/ sorts c M l1 l2 /\ sorts m c l2 l3) -> sorts m M l l3.
Proof.
  intros Hc HM Hp Hs Hor. pose proof (perm_in_length _ _ _ _ Hp).
  destruct Hor as [[[Hp1 Hs1] [Hp2 Hs2]]|[[Hp1 Hs1] [Hp2 Hs2]]]; pose proof (perm_in_length _ _ _ _ Hp1); split.
  1,3: eapply perm_in_trans; [done|]; eapply perm_in_trans; (eapply perm_in_weaken; [| |done]; lia).
  - apply (sorted_join m c); [|eapply sorted_frame; [|done|done]; lia|done].
    eapply splits_right; [..|done]; [lia|lia|]. eapply splits_left; [..|done]; [lia|lia|done].
  - apply (sorted_join m c); [|done|eapply sorted_frame; [|done|done]; lia].
    eapply splits_left; [..|done]; [lia|lia|]. eapply splits_right; [..|done]; [lia|lia|done].
Qed.

(** The two parts a partitioning leaves: they are not empty, and one is all below
    the other. *)
Lemma choose_parts_ok (m M f : nat) (p : E) l :
  (M <= length l)%nat -> Z.of_nat (length l) <= SIZE_MAX -> (m <= f < M)%nat -> (S m < M)%nat -> l !! f = Some p ->
  (forall k x, (m <= k < S f)%nat -> l !! k = Some x -> cmp x p <= 0) ->
  (forall k x, (f < k < M)%nat -> l !! k = Some x -> 0 < cmp x p) ->
  exists c, (m < c < M)%nat /\ splits m c M l /\
    let low := (Z.of_nat m, Z.of_nat c) in let high := (Z.of_nat c, Z.of_nat M) in
    let r := choose_parts (Z.of_nat m) (Z.of_nat M) (Z.of_nat (S f)) (Z.of_nat f) in
    r = (low, high) \/ r = (high, low).
Proof.
  intros HM Hmax Hf Hm Hp Hlow Hhigh. unfold choose_parts.
  rewrite (u64_small (Z.of_nat M - _)), (u64_small (Z.of_nat (S f) - _)) by lia.
  destruct (Z.eqb_spec (Z.of_nat M - Z.of_nat (S f)) 0) as [H0|H0].
  - exists f. split_and!; [lia|lia| |by right]. intros i j x y Hi Hj Hx Hy.
    replace j with f in Hy by lia. simplify_eq. by apply (Hlow i); [lia|].
  - exists (S f). split_and!; [lia|lia| |destruct (_ >? _); auto]. intros i j x y Hi Hj Hx Hy.
    assert (Hxp := Hlow i x ltac:(lia) Hx). assert (Hyp := Hhigh j y ltac:(lia) Hy).
    apply (cmp_sym _ Hcmp) in Hyp. eapply (cmp_trans _ Hcmp); [done|lia].
Qed.

Fixpoint sorts_all (ps : list (nat * nat)) l l' : Prop :=
  match ps with
  | [] => l' = l
  | (m, M) :: ps => exists l1, sorts m M l l1 /\ sorts_all ps l1 l'
  end.

(** An upper bound on the rounds of the loop. *)
Fixpoint weight (ps : list (nat * nat)) : nat :=
  match ps with
  | [] => 0
  | (m, M) :: ps => 2 * (M - m) - 1 + weight ps
  end.

Definition zpart (q : nat * nat) : Z * Z := (Z.of_nat q.1, Z.of_nat q.2).

Definition parts_ok (n : nat) (ps : list (nat * nat)) : Prop := Forall (fun q => (q.1 < q.2 <= n)%nat) ps.

Lemma quick_loop_ok : forall fuel m M ps l,
  Z.of_nat (length l) <= SIZE_MAX -> (m < M <= length l)%nat \/ ps = [] /\ (m = 0 /\ M <= length l)%nat -> parts_ok (length l) ps ->
  (weight ((m, M) :: ps) < fuel)%nat ->
  exists l', quick_loop cmp fuel (arr l) (Z.of_nat m) (Z.of_nat M) (zpart <$> ps) = Some (arr l') /\
    sorts_all ((m, M) :: ps) l l'.
Proof.
  induction fuel as [|fuel IH]; intros m M ps l Hmax Hm Hps Hf; [lia|]. cbn [quick_loop].
  assert (HM : (m <= M <= length l)%nat) by lia. rewrite (u64_small (Z.of_nat M - _)) by lia.
  destruct (Z.ltb_spec (Z.of_nat M - Z.of_nat m) ckeyentryMin) as [Hsmall|Hbig].
  - destruct (InsertionSort_ok m M l) as (l1 & -> & Hs1); [lia..|unfold SIZE_MAX in *; lia|]. cbn [mbind option_bind].
    destruct ps as [|[m' M'] ps]; cbn [fmap list_fmap]; [exists l1; cbn; eauto|].
    pose proof (perm_in_length _ _ _ _ (proj1 Hs1)) as Hl1. apply list.Forall_cons in Hps as [Hq Hps].
    destruct Hm as [Hm|[? _]]; [|done].
    destruct (IH m' M' ps l1) as (l' & E' & Hs'); [rewrite Hl1; auto..|cbn [weight] in *; lia|].
    exists l'. split; [exact E'|]. exists l1. done.
  - unfold ckeyentryMin in Hbig. destruct (partition_ok m M l) as (l1 & f & p & -> & Hf1 & Hp1 & Hpv & Hlow & Hhigh); [lia..|].
    cbn [mbind option_bind]. pose proof (perm_in_length _ _ _ _ Hp1) as Hl1.
    destruct (choose_parts_ok m M f p l1) as (c & Hc & Hsp & Hr); [lia..|done|done|done|].
    assert (Hgo : exists a b, choose_parts (Z.of_nat m) (Z.of_nat M) (Z.of_nat (S f)) (Z.of_nat f) = (zpart a, zpart b) /\
      ((a = (m, c) /\ b = (c, M)) \/ (a = (c, M) /\ b = (m, c)))).
    { destruct Hr as [Hr|Hr]; cbn in Hr; [exists (m, c), (c, M)|exists (c, M), (m, c)]; auto. }
    destruct Hgo as (a & b & Eab & Hab). rewrite Eab. destruct a as [am aM], b as [bm bM]. unfold zpart. cbn [fst snd].
    assert (Hwa : (am < aM <= length l1)%nat) by (destruct Hab as [[? ?]|[? ?]]; simplify_eq; lia).
    assert (Hwb : (bm < bM <= length l1)%nat) by (destruct Hab as [[? ?]|[? ?]]; simplify_eq; lia).
    assert (Hww : (weight [(am, aM); (bm, bM)] < weight [(m, M)])%nat)
      by (destruct Hab as [[? ?]|[? ?]]; simplify_eq; cbn [weight]; lia).
    cbn [weight] in Hww, Hf.
    rewrite length_fmap. case_bool_decide as Hlen.
    + destruct (IH am aM ((bm, bM) :: ps) l1) as (l' & E' & Hs'); [by rewrite Hl1|by left|..].
      { constructor; [done|by rewrite Hl1]. } { cbn [weight]. lia. }
      exists l'. split; [exact E'|]. destruct Hs' as (l2 & Hs2 & l3 & Hs3 & Hrest). exists l3. split; [|done].
      apply (sorts_parts m c M l l1 l2 l3); [lia|lia|done|done|].
      destruct Hab as [[? ?]|[? ?]]; simplify_eq; auto.
    + destruct (IH bm bM [] l1) as (l2 & E2 & Hs2); [by rewrite Hl1|by left|constructor|cbn [weight]; lia|].
      cbn [fmap list_fmap] in E2. rewrite E2. cbn [mbind option_bind]. destruct Hs2 as (l2' & Hs2 & ->).
      pose proof (perm_in_length _ _ _ _ (proj1 Hs2)) as Hl2.
      destruct (IH am aM ps l2') as (l' & E' & Hs'); [by rewrite Hl2, Hl1|left; lia|by rewrite Hl2, Hl1|cbn [weight]; lia|].
      exists l'. split; [exact E'|]. destruct Hs' as (l3 & Hs3 & Hrest). exists l3. split; [|done].
      apply (sorts_parts m c M l l1 l2' l3); [lia|lia|done|done|].
      destruct Hab as [[? ?]|[? ?]]; simplify_eq; auto.
Qed.

Lemma QuickSort_ok l : Z.of_nat (length l) <= SIZE_MAX ->
  exists l', _QuickSort cmp (arr l) 0 (Z.of_nat (length l)) = Some (arr l') /\ sorts 0 (length l) l l'.
Proof.
  intros Hmax. unfold _QuickSort. change 0 with (Z.of_nat 0).
  destruct (quick_loop_ok (S (2 * Z.to_nat (Z.of_nat (length l) - Z.of_nat 0))) 0 (length l) [] l) as (l' & Er & l1 & Hs & ->);
    [done|right; split_and!; auto; lia|constructor|cbn [weight]; lia|]. eauto.
Qed.

(** A range that is the whole list. *)
Lemma sorts_whole l l' : sorts 0 (length l) l l' -> l' ≡ₚ l /\ StronglySorted (le_of cmp) l'.
Proof.
  intros [Hp Hs]. split; [apply Hp|]. pose proof (perm_in_length _ _ _ _ Hp) as Hlen. rewrite <- Hlen in Hs.
  clear Hp Hlen l. induction l' as [|x l IH]; constructor.
  - apply IH. intros i j y z Hij Hj Hy Hz. by apply (Hs (S i) (S j)); [lia|cbn; lia|..].
  - apply list.Forall_forall. intros y [j Hj]%list_elem_of_lookup. pose proof (lookup_lt_Some _ _ _ Hj).
    by apply (Hs 0%nat (S j)); [lia|cbn; lia|..].
Qed.

End Sort.
