(* ===== verification/TableTop.v ===== *)
(** * TableTop: the table is sorted and its searches find what they promise

    A table is well formed when its entries are in order.  Every operation keeps
    it so, whichever sort it uses, and every seek returns the entry that the number
    of entries below and up to the key determines, whichever search is configured. *)

From Stdlib Require Import Sorting.Sorted.
From stdpp Require Import sorting.
From S2P Require Import Prelude DynArray DynArrayProofs DynArrayTop Table TableSort.

(** The comparison with a key respects the order of the entries. *)
Record key_ok {E K} (CmpEntry : E -> E -> Z) (CmpKey : E -> K -> Z) : Prop := KeyOk {
  key_lt : forall x y k, CmpEntry x y <= 0 -> CmpKey y k < 0 -> CmpKey x k < 0;
  key_le : forall x y k, CmpEntry x y <= 0 -> CmpKey y k <= 0 -> CmpKey x k <= 0
}.

Section Table.
Context {E K : Type} (fresh : nat -> E) (entryDefault : E) (CmpEntry : E -> E -> Z) (CmpKey : E -> K -> Z).
Hypothesis Hcmp : compare_ok CmpEntry.

(** ** Sorting an array *)

Lemma array_is_arr (a : CArray E) : array_ok a -> 0 < Size a ->
  exists spare, a = arr (m_centryMax a) spare (m_entryDefault a) (m_fEntryDefault a) (m_centryGrowth a) (view a).
Proof.
  intros Hok Hs. pose proof (length_view a Hok) as Hl. destruct Hok as (Hc & _ & _ & Hrg). unfold Size, view in *.
  destruct a as [c cm [rg|] df fd g]; cbn in *; [|lia]. exists (drop (Z.to_nat c) rg). unfold arr.
  by rewrite Hl, take_drop.
Qed.

Lemma arr_ok (a : CArray E) (spare l : list E) : array_ok a ->
  a = arr (m_centryMax a) spare (m_entryDefault a) (m_fEntryDefault a) (m_centryGrowth a) (view a) -> length l = length (view a) ->
  let a' := arr (m_centryMax a) spare (m_entryDefault a) (m_fEntryDefault a) (m_centryGrowth a) l in
  array_ok a' /\ view a' = l /\ Size a' = Size a.
Proof.
  intros Hok Ha Hl. rewrite Ha in Hok. pose proof (f_equal Size Ha) as Hsz. unfold array_ok, view, Size in *. cbn in *.
  rewrite length_app in *. rewrite Hl, Nat2Z.id. split; [lia|]. split; [|lia].
  by rewrite <- Hl, take_app_length.
Qed.

(** [_ConfigureSearch] sorts. *)
Definition configured (a a' : CArray E) : Prop :=
  array_ok a' /\ Size a' = Size a /\ view a' ≡ₚ view a /\ StronglySorted (le_of CmpEntry) (view a').

Lemma sort_array (sort : CArray E -> Z -> Z -> option (CArray E)) (a : CArray E) :
  (forall cap spare d fd g l, Z.of_nat (length l) <= SIZE_MAX ->
     exists l', sort (arr cap spare d fd g l) 0 (Z.of_nat (length l)) = Some (arr cap spare d fd g l') /\
       sorts CmpEntry 0 (length l) l l') ->
  sort a 0 0 = Some a -> array_ok a -> exists a', sort a 0 (Size a) = Some a' /\ configured a a'.
Proof.
  intros Hsort H0 Hok. pose proof (length_view a Hok) as Hl. destruct (Z.eq_dec (Size a) 0) as [Hz|Hnz].
  - exists a. rewrite Hz, H0. split; [done|]. split_and!; [done|done|done|].
    rewrite (nil_length_inv (view a)) by lia. constructor.
  - destruct (array_is_arr a Hok) as [spare Ha]; [unfold array_ok, Size in *; lia|].
    destruct (Hsort (m_centryMax a) spare (m_entryDefault a) (m_fEntryDefault a) (m_centryGrowth a) (view a)) as (l' & Es & Hs).
    { destruct Hok as (? & ? & _). unfold Size in Hl. lia. }
    rewrite <- Ha, Hl in Es. eexists. split; [exact Es|]. apply sorts_whole in Hs as [Hp Hs].
    destruct (arr_ok a spare l' Hok Ha (Permutation_length Hp)) as (H1 & H2 & H3).
    split_and!; [done|done|by rewrite H2|by rewrite H2].
Qed.

Lemma log2_loop_ok (k : nat) : forall fuel n c, 0 <= n < 2 ^ Z.of_nat k -> (k < fuel)%nat ->
  exists r, log2_loop fuel n c = Some r.
Proof.
  induction k as [|k IH]; intros [|fuel] n c Hn Hf; try lia; cbn [log2_loop].
  - change (2 ^ Z.of_nat 0) with 1 in Hn. replace n with 0 by lia. cbn. eauto.
  - destruct (Z.eqb_spec n 0); cbn [negb]; [eauto|]. apply IH; [|lia].
    replace (Z.of_nat (S k)) with (Z.of_nat k + 1) in Hn by lia. rewrite Z.pow_add_r in Hn by lia.
    split; [apply Z.div_pos; lia|apply Z.div_lt_upper_bound; lia].
Qed.

Lemma ConfigureSearch_ok (t : CTable E) : array_ok (m_arrayKeyEntry t) ->
  exists t', _ConfigureSearch CmpEntry t false = Some t' /\ configured (m_arrayKeyEntry t) (m_arrayKeyEntry t').
Proof.
  intros Hok. unfold _ConfigureSearch, TSize.
  destruct (log2_loop_ok 64 65 (Size (m_arrayKeyEntry t)) 0) as [r ->]; [|lia|].
  { destruct Hok as (? & ? & _). unfold Size, SIZE_MAX in *. change (Z.of_nat 64) with 64. lia. }
  cbn [mbind option_bind negb]. destruct (_ <? _).
  - destruct (sort_array (_QuickSort CmpEntry) (m_arrayKeyEntry t)) as (a' & -> & Hc); [|done|done|].
    { intros. by apply QuickSort_ok. }
    cbn. eauto.
  - destruct (sort_array (_InsertionSort CmpEntry) (m_arrayKeyEntry t)) as (a' & -> & Hc); [|done|done|].
    { intros cap spare d fd g l Hl. change 0 with (Z.of_nat 0) at 1.
      apply InsertionSort_ok; [done|done|done|]. unfold SIZE_MAX. cbn. lia. }
    cbn. eauto.
Qed.

(** ** The invariant and the operations *)

Definition table_ok (t : CTable E) : Prop :=
  array_ok (m_arrayKeyEntry t) /\ StronglySorted (le_of CmpEntry) (view (m_arrayKeyEntry t)).

Definition entries (t : CTable E) : list E := view (m_arrayKeyEntry t).

Lemma load_loop_ok (fAlloc : bool) (n k : nat) (rg : list E) : forall fuel (j : nat) (a : CArray E),
  array_ok a -> Size a = Z.of_nat (n + k) -> (k <= length rg)%nat -> (j <= k)%nat -> (k - j < fuel)%nat ->
  exists a', load_loop fresh fuel fAlloc a (Z.of_nat (n + j)) (Z.of_nat n) (Z.of_nat (n + k)) rg = Some a' /\
    array_ok a' /\ Size a' = Size a /\ view a' = take (n + j) (view a) ++ drop j (take k rg).
Proof.
  induction fuel as [|fuel IH]; intros j a Hok Hs Hk Hj Hf; [lia|]. cbn [load_loop].
  pose proof (length_view a Hok) as Hl. assert (Hmax : Size a <= SIZE_MAX) by (destruct Hok as (? & ? & _); unfold Size; lia).
  destruct (Z.ltb_spec (Z.of_nat (n + j)) (Z.of_nat (n + k))) as [Hlt|Hge].
  - rewrite (u64_small (Z.of_nat (n + j) - _)), !(u64_small (Z.of_nat (n + j) + 1)) by lia.
    replace (Z.of_nat (n + j) - Z.of_nat n) with (Z.of_nat j) by lia. rewrite rd_nat.
    destruct (lookup_lt_is_Some_2 rg j ltac:(lia)) as [x Hx]. rewrite Hx. cbn [mbind option_bind].
    unfold ErrSetEntry. rewrite (u64_small (Z.of_nat (n + j) + 1)) by lia. change (m_centry a) with (Size a).
    rewrite (proj2 (Z.ltb_ge _ _)) by lia. cbn [mbind option_bind]. rewrite bool_decide_true by done. cbn [negb].
    destruct (SetEntry_ok a (n + j) x Hok) as (a1 & -> & Hok1 & Hs1 & Hv1); [lia|]. cbn [mbind option_bind].
    rewrite bool_decide_true by done. cbn [COLLAssert mbind option_bind].
    replace (Z.of_nat (n + j) + 1) with (Z.of_nat (n + S j)) by lia.
    destruct (IH (S j) a1) as (a' & Ea & Hok' & Hs' & Hv'); [done|lia..|].
    exists a'. split_and!; [done|done|lia|]. rewrite Hv', Hv1.
    replace (n + S j)%nat with (S (n + j)) by lia.
    rewrite (take_S_r _ _ x) by (rewrite list_lookup_insert_eq; [done|lia]).
    rewrite take_insert_ge by lia. rewrite <- app_assoc. f_equal. cbn.
    symmetry. apply drop_S. by rewrite lookup_take_lt by lia.
  - exists a. split_and!; [done|done|done|]. replace j with k by lia. rewrite drop_ge by (rewrite length_take; lia).
    rewrite app_nil_r, take_ge; [done|lia].
Qed.

Lemma ErrLoad_ok (fAlloc : bool) (t : CTable E) (rg : list E) :
  array_ok (m_arrayKeyEntry t) -> TSize t + Z.of_nat (length rg) <= SIZE_MAX ->
  (fAlloc = false /\ ErrLoad fresh CmpEntry fAlloc t (Z.of_nat (length rg)) rg = Some (terrOutOfMemory, t)) \/
  exists t', ErrLoad fresh CmpEntry fAlloc t (Z.of_nat (length rg)) rg = Some (terrSuccess, t') /\ table_ok t' /\
    entries t' ≡ₚ entries t ++ rg.
Proof.
  intros Hok Hmax. pose proof (length_view _ Hok) as Hl. unfold ErrLoad, TSize in *.
  set (a := m_arrayKeyEntry t) in *. set (n := length (view a)) in *. rewrite <- Hl in *.
  rewrite !(u64_small (Z.of_nat n + _)) by lia.
  destruct (ErrSetSize_ok fresh fAlloc a (Z.of_nat n + Z.of_nat (length rg)) Hok) as
    [(-> & _ & ->)|(a1 & -> & Hok1 & Hs1 & (Hl1 & Hpre & _) & _)]; [lia| |].
  { left. cbn. split; [done|]. by destruct t. }
  right. cbn [mbind option_bind]. rewrite bool_decide_true by done. cbn [negb].
  destruct (load_loop_ok fAlloc n (length rg) rg (S (Z.to_nat (Z.of_nat (length rg)))) 0 a1) as (a2 & E2 & Hok2 & Hs2 & Hv2);
    [done|lia..|]. rewrite Nat.add_0_r, Nat2Z.inj_add in E2. rewrite E2. cbn [mbind option_bind].
  destruct (ConfigureSearch_ok (Table a2 (m_pfnSearch t)) Hok2) as (t' & -> & Hok3 & _ & Hp & Hs). cbn [mbind option_bind].
  exists t'. split_and!; [done|by split|]. unfold entries. cbn in Hp. rewrite Hp, Hv2, drop_0, (take_ge rg), Nat.add_0_r by lia.
  fold n in Hpre. rewrite Hpre, take_ge; [done|]. fold n. lia.
Qed.

Lemma sorted_update (l : list E) (i : nat) (x y : E) :
  l !! i = Some x -> CmpEntry x y = 0 -> StronglySorted (le_of CmpEntry) l -> StronglySorted (le_of CmpEntry) (<[i := y]> l).
Proof.
  intros Hx Hxy. assert (Hyx := cmp_zero_sym _ Hcmp _ _ Hxy). revert i Hx. induction l as [|z l IH]; intros [|i] Hx Hs; simplify_eq/=.
  - apply StronglySorted_inv in Hs as [Hs Hf]. constructor; [done|]. eapply list.Forall_impl; [exact Hf|].
    intros w Hw. unfold le_of in *. eapply (cmp_trans _ Hcmp); [|exact Hw]. lia.
  - apply StronglySorted_inv in Hs as [Hs Hf]. constructor; [by apply IH|]. apply Forall_insert; [done|].
    eapply (cmp_trans _ Hcmp); [exact (Forall_lookup_1 _ _ _ _ Hf Hx)|lia].
Qed.

Lemma SetEntry_at (a : CArray E) (i : nat) (x : E) : array_ok a -> Z.of_nat i < Size a ->
  exists a', SetEntry a (Some (Z.of_nat i)) x = Some a' /\ array_ok a' /\ view a' = <[i := x]> (view a).
Proof.
  intros Hok Hi. destruct (SetEntry_ok a i x Hok Hi) as (a' & Ea & Hok' & _ & Hv). unfold PEntry in Ea.
  rewrite (proj2 (Z.ltb_lt _ _)) in Ea by (unfold Size in Hi; lia). eauto.
Qed.

Lemma ErrUpdateEntry_ok (t : CTable E) (i : nat) (x y : E) : table_ok t -> entries t !! i = Some x ->
  (CmpEntry x y <> 0 /\ ErrUpdateEntry CmpEntry t (TPEntry t (Z.of_nat i)) y = Some (terrKeyChange, t)) \/
  CmpEntry x y = 0 /\ exists t', ErrUpdateEntry CmpEntry t (TPEntry t (Z.of_nat i)) y = Some (terrSuccess, t') /\
    table_ok t' /\ entries t' = <[i := y]> (entries t).
Proof.
  intros [Hok Hs] Hx. pose proof (length_view _ Hok) as Hl. pose proof (lookup_lt_Some _ _ _ Hx) as Hi. unfold entries in *.
  unfold ErrUpdateEntry, TPEntry, PEntry. change (m_centry (m_arrayKeyEntry t)) with (Size (m_arrayKeyEntry t)).
  rewrite (proj2 (Z.ltb_lt _ _)) by lia. cbn [mbind option_bind]. unfold _Entry. rewrite Entry_view by (done || lia).
  rewrite Hx. cbn [mbind option_bind]. destruct (Z.eqb_spec (CmpEntry x y) 0) as [Hc|Hc]; [right|by left]. split; [done|].
  destruct (SetEntry_at (m_arrayKeyEntry t) i y Hok) as (a' & -> & Hok' & Hv); [lia|]. cbn [mbind option_bind].
  eexists. split; [done|]. split; [|exact Hv]. split; [done|]. cbn. rewrite Hv. by apply (sorted_update _ _ x).
Qed.

Lemma Clear_ok (fAlloc : bool) (t : CTable E) : table_ok t ->
  exists t', Clear fresh fAlloc t = Some t' /\ table_ok t' /\ entries t' = [].
Proof.
  intros [Hok _]. unfold Clear. destruct (ErrSetCapacity_ok fresh fAlloc (m_arrayKeyEntry t) 0 Hok) as
    [(_ & ? & _)|(a' & -> & Hok' & _ & Hv & _)]; [unfold SIZE_MAX; lia|done|].
  cbn. eexists. split; [done|]. unfold table_ok, entries. cbn. rewrite Hv. split; [|done]. split; [done|constructor].
Qed.

Lemma TErrClone_ok (fAlloc : bool) (t table : CTable E) : table_ok table ->
  (fAlloc = false /\ TErrClone fresh fAlloc t table = Some (terrOutOfMemory, t)) \/
  exists t', TErrClone fresh fAlloc t table = Some (terrSuccess, t') /\ table_ok t' /\ entries t' = entries table.
Proof.
  intros [Hok Hs]. unfold TErrClone.
  destruct (array_clone fresh fAlloc (m_arrayKeyEntry t) (m_arrayKeyEntry table) Hok) as [(-> & _ & ->)|(a' & -> & Hok' & Hv & _)].
  - left. cbn. by destruct t.
  - right. cbn. eexists. split; [done|]. unfold table_ok, entries. cbn. by rewrite Hv.
Qed.

Lemma ErrCloneArray_ok (fAlloc : bool) (t : CTable E) (array : CArray E) : array_ok array ->
  (fAlloc = false /\ ErrCloneArray fresh CmpEntry fAlloc t array = Some (terrOutOfMemory, t)) \/
  exists t', ErrCloneArray fresh CmpEntry fAlloc t array = Some (terrSuccess, t') /\ table_ok t' /\ entries t' ≡ₚ view array.
Proof.
  intros Hok. unfold ErrCloneArray.
  destruct (array_clone fresh fAlloc (m_arrayKeyEntry t) array Hok) as [(-> & _ & ->)|(a' & -> & Hok' & Hv & _)].
  - left. cbn. by destruct t.
  - right. cbn [mbind option_bind]. rewrite bool_decide_true by done. cbn [negb].
    destruct (ConfigureSearch_ok (Table a' (m_pfnSearch t)) Hok') as (t' & -> & Hok3 & _ & Hp & Hs).
    cbn in *. exists t'. split; [done|]. split; [by split|]. unfold entries. by rewrite Hp, Hv.
Qed.

(** ** Searching *)

Hypothesis Hkey : key_ok CmpEntry CmpKey.

(** Entries of a sorted list that satisfy a property of small entries come first. *)
Lemma filter_prefix (P : E -> Prop) `{forall x, Decision (P x)} (l : list E) :
  (forall x y, CmpEntry x y <= 0 -> P y -> P x) -> StronglySorted (le_of CmpEntry) l ->
  forall i x, l !! i = Some x -> P x <-> (i < length (filter P l))%nat.
Proof.
  intros Hdown Hs. induction Hs as [|y l Hs IH Hf]; intros i x Hx; [done|]. rewrite filter_cons.
  destruct (decide (P y)) as [Hy|Hy].
  - destruct i as [|i]; simplify_eq/=; [split; [lia|done]|]. rewrite (IH i x Hx). lia.
  - assert (Hnone : forall i x, (y :: l) !! i = Some x -> ~ P x).
    { intros [|j] z Hz; simplify_eq/=; [done|]. intros Hpz. apply Hy. apply (Hdown y z); [|done].
      exact (Forall_lookup_1 _ _ _ _ Hf Hz). }
    assert (filter P l = []) as ->.
    { apply elem_of_nil_inv. intros z [Hz Hin]%list_elem_of_filter. apply list_elem_of_lookup in Hin as [j Hj].
      by apply (Hnone (S j) z). }
    split; [intros Hp; by destruct (Hnone i x Hx)|cbn; lia].
Qed.

(** How many entries are below the key, and how many are not above it. *)
Definition below (key : K) (l : list E) : nat := length (filter (fun x => CmpKey x key < 0) l).

Definition upto (key : K) (l : list E) : nat := length (filter (fun x => CmpKey x key <= 0) l).

Lemma below_spec (key : K) (l : list E) (i : nat) (x : E) : StronglySorted (le_of CmpEntry) l -> l !! i = Some x ->
  CmpKey x key < 0 <-> (i < below key l)%nat.
Proof. intros Hs. apply (filter_prefix (fun x => CmpKey x key < 0)); [|done]. intros y z. apply (key_lt _ _ Hkey). Qed.

Lemma upto_spec (key : K) (l : list E) (i : nat) (x : E) : StronglySorted (le_of CmpEntry) l -> l !! i = Some x ->
  CmpKey x key <= 0 <-> (i < upto key l)%nat.
Proof. intros Hs. apply (filter_prefix (fun x => CmpKey x key <= 0)); [|done]. intros y z. apply (key_le _ _ Hkey). Qed.

(** The index a search returns. *)
Definition bound (key : K) (fHigh : bool) (l : list E) : nat := if fHigh then upto key l else below key l.

Lemma bound_spec (key : K) (fHigh : bool) (l : list E) (i : nat) (x : E) : StronglySorted (le_of CmpEntry) l -> l !! i = Some x ->
  (CmpKey x key <? 0) || (CmpKey x key =? 0) && fHigh = true <-> (i < bound key fHigh l)%nat.
Proof.
  intros Hs Hx. unfold bound. destruct fHigh.
  - rewrite <- (upto_spec key l i x Hs Hx). rewrite andb_true_r, orb_true_iff, Z.ltb_lt, Z.eqb_eq. lia.
  - rewrite <- (below_spec key l i x Hs Hx). rewrite andb_false_r, orb_false_r, Z.ltb_lt. done.
Qed.

Lemma bound_le (key : K) (fHigh : bool) (l : list E) : (bound key fHigh l <= length l)%nat.
Proof. unfold bound, upto, below. destruct fHigh; apply length_filter. Qed.

Lemma below_upto (key : K) (l : list E) : (below key l <= upto key l)%nat.
Proof.
  unfold below, upto. induction l as [|x l IH]; [done|]. rewrite !filter_cons. repeat case_decide; cbn; lia.
Qed.

Lemma array_max (a : CArray E) : array_ok a -> Z.of_nat (length (view a)) <= SIZE_MAX.
Proof. intros Hok. rewrite (length_view a Hok). destruct Hok as (? & ? & _). unfold Size. lia. Qed.

Section Search.
Context (a : CArray E) (key : K) (fHigh : bool).
Hypothesis Hok : array_ok a.
Hypothesis Hs : StronglySorted (le_of CmpEntry) (view a).

Let b := bound key fHigh (view a).

Lemma linear_search_ok : forall fuel i, (i <= b)%nat -> (length (view a) - i < fuel)%nat ->
  linear_search CmpKey fuel a key fHigh (Z.of_nat i) = Some (Z.of_nat b).
Proof.
  pose proof (length_view a Hok) as Hl. pose proof (array_max a Hok) as Hmax. pose proof (bound_le key fHigh (view a)) as Hb. fold b in Hb.
  induction fuel as [|fuel IH]; intros i Hi Hf; [lia|]. cbn [linear_search].
  destruct (Z.ltb_spec (Z.of_nat i) (Size a)) as [Hlt|Hge]; [|do 2 f_equal; lia].
  unfold _Entry. rewrite Entry_view by done. destruct (lookup_lt_is_Some_2 (view a) i ltac:(lia)) as [x Hx].
  rewrite Hx. cbn [mbind option_bind]. pose proof (bound_spec key fHigh (view a) i x Hs Hx) as Hbs. fold b in Hbs.
  destruct (_ || _); cbn [negb].
  - rewrite (u64_small (Z.of_nat i + 1)) by lia. replace (Z.of_nat i + 1) with (Z.of_nat (S i)) by lia. apply IH; [|lia].
    apply Hbs. done.
  - do 2 f_equal. destruct (decide (i < b)%nat) as [H|H]; [by apply Hbs in H|lia].
Qed.

Lemma binary_search_ok : forall fuel lo hi, (lo <= b <= hi)%nat -> (hi <= length (view a))%nat -> (hi - lo < fuel)%nat ->
  binary_search CmpKey fuel a key fHigh (Z.of_nat lo) (Z.of_nat hi) = Some (Z.of_nat b).
Proof.
  pose proof (length_view a Hok) as Hl. pose proof (array_max a Hok) as Hmax.
  induction fuel as [|fuel IH]; intros lo hi Hb Hhi Hf; [lia|]. cbn [binary_search].
  destruct (Z.ltb_spec (Z.of_nat lo) (Z.of_nat hi)) as [Hlt|Hge]; [|do 2 f_equal; lia].
  assert (Hq : 0 <= (Z.of_nat hi - Z.of_nat lo) / 2 < Z.of_nat hi - Z.of_nat lo).
  { split; [apply Z.div_pos; lia|apply Z.div_lt; lia]. }
  rewrite (u64_small (Z.of_nat hi - _)) by lia. rewrite (u64_small (Z.of_nat lo + _)) by lia.
  set (mid := Z.to_nat (Z.of_nat lo + (Z.of_nat hi - Z.of_nat lo) / 2)).
  replace (Z.of_nat lo + (Z.of_nat hi - Z.of_nat lo) / 2) with (Z.of_nat mid) by lia.
  unfold _Entry. rewrite Entry_view by (done || lia). destruct (lookup_lt_is_Some_2 (view a) mid ltac:(lia)) as [x Hx].
  rewrite Hx. cbn [mbind option_bind]. pose proof (bound_spec key fHigh (view a) mid x Hs Hx) as Hbs. fold b in Hbs.
  destruct (_ || _).
  - rewrite (u64_small (Z.of_nat mid + 1)) by lia. replace (Z.of_nat mid + 1) with (Z.of_nat (S mid)) by lia.
    assert (mid < b)%nat by (by apply Hbs). apply IH; lia.
  - assert (~ mid < b)%nat by (intros H; by apply Hbs in H). apply IH; lia.
Qed.

End Search.

Lemma search_ok (t : CTable E) (key : K) (fHigh : bool) : table_ok t ->
  search CmpKey t key fHigh = Some (Z.of_nat (bound key fHigh (entries t))).
Proof.
  intros [Hok Hs]. pose proof (length_view _ Hok) as Hl. pose proof (bound_le key fHigh (entries t)) as Hb. unfold search, entries in *.
  destruct (m_pfnSearch t).
  - unfold _LinearSearch. change 0 with (Z.of_nat 0). apply linear_search_ok; [done|done|lia|lia].
  - unfold _BinarySearch. rewrite <- Hl. change 0 with (Z.of_nat 0). apply binary_search_ok; [done|done|lia|lia|lia].
Qed.

Lemma TPEntry_at (t : CTable E) (i : nat) : table_ok t ->
  TPEntry t (Z.of_nat i) = if bool_decide (i < length (entries t))%nat then Some (Z.of_nat i) else None.
Proof.
  intros [Hok _]. unfold TPEntry, PEntry, entries. change (m_centry (m_arrayKeyEntry t)) with (Size (m_arrayKeyEntry t)).
  rewrite <- (length_view _ Hok). destruct (Z.ltb_spec (Z.of_nat i) (Z.of_nat (length (view (m_arrayKeyEntry t))))); case_bool_decide; lia || done.
Qed.

(** The entry before index [i], null for the first. *)
Lemma TPEntry_before (t : CTable E) (i : nat) : table_ok t -> (i <= length (entries t))%nat ->
  TPEntry t (u64 (Z.of_nat i - 1)) = if bool_decide (i = 0)%nat then None else Some (Z.of_nat (i - 1)).
Proof.
  intros Ht Hi. pose proof Ht as [Hok _]. pose proof (array_max _ Hok) as Hmax. unfold entries in Hi. case_bool_decide as H0.
  - subst i. change (u64 (Z.of_nat 0 - 1)) with SIZE_MAX. unfold TPEntry, PEntry.
    change (m_centry (m_arrayKeyEntry t)) with (Size (m_arrayKeyEntry t)). rewrite <- (length_view _ Hok).
    by rewrite (proj2 (Z.ltb_ge _ _)).
  - rewrite u64_small by lia. replace (Z.of_nat i - 1) with (Z.of_nat (i - 1)) by lia.
    rewrite TPEntry_at by done. rewrite bool_decide_true; [done|]. unfold entries. lia.
Qed.

Lemma entry_is_at (t : CTable E) (key : K) (cond : Z -> bool) (i : nat) : table_ok t ->
  entry_is CmpKey t key cond (Z.of_nat i) =
  Some (match entries t !! i with Some x => cond (CmpKey x key) | None => false end).
Proof.
  intros [Hok _]. unfold entry_is, TSize, _Entry, entries. pose proof (length_view _ Hok) as Hl.
  destruct (Z.ltb_spec (Z.of_nat i) (Size (m_arrayKeyEntry t))) as [Hlt|Hge].
  - rewrite Entry_view by done. destruct (lookup_lt_is_Some_2 (view (m_arrayKeyEntry t)) i ltac:(lia)) as [x Hx]. by rewrite Hx.
  - by rewrite lookup_ge_None_2 by lia.
Qed.

Lemma entry_before_is_at (t : CTable E) (key : K) (i : nat) : table_ok t -> (i <= length (entries t))%nat ->
  entry_before_is CmpKey t key (Z.of_nat i) =
  Some (match i with O => false | S i => match entries t !! i with Some x => CmpKey x key =? 0 | None => false end end).
Proof.
  intros [Hok _] Hi. unfold entry_before_is, _Entry, entries in *. pose proof (length_view _ Hok) as Hl. pose proof (array_max _ Hok).
  rewrite Z.gtb_ltb. destruct i as [|i]; [done|]. rewrite (proj2 (Z.ltb_lt _ _)) by lia.
  rewrite u64_small by lia. replace (Z.of_nat (S i) - 1) with (Z.of_nat i) by lia. rewrite Entry_view by (done || lia).
  destruct (lookup_lt_is_Some_2 (view (m_arrayKeyEntry t)) i ltac:(lia)) as [x Hx]. by rewrite Hx.
Qed.

(** Whether an entry equals the key, in terms of the two counts. *)
Lemma first_equal (t : CTable E) (key : K) (cond : Z -> bool) : table_ok t -> (forall c, 0 <= c -> cond c = (c =? 0)) ->
  match entries t !! below key (entries t) with Some x => cond (CmpKey x key) | None => false end =
  bool_decide (below key (entries t) < upto key (entries t))%nat.
Proof.
  intros [_ Hs] Hcond. fold (entries t) in Hs. destruct (entries t !! below key (entries t)) as [x|] eqn:Hx.
  - pose proof (below_spec key _ _ _ Hs Hx) as Hb. pose proof (upto_spec key _ _ _ Hs Hx) as Hu.
    rewrite Hcond by lia. destruct (Z.eqb_spec (CmpKey x key) 0); case_bool_decide; lia || done.
  - symmetry. apply bool_decide_eq_false. apply lookup_ge_None_1 in Hx. pose proof (bound_le key true (entries t)). cbn in *. lia.
Qed.

Lemma last_equal (t : CTable E) (key : K) : table_ok t ->
  match upto key (entries t) with O => false | S i => match entries t !! i with Some x => CmpKey x key =? 0 | None => false end end =
  bool_decide (below key (entries t) < upto key (entries t))%nat.
Proof.
  intros [_ Hs]. fold (entries t) in Hs. pose proof (bound_le key true (entries t)) as Hle. cbn in Hle.
  destruct (upto key (entries t)) as [|i] eqn:Hu; [symmetry; apply bool_decide_eq_false; lia|].
  destruct (lookup_lt_is_Some_2 (entries t) i ltac:(lia)) as [x Hx]. rewrite Hx.
  pose proof (below_spec key _ _ _ Hs Hx) as Hb. pose proof (upto_spec key _ _ _ Hs Hx) as Hu'. rewrite Hu in Hu'.
  assert (CmpKey x key <= 0) by (apply Hu'; lia).
  destruct (Z.eqb_spec (CmpKey x key) 0); case_bool_decide; lia || done.
Qed.

(** C23: the operations of a table.  From an empty table, whether they sort by
    insertion or by quick sort, loading entries or cloning an array leaves the
    entries that were there together with the new ones (for a clone, those of the
    array), in order; cloning a table copies it; an entry can be replaced by one
    that compares equal, which keeps the order, and any other replacement is
    refused with errKeyChange and changes nothing; clearing leaves no entry.  Every
    call returns: the sorts end and stay inside the array, for any number of
    entries up to SIZE_MAX, and when memory is short the table is unchanged. *)
Theorem table_operations :
  (table_ok (CTable_ctor entryDefault) /\ entries (CTable_ctor entryDefault) = []) /\
  forall (fAlloc : bool) (t : CTable E), table_ok t ->
  (forall rg, TSize t + Z.of_nat (length rg) <= SIZE_MAX ->
     (fAlloc = false /\ ErrLoad fresh CmpEntry fAlloc t (Z.of_nat (length rg)) rg = Some (terrOutOfMemory, t)) \/
     exists t', ErrLoad fresh CmpEntry fAlloc t (Z.of_nat (length rg)) rg = Some (terrSuccess, t') /\ table_ok t' /\
       entries t' ≡ₚ entries t ++ rg) /\
  (forall array, array_ok array ->
     (fAlloc = false /\ ErrCloneArray fresh CmpEntry fAlloc t array = Some (terrOutOfMemory, t)) \/
     exists t', ErrCloneArray fresh CmpEntry fAlloc t array = Some (terrSuccess, t') /\ table_ok t' /\
       entries t' ≡ₚ view array) /\
  (forall table, table_ok table ->
     (fAlloc = false /\ TErrClone fresh fAlloc t table = Some (terrOutOfMemory, t)) \/
     exists t', TErrClone fresh fAlloc t table = Some (terrSuccess, t') /\ table_ok t' /\ entries t' = entries table) /\
  (forall i x y, entries t !! i = Some x ->
     (CmpEntry x y <> 0 /\ ErrUpdateEntry CmpEntry t (TPEntry t (Z.of_nat i)) y = Some (terrKeyChange, t)) \/
     CmpEntry x y = 0 /\ exists t', ErrUpdateEntry CmpEntry t (TPEntry t (Z.of_nat i)) y = Some (terrSuccess, t') /\
       table_ok t' /\ entries t' = <[i := y]> (entries t)) /\
  (exists t', Clear fresh fAlloc t = Some t' /\ table_ok t' /\ entries t' = []).
Proof.
  split.
  - destruct (array_ctor_ok entryDefault) as [Hok Hv]. split; [|done]. split; [done|]. cbn. constructor.
  - intros fAlloc t Ht. split_and!.
    + intros rg. apply ErrLoad_ok, Ht.
    + intros array. by apply ErrCloneArray_ok.
    + intros table. by apply TErrClone_ok.
    + intros i x y. by apply ErrUpdateEntry_ok.
    + by apply Clear_ok.
Qed.

(** C24: the seeks of a table, whether it is configured for linear or for binary
    search.  With lo the number of entries below the key and hi the number of those
    not above it, entry i is below the key exactly for i < lo and not above it
    exactly for i < hi, and: SeekLT returns the last entry below the key, SeekGT
    the first above it, SeekEQ the first entry equal to the key and SeekHI the last
    one; SeekLE returns the first equal entry, or else the last below; SeekGE the
    last equal entry, or else the first above.  Each returns null when there is no
    such entry, and none reads outside the table. *)
Theorem table_seeks (t : CTable E) (key : K) : table_ok t ->
  let l := entries t in let lo := below key l in let hi := upto key l in
  let eq := bool_decide (lo < hi)%nat in
  let before_lo := if bool_decide (lo = 0)%nat then None else Some (Z.of_nat (lo - 1)) in
  let at_hi := if bool_decide (hi < length l)%nat then Some (Z.of_nat hi) else None in
  (forall i x, l !! i = Some x -> (CmpKey x key < 0 <-> (i < lo)%nat) /\ (CmpKey x key <= 0 <-> (i < hi)%nat)) /\
  SeekLT CmpKey t key = Some before_lo /\ SeekGT CmpKey t key = Some at_hi /\
  SeekEQ CmpKey t key = Some (if eq then Some (Z.of_nat lo) else None) /\
  SeekHI CmpKey t key = Some (if eq then Some (Z.of_nat (hi - 1)) else None) /\
  SeekLE CmpKey t key = Some (if eq then Some (Z.of_nat lo) else before_lo) /\
  SeekGE CmpKey t key = Some (if eq then Some (Z.of_nat (hi - 1)) else at_hi).
Proof.
  intros Ht l lo hi eq before_lo at_hi. pose proof Ht as [Hok Hs]. fold (entries t) in Hs.
  pose proof (bound_le key false (entries t)) as Hlo. pose proof (bound_le key true (entries t)) as Hhi. cbn in Hlo, Hhi.
  pose proof (TPEntry_before t lo Ht Hlo) as Eb. pose proof (TPEntry_before t hi Ht Hhi) as Eh.
  pose proof (TPEntry_at t lo Ht) as Elo. pose proof (TPEntry_at t hi Ht) as Ehi.
  assert (Hlt : match l !! lo with Some x => CmpKey x key <? 0 | None => false end = false).
  { destruct (l !! lo) as [x|] eqn:Hx; [|done]. apply Z.ltb_ge. pose proof (below_spec key _ _ _ Hs Hx) as Hb.
    fold l lo in Hb. lia. }
  pose proof (first_equal t key (fun c => c =? 0) Ht ltac:(done)) as Heq.
  pose proof (first_equal t key (fun c => c <=? 0) Ht
    ltac:(intros c Hc; destruct (Z.leb_spec c 0), (Z.eqb_spec c 0); lia || done)) as Hle.
  pose proof (last_equal t key Ht) as Hla. fold l lo hi eq in Heq, Hle, Hla.
  assert (Elo' : eq = true -> TPEntry t (Z.of_nat lo) = Some (Z.of_nat lo)).
  { intros H. rewrite Elo, bool_decide_true; [done|]. apply bool_decide_eq_true in H. unfold lo, hi, l in *. lia. }
  assert (Eh' : eq = true -> TPEntry t (u64 (Z.of_nat hi - 1)) = Some (Z.of_nat (hi - 1))).
  { intros H. rewrite Eh, bool_decide_false; [done|]. apply bool_decide_eq_true in H. lia. }
  unfold SeekLT, SeekGT, SeekEQ, SeekHI, SeekLE, SeekGE. rewrite !search_ok by done. cbn [mbind option_bind bound]. fold l lo hi.
  rewrite !entry_is_at, !entry_before_is_at by done. fold l. rewrite Hlt, Heq, Hle, Hla. cbn [mbind option_bind].
  split_and!.
  - intros i x Hx. split; [by apply below_spec|by apply upto_spec].
  - by rewrite Eb.
  - by rewrite Ehi.
  - destruct eq; [by rewrite Elo'|done].
  - destruct eq; [by rewrite Eh'|done].
  - destruct eq; [by rewrite Elo'|by rewrite Eb].
  - destruct eq; [by rewrite Eh'|by rewrite Ehi].
Qed.

End Table.

(** ** Concrete instances *)

Lemma keyZ_ok : key_ok cmpZ cmpZ.
Proof. unfold cmpZ. split; intros; lia. Qed.

(** Forty entries, enough for the quick sort to partition. *)
Definition forty : list Z := (fun i => (Z.of_nat i * 7) mod 20) <$> seq 0 40.

Lemma table_operations_witness :
  exists t, ErrLoad (fun _ => 0) cmpZ true (CTable_ctor 0) 40 forty = Some (terrSuccess, t) /\
    table_ok cmpZ t /\ entries t ≡ₚ forty /\ m_pfnSearch t = BinarySearch.
Proof.
  destruct (table_operations (fun _ => 0) 0 cmpZ cmpZ_ok) as [[H0 E0] H].
  destruct (H true (CTable_ctor 0) H0) as (Hload & _).
  destruct (Hload forty) as [[? _]|(t & E & Hok & Hp)]; [vm_compute; discriminate|discriminate|].
  exists t. split_and!; [exact E|exact Hok|by rewrite Hp, E0|]. vm_compute in E. by injection E as <-.
Defined.

Definition demo_table (pfn : PfnSearch) : CTable Z := Table (Array 6 8 (Some [10; 20; 20; 20; 30; 40; 0; 0]) 0 false 4) pfn.

Lemma demo_table_ok (pfn : PfnSearch) : table_ok cmpZ (demo_table pfn).
Proof.
  split; [unfold array_ok, SIZE_MAX; cbn; lia|]. cbn. repeat (constructor; [|repeat constructor; unfold le_of, cmpZ; lia]).
  constructor.
Qed.

Lemma table_seeks_witness :
  SeekLE cmpZ (demo_table LinearSearch) 20 = Some (Some 1) /\ SeekGE cmpZ (demo_table BinarySearch) 20 = Some (Some 3) /\
  SeekLT cmpZ (demo_table BinarySearch) 10 = Some None /\ SeekGT cmpZ (demo_table LinearSearch) 35 = Some (Some 5).
Proof.
  destruct (table_seeks cmpZ cmpZ keyZ_ok (demo_table LinearSearch) 20 (demo_table_ok _)) as (_ & _ & _ & _ & _ & E1 & _).
  destruct (table_seeks cmpZ cmpZ keyZ_ok (demo_table BinarySearch) 20 (demo_table_ok _)) as (_ & _ & _ & _ & _ & _ & E2).
  destruct (table_seeks cmpZ cmpZ keyZ_ok (demo_table BinarySearch) 10 (demo_table_ok _)) as (_ & E3 & _).
  destruct (table_seeks cmpZ cmpZ keyZ_ok (demo_table LinearSearch) 35 (demo_table_ok _)) as (_ & _ & E4 & _).
  rewrite E1, E2, E3, E4. vm_compute. done.
Defined.
