(* ===== verification/HashBucket.v ===== *)
(** * HashBucket: the buckets of the dynamic hash table

    [CDynamicHashTable< CKey, CEntry >] of dht.hxx keeps its entries in chains of
    buckets.  The first bucket of a chain lies in an array of the directory and
    holds the lock of the chain; the others are allocated one by one.  A bucket has
    room for [m_centryBucket] entries and one word, [m_pb], which is null in an empty
    chain, the address of the next bucket when there is one, and otherwise the
    address of the bucket's last entry.  The code tells these cases apart by
    comparing the word with the addresses of the bucket.

    Addresses are integers.  The memory is the set of live blocks with the number
    of buckets in each, and the contents of every live bucket; an access to a
    bucket that is not live, to an entry outside its bucket, to the back link of a
    bucket that holds a lock instead, or the release of an address that was not
    allocated, is [None].  So is a [DHTAssert] that does not hold, although the
    macro is defined to nothing.  [SetEntry] and [GetEntry] copy the entry. *)

From stdpp Require Import gmap.
From S2P Require Import Prelude.

Inductive ERR := errSuccess | errOutOfMemory | errInvalidParameter | errEntryNotFound | errNoCurrentEntry | errKeyDuplicate.

#[export] Instance dht_ERR_eq_dec : EqDecision ERR.
Proof. solve_decision. Defined.

Definition DHTAssert (b : bool) : option unit := if b then Some tt else None.

(** What the client defines in [CKeyEntry]. *)
Class CKeyEntry (K E : Type) := {
  Hash_key : K -> Z;
  Hash_entry : E -> Z;
  FEntryMatchesKey : E -> K -> bool }.

(** [sizeof( BUCKET )] without entries, [sizeof( CKeyEntry )], and the size of a
    bucket in bytes and in entries, which the table fixes when it is initialised. *)
Class BucketLayout := { cbHeader : Z; cbEntry : Z; m_cbBucket : Z; m_centryBucket : Z }.

(** ** Memory *)

(** [m_pBucketPrev] shares its place with the lock: it is [None] in the first
    bucket of a chain. *)
Record BUCKET (E : Type) := Bucket { m_pBucketPrev : option Z; m_pb : Z; m_rgEntry : list E }.
Arguments Bucket {E}.
Arguments m_pBucketPrev {E}.
Arguments m_pb {E}.
Arguments m_rgEntry {E}.

Record heap (E : Type) := Heap { blocks : gmap Z nat; buckets : gmap Z (BUCKET E) }.
Arguments Heap {E}.
Arguments blocks {E}.
Arguments buckets {E}.

(** [class CLock]: the position of a client in the table. *)
Inductive ENUMLOCKSTATE := lsNil | lsRead | lsWrite | lsScan.

#[export] Instance ENUMLOCKSTATE_eq_dec : EqDecision ENUMLOCKSTATE.
Proof. solve_decision. Defined.

Record CLock := Lock {
  m_ls : ENUMLOCKSTATE;
  m_fInsertOrDelete : bool;
  m_phs : nat;
  m_pBucketHead : Z;
  m_pBucket : Z;
  m_pEntryPrev : Z;
  m_pEntry : Z;
  m_pEntryNext : Z;
  m_iBucket : Z }.

Definition CLock_ctor (phs : nat) (pBucket pEntryPrev pEntry pEntryNext iBucket : Z) (f : bool) : CLock :=
  Lock lsNil f phs 0 pBucket pEntryPrev pEntry pEntryNext iBucket.

Definition set_ls (ls : ENUMLOCKSTATE) (l : CLock) : CLock :=
  Lock ls (m_fInsertOrDelete l) (m_phs l) (m_pBucketHead l) (m_pBucket l) (m_pEntryPrev l) (m_pEntry l) (m_pEntryNext l) (m_iBucket l).

Definition set_fInsertOrDelete (f : bool) (l : CLock) : CLock :=
  Lock (m_ls l) f (m_phs l) (m_pBucketHead l) (m_pBucket l) (m_pEntryPrev l) (m_pEntry l) (m_pEntryNext l) (m_iBucket l).

Definition set_phs (phs : nat) (l : CLock) : CLock :=
  Lock (m_ls l) (m_fInsertOrDelete l) phs (m_pBucketHead l) (m_pBucket l) (m_pEntryPrev l) (m_pEntry l) (m_pEntryNext l) (m_iBucket l).

Definition set_head (p : Z) (l : CLock) : CLock :=
  Lock (m_ls l) (m_fInsertOrDelete l) (m_phs l) p (m_pBucket l) (m_pEntryPrev l) (m_pEntry l) (m_pEntryNext l) (m_iBucket l).

Definition set_iBucket (i : Z) (l : CLock) : CLock :=
  Lock (m_ls l) (m_fInsertOrDelete l) (m_phs l) (m_pBucketHead l) (m_pBucket l) (m_pEntryPrev l) (m_pEntry l) (m_pEntryNext l) i.

(** The four members that describe the current entry. *)
Definition set_currency (pBucket pEntryPrev pEntry pEntryNext : Z) (l : CLock) : CLock :=
  Lock (m_ls l) (m_fInsertOrDelete l) (m_phs l) (m_pBucketHead l) pBucket pEntryPrev pEntry pEntryNext (m_iBucket l).

(** [class BUCKETPool]: buckets allocated in advance, linked by [m_pBucketNext]. *)
Record BUCKETPool := Pool { m_pReserve : Z; m_cReserve : Z }.

Definition BUCKETPool_ctor : BUCKETPool := Pool 0 0.

Section Buckets.
Context {K E : Type} `{KE : CKeyEntry K E} `{L : BucketLayout} (junk : Z -> BUCKET E).

(** [&pBucket->m_rgEntry[ i ]] *)
Definition rgEntry (pBucket i : Z) : Z := pBucket + cbHeader + i * cbEntry.

Definition rd_pb (h : heap E) (p : Z) : option Z := b ← buckets h !! p; Some (m_pb b).

Definition rd_prev (h : heap E) (p : Z) : option Z := b ← buckets h !! p; m_pBucketPrev b.

Definition wr_pb (h : heap E) (p v : Z) : option (heap E) :=
  b ← buckets h !! p; Some (Heap (blocks h) (<[p := Bucket (m_pBucketPrev b) v (m_rgEntry b)]> (buckets h))).

Definition wr_prev (h : heap E) (p v : Z) : option (heap E) :=
  b ← buckets h !! p; _ ← m_pBucketPrev b; Some (Heap (blocks h) (<[p := Bucket (Some v) (m_pb b) (m_rgEntry b)]> (buckets h))).

(** The index of the entry of bucket [p] at the address [pEntry]. *)
Definition slot (p pEntry : Z) : option nat :=
  if (rgEntry p 0 <=? pEntry) && ((pEntry - rgEntry p 0) mod cbEntry =? 0)
  then Some (Z.to_nat ((pEntry - rgEntry p 0) / cbEntry)) else None.

Definition rd_entry (h : heap E) (p pEntry : Z) : option E :=
  b ← buckets h !! p; i ← slot p pEntry; m_rgEntry b !! i.

Definition wr_entry (h : heap E) (p pEntry : Z) (e : E) : option (heap E) :=
  b ← buckets h !! p; i ← slot p pEntry; _ ← m_rgEntry b !! i;
  Some (Heap (blocks h) (<[p := Bucket (m_pBucketPrev b) (m_pb b) (<[i := e]> (m_rgEntry b))]> (buckets h))).

(** The addresses of [n] buckets in a block. *)
Definition block_buckets (p : Z) (n : nat) : list Z := (fun i => p + Z.of_nat i * m_cbBucket) <$> seq 0 n.

(** A bucket in the address space: its size below it, so that the subtraction in
    [PbucketBKTNext] does not wrap around, and above it. *)
Definition addr_ok (p : Z) : Prop := m_cbBucket <= p /\ p + m_cbBucket <= 2 ^ 64.

Definition apart (p q : Z) : Prop := p + m_cbBucket <= q \/ q + m_cbBucket <= p.

(** What the allocator promises of the [n] buckets at [p]: they are in the address
    space and overlap no live bucket. *)
Definition fresh (h : heap E) (p : Z) (n : nat) : Prop :=
  blocks h !! p = None /\
  Forall (fun q => addr_ok q /\ map_Forall (fun r _ => apart q r) (buckets h)) (block_buckets p n).

#[export] Instance fresh_dec h p n : Decision (fresh h p n).
Proof. unfold fresh, addr_ok, apart. apply _. Defined.

(** A block of [n] buckets of fresh memory at [p]. *)
Definition add_block (h : heap E) (p : Z) (n : nat) : heap E :=
  Heap (<[p := n]> (blocks h)) (foldr (fun q m => <[q := junk q]> m) (buckets h) (block_buckets p n)).

(** [PvMEMAlloc( m_cbBucket )], where [mem] is what the allocator returns. *)
Definition PvMEMAlloc (h : heap E) (mem : option Z) : Z * heap E :=
  match mem with None => (0, h) | Some p => (p, add_block h p 1) end.

Definition MEMFree (h : heap E) (p : Z) : option (heap E) :=
  if p =? 0 then Some h else
  n ← blocks h !! p;
  Some (Heap (delete p (blocks h)) (foldr delete (buckets h) (block_buckets p n))).

(** ** The chain of a bucket *)

Definition PentryBKTNextMost (h : heap E) (pBucket : Z) : option Z :=
  pb ← rd_pb h pBucket;
  Some (if (pb >=? rgEntry pBucket 0) && (pb <? rgEntry pBucket m_centryBucket) then pb + cbEntry
        else if 0 =? pb then rgEntry pBucket 0
        else rgEntry pBucket m_centryBucket).

Definition PbucketBKTNext (h : heap E) (pBucket : Z) : option Z :=
  pb ← rd_pb h pBucket;
  if (pb <=? u64 (pBucket - m_cbBucket)) || (pb >=? pBucket + m_cbBucket) then
    _ ← (if pb =? 0 then Some tt else pBucketPrev ← rd_prev h pb; DHTAssert (pBucketPrev =? pBucket));
    Some pb
  else Some 0.

(** No chain is longer than the number of buckets. *)
Definition fuel (h : heap E) : nat := S (size (buckets h)).

(** [pBucketT = PbucketBKTNext( pBucketThis ); while ( pBucketT ) ...]: the last
    bucket of the chain. *)
Fixpoint last_loop (n : nat) (h : heap E) (pBucketThis pBucketT : Z) : option Z :=
  match n with
  | O => None
  | S n =>
      if pBucketT =? 0 then Some pBucketThis
      else pBucketNext ← PbucketBKTNext h pBucketT; last_loop n h pBucketT pBucketNext
  end.

Definition last_bucket (h : heap E) (pBucketThis : Z) : option Z :=
  pBucketT ← PbucketBKTNext h pBucketThis; last_loop (fuel h) h pBucketThis pBucketT.

(** ** Seeking a key *)

Definition FBKTRead (plock : CLock) : bool := bool_decide (m_ls plock = lsRead).

Definition FBKTWrite (plock : CLock) : bool := bool_decide (m_ls plock = lsWrite).

Definition FBKTScan (plock : CLock) : bool := bool_decide (m_ls plock = lsScan).

(** The loop over one bucket in [BKTSeek]. *)
Fixpoint seek_loop (n : nat) (h : heap E) (p pEntry pEntryLast : Z) (key : K) : option Z :=
  match n with
  | O => None
  | S n =>
      e ← rd_entry h p pEntry;
      if FEntryMatchesKey e key then Some pEntry
      else if pEntry + cbEntry <=? pEntryLast then seek_loop n h p (pEntry + cbEntry) pEntryLast key
      else Some 0
  end.

(** The inner loop of [BKTISeek]: the entry that matches, if any. *)
Fixpoint scan_bucket (n : nat) (h : heap E) (p pEntryThis pEntryMost : Z) (key : K) : option (option Z) :=
  match n with
  | O => None
  | S n =>
      if pEntryThis <? pEntryMost then
        e ← rd_entry h p pEntryThis;
        if FEntryMatchesKey e key then Some (Some pEntryThis)
        else scan_bucket n h p (pEntryThis + cbEntry) pEntryMost key
      else Some None
  end.

(** The outer loop: the bucket and the entry. *)
Fixpoint scan_chain (n : nat) (h : heap E) (pBucket : Z) (key : K) : option (Z * Z) :=
  match n with
  | O => None
  | S n =>
      pEntryMost ← PentryBKTNextMost h pBucket;
      r ← scan_bucket (S (Z.to_nat m_centryBucket)) h pBucket (rgEntry pBucket 0) pEntryMost key;
      match r with
      | Some pEntryThis => Some (pBucket, pEntryThis)
      | None =>
          pBucketNext ← PbucketBKTNext h pBucket;
          if pBucketNext =? 0 then Some (pBucket, 0) else scan_chain n h pBucketNext key
      end
  end.

Definition BKTISeek (h : heap E) (plock : CLock) (key : K) : option CLock :=
  _ ← DHTAssert ((FBKTRead plock || FBKTWrite plock) && negb (m_pBucketHead plock =? 0));
  '(pBucket, pEntryThis) ← scan_chain (fuel h) h (m_pBucketHead plock) key;
  Some (set_currency pBucket 0 pEntryThis 0 plock).

Definition BKTSeek (h : heap E) (plock : CLock) (key : K) : option CLock :=
  let p := m_pBucketHead plock in
  pEntryLast ← rd_pb h p;
  if u64 (pEntryLast - p) <? m_cbBucket then
    pEntry ← seek_loop (Z.to_nat m_centryBucket) h p (rgEntry p 0) pEntryLast key;
    Some (set_currency p 0 pEntry 0 plock)
  else if pEntryLast =? 0 then Some (set_currency p 0 0 0 plock)
  else BKTISeek h (set_currency p 0 (m_pEntry plock) 0 plock) key.

(** ** The current entry *)

(** The assertions on the position that the operations share. *)
Definition positioned (plock : CLock) : bool := negb (m_pBucketHead plock =? 0) && negb (m_pBucket plock =? 0).

Definition ErrBKTGetEntry (h : heap E) (plock : CLock) : option (ERR * option E) :=
  _ ← DHTAssert ((FBKTRead plock || FBKTWrite plock || FBKTScan plock) && positioned plock);
  if negb (m_pEntry plock =? 0) then
    e ← rd_entry h (m_pBucket plock) (m_pEntry plock);
    Some (errSuccess, Some e)
  else Some (errEntryNotFound, None).

Definition ErrBKTReplaceEntry (h : heap E) (plock : CLock) (entry : E) : option (ERR * heap E) :=
  _ ← DHTAssert ((FBKTWrite plock || FBKTScan plock) && positioned plock);
  if negb (m_pEntry plock =? 0) then
    h ← wr_entry h (m_pBucket plock) (m_pEntry plock) entry;
    Some (errSuccess, h)
  else Some (errNoCurrentEntry, h).

(** [mem]: what the allocator returns when a bucket is needed. *)
Definition ErrBKTInsertEntry (h : heap E) (plock : CLock) (entry : E) (mem : option Z)
  : option (ERR * heap E * CLock) :=
  _ ← DHTAssert (FBKTWrite plock && positioned plock);
  if negb (m_pEntry plock =? 0) then Some (errKeyDuplicate, h, plock) else
  pBucketThis ← last_bucket h (m_pBucket plock);
  pEntryThis ← PentryBKTNextMost h pBucketThis;
  let finish h pBucketThis pEntryThis :=
    h ← wr_entry h pBucketThis pEntryThis entry;
    h ← wr_pb h pBucketThis pEntryThis;
    Some (errSuccess, h, set_currency pBucketThis (m_pEntryPrev plock) pEntryThis (m_pEntryNext plock) plock) in
  if negb (pEntryThis =? rgEntry pBucketThis m_centryBucket) then finish h pBucketThis pEntryThis
  else
    let '(pBucketT, h) := PvMEMAlloc h mem in
    if pBucketT =? 0 then Some (errOutOfMemory, h, plock) else
    h ← wr_pb h pBucketThis pBucketT;
    h ← wr_prev h pBucketT pBucketThis;
    finish h pBucketT (rgEntry pBucketT 0).

(** The second half of [ErrBKTDeleteEntry]: the last entry of the chain is dropped. *)
Definition delete_last (h : heap E) (plock : CLock) (pBucketThis pEntryThis : Z) : option (ERR * heap E * CLock) :=
  let plock := set_currency (m_pBucket plock) (m_pEntryPrev plock) 0 (m_pEntryNext plock) plock in
  if negb (pEntryThis =? rgEntry pBucketThis 0) then
    last ← rd_pb h pBucketThis;
    _ ← DHTAssert (last =? pEntryThis);
    h ← wr_pb h pBucketThis (last - cbEntry);
    Some (errSuccess, h, plock)
  else if pBucketThis =? m_pBucketHead plock then
    h ← wr_pb h pBucketThis 0;
    Some (errSuccess, h, plock)
  else
    let pBucketFree := pBucketThis in
    pBucketThis ← rd_prev h pBucketFree;
    next ← rd_pb h pBucketThis;
    _ ← DHTAssert (next =? pBucketFree);
    h ← wr_pb h pBucketThis (rgEntry pBucketThis (m_centryBucket - 1));
    h ← MEMFree h pBucketFree;
    Some (errSuccess, h,
      if m_pBucket plock =? pBucketFree
      then set_currency pBucketThis (m_pEntryPrev plock) (m_pEntry plock) (m_pEntryNext plock) plock else plock).

Definition ErrBKTDeleteEntry (h : heap E) (plock : CLock) : option (ERR * heap E * CLock) :=
  _ ← DHTAssert ((FBKTWrite plock || FBKTScan plock) && positioned plock);
  if m_pEntry plock =? 0 then Some (errNoCurrentEntry, h, plock) else
  pEntryLast ← rd_pb h (m_pBucket plock);
  '(h, pBucketThis, pEntryThis) ←
    (if negb (m_pEntry plock =? pEntryLast) then
       pBucketThis ← last_bucket h (m_pBucket plock);
       pEntryThis ← rd_pb h pBucketThis;
       e ← rd_entry h pBucketThis pEntryThis;
       h ← wr_entry h (m_pBucket plock) (m_pEntry plock) e;
       Some (h, pBucketThis, pEntryThis)
     else Some (h, m_pBucket plock, m_pEntry plock));
  delete_last h plock pBucketThis pEntryThis.

(** ** The pool of buckets

    [FPOOLReserve] takes one bucket out of the count ([pool_dec]); when there was
    none it gives it back ([pool_inc]), allocates a bucket and links it into the list
    ([pool_push]). *)

Definition pool_dec (pool : BUCKETPool) : bool * BUCKETPool :=
  let c := s32 (m_cReserve pool - 1) in (0 <=? c, Pool (m_pReserve pool) c).

Definition pool_inc (pool : BUCKETPool) : BUCKETPool := Pool (m_pReserve pool) (s32 (m_cReserve pool + 1)).

Definition pool_push (h : heap E) (pool : BUCKETPool) (pBucket : Z) : option (heap E * BUCKETPool) :=
  h ← wr_pb h pBucket (m_pReserve pool);
  Some (h, Pool pBucket (m_cReserve pool)).

Definition PbucketPOOLCommit (h : heap E) (pool : BUCKETPool) : option (Z * BUCKETPool) :=
  let pBucketReserve := m_pReserve pool in
  _ ← DHTAssert (negb (pBucketReserve =? 0));
  next ← rd_pb h pBucketReserve;
  Some (pBucketReserve, Pool next (m_cReserve pool)).

Definition POOLUnreserve (pool : BUCKETPool) : BUCKETPool := pool_inc pool.

Fixpoint pool_free (n : nat) (h : heap E) (pReserve : Z) : option (heap E) :=
  match n with
  | O => None
  | S n =>
      if pReserve =? 0 then Some h else
      next ← rd_pb h pReserve;
      h ← MEMFree h pReserve;
      pool_free n h next
  end.

Definition BUCKETPool_dtor (h : heap E) (pool : BUCKETPool) : option (heap E) := pool_free (fuel h) h (m_pReserve pool).

(** ** Splitting a bucket *)

(** The variables of [BKTIDoSplit]: the position in the source, the positions in
    the two chains that are written (0: the entries that stay, 1: those that move),
    and the buckets that became free. *)
Record side := Side { pBucketThis : Z; pEntryThis : Z; pEntryMost : Z; pEntryLast : Z }.

Record split := Split {
  pBucketSrcSrc : Z;
  pBucketNextSrc : Z;
  pEntryThisSrc : Z;
  pEntryMostSrc : Z;
  side0 : side;
  side1 : side;
  pBucketAvail : Z;
  fBucketFromHeap : bool }.

Definition split_init (h : heap E) (pBucketSrcSrc pBucketDst : Z) : option split :=
  pBucketNextSrc ← PbucketBKTNext h pBucketSrcSrc;
  pEntryMostSrc ← PentryBKTNextMost h pBucketSrcSrc;
  let start p := Side p (rgEntry p 0) (rgEntry p m_centryBucket) 0 in
  Some (Split pBucketSrcSrc pBucketNextSrc (rgEntry pBucketSrcSrc 0) pEntryMostSrc (start pBucketSrcSrc) (start pBucketDst) 0 false).

(** The next bucket of the source.  When nothing that stays was written to the
    bucket just read, it is unlinked and becomes free. *)
Definition split_next_src (h : heap E) (s : split) : option (heap E * split) :=
  '(h, pBucketAvail) ←
    (if negb (pBucketSrcSrc s =? pBucketThis (side0 s)) then
       next0 ← rd_pb h (pBucketThis (side0 s));
       nextSrc ← rd_pb h (pBucketSrcSrc s);
       prevNext ← rd_prev h (pBucketNextSrc s);
       prevSrc ← rd_prev h (pBucketSrcSrc s);
       _ ← DHTAssert ((next0 =? pBucketSrcSrc s) && (nextSrc =? pBucketNextSrc s) &&
                      (prevNext =? pBucketSrcSrc s) && (prevSrc =? pBucketThis (side0 s)));
       h ← wr_pb h (pBucketThis (side0 s)) (pBucketNextSrc s);
       h ← wr_prev h (pBucketNextSrc s) (pBucketThis (side0 s));
       h ← wr_pb h (pBucketSrcSrc s) (pBucketAvail s);
       Some (h, pBucketSrcSrc s)
     else Some (h, pBucketAvail s));
  pEntryMostSrc ← PentryBKTNextMost h (pBucketNextSrc s);
  pBucketNext ← PbucketBKTNext h (pBucketNextSrc s);
  Some (h, Split (pBucketNextSrc s) pBucketNext (rgEntry (pBucketNextSrc s) 0) pEntryMostSrc (side0 s) (side1 s)
             pBucketAvail (fBucketFromHeap s)).

(** A further bucket for the entries that stay: the next one of the source. *)
Definition split_next0 (h : heap E) (s : split) : option side :=
  next ← rd_pb h (pBucketThis (side0 s));
  prev ← rd_prev h next;
  _ ← DHTAssert (prev =? pBucketThis (side0 s));
  Some (Side next (rgEntry next 0) (rgEntry next m_centryBucket) (pEntryLast (side0 s))).

(** A further bucket for the entries that move: one that became free, or the
    reserved one. *)
Definition split_next1 (h : heap E) (pool : BUCKETPool) (s : split)
  : option (heap E * BUCKETPool * side * Z * bool) :=
  '(pool, pBucketNew, pBucketAvail, fBucketFromHeap) ←
    (if negb (pBucketAvail s =? 0) then
       next ← rd_pb h (pBucketAvail s);
       Some (pool, pBucketAvail s, next, fBucketFromHeap s)
     else
       _ ← DHTAssert (negb (fBucketFromHeap s));
       '(pBucketReserve, pool) ← PbucketPOOLCommit h pool;
       _ ← DHTAssert (negb (pBucketReserve =? 0));
       Some (pool, pBucketReserve, pBucketAvail s, true));
  h ← wr_pb h (pBucketThis (side1 s)) pBucketNew;
  h ← wr_prev h pBucketNew (pBucketThis (side1 s));
  Some (h, pool, Side pBucketNew (rgEntry pBucketNew 0) (rgEntry pBucketNew m_centryBucket) (pEntryLast (side1 s)),
        pBucketAvail, fBucketFromHeap).

(** The entry just written becomes the last one of its side. *)
Definition advance (d : side) : side := Side (pBucketThis d) (pEntryThis d + cbEntry) (pEntryMost d) (pEntryThis d).

Definition next_src_entry (s : split) (d0 d1 : side) (avail : Z) (fHeap : bool) : split :=
  Split (pBucketSrcSrc s) (pBucketNextSrc s) (pEntryThisSrc s + cbEntry) (pEntryMostSrc s) d0 d1 avail fHeap.

(** The part of the loop that copies the entry at [pEntryThisSrc]. *)
Definition split_copy (h : heap E) (pool : BUCKETPool) (s : split) (iHashMask iHashSrc : Z)
  : option (heap E * BUCKETPool * split) :=
  e ← rd_entry h (pBucketSrcSrc s) (pEntryThisSrc s);
  if Hash_entry e .& iHashMask =? iHashSrc then
    d ← (if pEntryThis (side0 s) <? pEntryMost (side0 s) then Some (side0 s) else split_next0 h s);
    e ← rd_entry h (pBucketSrcSrc s) (pEntryThisSrc s);
    h ← wr_entry h (pBucketThis d) (pEntryThis d) e;
    Some (h, pool, next_src_entry s (advance d) (side1 s) (pBucketAvail s) (fBucketFromHeap s))
  else
    '(h, pool, d, avail, fHeap) ←
      (if pEntryThis (side1 s) <? pEntryMost (side1 s)
       then Some (h, pool, side1 s, pBucketAvail s, fBucketFromHeap s) else split_next1 h pool s);
    e ← rd_entry h (pBucketSrcSrc s) (pEntryThisSrc s);
    h ← wr_entry h (pBucketThis d) (pEntryThis d) e;
    Some (h, pool, next_src_entry s (side0 s) (advance d) avail fHeap).

Fixpoint split_loop (n : nat) (h : heap E) (pool : BUCKETPool) (s : split) (iHashMask iHashSrc : Z)
  : option (heap E * BUCKETPool * split) :=
  match n with
  | O => None
  | S n =>
      if pEntryThisSrc s <? pEntryMostSrc s then
        '(h, pool, s) ← split_copy h pool s iHashMask iHashSrc;
        split_loop n h pool s iHashMask iHashSrc
      else if 0 =? pBucketNextSrc s then Some (h, pool, s)
      else
        '(h, s) ← split_next_src h s;
        '(h, pool, s) ← split_copy h pool s iHashMask iHashSrc;
        split_loop n h pool s iHashMask iHashSrc
  end.

(** What follows the loop: the last bucket of the source is released when nothing
    stays in it, the two chains are ended, and the free buckets are released. *)
Definition split_finish (h : heap E) (pool : BUCKETPool) (s : split) : option (heap E * BUCKETPool) :=
  h ← (if pBucketSrcSrc s =? pBucketThis (side0 s) then Some h else
         next0 ← rd_pb h (pBucketThis (side0 s));
         prevSrc ← rd_prev h (pBucketSrcSrc s);
         _ ← DHTAssert ((next0 =? pBucketSrcSrc s) && (prevSrc =? pBucketThis (side0 s)));
         MEMFree h (pBucketSrcSrc s));
  h ← wr_pb h (pBucketThis (side0 s)) (pEntryLast (side0 s));
  h ← wr_pb h (pBucketThis (side1 s)) (pEntryLast (side1 s));
  h ← pool_free (fuel h) h (pBucketAvail s);
  Some (h, if fBucketFromHeap s then pool else POOLUnreserve pool).

(** [cBucketMax]: [NcDIRIGetBucketMax( stateGrow )] *)
Definition BKTIDoSplit (h : heap E) (pool : BUCKETPool) (cBucketMax pBucketSrcSrc pBucketDst iHashSrc : Z)
  : option (heap E * BUCKETPool) :=
  pb ← rd_pb h pBucketDst;
  _ ← DHTAssert (negb (pBucketSrcSrc =? 0) && negb (pBucketDst =? 0) && (pb =? 0) && (0 <? cBucketMax));
  let iHashMask := u64 (cBucketMax - 1 + cBucketMax) in
  s ← split_init h pBucketSrcSrc pBucketDst;
  '(h, pool, s) ← split_loop (S (Z.to_nat m_centryBucket * fuel h)) h pool s iHashMask iHashSrc;
  split_finish h pool s.

(** ** Merging two buckets *)

Record merge := Merge {
  mBucketDst : Z;
  mEntryThisSrc : Z;
  mEntryThisDst : Z;
  mEntryMostDst : Z;
  fSetEndPtr : bool;
  mBucketFromHeap : bool }.

(** The loop that copies the entries of the first source bucket. *)
Fixpoint merge_loop (n : nat) (h : heap E) (pool : BUCKETPool) (m : merge) (pBucketSrc pEntryMostSrc : Z)
  : option (heap E * BUCKETPool * merge) :=
  match n with
  | O => None
  | S n =>
      if mEntryThisSrc m <? pEntryMostSrc then
        let copy h pool p pEntryThisDst pEntryMostDst fHeap :=
          e ← rd_entry h pBucketSrc (mEntryThisSrc m);
          h ← wr_entry h p pEntryThisDst e;
          merge_loop n h pool (Merge p (mEntryThisSrc m + cbEntry) (pEntryThisDst + cbEntry) pEntryMostDst (fSetEndPtr m) fHeap)
            pBucketSrc pEntryMostSrc in
        if mEntryThisDst m <? mEntryMostDst m then
          copy h pool (mBucketDst m) (mEntryThisDst m) (mEntryMostDst m) (mBucketFromHeap m)
        else if negb (fSetEndPtr m) then
          pBucketT ← PbucketBKTNext h (mBucketDst m);
          _ ← DHTAssert (negb (pBucketT =? 0));
          pBucketDst ← last_bucket h pBucketT;
          pEntryLast ← rd_pb h pBucketDst;
          merge_loop n h pool (Merge pBucketDst (mEntryThisSrc m) (pEntryLast + cbEntry) (rgEntry pBucketDst m_centryBucket)
            true (mBucketFromHeap m)) pBucketSrc pEntryMostSrc
        else
          _ ← DHTAssert (negb (mBucketFromHeap m));
          '(pBucketT, pool) ← PbucketPOOLCommit h pool;
          _ ← DHTAssert (negb (pBucketT =? 0));
          h ← wr_pb h (mBucketDst m) pBucketT;
          h ← wr_prev h pBucketT (mBucketDst m);
          copy h pool pBucketT (rgEntry pBucketT 0) (rgEntry pBucketT m_centryBucket) true
      else Some (h, pool, m)
  end.

Definition BKTIDoMerge (h : heap E) (pool : BUCKETPool) (pBucketSrc pBucketDst : Z) : option (heap E * BUCKETPool) :=
  pBucketDst ← last_bucket h pBucketDst;
  pEntryThisDst ← PentryBKTNextMost h pBucketDst;
  let pEntryMostDst := rgEntry pBucketDst m_centryBucket in
  pBucketNext ← PbucketBKTNext h pBucketSrc;
  '(h, pEntryMostSrc, fEnd) ←
    (if pBucketNext =? 0 then
       pEntryMostSrc ← PentryBKTNextMost h pBucketSrc;
       Some (h, pEntryMostSrc, rgEntry pBucketSrc 0 <? pEntryMostSrc)
     else
       next ← rd_pb h pBucketSrc;
       h ← wr_pb h pBucketDst next;
       h ← wr_prev h next pBucketDst;
       Some (h, rgEntry pBucketSrc m_centryBucket, false));
  '(h, pool, m) ← merge_loop (S (S (Z.to_nat m_centryBucket))) h pool
     (Merge pBucketDst (rgEntry pBucketSrc 0) pEntryThisDst pEntryMostDst fEnd false) pBucketSrc pEntryMostSrc;
  h ← wr_pb h pBucketSrc 0;
  h ← (if fSetEndPtr m then
         _ ← DHTAssert (negb (mEntryThisDst m =? rgEntry (mBucketDst m) 0));
         wr_pb h (mBucketDst m) (mEntryThisDst m - cbEntry)
       else Some h);
  Some (h, if mBucketFromHeap m then pool else POOLUnreserve pool).

End Buckets.
