(* ===== verification/HashBucketProofs.v ===== *)
(** * HashBucketProofs: the chain of a bucket as a sequence of entries

    A chain is described by its segments: the address of each bucket with the
    entries in it.  Every operation of [HashBucket] on one chain takes the chain of a
    list of entries to that of the changed list, touches no other bucket, and none
    of its assertions fails. *)

From stdpp Require Import gmap.
From S2P Require Import Prelude HashBucket.

(** What the table's initialisation establishes of the sizes. *)
Class LayoutOk `{BucketLayout} : Prop := {
  header_pos : 0 < cbHeader;
  entry_pos : 0 < cbEntry;
  capacity_pos : 0 < m_centryBucket;
  bucket_fits : cbHeader + m_centryBucket * cbEntry <= m_cbBucket }.

Abbreviation segments E := (list (Z * list E)).

(** The entries of a chain. *)
Definition flat {E} (ss : segments E) : list E := concat (ss.*2).

Lemma flat_app {E} (s1 s2 : segments E) : flat (s1 ++ s2) = flat s1 ++ flat s2.
Proof. unfold flat. by rewrite fmap_app, concat_app. Qed.

Lemma flat_cons {E} (p : Z) (es : list E) (ss : segments E) : flat ((p, es) :: ss) = es ++ flat ss.
Proof. done. Qed.

Section Chains.
Context {K E : Type} `{KE : CKeyEntry K E} `{L : BucketLayout} `{LO : !LayoutOk}.

Definition C : nat := Z.to_nat m_centryBucket.

Lemma C_pos : (0 < C)%nat.
Proof. unfold C. pose proof capacity_pos. lia. Qed.

Lemma C_Z : Z.of_nat C = m_centryBucket.
Proof. unfold C. pose proof capacity_pos. lia. Qed.

(** ** Addresses *)

Record heap_ok (h : heap E) : Prop := {
  heap_addr : forall p b, buckets h !! p = Some b -> addr_ok p;
  heap_apart : forall p q b b', buckets h !! p = Some b -> buckets h !! q = Some b' -> p <> q -> apart p q;
  heap_slots : forall p b, buckets h !! p = Some b -> length (m_rgEntry b) = C }.

Lemma cbBucket_pos : 0 < m_cbBucket.
Proof. pose proof header_pos. pose proof entry_pos. pose proof capacity_pos. pose proof bucket_fits. nia. Qed.

Lemma rgEntry_le p i j : rgEntry p i <= rgEntry p j <-> i <= j.
Proof. unfold rgEntry. pose proof entry_pos. nia. Qed.

Lemma rgEntry_lt p i j : rgEntry p i < rgEntry p j <-> i < j.
Proof. unfold rgEntry. pose proof entry_pos. nia. Qed.

Lemma rgEntry_eq p i j : rgEntry p i = rgEntry p j <-> i = j.
Proof. unfold rgEntry. pose proof entry_pos. nia. Qed.

Lemma rgEntry_succ p i : rgEntry p i + cbEntry = rgEntry p (i + 1).
Proof. unfold rgEntry. lia. Qed.

Lemma rgEntry_pred p i : rgEntry p i - cbEntry = rgEntry p (i - 1).
Proof. unfold rgEntry. lia. Qed.

Lemma rgEntry_inside p i : 0 <= i < m_centryBucket -> p < rgEntry p i < p + m_cbBucket.
Proof. intros Hi. unfold rgEntry. pose proof header_pos. pose proof entry_pos. pose proof bucket_fits. nia. Qed.

Lemma slot_rgEntry p (i : nat) : slot p (rgEntry p (Z.of_nat i)) = Some i.
Proof.
  unfold slot, rgEntry. pose proof entry_pos.
  replace (p + cbHeader + Z.of_nat i * cbEntry - (p + cbHeader + 0 * cbEntry)) with (Z.of_nat i * cbEntry) by lia.
  rewrite Z.mod_mul, Z.div_mul by lia. rewrite (proj2 (Z.leb_le _ _)) by nia. cbn. by rewrite Nat2Z.id.
Qed.

(** ** A bucket and its contents *)

(** Bucket [p] starts with the entries [es]. *)
Definition holds (h : heap E) (p : Z) (prev : option Z) (pb : Z) (es : list E) : Prop :=
  exists rest, buckets h !! p = Some (Bucket prev pb (es ++ rest)).

Lemma holds_addr h p prev pb es : heap_ok h -> holds h p prev pb es -> addr_ok p.
Proof. intros Hh [rest Hp]. by eapply heap_addr. Qed.

Lemma holds_pos h p prev pb es : heap_ok h -> holds h p prev pb es -> 0 < p.
Proof. intros Hh Hp. pose proof (holds_addr _ _ _ _ _ Hh Hp) as [? _]. pose proof cbBucket_pos. lia. Qed.

Lemma holds_len h p prev pb es : heap_ok h -> holds h p prev pb es -> (length es <= C)%nat.
Proof. intros Hh [rest Hp]. apply (heap_slots _ Hh) in Hp. cbn in Hp. rewrite length_app in Hp. lia. Qed.

Lemma rd_pb_holds h p prev pb es : holds h p prev pb es -> rd_pb h p = Some pb.
Proof. intros [rest Hp]. unfold rd_pb. by rewrite Hp. Qed.

Lemma rd_prev_holds h p prev pb es : holds h p (Some prev) pb es -> rd_prev h p = Some prev.
Proof. intros [rest Hp]. unfold rd_prev. by rewrite Hp. Qed.

Lemma rd_entry_holds h p prev pb es (i : nat) e : holds h p prev pb es -> es !! i = Some e ->
  rd_entry h p (rgEntry p (Z.of_nat i)) = Some e.
Proof.
  intros [rest Hp] Hi. unfold rd_entry. rewrite Hp. cbn. rewrite slot_rgEntry. cbn. by apply lookup_app_l_Some.
Qed.

(** A heap with one bucket changed. *)
Definition upd (h : heap E) (p : Z) (b : BUCKET E) : heap E := Heap (blocks h) (<[p := b]> (buckets h)).

Lemma upd_ok h p b b0 : heap_ok h -> buckets h !! p = Some b0 -> length (m_rgEntry b) = C -> heap_ok (upd h p b).
Proof.
  intros [Ha Hap Hs] Hp Hl. split; cbn.
  - intros q b' [[<- <-]|[? ?]]%lookup_insert_Some; eauto.
  - intros q1 q2 b1 b2 [[<- <-]|[? ?]]%lookup_insert_Some [[<- <-]|[? ?]]%lookup_insert_Some; eauto; done.
  - intros q b' [[<- <-]|[? ?]]%lookup_insert_Some; eauto.
Qed.

Lemma holds_upd_ne h p q b prev pb es : p <> q -> holds h q prev pb es -> holds (upd h p b) q prev pb es.
Proof. intros Hn [rest Hq]. exists rest. cbn. by rewrite lookup_insert_ne. Qed.

Lemma wr_pb_spec h p prev pb v es : heap_ok h -> holds h p prev pb es ->
  exists b, wr_pb h p v = Some (upd h p b) /\ heap_ok (upd h p b) /\ holds (upd h p b) p prev v es.
Proof.
  intros Hh [rest Hp]. unfold wr_pb. rewrite Hp. cbn. eexists. split; [done|]. split.
  - eapply upd_ok; [done|done|]. by apply (heap_slots _ Hh) in Hp.
  - exists rest. cbn. by rewrite lookup_insert_eq.
Qed.

Lemma wr_prev_spec h p prev pb v es : heap_ok h -> holds h p (Some prev) pb es ->
  exists b, wr_prev h p v = Some (upd h p b) /\ heap_ok (upd h p b) /\ holds (upd h p b) p (Some v) pb es.
Proof.
  intros Hh [rest Hp]. unfold wr_prev. rewrite Hp. cbn. eexists. split; [done|]. split.
  - eapply upd_ok; [done|done|]. by apply (heap_slots _ Hh) in Hp.
  - exists rest. cbn. by rewrite lookup_insert_eq.
Qed.

(** Writing over an entry. *)
Lemma wr_entry_spec h p prev pb es (i : nat) e : heap_ok h -> holds h p prev pb es -> (i < length es)%nat ->
  exists b, wr_entry h p (rgEntry p (Z.of_nat i)) e = Some (upd h p b) /\ heap_ok (upd h p b) /\
    holds (upd h p b) p prev pb (<[i := e]> es).
Proof.
  intros Hh [rest Hp] Hi. unfold wr_entry. rewrite Hp. cbn. rewrite slot_rgEntry. cbn.
  destruct (lookup_lt_is_Some_2 (es ++ rest) i) as [x Hx]; [rewrite length_app; lia|]. rewrite Hx. cbn.
  eexists. split; [done|]. pose proof (heap_slots _ Hh _ _ Hp) as Hl. cbn in Hl. split.
  - eapply upd_ok; [done|done|]. cbn. by rewrite length_insert.
  - exists rest. cbn. rewrite lookup_insert_eq. by rewrite insert_app_l.
Qed.

(** Writing the entry after the last one. *)
Lemma wr_entry_next h p prev pb es (i : nat) e : heap_ok h -> holds h p prev pb es -> i = length es -> (i < C)%nat ->
  exists b, wr_entry h p (rgEntry p (Z.of_nat i)) e = Some (upd h p b) /\ heap_ok (upd h p b) /\
    holds (upd h p b) p prev pb (es ++ [e]).
Proof.
  intros Hh [rest Hp] -> Hi. pose proof (heap_slots _ Hh _ _ Hp) as Hl. cbn in Hl. rewrite length_app in Hl.
  destruct rest as [|x rest]; [cbn in Hl; lia|].
  destruct (wr_entry_spec h p prev pb (es ++ [x]) (length es) e Hh) as (b & E1 & Hok & Hb).
  { exists rest. by rewrite <- app_assoc. }
  { rewrite length_app. cbn. lia. }
  exists b. split; [done|]. split; [done|]. by rewrite insert_app_r_alt, Nat.sub_diag in Hb by lia.
Qed.

(** ** Chains *)

(** The word of a bucket with the entries [es]: before the segments [ss], or at the
    end of its chain. *)
Definition end_pb (p : Z) (es : list E) : Z :=
  match es with [] => 0 | _ => rgEntry p (Z.of_nat (length es) - 1) end.

Definition hd_ptr (ss : segments E) : Z := match ss with [] => 0 | (q, _) :: _ => q end.

Definition link_pb (p : Z) (es : list E) (ss : segments E) : Z :=
  match ss with [] => end_pb p es | _ => hd_ptr ss end.

(** [chain h prev ss]: the buckets of [ss] are linked, the first one back to [prev]
    when it has a back link; all but the last are full, and only a chain of one
    bucket can be empty. *)
Fixpoint chain (h : heap E) (prev : option Z) (ss : segments E) : Prop :=
  match ss with
  | [] => True
  | (p, es) :: ss =>
      holds h p prev (link_pb p es ss) es /\ (ss <> [] -> length es = C) /\
      (prev = None \/ (es <> [] /\ blocks h !! p = Some 1%nat)) /\ chain h (Some p) ss
  end.

Lemma chain_frame h h' prev ss : (forall p, p ∈ ss.*1 -> buckets h' !! p = buckets h !! p) ->
  (forall p, p ∈ ss.*1 -> blocks h !! p = Some 1%nat -> blocks h' !! p = Some 1%nat) -> chain h prev ss -> chain h' prev ss.
Proof.
  revert prev. induction ss as [|[p es] ss IH]; intros prev Hb Hk; cbn [chain]; [done|].
  intros ([rest Hp] & Hf & Hn & Hc). split_and!; [|done| |].
  - exists rest. rewrite Hb by set_solver. done.
  - destruct Hn as [|[? ?]]; [by left|right]. split; [done|]. apply Hk; [set_solver|done].
  - apply IH; [set_solver..|done].
Qed.

Lemma chain_upd h prev ss p b : p ∉ ss.*1 -> chain h prev ss -> chain (upd h p b) prev ss.
Proof. intros Hp. apply chain_frame; [|done]. intros q Hq. cbn. rewrite lookup_insert_ne by set_solver. done. Qed.

Lemma chain_holds h prev p es ss : chain h prev ((p, es) :: ss) -> holds h p prev (link_pb p es ss) es.
Proof. by intros [? _]. Qed.

(** The last bucket before the segments that follow [s1]. *)
Definition back (prev : option Z) (s1 : segments E) : option Z :=
  match list.last s1 with Some (p, _) => Some p | None => prev end.

Lemma back_cons prev p es s1 : back prev ((p, es) :: s1) = back (Some p) s1.
Proof. unfold back. rewrite last_cons. by destruct (list.last s1) as [[q fs]|]. Qed.

Lemma back_snoc prev s1 p es : back prev (s1 ++ [(p, es)]) = Some p.
Proof. unfold back. by rewrite last_snoc. Qed.

(** Full buckets linked to [n]. *)
Fixpoint lseg (h : heap E) (prev : option Z) (ss : segments E) (n : Z) : Prop :=
  match ss with
  | [] => True
  | (p, es) :: ss =>
      holds h p prev (match ss with [] => n | _ => hd_ptr ss end) es /\ length es = C /\
      (prev = None \/ blocks h !! p = Some 1%nat) /\ lseg h (Some p) ss n
  end.

Lemma lseg_frame h h' prev ss n : (forall p, p ∈ ss.*1 -> buckets h' !! p = buckets h !! p) ->
  (forall p, p ∈ ss.*1 -> blocks h !! p = Some 1%nat -> blocks h' !! p = Some 1%nat) -> lseg h prev ss n -> lseg h' prev ss n.
Proof.
  revert prev. induction ss as [|[p es] ss IH]; intros prev Hb Hk; cbn [lseg]; [done|].
  intros ([rest Hp] & Hf & Hn & Hc). split_and!; [|done| |].
  - exists rest. rewrite Hb by set_solver. done.
  - destruct Hn as [|?]; [by left|right]. apply Hk; [set_solver|done].
  - apply IH; [set_solver..|done].
Qed.

Lemma lseg_upd h prev ss n p b : p ∉ ss.*1 -> lseg h prev ss n -> lseg (upd h p b) prev ss n.
Proof. intros Hp. apply lseg_frame; [|done]. intros q Hq. cbn. rewrite lookup_insert_ne by set_solver. done. Qed.

Lemma lseg_snoc h prev ss n p es m : lseg h prev ss p -> holds h p (back prev ss) m es -> length es = C ->
  (back prev ss = None \/ blocks h !! p = Some 1%nat) -> n = p -> lseg h prev (ss ++ [(p, es)]) m.
Proof.
  intros Hs Hp Hl Hb ->. revert prev Hs Hp Hb. induction ss as [|[q fs] ss IH]; intros prev Hs Hp Hb; cbn [app lseg].
  - done.
  - destruct Hs as (Hq & Hf & Hn & Hs). rewrite back_cons in *. split_and!; [|done|done|by apply IH].
    by destruct ss as [|[q' fs'] ss].
Qed.

Lemma lseg_append h prev s1 q es s2 n :
  lseg h prev (s1 ++ (q, es) :: s2) n <-> lseg h prev s1 q /\ lseg h (back prev s1) ((q, es) :: s2) n.
Proof.
  revert prev. induction s1 as [|[p ps] s1 IH]; intros prev.
  - cbn [app]. unfold back. cbn. tauto.
  - rewrite back_cons. cbn [app lseg]. rewrite IH. cbn [lseg]. destruct s1 as [|[? ?] ?]; cbn [app hd_ptr]; tauto.
Qed.

(** A chain is its full buckets followed by the rest. *)
Lemma chain_app h prev s1 s2 : s2 <> [] ->
  chain h prev (s1 ++ s2) <-> lseg h prev s1 (hd_ptr s2) /\ chain h (back prev s1) s2.
Proof.
  intros Hs2. revert prev. induction s1 as [|[p es] s1 IH]; intros prev; cbn [app chain lseg]; [tauto|].
  rewrite back_cons, IH.
  assert (E1 : link_pb p es (s1 ++ s2) = match s1 with [] => hd_ptr s2 | _ => hd_ptr s1 end).
  { destruct s1 as [|[q fs] s1]; cbn; [|done]. by destruct s2. }
  assert (Hne : s1 ++ s2 <> []) by (destruct s1; [done|done]). rewrite E1. pose proof C_pos.
  split.
  - intros (H1 & H2 & H3 & H4 & H5). split_and!; [done|by apply H2|tauto|done|done].
  - intros ((H1 & H2 & H3 & H4) & H5). split_and!; [done|done| |done|done].
    destruct H3; [by left|right]. split; [|done]. intros ->. cbn in *. lia.
Qed.

Lemma lseg_flat h prev ss n : lseg h prev ss n -> length (flat ss) = (length ss * C)%nat.
Proof.
  revert prev. induction ss as [|[p es] ss IH]; intros prev; [done|]. cbn [lseg]. intros (_ & Hl & _ & Hs).
  rewrite flat_cons, length_app, (IH _ Hs), Hl. cbn. lia.
Qed.

Lemma chain_dom h prev ss p : chain h prev ss -> p ∈ ss.*1 -> is_Some (buckets h !! p).
Proof.
  revert prev. induction ss as [|[q es] ss IH]; intros prev; [set_solver|]. cbn [chain].
  intros ([rest Hq] & _ & _ & Hc). cbn. intros [->|Hp]%elem_of_cons; [by eexists|eauto].
Qed.

Lemma chain_length h prev ss : chain h prev ss -> NoDup ss.*1 -> (length ss <= size (buckets h))%nat.
Proof.
  intros Hc Hd. rewrite <- (length_fmap fst ss), <- (size_list_to_set (C := gset Z)) by done.
  rewrite <- (size_dom (D := gset Z) (buckets h)). apply subseteq_size. intros p.
  rewrite elem_of_list_to_set, elem_of_dom. by apply (chain_dom h prev).
Qed.

(** ** Reading the word of a bucket *)

Lemma NextMost_end h p prev es : heap_ok h -> holds h p prev (end_pb p es) es ->
  PentryBKTNextMost h p = Some (rgEntry p (Z.of_nat (length es))).
Proof.
  intros Hh Hp. pose proof (holds_len _ _ _ _ _ Hh Hp) as Hl. pose proof (holds_addr _ _ _ _ _ Hh Hp) as Ha.
  pose proof C_Z. pose proof header_pos. pose proof entry_pos. unfold PentryBKTNextMost. rewrite (rd_pb_holds _ _ _ _ _ Hp). cbn [mbind option_bind].
  f_equal. destruct es as [|e es]; cbn [end_pb].
  - unfold rgEntry, addr_ok in *. destruct (0 >=? _) eqn:E1; [|done]. pose proof cbBucket_pos. lia.
  - cbn [length] in *. rewrite (proj2 (Z.geb_le _ _)), (proj2 (Z.ltb_lt _ _)).
    + cbn. rewrite rgEntry_succ. f_equal. lia.
    + apply rgEntry_lt. lia.
    + apply rgEntry_le. lia.
Qed.

Lemma apart_next p q : addr_ok p -> addr_ok q -> apart p q ->
  (q <=? u64 (p - m_cbBucket)) || (q >=? p + m_cbBucket) = true.
Proof.
  unfold addr_ok, apart, wrapu. intros ? ? [?|?]; apply orb_true_intro; [right; lia|left].
  pose proof cbBucket_pos. rewrite Z.mod_small by lia. lia.
Qed.

Lemma holds_apart h p q prev prev' pb pb' es es' : heap_ok h -> holds h p prev pb es -> holds h q prev' pb' es' -> p <> q ->
  apart p q.
Proof. intros Hh [r Hp] [r' Hq]. by eapply heap_apart. Qed.

(** In front of another bucket the word says that the bucket is full. *)
Lemma NextMost_full h p prev q prev' pb' es es' : heap_ok h -> holds h p prev q es -> holds h q prev' pb' es' -> p <> q ->
  PentryBKTNextMost h p = Some (rgEntry p (Z.of_nat C)).
Proof.
  intros Hh Hp Hq Hne. pose proof (holds_apart _ _ _ _ _ _ _ _ _ Hh Hp Hq Hne) as Hap.
  pose proof (holds_pos _ _ _ _ _ Hh Hq). unfold PentryBKTNextMost. rewrite (rd_pb_holds _ _ _ _ _ Hp), C_Z. cbn [mbind option_bind].
  f_equal. rewrite (proj2 (Z.eqb_neq 0 q)) by lia.
  destruct (q >=? rgEntry p 0) eqn:E1, (q <? rgEntry p m_centryBucket) eqn:E2; try done. cbn. exfalso.
  apply Z.geb_le in E1. apply Z.ltb_lt in E2. unfold apart, rgEntry in *.
  pose proof header_pos. pose proof entry_pos. pose proof bucket_fits. pose proof cbBucket_pos. lia.
Qed.

Lemma Next_end h p prev es : heap_ok h -> holds h p prev (end_pb p es) es -> PbucketBKTNext h p = Some 0.
Proof.
  intros Hh Hp. pose proof (holds_len _ _ _ _ _ Hh Hp) as Hl. pose proof (holds_addr _ _ _ _ _ Hh Hp) as Ha.
  pose proof C_Z. pose proof cbBucket_pos. unfold addr_ok in *. unfold PbucketBKTNext. rewrite (rd_pb_holds _ _ _ _ _ Hp). cbn [mbind option_bind].
  destruct es as [|e es]; cbn [end_pb].
  - rewrite (proj2 (Z.leb_le _ _)); [done|]. unfold wrapu. rewrite Z.mod_small by lia. lia.
  - cbn [length] in *. pose proof (rgEntry_inside p (Z.of_nat (S (length es)) - 1) ltac:(lia)) as Hin.
    unfold wrapu. rewrite Z.mod_small by lia. rewrite (proj2 (Z.leb_gt _ _)) by lia.
    destruct (rgEntry p _ >=? _) eqn:E1; [|done]. apply Z.geb_le in E1. lia.
Qed.

Lemma Next_link h p prev q pb' es es' : heap_ok h -> holds h p prev q es -> holds h q (Some p) pb' es' -> p <> q ->
  PbucketBKTNext h p = Some q.
Proof.
  intros Hh Hp Hq Hne. pose proof (holds_apart _ _ _ _ _ _ _ _ _ Hh Hp Hq Hne) as Hap.
  pose proof (holds_addr _ _ _ _ _ Hh Hp). pose proof (holds_addr _ _ _ _ _ Hh Hq). pose proof (holds_pos _ _ _ _ _ Hh Hq).
  unfold PbucketBKTNext. rewrite (rd_pb_holds _ _ _ _ _ Hp). cbn [mbind option_bind]. rewrite apart_next by done.
  rewrite (proj2 (Z.eqb_neq q 0)) by lia. rewrite (rd_prev_holds _ _ _ _ _ Hq). cbn. by rewrite Z.eqb_refl.
Qed.

(** Both for the first bucket of a chain. *)
Lemma chain_NextMost h prev p es ss : heap_ok h -> chain h prev ((p, es) :: ss) -> NoDup (p :: ss.*1) ->
  PentryBKTNextMost h p = Some (rgEntry p (Z.of_nat (length es))).
Proof.
  intros Hh (Hp & Hf & _ & Hc) [Hn _]%list.NoDup_cons. destruct ss as [|[q fs] ss].
  - by eapply NextMost_end.
  - rewrite Hf by done. destruct Hc as (Hq & _). eapply NextMost_full; [done|exact Hp|exact Hq|set_solver].
Qed.

Lemma chain_Next h prev p es ss : heap_ok h -> chain h prev ((p, es) :: ss) -> NoDup (p :: ss.*1) ->
  PbucketBKTNext h p = Some (hd_ptr ss).
Proof.
  intros Hh (Hp & Hf & _ & Hc) [Hn _]%list.NoDup_cons. destruct ss as [|[q fs] ss].
  - by eapply Next_end.
  - destruct Hc as (Hq & _). eapply Next_link; [done|exact Hp|exact Hq|set_solver].
Qed.

(** The last bucket, from any bucket of the chain. *)
Lemma last_bucket_loop h prev p es s2 q fs n : heap_ok h -> chain h prev ((p, es) :: s2) -> NoDup (p :: s2.*1) ->
  list.last ((p, es) :: s2) = Some (q, fs) -> (length s2 < n)%nat -> last_loop n h p (hd_ptr s2) = Some q.
Proof.
  revert prev p es n. induction s2 as [|[p' es'] s2 IH]; intros prev p es n Hh Hc Hd Hl Hn.
  - cbn in Hl. simplify_eq. destruct n; [lia|]. done.
  - destruct n as [|n]; [lia|]. cbn [last_loop hd_ptr]. destruct Hc as (_ & _ & _ & Hc).
    pose proof (holds_pos _ _ _ _ _ Hh (chain_holds _ _ _ _ _ Hc)). rewrite (proj2 (Z.eqb_neq _ _)) by lia.
    apply list.NoDup_cons in Hd as [_ Hd]. rewrite (chain_Next _ _ _ _ _ Hh Hc Hd). cbn [mbind option_bind].
    eapply IH; [done|done|done| |cbn in Hn; lia]. by rewrite last_cons_cons in Hl.
Qed.

Lemma last_bucket_ok h prev p es s2 q fs : heap_ok h -> chain h prev ((p, es) :: s2) -> NoDup (p :: s2.*1) ->
  list.last ((p, es) :: s2) = Some (q, fs) -> last_bucket h p = Some q.
Proof.
  intros Hh Hc Hd Hl. unfold last_bucket. rewrite (chain_Next _ _ _ _ _ Hh Hc Hd). cbn [mbind option_bind].
  eapply last_bucket_loop; [done..|]. pose proof (chain_length _ _ _ Hc Hd) as Hs. cbn in Hs. unfold fuel. lia.
Qed.

(** ** Seeking a key *)

(** The entry [e] of the chain at the position ([q], [a]). *)
Definition at_entry (ss : segments E) (q a : Z) (e : E) : Prop :=
  exists es (i : nat), (q, es) ∈ ss /\ es !! i = Some e /\ a = rgEntry q (Z.of_nat i).

(** What a seek leaves: the position of an entry that matches, or a bucket of the
    chain and no entry. *)
Definition found (ss : segments E) (key : K) (q a : Z) : Prop :=
  (exists e, at_entry ss q a e /\ FEntryMatchesKey e key = true) \/
  (a = 0 /\ q ∈ ss.*1 /\ forall e, e ∈ flat ss -> FEntryMatchesKey e key = false).

Lemma seek_loop_ok h p prev pb es key (i n : nat) : holds h p prev pb es -> (i < length es)%nat -> (length es <= i + n)%nat ->
  exists a, seek_loop n h p (rgEntry p (Z.of_nat i)) (rgEntry p (Z.of_nat (length es) - 1)) key = Some a /\
    ((exists j e, a = rgEntry p (Z.of_nat j) /\ es !! j = Some e /\ FEntryMatchesKey e key = true) \/
     (a = 0 /\ forall e, e ∈ drop i es -> FEntryMatchesKey e key = false)).
Proof.
  intros Hp. revert i. induction n as [|n IH]; intros i Hi Hn; [lia|]. cbn [seek_loop].
  destruct (lookup_lt_is_Some_2 es i Hi) as [e He]. rewrite (rd_entry_holds _ _ _ _ _ _ _ Hp He). cbn [mbind option_bind].
  destruct (FEntryMatchesKey e key) eqn:Em; [eexists; split; [done|]; left; by eexists i, e|].
  rewrite rgEntry_succ. rewrite (drop_S _ _ _ He). destruct (Z.leb_spec (rgEntry p (Z.of_nat i + 1)) (rgEntry p (Z.of_nat (length es) - 1))) as [Hle|Hle].
  - apply (proj1 (rgEntry_le _ _ _)) in Hle. replace (Z.of_nat i + 1) with (Z.of_nat (S i)) by lia.
    destruct (IH (S i)) as (a & Ea & Ha); [lia..|]. exists a. split; [done|].
    destruct Ha as [?|[-> Ha]]; [by left|right]. split; [done|]. intros e' [->|?]%elem_of_cons; eauto.
  - apply (proj1 (rgEntry_lt _ _ _)) in Hle. exists 0. split; [done|]. right. split; [done|].
    rewrite drop_ge by lia. intros e' ->%list_elem_of_singleton. done.
Qed.

Lemma scan_bucket_ok h p prev pb es key (i n : nat) : holds h p prev pb es -> (i <= length es)%nat -> (length es < i + n)%nat ->
  exists r, scan_bucket n h p (rgEntry p (Z.of_nat i)) (rgEntry p (Z.of_nat (length es))) key = Some r /\
    match r with
    | Some a => exists j e, a = rgEntry p (Z.of_nat j) /\ es !! j = Some e /\ FEntryMatchesKey e key = true
    | None => forall e, e ∈ drop i es -> FEntryMatchesKey e key = false
    end.
Proof.
  intros Hp. revert i. induction n as [|n IH]; intros i Hi Hn; [lia|]. cbn [scan_bucket].
  destruct (Z.ltb_spec (rgEntry p (Z.of_nat i)) (rgEntry p (Z.of_nat (length es)))) as [Hlt|Hge].
  - apply (proj1 (rgEntry_lt _ _ _)) in Hlt. destruct (lookup_lt_is_Some_2 es i ltac:(lia)) as [e He].
    rewrite (rd_entry_holds _ _ _ _ _ _ _ Hp He). cbn [mbind option_bind].
    destruct (FEntryMatchesKey e key) eqn:Em; [eexists; split; [done|]; by eexists i, e|].
    rewrite rgEntry_succ. replace (Z.of_nat i + 1) with (Z.of_nat (S i)) by lia.
    destruct (IH (S i)) as (r & Er & Hr); [lia..|]. exists r. split; [done|]. destruct r as [a|]; [done|].
    rewrite (drop_S _ _ _ He). intros e' [->|?]%elem_of_cons; eauto.
  - apply (proj1 (rgEntry_le _ _ _)) in Hge. exists None. split; [done|]. rewrite drop_ge by lia. set_solver.
Qed.

Lemma scan_chain_ok h prev ss key n : heap_ok h -> chain h prev ss -> NoDup ss.*1 -> ss <> [] -> (length ss <= n)%nat ->
  exists q a, scan_chain n h (hd_ptr ss) key = Some (q, a) /\ found ss key q a.
Proof.
  revert prev ss. induction n as [|n IH]; intros prev [|[p es] ss] Hh Hc Hd Hne Hn; try done; [cbn in Hn; lia|].
  cbn [hd_ptr scan_chain]. rewrite (chain_NextMost _ _ _ _ _ Hh Hc Hd). cbn [mbind option_bind].
  pose proof (chain_holds _ _ _ _ _ Hc) as Hp. pose proof (holds_len _ _ _ _ _ Hh Hp) as Hl.
  destruct (scan_bucket_ok h p _ _ es key 0 (S (Z.to_nat m_centryBucket)) Hp) as (r & Er & Hr); [lia|fold C; lia|].
  change (Z.of_nat 0) with 0 in Er. rewrite Er. cbn [mbind option_bind]. destruct r as [a|].
  - exists p, a. split; [done|]. left. destruct Hr as (j & e & -> & Hj & Hm). exists e. split; [|done].
    exists es, j. split; [left|done].
  - rewrite (chain_Next _ _ _ _ _ Hh Hc Hd). cbn [mbind option_bind]. destruct ss as [|[q fs] ss].
    + exists p, 0. split; [done|]. right. split_and!; [done|set_solver|]. unfold flat. cbn. rewrite app_nil_r. done.
    + destruct Hc as (_ & _ & _ & Hc). pose proof (holds_pos _ _ _ _ _ Hh (chain_holds _ _ _ _ _ Hc)).
      cbn [hd_ptr]. rewrite (proj2 (Z.eqb_neq q 0)) by lia. apply list.NoDup_cons in Hd as [_ Hd].
      destruct (IH (Some p) ((q, fs) :: ss)) as (q' & a & Ea & Ha); [done..|cbn in *; lia|]. cbn [hd_ptr] in Ea.
      exists q', a. split; [done|]. destruct Ha as [(e & (fs' & i & ? & ?) & ?)|(-> & ? & Hnm)]; [left|right].
      * exists e. split; [|done]. exists fs', i. split; [by right|done].
      * split_and!; [done|by right|]. rewrite flat_cons. intros e [He|He]%elem_of_app; [by apply Hr|by apply Hnm].
Qed.

Lemma BKTSeek_ok h p es ss plock key : heap_ok h -> chain h None ((p, es) :: ss) -> NoDup (p :: ss.*1) ->
  m_pBucketHead plock = p -> m_ls plock = lsRead \/ m_ls plock = lsWrite ->
  exists q a, BKTSeek h plock key = Some (set_currency q 0 a 0 plock) /\ found ((p, es) :: ss) key q a.
Proof.
  intros Hh Hc Hd Hpl Hls. pose proof (chain_holds _ _ _ _ _ Hc) as Hp. pose proof (holds_len _ _ _ _ _ Hh Hp) as Hl.
  pose proof (holds_addr _ _ _ _ _ Hh Hp) as Ha. pose proof cbBucket_pos. pose proof C_Z. unfold addr_ok in Ha.
  unfold BKTSeek. rewrite Hpl. rewrite (rd_pb_holds _ _ _ _ _ Hp). cbn [mbind option_bind].
  destruct ss as [|[q fs] ss]; cbn [link_pb].
  - destruct es as [|e es]; cbn [end_pb].
    + unfold wrapu. rewrite <- (Z_mod_plus_full _ 1), Z.mod_small by lia. rewrite (proj2 (Z.ltb_ge _ _)) by lia. cbn.
      exists p, 0. split; [done|]. right. split_and!; [done|set_solver|cbn; set_solver].
    + pose proof (rgEntry_inside p (Z.of_nat (length (e :: es)) - 1) ltac:(cbn [length] in *; lia)) as Hin.
      unfold wrapu. rewrite Z.mod_small by lia. rewrite (proj2 (Z.ltb_lt _ _)) by lia.
      destruct (seek_loop_ok h p _ _ (e :: es) key 0 (Z.to_nat m_centryBucket) Hp) as (a & Ea & Hf); [cbn; lia|fold C; lia|].
      change (Z.of_nat 0) with 0 in Ea. rewrite Ea. cbn [mbind option_bind]. exists p, a. split; [done|]. destruct Hf as [(j & e' & -> & Hj & Hm)|[-> Hf]].
      * left. exists e'. split; [|done]. exists (e :: es), j. split; [left|done].
      * right. split_and!; [done|set_solver|]. unfold flat. cbn. rewrite app_nil_r. done.
  - destruct Hc as (_ & Hf & Hb & Hc). pose proof (chain_holds _ _ _ _ _ Hc) as Hq.
    pose proof (holds_addr _ _ _ _ _ Hh Hq) as Hqa. unfold addr_ok in Hqa.
    assert (Hne : p <> q) by (apply list.NoDup_cons in Hd as [Hd _]; set_solver).
    pose proof (holds_apart _ _ _ _ _ _ _ _ _ Hh Hp Hq Hne) as Hap. cbn [hd_ptr].
    rewrite (proj2 (Z.ltb_ge (u64 (q - p)) _)), (proj2 (Z.eqb_neq q 0)); [|lia|].
    + unfold BKTISeek, FBKTRead, FBKTWrite. cbn [set_currency m_pBucketHead m_ls]. rewrite Hpl, (proj2 (Z.eqb_neq p 0)) by lia.
      replace (_ || _) with true by (by destruct Hls as [-> | ->]). cbn [negb andb DHTAssert mbind option_bind].
      destruct (scan_chain_ok h None ((p, es) :: (q, fs) :: ss) key (fuel h)) as (q' & a & Ea & Hfd); try done.
      { unfold fuel. pose proof (chain_length h None ((p, es) :: (q, fs) :: ss)) as Hcl. cbn [length] in *.
        eapply Nat.le_trans; [apply Hcl; done|lia]. }
      cbn [hd_ptr] in Ea. rewrite Ea. cbn. by exists q', a.
    + unfold apart in Hap. unfold wrapu. destruct Hap.
      * rewrite Z.mod_small by lia. lia.
      * rewrite <- (Z_mod_plus_full _ 1), Z.mod_small by lia. lia.
Qed.

(** ** Writing to a chain *)

(** What an operation on a few chains touches: the first buckets [heads], and the
    buckets they own besides, [old] before and [new] afterwards. *)
Record touched (h h' : heap E) (heads old new : list Z) : Prop := {
  touched_buckets : forall p, p ∉ heads ++ old ++ new -> buckets h' !! p = buckets h !! p;
  touched_blocks : forall p, p ∉ old ++ new -> blocks h' !! p = blocks h !! p;
  touched_freed : forall p, p ∈ old -> p ∉ new -> buckets h' !! p = None /\ blocks h' !! p = None }.

Lemma touched_upd h p b heads old : p ∈ heads ++ old -> touched h (upd h p b) heads old old.
Proof.
  intros Hp. split; cbn; [|done|set_solver]. intros q Hq. rewrite lookup_insert_ne; [done|]. set_solver.
Qed.

Lemma touched_trans h1 h2 h3 heads s1 s2 s3 : (forall p, p ∈ s1 -> p ∉ s2 -> p ∉ heads ++ s3) ->
  (forall p, p ∈ s2 -> p ∈ s1 \/ p ∈ s3) ->
  touched h1 h2 heads s1 s2 -> touched h2 h3 heads s2 s3 -> touched h1 h3 heads s1 s3.
Proof.
  intros Hs Hs' [A1 B1 F1] [A2 B2 F2]. split.
  - intros p Hp. rewrite A2, A1; set_solver.
  - intros p Hp. rewrite B2, B1; set_solver.
  - intros p Hp1 Hp3. destruct (decide (p ∈ s2)) as [Hp2|Hp2]; [by apply F2|].
    destruct (F1 p Hp1 Hp2) as [E1 E2]. rewrite A2, B2; [done|set_solver|]. specialize (Hs p Hp1 Hp2). set_solver.
Qed.

Lemma touched_same h heads old : touched h h heads old old.
Proof. split; [done..|set_solver]. Qed.

(** The buckets of a chain after its first. *)
Definition overflow (ss : segments E) : list Z := tail ss.*1.

(** One bucket of a chain gets other contents of the same length. *)
Lemma chain_replace h prev s1 q es s2 b es' : heap_ok h -> chain h prev (s1 ++ (q, es) :: s2) ->
  NoDup (s1 ++ (q, es) :: s2).*1 -> length es' = length es ->
  holds (upd h q b) q (back prev s1) (link_pb q es s2) es' -> chain (upd h q b) prev (s1 ++ (q, es') :: s2).
Proof.
  intros Hh Hc Hd Hl Hq. rewrite fmap_app, fmap_cons in Hd. apply list.NoDup_app in Hd as (_ & Hd1 & Hd2). cbn in Hd1, Hd2.
  apply list.NoDup_cons in Hd2 as [Hd2 _].
  apply chain_app in Hc as [Hs Hc]; [|done]. apply chain_app; [done|]. cbn [hd_ptr] in *. split.
  - apply lseg_upd; [|done]. intros Hq'. destruct (Hd1 q Hq'). left.
  - destruct Hc as (_ & Hf & Hn & Hc). cbn [chain]. split_and!.
    + replace (link_pb q es' s2) with (link_pb q es s2); [done|]. destruct s2; [|done]. cbn.
      destruct es, es'; cbn in *; try done. by rewrite Hl.
    + rewrite Hl. done.
    + cbn. destruct Hn as [|[Hne ?]]; [by left|right]. split; [|done]. destruct es, es'; done.
    + by apply chain_upd.
Qed.

(** An entry of a chain is overwritten. *)
Lemma chain_write_entry h prev s1 q es s2 (i : nat) e : heap_ok h -> chain h prev (s1 ++ (q, es) :: s2) ->
  NoDup (s1 ++ (q, es) :: s2).*1 -> (i < length es)%nat ->
  exists b, wr_entry h q (rgEntry q (Z.of_nat i)) e = Some (upd h q b) /\ heap_ok (upd h q b) /\
    chain (upd h q b) prev (s1 ++ (q, <[i := e]> es) :: s2).
Proof.
  intros Hh Hc Hd Hi. pose proof Hc as [_ [Hq _]]%chain_app; [|done].
  destruct (wr_entry_spec h q _ _ es i e Hh Hq Hi) as (b & Eb & Hok & Hb). exists b. split_and!; [done..|].
  eapply chain_replace; [done..| |done]. by rewrite length_insert.
Qed.

Lemma chain_bucket h prev s1 q es s2 : chain h prev (s1 ++ (q, es) :: s2) ->
  chain h (back prev s1) ((q, es) :: s2) /\ holds h q (back prev s1) (link_pb q es s2) es.
Proof. intros [_ Hc]%chain_app; [|done]. split; [done|]. by apply chain_holds in Hc. Qed.

Lemma last_bucket_chain h prev s1 q es s2 z zs : heap_ok h -> chain h prev (s1 ++ (q, es) :: s2) ->
  NoDup (s1 ++ (q, es) :: s2).*1 -> list.last ((q, es) :: s2) = Some (z, zs) -> last_bucket h q = Some z.
Proof.
  intros Hh Hc Hd Hl. apply chain_bucket in Hc as [Hc _]. rewrite fmap_app in Hd.
  apply list.NoDup_app in Hd as (_ & _ & Hd). by eapply last_bucket_ok.
Qed.

(** ** The current entry *)

Lemma at_entry_split ss q a e : at_entry ss q a e ->
  exists s1 es s2 (i : nat), ss = s1 ++ (q, es) :: s2 /\ es !! i = Some e /\ a = rgEntry q (Z.of_nat i).
Proof.
  intros (es & i & Hin & Hi & ->). apply list_elem_of_split in Hin as (s1 & s2 & ->). by exists s1, es, s2, i.
Qed.

Lemma at_entry_flat ss q a e : at_entry ss q a e -> e ∈ flat ss.
Proof.
  intros (s1 & es & s2 & i & -> & Hi & ->)%at_entry_split. rewrite flat_app, flat_cons.
  apply elem_of_app. right. apply elem_of_app. left. by eapply list_elem_of_lookup_2.
Qed.

Lemma at_entry_pos h prev ss q a e : heap_ok h -> chain h prev ss -> at_entry ss q a e -> 0 < q /\ 0 < a.
Proof.
  intros Hh Hc (s1 & es & s2 & i & -> & Hi & ->)%at_entry_split.
  apply chain_bucket in Hc as [_ Hq]. pose proof (holds_pos _ _ _ _ _ Hh Hq). split; [done|].
  unfold rgEntry. pose proof header_pos. pose proof entry_pos. nia.
Qed.

Lemma rd_entry_at h prev ss q a e : chain h prev ss -> at_entry ss q a e -> rd_entry h q a = Some e.
Proof.
  intros Hc (s1 & es & s2 & i & -> & Hi & ->)%at_entry_split. apply chain_bucket in Hc as [_ Hq].
  by eapply rd_entry_holds.
Qed.

(** The position of a client: on an entry of its chain, or on none. *)
Definition on_entry (ss : segments E) (plock : CLock) (oe : option E) : Prop :=
  match oe with
  | Some e => at_entry ss (m_pBucket plock) (m_pEntry plock) e
  | None => m_pEntry plock = 0 /\ m_pBucket plock ∈ ss.*1
  end.

Lemma chain_ptr_pos h prev ss q : heap_ok h -> chain h prev ss -> q ∈ ss.*1 -> 0 < q.
Proof.
  intros Hh Hc Hq. destruct (chain_dom _ _ _ _ Hc Hq) as [b Hb]. pose proof (heap_addr _ Hh _ _ Hb) as [? _].
  pose proof cbBucket_pos. lia.
Qed.

Lemma on_entry_bucket ss plock oe : on_entry ss plock oe -> m_pBucket plock ∈ ss.*1.
Proof.
  destruct oe as [e|]; [|by intros [_ ?]]. intros (es & i & Hin & _). apply list_elem_of_fmap. by eexists (_, _).
Qed.

Lemma positioned_ok h p es ss plock oe : heap_ok h -> chain h None ((p, es) :: ss) -> m_pBucketHead plock = p ->
  on_entry ((p, es) :: ss) plock oe -> positioned plock = true.
Proof.
  intros Hh Hc Hp Ho. pose proof (chain_ptr_pos _ _ _ p Hh Hc ltac:(set_solver)).
  pose proof (chain_ptr_pos _ _ _ _ Hh Hc (on_entry_bucket _ _ _ Ho)). unfold positioned. rewrite Hp.
  rewrite !(proj2 (Z.eqb_neq _ _)) by lia. done.
Qed.

Lemma ErrBKTGetEntry_ok h p es ss plock oe : heap_ok h -> chain h None ((p, es) :: ss) -> m_pBucketHead plock = p ->
  m_ls plock <> lsNil -> on_entry ((p, es) :: ss) plock oe ->
  ErrBKTGetEntry h plock = Some (match oe with Some e => (errSuccess, Some e) | None => (errEntryNotFound, None) end).
Proof.
  intros Hh Hc Hp Hls Ho. unfold ErrBKTGetEntry. rewrite (positioned_ok _ _ _ _ _ _ Hh Hc Hp Ho), andb_true_r.
  assert (E1 : FBKTRead plock || FBKTWrite plock || FBKTScan plock = true).
  { unfold FBKTRead, FBKTWrite, FBKTScan. by destruct (m_ls plock). }
  rewrite E1. cbn. destruct oe as [e|].
  - pose proof (at_entry_pos _ _ _ _ _ _ Hh Hc Ho) as [_ Ha]. rewrite (proj2 (Z.eqb_neq _ _)) by lia. cbn.
    by rewrite (rd_entry_at _ _ _ _ _ _ Hc Ho).
  - destruct Ho as [-> _]. done.
Qed.

Lemma ErrBKTReplaceEntry_ok h p es ss plock oe e : heap_ok h -> chain h None ((p, es) :: ss) -> NoDup (p :: ss.*1) ->
  m_pBucketHead plock = p -> m_ls plock = lsWrite \/ m_ls plock = lsScan -> on_entry ((p, es) :: ss) plock oe ->
  match oe with
  | None => ErrBKTReplaceEntry h plock e = Some (errNoCurrentEntry, h)
  | Some e0 => exists h' es' ss' l1 l2, ErrBKTReplaceEntry h plock e = Some (errSuccess, h') /\ heap_ok h' /\
      chain h' None ((p, es') :: ss') /\ ss'.*1 = ss.*1 /\ on_entry ((p, es') :: ss') plock (Some e) /\
      flat ((p, es) :: ss) = l1 ++ e0 :: l2 /\ flat ((p, es') :: ss') = l1 ++ e :: l2 /\
      touched h h' [p] (overflow ((p, es) :: ss)) (overflow ((p, es') :: ss'))
  end.
Proof.
  intros Hh Hc Hd Hp Hls Ho. unfold ErrBKTReplaceEntry. rewrite (positioned_ok _ _ _ _ _ _ Hh Hc Hp Ho), andb_true_r.
  assert (E1 : FBKTWrite plock || FBKTScan plock = true).
  { unfold FBKTWrite, FBKTScan. by destruct Hls as [-> | ->]. }
  rewrite E1. cbn [DHTAssert mbind option_bind]. destruct oe as [e0|]; [|by destruct Ho as [-> _]].
  pose proof (at_entry_pos _ _ _ _ _ _ Hh Hc Ho) as [_ Ha]. rewrite (proj2 (Z.eqb_neq _ _)) by lia. cbn [negb].
  destruct (at_entry_split _ _ _ _ Ho) as (s1 & fs & s2 & i & Ess & Hi & Ea). rewrite Ess in Hc.
  pose proof (lookup_lt_Some _ _ _ Hi) as Hlt.
  assert (Hd' : NoDup (s1 ++ (m_pBucket plock, fs) :: s2).*1) by (rewrite <- Ess; done).
  rewrite Ea. destruct (chain_write_entry h None s1 _ fs s2 i e Hh Hc Hd' Hlt) as (b & -> & Hok & Hc'). cbn [mbind option_bind].
  assert (Eptr : (s1 ++ (m_pBucket plock, <[i:=e]> fs) :: s2).*1 = p :: ss.*1).
  { change (p :: ss.*1) with (((p, es) :: ss).*1). rewrite Ess, !fmap_app. done. }
  destruct (s1 ++ (m_pBucket plock, <[i:=e]> fs) :: s2) as [|[p' es'] ss'] eqn:Ess'; [done|]. cbn in Eptr. injection Eptr as -> Eptr.
  eexists _, es', ss', (flat s1 ++ take i fs), (drop (S i) fs ++ flat s2). split; [done|]. split_and!; [done..| | | |].
  - rewrite <- Ess'. exists (<[i:=e]> fs), i. split; [set_solver|]. split; [|done]. rewrite list_lookup_insert_eq; done.
  - rewrite Ess, flat_app, flat_cons. rewrite <- (take_drop_middle _ _ _ Hi) at 1. rewrite <- !app_assoc. done.
  - rewrite <- Ess', flat_app, flat_cons. rewrite insert_take_drop by done. rewrite <- !app_assoc. done.
  - unfold overflow. cbn. rewrite Eptr. apply touched_upd.
    assert (Hb : m_pBucket plock ∈ ((p, es) :: ss).*1) by (by eapply on_entry_bucket with (oe := Some e0)).
    cbn in Hb. set_solver.
Qed.

End Chains.
