(* ===== verification/HashBucketOps.v ===== *)
(** * HashBucketOps: insertion and deletion in a chain

    Insertion appends the entry to the chain, in a new bucket when the last one is
    full; deletion fills the hole with the last entry of the chain and releases the
    last bucket when it becomes empty. *)

From stdpp Require Import gmap.
From S2P Require Import Prelude HashBucket HashBucketProofs.

Section Ops.
Context {K E : Type} `{KE : CKeyEntry K E} `{L : BucketLayout} `{LO : !LayoutOk} (junk : Z -> BUCKET E).

(** Fresh memory has the size of a bucket. *)
Definition junk_ok : Prop := forall p, length (m_rgEntry (junk p)) = C /\ is_Some (m_pBucketPrev (junk p)).

Context (Hjunk : junk_ok).

(** ** Memory *)

Lemma block_buckets_1 p : block_buckets p 1 = [p].
Proof. unfold block_buckets. cbn. f_equal. lia. Qed.

Lemma fresh_1 (h : heap E) p : fresh h p 1 -> blocks h !! p = None /\ buckets h !! p = None /\ addr_ok p /\
  forall q b, buckets h !! q = Some b -> apart p q.
Proof.
  unfold fresh. rewrite block_buckets_1, Forall_singleton. intros (? & ? & Ha). split_and!; [done| |done|done].
  destruct (buckets h !! p) as [b|] eqn:Hp; [|done]. apply Ha in Hp. unfold apart in Hp. pose proof cbBucket_pos. lia.
Qed.

Lemma add_block_1 (h : heap E) p : add_block junk h p 1 = Heap (<[p := 1%nat]> (blocks h)) (<[p := junk p]> (buckets h)).
Proof. unfold add_block. by rewrite block_buckets_1. Qed.

Lemma add_block_1_ok (h : heap E) p : heap_ok h -> fresh h p 1 ->
  heap_ok (add_block junk h p 1) /\ exists prev pb, holds (add_block junk h p 1) p (Some prev) pb [].
Proof.
  intros [Ha Hap Hs] (Hb & Hp & Hpa & Hpap)%fresh_1. rewrite add_block_1. destruct (Hjunk p) as [Hl [prev Hprev]]. split.
  - split; cbn.
    + intros q b [[<- <-]|[? ?]]%lookup_insert_Some; eauto.
    + intros q1 q2 b1 b2 [[<- <-]|[? ?]]%lookup_insert_Some [[<- <-]|[? ?]]%lookup_insert_Some Hne; eauto; [done|].
      destruct (Hpap q1 b1 ltac:(done)); [by right|by left].
    + intros q b [[<- <-]|[? ?]]%lookup_insert_Some; eauto.
  - exists prev, (m_pb (junk p)), (m_rgEntry (junk p)). cbn. rewrite lookup_insert_eq. cbn.
    by destruct (junk p) as [pr pb rg]; cbn in *; subst.
Qed.

Lemma add_block_1_touched (h : heap E) p heads old : p ∉ heads ++ old -> touched h (add_block junk h p 1) heads old (old ++ [p]).
Proof.
  intros Hp. rewrite add_block_1. split; cbn.
  - intros q Hq. rewrite lookup_insert_ne; set_solver.
  - intros q Hq. rewrite lookup_insert_ne; set_solver.
  - set_solver.
Qed.

Lemma free_1 (h : heap E) p : blocks h !! p = Some 1%nat -> 0 < p ->
  MEMFree h p = Some (Heap (delete p (blocks h)) (delete p (buckets h))).
Proof.
  intros Hp H0. unfold MEMFree. rewrite (proj2 (Z.eqb_neq _ _)) by lia. rewrite Hp. cbn [mbind option_bind].
  by rewrite block_buckets_1.
Qed.

Lemma free_ok (h : heap E) (m : gmap Z nat) p : heap_ok h -> heap_ok (Heap m (delete p (buckets h))).
Proof.
  intros [Ha Hap Hs]. split; cbn.
  - intros q b [_ ?]%lookup_delete_Some. eauto.
  - intros q1 q2 b1 b2 [_ ?]%lookup_delete_Some [_ ?]%lookup_delete_Some. eauto.
  - intros q b [_ ?]%lookup_delete_Some. eauto.
Qed.

(** ** Insertion *)

Lemma chain_add_bucket (h : heap E) prev ss z zs zs' b : heap_ok h -> chain h prev (ss ++ [(z, zs)]) -> NoDup (ss ++ [(z, zs)]).*1 ->
  zs' <> [] \/ ss = [] /\ prev = None -> holds (upd h z b) z (back prev ss) (end_pb z zs') zs' ->
  chain (upd h z b) prev (ss ++ [(z, zs')]).
Proof.
  intros Hh Hc Hd Hz Hq. rewrite fmap_app in Hd. apply list.NoDup_app in Hd as (_ & Hd & _). cbn in Hd.
  apply chain_app in Hc as [Hs Hc]; [|done]. apply chain_app; [done|]. cbn [hd_ptr] in *. split.
  - apply lseg_upd; [|done]. intros Hz'. destruct (Hd z Hz'). left.
  - destruct Hc as (_ & _ & Hn & _). cbn [chain link_pb]. split_and!; [done|done| |done].
    destruct Hz as [Hz|[-> ->]]; [|by left]. destruct Hn as [?|[? ?]]; [by left|by right].
Qed.

(** An entry is added to the last bucket. *)
Lemma append_entry (h : heap E) ss z zs e : heap_ok h -> chain h None (ss ++ [(z, zs)]) -> NoDup (ss ++ [(z, zs)]).*1 ->
  (length zs < C)%nat ->
  exists b, (h1 ← wr_entry h z (rgEntry z (Z.of_nat (length zs))) e; wr_pb h1 z (rgEntry z (Z.of_nat (length zs)))) = Some (upd h z b) /\
    heap_ok (upd h z b) /\ chain (upd h z b) None (ss ++ [(z, zs ++ [e])]).
Proof.
  intros Hh Hc Hd Hl. pose proof (chain_bucket _ _ _ _ _ _ Hc) as [_ Hz].
  destruct (wr_entry_next h z _ _ zs _ e Hh Hz eq_refl Hl) as (b1 & -> & Hok1 & Hz1). cbn [mbind option_bind].
  destruct (wr_pb_spec _ _ _ _ (rgEntry z (Z.of_nat (length zs))) _ Hok1 Hz1) as (b & -> & Hok & Hz2).
  assert (E1 : upd (upd h z b1) z b = upd h z b) by (unfold upd; cbn; by rewrite insert_insert_eq).
  rewrite E1 in *. exists b. split_and!; [done..|]. eapply chain_add_bucket; [done..|left; by destruct zs|].
  destruct Hz2 as [rest Hz2]. exists rest. rewrite Hz2. do 3 f_equal. unfold end_pb. destruct (zs ++ [e]) eqn:Ez; [by destruct zs|].
  rewrite <- Ez, length_app. cbn. f_equal. lia.
Qed.

(** A chain from any of its buckets, and its last one. *)
Lemma chain_split_at (ss : segments E) q : q ∈ ss.*1 -> exists s1 es s2, ss = s1 ++ (q, es) :: s2.
Proof. intros ([q' es] & -> & (s1 & s2 & ->)%list_elem_of_split)%list_elem_of_fmap. by exists s1, es, s2. Qed.

Lemma chain_last (p : Z) (es : list E) ss : exists s0 z zs, (p, es) :: ss = s0 ++ [(z, zs)].
Proof. destruct (exists_last (l := (p, es) :: ss)) as (s0 & [z zs] & ->); [done|]. by exists s0, z, zs. Qed.

Lemma last_from (h : heap E) p es ss q s0 z zs : heap_ok h -> chain h None ((p, es) :: ss) -> NoDup (p :: ss.*1) ->
  q ∈ p :: ss.*1 -> (p, es) :: ss = s0 ++ [(z, zs)] -> last_bucket h q = Some z.
Proof.
  intros Hh Hc Hd Hq Hl. destruct (chain_split_at ((p, es) :: ss) q Hq) as (s1 & fs & s2 & Es). 
  assert (Hd' : NoDup ((p, es) :: ss).*1) by done. rewrite Es in Hc, Hd'. eapply last_bucket_chain; [done..|].
  rewrite Hl in Es. apply (f_equal list.last) in Es. rewrite last_snoc, last_app, last_cons in Es.
  rewrite last_cons, Es. by destruct (list.last s2).
Qed.

(** The end of a chain, seen from its first bucket. *)
Lemma chain_cons_inv (p : Z) (es : list E) ss s0 z zs : (p, es) :: ss = s0 ++ [(z, zs)] ->
  forall zs', exists es', s0 ++ [(z, zs')] = (p, es') :: tail (s0 ++ [(z, zs')]) /\ (tail (s0 ++ [(z, zs')])).*1 = ss.*1.
Proof.
  intros E1 zs'. destruct s0 as [|[p0 es0] s0]; cbn in *; simplify_eq.
  - by exists zs'.
  - exists es0. split; [done|]. by rewrite !fmap_app.
Qed.

Lemma overflow_snoc (s0 : segments E) z zs x : overflow ((s0 ++ [(z, zs)]) ++ [x]) = overflow (s0 ++ [(z, zs)]) ++ [x.1].
Proof. unfold overflow. rewrite !fmap_app. by destruct s0. Qed.

Lemma ErrBKTInsertEntry_ok (h : heap E) p es ss plock oe entry mem : heap_ok h -> chain h None ((p, es) :: ss) -> NoDup (p :: ss.*1) ->
  m_pBucketHead plock = p -> m_ls plock = lsWrite -> on_entry ((p, es) :: ss) plock oe ->
  (forall q, mem = Some q -> fresh h q 1) ->
  match oe with
  | Some _ => ErrBKTInsertEntry junk h plock entry mem = Some (errKeyDuplicate, h, plock)
  | None =>
      (mem = None /\ ErrBKTInsertEntry junk h plock entry mem = Some (errOutOfMemory, h, plock)) \/
      exists h' es' ss' q a,
        ErrBKTInsertEntry junk h plock entry mem =
          Some (errSuccess, h', set_currency q (m_pEntryPrev plock) a (m_pEntryNext plock) plock) /\ heap_ok h' /\
        chain h' None ((p, es') :: ss') /\ at_entry ((p, es') :: ss') q a entry /\
        flat ((p, es') :: ss') = flat ((p, es) :: ss) ++ [entry] /\
        (ss'.*1 = ss.*1 \/ exists r, mem = Some r /\ ss'.*1 = ss.*1 ++ [r]) /\
        touched h h' [p] (overflow ((p, es) :: ss)) (overflow ((p, es') :: ss'))
  end.
Proof.
  intros Hh Hc Hd Hp Hls Ho Hm. unfold ErrBKTInsertEntry. rewrite (positioned_ok _ _ _ _ _ _ Hh Hc Hp Ho), andb_true_r.
  unfold FBKTWrite. rewrite bool_decide_true by done. cbn [DHTAssert mbind option_bind].
  destruct oe as [e0|].
  { pose proof (at_entry_pos _ _ _ _ _ _ Hh Hc Ho) as [_ Ha]. by rewrite (proj2 (Z.eqb_neq _ _)) by lia. }
  pose proof (on_entry_bucket _ _ _ Ho) as Hq. destruct Ho as [-> _]. cbn [negb Z.eqb].
  destruct (chain_last p es ss) as (s0 & z & zs & El). rewrite (last_from _ _ _ _ _ _ _ _ Hh Hc Hd Hq El). cbn [mbind option_bind].
  assert (Hd' : NoDup (s0 ++ [(z, zs)]).*1) by (rewrite <- El; done).
  pose proof Hc as Hc0. rewrite El in Hc0. pose proof (chain_bucket _ _ _ _ _ _ Hc0) as [Hcz Hz].
  assert (Hdz : NoDup (z :: (@nil (Z * list E)).*1)) by (apply list.NoDup_singleton).
  rewrite (chain_NextMost _ _ _ _ _ Hh Hcz Hdz). cbn [mbind option_bind].
  pose proof (holds_len _ _ _ _ _ Hh Hz) as Hl.
  destruct (Nat.eq_dec (length zs) C) as [Hfull|Hroom].
  - rewrite Hfull, C_Z, Z.eqb_refl. cbn [negb]. destruct mem as [q|]; [|left; done]. right. cbn [PvMEMAlloc].
    specialize (Hm q eq_refl). pose proof (fresh_1 _ _ Hm) as (Hqb & Hqn & Hqa & Hqap).
    assert (H0q : 0 < q) by (unfold addr_ok in Hqa; pose proof cbBucket_pos; lia). rewrite (proj2 (Z.eqb_neq q 0)) by lia.
    assert (Hq' : q ∉ p :: ss.*1).
    { intros Hin. destruct (chain_dom _ _ _ q Hc Hin) as [b Hb]. congruence. }
    destruct (add_block_1_ok h q Hh Hm) as (Hok1 & prev & pb & Hq1). set (h1 := add_block junk h q 1) in *.
    assert (Hc1 : chain h1 None (s0 ++ [(z, zs)])).
    { eapply chain_frame; [| |exact Hc0]; unfold h1; rewrite add_block_1; cbn; intros r Hr;
        assert (q <> r) by (intros <-; rewrite <- El in Hr; done); [by rewrite lookup_insert_ne|].
      by rewrite lookup_insert_ne. }
    pose proof (chain_bucket _ _ _ _ _ _ Hc1) as [_ Hz1].
    assert (Hzq : z <> q). { intros ->. apply Hq'. change (q ∈ ((p, es) :: ss).*1). rewrite El, fmap_app. set_solver. }
    destruct (wr_pb_spec h1 z _ _ q zs Hok1 Hz1) as (b2 & -> & Hok2 & Hz2). cbn [mbind option_bind].
    destruct (wr_prev_spec (upd h1 z b2) q prev pb z [] Hok2) as (b3 & -> & Hok3 & Hq3); [by apply holds_upd_ne|].
    cbn [mbind option_bind]. set (h3 := upd (upd h1 z b2) q b3) in *.
    destruct (wr_entry_next h3 q _ _ [] 0 entry Hok3 Hq3 eq_refl C_pos) as (b4 & E4 & Hok4 & Hq4).
    change (Z.of_nat 0) with 0 in E4. rewrite E4. cbn [mbind option_bind].
    destruct (wr_pb_spec _ q _ _ (rgEntry q 0) _ Hok4 Hq4) as (b5 & -> & Hok5 & Hq5). cbn [mbind option_bind].
    assert (E5 : upd (upd h3 q b4) q b5 = upd (upd h1 z b2) q b5) by (unfold h3, upd; cbn; by rewrite !insert_insert_eq).
    rewrite E5 in *.
    destruct (chain_cons_inv _ _ _ _ _ _ El zs) as (es' & Ees & Etl).
    assert (Hcc : chain (upd (upd h1 z b2) q b5) None ((s0 ++ [(z, zs)]) ++ [(q, [entry])])).
    { apply chain_app; [done|]. cbn [hd_ptr]. split.
      - apply chain_app in Hc1 as [Hs1 Hc1]; [|done]. cbn [hd_ptr] in Hs1.
        rewrite fmap_app in Hd'. apply list.NoDup_app in Hd' as (_ & Hd1 & _). cbn in Hd1.
        eapply lseg_snoc; [| |done| |done].
        + apply lseg_upd; [|apply lseg_upd; [|done]].
          * intros Hin. apply Hq'. change (q ∈ ((p, es) :: ss).*1). rewrite El, fmap_app. set_solver.
          * intros Hin. destruct (Hd1 z Hin). left.
        + by apply holds_upd_ne.
        + destruct Hc1 as (_ & _ & [Hn|[_ Hn]] & _); [by left|by right].
      - rewrite back_snoc. cbn [chain link_pb]. split_and!; [|done| |done].
        + unfold end_pb. cbn. exact Hq5.
        + right. split; [done|]. unfold h1. rewrite add_block_1. cbn. by rewrite lookup_insert_eq. }
    assert (Eall : (s0 ++ [(z, zs)]) ++ [(q, [entry])] = (p, es') :: (tail (s0 ++ [(z, zs)]) ++ [(q, [entry])]))
      by (rewrite Ees at 1; done).
    rewrite Eall in Hcc.
    eexists _, es', (tail (s0 ++ [(z, zs)]) ++ [(q, [entry])]), q, (rgEntry q 0). split; [done|].
    refine (conj Hok5 (conj Hcc (conj _ (conj _ (conj _ _))))).
    + exists [entry], 0%nat. split; [set_solver|done].
    + rewrite <- Eall, flat_app, <- El. done.
    + right. exists q. split; [done|]. by rewrite fmap_app, Etl.
    + rewrite <- Eall, overflow_snoc, <- El. cbn [fst].
      assert (Hzin : z ∈ p :: ss.*1) by (change (z ∈ ((p, es) :: ss).*1); rewrite El, fmap_app; set_solver).
      apply (touched_trans _ h1 _ _ _ (overflow ((p, es) :: ss) ++ [q])); [set_solver|set_solver| |].
      { apply add_block_1_touched. unfold overflow. cbn. set_solver. }
      apply (touched_trans _ (upd h1 z b2) _ _ _ (overflow ((p, es) :: ss) ++ [q])); [set_solver|set_solver| |];
        apply touched_upd; unfold overflow; cbn; set_solver.
  - destruct (Z.eqb_spec (rgEntry z (Z.of_nat (length zs))) (rgEntry z m_centryBucket)) as [Heq|Hne].
    { apply (proj1 (rgEntry_eq _ _ _)) in Heq. rewrite <- C_Z in Heq. lia. }
    cbn [negb]. right. destruct (append_entry h s0 z zs entry Hh Hc0 Hd' ltac:(lia)) as (b & Eb & Hok & Hc').
    destruct (wr_entry h z _ entry) as [h1|]; [|done]. cbn [mbind option_bind] in Eb |- *. rewrite Eb. cbn [mbind option_bind].
    destruct (chain_cons_inv _ _ _ _ _ _ El (zs ++ [entry])) as (es' & Ees & Etl). rewrite Ees in Hc'.
    eexists _, es', (tail (s0 ++ [(z, zs ++ [entry])])), z, (rgEntry z (Z.of_nat (length zs))). split; [done|].
    refine (conj Hok (conj Hc' (conj _ (conj _ (conj _ _))))).
    + rewrite <- Ees. exists (zs ++ [entry]), (length zs). split; [set_solver|]. split; [|done].
      by rewrite lookup_app_r, Nat.sub_diag by lia.
    + rewrite <- Ees, El, !flat_app. unfold flat. cbn. by rewrite !app_nil_r, app_assoc.
    + by left.
    + unfold overflow. cbn. rewrite Etl. apply touched_upd.
      assert (Hzin : z ∈ p :: ss.*1) by (change (z ∈ ((p, es) :: ss).*1); rewrite El, fmap_app; set_solver). set_solver.
Qed.

(** ** Deletion *)

Lemma touched_free (h : heap E) heads l p : p ∉ heads ++ l ->
  touched h (Heap (delete p (blocks h)) (delete p (buckets h))) heads (l ++ [p]) l.
Proof.
  intros Hp. split; cbn.
  - intros q Hq. rewrite lookup_delete_ne; [done|]. set_solver.
  - intros q Hq. rewrite lookup_delete_ne; [done|]. set_solver.
  - intros q Hq Hq'. assert (q = p) as -> by set_solver. by rewrite !lookup_delete_eq.
Qed.

(** The segments without their last entry. *)
Definition popped (s0 : segments E) (z : Z) (zs : list E) : segments E :=
  match zs, s0 with [], _ :: _ => s0 | _, _ => s0 ++ [(z, zs)] end.

Lemma popped_flat s0 z zs : flat (popped s0 z zs) = flat s0 ++ zs.
Proof.
  unfold popped. assert (E1 : flat (s0 ++ [(z, zs)]) = flat s0 ++ zs) by (rewrite flat_app; unfold flat; cbn; by rewrite app_nil_r).
  destruct zs; [|done]. destruct s0; [done|]. by rewrite app_nil_r.
Qed.

(** The buckets of the chain afterwards. *)
Lemma popped_ptrs s0 z zs : NoDup (s0 ++ [(z, zs)]).*1 ->
  (popped s0 z zs).*1 = (s0 ++ [(z, zs)]).*1 \/ (s0 <> [] /\ (popped s0 z zs).*1 = s0.*1).
Proof. unfold popped. intros _. destruct zs; [|by left]. destruct s0; [by left|]. by right. Qed.

Lemma delete_last_ok (h : heap E) p plock s0 z zs x : heap_ok h -> chain h None (s0 ++ [(z, zs ++ [x])]) ->
  NoDup (s0 ++ [(z, zs ++ [x])]).*1 -> hd_ptr (s0 ++ [(z, zs ++ [x])]) = p -> m_pBucketHead plock = p ->
  m_pBucket plock ∈ (s0 ++ [(z, zs ++ [x])]).*1 ->
  exists h' q, delete_last h plock z (rgEntry z (Z.of_nat (length zs))) =
      Some (errSuccess, h', set_currency q (m_pEntryPrev plock) 0 (m_pEntryNext plock) plock) /\ heap_ok h' /\
    chain h' None (popped s0 z zs) /\ q ∈ (popped s0 z zs).*1 /\
    (m_pBucket plock ∈ (popped s0 z zs).*1 -> q = m_pBucket plock) /\
    touched h h' [p] (overflow (s0 ++ [(z, zs ++ [x])])) (overflow (popped s0 z zs)).
Proof.
  intros Hh Hc Hd Hp Hpl Hq. pose proof (chain_bucket _ _ _ _ _ _ Hc) as [_ Hz].
  assert (Hend : end_pb z (zs ++ [x]) = rgEntry z (Z.of_nat (length zs))).
  { unfold end_pb. destruct (zs ++ [x]) eqn:Ez; [by destruct zs|]. rewrite <- Ez, length_app. cbn. f_equal. lia. }
  cbn [link_pb] in Hz. rewrite Hend in Hz.
  assert (Hz' : holds h z (back None s0) (rgEntry z (Z.of_nat (length zs))) zs).
  { destruct Hz as [rest Hz]. exists ([x] ++ rest). by rewrite app_assoc. }
  unfold delete_last. cbn [set_currency m_pBucketHead m_pBucket m_pEntryPrev m_pEntryNext m_pEntry m_ls m_fInsertOrDelete m_phs m_iBucket].
  assert (Hov : forall zs', overflow (s0 ++ [(z, zs')]) = overflow (s0 ++ [(z, zs ++ [x])])).
  { intros zs'. unfold overflow. by rewrite !fmap_app. }
  assert (Hzin : z ∈ [p] ++ overflow (s0 ++ [(z, zs ++ [x])])).
  { assert (Hin : z ∈ (s0 ++ [(z, zs ++ [x])]).*1) by (rewrite fmap_app; set_solver).
    destruct (s0 ++ [(z, zs ++ [x])]) as [|[p' fs] ss]; [set_solver|]. cbn in Hin, Hp |- *. subst p'. set_solver. }
  destruct zs as [|y zs].
  - change (Z.of_nat (length [])) with 0. rewrite Z.eqb_refl. cbn [negb]. destruct s0 as [|[p0 es0] s0].
    + cbn in Hp. subst z. rewrite Hpl, Z.eqb_refl. cbn [popped app].
      destruct (wr_pb_spec h p _ _ 0 [] Hh Hz') as (b & -> & Hok & Hb). cbn [mbind option_bind].
      exists (upd h p b), (m_pBucket plock). split; [done|]. refine (conj Hok (conj _ (conj _ (conj _ _)))).
      * eapply (chain_add_bucket h None [] p [x]); [done..|by right|done].
      * done.
      * done.
      * by apply touched_upd.
    + cbn in Hp. subst p0. rewrite Hpl.
      assert (Hzp : z <> p). { intros ->. cbn in Hd. apply list.NoDup_cons in Hd as [Hd _]. apply Hd. rewrite fmap_app. set_solver. }
      rewrite (proj2 (Z.eqb_neq _ _)) by done. destruct (chain_last p es0 s0) as (s1 & y & ys & El).
      cbn [popped]. rewrite El in *. rewrite back_snoc in Hz. rewrite (rd_prev_holds _ _ _ _ _ Hz). cbn [mbind option_bind].
      rewrite <- app_assoc in Hc. cbn [app] in Hc. pose proof (chain_bucket _ _ _ _ _ _ Hc) as [Hcy Hy]. cbn [link_pb hd_ptr] in Hy.
      rewrite (rd_pb_holds _ _ _ _ _ Hy). cbn [mbind option_bind]. rewrite Z.eqb_refl. cbn [DHTAssert mbind option_bind].
      destruct (wr_pb_spec h y _ _ (rgEntry y (m_centryBucket - 1)) ys Hh Hy) as (b & -> & Hok & Hb). cbn [mbind option_bind].
      destruct Hcy as (_ & Hfull & Hny & Hcz). specialize (Hfull ltac:(done)).
      destruct Hcz as (_ & _ & [?|[_ Hbz]] & _); [done|].
      assert (Hyz : y <> z).
      { intros ->. rewrite !fmap_app in Hd. apply list.NoDup_app in Hd as (_ & Hd & _). apply (Hd z); set_solver. }
      rewrite free_1; [|done|eapply holds_pos; [exact Hh|exact Hz]]. cbn [mbind option_bind].
      set (h' := Heap (delete z (blocks (upd h y b))) (delete z (buckets (upd h y b)))).
      assert (Hc' : chain h' None (s1 ++ [(y, ys)])).
      { assert (Hzn : z ∉ (s1 ++ [(y, ys)]).*1).
        { rewrite !fmap_app in *. apply list.NoDup_app in Hd as (_ & Hd & _). intros Hin. apply (Hd z Hin). set_solver. }
        apply (chain_frame (upd h y b)); [intros q0 Hq0; cbn; rewrite lookup_delete_ne by (intros ->; done); done| |].
        { intros q0 Hq0. cbn. rewrite lookup_delete_ne by (intros ->; done). done. }
        apply chain_app; [done|]. cbn [hd_ptr]. apply chain_app in Hc as [Hs _]; [|done]. cbn [hd_ptr] in Hs.
        split.
        - apply lseg_upd; [|done]. rewrite !fmap_app in Hd. apply list.NoDup_app in Hd as (Hd & _ & _).
          apply list.NoDup_app in Hd as (_ & Hd & _). intros Hin. apply (Hd y Hin). set_solver.
        - cbn [chain link_pb]. split_and!; [|done| |done].
          + destruct Hb as [rest Hb]. exists rest. rewrite Hb. do 3 f_equal. unfold end_pb. destruct ys; [|by rewrite Hfull, C_Z].
            pose proof C_pos. cbn in Hfull. lia.
          + exact Hny. }
      exists h', (if m_pBucket plock =? z then y else m_pBucket plock). split; [by destruct (m_pBucket plock =? z)|].
      refine (conj _ (conj Hc' (conj _ (conj _ _)))).
      * by apply free_ok.
      * destruct (Z.eqb_spec (m_pBucket plock) z) as [Heq|Hne]; [rewrite fmap_app; set_solver|].
        rewrite (fmap_app fst (s1 ++ _)) in Hq. set_solver.
      * intros Hin. destruct (Z.eqb_spec (m_pBucket plock) z) as [Heq|Hne]; [|done].
        rewrite (fmap_app fst (s1 ++ _)) in Hd. apply list.NoDup_app in Hd as (_ & Hd & _). rewrite Heq in Hin. destruct (Hd z Hin). set_solver.
      * rewrite overflow_snoc. cbn [fst].
        assert (Hyin : y ∈ p :: overflow (s1 ++ [(y, ys)])).
        { assert (Hin : y ∈ (s1 ++ [(y, ys)]).*1) by (rewrite fmap_app; set_solver). rewrite <- El in Hin |- *. exact Hin. }
        assert (Hzn : z ∉ p :: overflow (s1 ++ [(y, ys)])).
        { rewrite <- El. change (z ∉ ((p, es0) :: s0).*1). rewrite El. rewrite (fmap_app fst (s1 ++ _)) in Hd.
          apply list.NoDup_app in Hd as (_ & Hd & _). intros Hin. apply (Hd z Hin). set_solver. }
        apply (touched_trans _ (upd h y b) _ _ _ (overflow (s1 ++ [(y, ys)]) ++ [z])); [set_solver|set_solver| |].
        { apply touched_upd. set_solver. }
        apply (touched_free (upd h y b)). set_solver.
  - rewrite (rd_pb_holds _ _ _ _ _ Hz). destruct (Z.eqb_spec (rgEntry z (Z.of_nat (length (y :: zs)))) (rgEntry z 0)) as [Heq|_].
    { apply (proj1 (rgEntry_eq _ _ _)) in Heq. cbn in Heq. lia. }
    cbn [negb mbind option_bind]. rewrite Z.eqb_refl. cbn [DHTAssert mbind option_bind].
    destruct (wr_pb_spec h z _ _ (rgEntry z (Z.of_nat (length (y :: zs))) - cbEntry) _ Hh Hz') as (b & -> & Hok & Hb).
    cbn [mbind option_bind]. exists (upd h z b), (m_pBucket plock). split; [done|]. cbn [popped].
    refine (conj Hok (conj _ (conj _ (conj _ _)))).
    + eapply (chain_add_bucket h None s0 z _ (y :: zs)); [done..|by left|]. rewrite rgEntry_pred in Hb. exact Hb.
    + rewrite fmap_app in *. done.
    + done.
    + rewrite (Hov (y :: zs)). by apply touched_upd.
Qed.

(** The last entry of a chain with an entry. *)
Lemma chain_last_entry (h : heap E) prev s1 q es s2 (i : nat) e : chain h prev (s1 ++ (q, es) :: s2) -> es !! i = Some e ->
  (s2 = [] /\ exists zs x, es = zs ++ [x]) \/
  exists s3 z zs x, s2 = s3 ++ [(z, zs ++ [x])].
Proof.
  intros Hc Hi. destruct s2 as [|[r rs] s2].
  - left. split; [done|]. destruct (exists_last (l := es)) as (zs & x & ->); [by intros ->|]. by exists zs, x.
  - right. destruct (chain_last r rs s2) as (s3 & z & zs & El). rewrite El in Hc |- *. exists s3, z.
    rewrite app_comm_cons, app_assoc in Hc. apply chain_app in Hc as [_ (_ & _ & Hn & _)]; [|done].
    assert (Hb : exists t, back prev (s1 ++ (q, es) :: s3) = Some t).
    { unfold back. rewrite last_app, last_cons. destruct (list.last s3) as [[t ts]|]; by eexists. }
    destruct Hb as [t Hb]. rewrite Hb in Hn. destruct Hn as [?|[Hne _]]; [done|].
    destruct (exists_last Hne) as (zs' & x & ->). by exists zs', x.
Qed.

(** The word of the bucket is the address of the entry only for the last entry. *)
Lemma pb_last (h : heap E) prev s1 q es s2 (i : nat) e : heap_ok h -> chain h prev (s1 ++ (q, es) :: s2) ->
  NoDup (s1 ++ (q, es) :: s2).*1 -> es !! i = Some e ->
  link_pb q es s2 = rgEntry q (Z.of_nat i) <-> s2 = [] /\ S i = length es.
Proof.
  intros Hh Hc Hd Hi. pose proof (lookup_lt_Some _ _ _ Hi) as Hlt. destruct s2 as [|[r rs] s2]; cbn [link_pb].
  - unfold end_pb. destruct es as [|x es]; [done|]. rewrite rgEntry_eq. cbn [length] in *. split; [|]; intros; split_and?; lia || done.
  - split; [|by intros []]. cbn [hd_ptr]. intros Heq. exfalso. apply chain_bucket in Hc as [(Hq & _ & _ & Hc) _].
    pose proof (holds_len _ _ _ _ _ Hh Hq) as Hl. pose proof (chain_holds _ _ _ _ _ Hc) as Hr.
    assert (Hne : q <> r). { rewrite fmap_app in Hd. apply list.NoDup_app in Hd as (_ & _ & Hd). cbn in Hd.
      apply list.NoDup_cons in Hd as [Hd _]. set_solver. }
    pose proof (holds_apart _ _ _ _ _ _ _ _ _ Hh Hq Hr Hne) as Hap. pose proof C_Z.
    assert (Hin : 0 <= Z.of_nat i < m_centryBucket) by lia. apply (rgEntry_inside q) in Hin. unfold apart in Hap. pose proof cbBucket_pos. lia.
Qed.

(** The entry [e] is overwritten with the last entry [x] of the chain, which is then
    dropped. *)
Lemma hole_perm (l1 l2 F : list E) e x : l1 ++ x :: l2 = F ++ [x] -> l1 ++ e :: l2 ≡ₚ e :: F.
Proof.
  intros H. rewrite <- Permutation_middle. apply Permutation_cons; [done|]. apply (Permutation_cons_inv (a := x)).
  by rewrite Permutation_middle, H, Permutation_app_comm.
Qed.

Lemma ErrBKTDeleteEntry_ok (h : heap E) ss0 p plock oe : heap_ok h -> chain h None ss0 -> NoDup ss0.*1 -> ss0 <> [] ->
  hd_ptr ss0 = p -> m_pBucketHead plock = p -> m_ls plock = lsWrite \/ m_ls plock = lsScan -> on_entry ss0 plock oe ->
  match oe with
  | None => ErrBKTDeleteEntry h plock = Some (errNoCurrentEntry, h, plock)
  | Some e => exists h' ss' q,
      ErrBKTDeleteEntry h plock = Some (errSuccess, h', set_currency q (m_pEntryPrev plock) 0 (m_pEntryNext plock) plock) /\
      heap_ok h' /\ chain h' None ss' /\ q ∈ ss'.*1 /\ hd_ptr ss' = p /\ flat ss0 ≡ₚ e :: flat ss' /\
      (ss'.*1 = ss0.*1 \/ exists z, ss0.*1 = ss'.*1 ++ [z]) /\
      (rd_pb h (m_pBucket plock) <> Some (m_pEntry plock) ->
         q = m_pBucket plock /\ exists e', at_entry ss' (m_pBucket plock) (m_pEntry plock) e') /\
      touched h h' [p] (overflow ss0) (overflow ss')
  end.
Proof.
  intros Hh Hc Hd Hne Hp Hpl Hls Ho. destruct ss0 as [|[p0 es0] ss0]; [done|]. cbn in Hp. subst p0.
  unfold ErrBKTDeleteEntry. rewrite (positioned_ok _ _ _ _ _ _ Hh Hc Hpl Ho), andb_true_r.
  assert (E1 : FBKTWrite plock || FBKTScan plock = true) by (unfold FBKTWrite, FBKTScan; by destruct Hls as [-> | ->]).
  rewrite E1. cbn [DHTAssert mbind option_bind]. destruct oe as [e|]; [|by destruct Ho as [-> _]].
  pose proof (at_entry_pos _ _ _ _ _ _ Hh Hc Ho) as [_ Ha]. rewrite (proj2 (Z.eqb_neq _ _)) by lia.
  pose proof (on_entry_bucket _ _ _ Ho) as Hqin.
  destruct (at_entry_split _ _ _ _ Ho) as (s1 & es & s2 & i & Ess & Hi & Ea). clear Ho.
  assert (Hhd : hd_ptr (s1 ++ (m_pBucket plock, es) :: s2) = p) by (rewrite <- Ess; done). rewrite Ess in *. clear Ess es0 ss0.
  pose proof (lookup_lt_Some _ _ _ Hi) as Hlt.
  pose proof (chain_bucket _ _ _ _ _ _ Hc) as [_ Hq]. rewrite (rd_pb_holds _ _ _ _ _ Hq). cbn [mbind option_bind].
  pose proof (pb_last _ _ _ _ _ _ _ _ Hh Hc Hd Hi) as Hpb. rewrite <- Ea in Hpb.
  destruct (Z.eqb_spec (m_pEntry plock) (link_pb (m_pBucket plock) es s2)) as [Heq|Hneq]; cbn [negb mbind option_bind].
  - symmetry in Heq. apply Hpb in Heq as [-> Hlen].
    destruct (exists_last (l := es)) as (zs & x & ->); [by intros ->|]. rewrite length_app in Hlen. cbn in Hlen.
    assert (i = length zs) as -> by lia. rewrite lookup_app_r, Nat.sub_diag in Hi by lia. cbn in Hi. simplify_eq.
    destruct (delete_last_ok h _ plock s1 _ zs e Hh Hc Hd Hhd eq_refl Hqin) as (h' & q & Er & Hok & Hc' & Hq' & Hqe & Ht).
    rewrite <- Ea in Er. exists h', (popped s1 (m_pBucket plock) zs), q. refine (conj Er (conj Hok (conj Hc' (conj Hq' (conj _ (conj _ (conj _ (conj _ Ht)))))))).
    + unfold popped. destruct zs; [|by destruct s1]. destruct s1 as [|[? ?] ?]; done.
    + rewrite popped_flat, flat_app. unfold flat at 2. cbn. rewrite app_nil_r, app_assoc. apply Permutation_sym, Permutation_cons_append.
    + destruct (popped_ptrs s1 (m_pBucket plock) zs) as [E2|[_ E2]]; rewrite fmap_app in *; [done| |]; [left|right]; [done|].
      rewrite E2. by eexists.
    + intros Hx. destruct Hx. f_equal. apply Hpb. split; [done|]. rewrite length_app. cbn. lia.
  - assert (Hnl : ~ (s2 = [] /\ S i = length es)) by (intros H; apply Hneq; symmetry; by apply Hpb).
    assert (Hkey : exists s0 z zs x s0' zs', s1 ++ (m_pBucket plock, es) :: s2 = s0 ++ [(z, zs ++ [x])] /\
      s1 ++ (m_pBucket plock, <[i := x]> es) :: s2 = s0' ++ [(z, zs' ++ [x])] /\
      length zs' = length zs /\ (exists es' s2', popped s0' z zs' = s1 ++ (m_pBucket plock, es') :: s2' /\ (i < length es')%nat)).
    { destruct (chain_last_entry _ _ _ _ _ _ _ _ Hc Hi) as [(-> & zs & x & ->)|(s3 & z & zs & x & ->)].
      - rewrite length_app in *. cbn in Hlt, Hnl. assert (i < length zs)%nat by (destruct (Nat.eq_dec (S i) (length zs + 1)%nat); [tauto|lia]).
        exists s1, (m_pBucket plock), zs, x, s1, (<[i := x]> zs). split_and!; [done|by rewrite insert_app_l|by rewrite length_insert|].
        exists (<[i := x]> zs), []. rewrite length_insert. split; [|done]. unfold popped. destruct zs; [cbn in H; lia|]. by destruct i.
      - exists (s1 ++ (m_pBucket plock, es) :: s3), z, zs, x, (s1 ++ (m_pBucket plock, <[i := x]> es) :: s3), zs.
        rewrite <- !app_assoc. refine (conj eq_refl (conj eq_refl (conj eq_refl _))). exists (<[i := x]> es), (if decide (zs = []) then s3 else s3 ++ [(z, zs)]).
        rewrite length_insert. split; [|done]. unfold popped. destruct zs; [|cbn; by rewrite <- app_assoc].
        cbn. by destruct s1. }
    destruct Hkey as (s0 & z & zs & x & s0' & zs' & Es & Es' & Hlen & es' & s2' & Epop & Hi').
    assert (Hlast : last_bucket h (m_pBucket plock) = Some z).
    { eapply last_bucket_chain; [done..|]. apply (f_equal list.last) in Es. rewrite last_snoc, last_app, last_cons in Es.
      rewrite last_cons. destruct (list.last s2) as [y|]; cbn in Es |- *; simplify_eq; reflexivity || (rewrite Es; done). }
    rewrite Hlast. cbn [mbind option_bind]. pose proof Hc as Hcz. rewrite Es in Hcz. apply chain_bucket in Hcz as [_ Hz].
    cbn [link_pb] in Hz.
    assert (Hend : end_pb z (zs ++ [x]) = rgEntry z (Z.of_nat (length zs))).
    { unfold end_pb. destruct (zs ++ [x]) eqn:Ez; [by destruct zs|]. rewrite <- Ez, length_app. cbn. f_equal. lia. }
    rewrite Hend in Hz. rewrite (rd_pb_holds _ _ _ _ _ Hz). cbn [mbind option_bind].
    rewrite (rd_entry_holds _ _ _ _ _ (length zs) x Hz) by (by rewrite lookup_app_r, Nat.sub_diag by lia). cbn [mbind option_bind].
    destruct (chain_write_entry h None s1 _ es s2 i x Hh Hc Hd Hlt) as (b & Ew & Hok & Hc1). rewrite <- Ea in Ew. rewrite Ew. cbn [mbind option_bind].
    assert (Hptr : (s1 ++ (m_pBucket plock, <[i:=x]> es) :: s2).*1 = (s1 ++ (m_pBucket plock, es) :: s2).*1) by (by rewrite !fmap_app).
    assert (Hhd' : hd_ptr (s1 ++ (m_pBucket plock, <[i:=x]> es) :: s2) = p) by (rewrite <- Hhd; by destruct s1).
    rewrite Es' in Hc1, Hptr, Hhd'. rewrite <- Hptr in Hd, Hqin.
    destruct (delete_last_ok _ p plock s0' z zs' x Hok Hc1 Hd Hhd' Hpl Hqin) as (h' & q & Er & Hok' & Hc' & Hq' & Hqe & Ht).
    rewrite Hlen in Er. exists h', (popped s0' z zs'), q.
    refine (conj Er (conj Hok' (conj Hc' (conj Hq' (conj _ (conj _ (conj _ (conj _ _)))))))).
    + rewrite Epop. rewrite <- Hhd. by destruct s1.
    + rewrite flat_app, flat_cons. rewrite <- (take_drop_middle _ _ _ Hi) at 1. rewrite <- !app_assoc. cbn [app].
      rewrite (app_assoc (flat s1)). apply (hole_perm _ _ _ _ x). rewrite popped_flat.
      transitivity (flat (s1 ++ (m_pBucket plock, <[i:=x]> es) :: s2)).
      * rewrite flat_app, flat_cons, insert_take_drop by done. by rewrite <- !app_assoc.
      * rewrite Es', flat_app. unfold flat at 2. cbn. by rewrite app_nil_r, app_assoc.
    + rewrite <- Hptr. destruct (popped_ptrs s0' z zs') as [E2|[_ E2]]; rewrite fmap_app in *; [done| |]; [left|right]; [done|].
      rewrite E2. by eexists.
    + intros _. split.
      * apply Hqe. rewrite Epop, fmap_app. set_solver.
      * rewrite Epop. destruct (lookup_lt_is_Some_2 es' i Hi') as [e' He']. exists e', es', i. split; [set_solver|done].
    + apply (touched_trans _ (upd h (m_pBucket plock) b) _ _ _ (overflow (s1 ++ (m_pBucket plock, es) :: s2))); [done|by left| |].
      * apply touched_upd. rewrite Hptr in Hqin. destruct (s1 ++ (m_pBucket plock, es) :: s2) as [|[? ?] ?]; [done|].
        cbn in Hhd, Hqin |- *. subst. set_solver.
      * unfold overflow in *. rewrite <- Hptr. exact Ht.
Qed.

End Ops.
