(* ===== verification/HashSplit.v ===== *)
(** * HashSplit: splitting a bucket

    [BKTIDoSplit] reads the source chain once, compacts the entries that stay into
    the buckets of that chain and appends the others to the destination, for which
    it uses the buckets that become free.  The invariant of its loop describes both
    chains as they are written, the rest of the source, and the free buckets; it
    gives that one reserved bucket is enough. *)

From stdpp Require Import gmap.
From S2P Require Import Prelude HashBucket HashBucketProofs HashBucketOps.

(** The reservation of a bucket is used at most once. *)
Definition used (f : bool) : nat := if f then 1 else 0.

(** ** Buckets of different roles are different *)

Lemma nodup_mid {X} (l1 l2 l : list X) x : NoDup l -> l = l1 ++ x :: l2 -> x ∉ l1 /\ x ∉ l2 /\ NoDup l2.
Proof.
  intros Hd ->. apply list.NoDup_app in Hd as (_ & H1 & [H2 H3]%list.NoDup_cons). split_and!; [|done|done].
  intros Hx. destruct (H1 x Hx). left.
Qed.

Ltac in_list := repeat first [rewrite elem_of_app | rewrite elem_of_cons]; tauto.

(** [roles l1]: what [H] says of the element after the prefix [l1]. *)
Ltac roles l1 :=
  let H := fresh in intros H; eapply (nodup_mid l1) in H as (? & ? & ?); [|cbn; rewrite <- ?app_assoc; cbn; rewrite <- ?app_assoc; cbn; reflexivity];
  rewrite ?not_elem_of_app, ?not_elem_of_cons, ?not_elem_of_app, ?not_elem_of_cons, ?not_elem_of_app, ?not_elem_of_cons in *; 
  repeat match goal with H : NoDup (_ ++ _) |- _ => apply list.NoDup_app in H as (? & _ & ?) end; tauto.

Lemma roles_this0 (k : list Z) a bs u m c av rs : NoDup (k ++ a :: bs ++ u ++ m ++ c :: av ++ rs) ->
  a ∉ k /\ a ∉ bs /\ a ∉ u /\ a ∉ m /\ a <> c /\ a ∉ av /\ a ∉ rs.
Proof. roles k. Qed.

Lemma roles_this1 (k : list Z) a bs u m c av rs : NoDup (k ++ a :: bs ++ u ++ m ++ c :: av ++ rs) ->
  c ∉ k /\ c <> a /\ c ∉ bs /\ c ∉ u /\ c ∉ m /\ c ∉ av /\ c ∉ rs.
Proof. roles (k ++ a :: bs ++ u ++ m). Qed.

Lemma roles_src (k : list Z) a x u m c av rs : NoDup (k ++ a :: [x] ++ u ++ m ++ c :: av ++ rs) ->
  x ∉ k /\ x <> a /\ x ∉ u /\ x ∉ m /\ x <> c /\ x ∉ av /\ x ∉ rs.
Proof. roles (k ++ [a]). Qed.

Lemma roles_unread (k : list Z) a bs x u m c av rs : NoDup (k ++ a :: bs ++ (x :: u) ++ m ++ c :: av ++ rs) ->
  x ∉ k /\ x <> a /\ x ∉ bs /\ x ∉ u /\ x ∉ m /\ x <> c /\ x ∉ av /\ x ∉ rs /\ NoDup u.
Proof. roles (k ++ a :: bs). Qed.

Lemma roles_avail (k : list Z) a bs u m c x av rs : NoDup (k ++ a :: bs ++ u ++ m ++ c :: (x :: av) ++ rs) ->
  x ∉ k /\ x <> a /\ x ∉ bs /\ x ∉ u /\ x ∉ m /\ x <> c /\ x ∉ av /\ x ∉ rs.
Proof. roles (k ++ a :: bs ++ u ++ m ++ [c]). Qed.

Lemma roles_pool (k : list Z) a bs u m c av x rs : NoDup (k ++ a :: bs ++ u ++ m ++ c :: av ++ x :: rs) ->
  x ∉ k /\ x <> a /\ x ∉ bs /\ x ∉ u /\ x ∉ m /\ x <> c /\ x ∉ av /\ x ∉ rs.
Proof. roles (k ++ a :: bs ++ u ++ m ++ c :: av). Qed.

Section Split.
Context {K E : Type} `{KE : CKeyEntry K E} `{L : BucketLayout} `{LO : !LayoutOk}.

(** ** Lists of free buckets *)

Fixpoint free_list (h : heap E) (p : Z) (rs : list Z) : Prop :=
  match rs with
  | [] => p = 0
  | q :: rs => p = q /\ exists prev pb, holds h q (Some prev) pb [] /\ blocks h !! q = Some 1%nat /\ free_list h pb rs
  end.

Lemma free_list_frame (h h' : heap E) p rs : (forall q, q ∈ rs -> buckets h' !! q = buckets h !! q) ->
  (forall q, q ∈ rs -> blocks h' !! q = blocks h !! q) -> free_list h p rs -> free_list h' p rs.
Proof.
  revert p. induction rs as [|q rs IH]; intros p Hb Hk; cbn [free_list]; [done|].
  intros (-> & prev & pb & [rest Hq] & Hbl & Hr). split; [done|]. exists prev, pb. split_and!.
  - exists rest. rewrite Hb by left. done.
  - rewrite Hk by left. done.
  - apply IH; [intros; apply Hb; by right|intros; apply Hk; by right|done].
Qed.

Lemma free_list_upd (h : heap E) p rs x b : x ∉ rs -> free_list h p rs -> free_list (upd h x b) p rs.
Proof. intros Hx. apply free_list_frame; [|done]. intros q Hq. cbn. rewrite lookup_insert_ne; [done|]. by intros ->. Qed.

Lemma holds_prefix (h : heap E) p prev pb es es' : holds h p prev pb (es ++ es') -> holds h p prev pb es.
Proof. intros [rest Hp]. exists (es' ++ rest). by rewrite app_assoc. Qed.

Lemma end_pb_snoc p (es : list E) e : end_pb p (es ++ [e]) = rgEntry p (Z.of_nat (length es)).
Proof. unfold end_pb. destruct (es ++ [e]) eqn:Ez; [by destruct es|]. rewrite <- Ez, length_app. cbn. f_equal. lia. Qed.

Lemma end_pb_length p (es es' : list E) : length es = length es' -> end_pb p es = end_pb p es'.
Proof. intros Hl. unfold end_pb. destruct es, es'; try done. by rewrite Hl. Qed.

Lemma link_pb_length p (es es' : list E) ss : length es = length es' -> link_pb p es ss = link_pb p es' ss.
Proof. intros Hl. destruct ss; [|done]. by apply end_pb_length. Qed.

(** ** The invariant of the loop

    [Kept] and [L0]: the buckets that stay, written so far, and the contents of the
    current one; [Moved] and [L1]: the same for those that move; [pre] and [R]: the
    entries of the current source bucket, read and not yet read; [B]: the current
    source bucket is not the one that is written; [U]: the rest of the source; [A]
    and [rs]: the buckets that became free and those in reserve; [done]: the entries
    read. *)
Context (stay : E -> bool) (h0 : heap E) (F : list Z) (HF : NoDup F) (all : list E) (headSrc headDst : Z).

(** The first bucket of the chain that ends in [t]. *)
Definition first_ptr (ss : segments E) (t : Z) : Z := match ss with [] => t | (q, _) :: _ => q end.

Lemma first_snoc ss t (l : list E) t' : first_ptr (ss ++ [(t, l)]) t' = first_ptr ss t.
Proof. by destruct ss as [|[? ?] ?]. Qed.

Record split_inv (h : heap E) (src this0 this1 avail reserve : Z) (fHeap : bool)
    (Kept : segments E) (L0 pre R : list E) (B : bool) (U Moved : segments E) (L1 : list E) (A rs : list Z) (read : list E) : Prop := {
  inv_heap : heap_ok h;
  inv_kept : lseg h None Kept this0;
  inv_src : holds h src (if B then Some this0 else back None Kept) (link_pb src (pre ++ R) U) (pre ++ R);
  inv_this0 : if B then holds h this0 (back None Kept) src L0 /\ blocks h !! src = Some 1%nat
              else this0 = src /\ L0 `prefix_of` pre;
  inv_len0 : (length L0 <= C)%nat;
  inv_unread : chain h (Some src) U;
  inv_full : U <> [] -> length (pre ++ R) = C;
  inv_moved : lseg h None Moved this1;
  inv_this1 : exists pb, holds h this1 (back None Moved) pb L1;
  inv_blocks0 : back None Kept = None \/ blocks h !! this0 = Some 1%nat;
  inv_blocks1 : back None Moved = None \/ blocks h !! this1 = Some 1%nat;
  inv_avail : free_list h avail A;
  inv_pool : free_list h reserve rs;
  inv_reserved : fHeap = false -> rs <> [];
  inv_ptrs : Kept.*1 ++ this0 :: (if B then [src] else []) ++ U.*1 ++ Moved.*1 ++ this1 :: A ++ rs ≡ₚ F;
  inv_count : (C * (used B + length A) + length pre = length L0 + length L1 + C * used fHeap)%nat;
  inv_stayed : flat Kept ++ L0 = filter (fun e => stay e = true) read;
  inv_left : flat Moved ++ L1 = filter (fun e => stay e = false) read;
  inv_all : read ++ R ++ flat U = all;
  inv_head0 : first_ptr Kept this0 = headSrc;
  inv_head1 : first_ptr Moved this1 = headDst;
  inv_frame : blocks h = blocks h0 /\ forall p, p ∉ F -> buckets h !! p = buckets h0 !! p }.

(** The variables of the loop that the invariant describes. *)
Definition state_of (src this0 this1 : Z) (L0 pre R : list E) (U : segments E) (L1 : list E) (avail : Z) (fHeap : bool) : split :=
  Split src (hd_ptr U) (rgEntry src (Z.of_nat (length pre))) (rgEntry src (Z.of_nat (length (pre ++ R))))
    (Side this0 (rgEntry this0 (Z.of_nat (length L0))) (rgEntry this0 m_centryBucket) (end_pb this0 L0))
    (Side this1 (rgEntry this1 (Z.of_nat (length L1))) (rgEntry this1 m_centryBucket) (end_pb this1 L1)) avail fHeap.

(** Buckets outside [F] keep their contents when one inside is written. *)
Lemma frame_upd (h : heap E) x b : x ∈ F -> blocks h = blocks h0 /\ (forall p, p ∉ F -> buckets h !! p = buckets h0 !! p) ->
  blocks (upd h x b) = blocks h0 /\ (forall p, p ∉ F -> buckets (upd h x b) !! p = buckets h0 !! p).
Proof. intros Hx [H1 H2]. split; [done|]. intros p Hp. cbn. rewrite lookup_insert_ne; [auto|]. by intros ->. Qed.

Lemma filter_snoc_true (P : E -> Prop) `{forall x, Decision (P x)} (l : list E) e : P e -> filter P (l ++ [e]) = filter P l ++ [e].
Proof. intros He. rewrite list.filter_app. f_equal. cbn. by rewrite decide_True. Qed.

Lemma filter_snoc_false (P : E -> Prop) `{forall x, Decision (P x)} (l : list E) e : ~ P e -> filter P (l ++ [e]) = filter P l.
Proof. intros He. rewrite list.filter_app. cbn. rewrite decide_False by done. by rewrite app_nil_r. Qed.

(** ** One entry *)

Context (iHashMask iHashSrc : Z) (Hstay : forall e, stay e = (Hash_entry e .& iHashMask =? iHashSrc)).

Lemma inv_nodup h src this0 this1 av rv f Kept L0 pre R B U Moved L1 A rs read :
  split_inv h src this0 this1 av rv f Kept L0 pre R B U Moved L1 A rs read ->
  NoDup (Kept.*1 ++ this0 :: (if B then [src] else []) ++ U.*1 ++ Moved.*1 ++ this1 :: A ++ rs).
Proof. intros []. rewrite inv_ptrs0. done. Qed.

(** The entry about to be read. *)
Lemma inv_read h src this0 this1 av rv f Kept L0 pre e R B U Moved L1 A rs read :
  split_inv h src this0 this1 av rv f Kept L0 pre (e :: R) B U Moved L1 A rs read ->
  rd_entry h src (rgEntry src (Z.of_nat (length pre))) = Some e /\ (length pre < C)%nat.
Proof.
  intros []. split.
  - eapply rd_entry_holds; [done|]. by rewrite lookup_app_r, Nat.sub_diag by lia.
  - pose proof (holds_len _ _ _ _ _ inv_heap0 inv_src0) as Hl. rewrite length_app in Hl. cbn in Hl. lia.
Qed.

(** Overwriting an entry that was read, or the one being read with itself. *)
Lemma overwrite_read (pre R : list E) e (i : nat) : (i <= length pre)%nat ->
  <[i := e]> (pre ++ e :: R) = <[i := e]> (pre ++ [e]) ++ R.
Proof.
  intros Hi. replace (pre ++ e :: R) with ((pre ++ [e]) ++ R) by (by rewrite <- app_assoc).
  apply insert_app_l. rewrite length_app. cbn. lia.
Qed.

Lemma prefix_insert (l pre : list E) e : l `prefix_of` pre -> l ++ [e] `prefix_of` <[length l := e]> (pre ++ [e]).
Proof.
  intros [k ->]. rewrite <- app_assoc. rewrite insert_app_r_alt, Nat.sub_diag by lia.
  destruct k as [|x k]; cbn; [exists []; by rewrite app_nil_r|]. exists (k ++ [e]). by rewrite <- app_assoc.
Qed.

(** An entry that stays, written to the bucket being read. *)
Lemma copy_same h src this1 av rv f Kept L0 pre e R U Moved L1 A rs read :
  split_inv h src src this1 av rv f Kept L0 pre (e :: R) false U Moved L1 A rs read -> stay e = true ->
  exists b, wr_entry h src (rgEntry src (Z.of_nat (length L0))) e = Some (upd h src b) /\
    split_inv (upd h src b) src src this1 av rv f Kept (L0 ++ [e]) (<[length L0 := e]> (pre ++ [e])) R false U Moved L1 A rs (read ++ [e]).
Proof.
  intros Hi He. pose proof (inv_read _ _ _ _ _ _ _ _ _ _ _ _ _ _ _ _ _ _ _ Hi) as [_ HpC].
  pose proof (inv_nodup _ _ _ _ _ _ _ _ _ _ _ _ _ _ _ _ _ _ Hi) as Hnd.
  apply roles_this0 in Hnd as (Dk & Db & Du & Dm & Dc & Da & Dr). destruct Hi. destruct inv_this2 as [_ Hpre].
  pose proof (prefix_length _ _ Hpre) as Hpl.
  assert (Econt : <[length L0 := e]> (pre ++ [e]) ++ R = <[length L0 := e]> (pre ++ e :: R)) by (symmetry; by apply overwrite_read).
  assert (Elen : length (<[length L0 := e]> (pre ++ [e]) ++ R) = length (pre ++ e :: R)) by (by rewrite Econt, length_insert).
  assert (HinF : src ∈ F) by (rewrite <- inv_ptrs0; in_list).
  destruct (wr_entry_spec h src _ _ (pre ++ e :: R) (length L0) e inv_heap0 inv_src0) as (b & Ew & Hok & Hb).
  { rewrite length_app. cbn. lia. }
  exists b. split; [done|]. split; try done.
  - by apply lseg_upd.
  - rewrite Econt. rewrite (link_pb_length _ _ (pre ++ e :: R)) by (by rewrite length_insert). done.
  - split; [done|]. by apply prefix_insert.
  - rewrite length_app. cbn. lia.
  - by apply chain_upd.
  - by rewrite Elen.
  - by apply lseg_upd.
  - destruct inv_this3 as [pb ?]. exists pb. by apply holds_upd_ne.
  - by apply free_list_upd.
  - by apply free_list_upd.
  - rewrite length_insert, !length_app. cbn in *. lia.
  - rewrite app_assoc, inv_stayed0. by rewrite filter_snoc_true.
  - rewrite filter_snoc_false; [done|]. by rewrite He.
  - rewrite <- app_assoc. done.
  - by apply frame_upd.
Qed.

(** An entry that stays, written to an earlier bucket. *)
Lemma copy_earlier h src this0 this1 av rv f Kept L0 pre e R U Moved L1 A rs read :
  split_inv h src this0 this1 av rv f Kept L0 pre (e :: R) true U Moved L1 A rs read -> stay e = true -> (length L0 < C)%nat ->
  exists b, wr_entry h this0 (rgEntry this0 (Z.of_nat (length L0))) e = Some (upd h this0 b) /\
    split_inv (upd h this0 b) src this0 this1 av rv f Kept (L0 ++ [e]) (pre ++ [e]) R true U Moved L1 A rs (read ++ [e]).
Proof.
  intros Hi He HL. pose proof (inv_nodup _ _ _ _ _ _ _ _ _ _ _ _ _ _ _ _ _ _ Hi) as Hnd.
  apply roles_this0 in Hnd as (Dk & Db & Du & Dm & Dc & Da & Dr). destruct Hi. destruct inv_this2 as [Ht Hbl].
  assert (HinF : this0 ∈ F) by (rewrite <- inv_ptrs0; in_list).
  destruct (wr_entry_next h this0 _ _ L0 _ e inv_heap0 Ht eq_refl HL) as (b & Ew & Hok & Hb).
  assert (Hne : this0 <> src) by set_solver.
  exists b. split; [done|]. split; try done; rewrite <- ?(app_assoc pre); cbn [app].
  - by apply lseg_upd.
  - by apply holds_upd_ne.
  - rewrite length_app. cbn. lia.
  - by apply chain_upd.
  - done.
  - by apply lseg_upd.
  - destruct inv_this3 as [pb ?]. exists pb. by apply holds_upd_ne.
  - by apply free_list_upd.
  - by apply free_list_upd.
  - rewrite !length_app. cbn in *. lia.
  - rewrite app_assoc, inv_stayed0. by rewrite filter_snoc_true.
  - rewrite filter_snoc_false; [done|]. by rewrite He.
  - rewrite <- app_assoc. done.
  - by apply frame_upd.
Qed.

(** The next bucket for the entries that stay: the one being read. *)
Lemma keep_next h src this0 this1 av rv f Kept L0 pre R U Moved L1 A rs read :
  split_inv h src this0 this1 av rv f Kept L0 pre R true U Moved L1 A rs read -> length L0 = C ->
  split_inv h src src this1 av rv f (Kept ++ [(this0, L0)]) [] pre R false U Moved L1 A rs read.
Proof.
  intros [] HL. destruct inv_this2 as [Ht Hbl]. split; try done.
  - by eapply lseg_snoc.
  - by rewrite back_snoc.
  - split; [done|]. apply prefix_nil.
  - cbn. lia.
  - by right.
  - rewrite fmap_app. rewrite <- app_assoc. done.
  - rewrite HL in inv_count0. cbn in *. lia.
  - rewrite flat_app, <- inv_stayed0. unfold flat at 2. cbn. by rewrite !app_nil_r.
  - by rewrite first_snoc.
Qed.

(** An entry that moves. *)
Lemma copy_moved h src this0 this1 av rv f Kept L0 pre e R B U Moved L1 A rs read :
  split_inv h src this0 this1 av rv f Kept L0 pre (e :: R) B U Moved L1 A rs read -> stay e = false -> (length L1 < C)%nat ->
  exists b, wr_entry h this1 (rgEntry this1 (Z.of_nat (length L1))) e = Some (upd h this1 b) /\
    split_inv (upd h this1 b) src this0 this1 av rv f Kept L0 (pre ++ [e]) R B U Moved (L1 ++ [e]) A rs (read ++ [e]).
Proof.
  intros Hi He HL. pose proof (inv_nodup _ _ _ _ _ _ _ _ _ _ _ _ _ _ _ _ _ _ Hi) as Hnd.
  apply roles_this1 in Hnd as (Dk & D0 & Db & Du & Dm & Da & Dr). destruct Hi. destruct inv_this3 as [pb Ht].
  assert (HinF : this1 ∈ F) by (rewrite <- inv_ptrs0; in_list).
  destruct (wr_entry_next h this1 _ _ L1 _ e inv_heap0 Ht eq_refl HL) as (b & Ew & Hok & Hb).
  assert (Hne : this1 <> src) by (destruct B; [set_solver|by destruct inv_this2 as [-> _]]).
  exists b. split; [done|]. split; try done; rewrite <- ?(app_assoc pre); cbn [app].
  - by apply lseg_upd.
  - by apply holds_upd_ne.
  - destruct B; destruct inv_this2 as [H1 H2]; (split; [|done || by apply prefix_app_r]); [by apply holds_upd_ne|done].
  - by apply chain_upd.
  - done.
  - by apply lseg_upd.
  - by exists pb.
  - by apply free_list_upd.
  - by apply free_list_upd.
  - rewrite !length_app. cbn in *. lia.
  - rewrite filter_snoc_false; [done|]. by rewrite He.
  - rewrite app_assoc, inv_left0. by rewrite filter_snoc_true.
  - rewrite <- app_assoc. done.
  - by apply frame_upd.
Qed.

(** A further bucket [n] for the entries that move, taken from the free ones. *)
Lemma link_new h src this0 this1 av rv f Kept L0 pre R B U Moved L1 A rs read n prevn pbn av' rv' f' A' rs' :
  split_inv h src this0 this1 av rv f Kept L0 pre R B U Moved L1 A rs read -> length L1 = C ->
  holds h n (Some prevn) pbn [] -> blocks h !! n = Some 1%nat -> A ++ rs ≡ₚ n :: A' ++ rs' ->
  free_list h av' A' -> free_list h rv' rs' -> (f' = false -> rs' <> []) -> (length A + used f' = length A' + 1 + used f)%nat ->
  exists h', (h1 ← wr_pb h this1 n; wr_prev h1 n this1) = Some h' /\
    split_inv h' src this0 n av' rv' f' Kept L0 pre R B U (Moved ++ [(this1, L1)]) [] A' rs' read.
Proof.
  intros Hi HL Hn Hbn Hperm Hav Hrv Hf Hcnt. pose proof (inv_nodup _ _ _ _ _ _ _ _ _ _ _ _ _ _ _ _ _ _ Hi) as Hnd.
  rewrite Hperm in Hnd. pose proof (roles_this1 _ _ _ _ _ _ (n :: A') rs' Hnd) as (Dk & D0 & Db & Du & Dm & Da & Dr).
  pose proof (roles_avail _ _ _ _ _ _ n A' rs' Hnd) as (Nk & N0 & Nb & Nu & Nm & N1 & Na & Nr). destruct Hi.
  destruct inv_this3 as [pb Ht]. rewrite Hperm in inv_ptrs0.
  assert (HinF : this1 ∈ F) by (rewrite <- inv_ptrs0; in_list).
  assert (HninF : n ∈ F) by (rewrite <- inv_ptrs0; in_list).
  destruct (wr_pb_spec h this1 _ _ n L1 inv_heap0 Ht) as (b & -> & Hok & Hb). cbn [mbind option_bind].
  destruct (wr_prev_spec (upd h this1 b) n prevn pbn this1 [] Hok) as (b' & -> & Hok' & Hb'); [by apply holds_upd_ne|].
  assert (Hne : this1 <> src) by (destruct B; [set_solver|by destruct inv_this2 as [-> _]]).
  assert (Hne' : n <> src) by (destruct B; [set_solver|by destruct inv_this2 as [-> _]]).
  eexists. split; [done|]. split; try done.
  - by apply lseg_upd, lseg_upd.
  - by apply holds_upd_ne, holds_upd_ne.
  - destruct B; destruct inv_this2 as [H1 H2]; (split; [|done]); [by apply holds_upd_ne, holds_upd_ne|done].
  - by apply chain_upd, chain_upd.
  - eapply lseg_snoc; [by apply lseg_upd, lseg_upd| |done| |done]; [by apply holds_upd_ne|done].
  - rewrite back_snoc. by exists pbn.
  - by right.
  - apply free_list_upd; [done|]. apply free_list_upd; [set_solver|done].
  - by apply free_list_upd, free_list_upd.
  - rewrite <- inv_ptrs0, fmap_app. cbn. rewrite <- app_assoc. done.
  - rewrite HL in inv_count0. cbn. lia.
  - rewrite flat_app, <- inv_left0. unfold flat at 2. cbn. by rewrite !app_nil_r.
  - by rewrite first_snoc.
  - by apply frame_upd, frame_upd.
Qed.

(** The next bucket of the source. *)
Lemma unlink_src h src this0 this1 av rv f Kept L0 pre u us U Moved L1 A rs read :
  split_inv h src this0 this1 av rv f Kept L0 pre [] true ((u, us) :: U) Moved L1 A rs read ->
  exists h', (h1 ← wr_pb h this0 u; h2 ← wr_prev h1 u this0; wr_pb h2 src av) = Some h' /\
    chain h' (Some this0) ((u, us) :: U) /\ NoDup (u :: U.*1) /\
    split_inv h' u this0 this1 src rv f Kept L0 [] us true U Moved L1 (src :: A) rs read.
Proof.
  intros Hi. pose proof (inv_nodup _ _ _ _ _ _ _ _ _ _ _ _ _ _ _ _ _ _ Hi) as Hnd.
  pose proof (roles_this0 _ _ [src] ((u, us) :: U).*1 _ _ _ _ Hnd) as (Tk & Tb & Tu & Tm & T1 & Ta & Tr).
  pose proof (roles_src _ _ src ((u, us) :: U).*1 _ _ _ _ Hnd) as (Sk & S0 & Su & Sm & S1 & Sa & Sr).
  pose proof (roles_unread _ _ [src] u U.*1 _ _ _ _ Hnd) as (Nk & N0 & Nb & Nu & Nm & N1 & Na & Nr & HdU).
  cbn in Tu, Su. rewrite not_elem_of_cons in Tu, Su. destruct Tu as [Tu Tu'], Su as [Su Su'].
  destruct Hi. destruct inv_this2 as [Ht Hbl]. destruct inv_this3 as [pb Ht1]. destruct inv_unread0 as (Hu & HfU & HnU & HcU).
  specialize (inv_full0 ltac:(done)). rewrite app_nil_r in *.
  assert (HF0 : this0 ∈ F) by (rewrite <- inv_ptrs0; in_list).
  assert (HFs : src ∈ F) by (rewrite <- inv_ptrs0; cbn; in_list).
  assert (HFu : u ∈ F) by (rewrite <- inv_ptrs0; cbn; in_list).
  destruct (wr_pb_spec h this0 _ _ u L0 inv_heap0 Ht) as (b1 & -> & Hok1 & Hb1). cbn [mbind option_bind].
  destruct (wr_prev_spec (upd h this0 b1) u src (link_pb u us U) this0 us Hok1) as (b2 & -> & Hok2 & Hb2); [by apply holds_upd_ne|].
  cbn [mbind option_bind].
  destruct (wr_pb_spec (upd (upd h this0 b1) u b2) src (Some this0) (link_pb src pre ((u, us) :: U)) av pre Hok2) as (b3 & -> & Hok3 & Hb3).
  { by apply holds_upd_ne, holds_upd_ne. }
  assert (HcU' : chain (upd (upd (upd h this0 b1) u b2) src b3) (Some u) U) by (by apply chain_upd, chain_upd, chain_upd).
  assert (Hu' : holds (upd (upd (upd h this0 b1) u b2) src b3) u (Some this0) (link_pb u us U) us) by (by apply holds_upd_ne).
  destruct HnU as [?|[Hus Hbu]]; [done|].
  eexists. split; [done|]. split; [|split]; [|by apply list.NoDup_cons|].
  { cbn [chain]. split; [done|]. split; [done|]. split; [|done]. by right. }
  split; try done.
  - by apply lseg_upd, lseg_upd, lseg_upd.
  - split; [|done]. apply holds_upd_ne; [done|]. by apply holds_upd_ne.
  - by apply lseg_upd, lseg_upd, lseg_upd.
  - exists pb. apply holds_upd_ne; [done|]. apply holds_upd_ne; [done|]. by apply holds_upd_ne.
  - cbn [free_list]. split; [done|]. exists this0, av. split; [|split; [done|]].
    + eapply (holds_prefix _ _ _ _ [] pre). done.
    + by apply free_list_upd, free_list_upd, free_list_upd.
  - by apply free_list_upd, free_list_upd, free_list_upd.
  - rewrite <- inv_ptrs0. cbn. apply Permutation_app_head, perm_skip. rewrite (perm_swap u src). apply perm_skip.
    rewrite (perm_swap src this1 (A ++ rs)), <- (Permutation_middle Moved.*1), <- (Permutation_middle U.*1). done.
  - rewrite inv_full0 in inv_count0. cbn in *. lia.
  - by apply frame_upd, frame_upd, frame_upd.
Qed.

Lemma next_same h src this1 av rv f Kept L0 pre u us U Moved L1 A rs read :
  split_inv h src src this1 av rv f Kept L0 pre [] false ((u, us) :: U) Moved L1 A rs read ->
  split_inv h u src this1 av rv f Kept L0 [] us true U Moved L1 A rs read /\ NoDup (u :: U.*1).
Proof.
  intros Hi. pose proof (inv_nodup _ _ _ _ _ _ _ _ _ _ _ _ _ _ _ _ _ _ Hi) as Hnd.
  pose proof (roles_unread _ _ [] u U.*1 _ _ _ _ Hnd) as (Nk & N0 & Nb & Nu & Nm & N1 & Na & Nr & HdU).
  destruct Hi. destruct inv_this2 as [_ Hpre]. destruct inv_unread0 as (Hu & HfU & HnU & HcU).
  specialize (inv_full0 ltac:(done)). rewrite app_nil_r in *. destruct HnU as [?|[Hus Hbu]]; [done|].
  split; [|by apply list.NoDup_cons]. split; try done.
  - split; [|done]. destruct Hpre as [k ->]. by eapply holds_prefix.
  - rewrite inv_full0 in inv_count0. cbn in *. lia.
Qed.

Lemma split_next_src_ok h src this0 this1 av rv f Kept L0 pre B u us U Moved L1 A rs read :
  split_inv h src this0 this1 av rv f Kept L0 pre [] B ((u, us) :: U) Moved L1 A rs read ->
  exists h' av' A', split_next_src h (state_of src this0 this1 L0 pre [] ((u, us) :: U) L1 av f) =
      Some (h', state_of u this0 this1 L0 [] us U L1 av' f) /\ us <> [] /\
    split_inv h' u this0 this1 av' rv f Kept L0 [] us true U Moved L1 A' rs read.
Proof.
  intros Hi. unfold split_next_src, state_of. cbn [side0 side1 pBucketThis pBucketSrcSrc pBucketNextSrc pBucketAvail fBucketFromHeap].
  pose proof (inv_unread _ _ _ _ _ _ _ _ _ _ _ _ _ _ _ _ _ _ Hi) as Hcu.
  assert (Hus : us <> []) by (destruct Hcu as (_ & _ & [?|[? _]] & _); done).
  destruct B.
  - pose proof (inv_nodup _ _ _ _ _ _ _ _ _ _ _ _ _ _ _ _ _ _ Hi) as Hnd.
    pose proof (roles_src _ _ src ((u, us) :: U).*1 _ _ _ _ Hnd) as (Sk & S0 & Su & _). rewrite (proj2 (Z.eqb_neq _ _)) by done.
    cbn [negb]. destruct (inv_this0 _ _ _ _ _ _ _ _ _ _ _ _ _ _ _ _ _ _ Hi) as [Ht Hbl].
    pose proof (inv_src _ _ _ _ _ _ _ _ _ _ _ _ _ _ _ _ _ _ Hi) as Hs. cbn [link_pb hd_ptr] in *.
    rewrite (rd_pb_holds _ _ _ _ _ Ht), (rd_pb_holds _ _ _ _ _ Hs), (rd_prev_holds _ _ _ _ _ Hs). cbn [mbind option_bind].
    destruct Hcu as (Hu & _). rewrite (rd_prev_holds _ _ _ _ _ Hu). cbn [mbind option_bind]. rewrite !Z.eqb_refl. cbn [andb DHTAssert mbind option_bind].
    destruct (unlink_src _ _ _ _ _ _ _ _ _ _ _ _ _ _ _ _ _ _ Hi) as (h' & Ew & Hc' & Hd' & Hi').
    destruct (wr_pb h this0 u) as [h1|]; [|done]. cbn [mbind option_bind] in Ew |- *.
    destruct (wr_prev h1 u this0) as [h2|]; [|done]. cbn [mbind option_bind] in Ew |- *. rewrite Ew. cbn [mbind option_bind].
    pose proof (inv_heap _ _ _ _ _ _ _ _ _ _ _ _ _ _ _ _ _ _ Hi') as Hok'.
    rewrite (chain_NextMost _ _ _ _ _ Hok' Hc' Hd'), (chain_Next _ _ _ _ _ Hok' Hc' Hd'). cbn [mbind option_bind].
    by exists h', src, (src :: A).
  - destruct (inv_this0 _ _ _ _ _ _ _ _ _ _ _ _ _ _ _ _ _ _ Hi) as [-> _]. rewrite Z.eqb_refl. cbn [negb mbind option_bind hd_ptr].
    destruct (next_same _ _ _ _ _ _ _ _ _ _ _ _ _ _ _ _ _ Hi) as [Hi' Hd'].
    pose proof (inv_heap _ _ _ _ _ _ _ _ _ _ _ _ _ _ _ _ _ _ Hi') as Hok'.
    rewrite (chain_NextMost _ _ _ _ _ Hok' Hcu Hd'), (chain_Next _ _ _ _ _ Hok' Hcu Hd'). cbn [mbind option_bind].
    by exists h, av, A.
Qed.

Lemma advance_eq t (l : list E) e :
  advance (Side t (rgEntry t (Z.of_nat (length l))) (rgEntry t m_centryBucket) (end_pb t l)) =
  Side t (rgEntry t (Z.of_nat (length (l ++ [e])))) (rgEntry t m_centryBucket) (end_pb t (l ++ [e])).
Proof.
  unfold advance. cbn [pBucketThis pEntryThis pEntryMost pEntryLast]. rewrite end_pb_snoc, rgEntry_succ, length_app. cbn [length].
  do 2 f_equal. lia.
Qed.

Lemma next_eq src this0 this1 (L0 pre : list E) e R U L1 av f d0 d1 av' f' L0' pre' L1' this0' this1' : length pre' = S (length pre) ->
  d0 = Side this0' (rgEntry this0' (Z.of_nat (length L0'))) (rgEntry this0' m_centryBucket) (end_pb this0' L0') ->
  d1 = Side this1' (rgEntry this1' (Z.of_nat (length L1'))) (rgEntry this1' m_centryBucket) (end_pb this1' L1') ->
  next_src_entry (state_of src this0 this1 L0 pre (e :: R) U L1 av f) d0 d1 av' f' = state_of src this0' this1' L0' pre' R U L1' av' f'.
Proof.
  intros Hp -> ->. unfold next_src_entry, state_of. cbn [pBucketSrcSrc pBucketNextSrc pEntryThisSrc pEntryMostSrc]. f_equal.
  - rewrite rgEntry_succ. f_equal. lia.
  - f_equal. rewrite !length_app. cbn. lia.
Qed.

(** What a step may do to the reserve: nothing, or take its first bucket. *)
Definition took (f f' : bool) (rs rs' : list Z) : Prop := (f' = f /\ rs' = rs) \/ (f = false /\ f' = true /\ exists x, rs = x :: rs').

Definition started (l : list E) (ss : segments E) : Prop := l = [] -> ss = [].

Lemma started_snoc l e ss : started (l ++ [e]) ss.
Proof. unfold started. by destruct l. Qed.

(** Reading an entry that stays. *)
Lemma split_copy_stay h src this0 this1 av rv cR f Kept L0 pre e R B U Moved L1 A rs read :
  split_inv h src this0 this1 av rv f Kept L0 pre (e :: R) B U Moved L1 A rs read -> stay e = true ->
  exists h' this0' Kept' L0' pre' B',
    split_copy h (Pool rv cR) (state_of src this0 this1 L0 pre (e :: R) U L1 av f) iHashMask iHashSrc =
      Some (h', Pool rv cR, state_of src this0' this1 L0' pre' R U L1 av f) /\
    started L0' Kept' /\ split_inv h' src this0' this1 av rv f Kept' L0' pre' R B' U Moved L1 A rs (read ++ [e]).
Proof.
  intros Hi He. pose proof (inv_read _ _ _ _ _ _ _ _ _ _ _ _ _ _ _ _ _ _ _ Hi) as [Er HpC].
  unfold split_copy. cbn [state_of side0 side1 pBucketThis pEntryThis pEntryMost pBucketSrcSrc pEntryThisSrc pBucketAvail fBucketFromHeap].
  rewrite Er. cbn [mbind option_bind]. rewrite <- Hstay, He. pose proof C_Z as HC.
  destruct (Z.ltb_spec (rgEntry this0 (Z.of_nat (length L0))) (rgEntry this0 m_centryBucket)) as [Hlt|Hge]; cbn [mbind option_bind].
  - apply (proj1 (rgEntry_lt _ _ _)) in Hlt. cbn [mbind option_bind pBucketThis pEntryThis]. destruct B.
    + destruct (copy_earlier _ _ _ _ _ _ _ _ _ _ _ _ _ _ _ _ _ _ Hi He ltac:(lia)) as (b & -> & Hi'). cbn [mbind option_bind].
      rewrite (advance_eq this0 L0 e). rewrite next_eq with (L0' := L0 ++ [e]) (pre' := pre ++ [e]) (L1' := L1) (this0' := this0) (this1' := this1); [|by rewrite length_app, Nat.add_comm|done|done].
      eexists _, _, _, _, _, _. split; [done|]. split; [apply started_snoc|exact Hi'].
    + destruct (inv_this0 _ _ _ _ _ _ _ _ _ _ _ _ _ _ _ _ _ _ Hi) as [-> Hpre].
      destruct (copy_same _ _ _ _ _ _ _ _ _ _ _ _ _ _ _ _ _ Hi He) as (b & -> & Hi'). cbn [mbind option_bind].
      rewrite (advance_eq src L0 e). rewrite next_eq with (L0' := L0 ++ [e]) (pre' := <[length L0 := e]> (pre ++ [e])) (L1' := L1) (this0' := src) (this1' := this1); [|by rewrite length_insert, length_app, Nat.add_comm|done|done].
      eexists _, _, _, _, _, _. split; [done|]. split; [apply started_snoc|exact Hi'].
  - apply (proj1 (rgEntry_le _ _ _)) in Hge. pose proof (inv_len0 _ _ _ _ _ _ _ _ _ _ _ _ _ _ _ _ _ _ Hi) as HL0.
    assert (HL : length L0 = C) by lia. destruct B.
    2:{ destruct (inv_this0 _ _ _ _ _ _ _ _ _ _ _ _ _ _ _ _ _ _ Hi) as [_ Hpre%prefix_length]. lia. }
    destruct (inv_this0 _ _ _ _ _ _ _ _ _ _ _ _ _ _ _ _ _ _ Hi) as [Ht _].
    pose proof (inv_src _ _ _ _ _ _ _ _ _ _ _ _ _ _ _ _ _ _ Hi) as Hs.
    unfold split_next0. cbn [state_of side0 pBucketThis pEntryLast]. rewrite (rd_pb_holds _ _ _ _ _ Ht). cbn [mbind option_bind].
    rewrite (rd_prev_holds _ _ _ _ _ Hs). cbn [mbind option_bind]. rewrite Z.eqb_refl. cbn [DHTAssert mbind option_bind pBucketThis pEntryThis].
    pose proof (keep_next _ _ _ _ _ _ _ _ _ _ _ _ _ _ _ _ _ Hi HL) as Hi1.
    destruct (copy_same _ _ _ _ _ _ _ _ _ _ _ _ _ _ _ _ _ Hi1 He) as (b & Ew & Hi2). cbn [length] in Ew.
    change (Z.of_nat 0) with 0 in Ew. rewrite Ew. cbn [mbind option_bind].
    rewrite next_eq with (L0' := [e]) (pre' := <[0%nat := e]> (pre ++ [e])) (L1' := L1) (this0' := src) (this1' := this1); [|by rewrite length_insert, length_app, Nat.add_comm| |done].
    + eexists _, _, _, _, _, _. split; [done|]. split; [apply (started_snoc [])|exact Hi2].
    + unfold advance. cbn [pBucketThis pEntryThis pEntryMost pEntryLast app length]. rewrite rgEntry_succ. f_equal.
Qed.

(** Reading an entry that moves: one reserved bucket is enough. *)
Lemma split_copy_move h src this0 this1 av rv cR f Kept L0 pre e R B U Moved L1 A rs read :
  split_inv h src this0 this1 av rv f Kept L0 pre (e :: R) B U Moved L1 A rs read -> stay e = false ->
  exists h' this1' pre' av' rv' f' Moved' L1' A' rs',
    split_copy h (Pool rv cR) (state_of src this0 this1 L0 pre (e :: R) U L1 av f) iHashMask iHashSrc =
      Some (h', Pool rv' cR, state_of src this0 this1' L0 pre' R U L1' av' f') /\ took f f' rs rs' /\
    started L1' Moved' /\ split_inv h' src this0 this1' av' rv' f' Kept L0 pre' R B U Moved' L1' A' rs' (read ++ [e]).
Proof.
  intros Hi He. pose proof (inv_read _ _ _ _ _ _ _ _ _ _ _ _ _ _ _ _ _ _ _ Hi) as [Er HpC].
  unfold split_copy. cbn [state_of side0 side1 pBucketThis pEntryThis pEntryMost pBucketSrcSrc pEntryThisSrc pBucketAvail fBucketFromHeap].
  rewrite Er. cbn [mbind option_bind]. rewrite <- Hstay, He. pose proof C_Z as HC.
  destruct (inv_this1 _ _ _ _ _ _ _ _ _ _ _ _ _ _ _ _ _ _ Hi) as [pb1 Ht1].
  pose proof (holds_len _ _ _ _ _ (inv_heap _ _ _ _ _ _ _ _ _ _ _ _ _ _ _ _ _ _ Hi) Ht1) as HL1.
  destruct (Z.ltb_spec (rgEntry this1 (Z.of_nat (length L1))) (rgEntry this1 m_centryBucket)) as [Hlt|Hge]; cbn [mbind option_bind].
  - apply (proj1 (rgEntry_lt _ _ _)) in Hlt. rewrite Er. cbn [mbind option_bind pBucketThis pEntryThis].
    destruct (copy_moved _ _ _ _ _ _ _ _ _ _ _ _ _ _ _ _ _ _ _ Hi He ltac:(lia)) as (b & -> & Hi'). cbn [mbind option_bind].
    rewrite (advance_eq this1 L1 e). rewrite next_eq with (L0' := L0) (pre' := pre ++ [e]) (L1' := L1 ++ [e]) (this0' := this0) (this1' := this1); [|by rewrite length_app, Nat.add_comm|done|done].
    eexists _, _, _, _, _, _, _, _, _, _. split; [done|]. split; [by left|]. split; [apply started_snoc|exact Hi'].
  - apply (proj1 (rgEntry_le _ _ _)) in Hge. assert (HL : length L1 = C) by lia.
    unfold split_next1. cbn [state_of side1 pBucketThis pEntryLast pBucketAvail fBucketFromHeap].
    pose proof (inv_avail _ _ _ _ _ _ _ _ _ _ _ _ _ _ _ _ _ _ Hi) as Hav. pose proof (inv_pool _ _ _ _ _ _ _ _ _ _ _ _ _ _ _ _ _ _ Hi) as Hrv.
    pose proof (inv_heap _ _ _ _ _ _ _ _ _ _ _ _ _ _ _ _ _ _ Hi) as Hok.
    assert (Hnew : exists n prevn pbn av' rv' f' A' rs', holds h n (Some prevn) pbn [] /\ blocks h !! n = Some 1%nat /\ A ++ rs ≡ₚ n :: A' ++ rs' /\
      free_list h av' A' /\ free_list h rv' rs' /\ (f' = false -> rs' <> []) /\ (length A + used f' = length A' + 1 + used f)%nat /\ took f f' rs rs' /\
      (if negb (av =? 0) then next ← rd_pb h av; Some (Pool rv cR, av, next, f)
       else _ ← DHTAssert (negb f); '(pBucketReserve, pool) ← PbucketPOOLCommit h (Pool rv cR);
            _ ← DHTAssert (negb (pBucketReserve =? 0)); Some (pool, pBucketReserve, av, true)) = Some (Pool rv' cR, n, av', f')).
    { destruct A as [|a A]; cbn [free_list] in Hav.
      - subst av. cbn [Z.eqb negb]. pose proof (inv_count _ _ _ _ _ _ _ _ _ _ _ _ _ _ _ _ _ _ Hi) as Hcnt. rewrite HL in Hcnt. cbn in Hcnt.
        assert (f = false) as ->. { destruct f; [|done]. cbn in Hcnt. destruct B; cbn in Hcnt; lia. }
        pose proof (inv_reserved _ _ _ _ _ _ _ _ _ _ _ _ _ _ _ _ _ _ Hi eq_refl) as Hne. destruct rs as [|x rs]; [done|].
        destruct Hrv as (-> & prevn & pbn & Hx & Hbx & Hrv). pose proof (holds_pos _ _ _ _ _ Hok Hx).
        exists x, prevn, pbn, 0, pbn, true, [], rs. unfold PbucketPOOLCommit. cbn [m_pReserve m_cReserve]. rewrite (proj2 (Z.eqb_neq _ _)) by lia.
        cbn [negb DHTAssert mbind option_bind]. rewrite (rd_pb_holds _ _ _ _ _ Hx). cbn [mbind option_bind]. rewrite (proj2 (Z.eqb_neq _ _)) by lia.
        split_and!; try done. right. split_and!; [done..|]. by exists x.
      - destruct Hav as (-> & prevn & pbn & Hx & Hbx & Hav). pose proof (holds_pos _ _ _ _ _ Hok Hx). rewrite (proj2 (Z.eqb_neq _ _)) by lia.
        cbn [negb]. rewrite (rd_pb_holds _ _ _ _ _ Hx). cbn [mbind option_bind].
        exists a, prevn, pbn, pbn, rv, f, A, rs. split_and!; try done; [by apply (inv_reserved _ _ _ _ _ _ _ _ _ _ _ _ _ _ _ _ _ _ Hi)|cbn; lia|by left]. }
    destruct Hnew as (n & prevn & pbn & av' & rv' & f' & A' & rs' & Hn & Hbn & Hperm & Hav' & Hrv' & Hf' & Hcnt & Htook & ->). cbn [mbind option_bind].
    destruct (link_new _ _ _ _ _ _ _ _ _ _ _ _ _ _ _ _ _ _ _ _ _ _ _ _ _ _ Hi HL Hn Hbn Hperm Hav' Hrv' Hf' Hcnt) as (h' & Ew & Hi').
    destruct (wr_pb h this1 n) as [h1|]; [|done]. cbn [mbind option_bind] in Ew |- *. rewrite Ew. cbn [mbind option_bind].
    pose proof (inv_read _ _ _ _ _ _ _ _ _ _ _ _ _ _ _ _ _ _ _ Hi') as [Er' _]. rewrite Er'. cbn [mbind option_bind pBucketThis pEntryThis].
    destruct (copy_moved _ _ _ _ _ _ _ _ _ _ _ _ _ _ _ _ _ _ _ Hi' He C_pos) as (b & Ew' & Hi2). cbn [length] in Ew'.
    change (Z.of_nat 0) with 0 in Ew'. rewrite Ew'. cbn [mbind option_bind].
    rewrite next_eq with (L0' := L0) (pre' := pre ++ [e]) (L1' := [e]) (this0' := this0) (this1' := n); [|by rewrite length_app, Nat.add_comm|done|].
    + eexists _, _, _, _, _, _, _, _, _, _. split; [done|]. split; [done|]. split; [apply (started_snoc [])|exact Hi2].
    + unfold advance. cbn [pBucketThis pEntryThis pEntryMost pEntryLast app length]. rewrite rgEntry_succ. f_equal.
Qed.

(** ** The loop *)

Lemma took_trans f f1 f2 rs rs1 rs2 : took f f1 rs rs1 -> took f1 f2 rs1 rs2 -> took f f2 rs rs2.
Proof.
  intros [[-> ->]|(-> & -> & x & ->)] [[-> ->]|(? & -> & y & ?)]; try done.
  - by left.
  - right. split_and!; [done..|]. by exists y.
  - right. split_and!; [done..|]. by exists x.
Qed.

Lemma took_refl f rs : took f f rs rs.
Proof. by left. Qed.

Lemma split_copy_ok h src this0 this1 av rv cR f Kept L0 pre e R B U Moved L1 A rs read :
  split_inv h src this0 this1 av rv f Kept L0 pre (e :: R) B U Moved L1 A rs read -> started L0 Kept -> started L1 Moved ->
  exists h' this0' this1' av' rv' f' Kept' L0' pre' B' Moved' L1' A' rs',
    split_copy h (Pool rv cR) (state_of src this0 this1 L0 pre (e :: R) U L1 av f) iHashMask iHashSrc =
      Some (h', Pool rv' cR, state_of src this0' this1' L0' pre' R U L1' av' f') /\ took f f' rs rs' /\
    started L0' Kept' /\ started L1' Moved' /\
    split_inv h' src this0' this1' av' rv' f' Kept' L0' pre' R B' U Moved' L1' A' rs' (read ++ [e]).
Proof.
  intros Hi H0 H1. destruct (stay e) eqn:He.
  - destruct (split_copy_stay _ _ _ _ _ _ cR _ _ _ _ _ _ _ _ _ _ _ _ _ Hi He) as (h' & this0' & Kept' & L0' & pre' & B' & Ec & Hs & Hi').
    eexists h', this0', this1, av, rv, f, Kept', L0', pre', B', Moved, L1, A, rs. split_and!; [done|by left|done|done|done].
  - destruct (split_copy_move _ _ _ _ _ _ cR _ _ _ _ _ _ _ _ _ _ _ _ _ Hi He)
      as (h' & this1' & pre' & av' & rv' & f' & Moved' & L1' & A' & rs' & Ec & Ht & Hs & Hi').
    eexists h', this0, this1', av', rv', f', Kept, L0, pre', B, Moved', L1', A', rs'. split_and!; done.
Qed.

Lemma split_loop_ok n h src this0 this1 av rv cR f Kept L0 pre R B U Moved L1 A rs read :
  split_inv h src this0 this1 av rv f Kept L0 pre R B U Moved L1 A rs read -> started L0 Kept -> started L1 Moved ->
  (length R + length (flat U) < n)%nat ->
  exists h' src' this0' this1' av' rv' f' Kept' L0' pre' B' Moved' L1' A' rs',
    split_loop n h (Pool rv cR) (state_of src this0 this1 L0 pre R U L1 av f) iHashMask iHashSrc =
      Some (h', Pool rv' cR, state_of src' this0' this1' L0' pre' [] [] L1' av' f') /\ took f f' rs rs' /\
    started L0' Kept' /\ started L1' Moved' /\
    split_inv h' src' this0' this1' av' rv' f' Kept' L0' pre' [] B' [] Moved' L1' A' rs' all.
Proof.
  revert h src this0 this1 av rv f Kept L0 pre R B U Moved L1 A rs read.
  induction n as [|n IH]; intros h src this0 this1 av rv f Kept L0 pre R B U Moved L1 A rs read Hi H0 H1 Hn; [lia|].
  cbn [split_loop]. cbn [state_of pEntryThisSrc pEntryMostSrc pBucketNextSrc].
  destruct R as [|e R].
  - rewrite app_nil_r, Z.ltb_irrefl. destruct U as [|[u us] U].
    + cbn [hd_ptr Z.eqb]. assert (Ea : read = all).
      { rewrite <- (inv_all _ _ _ _ _ _ _ _ _ _ _ _ _ _ _ _ _ _ Hi). unfold flat. cbn. by rewrite app_nil_r. }
      subst read. eexists _, _, _, _, _, _, _, _, _, _, _, _, _, _, _. split; [done|]. split; [apply took_refl|]. split_and!; [done..|]. exact Hi.
    + cbn [hd_ptr]. pose proof (inv_unread _ _ _ _ _ _ _ _ _ _ _ _ _ _ _ _ _ _ Hi) as Hcu.
      pose proof (holds_pos _ _ _ _ _ (inv_heap _ _ _ _ _ _ _ _ _ _ _ _ _ _ _ _ _ _ Hi) (chain_holds _ _ _ _ _ Hcu)).
      rewrite (proj2 (Z.eqb_neq 0 u)) by lia.
      destruct (split_next_src_ok _ _ _ _ _ _ _ _ _ _ _ _ _ _ _ _ _ _ _ Hi) as (h1 & av1 & A1 & -> & Hus & Hi1). cbn [mbind option_bind].
      destruct us as [|e us]; [done|].
      destruct (split_copy_ok _ _ _ _ _ _ cR _ _ _ _ _ _ _ _ _ _ _ _ _ Hi1 H0 H1)
        as (h2 & this02 & this12 & av2 & rv2 & f2 & Kept2 & L02 & pre2 & B2 & Moved2 & L12 & A2 & rs2 & -> & Ht2 & H02 & H12 & Hi2).
      cbn [mbind option_bind]. edestruct IH as (h3 & src3 & this03 & this13 & av3 & rv3 & f3 & Kept3 & L03 & pre3 & B3 & Moved3 & L13 & A3 & rs3 & E3 & Ht3 & H03 & H13 & Hi3);
        [exact Hi2|exact H02|exact H12|rewrite flat_cons, length_app in Hn; cbn in *; lia|].
      eexists _, _, _, _, _, _, _, _, _, _, _, _, _, _, _. split; [exact E3|]. split; [by eapply took_trans|]. split_and!; [done..|]. exact Hi3.
  - rewrite (proj2 (Z.ltb_lt _ _)) by (apply rgEntry_lt; rewrite length_app; cbn [length]; lia).
    destruct (split_copy_ok _ _ _ _ _ _ cR _ _ _ _ _ _ _ _ _ _ _ _ _ Hi H0 H1)
      as (h2 & this02 & this12 & av2 & rv2 & f2 & Kept2 & L02 & pre2 & B2 & Moved2 & L12 & A2 & rs2 & E2 & Ht2 & H02 & H12 & Hi2).
    cbn [state_of] in E2. rewrite E2.
    cbn [mbind option_bind]. edestruct IH as (h3 & src3 & this03 & this13 & av3 & rv3 & f3 & Kept3 & L03 & pre3 & B3 & Moved3 & L13 & A3 & rs3 & E3 & Ht3 & H03 & H13 & Hi3);
      [exact Hi2|exact H02|exact H12|cbn in *; lia|].
    eexists _, _, _, _, _, _, _, _, _, _, _, _, _, _, _. split; [exact E3|]. split; [by eapply took_trans|]. split_and!; [done..|]. exact Hi3.
Qed.

(** ** Releasing buckets *)

Lemma pool_free_ok n (h : heap E) p rs : heap_ok h -> free_list h p rs -> NoDup rs -> (length rs < n)%nat ->
  exists h', pool_free n h p = Some h' /\ heap_ok h' /\
    (forall q, q ∉ rs -> buckets h' !! q = buckets h !! q /\ blocks h' !! q = blocks h !! q) /\
    (forall q, q ∈ rs -> buckets h' !! q = None /\ blocks h' !! q = None).
Proof.
  revert h p rs. induction n as [|n IH]; intros h p rs Hok Hf Hd Hn; [lia|]. cbn [pool_free].
  destruct rs as [|q rs]; cbn [free_list] in Hf.
  - subst p. cbn [Z.eqb]. exists h. split_and!; [done..|]. intros q Hq. by apply not_elem_of_nil in Hq.
  - destruct Hf as (-> & prev & pb & Hq & Hbl & Hf). pose proof (holds_pos _ _ _ _ _ Hok Hq) as H0.
    rewrite (proj2 (Z.eqb_neq _ _)) by lia. rewrite (rd_pb_holds _ _ _ _ _ Hq). cbn [mbind option_bind].
    rewrite (free_1 h q Hbl H0). cbn [mbind option_bind]. apply list.NoDup_cons in Hd as [Hqn Hd].
    set (h1 := Heap (delete q (blocks h)) (delete q (buckets h))).
    destruct (IH h1 pb rs) as (h' & Eh' & Hok' & Hout & Hin).
    + by apply free_ok.
    + eapply free_list_frame; [| |exact Hf]; intros r Hr; cbn; rewrite lookup_delete_ne; try done; by intros ->.
    + done.
    + cbn in Hn. lia.
    + exists h'. split_and!; [done|done| |].
      * intros r [Hr1 Hr2]%not_elem_of_cons. destruct (Hout r Hr2) as [-> ->]. cbn. rewrite !lookup_delete_ne by done. done.
      * intros r [->|Hr]%elem_of_cons; [|by apply Hin]. destruct (Hout q Hqn) as [-> ->]. cbn. by rewrite !lookup_delete_eq.
Qed.

Lemma free_list_length (h : heap E) q rs : free_list h q rs -> NoDup rs -> (length rs <= size (buckets h))%nat.
Proof.
  intros Hf Hd. rewrite <- (size_list_to_set (C := gset Z)) by done.
  rewrite <- (size_dom (D := gset Z) (buckets h)). apply subseteq_size. intros r.
  rewrite elem_of_list_to_set, elem_of_dom. clear Hd. revert q Hf. induction rs as [|q' rs IH]; intros q Hf Hr; [by apply not_elem_of_nil in Hr|].
  destruct Hf as (-> & prev & pb & [rest Hq] & _ & Hf). apply elem_of_cons in Hr as [->|Hr]; [by eexists|eauto].
Qed.

(** What is left of the source after the loop: the last bucket, when nothing stays
    in it. *)
Lemma drop_src h src this0 this1 av rv f Kept L0 pre B Moved L1 A rs :
  split_inv h src this0 this1 av rv f Kept L0 pre [] B [] Moved L1 A rs all ->
  exists h', (if src =? this0 then Some h else
      next0 ← rd_pb h this0; prevSrc ← rd_prev h src; _ ← DHTAssert ((next0 =? src) && (prevSrc =? this0)); MEMFree h src) = Some h' /\
    heap_ok h' /\ (exists pb, holds h' this0 (back None Kept) pb L0) /\
    (forall q, q ∉ (if B then [src] else []) -> buckets h' !! q = buckets h !! q /\ blocks h' !! q = blocks h !! q) /\
    (forall q, q ∈ (if B then [src] else []) -> buckets h' !! q = None /\ blocks h' !! q = None).
Proof.
  intros Hi. pose proof (inv_nodup _ _ _ _ _ _ _ _ _ _ _ _ _ _ _ _ _ _ Hi) as Hnd.
  destruct Hi. destruct B.
  - pose proof (roles_src _ _ src [] _ _ _ _ Hnd) as (_ & S0 & _). rewrite (proj2 (Z.eqb_neq _ _)) by done.
    destruct inv_this2 as [Ht Hbl]. rewrite (rd_pb_holds _ _ _ _ _ Ht), (rd_prev_holds _ _ _ _ _ inv_src0). cbn [mbind option_bind].
    rewrite !Z.eqb_refl. cbn [andb DHTAssert mbind option_bind].
    rewrite (free_1 h src Hbl); [|by eapply holds_pos]. eexists. split; [done|]. split; [by apply free_ok|]. split_and!.
    + destruct Ht as [rest Ht]. exists src, rest. cbn. by rewrite lookup_delete_ne.
    + intros q Hq. cbn. rewrite !lookup_delete_ne; [done|set_solver..].
    + intros q ->%list_elem_of_singleton. cbn. by rewrite !lookup_delete_eq.
  - destruct inv_this2 as [-> Hpre]. rewrite Z.eqb_refl. exists h. split; [done|]. split; [done|]. split_and!; [|done|].
    + destruct Hpre as [k ->]. rewrite <- app_assoc in inv_src0. eexists. by eapply holds_prefix.
    + intros q Hq. by apply not_elem_of_nil in Hq.
Qed.

Lemma split_finish_ok h src this0 this1 av rv cR f Kept L0 pre B Moved L1 A rs :
  split_inv h src this0 this1 av rv f Kept L0 pre [] B [] Moved L1 A rs all -> started L0 Kept -> started L1 Moved ->
  exists h', split_finish h (Pool rv cR) (state_of src this0 this1 L0 pre [] [] L1 av f) =
      Some (h', if f then Pool rv cR else POOLUnreserve (Pool rv cR)) /\ heap_ok h' /\
    chain h' None (Kept ++ [(this0, L0)]) /\ chain h' None (Moved ++ [(this1, L1)]) /\ free_list h' rv rs /\
    (forall q, q ∉ F -> buckets h' !! q = buckets h0 !! q) /\
    (forall q, q ∉ (if B then [src] else []) ++ A -> blocks h' !! q = blocks h0 !! q) /\
    (forall q, q ∈ (if B then [src] else []) ++ A -> buckets h' !! q = None /\ blocks h' !! q = None).
Proof.
  intros Hi H0 H1. pose proof (inv_nodup _ _ _ _ _ _ _ _ _ _ _ _ _ _ _ _ _ _ Hi) as Hnd.
  pose proof (roles_this0 _ _ _ _ _ _ _ _ Hnd) as (Tk & Tb & _ & Tm & T1 & Ta & Tr).
  pose proof (roles_this1 _ _ _ _ _ _ _ _ Hnd) as (Ok & O0 & Ob & _ & Om & Oa & Or).
  destruct (drop_src _ _ _ _ _ _ _ _ _ _ _ _ _ _ _ Hi) as (h1 & E1 & Hok1 & [pb0 Ht0] & Hout1 & Hin1).
  unfold split_finish. cbn [state_of pBucketSrcSrc pBucketThis side0 side1 pEntryLast pBucketAvail fBucketFromHeap]. rewrite E1. cbn [mbind option_bind].
  destruct (wr_pb_spec h1 this0 _ _ (end_pb this0 L0) L0 Hok1 Ht0) as (b2 & -> & Hok2 & Ht2). cbn [mbind option_bind].
  destruct Hi. destruct inv_this3 as [pb1 Ht1].
  assert (Ht1' : holds (upd h1 this0 b2) this1 (back None Moved) pb1 L1).
  { apply holds_upd_ne; [done|]. destruct Ht1 as [rest Ht1]. exists rest. by rewrite (proj1 (Hout1 _ Ob)). }
  destruct (wr_pb_spec _ this1 _ _ (end_pb this1 L1) L1 Hok2 Ht1') as (b3 & -> & Hok3 & Ht3). cbn [mbind option_bind].
  set (h3 := upd (upd h1 this0 b2) this1 b3) in *.
  assert (Hfr : forall q, q <> this0 -> q <> this1 -> q ∉ (if B then [src] else []) -> buckets h3 !! q = buckets h !! q).
  { intros q Hq0 Hq1 Hqb. unfold h3. cbn. rewrite !lookup_insert_ne by done. by apply Hout1. }
  assert (HdA : NoDup A /\ (forall q, q ∈ A -> q <> this0 /\ q <> this1 /\ q ∉ (if B then [src] else []) /\ q ∉ rs /\ q ∉ Kept.*1 /\ q ∉ Moved.*1)).
  { split.
    - apply list.NoDup_app in Hnd as (_ & _ & [_ Hnd]%list.NoDup_cons). apply list.NoDup_app in Hnd as (_ & _ & Hnd).
      apply list.NoDup_app in Hnd as (_ & _ & Hnd). apply list.NoDup_app in Hnd as (_ & _ & [_ Hnd]%list.NoDup_cons).
      by apply list.NoDup_app in Hnd as (? & _).
    - intros q (A1 & A2 & ->)%list_elem_of_split.
      assert (Hp : A1 ++ q :: A2 ≡ₚ q :: A1 ++ A2) by (symmetry; apply Permutation_middle).
      rewrite Hp in Hnd. apply (roles_avail _ _ _ [].*1) in Hnd. tauto. }
  destruct HdA as [HdA HAne].
  assert (Hav3 : free_list h3 av A).
  { eapply free_list_frame; [| |exact inv_avail0]; intros q Hq; destruct (HAne q Hq) as (? & ? & ? & _); [by apply Hfr|]. by apply Hout1. }
  destruct (pool_free_ok (fuel h3) h3 av A Hok3 Hav3 HdA) as (h4 & -> & Hok4 & Hout4 & Hin4).
  { pose proof (free_list_length _ _ _ Hav3 HdA). unfold fuel. lia. }
  cbn [mbind option_bind].
  assert (Hb4 : forall q, q ∉ (if B then [src] else []) -> q ∉ A -> blocks h4 !! q = blocks h !! q).
  { intros q Hq Hq'. rewrite (proj2 (Hout4 q Hq')). unfold h3. cbn. by apply Hout1. }
  assert (Hk4 : forall q, q <> this0 -> q <> this1 -> q ∉ (if B then [src] else []) -> q ∉ A -> buckets h4 !! q = buckets h !! q).
  { intros q ? ? ? Hq'. rewrite (proj1 (Hout4 q Hq')). by apply Hfr. }
  assert (HK : forall q, q ∈ Kept.*1 -> q <> this0 /\ q <> this1 /\ q ∉ (if B then [src] else []) /\ q ∉ A).
  { apply list.NoDup_app in Hnd as (_ & Hnd & _). intros q Hq. specialize (Hnd q Hq). rewrite not_elem_of_cons, !not_elem_of_app, not_elem_of_cons, not_elem_of_app in Hnd. tauto. }
  assert (HM : forall q, q ∈ Moved.*1 -> q <> this0 /\ q <> this1 /\ q ∉ (if B then [src] else []) /\ q ∉ A).
  { intros q Hq. split_and!; try (intros ->; done); intros Hq'.
    - apply list.NoDup_app in Hnd as (_ & _ & [_ Hnd]%list.NoDup_cons). apply list.NoDup_app in Hnd as (_ & Hnd & _). apply (Hnd q Hq').
      rewrite !elem_of_app. tauto.
    - destruct (HAne q Hq') as (_ & _ & _ & _ & _ & ?). done. }
  exists h4. split; [by destruct f|]. split; [done|]. split_and!.
  - apply chain_app; [done|]. cbn [hd_ptr]. split.
    + eapply lseg_frame; [| |exact inv_kept0]; intros q Hq; destruct (HK q Hq) as (? & ? & ? & ?); [by apply Hk4|]. by rewrite Hb4.
    + cbn [chain link_pb]. split_and!; [|done| |done].
      * destruct Ht2 as [rest Ht2]. exists rest. rewrite (proj1 (Hout4 _ Ta)). unfold h3. cbn. rewrite lookup_insert_ne by done. exact Ht2.
      * destruct inv_blocks2 as [|Hbl]; [by left|]. destruct L0; [rewrite (H0 eq_refl); by left|]. right. split; [done|]. by rewrite Hb4.
  - apply chain_app; [done|]. cbn [hd_ptr]. split.
    + eapply lseg_frame; [| |exact inv_moved0]; intros q Hq; destruct (HM q Hq) as (? & ? & ? & ?); [by apply Hk4|]. by rewrite Hb4.
    + cbn [chain link_pb]. split_and!; [|done| |done].
      * destruct Ht3 as [rest Ht3]. exists rest. rewrite (proj1 (Hout4 _ Oa)). exact Ht3.
      * destruct inv_blocks3 as [|Hbl]; [by left|]. destruct L1; [rewrite (H1 eq_refl); by left|]. right. split; [done|]. by rewrite Hb4.
  - assert (HR : forall q, q ∈ rs -> q <> this0 /\ q <> this1 /\ q ∉ (if B then [src] else []) /\ q ∉ A).
    { intros q Hq. split_and!; try (intros ->; done); intros Hq'.
      - apply list.NoDup_app in Hnd as (_ & _ & [_ Hnd]%list.NoDup_cons). apply list.NoDup_app in Hnd as (_ & Hnd & _). apply (Hnd q Hq').
        rewrite !elem_of_app, elem_of_cons, elem_of_app. tauto.
      - destruct (HAne q Hq') as (_ & _ & _ & ? & _). done. }
    eapply free_list_frame; [| |exact inv_pool0]; intros q Hq; destruct (HR q Hq) as (? & ? & ? & ?); [by apply Hk4|]. by apply Hb4.
  - intros q Hq. rewrite <- inv_ptrs0 in Hq. cbn in Hq.
    rewrite !not_elem_of_app, not_elem_of_cons, !not_elem_of_app, not_elem_of_cons, !not_elem_of_app in Hq.
    rewrite Hk4 by tauto. apply inv_frame0. rewrite <- inv_ptrs0. cbn.
    rewrite !not_elem_of_app, not_elem_of_cons, !not_elem_of_app, not_elem_of_cons, !not_elem_of_app. tauto.
  - intros q [Hq1 Hq2]%not_elem_of_app. rewrite Hb4 by done. by rewrite (proj1 inv_frame0).
  - intros q [Hq|Hq]%elem_of_app; [|by apply Hin4].
    destruct (decide (q ∈ A)) as [HqA|HqA]; [by apply Hin4|].
    destruct (Hout4 q HqA) as [-> ->]. unfold h3. cbn.
    assert (q <> this0) by (intros ->; done). assert (q <> this1) by (intros ->; done). rewrite !lookup_insert_ne by done. by apply Hin1.
Qed.

End Split.

(** ** The whole split *)

Section DoSplit.
Context {K E : Type} `{KE : CKeyEntry K E} `{L : BucketLayout} `{LO : !LayoutOk}.

Lemma chain_flat_length (h : heap E) prev ss : heap_ok h -> chain h prev ss -> (length (flat ss) <= C * length ss)%nat.
Proof.
  intros Hh. revert prev. induction ss as [|[p es] ss IH]; intros prev; [cbn; lia|]. cbn [chain]. intros (Hp & _ & _ & Hc).
  rewrite flat_cons, length_app. pose proof (holds_len _ _ _ _ _ Hh Hp). specialize (IH _ Hc). cbn [length]. lia.
Qed.

Lemma first_chain (ss : segments E) t l q : first_ptr ss t = q ->
  exists es' ss', ss ++ [(t, l)] = (q, es') :: ss' /\ ss.*1 ++ [t] = q :: ss'.*1.
Proof.
  destruct ss as [|[r rs] ss]; cbn; intros <-; [by exists l, []|].
  eexists _, _. split; [done|]. by rewrite fmap_app.
Qed.

(** The buckets released by a split are those of the source that are in neither
    chain. *)
Lemma split_touched (h h' : heap E) p d ov o0 o1 rs rs' gone : NoDup (p :: ov ++ d :: rs) ->
  (p :: o0) ++ gone ++ (d :: o1) ++ rs' ≡ₚ p :: ov ++ d :: rs ->
  (forall q, q ∉ p :: ov ++ d :: rs -> buckets h' !! q = buckets h !! q) ->
  (forall q, q ∉ gone -> blocks h' !! q = blocks h !! q) ->
  (forall q, q ∈ gone -> buckets h' !! q = None /\ blocks h' !! q = None) ->
  touched h h' [p; d] (ov ++ rs) (o0 ++ o1 ++ rs').
Proof.
  intros Hd Hp Hout Hbl Hgone.
  assert (Hd' : NoDup ((p :: o0) ++ gone ++ (d :: o1) ++ rs')) by (by rewrite Hp).
  assert (Hiff : forall q, q ∈ (p :: o0) ++ gone ++ (d :: o1) ++ rs' <-> q ∈ p :: ov ++ d :: rs) by (intros q; by rewrite Hp).
  assert (Hgp : forall q, q ∈ gone -> q <> p /\ q <> d).
  { intros q Hq. apply list.NoDup_app in Hd' as (_ & H1 & H2). apply list.NoDup_app in H2 as (_ & H2 & _). split; intros ->.
    - destruct (H1 p ltac:(left)). by apply elem_of_app; left.
    - destruct (H2 d Hq). left. }
  apply list.NoDup_cons in Hd as [Hpn Hd]. rewrite not_elem_of_app, not_elem_of_cons in Hpn. destruct Hpn as (Hpn & Hpd & Hpr).
  apply list.NoDup_app in Hd as (_ & Hd1 & [Hdn _]%list.NoDup_cons).
  split.
  - intros q Hq. apply Hout. rewrite !not_elem_of_app, !not_elem_of_cons in Hq. destruct Hq as ((Hqp & Hqd & _) & (Hqo & Hqr) & _).
    rewrite not_elem_of_cons, not_elem_of_app, not_elem_of_cons. done.
  - intros q Hq. apply Hbl. intros Hg. destruct (Hgp q Hg) as [Hqp Hqd]. rewrite !not_elem_of_app in Hq. destruct Hq as ((Hqo & Hqr) & _).
    assert (Hin : q ∈ p :: ov ++ d :: rs) by (apply Hiff; rewrite !elem_of_app; by right; left).
    rewrite elem_of_cons, elem_of_app, elem_of_cons in Hin. by destruct Hin as [?|[?|[?|?]]].
  - intros q Hq Hq'. apply Hgone. rewrite !not_elem_of_app in Hq'. destruct Hq' as (Hq0 & Hq1 & Hqr).
    assert (Hin : q ∈ (p :: o0) ++ gone ++ (d :: o1) ++ rs').
    { apply Hiff. rewrite elem_of_cons, elem_of_app, elem_of_cons. rewrite elem_of_app in Hq. destruct Hq; [right; by left|right; right; by right]. }
    assert (Hqp : q <> p) by (intros ->; by apply elem_of_app in Hq as [?|?]).
    assert (Hqd : q <> d). { intros ->. apply elem_of_app in Hq as [Hq|Hq]; [|done]. apply (Hd1 d Hq). left. }
    rewrite !elem_of_app, !elem_of_cons in Hin. by destruct Hin as [[?|?]|[?|[[?|?]|?]]].
Qed.

Lemma split_subset (p d : Z) (ov o0 o1 rs rs' gone : list Z) : NoDup (p :: ov ++ d :: rs) ->
  (p :: o0) ++ gone ++ (d :: o1) ++ rs' ≡ₚ p :: ov ++ d :: rs -> o0 ++ o1 ++ rs' ⊆ ov ++ rs.
Proof.
  intros Hd Hp z Hz. assert (Hin : z ∈ p :: ov ++ d :: rs).
  { rewrite <- Hp. rewrite !elem_of_app in Hz. rewrite ?elem_of_app, ?elem_of_cons, ?elem_of_app, ?elem_of_cons. tauto. }
  rewrite <- Hp in Hd. cbn in Hd. apply list.NoDup_cons in Hd as [Hd1 Hd2].
  assert (Hzp : z <> p).
  { intros ->. apply Hd1. rewrite !elem_of_app in Hz. rewrite ?elem_of_app, ?elem_of_cons, ?elem_of_app, ?elem_of_cons. tauto. }
  assert (Hzd : z <> d).
  { intros ->. apply list.NoDup_app in Hd2 as (_ & H1 & Hd2). apply list.NoDup_app in Hd2 as (_ & _ & Hd2). cbn in Hd2.
    apply list.NoDup_cons in Hd2 as [Hd2 _]. rewrite !elem_of_app in Hz. destruct Hz as [Hz|Hz]; [|apply Hd2; by apply elem_of_app].
    apply (H1 d Hz). rewrite ?elem_of_app, ?elem_of_cons, ?elem_of_app, ?elem_of_cons. tauto. }
  rewrite elem_of_cons, elem_of_app, elem_of_cons in Hin. rewrite elem_of_app. tauto.
Qed.

Lemma BKTIDoSplit_ok (h : heap E) pool p es ss d rs cBucketMax iHashSrc : heap_ok h -> chain h None ((p, es) :: ss) ->
  chain h None [(d, [])] -> free_list h (m_pReserve pool) rs -> rs <> [] -> NoDup (p :: ss.*1 ++ d :: rs) -> 0 < cBucketMax ->
  let stay e := Hash_entry e .& u64 (cBucketMax - 1 + cBucketMax) =? iHashSrc in
  exists h' pool' es0 ss0 es1 ss1 rs', BKTIDoSplit h pool cBucketMax p d iHashSrc = Some (h', pool') /\ heap_ok h' /\
    chain h' None ((p, es0) :: ss0) /\ chain h' None ((d, es1) :: ss1) /\ free_list h' (m_pReserve pool') rs' /\
    flat ((p, es0) :: ss0) = filter (fun e => stay e = true) (flat ((p, es) :: ss)) /\
    flat ((d, es1) :: ss1) = filter (fun e => stay e = false) (flat ((p, es) :: ss)) /\
    NoDup (p :: ss0.*1 ++ d :: ss1.*1 ++ rs') /\
    ((rs' = rs /\ m_cReserve pool' = s32 (m_cReserve pool + 1)) \/ (exists x, rs = x :: rs' /\ m_cReserve pool' = m_cReserve pool)) /\
    touched h h' [p; d] (ss.*1 ++ rs) (ss0.*1 ++ ss1.*1 ++ rs') /\ ss0.*1 ++ ss1.*1 ++ rs' ⊆ ss.*1 ++ rs.
Proof.
  intros Hh Hc Hcd Hf Hrs Hd HM stay. destruct pool as [rv cR]. cbn [m_pReserve m_cReserve] in *.
  pose proof (chain_holds _ _ _ _ _ Hc) as Hp. pose proof (chain_holds _ _ _ _ _ Hcd) as Hdst. cbn [link_pb end_pb] in Hdst.
  pose proof (holds_pos _ _ _ _ _ Hh Hp). pose proof (holds_pos _ _ _ _ _ Hh Hdst).
  assert (Hdp : NoDup (p :: ss.*1)).
  { change (p :: ss.*1 ++ d :: rs) with ((p :: ss.*1) ++ d :: rs) in Hd. by apply list.NoDup_app in Hd as (? & _). }
  unfold BKTIDoSplit. rewrite (rd_pb_holds _ _ _ _ _ Hdst). cbn [mbind option_bind].
  rewrite !(proj2 (Z.eqb_neq _ _)) by lia. rewrite (proj2 (Z.ltb_lt _ _)) by lia. cbn [negb andb Z.eqb DHTAssert mbind option_bind].
  unfold split_init. rewrite (chain_Next _ _ _ _ _ Hh Hc Hdp), (chain_NextMost _ _ _ _ _ Hh Hc Hdp). cbn [mbind option_bind].
  set (mask := u64 (cBucketMax - 1 + cBucketMax)) in *.
  assert (Hi : split_inv stay h (p :: ss.*1 ++ d :: rs) (flat ((p, es) :: ss)) p d h p p d 0 rv false [] [] [] es false ss [] [] [] rs []).
  { destruct Hc as (_ & Hfull & _ & Hc). destruct Hcd as (_ & _ & _ & _). split; try done.
    - cbn. lia.
    - by eexists.
    - by left.
    - by left. }
  change (Split p (hd_ptr ss) (rgEntry p 0) (rgEntry p (Z.of_nat (length es))) (Side p (rgEntry p 0) (rgEntry p m_centryBucket) 0)
    (Side d (rgEntry d 0) (rgEntry d m_centryBucket) 0) 0 false) with (state_of p p d [] [] es ss [] 0 false).
  destruct (split_loop_ok stay h (p :: ss.*1 ++ d :: rs) Hd (flat ((p, es) :: ss)) p d mask iHashSrc ltac:(done)
    (S (Z.to_nat m_centryBucket * fuel h)) h p p d 0 rv cR false [] [] [] es false ss [] [] [] rs [] Hi ltac:(done) ltac:(done))
    as (h1 & src & this0 & this1 & av & rv' & f & Kept & L0 & pre & B & Moved & L1 & A & rs' & -> & Ht & HL0 & HL1 & Hi').
  { pose proof (chain_flat_length h None _ Hh Hc) as Hl. rewrite flat_cons, length_app in Hl. cbn [length] in Hl.
    pose proof (chain_length _ _ _ Hc Hdp) as Hs. cbn [length] in Hs. fold C. unfold fuel.
    pose proof C_pos. nia. }
  cbn [mbind option_bind].
  destruct (split_finish_ok stay h (p :: ss.*1 ++ d :: rs) Hd _ p d mask iHashSrc ltac:(done) h1 src this0 this1 av rv' cR f Kept L0 pre B Moved L1 A rs' Hi' HL0 HL1)
    as (h' & Ef & Hok & Hck & Hcm & Hfr & Hbk & Hbl & Hgone). rewrite Ef.
  destruct Hi'. destruct (first_chain Kept this0 L0 p inv_head2) as (es0 & ss0 & E0 & P0).
  destruct (first_chain Moved this1 L1 d inv_head3) as (es1 & ss1 & E1 & P1). rewrite E0 in Hck. rewrite E1 in Hcm.
  assert (Hperm : (p :: ss0.*1) ++ ((if B then [src] else []) ++ A) ++ (d :: ss1.*1) ++ rs' ≡ₚ p :: ss.*1 ++ d :: rs).
  { rewrite <- inv_ptrs0, <- P0, <- P1. cbn [fmap list_fmap app]. rewrite <- !app_assoc. cbn [app].
    apply Permutation_app_head, perm_skip, Permutation_app_head. rewrite (Permutation_app_comm A).  rewrite <- !app_assoc. cbn [app].
    apply Permutation_app_head, perm_skip, Permutation_app_comm. }
  exists h', (if f then Pool rv' cR else POOLUnreserve (Pool rv' cR)), es0, ss0, es1, ss1, rs'.
  refine (conj eq_refl (conj Hok (conj Hck (conj Hcm (conj _ (conj _ (conj _ (conj _ (conj _ (conj _ _)))))))))).
  - by destruct f.
  - rewrite <- E0, <- inv_stayed0, flat_app. unfold flat at 2. cbn. by rewrite app_nil_r.
  - rewrite <- E1, <- inv_left0, flat_app. unfold flat at 2. cbn. by rewrite app_nil_r.
  - rewrite <- Hperm in Hd. rewrite (Permutation_app_comm (_ ++ A)), <- !app_assoc, (app_assoc (d :: ss1.*1)) in Hd.
    change (p :: ss0.*1 ++ d :: ss1.*1 ++ rs') with ((p :: ss0.*1) ++ (d :: ss1.*1) ++ rs').
    rewrite (app_assoc (p :: ss0.*1)) in Hd. by apply list.NoDup_app in Hd as (? & _).
  - destruct Ht as [[-> ->]|(_ & -> & x & ->)]; [left; done|right]. by exists x.
  - by eapply split_touched.
  - eapply split_subset; [|exact Hperm]. done.
Qed.

End DoSplit.
