(* ===== verification/HashMerge.v ===== *)
(** * HashMerge: merging two buckets

    [BKTIDoMerge] appends the buckets after the first one of the source to the
    destination as they are, and copies the entries of the first source bucket to
    the end: into the last destination bucket, then into the last bucket of the
    chain, then into the reserved bucket, of which one is enough. *)

From stdpp Require Import gmap.
From S2P Require Import Prelude HashBucket HashBucketProofs HashBucketOps HashSplit.

Section Merge.
Context {K E : Type} `{KE : CKeyEntry K E} `{L : BucketLayout} `{LO : !LayoutOk}.

(** The source bucket [s] with its entries, the buckets [F] of the destination and
    of the reserve, and the memory at the start. *)
Context (s : Z) (es : list E) (pbs : Z) (F : list Z) (HF : NoDup (s :: F)) (h0 : heap E).

(** What holds throughout the loop: [ps] are the buckets of the destination. *)
Record merge_inv (h : heap E) (rv : Z) (ps rs : list Z) : Prop := {
  mi_heap : heap_ok h;
  mi_src : holds h s None pbs es;
  mi_pool : free_list h rv rs;
  mi_ptrs : ps ++ rs ≡ₚ F;
  mi_frame : blocks h = blocks h0 /\ forall q, q ∉ s :: F -> buckets h !! q = buckets h0 !! q }.

Lemma merge_upd h rv ps rs x b : merge_inv h rv ps rs -> x ∈ ps -> heap_ok (upd h x b) -> merge_inv (upd h x b) rv ps rs.
Proof.
  intros [] Hx Hok. assert (HxF : x ∈ F) by (rewrite <- mi_ptrs0; apply elem_of_app; by left).
  assert (Hd : NoDup (ps ++ rs)) by (apply list.NoDup_cons in HF as [_ HF']; by rewrite mi_ptrs0).
  assert (Hs : x <> s) by (intros ->; by apply list.NoDup_cons in HF as [? _]).
  assert (Hr : x ∉ rs) by (apply list.NoDup_app in Hd as (_ & Hd & _); by apply Hd).
  split; [done|by apply holds_upd_ne|by apply free_list_upd|done|].
  destruct mi_frame0 as [H1 H2]. split; [done|]. intros q Hq. cbn. rewrite lookup_insert_ne; [by apply H2|].
  intros ->. apply Hq. by right.
Qed.

(** The destination while its last bucket [y] is written: its word is set at the
    end. *)
Record open_chain (h : heap E) (Q : segments E) (y : Z) (ys : list E) : Prop := {
  oc_front : lseg h None Q y;
  oc_last : exists pb, holds h y (back None Q) pb ys;
  oc_blocks : back None Q = None \/ blocks h !! y = Some 1%nat }.

Lemma ptrs_last (Q : segments E) y (ys : list E) : (Q ++ [(y, ys)]).*1 = Q.*1 ++ [y].
Proof. by rewrite fmap_app. Qed.

Lemma merge_nodup h rv ps rs : merge_inv h rv ps rs -> NoDup (s :: ps ++ rs).
Proof. intros []. rewrite mi_ptrs0. done. Qed.

(** One entry is appended. *)
Lemma open_append h rv Q y ys rs e : merge_inv h rv (Q.*1 ++ [y]) rs -> open_chain h Q y ys -> (length ys < C)%nat ->
  exists b, wr_entry h y (rgEntry y (Z.of_nat (length ys))) e = Some (upd h y b) /\
    merge_inv (upd h y b) rv (Q.*1 ++ [y]) rs /\ open_chain (upd h y b) Q y (ys ++ [e]).
Proof.
  intros Hm [Hq [pb Hy] Hb] Hl. pose proof (merge_nodup _ _ _ _ Hm) as Hd.
  destruct (wr_entry_next h y _ _ ys _ e (mi_heap _ _ _ _ Hm) Hy eq_refl Hl) as (b & Ew & Hok & Hy').
  exists b. split; [done|]. split; [apply merge_upd; [done| |done]; apply elem_of_app; right; left|].
  split; [|by exists pb|done]. apply lseg_upd; [|done].
  apply list.NoDup_cons in Hd as [_ Hd]. apply list.NoDup_app in Hd as (Hd & _). apply list.NoDup_app in Hd as (_ & Hd & _).
  intros Hin. apply (Hd y Hin). left.
Qed.

(** The reserved bucket becomes the last one. *)
Lemma open_extend h rv Q y ys x rs : merge_inv h rv (Q.*1 ++ [y]) (x :: rs) -> open_chain h Q y ys -> length ys = C ->
  exists h' rv', rd_pb h x = Some rv' /\ (h1 ← wr_pb h y x; wr_prev h1 x y) = Some h' /\
    merge_inv h' rv' ((Q ++ [(y, ys)]).*1 ++ [x]) rs /\ open_chain h' (Q ++ [(y, ys)]) x [].
Proof.
  intros Hm [Hq [pb Hy] Hb] Hl. pose proof (merge_nodup _ _ _ _ Hm) as Hd. apply list.NoDup_cons in Hd as [Hsn Hd].
  assert (Hsx : x <> s) by (intros ->; apply Hsn; in_list). assert (Hsy : y <> s) by (intros ->; apply Hsn; in_list). clear Hsn.
  pose proof (mi_pool _ _ _ _ Hm) as (-> & prevx & pbx & Hx & Hbx & Hrs).
  apply list.NoDup_app in Hd as (Hd & Hd1 & [Hxn Hd2]%list.NoDup_cons).
  assert (Hyx : y <> x) by (intros ->; apply (Hd1 x); [apply elem_of_app; right; left|left]).
  assert (Hyr : y ∉ rs) by (intros Hin; apply (Hd1 y); [apply elem_of_app; right; left|by right]).
  assert (HxQ : x ∉ Q.*1) by (intros Hin; apply (Hd1 x); [apply elem_of_app; by left|left]).
  assert (HyQ : y ∉ Q.*1) by (apply list.NoDup_app in Hd as (_ & Hd & _); intros Hin; apply (Hd y Hin); left).
  destruct (wr_pb_spec h y _ _ x ys (mi_heap _ _ _ _ Hm) Hy) as (b1 & -> & Hok1 & Hy1). cbn [mbind option_bind].
  destruct (wr_prev_spec (upd h y b1) x prevx pbx y [] Hok1) as (b2 & -> & Hok2 & Hx2); [by apply holds_upd_ne|].
  exists (upd (upd h y b1) x b2), pbx. split; [by apply (rd_pb_holds _ _ _ _ _ Hx)|]. split; [done|]. split.
  - destruct Hm. split; [done| | | |].
    + apply holds_upd_ne; [done|]. by apply holds_upd_ne.
    + by apply free_list_upd, free_list_upd.
    + rewrite ptrs_last, <- app_assoc. done.
    + destruct mi_frame0 as [Hb0 H2]. split; [done|]. intros q HqF. cbn.
      assert (HqF' : q ∉ F) by (by apply not_elem_of_cons in HqF as [_ ?]).
      rewrite !lookup_insert_ne; [by apply H2| |]; intros ->; apply HqF'; rewrite <- mi_ptrs0; in_list.
  - split.
    + eapply lseg_snoc; [by apply lseg_upd, lseg_upd|by apply holds_upd_ne|done|done|done].
    + rewrite back_snoc. by exists pbx.
    + by right.
Qed.

(** ** The loop *)

Lemma src_entry h rv ps rs pre e R : merge_inv h rv ps rs -> es = pre ++ e :: R ->
  rd_entry h s (rgEntry s (Z.of_nat (length pre))) = Some e.
Proof.
  intros [] Ees. eapply rd_entry_holds; [done|]. by rewrite Ees, lookup_app_r, Nat.sub_diag by lia.
Qed.

Lemma src_len h rv ps rs : merge_inv h rv ps rs -> (length es <= C)%nat.
Proof. intros []. by eapply holds_len. Qed.

(** At the end of the chain. *)
Lemma merge_tail n h rv cR f Q y ys pre R rs : merge_inv h rv (Q.*1 ++ [y]) rs -> open_chain h Q y ys -> es = pre ++ R ->
  (length R < n)%nat -> (f = false -> rs <> []) -> (f = true -> length ys + length R <= C)%nat ->
  exists h' rv' f' Q' y' ys' rs',
    merge_loop n h (Pool rv cR) (Merge y (rgEntry s (Z.of_nat (length pre))) (rgEntry y (Z.of_nat (length ys))) (rgEntry y m_centryBucket) true f)
      s (rgEntry s (Z.of_nat (length es))) =
    Some (h', Pool rv' cR, Merge y' (rgEntry s (Z.of_nat (length es))) (rgEntry y' (Z.of_nat (length ys'))) (rgEntry y' m_centryBucket) true f') /\
    merge_inv h' rv' (Q'.*1 ++ [y']) rs' /\ open_chain h' Q' y' ys' /\ flat Q' ++ ys' = flat Q ++ ys ++ R /\ took f f' rs rs' /\
    first_ptr Q' y' = first_ptr Q y /\ (ys' = [] -> ys = [] /\ R = []).
Proof.
  revert h rv f Q y ys pre R rs. induction n as [|n IH]; intros h rv f Q y ys pre R rs Hm Ho Ees Hn Hf Hf'; [lia|]. cbn [merge_loop].
  cbn [mEntryThisSrc mEntryThisDst mEntryMostDst mBucketDst mBucketFromHeap fSetEndPtr]. destruct R as [|e R].
  - rewrite Ees, app_nil_r, Z.ltb_irrefl. eexists h, rv, f, Q, y, ys, rs. split; [done|]. split; [done|]. split; [done|].
    rewrite app_nil_r. split_and!; [done|by left|done|done].
  - rewrite (proj2 (Z.ltb_lt _ _)) by (apply rgEntry_lt; rewrite Ees, length_app; cbn [length]; lia).
    assert (Ees' : es = (pre ++ [e]) ++ R) by (by rewrite <- app_assoc).
    assert (Epre : rgEntry s (Z.of_nat (length pre)) + cbEntry = rgEntry s (Z.of_nat (length (pre ++ [e])))).
    { rewrite rgEntry_succ, length_app. cbn [length]. f_equal. lia. }
    assert (Hys : (length ys <= C)%nat) by (destruct (oc_last _ _ _ _ Ho) as [pb Hy]; by eapply holds_len, Hy; apply Hm).
    pose proof C_Z as HC. pose proof (src_len _ _ _ _ Hm) as Hes. rewrite Ees, length_app in Hes. cbn [length] in Hes, Hn, Hf'.
    destruct (Z.ltb_spec (rgEntry y (Z.of_nat (length ys))) (rgEntry y m_centryBucket)) as [Hlt|Hge].
    + apply (proj1 (rgEntry_lt _ _ _)) in Hlt. rewrite (src_entry _ _ _ _ _ _ _ Hm Ees). cbn [mbind option_bind].
      destruct (open_append _ _ _ _ _ _ e Hm Ho ltac:(lia)) as (b & -> & Hm' & Ho'). cbn [mbind option_bind]. rewrite Epre.
      replace (rgEntry y (Z.of_nat (length ys)) + cbEntry) with (rgEntry y (Z.of_nat (length (ys ++ [e]))))
        by (rewrite rgEntry_succ, length_app; cbn [length]; f_equal; lia).
      destruct (IH _ _ f _ _ _ _ _ _ Hm' Ho' Ees') as (h' & rv' & f' & Q' & y' & ys' & rs' & -> & ? & ? & Efl & ? & ? & Hlast);
        [lia|done|intros ->; rewrite length_app; cbn [length]; specialize (Hf' eq_refl); lia|].
      eexists h', rv', f', Q', y', ys', rs'. split; [done|]. split; [done|]. split; [done|]. split_and!; [|done|done|intros Hy'; destruct (Hlast Hy'); by destruct ys].
      rewrite Efl. by rewrite <- !app_assoc.
    + apply (proj1 (rgEntry_le _ _ _)) in Hge. assert (Hfull : length ys = C) by lia.
      destruct f; [specialize (Hf' eq_refl); lia|]. specialize (Hf eq_refl). destruct rs as [|x rs]; [done|]. cbn [negb DHTAssert mbind option_bind].
      destruct (open_extend _ _ _ _ _ _ _ Hm Ho Hfull) as (h1 & rv1 & Erd & Ew & Hm1 & Ho1).
      pose proof (mi_pool _ _ _ _ Hm) as (-> & prevx & pbx & Hx & _). pose proof (holds_pos _ _ _ _ _ (mi_heap _ _ _ _ Hm) Hx).
      unfold PbucketPOOLCommit. cbn [m_pReserve m_cReserve]. rewrite !(proj2 (Z.eqb_neq x 0)) by lia. cbn [negb DHTAssert mbind option_bind].
      rewrite Erd. cbn [mbind option_bind]. rewrite (proj2 (Z.eqb_neq x 0)) by lia. cbn [negb DHTAssert mbind option_bind].
      destruct (wr_pb h y x) as [h2|]; [|done]. cbn [mbind option_bind] in Ew |- *. rewrite Ew. cbn [mbind option_bind].
      rewrite (src_entry _ _ _ _ _ _ _ Hm1 Ees). cbn [mbind option_bind].
      destruct (open_append _ _ _ _ _ _ e Hm1 Ho1 C_pos) as (b & Ew' & Hm' & Ho'). cbn [length app] in Ew', Ho'.
      change (Z.of_nat 0) with 0 in Ew'. rewrite Ew'. cbn [mbind option_bind]. rewrite Epre.
      replace (rgEntry x 0 + cbEntry) with (rgEntry x (Z.of_nat (length [e]))) by (by rewrite rgEntry_succ).
      destruct (IH _ _ true _ _ _ _ _ _ Hm' Ho' Ees') as (h' & rv' & f' & Q' & y' & ys' & rs' & -> & ? & ? & Efl & Ht & Hfp & Hlast);
        [lia|done|cbn [length]; lia|].
      eexists h', rv', f', Q', y', ys', rs'. split; [done|]. split; [done|]. split; [done|]. split_and!; [| |by rewrite Hfp, first_snoc|intros Hy'; by destruct (Hlast Hy')].
      * rewrite Efl, flat_app. unfold flat at 2. cbn. by rewrite app_nil_r, <- !app_assoc.
      * eapply took_trans; [|exact Ht]. right. split_and!; [done..|]. by exists x.
Qed.

(** What the loop leaves: the destination with the entries [Dd], whose last word is
    still to be set when [fSetEndPtr] holds. *)
Definition merged (h : heap E) (m : merge) (Dd : segments E) : Prop :=
  if fSetEndPtr m then exists Q y ys, Dd = Q ++ [(y, ys)] /\ open_chain h Q y ys /\ ys <> [] /\
    mBucketDst m = y /\ mEntryThisDst m = rgEntry y (Z.of_nat (length ys))
  else chain h None Dd.

(** While the last destination bucket of before, [z], is filled: the buckets of the
    source already follow it. *)
Lemma merge_front n h rv cR Q z zs pre R u us ss rs : merge_inv h rv (Q.*1 ++ z :: u :: ss.*1) rs ->
  lseg h None Q z -> holds h z (back None Q) u zs -> (back None Q = None \/ blocks h !! z = Some 1%nat) ->
  chain h (Some z) ((u, us) :: ss) -> es = pre ++ R -> length es = C -> (length pre <= length zs)%nat ->
  (S (length R) < n)%nat -> rs <> [] ->
  exists h' rv' m' rs' Dd,
    merge_loop n h (Pool rv cR) (Merge z (rgEntry s (Z.of_nat (length pre))) (rgEntry z (Z.of_nat (length zs))) (rgEntry z m_centryBucket) false false)
      s (rgEntry s (Z.of_nat (length es))) = Some (h', Pool rv' cR, m') /\
    merge_inv h' rv' Dd.*1 rs' /\ merged h' m' Dd /\ flat Dd ≡ₚ flat Q ++ zs ++ R ++ flat ((u, us) :: ss) /\
    took false (mBucketFromHeap m') rs rs' /\ hd_ptr Dd = first_ptr Q z.
Proof.
  revert h rv zs pre R. induction n as [|n IH]; intros h rv zs pre R Hm Hq Hz Hb Hc Ees Hes Hpre Hn Hrs; [lia|]. cbn [merge_loop].
  cbn [mEntryThisSrc mEntryThisDst mEntryMostDst mBucketDst mBucketFromHeap fSetEndPtr].
  pose proof (merge_nodup _ _ _ _ Hm) as Hd. apply list.NoDup_cons in Hd as [_ Hd].
  apply list.NoDup_app in Hd as (Hd & Hdr & _). pose proof Hd as Hd0. apply list.NoDup_app in Hd as (_ & HdQ & [Hzn Hdu]%list.NoDup_cons).
  pose proof (holds_len _ _ _ _ _ (mi_heap _ _ _ _ Hm) Hz) as Hzl. pose proof C_Z as HC.
  destruct R as [|e R].
  - rewrite Ees, app_nil_r, Z.ltb_irrefl. rewrite app_nil_r in Ees. subst pre.
    assert (Hzs : length zs = C) by lia.
    assert (Hcd : chain h None (Q ++ (z, zs) :: (u, us) :: ss)).
    { apply chain_app; [done|]. cbn [hd_ptr]. split; [done|]. cbn [chain]. split; [done|]. split; [done|]. split; [|done].
      destruct Hb as [|Hb]; [by left|right]. split; [|done]. intros ->. pose proof C_pos. cbn in Hzs. lia. }
    eexists h, rv, _, rs, (Q ++ (z, zs) :: (u, us) :: ss). split; [done|]. split; [rewrite fmap_app; done|]. split; [exact Hcd|].
    split_and!; [by rewrite flat_app|by left|]. destruct Q as [|[? ?] ?]; done.
  - rewrite (proj2 (Z.ltb_lt _ _)) by (apply rgEntry_lt; rewrite Ees, length_app; cbn [length]; lia).
    assert (Ees' : es = (pre ++ [e]) ++ R) by (by rewrite <- app_assoc). cbn [length] in Hn.
    destruct (Z.ltb_spec (rgEntry z (Z.of_nat (length zs))) (rgEntry z m_centryBucket)) as [Hlt|Hge].
    + apply (proj1 (rgEntry_lt _ _ _)) in Hlt. rewrite (src_entry _ _ _ _ _ _ _ Hm Ees). cbn [mbind option_bind].
      destruct (wr_entry_next h z _ _ zs _ e (mi_heap _ _ _ _ Hm) Hz eq_refl ltac:(lia)) as (b & -> & Hok & Hz'). cbn [mbind option_bind].
      replace (rgEntry s (Z.of_nat (length pre)) + cbEntry) with (rgEntry s (Z.of_nat (length (pre ++ [e]))))
        by (rewrite rgEntry_succ, length_app; cbn [length]; f_equal; lia).
      replace (rgEntry z (Z.of_nat (length zs)) + cbEntry) with (rgEntry z (Z.of_nat (length (zs ++ [e]))))
        by (rewrite rgEntry_succ, length_app; cbn [length]; f_equal; lia).
      destruct (IH (upd h z b) rv (zs ++ [e]) (pre ++ [e]) R) as (h' & rv' & m' & rs' & Dd & -> & ? & ? & Efl & ? & ?).
      * apply merge_upd; [done|in_list|done].
      * apply lseg_upd; [|done]. intros Hin. apply (HdQ z Hin). left.
      * done.
      * done.
      * by apply chain_upd.
      * done.
      * done.
      * rewrite !length_app. cbn. lia.
      * lia.
      * done.
      * eexists h', rv', m', rs', Dd. split; [done|]. split; [done|]. split; [done|]. split_and!; [|done|done].
        rewrite Efl. by rewrite <- !app_assoc.
    + apply (proj1 (rgEntry_le _ _ _)) in Hge. assert (Hzs : length zs = C) by lia. cbn [negb].
      pose proof (chain_holds _ _ _ _ _ Hc) as Hu. pose proof (mi_heap _ _ _ _ Hm) as Hh.
      assert (Hzu : z <> u) by (intros ->; apply Hzn; left).
      rewrite (Next_link h z _ u _ _ _ Hh Hz Hu Hzu). cbn [mbind option_bind]. pose proof (holds_pos _ _ _ _ _ Hh Hu).
      rewrite (proj2 (Z.eqb_neq u 0)) by lia. cbn [negb DHTAssert mbind option_bind].
      destruct (chain_last u us ss) as (s0 & y & ys & El).
      rewrite (last_bucket_ok h (Some z) u us ss y ys Hh Hc Hdu) by (by rewrite El, last_snoc). cbn [mbind option_bind].
      rewrite El in Hc. pose proof (chain_bucket _ _ _ _ _ _ Hc) as [Hcy Hy]. cbn [link_pb] in Hy.
      assert (Hys : ys <> []). { destruct Hcy as (_ & _ & [Hn0|[? _]] & _); [|done]. unfold back in Hn0. destruct (list.last s0) as [[? ?]|]; done. }
      rewrite (rd_pb_holds _ _ _ _ _ Hy). cbn [mbind option_bind].
      replace (end_pb y ys + cbEntry) with (rgEntry y (Z.of_nat (length ys)))
        by (unfold end_pb; destruct ys; [done|]; rewrite rgEntry_succ; f_equal; lia).
      apply chain_app in Hc as [Hs0 _]; [|done]. cbn [hd_ptr] in Hs0.
      assert (HQ' : lseg h None (Q ++ (z, zs) :: s0) y).
      { assert (Hzn' : holds h z (back None Q) (match s0 with [] => y | _ => hd_ptr s0 end) zs).
        { destruct s0 as [|[u' us'] s0]; cbn in El; simplify_eq; done. }
        apply lseg_append. split; [done|]. cbn [lseg]. done. }
      assert (Hback : back None (Q ++ (z, zs) :: s0) = back (Some z) s0).
      { unfold back. rewrite last_app, last_cons. by destruct (list.last s0) as [[? ?]|]. }
      assert (Eptr : Q.*1 ++ z :: u :: ss.*1 = (Q ++ (z, zs) :: s0).*1 ++ [y]).
      { change (u :: ss.*1) with (((u, us) :: ss).*1). rewrite El, !fmap_app, fmap_cons. by rewrite <- app_assoc. }
      rewrite Eptr in Hm.
      destruct (merge_tail n h rv cR false (Q ++ (z, zs) :: s0) y ys pre (e :: R) rs Hm) as (h' & rv' & f' & Q' & y' & ys' & rs' & -> & Hm' & Ho' & Efl & Ht & Hfp & Hne).
      * split; [done| |].
        -- rewrite Hback. by eexists.
        -- right. destruct Hcy as (_ & _ & [Hn0|[_ ?]] & _); [|done]. unfold back in Hn0. destruct (list.last s0) as [[? ?]|]; done.
      * done.
      * cbn [length]. lia.
      * done.
      * done.
      * eexists h', rv', _, rs', (Q' ++ [(y', ys')]). split; [done|]. split; [by rewrite ptrs_last|]. split.
        { exists Q', y', ys'. split; [done|]. split; [done|]. split; [|done]. intros Hy'. by destruct (Hne Hy'). }
        split_and!.
        -- rewrite flat_app. unfold flat at 2. cbn [fmap list_fmap concat snd]. rewrite app_nil_r, Efl, El.
           rewrite flat_app, flat_cons, flat_app. unfold flat at 4. cbn. rewrite app_nil_r, <- !app_assoc.
           apply Permutation_app_head, Permutation_app_head. change (e :: R ++ flat s0 ++ ys) with ((e :: R) ++ flat s0 ++ ys).
           rewrite (app_assoc (flat s0) ys). apply Permutation_app_comm.
        -- done.
        -- destruct Q' as [|[? ?] ?]; cbn in *; rewrite Hfp; by destruct Q as [|[? ?] ?].
Qed.

(** ** After the loop *)

Lemma merge_end h rv m Dd rs : merge_inv h rv Dd.*1 rs -> merged h m Dd ->
  exists h', (h1 ← wr_pb h s 0;
      if fSetEndPtr m then
        _ ← DHTAssert (negb (mEntryThisDst m =? rgEntry (mBucketDst m) 0)); wr_pb h1 (mBucketDst m) (mEntryThisDst m - cbEntry)
      else Some h1) = Some h' /\
    heap_ok h' /\ chain h' None Dd /\ chain h' None [(s, [])] /\ free_list h' rv rs /\
    blocks h' = blocks h0 /\ (forall q, q ∉ s :: F -> buckets h' !! q = buckets h0 !! q).
Proof.
  intros Hm Hd. pose proof (merge_nodup _ _ _ _ Hm) as Hnd. apply list.NoDup_cons in Hnd as [Hs Hnd]. rewrite not_elem_of_app in Hs. destruct Hs as [HsD Hsr].
  pose proof Hm as [Hok Hsrc Hrv Hptr [Hbl Hfr]].
  destruct (wr_pb_spec h s _ _ 0 es Hok Hsrc) as (b & -> & Hok1 & Hs1). cbn [mbind option_bind].
  assert (Hs1' : chain (upd h s b) None [(s, [])]).
  { cbn [chain link_pb end_pb]. split; [by apply (holds_prefix _ _ _ _ [] es)|]. split; [done|]. split; [by left|done]. }
  assert (Hfr1 : forall q, q ∉ s :: F -> buckets (upd h s b) !! q = buckets h0 !! q).
  { intros q Hq. cbn. rewrite lookup_insert_ne; [by apply Hfr|]. intros ->. apply Hq. left. }
  unfold merged in Hd. destruct (fSetEndPtr m).
  - destruct Hd as (Q & y & ys & -> & [Hq [pb Hy] Hb] & Hne & -> & ->). rewrite ptrs_last in *. rewrite not_elem_of_app, not_elem_of_cons in HsD.
    destruct HsD as (HsQ & Hsy & _). destruct (Z.eqb_spec (rgEntry y (Z.of_nat (length ys))) (rgEntry y 0)) as [Heq|_].
    { apply (proj1 (rgEntry_eq _ _ _)) in Heq. destruct ys; [done|]. cbn in Heq. lia. }
    cbn [negb DHTAssert mbind option_bind].
    destruct (wr_pb_spec (upd h s b) y (back None Q) pb (rgEntry y (Z.of_nat (length ys)) - cbEntry) ys Hok1) as (b' & -> & Hok2 & Hy2); [by apply holds_upd_ne|].
    apply list.NoDup_app in Hnd as (Hnd & Hndr & _). apply list.NoDup_app in Hnd as (_ & HndQ & _).
    assert (HyQ : y ∉ Q.*1) by (intros Hin; apply (HndQ y Hin); left).
    assert (Hyr : y ∉ rs) by (apply Hndr; in_list).
    eexists. split; [done|]. split; [done|]. split_and!.
    + apply chain_app; [done|]. cbn [hd_ptr]. split; [by apply lseg_upd, lseg_upd|]. cbn [chain link_pb]. split; [|split; [done|split; [|done]]].
      * replace (end_pb y ys) with (rgEntry y (Z.of_nat (length ys)) - cbEntry); [done|].
        rewrite rgEntry_pred. unfold end_pb. by destruct ys.
      * destruct Hb; [by left|by right].
    + apply chain_upd; [set_solver|done].
    + by apply free_list_upd, free_list_upd.
    + done.
    + intros q Hq'. cbn. rewrite lookup_insert_ne; [by apply Hfr1|]. intros ->. apply Hq'. right. rewrite <- Hptr. in_list.
  - eexists. split; [done|]. split; [done|]. split_and!; [by apply chain_upd|done|by apply free_list_upd|done|done].
Qed.

End Merge.

(** ** The whole merge *)

Section DoMerge.
Context {K E : Type} `{KE : CKeyEntry K E} `{L : BucketLayout} `{LO : !LayoutOk}.

(** Nothing is released: the buckets of the source and the reserve become those of
    the destination. *)
Lemma merge_touched (h h' : heap E) s d old new F : F ≡ₚ d :: old -> F ≡ₚ d :: new -> blocks h' = blocks h ->
  (forall q, q ∉ s :: F -> buckets h' !! q = buckets h !! q) -> touched h h' [s; d] old new.
Proof.
  intros Ho Hn Hb Hq. split.
  - intros q Hqn. apply Hq. rewrite Ho, !not_elem_of_cons. rewrite !not_elem_of_app, !not_elem_of_cons in Hqn. tauto.
  - intros q _. by rewrite Hb.
  - intros q Hq1 Hq2. destruct Hq2. assert (Hp : old ≡ₚ new) by (apply (Permutation_cons_inv (a := d)); by rewrite <- Ho). by rewrite <- Hp.
Qed.

Lemma BKTIDoMerge_ok (h : heap E) pool s es ss d fs ds rs : heap_ok h -> chain h None ((s, es) :: ss) -> chain h None ((d, fs) :: ds) ->
  free_list h (m_pReserve pool) rs -> rs <> [] -> NoDup (s :: ss.*1 ++ d :: ds.*1 ++ rs) ->
  exists h' pool' fs' ds' rs', BKTIDoMerge h pool s d = Some (h', pool') /\ heap_ok h' /\
    chain h' None [(s, [])] /\ chain h' None ((d, fs') :: ds') /\ free_list h' (m_pReserve pool') rs' /\
    flat ((d, fs') :: ds') ≡ₚ flat ((d, fs) :: ds) ++ flat ((s, es) :: ss) /\ NoDup (s :: d :: ds'.*1 ++ rs') /\
    ((rs' = rs /\ m_cReserve pool' = s32 (m_cReserve pool + 1)) \/ (exists x, rs = x :: rs' /\ m_cReserve pool' = m_cReserve pool)) /\
    touched h h' [s; d] (ss.*1 ++ ds.*1 ++ rs) (ds'.*1 ++ rs') /\ ds'.*1 ++ rs' ⊆ ss.*1 ++ ds.*1 ++ rs.
Proof.
  intros Hh Hcs Hcd Hf Hrs Hnd. destruct pool as [rv cR]. cbn [m_pReserve m_cReserve] in *.
  set (F := d :: ss.*1 ++ ds.*1 ++ rs).
  assert (HF : NoDup (s :: F)). { unfold F. rewrite Permutation_middle. done. }
  assert (Hds : NoDup (d :: ds.*1)).
  { apply list.NoDup_cons in Hnd as [_ Hnd]. apply list.NoDup_app in Hnd as (_ & _ & Hnd).
    change (d :: ds.*1 ++ rs) with ((d :: ds.*1) ++ rs) in Hnd. by apply list.NoDup_app in Hnd as (? & _). }
  assert (Hss : NoDup (s :: ss.*1)).
  { change (s :: ss.*1 ++ d :: ds.*1 ++ rs) with ((s :: ss.*1) ++ d :: ds.*1 ++ rs) in Hnd. by apply list.NoDup_app in Hnd as (? & _). }
  pose proof (chain_holds _ _ _ _ _ Hcs) as Hs. destruct (chain_last d fs ds) as (Q & z & zs & El).
  unfold BKTIDoMerge. rewrite (last_bucket_ok h None d fs ds z zs Hh Hcd Hds) by (by rewrite El, last_snoc). cbn [mbind option_bind].
  pose proof Hcd as Hcd0. rewrite El in Hcd0. pose proof (chain_bucket _ _ _ _ _ _ Hcd0) as [Hcz Hz]. cbn [link_pb] in Hz.
  rewrite (NextMost_end _ _ _ _ Hh Hz). cbn [mbind option_bind]. rewrite (chain_Next _ _ _ _ _ Hh Hcs Hss). cbn [mbind option_bind].
  assert (HptrD : d :: ds.*1 = Q.*1 ++ [z]) by (change (d :: ds.*1) with (((d, fs) :: ds).*1); by rewrite El, fmap_app).
  assert (Hfirst : first_ptr Q z = d) by (destruct Q as [|[? ?] ?]; cbn in El; by simplify_eq).
  pose proof (chain_app h None Q [(z, zs)] ltac:(done)) as Happ. apply Happ in Hcd0 as [HQ _]. cbn [hd_ptr] in HQ. clear Happ.
  assert (HflD : flat ((d, fs) :: ds) = flat Q ++ zs) by (rewrite El, flat_app; unfold flat at 2; cbn; by rewrite app_nil_r).
  assert (Hbz : back None Q = None \/ blocks h !! z = Some 1%nat) by (destruct Hcz as (_ & _ & [?|[_ ?]] & _); tauto).
  (* what the loop has to give *)
  assert (Hfin : forall h1 rv' m' rs' Dd pool1, merge_inv s es (link_pb s es ss) F h h1 rv' Dd.*1 rs' -> merged h1 m' Dd -> hd_ptr Dd = d ->
      flat Dd ≡ₚ flat ((d, fs) :: ds) ++ flat ((s, es) :: ss) -> took false (mBucketFromHeap m') rs rs' -> pool1 = Pool rv' cR ->
      exists h' pool' fs' ds' rs'',
        (h2 ← wr_pb h1 s 0; h2 ← (if fSetEndPtr m' then
           _ ← DHTAssert (negb (mEntryThisDst m' =? rgEntry (mBucketDst m') 0)); wr_pb h2 (mBucketDst m') (mEntryThisDst m' - cbEntry) else Some h2);
         Some (h2, if mBucketFromHeap m' then pool1 else POOLUnreserve pool1)) = Some (h', pool') /\ heap_ok h' /\
        chain h' None [(s, [])] /\ chain h' None ((d, fs') :: ds') /\ free_list h' (m_pReserve pool') rs'' /\
        flat ((d, fs') :: ds') ≡ₚ flat ((d, fs) :: ds) ++ flat ((s, es) :: ss) /\ NoDup (s :: d :: ds'.*1 ++ rs'') /\
        ((rs'' = rs /\ m_cReserve pool' = s32 (cR + 1)) \/ (exists x, rs = x :: rs'' /\ m_cReserve pool' = cR)) /\
        touched h h' [s; d] (ss.*1 ++ ds.*1 ++ rs) (ds'.*1 ++ rs'') /\ ds'.*1 ++ rs'' ⊆ ss.*1 ++ ds.*1 ++ rs).
  { intros h1 rv' m' rs' Dd pool1 Hm Hmd Hhd Hfl Ht ->. destruct (merge_end s es (link_pb s es ss) F HF h h1 rv' m' Dd rs' Hm Hmd) as (h' & Ee & Hok' & HcD & Hc0 & Hrv' & Hbl' & Hfr').
    destruct (wr_pb h1 s 0) as [h2|]; [|done]. cbn [mbind option_bind] in Ee |- *. rewrite Ee. cbn [mbind option_bind].
    assert (HDne : Dd <> []).
    { intros ->. pose proof (holds_pos _ _ _ _ _ Hh (chain_holds _ _ _ _ _ Hcd)). cbn in Hhd. lia. }
    destruct Dd as [|[d' fs'] ds']; [done|]. cbn in Hhd. subst d'. pose proof (mi_ptrs _ _ _ _ _ _ _ _ _ Hm) as Hptr. cbn in Hptr.
    eexists h', _, fs', ds', rs'. split; [done|]. refine (conj Hok' (conj Hc0 (conj HcD (conj _ (conj Hfl (conj _ (conj _ (conj _ _)))))))).
    - by destruct (mBucketFromHeap m').
    - rewrite <- Hptr in HF. done.
    - destruct Ht as [[-> ->]|(_ & -> & x & ->)]; [left; done|right]. by exists x.
    - apply (merge_touched h h' s d _ _ F); [done|symmetry; exact Hptr|done|done].
    - apply (Permutation_cons_inv (a := d)) in Hptr. intros w Hw. by rewrite <- Hptr. }
  assert (Hbase : merge_inv s es (link_pb s es ss) F h h rv (d :: ds.*1 ++ ss.*1) rs).
  { split; [done|done|done| |done]. unfold F. cbn. apply perm_skip. rewrite (Permutation_app_comm ds.*1), <- app_assoc. done. }
  destruct ss as [|[u us] ss].
  - rewrite app_nil_r in Hbase. assert (Hm0 : merge_inv s es (link_pb s es []) F h h rv (Q.*1 ++ [z]) rs) by (by rewrite <- HptrD).
    rewrite (chain_NextMost _ _ _ _ _ Hh Hcs Hss). cbn [hd_ptr Z.eqb mbind option_bind]. destruct es as [|e es].
    + rewrite Z.ltb_irrefl. cbn [merge_loop mEntryThisSrc length]. change (Z.of_nat 0) with 0. rewrite Z.ltb_irrefl. cbn [mbind option_bind].
      apply (Hfin h rv _ rs ((d, fs) :: ds)); [done|exact Hcd|done|unfold flat at 3; cbn; by rewrite app_nil_r|by left|done].
    + rewrite (proj2 (Z.ltb_lt _ _)) by (apply rgEntry_lt; cbn [length]; lia).
      destruct (merge_tail s (e :: es) (link_pb s (e :: es) []) F HF h (S (S (Z.to_nat m_centryBucket))) h rv cR false Q z zs [] (e :: es) rs Hm0)
        as (h1 & rv1 & f1 & Q1 & y1 & ys1 & rs1 & E1 & Hm1 & Ho1 & Efl & Ht & Hfp & Hne).
      { split; [done|by eexists|done]. }
      { done. }
      { pose proof (holds_len _ _ _ _ _ Hh Hs). unfold C in *. lia. }
      { done. }
      { done. }
      change (Z.of_nat (length (@nil E))) with 0 in E1. rewrite E1. cbn [mbind option_bind].
      apply (Hfin h1 rv1 _ rs1 (Q1 ++ [(y1, ys1)])); [by rewrite ptrs_last| | | |done|done].
      * exists Q1, y1, ys1. split; [done|]. split; [done|]. split; [intros Hy; by destruct (Hne Hy)|done].
      * rewrite <- Hfirst, <- Hfp. by destruct Q1 as [|[? ?] ?].
      * rewrite flat_app. unfold flat at 2. cbn [fmap list_fmap concat snd]. rewrite app_nil_r, Efl, HflD. unfold flat at 3. cbn. by rewrite app_nil_r, <- app_assoc.
  - destruct Hcs as (_ & Hfull & _ & Hcu). specialize (Hfull ltac:(done)). pose proof (chain_holds _ _ _ _ _ Hcu) as Hu.
    cbn [hd_ptr]. pose proof (holds_pos _ _ _ _ _ Hh Hu). rewrite (proj2 (Z.eqb_neq u 0)) by lia.
    rewrite (rd_pb_holds _ _ _ _ _ Hs). cbn [link_pb hd_ptr mbind option_bind].
    destruct (wr_pb_spec h z _ _ u zs Hh Hz) as (b1 & -> & Hok1 & Hz1). cbn [mbind option_bind].
    assert (Hd1 : NoDup (s :: (d :: ds.*1 ++ u :: ss.*1) ++ rs)).
    { rewrite (mi_ptrs _ _ _ _ _ _ _ _ _ Hbase). done. }
    assert (Ez : d :: ds.*1 ++ u :: ss.*1 = Q.*1 ++ z :: u :: ss.*1) by (rewrite app_comm_cons, HptrD, <- app_assoc; done).
    cbn [fmap list_fmap fst] in Hbase. rewrite Ez in Hbase, Hd1. pose proof Hd1 as Hd2. apply list.NoDup_cons in Hd2 as [_ Hd2].
    apply list.NoDup_app in Hd2 as (Hd2 & _). apply list.NoDup_app in Hd2 as (_ & HdQ & [Hzn Hdu]%list.NoDup_cons).
    apply not_elem_of_cons in Hzn as [Hzu Hzs]. apply list.NoDup_cons in Hdu as [Hus _].
    destruct (wr_prev_spec (upd h z b1) u s (link_pb u us ss) z us Hok1) as (b2 & -> & Hok2 & Hu2); [by apply holds_upd_ne|]. cbn [mbind option_bind].
    set (h1 := upd (upd h z b1) u b2) in *.
    assert (Hm1 : merge_inv s es (link_pb s es ((u, us) :: ss)) F h h1 rv (Q.*1 ++ z :: u :: ss.*1) rs).
    { apply merge_upd; [done|apply merge_upd; [done|done|in_list|done]|in_list|done]. }
    destruct (merge_front s es (link_pb s es ((u, us) :: ss)) F HF h (S (S (Z.to_nat m_centryBucket))) h1 rv cR Q z zs [] es u us ss rs Hm1)
      as (h2 & rv2 & m2 & rs2 & Dd & E2 & Hm2 & Hmd2 & Hfl2 & Ht2 & Hhd2).
    + apply lseg_upd; [intros Hin; apply (HdQ u Hin); in_list|]. apply lseg_upd; [intros Hin; apply (HdQ z Hin); in_list|done].
    + by apply holds_upd_ne.
    + done.
    + destruct Hcu as (_ & HfU & [?|HnU] & HcU); [done|]. cbn [chain]. split; [done|]. split; [done|]. split; [by right|]. by apply chain_upd, chain_upd.
    + done.
    + done.
    + cbn. lia.
    + rewrite Hfull. unfold C. lia.
    + done.
    + change (Z.of_nat (length (@nil E))) with 0 in E2. rewrite Hfull, C_Z in E2. rewrite E2. cbn [mbind option_bind].
      apply (Hfin h2 rv2 m2 rs2 Dd); [done|done|by rewrite Hhd2| |done|done].
      rewrite Hfl2, HflD, (flat_cons s). by rewrite <- !app_assoc.
Qed.

End DoMerge.
