(* ===== verification/HashBucketTop.v ===== *)
(** * HashBucketTop: what the buckets of the hash table promise

    A chain of buckets is a collection of entries with a current position.  The
    specification [bkt_spec] says what an operation does to the entries and the
    current entry; the theorems show that every operation on the buckets in memory
    is one of the specification, and that splitting and merging move the entries
    between two chains without losing an entry or a bucket. *)

From stdpp Require Import gmap.
From S2P Require Import Prelude HashBucket HashBucketProofs HashBucketOps HashSplit HashMerge.

(** ** The specification *)

Inductive bkt_op (K E : Type) := Seek (key : K) | Get | Replace (entry : E) | Insert (entry : E) (mem : option Z) | Delete.
Arguments Seek {K E}.
Arguments Get {K E}.
Arguments Replace {K E}.
Arguments Insert {K E}.
Arguments Delete {K E}.

(** The entries, in no particular order, and the current one. *)
Inductive bkt_spec {K E} `{CKeyEntry K E} : bkt_op K E -> list E -> option E -> ERR -> option E -> list E -> option E -> Prop :=
  | SeekFound key l cur e : e ∈ l -> FEntryMatchesKey e key = true -> bkt_spec (Seek key) l cur errSuccess None l (Some e)
  | SeekNone key l cur : (forall e, e ∈ l -> FEntryMatchesKey e key = false) -> bkt_spec (Seek key) l cur errSuccess None l None
  | GetFound l e : bkt_spec Get l (Some e) errSuccess (Some e) l (Some e)
  | GetNone l : bkt_spec Get l None errEntryNotFound None l None
  | ReplaceFound l l0 l' e0 e : l ≡ₚ e0 :: l0 -> l' ≡ₚ e :: l0 -> bkt_spec (Replace e) l (Some e0) errSuccess None l' (Some e)
  | ReplaceNone l e : bkt_spec (Replace e) l None errNoCurrentEntry None l None
  | InsertNew l l' e mem : l' ≡ₚ e :: l -> bkt_spec (Insert e mem) l None errSuccess None l' (Some e)
  | InsertDuplicate l e e0 mem : bkt_spec (Insert e mem) l (Some e0) errKeyDuplicate None l (Some e0)
  | InsertNoMemory l e : bkt_spec (Insert e None) l None errOutOfMemory None l None
  | DeleteFound l l' e : l ≡ₚ e :: l' -> bkt_spec Delete l (Some e) errSuccess None l' None
  | DeleteNone l : bkt_spec Delete l None errNoCurrentEntry None l None.

Section Top.
Context {K E : Type} `{KE : CKeyEntry K E} `{L : BucketLayout} (junk : Z -> BUCKET E).

(** The operation on the buckets: the code, what it hands out, and the new state. *)
Definition bkt_exec (h : heap E) (plock : CLock) (op : bkt_op K E) : option (ERR * option E * heap E * CLock) :=
  match op with
  | Seek key => plock ← BKTSeek h plock key; Some (errSuccess, None, h, plock)
  | Get => '(err, oe) ← ErrBKTGetEntry h plock; Some (err, oe, h, plock)
  | Replace entry => '(err, h) ← ErrBKTReplaceEntry h plock entry; Some (err, None, h, plock)
  | Insert entry mem => '(err, h, plock) ← ErrBKTInsertEntry junk h plock entry mem; Some (err, None, h, plock)
  | Delete => '(err, h, plock) ← ErrBKTDeleteEntry h plock; Some (err, None, h, plock)
  end.

(** The memory holds the entries [l] in the chain that starts at [p] and owns the
    buckets [own] besides. *)
Definition holds_entries (h : heap E) (p : Z) (own : list Z) (l : list E) : Prop :=
  exists es ss, chain h None ((p, es) :: ss) /\ NoDup (p :: ss.*1) /\ own = ss.*1 /\ flat ((p, es) :: ss) = l.

(** ... and the client, which has locked the chain, is on the entry [cur]. *)
Definition client_at (h : heap E) (p : Z) (own : list Z) (l : list E) (plock : CLock) (cur : option E) : Prop :=
  exists es ss, chain h None ((p, es) :: ss) /\ NoDup (p :: ss.*1) /\ own = ss.*1 /\ flat ((p, es) :: ss) = l /\
    m_pBucketHead plock = p /\ on_entry ((p, es) :: ss) plock cur.

Context `{LO : !LayoutOk} (Hjunk : junk_ok junk).

Lemma entry_middle (l1 l2 : list E) e : l1 ++ e :: l2 ≡ₚ e :: l1 ++ l2.
Proof. by rewrite Permutation_middle. Qed.

(** The operation returns and does what the specification says. *)
Definition performs (h : heap E) (p : Z) (own : list Z) (l : list E) (plock : CLock) (cur : option E) (op : bkt_op K E) : Prop :=
  exists err out h' plock' own' l' cur', bkt_exec h plock op = Some (err, out, h', plock') /\
    bkt_spec op l cur err out l' cur' /\ heap_ok h' /\ client_at h' p own' l' plock' cur' /\ m_ls plock' = lsWrite /\
    touched h h' [p] own own'.

(** An operation that leaves the memory as it is. *)
Lemma performs_read h p own l plock plock' cur cur' op err out : heap_ok h -> bkt_exec h plock op = Some (err, out, h, plock') ->
  bkt_spec op l cur err out l cur' -> client_at h p own l plock' cur' -> m_ls plock' = lsWrite -> performs h p own l plock cur op.
Proof. intros. exists err, out, h, plock', own, l, cur'. split_and!; [done..|apply touched_same]. Qed.

Lemma seek_performs h p es ss plock cur key : heap_ok h -> chain h None ((p, es) :: ss) -> NoDup (p :: ss.*1) ->
  m_pBucketHead plock = p -> m_ls plock = lsWrite -> performs h p ss.*1 (flat ((p, es) :: ss)) plock cur (Seek key).
Proof.
  intros Hh Hc Hd Hp Hls. destruct (BKTSeek_ok h p es ss plock key Hh Hc Hd Hp (or_intror Hls)) as (q & a & E1 & Hf).
  assert (Hs : exists cur', bkt_spec (Seek key) (flat ((p, es) :: ss)) cur errSuccess None (flat ((p, es) :: ss)) cur' /\
    on_entry ((p, es) :: ss) (set_currency q 0 a 0 plock) cur').
  { destruct Hf as [(e & Ha & Hk)|(-> & Hq & Hk)].
    - exists (Some e). split; [|done]. constructor; [by eapply at_entry_flat|done].
    - exists None. split; [by constructor|done]. }
  destruct Hs as (cur' & Hs & Ho'). apply (performs_read h p _ _ plock (set_currency q 0 a 0 plock) cur cur' _ errSuccess None); [done| |done| |done].
  - cbn [bkt_exec]. rewrite E1. done.
  - exists es, ss. split_and!; [done..|exact Ho'].
Qed.

Lemma insert_performs h p es ss plock cur entry mem : heap_ok h -> chain h None ((p, es) :: ss) -> NoDup (p :: ss.*1) ->
  m_pBucketHead plock = p -> m_ls plock = lsWrite -> on_entry ((p, es) :: ss) plock cur -> (forall q, mem = Some q -> fresh h q 1) ->
  performs h p ss.*1 (flat ((p, es) :: ss)) plock cur (Insert entry mem).
Proof.
  intros Hh Hc Hd Hp Hls Ho Hm. pose proof (ErrBKTInsertEntry_ok junk Hjunk h p es ss plock cur entry mem Hh Hc Hd Hp Hls Ho Hm) as Hr.
  assert (Hcl : client_at h p ss.*1 (flat ((p, es) :: ss)) plock cur) by (by exists es, ss).
  destruct cur as [e0|].
  { eapply performs_read; [done|cbn [bkt_exec]; by rewrite Hr|constructor|done|done]. }
  destruct Hr as [[-> Hr]|(h' & es' & ss' & q & a & Hr & Hh' & Hc' & Ha & Ef & Es & Ht)].
  { eapply performs_read; [done|cbn [bkt_exec]; by rewrite Hr|constructor|done|done]. }
  eexists errSuccess, None, h', _, ss'.*1, (flat ((p, es') :: ss')), (Some entry). split; [cbn [bkt_exec]; by rewrite Hr|].
  split_and!; [|done| |done|done].
  - constructor. by rewrite Ef, Permutation_app_comm.
  - exists es', ss'. split_and!; [done| |done|done|done|done]. destruct Es as [->|(r & -> & ->)]; [done|].
    rewrite app_comm_cons. apply list.NoDup_app. split_and!; [done| |apply list.NoDup_singleton].
    intros x Hx ->%list_elem_of_singleton. destruct (fresh_1 h r) as (_ & Hn & _); [by apply Hm|].
    destruct (chain_dom _ _ _ r Hc Hx) as [b Hb]. congruence.
Qed.

Lemma delete_performs h p es ss plock cur : heap_ok h -> chain h None ((p, es) :: ss) -> NoDup (p :: ss.*1) ->
  m_pBucketHead plock = p -> m_ls plock = lsWrite -> on_entry ((p, es) :: ss) plock cur ->
  performs h p ss.*1 (flat ((p, es) :: ss)) plock cur Delete.
Proof.
  intros Hh Hc Hd Hp Hls Ho.
  pose proof (ErrBKTDeleteEntry_ok junk Hjunk h ((p, es) :: ss) p plock cur Hh Hc Hd ltac:(done) eq_refl Hp (or_introl Hls) Ho) as Hr.
  destruct cur as [e|].
  - destruct Hr as (h' & ss1 & q & Hr & Hh' & Hc' & Hq & Hhd & Ef & Es & _ & Ht).
    destruct ss1 as [|[p' es'] ss']; [set_solver|]. cbn in Hhd. subst p'.
    eexists errSuccess, None, h', _, ss'.*1, (flat ((p, es') :: ss')), None. split; [cbn [bkt_exec]; by rewrite Hr|].
    split_and!; [by constructor|done| |done|done].
    exists es', ss'. split_and!; [done| |done..].
    change (p :: ss'.*1) with (((p, es') :: ss').*1). destruct Es as [->|[z Ez]]; [done|].
    change (p :: ss.*1) with (((p, es) :: ss).*1) in Hd. rewrite Ez in Hd. by apply list.NoDup_app in Hd as (? & _).
  - eapply performs_read; [done|cbn [bkt_exec]; by rewrite Hr|constructor|by exists es, ss|done].
Qed.

(** every operation on a chain of buckets (seek, retrieve, replace, insert,
    delete) by a client that has locked it for writing returns, with the result and
    the effect that the specification gives for the entries and the current one;
    no memory is accessed that is not the chain's, every other bucket keeps its
    contents, a bucket that the chain no longer uses is released, and no other is. *)
Theorem bucket_operations (h : heap E) p own l plock cur op : heap_ok h -> client_at h p own l plock cur ->
  m_ls plock = lsWrite -> (forall e q, op = Insert e (Some q) -> fresh h q 1) ->
  exists err out h' plock' own' l' cur', bkt_exec h plock op = Some (err, out, h', plock') /\
    bkt_spec op l cur err out l' cur' /\ heap_ok h' /\ client_at h' p own' l' plock' cur' /\ m_ls plock' = lsWrite /\
    touched h h' [p] own own'.
Proof.
  intros Hh (es & ss & Hc & Hd & -> & <- & Hp & Ho) Hls Hm. change (performs h p ss.*1 (flat ((p, es) :: ss)) plock cur op).
  assert (Hcl : client_at h p ss.*1 (flat ((p, es) :: ss)) plock cur) by (by exists es, ss).
  destruct op as [key| |entry|entry mem|].
  - by apply seek_performs.
  - pose proof (ErrBKTGetEntry_ok h p es ss plock cur Hh Hc Hp ltac:(by rewrite Hls) Ho) as Hr.
    destruct cur as [e|]; (eapply performs_read; [done|cbn [bkt_exec]; by rewrite Hr|constructor|done|done]).
  - pose proof (ErrBKTReplaceEntry_ok h p es ss plock cur entry Hh Hc Hd Hp (or_introl Hls) Ho) as Hr. destruct cur as [e0|].
    + destruct Hr as (h' & es' & ss' & l1 & l2 & Hr & Hh' & Hc' & Es & Ho' & E1 & E2 & Ht).
      exists errSuccess, None, h', plock, ss'.*1, (flat ((p, es') :: ss')), (Some entry). split; [cbn [bkt_exec]; by rewrite Hr|].
      split_and!; [|done| |done|done].
      * apply (ReplaceFound _ (l1 ++ l2)); [rewrite E1|rewrite E2]; apply entry_middle.
      * exists es', ss'. rewrite Es. done.
    + eapply performs_read; [done|cbn [bkt_exec]; by rewrite Hr|constructor|done|done].
  - apply insert_performs; try done. intros q ->. by eapply Hm.
  - by apply delete_performs.
Qed.

(** The buckets [rs] are reserved in the pool. *)
Definition reserved (h : heap E) (pool : BUCKETPool) (rs : list Z) : Prop := free_list h (m_pReserve pool) rs.

(** splitting a chain leaves the entries whose hash selects the source there and
    moves the others to the destination, both in their order.  One bucket reserved
    in the pool is enough whatever the distribution; when it is not used it is given
    back to the count.  Every bucket of the source that neither chain uses is
    released, and nothing else in memory changes. *)
Theorem split_partitions (h : heap E) pool p own l d rs cBucketMax iHashSrc : heap_ok h -> holds_entries h p own l ->
  holds_entries h d [] [] -> reserved h pool rs -> rs <> [] -> NoDup (p :: own ++ d :: rs) -> 0 < cBucketMax ->
  let stay e := Hash_entry e .& u64 (cBucketMax - 1 + cBucketMax) =? iHashSrc in
  exists h' pool' own0 own1 rs', BKTIDoSplit h pool cBucketMax p d iHashSrc = Some (h', pool') /\ heap_ok h' /\
    holds_entries h' p own0 (filter (fun e => stay e = true) l) /\ holds_entries h' d own1 (filter (fun e => stay e = false) l) /\
    reserved h' pool' rs' /\ NoDup (p :: own0 ++ d :: own1 ++ rs') /\
    ((rs' = rs /\ m_cReserve pool' = s32 (m_cReserve pool + 1)) \/ (exists x, rs = x :: rs' /\ m_cReserve pool' = m_cReserve pool)) /\
    touched h h' [p; d] (own ++ rs) (own0 ++ own1 ++ rs').
Proof.
  intros Hh (es & ss & Hc & Hd & -> & <-) (es1 & ss1 & Hc1 & Hd1 & E1 & E2) Hr Hrs Hnd HM stay.
  destruct ss1; [|done]. unfold flat in E2. cbn in E2. rewrite app_nil_r in E2. subst es1.
  destruct (BKTIDoSplit_ok h pool p es ss d rs cBucketMax iHashSrc Hh Hc Hc1 Hr Hrs Hnd HM)
    as (h' & pool' & es0 & ss0 & es1 & ss1 & rs' & Er & Hh' & Hc0' & Hc1' & Hr' & F0 & F1 & Hn & Hres & Ht & _).
  exists h', pool', ss0.*1, ss1.*1, rs'. pose proof Hn as Hn'. rewrite app_comm_cons in Hn'. apply list.NoDup_app in Hn' as (Hn0 & _ & Hn1).
  rewrite app_comm_cons in Hn1. apply list.NoDup_app in Hn1 as (Hn1 & _ & _).
  split_and!; try done; [by exists es0, ss0|by exists es1, ss1].
Qed.

(** merging two chains leaves the source empty and gives the destination the
    entries of both; no bucket is released and none is lost: those of the source and,
    when one more is needed, the reserved one become the destination's. *)
Theorem merge_unites (h : heap E) pool s own l d own' l' rs : heap_ok h -> holds_entries h s own l -> holds_entries h d own' l' ->
  reserved h pool rs -> rs <> [] -> NoDup (s :: own ++ d :: own' ++ rs) ->
  exists h' pool' own1 l1 rs', BKTIDoMerge h pool s d = Some (h', pool') /\ heap_ok h' /\
    holds_entries h' s [] [] /\ holds_entries h' d own1 l1 /\ l1 ≡ₚ l' ++ l /\ reserved h' pool' rs' /\
    NoDup (s :: d :: own1 ++ rs') /\
    ((rs' = rs /\ m_cReserve pool' = s32 (m_cReserve pool + 1)) \/ (exists x, rs = x :: rs' /\ m_cReserve pool' = m_cReserve pool)) /\
    touched h h' [s; d] (own ++ own' ++ rs) (own1 ++ rs').
Proof.
  intros Hh (es & ss & Hc & Hd & -> & <-) (fs & ds & Hc1 & Hd1 & -> & <-) Hr Hrs Hnd.
  destruct (BKTIDoMerge_ok h pool s es ss d fs ds rs Hh Hc Hc1 Hr Hrs Hnd)
    as (h' & pool' & fs' & ds' & rs' & Er & Hh' & Hcs & Hcd & Hr' & Hf & Hn & Hres & Ht & _).
  exists h', pool', ds'.*1, (flat ((d, fs') :: ds')), rs'. split_and!; try done.
  - exists [], []. split_and!; [done|apply list.NoDup_singleton|done..].
  - exists fs', ds'. split_and!; [done| |done..]. apply list.NoDup_cons in Hn as [_ Hn]. rewrite app_comm_cons in Hn.
    by apply list.NoDup_app in Hn as (? & _).
Qed.

End Top.

(** ** Concrete instances

    Pairs of a key and a value, hashed by the key; buckets of 64 bytes with room for
    two entries. *)

#[export] Instance demo_keys : CKeyEntry Z (Z * Z) :=
  {| Hash_key := fun k => k; Hash_entry := fst; FEntryMatchesKey := fun e k => fst e =? k |}.

#[export] Instance demo_layout : BucketLayout := {| cbHeader := 24; cbEntry := 16; m_cbBucket := 64; m_centryBucket := 2 |}.

#[export] Instance demo_layout_ok : LayoutOk.
Proof. split; cbn; lia. Qed.

Definition demo_junk (p : Z) : BUCKET (Z * Z) := Bucket (Some 0) 0 [(0, 0); (0, 0)].

Lemma demo_junk_ok : junk_ok demo_junk.
Proof. intros p. by split; [|eexists]. Qed.

(** A chain of two buckets at 1024 with the keys 1, 2 and 3, an empty one at 1088,
    and one reserved bucket at 8192. *)
Definition demo_heap : heap (Z * Z) :=
  Heap (<[1024 := 2%nat]> (<[4096 := 1%nat]> (<[8192 := 1%nat]> ∅)))
    (<[1024 := Bucket None 4096 [(1, 10); (2, 20)]]> (<[4096 := Bucket (Some 1024) (rgEntry 4096 0) [(3, 30); (0, 0)]]>
       (<[1088 := Bucket None 0 [(0, 0); (0, 0)]]> (<[8192 := Bucket (Some 0) 0 [(0, 0); (0, 0)]]> ∅)))).

Lemma demo_heap_ok : heap_ok demo_heap.
Proof.
  assert (Hall : map_Forall (fun p b => addr_ok p /\ length (m_rgEntry b) = C /\
    map_Forall (fun q _ => p <> q -> apart p q) (buckets demo_heap)) (buckets demo_heap)).
  { repeat (apply map_Forall_insert_2; [split_and!; [split; done|done|repeat (apply map_Forall_insert_2; [unfold apart; cbn; lia|]); apply map_Forall_empty]|]).
    apply map_Forall_empty. }
  split.
  - intros p b Hp. by destruct (Hall p b Hp).
  - intros p q b b' Hp Hq Hne. destruct (Hall p b Hp) as (_ & _ & Ha). by apply (Ha q b').
  - intros p b Hp. by destruct (Hall p b Hp) as (_ & ? & _).
Qed.

Lemma demo_chain : holds_entries demo_heap 1024 [4096] [(1, 10); (2, 20); (3, 30)].
Proof.
  exists [(1, 10); (2, 20)], [(4096, [(3, 30)])]. split_and!; [|apply (bool_decide_unpack _); by vm_compute|done|done].
  cbn [chain]. split_and!; [by exists []|done|by left|by exists [(0, 0)]|done| |done]. right. done.
Qed.

Lemma demo_empty : holds_entries demo_heap 1088 [] [].
Proof.
  exists [], []. split_and!; [|apply list.NoDup_singleton|done|done]. cbn [chain].
  split_and!; [by exists [(0, 0); (0, 0)]|done|by left|done].
Qed.

Lemma demo_reserved : reserved demo_heap (Pool 8192 0) [8192].
Proof. split; [done|]. exists 0, 0. split_and!; [by exists [(0, 0); (0, 0)]|done|done]. Qed.

Definition demo_lock : CLock := Lock lsWrite false 0 1024 1024 0 (rgEntry 1024 0) 0 0.

(** Deleting the key 1: the last entry takes its place and the second bucket is released. *)
Lemma bucket_operations_witness :
  exists h' plock' own' l' cur', bkt_exec demo_junk demo_heap demo_lock Delete = Some (errSuccess, None, h', plock') /\
    client_at h' 1024 own' l' plock' cur' /\ l' ≡ₚ [(2, 20); (3, 30)] /\ cur' = None.
Proof.
  destruct (bucket_operations demo_junk demo_junk_ok demo_heap 1024 [4096] [(1, 10); (2, 20); (3, 30)] demo_lock (Some (1, 10)) Delete)
    as (err & out & h' & plock' & own' & l' & cur' & Er & Hs & _ & Hc & _).
  - exact demo_heap_ok.
  - destruct demo_chain as (es & ss & Hc & Hd & Hown & Hl). exists es, ss. split_and!; try done.
    exists [(1, 10); (2, 20)], 0%nat. split_and!; [|done|done].
    destruct Hc as ([rest Hb] & Hf & _ & _). vm_compute in Hb. destruct ss; [done|]. specialize (Hf ltac:(done)).
    destruct es as [|e1 [|e2 [|? ?]]]; try done. simplify_eq/=. left.
  - done.
  - done.
  - exists h', plock', own', l', cur'. inversion Hs; subst. split_and!; [done|done| |done]. by apply (Permutation_cons_inv (a := (1, 10))).
Defined.

(** The odd keys stay, the even ones move. *)
Lemma split_partitions_witness :
  exists h' pool' own0 own1, BKTIDoSplit demo_heap (Pool 8192 0) 1 1024 1088 1 = Some (h', pool') /\
    holds_entries h' 1024 own0 [(1, 10); (3, 30)] /\ holds_entries h' 1088 own1 [(2, 20)].
Proof.
  destruct (split_partitions demo_heap (Pool 8192 0) 1024 [4096] [(1, 10); (2, 20); (3, 30)] 1088 [8192] 1 1)
    as (h' & pool' & own0 & own1 & rs' & Er & _ & H0 & H1 & _).
  - exact demo_heap_ok.
  - exact demo_chain.
  - exact demo_empty.
  - exact demo_reserved.
  - discriminate.
  - apply (bool_decide_unpack _). by vm_compute.
  - lia.
  - exists h', pool', own0, own1. split_and!; [exact Er|exact H0|exact H1].
Defined.

Lemma merge_unites_witness :
  exists h' pool' own1 l1, BKTIDoMerge demo_heap (Pool 8192 0) 1024 1088 = Some (h', pool') /\
    holds_entries h' 1024 [] [] /\ holds_entries h' 1088 own1 l1 /\ l1 ≡ₚ [(1, 10); (2, 20); (3, 30)].
Proof.
  destruct (merge_unites demo_heap (Pool 8192 0) 1024 [4096] [(1, 10); (2, 20); (3, 30)] 1088 [] [] [8192])
    as (h' & pool' & own1 & l1 & rs' & Er & _ & H0 & H1 & Hl & _).
  - exact demo_heap_ok.
  - exact demo_chain.
  - exact demo_empty.
  - exact demo_reserved.
  - discriminate.
  - apply (bool_decide_unpack _). by vm_compute.
  - exists h', pool', own1, l1. split_and!; [exact Er|exact H0|exact H1|exact Hl].
Defined.
