(* ===== verification/Threads.v ===== *)
(** * Threads: interleaved atomic operations on shared memory

    The synchronisation objects of sync.hxx and sync.cxx are control words that
    threads change by atomic operations.  A thread is described by its position
    between two atomic operations together with its local variables (the type
    [P]); [tstep] performs its next atomic operation on the shared state.  The
    operation a thread starts, where it has the choice, is an argument (the type
    [Op]).  A configuration is the shared state with the positions of all threads,
    and any thread may take the next step. *)

From stdpp Require Import relations.
From S2P Require Import Prelude.

(** What an atomic operation does: it is not possible now (the thread blocks, or
    the operation does not belong to its position), an [OSSYNCAssert] does not
    hold, or it leads to a new shared state and position. *)
Inductive outcome (S P : Type) :=
  | Blocked
  | Fault
  | Next (s : S) (p : P).
Arguments Blocked {S P}.
Arguments Fault {S P}.
Arguments Next {S P} s p.

(** [OSSYNCAssert( b )] before [o]. *)
Definition OSSYNCAssert {S P} (b : bool) (o : outcome S P) : outcome S P := if b then o else Fault.

(** ** Counting threads *)

(** The sum of [f] over the positions of the threads. *)
Fixpoint total {P} (f : P -> Z) (ts : list P) : Z :=
  match ts with
  | [] => 0
  | p :: ts => f p + total f ts
  end.

Lemma total_insert {P} (f : P -> Z) (ts : list P) (i : nat) (p q : P) :
  ts !! i = Some p -> total f (<[i := q]> ts) = total f ts - f p + f q.
Proof.
  revert i. induction ts as [|t ts IH]; intros [|i] H; simplify_eq/=; [lia|].
  rewrite (IH _ H). lia.
Qed.

Lemma total_nonneg {P} (f : P -> Z) (ts : list P) : (forall p, 0 <= f p) -> 0 <= total f ts.
Proof. intros Hf. induction ts as [|t ts IH]; cbn [total]; [lia|]. specialize (Hf t). lia. Qed.

Lemma total_nonneg_in {P} (f : P -> Z) (ts : list P) : (forall p, p ∈ ts -> 0 <= f p) -> 0 <= total f ts.
Proof.
  induction ts as [|t ts IH]; intros H; cbn [total]; [lia|].
  pose proof (H t ltac:(set_solver)). specialize (IH ltac:(set_solver)). lia.
Qed.

Lemma total_ge {P} (f : P -> Z) (ts : list P) (i : nat) (p : P) :
  (forall p, 0 <= f p) -> ts !! i = Some p -> f p <= total f ts.
Proof.
  intros Hf. revert i. induction ts as [|t ts IH]; intros [|i] H; simplify_eq/=.
  - pose proof (total_nonneg f ts Hf). lia.
  - specialize (IH _ H). specialize (Hf t). lia.
Qed.

(** Two threads count twice. *)
Lemma total_ge2 {P} (f : P -> Z) (ts : list P) (i j : nat) (p q : P) :
  (forall p, 0 <= f p) -> ts !! i = Some p -> ts !! j = Some q -> i <> j ->
  f p + f q <= total f ts.
Proof.
  intros Hf. revert i j. induction ts as [|t ts IH]; intros [|i] [|j] Hi Hj Hij; simplify_eq/=.
  - pose proof (total_ge f ts j q Hf Hj). lia.
  - pose proof (total_ge f ts i p Hf Hi). lia.
  - assert (Hij' : i <> j) by congruence. specialize (IH _ _ Hi Hj Hij'). specialize (Hf t). lia.
Qed.

(** A positive sum has a thread that contributes to it. *)
Lemma total_pos {P} (f : P -> Z) (ts : list P) :
  0 < total f ts -> exists i p, ts !! i = Some p /\ 0 < f p.
Proof.
  induction ts as [|t ts IH]; cbn [total]; [lia|]. intros H.
  destruct (Z.lt_ge_cases 0 (f t)) as [Ht|Ht].
  - by exists 0%nat, t.
  - destruct IH as (i & p & Hi & Hp); [lia|]. by exists (S i), p.
Qed.

Lemma total_le {P} (f g : P -> Z) (ts : list P) : (forall p, f p <= g p) -> total f ts <= total g ts.
Proof. intros H. induction ts as [|t ts IH]; cbn [total]; [lia|]. specialize (H t). lia. Qed.

Lemma total_add {P} (f g : P -> Z) (ts : list P) :
  total (fun p => f p + g p) ts = total f ts + total g ts.
Proof. induction ts as [|t ts IH]; cbn [total]; lia. Qed.

(** No thread contributes when the sum is zero. *)
Lemma total_0 {P} (f : P -> Z) (ts : list P) :
  (forall p, p ∈ ts -> f p = 0) -> total f ts = 0.
Proof.
  induction ts as [|t ts IH]; intros H; cbn [total]; [lia|].
  rewrite (H t), IH; [lia| |]; set_solver.
Qed.

Lemma total_1 {P} (ts : list P) : total (fun _ => 1) ts = Z.of_nat (length ts).
Proof. induction ts as [|t ts IH]; cbn [total length]; lia. Qed.

(** What is left when one thread is taken out. *)
Lemma total_rest {P} (f g : P -> Z) (ts : list P) (i : nat) (p : P) :
  (forall p, f p <= g p) -> ts !! i = Some p -> total f ts - f p <= total g ts - g p.
Proof.
  intros Hfg. revert i. induction ts as [|t ts IH]; intros [|i] H; simplify_eq/=.
  - pose proof (total_le f g ts Hfg). lia.
  - specialize (IH _ H). specialize (Hfg t). lia.
Qed.

(** Only one thread contributes. *)
Lemma total_single {P} (f : P -> Z) (l : list P) (i : nat) (p : P) :
  l !! i = Some p -> (forall j q, l !! j = Some q -> j <> i -> f q = 0) -> total f l = f p.
Proof.
  revert i. induction l as [|t l IH]; intros [|i] Hi H; simplify_eq/=.
  - rewrite total_0; [lia|]. intros q [j Hj]%list_elem_of_lookup. by apply (H (S j)).
  - rewrite (H 0%nat t) by done. rewrite (IH i); [lia|done|]. intros j q Hj Hij. apply (H (S j)); [done|congruence].
Qed.

Lemma total_app {P} (f : P -> Z) (l1 l2 : list P) : total f (l1 ++ l2) = total f l1 + total f l2.
Proof. induction l1 as [|t l1 IH]; cbn [app total]; lia. Qed.

(** If every thread counts at most once and one of them not at all, the sum is
    smaller than the number of threads. *)
Lemma total_lt_length {P} (f : P -> Z) (ts : list P) (i : nat) (p : P) :
  (forall p, f p <= 1) -> ts !! i = Some p -> f p <= 0 -> total f ts < Z.of_nat (length ts).
Proof.
  intros Hf. revert i. induction ts as [|t ts IH]; intros [|i] H Hp; simplify_eq/=.
  - pose proof (total_le f (fun _ => 1) ts Hf). rewrite total_1 in *. lia.
  - specialize (IH _ H Hp). specialize (Hf t). lia.
Qed.

(** ** Configurations *)

Record conf (S P : Type) := Conf { shared : S; pcs : list P }.
Arguments Conf {S P} shared pcs.
Arguments shared {S P} c.
Arguments pcs {S P} c.

Section System.

Context {S P Op : Type} (tstep : Op -> S -> P -> outcome S P).

Inductive step : conf S P -> conf S P -> Prop :=
  | step_thread o s ts (i : nat) p s' p' :
      ts !! i = Some p -> tstep o s p = Next s' p' ->
      step (Conf s ts) (Conf s' (<[i := p']> ts)).

(** A schedule: which thread takes the next step, and with which operation. *)
Fixpoint exec (sched : list (nat * Op)) (c : conf S P) : option (conf S P) :=
  match sched with
  | [] => Some c
  | (i, o) :: sched =>
      match pcs c !! i with
      | Some p =>
          match tstep o (shared c) p with
          | Next s' p' => exec sched (Conf s' (<[i := p']> (pcs c)))
          | _ => None
          end
      | None => None
      end
  end.

Lemma exec_steps sched c c' : exec sched c = Some c' -> rtc step c c'.
Proof.
  revert c. induction sched as [|[i o] sched IH]; intros [s ts] H; simplify_eq/=; [reflexivity|].
  destruct (ts !! i) as [p|] eqn:Hi; [|done].
  destruct (tstep o s p) as [| |s' p'] eqn:E; [done..|].
  apply (rtc_l _ _ (Conf s' (<[i := p']> ts))); [|by apply IH]. by apply (step_thread o s ts i p).
Qed.

Lemma exec_nsteps sched c c' : exec sched c = Some c' -> nsteps step (length sched) c c'.
Proof.
  revert c. induction sched as [|[i o] sched IH]; intros [s ts] H; simplify_eq/=; [constructor|].
  destruct (ts !! i) as [p|] eqn:Hi; [|done].
  destruct (tstep o s p) as [| |s' p'] eqn:E; [done..|].
  apply (nsteps_l _ _ _ (Conf s' (<[i := p']> ts))); [|by apply IH]. by apply (step_thread o s ts i p).
Qed.

(** An invariant holds of every reachable configuration. *)
Lemma invariant_reachable (I : conf S P -> Prop) c c' :
  (forall c c', I c -> step c c' -> I c') -> I c -> rtc step c c' -> I c'.
Proof. intros Hs Hi H. induction H; eauto. Qed.

Lemma step_length c c' : step c c' -> length (pcs c') = length (pcs c).
Proof. destruct 1. cbn [pcs]. apply length_insert. Qed.

Lemma reachable_length c c' : rtc step c c' -> length (pcs c') = length (pcs c).
Proof. induction 1 as [|c1 c2 c3 H12 _ IH]; [done|]. rewrite IH. by apply step_length. Qed.

(** In no reachable configuration does the next operation of a thread violate an
    assertion. *)
Definition never_faults (c : conf S P) : Prop :=
  forall c' (i : nat) p o, rtc step c c' -> pcs c' !! i = Some p -> tstep o (shared c') p <> Fault.

End System.

(** Rewrite every sum over threads after a step with the thread's position. *)
Ltac totals H := rewrite ?(total_insert _ _ _ _ _ H) in *.

(** ** The counting semaphore

    What a [CSemaphore] promises to the locks built on it: [Release n] adds [n]
    units and [Acquire] takes one, blocking while there is none. *)

Definition sem_release (n sem : Z) : Z := sem + n.

Definition sem_acquire {S P} (sem : Z) (k : Z -> outcome S P) : outcome S P :=
  if 0 <? sem then k (sem - 1) else Blocked.

(** ** Words with bit fields *)

Lemma land_split k a0 a1 m0 m1 : 0 <= k -> 0 <= a0 < 2 ^ k -> 0 <= m0 < 2 ^ k ->
  (a0 + 2 ^ k * a1) .& (m0 + 2 ^ k * m1) = (a0 .& m0) + 2 ^ k * (a1 .& m1).
Proof.
  intros Hk Ha Hm. rewrite <- !(Z.mul_comm _ (2 ^ k)), <- !Z.shiftl_mul_pow2 by easy.
  assert (Hl : forall x y, 0 <= x < 2 ^ k -> x + Z.shiftl y k = x .| Z.shiftl y k).
  { intros x y Hx. symmetry. apply lor_disjoint_add. bitwise i. rewrite Z.land_spec, Z.bits_0.
    destruct (Z.lt_ge_cases i k) as [Hi|Hi].
    - rewrite Z.shiftl_spec_low by lia. apply andb_false_r.
    - rewrite (in_u_testbit_high k x i) by (unfold in_u; lia). easy. }
  rewrite !Hl by first [easy | apply in_u_land; [easy|exact Ha]].
  bitwise i. rewrite Z.land_spec, !Z.lor_spec, Z.land_spec.
  destruct (Z.lt_ge_cases i k) as [Hi|Hi].
  - rewrite !Z.shiftl_spec_low by lia. now rewrite !orb_false_r.
  - rewrite !Z.shiftl_spec, Z.land_spec by lia.
    rewrite (in_u_testbit_high k a0 i), (in_u_testbit_high k m0 i) by (unfold in_u; lia). easy.
Qed.

Lemma lor_split k a0 a1 m0 m1 : 0 <= k -> 0 <= a0 < 2 ^ k -> 0 <= m0 < 2 ^ k ->
  (a0 + 2 ^ k * a1) .| (m0 + 2 ^ k * m1) = (a0 .| m0) + 2 ^ k * (a1 .| m1).
Proof.
  intros Hk Ha Hm.
  pose proof (Z.add_lor_land (a0 + 2 ^ k * a1) (m0 + 2 ^ k * m1)) as E.
  pose proof (Z.add_lor_land a0 m0) as E0. pose proof (Z.add_lor_land a1 m1) as E1.
  rewrite land_split in E by easy. nia.
Qed.
