(* ===== verification/CPool.v ===== *)
(** * CPool: a pool of objects that threads wait for

    [CPool] of collection.hxx keeps objects in one list for each processor, every list with a
    critical section, and counts them by a semaphore.  [Insert] puts an object into a list
    that is free at the moment; [ErrRemove] first takes a unit of the semaphore, waiting for
    it if it may, and then looks for a list that has an object; a scan holds the critical
    section of one list at a time.

    A client is a thread with the objects that it owns; each step is one access to shared
    state, or what a thread does inside a critical section up to the next such access.  The
    lists are the sequences that [InvasiveListSystem] shows them to be, the semaphore a
    count.  The count is an unbounded integer, where [CSemaphoreState] has 31 bits: the pool is
    taken to have fewer than 2^31 objects.  The environment chooses the processor a call runs on and whether a wait times
    out.  A client that has begun a scan makes no other call until it ends it. *)

From stdpp Require Import gmap list relations.
From S2P Require Import Prelude Threads.

(** ** State *)

Inductive ERR := errSuccess | errInvalidParameter | errOutOfMemory | errObjectNotFound | errOutOfObjects | errNoCurrentObject.

#[export] Instance pool_ERR_eq_dec : EqDecision ERR.
Proof. solve_decision. Defined.

Record CBucket := Bucket { m_crit : bool; m_il : list Z }.

Record CPool := Pool {
  m_rgbucket : list CBucket;
  m_semObjectCount : Z;
  m_cInsert : Z;
  m_cRemove : Z;
  m_cRemoveWait : Z }.

(** A pointer that may be null is an option. *)
Record CLock := Lock { m_pbucket : nat; m_pobj : option Z; m_pobjNext : option Z }.

Definition m_cbucket (s : CPool) : Z := Z.of_nat (length (m_rgbucket s)).

Definition upd_bucket (b : nat) (bk : CBucket) (s : CPool) : CPool :=
  Pool (<[b := bk]> (m_rgbucket s)) (m_semObjectCount s) (m_cInsert s) (m_cRemove s) (m_cRemoveWait s).

Definition set_sem (n : Z) (s : CPool) : CPool := Pool (m_rgbucket s) n (m_cInsert s) (m_cRemove s) (m_cRemoveWait s).

(** [ErrInit] on a machine with [cProcessor] processors; [fMemory]: the buckets could be
    allocated, and [fTradeoff]: the argument is between 0 and 1. *)
Definition ErrInit (cProcessor : nat) (fTradeoff fMemory : bool) : ERR * CPool :=
  if negb fTradeoff then (errInvalidParameter, Pool [] 0 0 0 0)
  else if negb fMemory then (errOutOfMemory, Pool [] 0 0 0 0)
  else (errSuccess, Pool (replicate cProcessor (Bucket false [])) 0 0 0 0).

(** The units that are left after the loop of [Term]. *)
Fixpoint drain (n : nat) (sem : Z) : option Z :=
  if 0 <? sem then match n with O => None | S n => drain n (sem - 1) end else Some sem.

Definition Term (s : CPool) : option CPool :=
  sem ← drain (Z.to_nat (m_semObjectCount s)) (m_semObjectCount s);
  Some (Pool [] sem (m_cInsert s) (m_cRemove s) (m_cRemoveWait s)).

(** ** Aligned memory

    The array of the buckets starts at the beginning of a cache line: the byte before it keeps
    the distance to the block that [new] returned. *)

Section Aligned.
(** [new BYTE[ cb ]]: the address of the block, or null. *)
Context (new_BYTE : Z -> option Z).

(** An assertion that fails is [None]. *)
Definition _PvMEMIAlign (m : gmap Z Z) (pv cbAlign : Z) : option (gmap Z Z * Z) :=
  let ulpAligned := u64 (u64 (pv + cbAlign) / cbAlign * cbAlign) in
  let ulpOffset := u64 (ulpAligned - pv) in
  if (0 <? ulpOffset) && (ulpOffset <=? cbAlign) && (ulpOffset =? wrapu 8 ulpOffset)
  then Some (<[ulpAligned - 1 := wrapu 8 ulpOffset]> m, ulpAligned) else None.

Definition _PvMEMIUnalign (m : gmap Z Z) (pv : Z) : option Z :=
  bOffset ← m !! (pv - 1);
  if 0 <? bOffset then Some (pv - bOffset) else None.

(** The memory and the pointer, [None] when it is null. *)
Definition _PvMEMAlloc (m : gmap Z Z) (cbSize cbAlign : Z) : option (gmap Z Z * option Z) :=
  if u64 (cbSize + cbAlign) <? cbSize then None
  else match new_BYTE (u64 (cbSize + cbAlign)) with
       | Some pv => '(m, p) ← _PvMEMIAlign m pv cbAlign; Some (m, Some p)
       | None => Some (m, None)
       end.

(** The block that is given back to [delete []], if any. *)
Definition _MEMFree (m : gmap Z Z) (pv : option Z) : option (option Z) :=
  match pv with
  | Some p => q ← _PvMEMIUnalign m p; Some (Some q)
  | None => Some None
  end.

(** C39: with an alignment of 1 to 255 bytes, [_PvMEMAlloc] returns an aligned address whose
    [cbSize] bytes lie in the block that [new] returned, the memory of the block before them
    included that keeps the distance; and whatever the client has written to its own bytes
    since, [_MEMFree] gives exactly that block back. *)
Theorem aligned_memory_roundtrip m cbSize cbAlign pv : 1 <= cbAlign <= 255 -> 0 <= cbSize -> 0 <= pv -> new_BYTE (cbSize + cbAlign) = Some pv -> pv + cbSize + cbAlign < 2 ^ 64 ->
  exists m' p, _PvMEMAlloc m cbSize cbAlign = Some (m', Some p) /\ p mod cbAlign = 0 /\ pv < p /\ p + cbSize <= pv + cbSize + cbAlign /\
    (forall a, ~ pv <= a < p -> m' !! a = m !! a) /\
    forall m2, (forall a, ~ p <= a < p + cbSize -> m2 !! a = m' !! a) -> _MEMFree m2 (Some p) = Some (Some pv).
Proof.
  intros Ha Hs Hp Hnew Hmax. set (p := (pv + cbAlign) / cbAlign * cbAlign).
  assert (Hp1 : pv < p <= pv + cbAlign).
  { pose proof (Z.div_mod (pv + cbAlign) cbAlign ltac:(lia)). pose proof (Z.mod_pos_bound (pv + cbAlign) cbAlign ltac:(lia)). unfold p. lia. }
  assert (Hu : forall z, 0 <= z < 2 ^ 64 -> u64 z = z) by (intros z Hz; unfold u64; by apply Z.mod_small).
  exists (<[p - 1 := p - pv]> m), p.
  assert (Halign : _PvMEMIAlign m pv cbAlign = Some (<[p - 1 := p - pv]> m, p)).
  { unfold _PvMEMIAlign. rewrite (Hu (pv + cbAlign)) by lia. fold p. rewrite (Hu p), (Hu (p - pv)) by lia.
    assert (E8 : wrapu 8 (p - pv) = p - pv) by (unfold wrapu; apply Z.mod_small; lia). rewrite E8, (proj2 (Z.ltb_lt _ _)), (proj2 (Z.leb_le _ _)), Z.eqb_refl by lia. done. }
  split_and!; [|by apply Z_mod_mult|lia|lia| |].
  - unfold _PvMEMAlloc. rewrite (Hu (cbSize + cbAlign)) by lia. rewrite (proj2 (Z.ltb_ge _ _)) by lia. by rewrite Hnew, Halign.
  - intros a Hna. apply lookup_insert_ne. lia.
  - intros m2 Hm2. unfold _MEMFree, _PvMEMIUnalign. rewrite Hm2, lookup_insert_eq by lia. cbn. rewrite (proj2 (Z.ltb_lt _ _)) by lia. cbn. do 2 f_equal. lia.
Qed.

End Aligned.

(** ** Clients *)

Inductive position :=
  | Out
  (** [Insert]: the loop, the critical section, the count and the semaphore *)
  | InsTry (pobj : Z) (fMRU : bool) (ibucketBase ibucket : Z)
  | InsPut (pobj : Z) (fMRU : bool) (ibucket : Z) (b : nat)
  | InsLeave (b : nat)
  | InsCount
  | InsRelease
  (** [ErrRemove]: the semaphore, the loop, the critical section and the count *)
  | RemTry (fTest fMRU : bool)
  | RemMark (fMRU : bool)
  | RemWait (fMRU : bool)
  | RemFind (fMRU : bool) (ibucketBase ibucket : Z)
  | RemEnter (fMRU : bool) (ibucketBase ibucket : Z) (b : nat)
  | RemTake (fMRU : bool) (ibucketBase ibucket : Z) (b : nat)
  | RemLeave (obj : option Z) (fMRU : bool) (ibucketBase ibucket : Z) (b : nat)
  | RemCount (pobj : Z)
  (** scans: entering a bucket, at the end of one, between two calls, and removing *)
  | ScanBegin
  | ScanEnter (b : nat)
  | ScanMove (b : nat)
  | Scan (plock : CLock)
  | ScanTake (plock : CLock) (pobj : Z)
  | ScanCount (plock : CLock) (pobj : Z).

Inductive call :=
  | Insert (pobj : Z) (fMRU : bool)
  | ErrRemove (fTest fMRU : bool)
  | BeginPoolScan | ErrGetNextObject | ErrRemoveCurrentObject | EndPoolScan.

Record op := Op { op_call : call; op_cpu : Z; op_timeout : bool }.

(** The objects a client owns, and what its last call returned. *)
Record client := Client { pos : position; own : list Z; res : option (ERR * option Z) }.

Section Pool.
Context (sizeofCObject : Z).

Abbreviation result := (outcome CPool client).

Definition try {A} (x : option A) (f : A -> result) : result := match x with Some a => f a | None => Fault end.

(** ** Critical sections *)

(** [FTryEnter] and [Enter]: the bucket, when it is free. *)
Definition enter (s : CPool) (b : nat) (f : CBucket -> client) (busy : result) : result :=
  try (m_rgbucket s !! b) (fun bk =>
  if m_crit bk then busy else Next (upd_bucket b (Bucket true (m_il bk)) s) (f bk)).

Definition leave (s : CPool) (b : nat) (c : client) : result :=
  try (m_rgbucket s !! b) (fun bk =>
  if m_crit bk then Next (upd_bucket b (Bucket false (m_il bk)) s) c else Fault).

(** The next object of a list; the object itself must be in it. *)
Fixpoint Next_ (l : list Z) (pobj : Z) : option (option Z) :=
  match l with
  | [] => None
  | x :: l => if x =? pobj then Some (head l) else Next_ l pobj
  end.

Fixpoint Remove_ (l : list Z) (pobj : Z) : option (list Z) :=
  match l with
  | [] => None
  | x :: l => if x =? pobj then Some l else l ← Remove_ l pobj; Some (x :: l)
  end.

(** ** [Insert] *)

Definition insert_base (pobj : Z) (fMRU : bool) (cpu : Z) : Z := if fMRU then cpu else pobj / sizeofCObject.

Definition insert_try (s : CPool) (c : client) (pobj : Z) (fMRU : bool) (ibucketBase ibucket : Z) : result :=
  let b := Z.to_nat (u64 (ibucketBase + ibucket) mod m_cbucket s) in
  let ibucket := u32 (ibucket + 1) in
  enter s b (fun _ => Client (InsPut pobj fMRU ibucket b) (own c) (res c))
    (if ibucket <? m_cbucket s then Next s (Client (InsTry pobj fMRU ibucketBase ibucket) (own c) (res c)) else Blocked).

Definition insert_put (s : CPool) (c : client) (pobj : Z) (fMRU : bool) (ibucket : Z) (b : nat) : result :=
  try (m_rgbucket s !! b) (fun bk =>
  let l := if (u32 (ibucket - 1) =? 0) && fMRU then pobj :: m_il bk else m_il bk ++ [pobj] in
  Next (upd_bucket b (Bucket (m_crit bk) l) s) (Client (InsLeave b) (own c) (res c))).

(** ** [ErrRemove] *)

Definition remove_find (s : CPool) (c : client) (fMRU : bool) (ibucketBase ibucket : Z) : result :=
  let b := Z.to_nat (u32 (ibucketBase + ibucket) mod m_cbucket s) in
  let ibucket := u32 (ibucket + 1) in
  try (m_rgbucket s !! b) (fun bk =>
  Next s (Client (match m_il bk with [] => RemFind fMRU ibucketBase ibucket | _ => RemEnter fMRU ibucketBase ibucket b end) (own c) (res c))).

Definition remove_enter (s : CPool) (c : client) (fMRU : bool) (ibucketBase ibucket : Z) (b : nat) : result :=
  enter s b (fun _ => Client (RemTake fMRU ibucketBase ibucket b) (own c) (res c))
    (if ibucket <? m_cbucket s then Next s (Client (RemFind fMRU ibucketBase ibucket) (own c) (res c)) else Blocked).

Definition remove_take (s : CPool) (c : client) (fMRU : bool) (ibucketBase ibucket : Z) (b : nat) : result :=
  try (m_rgbucket s !! b) (fun bk =>
  match (if (u32 (ibucket - 1) =? 0) && fMRU then head (m_il bk) else list.last (m_il bk)) with
  | None => Next s (Client (RemLeave None fMRU ibucketBase ibucket b) (own c) (res c))
  | Some pobj =>
      try (Remove_ (m_il bk) pobj) (fun l =>
      Next (upd_bucket b (Bucket (m_crit bk) l) s) (Client (RemLeave (Some pobj) fMRU ibucketBase ibucket b) (own c) (res c)))
  end).

(** ** Scans *)

(** The loop of [_GetNextObject] at the end of the bucket [b]. *)
Definition scan_move (s : CPool) (c : client) (b : nat) : result :=
  if Z.of_nat b <? m_cbucket s - 1 then leave s b (Client (ScanEnter (S b)) (own c) (res c))
  else Next s (Client (Scan (Lock b None None)) (own c) (Some (errNoCurrentObject, None))).

Definition scan_enter (s : CPool) (c : client) (b : nat) : result :=
  enter s b (fun bk => match head (m_il bk) with
                       | Some pobj => Client (Scan (Lock b (Some pobj) None)) (own c) (Some (errSuccess, Some pobj))
                       | None => Client (ScanMove b) (own c) (res c)
                       end) Blocked.

Definition get_next (s : CPool) (c : client) (plock : CLock) : result :=
  let b := m_pbucket plock in
  try (m_rgbucket s !! b) (fun bk =>
  try (match m_pobj plock with Some pobj => Next_ (m_il bk) pobj | None => Some (m_pobjNext plock) end) (fun o =>
  Next s match o with
         | Some pobj => Client (Scan (Lock b (Some pobj) None)) (own c) (Some (errSuccess, Some pobj))
         | None => Client (ScanMove b) (own c) (res c)
         end)).

Definition remove_current (s : CPool) (c : client) (plock : CLock) : result :=
  match m_pobj plock with
  | Some pobj =>
      if 0 <? m_semObjectCount s then Next (set_sem (m_semObjectCount s - 1) s) (Client (ScanTake plock pobj) (own c) (res c))
      else Next s (Client (Scan plock) (own c) (Some (errNoCurrentObject, None)))
  | None => Next s (Client (Scan plock) (own c) (Some (errNoCurrentObject, None)))
  end.

Definition scan_take (s : CPool) (c : client) (plock : CLock) (pobj : Z) : result :=
  let b := m_pbucket plock in
  try (m_rgbucket s !! b) (fun bk =>
  try (Next_ (m_il bk) pobj) (fun pobjNext =>
  try (Remove_ (m_il bk) pobj) (fun l =>
  Next (upd_bucket b (Bucket (m_crit bk) l) s) (Client (ScanCount (Lock b None pobjNext) pobj) (own c) (res c))))).

(** ** The next step of a client *)

Definition count_insert (s : CPool) : CPool := Pool (m_rgbucket s) (m_semObjectCount s) (u32 (m_cInsert s + 1)) (m_cRemove s) (m_cRemoveWait s).
Definition count_remove (s : CPool) : CPool := Pool (m_rgbucket s) (m_semObjectCount s) (m_cInsert s) (u32 (m_cRemove s + 1)) (m_cRemoveWait s).
Definition count_wait (s : CPool) : CPool := Pool (m_rgbucket s) (m_semObjectCount s) (m_cInsert s) (m_cRemove s) (u32 (m_cRemoveWait s + 1)).

(** A client inserts only what it owns. *)
Definition start (o : op) (s : CPool) (c : client) : result :=
  match op_call o with
  | Insert pobj fMRU =>
      match Remove_ (own c) pobj with
      | Some l => Next s (Client (InsTry pobj fMRU (insert_base pobj fMRU (op_cpu o)) 0) l (res c))
      | None => Blocked
      end
  | ErrRemove fTest fMRU => Next s (Client (RemTry fTest fMRU) (own c) (res c))
  | BeginPoolScan => Next s (Client ScanBegin (own c) (res c))
  | _ => Blocked
  end.

Definition tstep (o : op) (s : CPool) (c : client) : result :=
  match pos c with
  | Out => start o s c
  | InsTry pobj fMRU base ibucket => insert_try s c pobj fMRU base ibucket
  | InsPut pobj fMRU ibucket b => insert_put s c pobj fMRU ibucket b
  | InsLeave b => leave s b (Client InsCount (own c) (res c))
  | InsCount => Next (count_insert s) (Client InsRelease (own c) (res c))
  | InsRelease => Next (set_sem (sem_release 1 (m_semObjectCount s)) s) (Client Out (own c) None)
  | RemTry fTest fMRU =>
      if 0 <? m_semObjectCount s then Next (set_sem (m_semObjectCount s - 1) s) (Client (RemFind fMRU (op_cpu o) 0) (own c) (res c))
      else Next s (if fTest then Client Out (own c) (Some (errOutOfObjects, None)) else Client (RemMark fMRU) (own c) (res c))
  | RemMark fMRU => Next (count_wait s) (Client (RemWait fMRU) (own c) (res c))
  | RemWait fMRU =>
      if op_timeout o then Next s (Client Out (own c) (Some (errOutOfObjects, None)))
      else sem_acquire (m_semObjectCount s) (fun n => Next (set_sem n s) (Client (RemFind fMRU (op_cpu o) 0) (own c) (res c)))
  | RemFind fMRU base ibucket => remove_find s c fMRU base ibucket
  | RemEnter fMRU base ibucket b => remove_enter s c fMRU base ibucket b
  | RemTake fMRU base ibucket b => remove_take s c fMRU base ibucket b
  | RemLeave obj fMRU base ibucket b =>
      leave s b (Client (match obj with Some pobj => RemCount pobj | None => RemFind fMRU base ibucket end) (own c) (res c))
  | RemCount pobj => Next (count_remove s) (Client Out (pobj :: own c) (Some (errSuccess, Some pobj)))
  | ScanBegin => enter s 0 (fun bk => Client (Scan (Lock 0 None (head (m_il bk)))) (own c) (res c)) Blocked
  | ScanEnter b => scan_enter s c b
  | ScanMove b => scan_move s c b
  | Scan plock =>
      match op_call o with
      | ErrGetNextObject => get_next s c plock
      | ErrRemoveCurrentObject => remove_current s c plock
      | EndPoolScan => leave s (m_pbucket plock) (Client Out (own c) (res c))
      | _ => Blocked
      end
  | ScanTake plock pobj => scan_take s c plock pobj
  | ScanCount plock pobj => Next (count_remove s) (Client (Scan plock) (pobj :: own c) (Some (errSuccess, Some pobj)))
  end.

End Pool.

(** ** What a client has *)

(** The bucket whose critical section a client is in. *)
Definition holder (p : position) : option nat :=
  match p with
  | InsPut _ _ _ b | InsLeave b | RemTake _ _ _ b | RemLeave _ _ _ _ b | ScanMove b => Some b
  | Scan plock | ScanTake plock _ | ScanCount plock _ => Some (m_pbucket plock)
  | _ => None
  end.

(** The bucket a client is in or is about to enter. *)
Definition place (p : position) : option nat :=
  match p with RemEnter _ _ _ b | ScanEnter b => Some b | _ => holder p end.

Definition holds (b : nat) (c : client) : Z := if decide (holder (pos c) = Some b) then 1 else 0.

(** The objects that are neither in a list nor with the client between calls. *)
Definition flight (p : position) : list Z :=
  match p with
  | InsTry pobj _ _ _ | InsPut pobj _ _ _ | RemCount pobj | ScanCount _ pobj | RemLeave (Some pobj) _ _ _ _ => [pobj]
  | _ => []
  end.

Definition objs (c : client) : list Z := flight (pos c) ++ own c.

(** A unit of the semaphore that is not used yet, and one that is still to come. *)
Definition claim (c : client) : Z :=
  match pos c with RemFind _ _ _ | RemEnter _ _ _ _ | RemTake _ _ _ _ | RemLeave None _ _ _ _ | ScanTake _ _ => 1 | _ => 0 end.

Definition pending (c : client) : Z := match pos c with InsLeave _ | InsCount | InsRelease => 1 | _ => 0 end.

(** The objects at which a scan stands. *)
Definition marks (p : position) : list Z :=
  match p with
  | Scan plock | ScanCount plock _ => option_list (m_pobj plock) ++ option_list (m_pobjNext plock)
  | ScanTake plock pobj => [pobj]
  | _ => []
  end.

Definition lists (s : CPool) : list (list Z) := m_il <$> m_rgbucket s.

Definition scan_ok (rg : list CBucket) (p : position) : Prop :=
  forall x, x ∈ marks p -> exists b bk, holder p = Some b /\ rg !! b = Some bk /\ x ∈ m_il bk.

(** ** The invariant *)

(** [all]: the objects there are. *)
Record pool_ok (all : list Z) (s : CPool) (ts : list client) : Prop := {
  po_len : 0 < m_cbucket s < 2 ^ 32;
  po_crit : forall b bk, m_rgbucket s !! b = Some bk -> Z.b2z (m_crit bk) = total (holds b) ts;
  po_place : forall c, c ∈ ts -> forall b, place (pos c) = Some b -> (b < length (m_rgbucket s))%nat;
  po_objs : concat (lists s) ++ concat (objs <$> ts) ≡ₚ all;
  po_sem : 0 <= m_semObjectCount s;
  po_count : Z.of_nat (length (concat (lists s))) = m_semObjectCount s + total claim ts + total pending ts;
  po_scan : forall c, c ∈ ts -> scan_ok (m_rgbucket s) (pos c) }.

Lemma concat_insert {X} (ls : list (list X)) (i : nat) x y : ls !! i = Some x -> exists rest, concat ls ≡ₚ x ++ rest /\ concat (<[i := y]> ls) ≡ₚ y ++ rest.
Proof.
  revert i. induction ls as [|l ls IH]; intros [|i] Hi; simplify_eq/=; [by exists (concat ls)|]. destruct (IH i Hi) as (rest & E1 & E2).
  exists (l ++ rest). rewrite E1, E2. split; by rewrite Permutation_app_swap_app.
Qed.

Lemma holds_nonneg b c : 0 <= holds b c.
Proof. unfold holds. destruct (decide _); lia. Qed.

Lemma holds_1 b c : holder (pos c) = Some b -> holds b c = 1.
Proof. intros H. unfold holds. by rewrite decide_True. Qed.

Lemma in_insert_client (ts : list client) (i : nat) c c' x : ts !! i = Some c -> x ∈ <[i := c']> ts -> x = c' \/ exists j, j <> i /\ ts !! j = Some x.
Proof.
  intros Hi [j Hj]%list_elem_of_lookup. destruct (decide (j = i)) as [->|Hne].
  - rewrite list_lookup_insert_eq in Hj by (by eapply lookup_lt_Some). left. congruence.
  - rewrite list_lookup_insert_ne in Hj by done. right. by exists j.
Qed.

Section Inv.
Context (all : list Z) (s : CPool) (ts : list client) (P : pool_ok all s ts).
Context (i : nat) (c : client) (Hi : ts !! i = Some c).

(** Two clients are not in the same critical section. *)
Lemma alone (j : nat) c2 b : ts !! j = Some c2 -> j <> i -> holder (pos c) = Some b -> holder (pos c2) = Some b -> False.
Proof.
  intros Hj Hne H1 H2. assert (Hb : (b < length (m_rgbucket s))%nat).
  { apply (po_place _ _ _ P c); [by eapply list_elem_of_lookup_2|]. by destruct (pos c). }
  destruct (lookup_lt_is_Some_2 _ _ Hb) as [bk Hbk]. pose proof (po_crit _ _ _ P b bk Hbk) as Hc.
  pose proof (total_ge2 (holds b) ts j i c2 c (holds_nonneg b) Hj Hi Hne) as Ht. rewrite !holds_1 in Ht by done. destruct (m_crit bk); cbn in Hc; lia.
Qed.

(** A step of the client [c] that changes at most one bucket. *)
Lemma update s' c' b bk bk' : m_rgbucket s !! b = Some bk -> m_rgbucket s' = <[b := bk']> (m_rgbucket s) ->
  Z.b2z (m_crit bk') - Z.b2z (m_crit bk) = holds b c' - holds b c -> (forall b', b' <> b -> holds b' c' = holds b' c) ->
  (forall b', place (pos c') = Some b' -> (b' < length (m_rgbucket s))%nat) -> m_il bk' ++ objs c' ≡ₚ m_il bk ++ objs c -> 0 <= m_semObjectCount s' ->
  Z.of_nat (length (m_il bk')) - Z.of_nat (length (m_il bk)) = m_semObjectCount s' - m_semObjectCount s + (claim c' - claim c) + (pending c' - pending c) ->
  m_il bk' = m_il bk \/ holder (pos c) = Some b -> scan_ok (m_rgbucket s') (pos c') -> pool_ok all s' (<[i := c']> ts).
Proof.
  intros Hbk Hrg Hcr Hoth Hpl Hob Hsem Hcnt Hil Hsc. pose proof (lookup_lt_Some _ _ _ Hbk) as Hlt.
  assert (Hl : lists s !! b = Some (m_il bk)) by (unfold lists; by rewrite list_lookup_fmap, Hbk).
  destruct (concat_insert _ b _ (m_il bk') Hl) as (rest & E1 & E2).
  assert (El : lists s' = <[b := m_il bk']> (lists s)) by (unfold lists; by rewrite Hrg, list_fmap_insert).
  assert (Ho : (objs <$> ts) !! i = Some (objs c)) by (by rewrite list_lookup_fmap, Hi).
  destruct (concat_insert _ i _ (objs c') Ho) as (resto & F1 & F2). split.
  - unfold m_cbucket. rewrite Hrg, length_insert. apply P.
  - intros b' bk2 Hb'. rewrite Hrg in Hb'. rewrite (total_insert _ _ _ _ _ Hi). destruct (decide (b' = b)) as [->|Hne].
    + rewrite list_lookup_insert_eq in Hb' by done. injection Hb' as <-. pose proof (po_crit _ _ _ P b bk Hbk). lia.
    + rewrite list_lookup_insert_ne in Hb' by done. rewrite (po_crit _ _ _ P b' bk2 Hb'), Hoth by done. lia.
  - intros x [->|(j & _ & Hj)]%(in_insert_client _ _ _ _ _ Hi) b' Hp; rewrite Hrg, length_insert; [by apply Hpl|].
    apply (po_place _ _ _ P x); [by eapply list_elem_of_lookup_2|done].
  - rewrite El, list_fmap_insert, E2, F2, <- (po_objs _ _ _ P), E1, F1. rewrite <- !app_assoc, (Permutation_app_swap_app rest), (app_assoc (m_il bk')), Hob.
    by rewrite <- app_assoc, (Permutation_app_swap_app rest).
  - done.
  - rewrite !(total_insert _ _ _ _ _ Hi), El, E2, length_app. pose proof (po_count _ _ _ P) as Hc. rewrite E1, length_app in Hc. lia.
  - intros x [->|(j & Hne & Hj)]%(in_insert_client _ _ _ _ _ Hi); [done|]. intros y Hy.
    destruct (po_scan _ _ _ P x ltac:(by eapply list_elem_of_lookup_2) y Hy) as (b2 & bk2 & Hh & Hb2 & Hin). exists b2.
    destruct (decide (b2 = b)) as [->|Hnb].
    + exists bk'. rewrite Hrg, list_lookup_insert_eq by done. rewrite Hbk in Hb2. injection Hb2 as <-. split_and!; [done|done|].
      destruct Hil as [->|Hh2]; [done|]. by destruct (alone j x b Hj Hne Hh2 Hh).
    + exists bk2. by rewrite Hrg, list_lookup_insert_ne.
Qed.

(** A step that changes no bucket. *)
Lemma update_same s' c' : m_rgbucket s' = m_rgbucket s -> holder (pos c') = holder (pos c) ->
  (forall b, place (pos c') = Some b -> (b < length (m_rgbucket s))%nat) -> objs c' ≡ₚ objs c -> 0 <= m_semObjectCount s' ->
  m_semObjectCount s' - m_semObjectCount s + (claim c' - claim c) + (pending c' - pending c) = 0 -> scan_ok (m_rgbucket s) (pos c') -> pool_ok all s' (<[i := c']> ts).
Proof.
  intros Hrg Hh Hpl Hob Hsem Hcnt Hsc. pose proof (po_len _ _ _ P) as Hn. unfold m_cbucket in Hn.
  destruct (lookup_lt_is_Some_2 (m_rgbucket s) 0) as [bk Hbk]; [lia|]. assert (Hhs : forall b, holds b c' = holds b c) by (intros b; unfold holds; by rewrite Hh).
  apply (update s' c' 0 bk bk); try done; [by rewrite list_insert_id|rewrite Hhs; lia|by rewrite Hob|lia|by left|by rewrite Hrg].
Qed.

Definition good (r : outcome CPool client) : Prop :=
  match r with Blocked => True | Fault => False | Next s' c' => pool_ok all s' (<[i := c']> ts) end.

Lemma enter_good b (f : CBucket -> client) busy : (b < length (m_rgbucket s))%nat -> holder (pos c) = None -> good busy ->
  (forall bk, m_rgbucket s !! b = Some bk -> holder (pos (f bk)) = Some b /\ place (pos (f bk)) = Some b /\ objs (f bk) = objs c /\
     claim (f bk) = claim c /\ pending (f bk) = pending c /\ forall x, x ∈ marks (pos (f bk)) -> x ∈ m_il bk) ->
  good (enter s b f busy).
Proof.
  intros Hb Hh Hbusy Hf. unfold enter. destruct (lookup_lt_is_Some_2 _ _ Hb) as [bk Hbk]. rewrite Hbk. cbn [try]. destruct (m_crit bk) eqn:Hc; [done|].
  destruct (Hf bk Hbk) as (F1 & F2 & F3 & F4 & F5 & F6).
  assert (Hh0 : forall b', holds b' c = 0) by (intros b'; unfold holds; by rewrite Hh).
  eapply (update _ _ b bk); cbn [m_rgbucket m_crit m_il m_semObjectCount upd_bucket]; [done|done| | | | | | | |].
  - rewrite Hc, Hh0, holds_1 by done. done.
  - intros b' Hne. rewrite Hh0. unfold holds. rewrite F1, decide_False; [done|congruence].
  - intros b' Hp. congruence.
  - by rewrite F3.
  - apply P.
  - cbn [m_il]. lia.
  - by left.
  - intros x Hx. exists b, (Bucket true (m_il bk)). rewrite list_lookup_insert_eq by done. split_and!; [done|done|]. cbn. by apply F6.
Qed.

Lemma leave_good b c' : holder (pos c) = Some b -> holder (pos c') = None -> (forall b', place (pos c') = Some b' -> (b' < length (m_rgbucket s))%nat) ->
  objs c' = objs c -> claim c' = claim c -> pending c' = pending c -> marks (pos c') = [] -> good (leave s b c').
Proof.
  intros Hh Hh' Hpl Ho Hcl Hpe Hm. assert (Hb : (b < length (m_rgbucket s))%nat).
  { apply (po_place _ _ _ P c); [by eapply list_elem_of_lookup_2|]. by destruct (pos c). }
  unfold leave. destruct (lookup_lt_is_Some_2 _ _ Hb) as [bk Hbk]. rewrite Hbk. cbn [try].
  assert (Hc : m_crit bk = true).
  { pose proof (po_crit _ _ _ P b bk Hbk) as Hc. pose proof (total_ge (holds b) ts i c (holds_nonneg b) Hi) as Ht. rewrite holds_1 in Ht by done. destruct (m_crit bk); [done|cbn in Hc; lia]. }
  rewrite Hc. assert (Hh0 : forall b', holds b' c' = 0) by (intros b'; unfold holds; by rewrite Hh').
  eapply (update _ _ b bk); cbn [m_rgbucket m_crit m_il m_semObjectCount upd_bucket]; [done|done| |  |done|by rewrite Ho|apply P|cbn [m_il]; lia|by left|].
  - rewrite Hc, Hh0, holds_1 by done. done.
  - intros b' Hne. rewrite Hh0. unfold holds. rewrite Hh, decide_False; [done|congruence].
  - intros x Hx. rewrite Hm in Hx. by apply not_elem_of_nil in Hx.
Qed.

(** The list of the critical section that the client is in changes. *)
Lemma change_good b bk l c' : m_rgbucket s !! b = Some bk -> holder (pos c) = Some b -> holder (pos c') = Some b -> place (pos c') = Some b ->
  l ++ objs c' ≡ₚ m_il bk ++ objs c -> Z.of_nat (length l) - Z.of_nat (length (m_il bk)) = (claim c' - claim c) + (pending c' - pending c) ->
  (forall x, x ∈ marks (pos c') -> x ∈ l) -> good (Next (upd_bucket b (Bucket (m_crit bk) l) s) c').
Proof.
  intros Hbk Hh Hh' Hp Ho Hcnt Hm. pose proof (lookup_lt_Some _ _ _ Hbk) as Hlt.
  eapply (update _ _ b bk); cbn [m_rgbucket m_crit m_il m_semObjectCount upd_bucket]; [done|done| | | |done|apply P|cbn [m_il]; lia|by right|].
  - rewrite !holds_1 by done. cbn [m_crit]. lia.
  - intros b' Hne. unfold holds. by rewrite Hh, Hh'.
  - intros b' Hp'. congruence.
  - intros x Hx. exists b, (Bucket (m_crit bk) l). rewrite list_lookup_insert_eq by done. split_and!; [done|done|]. cbn. by apply Hm.
Qed.

Lemma here b : place (pos c) = Some b -> exists bk, m_rgbucket s !! b = Some bk.
Proof. intros Hp. apply lookup_lt_is_Some_2, (po_place _ _ _ P c); [by eapply list_elem_of_lookup_2|done]. Qed.

End Inv.

Lemma split_at (l : list Z) x : x ∈ l -> exists l1 l2, l = l1 ++ x :: l2 /\ Next_ l x = Some (head l2) /\ Remove_ l x = Some (l1 ++ l2).
Proof.
  induction l as [|y l IH]; [by intros ?%not_elem_of_nil|]. cbn [Next_ Remove_]. destruct (Z.eqb_spec y x) as [->|Hne].
  - intros _. by exists [], l.
  - intros [->|Hx]%elem_of_cons; [done|]. destruct (IH Hx) as (l1 & l2 & -> & -> & ->). by exists (y :: l1), l2.
Qed.

Lemma head_in (l : list Z) x : head l = Some x -> x ∈ l.
Proof. destruct l; [done|]. intros [= ->]. left. Qed.

Lemma last_in (l : list Z) x : list.last l = Some x -> x ∈ l.
Proof. intros Hl. apply last_Some in Hl as [l' ->]. apply elem_of_app. right. left. Qed.

Lemma in_option (o : option Z) x : x ∈ option_list o -> o = Some x.
Proof. destruct o; cbn; [by intros ->%list_elem_of_singleton|by intros ?%not_elem_of_nil]. Qed.

Lemma index_range s x : 0 < m_cbucket s -> (Z.to_nat (x mod m_cbucket s) < length (m_rgbucket s))%nat.
Proof. intros Hn. pose proof (Z.mod_pos_bound x _ Hn). unfold m_cbucket in *. lia. Qed.

(** ** Every step *)

Section Steps.
Context (sizeofCObject : Z) (all : list Z).

Ltac still := first [done | lia | by intros ? ?%not_elem_of_nil | cbn; lia].

Lemma pool_start_good s ts i c o : pool_ok all s ts -> ts !! i = Some c -> pos c = Out -> good all ts i (start sizeofCObject o s c).
Proof.
  intros P Hi Hp. pose proof (po_sem _ _ _ P) as Hsem. unfold start. destruct (op_call o); try done.
  - destruct (decide (pobj ∈ own c)) as [Hin|Hno].
    + destruct (split_at _ _ Hin) as (l1 & l2 & Eo & _ & ->). apply (update_same all s ts P i c Hi); unfold claim, pending; cbn [pos own]; rewrite ?Hp; try still.
      unfold objs. cbn [pos own flight]. rewrite Hp, Eo. cbn. by rewrite Permutation_middle.
    + destruct (Remove_ (own c) pobj) as [l|] eqn:Hr; [|done]. destruct Hno.
      clear -Hr. revert l Hr. induction (own c) as [|y ys IH]; intros l Hr; [done|]. cbn in Hr. destruct (Z.eqb_spec y pobj) as [->|]; [left|].
      destruct (Remove_ ys pobj) as [l0|]; [|done]. right. by eapply IH.
  - apply (update_same all s ts P i c Hi); unfold objs, claim, pending; cbn [pos own]; rewrite ?Hp; still.
  - apply (update_same all s ts P i c Hi); unfold objs, claim, pending; cbn [pos own]; rewrite ?Hp; still.
Qed.

Lemma pool_step_good s ts i c o : pool_ok all s ts -> ts !! i = Some c -> good all ts i (tstep sizeofCObject o s c).
Proof.
  intros P Hi. pose proof (po_len _ _ _ P) as Hlen. pose proof (po_sem _ _ _ P) as Hsem.
  pose proof (po_scan _ _ _ P c ltac:(by eapply list_elem_of_lookup_2)) as Hsc. unfold tstep. destruct c as [p ow r]. cbn [pos] in *.
  assert (Hsame : forall s' c', m_rgbucket s' = m_rgbucket s -> holder (pos c') = holder p -> (forall b, place (pos c') = Some b -> (b < length (m_rgbucket s))%nat) ->
    objs c' ≡ₚ objs (Client p ow r) -> 0 <= m_semObjectCount s' ->
    m_semObjectCount s' - m_semObjectCount s + (claim c' - claim (Client p ow r)) + (pending c' - pending (Client p ow r)) = 0 -> scan_ok (m_rgbucket s) (pos c') ->
    good all ts i (Next s' c')) by (intros; by apply (update_same all s ts P i _ Hi)).
  destruct p.
  - by apply pool_start_good.
  - unfold insert_try. apply (enter_good all s ts P i _ Hi); [apply index_range; lia|done| |by intros bk Hbk; split_and!; try done; intros x ?%not_elem_of_nil].
    destruct (_ <? _); [|done]. apply Hsame; still.
  - unfold insert_put. destruct (here all s ts P i _ Hi b eq_refl) as [bk Hbk]. rewrite Hbk. cbn [try].
    apply (change_good all s ts P i _ Hi b bk); try done; [| |by intros x ?%not_elem_of_nil].
    + destruct (_ && _); unfold objs; cbn; [by rewrite Permutation_middle|by rewrite <- app_assoc].
    + unfold claim, pending; cbn [pos]. destruct (_ && _); cbn [length]; rewrite ?length_app; cbn [length]; lia.
  - by apply (leave_good all s ts P i _ Hi).
  - apply Hsame; still.
  - apply Hsame; cbn; unfold sem_release; still.
  - destruct (Z.ltb_spec 0 (m_semObjectCount s)).
    + apply Hsame; cbn; still.
    + destruct fTest; apply Hsame; still.
  - apply Hsame; still.
  - destruct (op_timeout o); [apply Hsame; still|]. unfold sem_acquire. destruct (Z.ltb_spec 0 (m_semObjectCount s)); [|done].
    apply Hsame; cbn; still.
  - unfold remove_find. set (b := Z.to_nat _). assert (Hb : (b < length (m_rgbucket s))%nat) by (apply index_range; lia).
    destruct (lookup_lt_is_Some_2 _ _ Hb) as [bk Hbk]. rewrite Hbk. cbn [try]. destruct (m_il bk); apply Hsame; try still. by intros b' [= <-].
  - unfold remove_enter. destruct (here all s ts P i _ Hi b eq_refl) as [bk Hbk].
    apply (enter_good all s ts P i _ Hi); [by eapply lookup_lt_Some|done| |by intros bk' Hbk'; split_and!; try done; intros x ?%not_elem_of_nil].
    destruct (_ <? _); [|done]. apply Hsame; still.
  - unfold remove_take. destruct (here all s ts P i _ Hi b eq_refl) as [bk Hbk]. rewrite Hbk. cbn [try].
    destruct (if _ && _ then _ else _) as [pobj|] eqn:Ho.
    + assert (Hin : pobj ∈ m_il bk) by (destruct (_ && _); [by apply head_in|by apply last_in]).
      destruct (split_at _ _ Hin) as (l1 & l2 & El & _ & ->). cbn [try]. apply (change_good all s ts P i _ Hi b bk); try done; [| |by intros x ?%not_elem_of_nil]; rewrite El.
      * unfold objs. cbn. rewrite <- !app_assoc. cbn. by rewrite <- Permutation_middle, Permutation_middle.
      * unfold claim, pending; cbn [pos]. rewrite !length_app. cbn [length]. lia.
    + apply Hsame; try still. intros b' [= <-]. by eapply lookup_lt_Some.
  - destruct obj; by apply (leave_good all s ts P i _ Hi).
  - apply Hsame; still.
  - apply (enter_good all s ts P i _ Hi); [unfold m_cbucket in Hlen; lia|done|done|]. intros bk Hbk. split_and!; try done. cbn. intros x Hx%in_option. by apply head_in.
  - unfold scan_enter. destruct (here all s ts P i _ Hi b eq_refl) as [bk0 Hbk0]. apply (enter_good all s ts P i _ Hi); [by eapply lookup_lt_Some|done|done|].
    intros bk Hbk. destruct (head (m_il bk)) as [y|] eqn:Hh; split_and!; try done; cbn; [|by intros x ?%not_elem_of_nil].
    intros x ->%list_elem_of_singleton. by apply head_in.
  - unfold scan_move. destruct (here all s ts P i _ Hi b eq_refl) as [bk Hbk]. destruct (Z.ltb_spec (Z.of_nat b) (m_cbucket s - 1)).
    + apply (leave_good all s ts P i _ Hi); try done. intros b' [= <-]. unfold m_cbucket in *. lia.
    + apply Hsame; try still. intros b' [= <-]. by eapply lookup_lt_Some.
  - destruct (here all s ts P i _ Hi _ eq_refl) as [bk Hbk]. assert (Hpl : (m_pbucket plock < length (m_rgbucket s))%nat) by (by eapply lookup_lt_Some).
    assert (Hmk : forall x, x ∈ marks (Scan plock) -> x ∈ m_il bk).
    { intros x Hx. destruct (Hsc x Hx) as (b2 & bk2 & [= <-] & Hb2 & Hx2). congruence. }
    destruct (op_call o); try done.
    + unfold get_next. rewrite Hbk. cbn [try].
      assert (Hn : exists oo, (match m_pobj plock with Some pobj => Next_ (m_il bk) pobj | None => Some (m_pobjNext plock) end) = Some oo /\ forall x, oo = Some x -> x ∈ m_il bk).
      { destruct (m_pobj plock) as [y|] eqn:Ey.
        - assert (Hy : y ∈ m_il bk) by (apply Hmk; cbn; rewrite Ey; left). destruct (split_at _ _ Hy) as (l1 & l2 & El & -> & _). exists (head l2). split; [done|].
          intros x Hx%head_in. rewrite El. apply elem_of_app. right. by right.
        - exists (m_pobjNext plock). split; [done|]. intros x Hx. apply Hmk. cbn. rewrite Ey, Hx. left. }
      destruct Hn as (oo & -> & Hoo). cbn [try]. destruct oo as [y|].
      * apply Hsame; try still; [by intros b' [= <-]|]. intros x ->%list_elem_of_singleton. exists (m_pbucket plock), bk. split_and!; [done|done|by apply Hoo].
      * apply Hsame; try still. by intros b' [= <-].
    + unfold remove_current. destruct (m_pobj plock) as [y|] eqn:Ey.
      * destruct (Z.ltb_spec 0 (m_semObjectCount s)).
        -- apply Hsame; try still; [by intros b' [= <-]|]. intros x ->%list_elem_of_singleton. apply Hsc. cbn. rewrite Ey. left.
        -- apply Hsame; try still. by intros b' [= <-].
      * apply Hsame; try still. by intros b' [= <-].
    + by apply (leave_good all s ts P i _ Hi).
  - unfold scan_take. destruct (here all s ts P i _ Hi _ eq_refl) as [bk Hbk]. rewrite Hbk. cbn [try].
    assert (Hin : pobj ∈ m_il bk) by (destruct (Hsc pobj ltac:(left)) as (b2 & bk2 & [= <-] & Hb2 & Hx2); congruence).
    destruct (split_at _ _ Hin) as (l1 & l2 & El & -> & ->). cbn [try]. apply (change_good all s ts P i _ Hi _ bk); try done.
    + rewrite El. unfold objs. cbn. rewrite <- !app_assoc. cbn. by rewrite <- Permutation_middle, Permutation_middle.
    + rewrite El. unfold claim, pending; cbn [pos]. rewrite !length_app. cbn [length]. lia.
    + cbn. intros x Hx%in_option%head_in. apply elem_of_app. by right.
  - destruct (here all s ts P i _ Hi _ eq_refl) as [bk Hbk]. apply Hsame; try still. intros b' [= <-]. by eapply lookup_lt_Some.
Qed.

End Steps.

(** ** Executions *)

Lemma drain_0 n sem : 0 <= sem <= Z.of_nat n -> drain n sem = Some 0.
Proof.
  revert sem. induction n as [|n IH]; intros sem Hs; cbn [drain]; destruct (Z.ltb_spec 0 sem); try lia; [f_equal; lia|apply IH; lia|f_equal; lia].
Qed.

(** [Term] returns, and leaves neither buckets nor units behind. *)
Lemma Term_empties s : 0 <= m_semObjectCount s -> Term s = Some (Pool [] 0 (m_cInsert s) (m_cRemove s) (m_cRemoveWait s)).
Proof. intros Hs. unfold Term. rewrite drain_0 by lia. done. Qed.

(** A new pool on a machine with [n] processors; the clients own the objects [owns]. *)
Definition pool_init (n : nat) (owns : list (list Z)) : conf CPool client :=
  Conf (ErrInit n true true).2 ((fun l => Client Out l None) <$> owns).

Lemma pool_init_ok n owns : 0 < Z.of_nat n < 2 ^ 32 -> pool_ok (concat owns) (shared (pool_init n owns)) (pcs (pool_init n owns)).
Proof.
  intros Hn. unfold pool_init. cbn [shared pcs ErrInit negb snd].
  assert (Hout : forall c, c ∈ (fun l => Client Out l None) <$> owns -> pos c = Out) by (intros c (l & -> & _)%list_elem_of_fmap; done).
  assert (Hl : concat (lists (Pool (replicate n (Bucket false [])) 0 0 0 0)) = []) by (unfold lists; cbn; clear; induction n; by cbn).
  split.
  - unfold m_cbucket. cbn. by rewrite length_replicate.
  - intros b bk [-> _]%lookup_replicate_1. rewrite total_0; [done|]. intros c Hc. unfold holds. by rewrite (Hout c Hc).
  - intros c Hc b. by rewrite (Hout c Hc).
  - rewrite Hl. cbn [app]. rewrite <- list_fmap_compose. replace (objs ∘ _) with (fun l : list Z => l) by done. by rewrite list_fmap_id.
  - cbn. lia.
  - rewrite Hl, !total_0; [done| |]; intros c Hc; unfold claim, pending; by rewrite (Hout c Hc).
  - intros c Hc x. rewrite (Hout c Hc). by intros ?%not_elem_of_nil.
Qed.

Section Executions.
Context (sizeofCObject : Z).

Lemma pool_ok_reachable all c c' : pool_ok all (shared c) (pcs c) -> rtc (step (tstep sizeofCObject)) c c' -> pool_ok all (shared c') (pcs c').
Proof.
  intros P. apply (invariant_reachable _ (fun c => pool_ok all (shared c) (pcs c))); [|done]. clear.
  intros c c' P Hs. destruct Hs as [o s ts i p s' p' Hi E]. cbn [shared pcs] in *. pose proof (pool_step_good sizeofCObject all s ts i p o P Hi) as G. by rewrite E in G.
Qed.

Lemma pool_reachable n owns c : 0 < Z.of_nat n < 2 ^ 32 -> rtc (step (tstep sizeofCObject)) (pool_init n owns) c -> pool_ok (concat owns) (shared c) (pcs c).
Proof. intros Hn. apply pool_ok_reachable. by apply pool_init_ok. Qed.

(** C20: in every execution of a pool of [n] buckets, from its initialisation on, no client
    dereferences a bad bucket, leaves a critical section that is not entered or takes an
    object out of a list that it is not in; no object is lost or handed out twice: those in the
    lists and those of the clients are together the objects there are; two clients are never
    in the same critical section; and the semaphore never promises more than the lists have:
    their objects are its units, those that removers have taken but not used, and those that
    inserters have not released yet. *)
Theorem pool_conserves_objects n owns c : 0 < Z.of_nat n < 2 ^ 32 -> rtc (step (tstep sizeofCObject)) (pool_init n owns) c ->
  (forall i t o, pcs c !! i = Some t -> tstep sizeofCObject o (shared c) t <> Fault) /\
  concat (lists (shared c)) ++ concat (objs <$> pcs c) ≡ₚ concat owns /\
  (forall i j t t' b, i <> j -> pcs c !! i = Some t -> pcs c !! j = Some t' -> holder (pos t) = Some b -> holder (pos t') <> Some b) /\
  0 <= m_semObjectCount (shared c) /\
  Z.of_nat (length (concat (lists (shared c)))) = m_semObjectCount (shared c) + total claim (pcs c) + total pending (pcs c).
Proof.
  intros Hn Hr. pose proof (pool_reachable n owns c Hn Hr) as P. split_and!; [|apply P| |apply P|apply P].
  - intros i t o Hi E. pose proof (pool_step_good sizeofCObject _ _ _ i t o P Hi) as G. by rewrite E in G.
  - intros i j t t' b Hne Hi Hj H1 H2. by apply (alone _ _ _ P j t' Hj i t b Hi Hne H2 H1).
Qed.

(** What a client may be waiting for. *)
Lemma step_or_wait all s ts i t : pool_ok all s ts -> ts !! i = Some t -> pos t <> Out ->
  (exists o s' t', op_timeout o = false /\ tstep sizeofCObject o s t = Next s' t') \/
  (exists b bk, m_rgbucket s !! b = Some bk /\ m_crit bk = true /\ holder (pos t) = None) \/
  (exists fMRU, pos t = RemWait fMRU /\ m_semObjectCount s = 0).
Proof.
  intros P Hi Hp. set (o := Op EndPoolScan 0 false). pose proof (pool_step_good sizeofCObject all s ts i t o P Hi) as G.
  destruct (tstep sizeofCObject o s t) as [| |s' t'] eqn:E; [|done|left; by exists o, s', t'].
  right. destruct t as [p ow r]. cbn [pos] in *. pose proof (po_len _ _ _ P) as Hlen. pose proof (po_sem _ _ _ P).
  assert (Hent : forall b f busy, holder p = None -> enter s b f busy = Blocked -> exists b bk, m_rgbucket s !! b = Some bk /\ m_crit bk = true /\ holder p = None).
  { intros b f busy Hh He. unfold enter in He. destruct (m_rgbucket s !! b) as [bk|] eqn:Hb; [|done]. cbn in He. destruct (m_crit bk) eqn:Hc; [|done]. by exists b, bk. }
  unfold tstep in E. cbn [pos] in E. destruct p; try done.
  all: try (left; by eapply Hent).
  all: try (unfold insert_put, leave, remove_find, remove_take, scan_move, scan_take, leave, try in E; cbn in E; repeat case_match; done).
  right. exists fMRU. split; [done|]. cbn in E. unfold sem_acquire in E. destruct (Z.ltb_spec 0 (m_semObjectCount s)); [done|lia].
Qed.

(** C21: no client is stuck.  One that is inside a call can go on without giving up its wait,
    or another one that is in a critical section can; or it waits for an object when the
    semaphore is at 0, and then every object in the lists is due to a remover that has taken
    its unit, or to an inserter that is about to release one: no wake-up is lost. *)
Theorem pool_no_deadlock n owns c i t : 0 < Z.of_nat n < 2 ^ 32 -> rtc (step (tstep sizeofCObject)) (pool_init n owns) c -> pcs c !! i = Some t -> pos t <> Out ->
  (exists o s' t', op_timeout o = false /\ tstep sizeofCObject o (shared c) t = Next s' t') \/
  (exists j t2 b o s' t', j <> i /\ pcs c !! j = Some t2 /\ holder (pos t2) = Some b /\ op_timeout o = false /\ tstep sizeofCObject o (shared c) t2 = Next s' t') \/
  (exists fMRU, pos t = RemWait fMRU /\ m_semObjectCount (shared c) = 0 /\ Z.of_nat (length (concat (lists (shared c)))) = total claim (pcs c) + total pending (pcs c)).
Proof.
  intros Hn Hr Hi Hp. pose proof (pool_reachable n owns c Hn Hr) as P.
  destruct (step_or_wait _ _ _ i t P Hi Hp) as [Hs|[(b & bk & Hbk & Hc & Hh)|(fMRU & Hw & Hs)]]; [by left| |].
  - right. left. pose proof (po_crit _ _ _ P b bk Hbk) as Ht. rewrite Hc in Ht. destruct (total_pos (holds b) (pcs c)) as (j & t2 & Hj & Hpos); [cbn in Ht; lia|].
    unfold holds in Hpos. destruct (decide (holder (pos t2) = Some b)) as [Hh2|]; [|lia].
    destruct (step_or_wait _ _ _ j t2 P Hj) as [(o & s' & t' & Ho & Hs)|[(b' & bk' & _ & _ & Hno)|(fMRU & Hw & _)]]; [by destruct (pos t2)| |congruence|by rewrite Hw in Hh2].
    exists j, t2, b, o, s', t'. split_and!; try done. intros ->. congruence.
  - right. right. exists fMRU. split_and!; [done|done|]. pose proof (po_count _ _ _ P). lia.
Qed.

(** ** One client alone *)

Fixpoint solo (m : nat) (o : op) (s : CPool) (t : client) : option (CPool * client) :=
  match m with
  | O => Some (s, t)
  | S m => match tstep sizeofCObject o s t with Next s' t' => solo m o s' t' | _ => None end
  end.

Lemma solo_exec m o i ts s t s' t' : ts !! i = Some t -> solo m o s t = Some (s', t') ->
  exec (tstep sizeofCObject) (replicate m (i, o)) (Conf s ts) = Some (Conf s' (<[i := t']> ts)).
Proof.
  revert ts s t. induction m as [|m IH]; intros ts s t Hi Hs; cbn [solo replicate exec pcs shared] in *; [injection Hs as -> ->; by rewrite list_insert_id|].
  rewrite Hi. destruct (tstep sizeofCObject o s t) as [| |s1 t1]; try done. rewrite (IH (<[i := t1]> ts) s1 t1); [by rewrite list_insert_insert_eq|by rewrite list_lookup_insert_eq by (by eapply lookup_lt_Some)|done].
Qed.

Lemma exec_app sched1 sched2 c c1 : exec (tstep sizeofCObject) sched1 c = Some c1 ->
  exec (tstep sizeofCObject) (sched1 ++ sched2) c = exec (tstep sizeofCObject) sched2 c1.
Proof.
  revert c. induction sched1 as [|[i o] sched IH]; intros c H; cbn [exec app] in *; [by injection H as ->|].
  destruct (pcs c !! i); [|done]. destruct (tstep sizeofCObject o (shared c) c0); try done. by apply IH.
Qed.

Lemma solo_add m1 m2 o s t s1 t1 : solo m1 o s t = Some (s1, t1) -> solo (m1 + m2) o s t = solo m2 o s1 t1.
Proof.
  revert s t. induction m1 as [|m IH]; intros s t H; cbn [solo Nat.add] in *; [by injection H as -> ->|].
  destruct (tstep sizeofCObject o s t); try done. by apply IH.
Qed.

(** The object a remover takes from a bucket that is not empty. *)
Definition chosen (ibucket : Z) (fMRU : bool) (l : list Z) : option Z := if (u32 (u32 (ibucket + 1) - 1) =? 0) && fMRU then head l else list.last l.

Lemma chosen_split ibucket fMRU l : l <> [] -> exists x l', chosen ibucket fMRU l = Some x /\ Remove_ l x = Some l' /\ l ≡ₚ x :: l'.
Proof.
  intros Hl. assert (Hx : exists x, chosen ibucket fMRU l = Some x /\ x ∈ l).
  { unfold chosen. destruct (_ && _).
    - destruct l as [|x l]; [done|]. exists x. split; [done|left].
    - destruct (list.last l) as [x|] eqn:E; [exists x; split; [done|by apply last_in]|]. by apply last_None in E. }
  destruct Hx as (x & Hc & Hin). destruct (split_at _ _ Hin) as (l1 & l2 & -> & _ & Hr). exists x, (l1 ++ l2). split_and!; [done|done|]. by rewrite Permutation_middle.
Qed.

(** From a bucket that has an object and is free. *)
Lemma remove_here o s fMRU base ib ow r b bk x l : b = Z.to_nat (u32 (base + ib) mod m_cbucket s) -> m_rgbucket s !! b = Some bk -> m_crit bk = false ->
  chosen ib fMRU (m_il bk) = Some x -> Remove_ (m_il bk) x = Some l ->
  solo 5 o s (Client (RemFind fMRU base ib) ow r) = Some (count_remove (upd_bucket b (Bucket false l) s), Client Out (x :: ow) (Some (errSuccess, Some x))).
Proof.
  intros Hb Hbk Hc Hx Hl. pose proof (lookup_lt_Some _ _ _ Hbk) as Hlt. assert (Hne : m_il bk <> []) by (intros E; by rewrite E in Hl).
  cbn [solo]. unfold tstep, remove_find, remove_enter, enter, remove_take, leave. cbn [pos own res]. rewrite <- Hb, Hbk. cbn [try].
  destruct (m_il bk) as [|y ys] eqn:Eil; [done|]. cbn [solo pos]. rewrite Hbk. cbn [try]. rewrite Hc. cbn [solo pos own res upd_bucket m_rgbucket].
  rewrite list_lookup_insert_eq by done. cbn [try m_il m_crit]. rewrite Eil. unfold chosen in Hx. rewrite Hx. rewrite Hl. cbn [try solo pos own res upd_bucket m_rgbucket].
  rewrite list_lookup_insert_eq by (by rewrite length_insert). cbn [try m_crit m_il solo pos own res]. unfold upd_bucket. cbn. by rewrite !list_insert_insert_eq.
Qed.

(** Among the buckets that a remover visits, in at most two rounds, is every one of them, also
    when its 32-bit index wraps around. *)
Lemma visits n x b : 0 < n < 2 ^ 32 -> 0 <= b < n -> exists k, 0 <= k < 2 * n /\ u32 (x + k) mod n = b.
Proof.
  intros Hn Hb. unfold u32. pose proof (Z.mod_pos_bound x (2 ^ 32) ltac:(lia)) as Hw. set (w := x mod 2 ^ 32) in *.
  assert (Hk : forall k, (x + k) mod 2 ^ 32 = (w + k) mod 2 ^ 32) by (intros k; unfold w; by rewrite Z.add_mod_idemp_l).
  destruct (Z.le_gt_cases (w + n) (2 ^ 32)) as [Hle|Hgt].
  - exists ((b - w) mod n). pose proof (Z.mod_pos_bound (b - w) n ltac:(lia)). split; [lia|]. rewrite Hk, (Z.mod_small (w + _)) by lia.
    rewrite Z.add_mod_idemp_r by lia. rewrite <- (Z.mod_small b n) at 2 by lia. f_equal. lia.
  - exists (2 ^ 32 - w + b). split; [lia|]. rewrite Hk. replace (w + (2 ^ 32 - w + b)) with (b + 1 * 2 ^ 32) by lia. rewrite Z.mod_add by lia.
    rewrite (Z.mod_small b (2 ^ 32)) by lia. apply Z.mod_small. lia.
Qed.

(** The remover finds an object when one of the next [k + 1] buckets has one. *)
Lemma remove_search o s fMRU base ow r (k : nat) ib b bk : (forall b bk, m_rgbucket s !! b = Some bk -> m_crit bk = false) -> 0 < m_cbucket s ->
  b = Z.to_nat (u32 (base + ib + Z.of_nat k) mod m_cbucket s) -> m_rgbucket s !! b = Some bk -> m_il bk <> [] ->
  exists (m : nat) s' x, (m <= k + 5)%nat /\ solo m o s (Client (RemFind fMRU base ib) ow r) = Some (s', Client Out (x :: ow) (Some (errSuccess, Some x))) /\
    concat (lists s) ≡ₚ x :: concat (lists s').
Proof.
  intros Hfree Hn. assert (Hfound : forall ib b bk, b = Z.to_nat (u32 (base + ib) mod m_cbucket s) -> m_rgbucket s !! b = Some bk -> m_il bk <> [] ->
    exists s' x, solo 5 o s (Client (RemFind fMRU base ib) ow r) = Some (s', Client Out (x :: ow) (Some (errSuccess, Some x))) /\ concat (lists s) ≡ₚ x :: concat (lists s')).
  { clear ib b bk. intros ib b bk Hb Hbk Hne. destruct (chosen_split ib fMRU (m_il bk) Hne) as (x & l & Hx & Hl & Hp).
    eexists _, x. split; [by eapply remove_here; [|done|by eapply Hfree|..]|]. unfold lists. cbn [m_rgbucket count_remove upd_bucket]. rewrite list_fmap_insert. cbn [m_il].
    destruct (concat_insert (m_il <$> m_rgbucket s) b (m_il bk) l) as (rest & E1 & E2); [by rewrite list_lookup_fmap, Hbk|]. by rewrite E1, E2, Hp. }
  revert ib b bk. induction k as [|k IH]; intros ib b bk Hb Hbk Hne.
  - rewrite Z.add_0_r in Hb. destruct (Hfound ib b bk Hb Hbk Hne) as (s' & x & E & Hc). by exists 5%nat, s', x.
  - destruct (lookup_lt_is_Some_2 _ _ (index_range s (u32 (base + ib)) Hn)) as [bk0 Hbk0]. destruct (decide (m_il bk0 = [])) as [He|Hf].
    + destruct (IH (u32 (ib + 1)) b bk) as (m & s' & x & Hm & E & Hc); [|done|done|].
      * rewrite Hb. do 2 f_equal. unfold u32. replace (base + (ib + 1) mod 2 ^ 32 + Z.of_nat k) with ((ib + 1) mod 2 ^ 32 + (base + Z.of_nat k)) by lia.
        rewrite Z.add_mod_idemp_l by lia. f_equal. lia.
      * exists (S m), s', x. split_and!; [lia| |done]. cbn [solo]. unfold tstep, remove_find. cbn [pos]. rewrite Hbk0. cbn [try]. by rewrite He.
    + destruct (Hfound ib _ bk0 eq_refl Hbk0 Hf) as (s' & x & E & Hc). exists 5%nat, s', x. split_and!; [lia|done|done].
Qed.

(** Some bucket has an object when one of the lists together is there. *)
Lemma some_bucket s : (0 < length (concat (lists s)))%nat -> exists b bk, m_rgbucket s !! b = Some bk /\ m_il bk <> [].
Proof.
  unfold lists. induction (m_rgbucket s) as [|bk rg IH]; cbn; [lia|]. destruct (m_il bk) as [|x l] eqn:E; [|intros _; exists 0%nat, bk; by rewrite E].
  intros H. destruct (IH H) as (b & bk' & Hb & Hne). by exists (S b), bk'.
Qed.

(** C22: [ErrRemove] returns an object, when it runs while the semaphore has a unit and no
    other client is in a critical section: after at most [2 n + 6] steps, on whichever
    processor and although the index of the bucket wraps around at 32 bits, the client owns one
    more object, which is no longer in the pool. *)
Theorem pool_remove_ends n owns c i t fTest fMRU cpu timeout : 0 < Z.of_nat n < 2 ^ 32 -> rtc (step (tstep sizeofCObject)) (pool_init n owns) c ->
  pcs c !! i = Some t -> pos t = Out -> 0 < m_semObjectCount (shared c) -> (forall b bk, m_rgbucket (shared c) !! b = Some bk -> m_crit bk = false) ->
  exists (m : nat) c' x, (m <= 2 * length (m_rgbucket (shared c)) + 6)%nat /\
    exec (tstep sizeofCObject) (replicate m (i, Op (ErrRemove fTest fMRU) cpu timeout)) c = Some c' /\
    pcs c' = <[i := Client Out (x :: own t) (Some (errSuccess, Some x))]> (pcs c) /\ concat (lists (shared c)) ≡ₚ x :: concat (lists (shared c')).
Proof.
  intros Hn Hr Hi Hp Hs Hfree. pose proof (pool_reachable n owns c Hn Hr) as P. pose proof (po_len _ _ _ P) as Hlen. pose proof (po_count _ _ _ P) as Hcnt.
  pose proof (total_nonneg claim (pcs c) ltac:(intros q; unfold claim; repeat case_match; lia)). pose proof (total_nonneg pending (pcs c) ltac:(intros q; unfold pending; case_match; lia)).
  destruct (some_bucket (shared c)) as (b & bk & Hbk & Hne); [lia|]. pose proof (lookup_lt_Some _ _ _ Hbk) as Hlt.
  set (o := Op (ErrRemove fTest fMRU) cpu timeout). set (s1 := set_sem (m_semObjectCount (shared c) - 1) (shared c)).
  destruct (visits (m_cbucket (shared c)) (cpu + 0) (Z.of_nat b) Hlen) as (k & Hk & Ek); [unfold m_cbucket; lia|].
  destruct (remove_search o s1 fMRU cpu (own t) (res t) (Z.to_nat k) 0 b bk) as (m & s' & x & Hm & E & Hc); [done|apply Hlen| |done|done|].
  { rewrite Z2Nat.id by lia. change (m_cbucket s1) with (m_cbucket (shared c)). rewrite Ek. lia. }
  destruct c as [s ts]. cbn [shared pcs] in *. exists (2 + m)%nat, (Conf s' (<[i := Client Out (x :: own t) (Some (errSuccess, Some x))]> ts)), x.
  split_and!; [unfold m_cbucket in *; lia| |done|done]. apply solo_exec with t; [done|].
  rewrite (solo_add 2 m o s t s1 (Client (RemFind fMRU cpu 0) (own t) (res t))); [done|]. cbn [solo]. unfold tstep at 1. rewrite Hp. cbn. by rewrite (proj2 (Z.ltb_lt _ _) Hs).
Qed.

(** [Insert] on the processor whose bucket is free. *)
Lemma insert_here s t x l cpu timeout b bk : pos t = Out -> Remove_ (own t) x = Some l -> b = Z.to_nat (u64 cpu mod m_cbucket s) ->
  m_rgbucket s !! b = Some bk -> m_crit bk = false ->
  solo 6 (Op (Insert x true) cpu timeout) s t =
    Some (set_sem (m_semObjectCount s + 1) (count_insert (upd_bucket b (Bucket false (x :: m_il bk)) s)), Client Out l None).
Proof.
  intros Hp Hx Hb Hbk Hc. pose proof (lookup_lt_Some _ _ _ Hbk) as Hlt. cbn [solo]. unfold tstep at 1. rewrite Hp. unfold start. cbn [op_call op_cpu insert_base].
  rewrite Hx. unfold tstep, insert_try, enter, insert_put, leave. cbn [solo pos own res]. rewrite Z.add_0_r, <- Hb, Hbk. cbn [try]. rewrite Hc.
  cbn [solo pos own res upd_bucket m_rgbucket]. rewrite list_lookup_insert_eq by done. cbn [try solo pos own res upd_bucket m_rgbucket].
  rewrite list_lookup_insert_eq by (by rewrite length_insert). cbn [try m_crit m_il]. unfold upd_bucket, count_insert, set_sem, sem_release. cbn. by rewrite !list_insert_insert_eq.
Qed.

(** what a thread inserts as the most recently used object is what the next thread on the
    same processor removes that asks for the most recently used one: [Insert] is through after
    six steps and [ErrRemove] after seven, the object has changed hands, and the lists and the
    semaphore are as they were. *)
Theorem pool_insert_remove n owns c i j t1 t2 x l fTest cpu timeout : 0 < Z.of_nat n < 2 ^ 32 -> rtc (step (tstep sizeofCObject)) (pool_init n owns) c ->
  i <> j -> pcs c !! i = Some t1 -> pcs c !! j = Some t2 -> pos t1 = Out -> pos t2 = Out -> Remove_ (own t1) x = Some l -> 0 <= cpu < 2 ^ 32 ->
  (forall b bk, m_rgbucket (shared c) !! b = Some bk -> m_crit bk = false) ->
  exists c', exec (tstep sizeofCObject) (replicate 6 (i, Op (Insert x true) cpu timeout) ++ replicate 7 (j, Op (ErrRemove fTest true) cpu timeout)) c = Some c' /\
    pcs c' = <[j := Client Out (x :: own t2) (Some (errSuccess, Some x))]> (<[i := Client Out l None]> (pcs c)) /\
    m_rgbucket (shared c') = m_rgbucket (shared c) /\ m_semObjectCount (shared c') = m_semObjectCount (shared c).
Proof.
  intros Hn Hr Hne Hi Hj Hp1 Hp2 Hx Hcpu Hfree. pose proof (pool_reachable n owns c Hn Hr) as P. pose proof (po_len _ _ _ P) as Hlen. pose proof (po_sem _ _ _ P) as Hsem.
  destruct c as [s ts]. cbn [shared pcs] in *. destruct (lookup_lt_is_Some_2 _ _ (index_range s cpu (proj1 Hlen))) as [bk Hbk]. set (b := Z.to_nat (cpu mod m_cbucket s)) in *.
  set (s1 := set_sem (m_semObjectCount s + 1) (count_insert (upd_bucket b (Bucket false (x :: m_il bk)) s))).
  set (s2 := set_sem (m_semObjectCount s) s1). pose proof (lookup_lt_Some _ _ _ Hbk) as Hlt.
  assert (Hlen1 : m_cbucket s2 = m_cbucket s) by (unfold m_cbucket; cbn; by rewrite length_insert).
  assert (Hb64 : b = Z.to_nat (u64 cpu mod m_cbucket s)) by (unfold b, u64; by rewrite (Z.mod_small cpu (2 ^ 64)) by lia).
  pose proof (insert_here s t1 x l cpu timeout b bk Hp1 Hx Hb64 Hbk (Hfree b bk Hbk)) as E1.
  eexists. split.
  - rewrite (exec_app _ _ _ _ (solo_exec 6 _ i ts s t1 _ _ Hi E1)). apply solo_exec with t2; [by rewrite list_lookup_insert_ne|].
    etransitivity; [apply (solo_add 2 5 _ s1 t2 s2 (Client (RemFind true cpu 0) (own t2) (res t2)))|].
    + cbn [solo]. unfold tstep at 1. rewrite Hp2. cbn. rewrite (proj2 (Z.ltb_lt 0 (m_semObjectCount s + 1))) by lia. unfold s2, set_sem. cbn. do 4 f_equal. lia.
    + apply (remove_here _ s2 true cpu 0 (own t2) (res t2) b (Bucket false (x :: m_il bk)) x (m_il bk)); [|by apply list_lookup_insert_eq|done|done|by cbn; rewrite Z.eqb_refl].
      rewrite Z.add_0_r, Hlen1. unfold u32. by rewrite (Z.mod_small cpu (2 ^ 32)) by lia.
  - cbn [pcs shared]. split_and!; [done| |done]. cbn. rewrite list_insert_insert_eq. apply list_insert_id. rewrite Hbk. f_equal. destruct bk as [cr il]. cbn. f_equal. apply (Hfree b _ Hbk).
Qed.

End Executions.

(** ** Witnesses *)

(** Two buckets, a client with two objects and one without; the first object is inserted. *)
Definition pool_demo : conf CPool client := Conf (Pool [Bucket false []; Bucket false [80]] 1 1 0 0) [Client Out [160] None; Client Out [] None].

Lemma pool_demo_reached : rtc (step (tstep 8)) (pool_init 2 [[80; 160]; []]) pool_demo.
Proof. apply (exec_steps _ (replicate 6 (0%nat, Op (Insert 80 true) 1 false))). vm_compute. reflexivity. Qed.

Lemma pool_demo_free b bk : m_rgbucket (shared pool_demo) !! b = Some bk -> m_crit bk = false.
Proof. destruct b as [|[|b]]; intros H; cbn in H; [injection H as <-; reflexivity..|]. discriminate H. Qed.

Lemma pool_conserves_objects_witness : concat (lists (shared pool_demo)) ++ concat (objs <$> pcs pool_demo) ≡ₚ [80; 160].
Proof. apply (pool_conserves_objects 8 2 [[80; 160]; []]); [lia|apply pool_demo_reached]. Defined.

(** The client without an object waits. *)
Lemma pool_no_deadlock_witness : exists c, exec (tstep 8) (replicate 3 (1%nat, Op (ErrRemove false true) 1 false)) (pool_init 2 [[80; 160]; []]) = Some c /\
  (exists s' t', tstep 8 (Op (Insert 80 true) 0 false) (shared c) (Client Out [80; 160] None) = Next s' t') /\ exists t, pcs c !! 1%nat = Some t /\
  ((exists o s' t', op_timeout o = false /\ tstep 8 o (shared c) t = Next s' t') \/
   (exists j t2 b o s' t', j <> 1%nat /\ pcs c !! j = Some t2 /\ holder (pos t2) = Some b /\ op_timeout o = false /\ tstep 8 o (shared c) t2 = Next s' t') \/
   (exists fMRU, pos t = RemWait fMRU /\ m_semObjectCount (shared c) = 0 /\ Z.of_nat (length (concat (lists (shared c)))) = total claim (pcs c) + total pending (pcs c))).
Proof.
  eexists. split; [vm_compute; reflexivity|]. split; [eexists _, _; vm_compute; reflexivity|]. eexists. split; [reflexivity|].
  apply (pool_no_deadlock 8 2 [[80; 160]; []]) with (i := 1%nat); [lia| |reflexivity|discriminate].
  eapply exec_steps with (sched := replicate 3 (1%nat, Op (ErrRemove false true) 1 false)). vm_compute. reflexivity.
Defined.

(** The object is found on another processor. *)
Lemma pool_remove_ends_witness : exists (m : nat) c' x, (m <= 10)%nat /\
  exec (tstep 8) (replicate m (1%nat, Op (ErrRemove true true) 4294967295 false)) pool_demo = Some c' /\
  pcs c' = [Client Out [160] None; Client Out [x] (Some (errSuccess, Some x))] /\ [80] ≡ₚ x :: concat (lists (shared c')).
Proof.
  destruct (pool_remove_ends 8 2 [[80; 160]; []] pool_demo 1%nat (Client Out [] None) true true 4294967295 false) as (m & c' & x & Hm & E & Hp & Hc);
    [lia|apply pool_demo_reached|reflexivity..|apply pool_demo_free|].
  exists m, c', x. split_and!; [exact Hm|exact E|exact Hp|exact Hc].
Defined.

Lemma pool_insert_remove_witness : exists c', exec (tstep 8) (replicate 6 (0%nat, Op (Insert 160 true) 3 false) ++ replicate 7 (1%nat, Op (ErrRemove true true) 3 false)) (pool_init 2 [[80; 160]; []]) = Some c' /\
  pcs c' = [Client Out [80] None; Client Out [160] (Some (errSuccess, Some 160))] /\ m_rgbucket (shared c') = replicate 2 (Bucket false []) /\ m_semObjectCount (shared c') = 0.
Proof.
  apply (pool_insert_remove 8 2 [[80; 160]; []] (pool_init 2 [[80; 160]; []]) 0%nat 1%nat (Client Out [80; 160] None) (Client Out [] None)); try reflexivity; [lia|discriminate|lia|].
  intros [|[|b]] bk H; cbn in H; [injection H as <-; reflexivity..|]. discriminate H.
Defined.

(** A cache line of 32 bytes. *)
Lemma aligned_memory_roundtrip_witness : exists m' p, _PvMEMAlloc (fun _ => Some 1000) ∅ 128 32 = Some (m', Some p) /\ p mod 32 = 0 /\ _MEMFree m' (Some p) = Some (Some 1000).
Proof.
  destruct (aligned_memory_roundtrip (fun _ => Some 1000) ∅ 128 32 1000) as (m' & p & E & Hp & _ & _ & _ & Hf); [lia|lia|lia|reflexivity|lia|].
  exists m', p. split_and!; [exact E|exact Hp|]. apply Hf. reflexivity.
Defined.
