(* ===== verification/HashTable.v ===== *)
(** * HashTable: the dynamic hash table shared by threads

    [CDynamicHashTable] of dht.hxx: a directory of bucket arrays that grows and
    shrinks one bucket at a time while clients use it.  A key is hashed to a bucket by
    linear hashing: with [m_cBucketMax] buckets and [m_cBucket] buckets already split,
    the bucket is the hash modulo [2 * m_cBucketMax], or modulo [m_cBucketMax] when
    that is not in use yet.  Clients lock the bucket of a key; growing and shrinking
    lock the two buckets concerned.  The state [m_stateCur] says which of the two is
    allowed; it changes in steps, and every step waits (through metered sections) until
    no client uses the table under the step before.

    A client with its [CLock] is a thread; each step is one access to shared state.
    An access that is protected by a lock of the client (the operations on a chain, a
    split, a merge) is one step with what it protects.  The state that only guides
    maintenance (counters, the preferred size) is read and written in the step that
    uses it.  The reader-writer lock of a bucket, the metered sections and the
    semaphore are what their own files show of them: counts of readers, writers, threads
    in the two groups, and units.  What the environment decides is in the operation: the
    processor a call runs on, the memory the allocator returns, and whether writers are
    quiesced on a lock when a split or merge asks. *)

From stdpp Require Import gmap.
From S2P Require Import Prelude HashBucket Threads.

(** ** The state machine *)

Inductive ENUMSTATE :=
  | stateNil | stateShrinkFromGrow | stateShrinkFromGrow2 | stateGrowFromShrink | stateGrowFromShrink2
  | stateSplitFromGrow | stateSplitFromGrow2 | stateGrowFromSplit | stateGrowFromSplit2
  | stateMergeFromShrink | stateMergeFromShrink2 | stateShrinkFromMerge | stateShrinkFromMerge2
  | stateUnused | stateGrow | stateShrink | stateSplit | stateMerge.

#[export] Instance ENUMSTATE_eq_dec : EqDecision ENUMSTATE.
Proof. solve_decision. Defined.

Definition es_value (es : ENUMSTATE) : Z :=
  match es with
  | stateNil => 0 | stateShrinkFromGrow => 1 | stateShrinkFromGrow2 => 2 | stateGrowFromShrink => 3
  | stateGrowFromShrink2 => 4 | stateSplitFromGrow => 5 | stateSplitFromGrow2 => 6 | stateGrowFromSplit => 7
  | stateGrowFromSplit2 => 8 | stateMergeFromShrink => 9 | stateMergeFromShrink2 => 10 | stateShrinkFromMerge => 11
  | stateShrinkFromMerge2 => 12 | stateUnused => 13 | stateGrow => 14 | stateShrink => 15 | stateSplit => 16
  | stateMerge => 17
  end.

(** The completion functions, and the rows of [rgstt]. *)
Inductive PfnCompletion := CopyDir | GrowShrink | DoSplitDir | DoMergeDir.

Definition rgstt (es : ENUMSTATE) : option PfnCompletion * ENUMSTATE :=
  match es with
  | stateNil => (None, stateNil)
  | stateShrinkFromGrow => (None, stateShrinkFromGrow2)
  | stateShrinkFromGrow2 => (None, stateShrink)
  | stateGrowFromShrink => (None, stateGrowFromShrink2)
  | stateGrowFromShrink2 => (None, stateGrow)
  | stateSplitFromGrow => (None, stateSplitFromGrow2)
  | stateSplitFromGrow2 => (Some CopyDir, stateSplit)
  | stateGrowFromSplit => (None, stateGrowFromSplit2)
  | stateGrowFromSplit2 => (None, stateGrow)
  | stateMergeFromShrink => (None, stateMergeFromShrink2)
  | stateMergeFromShrink2 => (Some CopyDir, stateMerge)
  | stateShrinkFromMerge => (None, stateShrinkFromMerge2)
  | stateShrinkFromMerge2 => (None, stateShrink)
  | stateUnused => (None, stateNil)
  | stateGrow => (Some GrowShrink, stateNil)
  | stateShrink => (Some GrowShrink, stateNil)
  | stateSplit => (Some DoSplitDir, stateGrowFromSplit)
  | stateMerge => (Some DoMergeDir, stateShrinkFromMerge)
  end.

(** ** State *)

Record DIRPTRS := Dirptrs { m_cBucketMax : Z; m_cBucket : Z }.

(** A reader-writer lock: the readers and the writer inside. *)
Record rwl := Rwl { cReaders : Z; fWriter : bool }.

(** A metered section: the current group, the threads in it and those in the other. *)
Record meter := Meter { curGroup : bool; cActive : Z; cQuiescing : Z }.

Record HOTSTUFF := Hotstuff { m_cEntry : Z; m_cOp : Z; m_cms : meter; m_bucketpool : BUCKETPool }.

Definition HOTSTUFF_ctor : HOTSTUFF := Hotstuff 0 0 (Meter false 0 0) BUCKETPool_ctor.

(** The sizes that [ErrDIRInit] fixes besides those of a bucket. *)
Class TableParams := { m_cLoadFactor : Z; m_cbucketMin : Z }.

Record CDynamicHashTable (E : Type) := Table {
  m_heap : heap E;
  m_locks : gmap Z rwl;
  m_dirptrs0 : DIRPTRS;
  m_dirptrs1 : DIRPTRS;
  m_rgrgBucket : list Z;
  m_rghs : list HOTSTUFF;
  m_cOpSensitivity : Z;
  m_cBucketPreferred : Z;
  m_stateCur : ENUMSTATE;
  m_semPolicy : Z;
  m_cCompletions : Z }.
Arguments Table {E}.
Arguments m_heap {E}.
Arguments m_locks {E}.
Arguments m_dirptrs0 {E}.
Arguments m_dirptrs1 {E}.
Arguments m_rgrgBucket {E}.
Arguments m_rghs {E}.
Arguments m_cOpSensitivity {E}.
Arguments m_cBucketPreferred {E}.
Arguments m_stateCur {E}.
Arguments m_semPolicy {E}.
Arguments m_cCompletions {E}.

Definition cbitNativeCounter : Z := 64.

Section Table.
Context {K E : Type} `{KE : CKeyEntry K E} `{L : BucketLayout} `{TP : TableParams} (junk : Z -> BUCKET E).

Abbreviation table := (CDynamicHashTable E).

Definition set_heap (h : heap E) (s : table) : table :=
  Table h (m_locks s) (m_dirptrs0 s) (m_dirptrs1 s) (m_rgrgBucket s) (m_rghs s) (m_cOpSensitivity s) (m_cBucketPreferred s)
    (m_stateCur s) (m_semPolicy s) (m_cCompletions s).

Definition set_locks (lk : gmap Z rwl) (s : table) : table :=
  Table (m_heap s) lk (m_dirptrs0 s) (m_dirptrs1 s) (m_rgrgBucket s) (m_rghs s) (m_cOpSensitivity s) (m_cBucketPreferred s)
    (m_stateCur s) (m_semPolicy s) (m_cCompletions s).

Definition set_dirptrs (d0 d1 : DIRPTRS) (s : table) : table :=
  Table (m_heap s) (m_locks s) d0 d1 (m_rgrgBucket s) (m_rghs s) (m_cOpSensitivity s) (m_cBucketPreferred s)
    (m_stateCur s) (m_semPolicy s) (m_cCompletions s).

Definition set_rgrgBucket (rg : list Z) (s : table) : table :=
  Table (m_heap s) (m_locks s) (m_dirptrs0 s) (m_dirptrs1 s) rg (m_rghs s) (m_cOpSensitivity s) (m_cBucketPreferred s)
    (m_stateCur s) (m_semPolicy s) (m_cCompletions s).

Definition set_rghs (hs : list HOTSTUFF) (s : table) : table :=
  Table (m_heap s) (m_locks s) (m_dirptrs0 s) (m_dirptrs1 s) (m_rgrgBucket s) hs (m_cOpSensitivity s) (m_cBucketPreferred s)
    (m_stateCur s) (m_semPolicy s) (m_cCompletions s).

Definition set_policy (cOpSensitivity cBucketPreferred : Z) (s : table) : table :=
  Table (m_heap s) (m_locks s) (m_dirptrs0 s) (m_dirptrs1 s) (m_rgrgBucket s) (m_rghs s) cOpSensitivity cBucketPreferred
    (m_stateCur s) (m_semPolicy s) (m_cCompletions s).

Definition set_state (es : ENUMSTATE) (s : table) : table :=
  Table (m_heap s) (m_locks s) (m_dirptrs0 s) (m_dirptrs1 s) (m_rgrgBucket s) (m_rghs s) (m_cOpSensitivity s) (m_cBucketPreferred s)
    es (m_semPolicy s) (m_cCompletions s).

Definition set_semPolicy (sem : Z) (s : table) : table :=
  Table (m_heap s) (m_locks s) (m_dirptrs0 s) (m_dirptrs1 s) (m_rgrgBucket s) (m_rghs s) (m_cOpSensitivity s) (m_cBucketPreferred s)
    (m_stateCur s) sem (m_cCompletions s).

Definition set_cCompletions (c : Z) (s : table) : table :=
  Table (m_heap s) (m_locks s) (m_dirptrs0 s) (m_dirptrs1 s) (m_rgrgBucket s) (m_rghs s) (m_cOpSensitivity s) (m_cBucketPreferred s)
    (m_stateCur s) (m_semPolicy s) c.

Definition m_chs (s : table) : nat := length (m_rghs s).

(** ** The directory *)

Fixpoint log2_loop (n : nat) (iValue iExponent iMaskLast iMask : Z) : option (Z * Z) :=
  if iMask <? iValue then
    match n with
    | O => None
    | S n => log2_loop n iValue (iExponent + 1) iMask (u64 (u64 (Z.shiftl iMask 1) + 1))
    end
  else Some (iExponent, iMaskLast .& iValue).

(** The exponent and the remainder. *)
Definition DIRILog2 (iValue : Z) : option (Z * Z) :=
  '(iExponent, iRemainder) ← log2_loop 64 iValue 0 1 1;
  _ ← DHTAssert (iExponent <? cbitNativeCounter);
  Some (iExponent, iRemainder).

(** [m_dirptrs[ esCurrent >> 4 ]] *)
Definition dirptrs (s : table) (es : ENUMSTATE) : DIRPTRS :=
  if Z.shiftr (es_value es) 4 =? 0 then m_dirptrs0 s else m_dirptrs1 s.

Definition NcDIRIGetBucketMax (s : table) (es : ENUMSTATE) : Z := m_cBucketMax (dirptrs s es).

Definition NcDIRIGetBucket (s : table) (es : ENUMSTATE) : Z := m_cBucket (dirptrs s es).

Definition PbucketDIRIResolve (s : table) (ibucketIndex ibucketOffset : Z) : option Z :=
  pb ← m_rgrgBucket s !! Z.to_nat ibucketIndex;
  _ ← DHTAssert (negb (pb =? 0));
  Some (u64 (pb + u64 (ibucketOffset * m_cbBucket))).

(** The bucket's address, [iBucket] and [cBucket]. *)
Definition PbucketDIRIHash (s : table) (es : ENUMSTATE) (iHash : Z) : option (Z * Z * Z) :=
  let cBucket := NcDIRIGetBucket s es in
  let cBucketMax := NcDIRIGetBucketMax s es in
  let iBucket := iHash .& u64 (u64 (cBucketMax - 1) + cBucketMax) in
  let iBucket := if iBucket >=? u64 (cBucketMax + cBucket) then u64 (iBucket - cBucketMax) else iBucket in
  '(iExponent, iRemainder) ← DIRILog2 iBucket;
  p ← PbucketDIRIResolve s iExponent iRemainder;
  Some (p, iBucket, cBucket).

(** An array of [n] buckets at [p], each with a free lock and without entries. *)
Definition init_buckets (h : heap E) (p : Z) (n : nat) : heap E :=
  Heap (<[p := n]> (blocks h))
    (foldr (fun q m => <[q := Bucket None 0 (m_rgEntry (junk q))]> m) (buckets h) (block_buckets p n)).

Definition init_locks (lk : gmap Z rwl) (p : Z) (n : nat) : gmap Z rwl :=
  foldr (fun q m => <[q := Rwl 0 false]> m) lk (block_buckets p n).

(** The error code, the array, memory and locks; [mem] is what the allocator returns. *)
Definition ErrDIRInitBucketArray (h : heap E) (lk : gmap Z rwl) (cbucketAlloc : Z) (mem : option Z) : option (ERR * Z * heap E * gmap Z rwl) :=
  _ ← DHTAssert (0 <? cbucketAlloc);
  Some match mem with
       | None => (errOutOfMemory, 0, h, lk)
       | Some rgb => (errSuccess, rgb, init_buckets h rgb (Z.to_nat cbucketAlloc), init_locks lk rgb (Z.to_nat cbucketAlloc))
       end.

(** The chain after the first bucket is released. *)
Fixpoint free_chain (n : nat) (h : heap E) (pbucket : Z) : option (heap E) :=
  match n with
  | O => None
  | S n =>
      if pbucket =? 0 then Some h else
      pbucketNext ← PbucketBKTNext h pbucket;
      h ← MEMFree h pbucket;
      free_chain n h pbucketNext
  end.

(** One bucket of the array: its lock, which nobody may hold, and its chain. *)
Definition term_bucket (h : heap E) (lk : gmap Z rwl) (pbucket : Z) : option (heap E * gmap Z rwl) :=
  l ← lk !! pbucket;
  _ ← DHTAssert ((cReaders l =? 0) && negb (fWriter l));
  pbucketNext ← PbucketBKTNext h pbucket;
  h ← free_chain (fuel h) h pbucketNext;
  Some (h, delete pbucket lk).

Fixpoint term_buckets (ps : list Z) (h : heap E) (lk : gmap Z rwl) : option (heap E * gmap Z rwl) :=
  match ps with
  | [] => Some (h, lk)
  | p :: ps => '(h, lk) ← term_bucket h lk p; term_buckets ps h lk
  end.

Definition DIRTermBucketArray (h : heap E) (lk : gmap Z rwl) (rgbBucket cbucketTerm : Z) : option (heap E * gmap Z rwl) :=
  _ ← DHTAssert (negb (rgbBucket =? 0));
  '(h, lk) ← term_buckets (block_buckets rgbBucket (Z.to_nat cbucketTerm)) h lk;
  h ← MEMFree h rgbBucket;
  Some (h, lk).

Definition DIRISplit (s : table) : option table :=
  let d := m_dirptrs0 s in
  _ ← DHTAssert (bool_decide (m_stateCur s = stateSplit) && (m_cBucketMax d >? 0) && (m_cBucket d =? m_cBucketMax d));
  Some (set_dirptrs (Dirptrs (u64 (m_cBucketMax d * 2)) 0) (m_dirptrs1 s) s).

Definition DIRIMerge (s : table) : option table :=
  let d := m_dirptrs0 s in
  _ ← DHTAssert (bool_decide (m_stateCur s = stateMerge) && (m_cBucketMax d >? 1) && (m_cBucket d =? 0));
  '(iExponent, iRemainder) ← DIRILog2 (m_cBucketMax d);
  _ ← DHTAssert ((u64 (Z.shiftl 1 iExponent) =? m_cBucketMax d) && (0 =? iRemainder));
  rgb ← m_rgrgBucket s !! Z.to_nat iExponent;
  s ← (if negb (rgb =? 0) then
         '(h, lk) ← DIRTermBucketArray (m_heap s) (m_locks s) rgb (m_cBucketMax d);
         Some (set_rgrgBucket (<[Z.to_nat iExponent := 0]> (m_rgrgBucket s)) (set_heap h (set_locks lk s)))
       else Some s);
  Some (set_dirptrs (Dirptrs (m_cBucketMax d / 2) (m_cBucketMax d / 2)) (m_dirptrs1 s) s).

(** ** Positions of a client *)

(** Where a client goes on after [STLeave] or a state transition: with its lock, without
    one, after [PerformMaintenance], or in [MaintainTable] after the policy was chosen. *)
Inductive kont :=
  | KHeld (plock : CLock) (key : K)
  | KFail
  | KDone
  | KSize.

(** A split or a merge under way: the [HOTSTUFF] and group, and the sizes read first.
    For a merge [j_c] is the number of the bucket that is merged. *)
Inductive kind := KSplit | KMerge.

#[export] Instance kind_eq_dec : EqDecision kind.
Proof. solve_decision. Defined.

Record job := Job { j_ihs : nat; j_group : bool; j_kind : kind; j_max : Z; j_c : Z }.

Inductive pc :=
  | Idle
  (** [ReadLockKey], [FTryWriteLockKey]: the state, the hash, the lock, the check, and
      the second attempt; [fTry] is [fCanFail] *)
  | LkState (plock : CLock) (key : K) (fTry : bool) (iGroup : bool)
  | LkHash (plock : CLock) (key : K) (fTry : bool) (iGroup : bool) (es : ENUMSTATE)
  | LkLock (plock : CLock) (key : K) (fTry : bool) (iGroup : bool) (es : ENUMSTATE) (cBucketMaxBefore iBucket cBucketBefore : Z)
  | LkCheck (plock : CLock) (key : K) (fTry : bool) (iGroup : bool) (es : ENUMSTATE) (cBucketMaxBefore iBucket cBucketBefore : Z)
  | LkUndo (plock : CLock) (key : K) (fTry : bool) (iGroup : bool) (es : ENUMSTATE)
  | LkHash2 (plock : CLock) (key : K) (fTry : bool) (iGroup : bool) (es : ENUMSTATE)
  | LkLock2 (plock : CLock) (key : K) (fTry : bool) (iGroup : bool) (es : ENUMSTATE)
  | LkSeek (plock : CLock) (key : K) (fTry : bool) (iGroup : bool) (es : ENUMSTATE)
  (** [STLeave] *)
  | Leave (ihs : nat) (iGroup : bool) (k : kont)
  (** with a lock on [key], and the result of the last operation *)
  | Held (plock : CLock) (key : K) (res : option (ERR * option E))
  (** [MaintainTable] *)
  | MtOp (ihs : nat) | MtTry (ihs : nat) | MtSelect (ihs : nat) | MtSize
  (** [STTransition] and [STCompletion]; [st] are the loops over [m_rghs] that called *)
  | Trans (es : ENUMSTATE) (st : list nat) (k : kont)
  | Part (ihs : nat) (st : list nat) (k : kont)
  | Comp (st : list nat) (k : kont)
  | Finish (st : list nat) (k : kont)
  (** [PerformMaintenance], [BKTISplit] and [BKTIMerge] *)
  | PmEnter
  | PmState (ihs : nat) (iGroup : bool)
  | SmRead (ihs : nat) (iGroup : bool) (kd : kind)
  | SmDec (j : job) | SmInc (j : job) | SmAlloc (j : job) | SmHash (j : job)
  | SmTry (j : job) (p : Z) | SmRecheck (j : job) (p : Z) | SpArray (j : job) (p : Z) | SmOther (j : job) (p : Z)
  | SmDo (j : job) (p q : Z) | SmRelease1 (j : job) (p q : Z) | SmRelease2 (j : job) (q : Z)
  | SmUndo (j : job) (p : Z) | SmUnreserve (j : job).

Inductive call :=
  | ReadLockKey (key : K) | WriteLockKey (key : K) | FTryWriteLockKey (key : K)
  | UnlockKey
  | ErrRetrieveEntry | ErrReplaceEntry (entry : E) | ErrInsertEntry (entry : E) | ErrDeleteEntry.

(** A client's choice of the next call, and the environment's answers. *)
Record op := Op { op_call : call; op_cpu : nat; op_mem : option Z; op_quiesced : bool }.

Abbreviation result := (outcome table pc).

(** A [DHTAssert], an access to memory or an index that fails is a fault. *)
Definition try {A} (x : option A) (f : A -> result) : result := match x with Some a => f a | None => Fault end.

(** ** Locks of the buckets *)

Definition EnterAsReader (s : table) (p : Z) (p' : pc) : result :=
  try (m_locks s !! p) (fun l =>
    if fWriter l then Blocked else Next (set_locks (<[p := Rwl (cReaders l + 1) false]> (m_locks s)) s) p').

Definition lock_free (l : rwl) : bool := (cReaders l =? 0) && negb (fWriter l).

Definition EnterAsWriter (s : table) (p : Z) (p' : pc) : result :=
  try (m_locks s !! p) (fun l =>
    if lock_free l then Next (set_locks (<[p := Rwl 0 true]> (m_locks s)) s) p' else Blocked).

Definition FTryEnterAsWriter (s : table) (p : Z) (pTrue pFalse : pc) : result :=
  try (m_locks s !! p) (fun l =>
    if lock_free l then Next (set_locks (<[p := Rwl 0 true]> (m_locks s)) s) pTrue else Next s pFalse).

Definition LeaveAsReader (s : table) (p : Z) (p' : pc) : result :=
  try (m_locks s !! p) (fun l =>
    if 0 <? cReaders l then Next (set_locks (<[p := Rwl (cReaders l - 1) (fWriter l)]> (m_locks s)) s) p' else Fault).

Definition LeaveAsWriter (s : table) (p : Z) (p' : pc) : result :=
  try (m_locks s !! p) (fun l =>
    if fWriter l then Next (set_locks (<[p := Rwl (cReaders l) false]> (m_locks s)) s) p' else Fault).

(** ** Metered sections *)

Definition set_cms (m : meter) (hs : HOTSTUFF) : HOTSTUFF := Hotstuff (m_cEntry hs) (m_cOp hs) m (m_bucketpool hs).

Definition set_pool (p : BUCKETPool) (hs : HOTSTUFF) : HOTSTUFF := Hotstuff (m_cEntry hs) (m_cOp hs) (m_cms hs) p.

Definition upd_hs (s : table) (ihs : nat) (hs : HOTSTUFF) : table := set_rghs (<[ihs := hs]> (m_rghs s)) s.

(** [UiSTEnter]: the section of the processor, and the group. *)
Definition UiSTEnter (s : table) (cpu : nat) (p' : nat -> bool -> pc) : result :=
  match m_rghs s !! cpu with
  | None => Blocked
  | Some hs =>
      let m := m_cms hs in
      Next (upd_hs s cpu (set_cms (Meter (curGroup m) (cActive m + 1) (cQuiescing m)) hs)) (p' cpu (curGroup m))
  end.

Definition kont_pc (k : kont) : pc :=
  match k with
  | KHeld plock key => Held plock key None
  | KFail => Idle
  | KDone => Idle
  | KSize => MtSize
  end.

(** The return from a state transition or a completion. *)
Fixpoint resume (chs : nat) (st : list nat) (k : kont) : pc :=
  match st with
  | [] => kont_pc k
  | ihs :: st => if (S ihs <? chs)%nat then Part (S ihs) st k else resume chs st k
  end.

Definition STLeave (s : table) (ihs : nat) (iGroup : bool) (k : kont) : result :=
  try (m_rghs s !! ihs) (fun hs =>
    let m := m_cms hs in
    if eqb iGroup (curGroup m) then
      if 0 <? cActive m then Next (upd_hs s ihs (set_cms (Meter (curGroup m) (cActive m - 1) (cQuiescing m)) hs)) (kont_pc k) else Fault
    else
      if 0 <? cQuiescing m then
        Next (upd_hs s ihs (set_cms (Meter (curGroup m) (cActive m) (cQuiescing m - 1)) hs))
          (if cQuiescing m =? 1 then Comp [] k else kont_pc k)
      else Fault).

(** [m_rghs[ ihs ].m_cms.Partition( STCompletion_ )], which must not be under way. *)
Definition Partition (s : table) (ihs : nat) (st : list nat) (k : kont) : result :=
  try (m_rghs s !! ihs) (fun hs =>
    let m := m_cms hs in
    if cQuiescing m =? 0 then
      Next (upd_hs s ihs (set_cms (Meter (negb (curGroup m)) 0 (cActive m)) hs))
        (if cActive m =? 0 then Comp (ihs :: st) k else resume (m_chs s) (ihs :: st) k)
    else Fault).

(** ** State transitions *)

Definition STTransition (s : table) (es : ENUMSTATE) (st : list nat) (k : kont) : result :=
  Next (set_cCompletions 0 (set_state es s)) (if (0 <? m_chs s)%nat then Part 0 st k else resume (m_chs s) st k).

(** The increment in [STCompletion]. *)
Definition STCompletion (s : table) (st : list nat) (k : kont) : result :=
  let c := s32 (m_cCompletions s + 1) in
  Next (set_cCompletions c s) (if Z.of_nat (m_chs s) <=? u64 c then Finish st k else resume (m_chs s) st k).

Definition run_completion (s : table) (f : option PfnCompletion) : option table :=
  match f with
  | None => Some s
  | Some CopyDir => Some (set_dirptrs (m_dirptrs0 s) (m_dirptrs0 s) s)
  | Some GrowShrink => Some (set_semPolicy (m_semPolicy s + 1) s)
  | Some DoSplitDir => DIRISplit s
  | Some DoMergeDir => DIRIMerge s
  end.

(** The rest of [STCompletion], in the thread that completed the transition. *)
Definition complete (s : table) (st : list nat) (k : kont) : result :=
  let '(pfnCompletion, stNext) := rgstt (m_stateCur s) in
  try (run_completion s pfnCompletion) (fun s =>
    Next s (if bool_decide (stNext = stateNil) then resume (m_chs s) st k else Trans stNext st k)).

(** ** Locking a key *)

(** The lock state a call asks for, and the beginning of the call. *)
Definition begin_lock (s : table) (cpu : nat) (key : K) (ls : ENUMLOCKSTATE) (fTry : bool) : result :=
  UiSTEnter s cpu (fun ihs iGroup => LkState (set_ls ls (CLock_ctor ihs 0 0 0 0 0 false)) key fTry iGroup).

(** [DIRReadLockKey] and [FDIRTryWriteLockKey]: the first hash. *)
Definition lk_hash (s : table) (plock : CLock) (key : K) (fTry iGroup : bool) (es : ENUMSTATE) : result :=
  try (DHTAssert (m_pBucketHead plock =? 0)) (fun _ =>
  let cBucketMaxBefore := NcDIRIGetBucketMax s es in
  try (PbucketDIRIHash s es (Hash_key key)) (fun '(p, iBucket, cBucketBefore) =>
  Next s (LkLock (set_head p plock) key fTry iGroup es cBucketMaxBefore iBucket cBucketBefore))).

Definition enter_bucket (s : table) (plock : CLock) (fTry : bool) (pTrue pFalse : pc) : result :=
  if FBKTRead plock then EnterAsReader s (m_pBucketHead plock) pTrue
  else if fTry then FTryEnterAsWriter s (m_pBucketHead plock) pTrue pFalse
  else EnterAsWriter s (m_pBucketHead plock) pTrue.

Definition leave_bucket (s : table) (plock : CLock) (p' : pc) : result :=
  if FBKTRead plock then LeaveAsReader s (m_pBucketHead plock) p' else LeaveAsWriter s (m_pBucketHead plock) p'.

(** Whether the bucket that was locked is no longer the one of the key. *)
Definition moved (cBucketBefore cBucketAfter cBucketMax iBucket : Z) : bool :=
  negb (cBucketBefore =? cBucketAfter) &&
  ((cBucketBefore <=? iBucket) && (iBucket <? cBucketAfter) ||
   (u64 (cBucketMax + cBucketAfter) <=? iBucket) && (iBucket <? u64 (cBucketMax + cBucketBefore))).

Definition lk_check (s : table) (plock : CLock) (key : K) (fTry iGroup : bool) (es : ENUMSTATE)
  (cBucketMaxBefore iBucket cBucketBefore : Z) : result :=
  let cBucketAfter := NcDIRIGetBucket s es in
  let cBucketMax := NcDIRIGetBucketMax s es in
  try (DHTAssert (cBucketMax =? cBucketMaxBefore)) (fun _ =>
  Next s (if moved cBucketBefore cBucketAfter cBucketMax iBucket then LkUndo plock key fTry iGroup es
          else LkSeek plock key fTry iGroup es)).

Definition lk_hash2 (s : table) (plock : CLock) (key : K) (fTry iGroup : bool) (es : ENUMSTATE) : result :=
  try (PbucketDIRIHash s es (Hash_key key)) (fun '(p, _, _) => Next s (LkLock2 (set_head p plock) key fTry iGroup es)).

(** The assertion at the end of the lock operations, and [BKTSeek]. *)
Definition lk_seek (s : table) (plock : CLock) (key : K) (iGroup : bool) (es : ENUMSTATE) : result :=
  try (PbucketDIRIHash s es (Hash_key key)) (fun '(p, _, _) =>
  try (DHTAssert (m_pBucketHead plock =? p)) (fun _ =>
  try (BKTSeek (m_heap s) plock key) (fun plock => Next s (Leave (m_phs plock) iGroup (KHeld plock key))))).

(** ** Operations with a lock *)

Definition STATEntry (hs : HOTSTUFF) (d : Z) : HOTSTUFF :=
  Hotstuff (u64 (m_cEntry hs + d)) (u64 (m_cOp hs + 1)) (m_cms hs) (m_bucketpool hs).

(** [ReadUnlockKey] and [WriteUnlockKey] up to [MaintainTable]. *)
Definition unlock (s : table) (plock : CLock) : result :=
  leave_bucket s plock (if m_fInsertOrDelete plock then MtOp (m_phs plock) else Idle).

(** A client changes entries only with a write lock, and puts an entry only under the
    key that it has locked. *)
Definition held_call (s : table) (plock : CLock) (key : K) (c : call) (mem : option Z) : result :=
  match c with
  | UnlockKey => unlock s plock
  | ErrRetrieveEntry =>
      try (ErrBKTGetEntry (m_heap s) plock) (fun '(err, oe) => Next s (Held plock key (Some (err, oe))))
  | ErrReplaceEntry entry =>
      if FBKTWrite plock && FEntryMatchesKey entry key then
        try (ErrBKTReplaceEntry (m_heap s) plock entry) (fun '(err, h) => Next (set_heap h s) (Held plock key (Some (err, None))))
      else Blocked
  | ErrInsertEntry entry =>
      if FBKTWrite plock && FEntryMatchesKey entry key then
        try (ErrBKTInsertEntry junk (m_heap s) plock entry mem) (fun '(err, h, plock) =>
        if bool_decide (err = errSuccess) then
          try (m_rghs s !! m_phs plock) (fun hs =>
          Next (upd_hs (set_heap h s) (m_phs plock) (STATEntry hs 1)) (Held (set_fInsertOrDelete true plock) key (Some (err, None))))
        else Next (set_heap h s) (Held plock key (Some (err, None))))
      else Blocked
  | ErrDeleteEntry =>
      if FBKTWrite plock then
        try (ErrBKTDeleteEntry (m_heap s) plock) (fun '(err, h, plock) =>
        if bool_decide (err = errSuccess) then
          try (m_rghs s !! m_phs plock) (fun hs =>
          Next (upd_hs (set_heap h s) (m_phs plock) (STATEntry hs (-1))) (Held (set_fInsertOrDelete true plock) key (Some (err, None))))
        else Next (set_heap h s) (Held plock key (Some (err, None))))
      else Blocked
  | _ => Blocked
  end.

(** ** Maintenance *)

Definition sum_entries (hs : list HOTSTUFF) : Z := foldl (fun c h => u64 (c + m_cEntry h)) 0 hs.

Definition sum_ops (hs : list HOTSTUFF) : Z := foldl (fun c h => u64 (c + m_cOp h)) 0 hs.

Definition reset_ops (hs : list HOTSTUFF) : list HOTSTUFF :=
  (fun h => Hotstuff (m_cEntry h) 0 (m_cms h) (m_bucketpool h)) <$> hs.

(** The sensitivity, the number of buckets and the state that [SelectMaintenancePolicy]
    prefers. *)
Definition policy (s : table) (cOpLocal : Z) : option (Z * Z * ENUMSTATE) :=
  let esCurrent := m_stateCur s in
  let cBucketMax := NcDIRIGetBucketMax s esCurrent in
  let cBucket := NcDIRIGetBucket s esCurrent in
  let cBucketActive := u64 (cBucketMax + cBucket) in
  let cEntry := sum_entries (m_rghs s) in
  let cOp := sum_ops (m_rghs s) in
  let cEntryIdeal := u64 (m_cLoadFactor * cBucketActive) in
  let cEntryMax := u64 (m_centryBucket * cBucketActive) in
  let cEntryFlexibility := Z.max (u64 (m_centryBucket - m_cLoadFactor)) (u64 (cEntryMax / 2 - cEntryIdeal)) in
  let cOpSensitivity := Z.max 1 (cEntryFlexibility / 2) in
  _ ← DHTAssert (negb (cOpLocal =? 0));
  let ratio := u64 (u64 (cOp + cOpLocal) - 1) / cOpLocal in
  _ ← DHTAssert (negb (ratio =? 0));
  let cOpSensitivityLocal := Z.max 1 (cOpSensitivity / ratio) in
  let slack := u64 (cEntryFlexibility - cOpSensitivity) in
  let cEntryPreferred :=
    if u64 (cEntryIdeal + slack) <? cEntry then u64 (cEntry - slack)
    else if cEntryIdeal >? u64 (cEntry + slack) then u64 (cEntry + slack)
    else cEntry in
  let cBucketPreferred := Z.max m_cbucketMin (u64 (u64 (cEntryPreferred + m_cLoadFactor) - 1) / m_cLoadFactor) in
  esNew ←
    (if bool_decide (esCurrent = stateGrow) then
       Some (if cBucketPreferred <? cBucketActive then stateShrinkFromGrow
             else if cBucketPreferred >? cBucketActive then
               (if cBucket =? cBucketMax then stateSplitFromGrow else stateNil)
             else stateNil)
     else
       _ ← DHTAssert (bool_decide (esCurrent = stateShrink));
       Some (if cBucketPreferred <? cBucketActive then
               (if cBucket =? 0 then stateMergeFromShrink else stateNil)
             else if cBucketPreferred >? cBucketActive then stateGrowFromShrink
             else stateNil));
  Some (cOpSensitivityLocal, cBucketPreferred, esNew).

Definition SelectMaintenancePolicy (s : table) (cOpLocal : Z) : result :=
  try (policy s cOpLocal) (fun '(cOpSensitivityLocal, cBucketPreferred, esNew) =>
    let s := set_policy cOpSensitivityLocal cBucketPreferred (set_rghs (reset_ops (m_rghs s)) s) in
    if bool_decide (esNew = stateNil) then Next (set_semPolicy (m_semPolicy s + 1) s) MtSize
    else Next s (Trans esNew [] KSize)).

(** The three steps of [MaintainTable] before [PerformMaintenance]. *)
Definition mt_op (s : table) (ihs : nat) : result :=
  try (m_rghs s !! ihs) (fun hs =>
  Next s (if (m_cOp hs >? m_cOpSensitivity s) && (0 <? m_semPolicy s) then MtTry ihs else MtSize)).

Definition mt_try (s : table) (ihs : nat) : result :=
  if 0 <? m_semPolicy s then Next (set_semPolicy (m_semPolicy s - 1) s) (MtSelect ihs) else Next s MtSize.

Definition mt_select (s : table) (ihs : nat) : result :=
  try (m_rghs s !! ihs) (fun hs =>
  if m_cOp hs >? m_cOpSensitivity s then SelectMaintenancePolicy s (m_cOp hs)
  else Next (set_semPolicy (m_semPolicy s + 1) s) MtSize).

Definition mt_size (s : table) : result :=
  Next s (if (u64 (NcDIRIGetBucketMax s stateGrow + NcDIRIGetBucket s stateGrow) <? m_cBucketPreferred s) ||
             (m_cBucketPreferred s <? u64 (NcDIRIGetBucketMax s stateShrink + NcDIRIGetBucket s stateShrink))
          then PmEnter else Idle).

(** ** Splitting and merging *)

Definition pm_state (s : table) (ihs : nat) (iGroup : bool) : result :=
  Next s (if bool_decide (m_stateCur s = stateGrow) then SmRead ihs iGroup KSplit
          else if bool_decide (m_stateCur s = stateShrink) then SmRead ihs iGroup KMerge
          else Leave ihs iGroup KDone).

Definition j_leave (j : job) : pc := Leave (j_ihs j) (j_group j) KDone.

(** The first lines of [BKTISplit] and [BKTIMerge]. *)
Definition sm_read (s : table) (ihs : nat) (iGroup : bool) (kd : kind) : result :=
  match kd with
  | KSplit =>
      let cBucketMax := NcDIRIGetBucketMax s stateGrow in
      let cBucket := NcDIRIGetBucket s stateGrow in
      Next s (if (u64 (cBucketMax + cBucket) >=? m_cBucketPreferred s) || (cBucket =? cBucketMax) then Leave ihs iGroup KDone
              else SmDec (Job ihs iGroup KSplit cBucketMax cBucket))
  | KMerge =>
      let cBucketMax := NcDIRIGetBucketMax s stateShrink in
      let cBucket := NcDIRIGetBucket s stateShrink in
      Next s (if (u64 (cBucketMax + cBucket) <=? m_cBucketPreferred s) || (cBucket =? 0) then Leave ihs iGroup KDone
              else SmDec (Job ihs iGroup KMerge cBucketMax (u64 (cBucket - 1))))
  end.

(** [FPOOLReserve] *)
Definition sm_dec (s : table) (j : job) : result :=
  try (m_rghs s !! j_ihs j) (fun hs =>
  let '(f, pool) := pool_dec (m_bucketpool hs) in
  Next (upd_hs s (j_ihs j) (set_pool pool hs)) (if f then SmHash j else SmInc j)).

Definition sm_inc (s : table) (j : job) : result :=
  try (m_rghs s !! j_ihs j) (fun hs => Next (upd_hs s (j_ihs j) (set_pool (pool_inc (m_bucketpool hs)) hs)) (SmAlloc j)).

Definition sm_alloc (s : table) (j : job) (mem : option Z) : result :=
  let '(pBucket, h) := PvMEMAlloc junk (m_heap s) mem in
  if pBucket =? 0 then Next s (j_leave j) else
  try (m_rghs s !! j_ihs j) (fun hs =>
  try (pool_push h (m_bucketpool hs) pBucket) (fun '(h, pool) =>
  Next (upd_hs (set_heap h s) (j_ihs j) (set_pool pool hs)) (SmHash j))).

Definition kind_state (kd : kind) : ENUMSTATE := match kd with KSplit => stateGrow | KMerge => stateShrink end.

(** [pbucketGrowSrc], [pbucketShrinkDst] *)
Definition sm_hash (s : table) (j : job) : result :=
  try (PbucketDIRIHash s (kind_state (j_kind j)) (j_c j)) (fun '(p, _, _) => Next s (SmTry j p)).

Definition sm_recheck (s : table) (j : job) (p : Z) : result :=
  let cBucket := NcDIRIGetBucket s (kind_state (j_kind j)) in
  match j_kind j with
  | KSplit =>
      if negb (j_c j =? cBucket)
      then try (DHTAssert (j_c j <? cBucket)) (fun _ => Next s (SmUndo j p)) else Next s (SpArray j p)
  | KMerge =>
      if negb (u64 (j_c j + 1) =? cBucket)
      then try (DHTAssert (u64 (j_c j + 1) >? cBucket)) (fun _ => Next s (SmUndo j p)) else Next s (SmOther j p)
  end.

(** The array of the new bucket is allocated when there is none. *)
Definition sp_array (s : table) (j : job) (p : Z) (mem : option Z) : result :=
  try (DIRILog2 (u64 (j_max j + j_c j))) (fun '(iExponent, _) =>
  try (m_rgrgBucket s !! Z.to_nat iExponent) (fun rgb =>
  if rgb =? 0 then
    try (ErrDIRInitBucketArray (m_heap s) (m_locks s) (j_max j) mem) (fun '(err, rgb, h, lk) =>
    let s := set_rgrgBucket (<[Z.to_nat iExponent := rgb]> (m_rgrgBucket s)) (set_heap h (set_locks lk s)) in
    Next s (if bool_decide (err = errSuccess) then SmOther j p else SmUndo j p))
  else Next s (SmOther j p))).

(** [pbucketGrowDst], whose lock must be free, and [pbucketShrinkSrc]. *)
Definition sm_other (s : table) (j : job) (p : Z) (fQuiesced : bool) : result :=
  try (DIRILog2 (u64 (j_c j + j_max j))) (fun '(iExponent, iRemainder) =>
  try (PbucketDIRIResolve s iExponent iRemainder) (fun q =>
  match j_kind j with
  | KSplit =>
      try (m_locks s !! q) (fun l =>
      try (DHTAssert (lock_free l)) (fun _ => Next (set_locks (<[q := Rwl 0 true]> (m_locks s)) s) (SmDo j p q)))
  | KMerge => if fQuiesced then Next s (SmUndo j p) else FTryEnterAsWriter s q (SmDo j p q) (SmUndo j p)
  end)).

(** The count of buckets changes and the entries are moved, with both buckets locked. *)
Definition sm_do (s : table) (j : job) (p q : Z) : result :=
  try (m_rghs s !! j_ihs j) (fun hs =>
  let d := m_dirptrs0 s in
  match j_kind j with
  | KSplit =>
      try (DHTAssert (j_c j =? m_cBucket d)) (fun _ =>
      try (BKTIDoSplit (m_heap s) (m_bucketpool hs) (m_cBucketMax d) p q (j_c j)) (fun '(h, pool) =>
      Next (upd_hs (set_dirptrs (Dirptrs (m_cBucketMax d) (u64 (m_cBucket d + 1))) (m_dirptrs1 s) (set_heap h s)) (j_ihs j) (set_pool pool hs))
        (SmRelease1 j p q)))
  | KMerge =>
      try (DHTAssert (u64 (j_c j + 1) =? m_cBucket d)) (fun _ =>
      try (BKTIDoMerge (m_heap s) (m_bucketpool hs) q p) (fun '(h, pool) =>
      Next (upd_hs (set_dirptrs (Dirptrs (m_cBucketMax d) (u64 (m_cBucket d - 1))) (m_dirptrs1 s) (set_heap h s)) (j_ihs j) (set_pool pool hs))
        (SmRelease1 j p q)))
  end).

Definition sm_unreserve (s : table) (j : job) : result :=
  try (m_rghs s !! j_ihs j) (fun hs => Next (upd_hs s (j_ihs j) (set_pool (POOLUnreserve (m_bucketpool hs)) hs)) (j_leave j)).

(** ** The next step of a client *)

(** The memory an allocation may return. *)
Definition mem_ok (s : table) (mem : option Z) (n : nat) : bool :=
  match mem with None => true | Some p => bool_decide (fresh (m_heap s) p n) end.

Definition tstep (o : op) (s : table) (p : pc) : result :=
  match p with
  | Idle =>
      match op_call o with
      | ReadLockKey key => begin_lock s (op_cpu o) key lsRead false
      | WriteLockKey key => begin_lock s (op_cpu o) key lsWrite false
      | FTryWriteLockKey key => begin_lock s (op_cpu o) key lsWrite true
      | _ => Blocked
      end
  | LkState plock key fTry g => Next s (LkHash plock key fTry g (m_stateCur s))
  | LkHash plock key fTry g es => lk_hash s plock key fTry g es
  | LkLock plock key fTry g es cMax iB cB =>
      enter_bucket s plock fTry (LkCheck plock key fTry g es cMax iB cB) (Leave (m_phs plock) g KFail)
  | LkCheck plock key fTry g es cMax iB cB => lk_check s plock key fTry g es cMax iB cB
  | LkUndo plock key fTry g es => leave_bucket s plock (LkHash2 plock key fTry g es)
  | LkHash2 plock key fTry g es => lk_hash2 s plock key fTry g es
  | LkLock2 plock key fTry g es => enter_bucket s plock fTry (LkSeek plock key fTry g es) (Leave (m_phs plock) g KFail)
  | LkSeek plock key fTry g es => lk_seek s plock key g es
  | Leave ihs g k => STLeave s ihs g k
  | Held plock key _ => if mem_ok s (op_mem o) 1 then held_call s plock key (op_call o) (op_mem o) else Blocked
  | MtOp ihs => mt_op s ihs
  | MtTry ihs => mt_try s ihs
  | MtSelect ihs => mt_select s ihs
  | MtSize => mt_size s
  | Trans es st k => STTransition s es st k
  | Part ihs st k => Partition s ihs st k
  | Comp st k => STCompletion s st k
  | Finish st k => complete s st k
  | PmEnter => UiSTEnter s (op_cpu o) PmState
  | PmState ihs g => pm_state s ihs g
  | SmRead ihs g kd => sm_read s ihs g kd
  | SmDec j => sm_dec s j
  | SmInc j => sm_inc s j
  | SmAlloc j => if mem_ok s (op_mem o) 1 then sm_alloc s j (op_mem o) else Blocked
  | SmHash j => sm_hash s j
  | SmTry j p => if op_quiesced o then Next s (SmUnreserve j) else FTryEnterAsWriter s p (SmRecheck j p) (SmUnreserve j)
  | SmRecheck j p => sm_recheck s j p
  | SpArray j p => if mem_ok s (op_mem o) (Z.to_nat (j_max j)) then sp_array s j p (op_mem o) else Blocked
  | SmOther j p => sm_other s j p (op_quiesced o)
  | SmDo j p q => sm_do s j p q
  | SmRelease1 j p q => LeaveAsWriter s p (SmRelease2 j q)
  | SmRelease2 j q => LeaveAsWriter s q (j_leave j)
  | SmUndo j p => LeaveAsWriter s p (SmUnreserve j)
  | SmUnreserve j => sm_unreserve s j
  end.

End Table.
