(* ===== verification/HashStates.v ===== *)
(** * HashStates: the state machine of the hash table

    A state transition sets [m_stateCur] and partitions every metered section; the
    thread that completes the last partition runs the completion function of the state
    and starts the next transition.  Here a thread is what it means for this protocol
    ([role]): outside, inside a section with the state it has read, or driving a
    transition.  The invariant [states_ok] says that the threads inside have read the
    current state or, while a transition is under way, the one before it; and that the
    completion function runs when all of them have read the current state. *)

From stdpp Require Import gmap.
From S2P Require Import Prelude HashBucket Threads HashTable.

(** The transitions: chosen by the policy, or the next one in [rgstt]. *)
Definition edge (a b : ENUMSTATE) : bool :=
  match a, b with
  | stateGrow, (stateShrinkFromGrow | stateSplitFromGrow) => true
  | stateShrink, (stateGrowFromShrink | stateMergeFromShrink) => true
  | _, stateNil => false
  | _, _ => bool_decide (snd (rgstt a) = b)
  end.

(** The states in which the number of buckets can only grow, or only shrink, while a
    thread that has read it is inside. *)
Definition up (es : ENUMSTATE) : bool :=
  match es with
  | stateGrow | stateShrinkFromGrow | stateSplitFromGrow | stateGrowFromShrink2 | stateGrowFromSplit2 => true
  | _ => false
  end.

Definition down (es : ENUMSTATE) : bool :=
  match es with
  | stateShrink | stateGrowFromShrink | stateMergeFromShrink | stateShrinkFromGrow2 | stateShrinkFromMerge2 => true
  | _ => false
  end.

(** ** Roles *)

Inductive role :=
  | ROut
  | RIn (ihs : nat) (g : bool) (es : option ENUMSTATE)
  | RPolicy
  | RTrans (es : ENUMSTATE) (st : list nat)
  | RPart (ihs : nat) (st : list nat)
  | RComp (st : list nat)
  | RFinish (st : list nat).

Definition in_group (i : nat) (g : bool) (a : role) : Z :=
  match a with RIn i' g' _ => if bool_decide (i' = i /\ g' = g) then 1 else 0 | _ => 0 end.

Definition is_policy (a : role) : Z := match a with RPolicy => 1 | _ => 0 end.
Definition is_trans (a : role) : Z := match a with RTrans _ _ => 1 | _ => 0 end.
Definition is_comp (a : role) : Z := match a with RComp _ => 1 | _ => 0 end.
Definition is_finish (a : role) : Z := match a with RFinish _ => 1 | _ => 0 end.

(** The section that the loop of [STTransition] partitions next. *)
Definition next_part (chs : nat) (a : role) : option nat :=
  match a with
  | RPart i _ => Some i
  | RComp (i :: _) => if decide (S i < chs)%nat then Some (S i) else None
  | _ => None
  end.

Definition is_loop (chs : nat) (a : role) : Z := match next_part chs a with Some _ => 1 | None => 0 end.

Definition waiting (m : meter) : Z := if 0 <? cQuiescing m then 1 else 0.

(** The loops that called are at their last round. *)
Definition frames_ok (chs : nat) (a : role) : Prop :=
  match a with
  | RTrans _ st | RFinish st => Forall (fun i => S i = chs) st
  | RPart i st => (i < chs)%nat /\ Forall (fun i => S i = chs) st
  | RComp (i :: st) => (i < chs)%nat /\ Forall (fun i => S i = chs) st
  | _ => True
  end.

(** Nothing under way; a transition to [es] decided; the transition from [pred] to
    the current state with [j] sections partitioned. *)
Inductive phase := Quiet | Moving (es : ENUMSTATE) | Busy (pred : ENUMSTATE) (j : nat).

Definition phase_token (ph : phase) : Z := match ph with Quiet => 0 | _ => 1 end.

Section States.
Context (chs : nat).

Definition calm (ms : list meter) (cur : ENUMSTATE) (rs : list role) : Prop :=
  total (is_loop chs) rs = 0 /\ total is_comp rs = 0 /\ total is_finish rs = 0 /\
  (forall m, m ∈ ms -> cQuiescing m = 0) /\ (forall i g e, RIn i g (Some e) ∈ rs -> e = cur).

(** A thread that was inside before its section was partitioned. *)
Definition before (ms : list meter) (j i : nat) (g : bool) : Prop :=
  (j <= i)%nat \/ exists m, ms !! i = Some m /\ g = negb (curGroup m).

Definition phase_ok (ms : list meter) (cur : ENUMSTATE) (cC : Z) (ph : phase) (rs : list role) : Prop :=
  match ph with
  | Quiet => (cur = stateGrow \/ cur = stateShrink) /\ total is_trans rs = 0 /\ calm ms cur rs
  | Moving es => edge cur es = true /\ total is_trans rs = 1 /\ (forall e st, RTrans e st ∈ rs -> e = es) /\ calm ms cur rs
  | Busy pred j => edge pred cur = true /\ total is_trans rs = 0 /\ (j <= chs)%nat /\
      total (is_loop chs) rs = (if decide (j < chs)%nat then 1 else 0) /\
      (forall a i, a ∈ rs -> next_part chs a = Some i -> i = j) /\
      (forall i m, ms !! i = Some m -> (j <= i)%nat -> cQuiescing m = 0) /\
      0 <= cC /\ cC + total is_comp rs + total waiting ms = Z.of_nat j /\
      total is_finish rs = (if decide (cC = Z.of_nat chs) then 1 else 0) /\
      (forall i g e, RIn i g (Some e) ∈ rs -> e = cur \/ (e = pred /\ before ms j i g))
  end.

Record states_ok (ms : list meter) (cur : ENUMSTATE) (sem cC : Z) (ph : phase) (rs : list role) : Prop := {
  so_len : length ms = chs;
  so_count : forall i m, ms !! i = Some m ->
    cActive m = total (in_group i (curGroup m)) rs /\ cQuiescing m = total (in_group i (negb (curGroup m))) rs;
  so_valid : forall i g e, RIn i g e ∈ rs -> (i < chs)%nat;
  so_sem : 0 <= sem;
  so_token : sem + total is_policy rs + phase_token ph = 1;
  so_frames : forall a, a ∈ rs -> frames_ok chs a;
  so_phase : phase_ok ms cur cC ph rs }.

(** ** Sums and members after a step *)

Lemma in_insert {X} (rs : list X) t a a' x : rs !! t = Some a -> x ∈ <[t := a']> rs -> x = a' \/ x ∈ rs.
Proof.
  intros Ht [i Hi]%list_elem_of_lookup. destruct (decide (i = t)) as [->|Hne].
  - rewrite list_lookup_insert_eq in Hi by (by eapply lookup_lt_Some). left. congruence.
  - rewrite list_lookup_insert_ne in Hi by done. right. by eapply list_elem_of_lookup_2.
Qed.

Lemma in_insert_other {X} (rs : list X) (t : nat) a a' x : rs !! t = Some a -> x ∈ <[t := a']> rs -> x = a' \/ exists t', t' <> t /\ rs !! t' = Some x.
Proof.
  intros Ht [i Hi]%list_elem_of_lookup. destruct (decide (i = t)) as [->|Hne].
  - rewrite list_lookup_insert_eq in Hi by (by eapply lookup_lt_Some). left. congruence.
  - rewrite list_lookup_insert_ne in Hi by done. right. by exists i.
Qed.

Lemma in_self {X} (rs : list X) (t : nat) a : rs !! t = Some a -> a ∈ rs.
Proof. apply list_elem_of_lookup_2. Qed.

Lemma total_same {X} (f : X -> Z) (rs : list X) (t : nat) a a' : rs !! t = Some a -> f a' = f a -> total f (<[t := a']> rs) = total f rs.
Proof. intros Ht Hf. rewrite (total_insert _ _ _ _ _ Ht). lia. Qed.

Lemma in_group_nonneg i g a : 0 <= in_group i g a.
Proof. destruct a; cbn; try lia. case_bool_decide; lia. Qed.

Lemma waiting_nonneg m : 0 <= waiting m.
Proof. unfold waiting. destruct (0 <? cQuiescing m); lia. Qed.

Lemma is_policy_nonneg a : 0 <= is_policy a. Proof. destruct a; cbn; lia. Qed.
Lemma is_trans_nonneg a : 0 <= is_trans a. Proof. destruct a; cbn; lia. Qed.
Lemma is_comp_nonneg a : 0 <= is_comp a. Proof. destruct a; cbn; lia. Qed.
Lemma is_finish_nonneg a : 0 <= is_finish a. Proof. destruct a; cbn; lia. Qed.
Lemma is_loop_nonneg a : 0 <= is_loop chs a. Proof. unfold is_loop. destruct (next_part chs a); lia. Qed.

#[local] Hint Resolve in_group_nonneg waiting_nonneg is_policy_nonneg is_trans_nonneg is_comp_nonneg is_finish_nonneg is_loop_nonneg : core.

(** A thread cannot have a role that nobody has. *)
Lemma no_role (f : role -> Z) rs (t : nat) a : (forall a, 0 <= f a) -> rs !! t = Some a -> total f rs = 0 -> f a = 0.
Proof. intros Hf Ht H0. pose proof (total_ge f rs t a Hf Ht). specialize (Hf a). lia. Qed.

(** The frames of the calls do not matter when they are at their end. *)
Definition role_return (st : list nat) : role :=
  match st with i :: st => if decide (S i < chs)%nat then RPart (S i) st else ROut | [] => ROut end.

(** ** Changes that leave the transitions alone *)

(** The roles that do not drive a transition. *)
Definition plain (cur : ENUMSTATE) (a : role) : Prop :=
  match a with ROut | RPolicy | RIn _ _ None => True | RIn _ _ (Some e) => e = cur | _ => False end.

(** A section gets other counts, with the same group, and stays waiting or not. *)
Definition same_meter (m m' : meter) : Prop :=
  curGroup m' = curGroup m /\ waiting m' = waiting m /\ (cQuiescing m = 0 -> cQuiescing m' = 0).

Lemma same_meter_refl m : same_meter m m.
Proof. done. Qed.

Lemma phase_frame ms ms' cur cC ph rs (t : nat) a a' : Forall2 same_meter ms ms' -> rs !! t = Some a ->
  (forall f, f ∈ [is_trans; is_loop chs; is_comp; is_finish] -> f a' = f a) -> plain cur a' \/ a' = a ->
  phase_ok ms cur cC ph rs -> phase_ok ms' cur cC ph (<[t := a']> rs).
Proof.
  intros Hms Ht Hcls Hpl Hp.
  assert (Hsame : forall f, f ∈ [is_trans; is_loop chs; is_comp; is_finish] -> total f (<[t := a']> rs) = total f rs).
  { intros f Hf. apply (total_same _ _ _ _ _ Ht). by apply Hcls. }
  assert (Hmem : forall x, x ∈ <[t := a']> rs -> x ∈ rs \/ plain cur x).
  { intros x [->|Hx]%(in_insert _ _ _ _ _ Ht); [|by left]. destruct Hpl as [| ->]; [by right|left; by eapply in_self]. }
  assert (Hin : forall i g e, RIn i g (Some e) ∈ <[t := a']> rs -> e = cur \/ RIn i g (Some e) ∈ rs).
  { intros i g e [|]%Hmem; [by right|by left]. }
  assert (Hcalm : calm ms cur rs -> calm ms' cur (<[t := a']> rs)).
  { intros (H1 & H2 & H3 & H4 & H5). unfold calm. rewrite !Hsame by set_solver. split_and!; [done..| |].
    - intros x [i Hx]%list_elem_of_lookup. destruct (Forall2_lookup_r _ _ _ _ _ Hms Hx) as (y & Hy & _ & _ & Hq).
      apply Hq, H4. by eapply in_self.
    - intros i g e [|]%Hin; eauto. }
  assert (Hwait : total waiting ms' = total waiting ms).
  { clear -Hms. induction Hms as [|m m' ms ms' (_ & Hw & _) _ IH]; cbn [total]; lia. }
  destruct ph as [|es|pred j]; cbn [phase_ok] in *; rewrite ?Hwait, !Hsame by set_solver.
  - destruct Hp as (H1 & H2 & H3). split_and!; [done|done|by apply Hcalm].
  - destruct Hp as (H1 & H2 & H3 & H4). split_and!; [done|done| |by apply Hcalm].
    intros e1 st [Hx|Hx]%Hmem; [by eapply H3|done].
  - destruct Hp as (H1 & H2 & H3 & H4 & H5 & H6 & H7 & H8 & H9 & H10). split_and!; try done.
    + intros b i [Hb|Hb]%Hmem; [by apply H5|]. by destruct b.
    + intros i x Hx Hji. destruct (Forall2_lookup_r _ _ _ _ _ Hms Hx) as (y & Hy & _ & _ & Hq). eauto.
    + intros i g e [->|Hx]%Hin; [by left|]. destruct (H10 i g e Hx) as [|[-> Hb]]; [by left|right]. split; [done|].
      destruct Hb as [|(y & Hy & ->)]; [by left|right].
      destruct (Forall2_lookup_l _ _ _ _ _ Hms Hy) as (x & Hx' & Hg & _). exists x. by rewrite Hg.
Qed.

Lemma same_meters ms : Forall2 same_meter ms ms.
Proof. by apply Forall2_same_length_lookup_2; [|intros i m m' H1 H2; simplify_eq]. Qed.

Lemma same_meters_insert ms (k : nat) m m' : ms !! k = Some m -> same_meter m m' -> Forall2 same_meter ms (<[k := m']> ms).
Proof. intros Hk Hm. rewrite <- (list_insert_id ms k m Hk) at 1. apply Forall2_insert; [apply same_meters|done]. Qed.

(** ** Threads inside *)

Section Steps.
Context (ms : list meter) (cur : ENUMSTATE) (sem cC : Z) (ph : phase) (rs : list role) (H : states_ok ms cur sem cC ph rs).

Lemma meter_of i g e : RIn i g e ∈ rs -> exists m, ms !! i = Some m.
Proof. intros Hin%(so_valid _ _ _ _ _ _ H). apply lookup_lt_is_Some_2. by rewrite (so_len _ _ _ _ _ _ H). Qed.

Lemma frames_insert t a a' : rs !! t = Some a -> frames_ok chs a' -> forall x, x ∈ <[t := a']> rs -> frames_ok chs x.
Proof. intros Ht Ha x [->|Hx]%(in_insert _ _ _ _ _ Ht); [done|]. by apply (so_frames _ _ _ _ _ _ H). Qed.

(** A thread reads the state, or forgets it. *)
Lemma states_read t i g e e' : rs !! t = Some (RIn i g e) -> e' = None \/ e' = Some cur \/ e' = e ->
  states_ok ms cur sem cC ph (<[t := RIn i g e']> rs).
Proof.
  intros Ht He'. pose proof (in_self _ _ _ Ht) as Hin. destruct (meter_of _ _ _ Hin) as [m Hm].
  assert (Hsame : forall f, f (RIn i g e') = f (RIn i g e) -> total f (<[t := RIn i g e']> rs) = total f rs).
  { intros f Hf. by apply (total_same _ _ _ _ _ Ht). }
  split; [apply H| | |apply H| |by eapply frames_insert|].
  - intros k mk Hmk. rewrite !Hsame by done. by apply H.
  - intros i' g' e1 [Hx|Hx]%(in_insert _ _ _ _ _ Ht); simplify_eq; by eapply H.
  - rewrite Hsame by done. apply H.
  - eapply phase_frame; [apply same_meters|done|set_solver| |apply H].
    destruct He' as [-> | [-> | ->]]; [by left|by left|by right].
Qed.

Lemma in_group_eq i g e i' g' : in_group i' g' (RIn i g e) = if bool_decide (i = i' /\ g = g') then 1 else 0.
Proof. done. Qed.

Lemma states_enter t k m : rs !! t = Some ROut -> ms !! k = Some m ->
  states_ok (<[k := Meter (curGroup m) (cActive m + 1) (cQuiescing m)]> ms) cur sem cC ph (<[t := RIn k (curGroup m) None]> rs).
Proof.
  intros Ht Hk. pose proof (lookup_lt_Some _ _ _ Hk) as Hlt. pose proof (so_len _ _ _ _ _ _ H) as Hl. split.
  - by rewrite length_insert.
  - intros i x Hx. rewrite !(total_insert _ _ _ _ _ Ht). cbn [in_group]. destruct (decide (i = k)) as [->|Hne].
    + rewrite list_lookup_insert_eq in Hx by done. injection Hx as <-. cbn [curGroup cActive cQuiescing].
      destruct (so_count _ _ _ _ _ _ H k m Hk) as [-> ->]. rewrite bool_decide_true by done.
      rewrite bool_decide_false by (intros [_ Hg]; by destruct (curGroup m)). lia.
    + rewrite list_lookup_insert_ne in Hx by done. destruct (so_count _ _ _ _ _ _ H i x Hx) as [-> ->].
      rewrite !bool_decide_false by naive_solver. lia.
  - intros i g e [Hx|Hx]%(in_insert _ _ _ _ _ Ht); simplify_eq; [lia|by eapply H].
  - apply H.
  - rewrite (total_same _ _ _ _ _ Ht) by done. apply H.
  - by eapply frames_insert.
  - eapply phase_frame; [by apply (same_meters_insert _ _ _ _ Hk)|done|set_solver|by left|apply H].
Qed.

(** The counts when a thread of the section [i] and group [g] leaves. *)
Lemma leave_counts t i g e m a' k x : rs !! t = Some (RIn i g e) -> ms !! i = Some m -> (forall i g, in_group i g a' = 0) ->
  <[i := (if eqb g (curGroup m) then Meter (curGroup m) (cActive m - 1) (cQuiescing m) else Meter (curGroup m) (cActive m) (cQuiescing m - 1))]> ms !! k = Some x ->
  cActive x = total (in_group k (curGroup x)) (<[t := a']> rs) /\ cQuiescing x = total (in_group k (negb (curGroup x))) (<[t := a']> rs).
Proof.
  intros Ht Hm Ha' Hx. rewrite !(total_insert _ _ _ _ _ Ht), !Ha'. pose proof (lookup_lt_Some _ _ _ Hm) as Hlt.
  destruct (decide (k = i)) as [->|Hne].
  - rewrite list_lookup_insert_eq in Hx by done. injection Hx as <-. destruct (so_count _ _ _ _ _ _ H i m Hm) as [E1 E2].
    rewrite !in_group_eq. destruct g, (curGroup m); cbn [eqb curGroup cActive cQuiescing negb] in *;
      repeat case_bool_decide; first [lia|naive_solver].
  - rewrite list_lookup_insert_ne in Hx by done. destruct (so_count _ _ _ _ _ _ H k x Hx) as [-> ->].
    rewrite !in_group_eq, !bool_decide_false by naive_solver. lia.
Qed.

(** The counts a thread inside contributes to. *)
Lemma inside_counts t i g e m : rs !! t = Some (RIn i g e) -> ms !! i = Some m ->
  if eqb g (curGroup m) then 0 < cActive m else 0 < cQuiescing m.
Proof.
  intros Ht Hm. destruct (so_count _ _ _ _ _ _ H i m Hm) as [E1 E2].
  pose proof (total_ge (in_group i g) rs t _ (in_group_nonneg i g) Ht) as Hge. rewrite in_group_eq, bool_decide_true in Hge by done.
  destruct g, (curGroup m); cbn [eqb negb] in *; lia.
Qed.

Lemma states_leave t i g e m : rs !! t = Some (RIn i g e) -> ms !! i = Some m ->
  eqb g (curGroup m) = true \/ cQuiescing m <> 1 ->
  states_ok (<[i := (if eqb g (curGroup m) then Meter (curGroup m) (cActive m - 1) (cQuiescing m) else Meter (curGroup m) (cActive m) (cQuiescing m - 1))]> ms)
    cur sem cC ph (<[t := ROut]> rs).
Proof.
  intros Ht Hm Hne. pose proof (inside_counts t i g e m Ht Hm) as Hin. pose proof (in_self _ _ _ Ht) as Hmem. split.
  - rewrite length_insert. apply H.
  - intros k x Hx. by eapply leave_counts.
  - intros i' g' e' [|Hx]%(in_insert _ _ _ _ _ Ht); [done|]. by eapply H.
  - apply H.
  - rewrite (total_same _ _ _ _ _ Ht) by done. apply H.
  - by eapply frames_insert.
  - eapply phase_frame; [apply (same_meters_insert _ _ _ _ Hm)|done|set_solver|by left|apply H].
    destruct (eqb g (curGroup m)); [done|]. split_and!; [done| |cbn; lia]. unfold waiting. cbn.
    destruct Hne as [|Hne]; [done|]. by rewrite !(proj2 (Z.ltb_lt _ _)) by lia.
Qed.

(** The last thread of the group that is waited for leaves. *)
Lemma states_leave_last t i g e m : rs !! t = Some (RIn i g e) -> ms !! i = Some m -> eqb g (curGroup m) = false -> cQuiescing m = 1 ->
  states_ok (<[i := Meter (curGroup m) (cActive m) (cQuiescing m - 1)]> ms) cur sem cC ph (<[t := RComp []]> rs).
Proof.
  intros Ht Hm Hg Hq. split.
  - rewrite length_insert. apply H.
  - intros k x Hx. eapply leave_counts; [done|done|done|]. by rewrite Hg.
  - intros i' g' e' [|Hx]%(in_insert _ _ _ _ _ Ht); [done|]. by eapply H.
  - apply H.
  - rewrite (total_same _ _ _ _ _ Ht) by done. apply H.
  - by eapply frames_insert.
  - pose proof (so_phase _ _ _ _ _ _ H) as Hp. pose proof (in_self _ _ _ Hm) as Hmem.
    destruct ph as [|es|pred j]; cbn [phase_ok] in *; [destruct Hp as (_ & _ & _ & _ & _ & H4 & _); specialize (H4 m Hmem); lia
      |destruct Hp as (_ & _ & _ & _ & _ & _ & H4 & _); specialize (H4 m Hmem); lia|].
    destruct Hp as (H1 & H2 & H3 & H4 & H5 & H6 & H7 & H8 & H9 & H10).
    rewrite (total_insert is_comp _ _ _ _ Ht), (total_insert waiting _ _ _ _ Hm).
    rewrite (total_same is_trans _ _ _ _ Ht), (total_same (is_loop chs) _ _ _ _ Ht), (total_same is_finish _ _ _ _ Ht) by done.
    split_and!; try done.
    + intros a k [->|Hx]%(in_insert _ _ _ _ _ Ht); [done|by apply H5].
    + intros k x Hx Hjk. destruct (decide (k = i)) as [->|Hne]; [specialize (H6 i m Hm Hjk); lia|].
      rewrite list_lookup_insert_ne in Hx by done. by eapply H6.
    + assert (E1 : waiting m = 1) by (unfold waiting; by rewrite Hq). rewrite E1. unfold waiting at 2. cbn. rewrite Hq. change (0 <? 1 - 1) with false. lia.
    + intros i' g' e' [|Hx]%(in_insert _ _ _ _ _ Ht); [done|]. destruct (H10 _ _ _ Hx) as [|[-> Hb]]; [by left|right].
      split; [done|]. destruct Hb as [|(y & Hy & ->)]; [by left|right]. destruct (decide (i' = i)) as [->|Hne].
      * exists (Meter (curGroup m) (cActive m) (cQuiescing m - 1)). rewrite list_lookup_insert_eq by (by eapply lookup_lt_Some).
        split; [done|]. cbn. congruence.
      * exists y. by rewrite list_lookup_insert_ne.
Qed.

(** ** The policy *)

Lemma states_outside t a a' sem' : rs !! t = Some a -> (forall f, f ∈ [is_trans; is_loop chs; is_comp; is_finish] -> f a' = f a) ->
  plain cur a' -> (forall i g, in_group i g a' = in_group i g a) -> (forall i g e, a' <> RIn i g e) -> frames_ok chs a' ->
  0 <= sem' -> sem' + is_policy a' = sem + is_policy a -> states_ok ms cur sem' cC ph (<[t := a']> rs).
Proof.
  intros Ht Hf Hpl Hgr Hni Hfr Hs Htok. split.
  - apply H.
  - intros i m Hm. rewrite !(total_same _ _ _ _ _ Ht) by apply Hgr. by apply H.
  - intros i g e [Hx|Hx]%(in_insert _ _ _ _ _ Ht); [by destruct (Hni i g e)|]. by eapply H.
  - done.
  - rewrite (total_insert _ _ _ _ _ Ht). pose proof (so_token _ _ _ _ _ _ H). lia.
  - by eapply frames_insert.
  - eapply phase_frame; [apply same_meters|done|done|by left|apply H].
Qed.

Lemma states_acquire t : rs !! t = Some ROut -> 0 < sem -> states_ok ms cur (sem - 1) cC ph (<[t := RPolicy]> rs).
Proof. intros Ht Hs. eapply states_outside; [done|set_solver|done..|lia|cbn; lia]. Qed.

Lemma states_release t : rs !! t = Some RPolicy -> states_ok ms cur (sem + 1) cC ph (<[t := ROut]> rs).
Proof. intros Ht. pose proof (so_sem _ _ _ _ _ _ H). eapply states_outside; [done|set_solver|done..|lia|cbn; lia]. Qed.

(** Whoever holds the policy finds the table in a stable state. *)
Lemma policy_quiet t : rs !! t = Some RPolicy -> ph = Quiet /\ sem = 0 /\ total is_policy rs = 1 /\ (cur = stateGrow \/ cur = stateShrink).
Proof.
  intros Ht. pose proof (total_ge is_policy rs t _ is_policy_nonneg Ht) as Hge. cbn in Hge. pose proof (so_sem _ _ _ _ _ _ H).
  pose proof (so_token _ _ _ _ _ _ H). pose proof (so_phase _ _ _ _ _ _ H) as Hp. destruct ph; cbn in *; [|lia..].
  destruct Hp as (? & _). split_and!; [done|lia|lia|done].
Qed.

(** ** Transitions *)

Lemma states_decide t es : rs !! t = Some RPolicy -> edge cur es = true ->
  states_ok ms cur sem cC (Moving es) (<[t := RTrans es []]> rs).
Proof.
  intros Ht He. destruct (policy_quiet t Ht) as (Hq & Hs & Hpol & _). pose proof (so_phase _ _ _ _ _ _ H) as Hp. rewrite Hq in Hp.
  destruct Hp as (_ & Htr & H1 & H2 & H3 & H4 & H5). split.
  - apply H.
  - intros i m Hm. rewrite !(total_same _ _ _ _ _ Ht) by done. by apply H.
  - intros i g e [|Hx]%(in_insert _ _ _ _ _ Ht); [done|]. by eapply H.
  - apply H.
  - rewrite (total_insert _ _ _ _ _ Ht). cbn. lia.
  - eapply frames_insert; [done|]. constructor.
  - split_and!; [done|rewrite (total_insert _ _ _ _ _ Ht); cbn; lia| |].
    + intros e st [Hx|Hx]%(in_insert _ _ _ _ _ Ht); [congruence|].
      apply list_elem_of_lookup in Hx as [k Hk]. pose proof (no_role is_trans rs k _ is_trans_nonneg Hk Htr). done.
    + unfold calm. rewrite !(total_same _ _ _ _ _ Ht) by done. split_and!; [done..|].
      intros i g e [|Hx]%(in_insert _ _ _ _ _ Ht); [done|]. by eapply H5.
Qed.

(** The thread that is about to set the state. *)
Lemma trans_moving t es st : rs !! t = Some (RTrans es st) -> ph = Moving es /\ edge cur es = true /\ total is_trans rs = 1 /\ calm ms cur rs.
Proof.
  intros Ht. pose proof (total_ge is_trans rs t _ is_trans_nonneg Ht) as Hge. cbn in Hge. pose proof (so_phase _ _ _ _ _ _ H) as Hp.
  destruct ph as [|es'|pred j]; cbn in Hp; [destruct Hp as (_ & ? & _); lia| |destruct Hp as (_ & ? & _); lia].
  destruct Hp as (He & Htr & Hes & Hc). rewrite (Hes es st) by (by eapply in_self). done.
Qed.

Lemma states_begin t es st : (0 < chs)%nat -> rs !! t = Some (RTrans es st) ->
  states_ok ms es sem 0 (Busy cur 0) (<[t := RPart 0 st]> rs).
Proof.
  intros Hchs Ht. destruct (trans_moving t es st Ht) as (Hq & He & Htr & H1 & H2 & H3 & H4 & H5).
  pose proof (so_frames _ _ _ _ _ _ H _ (in_self _ _ _ Ht)) as Hfr. split.
  - apply H.
  - intros i m Hm. rewrite !(total_same _ _ _ _ _ Ht) by done. by apply H.
  - intros i g e [|Hx]%(in_insert _ _ _ _ _ Ht); [done|]. by eapply H.
  - apply H.
  - rewrite (total_same _ _ _ _ _ Ht) by done. pose proof (so_token _ _ _ _ _ _ H) as Htok. rewrite Hq in Htok. exact Htok.
  - eapply frames_insert; [done|]. done.
  - assert (Hw : total waiting ms = 0).
    { apply total_0. intros m Hm. unfold waiting. by rewrite (H4 m Hm). }
    cbn [phase_ok]. rewrite (total_insert is_trans _ _ _ _ Ht), (total_insert (is_loop chs) _ _ _ _ Ht), (total_same is_comp _ _ _ _ Ht),
      (total_same is_finish _ _ _ _ Ht) by done. rewrite decide_True by lia. rewrite decide_False by lia. cbn [is_trans is_loop next_part].
    split_and!; try done; try lia.
    + intros a i [->|Hx]%(in_insert _ _ _ _ _ Ht) Hn; [by injection Hn as <-|]. apply list_elem_of_lookup in Hx as [k Hk].
      pose proof (no_role (is_loop chs) rs k _ is_loop_nonneg Hk H1) as H0. unfold is_loop in H0. by rewrite Hn in H0.
    + intros i m Hm _. apply H4. by eapply in_self.
    + intros i g e [|Hx]%(in_insert _ _ _ _ _ Ht); [done|]. right. split; [by eapply H5|]. left. lia.
Qed.

(** The phase of a thread in the loop of [STTransition]. *)
Lemma loop_busy t a i : rs !! t = Some a -> next_part chs a = Some i -> exists pred, ph = Busy pred i /\ (i < chs)%nat /\
  forall t' a', t' <> t -> rs !! t' = Some a' -> next_part chs a' = None.
Proof.
  intros Ht Hn. assert (Hl : is_loop chs a = 1) by (unfold is_loop; by rewrite Hn).
  pose proof (total_ge (is_loop chs) rs t a is_loop_nonneg Ht) as Hge. pose proof (so_phase _ _ _ _ _ _ H) as Hp.
  destruct ph as [|es'|pred j]; cbn in Hp; [destruct Hp as (_ & _ & ? & _); lia|destruct Hp as (_ & _ & _ & ? & _); lia|].
  destruct Hp as (_ & _ & Hj & Hloop & Hi & _). assert (i = j) as -> by (eapply Hi; [by eapply in_self|done]).
  exists pred. split; [done|]. destruct (decide (j < chs)%nat); [|lia]. split; [done|]. intros t' a' Hne Ht'.
  pose proof (total_ge2 (is_loop chs) rs t t' a a' is_loop_nonneg Ht Ht' ltac:(done)) as Hge2.
  unfold is_loop at 2 in Hge2. destruct (next_part chs a'); [lia|done].
Qed.

Lemma part_busy t i st : rs !! t = Some (RPart i st) -> exists m, ms !! i = Some m /\ cQuiescing m = 0.
Proof.
  intros Ht. destruct (loop_busy t _ i Ht eq_refl) as (pred & Hq & Hi & _). pose proof (so_phase _ _ _ _ _ _ H) as Hp. rewrite Hq in Hp.
  destruct Hp as (_ & _ & _ & _ & _ & H6 & _). destruct (lookup_lt_is_Some_2 ms i) as [m Hm]; [by rewrite (so_len _ _ _ _ _ _ H)|].
  exists m. split; [done|]. by eapply H6.
Qed.

(** The counts when a section is partitioned. *)
Lemma part_counts t a a' i m k x : rs !! t = Some a -> (forall i g, in_group i g a' = in_group i g a) -> ms !! i = Some m -> cQuiescing m = 0 ->
  <[i := Meter (negb (curGroup m)) 0 (cActive m)]> ms !! k = Some x ->
  cActive x = total (in_group k (curGroup x)) (<[t := a']> rs) /\ cQuiescing x = total (in_group k (negb (curGroup x))) (<[t := a']> rs).
Proof.
  intros Ht Ha Hm Hq Hx. rewrite !(total_same _ _ _ _ _ Ht) by apply Ha. destruct (decide (k = i)) as [->|Hne].
  - rewrite list_lookup_insert_eq in Hx by (by eapply lookup_lt_Some). injection Hx as <-. cbn.
    destruct (so_count _ _ _ _ _ _ H i m Hm) as [-> E2]. rewrite Hq in E2. by rewrite negb_involutive.
  - rewrite list_lookup_insert_ne in Hx by done. by apply H.
Qed.

(** A section is partitioned; when nobody was in it, it completes at once. *)
Lemma states_part t i st m : rs !! t = Some (RPart i st) -> ms !! i = Some m ->
  exists pred, ph = Busy pred i /\
  states_ok (<[i := Meter (negb (curGroup m)) 0 (cActive m)]> ms) cur sem cC (Busy pred (S i))
    (<[t := if decide (cActive m = 0) then RComp (i :: st) else role_return (i :: st)]> rs).
Proof.
  intros Ht Hm. destruct (loop_busy t _ i Ht eq_refl) as (pred & Hph & Hi & Hother). exists pred. split; [done|].
  destruct (part_busy t i st Ht) as (m' & Hm' & Hq0). assert (m' = m) as -> by congruence. clear Hm'. set (a' := if decide (cActive m = 0) then _ else _).
  assert (Hcls : is_trans a' = 0 /\ is_finish a' = 0 /\ is_policy a' = 0 /\ (forall i g, in_group i g a' = 0) /\
    next_part chs a' = (if decide (S i < chs)%nat then Some (S i) else None) /\ is_comp a' = 1 - waiting (Meter (negb (curGroup m)) 0 (cActive m))).
  { destruct (so_count _ _ _ _ _ _ H i m Hm) as [Hact _]. pose proof (total_nonneg _ rs (in_group_nonneg i (curGroup m))).
    unfold a', waiting. cbn [role_return]. destruct (decide (cActive m = 0)) as [->|Hne]; [by cbn|].
    rewrite (proj2 (Z.ltb_lt 0 _)) by (cbn; lia). destruct (decide (S i < chs)%nat); [by cbn; rewrite ?decide_True by lia|done]. }
  destruct Hcls as (C1 & C2 & C3 & C4 & C5 & C6). pose proof (so_frames _ _ _ _ _ _ H _ (in_self _ _ _ Ht)) as [_ Hfr].
  assert (Hnr : forall i' g' e', a' <> RIn i' g' e').
  { intros i' g' e' Ha'. specialize (C4 i' g'). rewrite Ha', in_group_eq, bool_decide_true in C4; done. }
  split.
  - rewrite length_insert. apply H.
  - intros k x Hx. eapply part_counts; [done| |done|done|done]. intros. by rewrite C4.
  - intros i' g' e' [Hx|Hx]%(in_insert _ _ _ _ _ Ht); [by destruct (Hnr i' g' e')|]. by eapply H.
  - apply H.
  - rewrite (total_same _ _ _ _ _ Ht) by done. pose proof (so_token _ _ _ _ _ _ H) as Htok. by rewrite Hph in Htok.
  - eapply frames_insert; [done|]. unfold a'. destruct (decide (cActive m = 0)); [done|]. cbn. by destruct (decide (S i < chs)%nat).
  - pose proof (so_phase _ _ _ _ _ _ H) as Hp. rewrite Hph in Hp. destruct Hp as (H1 & H2 & H3 & H4 & H5 & H6 & H7 & H8 & H9 & H10).
    rewrite decide_True in H4 by done. pose proof (lookup_lt_Some _ _ _ Hm) as Hlt.
    cbn [phase_ok]. rewrite (total_insert is_comp _ _ _ _ Ht), (total_insert (is_loop chs) _ _ _ _ Ht), (total_insert waiting _ _ _ _ Hm).
    rewrite (total_same is_trans _ _ _ _ Ht), (total_same is_finish _ _ _ _ Ht) by done. split_and!; try done; try lia.
    + unfold is_loop at 2 3. rewrite C5. cbn [next_part]. destruct (decide (S i < chs)%nat); lia.
    + intros a k [->|(t' & Hne & Ht')]%(in_insert_other _ _ _ _ _ Ht) Hn; [|by rewrite (Hother t' a Hne Ht') in Hn].
      rewrite C5 in Hn. destruct (decide (S i < chs)%nat); congruence.
    + intros k x Hx Hik. rewrite list_lookup_insert_ne in Hx by lia. apply (H6 k x Hx). lia.
    + cbn [is_comp]. unfold waiting at 2. rewrite Hq0. cbn [Z.ltb Z.compare]. lia.
    + intros i' g' e' [Hx|Hx]%(in_insert _ _ _ _ _ Ht); [by destruct (Hnr i' g' (Some e'))|]. destruct (H10 _ _ _ Hx) as [|[-> Hb]]; [by left|right].
      split; [done|]. destruct (decide (i' = i)) as [->|Hne].
      * right. eexists. rewrite list_lookup_insert_eq by done. split; [done|]. cbn. rewrite negb_involutive.
        apply list_elem_of_lookup in Hx as [k Hk]. pose proof (inside_counts k i g' _ m Hk Hm) as Hc. rewrite Hq0 in Hc.
        destruct g', (curGroup m); cbn in Hc; first [done|lia].
      * destruct Hb as [|(y & Hy & ->)]; [left; lia|right]. exists y. by rewrite list_lookup_insert_ne.
Qed.

Lemma comp_busy t st : rs !! t = Some (RComp st) -> exists pred j, ph = Busy pred j.
Proof.
  intros Ht. pose proof (so_phase _ _ _ _ _ _ H) as Hp. pose proof (total_ge is_comp rs t _ is_comp_nonneg Ht) as Hge. cbn in Hge.
  destruct ph as [|es'|pred j]; cbn [phase_ok] in Hp; [destruct Hp as (_ & _ & _ & ? & _); lia|destruct Hp as (_ & _ & _ & _ & ? & _); lia|eauto].
Qed.

(** A completion is counted; the last one finishes the transition. *)
Lemma states_comp t st : rs !! t = Some (RComp st) -> exists pred j, ph = Busy pred j /\ 0 <= cC /\ cC + 1 <= Z.of_nat chs /\
  states_ok ms cur sem (cC + 1) ph (<[t := if decide (cC + 1 = Z.of_nat chs) then RFinish st else role_return st]> rs).
Proof.
  intros Ht. pose proof (so_phase _ _ _ _ _ _ H) as Hp. pose proof (total_ge is_comp rs t _ is_comp_nonneg Ht) as Hge. cbn in Hge.
  destruct (comp_busy t st Ht) as (pred & j & Hph). rewrite Hph in Hp.
  destruct Hp as (H1 & H2 & H3 & H4 & H5 & H6 & H7 & H8 & H9 & H10). pose proof (total_nonneg waiting ms waiting_nonneg) as Hw.
  exists pred, j. split; [done|]. split; [done|]. split; [lia|].
  pose proof (so_frames _ _ _ _ _ _ H _ (in_self _ _ _ Ht)) as Hfr.
  set (a' := if decide (cC + 1 = Z.of_nat chs) then _ else _).
  assert (Hlast : cC + 1 = Z.of_nat chs -> next_part chs (RComp st) = None).
  { intros HcC. destruct (next_part chs (RComp st)) as [k|] eqn:Hk; [|done]. destruct (loop_busy t _ k Ht Hk) as (? & Hph' & Hlt & _). rewrite Hph in Hph'. injection Hph' as _ ->. lia. }
  assert (Hcls : is_trans a' = 0 /\ is_comp a' = 0 /\ is_policy a' = 0 /\ (forall i g, in_group i g a' = 0) /\ frames_ok chs a' /\
    next_part chs a' = next_part chs (RComp st) /\ is_finish a' = if decide (cC + 1 = Z.of_nat chs) then 1 else 0).
  { unfold a'. destruct (decide (cC + 1 = Z.of_nat chs)) as [HcC|HcC].
    - specialize (Hlast HcC). split_and!; try done. cbn. destruct st as [|k st]; [constructor|]. cbn in Hfr, Hlast.
      destruct (decide (S k < chs)%nat); [done|]. destruct Hfr. constructor; [lia|done].
    - destruct st as [|k st]; cbn; [done|]. destruct (decide (S k < chs)%nat); [|done]. destruct Hfr. done. }
  destruct Hcls as (C1 & C2 & C3 & C4 & C5 & C6 & C7).
  assert (Hnr : forall i' g' e', a' <> RIn i' g' e').
  { intros i' g' e' Ha'. specialize (C4 i' g'). rewrite Ha', in_group_eq, bool_decide_true in C4; done. }
  split.
  - apply H.
  - intros k x Hx. rewrite !(total_same _ _ _ _ _ Ht) by apply C4. by apply H.
  - intros i' g' e' [Hx|Hx]%(in_insert _ _ _ _ _ Ht); [by destruct (Hnr i' g' e')|]. by eapply H.
  - apply H.
  - rewrite (total_same _ _ _ _ _ Ht) by done. apply H.
  - by eapply frames_insert.
  - rewrite Hph. cbn [phase_ok]. rewrite (total_insert is_comp _ _ _ _ Ht), (total_insert is_finish _ _ _ _ Ht).
    rewrite (total_same is_trans _ _ _ _ Ht) by done. rewrite (total_same (is_loop chs) _ _ _ _ Ht) by (unfold is_loop; by rewrite C6).
    split_and!; try done; try lia.
    + intros a k [->|Hx]%(in_insert _ _ _ _ _ Ht) Hn; [|by apply H5 in Hn]. rewrite C6 in Hn. eapply H5; [by eapply in_self|done].
    + cbn [is_comp]. lia.
    + rewrite C7, H9. rewrite (decide_False (P := cC = _)) by lia. cbn [is_finish]. lia.
    + intros i' g' e' [Hx|Hx]%(in_insert _ _ _ _ _ Ht); [by destruct (Hnr i' g' (Some e'))|]. by apply H10.
Qed.

Lemma finish_phase t st : rs !! t = Some (RFinish st) -> exists pred j, ph = Busy pred j.
Proof.
  intros Ht. pose proof (so_phase _ _ _ _ _ _ H) as Hp. pose proof (total_ge is_finish rs t _ is_finish_nonneg Ht) as Hge. cbn in Hge.
  destruct ph as [|es'|pred j]; cbn [phase_ok] in Hp; [destruct Hp as (_ & _ & _ & _ & ? & _); lia|destruct Hp as (_ & _ & _ & _ & _ & ? & _); lia|eauto].
Qed.

(** When the completion function runs, everyone inside has read the current state. *)
Lemma finish_busy t st : rs !! t = Some (RFinish st) -> exists pred, ph = Busy pred chs /\ edge pred cur = true /\
  total is_trans rs = 0 /\ total (is_loop chs) rs = 0 /\ total is_comp rs = 0 /\ total is_finish rs = 1 /\
  (forall m, m ∈ ms -> cQuiescing m = 0) /\ (forall i g e, RIn i g (Some e) ∈ rs -> e = cur).
Proof.
  intros Ht. pose proof (total_ge is_finish rs t _ is_finish_nonneg Ht) as Hge. cbn in Hge. destruct (finish_phase t st Ht) as (pred & j & Hph).
  pose proof (so_phase _ _ _ _ _ _ H) as Hp. rewrite Hph in Hp.
  destruct Hp as (H1 & H2 & H3 & H4 & H5 & H6 & H7 & H8 & H9 & H10). pose proof (total_nonneg waiting ms waiting_nonneg) as Hw.
  pose proof (total_nonneg is_comp rs is_comp_nonneg). destruct (decide (cC = Z.of_nat chs)) as [HcC|]; [|lia].
  assert (Hj : j = chs) by lia. rewrite Hj in *. rewrite decide_False in H4 by lia.
  assert (Hq : forall m, m ∈ ms -> cQuiescing m = 0).
  { intros m [k Hk]%list_elem_of_lookup. pose proof (total_ge waiting ms k m waiting_nonneg Hk) as Hwm.
    unfold waiting at 1 in Hwm. destruct (so_count _ _ _ _ _ _ H k m Hk) as [_ Hc].
    pose proof (total_nonneg _ rs (in_group_nonneg k (negb (curGroup m)))). destruct (Z.ltb_spec 0 (cQuiescing m)); lia. }
  exists pred. split_and!; try done; try lia. intros i g e Hx. destruct (H10 i g e Hx) as [|[_ [Hb|(m & Hm & Hg)]]]; [done| |].
  - pose proof (so_valid _ _ _ _ _ _ H _ _ _ Hx). lia.
  - apply list_elem_of_lookup in Hx as [k Hk]. pose proof (inside_counts k i g _ m Hk Hm) as Hc. rewrite (Hq m) in Hc by (by eapply in_self).
    rewrite Hg in Hc. by destruct (curGroup m).
Qed.

Lemma states_finish_next t st es : rs !! t = Some (RFinish st) -> edge cur es = true ->
  states_ok ms cur sem cC (Moving es) (<[t := RTrans es st]> rs).
Proof.
  intros Ht He. destruct (finish_busy t st Ht) as (pred & Hph & _ & H2 & H3 & H4 & H5 & H6 & H7). split.
  - apply H.
  - intros i m Hm. rewrite !(total_same _ _ _ _ _ Ht) by done. by apply H.
  - intros i g e [|Hx]%(in_insert _ _ _ _ _ Ht); [done|]. by eapply H.
  - apply H.
  - rewrite (total_same _ _ _ _ _ Ht) by done. pose proof (so_token _ _ _ _ _ _ H) as Htok. by rewrite Hph in Htok.
  - eapply frames_insert; [done|]. apply (so_frames _ _ _ _ _ _ H _ (in_self _ _ _ Ht)).
  - cbn [phase_ok]. split_and!; [done|rewrite (total_insert _ _ _ _ _ Ht); cbn; lia| |].
    + intros e st' [Hx|Hx]%(in_insert _ _ _ _ _ Ht); [congruence|]. apply list_elem_of_lookup in Hx as [k Hk].
      by pose proof (no_role is_trans rs k _ is_trans_nonneg Hk H2).
    + unfold calm. rewrite (total_insert is_finish _ _ _ _ Ht), !(total_same _ _ _ _ _ Ht) by done.
      split_and!; try done; [cbn; lia|]. intros i g e [|Hx]%(in_insert _ _ _ _ _ Ht); [done|]. by eapply H7.
Qed.

Lemma states_finish_quiet t st : rs !! t = Some (RFinish st) -> cur = stateGrow \/ cur = stateShrink ->
  states_ok ms cur (sem + 1) cC Quiet (<[t := ROut]> rs).
Proof.
  intros Ht He. destruct (finish_busy t st Ht) as (pred & Hph & _ & H2 & H3 & H4 & H5 & H6 & H7). split.
  - apply H.
  - intros i m Hm. rewrite !(total_same _ _ _ _ _ Ht) by done. by apply H.
  - intros i g e [|Hx]%(in_insert _ _ _ _ _ Ht); [done|]. by eapply H.
  - pose proof (so_sem _ _ _ _ _ _ H). lia.
  - rewrite (total_same _ _ _ _ _ Ht) by done. pose proof (so_token _ _ _ _ _ _ H) as Htok. rewrite Hph in Htok. cbn in *. lia.
  - by eapply frames_insert.
  - cbn [phase_ok]. rewrite (total_same _ _ _ _ _ Ht) by done. split_and!; [done|done|].
    unfold calm. rewrite (total_insert is_finish _ _ _ _ Ht), !(total_same _ _ _ _ _ Ht) by done.
    split_and!; try done; [cbn; lia|]. intros i g e [|Hx]%(in_insert _ _ _ _ _ Ht); [done|]. by eapply H7.
Qed.

(** ** What the threads inside have read *)

(** Any two states that threads inside have read are the same or follow each other. *)
Lemma inside_states i g e : RIn i g (Some e) ∈ rs -> e = cur \/ edge e cur = true.
Proof.
  intros Hx. pose proof (so_phase _ _ _ _ _ _ H) as Hp. destruct ph as [|es|pred j]; cbn [phase_ok] in Hp.
  - destruct Hp as (_ & _ & _ & _ & _ & _ & H5). left. by eapply H5.
  - destruct Hp as (_ & _ & _ & _ & _ & _ & _ & H5). left. by eapply H5.
  - destruct Hp as (H1 & _ & _ & _ & _ & _ & _ & _ & _ & H10). destruct (H10 _ _ _ Hx) as [|[-> _]]; [by left|by right].
Qed.

Lemma inside_phase i g e : RIn i g (Some e) ∈ rs ->
  match ph with
  | Quiet => (cur = stateGrow \/ cur = stateShrink) /\ e = cur
  | Moving es => edge cur es = true /\ e = cur
  | Busy pred _ => edge pred cur = true /\ (e = cur \/ e = pred)
  end.
Proof.
  intros Hx. pose proof (so_phase _ _ _ _ _ _ H) as Hp. destruct ph as [|es|pred j]; cbn [phase_ok] in Hp.
  - destruct Hp as (H1 & _ & _ & _ & _ & _ & H5). split; [done|]. by eapply H5.
  - destruct Hp as (H1 & _ & _ & _ & _ & _ & _ & H5). split; [done|]. by eapply H5.
  - destruct Hp as (H1 & _ & _ & _ & _ & _ & _ & _ & _ & H10). split; [done|]. destruct (H10 _ _ _ Hx) as [|[-> _]]; auto.
Qed.

Lemma inside_two i g e i' g' e' : RIn i g (Some e) ∈ rs -> RIn i' g' (Some e') ∈ rs -> e' = e \/ edge e e' = true \/ edge e' e = true.
Proof.
  intros Hx Hy. pose proof (so_phase _ _ _ _ _ _ H) as Hp. destruct ph as [|es|pred j]; cbn [phase_ok] in Hp.
  - destruct Hp as (_ & _ & _ & _ & _ & _ & H5). left. by rewrite (H5 _ _ _ Hx), (H5 _ _ _ Hy).
  - destruct Hp as (_ & _ & _ & _ & _ & _ & _ & H5). left. by rewrite (H5 _ _ _ Hx), (H5 _ _ _ Hy).
  - destruct Hp as (H1 & _ & _ & _ & _ & _ & _ & _ & _ & H10).
    destruct (H10 _ _ _ Hx) as [-> |[-> _]], (H10 _ _ _ Hy) as [-> |[-> _]]; auto.
Qed.

(** While a thread may split, the others inside see the table only grow; while one may
    merge, they see it only shrink. *)
Lemma grow_up i g i' g' e' : RIn i g (Some stateGrow) ∈ rs -> RIn i' g' (Some e') ∈ rs -> up e' = true.
Proof. intros Hx Hy. destruct (inside_two _ _ _ _ _ _ Hx Hy) as [->|[He|He]]; [done| |]; by destruct e'. Qed.

Lemma shrink_down i g i' g' e' : RIn i g (Some stateShrink) ∈ rs -> RIn i' g' (Some e') ∈ rs -> down e' = true.
Proof. intros Hx Hy. destruct (inside_two _ _ _ _ _ _ Hx Hy) as [->|[He|He]]; [done| |]; by destruct e'. Qed.

End Steps.

End States.
