(* ===== verification/HashDir.v ===== *)
(** * HashDir: linear hashing

    The bucket of a hash value for a directory of [M + c] buckets ([bidx]), how it
    changes when the directory grows or shrinks, and that [DIRILog2],
    [PbucketDIRIResolve] and [PbucketDIRIHash] compute the address of that bucket. *)

From stdpp Require Import gmap.
From S2P Require Import Prelude HashBucket HashBucketProofs Threads HashTable.

(** ** The bucket of a hash value *)

Definition bidx (M c h : Z) : Z := let i := h mod (2 * M) in if M + c <=? i then i - M else i.

Lemma mod_double M h : 0 < M -> h mod (2 * M) = h mod M \/ h mod (2 * M) = h mod M + M.
Proof.
  intros HM. pose proof (Z.mod_pos_bound h (2 * M) ltac:(lia)). pose proof (Z.mod_pos_bound h M ltac:(lia)).
  pose proof (Z.div_mod h (2 * M) ltac:(lia)). pose proof (Z.div_mod h M ltac:(lia)).
  assert (h / M = 2 * (h / (2 * M)) \/ h / M = 2 * (h / (2 * M)) + 1) by nia. lia.
Qed.

(** The two possible buckets. *)
Lemma bidx_cases M c h : 0 < M -> 0 <= c <= M ->
  (h mod M < c /\ bidx M c h = h mod (2 * M)) \/ (c <= h mod M /\ bidx M c h = h mod M).
Proof.
  intros HM Hc. unfold bidx. pose proof (Z.mod_pos_bound h M HM). destruct (mod_double M h HM) as [-> | ->];
    destruct (Z.leb_spec (M + c) (h mod M)), (Z.leb_spec (M + c) (h mod M + M)); lia.
Qed.

Lemma bidx_range M c h : 0 < M -> 0 <= c <= M -> 0 <= bidx M c h < M + c.
Proof.
  intros HM Hc. unfold bidx. pose proof (Z.mod_pos_bound h (2 * M) ltac:(lia)). destruct (Z.leb_spec (M + c) (h mod (2 * M))); lia.
Qed.

Lemma bidx_mod M c h : 0 < M -> 0 <= c <= M -> bidx M c h mod M = h mod M.
Proof.
  intros HM Hc. pose proof (Z.mod_pos_bound h M HM). destruct (bidx_cases M c h HM Hc) as [[_ ->]|[_ ->]]; [|apply Z.mod_mod; lia].
  destruct (mod_double M h HM) as [-> | ->]; [apply Z.mod_mod; lia|].
  replace (h mod M + M) with (h mod M + 1 * M) by lia. rewrite Z.mod_add, Z.mod_mod; lia.
Qed.

(** A bucket number that is in use is its own bucket. *)
Lemma bidx_self M c v : 0 < M -> 0 <= c <= M -> 0 <= v < M + c -> bidx M c v = v.
Proof. intros HM Hc Hv. unfold bidx. rewrite Z.mod_small by lia. by rewrite (proj2 (Z.leb_gt _ _)) by lia. Qed.

(** Splitting the bucket [c]. *)
Lemma bidx_grow M c h : 0 < M -> 0 <= c < M ->
  bidx M (c + 1) h = if bidx M c h =? c then (if h mod (2 * M) =? c then c else M + c) else bidx M c h.
Proof.
  intros HM Hc. unfold bidx. pose proof (Z.mod_pos_bound h (2 * M) ltac:(lia)).
  repeat match goal with |- context [?a <=? ?b] => destruct (Z.leb_spec a b) end;
  repeat match goal with |- context [?a =? ?b] => destruct (Z.eqb_spec a b) end; lia.
Qed.

(** The directory doubles. *)
Lemma bidx_double M h : 0 < M -> bidx (2 * M) 0 h = bidx M M h.
Proof.
  intros HM. destruct (bidx_cases M M h HM ltac:(lia)) as [[_ ->]|[Hc _]]; [|pose proof (Z.mod_pos_bound h M HM); lia].
  destruct (bidx_cases (2 * M) 0 h ltac:(lia) ltac:(lia)) as [[Hc _]|[_ ->]]; [|done].
  pose proof (Z.mod_pos_bound h (2 * M) ltac:(lia)). lia.
Qed.

(** ** The check after locking *)

Lemma moved_false M c c' h : 0 < M -> M + c < 2 ^ 64 -> M + c' < 2 ^ 64 -> 0 <= c <= M -> 0 <= c' <= M -> moved c c' M (bidx M c h) = false -> bidx M c' h = bidx M c h.
Proof.
  intros HM HM1 HM2 Hc Hc' Hm. unfold moved, wrapu in Hm. rewrite !Z.mod_small in Hm by lia.
  pose proof (Z.mod_pos_bound h M HM). destruct (bidx_cases M c h HM Hc) as [[H1 E1]|[H1 E1]], (bidx_cases M c' h HM Hc') as [[H2 E2]|[H2 E2]];
    rewrite E1, E2 in *; try done; destruct (mod_double M h HM) as [E3|E3]; rewrite E3 in *; try lia.
Qed.

(** The bucket that was locked has been split, or merged away. *)
Lemma moved_true_up M c c' h : 0 < M -> M + c < 2 ^ 64 -> M + c' < 2 ^ 64 -> 0 <= c <= c' -> c' <= M -> moved c c' M (bidx M c h) = true -> h mod M < c'.
Proof.
  intros HM HM1 HM2 Hc Hc' Hm. unfold moved, wrapu in Hm. rewrite !Z.mod_small in Hm by lia. pose proof (Z.mod_pos_bound h M HM).
  destruct (bidx_cases M c h HM ltac:(lia)) as [[H1 E1]|[H1 E1]]; rewrite E1 in *; lia.
Qed.

Lemma moved_true_down M c c' h : 0 < M -> M + c < 2 ^ 64 -> M + c' < 2 ^ 64 -> 0 <= c' <= c -> c <= M -> moved c c' M (bidx M c h) = true -> c' <= h mod M.
Proof.
  intros HM HM1 HM2 Hc Hc' Hm. unfold moved, wrapu in Hm. rewrite !Z.mod_small in Hm by lia. pose proof (Z.mod_pos_bound h M HM).
  destruct (bidx_cases M c h HM ltac:(lia)) as [[H1 E1]|[H1 E1]]; rewrite E1 in *; destruct (mod_double M h HM) as [E3|E3]; lia.
Qed.

Lemma moved_same M c i : moved c c M i = false.
Proof. unfold moved. by rewrite Z.eqb_refl. Qed.

(** ** Logarithms *)

Lemma mask_next k : 0 <= k < 63 -> u64 (u64 (Z.shiftl (2 ^ (k + 1) - 1) 1) + 1) = 2 ^ (k + 2) - 1.
Proof.
  intros Hk. rewrite Z.shiftl_mul_pow2 by lia. assert (H1 : 2 ^ (k + 2) = 2 * 2 ^ (k + 1)) by (rewrite <- Z.pow_succ_r by lia; f_equal; lia).
  assert (H2 : 2 ^ (k + 2) <= 2 ^ 64) by (apply Z.pow_le_mono_r; lia). pose proof (Z.pow_pos_nonneg 2 (k + 1) ltac:(lia) ltac:(lia)).
  unfold wrapu. rewrite (Z.mod_small (_ * 2 ^ 1)) by lia. rewrite Z.mod_small by lia. lia.
Qed.

(** The remainder: the position in the array of the exponent. *)
Definition offset (v : Z) : Z := if v <? 2 then v else v - 2 ^ Z.log2 v.

Lemma log2_masks_ok n v k : 1 <= v < 2 ^ 64 -> 0 <= k <= Z.log2 v -> (Z.to_nat (Z.log2 v - k) <= n)%nat ->
  log2_loop n v k (if k =? 0 then 1 else 2 ^ k - 1) (2 ^ (k + 1) - 1) = Some (Z.log2 v, offset v).
Proof.
  intros Hv. revert k. induction n as [|n IH]; intros k Hk Hn.
  - assert (k = Z.log2 v) as -> by lia. pose proof (Z.log2_spec v ltac:(lia)) as Hs. rewrite <- Z.add_1_r in Hs.
    cbn [log2_loop]. rewrite (proj2 (Z.ltb_ge _ _)) by lia. f_equal. f_equal. unfold offset.
    destruct (Z.eqb_spec (Z.log2 v) 0) as [E0|E0].
    + rewrite E0 in Hs. assert (v = 1) as -> by lia. done.
    + assert (2 <= v) by (destruct (Z.lt_ge_cases v 2); [|done]; assert (v = 1) as -> by lia; done).
      rewrite (proj2 (Z.ltb_ge _ _)) by lia. replace (2 ^ Z.log2 v - 1) with (Z.ones (Z.log2 v)) by (rewrite Z.ones_equiv; lia). rewrite Z.land_comm, Z.land_ones by lia.
      symmetry. apply (Z.mod_unique _ _ 1); [|lia]. rewrite Z.pow_add_r in Hs by lia. lia.
  - pose proof (Z.log2_spec v ltac:(lia)) as Hs. destruct (Z.eq_dec k (Z.log2 v)) as [->|Hne].
    { specialize (IH (Z.log2 v) ltac:(lia) ltac:(lia)). cbn [log2_loop]. destruct n; cbn [log2_loop] in IH;
        rewrite (proj2 (Z.ltb_ge _ _)) in IH |- * by (rewrite <- Z.add_1_r in Hs; lia); done. }
    assert (H63 : Z.log2 v < 64) by (apply Z.log2_lt_pow2; lia).
    assert (Hk1 : 2 ^ (k + 1) <= v) by (transitivity (2 ^ Z.log2 v); [apply Z.pow_le_mono_r; lia|lia]).
    cbn [log2_loop]. rewrite (proj2 (Z.ltb_lt _ _)) by lia. rewrite mask_next by lia.
    specialize (IH (k + 1) ltac:(lia) ltac:(lia)). rewrite (proj2 (Z.eqb_neq (k + 1) 0)) in IH by lia.
    replace (k + 2) with (k + 1 + 1) by lia. exact IH.
Qed.

Lemma DIRILog2_ok v : 0 <= v < 2 ^ 64 -> DIRILog2 v = Some (Z.log2 v, offset v).
Proof.
  intros Hv. destruct (Z.eq_dec v 0) as [->|Hne]; [done|]. unfold DIRILog2.
  assert (H63 : Z.log2 v < 64) by (apply Z.log2_lt_pow2; lia). pose proof (Z.log2_nonneg v).
  pose proof (log2_masks_ok 64 v 0 ltac:(lia) ltac:(lia) ltac:(lia)) as E1. change (log2_loop 64 v 0 1 1 = Some (Z.log2 v, offset v)) in E1.
  rewrite E1. cbn [mbind option_bind]. unfold cbitNativeCounter. by rewrite (proj2 (Z.ltb_lt _ _)) by lia.
Qed.

Lemma offset_range v : 0 <= v -> 0 <= offset v <= v.
Proof.
  intros Hv. unfold offset. destruct (Z.ltb_spec v 2); [lia|]. pose proof (Z.log2_spec v ltac:(lia)).
  pose proof (Z.pow_pos_nonneg 2 (Z.log2 v) ltac:(lia) (Z.log2_nonneg v)). lia.
Qed.

(** ** The directory *)

(** The number of buckets of the array with the exponent [e]. *)
Definition array_size (e : Z) : Z := if e =? 0 then 2 else 2 ^ e.

Section Dir.
Context {K E : Type} `{KE : CKeyEntry K E} `{L : BucketLayout}.

(** The address of the bucket [v]. *)
Definition baddr (rg : list Z) (v : Z) : Z := rg !!! Z.to_nat (Z.log2 v) + offset v * m_cbBucket.

(** The arrays for [cap] buckets are there and no others; all are in the address space. *)
Record arrays_ok (rg : list Z) (cap : Z) : Prop := {
  ar_len : length rg = 64%nat;
  ar_cap : exists k, 1 <= k <= 63 /\ cap = 2 ^ k;
  ar_null : forall e, 0 <= e < 64 -> cap <= 2 ^ e -> rg !! Z.to_nat e = Some 0;
  ar_addr : forall v, 0 <= v < cap -> addr_ok (baddr rg v) }.

(** A directory that uses at most [cap] buckets. *)
Definition dir_ok (cap : Z) (d : DIRPTRS) : Prop :=
  (exists k, 0 <= k /\ m_cBucketMax d = 2 ^ k) /\ 0 <= m_cBucket d <= m_cBucketMax d /\ m_cBucketMax d + m_cBucket d <= cap.

(** The bucket of a hash value. *)
Definition bucket (d : DIRPTRS) (h : Z) : Z := bidx (m_cBucketMax d) (m_cBucket d) h.

Lemma dir_max_pos cap d : dir_ok cap d -> 0 < m_cBucketMax d.
Proof. intros ((k & Hk & ->) & _). by apply Z.pow_pos_nonneg. Qed.

Lemma bucket_range cap d h : dir_ok cap d -> 0 <= bucket d h < m_cBucketMax d + m_cBucket d.
Proof. intros Hd. pose proof (dir_max_pos _ _ Hd). destruct Hd as (_ & ? & _). by apply bidx_range. Qed.

Lemma cap_bounds rg cap : arrays_ok rg cap -> 2 <= cap <= 2 ^ 63.
Proof.
  intros [_ (k & Hk & ->) _ _]. split.
  - change 2 with (2 ^ 1) at 1. apply Z.pow_le_mono_r; lia.
  - apply Z.pow_le_mono_r; lia.
Qed.

Lemma land_mask M h : (exists k, 0 <= k /\ M = 2 ^ k) -> M <= 2 ^ 63 -> h .& u64 (u64 (M - 1) + M) = h mod (2 * M).
Proof.
  intros (k & Hk & ->) Hm. pose proof (Z.pow_pos_nonneg 2 k ltac:(lia) Hk). unfold wrapu. rewrite (Z.mod_small (2 ^ k - 1)) by lia.
  rewrite Z.mod_small by lia. replace (2 ^ k - 1 + 2 ^ k) with (Z.ones (k + 1)) by (rewrite Z.ones_equiv, Z.pow_add_r by lia; lia).
  rewrite Z.land_ones by lia. f_equal. rewrite Z.pow_add_r by lia. lia.
Qed.

(** Half of the buckets would already not fit into the address space otherwise. *)
Lemma baddr_word `{LO : !LayoutOk} rg cap v : arrays_ok rg cap -> 0 <= v < cap ->
  exists pb, rg !! Z.to_nat (Z.log2 v) = Some pb /\ pb <> 0 /\ u64 (pb + u64 (offset v * m_cbBucket)) = baddr rg v.
Proof.
  intros Ha Hv. pose proof (cap_bounds _ _ Ha). pose proof cbBucket_pos as Hcb. pose proof (Z.log2_nonneg v).
  assert (Hlog : Z.log2 v < 64).
  { destruct (Z.eq_dec v 0) as [->|]; [done|]. apply Z.log2_lt_pow2; lia. }
  destruct (lookup_lt_is_Some_2 rg (Z.to_nat (Z.log2 v))) as [pb Hpb]; [rewrite (ar_len _ _ Ha); lia|].
  assert (Hb : baddr rg v = pb + offset v * m_cbBucket) by (unfold baddr; by rewrite (list_lookup_total_correct _ _ _ Hpb)).
  (* the first bucket of the array *)
  assert (Hfirst : addr_ok pb).
  { destruct (Z.lt_ge_cases v 2) as [Hv2|Hv2].
    - assert (Hl : Z.log2 v = 0) by (destruct (Z.eq_dec v 0) as [->|]; [done|by assert (v = 1) as -> by lia]).
      pose proof (ar_addr _ _ Ha 0 ltac:(lia)) as Hz. unfold baddr, offset in Hz. cbn in Hz. rewrite Hl in Hpb. cbn in Hpb.
      rewrite (list_lookup_total_correct _ _ _ Hpb) in Hz. by rewrite Z.add_0_r in Hz.
    - pose proof (Z.log2_spec v ltac:(lia)) as Hs. assert (1 <= Z.log2 v) by (apply Z.log2_le_pow2; lia).
      assert (2 ^ 1 <= 2 ^ Z.log2 v) by (apply Z.pow_le_mono_r; lia).
      pose proof (ar_addr _ _ Ha (2 ^ Z.log2 v) ltac:(lia)) as Hz. unfold baddr, offset in Hz.
      rewrite Z.log2_pow2, (proj2 (Z.ltb_ge _ _)), Z.sub_diag, Z.mul_0_l, Z.add_0_r in Hz by lia.
      by rewrite (list_lookup_total_correct _ _ _ Hpb) in Hz. }
  exists pb. pose proof (ar_addr _ _ Ha v Hv) as Hav. rewrite Hb in *. unfold addr_ok in *. pose proof (offset_range v ltac:(lia)).
  split_and!; [done|lia|]. unfold wrapu. rewrite (Z.mod_small (offset v * _)) by nia. rewrite Z.mod_small by nia. done.
Qed.

Lemma Resolve_ok `{LO : !LayoutOk} (s : CDynamicHashTable E) cap v : arrays_ok (m_rgrgBucket s) cap -> 0 <= v < cap ->
  PbucketDIRIResolve s (Z.log2 v) (offset v) = Some (baddr (m_rgrgBucket s) v).
Proof.
  intros Ha Hv. destruct (baddr_word _ _ _ Ha Hv) as (pb & Hpb & Hne & Hw). unfold PbucketDIRIResolve. rewrite Hpb. cbn [mbind option_bind].
  rewrite (proj2 (Z.eqb_neq pb 0)) by done. cbn. by rewrite Hw.
Qed.

Lemma Hash_ok `{LO : !LayoutOk} (s : CDynamicHashTable E) cap es h : arrays_ok (m_rgrgBucket s) cap -> dir_ok cap (dirptrs s es) ->
  PbucketDIRIHash s es h = Some (baddr (m_rgrgBucket s) (bucket (dirptrs s es) h), bucket (dirptrs s es) h, m_cBucket (dirptrs s es)).
Proof.
  intros Ha Hd. pose proof (cap_bounds _ _ Ha) as Hcap. pose proof (dir_max_pos _ _ Hd). pose proof (bucket_range _ _ h Hd) as Hr.
  destruct Hd as (Hk & Hc & Hmc). unfold PbucketDIRIHash, NcDIRIGetBucket, NcDIRIGetBucketMax. rewrite land_mask by (done || lia).
  set (M := m_cBucketMax (dirptrs s es)) in *. set (c := m_cBucket (dirptrs s es)) in *.
  assert (Hb : (if h mod (2 * M) >=? u64 (M + c) then u64 (h mod (2 * M) - M) else h mod (2 * M)) = bucket (dirptrs s es) h).
  { unfold bucket, bidx. fold M c. pose proof (Z.mod_pos_bound h (2 * M) ltac:(lia)). unfold wrapu. rewrite (Z.mod_small (M + c)) by lia.
    rewrite Z.geb_leb. destruct (Z.leb_spec (M + c) (h mod (2 * M))); [|done]. rewrite Z.mod_small; lia. }
  rewrite Hb. rewrite DIRILog2_ok by lia. cbn [mbind option_bind]. rewrite (Resolve_ok s cap) by (done || lia). done.
Qed.

End Dir.
