(* ===== verification/HashViews.v ===== *)
(** * HashViews: what a client knows of the directory

    The role of a position in the state machine, the locks a client holds there, and
    what it may rely on: a client that has hashed a key but not verified the bucket
    knows how the number of buckets can have changed since ([waits]); a client that
    owns the bucket of its key keeps it through every change of the directory.  The
    lemmas show that each change of the directory preserves what the others know. *)

From stdpp Require Import gmap.
From S2P Require Import Prelude HashBucket Threads HashTable HashStates HashBucketProofs HashDir.

(** ** The locks of the buckets

    Which locks a client holds follows from its position ([locks_of]).  The invariant
    [locks_ok] says that the counts in the locks are those of the holders; a writer is
    alone, and a lock that nobody holds is free. *)

(** ** Locks and their holders *)

(** A lock that is held: its bucket, and whether for writing. *)
Abbreviation hold := (Z * bool)%type.

Definition cnt (x : hold) (xs : list hold) : Z := Z.of_nat (length (filter (eq x) xs)).

Lemma cnt_nonneg x xs : 0 <= cnt x xs.
Proof. unfold cnt. lia. Qed.

Lemma cnt_cons x y xs : cnt x (y :: xs) = (if decide (x = y) then 1 else 0) + cnt x xs.
Proof. unfold cnt. rewrite filter_cons. destruct (decide (x = y)); cbn [length]; lia. Qed.

#[export] Instance cnt_proper x : Proper ((≡ₚ) ==> eq) (cnt x).
Proof. intros xs ys Hp. unfold cnt. by rewrite Hp. Qed.

Lemma cnt_pos x xs : x ∈ xs -> 1 <= cnt x xs.
Proof. induction 1; rewrite cnt_cons; [rewrite decide_True by done|destruct (decide _)]; pose proof (cnt_nonneg x l); lia. Qed.

Lemma cnt_0 x xs : x ∉ xs -> cnt x xs = 0.
Proof. induction xs as [|y xs IH]; [done|]. rewrite not_elem_of_cons, cnt_cons. intros [? ?]. rewrite decide_False by done. by apply IH. Qed.

Record locks_ok (lk : gmap Z rwl) (hs : list (list hold)) : Prop := {
  lo_readers : forall a l, lk !! a = Some l -> cReaders l = total (cnt (a, false)) hs;
  lo_writer : forall a l, lk !! a = Some l -> Z.b2z (fWriter l) = total (cnt (a, true)) hs;
  lo_alone : forall a l, lk !! a = Some l -> fWriter l = true -> cReaders l = 0;
  lo_dom : forall xs a w, xs ∈ hs -> (a, w) ∈ xs -> is_Some (lk !! a) }.

Section Locks.
Context (lk : gmap Z rwl) (hs : list (list hold)) (H : locks_ok lk hs).

Lemma cnt_total_pos (t : nat) (xs : list hold) a w : hs !! t = Some xs -> (a, w) ∈ xs -> 1 <= total (cnt (a, w)) hs.
Proof.
  intros Ht Hin. pose proof (total_ge (cnt (a, w)) hs t xs (cnt_nonneg _) Ht). pose proof (cnt_pos _ _ Hin). lia.
Qed.

(** The lock that a client holds. *)
Lemma held_lock (t : nat) xs a (w : bool) : hs !! t = Some xs -> (a, w) ∈ xs ->
  exists l, lk !! a = Some l /\ (if w then fWriter l = true else 0 < cReaders l /\ fWriter l = false).
Proof.
  intros Ht Hin. destruct (lo_dom _ _ H xs a w (in_self _ _ _ Ht) Hin) as [l Hl]. exists l. split; [done|].
  pose proof (cnt_total_pos _ _ _ _ Ht Hin) as Hp. destruct w.
  - rewrite <- (lo_writer _ _ H a l Hl) in Hp. by destruct (fWriter l).
  - rewrite <- (lo_readers _ _ H a l Hl) in Hp. split; [lia|]. destruct (fWriter l) eqn:Hw; [|done].
    pose proof (lo_alone _ _ H a l Hl Hw). lia.
Qed.

(** A writer is alone. *)
Lemma writer_alone (t t' : nat) xs ys a w : t <> t' -> hs !! t = Some xs -> hs !! t' = Some ys -> (a, true) ∈ xs -> (a, w) ∈ ys -> False.
Proof.
  intros Hne Ht Ht' Hx Hy. destruct (held_lock t xs a true Ht Hx) as (l & Hl & Hw). destruct w.
  - pose proof (total_ge2 (cnt (a, true)) hs t t' xs ys (cnt_nonneg _) Ht Ht' Hne) as Hge.
    pose proof (cnt_pos _ _ Hx). pose proof (cnt_pos _ _ Hy). rewrite <- (lo_writer _ _ H a l Hl) in Hge. rewrite Hw in Hge. cbn in Hge. lia.
  - destruct (held_lock t' ys a false Ht' Hy) as (l' & Hl' & _ & Hw'). congruence.
Qed.

(** A lock that nobody holds is free. *)
Lemma free_lock a l : lk !! a = Some l -> (forall xs w, xs ∈ hs -> (a, w) ∉ xs) -> lock_free l = true.
Proof.
  intros Hl Hno. unfold lock_free. rewrite (lo_readers _ _ H a l Hl), (total_0 (cnt (a, false))) by (intros xs Hx; apply cnt_0; by apply Hno).
  pose proof (lo_writer _ _ H a l Hl) as Hw. rewrite (total_0 (cnt (a, true))) in Hw by (intros xs Hx; apply cnt_0; by apply Hno).
  by destruct (fWriter l).
Qed.

Lemma lock_free_true l : lock_free l = true -> l = Rwl 0 false.
Proof. destruct l as [r w]. unfold lock_free. cbn. rewrite andb_true_iff, negb_true_iff, Z.eqb_eq. by intros [-> ->]. Qed.

(** ** Acquiring and releasing *)

Lemma locks_acquire (t : nat) xs ys a (w : bool) l : hs !! t = Some xs -> lk !! a = Some l -> ys ≡ₚ (a, w) :: xs ->
  (if w then lock_free l = true else fWriter l = false) ->
  locks_ok (<[a := if w then Rwl 0 true else Rwl (cReaders l + 1) false]> lk) (<[t := ys]> hs).
Proof.
  intros Ht Hl Hy Hf.
  assert (Hr : forall b b', total (cnt (b, b')) (<[t := ys]> hs) = total (cnt (b, b')) hs + if decide ((b, b') = (a, w)) then 1 else 0).
  { intros b b'. rewrite (total_insert _ _ _ _ _ Ht), Hy, cnt_cons. lia. }
  split.
  - intros b l' Hb. rewrite Hr. destruct (decide (b = a)) as [->|Hne].
    + rewrite lookup_insert_eq in Hb. injection Hb as <-. pose proof (lo_readers _ _ H a l Hl) as Hc. destruct w; cbn [cReaders].
      * apply lock_free_true in Hf as ->. rewrite decide_False by done. cbn in Hc. lia.
      * rewrite decide_True by done. lia.
    + rewrite lookup_insert_ne in Hb by done. rewrite decide_False by congruence. rewrite (lo_readers _ _ H b l' Hb). lia.
  - intros b l' Hb. rewrite Hr. destruct (decide (b = a)) as [->|Hne].
    + rewrite lookup_insert_eq in Hb. injection Hb as <-. pose proof (lo_writer _ _ H a l Hl) as Hc. destruct w; cbn [fWriter].
      * apply lock_free_true in Hf as ->. rewrite decide_True by done. cbn in Hc |- *. lia.
      * rewrite decide_False by done. rewrite Hf in Hc. cbn in Hc |- *. lia.
    + rewrite lookup_insert_ne in Hb by done. rewrite decide_False by congruence. rewrite (lo_writer _ _ H b l' Hb). lia.
  - intros b l' Hb Hw. destruct (decide (b = a)) as [->|Hne].
    + rewrite lookup_insert_eq in Hb. injection Hb as <-. by destruct w.
    + rewrite lookup_insert_ne in Hb by done. by eapply H.
  - intros zs b b' [->|Hz]%(in_insert _ _ _ _ _ Ht) Hb.
    + rewrite Hy in Hb. apply elem_of_cons in Hb as [Hb|Hb]; [injection Hb as -> _; by rewrite lookup_insert_eq|].
      rewrite lookup_insert_is_Some'. right. eapply (lo_dom _ _ H); [by eapply in_self|done].
    + rewrite lookup_insert_is_Some'. right. by eapply H.
Qed.

Lemma locks_release (t : nat) xs ys a (w : bool) l : hs !! t = Some xs -> lk !! a = Some l -> xs ≡ₚ (a, w) :: ys ->
  locks_ok (<[a := if w then Rwl (cReaders l) false else Rwl (cReaders l - 1) (fWriter l)]> lk) (<[t := ys]> hs).
Proof.
  intros Ht Hl Hx. assert (Hin : (a, w) ∈ xs) by (rewrite Hx; left).
  destruct (held_lock t xs a w Ht Hin) as (l' & Hl' & Hw). rewrite Hl in Hl'. injection Hl' as <-.
  assert (Hr : forall b b', total (cnt (b, b')) (<[t := ys]> hs) = total (cnt (b, b')) hs - if decide ((b, b') = (a, w)) then 1 else 0).
  { intros b b'. rewrite (total_insert _ _ _ _ _ Ht), Hx, cnt_cons. lia. }
  split.
  - intros b l' Hb. rewrite Hr. destruct (decide (b = a)) as [->|Hne].
    + rewrite lookup_insert_eq in Hb. injection Hb as <-. pose proof (lo_readers _ _ H a l Hl) as Hc. destruct w; cbn [cReaders].
      * rewrite decide_False by done. lia.
      * rewrite decide_True by done. lia.
    + rewrite lookup_insert_ne in Hb by done. rewrite decide_False by congruence. rewrite (lo_readers _ _ H b l' Hb). lia.
  - intros b l' Hb. rewrite Hr. destruct (decide (b = a)) as [->|Hne].
    + rewrite lookup_insert_eq in Hb. injection Hb as <-. pose proof (lo_writer _ _ H a l Hl) as Hc. destruct w; cbn [fWriter].
      * rewrite decide_True by done. rewrite Hw in Hc. cbn in Hc |- *. lia.
      * rewrite decide_False by done. lia.
    + rewrite lookup_insert_ne in Hb by done. rewrite decide_False by congruence. rewrite (lo_writer _ _ H b l' Hb). lia.
  - intros b l' Hb Hw'. destruct (decide (b = a)) as [->|Hne].
    + rewrite lookup_insert_eq in Hb. injection Hb as <-. destruct w; [done|]. cbn in Hw'. destruct Hw. congruence.
    + rewrite lookup_insert_ne in Hb by done. by eapply H.
  - intros zs b b' [->|Hz]%(in_insert _ _ _ _ _ Ht) Hb; rewrite lookup_insert_is_Some'; right.
    + eapply (lo_dom _ _ H); [by eapply in_self|]. rewrite Hx. by right.
    + by eapply H.
Qed.

(** New locks, and locks that nobody holds any more. *)
Lemma locks_create lk' : lk ⊆ lk' -> (forall a l, lk' !! a = Some l -> lk !! a = None -> l = Rwl 0 false) -> locks_ok lk' hs.
Proof.
  intros Hsub Hnew.
  assert (Hno : forall a, lk !! a = None -> forall xs w, xs ∈ hs -> (a, w) ∉ xs).
  { intros a Ha xs w Hx Hin. destruct (lo_dom _ _ H xs a w Hx Hin) as [? ?]. congruence. }
  assert (Hz : forall a w, lk !! a = None -> total (cnt (a, w)) hs = 0).
  { intros a w Ha. apply total_0. intros xs Hx. apply cnt_0. by apply (Hno a Ha). }
  assert (Hold : forall a l, lk' !! a = Some l -> lk !! a = Some l \/ (lk !! a = None /\ l = Rwl 0 false)).
  { intros a l Hl. destruct (lk !! a) as [l0|] eqn:Hl0; [left|right; eauto]. apply (lookup_weaken _ lk') in Hl0; [congruence|done]. }
  split.
  - intros a l [Hl|[Hl ->]]%Hold; [by apply H|by rewrite Hz].
  - intros a l [Hl|[Hl ->]]%Hold; [by apply H|by rewrite Hz].
  - intros a l [Hl|[Hl ->]]%Hold; [by eapply H|done].
  - intros xs a w Hx Hin. destruct (lo_dom _ _ H _ _ _ Hx Hin) as [l1 Hl1]. exists l1. by eapply lookup_weaken.
Qed.

Lemma locks_destroy lk' : lk' ⊆ lk -> (forall xs a w, xs ∈ hs -> (a, w) ∈ xs -> is_Some (lk' !! a)) ->
  locks_ok lk' hs.
Proof.
  intros Hsub Hdom. assert (Hw : forall a l, lk' !! a = Some l -> lk !! a = Some l) by (intros a l Hl; by eapply lookup_weaken).
  split; [| | |done]; intros a l Hl%Hw; [by apply (lo_readers _ _ H)|by apply (lo_writer _ _ H)|by eapply (lo_alone _ _ H)].
Qed.

End Locks.

(** [m_dirptrs[ es >> 4 ]] *)
Definition dsel (d0 d1 : DIRPTRS) (es : ENUMSTATE) : DIRPTRS := if Z.shiftr (es_value es) 4 =? 0 then d0 else d1.

Lemma dsel_up d0 d1 es : up es = true -> dsel d0 d1 es = d0.
Proof. by destruct es. Qed.

Lemma dsel_down d0 d1 es : down es = true -> dsel d0 d1 es = d0.
Proof. by destruct es. Qed.

Lemma up_down es : up es = true -> down es = true -> False.
Proof. by destruct es. Qed.

Section Views.
Context {K E : Type} `{KE : CKeyEntry K E} `{L : BucketLayout}.

Abbreviation pc := (@pc K E).

(** ** Positions *)

Definition kont_owner (k : kont) : option (CLock * K) := match k with KHeld plock key => Some (plock, key) | _ => None end.

(** The client owns the bucket of its key. *)
Definition owner (p : pc) : option (CLock * K) :=
  match p with
  | LkSeek plock key _ _ _ | Held plock key _ => Some (plock, key)
  | Leave _ _ k | Trans _ _ k | Part _ _ k | Comp _ k | Finish _ k => kont_owner k
  | _ => None
  end.

Definition lhold (plock : CLock) : hold := (m_pBucketHead plock, negb (FBKTRead plock)).

Definition locks_of (p : pc) : list hold :=
  match p with
  | LkCheck plock _ _ _ _ _ _ _ | LkUndo plock _ _ _ _ => [lhold plock]
  | SmRecheck _ p | SpArray _ p | SmOther _ p | SmUndo _ p => [(p, true)]
  | SmDo _ p q | SmRelease1 _ p q => [(p, true); (q, true)]
  | SmRelease2 _ q => [(q, true)]
  | _ => match owner p with Some (plock, _) => [lhold plock] | None => [] end
  end.

Definition role_of (p : pc) : role :=
  match p with
  | Idle | Held _ _ _ | MtOp _ | MtTry _ | MtSize | PmEnter => ROut
  | MtSelect _ => RPolicy
  | LkState plock _ _ g => RIn (m_phs plock) g None
  | LkHash plock _ _ g es | LkLock plock _ _ g es _ _ _ | LkCheck plock _ _ g es _ _ _ | LkUndo plock _ _ g es
  | LkHash2 plock _ _ g es | LkLock2 plock _ _ g es | LkSeek plock _ _ g es => RIn (m_phs plock) g (Some es)
  | Leave ihs g _ | PmState ihs g => RIn ihs g None
  | Trans es st _ => RTrans es st
  | Part i st _ => RPart i st
  | Comp st _ => RComp st
  | Finish st _ => RFinish st
  | SmRead ihs g kd => RIn ihs g (Some (kind_state kd))
  | SmDec j | SmInc j | SmAlloc j | SmHash j | SmTry j _ | SmRecheck j _ | SpArray j _ | SmOther j _
  | SmDo j _ _ | SmRelease1 j _ _ | SmRelease2 j _ | SmUndo j _ | SmUnreserve j => RIn (j_ihs j) (j_group j) (Some (kind_state (j_kind j)))
  end.

(** ** What a client knows *)

Definition total_buckets (d : DIRPTRS) : Z := m_cBucketMax d + m_cBucket d.

(** The client hashed [h] to the bucket [iB] when [cB] buckets had been split. *)
Definition waits (d : DIRPTRS) (cap : Z) (es : ENUMSTATE) (h mB iB cB : Z) : Prop :=
  mB = m_cBucketMax d /\ 0 <= cB <= mB /\ mB + cB <= cap /\ iB = bidx mB cB h /\
  (up es = true -> cB <= m_cBucket d) /\ (down es = true -> m_cBucket d <= cB) /\
  (up es = false -> down es = false -> cB = m_cBucket d).

(** The bucket of [h] has been split or merged, and will not be again. *)
Definition passed (d : DIRPTRS) (es : ENUMSTATE) (h : Z) : Prop :=
  (up es = true /\ h mod m_cBucketMax d < m_cBucket d) \/ (down es = true /\ m_cBucket d <= h mod m_cBucketMax d).

(** The sizes that a split or merge has read, before and after it has checked them. *)
Definition job_ok (d : DIRPTRS) (j : job) : Prop :=
  j_max j = m_cBucketMax d /\ 0 <= j_c j < j_max j /\
  match j_kind j with KSplit => j_c j <= m_cBucket d | KMerge => m_cBucket d <= j_c j + 1 end.

Definition job_now (d : DIRPTRS) (j : job) : Prop :=
  j_max j = m_cBucketMax d /\ 0 <= j_c j < j_max j /\
  match j_kind j with KSplit => j_c j = m_cBucket d | KMerge => j_c j + 1 = m_cBucket d end.

(** A bucket whose lock a split or merge is about to release. *)
Definition done_with (d : DIRPTRS) (rg : list Z) (cap : Z) (j : job) (p : Z) : Prop :=
  exists b, 0 <= b < cap /\ p = baddr rg b /\ (j_kind j = KSplit -> b < total_buckets d).

Definition view_ok (d0 d1 : DIRPTRS) (rg : list Z) (cap : Z) (p : pc) : Prop :=
  match p with
  | LkState plock _ _ _ | LkHash plock _ _ _ _ => m_pBucketHead plock = 0
  | LkLock plock key _ _ es mB iB cB | LkCheck plock key _ _ es mB iB cB =>
      waits (dsel d0 d1 es) cap es (Hash_key key) mB iB cB /\ m_pBucketHead plock = baddr rg iB
  | LkUndo plock key _ _ es =>
      passed d0 es (Hash_key key) /\
      exists b, 0 <= b < cap /\ m_pBucketHead plock = baddr rg b /\ (up es = true -> b < total_buckets d0)
  | LkHash2 _ key _ _ es => passed d0 es (Hash_key key)
  | LkLock2 plock key _ _ es => passed d0 es (Hash_key key) /\ m_pBucketHead plock = baddr rg (bucket d0 (Hash_key key))
  | SmDec j | SmInc j | SmAlloc j | SmHash j => job_ok d0 j
  | SmTry j p | SmRecheck j p => job_ok d0 j /\ p = baddr rg (j_c j)
  | SpArray j p => job_now d0 j /\ p = baddr rg (j_c j) /\ j_kind j = KSplit
  | SmOther j p => job_now d0 j /\ p = baddr rg (j_c j) /\ j_max j + j_c j < cap
  | SmDo j p q => job_now d0 j /\ p = baddr rg (j_c j) /\ q = baddr rg (j_max j + j_c j) /\ j_max j + j_c j < cap
  | SmRelease1 j p q => done_with d0 rg cap j p /\ done_with d0 rg cap j q
  | SmRelease2 j q => done_with d0 rg cap j q
  | SmUndo j p => done_with d0 rg cap j p
  | _ => match owner p with Some (plock, key) => m_pBucketHead plock = baddr rg (bucket d0 (Hash_key key)) | None => True end
  end.

(** ** The bucket changes only when it is split or merged *)

Lemma bucket_grow M c h : 0 < M -> 0 <= c < M -> bucket (Dirptrs M c) h <> c -> bucket (Dirptrs M (c + 1)) h = bucket (Dirptrs M c) h.
Proof. intros HM Hc Hne. unfold bucket in *. cbn in *. rewrite bidx_grow by done. by rewrite (proj2 (Z.eqb_neq _ _) Hne). Qed.

Lemma bucket_shrink M c h : 0 < M -> 0 <= c < M -> bucket (Dirptrs M (c + 1)) h <> M + c ->
  bucket (Dirptrs M c) h = bucket (Dirptrs M (c + 1)) h.
Proof.
  intros HM Hc. unfold bucket. cbn. rewrite bidx_grow by done. destruct (Z.eqb_spec (bidx M c h) c) as [E1|E1]; [|done].
  destruct (h mod (2 * M) =? c); [done|]. intros Hne. by destruct Hne.
Qed.

Lemma passed_grow M c h es : 0 < M -> 0 <= c < M -> passed (Dirptrs M c) es h -> up es = true ->
  passed (Dirptrs M (c + 1)) es h /\ bucket (Dirptrs M (c + 1)) h = bucket (Dirptrs M c) h.
Proof.
  intros HM Hc [[_ Hp]|[Hd _]] Hup; [|by destruct (up_down es)]. cbn in Hp. split; [left; cbn; split; [done|lia]|].
  unfold bucket. cbn. destruct (bidx_cases M c h HM ltac:(lia)) as [[_ ->]|]; [|lia].
  destruct (bidx_cases M (c + 1) h HM ltac:(lia)) as [[_ ->]|]; [done|lia].
Qed.

Lemma passed_shrink M c h es : 0 < M -> 0 <= c < M -> passed (Dirptrs M (c + 1)) es h -> down es = true ->
  passed (Dirptrs M c) es h /\ bucket (Dirptrs M c) h = bucket (Dirptrs M (c + 1)) h.
Proof.
  intros HM Hc [[Hu _]|[_ Hp]] Hdn; [by destruct (up_down es)|]. cbn in Hp. split; [right; cbn; split; [done|lia]|].
  unfold bucket. cbn. destruct (bidx_cases M c h HM ltac:(lia)) as [|[_ ->]]; [lia|].
  destruct (bidx_cases M (c + 1) h HM ltac:(lia)) as [|[_ ->]]; [lia|done].
Qed.

Lemma waits_grow M c cap es h mB iB cB : up es = true -> waits (Dirptrs M c) cap es h mB iB cB -> waits (Dirptrs M (c + 1)) cap es h mB iB cB.
Proof.
  intros Hup (H1 & H2 & H3 & H4 & H5 & _). specialize (H5 Hup). unfold waits. cbn in *. split_and!; try lia; try done; intros Hdn.
  - by destruct (up_down es).
  - congruence.
Qed.

Lemma waits_shrink M c cap es h mB iB cB : down es = true -> waits (Dirptrs M (c + 1)) cap es h mB iB cB -> waits (Dirptrs M c) cap es h mB iB cB.
Proof.
  intros Hdn (H1 & H2 & H3 & H4 & _ & H5 & _). specialize (H5 Hdn). unfold waits. cbn in *. split_and!; try lia; try done; intros Hup.
  - by destruct (up_down es).
  - congruence.
Qed.

(** ** The changes of the directory *)

Section Stable.
Context (d1 : DIRPTRS) (rg : list Z) (cap : Z).
Context (Hinj : forall b b', 0 <= b < cap -> 0 <= b' < cap -> baddr rg b = baddr rg b' -> b = b').

Lemma done_with_grow M c j p : done_with (Dirptrs M c) rg cap j p -> done_with (Dirptrs M (c + 1)) rg cap j p.
Proof. intros (b & Hb & -> & Ht). exists b. split; [done|]. split; [done|]. intros Hk. specialize (Ht Hk). unfold total_buckets in *. cbn in *. lia. Qed.

(** Another client splits the bucket [c], whose lock it holds. *)
Lemma view_grow M c (p : pc) : 0 < M -> 0 <= c < M -> M + c < cap ->
  (forall i g es, role_of p = RIn i g (Some es) -> up es = true) -> (forall w, (baddr rg c, w) ∉ locks_of p) ->
  view_ok (Dirptrs M c) d1 rg cap p -> view_ok (Dirptrs M (c + 1)) d1 rg cap p.
Proof.
  intros HM Hc Hcap Hup Hlk.
  assert (Hown : forall plock key, m_pBucketHead plock = baddr rg (bucket (Dirptrs M c) (Hash_key key)) ->
    (forall w, (baddr rg c, w) ∉ [lhold plock]) -> m_pBucketHead plock = baddr rg (bucket (Dirptrs M (c + 1)) (Hash_key key))).
  { intros plock key Hh Hno. rewrite bucket_grow; [done..|]. intros Hb. apply (Hno (negb (FBKTRead plock))). unfold lhold. rewrite Hh, Hb. left. }
  assert (Hjob : forall j, role_of p = RIn (j_ihs j) (j_group j) (Some (kind_state (j_kind j))) -> j_kind j = KSplit).
  { intros j Hr. specialize (Hup _ _ _ Hr). by destruct (j_kind j). }
  assert (Hnow : forall j, role_of p = RIn (j_ihs j) (j_group j) (Some (kind_state (j_kind j))) -> job_now (Dirptrs M c) j ->
    (baddr rg (j_c j), true) ∉ locks_of p).
  { intros j Hr (_ & _ & Hj). rewrite (Hjob j Hr) in Hj. cbn in Hj. rewrite Hj. apply Hlk. }
  destruct p; cbn [view_ok owner kont_owner] in *; try done; try (destruct k; cbn [kont_owner]; [intros ?; by apply Hown|done..]); try (intros ?; by apply Hown).
  - specialize (Hup _ _ _ eq_refl). rewrite !(dsel_up _ _ _ Hup). intros [Hw ?]. split; [by apply waits_grow|done].
  - specialize (Hup _ _ _ eq_refl). rewrite !(dsel_up _ _ _ Hup). intros [Hw ?]. split; [by apply waits_grow|done].
  - specialize (Hup _ _ _ eq_refl). intros [Hp (b & Hb & Hh & Ht)]. split; [by apply passed_grow|]. exists b.
    split; [done|]. split; [done|]. intros Hu. specialize (Ht Hu). unfold total_buckets in *. cbn in *. lia.
  - specialize (Hup _ _ _ eq_refl). intros Hp. by apply passed_grow.
  - specialize (Hup _ _ _ eq_refl). intros [Hp Hh]. destruct (passed_grow M c _ _ HM Hc Hp Hup) as [? ->]. done.
  - specialize (Hjob j eq_refl). unfold job_ok. rewrite Hjob. cbn. intuition lia.
  - specialize (Hjob j eq_refl). unfold job_ok. rewrite Hjob. cbn. intuition lia.
  - specialize (Hjob j eq_refl). unfold job_ok. rewrite Hjob. cbn. intuition lia.
  - specialize (Hjob j eq_refl). unfold job_ok. rewrite Hjob. cbn. intuition lia.
  - specialize (Hjob j eq_refl). unfold job_ok. rewrite Hjob. cbn. intuition lia.
  - specialize (Hjob j eq_refl). unfold job_ok. rewrite Hjob. cbn. intuition lia.
  - intros [Hn [-> _]]. destruct (Hnow j eq_refl Hn). left.
  - intros [Hn [-> _]]. destruct (Hnow j eq_refl Hn). left.
  - intros [Hn [-> _]]. destruct (Hnow j eq_refl Hn). left.
  - intros [? ?]. split; by apply done_with_grow.
  - by apply done_with_grow.
  - by apply done_with_grow.
Qed.

(** Another client merges the bucket [M + c] into the bucket [c]. *)
Lemma view_shrink M c (p : pc) : 0 < M -> 0 <= c < M -> M + c < cap ->
  (forall i g es, role_of p = RIn i g (Some es) -> down es = true) ->
  (forall w, (baddr rg c, w) ∉ locks_of p) -> (forall w, (baddr rg (M + c), w) ∉ locks_of p) ->
  view_ok (Dirptrs M (c + 1)) d1 rg cap p -> view_ok (Dirptrs M c) d1 rg cap p.
Proof.
  intros HM Hc Hcap Hdn Hlk Hlk'.
  assert (Hown : forall plock key, m_pBucketHead plock = baddr rg (bucket (Dirptrs M (c + 1)) (Hash_key key)) ->
    (forall w, (baddr rg (M + c), w) ∉ [lhold plock]) -> m_pBucketHead plock = baddr rg (bucket (Dirptrs M c) (Hash_key key))).
  { intros plock key Hh Hno. rewrite bucket_shrink; [done..|]. intros Hb. apply (Hno (negb (FBKTRead plock))). unfold lhold. rewrite Hh, Hb. left. }
  assert (Hjob : forall j, role_of p = RIn (j_ihs j) (j_group j) (Some (kind_state (j_kind j))) -> j_kind j = KMerge).
  { intros j Hr. specialize (Hdn _ _ _ Hr). by destruct (j_kind j). }
  assert (Hnow : forall j, role_of p = RIn (j_ihs j) (j_group j) (Some (kind_state (j_kind j))) -> job_now (Dirptrs M (c + 1)) j ->
    (baddr rg (j_c j), true) ∉ locks_of p).
  { intros j Hr (_ & _ & Hj). rewrite (Hjob j Hr) in Hj. cbn in Hj. replace (j_c j) with c by lia. apply Hlk. }
  assert (Hdone : forall j q, role_of p = RIn (j_ihs j) (j_group j) (Some (kind_state (j_kind j))) -> done_with (Dirptrs M (c + 1)) rg cap j q ->
    done_with (Dirptrs M c) rg cap j q).
  { intros j q Hr (b & Hb & -> & _). exists b. split; [done|]. split; [done|]. by rewrite (Hjob j Hr). }
  destruct p; cbn [view_ok owner kont_owner] in *; try done; try (destruct k; cbn [kont_owner]; [intros ?; by apply Hown|done..]);
    try (intros ?; by apply Hown).
  - specialize (Hdn _ _ _ eq_refl). rewrite !(dsel_down _ _ _ Hdn). intros [Hw ?]. split; [by apply waits_shrink|done].
  - specialize (Hdn _ _ _ eq_refl). rewrite !(dsel_down _ _ _ Hdn). intros [Hw ?]. split; [by apply waits_shrink|done].
  - specialize (Hdn _ _ _ eq_refl). intros [Hp (b & Hb & Hh & Ht)]. split; [by apply passed_shrink|]. exists b.
    split; [done|]. split; [done|]. intros Hu. by destruct (up_down es).
  - specialize (Hdn _ _ _ eq_refl). intros Hp. by apply passed_shrink.
  - specialize (Hdn _ _ _ eq_refl). intros [Hp Hh]. destruct (passed_shrink M c _ _ HM Hc Hp Hdn) as [? ->]. done.
  - specialize (Hjob j eq_refl). unfold job_ok. rewrite Hjob. cbn. intuition lia.
  - specialize (Hjob j eq_refl). unfold job_ok. rewrite Hjob. cbn. intuition lia.
  - specialize (Hjob j eq_refl). unfold job_ok. rewrite Hjob. cbn. intuition lia.
  - specialize (Hjob j eq_refl). unfold job_ok. rewrite Hjob. cbn. intuition lia.
  - specialize (Hjob j eq_refl). unfold job_ok. rewrite Hjob. cbn. intuition lia.
  - specialize (Hjob j eq_refl). unfold job_ok. rewrite Hjob. cbn. intuition lia.
  - intros [Hn [-> _]]. destruct (Hnow j eq_refl Hn). left.
  - intros [Hn [-> _]]. destruct (Hnow j eq_refl Hn). left.
  - intros [Hn [-> _]]. destruct (Hnow j eq_refl Hn). left.
  - intros [? ?]. split; by apply Hdone.
  - by apply Hdone.
  - by apply Hdone.
Qed.

End Stable.
(** The second directory changes while nobody inside uses it. *)
Lemma view_copy d0 d1 d1' rg cap (p : pc) : (forall i g es, role_of p = RIn i g (Some es) -> Z.shiftr (es_value es) 4 = 0) ->
  view_ok d0 d1 rg cap p -> view_ok d0 d1' rg cap p.
Proof.
  intros Hes. destruct p; cbn [view_ok]; try done; specialize (Hes _ _ _ eq_refl); unfold dsel; by rewrite Hes.
Qed.

(** The first one changes, and with it possibly the arrays, in a way that gives every hash
    value the bucket it had, while the clients inside use only the second one. *)
Lemma view_dir d0 d0' d1 rg rg' cap cap' (p : pc) : (forall h, bucket d0' h = bucket d0 h) -> (forall h, 0 <= bucket d0 h < cap') ->
  (forall b, 0 <= b < cap' -> baddr rg' b = baddr rg b) ->
  (forall i g es, role_of p = RIn i g (Some es) -> es = stateSplit \/ es = stateMerge) -> 0 < m_cBucketMax d1 -> total_buckets d1 <= cap' ->
  view_ok d0 d1 rg cap p -> view_ok d0' d1 rg' cap' p.
Proof.
  intros Hb Hr Hrg Hes Hpos Hcap'.
  assert (Hown : forall (plock : CLock) (key : K), m_pBucketHead plock = baddr rg (bucket d0 (Hash_key key)) ->
    m_pBucketHead plock = baddr rg' (bucket d0' (Hash_key key))).
  { intros plock key ->. rewrite Hb, Hrg; done. }
  assert (Hw : forall es h mB iB cB, es = stateSplit \/ es = stateMerge -> waits (dsel d0 d1 es) cap es h mB iB cB ->
    waits (dsel d0' d1 es) cap' es h mB iB cB /\ 0 <= iB < cap').
  { intros es h mB iB cB He (H1 & H2 & H3 & H4 & H5 & H6 & H7).
    assert (Ed : dsel d0' d1 es = d1 /\ dsel d0 d1 es = d1 /\ up es = false /\ down es = false) by (by destruct He as [-> | ->]).
    destruct Ed as (E1 & E2 & E3 & E4). rewrite E2 in *. specialize (H7 E3 E4). unfold waits, total_buckets in *. rewrite E1.
    pose proof (bidx_range mB cB h ltac:(lia) H2). split; [|lia]. split_and!; try done; lia. }
  assert (Hpass : forall es h, es = stateSplit \/ es = stateMerge -> passed d0 es h -> False).
  { intros es h He [[Hu _]|[Hd _]]; by destruct He as [-> | ->]. }
  assert (Hkind : forall j : job, kind_state (j_kind j) = stateSplit \/ kind_state (j_kind j) = stateMerge -> False).
  { intros j He. by destruct (j_kind j), He. }
  destruct p; cbn [view_ok owner kont_owner]; try done; try (destruct k; cbn [kont_owner]; [apply Hown|done..]); try (apply Hown);
    try (destruct (Hkind j (Hes _ _ _ eq_refl)));
    try (intros [Hx Hh]; destruct (Hw _ _ _ _ _ (Hes _ _ _ eq_refl) Hx) as [? ?]; split; [done|]; rewrite Hh; by rewrite Hrg).
  - intros [Hp _]. by destruct (Hpass _ _ (Hes _ _ _ eq_refl) Hp).
  - intros Hp. by destruct (Hpass _ _ (Hes _ _ _ eq_refl) Hp).
  - intros [Hp _]. by destruct (Hpass _ _ (Hes _ _ _ eq_refl) Hp).
Qed.

(** A new array. *)
Lemma view_alloc d0 d1 rg rg' cap cap' (p : pc) : dir_ok cap d0 -> cap <= cap' -> (forall b, 0 <= b < cap -> baddr rg' b = baddr rg b) ->
  (forall i g es, role_of p = RIn i g (Some es) -> 0 < m_cBucketMax (dsel d0 d1 es)) ->
  view_ok d0 d1 rg cap p -> view_ok d0 d1 rg' cap' p.
Proof.
  intros Hd Hle Hrg Hes. pose proof (dir_max_pos _ _ Hd) as Hpos.
  assert (Hb : forall h, baddr rg' (bucket d0 h) = baddr rg (bucket d0 h)).
  { intros h. apply Hrg. pose proof (bucket_range _ _ h Hd). destruct Hd as (_ & _ & ?). lia. }
  assert (Hown : forall (plock : CLock) (key : K), m_pBucketHead plock = baddr rg (bucket d0 (Hash_key key)) ->
    m_pBucketHead plock = baddr rg' (bucket d0 (Hash_key key))) by (intros; by rewrite Hb).
  assert (Hw : forall es h mB iB cB q, 0 < m_cBucketMax (dsel d0 d1 es) -> waits (dsel d0 d1 es) cap es h mB iB cB /\ q = baddr rg iB ->
    waits (dsel d0 d1 es) cap' es h mB iB cB /\ q = baddr rg' iB).
  { intros es h mB iB cB q Hm [(H1 & H2 & H3 & H4 & H5) ->]. pose proof (bidx_range mB cB h ltac:(lia) H2). unfold waits.
    split; [split_and!; try done; try lia; tauto|]. rewrite Hrg; [done|lia]. }
  assert (Hj : forall b, 0 <= b < m_cBucketMax d0 -> baddr rg' b = baddr rg b).
  { intros b Hx. apply Hrg. destruct Hd as (_ & ? & ?). lia. }
  assert (Hdone : forall j q, done_with d0 rg cap j q -> done_with d0 rg' cap' j q).
  { intros j q (b & Hx & -> & Ht). exists b. split; [lia|]. rewrite Hrg by done. done. }
  destruct p; cbn [view_ok owner kont_owner]; try done; try (destruct k; cbn [kont_owner]; [apply Hown|done..]); try (apply Hown);
    try (apply Hw; by eapply Hes); try (by apply Hdone).
  - intros [Hp (b & Hx & -> & Ht)]. split; [done|]. exists b. split; [lia|]. rewrite Hrg by done. done.
  - intros [Hp ->]. by rewrite Hb.
  - intros [Hx ->]. rewrite Hj; [done|]. unfold job_ok in Hx. lia.
  - intros [Hx ->]. rewrite Hj; [done|]. unfold job_ok in Hx. lia.
  - intros [Hx [-> ?]]. rewrite Hj; [done|]. unfold job_now in Hx. lia.
  - intros [Hx [-> ?]]. rewrite Hj; [split_and!; [done..|lia]|]. unfold job_now in Hx. lia.
  - intros [Hx [-> [-> ?]]]. rewrite Hj, Hrg; [split_and!; [done..|lia]| |]; unfold job_now in Hx; lia.
  - intros [? ?]. split; by apply Hdone.
Qed.

End Views.
