(* ===== verification/HashMemory.v ===== *)
(** * HashMemory: the memory of the hash table

    All buckets in memory: the chains of the directory, one for each bucket number,
    and the buckets reserved in the pools.  The invariant [memory_ok] says that they do
    not overlap, and that nothing else is allocated.  The lemmas of this file carry the
    results on single chains ([HashBucketTop]) over to the whole memory. *)

From stdpp Require Import gmap.
From S2P Require Import Prelude HashBucket HashBucketProofs HashBucketOps HashSplit HashMerge Threads HashTable HashDir.

(** ** Lists of regions *)

Lemma concat_update {X} (ls : list (list X)) (i : nat) x y : ls !! i = Some x ->
  concat ls ≡ₚ x ++ concat (delete i ls) /\ concat (<[i := y]> ls) ≡ₚ y ++ concat (delete i ls).
Proof.
  revert i. induction ls as [|l ls IH]; intros [|i] Hi; simplify_eq/=; [done|]. destruct (IH i Hi) as [E1 E2].
  rewrite E1, E2. split; by rewrite Permutation_app_swap_app.
Qed.

Lemma concat_take {X} (ls : list (list X)) (i : nat) x y : ls !! i = Some x -> concat (<[i := y]> ls) ≡ₚ y ++ concat (<[i := []]> ls).
Proof. intros Hi. destruct (concat_update ls i x y Hi) as [_ ->]. by destruct (concat_update ls i x [] Hi) as [_ ->]. Qed.

(** Three regions change. *)
Lemma concat_update3 {X} (ls : list (list X)) (i j k : nat) x1 x2 x3 y1 y2 y3 : ls !! i = Some x1 -> ls !! j = Some x2 -> ls !! k = Some x3 ->
  i <> j -> i <> k -> j <> k ->
  concat (<[i := y1]> (<[j := y2]> (<[k := y3]> ls))) ≡ₚ y1 ++ y2 ++ y3 ++ concat (<[i := []]> (<[j := []]> (<[k := []]> ls))).
Proof.
  intros Hi Hj Hk Hij Hik Hjk. rewrite (concat_take _ i x1) by (by rewrite !list_lookup_insert_ne by done). apply Permutation_app_head.
  rewrite (list_insert_insert_ne _ i j) by done. rewrite (concat_take _ j x2) by (by rewrite !list_lookup_insert_ne by done). apply Permutation_app_head.
  rewrite (list_insert_insert_ne _ i k), (list_insert_insert_ne _ j k) by done.
  rewrite (concat_take _ k x3) by (by rewrite !list_lookup_insert_ne by done). apply Permutation_app_head.
  rewrite (list_insert_insert_ne _ k j), (list_insert_insert_ne _ k i), (list_insert_insert_ne _ j i) by done. done.
Qed.

Lemma NoDup_replace {X} (x y rest : list X) : NoDup (x ++ rest) -> NoDup y -> (forall z, z ∈ y -> z ∈ x \/ z ∉ rest) -> NoDup (y ++ rest).
Proof.
  intros (_ & Hx & Hr)%list.NoDup_app Hy Hs. apply list.NoDup_app. split_and!; [done| |done]. intros z Hz. destruct (Hs z Hz); [by apply Hx|done].
Qed.

Lemma in_concat {X} (ls : list (list X)) (i : nat) x z : ls !! i = Some x -> z ∈ x -> z ∈ concat ls.
Proof. intros Hi Hz. destruct (concat_update ls i x x Hi) as [-> _]. apply elem_of_app. by left. Qed.

Lemma in_concat_inv {X} (ls : list (list X)) z : z ∈ concat ls -> exists i x, ls !! i = Some x /\ z ∈ x.
Proof.
  induction ls as [|l ls IH]; cbn; [set_solver|]. intros [Hz|Hz]%elem_of_app; [by exists 0%nat, l|].
  destruct (IH Hz) as (i & x & Hi & Hx). by exists (S i), x.
Qed.

(** Two regions are disjoint. *)
Lemma regions_disjoint {X} (ls : list (list X)) (i j : nat) x y z : NoDup (concat ls) -> ls !! i = Some x -> ls !! j = Some y -> i <> j ->
  z ∈ x -> z ∉ y.
Proof.
  intros Hn Hi Hj Hij Hx Hy. destruct (concat_update ls i x x Hi) as [E1 _]. rewrite E1 in Hn. apply list.NoDup_app in Hn as (_ & Hn & _).
  apply (Hn z Hx). destruct (Nat.lt_ge_cases i j) as [Hlt|Hge].
  - eapply (in_concat _ (j - 1)); [|done]. rewrite list_lookup_delete_ge by lia. by replace (S (j - 1)) with j by lia.
  - eapply (in_concat _ j); [|done]. by rewrite list_lookup_delete_lt by lia.
Qed.

Lemma region_nodup {X} (ls : list (list X)) (i : nat) x : NoDup (concat ls) -> ls !! i = Some x -> NoDup x.
Proof. intros Hn Hi. destruct (concat_update ls i x x Hi) as [E1 _]. rewrite E1 in Hn. by apply list.NoDup_app in Hn as (? & _). Qed.

(** An array starts with one of the buckets. *)
Lemma array_base `{BucketLayout} (rg : list Z) e (n : nat) : 0 <= e -> e = 0 \/ 2 ^ e < Z.of_nat n -> (0 < n)%nat ->
  exists b : nat, (b < n)%nat /\ rg !!! Z.to_nat e = baddr rg (Z.of_nat b).
Proof.
  intros He Hn Hpos. destruct (Z.eq_dec e 0) as [->|Hne].
  - exists 0%nat. split; [done|]. unfold baddr, offset. cbn. by rewrite Z.add_0_r.
  - assert (H2 : 2 ^ 1 <= 2 ^ e) by (apply Z.pow_le_mono_r; lia). exists (Z.to_nat (2 ^ e)). split; [lia|]. rewrite Z2Nat.id by lia.
    unfold baddr, offset. rewrite Z.log2_pow2, (proj2 (Z.ltb_ge _ _)), Z.sub_diag by lia. lia.
Qed.

Lemma log2_high e i : 0 <= e -> 0 <= i < 2 ^ e -> Z.log2 (2 ^ e + i) = e.
Proof. intros He Hi. apply Z.log2_unique; [done|]. rewrite <- Z.add_1_r, Z.pow_add_r by lia. lia. Qed.

(** The addresses in the array of the exponent [e], and below it. *)
Lemma baddr_high `{BucketLayout} (rg : list Z) e i x : 1 <= e -> rg !! Z.to_nat e = Some x -> 0 <= i < 2 ^ e -> baddr rg (2 ^ e + i) = x + i * m_cbBucket.
Proof.
  intros He Hx Hi. assert (2 ^ 1 <= 2 ^ e) by (apply Z.pow_le_mono_r; lia). unfold baddr, offset. rewrite log2_high by lia.
  rewrite (list_lookup_total_correct _ _ _ Hx), (proj2 (Z.ltb_ge _ _)) by lia. f_equal. f_equal. lia.
Qed.

Lemma baddr_low `{BucketLayout} (rg : list Z) e b x : 1 <= e -> 0 <= b < 2 ^ e -> baddr (<[Z.to_nat e := x]> rg) b = baddr rg b.
Proof.
  intros He Hb. unfold baddr. rewrite list_lookup_total_insert_ne; [done|]. pose proof (Z.log2_nonneg b).
  assert (Z.log2 b < e); [|lia]. destruct (Z.eq_dec b 0) as [->|]; [cbn; lia|]. apply Z.log2_lt_pow2; lia.
Qed.

(** A bucket is written at each of the addresses. *)
Lemma foldr_insert_lookup {E} (m : gmap Z (BUCKET E)) (f : Z -> BUCKET E) ps z :
  foldr (fun q m => <[q := f q]> m) m ps !! z = if decide (z ∈ ps) then Some (f z) else m !! z.
Proof.
  induction ps as [|q ps IH]; cbn [foldr]; [done|]. destruct (decide (z = q)) as [->|Hne].
  - rewrite lookup_insert_eq, decide_True by (by left). done.
  - rewrite lookup_insert_ne, IH by done. destruct (decide (z ∈ ps)) as [Hz|Hz], (decide (z ∈ q :: ps)) as [Hz'|Hz']; try done; set_solver.
Qed.

Section Memory.
Context {K E : Type} `{KE : CKeyEntry K E} `{L : BucketLayout} `{LO : !LayoutOk} (junk : Z -> BUCKET E) (Hjunk : junk_ok junk).

Lemma free_list_live (h : heap E) q rs z : free_list h q rs -> z ∈ rs -> is_Some (buckets h !! z).
Proof.
  revert q. induction rs as [|x rs IH]; intros q Hf Hz; [set_solver|]. destruct Hf as (-> & prev & pb & [rest Hb] & _ & Hf).
  apply elem_of_cons in Hz as [->|Hz]; [by eexists|by eapply IH].
Qed.

(** ** The invariant *)

(** The chains by bucket number, and the reserved buckets by pool. *)
Definition regions (own : list (segments E)) (rss : list (list Z)) : list (list Z) := ((fun ss => ss.*1) <$> own) ++ rss.

Record memory_ok (h : heap E) (rg : list Z) (own : list (segments E)) (pools : list Z) (rss : list (list Z)) : Prop := {
  mo_heap : heap_ok h;
  mo_pos : (0 < length own)%nat;
  mo_chain : forall (b : nat) ss, own !! b = Some ss -> exists es ss', ss = (baddr rg (Z.of_nat b), es) :: ss' /\ chain h None ss;
  mo_pools : Forall2 (free_list h) pools rss;
  mo_nodup : NoDup (concat (regions own rss));
  mo_live : forall p, is_Some (buckets h !! p) <-> p ∈ concat (regions own rss);
  mo_arrays : forall e, 0 <= e < 64 -> e = 0 \/ 2 ^ e < Z.of_nat (length own) -> blocks h !! (rg !!! Z.to_nat e) = Some (Z.to_nat (array_size e)) }.

Section Inv.
Context (h : heap E) (rg : list Z) (own : list (segments E)) (pools : list Z) (rss : list (list Z)) (H : memory_ok h rg own pools rss).

Lemma region_chain (b : nat) ss : own !! b = Some ss -> regions own rss !! b = Some ss.*1.
Proof. intros Hb. unfold regions. rewrite lookup_app_l by (rewrite length_fmap; by eapply lookup_lt_Some). by rewrite list_lookup_fmap, Hb. Qed.

Lemma region_pool (k : nat) rs : rss !! k = Some rs -> regions own rss !! (length own + k)%nat = Some rs.
Proof. intros Hk. unfold regions. rewrite lookup_app_r by (rewrite length_fmap; lia). rewrite length_fmap. by replace (length own + k - length own)%nat with k by lia. Qed.

Lemma chain_nodup (b : nat) ss : own !! b = Some ss -> NoDup ss.*1.
Proof. intros Hb. eapply region_nodup; [apply (mo_nodup _ _ _ _ _ H)|by apply region_chain]. Qed.

Lemma head_of (b : nat) : (b < length own)%nat -> exists es ss', own !! b = Some ((baddr rg (Z.of_nat b), es) :: ss').
Proof.
  intros Hb. destruct (lookup_lt_is_Some_2 own b Hb) as [ss Hss]. destruct (mo_chain _ _ _ _ _ H b ss Hss) as (es & ss' & -> & _). by exists es, ss'.
Qed.

(** The buckets of the directory have different addresses. *)
Lemma baddr_inj (b b' : nat) : (b < length own)%nat -> (b' < length own)%nat -> baddr rg (Z.of_nat b) = baddr rg (Z.of_nat b') -> b = b'.
Proof.
  intros Hb Hb' He. destruct (head_of b Hb) as (es & ss & Hx), (head_of b' Hb') as (es' & ss' & Hx').
  destruct (Nat.eq_dec b b') as [|Hne]; [done|].
  destruct (regions_disjoint _ b b' _ _ (baddr rg (Z.of_nat b)) (mo_nodup _ _ _ _ _ H) (region_chain _ _ Hx) (region_chain _ _ Hx') Hne); cbn; [left|rewrite He; left].
Qed.

Lemma not_live p : buckets h !! p = None -> p ∉ concat (regions own rss).
Proof. intros Hp Hin. apply (mo_live _ _ _ _ _ H) in Hin as [? ?]. congruence. Qed.

(** ** Some regions change *)

(** The operation changes the regions of [heads ++ old] to regions of [heads ++ new] and
    leaves the others, [rest], alone. *)
Lemma update_memory h' own' pools' rss' heads old new rest :
  concat (regions own rss) ≡ₚ (heads ++ old) ++ rest -> concat (regions own' rss') ≡ₚ (heads ++ new) ++ rest ->
  heap_ok h' -> touched h h' heads old new -> NoDup (heads ++ new) -> (forall q, q ∈ new -> q ∈ old \/ buckets h !! q = None) ->
  (forall q, q ∈ heads ++ new -> is_Some (buckets h' !! q)) ->
  length own' = length own -> (forall b : nat, (b < length own)%nat -> baddr rg (Z.of_nat b) ∈ heads ++ rest) ->
  (forall (b : nat) ss, own' !! b = Some ss -> (own !! b = Some ss /\ forall q, q ∈ ss.*1 -> q ∈ rest) \/
     (exists es ss', ss = (baddr rg (Z.of_nat b), es) :: ss' /\ chain h' None ss)) ->
  length pools' = length rss' -> (forall (k : nat) q rs, pools' !! k = Some q -> rss' !! k = Some rs ->
     (pools !! k = Some q /\ rss !! k = Some rs /\ forall z, z ∈ rs -> z ∈ rest) \/ free_list h' q rs) ->
  memory_ok h' rg own' pools' rss'.
Proof.
  intros P1 P2 Hok Ht Hnd Hnew Hlive Hlen Hheads Hch Hlp Hpl. pose proof (mo_nodup _ _ _ _ _ H) as Hn. rewrite P1 in Hn.
  apply list.NoDup_app in Hn as (Hn1 & Hn2 & Hn3).
  assert (Hdead : forall q, buckets h !! q = None -> q ∉ rest) by (intros q Hq%not_live Hr; apply Hq; rewrite P1, elem_of_app; by right).
  assert (Hrest : forall q, q ∈ rest -> q ∉ heads ++ old /\ q ∉ new).
  { intros q Hq. split; [intros Hx; by apply (Hn2 q Hx)|]. intros Hx. destruct (Hnew q Hx) as [Hy|Hy]; [|by apply (Hdead q)].
    apply (Hn2 q); [by apply elem_of_app; right|done]. }
  assert (Hsame : forall q, q ∈ rest -> buckets h' !! q = buckets h !! q /\ blocks h' !! q = blocks h !! q).
  { intros q [H1 H2]%Hrest. rewrite elem_of_app in H1.
    split; [apply (touched_buckets _ _ _ _ _ Ht)|apply (touched_blocks _ _ _ _ _ Ht)]; rewrite ?elem_of_app; tauto. }
  split.
  - done.
  - rewrite Hlen. apply (mo_pos _ _ _ _ _ H).
  - intros b ss Hb. destruct (Hch b ss Hb) as [[Hb' Hr]|?]; [|done]. destruct (mo_chain _ _ _ _ _ H b ss Hb') as (es & ss' & -> & Hc).
    exists es, ss'. split; [done|]. eapply chain_frame; [| |exact Hc]; intros q Hq.
    + by apply Hsame, Hr.
    + intros Hk. destruct (Hsame q (Hr q Hq)) as [_ ->]. done.
  - apply Forall2_same_length_lookup_2; [done|]. intros k q rs Hq Hrs. destruct (Hpl k q rs Hq Hrs) as [(Hq' & Hrs' & Hr)|?]; [|done].
    pose proof (Forall2_lookup_lr _ _ _ _ _ _ (mo_pools _ _ _ _ _ H) Hq' Hrs') as Hf. eapply free_list_frame; [| |exact Hf]; intros z Hz.
    + by apply Hsame, Hr.
    + by apply Hsame, Hr.
  - rewrite P2. apply list.NoDup_app. split_and!; [done| |done]. intros z Hz Hr. destruct (Hrest z Hr) as [H1 H2].
    rewrite elem_of_app in H1, Hz. tauto.
  - intros z. rewrite P2, elem_of_app. destruct (decide (z ∈ heads ++ new)) as [Hz|Hz]; [by naive_solver|]. rewrite elem_of_app in Hz.
    destruct (decide (z ∈ old)) as [Hz'|Hz'].
    + destruct (touched_freed _ _ _ _ _ Ht z Hz' ltac:(tauto)) as [-> _]. split; [by intros [? ?]|]. intros [?|Hx]; [by rewrite elem_of_app in *|].
      destruct (Hrest z Hx) as [Hy _]. rewrite elem_of_app in Hy. tauto.
    + rewrite (touched_buckets _ _ _ _ _ Ht) by (rewrite !elem_of_app; tauto). rewrite (mo_live _ _ _ _ _ H z), P1, !elem_of_app. tauto.
  - intros e He He'. rewrite Hlen in He'. rewrite (touched_blocks _ _ _ _ _ Ht); [by apply (mo_arrays _ _ _ _ _ H)|].
    destruct (array_base rg e (length own) ltac:(lia) He' (mo_pos _ _ _ _ _ H)) as (b & Hb & ->). intros Hx. rewrite elem_of_app in Hx.
    specialize (Hheads b Hb). apply elem_of_app in Hheads as [Hh|Hh].
    + apply list.NoDup_app in Hn1 as (_ & Hn1 & _). apply list.NoDup_app in Hnd as (_ & Hnd & _). destruct Hx; [by apply (Hn1 _ Hh)|by apply (Hnd _ Hh)].
    + destruct (Hrest _ Hh) as [H1 H2]. rewrite elem_of_app in H1. tauto.
Qed.

Lemma regions_chain own1 rss1 (b : nat) ss : (b < length own1)%nat -> regions (<[b := ss]> own1) rss1 = <[b := ss.*1]> (regions own1 rss1).
Proof. intros Hb. unfold regions. rewrite insert_app_l by (by rewrite length_fmap). by rewrite list_fmap_insert. Qed.

Lemma regions_pool own1 rss1 (k : nat) rs : regions own1 (<[k := rs]> rss1) = <[(length own1 + k)%nat := rs]> (regions own1 rss1).
Proof.
  unfold regions. rewrite insert_app_r_alt by (rewrite length_fmap; lia). rewrite length_fmap. by replace (length own1 + k - length own1)%nat with k by lia.
Qed.

(** What is in another region. *)
Lemma in_rest (i j : nat) x y z : regions own rss !! i = Some x -> regions own rss !! j = Some y -> i <> j -> z ∈ y -> z ∈ concat (delete i (regions own rss)).
Proof.
  intros Hi Hj Hij Hz. destruct (concat_update _ i x x Hi) as [P _]. assert (Hc : z ∈ concat (regions own rss)) by (by eapply in_concat).
  rewrite P in Hc. apply elem_of_app in Hc as [Hc|]; [|done].
  exfalso. by eapply (regions_disjoint _ i j x y z (mo_nodup _ _ _ _ _ H) Hi Hj Hij Hc).
Qed.

(** ** One chain changes *)

Lemma update_chain (b : nat) p es ss es' ss' h' : own !! b = Some ((p, es) :: ss) -> heap_ok h' -> chain h' None ((p, es') :: ss') ->
  NoDup (p :: ss'.*1) -> (forall q, q ∈ ss'.*1 -> q ∈ ss.*1 \/ buckets h !! q = None) -> touched h h' [p] ss.*1 ss'.*1 ->
  memory_ok h' rg (<[b := (p, es') :: ss']> own) pools rss.
Proof.
  intros Hb Hok Hc Hnd Hnew Ht. pose proof (region_chain _ _ Hb) as Hreg. pose proof (lookup_lt_Some _ _ _ Hb) as Hlt.
  destruct (concat_update _ b _ (p :: ss'.*1) Hreg) as [P1 P2].
  assert (Hhd : baddr rg (Z.of_nat b) = p) by (destruct (mo_chain _ _ _ _ _ H b _ Hb) as (? & ? & ? & _); by simplify_eq).
  eapply (update_memory h' _ pools rss [p] ss.*1 ss'.*1 (concat (delete b (regions own rss)))); try done.
  - by rewrite regions_chain.
  - intros q Hq. by eapply (chain_dom h' None ((p, es') :: ss')).
  - by rewrite length_insert.
  - intros k Hk. apply elem_of_app. destruct (Nat.eq_dec k b) as [->|Hne]; [left; rewrite Hhd; by left|right].
    destruct (head_of k Hk) as (e1 & s1 & Hx). eapply in_rest; [exact Hreg|by apply region_chain|done|left].
  - intros k s1 Hk. destruct (decide (k = b)) as [->|Hne].
    + right. rewrite list_lookup_insert_eq in Hk by done. injection Hk as <-. exists es', ss'. by rewrite Hhd.
    + left. rewrite list_lookup_insert_ne in Hk by done. split; [done|]. intros q Hq. eapply in_rest; [exact Hreg|by apply region_chain|done|done].
  - eapply Forall2_length, (mo_pools _ _ _ _ _ H).
  - intros k q rs Hq Hrs. left. split_and!; [done..|]. intros z Hz. eapply in_rest; [exact Hreg|by apply region_pool|lia|done].
Qed.

(** ** Two chains and a pool change *)

Lemma update_pair (b b' k : nat) p es ss d fs ds q rs es' ss' fs' ds' q' rs' h' :
  own !! b = Some ((p, es) :: ss) -> own !! b' = Some ((d, fs) :: ds) -> b <> b' -> rss !! k = Some rs ->
  heap_ok h' -> chain h' None ((p, es') :: ss') -> chain h' None ((d, fs') :: ds') -> free_list h' q' rs' ->
  NoDup (p :: ss'.*1 ++ d :: ds'.*1 ++ rs') -> ss'.*1 ++ ds'.*1 ++ rs' ⊆ ss.*1 ++ ds.*1 ++ rs ->
  touched h h' [p; d] (ss.*1 ++ ds.*1 ++ rs) (ss'.*1 ++ ds'.*1 ++ rs') -> pools !! k = Some q ->
  memory_ok h' rg (<[b := (p, es') :: ss']> (<[b' := (d, fs') :: ds']> own)) (<[k := q']> pools) (<[k := rs']> rss).
Proof.
  intros Hb Hb' Hne Hk Hok Hc Hc' Hf Hnd Hsub Ht Hq. pose proof (region_chain _ _ Hb) as R1. pose proof (region_chain _ _ Hb') as R2.
  pose proof (region_pool _ _ Hk) as R3. pose proof (lookup_lt_Some _ _ _ Hb) as L1. pose proof (lookup_lt_Some _ _ _ Hb') as L2.
  set (R := regions own rss) in *. set (kk := (length own + k)%nat) in *.
  set (rest := concat (<[b := []]> (<[b' := []]> (<[kk := []]> R)))).
  assert (Hup : forall y1 y2 y3, concat (<[b := y1]> (<[b' := y2]> (<[kk := y3]> R))) ≡ₚ y1 ++ y2 ++ y3 ++ rest).
  { intros. eapply concat_update3; [done..|lia|lia]. }
  assert (Hrest : forall (i : nat) y z, R !! i = Some y -> i <> b -> i <> b' -> i <> kk -> z ∈ y -> z ∈ rest).
  { intros i y z Hi N1 N2 N3 Hz. eapply (in_concat _ i); [|done]. by rewrite !list_lookup_insert_ne by done. }
  assert (Hh1 : baddr rg (Z.of_nat b) = p) by (destruct (mo_chain _ _ _ _ _ H b _ Hb) as (? & ? & ? & _); by simplify_eq).
  assert (Hh2 : baddr rg (Z.of_nat b') = d) by (destruct (mo_chain _ _ _ _ _ H b' _ Hb') as (? & ? & ? & _); by simplify_eq).
  assert (Hperm : forall (o1 o2 o3 : list Z), (p :: o1) ++ (d :: o2) ++ o3 ++ rest ≡ₚ ([p; d] ++ o1 ++ o2 ++ o3) ++ rest).
  { intros. cbn. rewrite <- !app_assoc. apply perm_skip. symmetry. apply Permutation_middle. }
  eapply (update_memory h' _ _ _ [p; d] (ss.*1 ++ ds.*1 ++ rs) (ss'.*1 ++ ds'.*1 ++ rs') rest); try done.
  - rewrite <- Hperm. change (p :: ss.*1) with (((p, es) :: ss).*1). change (d :: ds.*1) with (((d, fs) :: ds).*1). rewrite <- Hup.
    rewrite (list_insert_id R kk _ R3), (list_insert_id R b' _ R2), (list_insert_id R b _ R1). done.
  - rewrite regions_chain, regions_chain, regions_pool by (rewrite ?length_insert; done). cbn [fmap list_fmap fst]. fold R kk. by rewrite Hup, Hperm.
  - cbn. rewrite (Permutation_middle (ss'.*1)). done.
  - intros z Hz. left. by apply Hsub.
  - intros z Hz. destruct (decide (z ∈ rs')) as [Hr|Hr].
    + by eapply free_list_live.
    + cbn in Hz. rewrite !elem_of_cons, !elem_of_app in Hz. destruct Hz as [->|[->|[Hz|[Hz|Hz]]]]; [| | | |done].
      * eapply (chain_dom h' None ((p, es') :: ss')); [done|left].
      * eapply (chain_dom h' None ((d, fs') :: ds')); [done|left].
      * eapply (chain_dom h' None ((p, es') :: ss')); [done|by right].
      * eapply (chain_dom h' None ((d, fs') :: ds')); [done|by right].
  - by rewrite !length_insert.
  - intros i Hi. apply elem_of_app. destruct (Nat.eq_dec i b) as [->|N1]; [left; rewrite Hh1; by left|].
    destruct (Nat.eq_dec i b') as [->|N2]; [left; rewrite Hh2; right; by left|right].
    destruct (head_of i Hi) as (e1 & s1 & Hx). eapply Hrest; [by apply region_chain|done|done|lia|left].
  - intros i s1 Hi. destruct (decide (i = b)) as [->|N1].
    { right. rewrite list_lookup_insert_eq in Hi by (by rewrite length_insert). injection Hi as <-. exists es', ss'. by rewrite Hh1. }
    rewrite list_lookup_insert_ne in Hi by done. destruct (decide (i = b')) as [->|N2].
    { right. rewrite list_lookup_insert_eq in Hi by done. injection Hi as <-. exists fs', ds'. by rewrite Hh2. }
    left. rewrite list_lookup_insert_ne in Hi by done. split; [done|]. intros z Hz. pose proof (lookup_lt_Some _ _ _ Hi).
    eapply Hrest; [by apply region_chain|done|done|lia|done].
  - rewrite !length_insert. eapply Forall2_length, (mo_pools _ _ _ _ _ H).
  - intros i x y Hx Hy. destruct (decide (i = k)) as [->|N].
    + right. rewrite list_lookup_insert_eq in Hx by (by eapply lookup_lt_Some). rewrite list_lookup_insert_eq in Hy by (by eapply lookup_lt_Some). by simplify_eq.
    + left. rewrite list_lookup_insert_ne in Hx by done. rewrite list_lookup_insert_ne in Hy by done. split_and!; [done..|].
      intros z Hz. eapply Hrest; [by apply region_pool|lia|lia|lia|done].
Qed.

(** ** A pool gets a new bucket *)

Lemma update_push (k : nat) q rs r cR : pools !! k = Some q -> rss !! k = Some rs -> fresh h r 1 ->
  exists h', pool_push (add_block junk h r 1) (Pool q cR) r = Some (h', Pool r cR) /\
    memory_ok h' rg own (<[k := r]> pools) (<[k := r :: rs]> rss).
Proof.
  intros Hq Hrs Hf. pose proof (fresh_1 _ _ Hf) as (Hbl & Hbk & Ha & Hap).
  destruct (add_block_1_ok junk Hjunk h r (mo_heap _ _ _ _ _ H) Hf) as (Hok & prev & pb & Hr).
  destruct (wr_pb_spec _ r _ _ q _ Hok Hr) as (b & Eb & Hok' & Hr'). unfold pool_push. cbn [m_pReserve m_cReserve]. rewrite Eb. cbn [mbind option_bind].
  eexists. split; [done|]. set (h' := upd (add_block junk h r 1) r b) in *. pose proof (region_pool _ _ Hrs) as Hreg.
  destruct (concat_update _ _ _ (r :: rs) Hreg) as [P1 P2].
  assert (Hsame : forall z, z <> r -> buckets h' !! z = buckets h !! z /\ blocks h' !! z = blocks h !! z).
  { intros z Hz. unfold h'. rewrite add_block_1. cbn. by rewrite !lookup_insert_ne by done. }
  assert (Hrr : forall z, z ∈ concat (regions own rss) -> z <> r).
  { intros z Hz ->. by apply not_live in Hbk. }
  eapply (update_memory h' own _ _ [] [] [r] (concat (regions own rss))); try done.
  - rewrite regions_pool, P2, P1. done.
  - split; cbn; [intros z Hz; apply Hsame; set_solver|intros z Hz; apply Hsame; set_solver|set_solver].
  - apply list.NoDup_singleton.
  - intros z ->%list_elem_of_singleton. by right.
  - intros z ->%list_elem_of_singleton. destruct Hr' as [? Hx]. by eexists.
  - intros i Hi. cbn. destruct (head_of i Hi) as (es & ss' & Hx). eapply in_concat; [by apply region_chain|left].
  - intros i ss Hi. left. split; [done|]. intros z Hz. eapply in_concat; [by apply region_chain|done].
  - rewrite !length_insert. eapply Forall2_length, (mo_pools _ _ _ _ _ H).
  - intros i x y Hx Hy. destruct (decide (i = k)) as [->|N].
    + right. rewrite list_lookup_insert_eq in Hx by (by eapply lookup_lt_Some). rewrite list_lookup_insert_eq in Hy by (by eapply lookup_lt_Some).
      simplify_eq. split; [done|]. exists prev, q. split_and!; [done| |].
      * unfold h'. rewrite add_block_1. cbn. by rewrite lookup_insert_eq.
      * pose proof (Forall2_lookup_lr _ _ _ _ _ _ (mo_pools _ _ _ _ _ H) Hq Hrs) as Hfl.
        eapply free_list_frame; [| |exact Hfl]; intros z Hz; apply Hsame, Hrr; by apply (in_concat _ _ _ _ Hreg).
    + left. rewrite list_lookup_insert_ne in Hx by done. rewrite list_lookup_insert_ne in Hy by done. split_and!; [done..|].
      intros z Hz. eapply in_concat; [by apply region_pool|done].
Qed.

(** ** A new array *)

Lemma block_bucket_in p n z : z ∈ block_buckets p n <-> exists i : nat, (i < n)%nat /\ z = p + Z.of_nat i * m_cbBucket.
Proof.
  unfold block_buckets. rewrite list_elem_of_fmap. split.
  - intros (i & -> & Hi%elem_of_seq). exists i. split; [lia|done].
  - intros (i & Hi & ->). exists i. split; [done|]. apply elem_of_seq. lia.
Qed.

Lemma init_buckets_ok p n : fresh h p n -> heap_ok (init_buckets junk h p n).
Proof.
  intros [Hbl Hall]. rewrite list.Forall_forall in Hall. destruct (mo_heap _ _ _ _ _ H) as [H1 H2 H3]. pose proof cbBucket_pos. split; cbn.
  - intros z b. rewrite foldr_insert_lookup. destruct (decide (z ∈ _)) as [Hz|Hz]; [|by apply H1]. intros _. by destruct (Hall z Hz).
  - intros z z' b b'. rewrite !foldr_insert_lookup. destruct (decide (z ∈ _)) as [Hz|Hz], (decide (z' ∈ _)) as [Hz'|Hz'].
    + intros _ _ Hne. apply block_bucket_in in Hz as (i & Hi & ->), Hz' as (j & Hj & ->). unfold apart.
      assert (i <> j) by congruence. assert (i < j \/ j < i)%nat as [|] by lia; [left|right]; nia.
    + intros _ Hb' _. destruct (Hall z Hz) as [_ Ha]. by apply (Ha z' b').
    + intros Hb _ _. destruct (Hall z' Hz') as [_ Ha]. destruct (Ha z b Hb); [by right|by left].
    + apply H2.
  - intros z b. rewrite foldr_insert_lookup. destruct (decide (z ∈ _)) as [Hz|Hz]; [|by apply H3]. intros Hx. injection Hx as <-. cbn. apply Hjunk.
Qed.

(** The chains of a new array: one bucket each, without entries. *)
Definition empty_chains (p : Z) (n : nat) : list (segments E) := (fun q => [(q, [])]) <$> block_buckets p n.

Lemma empty_chains_ptrs p n : concat ((fun ss : segments E => ss.*1) <$> empty_chains p n) = block_buckets p n.
Proof.
  unfold empty_chains. rewrite <- list_fmap_compose. unfold compose. cbn. induction (block_buckets p n) as [|q l IH]; cbn; [done|]. by rewrite IH.
Qed.

Lemma block_buckets_nodup p n : NoDup (block_buckets p n).
Proof. apply NoDup_fmap_2; [|apply NoDup_seq]. intros i j Hij. pose proof cbBucket_pos. nia. Qed.

Lemma empty_chains_lookup p n (i : nat) ss : empty_chains p n !! i = Some ss -> (i < n)%nat /\ ss = [(p + Z.of_nat i * m_cbBucket, [])].
Proof.
  unfold empty_chains, block_buckets. rewrite !list_lookup_fmap. destruct (seq 0 n !! i) as [j|] eqn:Hj; [|done]. cbn. intros Hs. injection Hs as <-.
  by apply lookup_seq in Hj as [-> Hi].
Qed.

Lemma length_empty_chains p n : length (empty_chains p n) = n.
Proof. unfold empty_chains, block_buckets. by rewrite !length_fmap, length_seq. Qed.

Lemma update_array e p : 1 <= e < 64 -> Z.of_nat (length own) = 2 ^ e -> length rg = 64%nat -> fresh h p (length own) ->
  memory_ok (init_buckets junk h p (length own)) (<[Z.to_nat e := p]> rg) (own ++ empty_chains p (length own)) pools rss.
Proof.
  intros He Hlen Hrg Hf. pose proof (init_buckets_ok p _ Hf) as Hok. destruct Hf as [Hbl Hall]. rewrite list.Forall_forall in Hall.
  set (n := length own) in *. set (h' := init_buckets junk h p n) in *.
  assert (Hnew : forall z, z ∈ block_buckets p n -> buckets h !! z = None).
  { intros z Hz. destruct (Hall z Hz) as [_ Ha]. destruct (buckets h !! z) as [b|] eqn:Hb; [|done]. specialize (Ha z b Hb).
    unfold apart in Ha. pose proof cbBucket_pos. lia. }
  assert (Hlk : forall z, buckets h' !! z = if decide (z ∈ block_buckets p n) then Some (Bucket None 0 (m_rgEntry (junk z))) else buckets h !! z).
  { intros z. unfold h', init_buckets. cbn [buckets]. apply (foldr_insert_lookup _ (fun q => Bucket None 0 (m_rgEntry (junk q)))). }
  assert (Hp : p ∈ block_buckets p n) by (apply block_bucket_in; exists 0%nat; pose proof (mo_pos _ _ _ _ _ H); split; [done|lia]).
  assert (Hsame : forall z, z ∈ concat (regions own rss) -> buckets h' !! z = buckets h !! z /\ blocks h' !! z = blocks h !! z).
  { intros z Hz. assert (Hz' : z ∉ block_buckets p n) by (intros Hx%Hnew%not_live; done). split; [by rewrite Hlk, decide_False|].
    cbn. rewrite lookup_insert_ne; [done|]. by intros ->. }
  assert (Hperm : concat (regions (own ++ empty_chains p n) rss) ≡ₚ block_buckets p n ++ concat (regions own rss)).
  { unfold regions. rewrite fmap_app, !concat_app, empty_chains_ptrs, <- app_assoc. by rewrite Permutation_app_swap_app. }
  split.
  - done.
  - rewrite length_app. pose proof (mo_pos _ _ _ _ _ H). lia.
  - intros b ss [Hb|[Hb Hb']]%lookup_app_Some.
    + destruct (mo_chain _ _ _ _ _ H b ss Hb) as (es & ss' & -> & Hc). exists es, ss'. pose proof (lookup_lt_Some _ _ _ Hb) as Hlt. split.
      * rewrite baddr_low; [done|lia|]. unfold n in *. lia.
      * eapply chain_frame; [| |exact Hc]; intros q Hq;
          destruct (Hsame q (in_concat _ _ _ _ (region_chain _ _ Hb) Hq)) as [E1 E2]; [done|by rewrite E2].
    + apply empty_chains_lookup in Hb' as [Hi ->]. fold n in Hb, Hi |- *. exists [], []. split.
      * f_equal. f_equal. replace (Z.of_nat b) with (2 ^ e + Z.of_nat (b - n)) by lia. rewrite (baddr_high _ e _ p); [done|lia| |lia].
        apply list_lookup_insert_eq. lia.
      * cbn [chain link_pb end_pb]. split_and!; [|done|by left|done]. eexists. rewrite Hlk, decide_True; [done|]. apply block_bucket_in. by exists (b - n)%nat.
  - apply Forall2_same_length_lookup_2; [eapply Forall2_length, (mo_pools _ _ _ _ _ H)|]. intros k q rs Hq Hrs.
    pose proof (Forall2_lookup_lr _ _ _ _ _ _ (mo_pools _ _ _ _ _ H) Hq Hrs) as Hfl.
    eapply free_list_frame; [| |exact Hfl]; intros z Hz; apply Hsame; by apply (in_concat _ _ _ _ (region_pool _ _ Hrs)).
  - rewrite Hperm. apply list.NoDup_app. split_and!; [apply block_buckets_nodup| |apply (mo_nodup _ _ _ _ _ H)].
    intros z Hz%Hnew%not_live. done.
  - intros z. rewrite Hperm, elem_of_app, Hlk. destruct (decide (z ∈ block_buckets p n)) as [Hz|Hz]; [by naive_solver|].
    rewrite (mo_live _ _ _ _ _ H z). tauto.
  - intros e' He' Hc. rewrite length_app, length_empty_chains in Hc. fold n in Hc.
    destruct (Z.eq_dec e' e) as [->|Hne].
    + rewrite list_lookup_total_insert_eq by lia. cbn. rewrite lookup_insert_eq. f_equal. unfold array_size. rewrite (proj2 (Z.eqb_neq _ _)); lia.
    + rewrite list_lookup_total_insert_ne by lia. assert (Hc' : e' = 0 \/ 2 ^ e' < Z.of_nat n).
      { destruct Hc as [|Hc]; [by left|right]. rewrite Hlen in *. assert (e' < e + 1); [|apply Z.pow_lt_mono_r; lia].
        apply (Z.pow_lt_mono_r_iff 2); [lia|lia|]. rewrite Z.pow_add_r by lia. lia. }
      destruct (array_base rg e' n ltac:(lia) Hc' (mo_pos _ _ _ _ _ H)) as (b & Hb & Eb). rewrite <- (mo_arrays _ _ _ _ _ H e' He' Hc').
      rewrite Eb. apply Hsame. destruct (head_of b Hb) as (es & ss & Hx). apply (in_concat _ _ _ _ (region_chain _ _ Hx)). left.
Qed.

End Inv.
End Memory.

(** ** Releasing an array of buckets

    [DIRTermBucketArray] destroys the locks of an array, releases the chains of its
    buckets and the array itself, and nothing else. *)

Section Term.
Context {K E : Type} `{KE : CKeyEntry K E} `{L : BucketLayout} `{LO : !LayoutOk}.

(** The memory without the buckets [ps] and the blocks [qs]. *)
Definition without (h h' : heap E) (ps qs : list Z) : Prop :=
  heap_ok h' /\ (forall z, buckets h' !! z = if decide (z ∈ ps) then None else buckets h !! z) /\
  (forall z, blocks h' !! z = if decide (z ∈ qs) then None else blocks h !! z).

Lemma without_nil h : heap_ok h -> without h h [] [].
Proof. intros Hh. split_and!; [done|intros z; by rewrite decide_False by set_solver..]. Qed.

Lemma without_trans h1 h2 h3 ps1 qs1 ps2 qs2 : without h1 h2 ps1 qs1 -> without h2 h3 ps2 qs2 -> without h1 h3 (ps1 ++ ps2) (qs1 ++ qs2).
Proof.
  intros (_ & A1 & B1) (Hok & A2 & B2). split_and!; [done|intros z; rewrite A2, A1|intros z; rewrite B2, B1];
    repeat case_decide; try done; set_solver.
Qed.

Lemma without_frame h h' ps qs prev (ss : segments E) : without h h' ps qs -> (forall z, z ∈ ss.*1 -> z ∉ ps /\ z ∉ qs) -> chain h prev ss -> chain h' prev ss.
Proof.
  intros (_ & A & B) Hz. apply chain_frame.
  - intros z Hin. destruct (Hz z Hin). by rewrite A, decide_False.
  - intros z Hin. destruct (Hz z Hin). by rewrite B, decide_False.
Qed.

Lemma free_without h p : heap_ok h -> blocks h !! p = Some 1%nat -> 0 < p -> exists h', MEMFree h p = Some h' /\ without h h' [p] [p].
Proof.
  intros Hh Hp H0. eexists. split; [by apply free_1|]. split_and!; [by apply free_ok| |]; intros z; cbn.
  - case_decide as Hz; [apply list_elem_of_singleton in Hz as ->; by rewrite lookup_delete_eq|]. rewrite lookup_delete_ne; [done|set_solver].
  - case_decide as Hz; [apply list_elem_of_singleton in Hz as ->; by rewrite lookup_delete_eq|]. rewrite lookup_delete_ne; [done|set_solver].
Qed.

Lemma free_chain_ok n h prev (ss : segments E) : heap_ok h -> chain h (Some prev) ss -> NoDup ss.*1 -> (length ss < n)%nat ->
  exists h', free_chain n h (hd_ptr ss) = Some h' /\ without h h' ss.*1 ss.*1.
Proof.
  revert h prev ss. induction n as [|n IH]; intros h prev ss Hh Hc Hd Hl; [lia|]. destruct ss as [|[p es] ss]; cbn [free_chain hd_ptr].
  - exists h. split; [done|]. by apply without_nil.
  - pose proof (holds_pos _ _ _ _ _ Hh (chain_holds _ _ _ _ _ Hc)). rewrite (proj2 (Z.eqb_neq p 0)) by lia.
    rewrite (chain_Next _ _ _ _ _ Hh Hc Hd). cbn [mbind option_bind]. destruct Hc as (_ & _ & [?|[_ Hb]] & Hc); [done|].
    destruct (free_without h p Hh Hb ltac:(lia)) as (h1 & -> & Hw). cbn [mbind option_bind]. cbn in Hd. apply list.NoDup_cons in Hd as [Hp Hd].
    destruct (IH h1 p ss) as (h' & -> & Hw'); [apply Hw| |done|cbn in Hl; lia|].
    + eapply without_frame; [exact Hw| |exact Hc]. intros z Hz. rewrite list_elem_of_singleton. split; intros ->; done.
    + exists h'. split; [done|]. change (((p, es) :: ss).*1) with ([p] ++ ss.*1). by eapply without_trans.
Qed.

(** One bucket of the array. *)
Lemma term_bucket_ok h lk p es (ss : segments E) : heap_ok h -> chain h None ((p, es) :: ss) -> NoDup (p :: ss.*1) -> lk !! p = Some (Rwl 0 false) ->
  exists h', term_bucket h lk p = Some (h', delete p lk) /\ without h h' ss.*1 ss.*1.
Proof.
  intros Hh Hc Hd Hl. unfold term_bucket. rewrite Hl. cbn [mbind option_bind]. cbn [cReaders fWriter Z.eqb negb andb DHTAssert mbind option_bind].
  rewrite (chain_Next _ _ _ _ _ Hh Hc Hd). cbn [mbind option_bind]. pose proof (chain_length _ _ _ Hc Hd) as Hlen. cbn in Hlen.
  destruct Hc as (_ & _ & _ & Hc). apply list.NoDup_cons in Hd as [_ Hd].
  destruct (free_chain_ok (fuel h) h p ss Hh Hc Hd) as (h' & -> & Hw); [unfold fuel; lia|]. by exists h'.
Qed.

(** Every bucket of the array. *)
Lemma term_buckets_ok (owns : list (segments E)) h lk : heap_ok h -> (forall ss, ss ∈ owns -> ss <> [] /\ chain h None ss) ->
  NoDup (concat ((fun ss => ss.*1) <$> owns)) -> (forall ss, ss ∈ owns -> lk !! hd_ptr ss = Some (Rwl 0 false)) ->
  exists h' lk', term_buckets (hd_ptr <$> owns) h lk = Some (h', lk') /\ without h h' (concat (overflow <$> owns)) (concat (overflow <$> owns)) /\
    (forall a, lk' !! a = if decide (a ∈ hd_ptr <$> owns) then None else lk !! a).
Proof.
  revert h lk. induction owns as [|ss owns IH]; intros h lk Hh Hc Hd Hl.
  - exists h, lk. split; [done|]. split; [by apply without_nil|]. intros a. by rewrite decide_False by set_solver.
  - destruct (Hc ss ltac:(left)) as [Hne Hcs]. destruct ss as [|[p es] ss]; [done|]. cbn in Hd. rewrite app_comm_cons in Hd.
    apply list.NoDup_app in Hd as (Hd1 & Hd2 & Hd3).
    destruct (term_bucket_ok h lk p es ss Hh Hcs Hd1 (Hl _ ltac:(left))) as (h1 & Et & Hw). cbn [fmap list_fmap hd_ptr term_buckets]. rewrite Et. cbn [mbind option_bind].
    assert (Hoth : forall s1 z, s1 ∈ owns -> z ∈ s1.*1 -> z ∉ p :: ss.*1).
    { intros s1 z Hs Hz Hx. apply (Hd2 z Hx). apply list_elem_of_lookup in Hs as [i Hi].
      assert (Hy : ((fun ss : segments E => ss.*1) <$> owns) !! i = Some s1.*1) by (by rewrite list_lookup_fmap, Hi). by apply (in_concat _ _ _ _ Hy). }
    destruct (IH h1 (delete p lk)) as (h' & lk' & Et' & Hw' & Hlk).
    + apply Hw.
    + intros s1 Hs. destruct (Hc s1 ltac:(by right)) as [Hn1 Hc1]. split; [done|]. eapply without_frame; [exact Hw| |exact Hc1].
      intros z Hz. pose proof (Hoth s1 z Hs Hz). set_solver.
    + done.
    + intros s1 Hs. rewrite lookup_delete_ne; [by apply Hl; right|]. intros ->. destruct (Hc s1 ltac:(by right)) as [Hn1 _].
      destruct s1 as [|[q fs] s1]; [done|]. apply (Hoth _ q Hs); cbn; left.
    + exists h', lk'. split; [done|]. split; [|intros a; rewrite Hlk].
      { change (concat (overflow ((p, es) :: ss) :: (overflow <$> owns))) with (ss.*1 ++ concat (overflow <$> owns)). by eapply without_trans. }
      destruct (decide (a = p)) as [->|Hap].
      * rewrite lookup_delete_eq. case_decide; [by rewrite decide_True by set_solver|by rewrite decide_True by set_solver].
      * rewrite lookup_delete_ne by done. repeat case_decide; try done; set_solver.
Qed.

Lemma free_block h p n : heap_ok h -> blocks h !! p = Some n -> 0 < p -> exists h', MEMFree h p = Some h' /\ without h h' (block_buckets p n) [p].
Proof.
  intros [H1 H2 H3] Hp H0. unfold MEMFree. rewrite (proj2 (Z.eqb_neq p 0)) by lia. rewrite Hp. cbn [mbind option_bind]. eexists. split; [done|].
  assert (Hdel : forall (m : gmap Z (BUCKET E)) ps z, foldr delete m ps !! z = if decide (z ∈ ps) then None else m !! z).
  { intros m ps z. induction ps as [|q ps IH]; cbn [foldr]; [by rewrite decide_False by set_solver|]. destruct (decide (z = q)) as [->|Hne].
    - rewrite lookup_delete_eq, decide_True by (by left). done.
    - rewrite lookup_delete_ne, IH by done. repeat case_decide; try done; set_solver. }
  split_and!.
  - split; cbn.
    + intros z b. rewrite Hdel. case_decide; [done|]. apply H1.
    + intros z z' b b'. rewrite !Hdel. repeat case_decide; try done. apply H2.
    + intros z b. rewrite Hdel. case_decide; [done|]. apply H3.
  - intros z. cbn. apply Hdel.
  - intros z. cbn. case_decide as Hz; [apply list_elem_of_singleton in Hz as ->; by rewrite lookup_delete_eq|]. rewrite lookup_delete_ne; [done|set_solver].
Qed.

(** The array, its chains and its locks are gone. *)
Lemma DIRTermBucketArray_ok (owns : list (segments E)) h lk rgb : heap_ok h -> (forall ss, ss ∈ owns -> ss <> [] /\ chain h None ss) ->
  NoDup (concat ((fun ss => ss.*1) <$> owns)) -> (forall ss, ss ∈ owns -> lk !! hd_ptr ss = Some (Rwl 0 false)) ->
  hd_ptr <$> owns = block_buckets rgb (length owns) -> blocks h !! rgb = Some (length owns) -> owns <> [] ->
  exists h' lk', DIRTermBucketArray h lk rgb (Z.of_nat (length owns)) = Some (h', lk') /\
    without h h' (concat ((fun ss => ss.*1) <$> owns)) (rgb :: concat (overflow <$> owns)) /\
    (forall a, lk' !! a = if decide (a ∈ hd_ptr <$> owns) then None else lk !! a).
Proof.
  intros Hh Hc Hd Hl Hb Hbl Hne. assert (Hlen : (0 < length owns)%nat) by (destruct owns; [done|cbn; lia]).
  assert (Hrgb : rgb ∈ hd_ptr <$> owns) by (rewrite Hb; apply block_bucket_in; exists 0%nat; split; [done|lia]).
  assert (Hhd : forall z, z ∈ hd_ptr <$> owns -> z ∉ concat (overflow <$> owns) /\ exists ss, ss ∈ owns /\ z ∈ ss.*1).
  { intros z (ss & -> & Hs)%list_elem_of_fmap. destruct (Hc ss Hs) as [Hn _]. destruct ss as [|[q fs] ss]; [done|]. split; [|eexists; split; [done|left]].
    intros (i & x & Hi & Hx)%in_concat_inv. rewrite list_lookup_fmap in Hi. destruct (owns !! i) as [s1|] eqn:Hs1; [|done]. cbn in Hi. injection Hi as <-.
    apply list_elem_of_lookup in Hs as [j Hj]. assert (Hx' : q ∈ s1.*1) by (unfold overflow in Hx; destruct s1 as [|[? ?] ?]; cbn in *; [done|by right]).
    assert (Hr1 : ((fun ss : segments E => ss.*1) <$> owns) !! i = Some s1.*1) by (by rewrite list_lookup_fmap, Hs1).
    assert (Hr2 : ((fun ss : segments E => ss.*1) <$> owns) !! j = Some (q :: ss.*1)) by (by rewrite list_lookup_fmap, Hj).
    destruct (Nat.eq_dec i j) as [->|Hij].
    - rewrite Hs1 in Hj. injection Hj as ->. unfold overflow in Hx. cbn in Hx. apply region_nodup with (i := j) (x := q :: ss.*1) in Hd; [|done].
      by apply list.NoDup_cons in Hd as [? _].
    - apply (regions_disjoint _ i j _ _ q Hd Hr1 Hr2 Hij Hx'). left. }
  destruct (term_buckets_ok owns h lk Hh Hc Hd Hl) as (h1 & lk' & Et & Hw & Hlk).
  destruct (Hhd rgb Hrgb) as [Hno (ss & Hs & Hin)]. destruct (Hc ss Hs) as [_ Hcs].
  pose proof (chain_ptr_pos _ _ _ _ Hh Hcs Hin) as Hpos.
  destruct (free_block h1 rgb (length owns)) as (h' & Ef & Hw'); [apply Hw|destruct Hw as (_ & _ & ->); by rewrite decide_False|lia|].
  exists h', lk'. unfold DIRTermBucketArray. rewrite (proj2 (Z.eqb_neq rgb 0)) by lia. cbn [negb DHTAssert mbind option_bind].
  rewrite Nat2Z.id, <- Hb, Et. cbn [mbind option_bind]. rewrite Ef. cbn [mbind option_bind]. split; [done|]. split; [|done].
  destruct (without_trans _ _ _ _ _ _ _ Hw Hw') as (Hok & A & B). rewrite <- Hb in A. split_and!; [done| |].
  - intros z. rewrite A. assert (Hiff : z ∈ concat (overflow <$> owns) ++ (hd_ptr <$> owns) <-> z ∈ concat ((fun ss => ss.*1) <$> owns)).
    { clear -Hc. induction owns as [|s1 owns IH]; [cbn; set_solver|]. destruct (Hc s1 ltac:(left)) as [Hn _]. destruct s1 as [|[q fs] s1]; [done|].
      assert (IH' := IH ltac:(intros; apply Hc; by right)). cbn. unfold overflow at 1. cbn. set_solver. }
    repeat case_decide; try done; tauto.
  - intros z. rewrite B. repeat case_decide; try done; set_solver.
Qed.

(** The upper half of the directory is released. *)
Lemma drop_array h rg (own0 owns : list (segments E)) pools rss lk e : memory_ok h rg (own0 ++ owns) pools rss -> 1 <= e < 64 ->
  Z.of_nat (length own0) = 2 ^ e -> length owns = length own0 -> length rg = 64%nat ->
  (forall ss, ss ∈ owns -> lk !! hd_ptr ss = Some (Rwl 0 false)) ->
  exists h' lk', DIRTermBucketArray h lk (rg !!! Z.to_nat e) (2 ^ e) = Some (h', lk') /\
    memory_ok h' (<[Z.to_nat e := 0]> rg) own0 pools rss /\ (forall a, lk' !! a = if decide (a ∈ hd_ptr <$> owns) then None else lk !! a).
Proof.
  intros H He Hl0 Hl1 Hrg Hlk. assert (Hpow : 2 ^ 1 <= 2 ^ e) by (apply Z.pow_le_mono_r; lia).
  set (rgb := rg !!! Z.to_nat e). assert (Hrgb : rg !! Z.to_nat e = Some rgb) by (apply list_lookup_lookup_total_lt; lia).
  assert (Hown : forall (i : nat) ss, owns !! i = Some ss -> (own0 ++ owns) !! (length own0 + i)%nat = Some ss).
  { intros i ss Hi. rewrite lookup_app_r by lia. by replace (length own0 + i - length own0)%nat with i by lia. }
  assert (Hchain : forall (i : nat) ss, owns !! i = Some ss -> hd_ptr ss = rgb + Z.of_nat i * m_cbBucket /\ ss <> [] /\ chain h None ss).
  { intros i ss Hi. pose proof (lookup_lt_Some _ _ _ Hi). destruct (mo_chain _ _ _ _ _ H _ _ (Hown i ss Hi)) as (es & ss' & -> & Hc). split; [|done].
    cbn [hd_ptr]. replace (Z.of_nat (length own0 + i)) with (2 ^ e + Z.of_nat i) by lia. apply baddr_high; [lia|done|lia]. }
  assert (Hheads : hd_ptr <$> owns = block_buckets rgb (length owns)).
  { apply list_eq. intros i. unfold block_buckets. rewrite !list_lookup_fmap. destruct (owns !! i) as [ss|] eqn:Hi.
    - destruct (Hchain i ss Hi) as (E1 & _). rewrite lookup_seq_lt by (by eapply lookup_lt_Some). cbn. by rewrite E1.
    - apply lookup_ge_None in Hi. by rewrite lookup_seq_ge. }
  assert (Hperm : concat (regions (own0 ++ owns) rss) ≡ₚ concat ((fun ss => ss.*1) <$> owns) ++ concat (regions own0 rss)).
  { unfold regions. rewrite fmap_app, !concat_app, <- app_assoc. by rewrite Permutation_app_swap_app. }
  pose proof (mo_nodup _ _ _ _ _ H) as Hn. rewrite Hperm in Hn. apply list.NoDup_app in Hn as (Hn1 & Hn2 & Hn3).
  assert (Hne : owns <> []) by (intros ->; cbn in Hl1; lia).
  destruct (DIRTermBucketArray_ok owns h lk rgb (mo_heap _ _ _ _ _ H)) as (h' & lk' & Et & (Hok & A & B) & Hlk'); try done.
  - intros ss [i Hi]%list_elem_of_lookup. by apply (Hchain i).
  - unfold rgb. rewrite (mo_arrays _ _ _ _ _ H e); [|lia|right; rewrite length_app; lia]. f_equal. unfold array_size. rewrite (proj2 (Z.eqb_neq e 0)); lia.
  - replace (2 ^ e) with (Z.of_nat (length owns)) by lia. exists h', lk'. split; [done|]. split; [|done].
    assert (Hsub : forall z, z ∈ rgb :: concat (overflow <$> owns) -> z ∈ concat ((fun ss => ss.*1) <$> owns)).
    { intros z [->|Hz]%elem_of_cons.
      - destruct (owns !! 0%nat) as [ss|] eqn:H0; [|destruct owns; done]. destruct (Hchain 0%nat ss H0) as (E1 & Hne0 & _).
        apply (in_concat _ 0 ss.*1); [by rewrite list_lookup_fmap, H0|]. destruct ss as [|[q fs] ss]; [done|]. cbn in E1 |- *. rewrite E1, Z.add_0_r. left.
      - apply in_concat_inv in Hz as (i & x & Hi & Hx). rewrite list_lookup_fmap in Hi. destruct (owns !! i) as [ss|] eqn:Hs; [|done]. cbn in Hi. injection Hi as <-.
        apply (in_concat _ i ss.*1); [by rewrite list_lookup_fmap, Hs|]. unfold overflow in Hx. destruct ss as [|[q fs] ss]; [done|]. cbn in *. by right. }
    assert (Hsame : forall z, z ∈ concat (regions own0 rss) -> buckets h' !! z = buckets h !! z /\ blocks h' !! z = blocks h !! z).
    { intros z Hz. assert (Hno : z ∉ concat ((fun ss => ss.*1) <$> owns)) by (intros Hx; by apply (Hn2 z Hx)).
      split; [by rewrite A, decide_False|]. rewrite B, decide_False; [done|]. by intros Hx%Hsub. }
    split.
    + done.
    + lia.
    + intros b ss Hb. pose proof (lookup_lt_Some _ _ _ Hb) as Hlt. assert (Hb' : (own0 ++ owns) !! b = Some ss) by (by rewrite lookup_app_l).
      destruct (mo_chain _ _ _ _ _ H b ss Hb') as (es & ss' & -> & Hc). exists es, ss'. split; [by rewrite baddr_low by lia|].
      eapply chain_frame; [| |exact Hc]; intros q Hq; destruct (Hsame q (in_concat _ _ _ _ (region_chain _ _ _ _ Hb) Hq)) as [E1 E2]; [done|by rewrite E2].
    + apply Forall2_same_length_lookup_2; [eapply Forall2_length, (mo_pools _ _ _ _ _ H)|]. intros k q rs Hq Hrs.
      pose proof (Forall2_lookup_lr _ _ _ _ _ _ (mo_pools _ _ _ _ _ H) Hq Hrs) as Hfl.
      eapply free_list_frame; [| |exact Hfl]; intros z Hz; apply Hsame; by apply (in_concat _ _ _ _ (region_pool own0 _ _ _ Hrs)).
    + done.
    + intros z. rewrite A. case_decide as Hz.
      * split; [by intros [? ?]|]. intros Hx. destruct (Hn2 z Hz Hx).
      * rewrite (mo_live _ _ _ _ _ H z), Hperm, elem_of_app. tauto.
    + intros e' He' Hc. assert (e' <> e) by (intros ->; destruct Hc; lia). rewrite list_lookup_total_insert_ne by lia.
      destruct (array_base rg e' (length own0) ltac:(lia) Hc ltac:(lia)) as (b & Hb & Eb).
      rewrite <- (mo_arrays _ _ _ _ _ H e' He'); [|rewrite length_app; destruct Hc; [by left|right; lia]]. rewrite Eb. apply Hsame.
      destruct (lookup_lt_is_Some_2 own0 b Hb) as [ss Hss]. assert (Hb' : (own0 ++ owns) !! b = Some ss) by (by rewrite lookup_app_l).
      destruct (mo_chain _ _ _ _ _ H b ss Hb') as (es & ss' & -> & _). apply (in_concat _ _ _ _ (region_chain _ _ _ _ Hss)). left.
Qed.

End Term.
