(* ===== verification/HashInv.v ===== *)
(** * HashInv: the invariant of the hash table

    What holds between any two steps of the clients: the state machine
    ([HashStates]), the locks ([HashViews]), the memory ([HashMemory]), what each client
    knows of the directory ([HashViews]), the counts of the reserved buckets, and the
    entries: every one is in the bucket of its key, no two have the same key, and a
    client that holds a key stands on its entry. *)

From stdpp Require Import gmap.
From S2P Require Import Prelude HashBucket HashBucketProofs HashBucketOps Threads HashTable HashStates HashDir HashViews HashMemory.

(** What the client's functions promise: an entry has one key, which it matches and
    which gives its hash value. *)
Class ClientLaws (K E : Type) `{CKeyEntry K E} := {
  key_of : E -> K;
  matches_key : forall e k, FEntryMatchesKey e k = true <-> key_of e = k;
  hash_entry_key : forall e, Hash_entry e = Hash_key (key_of e) }.

(** ** The directories by state *)

(** What holds of the directories when the table enters the state [es]. *)
Definition entered (es : ENUMSTATE) (d0 d1 : DIRPTRS) : Prop :=
  let full := m_cBucket d0 = m_cBucketMax d0 in
  let empty := m_cBucket d0 = 0 /\ 1 < m_cBucketMax d0 in
  match es with
  | stateSplitFromGrow | stateSplitFromGrow2 => full
  | stateSplit => d1 = d0 /\ full
  | stateGrowFromSplit => d0 = Dirptrs (2 * m_cBucketMax d1) 0 /\ m_cBucket d1 = m_cBucketMax d1
  | stateMergeFromShrink | stateMergeFromShrink2 => empty
  | stateMerge => d1 = d0 /\ empty
  | stateShrinkFromMerge => m_cBucketMax d1 = 2 * m_cBucketMax d0 /\ m_cBucket d1 = 0 /\ m_cBucket d0 = m_cBucketMax d0
  | _ => True
  end.

Definition dirs_state (cur : ENUMSTATE) (ph : phase) (d0 d1 : DIRPTRS) : Prop :=
  entered (match ph with Moving es => es | _ => cur end) d0 d1.

Record dirs_ok (cur : ENUMSTATE) (ph : phase) (cap : Z) (d0 d1 : DIRPTRS) : Prop := {
  ds_dir : dir_ok cap d0;
  ds_cap : cap = m_cBucketMax d0 \/ cap = 2 * m_cBucketMax d0;
  ds_state : dirs_state cur ph d0 d1 }.

(** ** The reserved buckets *)

Section Invariant.
Context {K E : Type} `{KE : CKeyEntry K E} `{L : BucketLayout} `{TP : TableParams}.

Abbreviation pc := (@pc K E).
Abbreviation table := (CDynamicHashTable E).

Definition of_hs (i : nat) (j : job) : Z := if decide (j_ihs j = i) then 1 else 0.

(** In [FPOOLReserve]: about to give the count back, and to allocate. *)
Definition at_inc (i : nat) (p : pc) : Z := match p with SmInc j => of_hs i j | _ => 0 end.

Definition at_alloc (i : nat) (p : pc) : Z := match p with SmAlloc j => of_hs i j | _ => 0 end.

(** A bucket is reserved for the client. *)
Definition reserved (i : nat) (p : pc) : Z :=
  match p with
  | SmHash j | SmTry j _ | SmRecheck j _ | SpArray j _ | SmOther j _ | SmDo j _ _ | SmUndo j _ | SmUnreserve j => of_hs i j
  | _ => 0
  end.

(** [c]: the count of the pool; [l]: the buckets in it; [n]: the clients. *)
Record count_ok (c l inc res alloc n : Z) : Prop := {
  co_length : l = c + inc + res;
  co_lower : 0 <= c + inc;
  co_upper : c + 2 * inc + res + alloc <= 2 * n }.

Definition pools_ok (cs : list Z) (rss : list (list Z)) (ts : list pc) : Prop :=
  forall (i : nat) c rs, cs !! i = Some c -> rss !! i = Some rs ->
    count_ok c (Z.of_nat (length rs)) (total (at_inc i) ts) (total (reserved i) ts) (total (at_alloc i) ts) (Z.of_nat (length ts)).

(** ** Clients *)

Definition plock_of (p : pc) : option CLock :=
  match p with
  | LkState plock _ _ _ | LkHash plock _ _ _ _ | LkLock plock _ _ _ _ _ _ _ | LkCheck plock _ _ _ _ _ _ _
  | LkUndo plock _ _ _ _ | LkHash2 plock _ _ _ _ | LkLock2 plock _ _ _ _ => Some plock
  | _ => fst <$> owner p
  end.

(** The [HOTSTUFF] that a client will use. *)
Definition ihs_of (p : pc) : option nat :=
  match p with MtOp i | MtTry i | MtSelect i => Some i | _ => m_phs <$> plock_of p end.

(** The client has sought its key in the bucket. *)
Definition stands (p : pc) : option (CLock * K) := match p with LkSeek _ _ _ _ _ => None | _ => owner p end.

Context `{CL : !ClientLaws K E}.

(** [cur] is the entry of the chain with the key, if there is one. *)
Definition sought (ss : segments E) (key : K) (cur : option E) : Prop :=
  match cur with
  | Some e => e ∈ flat ss /\ key_of e = key
  | None => forall e, e ∈ flat ss -> key_of e <> key
  end.

Record client_ok (chs : nat) (own : list (segments E)) (d0 : DIRPTRS) (p : pc) : Prop := {
  cl_ihs : forall i, ihs_of p = Some i -> (i < chs)%nat;
  cl_ls : forall plock, plock_of p = Some plock -> m_ls plock = lsRead \/ m_ls plock = lsWrite;
  cl_stands : forall plock key, stands p = Some (plock, key) -> exists ss cur,
    own !! Z.to_nat (bucket d0 (Hash_key key)) = Some ss /\ on_entry ss plock cur /\ sought ss key cur }.

(** ** Entries *)

Definition placed (own : list (segments E)) (d : DIRPTRS) : Prop :=
  forall (b : nat) ss e, own !! b = Some ss -> e ∈ flat ss -> bucket d (Hash_entry e) = Z.of_nat b.

Definition entries (own : list (segments E)) : list E := concat (flat <$> own).

Definition distinct (own : list (segments E)) : Prop := NoDup (key_of <$> entries own).

(** ** The invariant *)

Definition meters (s : table) : list meter := m_cms <$> m_rghs s.

Definition reserves (s : table) : list Z := (fun hs => m_pReserve (m_bucketpool hs)) <$> m_rghs s.

Definition counts (s : table) : list Z := (fun hs => m_cReserve (m_bucketpool hs)) <$> m_rghs s.

Definition cap (own : list (segments E)) : Z := Z.of_nat (length own).

(** The buckets in the arrays, and no others, have locks. *)
Definition heads_ok (lk : gmap Z rwl) (rg : list Z) (n : Z) : Prop :=
  forall a, is_Some (lk !! a) <-> exists b, 0 <= b < n /\ a = baddr rg b.

Record inv (s : table) (ts : list pc) (own : list (segments E)) (rss : list (list Z)) (ph : phase) : Prop := {
  in_chs : (0 < m_chs s)%nat /\ Z.of_nat (m_chs s) < 2 ^ 31;
  in_threads : 2 * Z.of_nat (length ts) + 1 < 2 ^ 31;
  in_arrays : arrays_ok (m_rgrgBucket s) (cap own);
  in_memory : memory_ok (m_heap s) (m_rgrgBucket s) own (reserves s) rss;
  in_heads : heads_ok (m_locks s) (m_rgrgBucket s) (cap own);
  in_states : states_ok (m_chs s) (meters s) (m_stateCur s) (m_semPolicy s) (m_cCompletions s) ph (role_of <$> ts);
  in_locks : locks_ok (m_locks s) (locks_of <$> ts);
  in_dirs : dirs_ok (m_stateCur s) ph (cap own) (m_dirptrs0 s) (m_dirptrs1 s);
  in_pools : pools_ok (counts s) rss ts;
  in_views : forall p, p ∈ ts -> view_ok (m_dirptrs0 s) (m_dirptrs1 s) (m_rgrgBucket s) (cap own) p;
  in_clients : forall p, p ∈ ts -> client_ok (m_chs s) own (m_dirptrs0 s) p;
  in_placed : placed own (m_dirptrs0 s);
  in_distinct : distinct own }.

End Invariant.

(** ** Steps that leave the memory and the directory alone

    Most steps of a client change only its position, a lock, a metered section or the
    counters of the table.  [local_step] reduces the invariant after such a step to what
    the step is about. *)

Section Frame.
Context {K E : Type} `{KE : CKeyEntry K E} `{L : BucketLayout} `{TP : TableParams} `{LO : !LayoutOk} `{CL : !ClientLaws K E}.

Abbreviation pc := (@pc K E).
Abbreviation table := (CDynamicHashTable E).

(** ** The parts of a [HOTSTUFF] *)

Lemma fmap_upd {X} (f : HOTSTUFF -> X) (s : table) i hs hs' : m_rghs s !! i = Some hs ->
  f <$> m_rghs (upd_hs s i hs') = <[i := f hs']> (f <$> m_rghs s).
Proof. intros Hi. cbn. apply list_fmap_insert. Qed.

Lemma fmap_upd_same {X} (f : HOTSTUFF -> X) (s : table) i hs hs' : m_rghs s !! i = Some hs -> f hs' = f hs ->
  f <$> m_rghs (upd_hs s i hs') = f <$> m_rghs s.
Proof. intros Hi Hf. rewrite (fmap_upd f s i hs hs' Hi), Hf. apply list_insert_id. by rewrite list_lookup_fmap, Hi. Qed.

Lemma chs_upd (s : table) i hs : m_chs (upd_hs s i hs) = m_chs s.
Proof. unfold m_chs. cbn. by rewrite length_insert. Qed.

Lemma meter_lookup (s : table) i m : meters s !! i = Some m -> exists hs, m_rghs s !! i = Some hs /\ m_cms hs = m.
Proof. unfold meters. rewrite list_lookup_fmap. destruct (m_rghs s !! i) as [hs|]; [|done]. cbn. intros Hm. injection Hm as <-. by exists hs. Qed.

(** ** What a step does not change *)

Record same_store (s s' : table) : Prop := {
  ss_heap : m_heap s' = m_heap s;
  ss_dir0 : m_dirptrs0 s' = m_dirptrs0 s;
  ss_dir1 : m_dirptrs1 s' = m_dirptrs1 s;
  ss_arrays : m_rgrgBucket s' = m_rgrgBucket s;
  ss_reserves : reserves s' = reserves s;
  ss_counts : counts s' = counts s;
  ss_chs : m_chs s' = m_chs s }.

Lemma same_store_refl (s : table) : same_store s s.
Proof. done. Qed.

Lemma same_store_cms (s : table) i hs m : m_rghs s !! i = Some hs -> same_store s (upd_hs s i (set_cms m hs)).
Proof.
  intros Hi. split; try done; [| |apply chs_upd].
  - by apply (fmap_upd_same (fun hs => m_pReserve (m_bucketpool hs)) s i hs).
  - by apply (fmap_upd_same (fun hs => m_cReserve (m_bucketpool hs)) s i hs).
Qed.

Lemma meters_cms (s : table) i hs m : m_rghs s !! i = Some hs -> meters (upd_hs s i (set_cms m hs)) = <[i := m]> (meters s).
Proof. intros Hi. by apply (fmap_upd m_cms s i hs). Qed.

Definition same_pool (p p' : pc) : Prop :=
  forall i, at_inc i p' = at_inc i p /\ reserved i p' = reserved i p /\ at_alloc i p' = at_alloc i p.

Context (s : table) (ts : list pc) (own : list (segments E)) (rss : list (list Z)) (ph : phase) (H : inv s ts own rss ph).

Lemma role_at t (p : pc) : ts !! t = Some p -> (role_of <$> ts) !! t = Some (role_of p).
Proof. intros Ht. by rewrite list_lookup_fmap, Ht. Qed.

Lemma locks_at t (p : pc) : ts !! t = Some p -> (locks_of <$> ts) !! t = Some (locks_of p).
Proof. intros Ht. by rewrite list_lookup_fmap, Ht. Qed.

Lemma roles_same t (p p' : pc) : ts !! t = Some p -> role_of p' = role_of p -> <[t := role_of p']> (role_of <$> ts) = role_of <$> ts.
Proof. intros Ht ->. apply list_insert_id. by apply role_at. Qed.

Lemma locks_same t (p p' : pc) : ts !! t = Some p -> locks_of p' = locks_of p -> <[t := locks_of p']> (locks_of <$> ts) = locks_of <$> ts.
Proof. intros Ht ->. apply list_insert_id. by apply locks_at. Qed.

Lemma pools_same t (p p' : pc) : ts !! t = Some p -> same_pool p p' -> pools_ok (counts s) rss (<[t := p']> ts).
Proof.
  intros Ht Hp i c rs Hc Hrs. destruct (Hp i) as (E1 & E2 & E3). rewrite !(total_same _ _ _ _ _ Ht) by done. rewrite length_insert.
  by apply (in_pools _ _ _ _ _ H).
Qed.

(** A step that changes the position of one client, a lock, or the state machine. *)
Lemma local_step s' t (p p' : pc) ph' : ts !! t = Some p -> same_store s s' ->
  states_ok (m_chs s) (meters s') (m_stateCur s') (m_semPolicy s') (m_cCompletions s') ph' (<[t := role_of p']> (role_of <$> ts)) ->
  dirs_state (m_stateCur s') ph' (m_dirptrs0 s) (m_dirptrs1 s) ->
  locks_ok (m_locks s') (<[t := locks_of p']> (locks_of <$> ts)) -> (forall a, is_Some (m_locks s' !! a) <-> is_Some (m_locks s !! a)) ->
  same_pool p p' -> view_ok (m_dirptrs0 s) (m_dirptrs1 s) (m_rgrgBucket s) (cap own) p' -> client_ok (m_chs s) own (m_dirptrs0 s) p' ->
  inv s' (<[t := p']> ts) own rss ph'.
Proof.
  intros Ht [E1 E2 E3 E4 E5 E6 E7] Hst Hds Hlk Hdom Hp Hv Hc.
  assert (Hmem : forall q, q ∈ <[t := p']> ts -> q = p' \/ q ∈ ts) by (intros q Hq; by apply (in_insert _ _ _ _ _ Ht) in Hq).
  split.
  - rewrite E7. apply H.
  - rewrite length_insert. apply H.
  - rewrite E4. apply H.
  - rewrite E1, E4, E5. apply H.
  - intros a. rewrite Hdom, E4. apply (in_heads _ _ _ _ _ H).
  - rewrite E7, list_fmap_insert. done.
  - rewrite list_fmap_insert. done.
  - rewrite E2, E3. split; [apply (in_dirs _ _ _ _ _ H)..|done].
  - rewrite E6. by eapply pools_same.
  - rewrite E2, E3, E4. intros q [->|Hq]%Hmem; [done|]. by apply H.
  - rewrite E2, E7. intros q [->|Hq]%Hmem; [done|]. by apply H.
  - rewrite E2. apply H.
  - apply H.
Qed.

(** Only the position changes, and possibly what the client has read of the state. *)
Lemma position_step t (p p' : pc) : ts !! t = Some p -> role_of p' = role_of p -> locks_of p' = locks_of p -> same_pool p p' ->
  view_ok (m_dirptrs0 s) (m_dirptrs1 s) (m_rgrgBucket s) (cap own) p' -> client_ok (m_chs s) own (m_dirptrs0 s) p' ->
  inv s (<[t := p']> ts) own rss ph.
Proof.
  intros Ht Hr Hl Hp Hv Hc. apply (local_step s t p p' ph Ht); try done.
  - rewrite (roles_same t p p' Ht Hr). apply H.
  - apply (in_dirs _ _ _ _ _ H).
  - rewrite (locks_same t p p' Ht Hl). apply H.
Qed.

Lemma read_step t (p p' : pc) i g e e' : ts !! t = Some p -> role_of p = RIn i g e -> role_of p' = RIn i g e' ->
  e' = None \/ e' = Some (m_stateCur s) \/ e' = e -> locks_of p' = locks_of p -> same_pool p p' ->
  view_ok (m_dirptrs0 s) (m_dirptrs1 s) (m_rgrgBucket s) (cap own) p' -> client_ok (m_chs s) own (m_dirptrs0 s) p' ->
  inv s (<[t := p']> ts) own rss ph.
Proof.
  intros Ht Hr Hr' He Hl Hp Hv Hc. apply (local_step s t p p' ph Ht); try done.
  - rewrite Hr'. eapply states_read; [apply (in_states _ _ _ _ _ H)|rewrite <- Hr; by apply role_at|done].
  - apply (in_dirs _ _ _ _ _ H).
  - rewrite (locks_same t p p' Ht Hl). apply H.
Qed.

(** The client stays inside, or forgets the state. *)
Definition same_role (p p' : pc) : Prop := role_of p' = role_of p \/ exists i g e, role_of p = RIn i g e /\ role_of p' = RIn i g None.

Lemma states_role t (p p' : pc) : ts !! t = Some p -> same_role p p' ->
  states_ok (m_chs s) (meters s) (m_stateCur s) (m_semPolicy s) (m_cCompletions s) ph (<[t := role_of p']> (role_of <$> ts)).
Proof.
  intros Ht [Hr|(i & g & e & Hr & ->)]; [rewrite (roles_same t p p' Ht Hr); apply H|].
  eapply states_read; [apply (in_states _ _ _ _ _ H)|rewrite <- Hr; by apply role_at|by left].
Qed.

(** ** Locks *)

(** The lock at [a] is taken or given back. *)
Lemma lock_step t (p p' : pc) a l : ts !! t = Some p -> same_role p p' -> same_pool p p' -> is_Some (m_locks s !! a) ->
  locks_ok (<[a := l]> (m_locks s)) (<[t := locks_of p']> (locks_of <$> ts)) ->
  view_ok (m_dirptrs0 s) (m_dirptrs1 s) (m_rgrgBucket s) (cap own) p' -> client_ok (m_chs s) own (m_dirptrs0 s) p' ->
  inv (set_locks (<[a := l]> (m_locks s)) s) (<[t := p']> ts) own rss ph.
Proof.
  intros Ht Hr Hp Ha Hlk Hv Hc. apply (local_step _ t p p' ph Ht); try done.
  - by apply (states_role t p).
  - apply (in_dirs _ _ _ _ _ H).
  - intros b. cbn. rewrite lookup_insert_is_Some. destruct (decide (a = b)) as [->|]; naive_solver.
Qed.

(** What a client holds, and the lock of a bucket of the directory. *)
Lemma lock_exists b : 0 <= b < cap own -> exists l, m_locks s !! baddr (m_rgrgBucket s) b = Some l.
Proof. intros Hb. apply (in_heads _ _ _ _ _ H). by exists b. Qed.

(** ** The directories *)

Lemma dir0_ok : dir_ok (cap own) (m_dirptrs0 s).
Proof. apply (in_dirs _ _ _ _ _ H). Qed.

(** A client inside may use the directory of the state it has read, and hashes to the same
    buckets as everybody else. *)
Lemma inside_dir t (p : pc) i g e : ts !! t = Some p -> role_of p = RIn i g (Some e) ->
  dir_ok (cap own) (dsel (m_dirptrs0 s) (m_dirptrs1 s) e) /\ forall h, bucket (dsel (m_dirptrs0 s) (m_dirptrs1 s) e) h = bucket (m_dirptrs0 s) h.
Proof.
  intros Ht Hr. pose proof dir0_ok as Hd. pose proof (ds_state _ _ _ _ _ (in_dirs _ _ _ _ _ H)) as Hs. unfold dirs_state in Hs.
  assert (Hin : RIn i g (Some e) ∈ role_of <$> ts) by (rewrite <- Hr; eapply in_self; by apply role_at).
  pose proof (inside_phase _ _ _ _ _ _ _ (in_states _ _ _ _ _ H) _ _ _ Hin) as Hph.
  set (d0 := m_dirptrs0 s) in *. set (d1 := m_dirptrs1 s) in *.
  assert (Hcase : dsel d0 d1 e = d0 \/ (e = stateSplit \/ e = stateMerge) /\ dsel d0 d1 e = d1) by (destruct e; auto).
  destruct Hcase as [-> |[He ->]]; [done|].
  assert (Hx : d1 = d0 \/ (d0 = Dirptrs (2 * m_cBucketMax d1) 0 /\ m_cBucket d1 = m_cBucketMax d1) \/
    (m_cBucketMax d1 = 2 * m_cBucketMax d0 /\ m_cBucket d1 = 0 /\ m_cBucket d0 = m_cBucketMax d0)).
  { destruct ph as [|es|pred j].
    - destruct Hph as [Hcur ->]. by destruct Hcur as [Hcur|Hcur], He; congruence.
    - destruct Hph as [Hed He']. rewrite <- He' in Hed. destruct He as [-> | ->]; destruct es; try done; cbn in Hs; tauto.
    - destruct Hph as [Hed [He'| ->]]; [rewrite <- He' in Hs; destruct He as [-> | ->]; cbn in Hs; tauto|].
      destruct He as [-> | ->]; destruct (m_stateCur s); try done; cbn in Hs; tauto. }
  clear Hs. destruct Hx as [-> |[[Ed Ec]|(EM & Ec & Ec0)]]; [done| |].
  - destruct Hd as ((k & Hk & Ek) & Hc0 & Hcap). rewrite Ed in Ek, Hcap. cbn in Ek, Hcap. split.
    + split; [|lia]. exists (k - 1). destruct (Z.eq_dec k 0) as [->|]; [cbn in Ek; lia|]. split; [lia|].
      replace k with (1 + (k - 1)) in Ek by lia. rewrite Z.pow_add_r in Ek by lia. lia.
    + intros h. rewrite Ed. unfold bucket. cbn. rewrite Ec. symmetry. apply bidx_double. pose proof (Z.pow_pos_nonneg 2 k). lia.
  - pose proof (dir_max_pos _ _ Hd) as Hpos. destruct Hd as ((k & Hk & Ek) & Hc0 & Hcap). split.
    + split; [|lia]. exists (k + 1). split; [lia|]. rewrite Z.pow_add_r by lia. lia.
    + intros h. unfold bucket. rewrite EM, Ec, Ec0. by apply bidx_double.
Qed.

(** The hash of a client inside. *)
Lemma inside_hash t (p : pc) i g e h : ts !! t = Some p -> role_of p = RIn i g (Some e) ->
  PbucketDIRIHash s e h = Some (baddr (m_rgrgBucket s) (bucket (m_dirptrs0 s) h), bucket (m_dirptrs0 s) h, m_cBucket (dirptrs s e)).
Proof.
  intros Ht Hr. destruct (inside_dir _ _ _ _ _ Ht Hr) as [Hd Hb]. change (dsel (m_dirptrs0 s) (m_dirptrs1 s) e) with (dirptrs s e) in *.
  rewrite (Hash_ok s (cap own) e h (in_arrays _ _ _ _ _ H) Hd), Hb. done.
Qed.

Lemma bucket_in h : 0 <= bucket (m_dirptrs0 s) h < cap own.
Proof. pose proof dir0_ok as Hd. pose proof (bucket_range _ _ h Hd). destruct Hd as (_ & _ & ?). lia. Qed.

End Frame.

(** ** What the hash table promises to its clients

    The table is a finite map.  A client is outside, waits for a key, or has it for
    reading or writing and has got the result of its last operation.  [cstep] says what a
    client may see and do to the map; [good] is what every step of the table must be: no
    fault, and the invariant afterwards with a step of the specification (or none). *)

Inductive aclient (K E : Type) :=
  | AOut
  | AWait (key : K) (fWrite fTry : bool)
  | AHas (key : K) (fWrite : bool) (res : option (ERR * option E)).
Arguments AOut {K E}.
Arguments AWait {K E}.
Arguments AHas {K E}.

Section Spec.
Context {K E : Type} `{KE : CKeyEntry K E} `{L : BucketLayout} `{TP : TableParams} `{CL : !ClientLaws K E} `{Countable K}.

Abbreviation pc := (@pc K E).
Abbreviation table := (CDynamicHashTable E).
Abbreviation op := (@op K E).

(** The map that the chains hold. *)
Definition contents (own : list (segments E)) : gmap K E := list_to_map ((fun e => (key_of e, e)) <$> entries own).

(** How the specification sees a client. *)
Definition abstract (p : pc) : aclient K E :=
  match p with
  | LkState plock key fTry _ | LkHash plock key fTry _ _ | LkLock plock key fTry _ _ _ _ _ | LkCheck plock key fTry _ _ _ _ _
  | LkUndo plock key fTry _ _ | LkHash2 plock key fTry _ _ | LkLock2 plock key fTry _ _ => AWait key (FBKTWrite plock) fTry
  | Held plock key res => AHas key (FBKTWrite plock) res
  | _ => match owner p with Some (plock, key) => AHas key (FBKTWrite plock) None | None => AOut end
  end.

(** The position from which a client makes a call: every step from there is one.  The
    other steps of a client are inside a call. *)
Definition calling (p : pc) : bool := match p with Idle | Held _ _ _ => true | _ => false end.

(** A step of a client: whether it makes the call of [o], the map and the client before
    and after.  A call takes effect on the map, and returns its result, in the step that
    makes it; inside a call the client only gets its key, or fails to. *)
Inductive cstep (o : op) : bool -> gmap K E -> aclient K E -> gmap K E -> aclient K E -> Prop :=
  | CSilent M a : cstep o false M a M a
  | CReadLock M key : op_call o = ReadLockKey key -> cstep o true M AOut M (AWait key false false)
  | CWriteLock M key : op_call o = WriteLockKey key -> cstep o true M AOut M (AWait key true false)
  | CTryWriteLock M key : op_call o = FTryWriteLockKey key -> cstep o true M AOut M (AWait key true true)
  | CAcquire M key w f : cstep o false M (AWait key w f) M (AHas key w None)
  | CFail M key : cstep o false M (AWait key true true) M AOut
  | CRelease M key w r : op_call o = UnlockKey -> cstep o true M (AHas key w r) M AOut
  | CRetrieve M key w r e : op_call o = ErrRetrieveEntry -> M !! key = Some e ->
      cstep o true M (AHas key w r) M (AHas key w (Some (errSuccess, Some e)))
  | CRetrieveNone M key w r : op_call o = ErrRetrieveEntry -> M !! key = None ->
      cstep o true M (AHas key w r) M (AHas key w (Some (errEntryNotFound, None)))
  | CReplace M key r e e0 : op_call o = ErrReplaceEntry e -> key_of e = key -> M !! key = Some e0 ->
      cstep o true M (AHas key true r) (<[key := e]> M) (AHas key true (Some (errSuccess, None)))
  | CReplaceNone M key r e : op_call o = ErrReplaceEntry e -> M !! key = None ->
      cstep o true M (AHas key true r) M (AHas key true (Some (errNoCurrentEntry, None)))
  | CInsert M key r e : op_call o = ErrInsertEntry e -> key_of e = key -> M !! key = None ->
      cstep o true M (AHas key true r) (<[key := e]> M) (AHas key true (Some (errSuccess, None)))
  | CInsertDuplicate M key r e e0 : op_call o = ErrInsertEntry e -> M !! key = Some e0 ->
      cstep o true M (AHas key true r) M (AHas key true (Some (errKeyDuplicate, None)))
  | CInsertNoMemory M key r e : op_call o = ErrInsertEntry e -> M !! key = None -> op_mem o = None ->
      cstep o true M (AHas key true r) M (AHas key true (Some (errOutOfMemory, None)))
  | CDelete M key r e : op_call o = ErrDeleteEntry -> M !! key = Some e ->
      cstep o true M (AHas key true r) (delete key M) (AHas key true (Some (errSuccess, None)))
  | CDeleteNone M key r : op_call o = ErrDeleteEntry -> M !! key = None ->
      cstep o true M (AHas key true r) M (AHas key true (Some (errNoCurrentEntry, None))).

(** ** The steps of the table *)

Definition good (ts : list pc) (t : nat) (o : op) (own : list (segments E)) (p : pc) (r : outcome table pc) : Prop :=
  match r with
  | Blocked => True
  | Fault => False
  | Next s' p' => exists own' rss' ph', inv s' (<[t := p']> ts) own' rss' ph' /\
      cstep o (calling p) (contents own) (abstract p) (contents own') (abstract p')
  end.

Lemma good_silent ts t o own p s' p' rss' ph' : inv s' (<[t := p']> ts) own rss' ph' -> abstract p' = abstract p ->
  calling p = false -> good ts t o own p (Next s' p').
Proof. intros Hi Ha Hc. exists own, rss', ph'. split; [done|]. rewrite Ha, Hc. constructor. Qed.

Lemma waiting_inside (p : pc) key w f : abstract p = AWait key w f -> calling p = false.
Proof. by destruct p. Qed.

(** ** Clients *)

Lemma client_next chs own d0 (p p' : pc) : client_ok chs own d0 p -> (forall i, ihs_of p' = Some i -> ihs_of p = Some i) ->
  (forall plock, plock_of p' = Some plock -> exists plock0, plock_of p = Some plock0 /\ m_ls plock = m_ls plock0) ->
  (forall plock key, stands p' = Some (plock, key) -> stands p = Some (plock, key)) -> client_ok chs own d0 p'.
Proof.
  intros [H1 H2 H3] E1 E2 E3. split.
  - intros i Hi. by apply H1, E1.
  - intros plock Hp. destruct (E2 _ Hp) as (plock0 & Hp0 & ->). by apply H2.
  - intros plock key Hs. by apply H3, E3.
Qed.

Lemma client_none chs own d0 (p : pc) : plock_of p = None -> ihs_of p = None -> stands p = None -> client_ok chs own d0 p.
Proof. intros H1 H2 H3. split; intros *; rewrite ?H1, ?H2, ?H3; done. Qed.

Lemma write_or_read plock : m_ls plock = lsRead \/ m_ls plock = lsWrite -> FBKTWrite plock = negb (FBKTRead plock).
Proof. unfold FBKTWrite, FBKTRead. by intros [-> | ->]. Qed.

End Spec.
