(* ===== verification/HashLockSteps.v ===== *)
(** * HashLockSteps: locking a key

    The steps of [ReadLockKey], [WriteLockKey] and [FTryWriteLockKey], and of leaving the
    metered section.  The client hashes its key without a lock; when it gets the lock of
    the bucket, the check tells whether the bucket is still the one of the key, and the
    second attempt cannot fail. *)

From stdpp Require Import gmap.
From S2P Require Import Prelude HashBucket HashBucketProofs HashBucketOps Threads HashTable HashStates HashDir HashViews HashMemory HashInv.

Section Steps.
Context {K E : Type} `{KE : CKeyEntry K E} `{L : BucketLayout} `{TP : TableParams} `{LO : !LayoutOk} `{CL : !ClientLaws K E} `{Countable K}.

Abbreviation pc := (@pc K E).
Abbreviation table := (CDynamicHashTable E).

Context (s : table) (ts : list pc) (own : list (segments E)) (rss : list (list Z)) (ph : phase) (I : inv s ts own rss ph).
Context (t : nat) (o : @op K E).

Abbreviation d0 := (m_dirptrs0 s).
Abbreviation d1 := (m_dirptrs1 s).
Abbreviation rg := (m_rgrgBucket s).

Lemma self_in (p : pc) : ts !! t = Some p -> p ∈ ts.
Proof. apply in_self. Qed.

Lemma client_at_t (p : pc) : ts !! t = Some p -> client_ok (m_chs s) own d0 p.
Proof. intros Ht. by apply (in_clients _ _ _ _ _ I), self_in. Qed.

Lemma view_at_t (p : pc) : ts !! t = Some p -> view_ok d0 d1 rg (cap own) p.
Proof. intros Ht. by apply (in_views _ _ _ _ _ I), self_in. Qed.

(** ** The lock of a bucket *)

Lemma acquire_inv (p p' : pc) b (w : bool) l : ts !! t = Some p -> locks_of p' = (baddr rg b, w) :: locks_of p -> 0 <= b < cap own ->
  m_locks s !! baddr rg b = Some l -> (if w then lock_free l = true else fWriter l = false) ->
  same_role p p' -> same_pool p p' -> view_ok d0 d1 rg (cap own) p' -> client_ok (m_chs s) own d0 p' ->
  inv (set_locks (<[baddr rg b := if w then Rwl 0 true else Rwl (cReaders l + 1) false]> (m_locks s)) s) (<[t := p']> ts) own rss ph.
Proof.
  intros Ht Hlk Hb Hl Hf Hr Hp Hv Hc. apply (lock_step _ _ _ _ _ I t p p'); try done.
  eapply locks_acquire; [apply (in_locks _ _ _ _ _ I)|by apply locks_at|done|by rewrite Hlk|done].
Qed.

Lemma release_inv (p p' : pc) a (w : bool) : ts !! t = Some p -> locks_of p ≡ₚ (a, w) :: locks_of p' ->
  same_role p p' -> same_pool p p' -> view_ok d0 d1 rg (cap own) p' -> client_ok (m_chs s) own d0 p' ->
  exists l, m_locks s !! a = Some l /\ (if w then fWriter l = true else 0 < cReaders l /\ fWriter l = false) /\
    inv (set_locks (<[a := if w then Rwl (cReaders l) false else Rwl (cReaders l - 1) (fWriter l)]> (m_locks s)) s) (<[t := p']> ts) own rss ph.
Proof.
  intros Ht Hlk Hr Hp Hv Hc. pose proof (locks_at ts t p Ht) as Hat.
  destruct (held_lock _ _ (in_locks _ _ _ _ _ I) t _ a w Hat) as (l & Hl & Hw); [rewrite Hlk; left|].
  exists l. split_and!; [done..|]. apply (lock_step _ _ _ _ _ I t p p'); try done.
  eapply locks_release; [apply (in_locks _ _ _ _ _ I)|done|done|done].
Qed.

(** [EnterAsReader], [EnterAsWriter] or [FTryEnterAsWriter] *)
Lemma enter_step (p pt pf : pc) plock fTry b : ts !! t = Some p -> locks_of p = [] -> locks_of pt = [lhold plock] ->
  role_of pt = role_of p -> same_pool p pt -> m_pBucketHead plock = baddr rg b -> 0 <= b < cap own ->
  view_ok d0 d1 rg (cap own) pt -> client_ok (m_chs s) own d0 pt -> cstep o (calling p) (contents own) (abstract p) (contents own) (abstract pt) ->
  (FBKTRead plock = false -> fTry = true -> good ts t o own p (Next s pf)) -> good ts t o own p (enter_bucket s plock fTry pt pf).
Proof.
  intros Ht Hl0 Hl1 Hr Hp Hh Hb Hv Hc Hs Hf. destruct (lock_exists _ _ _ _ _ I b Hb) as [l Hl].
  assert (Hacq : forall w : bool, FBKTRead plock = negb w -> (if w then lock_free l = true else fWriter l = false) ->
    good ts t o own p (Next (set_locks (<[m_pBucketHead plock := if w then Rwl 0 true else Rwl (cReaders l + 1) false]> (m_locks s)) s) pt)).
  { intros w Hw Hfr. exists own, rss, ph. split; [|done]. rewrite Hh. apply (acquire_inv p pt b w l); try done; [|by left].
    rewrite Hl0, Hl1. unfold lhold. by rewrite Hh, Hw, negb_involutive. }
  unfold enter_bucket, EnterAsReader, FTryEnterAsWriter, EnterAsWriter. rewrite Hh, Hl. cbn [try]. rewrite <- Hh.
  destruct (FBKTRead plock) eqn:Erd.
  - destruct (fWriter l) eqn:Ew; [done|]. by apply (Hacq false).
  - destruct (lock_free l) eqn:Efr; destruct fTry; try done; first [by apply (Hacq true)|by apply Hf].
Qed.

Lemma leave_step (p p' : pc) plock : ts !! t = Some p -> locks_of p = [lhold plock] -> locks_of p' = [] -> role_of p' = role_of p ->
  same_pool p p' -> view_ok d0 d1 rg (cap own) p' -> client_ok (m_chs s) own d0 p' ->
  cstep o (calling p) (contents own) (abstract p) (contents own) (abstract p') -> good ts t o own p (leave_bucket s plock p').
Proof.
  intros Ht Hl0 Hl1 Hr Hp Hv Hc Hs. unfold leave_bucket, LeaveAsReader, LeaveAsWriter.
  destruct (release_inv p p' (m_pBucketHead plock) (negb (FBKTRead plock))) as (l & Hl & Hw & Hi); try done; [by rewrite Hl0, Hl1|by left|].
  rewrite Hl. cbn [try]. destruct (FBKTRead plock); cbn [negb] in *.
  - destruct Hw as [Hw _]. rewrite (proj2 (Z.ltb_lt _ _) Hw). by exists own, rss, ph.
  - rewrite Hw. by exists own, rss, ph.
Qed.

(** ** Metered sections *)

Lemma st_enter (p : pc) cpu (p' : nat -> bool -> pc) : ts !! t = Some p -> role_of p = ROut -> locks_of p = [] ->
  (forall i g, role_of (p' i g) = RIn i g None /\ locks_of (p' i g) = [] /\ same_pool p (p' i g) /\
     view_ok d0 d1 rg (cap own) (p' i g) /\ ((i < m_chs s)%nat -> client_ok (m_chs s) own d0 (p' i g)) /\
     cstep o (calling p) (contents own) (abstract p) (contents own) (abstract (p' i g))) ->
  good ts t o own p (UiSTEnter s cpu p').
Proof.
  intros Ht Hr Hl Hp'. unfold UiSTEnter. destruct (m_rghs s !! cpu) as [hs|] eqn:Hhs; [|done]. set (m := m_cms hs).
  destruct (Hp' cpu (curGroup m)) as (E1 & E2 & E3 & E4 & E5 & E6). exists own, rss, ph. split; [|done].
  apply (local_step _ _ _ _ _ I _ t p _ ph Ht).
  - by apply same_store_cms.
  - rewrite (meters_cms _ _ _ _ Hhs), E1. eapply states_enter; [apply (in_states _ _ _ _ _ I)|rewrite <- Hr; by apply role_at|].
    unfold meters. by rewrite list_lookup_fmap, Hhs.
  - apply (in_dirs _ _ _ _ _ I).
  - rewrite (locks_same ts t p _ Ht) by (by rewrite E2). apply (in_locks _ _ _ _ _ I).
  - done.
  - done.
  - done.
  - apply E5. unfold m_chs. by eapply lookup_lt_Some.
Qed.

Lemma kont_facts (ihs : nat) (g : bool) (k : @kont K) :
  role_of (kont_pc (E := E) k) = ROut /\ locks_of (kont_pc (E := E) k) = locks_of (Leave (E := E) ihs g k) /\
  stands (kont_pc (E := E) k) = stands (Leave (E := E) ihs g k) /\ plock_of (kont_pc (E := E) k) = plock_of (Leave (E := E) ihs g k) /\
  ihs_of (kont_pc (E := E) k) = ihs_of (Leave (E := E) ihs g k) /\ abstract (kont_pc (E := E) k) = abstract (Leave (E := E) ihs g k).
Proof. by destruct k. Qed.

Lemma view_kont (ihs : nat) (g : bool) (k : @kont K) d rg' n : view_ok d d1 rg' n (Leave (E := E) ihs g k) -> view_ok d d1 rg' n (kont_pc (E := E) k).
Proof. by destruct k. Qed.

Lemma pool_kont (p : pc) (k : @kont K) : (forall i, at_inc i p = 0 /\ reserved i p = 0 /\ at_alloc i p = 0) -> same_pool p (kont_pc k).
Proof. intros Hp i. destruct (Hp i) as (-> & -> & ->). by destruct k. Qed.

Lemma st_leave ihs g k : ts !! t = Some (Leave ihs g k) -> good ts t o own (Leave ihs g k) (STLeave s ihs g k).
Proof.
  intros Ht. pose proof (view_at_t _ Ht) as Hv. pose proof (client_at_t _ Ht) as Hc. pose proof (role_at ts t _ Ht) as Hr.
  destruct (meter_of _ _ _ _ _ _ _ (in_states _ _ _ _ _ I) ihs g None) as [m Hm]; [by eapply in_self|].
  destruct (meter_lookup _ _ _ Hm) as (hs & Hhs & Ehs). unfold STLeave. rewrite Hhs. cbn [try]. rewrite Ehs.
  pose proof (inside_counts _ _ _ _ _ _ _ (in_states _ _ _ _ _ I) t ihs g None m Hr Hm) as Hin.
  destruct (kont_facts ihs g k) as (K1 & K2 & K3 & K4 & K5 & K6).
  assert (Hstep : forall m' p', role_of p' = ROut \/ p' = Comp [] k -> (p' = kont_pc k \/ p' = Comp [] k) ->
    states_ok (m_chs s) (<[ihs := m']> (meters s)) (m_stateCur s) (m_semPolicy s) (m_cCompletions s) ph (<[t := role_of p']> (role_of <$> ts)) ->
    good ts t o own (Leave ihs g k) (Next (upd_hs s ihs (set_cms m' hs)) p')).
  { intros m' p' _ Hp' Hst. assert (Ha : abstract p' = abstract (Leave ihs g k)) by (destruct Hp' as [-> | ->]; done).
    apply (good_silent _ _ _ _ _ _ _ rss ph); [|done|done]. apply (local_step _ _ _ _ _ I _ t (Leave ihs g k) p' ph Ht).
    - by apply same_store_cms.
    - by rewrite (meters_cms _ _ _ _ Hhs).
    - apply (in_dirs _ _ _ _ _ I).
    - rewrite (locks_same ts t _ p' Ht); [apply (in_locks _ _ _ _ _ I)|]. by destruct Hp' as [-> | ->].
    - done.
    - destruct Hp' as [-> | ->]; [by apply pool_kont|done].
    - destruct Hp' as [-> | ->]; [by eapply view_kont|by destruct k].
    - eapply client_next; [exact Hc|..]; destruct Hp' as [-> | ->]; rewrite ?K3, ?K4, ?K5; eauto. }
  destruct (eqb g (curGroup m)) eqn:Eg.
  - rewrite (proj2 (Z.ltb_lt _ _) Hin). apply Hstep; [by left|by left|]. rewrite K1.
    pose proof (states_leave _ _ _ _ _ _ _ (in_states _ _ _ _ _ I) t ihs g None m Hr Hm ltac:(by left)) as Hst. by rewrite Eg in Hst.
  - rewrite (proj2 (Z.ltb_lt _ _) Hin). destruct (Z.eqb_spec (cQuiescing m) 1) as [E1|E1].
    + apply Hstep; [by right|by right|]. by eapply states_leave_last; [apply (in_states _ _ _ _ _ I)|..].
    + apply Hstep; [by left|by left|]. rewrite K1.
      pose proof (states_leave _ _ _ _ _ _ _ (in_states _ _ _ _ _ I) t ihs g None m Hr Hm ltac:(by right)) as Hst. by rewrite Eg in Hst.
Qed.

(** ** The steps of locking *)

Lemma begin_step key ls fTry : ts !! t = Some Idle -> ls = lsRead \/ ls = lsWrite ->
  cstep o true (contents own) AOut (contents own) (AWait key (bool_decide (ls = lsWrite)) fTry) ->
  good ts t o own Idle (begin_lock s (op_cpu o) key ls fTry).
Proof.
  intros Ht Hls Hs. unfold begin_lock. apply st_enter; [done..|]. intros i g. split_and!; [done|done|done|done| |done]. intros Hi. split; cbn; [by intros ? [= <-]|by intros ? [= <-]|done].
Qed.

(** The client goes on to another position of the same call. *)
Lemma wait_step (p p' : pc) i g e e' : ts !! t = Some p -> role_of p = RIn i g e -> role_of p' = RIn i g e' ->
  e' = Some (m_stateCur s) \/ e' = e -> locks_of p' = locks_of p -> same_pool p p' ->
  view_ok d0 d1 rg (cap own) p' -> client_ok (m_chs s) own d0 p' -> cstep o (calling p) (contents own) (abstract p) (contents own) (abstract p') ->
  good ts t o own p (Next s p').
Proof.
  intros Ht Hr Hr' He Hl Hp Hv Hc Hs. exists own, rss, ph. split; [|done].
  apply (read_step _ _ _ _ _ I t p p' i g e e'); try done. by right.
Qed.

Lemma state_step plock key fTry g : ts !! t = Some (LkState plock key fTry g) ->
  good ts t o own (LkState plock key fTry g) (Next s (LkHash plock key fTry g (m_stateCur s))).
Proof.
  intros Ht. pose proof (view_at_t _ Ht) as Hv. pose proof (client_at_t _ Ht) as Hc.
  eapply wait_step; [done..|by left|done|done|done| |constructor]. eapply client_next; [exact Hc|..]; cbn; eauto.
Qed.

(** The bounds of the directory fit into a word. *)
Lemma dir_word d : dir_ok (cap own) d -> m_cBucketMax d + m_cBucket d < 2 ^ 64.
Proof. intros (_ & _ & Hd). pose proof (cap_bounds _ _ (in_arrays _ _ _ _ _ I)). lia. Qed.

Lemma hash_step plock key fTry g es : ts !! t = Some (LkHash plock key fTry g es) ->
  good ts t o own (LkHash plock key fTry g es) (lk_hash s plock key fTry g es).
Proof.
  intros Ht. pose proof (view_at_t _ Ht) as Hv. cbn in Hv. pose proof (client_at_t _ Ht) as Hc. unfold lk_hash. rewrite Hv. cbn [Z.eqb DHTAssert try].
  rewrite (inside_hash _ _ _ _ _ I t _ _ _ es _ Ht eq_refl). cbn [try].
  destruct (inside_dir _ _ _ _ _ I t _ _ _ es Ht eq_refl) as [Hd Hb]. change (dirptrs s es) with (dsel d0 d1 es).
  unfold NcDIRIGetBucketMax. change (dirptrs s es) with (dsel d0 d1 es).
  eapply wait_step; [done..|by right|done|done| | |constructor].
  - cbn [view_ok]. split; [|done]. rewrite <- (Hb (Hash_key key)). destruct Hd as (_ & Hc0 & Hcap). unfold waits. split_and!; try done; lia.
  - eapply client_next; [exact Hc|..]; cbn; eauto. intros ? [= <-]. by eexists.
Qed.

Lemma fail_step (p : pc) plock key g es : ts !! t = Some p -> role_of p = RIn (m_phs plock) g (Some es) -> locks_of p = [] ->
  (forall i, at_inc i p = 0 /\ reserved i p = 0 /\ at_alloc i p = 0) -> abstract p = AWait key true true ->
  good ts t o own p (Next s (Leave (m_phs plock) g KFail)).
Proof.
  intros Ht Hr Hl Hp Ha. exists own, rss, ph. split; [|rewrite (waiting_inside p _ _ _ Ha), Ha; constructor].
  apply (read_step _ _ _ _ _ I t p _ (m_phs plock) g (Some es) None); try done; try (by left).
  intros i. by destruct (Hp i) as (-> & -> & ->).
Qed.

Lemma waits_range d es h mB iB cB n : 0 < m_cBucketMax d -> waits d n es h mB iB cB -> 0 <= iB < n.
Proof. intros HM (-> & Hc & Hn & -> & _). pose proof (bidx_range _ _ h HM Hc). lia. Qed.

Lemma lock_bucket_step plock key fTry g es mB iB cB : ts !! t = Some (LkLock plock key fTry g es mB iB cB) ->
  good ts t o own (LkLock plock key fTry g es mB iB cB)
    (enter_bucket s plock fTry (LkCheck plock key fTry g es mB iB cB) (Leave (m_phs plock) g KFail)).
Proof.
  intros Ht. pose proof (view_at_t _ Ht) as Hv. pose proof (client_at_t _ Ht) as Hc. destruct (inside_dir _ _ _ _ _ I t _ _ _ es Ht eq_refl) as [Hd _].
  pose proof Hv as [Hw Hh]. apply (enter_step _ _ _ _ _ iB); try done.
  - eapply waits_range; [by eapply dir_max_pos|done].
  - eapply client_next; [exact Hc|..]; cbn; eauto.
  - constructor.
  - intros Hrd ->. apply (fail_step _ _ key _ es); try done. cbn. f_equal. rewrite write_or_read, Hrd; [done|]. by apply (cl_ls _ _ _ _ Hc).
Qed.

(** With the lock, the bucket is the one of the key, or it has been split or merged. *)
Lemma check_step plock key fTry g es mB iB cB : ts !! t = Some (LkCheck plock key fTry g es mB iB cB) ->
  good ts t o own (LkCheck plock key fTry g es mB iB cB) (lk_check s plock key fTry g es mB iB cB).
Proof.
  intros Ht. pose proof (view_at_t _ Ht) as Hv. pose proof (client_at_t _ Ht) as Hc. destruct (inside_dir _ _ _ _ _ I t _ _ _ es Ht eq_refl) as [Hd Hb].
  destruct Hv as [Hw Hh]. pose proof (dir_max_pos _ _ Hd) as HM. pose proof (dir_word _ Hd) as Hword. pose proof (waits_range _ _ _ _ _ _ _ HM Hw) as Hr.
  pose proof (cap_bounds _ _ (in_arrays _ _ _ _ _ I)) as Hcb.
  unfold lk_check, NcDIRIGetBucket, NcDIRIGetBucketMax. change (dirptrs s es) with (dsel d0 d1 es).
  destruct Hw as (EM & HcB & Hn & Ei & Hu & Hdn & Hne). destruct Hd as (_ & Hc0 & Hcap). rewrite (proj2 (Z.eqb_eq _ _) (eq_sym EM)). cbn [DHTAssert try].
  destruct (moved cB (m_cBucket (dsel d0 d1 es)) (m_cBucketMax (dsel d0 d1 es)) iB) eqn:Emv.
  - assert (Hud : (up es = true /\ dsel d0 d1 es = d0) \/ (down es = true /\ dsel d0 d1 es = d0)).
    { destruct (up es) eqn:Eu; [left; split; [done|by apply dsel_up]|]. destruct (down es) eqn:Ed; [right; split; [done|by apply dsel_down]|].
      rewrite (Hne eq_refl eq_refl), moved_same in Emv. done. }
    eapply wait_step; [done..|by right|done|done| | |constructor].
    + cbn [view_ok]. split.
      * rewrite Ei, EM in Emv. destruct Hud as [[Eu Ed]|[Ed E0]]; [left|right]; (split; [done|]).
        -- rewrite Ed in *. eapply moved_true_up; [..|exact Emv]; [done|lia|lia|specialize (Hu Eu); lia|lia].
        -- rewrite E0 in *. eapply moved_true_down; [..|exact Emv]; [done|lia|lia|specialize (Hdn Ed); lia|lia].
      * exists iB. split; [done|]. split; [done|]. intros Eu. unfold total_buckets. rewrite <- (dsel_up d0 d1 es Eu). specialize (Hu Eu).
        rewrite Ei, EM. pose proof (bidx_range (m_cBucketMax (dsel d0 d1 es)) cB (Hash_key key) HM ltac:(lia)). lia.
    + eapply client_next; [exact Hc|..]; cbn; eauto.
  - eapply wait_step; [done..|by right|done|done| | |constructor].
    + cbn [view_ok owner]. rewrite Hh, <- Hb. f_equal. unfold bucket. rewrite Ei, EM in Emv |- *. symmetry.
      apply (moved_false _ _ _ _ HM); [lia..|done].
    + eapply client_next; [exact Hc|..]; cbn; by eauto.
Qed.

Lemma undo_step plock key fTry g es : ts !! t = Some (LkUndo plock key fTry g es) ->
  good ts t o own (LkUndo plock key fTry g es) (leave_bucket s plock (LkHash2 plock key fTry g es)).
Proof.
  intros Ht. pose proof (view_at_t _ Ht) as [Hp _]. pose proof (client_at_t _ Ht) as Hc. apply leave_step; try done.
  - eapply client_next; [exact Hc|..]; cbn; eauto.
  - constructor.
Qed.

Lemma hash2_step plock key fTry g es : ts !! t = Some (LkHash2 plock key fTry g es) ->
  good ts t o own (LkHash2 plock key fTry g es) (lk_hash2 s plock key fTry g es).
Proof.
  intros Ht. pose proof (view_at_t _ Ht) as Hp. pose proof (client_at_t _ Ht) as Hc. unfold lk_hash2.
  rewrite (inside_hash _ _ _ _ _ I t _ _ _ es _ Ht eq_refl). cbn [try]. eapply wait_step; [done..|by right|done|done|done| |constructor].
  eapply client_next; [exact Hc|..]; cbn; eauto. intros ? [= <-]. by eexists.
Qed.

Lemma lock2_step plock key fTry g es : ts !! t = Some (LkLock2 plock key fTry g es) ->
  good ts t o own (LkLock2 plock key fTry g es) (enter_bucket s plock fTry (LkSeek plock key fTry g es) (Leave (m_phs plock) g KFail)).
Proof.
  intros Ht. pose proof (view_at_t _ Ht) as [Hp Hh]. pose proof (client_at_t _ Ht) as Hc.
  apply (enter_step _ _ _ _ _ (bucket d0 (Hash_key key))); try done.
  - by apply (bucket_in _ _ _ _ _ I).
  - eapply client_next; [exact Hc|..]; cbn; by eauto.
  - constructor.
  - intros Hrd ->. apply (fail_step _ _ key _ es); try done. cbn. f_equal. rewrite write_or_read, Hrd; [done|]. by apply (cl_ls _ _ _ _ Hc).
Qed.

(** The chain of a bucket. *)
Lemma chain_of b : 0 <= b < cap own -> exists es ss, own !! Z.to_nat b = Some ((baddr rg b, es) :: ss) /\
  chain (m_heap s) None ((baddr rg b, es) :: ss) /\ NoDup (baddr rg b :: ss.*1).
Proof.
  intros Hb. pose proof (in_memory _ _ _ _ _ I) as Hm. destruct (head_of _ _ _ _ _ Hm (Z.to_nat b)) as (es & ss & Hs); [unfold cap in Hb; lia|].
  rewrite Z2Nat.id in Hs by lia. exists es, ss. split; [done|].
  destruct (mo_chain _ _ _ _ _ Hm _ _ Hs) as (es' & ss' & _ & Hch). split; [done|]. by apply (chain_nodup _ _ _ _ _ Hm _ _ Hs).
Qed.

Lemma found_sought ss key q a plock : found ss key q a -> exists cur, on_entry ss (set_currency q 0 a 0 plock) cur /\ sought ss key cur.
Proof.
  intros [(e & Ha & Hk)|(-> & Hq & Hk)].
  - exists (Some e). split; [done|]. split; [by eapply at_entry_flat|]. by apply matches_key.
  - exists None. split; [done|]. intros e He Hke. specialize (Hk e He). apply matches_key in Hke. congruence.
Qed.

Lemma seek_step plock key fTry g es : ts !! t = Some (LkSeek plock key fTry g es) ->
  good ts t o own (LkSeek plock key fTry g es) (lk_seek s plock key g es).
Proof.
  intros Ht. pose proof (view_at_t _ Ht) as Hh. cbn in Hh. pose proof (client_at_t _ Ht) as Hc. unfold lk_seek.
  rewrite (inside_hash _ _ _ _ _ I t _ _ _ es _ Ht eq_refl). cbn [try]. rewrite Hh, Z.eqb_refl. cbn [DHTAssert try].
  destruct (chain_of _ (bucket_in _ _ _ _ _ I (Hash_key key))) as (es' & ss & Hs & Hch & Hnd).
  destruct (BKTSeek_ok (m_heap s) _ es' ss plock key (mo_heap _ _ _ _ _ (in_memory _ _ _ _ _ I)) Hch Hnd Hh) as (q & a & -> & Hf); [by apply (cl_ls _ _ _ _ Hc)|].
  cbn [try]. apply (good_silent _ _ _ _ _ _ _ rss ph); [|done|done].
  eapply (read_step _ _ _ _ _ I t _ _ (m_phs plock) g (Some es) None); try done; [by left|].
  destruct Hc as [H1 H2 _]. destruct (found_sought _ _ _ _ plock Hf) as (cur & Ho & Hso). split; cbn.
  - intros i [= <-]. by apply H1.
  - intros ? [= <-]. by apply (H2 plock).
  - intros ? ? [= <- <-]. eauto.
Qed.

End Steps.

(** ** Operations with a lock

    [ErrRetrieveEntry], [ErrReplaceEntry], [ErrInsertEntry] and [ErrDeleteEntry] of a
    client that has its key: what the bucket operations do to one chain is what the map
    does at that key, and no other client notices. *)

(** ** Contents *)

Section Contents.
Context {K E : Type} `{KE : CKeyEntry K E} `{CL : !ClientLaws K E} `{Countable K}.

Definition to_map (l : list E) : gmap K E := list_to_map ((fun e => (key_of e, e)) <$> l).

Lemma keys_of_pairs (l : list E) : ((fun e => (key_of e, e)) <$> l).*1 = key_of <$> l.
Proof. by rewrite <- list_fmap_compose. Qed.

Lemma contents_perm own l : distinct own -> entries own ≡ₚ l -> contents own = to_map l.
Proof. intros Hd Hp. apply list_to_map_proper; [by rewrite keys_of_pairs|by rewrite Hp]. Qed.

Lemma distinct_perm own l : entries own ≡ₚ l -> distinct own <-> NoDup (key_of <$> l).
Proof. intros Hp. unfold distinct. by rewrite Hp. Qed.

Lemma to_map_none (l : list E) k : k ∉ key_of <$> l -> to_map l !! k = None.
Proof. intros Hk. apply not_elem_of_list_to_map_1. by rewrite keys_of_pairs. Qed.

Lemma contents_some own e : distinct own -> e ∈ entries own -> contents own !! key_of e = Some e.
Proof.
  intros Hd He. apply elem_of_list_to_map_1; [by rewrite keys_of_pairs|]. apply list_elem_of_fmap. by exists e.
Qed.

Lemma contents_none own k : (forall e, e ∈ entries own -> key_of e <> k) -> contents own !! k = None.
Proof. intros Hk. apply to_map_none. intros (e & -> & He)%list_elem_of_fmap. by apply (Hk e). Qed.

(** An entry is put, replaced or removed. *)
Lemma distinct_insert own own' e : entries own' ≡ₚ e :: entries own -> distinct own -> contents own !! key_of e = None ->
  distinct own' /\ contents own' = <[key_of e := e]> (contents own).
Proof.
  intros Hp Hd Hn. assert (Hd' : distinct own').
  { apply (distinct_perm _ _ Hp). cbn. apply list.NoDup_cons. split; [|done]. intros (e' & Ek & He')%list_elem_of_fmap.
    apply (contents_some _ _ Hd) in He'. congruence. }
  split; [done|]. by rewrite (contents_perm own' _ Hd' Hp).
Qed.

Lemma distinct_delete own own' e : entries own ≡ₚ e :: entries own' -> distinct own ->
  distinct own' /\ contents own' = delete (key_of e) (contents own).
Proof.
  intros Hp Hd. pose proof (proj1 (distinct_perm _ _ Hp) Hd) as Hn. cbn in Hn. apply list.NoDup_cons in Hn as [Hn Hd'].
  split; [done|]. rewrite (contents_perm own _ Hd Hp). unfold to_map. cbn. rewrite delete_insert_id; [done|]. by apply to_map_none.
Qed.

Lemma distinct_replace own own' e0 e l0 : entries own ≡ₚ e0 :: l0 -> entries own' ≡ₚ e :: l0 -> key_of e = key_of e0 -> distinct own ->
  distinct own' /\ contents own' = <[key_of e := e]> (contents own).
Proof.
  intros Hp Hp' Hk Hd. assert (Hd' : distinct own') by (apply (distinct_perm _ _ Hp'); cbn; rewrite Hk; by apply (distinct_perm _ _ Hp)).
  split; [done|]. rewrite (contents_perm own _ Hd Hp), (contents_perm own' _ Hd' Hp'). unfold to_map. cbn. by rewrite Hk, insert_insert_eq.
Qed.

(** The entries when one chain changes. *)
Lemma entries_update (own : list (segments E)) (b : nat) ss ss' : own !! b = Some ss -> exists l, entries own ≡ₚ flat ss ++ l /\ entries (<[b := ss']> own) ≡ₚ flat ss' ++ l.
Proof.
  intros Hb. assert (Hb' : (flat <$> own) !! b = Some (flat ss)) by (by rewrite list_lookup_fmap, Hb).
  destruct (concat_update _ b _ (flat ss') Hb') as [P1 P2]. eexists. split; [exact P1|]. unfold entries. by rewrite list_fmap_insert.
Qed.

Lemma in_entries (own : list (segments E)) e : e ∈ entries own <-> exists (b : nat) ss, own !! b = Some ss /\ e ∈ flat ss.
Proof.
  unfold entries. split.
  - intros (b & l & Hb & He)%in_concat_inv. rewrite list_lookup_fmap in Hb. destruct (own !! b) as [ss|] eqn:Hs; [|done].
    cbn in Hb. injection Hb as <-. by exists b, ss.
  - intros (b & ss & Hb & He). eapply in_concat; [|exact He]. by rewrite list_lookup_fmap, Hb.
Qed.

(** What the client has found in the bucket is what the map has. *)
Lemma contents_sought own d ss key cur : placed own d -> distinct own -> own !! Z.to_nat (bucket d (Hash_key key)) = Some ss ->
  sought ss key cur -> contents own !! key = cur.
Proof.
  intros Hp Hd Hs Hso. destruct cur as [e|].
  - destruct Hso as [He <-]. apply contents_some; [done|]. apply in_entries. eauto.
  - apply contents_none. intros e (b & ss' & Hb & He)%in_entries Hk. apply (Hso e); [|done].
    pose proof (Hp b ss' e Hb He) as Hpl. rewrite hash_entry_key, Hk in Hpl. rewrite Hpl, Nat2Z.id in Hs. congruence.
Qed.

End Contents.

(** ** The steps *)

Section Held.
Context {K E : Type} `{KE : CKeyEntry K E} `{L : BucketLayout} `{TP : TableParams} `{LO : !LayoutOk} `{CL : !ClientLaws K E} `{Countable K}.
Context (junk : Z -> BUCKET E) (Hjunk : junk_ok junk).

Abbreviation pc := (@pc K E).
Abbreviation table := (CDynamicHashTable E).

(** Only memory and counters change. *)
Record same_control (s s' : table) : Prop := {
  sc_locks : m_locks s' = m_locks s;
  sc_dir0 : m_dirptrs0 s' = m_dirptrs0 s;
  sc_dir1 : m_dirptrs1 s' = m_dirptrs1 s;
  sc_arrays : m_rgrgBucket s' = m_rgrgBucket s;
  sc_state : m_stateCur s' = m_stateCur s;
  sc_sem : m_semPolicy s' = m_semPolicy s;
  sc_compl : m_cCompletions s' = m_cCompletions s;
  sc_meters : meters s' = meters s;
  sc_reserves : reserves s' = reserves s;
  sc_counts : counts s' = counts s;
  sc_chs : m_chs s' = m_chs s }.

Lemma control_heap s h : same_control s (set_heap h s).
Proof. done. Qed.

Lemma control_stat s h i hs d : m_rghs s !! i = Some hs -> same_control s (upd_hs (set_heap h s) i (STATEntry hs d)).
Proof.
  intros Hi. split; try done.
  - by apply (fmap_upd_same m_cms (set_heap h s) i hs).
  - by apply (fmap_upd_same (fun hs => m_pReserve (m_bucketpool hs)) (set_heap h s) i hs).
  - by apply (fmap_upd_same (fun hs => m_cReserve (m_bucketpool hs)) (set_heap h s) i hs).
  - apply (chs_upd (set_heap h s)).
Qed.

Context (s : table) (ts : list pc) (own : list (segments E)) (rss : list (list Z)) (ph : phase) (I : inv s ts own rss ph).
Context (t : nat) (o : @op K E).

Abbreviation d0 := (m_dirptrs0 s).
Abbreviation d1 := (m_dirptrs1 s).
Abbreviation rg := (m_rgrgBucket s).

Lemma owner_locks (p : pc) plock key : owner p = Some (plock, key) -> locks_of p = [lhold plock].
Proof. destruct p; cbn; try done; try (destruct k; cbn); intros ?; by simplify_eq. Qed.

Lemma stands_owner (p : pc) plock key : stands p = Some (plock, key) -> owner p = Some (plock, key).
Proof. by destruct p. Qed.

Lemma owner_head (p : pc) plock key : p ∈ ts -> owner p = Some (plock, key) -> m_pBucketHead plock = baddr rg (bucket d0 (Hash_key key)).
Proof.
  intros Hp Ho. pose proof (in_views _ _ _ _ _ I p Hp) as Hv. destruct p; cbn in *; try done; try (destruct k; cbn in *; try done); by simplify_eq.
Qed.

(** The bucket of a client is not one that another has locked for writing. *)
Lemma owner_apart (p q : pc) t' b plock key : ts !! t = Some p -> (baddr rg b, true) ∈ locks_of p -> ts !! t' = Some q -> t' <> t ->
  owner q = Some (plock, key) -> bucket d0 (Hash_key key) <> b.
Proof.
  intros Ht Hp Ht' Hne Hq Hb. apply (writer_alone _ _ (in_locks _ _ _ _ _ I) t t' (locks_of p) (locks_of q) (baddr rg b) (negb (FBKTRead plock)));
    [done|by apply locks_at|by apply locks_at|done|].
  rewrite (owner_locks _ _ _ Hq). unfold lhold. rewrite (owner_head q plock key) by (done || by eapply in_self). rewrite Hb. left.
Qed.

(** ** One chain changes *)

Lemma chain_step s' plock plock' key r r' ss0 ss' cur' : ts !! t = Some (Held plock key r) -> m_ls plock = lsWrite -> same_control s s' ->
  let b := Z.to_nat (bucket d0 (Hash_key key)) in
  own !! b = Some ss0 -> memory_ok (m_heap s') rg (<[b := ss']> own) (reserves s) rss ->
  m_phs plock' = m_phs plock -> m_pBucketHead plock' = m_pBucketHead plock -> m_ls plock' = m_ls plock ->
  on_entry ss' plock' cur' -> sought ss' key cur' -> (forall e, e ∈ flat ss' -> e ∈ flat ss0 \/ key_of e = key) -> distinct (<[b := ss']> own) ->
  inv s' (<[t := Held plock' key r']> ts) (<[b := ss']> own) rss ph.
Proof.
  intros Ht Hls [E1 E2 E3 E4 E5 E6 E7 E8 E9 E10 E11] b Hb Hmem Hphs Hhd Hls' Hon Hso Hsub Hdis. pose proof (view_at_t _ _ _ _ _ I t _ Ht) as Hv. cbn in Hv.
  pose proof (client_at_t _ _ _ _ _ I t _ Ht) as Hc. pose proof (bucket_in _ _ _ _ _ I (Hash_key key)) as Hr.
  assert (Hcap : cap (<[b := ss']> own) = cap own) by (unfold cap; by rewrite length_insert).
  assert (Hlk : locks_of (Held plock' key r') = locks_of (Held plock key r)).
  { cbn. unfold lhold, FBKTRead. by rewrite Hhd, Hls'. }
  assert (Hmine : (baddr rg (bucket d0 (Hash_key key)), true) ∈ locks_of (Held plock key r)).
  { cbn. unfold lhold, FBKTRead. rewrite Hls, Hv. left. }
  split; rewrite ?Hcap, ?E1, ?E2, ?E3, ?E4, ?E5, ?E6, ?E7, ?E8, ?E9, ?E10, ?E11, ?length_insert, ?list_fmap_insert; try apply I; try done.
  - rewrite (roles_same ts t _ _ Ht) by done. apply I.
  - rewrite (locks_same ts t _ _ Ht) by done. apply I.
  - by eapply (pools_same _ _ _ _ _ I).
  - intros q [->|Hq]%(in_insert _ _ _ _ _ Ht); [by cbn; rewrite Hhd|by apply I].
  - intros q [->|(t' & Hne & Ht')]%(in_insert_other _ _ _ _ _ Ht).
    + destruct Hc as [H1 H2 _]. split; cbn.
      * intros i [= <-]. rewrite Hphs. by apply H1.
      * intros ? [= <-]. rewrite Hls'. by apply H2.
      * intros ? ? [= <- <-]. exists ss', cur'. fold b. rewrite list_lookup_insert_eq by (by eapply lookup_lt_Some). done.
    + destruct (in_clients _ _ _ _ _ I q ltac:(by eapply in_self)) as [H1 H2 H3]. split; [done..|]. intros pl k Hst.
      destruct (H3 pl k Hst) as (ss & cur & Hs & ?). exists ss, cur. split; [|done].
      pose proof (owner_apart _ q t' _ pl k Ht Hmine Ht' Hne (stands_owner _ _ _ Hst)) as Hap.
      pose proof (bucket_in _ _ _ _ _ I (Hash_key k)). rewrite list_lookup_insert_ne; [done|]. unfold b. lia.
  - intros i ss e Hi He. destruct (decide (i = b)) as [->|Hne].
    + rewrite list_lookup_insert_eq in Hi by (by eapply lookup_lt_Some). injection Hi as <-. destruct (Hsub e He) as [He'|Hk].
      * by apply (in_placed _ _ _ _ _ I b ss0).
      * rewrite hash_entry_key, Hk. unfold b. lia.
    + rewrite list_lookup_insert_ne in Hi by done. by apply (in_placed _ _ _ _ _ I i ss).
Qed.

(** ** The operations *)

(** What the client stands on, and its bucket. *)
Lemma held_at plock key r : ts !! t = Some (Held plock key r) ->
  let a := baddr rg (bucket d0 (Hash_key key)) in
  exists es ss cur, own !! Z.to_nat (bucket d0 (Hash_key key)) = Some ((a, es) :: ss) /\ chain (m_heap s) None ((a, es) :: ss) /\ NoDup (a :: ss.*1) /\
    m_pBucketHead plock = a /\ (m_ls plock = lsRead \/ m_ls plock = lsWrite) /\ on_entry ((a, es) :: ss) plock cur /\
    sought ((a, es) :: ss) key cur /\ contents own !! key = cur.
Proof.
  intros Ht a. pose proof (view_at_t _ _ _ _ _ I t _ Ht) as Hv. cbn in Hv. pose proof (client_at_t _ _ _ _ _ I t _ Ht) as [_ H2 H3].
  destruct (chain_of _ _ _ _ _ I _ (bucket_in _ _ _ _ _ I (Hash_key key))) as (es & ss & Hs & Hch & Hnd).
  destruct (H3 plock key eq_refl) as (ss0 & cur & Hs0 & Hon & Hso). rewrite Hs in Hs0. injection Hs0 as <-. exists es, ss, cur. split_and!; try done.
  - by apply (H2 plock).
  - eapply contents_sought; [apply I|apply I|exact Hs|done].
Qed.

(** Nothing changes but the result. *)
Lemma held_result plock key r r' : ts !! t = Some (Held plock key r) ->
  cstep o true (contents own) (abstract (Held plock key r)) (contents own) (abstract (Held plock key r')) ->
  good ts t o own (Held plock key r) (Next s (Held plock key r')).
Proof.
  intros Ht Hs. exists own, rss, ph. split; [|done]. pose proof (view_at_t _ _ _ _ _ I t _ Ht) as Hv. pose proof (client_at_t _ _ _ _ _ I t _ Ht) as Hc.
  apply (position_step _ _ _ _ _ I t (Held plock key r)); try done. eapply client_next; [exact Hc|..]; cbn; by eauto.
Qed.

Lemma set_heap_same : set_heap (m_heap s) s = s.
Proof. by destruct s. Qed.

Lemma write_lock plock : FBKTWrite plock = true -> m_ls plock = lsWrite.
Proof. unfold FBKTWrite. by rewrite bool_decide_eq_true. Qed.

Lemma retrieve_step plock key r : ts !! t = Some (Held plock key r) -> op_call o = ErrRetrieveEntry ->
  good ts t o own (Held plock key r) (try (ErrBKTGetEntry (m_heap s) plock) (fun '(err, oe) => Next s (Held plock key (Some (err, oe))))).
Proof.
  intros Ht Ho. destruct (held_at _ _ _ Ht) as (es & ss & cur & Hs & Hch & Hnd & Hhd & Hls & Hon & Hso & Hcur).
  rewrite (ErrBKTGetEntry_ok _ _ _ _ plock cur (mo_heap _ _ _ _ _ (in_memory _ _ _ _ _ I)) Hch Hhd) by (try done; by destruct Hls as [-> | ->]).
  destruct cur as [e|]; cbn [try]; apply held_result; try done; by constructor.
Qed.

Lemma abstract_write plock (key : K) (r : option (ERR * option E)) : FBKTWrite plock = true -> abstract (Held plock key r) = AHas key true r.
Proof. intros Hw. cbn. by rewrite Hw. Qed.

Lemma replace_step plock key r entry : ts !! t = Some (Held plock key r) -> op_call o = ErrReplaceEntry entry ->
  FBKTWrite plock = true -> key_of entry = key ->
  good ts t o own (Held plock key r)
    (try (ErrBKTReplaceEntry (m_heap s) plock entry) (fun '(err, h) => Next (set_heap h s) (Held plock key (Some (err, None))))).
Proof.
  intros Ht Ho Hw Hk. pose proof (write_lock _ Hw) as Hls. destruct (held_at _ _ _ Ht) as (es & ss & cur & Hs & Hch & Hnd & Hhd & _ & Hon & Hso & Hcur).
  pose proof (ErrBKTReplaceEntry_ok (m_heap s) _ es ss plock cur entry (mo_heap _ _ _ _ _ (in_memory _ _ _ _ _ I)) Hch Hnd Hhd (or_introl Hls) Hon) as Hr.
  destruct cur as [e0|].
  - destruct Hr as (h' & es' & ss' & l1 & l2 & -> & Hok & Hch' & Eptr & Hon' & E1 & E2 & Htch). cbn [try]. destruct Hso as [_ Hk0].
    set (b := Z.to_nat (bucket d0 (Hash_key key))) in *. set (own' := <[b := (baddr rg (bucket d0 (Hash_key key)), es') :: ss']> own).
    destruct (entries_update own b _ ((baddr rg (bucket d0 (Hash_key key)), es') :: ss') Hs) as (l & P1 & P2). rewrite E1 in P1. rewrite E2 in P2.
    destruct (distinct_replace own own' e0 entry (l1 ++ l2 ++ l)) as [Hd Hc]; [| |congruence|apply I|].
    { rewrite P1, <- app_assoc. cbn. by rewrite <- Permutation_middle. }
    { unfold own'. rewrite P2, <- app_assoc. cbn. by rewrite <- Permutation_middle. }
    exists own', rss, ph. split.
    + eapply (chain_step _ plock plock); try done; [|split; [rewrite E2; set_solver|done]|].
      * eapply (update_chain _ _ _ _ _ (in_memory _ _ _ _ _ I)); [exact Hs|done|done|by rewrite Eptr|by rewrite Eptr; auto|done].
      * intros e. rewrite E1, E2. set_solver.
    + rewrite Hc, !abstract_write, Hk by done. by eapply CReplace.
  - rewrite Hr. cbn [try]. rewrite set_heap_same. apply held_result; [done|]. rewrite !abstract_write by done. by eapply CReplaceNone.
Qed.

Lemma hold_insert_step plock key r entry : ts !! t = Some (Held plock key r) -> op_call o = ErrInsertEntry entry ->
  FBKTWrite plock = true -> key_of entry = key -> (forall q, op_mem o = Some q -> fresh (m_heap s) q 1) ->
  good ts t o own (Held plock key r)
    (try (ErrBKTInsertEntry junk (m_heap s) plock entry (op_mem o)) (fun '(err, h, plock) =>
        if bool_decide (err = errSuccess) then
          try (m_rghs s !! m_phs plock) (fun hs =>
          Next (upd_hs (set_heap h s) (m_phs plock) (STATEntry hs 1)) (Held (set_fInsertOrDelete true plock) key (Some (err, None))))
        else Next (set_heap h s) (Held plock key (Some (err, None))))).
Proof.
  intros Ht Ho Hw Hk Hm. pose proof (write_lock _ Hw) as Hls. destruct (held_at _ _ _ Ht) as (es & ss & cur & Hs & Hch & Hnd & Hhd & _ & Hon & Hso & Hcur).
  pose proof (ErrBKTInsertEntry_ok junk Hjunk (m_heap s) _ es ss plock cur entry (op_mem o) (mo_heap _ _ _ _ _ (in_memory _ _ _ _ _ I)) Hch Hnd Hhd Hls Hon Hm) as Hr.
  destruct cur as [e0|].
  { rewrite Hr. cbn [try]. rewrite bool_decide_false by done. rewrite set_heap_same. apply held_result; [done|]. rewrite !abstract_write by done.
    by eapply CInsertDuplicate. }
  destruct Hr as [[Hnm ->]|(h' & es' & ss' & q & a & -> & Hok & Hch' & Hat & Ef & Eptr & Htch)]; cbn [try].
  { rewrite bool_decide_false by done. rewrite set_heap_same. apply held_result; [done|]. rewrite !abstract_write by done. by eapply CInsertNoMemory. }
  rewrite bool_decide_true by done. set (plock' := set_currency _ _ _ _ plock).
  destruct (lookup_lt_is_Some_2 (m_rghs s) (m_phs plock)) as [hs Hhs].
  { pose proof (client_at_t _ _ _ _ _ I t _ Ht) as [H1 _ _]. by apply H1. }
  change (m_phs plock') with (m_phs plock). rewrite Hhs. cbn [try].
  set (b := Z.to_nat (bucket d0 (Hash_key key))) in *. set (own' := <[b := (baddr rg (bucket d0 (Hash_key key)), es') :: ss']> own).
  destruct (entries_update own b _ ((baddr rg (bucket d0 (Hash_key key)), es') :: ss') Hs) as (l & P1 & P2). rewrite Ef in P2.
  destruct (distinct_insert own own' entry) as [Hd Hc]; [|apply I|congruence|].
  { unfold own'. rewrite P2, P1, <- app_assoc. cbn. by rewrite <- Permutation_middle. }
  exists own', rss, ph. split.
  - eapply (chain_step _ plock); try done; [by apply control_stat| | | |].
    + eapply (update_chain _ _ _ _ _ (in_memory _ _ _ _ _ I)); [exact Hs|done|done| | |done].
      * destruct Eptr as [-> |(x & Hx & ->)]; [done|]. rewrite app_comm_cons. apply list.NoDup_app. split_and!; [done| |apply list.NoDup_singleton].
        intros z Hz ->%list_elem_of_singleton. destruct (fresh_1 _ x (Hm x Hx)) as (_ & Hn & _). destruct (chain_dom _ _ _ x Hch Hz). congruence.
      * intros z. destruct Eptr as [-> |(x & Hx & ->)]; [by left|]. intros [?| ->%list_elem_of_singleton]%elem_of_app; [by left|right].
        by destruct (fresh_1 _ x (Hm x Hx)) as (_ & ? & _).
    + instantiate (1 := Some entry). exact Hat.
    + split; [rewrite Ef; set_solver|done].
    + intros e. rewrite Ef. intros [?| ->%list_elem_of_singleton]%elem_of_app; by auto.
  - rewrite Hc, !abstract_write, Hk by done. by eapply CInsert.
Qed.

Lemma delete_step plock key r : ts !! t = Some (Held plock key r) -> op_call o = ErrDeleteEntry -> FBKTWrite plock = true ->
  good ts t o own (Held plock key r)
    (try (ErrBKTDeleteEntry (m_heap s) plock) (fun '(err, h, plock) =>
        if bool_decide (err = errSuccess) then
          try (m_rghs s !! m_phs plock) (fun hs =>
          Next (upd_hs (set_heap h s) (m_phs plock) (STATEntry hs (-1))) (Held (set_fInsertOrDelete true plock) key (Some (err, None))))
        else Next (set_heap h s) (Held plock key (Some (err, None))))).
Proof.
  intros Ht Ho Hw. pose proof (write_lock _ Hw) as Hls. destruct (held_at _ _ _ Ht) as (es & ss & cur & Hs & Hch & Hnd & Hhd & _ & Hon & Hso & Hcur).
  pose proof (ErrBKTDeleteEntry_ok junk Hjunk (m_heap s) _ _ plock cur (mo_heap _ _ _ _ _ (in_memory _ _ _ _ _ I)) Hch Hnd ltac:(done) eq_refl Hhd (or_introl Hls) Hon) as Hr.
  destruct cur as [e|].
  2:{ rewrite Hr. cbn [try]. rewrite bool_decide_false by done. rewrite set_heap_same. apply held_result; [done|]. rewrite !abstract_write by done. by eapply CDeleteNone. }
  destruct Hr as (h' & ss1 & q & -> & Hok & Hch' & Hq & Hhd' & Ef & Eptr & _ & Htch). cbn [try]. rewrite bool_decide_true by done.
  destruct ss1 as [|[a' es'] ss']; [set_solver|]. cbn in Hhd'. subst a'. set (plock' := set_currency _ _ _ _ plock).
  destruct (lookup_lt_is_Some_2 (m_rghs s) (m_phs plock)) as [hs Hhs].
  { pose proof (client_at_t _ _ _ _ _ I t _ Ht) as [H1 _ _]. by apply H1. }
  change (m_phs plock') with (m_phs plock). rewrite Hhs. cbn [try]. destruct Hso as [_ Hke].
  set (a := baddr rg (bucket d0 (Hash_key key))) in *. set (b := Z.to_nat (bucket d0 (Hash_key key))) in *. set (own' := <[b := (a, es') :: ss']> own).
  destruct (entries_update own b _ ((a, es') :: ss') Hs) as (l & P1 & P2). rewrite Ef in P1.
  destruct (distinct_delete own own' e) as [Hd Hc]; [unfold own'; by rewrite P1, P2|apply I|].
  assert (Hsub : ((a, es') :: ss').*1 = ((a, es) :: ss).*1 \/ exists z, ((a, es) :: ss).*1 = ((a, es') :: ss').*1 ++ [z]) by done.
  exists own', rss, ph. split.
  - eapply (chain_step _ plock); try done; [by apply control_stat| | | |].
    + eapply (update_chain _ _ _ _ _ (in_memory _ _ _ _ _ I)); [exact Hs|done|done| | |done].
      * destruct Hsub as [Hx|[z Hx]]; [cbn in Hx; by injection Hx as ->|]. change (NoDup ((a, es) :: ss).*1) in Hnd. rewrite Hx in Hnd. by apply list.NoDup_app in Hnd as (? & _).
      * intros z Hz. left. destruct Hsub as [Hx|[y Hx]]; cbn in Hx; injection Hx as Hx; rewrite ?Hx; [by rewrite <- Hx|]. by apply elem_of_app; left.
    + instantiate (1 := None). split; [done|]. exact Hq.
    + intros e' He' Hk'. pose proof (proj1 (distinct_perm _ _ P1) (in_distinct _ _ _ _ _ I)) as Hn. cbn in Hn. apply list.NoDup_cons in Hn as [Hn _].
      apply Hn. apply list_elem_of_fmap. exists e'. split; [congruence|]. apply elem_of_app. by left.
    + intros e' He'. left. rewrite Ef. by right.
  - rewrite Hc, !abstract_write, Hke by done. by eapply CDelete.
Qed.

Lemma unlock_step plock key r : ts !! t = Some (Held plock key r) -> op_call o = UnlockKey -> good ts t o own (Held plock key r) (unlock s plock).
Proof.
  intros Ht Ho. pose proof (client_at_t _ _ _ _ _ I t _ Ht) as Hc. unfold unlock. apply (leave_step _ _ _ _ _ I _ _ (Held plock key r)); try done;
    destruct (m_fInsertOrDelete plock); try done.
  - split; cbn; [|done|done]. intros i [= <-]. by apply (cl_ihs _ _ _ _ Hc).
  - by apply CRelease.
  - by apply CRelease.
Qed.

Lemma held_step plock key r : ts !! t = Some (Held plock key r) -> mem_ok s (op_mem o) 1 = true ->
  good ts t o own (Held plock key r) (held_call junk s plock key (op_call o) (op_mem o)).
Proof.
  intros Ht Hm. assert (Hmem : forall q, op_mem o = Some q -> fresh (m_heap s) q 1).
  { intros q Hq. unfold mem_ok in Hm. rewrite Hq in Hm. by apply bool_decide_eq_true in Hm. }
  destruct (op_call o) as [| | | | |entry|entry|] eqn:Ho; cbn [held_call]; try done.
  - by apply unlock_step.
  - by apply retrieve_step.
  - destruct (FBKTWrite plock) eqn:Hw; [|done]. destruct (FEntryMatchesKey entry key) eqn:Hk; [|done]. apply matches_key in Hk. by apply replace_step.
  - destruct (FBKTWrite plock) eqn:Hw; [|done]. destruct (FEntryMatchesKey entry key) eqn:Hk; [|done]. apply matches_key in Hk. by apply hold_insert_step.
  - destruct (FBKTWrite plock) eqn:Hw; [|done]. by apply delete_step.
Qed.

End Held.
