(* ===== verification/HashMoveSteps.v ===== *)
(** * HashMoveSteps: state transitions

    The steps of [STTransition] and [STCompletion].  The completion functions change the
    directory while every client inside has read the state they belong to: the directory
    is copied, doubled, or halved, and the array of the upper half released. *)

From stdpp Require Import gmap.
From S2P Require Import Prelude HashBucket HashBucketProofs HashBucketOps Threads HashTable HashStates HashDir HashViews HashMemory HashInv HashLockSteps.

Section Move.
Context {K E : Type} `{KE : CKeyEntry K E} `{L : BucketLayout} `{TP : TableParams} `{LO : !LayoutOk} `{CL : !ClientLaws K E} `{Countable K}.
Context (junk : Z -> BUCKET E) (Hjunk : junk_ok junk).

Abbreviation pc := (@pc K E).
Abbreviation table := (CDynamicHashTable E).

(** ** The position to return to *)

Definition carries (k : kont) (p : pc) : Prop :=
  match p with
  | Leave _ _ k' | Trans _ _ k' | Part _ _ k' | Comp _ k' | Finish _ k' => k' = k
  | _ => p = kont_pc k
  end.

Lemma carries_facts k (p : pc) : carries k p ->
  let q := Leave 0%nat false k in
  locks_of p = locks_of q /\ stands p = stands q /\ plock_of p = plock_of q /\ ihs_of p = ihs_of q /\ abstract p = abstract q /\
  owner p = owner q /\ (forall i, at_inc i p = 0 /\ reserved i p = 0 /\ at_alloc i p = 0) /\
  (forall d0 d1 rg n, view_ok d0 d1 rg n p <-> view_ok d0 d1 rg n q).
Proof.
  intros Hp. destruct p; cbn [carries] in Hp; try (subst; by destruct k); destruct k; cbn [kont_pc] in Hp; try discriminate Hp;
    try (injection Hp as -> -> ->); by repeat split.
Qed.

Lemma resume_last chs st (k : @kont K) : Forall (fun i => S i = chs) st -> resume (E := E) chs st k = kont_pc k.
Proof.
  induction 1 as [|i st Hi _ IH]; [done|]. cbn [resume]. by rewrite (proj2 (Nat.ltb_ge _ _)) by lia.
Qed.

Lemma resume_carries chs st (k : @kont K) : carries k (resume chs st k).
Proof. induction st as [|i st IH]; cbn [resume]; [by destruct k|]. by destruct (S i <? chs)%nat. Qed.

Lemma resume_role chs st (k : @kont K) : frames_ok chs (RComp st) -> role_of (resume (E := E) chs st k) = role_return chs st.
Proof.
  intros Hf. destruct st as [|i st]; cbn [resume role_return]; [by destruct k|]. destruct Hf as [_ Hf]. destruct (Nat.ltb_spec (S i) chs).
  - by rewrite decide_True.
  - rewrite decide_False by lia. rewrite (resume_last _ _ _ Hf). by destruct k.
Qed.

Context (s : table) (ts : list pc) (own : list (segments E)) (rss : list (list Z)) (ph : phase) (I : inv s ts own rss ph).
Context (t : nat) (o : @op K E).

Abbreviation d0 := (m_dirptrs0 s).
Abbreviation d1 := (m_dirptrs1 s).
Abbreviation rg := (m_rgrgBucket s).

Lemma client_carries k (p p' : pc) chs own' d : carries k p -> carries k p' -> client_ok chs own' d p -> client_ok chs own' d p'.
Proof.
  intros (_ & A2 & A3 & A4 & _)%carries_facts (_ & B2 & B3 & B4 & _)%carries_facts Hc. eapply client_next; [exact Hc|..].
  - by rewrite A4, B4.
  - rewrite A3, B3. eauto.
  - by rewrite A2, B2.
Qed.

Lemma pool_carries k (p p' : pc) : carries k p -> carries k p' -> same_pool p p'.
Proof. intros (_ & _ & _ & _ & _ & _ & A & _)%carries_facts (_ & _ & _ & _ & _ & _ & B & _)%carries_facts i. destruct (A i) as (-> & -> & ->). apply B. Qed.

Lemma view_carries k (p p' : pc) d d' rg' n : carries k p -> carries k p' -> view_ok d d' rg' n p -> view_ok d d' rg' n p'.
Proof. intros (_ & _ & _ & _ & _ & _ & _ & A)%carries_facts (_ & _ & _ & _ & _ & _ & _ & B)%carries_facts Hv. by apply B, A. Qed.

Lemma locks_carries k (p p' : pc) : carries k p -> carries k p' -> locks_of p' = locks_of p.
Proof. intros (A & _)%carries_facts (B & _)%carries_facts. by rewrite A, B. Qed.

Lemma abstract_carries k (p p' : pc) : carries k p -> carries k p' -> abstract p' = abstract p.
Proof. intros (_ & _ & _ & _ & A & _)%carries_facts (_ & _ & _ & _ & B & _)%carries_facts. by rewrite A, B. Qed.

(** A step that drives a transition and leaves the directory alone. *)
Lemma drive_step s' (p p' : pc) k ph' : ts !! t = Some p -> calling p = false -> carries k p -> carries k p' -> same_store s s' -> m_locks s' = m_locks s ->
  states_ok (m_chs s) (meters s') (m_stateCur s') (m_semPolicy s') (m_cCompletions s') ph' (<[t := role_of p']> (role_of <$> ts)) ->
  dirs_state (m_stateCur s') ph' d0 d1 -> good ts t o own p (Next s' p').
Proof.
  intros Ht Hin Hk Hk' Hs Hl Hst Hds. apply (good_silent _ _ _ _ _ _ _ rss ph'); [|by eapply abstract_carries|done].
  apply (local_step _ _ _ _ _ I s' t p p' ph' Ht); try done.
  - rewrite (locks_same ts t p p' Ht) by (by eapply locks_carries). rewrite Hl. apply I.
  - by rewrite Hl.
  - by eapply pool_carries.
  - eapply view_carries; [exact Hk|done|]. by apply (view_at_t _ _ _ _ _ I t).
  - eapply client_carries; [exact Hk|done|]. by apply (client_at_t _ _ _ _ _ I t).
Qed.

(** ** Transitions *)

Lemma trans_step es st k : ts !! t = Some (Trans es st k) -> good ts t o own (Trans es st k) (STTransition s es st k).
Proof.
  intros Ht. pose proof (role_at ts t _ Ht) as Hr. cbn in Hr. pose proof (in_chs _ _ _ _ _ I) as [Hchs _]. unfold STTransition.
  rewrite (proj2 (Nat.ltb_lt _ _) Hchs). destruct (trans_moving _ _ _ _ _ _ _ (in_states _ _ _ _ _ I) t es st Hr) as (Hph & _).
  pose proof (ds_state _ _ _ _ _ (in_dirs _ _ _ _ _ I)) as Hds. rewrite Hph in Hds.
  eapply (drive_step _ _ _ k (Busy (m_stateCur s) 0)); try done.
  by apply (states_begin _ _ _ _ _ _ _ (in_states _ _ _ _ _ I)).
Qed.

Lemma part_step i st k : ts !! t = Some (Part i st k) -> good ts t o own (Part i st k) (Partition s i st k).
Proof.
  intros Ht. pose proof (role_at ts t _ Ht) as Hr. cbn in Hr. destruct (part_busy _ _ _ _ _ _ _ (in_states _ _ _ _ _ I) t i st Hr) as (m & Hm & Hq).
  destruct (meter_lookup _ _ _ Hm) as (hs & Hhs & Ehs). unfold Partition. rewrite Hhs. cbn [try]. rewrite Ehs, Hq. cbn [Z.eqb].
  destruct (states_part _ _ _ _ _ _ _ (in_states _ _ _ _ _ I) t i st m Hr Hm) as (pred & Hph & Hst).
  pose proof (so_frames _ _ _ _ _ _ _ (in_states _ _ _ _ _ I) _ (in_self _ _ _ Hr)) as Hfr. cbn in Hfr.
  pose proof (ds_state _ _ _ _ _ (in_dirs _ _ _ _ _ I)) as Hds. rewrite Hph in Hds.
  eapply (drive_step _ _ _ k (Busy pred (S i))); try done.
  - destruct (cActive m =? 0); [done|apply (resume_carries _ (i :: st))].
  - by apply same_store_cms.
  - rewrite (meters_cms _ _ _ _ Hhs). replace (role_of _) with (if decide (cActive m = 0) then RComp (i :: st) else role_return (m_chs s) (i :: st)); [done|].
    destruct (Z.eqb_spec (cActive m) 0) as [E0|E0]; [by rewrite decide_True|]. rewrite decide_False by done. symmetry. by apply (resume_role (m_chs s) (i :: st)).
Qed.

Lemma comp_step st k : ts !! t = Some (Comp st k) -> good ts t o own (Comp st k) (STCompletion s st k).
Proof.
  intros Ht. pose proof (role_at ts t _ Ht) as Hr. cbn in Hr. destruct (states_comp _ _ _ _ _ _ _ (in_states _ _ _ _ _ I) t st Hr) as (pred & j & Hph & H0 & H1 & Hst).
  pose proof (in_chs _ _ _ _ _ I) as [_ Hchs]. pose proof (so_frames _ _ _ _ _ _ _ (in_states _ _ _ _ _ I) _ (in_self _ _ _ Hr)) as Hfr.
  unfold STCompletion. assert (Es : s32 (m_cCompletions s + 1) = m_cCompletions s + 1) by (apply wraps_small; [lia|unfold in_s; lia]).
  rewrite Es. assert (Eu : u64 (m_cCompletions s + 1) = m_cCompletions s + 1) by (apply Z.mod_small; lia). rewrite Eu.
  eapply (drive_step _ _ _ k ph); try done.
  - destruct (Z.of_nat (m_chs s) <=? m_cCompletions s + 1); [done|apply resume_carries].
  - cbn [meters set_cCompletions m_rghs m_stateCur m_semPolicy m_cCompletions].
    replace (role_of _) with (if decide (m_cCompletions s + 1 = Z.of_nat (m_chs s)) then RFinish st else role_return (m_chs s) st); [done|].
    destruct (Z.leb_spec (Z.of_nat (m_chs s)) (m_cCompletions s + 1)); [by rewrite decide_True by lia|]. rewrite decide_False by lia.
    symmetry. by apply resume_role.
  - cbn. apply (in_dirs _ _ _ _ _ I).
Qed.

(** ** Completions *)

(** A step that changes the directory, but not the bucket of any hash value. *)
Lemma dir_step s' own' (p p' : pc) k ph' : ts !! t = Some p -> calling p = false -> carries k p -> carries k p' ->
  m_rghs s' = m_rghs s -> m_stateCur s' = m_stateCur s -> arrays_ok (m_rgrgBucket s') (cap own') ->
  memory_ok (m_heap s') (m_rgrgBucket s') own' (reserves s) rss -> heads_ok (m_locks s') (m_rgrgBucket s') (cap own') ->
  locks_ok (m_locks s') (locks_of <$> ts) ->
  states_ok (m_chs s) (meters s) (m_stateCur s) (m_semPolicy s') (m_cCompletions s') ph' (<[t := role_of p']> (role_of <$> ts)) ->
  dirs_ok (m_stateCur s) ph' (cap own') (m_dirptrs0 s') (m_dirptrs1 s') ->
  (forall q, q ∈ ts -> view_ok (m_dirptrs0 s') (m_dirptrs1 s') (m_rgrgBucket s') (cap own') q) ->
  (forall h, bucket (m_dirptrs0 s') h = bucket d0 h) -> (forall h, own' !! Z.to_nat (bucket d0 h) = own !! Z.to_nat (bucket d0 h)) ->
  placed own' d0 -> entries own' = entries own -> good ts t o own p (Next s' p').
Proof.
  intros Ht Hin Hk Hk' E1 E2 Har Hmem Hhd Hlk Hst Hds Hvs Hb Hown Hpl Hen.
  assert (Hr : reserves s' = reserves s /\ counts s' = counts s /\ meters s' = meters s /\ m_chs s' = m_chs s).
  { unfold reserves, counts, meters, m_chs. by rewrite E1. }
  destruct Hr as (R1 & R2 & R3 & R4). exists own', rss, ph'. split.
  - split; rewrite ?E2, ?R1, ?R2, ?R3, ?R4, ?length_insert, ?list_fmap_insert; try apply I; try done.
    + rewrite (locks_same ts t p p' Ht) by (by eapply locks_carries). done.
    + eapply (pools_same _ _ _ _ _ I); [done|by eapply pool_carries].
    + intros q [->|Hq]%(in_insert _ _ _ _ _ Ht); [|by apply Hvs]. eapply view_carries; [exact Hk|done|]. apply Hvs. by eapply in_self.
    + assert (Hcl : forall q, q ∈ ts -> client_ok (m_chs s) own' (m_dirptrs0 s') q).
      { intros q Hq. destruct (in_clients _ _ _ _ _ I q Hq) as [H1 H2 H3]. split; [done..|]. intros pl key Hs. rewrite Hb, Hown. by apply H3. }
      intros q [->|Hq]%(in_insert _ _ _ _ _ Ht); [|by apply Hcl]. eapply client_carries; [exact Hk|done|]. apply Hcl. by eapply in_self.
    + intros b ss e Hs He. rewrite Hb. by eapply Hpl.
    + unfold distinct. rewrite Hen. apply I.
  - unfold contents. rewrite Hen, (abstract_carries k p p' Hk Hk'), Hin. constructor.
Qed.

(** What a client inside has read when the completion function runs. *)
Lemma finish_inside st k (q : pc) i g e : ts !! t = Some (Finish st k) -> q ∈ ts -> role_of q = RIn i g (Some e) -> e = m_stateCur s.
Proof.
  intros Ht Hq Hr. destruct (finish_busy _ _ _ _ _ _ _ (in_states _ _ _ _ _ I) t st (role_at ts t _ Ht)) as (pred & _ & _ & _ & _ & _ & _ & _ & Hin).
  apply (Hin i g). apply list_elem_of_fmap. by exists q.
Qed.

Lemma finish_entered st k : ts !! t = Some (Finish st k) -> entered (m_stateCur s) d0 d1.
Proof.
  intros Ht. destruct (finish_busy _ _ _ _ _ _ _ (in_states _ _ _ _ _ I) t st (role_at ts t _ Ht)) as (pred & Hph & _).
  pose proof (ds_state _ _ _ _ _ (in_dirs _ _ _ _ _ I)) as Hds. by rewrite Hph in Hds.
Qed.

(** The next transition. *)
Lemma finish_next st k es : ts !! t = Some (Finish st k) -> edge (m_stateCur s) es = true -> entered es d0 d1 ->
  good ts t o own (Finish st k) (Next s (Trans es st k)).
Proof.
  intros Ht He Hen. eapply (drive_step _ _ _ k (Moving es)); try done.
  by apply (states_finish_next _ _ _ _ _ _ _ (in_states _ _ _ _ _ I) t st es (role_at ts t _ Ht)).
Qed.

Lemma finish_quiet st k : ts !! t = Some (Finish st k) -> m_stateCur s = stateGrow \/ m_stateCur s = stateShrink ->
  good ts t o own (Finish st k) (Next (set_semPolicy (m_semPolicy s + 1) s) (resume (m_chs s) st k)).
Proof.
  intros Ht Hc. pose proof (so_frames _ _ _ _ _ _ _ (in_states _ _ _ _ _ I) _ (in_self _ _ _ (role_at ts t _ Ht))) as Hfr. cbn in Hfr.
  rewrite (resume_last _ _ _ Hfr). eapply (drive_step _ _ _ k Quiet); try done.
  - by destruct k.
  - replace (role_of _) with ROut by (by destruct k). by apply (states_finish_quiet _ _ _ _ _ _ _ (in_states _ _ _ _ _ I) t st (role_at ts t _ Ht)).
  - cbn. unfold dirs_state. by destruct Hc as [-> | ->].
Qed.

Lemma finish_copy st k es : ts !! t = Some (Finish st k) -> edge (m_stateCur s) es = true -> entered es d0 d0 ->
  Z.shiftr (es_value (m_stateCur s)) 4 = 0 -> good ts t o own (Finish st k) (Next (set_dirptrs d0 d0 s) (Trans es st k)).
Proof.
  intros Ht He Hen Hsh. eapply (dir_step _ own _ _ k (Moving es)); try done; try apply I.
  - by apply (states_finish_next _ _ _ _ _ _ _ (in_states _ _ _ _ _ I) t st es (role_at ts t _ Ht)).
  - split; [apply (in_dirs _ _ _ _ _ I)..|done].
  - intros q Hq. eapply view_copy; [|by apply I]. intros i g e Hr. by rewrite (finish_inside st k q i g e Ht Hq Hr).
Qed.

(** The directory is doubled. *)
Lemma finish_split st k : ts !! t = Some (Finish st k) -> m_stateCur s = stateSplit ->
  good ts t o own (Finish st k) (try (DIRISplit s) (fun s => Next s (Trans stateGrowFromSplit st k))).
Proof.
  intros Ht Hcur. pose proof (finish_entered _ _ Ht) as Hen. rewrite Hcur in Hen. destruct Hen as [Ed Hfull].
  pose proof (dir0_ok _ _ _ _ _ I) as Hd. pose proof (dir_max_pos _ _ Hd) as HM. pose proof (cap_bounds _ _ (in_arrays _ _ _ _ _ I)) as Hcb.
  pose proof (bucket_in _ _ _ _ _ I) as Hbi. pose proof (ds_cap _ _ _ _ _ (in_dirs _ _ _ _ _ I)) as Hcap. destruct Hd as ((x & Hx & Ex) & Hc & Hle).
  set (M := m_cBucketMax d0) in *.
  unfold DIRISplit. fold M. rewrite Hcur, bool_decide_true, Z.gtb_ltb, (proj2 (Z.ltb_lt 0 M) HM), (proj2 (Z.eqb_eq _ _) Hfull) by done. cbn [andb DHTAssert mbind option_bind try].
  replace (u64 (M * 2)) with (2 * M) by (unfold wrapu; rewrite Z.mod_small; lia).
  assert (Hb : forall h, bucket (Dirptrs (2 * M) 0) h = bucket d0 h).
  { intros h. unfold bucket. cbn. fold M. rewrite Hfull. by apply bidx_double. }
  eapply (dir_step _ own _ _ k (Moving stateGrowFromSplit)); try done; try apply I; cbn [m_dirptrs0 m_dirptrs1 set_dirptrs m_rgrgBucket].
  - apply (states_finish_next _ _ _ _ _ _ _ (in_states _ _ _ _ _ I) t st _ (role_at ts t _ Ht)). by rewrite Hcur.
  - split; cbn.
    + split; cbn; [|lia]. exists (x + 1). split; [lia|]. rewrite Z.pow_add_r by lia. lia.
    + left. lia.
    + rewrite Ed. fold M. split; [done|]. done.
  - intros q Hq. apply (view_dir d0 _ _ rg rg (cap own)); try done.
    + intros i g e Hr. left. by rewrite (finish_inside st k q i g e Ht Hq Hr).
    + by rewrite Ed.
    + rewrite Ed. unfold total_buckets. fold M. lia.
    + by apply I.
Qed.

(** ** The directory is halved *)

Lemma inj_addr b b' : 0 <= b < cap own -> 0 <= b' < cap own -> baddr rg b = baddr rg b' -> b = b'.
Proof.
  intros Hb Hb' He. unfold cap in *. assert (Z.to_nat b = Z.to_nat b'); [|lia].
  apply (baddr_inj _ _ _ _ _ (in_memory _ _ _ _ _ I)); [lia|lia|]. by rewrite !Z2Nat.id by lia.
Qed.

(** Nobody holds a lock of the upper half. *)
Lemma merge_holds st k (q : pc) a w : ts !! t = Some (Finish st k) -> m_stateCur s = stateMerge -> q ∈ ts -> (a, w) ∈ locks_of q ->
  exists b, 0 <= b < m_cBucketMax d0 /\ a = baddr rg b.
Proof.
  intros Ht Hcur Hq Ha. pose proof (finish_entered _ _ Ht) as Hen. rewrite Hcur in Hen. destruct Hen as [Ed [Hc0 HM]].
  pose proof (in_views _ _ _ _ _ I q Hq) as Hv. assert (Hin : forall i g e, role_of q = RIn i g (Some e) -> e = stateMerge).
  { intros i g e Hr. rewrite <- Hcur. by eapply finish_inside. }
  destruct (owner q) as [[plock key]|] eqn:Ho.
  - rewrite (owner_locks _ _ _ Ho) in Ha. apply list_elem_of_singleton in Ha. injection Ha as -> _.
    exists (bucket d0 (Hash_key key)). split; [|by eapply owner_head]. pose proof (bucket_range _ _ (Hash_key key) (dir0_ok _ _ _ _ _ I)). lia.
  - destruct q; cbn [owner] in Ho; try discriminate Ho; cbn [locks_of owner] in Ha; rewrite ?Ho in Ha; try (by apply not_elem_of_nil in Ha);
      try (specialize (Hin _ _ _ eq_refl); try (by destruct (j_kind j))).
    + apply list_elem_of_singleton in Ha. injection Ha as -> _. subst es. destruct Hv as [(EM & Hc & _ & Ei & _ & _ & Hne) Hh].
      specialize (Hne eq_refl eq_refl). change (dsel d0 d1 stateMerge) with d1 in EM, Hne. rewrite Ed in EM, Hne. exists iBucket. split; [|done].
      rewrite Ei. pose proof (bidx_range cBucketMaxBefore cBucketBefore (Hash_key key) ltac:(lia) Hc). lia.
    + subst es. destruct Hv as [[[Hu _]|[Hu _]] _]; done.
Qed.

Lemma upper_heads (n : nat) a : (n <= length own)%nat -> a ∈ hd_ptr <$> drop n own <-> exists b, Z.of_nat n <= b < cap own /\ a = baddr rg b.
Proof.
  intros Hn. unfold cap. rewrite list_elem_of_fmap. split.
  - intros (ss & -> & [i Hi]%list_elem_of_lookup). rewrite lookup_drop in Hi. pose proof (lookup_lt_Some _ _ _ Hi).
    destruct (mo_chain _ _ _ _ _ (in_memory _ _ _ _ _ I) _ _ Hi) as (es & ss' & -> & _). exists (Z.of_nat (n + i)). split; [lia|done].
  - intros (b & Hb & ->). destruct (chain_of _ _ _ _ _ I b ltac:(unfold cap; lia)) as (es & ss & Hs & _). eexists. split; [|].
    2:{ apply list_elem_of_lookup. exists (Z.to_nat b - n)%nat. rewrite lookup_drop. replace (n + (Z.to_nat b - n))%nat with (Z.to_nat b) by lia. exact Hs. }
    done.
Qed.

Lemma arrays_halve x : 1 <= x -> cap own = 2 * 2 ^ x -> arrays_ok (<[Z.to_nat x := 0]> rg) (2 ^ x).
Proof.
  intros Hx Hcap. pose proof (in_arrays _ _ _ _ _ I) as Ha. pose proof (cap_bounds _ _ Ha) as Hcb. destruct Ha as [A1 (y & Hy & Ey) A3 A4].
  pose proof (Z.pow_pos_nonneg 2 x ltac:(lia) ltac:(lia)).
  assert (x < 63). { apply (Z.pow_lt_mono_r_iff 2); [lia|lia|]. lia. }
  split.
  - by rewrite length_insert.
  - exists x. lia.
  - intros e He Hle. destruct (Z.eq_dec e x) as [->|Hne]; [apply list_lookup_insert_eq; lia|]. rewrite list_lookup_insert_ne by lia.
    apply A3; [done|]. assert (x < e) by (apply (Z.pow_le_mono_r_iff 2) in Hle; lia). rewrite Hcap. replace (2 * 2 ^ x) with (2 ^ (x + 1)) by (rewrite Z.pow_add_r by lia; lia).
    apply Z.pow_le_mono_r; lia.
  - intros v Hv. rewrite baddr_low by lia. apply A4. lia.
Qed.

(** The array of the upper half and its locks go away. *)
Lemma drop_upper st k x : ts !! t = Some (Finish st k) -> m_stateCur s = stateMerge -> 1 <= x -> m_cBucketMax d0 = 2 ^ x -> cap own = 2 * 2 ^ x ->
  exists h lk, DIRTermBucketArray (m_heap s) (m_locks s) (rg !!! Z.to_nat x) (2 ^ x) = Some (h, lk) /\
    memory_ok h (<[Z.to_nat x := 0]> rg) (take (Z.to_nat (2 ^ x)) own) (reserves s) rss /\
    locks_ok lk (locks_of <$> ts) /\ heads_ok lk (<[Z.to_nat x := 0]> rg) (2 ^ x).
Proof.
  intros Ht Hcur Hx EM Hcap. pose proof (arrays_halve x Hx Hcap) as [_ (y & Hy & Ey) _ _]. assert (Exy : y = x) by (apply (Z.pow_inj_r 2); lia).
  pose proof (Z.pow_pos_nonneg 2 x ltac:(lia) ltac:(lia)) as Hp. set (n := Z.to_nat (2 ^ x)).
  assert (Hn : (n <= length own)%nat) by (unfold cap in Hcap; lia).
  destruct (drop_array (m_heap s) rg (take n own) (drop n own) (reserves s) rss (m_locks s) x) as (h & lk & Et & Hm & Hlk).
  - rewrite take_drop. apply I.
  - lia.
  - rewrite length_take. lia.
  - rewrite length_take, length_drop. unfold cap in Hcap. lia.
  - apply (in_arrays _ _ _ _ _ I).
  - intros ss Hs. assert (Hin : hd_ptr ss ∈ hd_ptr <$> drop n own) by (apply list_elem_of_fmap; by exists ss).
    apply upper_heads in Hin as (b & Hb & Eb); [|done]. rewrite Eb. destruct (lock_exists _ _ _ _ _ I b ltac:(lia)) as [l Hl]. rewrite Hl. f_equal.
    apply lock_free_true. eapply (free_lock _ _ (in_locks _ _ _ _ _ I)); [exact Hl|]. intros xs w (q & -> & Hq)%list_elem_of_fmap Hin.
    destruct (merge_holds st k q _ w Ht Hcur Hq Hin) as (b' & Hb' & Eb'). apply inj_addr in Eb'; lia.
  - exists h, lk. split_and!; [done|done| |].
    + apply (locks_destroy _ _ (in_locks _ _ _ _ _ I)).
      * apply map_subseteq_spec. intros a l. rewrite Hlk. by case_decide.
      * intros xs a w Hxs Hin. pose proof (lo_dom _ _ (in_locks _ _ _ _ _ I) xs a w Hxs Hin) as Hd. rewrite Hlk, decide_False; [done|].
        intros (b & Hb & Eb)%upper_heads; [|done]. apply list_elem_of_fmap in Hxs as (q & -> & Hq).
        destruct (merge_holds st k q a w Ht Hcur Hq Hin) as (b' & Hb' & Eb'). rewrite Eb in Eb'. apply inj_addr in Eb'; lia.
    + intros a. rewrite Hlk. split.
      * case_decide as Hin; [by intros [? ?]|]. intros (b & Hb & ->)%(in_heads _ _ _ _ _ I). exists b. destruct (Z.lt_ge_cases b (2 ^ x)).
        -- rewrite baddr_low by lia. split; [lia|done].
        -- destruct Hin. apply upper_heads; [done|]. exists b. split; [lia|done].
      * intros (b & Hb & ->). rewrite baddr_low by lia. rewrite decide_False; [apply (in_heads _ _ _ _ _ I); exists b; split; [lia|done]|].
        intros (b' & Hb' & Eb)%upper_heads; [|done]. apply inj_addr in Eb; lia.
Qed.

(** No entry is in the upper half. *)
Lemma lower_entries (n : nat) : total_buckets d0 <= Z.of_nat n -> entries (take n own) = entries own.
Proof.
  intros Hn. unfold entries. rewrite <- (take_drop n own) at 2. rewrite fmap_app, concat_app.
  assert (Hnil : concat (flat <$> drop n own) = []); [|by rewrite Hnil, app_nil_r].
  destruct (concat (flat <$> drop n own)) as [|e l] eqn:El; [done|]. exfalso.
  assert (He : e ∈ entries (drop n own)) by (unfold entries; rewrite El; left). apply in_entries in He as (i & ss & Hi & He).
  rewrite lookup_drop in Hi. pose proof (in_placed _ _ _ _ _ I _ _ _ Hi He) as Hp. pose proof (bucket_range _ _ (Hash_entry e) (dir0_ok _ _ _ _ _ I)).
  unfold total_buckets in Hn. lia.
Qed.

Lemma finish_merge st k : ts !! t = Some (Finish st k) -> m_stateCur s = stateMerge ->
  good ts t o own (Finish st k) (try (DIRIMerge s) (fun s => Next s (Trans stateShrinkFromMerge st k))).
Proof.
  intros Ht Hcur. pose proof (finish_entered _ _ Ht) as Hen. rewrite Hcur in Hen. destruct Hen as [Ed [Hc0 HM]].
  pose proof (dir0_ok _ _ _ _ _ I) as Hd. pose proof (cap_bounds _ _ (in_arrays _ _ _ _ _ I)) as Hcb.
  pose proof (bucket_in _ _ _ _ _ I) as Hbi. pose proof (ds_cap _ _ _ _ _ (in_dirs _ _ _ _ _ I)) as Hcap. pose proof Hd as ((x & Hx & EM) & Hc & Hle).
  rewrite EM in *. assert (Hx1 : 1 <= x) by (destruct (Z.eq_dec x 0) as [->|]; [cbn in HM; lia|lia]).
  assert (Hx63 : x <= 63) by (apply (Z.pow_le_mono_r_iff 2); lia).
  assert (Epow : 2 ^ x = 2 * 2 ^ (x - 1)) by (rewrite <- Z.pow_succ_r by lia; f_equal; lia).
  assert (Ehalf : 2 ^ x / 2 = 2 ^ (x - 1)) by (rewrite Epow, Z.mul_comm; by apply Z.div_mul).
  pose proof (Z.pow_pos_nonneg 2 (x - 1) ltac:(lia) ltac:(lia)) as Hpos.
  destruct (lookup_lt_is_Some_2 rg (Z.to_nat x)) as [rgb Hrgb]; [rewrite (ar_len _ _ (in_arrays _ _ _ _ _ I)); lia|].
  unfold DIRIMerge. rewrite Hcur, bool_decide_true, EM, Z.gtb_ltb, (proj2 (Z.ltb_lt 1 _) HM), Hc0 by done. cbn [andb Z.eqb DHTAssert mbind option_bind].
  rewrite DIRILog2_ok by lia. cbn [mbind option_bind]. rewrite Z.log2_pow2 by lia.
  assert (Eoff : offset (2 ^ x) = 0) by (unfold offset; rewrite Z.log2_pow2, (proj2 (Z.ltb_ge _ _)) by lia; lia). rewrite Eoff.
  assert (Esh : u64 (Z.shiftl 1 x) = 2 ^ x) by (rewrite Z.shiftl_mul_pow2 by lia; unfold wrapu; rewrite Z.mod_small; lia).
  rewrite Esh, Z.eqb_refl. cbn [andb Z.eqb DHTAssert mbind option_bind]. rewrite Hrgb. cbn [mbind option_bind]. rewrite Ehalf.
  set (dn := Dirptrs (2 ^ (x - 1)) (2 ^ (x - 1))).
  assert (Hb : forall h, bucket dn h = bucket d0 h).
  { intros h. unfold bucket. cbn. rewrite EM, Hc0, Epow. symmetry. by apply bidx_double. }
  assert (Hlow : forall h, 0 <= bucket d0 h < 2 ^ x).
  { intros h. pose proof (bucket_range _ _ h Hd). lia. }
  (* what remains of the table *)
  assert (Hgo : forall s' own', m_rghs s' = m_rghs s -> m_stateCur s' = m_stateCur s -> m_semPolicy s' = m_semPolicy s -> m_cCompletions s' = m_cCompletions s ->
    m_dirptrs0 s' = dn -> m_dirptrs1 s' = d1 -> cap own' = 2 ^ x -> arrays_ok (m_rgrgBucket s') (2 ^ x) ->
    memory_ok (m_heap s') (m_rgrgBucket s') own' (reserves s) rss -> heads_ok (m_locks s') (m_rgrgBucket s') (2 ^ x) -> locks_ok (m_locks s') (locks_of <$> ts) ->
    (forall b, 0 <= b < 2 ^ x -> baddr (m_rgrgBucket s') b = baddr rg b) -> (forall i : nat, (i < Z.to_nat (2 ^ x))%nat -> own' !! i = own !! i) ->
    entries own' = entries own -> good ts t o own (Finish st k) (Next s' (Trans stateShrinkFromMerge st k))).
  { intros s' own' E1 E2 E3 E4 E5 E6 Ecap Har Hmem Hhd Hlk Hba Hown Hent.
    eapply (dir_step s' own' _ _ k (Moving stateShrinkFromMerge)); rewrite ?E3, ?E4, ?E5, ?E6, ?Ecap; try done.
    - apply (states_finish_next _ _ _ _ _ _ _ (in_states _ _ _ _ _ I) t st _ (role_at ts t _ Ht)). by rewrite Hcur.
    - split; cbn.
      + split; cbn; [exists (x - 1); split; [lia|done]|lia].
      + right. lia.
      + rewrite Ed, EM, Hc0. split_and!; [lia|done|done].
    - intros q Hq. apply (view_dir d0 dn d1 rg _ (cap own)); try done.
      + intros i g e Hr. right. by rewrite (finish_inside st k q i g e Ht Hq Hr).
      + rewrite Ed, EM. lia.
      + rewrite Ed. unfold total_buckets. lia.
      + by apply I.
    - intros h. apply Hown. specialize (Hlow h). lia.
    - intros b ss e Hs He. assert (Hin : e ∈ entries own) by (rewrite <- Hent; apply in_entries; eauto).
      assert (Hlt : (b < Z.to_nat (2 ^ x))%nat) by (apply lookup_lt_Some in Hs; unfold cap in Ecap; lia). rewrite Hown in Hs by done. by eapply I. }
  destruct Hcap as [Hcap|Hcap].
  - pose proof (ar_null _ _ (in_arrays _ _ _ _ _ I) x ltac:(lia) ltac:(lia)) as Hn. rewrite Hrgb in Hn. injection Hn as ->. cbn [Z.eqb negb mbind option_bind try].
    apply (Hgo _ own); cbn; try done; rewrite <- ?Hcap; apply I.
  - destruct (baddr_word _ _ (2 ^ x) (in_arrays _ _ _ _ _ I) ltac:(lia)) as (pb & Hpb & Hne & _). rewrite Z.log2_pow2, Hrgb in Hpb by lia. injection Hpb as <-.
    rewrite (proj2 (Z.eqb_neq _ _) Hne). cbn [negb].
    destruct (drop_upper st k x Ht Hcur Hx1 EM Hcap) as (h & lk & Et & Hm & Hlk & Hhd). rewrite (list_lookup_total_correct _ _ _ Hrgb) in Et. rewrite Et.
    cbn [mbind option_bind try]. apply (Hgo _ (take (Z.to_nat (2 ^ x)) own)); cbn; try done.
    + unfold cap in *. rewrite length_take. lia.
    + by apply arrays_halve.
    + intros b Hbx. apply baddr_low; lia.
    + intros i Hi. by apply lookup_take_lt.
    + apply lower_entries. unfold total_buckets. rewrite EM. lia.
Qed.

(** The rest of [STCompletion]. *)
Lemma finish_step st k : ts !! t = Some (Finish st k) -> good ts t o own (Finish st k) (complete s st k).
Proof.
  intros Ht. pose proof (finish_entered _ _ Ht) as Hen. unfold complete.
  destruct (finish_busy _ _ _ _ _ _ _ (in_states _ _ _ _ _ I) t st (role_at ts t _ Ht)) as (pred & _ & Hed & _).
  assert (Hnext : forall es, edge (m_stateCur s) es = true -> entered es d0 d1 -> good ts t o own (Finish st k) (Next s (Trans es st k))) by (intros; by apply finish_next).
  destruct (m_stateCur s) eqn:Hcur; cbn [rgstt run_completion try]; rewrite ?bool_decide_false, ?bool_decide_true by done;
    try (apply Hnext; [done|exact Hen]); try (apply Hnext; done).
  - by destruct pred.
  - apply finish_copy; rewrite ?Hcur; done.
  - apply finish_copy; rewrite ?Hcur; done.
  - by destruct pred.
  - apply finish_quiet; [done|]. by left.
  - apply finish_quiet; [done|]. by right.
  - by apply finish_split.
  - by apply finish_merge.
Qed.

End Move.
