(* ===== verification/HashPolicySteps.v ===== *)
(** * HashPolicySteps: maintenance of the table

    The steps of [MaintainTable] up to [BKTISplit] and [BKTIMerge].  [SelectMaintenancePolicy]
    runs while nobody else does and no transition is under way; it begins a split of the
    directory only when all buckets are split, and a merge only when none is.  Its
    assertions hold as long as the operations that were counted fit into a word, which
    [ops_ok] bounds by the number of steps. *)

From stdpp Require Import gmap.
From S2P Require Import Prelude HashBucket HashBucketProofs HashBucketOps Threads HashTable HashStates HashDir HashViews HashMemory HashInv HashLockSteps HashSplit HashMerge HashMoveSteps.

(** What [ErrDIRInit] establishes. *)
Class ParamsOk `{TableParams} : Prop := { load_pos : 1 <= m_cLoadFactor; min_two : 2 <= m_cbucketMin }.

Section Policy.
Context {K E : Type} `{KE : CKeyEntry K E} `{L : BucketLayout} `{TP : TableParams} `{LO : !LayoutOk} `{PO : !ParamsOk} `{CL : !ClientLaws K E} `{Countable K}.

Abbreviation pc := (@pc K E).
Abbreviation table := (CDynamicHashTable E).

(** ** The counted operations *)

Record ops_ok (s : table) (n : Z) : Prop := {
  oo_pos : forall hs, hs ∈ m_rghs s -> 0 <= m_cOp hs;
  oo_total : total m_cOp (m_rghs s) <= n;
  oo_sens : 0 <= m_cOpSensitivity s }.

Lemma sum_small (l : list HOTSTUFF) c : (forall hs, hs ∈ l -> 0 <= m_cOp hs) -> 0 <= c -> c + total m_cOp l < 2 ^ 64 ->
  foldl (fun c h => u64 (c + m_cOp h)) c l = c + total m_cOp l.
Proof.
  revert c. induction l as [|h l IH]; intros c Hp Hc Hlt; cbn [foldl total] in *; [lia|].
  pose proof (Hp h ltac:(left)). pose proof (total_nonneg_in m_cOp l ltac:(intros; apply Hp; by right)).
  assert (Eu : u64 (c + m_cOp h) = c + m_cOp h) by (unfold wrapu; rewrite Z.mod_small; lia). rewrite Eu, IH; [lia| |lia|lia].
  intros; apply Hp; by right.
Qed.

Lemma sum_ops_total (s : table) n : ops_ok s n -> n < 2 ^ 64 -> sum_ops (m_rghs s) = total m_cOp (m_rghs s).
Proof. intros [H1 H2 _] Hn. unfold sum_ops. rewrite sum_small; [lia|done|lia|lia]. Qed.

Lemma ops_local (s : table) n i hs : ops_ok s n -> m_rghs s !! i = Some hs -> m_cOp hs <= total m_cOp (m_rghs s).
Proof.
  intros [H1 _ _]. revert i. induction (m_rghs s) as [|h l IH]; intros [|i] Hi; simplify_eq/=.
  - pose proof (total_nonneg_in m_cOp l ltac:(intros; apply H1; by right)). lia.
  - pose proof (H1 h ltac:(left)). specialize (IH ltac:(intros; apply H1; by right) i Hi). lia.
Qed.

(** ** The policy *)

(** The decisions of [SelectMaintenancePolicy] in a stable state. *)
Lemma policy_ok (s : table) cOpLocal n : (m_stateCur s = stateGrow \/ m_stateCur s = stateShrink) -> ops_ok s n -> n < 2 ^ 63 ->
  0 < cOpLocal <= total m_cOp (m_rghs s) -> dir_ok (2 ^ 63) (m_dirptrs0 s) ->
  exists sens pref esNew, policy s cOpLocal = Some (sens, pref, esNew) /\ 0 <= sens /\
    (esNew = stateNil \/ (edge (m_stateCur s) esNew = true /\ entered esNew (m_dirptrs0 s) (m_dirptrs1 s))).
Proof.
  intros Hcur Ho Hn Hl Hd. pose proof min_two as Hmin. pose proof (oo_total _ _ Ho) as Htot.
  assert (Edir : dirptrs s (m_stateCur s) = m_dirptrs0 s) by (unfold dirptrs; by destruct Hcur as [-> | ->]).
  pose proof (dir_max_pos _ _ Hd) as HM. destruct Hd as (_ & Hc & Hle).
  unfold policy, NcDIRIGetBucketMax, NcDIRIGetBucket. rewrite Edir, (sum_ops_total s n Ho) by lia.
  rewrite (proj2 (Z.eqb_neq cOpLocal 0)) by lia. cbn [negb DHTAssert mbind option_bind].
  assert (Hr : u64 (u64 (total m_cOp (m_rghs s) + cOpLocal) - 1) / cOpLocal <> 0).
  { unfold wrapu. rewrite (Z.mod_small (_ + cOpLocal)) by lia. rewrite Z.mod_small by lia. intros E0. apply Z.div_small_iff in E0; lia. }
  rewrite (proj2 (Z.eqb_neq _ 0) Hr). cbn [negb DHTAssert mbind option_bind].
  set (act := u64 (m_cBucketMax (m_dirptrs0 s) + m_cBucket (m_dirptrs0 s))).
  assert (Ea : act = m_cBucketMax (m_dirptrs0 s) + m_cBucket (m_dirptrs0 s)) by (unfold act, wrapu; rewrite Z.mod_small; lia).
  set (pref := Z.max m_cbucketMin _). assert (Hpref : 2 <= pref) by lia. generalize dependent pref. intros pref Hpref.
  destruct Hcur as [Hcur|Hcur]; rewrite Hcur.
  - rewrite bool_decide_true by done. cbn [mbind option_bind]. eexists _, pref, _. split; [reflexivity|]. split; [lia|].
    destruct (pref <? act); [by right|]. destruct (pref >? act); [|by left].
    destruct (Z.eqb_spec (m_cBucket (m_dirptrs0 s)) (m_cBucketMax (m_dirptrs0 s))); [by right|by left].
  - rewrite bool_decide_false, bool_decide_true by done. cbn [DHTAssert mbind option_bind]. eexists _, pref, _. split; [reflexivity|]. split; [lia|].
    destruct (Z.ltb_spec pref act).
    + destruct (Z.eqb_spec (m_cBucket (m_dirptrs0 s)) 0) as [E0|E0]; [|by left]. right. split; [done|]. cbn. split; [done|lia].
    + destruct (pref >? act); [by right|by left].
Qed.

Context (s : table) (ts : list pc) (own : list (segments E)) (rss : list (list Z)) (ph : phase) (I : inv s ts own rss ph).
Context (t : nat) (o : @op K E).

Abbreviation d0 := (m_dirptrs0 s).
Abbreviation d1 := (m_dirptrs1 s).
Abbreviation rg := (m_rgrgBucket s).

(** ** The steps *)

(** A client that holds nothing changes the semaphore or the policy. *)
Lemma outside_step s' (p p' : pc) ph' : ts !! t = Some p -> calling p = false -> locks_of p = [] -> locks_of p' = [] -> abstract p = AOut -> abstract p' = AOut ->
  same_store s s' -> m_locks s' = m_locks s -> same_pool p p' -> view_ok d0 d1 rg (cap own) p' -> client_ok (m_chs s) own d0 p' ->
  states_ok (m_chs s) (meters s') (m_stateCur s') (m_semPolicy s') (m_cCompletions s') ph' (<[t := role_of p']> (role_of <$> ts)) ->
  dirs_state (m_stateCur s') ph' d0 d1 -> good ts t o own p (Next s' p').
Proof.
  intros Ht Hin Hl Hl' Ha Ha' Hs Hlk Hp Hv Hc Hst Hds. apply (good_silent _ _ _ _ _ _ _ rss ph'); [|congruence|done].
  apply (local_step _ _ _ _ _ I s' t p p' ph' Ht); try done.
  - rewrite (locks_same ts t p p' Ht) by congruence. rewrite Hlk. apply I.
  - by rewrite Hlk.
Qed.

Lemma idle_step (p p' : pc) : ts !! t = Some p -> calling p = false -> locks_of p = [] -> locks_of p' = [] -> abstract p = AOut -> abstract p' = AOut ->
  same_role p p' -> same_pool p p' -> view_ok d0 d1 rg (cap own) p' -> client_ok (m_chs s) own d0 p' -> good ts t o own p (Next s p').
Proof.
  intros Ht Hin Hl Hl' Ha Ha' Hr Hp Hv Hc. apply (outside_step s p p' ph); try done.
  - by apply (states_role _ _ _ _ _ I t p).
  - apply (in_dirs _ _ _ _ _ I).
Qed.

Lemma hs_at (i : nat) : (i < m_chs s)%nat -> exists hs, m_rghs s !! i = Some hs.
Proof. apply lookup_lt_is_Some_2. Qed.

Lemma client_ihs (i : nat) (p : pc) : (i < m_chs s)%nat -> ihs_of p = Some i -> plock_of p = None -> stands p = None -> client_ok (m_chs s) own d0 p.
Proof. intros Hi E1 E2 E3. split; intros *; rewrite ?E1, ?E2, ?E3; try done. by intros [= <-]. Qed.

Lemma mt_op_step i : ts !! t = Some (MtOp i) -> good ts t o own (MtOp i) (mt_op s i).
Proof.
  intros Ht. pose proof (cl_ihs _ _ _ _ (client_at_t _ _ _ _ _ I t _ Ht) i eq_refl) as Hi. destruct (hs_at i Hi) as [hs Hhs].
  unfold mt_op. rewrite Hhs. cbn [try]. destruct (_ && _); apply idle_step; try done; try by left. by apply (client_ihs i).
Qed.

Lemma mt_try_step i : ts !! t = Some (MtTry i) -> good ts t o own (MtTry i) (mt_try s i).
Proof.
  intros Ht. pose proof (cl_ihs _ _ _ _ (client_at_t _ _ _ _ _ I t _ Ht) i eq_refl) as Hi. unfold mt_try. destruct (Z.ltb_spec 0 (m_semPolicy s)).
  - apply (outside_step _ _ _ ph); try done.
    + by apply (client_ihs i).
    + by apply (states_acquire _ _ _ _ _ _ _ (in_states _ _ _ _ _ I) t (role_at ts t _ Ht)).
    + apply (in_dirs _ _ _ _ _ I).
  - apply idle_step; try done. by left.
Qed.

Lemma reset_same pref sens sem : same_store s (set_semPolicy sem (set_policy sens pref (set_rghs (reset_ops (m_rghs s)) s))) /\
  meters (set_semPolicy sem (set_policy sens pref (set_rghs (reset_ops (m_rghs s)) s))) = meters s.
Proof.
  split; [split; try done|]; unfold reserves, counts, meters, m_chs; cbn; unfold reset_ops; rewrite ?length_fmap, <- ?list_fmap_compose; done.
Qed.

Lemma mt_select_step i n : ts !! t = Some (MtSelect i) -> ops_ok s n -> n < 2 ^ 63 -> good ts t o own (MtSelect i) (mt_select s i).
Proof.
  intros Ht Ho Hn. pose proof (cl_ihs _ _ _ _ (client_at_t _ _ _ _ _ I t _ Ht) i eq_refl) as Hi. destruct (hs_at i Hi) as [hs Hhs].
  pose proof (role_at ts t _ Ht) as Hr. destruct (policy_quiet _ _ _ _ _ _ _ (in_states _ _ _ _ _ I) t Hr) as (_ & _ & _ & Hcur).
  assert (Hds : dirs_state (m_stateCur s) ph d0 d1) by apply (in_dirs _ _ _ _ _ I).
  unfold mt_select. rewrite Hhs. cbn [try]. rewrite Z.gtb_ltb. destruct (Z.ltb_spec (m_cOpSensitivity s) (m_cOp hs)) as [Hop|Hop].
  - unfold SelectMaintenancePolicy. pose proof (oo_sens _ _ Ho). pose proof (ops_local s n i hs Ho Hhs).
    assert (Hd : dir_ok (2 ^ 63) d0).
    { destruct (dir0_ok _ _ _ _ _ I) as (D1 & D2 & D3). split; [done|]. pose proof (cap_bounds _ _ (in_arrays _ _ _ _ _ I)). lia. }
    destruct (policy_ok s (m_cOp hs) n Hcur Ho Hn ltac:(lia) Hd) as (sens & pref & esNew & -> & _ & Hes). cbn [try].
    destruct (reset_same pref sens (m_semPolicy s)) as [S1 S2]. destruct (reset_same pref sens (m_semPolicy s + 1)) as [S3 S4].
    destruct Hes as [-> |[He Hen]].
    + rewrite bool_decide_true by done. apply (outside_step _ _ _ ph); try done.
      replace (meters _) with (meters s) by (symmetry; exact S4). by apply (states_release _ _ _ _ _ _ _ (in_states _ _ _ _ _ I) t Hr).
    + rewrite bool_decide_false by (intros ->; by destruct (m_stateCur s)). apply (outside_step _ _ _ (Moving esNew)); try done.
      replace (meters _) with (meters s) by (symmetry; exact S2). by apply (states_decide _ _ _ _ _ _ _ (in_states _ _ _ _ _ I) t esNew Hr).
  - apply (outside_step _ _ _ ph); try done. by apply (states_release _ _ _ _ _ _ _ (in_states _ _ _ _ _ I) t Hr).
Qed.

Lemma mt_size_step : ts !! t = Some MtSize -> good ts t o own MtSize (mt_size s).
Proof. intros Ht. unfold mt_size. destruct (_ || _); apply idle_step; try done; by left. Qed.

Lemma pm_enter_step : ts !! t = Some PmEnter -> good ts t o own PmEnter (UiSTEnter s (op_cpu o) PmState).
Proof. intros Ht. apply (st_enter _ _ _ _ _ I); try done. intros i g. split_and!; try done. constructor. Qed.

Lemma pm_state_step i g : ts !! t = Some (PmState i g) -> good ts t o own (PmState i g) (pm_state s i g).
Proof.
  intros Ht. unfold pm_state. repeat case_bool_decide; (apply (good_silent _ _ _ _ _ _ _ rss ph); [|done|done]);
    (eapply (read_step _ _ _ _ _ I t _ _ i g); [done..|cbn| | | |]; try done).
  - right. left. by f_equal.
  - right. left. by f_equal.
  - by left.
Qed.

End Policy.

(** ** Splitting and merging a bucket

    The steps of [BKTISplit] and [BKTIMerge]: a bucket is reserved, the first bucket is
    locked and the sizes are checked again, the array of the new bucket is allocated when
    there is none, the second bucket is locked, and the entries are moved. *)

Section Resize.
Context {K E : Type} `{KE : CKeyEntry K E} `{L : BucketLayout} `{TP : TableParams} `{LO : !LayoutOk} `{CL : !ClientLaws K E} `{Countable K}.
Context (junk : Z -> BUCKET E) (Hjunk : junk_ok junk).

Abbreviation pc := (@pc K E).
Abbreviation table := (CDynamicHashTable E).

(** ** The counts of the pools *)

Lemma of_hs_range i j : 0 <= of_hs i j <= 1.
Proof. unfold of_hs. case_decide; lia. Qed.

Lemma of_hs_self j : of_hs (j_ihs j) j = 1.
Proof. unfold of_hs. by rewrite decide_True. Qed.

Lemma of_hs_other i j : i <> j_ihs j -> of_hs i j = 0.
Proof. intros Hi. unfold of_hs. by rewrite decide_False. Qed.

Lemma class_range i (p : pc) : 0 <= at_inc i p /\ 0 <= reserved i p /\ 0 <= at_alloc i p /\ at_inc i p + reserved i p + at_alloc i p <= 1.
Proof. destruct p; cbn; try lia; pose proof (of_hs_range i j); lia. Qed.

(** The clients of the pool [i], without the one at [t]. *)
Lemma class_bounds i (ts : list pc) (t : nat) p : ts !! t = Some p ->
  let inc := total (at_inc i) ts in let res := total (reserved i) ts in let alloc := total (at_alloc i) ts in
  at_inc i p <= inc /\ reserved i p <= res /\ at_alloc i p <= alloc /\ 0 <= inc /\ 0 <= res /\ 0 <= alloc /\
  inc + res + alloc <= Z.of_nat (length ts) - 1 + (at_inc i p + reserved i p + at_alloc i p).
Proof.
  intros Ht. cbv zeta. split_and!.
  - apply (total_ge _ _ t); [intros; apply class_range|done].
  - apply (total_ge _ _ t); [intros; apply class_range|done].
  - apply (total_ge _ _ t); [intros; apply class_range|done].
  - apply total_nonneg. intros. apply class_range.
  - apply total_nonneg. intros. apply class_range.
  - apply total_nonneg. intros. apply class_range.
  - pose proof (total_rest (fun q => at_inc i q + reserved i q + at_alloc i q) (fun _ => 1) ts t p ltac:(intros; apply class_range) Ht) as Hr. cbv beta in Hr.
    rewrite total_1, (total_add (fun q => at_inc i q + reserved i q)), total_add in Hr. lia.
Qed.

Context (s : table) (ts : list pc) (own : list (segments E)) (rss : list (list Z)) (ph : phase) (I : inv s ts own rss ph).
Context (t : nat) (o : @op K E).

Abbreviation d0 := (m_dirptrs0 s).
Abbreviation d1 := (m_dirptrs1 s).
Abbreviation rg := (m_rgrgBucket s).

(** The pool of a job. *)
Lemma pool_at (p : pc) i g e : ts !! t = Some p -> role_of p = RIn i g e -> exists hs rs, m_rghs s !! i = Some hs /\ rss !! i = Some rs /\
  reserves s !! i = Some (m_pReserve (m_bucketpool hs)) /\ counts s !! i = Some (m_cReserve (m_bucketpool hs)) /\
  free_list (m_heap s) (m_pReserve (m_bucketpool hs)) rs /\
  count_ok (m_cReserve (m_bucketpool hs)) (Z.of_nat (length rs)) (total (at_inc i) ts) (total (reserved i) ts) (total (at_alloc i) ts) (Z.of_nat (length ts)).
Proof.
  intros Ht Hr. assert (Hi : (i < m_chs s)%nat).
  { eapply (so_valid _ _ _ _ _ _ _ (in_states _ _ _ _ _ I) i g e). rewrite <- Hr. eapply in_self. by apply role_at. }
  destruct (lookup_lt_is_Some_2 (m_rghs s) i Hi) as [hs Hhs].
  assert (E1 : reserves s !! i = Some (m_pReserve (m_bucketpool hs))) by (unfold reserves; by rewrite list_lookup_fmap, Hhs).
  assert (E2 : counts s !! i = Some (m_cReserve (m_bucketpool hs))) by (unfold counts; by rewrite list_lookup_fmap, Hhs).
  pose proof (mo_pools _ _ _ _ _ (in_memory _ _ _ _ _ I)) as Hp. destruct (Forall2_lookup_l _ _ _ _ _ Hp E1) as (rs & Hrs & Hf).
  exists hs, rs. split_and!; try done. by apply (in_pools _ _ _ _ _ I).
Qed.

(** The count fits into a [LONG]. *)
Lemma count_range i c l (p : pc) : ts !! t = Some p ->
  count_ok c l (total (at_inc i) ts) (total (reserved i) ts) (total (at_alloc i) ts) (Z.of_nat (length ts)) ->
  s32 (c + 1) = c + 1 /\ s32 (c - 1) = c - 1.
Proof.
  intros Ht [C1 C2 C3]. pose proof (class_bounds i ts t p Ht) as Hb. cbv zeta in Hb. pose proof (class_range i p). pose proof (in_threads _ _ _ _ _ I).
  split; apply wraps_small; try lia; unfold in_s; lia.
Qed.

Lemma pools_update i (p p' : pc) c' rs' : ts !! t = Some p ->
  (forall k, k <> i -> at_inc k p' = at_inc k p /\ reserved k p' = reserved k p /\ at_alloc k p' = at_alloc k p) ->
  count_ok c' (Z.of_nat (length rs')) (total (at_inc i) ts - at_inc i p + at_inc i p') (total (reserved i) ts - reserved i p + reserved i p')
    (total (at_alloc i) ts - at_alloc i p + at_alloc i p') (Z.of_nat (length ts)) ->
  pools_ok (<[i := c']> (counts s)) (<[i := rs']> rss) (<[t := p']> ts).
Proof.
  intros Ht Hoth Hi k c rs Hc Hrs. rewrite length_insert, !(total_insert _ _ _ _ _ Ht). destruct (decide (k = i)) as [->|Hne].
  - assert (c = c') as ->.
    { destruct (decide (i < length (counts s))%nat); [rewrite list_lookup_insert_eq in Hc by done; congruence|].
      rewrite list_insert_ge in Hc by lia. apply lookup_lt_Some in Hc. lia. }
    assert (rs = rs') as ->; [|done].
    destruct (decide (i < length rss)%nat); [rewrite list_lookup_insert_eq in Hrs by done; congruence|].
    rewrite list_insert_ge in Hrs by lia. apply lookup_lt_Some in Hrs. lia.
  - rewrite list_lookup_insert_ne in Hc by done. rewrite list_lookup_insert_ne in Hrs by done. destruct (Hoth k Hne) as (-> & -> & ->).
    replace (total (at_inc k) ts - at_inc k p + at_inc k p) with (total (at_inc k) ts) by lia.
    replace (total (reserved k) ts - reserved k p + reserved k p) with (total (reserved k) ts) by lia.
    replace (total (at_alloc k) ts - at_alloc k p + at_alloc k p) with (total (at_alloc k) ts) by lia. by apply (in_pools _ _ _ _ _ I).
Qed.

(** A pool changes. *)
Lemma pool_step h (p p' : pc) i hs pool rs' : ts !! t = Some p -> calling p = false -> m_rghs s !! i = Some hs -> same_role p p' -> locks_of p' = locks_of p ->
  abstract p' = abstract p -> view_ok d0 d1 rg (cap own) p' -> client_ok (m_chs s) own d0 p' ->
  memory_ok h rg own (<[i := m_pReserve pool]> (reserves s)) (<[i := rs']> rss) ->
  pools_ok (<[i := m_cReserve pool]> (counts s)) (<[i := rs']> rss) (<[t := p']> ts) ->
  good ts t o own p (Next (upd_hs (set_heap h s) i (set_pool pool hs)) p').
Proof.
  intros Ht Hin Hhs Hr Hl Ha Hv Hc Hm Hp. apply (good_silent _ _ _ _ _ _ _ (<[i := rs']> rss) ph); [|done|done].
  set (s' := upd_hs _ i _). assert (E1 : reserves s' = <[i := m_pReserve pool]> (reserves s)) by (by apply (fmap_upd (fun hs => m_pReserve (m_bucketpool hs)) (set_heap h s) i hs)).
  assert (E2 : counts s' = <[i := m_cReserve pool]> (counts s)) by (by apply (fmap_upd (fun hs => m_cReserve (m_bucketpool hs)) (set_heap h s) i hs)).
  assert (E3 : meters s' = meters s) by (by apply (fmap_upd_same m_cms (set_heap h s) i hs)).
  assert (E4 : m_chs s' = m_chs s) by apply (chs_upd (set_heap h s)).
  split; rewrite ?E1, ?E2, ?E3, ?E4, ?length_insert, ?list_fmap_insert; try apply I; try done.
  - by apply (states_role _ _ _ _ _ I t p).
  - rewrite (locks_same ts t p p' Ht Hl). apply I.
  - intros q [->|Hq]%(in_insert _ _ _ _ _ Ht); [done|by apply I].
  - intros q [->|Hq]%(in_insert _ _ _ _ _ Ht); [done|by apply I].
Qed.

(** Only the count of the pool changes. *)
Lemma pool_count_step (p p' : pc) i hs rs c' : ts !! t = Some p -> calling p = false -> m_rghs s !! i = Some hs -> rss !! i = Some rs -> same_role p p' -> locks_of p' = locks_of p ->
  abstract p' = abstract p -> view_ok d0 d1 rg (cap own) p' -> client_ok (m_chs s) own d0 p' ->
  pools_ok (<[i := c']> (counts s)) (<[i := rs]> rss) (<[t := p']> ts) ->
  good ts t o own p (Next (upd_hs s i (set_pool (Pool (m_pReserve (m_bucketpool hs)) c') hs)) p').
Proof.
  intros Ht Hin Hhs Hrs Hr Hl Ha Hv Hc Hp. apply (pool_step (m_heap s) p p' i hs (Pool (m_pReserve (m_bucketpool hs)) c') rs); try done. cbn.
  rewrite (list_insert_id rss i rs Hrs), (list_insert_id (reserves s) i); [apply I|]. unfold reserves. by rewrite list_lookup_fmap, Hhs.
Qed.

Lemma pool_same i hs : m_rghs s !! i = Some hs ->
  upd_hs s i (set_pool (Pool (m_pReserve (m_bucketpool hs)) (m_cReserve (m_bucketpool hs))) hs) = s.
Proof.
  intros Hhs. replace (set_pool _ hs) with hs by (by destruct hs as [? ? ? []]). unfold upd_hs, set_rghs. rewrite (list_insert_id _ _ _ Hhs). by destruct s.
Qed.

(** ** Reserving a bucket *)

Lemma sm_read_step i g kd : ts !! t = Some (SmRead i g kd) -> good ts t o own (SmRead i g kd) (sm_read s i g kd).
Proof.
  intros Ht. pose proof (dir0_ok _ _ _ _ _ I) as Hd. pose proof (cap_bounds _ _ (in_arrays _ _ _ _ _ I)) as Hcb. destruct Hd as (_ & Hc & Hle).
  assert (Hlv : same_role (SmRead (K := K) (E := E) i g kd) (Leave i g KDone)) by (right; by exists i, g, (Some (kind_state kd))).
  unfold sm_read. destruct kd.
  - change (NcDIRIGetBucket s stateGrow) with (m_cBucket d0). change (NcDIRIGetBucketMax s stateGrow) with (m_cBucketMax d0).
    destruct (Z.eqb_spec (m_cBucket d0) (m_cBucketMax d0)); [rewrite orb_true_r; by apply (idle_step _ _ _ _ _ I)|].
    rewrite orb_false_r. destruct (_ >=? _); [by apply (idle_step _ _ _ _ _ I)|]. apply (idle_step _ _ _ _ _ I); try done; [by left|].
    cbn. unfold job_ok. cbn. lia.
  - change (NcDIRIGetBucket s stateShrink) with (m_cBucket d0). change (NcDIRIGetBucketMax s stateShrink) with (m_cBucketMax d0).
    destruct (Z.eqb_spec (m_cBucket d0) 0); [rewrite orb_true_r; by apply (idle_step _ _ _ _ _ I)|].
    rewrite orb_false_r. destruct (_ <=? _); [by apply (idle_step _ _ _ _ _ I)|]. apply (idle_step _ _ _ _ _ I); try done; [by left|].
    cbn. unfold job_ok. cbn. replace (u64 (m_cBucket d0 - 1)) with (m_cBucket d0 - 1) by (unfold wrapu; rewrite Z.mod_small; lia). lia.
Qed.

Lemma sm_dec_step j : ts !! t = Some (SmDec j) -> good ts t o own (SmDec j) (sm_dec s j).
Proof.
  intros Ht. pose proof (view_at_t _ _ _ _ _ I t _ Ht) as Hv. destruct (pool_at _ _ _ _ Ht eq_refl) as (hs & rs & Hhs & Hrs & _ & _ & _ & Hco).
  destruct (count_range _ _ _ _ Ht Hco) as [_ Es]. pose proof (class_bounds (j_ihs j) ts t _ Ht) as Hb. cbv zeta in Hb. cbn in Hb. destruct Hco as [C1 C2 C3].
  unfold sm_dec. rewrite Hhs. cbn [try]. unfold pool_dec. rewrite Es. destruct (Z.leb_spec 0 (m_cReserve (m_bucketpool hs) - 1)) as [Hc|Hc].
  - apply (pool_count_step _ _ _ _ rs); try done; [by left|]. apply (pools_update _ (SmDec j)); try done.
    + intros k Hk. cbn. by rewrite of_hs_other.
    + cbn. rewrite of_hs_self. split; lia.
  - apply (pool_count_step _ _ _ _ rs); try done; [by left|]. apply (pools_update _ (SmDec j)); try done.
    + intros k Hk. cbn. by rewrite of_hs_other.
    + cbn. rewrite of_hs_self. split; lia.
Qed.

Lemma sm_inc_step j : ts !! t = Some (SmInc j) -> good ts t o own (SmInc j) (sm_inc s j).
Proof.
  intros Ht. pose proof (view_at_t _ _ _ _ _ I t _ Ht) as Hv. destruct (pool_at _ _ _ _ Ht eq_refl) as (hs & rs & Hhs & Hrs & _ & _ & _ & Hco).
  destruct (count_range _ _ _ _ Ht Hco) as [Es _]. destruct Hco as [C1 C2 C3].
  unfold sm_inc. rewrite Hhs. cbn [try]. unfold pool_inc. rewrite Es.
  apply (pool_count_step _ _ _ _ rs); try done; [by left|]. apply (pools_update _ (SmInc j)); try done.
  - intros k Hk. cbn. by rewrite of_hs_other.
  - cbn. rewrite of_hs_self. split; lia.
Qed.

Lemma job_leave (p : pc) j : ts !! t = Some p -> role_of p = RIn (j_ihs j) (j_group j) (Some (kind_state (j_kind j))) -> same_role p (j_leave j).
Proof. intros Ht Hr. right. by eexists _, _, _. Qed.

Lemma sm_alloc_step j : ts !! t = Some (SmAlloc j) -> mem_ok s (op_mem o) 1 = true -> good ts t o own (SmAlloc j) (sm_alloc junk s j (op_mem o)).
Proof.
  intros Ht Hm. pose proof (view_at_t _ _ _ _ _ I t _ Ht) as Hv. destruct (pool_at _ _ _ _ Ht eq_refl) as (hs & rs & Hhs & Hrs & Hre & Hco' & _ & Hco).
  pose proof (class_bounds (j_ihs j) ts t _ Ht) as Hb. cbv zeta in Hb. cbn in Hb. rewrite of_hs_self in Hb. destruct Hco as [C1 C2 C3].
  unfold sm_alloc. destruct (op_mem o) as [r|]; cbn [PvMEMAlloc].
  - apply bool_decide_eq_true in Hm. pose proof (fresh_1 _ _ Hm) as (_ & _ & Ha & _). pose proof cbBucket_pos. rewrite (proj2 (Z.eqb_neq r 0)) by (unfold addr_ok in Ha; lia).
    rewrite Hhs. cbn [try].
    destruct (update_push junk Hjunk _ _ _ _ _ (in_memory _ _ _ _ _ I) (j_ihs j) _ rs r (m_cReserve (m_bucketpool hs)) Hre Hrs Hm) as (h' & Ep & Hmem).
    replace (m_bucketpool hs) with (Pool (m_pReserve (m_bucketpool hs)) (m_cReserve (m_bucketpool hs))) by (by destruct (m_bucketpool hs)).
    rewrite Ep. cbn [try]. apply (pool_step h' _ _ _ hs _ (r :: rs)); try done; [by left|]. apply (pools_update _ (SmAlloc j)); try done.
    + intros k Hk. cbn. by rewrite of_hs_other.
    + cbn [at_inc reserved at_alloc length m_cReserve]. rewrite of_hs_self. split; lia.
  - cbn [Z.eqb]. rewrite <- (pool_same _ _ Hhs). apply (pool_count_step _ _ _ hs rs); try done; [by eapply job_leave|].
    apply (pools_update _ (SmAlloc j)); try done.
    + intros k Hk. cbn. by rewrite of_hs_other.
    + cbn. rewrite of_hs_self. split; lia.
Qed.

(** ** Locking the buckets *)

(** The job goes on, without a change of the table. *)
Lemma job_step (p p' : pc) : ts !! t = Some p -> calling p = false -> role_of p' = role_of p -> locks_of p' = locks_of p -> abstract p = AOut -> abstract p' = AOut ->
  same_pool p p' -> view_ok d0 d1 rg (cap own) p' -> client_ok (m_chs s) own d0 p' -> good ts t o own p (Next s p').
Proof.
  intros Ht Hin Hr Hl Ha Ha' Hp Hv Hc. apply (good_silent _ _ _ _ _ _ _ rss ph); [|congruence|done]. by apply (position_step _ _ _ _ _ I t p).
Qed.

Lemma job_range (j : job) : job_ok d0 j -> 0 <= j_c j < cap own /\ j_max j = m_cBucketMax d0 /\ bucket d0 (j_c j) = j_c j.
Proof.
  intros (EM & Hc & _). pose proof (dir0_ok _ _ _ _ _ I) as Hd. pose proof (dir_max_pos _ _ Hd). destruct Hd as (_ & Hc0 & Hle).
  split_and!; [lia|lia|done|]. apply bidx_self; lia.
Qed.

Lemma sm_hash_step j : ts !! t = Some (SmHash j) -> good ts t o own (SmHash j) (sm_hash s j).
Proof.
  intros Ht. pose proof (view_at_t _ _ _ _ _ I t _ Ht) as Hv. destruct (job_range j Hv) as (_ & _ & Eb). unfold sm_hash.
  rewrite (inside_hash _ _ _ _ _ I t _ _ _ _ _ Ht eq_refl), Eb. cbn [try]. apply job_step; try done.
Qed.

(** [FTryEnterAsWriter] on a bucket of the directory. *)
Lemma try_step (p pt pf : pc) b : ts !! t = Some p -> calling p = false -> 0 <= b < cap own -> locks_of pt = (baddr rg b, true) :: locks_of p -> role_of pt = role_of p -> same_pool p pt ->
  abstract p = AOut -> abstract pt = AOut -> view_ok d0 d1 rg (cap own) pt -> client_ok (m_chs s) own d0 pt ->
  good ts t o own p (Next s pf) -> good ts t o own p (FTryEnterAsWriter s (baddr rg b) pt pf).
Proof.
  intros Ht Hin Hb Hl Hr Hp Ha Ha' Hv Hc Hf. destruct (lock_exists _ _ _ _ _ I b Hb) as [l Hlk]. unfold FTryEnterAsWriter. rewrite Hlk. cbn [try].
  destruct (lock_free l) eqn:Efr; [|done]. apply (good_silent _ _ _ _ _ _ _ rss ph); [|congruence|done].
  apply (acquire_inv _ _ _ _ _ I t p pt b true l); try done. by left.
Qed.

Lemma release_step (p p' : pc) a : ts !! t = Some p -> calling p = false -> locks_of p ≡ₚ (a, true) :: locks_of p' -> same_role p p' -> same_pool p p' ->
  abstract p = AOut -> abstract p' = AOut -> view_ok d0 d1 rg (cap own) p' -> client_ok (m_chs s) own d0 p' -> good ts t o own p (LeaveAsWriter s a p').
Proof.
  intros Ht Hin Hl Hr Hp Ha Ha' Hv Hc. destruct (release_inv _ _ _ _ _ I t p p' a true Ht Hl Hr Hp Hv Hc) as (l & Hlk & Hw & Hi).
  unfold LeaveAsWriter. rewrite Hlk. cbn [try]. rewrite Hw. apply (good_silent _ _ _ _ _ _ _ rss ph); [done|congruence|done].
Qed.

Lemma sm_try_step j a : ts !! t = Some (SmTry j a) ->
  good ts t o own (SmTry j a) (if op_quiesced o then Next s (SmUnreserve j) else FTryEnterAsWriter s a (SmRecheck j a) (SmUnreserve j)).
Proof.
  intros Ht. pose proof (view_at_t _ _ _ _ _ I t _ Ht) as [Hj ->]. destruct (job_range j Hj) as (Hr & _ & _).
  assert (Hu : good ts t o own (SmTry j (baddr rg (j_c j))) (Next s (SmUnreserve j))) by (by apply job_step).
  destruct (op_quiesced o); [done|]. by apply try_step.
Qed.

(** A bucket that the job has locked and will release. *)
Lemma done_low (j : job) : job_ok d0 j -> done_with d0 rg (cap own) j (baddr rg (j_c j)).
Proof.
  intros Hj. destruct (job_range j Hj) as (Hr & EM & _). exists (j_c j). split; [done|]. split; [done|]. intros _. destruct Hj as (_ & Hc & _).
  pose proof (dir0_ok _ _ _ _ _ I) as (_ & Hc0 & _). unfold total_buckets. lia.
Qed.

Lemma sm_recheck_step j a : ts !! t = Some (SmRecheck j a) -> good ts t o own (SmRecheck j a) (sm_recheck s j a).
Proof.
  intros Ht. pose proof (view_at_t _ _ _ _ _ I t _ Ht) as [Hj ->]. pose proof (done_low j Hj) as Hdone. pose proof (dir0_ok _ _ _ _ _ I) as (_ & Hc0 & Hle).
  pose proof (cap_bounds _ _ (in_arrays _ _ _ _ _ I)). unfold sm_recheck. destruct (j_kind j) eqn:Ek; cbn [kind_state].
  - change (NcDIRIGetBucket s stateGrow) with (m_cBucket d0). destruct (Z.eqb_spec (j_c j) (m_cBucket d0)) as [Ec|Ec]; cbn [negb].
    + apply job_step; try done. cbn. split_and!; try done. unfold job_now, job_ok in *. rewrite Ek in *. tauto.
    + destruct Hj as (EM & Hr & Hc). rewrite Ek in Hc. rewrite (proj2 (Z.ltb_lt _ _)) by lia. cbn [DHTAssert try]. by apply job_step.
  - change (NcDIRIGetBucket s stateShrink) with (m_cBucket d0). destruct Hj as (EM & Hr & Hc). rewrite Ek in Hc.
    replace (u64 (j_c j + 1)) with (j_c j + 1) by (unfold wrapu; rewrite Z.mod_small; lia). rewrite Z.gtb_ltb.
    destruct (Z.eqb_spec (j_c j + 1) (m_cBucket d0)) as [Ec|Ec]; cbn [negb].
    + apply job_step; try done. cbn. split_and!; [|done|lia]. unfold job_now. rewrite Ek. tauto.
    + rewrite (proj2 (Z.ltb_lt _ _)) by lia. cbn [DHTAssert try]. by apply job_step.
Qed.

Lemma sm_undo_step j a : ts !! t = Some (SmUndo j a) -> good ts t o own (SmUndo j a) (LeaveAsWriter s a (SmUnreserve j)).
Proof. intros Ht. apply (release_step (SmUndo j a)); try done. by left. Qed.

Lemma sm_release1_step j a b : ts !! t = Some (SmRelease1 j a b) -> good ts t o own (SmRelease1 j a b) (LeaveAsWriter s a (SmRelease2 j b)).
Proof. intros Ht. pose proof (view_at_t _ _ _ _ _ I t _ Ht) as [_ Hv]. apply (release_step (SmRelease1 j a b)); try done. by left. Qed.

Lemma sm_release2_step j b : ts !! t = Some (SmRelease2 j b) -> good ts t o own (SmRelease2 j b) (LeaveAsWriter s b (j_leave j)).
Proof. intros Ht. apply (release_step (SmRelease2 j b)); try done. by eapply job_leave. Qed.

Lemma sm_unreserve_step j : ts !! t = Some (SmUnreserve j) -> good ts t o own (SmUnreserve j) (sm_unreserve s j).
Proof.
  intros Ht. destruct (pool_at _ _ _ _ Ht eq_refl) as (hs & rs & Hhs & Hrs & _ & _ & _ & Hco).
  destruct (count_range _ _ _ _ Ht Hco) as [Es _]. destruct Hco as [C1 C2 C3]. unfold sm_unreserve. rewrite Hhs. cbn [try]. unfold POOLUnreserve, pool_inc. rewrite Es.
  apply (pool_count_step _ _ _ _ rs); try done; [by eapply job_leave|]. apply (pools_update _ (SmUnreserve j)); try done.
  - intros k Hk. cbn. by rewrite of_hs_other.
  - cbn. rewrite of_hs_self. split; lia.
Qed.

End Resize.
