(* ===== verification/HashArraySteps.v ===== *)
(** * HashArraySteps: the bucket that a split fills

    The array of the new bucket is allocated when there is none.  Nobody can hold the lock
    of the new bucket, because no hash value leads to it yet. *)

From stdpp Require Import gmap.
From S2P Require Import Prelude HashBucket HashBucketProofs HashBucketOps Threads HashTable HashStates HashDir HashViews HashMemory HashInv HashLockSteps HashMoveSteps HashPolicySteps HashSplit HashMerge.

(** The locks of a new array. *)
Lemma init_locks_lookup `{L : BucketLayout} (lk : gmap Z rwl) p n a : init_locks lk p n !! a = if decide (a ∈ block_buckets p n) then Some (Rwl 0 false) else lk !! a.
Proof.
  unfold init_locks. induction (block_buckets p n) as [|q ps IH]; cbn [foldr]; [done|]. destruct (decide (a = q)) as [->|Hne].
  - rewrite lookup_insert_eq, decide_True by (by left). done.
  - rewrite lookup_insert_ne, IH by done. repeat case_decide; try done; set_solver.
Qed.

Section Arrays.
Context {K E : Type} `{KE : CKeyEntry K E} `{L : BucketLayout} `{TP : TableParams} `{LO : !LayoutOk} `{CL : !ClientLaws K E} `{Countable K}.
Context (junk : Z -> BUCKET E) (Hjunk : junk_ok junk).

Abbreviation pc := (@pc K E).
Abbreviation table := (CDynamicHashTable E).

(** More buckets than that do not fit into the address space. *)
Lemma fresh_small (h : heap E) p n : fresh h p n -> (0 < n)%nat -> Z.of_nat n < 2 ^ 63.
Proof.
  intros [_ Hf] Hn. rewrite list.Forall_forall in Hf. pose proof header_pos. pose proof entry_pos. pose proof capacity_pos. pose proof bucket_fits.
  assert (Hcb : 2 <= m_cbBucket) by nia.
  destruct (Hf (p + Z.of_nat (n - 1) * m_cbBucket)) as [[_ Hh] _]; [apply block_bucket_in; exists (n - 1)%nat; split; [lia|done]|].
  destruct (Hf (p + Z.of_nat 0 * m_cbBucket)) as [[Hl _] _]; [apply block_bucket_in; exists 0%nat; split; [lia|done]|]. nia.
Qed.

Section NewArray.
Context (h : heap E) (rg : list Z) (own : list (segments E)) (pools : list Z) (rss : list (list Z)) (lk : gmap Z rwl).
Context (Hmem : memory_ok h rg own pools rss) (Har : arrays_ok rg (cap own)) (Hhd : heads_ok lk rg (cap own)).

(** ** A new array *)

Lemma arrays_double x q : cap own = 2 ^ x -> 1 <= x -> fresh h q (length own) -> arrays_ok (<[Z.to_nat x := q]> rg) (2 * 2 ^ x).
Proof.
  intros Hcap Hx Hf. pose proof (Z.pow_pos_nonneg 2 x ltac:(lia) ltac:(lia)) as Hpos. unfold cap in Hcap.
  assert (Hsm : 2 ^ x < 2 ^ 63) by (pose proof (fresh_small _ _ _ Hf ltac:(lia)); lia).
  assert (Hx63 : x < 63) by (apply (Z.pow_lt_mono_r_iff 2); lia).
  destruct Har as [A1 A2 A3 A4]. unfold cap in A3, A4. rewrite Hcap in A3, A4. split.
  - by rewrite length_insert.
  - exists (x + 1). split; [lia|]. rewrite Z.pow_add_r by lia. lia.
  - intros e He Hle. rewrite list_lookup_insert_ne; [apply A3; lia|]. intros Ee. assert (e = x) as -> by lia. lia.
  - intros v Hv. destruct (Z.lt_ge_cases v (2 ^ x)) as [Hlt|Hge]; [rewrite baddr_low by lia; apply A4; lia|].
    replace v with (2 ^ x + (v - 2 ^ x)) by lia. rewrite (baddr_high _ x _ q); [|lia|apply list_lookup_insert_eq; lia|lia].
    destruct Hf as [_ Hf]. rewrite list.Forall_forall in Hf. apply Hf. apply block_bucket_in. exists (Z.to_nat (v - 2 ^ x)). split; [lia|f_equal; f_equal; lia].
Qed.

(** The addresses of a new array are not those of locks. *)
Lemma fresh_unlocked q n a : fresh h q n -> a ∈ block_buckets q n -> lk !! a = None.
Proof.
  intros [_ Hf] Ha. rewrite list.Forall_forall in Hf. destruct (Hf a Ha) as [_ Hap]. destruct (lk !! a) as [l|] eqn:Hl; [|done].
  destruct (proj1 (Hhd a)) as (b & Hb & ->); [by rewrite Hl|]. unfold cap in Hb. destruct (head_of _ _ _ _ _ Hmem (Z.to_nat b)) as (es & ss & Hs); [lia|].
  destruct (mo_chain _ _ _ _ _ Hmem _ _ Hs) as (es' & ss' & _ & Hch). rewrite Z2Nat.id in Hch by lia. destruct (chain_dom _ _ _ (baddr rg b) Hch ltac:(left)) as [bk Hbk]. specialize (Hap _ _ Hbk). unfold apart in Hap. pose proof cbBucket_pos. lia.
Qed.

Lemma heads_double x q : cap own = 2 ^ x -> 1 <= x -> fresh h q (length own) ->
  heads_ok (init_locks lk q (length own)) (<[Z.to_nat x := q]> rg) (2 * 2 ^ x).
Proof.
  intros Hcap Hx Hf. pose proof (arrays_double x q Hcap Hx Hf) as Har'. pose proof (ar_len _ _ Har) as Hlen.
  assert (Hx63 : x < 64) by (destruct Har' as [_ (y & Hy & Ey) _ _]; apply (Z.pow_lt_mono_r_iff 2); [lia|lia|]; pose proof (Z.pow_le_mono_r 2 y 63); lia).
  pose proof Hcap as Hcap'. unfold cap in Hcap'.
  assert (Hhi : forall i, 0 <= i < 2 ^ x -> baddr (<[Z.to_nat x := q]> rg) (2 ^ x + i) = q + i * m_cbBucket).
  { intros i Hi. apply baddr_high; [lia|apply list_lookup_insert_eq; lia|done]. }
  intros a. rewrite init_locks_lookup. case_decide as Ha.
  - split; [intros _|by eexists]. apply block_bucket_in in Ha as (i & Hi & ->). exists (2 ^ x + Z.of_nat i). split; [lia|]. rewrite Hhi by lia. done.
  - rewrite (Hhd a), Hcap. split.
    + intros (b & Hb & ->). exists b. split; [lia|]. by rewrite baddr_low by lia.
    + intros (b & Hb & Ea). destruct (Z.lt_ge_cases b (2 ^ x)) as [Hlt|Hge]; [exists b; split; [lia|]; by rewrite Ea, baddr_low by lia|].
      destruct Ha. apply block_bucket_in. exists (Z.to_nat (b - 2 ^ x)). split; [lia|]. rewrite Ea. replace b with (2 ^ x + (b - 2 ^ x)) at 1 by lia. rewrite Hhi by lia. by rewrite Z2Nat.id by lia.
Qed.

Lemma entries_empty p n : entries (empty_chains (E := E) p n) = [].
Proof.
  unfold entries, empty_chains. rewrite <- list_fmap_compose. induction (block_buckets p n) as [|q l IH]; cbn; [done|exact IH].
Qed.

End NewArray.

Context (s : table) (ts : list pc) (own : list (segments E)) (rss : list (list Z)) (ph : phase) (I : inv s ts own rss ph).
Context (t : nat) (o : @op K E).

Abbreviation d0 := (m_dirptrs0 s).
Abbreviation d1 := (m_dirptrs1 s).
Abbreviation rg := (m_rgrgBucket s).

(** While a client splits, the others inside only see the table grow. *)
Lemma split_up (p q : pc) i g i' g' e : ts !! t = Some p -> role_of p = RIn i g (Some stateGrow) -> q ∈ ts -> role_of q = RIn i' g' (Some e) -> up e = true.
Proof.
  intros Ht Hp Hq Hr. apply (grow_up _ _ _ _ _ _ _ (in_states _ _ _ _ _ I) i g i' g' e).
  - rewrite <- Hp. eapply in_self. by apply role_at.
  - apply list_elem_of_fmap. by exists q.
Qed.

(** ** The new array is in place *)

Lemma new_array j q x : ts !! t = Some (SpArray j (baddr rg (j_c j))) -> job_now d0 j -> j_kind j = KSplit -> m_cBucketMax d0 = 2 ^ x -> cap own = 2 ^ x -> 1 <= x ->
  fresh (m_heap s) q (length own) ->
  good ts t o own (SpArray j (baddr rg (j_c j)))
    (Next (set_rgrgBucket (<[Z.to_nat x := q]> rg) (set_heap (init_buckets junk (m_heap s) q (length own)) (set_locks (init_locks (m_locks s) q (length own)) s)))
       (SmOther j (baddr rg (j_c j)))).
Proof.
  intros Ht Hj Hk EM Hcap Hx Hf. pose proof (arrays_double _ _ _ (in_arrays _ _ _ _ _ I) x q Hcap Hx Hf) as Har. pose proof Hcap as Hcap'. unfold cap in Hcap'.
  assert (Hx64 : 1 <= x < 64) by (destruct Har as [_ (y & Hy & Ey) _ _]; split; [done|]; apply (Z.pow_lt_mono_r_iff 2); [lia|lia|]; pose proof (Z.pow_le_mono_r 2 y 63); lia).
  set (own' := own ++ empty_chains q (length own)). set (rg' := <[Z.to_nat x := q]> rg).
  assert (Ecap : cap own' = 2 * 2 ^ x) by (unfold cap, own'; rewrite length_app, length_empty_chains; lia).
  assert (Een : entries own' = entries own).
  { unfold own', entries. rewrite fmap_app, concat_app. fold (entries (empty_chains (E := E) q (length own))). by rewrite entries_empty, app_nil_r. }
  pose proof (dir0_ok _ _ _ _ _ I) as Hd. pose proof (dir_max_pos _ _ Hd) as HM. destruct Hj as (EJ & Hjc & Hjn) eqn:Ejob. clear Ejob.
  assert (Hba : forall b, 0 <= b < cap own -> baddr rg' b = baddr rg b) by (intros b Hb; apply baddr_low; lia).
  assert (Hlow : forall b ss, own !! b = Some ss -> own' !! b = Some ss) by (intros b ss Hb; by apply lookup_app_l_Some).
  exists own', rss, ph. split.
  - split; rewrite ?length_insert, ?list_fmap_insert; cbn [m_rgrgBucket m_heap m_locks m_dirptrs0 m_dirptrs1 m_stateCur m_semPolicy m_cCompletions set_rgrgBucket set_heap set_locks].
    + apply I.
    + apply I.
    + by rewrite Ecap.
    + apply (update_array junk Hjunk _ _ _ _ _ (in_memory _ _ _ _ _ I)); try done. apply (in_arrays _ _ _ _ _ I).
    + rewrite Ecap. by eapply heads_double; try apply I.
    + rewrite (roles_same ts t _ _ Ht) by done. apply I.
    + rewrite (locks_same ts t _ _ Ht) by done. apply (locks_create _ _ (in_locks _ _ _ _ _ I)).
      * apply map_subseteq_spec. intros a l Hl. rewrite init_locks_lookup, decide_False; [done|]. intros Ha. by rewrite (fresh_unlocked _ _ _ _ _ _ (in_memory _ _ _ _ _ I) (in_heads _ _ _ _ _ I) q _ a Hf Ha) in Hl.
      * intros a l. rewrite init_locks_lookup. case_decide; [|congruence]. by intros [= <-].
    + rewrite Ecap. destruct (in_dirs _ _ _ _ _ I) as [(D1 & D2 & D3) _ D4]. split; [|right; by rewrite EM|done]. split_and!; try done; lia.
    + by apply (pools_same _ _ _ _ _ I t (SpArray j (baddr rg (j_c j)))).
    + rewrite Ecap. assert (Hvs : forall p, p ∈ ts -> view_ok d0 d1 rg' (2 * 2 ^ x) p).
      { intros p Hp. eapply (view_alloc d0 d1 rg rg' (cap own)); [done|lia|done| |by apply I]. intros i g e Hr.
        rewrite dsel_up; [done|]. eapply split_up; [exact Ht|cbn; by rewrite Hk|done|done]. }
      intros p [->|Hp]%(in_insert _ _ _ _ _ Ht); [|by apply Hvs]. specialize (Hvs _ ltac:(by eapply in_self)). cbn in Hvs |- *.
      split_and!; [done|apply Hvs|]. rewrite EJ, EM. rewrite EJ, EM in Hjc. lia.
    + assert (Hcl : forall p, p ∈ ts -> client_ok (m_chs s) own' d0 p).
      { intros p Hp. destruct (in_clients _ _ _ _ _ I p Hp) as [C1 C2 C3]. split; [done..|]. intros pl k Hst. destruct (C3 pl k Hst) as (ss & cur & Hs & ?).
        exists ss, cur. split; [by apply Hlow|done]. }
      intros p [->|Hp]%(in_insert _ _ _ _ _ Ht); [done|by apply Hcl].
    + intros b ss e Hb He. assert (Hin : e ∈ entries own) by (rewrite <- Een; apply in_entries; eauto). unfold own' in Hb.
      apply lookup_app_Some in Hb as [Hb|[_ Hb]]; [by eapply I|]. apply empty_chains_lookup in Hb as [_ ->]. by apply not_elem_of_nil in He.
    + unfold distinct. rewrite Een. apply I.
  - unfold contents. rewrite Een. constructor.
Qed.

Lemma log_of j : job_now d0 j -> exists x, 0 <= x <= 63 /\ m_cBucketMax d0 = 2 ^ x /\ 0 <= j_max j + j_c j < 2 ^ 64 /\ u64 (j_max j + j_c j) = j_max j + j_c j /\
  Z.log2 (j_max j + j_c j) = x.
Proof.
  intros (EM & Hc & _). destruct (dir0_ok _ _ _ _ _ I) as ((x & Hx & Ex) & Hc0 & Hle). pose proof (cap_bounds _ _ (in_arrays _ _ _ _ _ I)) as Hcb.
  assert (x <= 63) by (apply (Z.pow_le_mono_r_iff 2); lia). exists x. split_and!; try lia.
  - unfold wrapu. rewrite Z.mod_small; lia.
  - rewrite EM, Ex. apply log2_high; lia.
Qed.

Lemma set_rg_same x : rg !! x = Some 0 -> set_rgrgBucket (<[x := 0]> rg) (set_heap (m_heap s) (set_locks (m_locks s) s)) = s.
Proof. intros Hx. rewrite (list_insert_id _ _ _ Hx). by destruct s. Qed.

Lemma sp_array_step j a : ts !! t = Some (SpArray j a) -> mem_ok s (op_mem o) (Z.to_nat (j_max j)) = true ->
  good ts t o own (SpArray j a) (sp_array junk s j a (op_mem o)).
Proof.
  intros Ht Hm. pose proof (view_at_t _ _ _ _ _ I t _ Ht) as [Hj [-> Hk]]. destruct (log_of j Hj) as (x & Hx & Ex & Hw & Eu & Elog).
  pose proof Hj as (EM & Hjc & Hjn). rewrite Hk in Hjn. pose proof (cap_bounds _ _ (in_arrays _ _ _ _ _ I)) as Hcb.
  pose proof (ds_cap _ _ _ _ _ (in_dirs _ _ _ _ _ I)) as Hcap. pose proof (Z.pow_pos_nonneg 2 x ltac:(lia) ltac:(lia)) as Hpos.
  unfold sp_array. rewrite Eu, DIRILog2_ok, Elog by done. cbn [try].
  destruct (lookup_lt_is_Some_2 rg (Z.to_nat x)) as [rgb Hrgb]; [rewrite (ar_len _ _ (in_arrays _ _ _ _ _ I)); lia|]. rewrite Hrgb. cbn [try].
  assert (Hundo : good ts t o own (SpArray j (baddr rg (j_c j))) (Next s (SmUndo j (baddr rg (j_c j))))).
  { apply (job_step _ _ _ _ _ I); try done. apply (done_low _ _ _ _ _ I). unfold job_ok. rewrite Hk. lia. }
  destruct (Z.eqb_spec rgb 0) as [->|Hne].
  - assert (Ecap : cap own = 2 ^ x).
    { destruct Hcap as [|Hcap]; [lia|]. destruct (baddr_word _ _ (2 ^ x) (in_arrays _ _ _ _ _ I) ltac:(lia)) as (pb & Hpb & Hne & _).
      rewrite Z.log2_pow2 in Hpb by lia. congruence. }
    assert (Hx1 : 1 <= x) by (destruct (Z.eq_dec x 0) as [->|]; [cbn in Ecap; lia|lia]).
    assert (Elen : Z.to_nat (j_max j) = length own) by (unfold cap in Ecap; lia).
    unfold ErrDIRInitBucketArray. rewrite (proj2 (Z.ltb_lt 0 (j_max j))) by lia. cbn [DHTAssert mbind option_bind try]. rewrite Elen in *.
    destruct (op_mem o) as [q|].
    + rewrite bool_decide_true by done. apply bool_decide_eq_true in Hm. by apply new_array.
    + rewrite bool_decide_false by done. rewrite set_rg_same by done. exact Hundo.
  - apply (job_step _ _ _ _ _ I); try done. cbn. split_and!; [done|done|]. destruct Hcap as [Hcap|]; [|lia].
    pose proof (ar_null _ _ (in_arrays _ _ _ _ _ I) x ltac:(lia) ltac:(lia)). congruence.
Qed.

(** ** The second bucket *)

(** No client has locked a bucket beyond the directory while this one is about to split. *)
Lemma high_unheld j (q : pc) w t' : ts !! t = Some (SmOther j (baddr rg (j_c j))) -> job_now d0 j -> j_kind j = KSplit -> j_max j + j_c j < cap own ->
  ts !! t' = Some q -> (baddr rg (j_max j + j_c j), w) ∈ locks_of q -> False.
Proof.
  intros Ht Hj Hk Hlt Ht' Hin. pose proof (in_self _ _ _ Ht') as Hq. pose proof (in_views _ _ _ _ _ I q Hq) as Hv.
  pose proof Hj as (EM & Hjc & Hjn). rewrite Hk in Hjn. pose proof (dir0_ok _ _ _ _ _ I) as Hd. pose proof (dir_max_pos _ _ Hd) as HM. destruct Hd as (_ & Hc0 & Hle).
  assert (Hup : forall i g e, role_of q = RIn i g (Some e) -> up e = true).
  { intros i g e Hr. eapply split_up; [exact Ht|cbn; by rewrite Hk|done|done]. }
  (* a bucket below is another one *)
  assert (Hlow : forall b, 0 <= b < total_buckets d0 -> baddr rg (j_max j + j_c j) <> baddr rg b).
  { intros b Hb Eb. unfold total_buckets in Hb. apply (inj_addr _ _ _ _ _ I) in Eb; lia. }
  assert (Hkind : forall j' : job, role_of q = RIn (j_ihs j') (j_group j') (Some (kind_state (j_kind j'))) -> j_kind j' = KSplit).
  { intros j' Hr. specialize (Hup _ _ _ Hr). by destruct (j_kind j'). }
  assert (Hjob : forall j' : job, job_ok d0 j' \/ job_now d0 j' -> 0 <= j_c j' < total_buckets d0).
  { intros j' [(E1 & E2 & _)|(E1 & E2 & _)]; unfold total_buckets; lia. }
  destruct (owner q) as [[plock key]|] eqn:Ho.
  - rewrite (owner_locks _ _ _ Ho) in Hin. apply list_elem_of_singleton in Hin. injection Hin as Ea _. rewrite (owner_head _ _ _ _ _ I q plock key Hq Ho) in Ea.
    eapply Hlow; [|exact Ea]. by apply (bucket_range (cap own)), (dir0_ok _ _ _ _ _ I).
  - destruct q; cbn [owner] in Ho; try discriminate Ho; cbn [locks_of owner] in Hin; rewrite ?Ho in Hin; try (by apply not_elem_of_nil in Hin);
      try (specialize (Hkind _ eq_refl)); cbn [view_ok] in Hv;
      try (apply list_elem_of_singleton in Hin; injection Hin as Ea _).
    + destruct Hv as [(E1 & E2 & _ & Ei & Hu & _) Hh]. specialize (Hup _ _ _ eq_refl). rewrite (dsel_up _ _ _ Hup) in *. specialize (Hu Hup).
      rewrite Hh in Ea. eapply Hlow; [|exact Ea]. rewrite Ei. pose proof (bidx_range cBucketMaxBefore cBucketBefore (Hash_key key) ltac:(lia) E2). unfold total_buckets. lia.
    + destruct Hv as [_ (b & Hb & Hh & Hu)]. specialize (Hup _ _ _ eq_refl). specialize (Hu Hup). rewrite Hh in Ea. eapply Hlow; [|exact Ea]. lia.
    + destruct Hv as [Hv ->]. eapply Hlow; [|exact Ea]. auto.
    + destruct Hv as [Hv [-> _]]. eapply Hlow; [|exact Ea]. auto.
    + destruct Hv as [Hv [-> _]]. eapply Hlow; [|exact Ea]. auto.
    + destruct Hv as (Hv & -> & -> & _). pose proof Hv as (E1 & E2 & E3). rewrite Hkind in E3.
      (* it would hold the same first bucket *)
      assert (j_c j0 = j_c j) as Ej by lia. destruct (Nat.eq_dec t t') as [->|Hne]; [rewrite Ht in Ht'; discriminate Ht'|].
      eapply (writer_alone _ _ (in_locks _ _ _ _ _ I) t t' _ _ (baddr rg (j_c j)) true Hne); [apply locks_at, Ht|apply locks_at, Ht'|left|]. cbn. rewrite Ej. left.
    + destruct Hv as [(b & Hb & -> & Hu) (b' & Hb' & -> & Hu')]. apply elem_of_cons in Hin as [Ea|Ea]; [|apply list_elem_of_singleton in Ea]; injection Ea as Ea _;
        eapply Hlow; [|exact Ea| |exact Ea]; [specialize (Hu Hkind)|specialize (Hu' Hkind)]; lia.
    + destruct Hv as (b & Hb & -> & Hu). eapply Hlow; [|exact Ea]. specialize (Hu Hkind). lia.
    + destruct Hv as (b & Hb & -> & Hu). eapply Hlow; [|exact Ea]. specialize (Hu Hkind). lia.
Qed.

Lemma sm_other_step j a : ts !! t = Some (SmOther j a) -> good ts t o own (SmOther j a) (sm_other s j a (op_quiesced o)).
Proof.
  intros Ht. pose proof (view_at_t _ _ _ _ _ I t _ Ht) as [Hj [-> Hlt]]. destruct (log_of j Hj) as (x & Hx & Ex & Hw & Eu & Elog). pose proof Hj as (EM & Hjc & Hjn).
  unfold sm_other. rewrite (Z.add_comm (j_c j)), Eu, DIRILog2_ok by done. cbn [try]. rewrite (Resolve_ok s (cap own)) by (try apply I; lia). cbn [try].
  destruct (j_kind j) eqn:Hk.
  - destruct (lock_exists _ _ _ _ _ I (j_max j + j_c j) ltac:(lia)) as [l Hl]. rewrite Hl. cbn [try].
    assert (Hfr : lock_free l = true).
    { eapply (free_lock _ _ (in_locks _ _ _ _ _ I)); [exact Hl|]. intros xs w [t' Hxs]%list_elem_of_lookup Hin. rewrite list_lookup_fmap in Hxs.
      destruct (ts !! t') as [q|] eqn:Ht'; [|done]. cbn in Hxs. injection Hxs as <-. by eapply high_unheld. }
    rewrite Hfr. cbn [DHTAssert try]. apply (good_silent _ _ _ _ _ _ _ rss ph); [|done|done].
    set (p' := SmDo j (baddr rg (j_c j)) (baddr rg (j_max j + j_c j))).
    eapply (lock_step _ _ _ _ _ I t (SmOther j (baddr rg (j_c j))) p'); try done; [by left|].
    eapply (locks_acquire _ _ (in_locks _ _ _ _ _ I) t _ _ _ true); [by apply locks_at|done| |done]. cbn. apply perm_swap.
  - assert (Hundo : good ts t o own (SmOther j (baddr rg (j_c j))) (Next s (SmUndo j (baddr rg (j_c j))))).
    { apply (job_step _ _ _ _ _ I); try done. apply (done_low _ _ _ _ _ I). unfold job_ok. rewrite Hk. lia. }
    destruct (op_quiesced o); [done|]. destruct (lock_exists _ _ _ _ _ I (j_max j + j_c j) ltac:(lia)) as [l Hl]. unfold FTryEnterAsWriter. rewrite Hl. cbn [try].
    destruct (lock_free l) eqn:Hfr; [|done]. apply (good_silent _ _ _ _ _ _ _ rss ph); [|done|done].
    set (p' := SmDo j (baddr rg (j_c j)) (baddr rg (j_max j + j_c j))).
    eapply (lock_step _ _ _ _ _ I t (SmOther j (baddr rg (j_c j))) p'); try done; [by left|].
    eapply (locks_acquire _ _ (in_locks _ _ _ _ _ I) t _ _ _ true); [by apply locks_at|done| |done]. cbn. apply perm_swap.
Qed.

End Arrays.

(** ** The entries are moved

    The step of [BKTISplit] and [BKTIMerge] that changes the number of buckets and moves
    the entries, with both buckets locked. *)

(** ** The entries of two chains *)

Lemma concat_update2 {X} (ls : list (list X)) (i j : nat) x1 x2 y1 y2 : ls !! i = Some x1 -> ls !! j = Some x2 -> i <> j ->
  concat (<[i := y1]> (<[j := y2]> ls)) ≡ₚ y1 ++ y2 ++ concat (<[i := []]> (<[j := []]> ls)).
Proof.
  intros Hi Hj Hij. rewrite (concat_take _ i x1) by (by rewrite list_lookup_insert_ne by done). apply Permutation_app_head.
  rewrite (list_insert_insert_ne _ i j) by done. rewrite (concat_take _ j x2) by (by rewrite list_lookup_insert_ne by done). apply Permutation_app_head.
  by rewrite (list_insert_insert_ne _ j i) by done.
Qed.

Lemma entries_update2 {E} (own : list (segments E)) (b b' : nat) ss ss' ds ds' : own !! b = Some ss -> own !! b' = Some ds -> b <> b' ->
  flat ss' ++ flat ds' ≡ₚ flat ss ++ flat ds -> entries (<[b := ss']> (<[b' := ds']> own)) ≡ₚ entries own.
Proof.
  intros Hb Hb' Hne Hp. unfold entries. rewrite !list_fmap_insert.
  assert (E1 : (flat <$> own) !! b = Some (flat ss)) by (by rewrite list_lookup_fmap, Hb).
  assert (E2 : (flat <$> own) !! b' = Some (flat ds)) by (by rewrite list_lookup_fmap, Hb').
  set (fl := flat <$> own) in *. rewrite (concat_update2 fl b b' _ _ _ _ E1 E2 Hne), app_assoc, Hp, <- app_assoc.
  rewrite <- (concat_update2 fl b b' _ _ _ _ E1 E2 Hne). by rewrite (list_insert_id fl b' _ E2), (list_insert_id fl b _ E1).
Qed.

Lemma filter_parts {X} (f : X -> bool) l : filter (fun x => f x = true) l ++ filter (fun x => f x = false) l ≡ₚ l.
Proof.
  induction l as [|x l IH]; [done|]. rewrite !filter_cons. destruct (f x); [rewrite decide_True, decide_False by done; cbn; by rewrite IH|].
  rewrite decide_False, decide_True by done. by rewrite <- Permutation_middle, IH.
Qed.

Section Entries.
Context {K E : Type} `{KE : CKeyEntry K E} `{L : BucketLayout} `{TP : TableParams} `{LO : !LayoutOk} `{CL : !ClientLaws K E} `{Countable K}.
Context (junk : Z -> BUCKET E) (Hjunk : junk_ok junk).

Abbreviation pc := (@pc K E).
Abbreviation table := (CDynamicHashTable E).

(** A chain without entries is one bucket. *)
Lemma empty_chain (h : heap E) p es ss : chain h None ((p, es) :: ss) -> (forall e, e ∉ flat ((p, es) :: ss)) -> es = [] /\ ss = [].
Proof.
  intros (_ & Hf & _) Hno. destruct es as [|e es]; [|destruct (Hno e); left]. split; [done|]. destruct ss as [|x ss]; [done|].
  specialize (Hf ltac:(done)). pose proof C_pos. cbn in Hf. lia.
Qed.

Context (s : table) (ts : list pc) (own : list (segments E)) (rss : list (list Z)) (ph : phase) (I : inv s ts own rss ph).
Context (t : nat) (o : @op K E).

Abbreviation d0 := (m_dirptrs0 s).
Abbreviation d1 := (m_dirptrs1 s).
Abbreviation rg := (m_rgrgBucket s).

(** Two chains and a pool do not overlap. *)
Lemma regions_three (b b' k : nat) ss ds rs : own !! b = Some ss -> own !! b' = Some ds -> b <> b' -> rss !! k = Some rs -> NoDup (ss.*1 ++ ds.*1 ++ rs).
Proof.
  intros Hb Hb' Hne Hk. pose proof (mo_nodup _ _ _ _ _ (in_memory _ _ _ _ _ I)) as Hn.
  pose proof (region_chain own rss b ss Hb) as R1. pose proof (region_chain own rss b' ds Hb') as R2. pose proof (region_pool own rss k rs Hk) as R3.
  pose proof (lookup_lt_Some _ _ _ Hb). pose proof (lookup_lt_Some _ _ _ Hb').
  apply list.NoDup_app. split_and!; [by eapply region_nodup| |apply list.NoDup_app; split_and!; [by eapply region_nodup| |by eapply region_nodup]].
  - intros z Hz [Hz'|Hz']%elem_of_app.
    + by apply (regions_disjoint _ b b' _ _ z Hn R1 R2 Hne Hz).
    + apply (regions_disjoint _ b (length own + k) _ _ z Hn R1 R3 ltac:(lia) Hz Hz').
  - intros z Hz Hz'. apply (regions_disjoint _ b' (length own + k) _ _ z Hn R2 R3 ltac:(lia) Hz Hz').
Qed.

(** ** The invariant after the step *)

Lemma moved_inv h j a b hs pool dn own' rs' : ts !! t = Some (SmDo j a b) -> m_rghs s !! j_ihs j = Some hs -> length own' = length own ->
  memory_ok h rg own' (<[j_ihs j := m_pReserve pool]> (reserves s)) (<[j_ihs j := rs']> rss) ->
  pools_ok (<[j_ihs j := m_cReserve pool]> (counts s)) (<[j_ihs j := rs']> rss) (<[t := SmRelease1 j a b]> ts) ->
  dirs_ok (m_stateCur s) ph (cap own) dn d1 ->
  (forall t' q, ts !! t' = Some q -> t' <> t -> view_ok dn d1 rg (cap own) q) -> view_ok dn d1 rg (cap own) (SmRelease1 (K := K) (E := E) j a b) ->
  (forall t' q plock key, ts !! t' = Some q -> t' <> t -> owner q = Some (plock, key) ->
     own' !! Z.to_nat (bucket dn (Hash_key key)) = own !! Z.to_nat (bucket d0 (Hash_key key))) ->
  placed own' dn -> entries own' ≡ₚ entries own ->
  good ts t o own (SmDo j a b) (Next (upd_hs (set_dirptrs dn d1 (set_heap h s)) (j_ihs j) (set_pool pool hs)) (SmRelease1 j a b)).
Proof.
  intros Ht Hhs Hlen Hm Hp Hds Hvo Hvs Hcl Hpl Hen. set (i := j_ihs j) in *.
  assert (Hdis : distinct own') by (unfold distinct; rewrite Hen; apply I).
  exists own', (<[i := rs']> rss), ph. split; [|rewrite (contents_perm own' _ Hdis Hen); constructor].
  set (s1 := set_dirptrs dn d1 (set_heap h s)). set (s' := upd_hs s1 i _).
  assert (E1 : reserves s' = <[i := m_pReserve pool]> (reserves s)) by (by apply (fmap_upd (fun hs => m_pReserve (m_bucketpool hs)) s1 i hs)).
  assert (E2 : counts s' = <[i := m_cReserve pool]> (counts s)) by (by apply (fmap_upd (fun hs => m_cReserve (m_bucketpool hs)) s1 i hs)).
  assert (E3 : meters s' = meters s) by (by apply (fmap_upd_same m_cms s1 i hs)).
  assert (E4 : m_chs s' = m_chs s) by apply (chs_upd s1).
  assert (E5 : cap own' = cap own) by (unfold cap; by rewrite Hlen).
  split; rewrite ?E1, ?E2, ?E3, ?E4, ?E5, ?length_insert, ?list_fmap_insert; try apply I; try done.
  - rewrite (roles_same ts t (SmDo j a b) _ Ht) by done. apply I.
  - rewrite (locks_same ts t (SmDo j a b) _ Ht) by done. apply I.
  - intros q [->|(t' & Hne & Ht')]%(in_insert_other _ _ _ _ _ Ht); [done|by eapply Hvo].
  - intros q [->|(t' & Hne & Ht')]%(in_insert_other _ _ _ _ _ Ht); [done|].
    destruct (in_clients _ _ _ _ _ I q ltac:(by eapply in_self)) as [C1 C2 C3]. split; [done..|]. intros pl key Hs.
    change (m_dirptrs0 s') with dn. rewrite (Hcl t' q pl key Ht' Hne (stands_owner _ _ _ Hs)). by apply C3.
Qed.

(** The count of the pool after the step. *)
Lemma moved_pools j a b hs rs rs' c' : ts !! t = Some (SmDo j a b) -> m_rghs s !! j_ihs j = Some hs -> rss !! j_ihs j = Some rs ->
  let c := m_cReserve (m_bucketpool hs) in (rs' = rs /\ c' = s32 (c + 1)) \/ (exists x, rs = x :: rs' /\ c' = c) ->
  pools_ok (<[j_ihs j := c']> (counts s)) (<[j_ihs j := rs']> rss) (<[t := SmRelease1 j a b]> ts).
Proof.
  intros Ht Hhs Hrs c Hc. destruct (pool_at _ _ _ _ _ I t _ _ _ _ Ht eq_refl) as (hs' & rs0 & Hhs' & Hrs0 & _ & _ & _ & Hco).
  rewrite Hhs in Hhs'. injection Hhs' as <-. rewrite Hrs in Hrs0. injection Hrs0 as <-.
  destruct (count_range _ _ _ _ _ I t _ _ _ _ Ht Hco) as [Es _]. fold c in Es. destruct Hco as [C1 C2 C3]. fold c in C1, C2, C3.
  apply (pools_update _ _ _ _ _ I t _ (SmDo j a b)); try done.
  - intros k Hk. cbn. by rewrite of_hs_other.
  - cbn. rewrite of_hs_self. destruct Hc as [[-> ->]|(x & -> & ->)]; [rewrite Es|cbn in C1]; split; lia.
Qed.

(** ** Splitting *)

(** While a client may split, the state does not promise that all buckets are split. *)
Lemma grow_entered (p : pc) i g dn : ts !! t = Some p -> role_of p = RIn i g (Some stateGrow) -> m_cBucket d0 < m_cBucketMax d0 -> dirs_state (m_stateCur s) ph dn d1.
Proof.
  intros Ht Hr Hlt. pose proof (ds_state _ _ _ _ _ (in_dirs _ _ _ _ _ I)) as Hs. unfold dirs_state in *.
  assert (Hin : RIn i g (Some stateGrow) ∈ role_of <$> ts) by (rewrite <- Hr; eapply in_self; by apply role_at).
  pose proof (inside_phase _ _ _ _ _ _ _ (in_states _ _ _ _ _ I) _ _ _ Hin) as Hph. destruct ph as [|es|pred n].
  - destruct Hph as [_ <-]. done.
  - destruct Hph as [Hed E0]. rewrite <- E0 in Hed. destruct es; try done. cbn in Hs. lia.
  - destruct Hph as [Hed [E0|E0]]; [by rewrite <- E0|]. rewrite <- E0 in Hed. destruct (m_stateCur s); try done. cbn in Hs. lia.
Qed.

Lemma shrink_entered (p : pc) i g dn : ts !! t = Some p -> role_of p = RIn i g (Some stateShrink) -> m_cBucket d0 <> 0 -> dirs_state (m_stateCur s) ph dn d1.
Proof.
  intros Ht Hr Hne. pose proof (ds_state _ _ _ _ _ (in_dirs _ _ _ _ _ I)) as Hs. unfold dirs_state in *.
  assert (Hin : RIn i g (Some stateShrink) ∈ role_of <$> ts) by (rewrite <- Hr; eapply in_self; by apply role_at).
  pose proof (inside_phase _ _ _ _ _ _ _ (in_states _ _ _ _ _ I) _ _ _ Hin) as Hph. destruct ph as [|es|pred n].
  - destruct Hph as [_ <-]. done.
  - destruct Hph as [Hed E0]. rewrite <- E0 in Hed. destruct es; try done. cbn in Hs. lia.
  - destruct Hph as [Hed [E0|E0]]; [by rewrite <- E0|]. rewrite <- E0 in Hed. destruct (m_stateCur s); try done. cbn in Hs. lia.
Qed.

(** The two buckets of a job, and its pool. *)
Lemma job_buckets j a b : ts !! t = Some (SmDo j a b) -> exists hs rs es ss fs ds,
  m_rghs s !! j_ihs j = Some hs /\ rss !! j_ihs j = Some rs /\ reserves s !! j_ihs j = Some (m_pReserve (m_bucketpool hs)) /\
  free_list (m_heap s) (m_pReserve (m_bucketpool hs)) rs /\ rs <> [] /\
  own !! Z.to_nat (j_c j) = Some ((a, es) :: ss) /\ own !! Z.to_nat (j_max j + j_c j) = Some ((b, fs) :: ds) /\
  chain (m_heap s) None ((a, es) :: ss) /\ chain (m_heap s) None ((b, fs) :: ds) /\ (Z.to_nat (j_c j) <> Z.to_nat (j_max j + j_c j))%nat.
Proof.
  intros Ht. pose proof (view_at_t _ _ _ _ _ I t _ Ht) as ((EM & Hjc & _) & -> & -> & Hlt).
  destruct (pool_at _ _ _ _ _ I t _ _ _ _ Ht eq_refl) as (hs & rs & Hhs & Hrs & Hre & _ & Hf & Hco).
  destruct (chain_of _ _ _ _ _ I (j_c j) ltac:(lia)) as (es & ss & Hs & Hch & _). destruct (chain_of _ _ _ _ _ I (j_max j + j_c j) ltac:(lia)) as (fs & ds & Hds & Hch' & _).
  exists hs, rs, es, ss, fs, ds. split_and!; try done; [|lia].
  intros ->. pose proof (class_bounds (j_ihs j) ts t _ Ht) as Hb. cbv zeta in Hb. cbn in Hb. rewrite of_hs_self in Hb. destruct Hco as [C1 C2 _]. cbn in C1. lia.
Qed.

(** The other clients hold neither bucket. *)
Lemma others_apart j a b t' (q : pc) x w : ts !! t = Some (SmDo j a b) -> ts !! t' = Some q -> t' <> t -> x = a \/ x = b -> (x, w) ∉ locks_of q.
Proof.
  intros Ht Ht' Hne Hx Hin. eapply (writer_alone _ _ (in_locks _ _ _ _ _ I) t t' _ _ x w); [done|apply locks_at, Ht|apply locks_at, Ht'| |done].
  cbn. destruct Hx as [-> | ->]; set_solver.
Qed.

Lemma dir_eq (d : DIRPTRS) : d = Dirptrs (m_cBucketMax d) (m_cBucket d).
Proof. by destruct d. Qed.

Lemma split_step j a b : ts !! t = Some (SmDo j a b) -> j_kind j = KSplit -> good ts t o own (SmDo j a b) (sm_do s j a b).
Proof.
  intros Ht Hk. pose proof (view_at_t _ _ _ _ _ I t _ Ht) as (Hj & Ea & Eb & Hlt). pose proof Hj as (EM & Hjc & Hjn). rewrite Hk in Hjn.
  destruct (job_buckets j a b Ht) as (hs & rs & es & ss & fs & ds & Hhs & Hrs & Hre & Hf & Hrn & Hs & Hds & Hch & Hch' & Hne).
  pose proof (dir0_ok _ _ _ _ _ I) as Hd. pose proof (dir_max_pos _ _ Hd) as HM. pose proof (cap_bounds _ _ (in_arrays _ _ _ _ _ I)) as Hcb.
  set (M := m_cBucketMax d0) in *. set (c := j_c j) in *. rewrite EM in *. assert (Ed : d0 = Dirptrs M c) by (rewrite Hjn; apply dir_eq).
  assert (Hrng : forall h, 0 <= bucket d0 h < M + c) by (intros h; pose proof (bucket_range _ _ h Hd) as Hr; by rewrite Hjn).
  destruct (empty_chain _ _ _ _ Hch') as [-> ->].
  { intros e He. pose proof (in_placed _ _ _ _ _ I _ _ _ Hds He) as Hp. pose proof (Hrng (Hash_entry e)). lia. }
  pose proof (regions_three _ _ _ _ _ _ Hs Hds Hne Hrs) as Hnd. cbn [fmap list_fmap fst app] in Hnd.
  destruct (BKTIDoSplit_ok (m_heap s) (m_bucketpool hs) a es ss b rs M c (mo_heap _ _ _ _ _ (in_memory _ _ _ _ _ I)) Hch Hch' Hf Hrn Hnd HM)
    as (h' & pool' & es0 & ss0 & es1 & ss1 & rs' & Esp & Hok & Hc0 & Hc1 & Hf' & F0 & F1 & Hnd' & Hpool & Htch & Hsub).
  set (stay := fun e => Hash_entry e .& u64 (M - 1 + M) =? c) in *.
  assert (Hstay : forall e, stay e = (Hash_entry e mod (2 * M) =? c)).
  { intros e. unfold stay. f_equal. destruct Hd as (Hpow & _ & Hle). rewrite <- land_mask by (try done; fold M in Hle; lia). fold M. f_equal. unfold wrapu. f_equal.
    fold M in Hle. rewrite (Z.mod_small (M - 1)) by lia. done. }
  unfold sm_do. rewrite Hhs, Hk. cbn [try]. fold M c. rewrite <- Hjn, Z.eqb_refl. cbn [DHTAssert try]. rewrite Esp. cbn [try].
  replace (u64 (c + 1)) with (c + 1) by (unfold wrapu; rewrite Z.mod_small; lia).
  set (own' := <[Z.to_nat c := (a, es0) :: ss0]> (<[Z.to_nat (M + c) := (b, es1) :: ss1]> own)).
  apply (moved_inv h' j a b hs pool' (Dirptrs M (c + 1)) own' rs'); try done.
  - unfold own'. by rewrite !length_insert.
  - eapply (update_pair junk Hjunk _ _ _ _ _ (in_memory _ _ _ _ _ I)); [exact Hs|exact Hds|done|done|done|done|done|done|done|done|done|done].
  - apply (moved_pools _ _ _ hs rs); done.
  - split; [|apply (in_dirs _ _ _ _ _ I)|].
    + destruct Hd as (Hpow & _ & _). split; [done|]. cbn. lia.
    + eapply grow_entered; [exact Ht|cbn; by rewrite Hk|lia].
  - intros t' q Ht' Hne'. apply view_grow; try done; try lia.
    + intros i g e Hr. eapply (split_up _ _ _ _ _ I t (SmDo j a b) q); [exact Ht|cbn; by rewrite Hk|by eapply in_self|done].
    + intros w. rewrite <- Ea. eapply others_apart; [exact Ht|done|done|by left].
    + rewrite <- Ed. apply I. by eapply in_self.
  - cbn. split; [exists c|exists (M + c)]; (split; [lia|]); (split; [done|]); intros _; unfold total_buckets; cbn; lia.
  - intros t' q pl key Ht' Hne' Ho. assert (Hnc : bucket d0 (Hash_key key) <> c).
    { eapply (owner_apart _ _ _ _ _ I t (SmDo j a b) q); [exact Ht|cbn; rewrite Ea; left|done|done|done]. }
    rewrite Ed in Hnc. rewrite (bucket_grow M c) by (try done; lia). rewrite <- Ed. rewrite <- Ed in Hnc. pose proof (Hrng (Hash_key key)).
    unfold own'. rewrite !list_lookup_insert_ne by lia. done.
  - assert (Hg : forall h, bucket (Dirptrs M (c + 1)) h = if bucket d0 h =? c then (if h mod (2 * M) =? c then c else M + c) else bucket d0 h).
    { intros h. rewrite Ed. apply bidx_grow; lia. }
    intros i ss' e Hi He. rewrite Hg. unfold own' in Hi. destruct (decide (i = Z.to_nat c)) as [->|N1].
    { rewrite list_lookup_insert_eq in Hi by (rewrite length_insert; by eapply lookup_lt_Some). injection Hi as <-. rewrite F0 in He. apply list_elem_of_filter in He as [Hst He].
      rewrite (in_placed _ _ _ _ _ I _ _ _ Hs He), Z2Nat.id, Z.eqb_refl by lia. change (stay e = true) in Hst. rewrite Hstay in Hst. by rewrite Hst. }
    rewrite list_lookup_insert_ne in Hi by done. destruct (decide (i = Z.to_nat (M + c))) as [->|N2].
    { rewrite list_lookup_insert_eq in Hi by (by eapply lookup_lt_Some). injection Hi as <-. rewrite F1 in He. apply list_elem_of_filter in He as [Hst He].
      rewrite (in_placed _ _ _ _ _ I _ _ _ Hs He), Z2Nat.id, Z.eqb_refl by lia. change (stay e = false) in Hst. rewrite Hstay in Hst. rewrite Hst. lia. }
    rewrite list_lookup_insert_ne in Hi by done. rewrite (in_placed _ _ _ _ _ I _ _ _ Hi He). by rewrite (proj2 (Z.eqb_neq _ _)) by lia.
  - apply (entries_update2 _ _ _ _ _ _ _ Hs Hds Hne). rewrite F0, F1. change (flat [(b, [])]) with (@nil E). rewrite app_nil_r. apply (filter_parts stay).
Qed.

(** ** Merging *)

Lemma merge_down (p q : pc) i g i' g' e : ts !! t = Some p -> role_of p = RIn i g (Some stateShrink) -> q ∈ ts -> role_of q = RIn i' g' (Some e) -> down e = true.
Proof.
  intros Ht Hp Hq Hr. apply (shrink_down _ _ _ _ _ _ _ (in_states _ _ _ _ _ I) i g i' g' e).
  - rewrite <- Hp. eapply in_self. by apply role_at.
  - apply list_elem_of_fmap. by exists q.
Qed.

Lemma merge_step j a b : ts !! t = Some (SmDo j a b) -> j_kind j = KMerge -> good ts t o own (SmDo j a b) (sm_do s j a b).
Proof.
  intros Ht Hk. pose proof (view_at_t _ _ _ _ _ I t _ Ht) as (Hj & Ea & Eb & Hlt). pose proof Hj as (EM & Hjc & Hjn). rewrite Hk in Hjn.
  destruct (job_buckets j a b Ht) as (hs & rs & es & ss & fs & ds & Hhs & Hrs & Hre & Hf & Hrn & Hs & Hds & Hch & Hch' & Hne).
  pose proof (dir0_ok _ _ _ _ _ I) as Hd. pose proof (dir_max_pos _ _ Hd) as HM. pose proof (cap_bounds _ _ (in_arrays _ _ _ _ _ I)) as Hcb.
  set (M := m_cBucketMax d0) in *. set (c := j_c j) in *. rewrite EM in *. assert (Ed : d0 = Dirptrs M (c + 1)) by (rewrite Hjn; apply dir_eq).
  pose proof (regions_three _ _ _ _ _ _ Hds Hs (not_eq_sym Hne) Hrs) as Hnd. cbn [fmap list_fmap fst app] in Hnd.
  destruct (BKTIDoMerge_ok (m_heap s) (m_bucketpool hs) b fs ds a es ss rs (mo_heap _ _ _ _ _ (in_memory _ _ _ _ _ I)) Hch' Hch Hf Hrn Hnd)
    as (h' & pool' & es' & ss' & rs' & Em & Hok & Hcs & Hcd & Hf' & Fl & Hnd' & Hpool & Htch & Hsub).
  unfold sm_do. rewrite Hhs, Hk. cbn [try]. fold M c. replace (u64 (c + 1)) with (c + 1) by (unfold wrapu; rewrite Z.mod_small; lia).
  rewrite <- Hjn, Z.eqb_refl. cbn [DHTAssert try]. rewrite Em. cbn [try].
  replace (u64 (c + 1 - 1)) with c by (unfold wrapu; rewrite Z.mod_small; lia).
  set (own' := <[Z.to_nat (M + c) := [(b, [])]]> (<[Z.to_nat c := (a, es') :: ss']> own)).
  apply (moved_inv h' j a b hs pool' (Dirptrs M c) own' rs'); try done.
  - unfold own'. by rewrite !length_insert.
  - eapply (update_pair junk Hjunk _ _ _ _ _ (in_memory _ _ _ _ _ I)); [exact Hds|exact Hs|done|done|done|done|done|done|done|done|done|done].
  - apply (moved_pools _ _ _ hs rs); done.
  - split; [|apply (in_dirs _ _ _ _ _ I)|].
    + destruct Hd as (Hpow & _ & _). split; [done|]. cbn. lia.
    + eapply shrink_entered; [exact Ht|cbn; by rewrite Hk|lia].
  - intros t' q Ht' Hne'. apply view_shrink; try done; try lia.
    + intros i g e Hr. eapply (merge_down (SmDo j a b) q); [exact Ht|cbn; by rewrite Hk|by eapply in_self|done].
    + intros w. rewrite <- Ea. eapply others_apart; [exact Ht|done|done|by left].
    + intros w. rewrite <- Eb. eapply others_apart; [exact Ht|done|done|by right].
    + rewrite <- Ed. apply I. by eapply in_self.
  - cbn. split; [exists c|exists (M + c)]; (split; [lia|]); (split; [done|]); by rewrite Hk.
  - intros t' q pl key Ht' Hne' Ho. assert (Hn1 : bucket d0 (Hash_key key) <> c).
    { eapply (owner_apart _ _ _ _ _ I t (SmDo j a b) q); [exact Ht|cbn; rewrite Ea; left|done|done|done]. }
    assert (Hn2 : bucket d0 (Hash_key key) <> M + c).
    { eapply (owner_apart _ _ _ _ _ I t (SmDo j a b) q); [exact Ht|cbn; rewrite Eb; right; left|done|done|done]. }
    rewrite Ed in Hn2. rewrite (bucket_shrink M c) by (try done; lia). rewrite <- Ed. rewrite <- Ed in Hn2. pose proof (bucket_in _ _ _ _ _ I (Hash_key key)).
    unfold own'. rewrite !list_lookup_insert_ne by lia. done.
  - intros i ss1 e Hi He. pose proof (bidx_range M c (Hash_entry e) HM ltac:(lia)) as Hr. pose proof (bidx_grow M c (Hash_entry e) HM ltac:(lia)) as Hg.
    change (bidx M (c + 1) (Hash_entry e)) with (bucket (Dirptrs M (c + 1)) (Hash_entry e)) in Hg. rewrite <- Ed in Hg. unfold bucket at 1. cbn [m_cBucketMax m_cBucket].
    unfold own' in Hi. destruct (decide (i = Z.to_nat (M + c))) as [->|N1].
    { rewrite list_lookup_insert_eq in Hi by (rewrite length_insert; by eapply lookup_lt_Some). injection Hi as <-. by apply not_elem_of_nil in He. }
    rewrite list_lookup_insert_ne in Hi by done. destruct (decide (i = Z.to_nat c)) as [->|N2].
    { rewrite list_lookup_insert_eq in Hi by (by eapply lookup_lt_Some). injection Hi as <-. rewrite Fl in He. rewrite Z2Nat.id by lia.
      assert (Hold : bucket d0 (Hash_entry e) = c \/ bucket d0 (Hash_entry e) = M + c).
      { apply elem_of_app in He as [He|He]; [left|right]; [rewrite (in_placed _ _ _ _ _ I _ _ _ Hs He)|rewrite (in_placed _ _ _ _ _ I _ _ _ Hds He)]; lia. }
      destruct (Z.eqb_spec (bidx M c (Hash_entry e)) c); [done|]. lia. }
    rewrite list_lookup_insert_ne in Hi by done. pose proof (in_placed _ _ _ _ _ I _ _ _ Hi He) as Hp.
    destruct (Z.eqb_spec (bidx M c (Hash_entry e)) c) as [Ec|Ec]; [|lia]. destruct (_ =? c); lia.
  - apply (entries_update2 _ _ _ _ _ _ _ Hds Hs (not_eq_sym Hne)). cbn [flat]. rewrite Fl. cbn. apply Permutation_app_comm.
Qed.

Lemma sm_do_step j a b : ts !! t = Some (SmDo j a b) -> good ts t o own (SmDo j a b) (sm_do s j a b).
Proof. intros Ht. destruct (j_kind j) eqn:Hk; [by apply split_step|by apply merge_step]. Qed.

End Entries.
