(* ===== verification/HashInit.v ===== *)
(** * HashInit: initialisation and termination of the hash table

    [ErrInit] with [ErrDIRInit], and [Term] with [DIRTerm]: the sizes of a bucket and of
    the directory that the load factor gives, the arrays for the smallest directory, and
    their release.  The allocator is a function of the memory. *)

From stdpp Require Import gmap.
From S2P Require Import Prelude HashBucket HashBucketProofs HashBucketOps HashSplit Threads HashTable HashStates HashDir HashViews HashMemory HashInv HashPolicySteps HashArraySteps.

(** ** Sizes *)

Definition cbCacheLine : Z := 32.

Section Sizes.
Context (sizeofBUCKET sizeofCKeyEntry cProcessorMax : Z).

Definition dir_cbBucket (cLoadFactor : Z) : Z :=
  let cb := u64 (sizeofBUCKET + u64 (u64 (u64 (cLoadFactor * 2) + 1) * sizeofCKeyEntry)) in
  u64 (u64 (u64 (cb + cbCacheLine) - 1) / cbCacheLine * cbCacheLine).

Definition dir_layout (cLoadFactor : Z) : BucketLayout := {|
  cbHeader := sizeofBUCKET;
  cbEntry := sizeofCKeyEntry;
  m_cbBucket := dir_cbBucket cLoadFactor;
  m_centryBucket := u64 (dir_cbBucket cLoadFactor - sizeofBUCKET) / sizeofCKeyEntry |}.

(** [m_cbucketMin], or nothing when it does not fit. *)
Definition dir_cbucketMin (cbucketMin : Z) : option (option Z) :=
  let m := Z.max (Z.max cbucketMin cProcessorMax) 2 in
  '(iExponent, iRemainder) ← DIRILog2 m;
  if negb (iRemainder =? 0) then
    Some (if iExponent + 1 >=? cbitNativeCounter then None else Some (u64 (Z.shiftl 1 (iExponent + 1))))
  else Some (Some (u64 (Z.shiftl 1 iExponent))).

(** The members that the rest of the table uses. *)
Definition dir_params (cLoadFactor cbucketMin : Z) : TableParams := {|
  m_cLoadFactor := cLoadFactor;
  m_cbucketMin := match dir_cbucketMin cbucketMin with Some (Some m) => m | _ => 0 end |}.

End Sizes.

(** ** The arrays of the directory *)

Section Init.
Context {E : Type} `{L : BucketLayout} (junk : Z -> BUCKET E) (alloc : heap E -> nat -> option Z).

Abbreviation table := (CDynamicHashTable E).

Definition init_array (size : Z) (iExponent : nat) (s : table) : option (ERR * table) :=
  '(err, rgb, h, lk) ← ErrDIRInitBucketArray junk (m_heap s) (m_locks s) size (alloc (m_heap s) (Z.to_nat size));
  Some (err, set_rgrgBucket (<[iExponent := rgb]> (m_rgrgBucket s)) (set_heap h (set_locks lk s))).

Fixpoint init_loop (n : nat) (iExponent cbucketMin : Z) (s : table) : option (ERR * table) :=
  if u64 (Z.shiftl 1 iExponent) <? cbucketMin then
    match n with
    | O => None
    | S n =>
        '(err, s) ← init_array (u64 (Z.shiftl 1 iExponent)) (Z.to_nat iExponent) s;
        if bool_decide (err = errSuccess) then init_loop n (iExponent + 1) cbucketMin s else Some (err, s)
    end
  else Some (errSuccess, s).

(** The part of [ErrDIRInit] after the sizes. *)
Definition dir_arrays (cbucketMin : Z) (s : table) : option (ERR * table) :=
  let s := set_dirptrs (Dirptrs (cbucketMin / 2) (cbucketMin / 2)) (m_dirptrs1 s) s in
  '(err, s) ← init_array 2 0 s;
  if negb (bool_decide (err = errSuccess)) then Some (err, s) else
  '(err, s) ← init_loop 64 1 cbucketMin s;
  if negb (bool_decide (err = errSuccess)) then Some (err, s) else
  Some (errSuccess, set_dirptrs (m_dirptrs0 s) (Dirptrs 0 0) s).

(** ** Termination *)

Definition term_array (iExponent : nat) (size : Z) (s : table) : option table :=
  rgb ← m_rgrgBucket s !! iExponent;
  if negb (rgb =? 0) then
    '(h, lk) ← DIRTermBucketArray (m_heap s) (m_locks s) rgb size;
    Some (set_rgrgBucket (<[iExponent := 0]> (m_rgrgBucket s)) (set_heap h (set_locks lk s)))
  else Some s.

Fixpoint term_loop (n : nat) (iExponent : Z) (s : table) : option table :=
  if iExponent <? cbitNativeCounter then
    match n with
    | O => None
    | S n => s ← term_array (Z.to_nat iExponent) (u64 (Z.shiftl 1 iExponent)) s; term_loop n (iExponent + 1) s
    end
  else Some s.

Definition DIRTerm (s : table) : option table :=
  s ← term_array 0 2 s;
  s ← term_loop 64 1 s;
  Some (set_dirptrs (Dirptrs 0 0) (Dirptrs 0 0) s).

(** The destructors of the [HOTSTUFF]s, from the last to the first. *)
Fixpoint term_pools (l : list HOTSTUFF) (h : heap E) : option (heap E) :=
  match l with
  | [] => Some h
  | hs :: l => h ← BUCKETPool_dtor h (m_bucketpool hs); term_pools l h
  end.

Definition Term (s : table) : option table :=
  s ← DIRTerm s;
  h ← term_pools (reverse (m_rghs s)) (m_heap s);
  Some (set_rghs [] (set_heap h s)).

End Init.

(** ** Initialisation *)

Section ErrInit.
Context {E : Type} (sizeofBUCKET sizeofCKeyEntry cProcessorMax : Z).
Context (junk : Z -> BUCKET E) (alloc : BucketLayout -> heap E -> nat -> option Z).

Abbreviation table := (CDynamicHashTable E).

Definition ErrDIRInit (cLoadFactor cbucketMin : Z) (s : table) : option (ERR * table) :=
  if cLoadFactor <? 1 then Some (errInvalidParameter, s) else
  let L := dir_layout sizeofBUCKET sizeofCKeyEntry cLoadFactor in
  m ← dir_cbucketMin cProcessorMax cbucketMin;
  match m with
  | None => Some (errInvalidParameter, s)
  | Some cbucketMin => dir_arrays junk (alloc L) cbucketMin s
  end.

(** A table as the constructor and the first lines of [ErrInit] leave it; [fHotstuff]:
    the memory for [m_rghs] could be allocated; [cLoadFactor]: the load factor times the
    uniformity, which are floating-point numbers. *)
Definition ErrInit (fHotstuff : bool) (cLoadFactor cBucketMinimum : Z) : option (ERR * table) :=
  let s := Table (Heap ∅ ∅) ∅ (Dirptrs 0 0) (Dirptrs 0 0) (replicate 64 0) [] 0 cBucketMinimum stateGrow 1 0 in
  let L := dir_layout sizeofBUCKET sizeofCKeyEntry cLoadFactor in
  '(err, s) ←
    (if fHotstuff then ErrDIRInit cLoadFactor cBucketMinimum (set_rghs (replicate (Z.to_nat cProcessorMax) HOTSTUFF_ctor) s)
     else Some (errOutOfMemory, s));
  if bool_decide (err = errSuccess) then Some (errSuccess, s)
  else s ← Term s; Some (err, s).

End ErrInit.
