(* ===== verification/HashInitProofs.v ===== *)
(** * HashInitProofs: a new table is empty, and termination releases all of it

    [dir_arrays] allocates the arrays of the directory one by one, each as large as all
    before it together; a table after it satisfies the invariant with no entries.  The
    sizes that [ErrDIRInit] computes satisfy what the other files assume of them. *)

From stdpp Require Import gmap.
From S2P Require Import Prelude HashBucket HashBucketProofs HashBucketOps HashSplit Threads HashTable HashStates HashDir HashViews HashMemory HashInv HashPolicySteps HashArraySteps HashInit.

(** ** Sizes *)

Lemma shl1 x : 0 <= x < 64 -> u64 (Z.shiftl 1 x) = 2 ^ x.
Proof.
  intros Hx. rewrite Z.shiftl_mul_pow2, Z.mul_1_l by lia. unfold wrapu. apply Z.mod_small. split; [apply Z.pow_nonneg; lia|apply Z.pow_lt_mono_r; lia].
Qed.

Section Sizes.
Context (sizeofBUCKET sizeofCKeyEntry cProcessorMax : Z).

(** The arithmetic does not wrap around as long as a bucket is smaller than the memory. *)
Lemma dir_layout_ok cLoadFactor : 0 < sizeofBUCKET -> 0 < sizeofCKeyEntry -> 0 <= cLoadFactor ->
  sizeofBUCKET + (cLoadFactor * 2 + 1) * sizeofCKeyEntry + cbCacheLine <= 2 ^ 64 ->
  @LayoutOk (dir_layout sizeofBUCKET sizeofCKeyEntry cLoadFactor).
Proof.
  intros Hb He Hl Hsz. unfold cbCacheLine in Hsz. set (cb := sizeofBUCKET + (cLoadFactor * 2 + 1) * sizeofCKeyEntry) in *.
  assert (Hw : forall x, 0 <= x < 2 ^ 64 -> u64 x = x) by (intros x Hx; unfold wrapu; by rewrite Z.mod_small).
  assert (Ecb : dir_cbBucket sizeofBUCKET sizeofCKeyEntry cLoadFactor = (cb + 31) / 32 * 32).
  { unfold dir_cbBucket, cbCacheLine. rewrite (Hw (cLoadFactor * 2)) by nia. rewrite (Hw (cLoadFactor * 2 + 1)) by nia.
    rewrite (Hw ((cLoadFactor * 2 + 1) * sizeofCKeyEntry)) by nia. fold cb. rewrite (Hw cb) by nia. pose proof (Z.mul_div_le (cb + 31) 32 ltac:(lia)).
    destruct (Z.eq_dec (cb + 32) (2 ^ 64)) as [Eq|].
    - rewrite Eq. replace (cb + 31) with (2 ^ 64 - 1) by lia. by vm_compute.
    - rewrite (Hw (cb + 32)) by nia. rewrite (Hw (cb + 32 - 1)) by nia. replace (cb + 32 - 1) with (cb + 31) by lia.
      apply Hw. pose proof (Z.div_pos (cb + 31) 32). nia. }
  pose proof (Z.div_mod (cb + 31) 32 ltac:(lia)) as Hdm. pose proof (Z.mod_pos_bound (cb + 31) 32 ltac:(lia)).
  assert (Hle : cb <= dir_cbBucket sizeofBUCKET sizeofCKeyEntry cLoadFactor < 2 ^ 64) by (rewrite Ecb; nia).
  split; cbn; [done|done| |].
  - rewrite Hw by nia. apply Z.div_str_pos. unfold cb in Hle. nia.
  - rewrite Hw by nia. pose proof (Z.mul_div_le (dir_cbBucket sizeofBUCKET sizeofCKeyEntry cLoadFactor - sizeofBUCKET) sizeofCKeyEntry He). lia.
Qed.

(** The smallest directory is the next power of two that is enough. *)
Lemma dir_cbucketMin_ok cbucketMin : 0 <= cbucketMin < 2 ^ 64 -> 0 <= cProcessorMax < 2 ^ 64 ->
  let m := Z.max (Z.max cbucketMin cProcessorMax) 2 in
  dir_cbucketMin cProcessorMax cbucketMin = Some (if m <=? 2 ^ 63 then Some (2 ^ Z.log2_up m) else None).
Proof.
  intros H1 H2 m. assert (Hm : 2 <= m < 2 ^ 64) by lia. unfold dir_cbucketMin. fold m. rewrite DIRILog2_ok by lia. cbn [mbind option_bind].
  pose proof (Z.log2_spec m ltac:(lia)) as Hs. assert (Hlo : Z.log2 m < 64) by (apply Z.log2_lt_pow2; lia). pose proof (Z.log2_nonneg m) as Hnn.
  unfold offset. rewrite (proj2 (Z.ltb_ge m 2)) by lia. unfold cbitNativeCounter. destruct (Z.eqb_spec (m - 2 ^ Z.log2 m) 0) as [Hz|Hz]; cbn [negb].
  - assert (Eu : Z.log2_up m = Z.log2 m). { assert (Em : m = 2 ^ Z.log2 m) by lia. rewrite Em at 1. by apply Z.log2_up_pow2. }
    rewrite shl1, Eu by lia. rewrite (proj2 (Z.leb_le _ _)); [done|]. assert (m = 2 ^ Z.log2 m) as -> by lia. apply Z.pow_le_mono_r; lia.
  - assert (Eu : Z.log2_up m = Z.log2 m + 1).
    { apply Z.log2_up_unique; [lia|]. replace (Z.pred (Z.log2 m + 1)) with (Z.log2 m) by lia. rewrite <- Z.add_1_r in Hs. lia. }
    rewrite Eu, Z.geb_leb. destruct (Z.leb_spec 64 (Z.log2 m + 1)).
    + assert (El : Z.log2 m = 63) by lia. rewrite El in Hs, Hz. rewrite (proj2 (Z.leb_gt m (2 ^ 63))) by lia. done.
    + rewrite shl1 by lia. rewrite (proj2 (Z.leb_le _ _)); [done|]. rewrite <- Z.add_1_r in Hs.
      assert (2 ^ (Z.log2 m + 1) <= 2 ^ 63) by (apply Z.pow_le_mono_r; lia). lia.
Qed.

End Sizes.

(** ** The arrays *)

Section Build.
Context {E : Type} `{L : BucketLayout} `{LO : !LayoutOk} (junk : Z -> BUCKET E) (Hjunk : junk_ok junk).
Context (alloc : heap E -> nat -> option Z) (Halloc : forall h n p, alloc h n = Some p -> fresh h p n).

Abbreviation table := (CDynamicHashTable E).

(** Nobody uses the table: [2 ^ e] chains, the pools, and locks that are free. *)
Record standing (s : table) (own : list (segments E)) (rss : list (list Z)) (e : Z) : Prop := {
  sd_exp : 1 <= e;
  sd_cap : cap own = 2 ^ e;
  sd_arrays : arrays_ok (m_rgrgBucket s) (2 ^ e);
  sd_memory : memory_ok (m_heap s) (m_rgrgBucket s) own (reserves s) rss;
  sd_heads : heads_ok (m_locks s) (m_rgrgBucket s) (2 ^ e);
  sd_free : forall a l, m_locks s !! a = Some l -> l = Rwl 0 false }.

(** What the constructor and the first lines of [ErrInit] leave. *)
Record pristine (s : table) : Prop := {
  pr_heap : m_heap s = Heap ∅ ∅;
  pr_locks : m_locks s = ∅;
  pr_arrays : m_rgrgBucket s = replicate 64 0;
  pr_hs : m_rghs s = replicate (m_chs s) HOTSTUFF_ctor }.

(** Only the memory, the locks and the arrays change. *)
Definition arrays_only (s s' : table) : Prop :=
  m_rghs s' = m_rghs s /\ m_dirptrs0 s' = m_dirptrs0 s /\ m_dirptrs1 s' = m_dirptrs1 s /\ m_stateCur s' = m_stateCur s /\
  m_semPolicy s' = m_semPolicy s /\ m_cCompletions s' = m_cCompletions s /\ m_cOpSensitivity s' = m_cOpSensitivity s.

Lemma arrays_only_trans s1 s2 s3 : arrays_only s1 s2 -> arrays_only s2 s3 -> arrays_only s1 s3.
Proof. intros (? & ? & ? & ? & ? & ? & ?) (? & ? & ? & ? & ? & ? & ?). split_and!; congruence. Qed.

Lemma init_array_only size x s err s' : init_array junk alloc size x s = Some (err, s') -> arrays_only s s'.
Proof.
  unfold init_array. destruct (ErrDIRInitBucketArray _ _ _ _ _) as [[[[err0 rgb] h] lk]|]; cbn [mbind option_bind]; [|done]. by intros [= <- <-].
Qed.

Lemma init_array_cases size x s : 0 < size -> exists err s', init_array junk alloc size x s = Some (err, s') /\
  ((err = errOutOfMemory /\ s' = set_rgrgBucket (<[x := 0]> (m_rgrgBucket s)) s) \/
   (err = errSuccess /\ exists p, fresh (m_heap s) p (Z.to_nat size) /\
      s' = set_rgrgBucket (<[x := p]> (m_rgrgBucket s))
             (set_heap (init_buckets junk (m_heap s) p (Z.to_nat size)) (set_locks (init_locks (m_locks s) p (Z.to_nat size)) s)))).
Proof.
  intros Hs. unfold init_array, ErrDIRInitBucketArray. rewrite (proj2 (Z.ltb_lt 0 size)) by done. cbn [DHTAssert mbind option_bind].
  destruct (alloc (m_heap s) (Z.to_nat size)) as [p|] eqn:Ha; cbn [mbind option_bind].
  - eexists _, _. split; [done|]. right. split; [done|]. exists p. split; [by apply Halloc|done].
  - eexists _, _. split; [done|]. left. split; [done|]. by destruct s.
Qed.

Lemma concat_nils {X} n : concat (replicate n (@nil X)) = [].
Proof. induction n as [|n IH]; [done|exact IH]. Qed.

(** The first array, in memory where there is nothing. *)
Lemma first_array s p : pristine s -> fresh (m_heap s) p 2 ->
  standing (set_rgrgBucket (<[0%nat := p]> (m_rgrgBucket s)) (set_heap (init_buckets junk (m_heap s) p 2) (set_locks (init_locks (m_locks s) p 2) s)))
    (empty_chains p 2) (replicate (m_chs s) []) 1.
Proof.
  intros [E1 E2 E3 E4] Hf. set (rg := <[0%nat := p]> (m_rgrgBucket s)).
  assert (Hrg : rg !! 0%nat = Some p) by (unfold rg; rewrite E3; done).
  assert (Hba : forall b, 0 <= b < 2 -> baddr rg b = p + b * m_cbBucket).
  { intros b Hb. unfold baddr, offset. rewrite (proj2 (Z.ltb_lt b 2)) by lia. assert (b = 0 \/ b = 1) as [-> | ->] by lia; cbn; by rewrite (list_lookup_total_correct _ _ _ Hrg). }
  assert (Hin : forall b, 0 <= b < 2 -> p + b * m_cbBucket ∈ block_buckets p 2).
  { intros b Hb. apply block_bucket_in. exists (Z.to_nat b). split; [lia|]. by rewrite Z2Nat.id by lia. }
  assert (Hlk : forall z, buckets (init_buckets junk (m_heap s) p 2) !! z = if decide (z ∈ block_buckets p 2) then Some (Bucket None 0 (m_rgEntry (junk z))) else None).
  { intros z. unfold init_buckets. cbn [buckets]. rewrite (foldr_insert_lookup _ (fun q => Bucket None 0 (m_rgEntry (junk q)))), E1. done. }
  split; cbn [m_rgrgBucket m_heap m_locks set_rgrgBucket set_heap set_locks].
  - done.
  - done.
  - split.
    + unfold rg. by rewrite length_insert, E3.
    + exists 1. split; [lia|done].
    + intros e He Hle. unfold rg. assert (e <> 0) by (intros ->; cbn in Hle; lia). rewrite list_lookup_insert_ne by lia. rewrite E3. apply lookup_replicate_2. lia.
    + intros v Hv. rewrite Hba by done. destruct Hf as [_ Hf]. rewrite list.Forall_forall in Hf. by apply Hf, Hin.
  - pose proof cbBucket_pos as Hcb. destruct Hf as [Hbl Hall]. rewrite list.Forall_forall in Hall. fold rg.
    assert (Eps : concat (regions (empty_chains (E := E) p 2) (replicate (m_chs s) [])) = block_buckets p 2).
    { unfold regions. rewrite concat_app, empty_chains_ptrs. by rewrite concat_nils, app_nil_r. }
    split.
    + split.
      * intros z b. rewrite Hlk. case_decide as Hz; [|done]. intros _. by destruct (Hall z Hz).
      * intros z z' b b'. rewrite !Hlk. repeat case_decide; try done. intros _ _ Hne.
        match goal with Hz : z ∈ _, Hz' : z' ∈ _ |- _ => apply block_bucket_in in Hz as (i & Hi & ->), Hz' as (j & Hj & ->) end. unfold apart.
        assert (i <> j) by congruence. assert (i < j \/ j < i)%nat as [|] by lia; [left|right]; nia.
      * intros z b. rewrite Hlk. case_decide as Hz; [|done]. intros Hx. injection Hx as <-. cbn. apply Hjunk.
    + rewrite length_empty_chains. lia.
    + intros b ss Hb. apply empty_chains_lookup in Hb as [Hb ->]. exists [], []. rewrite Hba by lia. split; [done|].
      cbn [chain link_pb end_pb]. split_and!; [|done|by left|done]. eexists. rewrite Hlk, decide_True; [done|]. apply Hin. lia.
    + unfold reserves. cbn. rewrite E4, fmap_replicate. apply Forall2_replicate. done.
    + rewrite Eps. apply block_buckets_nodup.
    + intros z. rewrite Eps, Hlk. case_decide; [by split|]. split; [by intros [? ?]|done].
    + intros e He Hc. rewrite length_empty_chains in Hc. assert (e = 0) as ->.
      { destruct Hc as [|Hc]; [done|]. destruct (Z.eq_dec e 0) as [|Hne]; [done|]. assert (2 ^ 1 <= 2 ^ e) by (apply Z.pow_le_mono_r; lia). lia. }
      cbn [Z.to_nat]. rewrite (list_lookup_total_correct _ _ _ Hrg). cbn. by rewrite lookup_insert_eq.
  - intros a. rewrite init_locks_lookup, E2. fold rg. case_decide as Ha.
    + split; [intros _|by eexists]. apply block_bucket_in in Ha as (i & Hi & ->). exists (Z.of_nat i). split; [lia|]. by rewrite Hba by lia.
    + split; [by intros [? ?]|]. intros (b & Hb & ->). destruct Ha. rewrite Hba by done. by apply Hin.
  - intros a l. rewrite init_locks_lookup, E2. case_decide; [by intros [= <-]|done].
Qed.

(** Every further one. *)
Lemma next_array s own rss e p : standing s own rss e -> fresh (m_heap s) p (Z.to_nat (2 ^ e)) ->
  standing (set_rgrgBucket (<[Z.to_nat e := p]> (m_rgrgBucket s))
      (set_heap (init_buckets junk (m_heap s) p (Z.to_nat (2 ^ e))) (set_locks (init_locks (m_locks s) p (Z.to_nat (2 ^ e))) s)))
    (own ++ empty_chains p (length own)) rss (e + 1).
Proof.
  intros [H1 H2 H3 H4 H5 H6] Hf. assert (El : Z.to_nat (2 ^ e) = length own) by (unfold cap in H2; lia). rewrite El in *. rewrite <- H2 in H3, H5.
  pose proof (arrays_double _ _ _ H3 e p H2 H1 Hf) as Ha. pose proof (heads_double _ _ _ _ H3 H5 e p H2 H1 Hf) as Hh.
  assert (Ep : 2 ^ (e + 1) = 2 * 2 ^ e) by (rewrite Z.pow_add_r by lia; lia).
  assert (He : e < 64) by (destruct Ha as [_ (y & Hy & Ey) _ _]; apply (Z.pow_lt_mono_r_iff 2); [lia|lia|]; pose proof (Z.pow_le_mono_r 2 y 63); lia).
  split; cbn [m_rgrgBucket m_heap m_locks set_rgrgBucket set_heap set_locks]; rewrite ?Ep; try done; [lia| | |].
  - unfold cap in *. rewrite length_app, length_empty_chains. lia.
  - apply (update_array junk Hjunk _ _ _ _ _ H4); [lia|done|apply H3|done].
  - intros a l. rewrite init_locks_lookup. case_decide; [by intros [= <-]|by apply H6].
Qed.

Lemma empty_more (own : list (segments E)) p n : entries own = [] -> entries (own ++ empty_chains p n) = [].
Proof. intros Ho. pose proof (entries_empty (E := E) p n) as He. unfold entries in *. by rewrite fmap_app, concat_app, Ho, He. Qed.

(** The same memory, locks, arrays and pools. *)
Lemma standing_same s s' own rss e : m_heap s' = m_heap s -> m_locks s' = m_locks s -> m_rgrgBucket s' = m_rgrgBucket s -> m_rghs s' = m_rghs s ->
  standing s own rss e -> standing s' own rss e.
Proof. intros E1 E2 E3 E4 [H1 H2 H3 H4 H5 H6]. split; unfold reserves in *; rewrite ?E1, ?E2, ?E3, ?E4; done. Qed.

Lemma init_loop_ok n s own rss e k : standing s own rss e -> entries own = [] -> e <= k <= 63 -> (Z.to_nat (k - e) <= n)%nat ->
  exists err s' own' e', init_loop junk alloc n e (2 ^ k) s = Some (err, s') /\ arrays_only s s' /\ standing s' own' rss e' /\ entries own' = [] /\
    ((err = errSuccess /\ e' = k) \/ err = errOutOfMemory).
Proof.
  revert s own e. induction n as [|n IH]; intros s own e Hs Ho He Hn.
  - assert (e = k) as -> by lia. exists errSuccess, s, own, k. cbn [init_loop]. pose proof (sd_exp _ _ _ _ Hs).
    rewrite shl1 by lia. rewrite Z.ltb_irrefl. split_and!; try done. by left.
  - pose proof (sd_exp _ _ _ _ Hs) as He1. cbn [init_loop]. rewrite shl1 by lia. destruct (Z.ltb_spec (2 ^ e) (2 ^ k)) as [Hlt|Hge].
    + assert (Hek : e < k) by (apply (Z.pow_lt_mono_r_iff 2); lia).
      destruct (init_array_cases (2 ^ e) (Z.to_nat e) s) as (err & s1 & Es & Hc); [apply Z.pow_pos_nonneg; lia|]. rewrite Es. cbn [mbind option_bind].
      pose proof (init_array_only _ _ _ _ _ Es) as Hao. destruct Hc as [[-> ->]|(-> & p & Hf & E1)].
      * exists errOutOfMemory, s, own, e. rewrite bool_decide_false by done. split_and!; try done; [|by right].
        rewrite list_insert_id by (apply (ar_null _ _ (sd_arrays _ _ _ _ Hs)); lia). by destruct s.
      * rewrite bool_decide_true by done. pose proof (next_array s own rss e p Hs Hf) as Hs1. rewrite <- E1 in Hs1.
        destruct (IH s1 _ (e + 1) Hs1 (empty_more _ _ _ Ho)) as (err & s' & own' & e' & Er & Ha & H); [lia|lia|].
        exists err, s', own', e'. split; [done|]. split; [by eapply arrays_only_trans|done].
    + assert (e = k) as -> by (destruct (Z.lt_ge_cases e k) as [Hlt|]; [pose proof (Z.pow_lt_mono_r 2 e k); lia|lia]).
      exists errSuccess, s, own, k. split_and!; try done. by left.
Qed.

(** The directory has been allocated, or the memory was not enough; then there are some
    of the arrays, or none. *)
Lemma dir_arrays_ok s k : pristine s -> 1 <= k <= 63 -> exists err s', dir_arrays junk alloc (2 ^ k) s = Some (err, s') /\ m_rghs s' = m_rghs s /\
  ((err = errSuccess /\ arrays_only (set_dirptrs (Dirptrs (2 ^ (k - 1)) (2 ^ (k - 1))) (Dirptrs 0 0) s) s' /\
      exists own, standing s' own (replicate (m_chs s) []) k /\ entries own = []) \/
   (err = errOutOfMemory /\ (pristine s' \/ exists own e, standing s' own (replicate (m_chs s) []) e))).
Proof.
  intros Hp Hk. unfold dir_arrays. assert (Ed : 2 ^ k / 2 = 2 ^ (k - 1)).
  { replace (2 ^ k) with (2 ^ (k - 1) * 2); [by rewrite Z.div_mul|]. replace k with (k - 1 + 1) at 2 by lia. rewrite Z.pow_add_r by lia. lia. }
  rewrite Ed. set (s0 := set_dirptrs _ _ s). assert (Hp0 : pristine s0) by (destruct Hp; by split).
  destruct (init_array_cases 2 0 s0) as (err & s1 & Es & Hc); [done|]. rewrite Es. cbn [mbind option_bind].
  pose proof (init_array_only _ _ _ _ _ Es) as Hao. destruct Hc as [[-> E1]|(-> & p & Hf & E1)].
  - rewrite bool_decide_false by done. cbn [negb]. exists errOutOfMemory, s1. split; [done|]. split; [apply Hao|]. right. split; [done|]. left.
    rewrite E1. destruct Hp0 as [P1 P2 P3 P4]. split; try done. cbn in P3 |- *. by rewrite P3.
  - rewrite bool_decide_true by done. cbn [negb]. pose proof (first_array s0 p Hp0 Hf) as Hs1. change (Z.to_nat 2) with 2%nat in E1. rewrite <- E1 in Hs1.
    change (m_chs s0) with (m_chs s) in Hs1.
    destruct (init_loop_ok 64 s1 _ _ 1 k Hs1 (entries_empty p 2)) as (err & s' & own & e & Er & Ha & Hs' & Ho & Hc); [lia|lia|].
    rewrite Er. cbn [mbind option_bind]. pose proof (arrays_only_trans _ _ _ Hao Ha) as Hao'. destruct Hc as [[-> ->] | ->].
    + rewrite bool_decide_true by done. cbn [negb]. eexists errSuccess, _. split; [done|]. split; [apply Hao'|]. left. split; [done|]. split.
      * destruct Hao' as (A1 & A2 & A3 & A4 & A5 & A6 & A7). split_and!; done.
      * exists own. split; [|done]. by apply (standing_same s').
    + rewrite bool_decide_false by done. cbn [negb]. exists errOutOfMemory, s'. split; [done|]. split; [apply Hao'|]. right. split; [done|]. right. by exists own, e.
Qed.

End Build.

(** ** A new table *)

Section New.
Context {K E : Type} `{KE : CKeyEntry K E} `{L : BucketLayout} `{TP : TableParams} `{LO : !LayoutOk} `{CL : !ClientLaws K E}.

Abbreviation pc := (@pc K E).
Abbreviation table := (CDynamicHashTable E).

Lemma idle_in n (p : pc) : p ∈ replicate n Idle -> p = Idle.
Proof. by intros [-> _]%elem_of_replicate. Qed.

Lemma idle_states chs n : states_ok chs (replicate chs (Meter false 0 0)) stateGrow 1 0 Quiet (role_of <$> replicate n (Idle : pc)).
Proof.
  assert (Hz : forall f, f ROut = 0 -> total f (role_of <$> replicate n (Idle : pc)) = 0).
  { intros f Hf. apply total_0. intros a (p & -> & ->%idle_in)%list_elem_of_fmap. done. }
  assert (Hm : forall (i : nat) m, replicate chs (Meter false 0 0) !! i = Some m -> m = Meter false 0 0) by (intros i m [-> _]%lookup_replicate; done).
  split; rewrite ?Hz by done; try done.
  - by rewrite length_replicate.
  - intros i m ->%Hm. by rewrite !Hz.
  - intros i g e (p & Hr & ->%idle_in)%list_elem_of_fmap. done.
  - intros a (p & -> & ->%idle_in)%list_elem_of_fmap. done.
  - cbn. unfold calm. rewrite !Hz by done. split_and!; try done; [by left|by intros m (i & ->%Hm)%list_elem_of_lookup|].
    intros i g e (p & Hr & ->%idle_in)%list_elem_of_fmap. done.
Qed.

Lemma idle_locks (lk : gmap Z rwl) n : (forall a l, lk !! a = Some l -> l = Rwl 0 false) -> locks_ok lk (locks_of <$> replicate n (Idle : pc)).
Proof.
  intros Hf. assert (Hz : forall x, total (cnt x) (locks_of <$> replicate n (Idle : pc)) = 0).
  { intros x. apply total_0. intros a (p & -> & ->%idle_in)%list_elem_of_fmap. done. }
  split.
  - intros a l ->%Hf. by rewrite Hz.
  - intros a l ->%Hf. by rewrite Hz.
  - by intros a l ->%Hf.
  - intros xs a w (p & -> & ->%idle_in)%list_elem_of_fmap Hin. by apply not_elem_of_nil in Hin.
Qed.

(** The invariant of a table that was just made, with [n] clients. *)
Lemma new_inv (s : table) own k n : standing s own (replicate (m_chs s) []) k -> entries own = [] -> m_rghs s = replicate (m_chs s) HOTSTUFF_ctor ->
  m_dirptrs0 s = Dirptrs (2 ^ (k - 1)) (2 ^ (k - 1)) -> m_stateCur s = stateGrow -> m_semPolicy s = 1 -> m_cCompletions s = 0 ->
  (0 < m_chs s)%nat -> Z.of_nat (m_chs s) < 2 ^ 31 -> 2 * Z.of_nat n + 1 < 2 ^ 31 ->
  inv s (replicate n Idle) own (replicate (m_chs s) []) Quiet.
Proof.
  intros [H1 H2 H3 H4 H5 H6] Ho Hhs Hd Hst Hsem HcC Hchs Hchs' Hn.
  assert (Hnone : forall (b : nat) ss e, own !! b = Some ss -> e ∈ flat ss -> False).
  { intros b ss e Hb He. assert (Hin : e ∈ entries own) by (apply (in_concat _ b (flat ss)); [by rewrite list_lookup_fmap, Hb|done]).
    rewrite Ho in Hin. by apply not_elem_of_nil in Hin. }
  split; rewrite ?H2, ?Hst, ?Hsem, ?HcC; try done.
  - by rewrite length_replicate.
  - unfold meters. rewrite Hhs, fmap_replicate. apply idle_states.
  - by apply idle_locks.
  - assert (Ep : 2 ^ k = 2 * 2 ^ (k - 1)) by (replace k with (1 + (k - 1)) at 1 by lia; rewrite Z.pow_add_r by lia; done).
    pose proof (Z.pow_pos_nonneg 2 (k - 1) ltac:(lia) ltac:(lia)). split; rewrite ?Hd; unfold dir_ok; cbn [m_cBucketMax m_cBucket]; [|by right|done]. split_and!; [exists (k - 1); split; [lia|done]|lia..].
  - intros i c rs Hc [-> _]%lookup_replicate. unfold counts in Hc. rewrite Hhs, fmap_replicate in Hc. apply lookup_replicate in Hc as [-> _].
    assert (Hz : forall f : pc -> Z, f Idle = 0 -> total f (replicate n Idle) = 0) by (intros f Hf; apply total_0; by intros p ->%idle_in).
    rewrite !Hz by done. split; cbn; lia.
  - by intros p ->%idle_in.
  - intros p ->%idle_in. split; done.
  - intros b ss e Hb He. by destruct (Hnone b ss e Hb He).
  - unfold distinct. rewrite Ho. apply base.NoDup_nil_2.
Qed.

End New.

(** ** Termination releases the whole table

    [DIRTerm] releases the arrays of the directory from the smallest on, with the chains
    of their buckets and their locks, and [Term] the buckets reserved in the pools:
    nothing of the table is left in memory.  The same holds when the initialisation runs
    out of memory in the middle. *)

Section Release.
Context {E : Type} `{L : BucketLayout} `{LO : !LayoutOk}.

Abbreviation table := (CDynamicHashTable E).

(** The chains [own], with their locks, and the pools are all that there is. *)
Record holdings (h : heap E) (lk : gmap Z rwl) (own : list (segments E)) (pools : list Z) (rss : list (list Z)) : Prop := {
  hg_heap : heap_ok h;
  hg_chain : forall ss, ss ∈ own -> ss <> [] /\ chain h None ss;
  hg_pools : Forall2 (free_list h) pools rss;
  hg_nodup : NoDup (concat (regions own rss));
  hg_live : forall p, is_Some (buckets h !! p) <-> p ∈ concat (regions own rss);
  hg_locks : forall a, lk !! a = if decide (a ∈ hd_ptr <$> own) then Some (Rwl 0 false) else None }.

Lemma regions_app (owns oths : list (segments E)) rss : concat (regions (owns ++ oths) rss) = concat ((fun ss => ss.*1) <$> owns) ++ concat (regions oths rss).
Proof. unfold regions. by rewrite fmap_app, !concat_app, <- app_assoc. Qed.

Lemma chain_region (owns : list (segments E)) ss z : ss ∈ owns -> z ∈ ss.*1 -> z ∈ concat ((fun ss => ss.*1) <$> owns).
Proof. intros [i Hi]%list_elem_of_lookup Hz. apply (in_concat _ i ss.*1); [by rewrite list_lookup_fmap, Hi|done]. Qed.

Lemma hd_in (ss : segments E) : ss <> [] -> hd_ptr ss ∈ ss.*1.
Proof. destruct ss as [|[q es] ss]; [done|]. intros _. cbn. left. Qed.

(** One array is released. *)
Lemma release h lk owns oths pools rss rgb : holdings h lk (owns ++ oths) pools rss -> hd_ptr <$> owns = block_buckets rgb (length owns) ->
  blocks h !! rgb = Some (length owns) -> owns <> [] ->
  exists h' lk', DIRTermBucketArray h lk rgb (Z.of_nat (length owns)) = Some (h', lk') /\ holdings h' lk' oths pools rss /\
    (forall ss, ss ∈ oths -> blocks h' !! hd_ptr ss = blocks h !! hd_ptr ss).
Proof.
  intros [H1 H2 H3 H4 H5 H6] Hb Hbl Hne. pose proof H4 as Hn. rewrite regions_app in Hn. apply list.NoDup_app in Hn as (Hn1 & Hn2 & Hn3).
  destruct (DIRTermBucketArray_ok owns h lk rgb) as (h' & lk' & Et & (Hok & A & B) & Hlk); try done.
  - intros ss Hs. apply H2, elem_of_app. by left.
  - intros ss Hs. rewrite H6, decide_True; [done|]. rewrite fmap_app, elem_of_app. left. apply list_elem_of_fmap. by exists ss.
  - assert (Hsub : forall z, z ∈ rgb :: concat (overflow <$> owns) -> z ∈ concat ((fun ss => ss.*1) <$> owns)).
    { intros z [->|(i & x & Hi & Hx)%in_concat_inv]%elem_of_cons.
      - destruct owns as [|ss owns]; [done|]. assert (Hh : hd_ptr ss = rgb) by (cbn in Hb; injection Hb; lia).
        eapply (chain_region _ ss); [left|]. rewrite <- Hh. apply hd_in, H2. left.
      - rewrite list_lookup_fmap in Hi. destruct (owns !! i) as [ss|] eqn:Hs; [|done]. cbn in Hi. injection Hi as <-.
        eapply (chain_region _ ss); [by eapply list_elem_of_lookup_2|]. unfold overflow in Hx. destruct ss as [|[q fs] ss]; [done|]. cbn in *. by right. }
    assert (Hsame : forall z, z ∈ concat (regions oths rss) -> buckets h' !! z = buckets h !! z /\ blocks h' !! z = blocks h !! z).
    { intros z Hz. assert (Hno : z ∉ concat ((fun ss => ss.*1) <$> owns)) by (intros Hx; by apply (Hn2 z Hx)).
      split; [by rewrite A, decide_False|]. rewrite B, decide_False; [done|]. by intros Hx%Hsub. }
    assert (Hin : forall ss z, ss ∈ oths -> z ∈ ss.*1 -> z ∈ concat (regions oths rss)).
    { intros ss z Hs Hz. unfold regions. rewrite concat_app, elem_of_app. left. by eapply chain_region. }
    exists h', lk'. split; [done|]. split.
    + split; [done| | |done| |].
      * intros ss Hs. destruct (H2 ss) as [Hn Hc]; [apply elem_of_app; by right|]. split; [done|].
        eapply chain_frame; [| |exact Hc]; intros q Hq; destruct (Hsame q (Hin _ _ Hs Hq)) as [E1 E2]; [done|by rewrite E2].
      * apply Forall2_same_length_lookup_2; [by eapply Forall2_length|]. intros k q rs Hq Hrs.
        pose proof (Forall2_lookup_lr _ _ _ _ _ _ H3 Hq Hrs) as Hfl.
        eapply free_list_frame; [| |exact Hfl]; intros z Hz; apply Hsame; by apply (in_concat _ _ _ _ (region_pool _ _ _ _ Hrs)).
      * intros z. rewrite A. case_decide as Hz; [split; [by intros [? ?]|intros Hx; by destruct (Hn2 z Hz)]|].
        rewrite H5, regions_app, elem_of_app. tauto.
      * intros a. rewrite Hlk, H6, fmap_app. destruct (decide (a ∈ hd_ptr <$> owns)) as [Ha|Ha].
        -- rewrite decide_False; [done|]. intros (s1 & -> & Hs1)%list_elem_of_fmap. apply list_elem_of_fmap in Ha as (s2 & E2 & Hs2).
           apply (Hn2 (hd_ptr s1)); [|eapply Hin; [done|]; apply hd_in, H2, elem_of_app; by right].
           rewrite E2. eapply chain_region; [done|]. apply hd_in, H2, elem_of_app. by left.
        -- destruct (decide (a ∈ hd_ptr <$> oths)); [by rewrite decide_True by set_solver|by rewrite decide_False by set_solver].
    + intros ss Hs. apply Hsame. eapply Hin; [done|]. apply hd_in, H2, elem_of_app. by right.
Qed.

(** ** The arrays of the directory *)

(** The chains of the array with the exponent [x]. *)
Definition array_start (x : Z) : nat := Z.to_nat (if x =? 0 then 0 else 2 ^ x).

Definition array_chains (own : list (segments E)) (x : Z) : list (segments E) := take (Z.to_nat (array_size x)) (drop (array_start x) own).

Lemma array_next x : 0 <= x -> (array_start x + Z.to_nat (array_size x))%nat = array_start (x + 1).
Proof.
  intros Hx. unfold array_start, array_size. rewrite (proj2 (Z.eqb_neq (x + 1) 0)) by lia. destruct (Z.eqb_spec x 0) as [->|Hne]; [done|].
  pose proof (Z.pow_pos_nonneg 2 x ltac:(lia) Hx). rewrite Z.pow_add_r by lia. lia.
Qed.

Lemma arrays_split own x : 0 <= x -> drop (array_start x) own = array_chains own x ++ drop (array_start (x + 1)) own.
Proof. intros Hx. unfold array_chains. rewrite <- array_next, <- drop_drop by done. by rewrite take_drop. Qed.

Lemma array_chains_length own x e : cap own = 2 ^ e -> 0 <= x < e -> length (array_chains own x) = Z.to_nat (array_size x) /\ array_chains own x <> [].
Proof.
  intros Hc Hx. pose proof (array_next x ltac:(lia)) as Hn. unfold cap in Hc. pose proof (Z.pow_pos_nonneg 2 x ltac:(lia) ltac:(lia)).
  assert (Hs : 0 < array_size x) by (unfold array_size; destruct (x =? 0); lia).
  assert (He : (array_start (x + 1) <= length own)%nat).
  { unfold array_start. rewrite (proj2 (Z.eqb_neq (x + 1) 0)) by lia. assert (2 ^ (x + 1) <= 2 ^ e) by (apply Z.pow_le_mono_r; lia). lia. }
  assert (Hl : length (array_chains own x) = Z.to_nat (array_size x)) by (unfold array_chains; rewrite length_take, length_drop; lia).
  split; [done|]. intros Hz. rewrite Hz in Hl. cbn in Hl. lia.
Qed.

Section Standing.
Context (s : table) (own : list (segments E)) (rss : list (list Z)) (e : Z) (Hs : standing s own rss e).

Lemma standing_head (b : nat) ss : own !! b = Some ss -> hd_ptr ss = baddr (m_rgrgBucket s) (Z.of_nat b).
Proof. intros Hb. by destruct (mo_chain _ _ _ _ _ (sd_memory _ _ _ _ Hs) b ss Hb) as (es & ss' & -> & _). Qed.

Lemma standing_holdings : holdings (m_heap s) (m_locks s) own (reserves s) rss.
Proof.
  pose proof standing_head as Hhd. destruct Hs as [S1 S2 S3 S4 S5 S6]. split; try apply S4.
  - intros ss [b Hb]%list_elem_of_lookup. destruct (mo_chain _ _ _ _ _ S4 b ss Hb) as (es & ss' & -> & Hc). done.
  - intros a. assert (Hiff : is_Some (m_locks s !! a) <-> a ∈ hd_ptr <$> own).
    { rewrite (S5 a). unfold cap in S2. split.
      - intros (b & Hb & ->). destruct (lookup_lt_is_Some_2 own (Z.to_nat b) ltac:(lia)) as [ss Hss]. apply list_elem_of_fmap. exists ss.
        split; [rewrite (Hhd _ _ Hss), Z2Nat.id by lia; done|by eapply list_elem_of_lookup_2].
      - intros (ss & -> & [b Hb]%list_elem_of_lookup)%list_elem_of_fmap. exists (Z.of_nat b). pose proof (lookup_lt_Some _ _ _ Hb). split; [lia|by apply Hhd]. }
    case_decide as Ha; destruct (m_locks s !! a) as [l|] eqn:Hl; try done.
    + by rewrite (S6 _ _ Hl).
    + apply Hiff in Ha as [? ?]. done.
    + destruct Ha. apply Hiff. by eexists.
Qed.

Lemma standing_array x : 0 <= x < e -> exists rgb, m_rgrgBucket s !! Z.to_nat x = Some rgb /\ rgb <> 0 /\
  hd_ptr <$> array_chains own x = block_buckets rgb (length (array_chains own x)) /\ blocks (m_heap s) !! rgb = Some (length (array_chains own x)).
Proof.
  intros Hx. destruct (array_chains_length own x e (sd_cap _ _ _ _ Hs) Hx) as [Hl _]. pose proof (sd_arrays _ _ _ _ Hs) as Ha.
  assert (He : e <= 63) by (destruct (ar_cap _ _ Ha) as (k & Hk & Ek); apply Z.pow_inj_r in Ek; lia).
  assert (Hlt : 2 ^ x < 2 ^ e) by (apply Z.pow_lt_mono_r; lia). pose proof (Z.pow_pos_nonneg 2 x ltac:(lia) ltac:(lia)).
  destruct (baddr_word _ _ (2 ^ x) Ha ltac:(lia)) as (rgb & Hrgb & Hne & _). rewrite Z.log2_pow2 in Hrgb by lia.
  exists rgb. split; [done|]. split; [done|]. split.
  - apply list_eq. intros i. unfold block_buckets. rewrite !list_lookup_fmap. destruct (array_chains own x !! i) as [ss|] eqn:Hi.
    + pose proof (lookup_lt_Some _ _ _ Hi) as Hil. rewrite lookup_seq_lt by done. cbn. f_equal. unfold array_chains in Hi.
      rewrite lookup_take_lt, lookup_drop in Hi by lia. rewrite (standing_head _ _ Hi). rewrite Hl in Hil. unfold array_start, array_size in *.
      destruct (Z.eqb_spec x 0) as [->|Hx0].
      * cbn in Hrgb, Hil. unfold baddr, offset. rewrite (proj2 (Z.ltb_lt _ 2)) by lia. assert (i = 0 \/ i = 1)%nat as [-> | ->] by lia; cbn; by rewrite (list_lookup_total_correct _ _ _ Hrgb).
      * rewrite Nat2Z.inj_add, Z2Nat.id by lia. apply baddr_high; [lia|done|lia].
    + apply lookup_ge_None in Hi. by rewrite lookup_seq_ge.
  - rewrite <- (list_lookup_total_correct _ _ _ Hrgb), Hl. apply (mo_arrays _ _ _ _ _ (sd_memory _ _ _ _ Hs)); [lia|].
    pose proof (sd_cap _ _ _ _ Hs) as Hc. unfold cap in Hc. destruct (Z.eq_dec x 0); [by left|right; lia].
Qed.

End Standing.

(** The arrays below the exponent [i] have been released. *)
Record leaving (s : table) (own : list (segments E)) (rss : list (list Z)) (e i : Z) : Prop := {
  lv_len : length (m_rgrgBucket s) = 64%nat;
  lv_hold : holdings (m_heap s) (m_locks s) (drop (array_start i) own) (reserves s) rss;
  lv_zero : forall x, 0 <= x < 64 -> x < i \/ e <= x -> m_rgrgBucket s !! Z.to_nat x = Some 0;
  lv_array : forall x, i <= x < e -> exists rgb, m_rgrgBucket s !! Z.to_nat x = Some rgb /\ rgb <> 0 /\
    hd_ptr <$> array_chains own x = block_buckets rgb (length (array_chains own x)) /\ blocks (m_heap s) !! rgb = Some (length (array_chains own x)) }.

Lemma leaving_start s own rss e : standing s own rss e -> leaving s own rss e 0.
Proof.
  intros Hs. pose proof (sd_arrays _ _ _ _ Hs) as Ha. split.
  - apply Ha.
  - by apply (standing_holdings _ _ _ e).
  - intros x Hx Hor. apply Ha; [done|]. apply Z.pow_le_mono_r; lia.
  - intros x Hx. by apply (standing_array _ _ rss e).
Qed.

Lemma heads_first own x : (exists rgb, hd_ptr <$> array_chains own x = block_buckets rgb (length (array_chains own x)) /\ array_chains own x <> []) ->
  exists ss, ss ∈ array_chains own x /\ forall rgb, hd_ptr <$> array_chains own x = block_buckets rgb (length (array_chains own x)) -> hd_ptr ss = rgb.
Proof.
  intros (rgb & _ & Hne). destruct (array_chains own x) as [|ss l]; [done|]. exists ss. split; [left|]. intros rgb' Hr. cbn in Hr. injection Hr. lia.
Qed.

Lemma term_array_ok s own rss e i : leaving s own rss e i -> cap own = 2 ^ e -> 1 <= e -> 0 <= i < 64 ->
  exists s', term_array (Z.to_nat i) (array_size i) s = Some s' /\ leaving s' own rss e (i + 1) /\ m_rghs s' = m_rghs s.
Proof.
  intros [H1 H2 H3 H4] Hc He Hi. unfold term_array. destruct (Z.lt_ge_cases i e) as [Hlt|Hge].
  - destruct (H4 i ltac:(lia)) as (rgb & Hrgb & Hne & Hh & Hb). rewrite Hrgb. cbn [mbind option_bind]. rewrite (proj2 (Z.eqb_neq rgb 0)) by done. cbn [negb].
    destruct (array_chains_length own i e Hc ltac:(lia)) as [Hl Hn]. assert (Hsz : 0 <= array_size i) by (unfold array_size; destruct (i =? 0); [lia|apply Z.pow_nonneg; lia]).
    rewrite arrays_split in H2 by lia. destruct (release _ _ _ _ _ _ rgb H2 Hh Hb Hn) as (h' & lk' & Et & Hh' & Hbl).
    rewrite Hl, Z2Nat.id in Et by done. rewrite Et. cbn [mbind option_bind]. eexists. split; [done|]. split; [|done].
    split; cbn [m_rgrgBucket m_heap m_locks set_rgrgBucket set_heap set_locks].
    + by rewrite length_insert.
    + done.
    + intros x Hx Hor. destruct (Z.eq_dec x i) as [->|Hxi]; [apply list_lookup_insert_eq; lia|]. rewrite list_lookup_insert_ne by lia. apply H3; lia.
    + intros x Hx. rewrite list_lookup_insert_ne by lia. destruct (H4 x ltac:(lia)) as (rgb' & R1 & R2 & R3 & R4). exists rgb'. split_and!; try done.
      destruct (array_chains_length own x e Hc ltac:(lia)) as [_ Hnx]. destruct (heads_first own x) as (ss & Hss & Hhd); [by exists rgb'|].
      rewrite <- R4, <- (Hhd _ R3). apply Hbl. unfold array_chains in Hss. apply list_elem_of_lookup in Hss as [j Hj].
      apply lookup_take_Some in Hj as [Hj _]. rewrite lookup_drop in Hj. eapply (list_elem_of_lookup_2 _ (array_start x + j - array_start (i + 1))).
      rewrite lookup_drop. rewrite <- Hj. f_equal. unfold array_start. rewrite !(proj2 (Z.eqb_neq _ 0)) by lia. assert (2 ^ (i + 1) <= 2 ^ x) by (apply Z.pow_le_mono_r; lia). lia.
  - rewrite (H3 i) by lia. cbn [mbind option_bind]. exists s. split; [done|]. split; [|done]. split; try done.
    + assert (Hd : forall x, e <= x -> drop (array_start x) own = []).
      { intros x Hx. apply drop_ge. unfold cap in Hc. unfold array_start. destruct (Z.eqb_spec x 0); [lia|]. assert (2 ^ e <= 2 ^ x) by (apply Z.pow_le_mono_r; lia). lia. }
      rewrite Hd in H2 |- * by lia. done.
    + intros x Hx Hor. apply H3; lia.
    + intros x Hx. lia.
Qed.

Lemma term_loop_ok n s own rss e i : leaving s own rss e i -> cap own = 2 ^ e -> 1 <= e -> 1 <= i <= 64 -> (Z.to_nat (64 - i) <= n)%nat ->
  exists s', term_loop n i s = Some s' /\ leaving s' own rss e 64 /\ m_rghs s' = m_rghs s.
Proof.
  revert s i. induction n as [|n IH]; intros s i Hl Hc He Hi Hn; cbn [term_loop]; unfold cbitNativeCounter.
  - assert (i = 64) as -> by lia. by exists s.
  - destruct (Z.ltb_spec i 64) as [Hlt|Hge]; [|assert (i = 64) as -> by lia; by exists s].
    rewrite shl1 by lia. assert (Ea : 2 ^ i = array_size i) by (unfold array_size; by rewrite (proj2 (Z.eqb_neq i 0)) by lia).
    destruct (term_array_ok s own rss e i Hl Hc He ltac:(lia)) as (s1 & E1 & Hl1 & Eh). rewrite Ea, E1. cbn [mbind option_bind].
    destruct (IH s1 (i + 1) Hl1 Hc He ltac:(lia) ltac:(lia)) as (s' & E2 & Hl' & Eh'). exists s'. split_and!; [done|done|by rewrite Eh'].
Qed.

(** The directory is released: only the pools are left. *)
Lemma DIRTerm_ok s own rss e : standing s own rss e ->
  exists s', DIRTerm s = Some s' /\ holdings (m_heap s') (m_locks s') [] (reserves s') rss /\ m_rgrgBucket s' = replicate 64 0 /\ m_rghs s' = m_rghs s.
Proof.
  intros Hs. pose proof (leaving_start _ _ _ _ Hs) as Hl. pose proof (sd_cap _ _ _ _ Hs) as Hc. pose proof (sd_exp _ _ _ _ Hs) as He. unfold DIRTerm.
  assert (He63 : e <= 63) by (destruct (ar_cap _ _ (sd_arrays _ _ _ _ Hs)) as (k & Hk & Ek); apply Z.pow_inj_r in Ek; lia).
  destruct (term_array_ok s own rss e 0 Hl Hc He ltac:(lia)) as (s1 & E1 & Hl1 & Eh1). change (array_size 0) with 2 in E1. change (Z.to_nat 0) with 0%nat in E1.
  rewrite E1. cbn [mbind option_bind].
  destruct (term_loop_ok 64 s1 own rss e 1 Hl1 Hc He ltac:(lia) ltac:(lia)) as (s2 & E2 & [Hlen Hh Hz _] & Eh2). rewrite E2. cbn [mbind option_bind].
  eexists. split; [done|]. split_and!; cbn [m_heap m_locks m_rgrgBucket m_rghs set_dirptrs].
  - rewrite drop_ge in Hh; [done|]. unfold cap in Hc. unfold array_start. cbn [Z.eqb]. assert (2 ^ e <= 2 ^ 64) by (apply Z.pow_le_mono_r; lia). lia.
  - symmetry. apply replicate_as_Forall_2; [done|]. apply list.Forall_forall. intros z [k Hk]%list_elem_of_lookup. pose proof (lookup_lt_Some _ _ _ Hk) as Hlt.
    rewrite Hlen in Hlt. specialize (Hz (Z.of_nat k) ltac:(lia) ltac:(lia)). rewrite Nat2Z.id in Hz. congruence.
  - by rewrite Eh2.
Qed.

(** ** The pools *)

Lemma term_pools_ok (l : list HOTSTUFF) rss (h : heap E) : heap_ok h -> Forall2 (free_list h) ((fun hs => m_pReserve (m_bucketpool hs)) <$> l) rss -> NoDup (concat rss) ->
  (forall z, is_Some (buckets h !! z) -> z ∈ concat rss) -> exists h', term_pools l h = Some h' /\ buckets h' = ∅.
Proof.
  revert rss h. induction l as [|hs l IH]; intros rss h Hh Hf Hd Hl.
  - apply Forall2_nil_inv_l in Hf as ->. exists h. split; [done|]. apply map_empty. intros z. destruct (buckets h !! z) as [b|] eqn:Hb; [|done].
    destruct (not_elem_of_nil z). apply Hl. by eexists.
  - cbn [fmap list_fmap] in Hf. apply Forall2_cons_inv_l in Hf as (rs & rss' & Hr & Hf & ->). cbn [concat] in Hd, Hl. apply list.NoDup_app in Hd as (Hd1 & Hd2 & Hd3).
    cbn [term_pools]. unfold BUCKETPool_dtor. destruct (pool_free_ok (fuel h) h _ rs Hh Hr Hd1) as (h1 & -> & Hok & Hout & Hin).
    { pose proof (free_list_length _ _ _ Hr Hd1). unfold fuel. lia. }
    cbn [mbind option_bind]. apply (IH rss' h1); [done| |done|].
    + apply Forall2_same_length_lookup_2; [by eapply Forall2_length|]. intros k q rs' Hq Hrs. pose proof (Forall2_lookup_lr _ _ _ _ _ _ Hf Hq Hrs) as Hfl.
      assert (Hno : forall z, z ∈ rs' -> z ∉ rs) by (intros z Hz Hx; apply (Hd2 z Hx); by apply (in_concat _ k rs')).
      eapply free_list_frame; [| |exact Hfl]; intros z Hz; by apply Hout, Hno.
    + intros z Hz. destruct (decide (z ∈ rs)) as [Hx|Hx]; [destruct (Hin z Hx) as [E1 _]; rewrite E1 in Hz; by destruct Hz|].
      destruct (Hout z Hx) as [E1 _]. rewrite E1 in Hz. apply Hl in Hz. by apply elem_of_app in Hz as [|].
Qed.

(** Nothing is left of the table. *)
Definition released (s : table) : Prop :=
  buckets (m_heap s) = ∅ /\ m_locks s = ∅ /\ m_rgrgBucket s = replicate 64 0 /\ m_dirptrs0 s = Dirptrs 0 0 /\ m_dirptrs1 s = Dirptrs 0 0 /\ m_rghs s = [].

Lemma Term_holdings s s1 rss : DIRTerm s = Some s1 -> holdings (m_heap s1) (m_locks s1) [] (reserves s1) rss -> m_rgrgBucket s1 = replicate 64 0 ->
  exists s', Term s = Some s' /\ released s'.
Proof.
  intros Hd [H1 _ H3 H4 H5 H6] Hz. unfold Term. rewrite Hd. cbn [mbind option_bind]. unfold regions in H4, H5. cbn [fmap list_fmap app] in H4, H5.
  destruct (term_pools_ok (reverse (m_rghs s1)) (reverse rss) (m_heap s1) H1) as (h & -> & Hb).
  - rewrite fmap_reverse. by apply Forall2_reverse.
  - assert (Hp : concat (reverse rss) ≡ₚ concat rss) by (by rewrite reverse_Permutation). by rewrite Hp.
  - intros z Hzl%H5. assert (Hp : concat (reverse rss) ≡ₚ concat rss) by (by rewrite reverse_Permutation). by rewrite Hp.
  - cbn [mbind option_bind]. eexists. split; [done|]. split_and!; cbn [m_heap m_locks m_rgrgBucket m_dirptrs0 m_dirptrs1 m_rghs set_rghs set_heap]; try done.
    + apply map_empty. intros a. rewrite H6, decide_False; [done|]. apply not_elem_of_nil.
    + unfold DIRTerm in Hd. destruct (term_array 0 2 s) as [x|]; cbn [mbind option_bind] in Hd; [|done]. destruct (term_loop 64 1 x) as [y|]; cbn [mbind option_bind] in Hd; [|done]. by injection Hd as <-.
    + unfold DIRTerm in Hd. destruct (term_array 0 2 s) as [x|]; cbn [mbind option_bind] in Hd; [|done]. destruct (term_loop 64 1 x) as [y|]; cbn [mbind option_bind] in Hd; [|done]. by injection Hd as <-.
Qed.

Lemma Term_ok s own rss e : standing s own rss e -> exists s', Term s = Some s' /\ released s'.
Proof. intros Hs. destruct (DIRTerm_ok s own rss e Hs) as (s1 & Hd & Hh & Hz & _). by eapply Term_holdings. Qed.

(** Without arrays there is nothing to do. *)
Lemma term_loop_none n (s : table) i : m_rgrgBucket s = replicate 64 0 -> 1 <= i <= 64 -> (Z.to_nat (64 - i) <= n)%nat -> term_loop n i s = Some s.
Proof.
  revert i. induction n as [|n IH]; intros i Hr Hi Hn; cbn [term_loop]; unfold cbitNativeCounter; [assert (i = 64) as -> by lia; done|].
  destruct (Z.ltb_spec i 64); [|done]. unfold term_array. rewrite Hr, lookup_replicate_2 by lia. cbn [mbind option_bind Z.eqb negb]. apply IH; [done|lia|lia].
Qed.

Lemma Term_pristine (s : table) : pristine s -> exists s', Term s = Some s' /\ released s'.
Proof.
  intros [P1 P2 P3 P4]. apply (Term_holdings s (set_dirptrs (Dirptrs 0 0) (Dirptrs 0 0) s) (replicate (m_chs s) [])).
  - unfold DIRTerm. unfold term_array at 1. rewrite P3. cbn [lookup list_lookup replicate mbind option_bind Z.eqb negb]. rewrite term_loop_none; [done|done|lia|lia].
  - cbn [m_heap m_locks set_dirptrs]. rewrite P1, P2. split.
    + split; intros *; by rewrite ?lookup_empty.
    + intros ss Hss. by apply not_elem_of_nil in Hss.
    + unfold reserves. cbn. rewrite P4, fmap_replicate. by apply Forall2_replicate.
    + unfold regions. cbn. rewrite concat_nils. apply base.NoDup_nil_2.
    + intros p. unfold regions. cbn. rewrite concat_nils, lookup_empty. split; [by intros [? ?]|by intros ?%not_elem_of_nil].
    + intros a. by rewrite decide_False by apply not_elem_of_nil.
  - done.
Qed.

End Release.

(** ** Initialisation *)

Section InitOk.
Context {E : Type} (sizeofBUCKET sizeofCKeyEntry cProcessorMax cLoadFactor cBucketMinimum : Z).
Context (junk : Z -> BUCKET E) (alloc : BucketLayout -> heap E -> nat -> option Z).

Abbreviation table := (CDynamicHashTable E).
Abbreviation layout := (dir_layout sizeofBUCKET sizeofCKeyEntry cLoadFactor).
Abbreviation params := (dir_params cProcessorMax cLoadFactor cBucketMinimum).

(** The machine and the arguments of [ErrInit]: the sizes of the types, the number of
    processors, a bucket that is smaller than the address space, and an allocator that
    returns unused memory. *)
Record machine_ok : Prop := {
  mc_bucket : 0 < sizeofBUCKET;
  mc_entry : 0 < sizeofCKeyEntry;
  mc_procs : 0 < cProcessorMax < 2 ^ 31;
  mc_load : 0 <= cLoadFactor;
  mc_size : sizeofBUCKET + (cLoadFactor * 2 + 1) * sizeofCKeyEntry + cbCacheLine <= 2 ^ 64;
  mc_min : 0 <= cBucketMinimum < 2 ^ 64;
  mc_junk : @junk_ok E layout junk;
  mc_alloc : forall h n p, alloc layout h n = Some p -> @fresh E layout h p n }.

(** The arguments can be used. *)
Definition args_ok : bool := (1 <=? cLoadFactor) && (Z.max cBucketMinimum cProcessorMax <=? 2 ^ 63).

(** A table as [ErrInit] leaves it when it succeeds. *)
Record made (s : table) : Prop := {
  md_standing : exists own k, @standing E layout s own (replicate (m_chs s) []) k /\ entries own = [] /\
    m_dirptrs0 s = Dirptrs (2 ^ (k - 1)) (2 ^ (k - 1));
  md_chs : m_chs s = Z.to_nat cProcessorMax;
  md_hs : m_rghs s = replicate (m_chs s) HOTSTUFF_ctor;
  md_state : m_stateCur s = stateGrow;
  md_sem : m_semPolicy s = 1;
  md_completions : m_cCompletions s = 0;
  md_ops : m_cOpSensitivity s = 0 }.

Lemma machine_layout : machine_ok -> @LayoutOk layout.
Proof. intros [? ? ? ? ? ? ? ?]. by apply dir_layout_ok. Qed.

Lemma machine_min : machine_ok -> dir_cbucketMin cProcessorMax cBucketMinimum =
  Some (if Z.max cBucketMinimum cProcessorMax <=? 2 ^ 63 then Some (2 ^ Z.log2_up (Z.max (Z.max cBucketMinimum cProcessorMax) 2)) else None) /\
  (Z.max cBucketMinimum cProcessorMax <= 2 ^ 63 -> 1 <= Z.log2_up (Z.max (Z.max cBucketMinimum cProcessorMax) 2) <= 63).
Proof.
  intros [? ? ? ? ? ? ? ?]. set (m := Z.max (Z.max cBucketMinimum cProcessorMax) 2). rewrite dir_cbucketMin_ok by lia. fold m. split.
  - repeat f_equal. destruct (Z.leb_spec m (2 ^ 63)), (Z.leb_spec (Z.max cBucketMinimum cProcessorMax) (2 ^ 63)); try done; lia.
  - intros Hm. split; [change 1 with (Z.log2_up 2); apply Z.log2_up_le_mono; lia|]. change 63 with (Z.log2_up (2 ^ 63)). apply Z.log2_up_le_mono. lia.
Qed.

Lemma machine_params : machine_ok -> args_ok = true -> @ParamsOk params.
Proof.
  intros Hm [Hl Hb]%andb_prop. apply Z.leb_le in Hl. destruct (machine_min Hm) as [E1 E2]. rewrite Hb in E1. apply Z.leb_le in Hb. specialize (E2 Hb).
  split; cbn [m_cLoadFactor m_cbucketMin dir_params]; [done|]. rewrite E1. change 2 with (2 ^ 1) at 1. apply Z.pow_le_mono_r; lia.
Qed.

(** Without success nothing is left behind. *)
Lemma ErrInit_ok fHotstuff : machine_ok -> exists err s, ErrInit sizeofBUCKET sizeofCKeyEntry cProcessorMax junk alloc fHotstuff cLoadFactor cBucketMinimum = Some (err, s) /\
  ((err = errSuccess /\ args_ok = true /\ made s) \/ (err = errOutOfMemory /\ released s) \/ (err = errInvalidParameter /\ args_ok = false /\ released s)).
Proof.
  intros Hm. pose proof (machine_layout Hm) as HL. destruct (machine_min Hm) as [E1 E2]. pose proof (mc_procs Hm) as Hpr.
  unfold ErrInit, ErrDIRInit, args_ok.
  assert (Hfail : forall err s, pristine s -> err <> errSuccess -> exists s', (if bool_decide (err = errSuccess) then Some (errSuccess, s) else s ← @Term E layout s; Some (err, s)) = Some (err, s') /\ released s').
  { intros err s Hs He. rewrite bool_decide_false by done. destruct (@Term_pristine E layout HL s Hs) as (s' & -> & Hr). by exists s'. }
  destruct fHotstuff.
  2: { cbn [mbind option_bind]. edestruct (Hfail errOutOfMemory) as (s' & Es & Hr); [|done|]; [|rewrite Es; exists errOutOfMemory, s'; by auto]. by split. }
  set (s0 := set_rghs _ _). assert (Hp0 : pristine s0) by (split; try done; cbn; unfold m_chs; cbn; by rewrite length_replicate).
  assert (Hchs : m_chs s0 = Z.to_nat cProcessorMax) by (unfold m_chs; cbn; by rewrite length_replicate).
  destruct (Z.ltb_spec cLoadFactor 1) as [Hl|Hl].
  { cbn [mbind option_bind]. destruct (Hfail errInvalidParameter s0 Hp0 ltac:(done)) as (s' & Es & Hr). rewrite Es. exists errInvalidParameter, s'.
    rewrite (proj2 (Z.leb_gt 1 cLoadFactor)) by lia. split; [done|]. right. right. done. }
  rewrite (proj2 (Z.leb_le 1 cLoadFactor)) by lia. cbn [andb]. rewrite E1. cbn [mbind option_bind].
  destruct (Z.leb_spec (Z.max cBucketMinimum cProcessorMax) (2 ^ 63)) as [Hb|Hb].
  2: { cbn [mbind option_bind]. destruct (Hfail errInvalidParameter s0 Hp0 ltac:(done)) as (s' & Es & Hr). rewrite Es. exists errInvalidParameter, s'. split; [done|]. right. right. done. }
  specialize (E2 Hb). set (k := Z.log2_up _) in *.
  destruct (@dir_arrays_ok E layout HL junk (mc_junk Hm) (alloc layout) (mc_alloc Hm) s0 k Hp0 E2) as (err & s & Es & Ehs & Hc). rewrite Es. cbn [mbind option_bind].
  destruct Hc as [(-> & (A1 & A2 & A3 & A4 & A5 & A6 & A7) & own & Hs & Ho)|[-> Hc]].
  - rewrite bool_decide_true by done. exists errSuccess, s. split; [done|]. left. split; [done|]. split; [done|].
    assert (Ec : m_chs s = m_chs s0) by (unfold m_chs; by rewrite Ehs). split; try done.
    + exists own, k. by rewrite Ec.
    + by rewrite Ec.
    + rewrite Ehs, Ec. apply Hp0.
  - rewrite bool_decide_false by done. assert (Ht : exists s', @Term E layout s = Some s' /\ released s').
    { destruct Hc as [Hc|(own & e & Hc)]; [by apply (@Term_pristine E layout HL)|by eapply (@Term_ok E layout HL)]. }
    destruct Ht as (s' & -> & Hr). exists errOutOfMemory, s'. split; [done|]. right. by left.
Qed.

End InitOk.
