(* ===== verification/HashTop.v ===== *)
(** * HashTop: what the hash table promises

    Every step of every client keeps the invariant ([tstep_good]); so no assertion of
    the table fails, every access to memory is to a live bucket, and an execution of the
    clients, in any order, is one of the map that [HashInv] describes with the same
    [trace]: the same calls, each with the same result. *)

From stdpp Require Import gmap relations.
From S2P Require Import Prelude HashBucket HashBucketProofs HashBucketOps Threads HashTable HashStates HashDir HashViews HashMemory HashInv HashLockSteps HashMoveSteps HashPolicySteps HashArraySteps HashInit HashInitProofs.

Section Top.
Context {K E : Type} `{KE : CKeyEntry K E} `{L : BucketLayout} `{TP : TableParams} `{LO : !LayoutOk} `{PO : !ParamsOk} `{CL : !ClientLaws K E} `{Countable K}.
Context (junk : Z -> BUCKET E) (Hjunk : junk_ok junk).

Abbreviation pc := (@pc K E).
Abbreviation table := (CDynamicHashTable E).
Abbreviation op := (@op K E).

(** ** Every step *)

Lemma tstep_good (s : table) ts own rss ph (t : nat) p (o : op) n : inv s ts own rss ph -> ops_ok s n -> n < 2 ^ 63 -> ts !! t = Some p ->
  good ts t o own p (tstep junk o s p).
Proof.
  intros I Ho Hn Ht. destruct p; cbn [tstep].
  - destruct (op_call o) eqn:Ec; try done; apply (begin_step _ _ _ _ _ I); auto; cbn; by constructor.
  - by apply (state_step _ _ _ _ _ I).
  - by apply (hash_step _ _ _ _ _ I).
  - by apply (lock_bucket_step _ _ _ _ _ I).
  - by apply (check_step _ _ _ _ _ I).
  - by apply (undo_step _ _ _ _ _ I).
  - by apply (hash2_step _ _ _ _ _ I).
  - by apply (lock2_step _ _ _ _ _ I).
  - by apply (seek_step _ _ _ _ _ I).
  - by apply (st_leave _ _ _ _ _ I).
  - destruct (mem_ok s (op_mem o) 1) eqn:Em; [|done]. by apply (held_step junk Hjunk _ _ _ _ _ I).
  - by apply (mt_op_step _ _ _ _ _ I).
  - by apply (mt_try_step _ _ _ _ _ I).
  - by apply (mt_select_step _ _ _ _ _ I _ _ _ n).
  - by apply (mt_size_step _ _ _ _ _ I).
  - by apply (trans_step _ _ _ _ _ I).
  - by apply (part_step _ _ _ _ _ I).
  - by apply (comp_step _ _ _ _ _ I).
  - by apply (finish_step _ _ _ _ _ I).
  - by apply (pm_enter_step _ _ _ _ _ I).
  - by apply (pm_state_step _ _ _ _ _ I).
  - by apply (sm_read_step _ _ _ _ _ I).
  - by apply (sm_dec_step _ _ _ _ _ I).
  - by apply (sm_inc_step _ _ _ _ _ I).
  - destruct (mem_ok s (op_mem o) 1) eqn:Em; [|done]. by apply (sm_alloc_step junk Hjunk _ _ _ _ _ I).
  - by apply (sm_hash_step _ _ _ _ _ I).
  - by apply (sm_try_step _ _ _ _ _ I).
  - by apply (sm_recheck_step _ _ _ _ _ I).
  - destruct (mem_ok s (op_mem o) (Z.to_nat (j_max j))) eqn:Em; [|done]. by apply (sp_array_step junk Hjunk _ _ _ _ _ I).
  - by apply (sm_other_step _ _ _ _ _ I).
  - by apply (sm_do_step junk Hjunk _ _ _ _ _ I).
  - by apply (sm_release1_step _ _ _ _ _ I).
  - by apply (sm_release2_step _ _ _ _ _ I).
  - by apply (sm_undo_step _ _ _ _ _ I).
  - by apply (sm_unreserve_step _ _ _ _ _ I).
Qed.

(** ** The counted operations *)

Lemma try_next {A} (x : option A) (f : A -> outcome table pc) s' p' : try x f = Next s' p' -> exists a, x = Some a /\ f a = Next s' p'.
Proof. destruct x as [a|]; [|done]. intros Hx. by exists a. Qed.

(** Only the operations that insert or delete count, and the policy starts over. *)
Definition quiet (s s' : table) : Prop := m_cOp <$> m_rghs s' = m_cOp <$> m_rghs s /\ m_cOpSensitivity s' = m_cOpSensitivity s.

Lemma total_fmap {X Y} (f : Y -> Z) (g : X -> Y) l : total f (g <$> l) = total (fun x => f (g x)) l.
Proof. induction l as [|x l IH]; cbn [fmap list_fmap total]; [done|]. by rewrite IH. Qed.

Lemma ops_quiet (s s' : table) n : quiet s s' -> ops_ok s n -> ops_ok s' (n + 1).
Proof.
  intros [E1 E2] [H1 H2 H3]. assert (Et : total m_cOp (m_rghs s') = total m_cOp (m_rghs s)).
  { pose proof (total_fmap id m_cOp (m_rghs s')) as T1. pose proof (total_fmap id m_cOp (m_rghs s)) as T2. rewrite E1 in T1. cbn in T1, T2.
    rewrite T1 in T2. exact T2. }
  split; [|lia|lia]. intros hs Hhs. assert (Hin : m_cOp hs ∈ m_cOp <$> m_rghs s) by (rewrite <- E1; apply list_elem_of_fmap; by exists hs).
  apply list_elem_of_fmap in Hin as (hs' & -> & Hin). by apply H1.
Qed.

Lemma quiet_refl (s s' : table) : m_rghs s' = m_rghs s -> m_cOpSensitivity s' = m_cOpSensitivity s -> quiet s s'.
Proof. intros E1 E2. split; [by rewrite E1|done]. Qed.

Lemma quiet_upd (s s1 : table) i hs hs' : m_rghs s1 = m_rghs s -> m_cOpSensitivity s1 = m_cOpSensitivity s -> m_rghs s !! i = Some hs -> m_cOp hs' = m_cOp hs -> quiet s (upd_hs s1 i hs').
Proof. intros E1 E2 Hi Ho. split; [|done]. cbn. rewrite E1, list_fmap_insert, Ho. apply list_insert_id. by rewrite list_lookup_fmap, Hi. Qed.

Lemma ops_count (s s1 : table) i hs d n : ops_ok s n -> n + 1 < 2 ^ 64 -> m_rghs s1 = m_rghs s -> m_cOpSensitivity s1 = m_cOpSensitivity s -> m_rghs s !! i = Some hs ->
  ops_ok (upd_hs s1 i (STATEntry hs d)) (n + 1).
Proof.
  intros Ho Hn E1 E2 Hi. pose proof (ops_local s n i hs Ho Hi) as Hl. destruct Ho as [H1 H2 H3]. pose proof (H1 hs ltac:(by eapply in_self)).
  assert (Eu : m_cOp (STATEntry hs d) = m_cOp hs + 1) by (cbn; unfold wrapu; rewrite Z.mod_small; lia).
  split; cbn; rewrite ?E1, ?E2; [|rewrite (total_insert _ _ _ _ _ Hi), Eu; lia|done].
  intros x [->|Hx]%(in_insert _ _ _ _ _ Hi); [rewrite Eu; lia|by apply H1].
Qed.

Lemma policy_sens (s : table) c a b e : policy s c = Some (a, b, e) -> 0 <= a.
Proof.
  unfold policy. intros Hp. repeat (match type of Hp with context [DHTAssert ?b] => destruct (DHTAssert b); cbn [mbind option_bind] in Hp end || destruct (bool_decide _));
    try discriminate Hp; injection Hp as <- _ _; lia.
Qed.

(** Take a step that succeeded apart. *)
Ltac taken :=
  repeat match goal with
  | Hs : try _ _ = Next _ _ |- _ => apply try_next in Hs as (? & ? & Hs)
  | Hs : (match ?x with (_, _) => _ end) = Next _ _ |- _ => destruct x eqn:?
  | Hs : (if ?b then _ else _) = Next _ _ |- _ => destruct b eqn:?
  | Hs : Blocked = Next _ _ |- _ => discriminate Hs
  | Hs : Fault = Next _ _ |- _ => discriminate Hs
  | Hs : Next _ _ = Next _ _ |- _ => injection Hs as <- <-
  end.

Ltac quietly := first [by apply quiet_refl | by eapply quiet_upd].

Lemma enter_quiet (s s' : table) plock fTry (p1 p2 p' : pc) : enter_bucket s plock fTry p1 p2 = Next s' p' -> quiet s s'.
Proof. unfold enter_bucket, EnterAsReader, FTryEnterAsWriter, EnterAsWriter. intros Hs. taken; quietly. Qed.

Lemma leave_quiet (s s' : table) plock (p1 p' : pc) : leave_bucket s plock p1 = Next s' p' -> quiet s s'.
Proof. unfold leave_bucket, LeaveAsReader, LeaveAsWriter. intros Hs. taken; quietly. Qed.

Lemma st_enter_quiet (s s' : table) cpu (f : nat -> bool -> pc) (p' : pc) : UiSTEnter s cpu f = Next s' p' -> quiet s s'.
Proof. unfold UiSTEnter. intros Hs. destruct (m_rghs s !! cpu) as [hs|] eqn:Hhs; [|done]. taken. quietly. Qed.

Lemma completion_quiet (s s' : table) f : run_completion s f = Some s' -> quiet s s'.
Proof.
  destruct f as [[| | |]|]; cbn [run_completion]; intros Hr; try (injection Hr as <-; quietly).
  - unfold DIRISplit in Hr. destruct (DHTAssert _); cbn [mbind option_bind] in Hr; [|done]. injection Hr as <-. quietly.
  - unfold DIRIMerge in Hr. destruct (DHTAssert _); cbn [mbind option_bind] in Hr; [|done]. destruct (DIRILog2 _) as [[? ?]|]; cbn [mbind option_bind] in Hr; [|done].
    destruct (DHTAssert _); cbn [mbind option_bind] in Hr; [|done]. destruct (m_rgrgBucket s !! _) as [rgb|]; cbn [mbind option_bind] in Hr; [|done].
    destruct (negb (rgb =? 0)); cbn [mbind option_bind] in Hr; [|injection Hr as <-; quietly].
    destruct (DIRTermBucketArray _ _ _ _) as [[? ?]|]; cbn [mbind option_bind] in Hr; [|done]. injection Hr as <-. quietly.
Qed.

Lemma complete_quiet (s s' : table) st (k : @kont K) (p' : pc) : complete s st k = Next s' p' -> quiet s s'.
Proof.
  unfold complete. destruct (rgstt (m_stateCur s)) as [f es]. intros Hs. apply try_next in Hs as (s1 & Hr & Hs). apply completion_quiet in Hr.
  by injection Hs as <- _.
Qed.

Lemma sem_quiet (s : table) sem : quiet s (set_semPolicy sem s).
Proof. done. Qed.

Lemma ops_step (s s' : table) (p p' : pc) (o : op) n : ops_ok s n -> n + 1 < 2 ^ 64 -> tstep junk o s p = Next s' p' -> ops_ok s' (n + 1).
Proof.
  intros Ho Hn Hs. destruct p; cbn [tstep] in Hs;
    try (apply (ops_quiet s); [|done]; first [by eapply enter_quiet|by eapply leave_quiet|by eapply st_enter_quiet|by eapply complete_quiet]).
  all: try (apply (ops_quiet s); [|done];
    unfold lk_hash, lk_check, lk_hash2, lk_seek, STLeave, mt_op, mt_try, mt_size, STTransition, Partition, STCompletion, pm_state, sm_dec, sm_inc, sm_alloc, sm_hash,
      FTryEnterAsWriter, sm_recheck, sp_array, sm_other, sm_do, LeaveAsWriter, sm_unreserve in Hs; taken; quietly).
  - apply (ops_quiet s); [|done]. unfold begin_lock in Hs. destruct (op_call o); try discriminate Hs; by eapply st_enter_quiet.
  - destruct (mem_ok _ _ _); [|discriminate Hs]. destruct (op_call o); cbn [held_call] in Hs; try discriminate Hs.
    + apply (ops_quiet s); [|done]. by eapply leave_quiet.
    + apply (ops_quiet s); [|done]. taken. quietly.
    + apply (ops_quiet s); [|done]. taken. quietly.
    + taken; [by apply (ops_count s)|]. apply (ops_quiet s); [|done]. quietly.
    + taken; [by apply (ops_count s)|]. apply (ops_quiet s); [|done]. quietly.
  - unfold mt_select, SelectMaintenancePolicy in Hs. taken; [| |apply (ops_quiet s); [quietly|done]].
    all: match goal with Hp : policy _ _ = Some _ |- _ => apply policy_sens in Hp end; split; [| |done].
    all: cbn; unfold reset_ops.
    + intros hs (hs' & -> & _)%list_elem_of_fmap. done.
    + rewrite total_fmap, total_0 by done. destruct Ho as [O1 O2 _]. pose proof (total_nonneg_in m_cOp (m_rghs s) O1). lia.
    + intros hs (hs' & -> & _)%list_elem_of_fmap. done.
    + rewrite total_fmap, total_0 by done. destruct Ho as [O1 O2 _]. pose proof (total_nonneg_in m_cOp (m_rghs s) O1). lia.
  - apply (ops_quiet s); [|done]. unfold sm_read in Hs. destruct kd; taken; quietly.
  - apply (ops_quiet s); [|done]. unfold sm_other in Hs. destruct (j_kind j); unfold FTryEnterAsWriter in Hs; taken; quietly.
Qed.

(** ** Executions *)

Abbreviation conf := (conf table pc).
Abbreviation tsteps := (nsteps (step (tstep junk))).

(** The table holds the map [M], after [n] steps. *)
Definition table_ok (c : conf) (n : Z) (M : gmap K E) : Prop :=
  exists own rss ph, inv (shared c) (pcs c) own rss ph /\ ops_ok (shared c) n /\ contents own = M.

(** Two clients have the same key only for reading. *)
Definition exclusive (cs : list (aclient K E)) : Prop :=
  forall (i j : nat) key w w' r r', cs !! i = Some (AHas key w r) -> cs !! j = Some (AHas key w' r') -> i <> j -> w = false /\ w' = false.

(** What happens in a step: the client, the operation it is given, whether the step makes
    the call, and what the client sees afterwards: that it is outside, that it waits, or
    that it has its key, with the result of the call. *)
Record event := Event { ev_client : nat; ev_op : op; ev_call : bool; ev_sees : aclient K E }.

(** A step of the clients of the map. *)
Inductive spec_step : event -> gmap K E * list (aclient K E) -> gmap K E * list (aclient K E) -> Prop :=
  | SpecStep o fCall M cs (i : nat) a M' a' : cs !! i = Some a -> cstep o fCall M a M' a' -> exclusive (<[i := a']> cs) ->
      spec_step (Event i o fCall a') (M, cs) (M', <[i := a']> cs).

(** An execution of the map with these events. *)
Inductive spec_run : list event -> gmap K E * list (aclient K E) -> gmap K E * list (aclient K E) -> Prop :=
  | SpecNil x : spec_run [] x x
  | SpecCons ev evs x y z : spec_step ev x y -> spec_run evs y z -> spec_run (ev :: evs) x z.

(** The events of an execution of the table. *)
Fixpoint trace (sched : list (nat * op)) (c : conf) : list event :=
  match sched with
  | [] => []
  | (i, o) :: sched =>
      match pcs c !! i with
      | Some p =>
          match tstep junk o (shared c) p with
          | Next s' p' => Event i o (calling p) (abstract p') :: trace sched (Conf s' (<[i := p']> (pcs c)))
          | _ => []
          end
      | None => []
      end
  end.

(** The events determine the map. *)
Lemma cstep_functional o fCall M a a' M1 M2 : cstep o fCall M a M1 a' -> cstep o fCall M a M2 a' -> M1 = M2.
Proof. intros H1 H2. destruct H1; inversion H2; subst; congruence. Qed.

Lemma spec_run_functional evs x y z : spec_run evs x y -> spec_run evs x z -> y = z.
Proof.
  intros H1. revert z. induction H1 as [x|ev evs x y1 y S1 _ IH]; intros z H2; inversion H2 as [|? ? ? y2 ? S2 R2]; subst; [done|].
  apply IH. assert (y1 = y2) as -> by (destruct S1; inversion S2; subst; simplify_eq; f_equal; by eapply cstep_functional). done.
Qed.

Lemma has_owner (p : pc) key w r : abstract p = AHas key w r -> exists plock, owner p = Some (plock, key) /\ w = FBKTWrite plock.
Proof.
  intros Ha. destruct p; cbn in Ha; try discriminate Ha; try (destruct k; cbn in Ha; try discriminate Ha); injection Ha as <- <- _; by eexists.
Qed.

Lemma owner_plock (p : pc) plock key : owner p = Some (plock, key) -> plock_of p = Some plock.
Proof. destruct p; cbn; try done; try (destruct k; cbn; try done); intros [= -> _]; done. Qed.

Lemma inv_exclusive (s : table) ts own rss ph : inv s ts own rss ph -> exclusive (abstract <$> ts).
Proof.
  intros I i j key w w' r r' Hi Hj Hne. rewrite list_lookup_fmap in Hi, Hj. destruct (ts !! i) as [p|] eqn:Hp; [|done]. destruct (ts !! j) as [q|] eqn:Hq; [|done].
  cbn in Hi, Hj. injection Hi as Hi. injection Hj as Hj. destruct (has_owner _ _ _ _ Hi) as (l & Hl & ->), (has_owner _ _ _ _ Hj) as (l' & Hl' & ->).
  pose proof (cl_ls _ _ _ _ (in_clients _ _ _ _ _ I p (in_self _ _ _ Hp)) l) as Hls. pose proof (cl_ls _ _ _ _ (in_clients _ _ _ _ _ I q (in_self _ _ _ Hq)) l') as Hls'.
  specialize (Hls (owner_plock _ _ _ Hl)). specialize (Hls' (owner_plock _ _ _ Hl')).
  pose proof (owner_head _ _ _ _ _ I p l key (in_self _ _ _ Hp) Hl) as Hh. pose proof (owner_head _ _ _ _ _ I q l' key (in_self _ _ _ Hq) Hl') as Hh'.
  assert (Hx : (m_pBucketHead l, FBKTWrite l) ∈ locks_of p) by (rewrite (owner_locks _ _ _ Hl); unfold lhold; rewrite <- write_or_read by done; left).
  assert (Hy : (m_pBucketHead l, FBKTWrite l') ∈ locks_of q) by (rewrite (owner_locks _ _ _ Hl'); unfold lhold; rewrite <- write_or_read by done; rewrite Hh, <- Hh'; left).
  split.
  - destruct (FBKTWrite l) eqn:Ew; [|done]. exfalso. by eapply (writer_alone _ _ (in_locks _ _ _ _ _ I) i j); [| apply locks_at, Hp|apply locks_at, Hq| |].
  - destruct (FBKTWrite l') eqn:Ew; [|done]. exfalso. by eapply (writer_alone _ _ (in_locks _ _ _ _ _ I) j i); [| apply locks_at, Hq|apply locks_at, Hp| |].
Qed.

(** One step, with its event. *)
Lemma hash_event_ok s ts (i : nat) p (o : op) s' p' n M : table_ok (Conf s ts) n M -> n < 2 ^ 63 -> ts !! i = Some p -> tstep junk o s p = Next s' p' ->
  exists M', table_ok (Conf s' (<[i := p']> ts)) (n + 1) M' /\
    spec_step (Event i o (calling p) (abstract p')) (M, abstract <$> ts) (M', abstract <$> <[i := p']> ts).
Proof.
  intros (own & rss & ph & I & Ho & <-) Hn Hp Hs. cbn [shared pcs] in *.
  pose proof (tstep_good s ts own rss ph i p o n I Ho Hn Hp) as Hg. rewrite Hs in Hg. destruct Hg as (own' & rss' & ph' & I' & Hc).
  exists (contents own'). split; [exists own', rss', ph'; split_and!; [done| |done]; eapply ops_step; [done|lia|done]|].
  rewrite list_fmap_insert. apply (SpecStep o (calling p) _ _ i (abstract p)); [by rewrite list_lookup_fmap, Hp|done|].
  rewrite <- list_fmap_insert. by eapply inv_exclusive.
Qed.

Lemma steps_ok m c c' n M : table_ok c n M -> n + Z.of_nat m < 2 ^ 63 -> tsteps m c c' -> exists M', table_ok c' (n + Z.of_nat m) M'.
Proof.
  intros Hc Hn Hs. revert n M Hc Hn. induction Hs as [c|m c c1 c' H1 _ IH]; intros n M Hc Hn.
  - exists M. by rewrite Z.add_0_r.
  - destruct H1 as [o s ts i p s' p' Hp H1]. destruct (hash_event_ok s ts i p o s' p' n M Hc ltac:(lia) Hp H1) as (M1 & Hc1 & _).
    destruct (IH _ _ Hc1 ltac:(lia)) as (M' & Hc'). exists M'. by replace (n + Z.of_nat (S m)) with (n + 1 + Z.of_nat m) by lia.
Qed.

(** An execution, with its events. *)
Lemma exec_ok sched c c' n M : table_ok c n M -> n + Z.of_nat (length sched) < 2 ^ 63 -> exec (tstep junk) sched c = Some c' ->
  exists M', table_ok c' (n + Z.of_nat (length sched)) M' /\ spec_run (trace sched c) (M, abstract <$> pcs c) (M', abstract <$> pcs c').
Proof.
  revert c n M. induction sched as [|[i o] sched IH]; intros [s ts] n M Hc Hn He; cbn [exec trace length shared pcs] in *.
  - injection He as <-. exists M. rewrite Z.add_0_r. split; [done|constructor].
  - destruct (ts !! i) as [p|] eqn:Hp; [|done]. destruct (tstep junk o s p) as [| |s' p'] eqn:Hs; [done..|].
    destruct (hash_event_ok s ts i p o s' p' n M Hc ltac:(lia) Hp Hs) as (M1 & Hc1 & Hs1).
    destruct (IH _ _ _ Hc1 ltac:(lia) He) as (M' & Hc' & Hs'). exists M'.
    split; [by replace (n + Z.of_nat (S (length sched))) with (n + 1 + Z.of_nat (length sched)) by lia|]. by eapply SpecCons.
Qed.

(** ** Progress *)

Definition waits_for_lock (p : pc) : option Z :=
  match p with
  | LkLock plock _ _ _ _ _ _ _ | LkLock2 plock _ _ _ _ => Some (m_pBucketHead plock)
  | _ => None
  end.

(** The operation of a client that wants to go on: it unlocks its key. *)
Definition go_on : op := Op UnlockKey 0 None false.

Lemma moves_on (s : table) ts own rss ph (t : nat) p n : inv s ts own rss ph -> ops_ok s n -> n < 2 ^ 63 -> ts !! t = Some p ->
  p <> Idle -> waits_for_lock p = None -> exists s' p', tstep junk go_on s p = Next s' p'.
Proof.
  intros I Ho Hn Ht Hi Hw. pose proof (tstep_good s ts own rss ph t p go_on n I Ho Hn Ht) as Hg.
  destruct (tstep junk go_on s p) as [| |s' p'] eqn:Hs; [exfalso|done|by eauto].
  pose proof (in_chs _ _ _ _ _ I) as [Hchs _]. clear Hg.
  assert (Htry : forall {A} (x : option A) (f : A -> outcome table pc), try x f = Blocked -> exists a, x = Some a /\ f a = Blocked).
  { intros A x f Hx. destruct x as [a|]; [by exists a|done]. }
  destruct p; cbn [waits_for_lock] in Hw; try discriminate Hw; try done; cbn [tstep go_on op_call op_cpu op_mem op_quiesced mem_ok held_call] in Hs.
  all: unfold lk_hash, lk_check, lk_hash2, lk_seek, STLeave, unlock, leave_bucket, LeaveAsReader, LeaveAsWriter, mt_op, mt_try, mt_size, mt_select, SelectMaintenancePolicy,
    STTransition, Partition, STCompletion, complete, pm_state, sm_read, sm_dec, sm_inc, sm_alloc, sm_hash, FTryEnterAsWriter, sm_recheck, sp_array, sm_other, sm_do, sm_unreserve, UiSTEnter in Hs.
  all: repeat match goal with
    | Hx : try _ _ = Blocked |- _ => apply Htry in Hx as (? & ? & Hx)
    | Hx : (match ?x with (_, _) => _ end) = Blocked |- _ => destruct x
    | Hx : (if ?b then _ else _) = Blocked |- _ => destruct b
    | Hx : (match ?x with KSplit => _ | KMerge => _ end) = Blocked |- _ => destruct x
    end; try discriminate Hs.
  - destruct (lookup_lt_is_Some_2 (m_rghs s) 0 Hchs) as [hs Hhs]. by rewrite Hhs in Hs.
  - unfold FTryEnterAsWriter in Hs. apply Htry in Hs as (l & _ & Hs). by destruct (lock_free l).
Qed.

(** A lock that is not free has a holder. *)
Lemma holder_of (s : table) ts own rss ph a l : inv s ts own rss ph -> m_locks s !! a = Some l -> lock_free l = false ->
  exists (j : nat) q w, ts !! j = Some q /\ (a, w) ∈ locks_of q.
Proof.
  intros I Hl Hf.
  assert (Hpos : 0 < total (cnt (a, false)) (locks_of <$> ts) \/ 0 < total (cnt (a, true)) (locks_of <$> ts)).
  { pose proof (lo_readers _ _ (in_locks _ _ _ _ _ I) a l Hl) as Hr. pose proof (lo_writer _ _ (in_locks _ _ _ _ _ I) a l Hl) as Hw.
    pose proof (total_nonneg _ (locks_of <$> ts) (cnt_nonneg (a, false))). unfold lock_free in Hf. destruct (fWriter l); cbn in Hw; [right; lia|left].
    rewrite andb_true_r in Hf. apply Z.eqb_neq in Hf. lia. }
  assert (Hex : exists w, 0 < total (cnt (a, w)) (locks_of <$> ts)) by (destruct Hpos; eauto). destruct Hex as [w Hw].
  apply total_pos in Hw as (j & xs & Hj & Hc). rewrite list_lookup_fmap in Hj. destruct (ts !! j) as [q|] eqn:Hq; [|done]. cbn in Hj. injection Hj as <-.
  exists j, q, w. split; [done|]. destruct (decide ((a, w) ∈ locks_of q)) as [|Hno]; [done|]. rewrite cnt_0 in Hc by done. lia.
Qed.

(** A client that waits for a lock and cannot go on waits for one that is not free. *)
Lemma waits_taken (s : table) (p : pc) a : waits_for_lock p = Some a -> tstep junk go_on s p = Blocked -> exists l, m_locks s !! a = Some l /\ lock_free l = false.
Proof.
  intros Hw Hs. destruct p; cbn [waits_for_lock] in Hw; try discriminate Hw; injection Hw as <-; cbn [tstep] in Hs.
  all: unfold enter_bucket, EnterAsReader, FTryEnterAsWriter, EnterAsWriter in Hs; destruct (m_locks s !! m_pBucketHead plock) as [l|]; cbn [try] in Hs.
  all: repeat match type of Hs with (if ?b then _ else _) = _ => destruct b eqn:? end; try discriminate Hs; exists l; split; try done.
  all: unfold lock_free; match goal with Hf : fWriter ?x = true |- _ => by rewrite Hf, andb_false_r end.
Qed.

(** Every client inside can go on, or waits for a lock whose holder can. *)
Lemma no_deadlock (s : table) ts own rss ph (i : nat) p n : inv s ts own rss ph -> ops_ok s n -> n < 2 ^ 63 -> ts !! i = Some p -> p <> Idle ->
  (exists s' p', tstep junk go_on s p = Next s' p') \/
  (exists a (j : nat) q w, waits_for_lock p = Some a /\ ts !! j = Some q /\ (a, w) ∈ locks_of q /\ waits_for_lock q = None /\
     exists s' q', tstep junk go_on s q = Next s' q').
Proof.
  intros I Ho Hn Hi Hp. destruct (waits_for_lock p) as [a|] eqn:Hw; [|left; by eapply moves_on].
  pose proof (tstep_good s ts own rss ph i p go_on n I Ho Hn Hi) as Hg. destruct (tstep junk go_on s p) as [| |s' p'] eqn:Hs; [|done|left; by eauto].
  right. destruct (waits_taken s p a Hw Hs) as (l & Hl & Hf). destruct (holder_of s ts own rss ph a l I Hl Hf) as (j & q & w & Hj & Hq).
  assert (Hwq : waits_for_lock q = None) by (destruct q; try done; by apply not_elem_of_nil in Hq).
  exists a, j, q, w. split_and!; try done. eapply moves_on; try done. intros ->. by apply not_elem_of_nil in Hq.
Qed.

(** Nobody uses a table whose clients are idle. *)
Lemma idle_standing (s : table) ts own rss ph : inv s ts own rss ph -> (forall p, p ∈ ts -> p = Idle) -> exists e, standing s own rss e.
Proof.
  intros I Hi. destruct (ar_cap _ _ (in_arrays _ _ _ _ _ I)) as (e & He & Ec). exists e.
  pose proof (in_arrays _ _ _ _ _ I) as Ha. pose proof (in_heads _ _ _ _ _ I) as Hh. rewrite Ec in Ha, Hh. split; try done; [lia|apply I|].
  assert (Hz : forall x, total (cnt x) (locks_of <$> ts) = 0) by (intros x; apply total_0; intros xs (p & -> & ->%Hi)%list_elem_of_fmap; done).
  intros a [r w] Hl. pose proof (lo_readers _ _ (in_locks _ _ _ _ _ I) a _ Hl) as Hr. pose proof (lo_writer _ _ (in_locks _ _ _ _ _ I) a _ Hl) as Hw.
  cbn in Hr, Hw. rewrite Hz in Hr, Hw. subst r. by destruct w.
Qed.

End Top.
