(* ===== verification/HashProgram.v ===== *)
(** * HashProgram: the dynamic hash table from initialisation to termination

    The theorems about the whole component: [ErrInit] makes an empty table or leaves nothing
    behind; from there on the clients, in any order, use a map; no assertion fails, no
    client is stuck, every entry stays where linear hashing looks for it; and [Term]
    releases everything.  The number of steps is bounded by [2 ^ 63] because the table counts
    operations in words and [SelectMaintenancePolicy] relies on their sum not wrapping
    around. *)

From stdpp Require Import gmap relations.
From S2P Require Import Prelude HashBucket HashBucketProofs HashBucketOps Threads HashTable HashStates HashDir HashViews HashMemory HashInv HashPolicySteps HashInit HashInitProofs HashTop HashBucketTop.

(** ** The whole program

    [ErrInit], then [n] clients in any order, then [Term]. *)

Section Program.
Context {K E : Type} `{KE : CKeyEntry K E} `{CL : !ClientLaws K E} `{Countable K}.
Context (sizeofBUCKET sizeofCKeyEntry cProcessorMax cLoadFactor cBucketMinimum : Z).
Context (junk : Z -> BUCKET E) (alloc : BucketLayout -> heap E -> nat -> option Z).

#[local] Instance table_layout : BucketLayout := dir_layout sizeofBUCKET sizeofCKeyEntry cLoadFactor.
#[local] Instance table_params : TableParams := dir_params cProcessorMax cLoadFactor cBucketMinimum.

Abbreviation pc := (@pc K E).
Abbreviation table := (CDynamicHashTable E).
Abbreviation machine := (machine_ok sizeofBUCKET sizeofCKeyEntry cProcessorMax cLoadFactor cBucketMinimum junk alloc).
Abbreviation init := (ErrInit sizeofBUCKET sizeofCKeyEntry cProcessorMax junk alloc).

(** [m] steps of [n] clients from a table that was just made. *)
Definition run (n m : nat) (c : conf table pc) : Prop :=
  exists s, init true cLoadFactor cBucketMinimum = Some (errSuccess, s) /\ nsteps (step (tstep (K := K) junk)) m (Conf s (replicate n Idle)) c.

Lemma made_ok n s : machine -> made sizeofBUCKET sizeofCKeyEntry cProcessorMax cLoadFactor s -> 2 * Z.of_nat n + 1 < 2 ^ 31 ->
  table_ok (Conf s (replicate n (Idle : pc))) 0 ∅.
Proof.
  intros Hm [(own & k & Hs & Ho & Hd) Hchs Hhs Hst Hsem Hcc Hops] Hn. pose proof (machine_layout _ _ _ _ _ _ _ Hm) as HL. pose proof (mc_procs _ _ _ _ _ _ _ Hm).
  exists own, (replicate (m_chs s) []), Quiet. cbn [shared pcs]. split_and!.
  - apply (new_inv s own k n); try done; rewrite Hchs; lia.
  - assert (Hz : forall hs, hs ∈ m_rghs s -> m_cOp hs = 0) by (rewrite Hhs; by intros hs [-> _]%elem_of_replicate).
    split; [intros hs Hi; by rewrite Hz|by rewrite total_0|by rewrite Hops].
  - unfold contents. by rewrite Ho.
Qed.

Lemma init_made n s : machine -> 2 * Z.of_nat n + 1 < 2 ^ 31 -> init true cLoadFactor cBucketMinimum = Some (errSuccess, s) ->
  table_ok (Conf s (replicate n (Idle : pc))) 0 ∅ /\ @LayoutOk table_layout /\ @ParamsOk table_params.
Proof.
  intros Hm Hn Hi. destruct (ErrInit_ok _ _ _ _ _ _ _ true Hm) as (err & s1 & E1 & Hc). rewrite Hi in E1. injection E1 as <- <-.
  destruct Hc as [(_ & Ha & Hs)|[[? _]|[? _]]]; try done.
  split_and!; [by apply made_ok|by eapply machine_layout|by eapply machine_params].
Qed.

Lemma run_ok n m c : machine -> 2 * Z.of_nat n + 1 < 2 ^ 31 -> Z.of_nat m < 2 ^ 63 -> run n m c -> exists M, table_ok c (Z.of_nat m) M /\
  @LayoutOk table_layout /\ @ParamsOk table_params.
Proof.
  intros Hm Hn Hlt (s & Hi & Hr). destruct (init_made n s Hm Hn Hi) as (Hc0 & HL & HP).
  destruct (steps_ok (LO := HL) (PO := HP) junk (mc_junk _ _ _ _ _ _ _ Hm) m _ c 0 ∅ Hc0 ltac:(lia) Hr) as (M & Hc).
  exists M. by rewrite Z.add_0_l in Hc.
Qed.

(** C18: [ErrInit] always returns.  It succeeds with an empty table, or reports why it
    cannot: [errInvalidParameter] exactly for a load factor below one or more buckets
    than a word can count, [errOutOfMemory] otherwise; and then everything it had
    allocated has been released. *)
Theorem hash_table_init n fHotstuff : machine -> 2 * Z.of_nat n + 1 < 2 ^ 31 -> exists err s, init fHotstuff cLoadFactor cBucketMinimum = Some (err, s) /\
  ((err = errSuccess /\ args_ok cProcessorMax cLoadFactor cBucketMinimum = true /\ table_ok (Conf s (replicate n (Idle : pc))) 0 ∅) \/
   (err = errOutOfMemory /\ released s) \/
   (err = errInvalidParameter /\ args_ok cProcessorMax cLoadFactor cBucketMinimum = false /\ released s)).
Proof.
  intros Hm Hn. destruct (ErrInit_ok _ _ _ _ _ _ _ fHotstuff Hm) as (err & s & Ei & Hc). exists err, s. split; [done|].
  destruct Hc as [(-> & Ha & Hs)|Hc]; [|by right]. left. split_and!; [done|done|by apply made_ok].
Qed.

(** C5: The hash table is a map under any interleaving of its clients, while it grows and
    shrinks.  Let the clients make any calls in any order ([sched]: who moves, with
    which operation).  Then there is an execution of the map with exactly the events of
    this one: the same clients make the same calls at the same steps and see the same
    results.  In it a client waits for a key and gets it alone for writing or with others
    for reading; a lookup returns what the map has for the key; an insertion succeeds
    exactly by adding the entry, and fails only for a key that is there or for lack of
    memory; a replacement or a deletion succeeds exactly by changing the map; a step that
    makes no call, such as those that split and merge buckets, changes nothing.  The
    events leave no choice for the map at the end, which is what the chains of buckets in
    memory hold. *)
Theorem hash_table_refines_map n sched s c : machine -> 2 * Z.of_nat n + 1 < 2 ^ 31 -> Z.of_nat (length sched) < 2 ^ 63 ->
  init true cLoadFactor cBucketMinimum = Some (errSuccess, s) ->
  let start := Conf s (replicate n (Idle : pc)) in
  exec (tstep junk) sched start = Some c ->
  exists own rss, memory_ok (m_heap (shared c)) (m_rgrgBucket (shared c)) own (reserves (shared c)) rss /\
    spec_run (trace junk sched start) (∅, replicate n AOut) (contents own, abstract <$> pcs c) /\
    forall M cs, spec_run (trace junk sched start) (∅, replicate n AOut) (M, cs) -> M = contents own /\ cs = abstract <$> pcs c.
Proof.
  intros Hm Hn Hlt Hi start He. destruct (init_made n s Hm Hn Hi) as (Hc & HL & HP).
  destruct (exec_ok (LO := HL) (PO := HP) junk (mc_junk _ _ _ _ _ _ _ Hm) sched start c 0 ∅ Hc ltac:(lia) He) as (M & (own & rss & ph & I & _ & <-) & Hs).
  cbn [pcs start] in Hs. rewrite fmap_replicate in Hs. exists own, rss. split; [apply I|]. split; [done|].
  intros M cs Hs'. by injection (spec_run_functional _ _ _ _ Hs Hs') as -> ->.
Qed.

(** C7: No client ever fails an assertion, reads or writes memory that is not a live
    bucket, or leaves an array, whatever it calls, and whatever the others do. *)
Theorem hash_table_never_faults n m c (i : nat) p (o : @op K E) : machine -> 2 * Z.of_nat n + 1 < 2 ^ 31 -> Z.of_nat m < 2 ^ 63 -> run n m c ->
  pcs c !! i = Some p -> tstep junk o (shared c) p <> Fault.
Proof.
  intros Hm Hn Hlt Hr Hi Hf. destruct (run_ok n m c Hm Hn Hlt Hr) as (M & (own & rss & ph & I & Ho & _) & HL & HP).
  pose proof (tstep_good (L := table_layout) (TP := table_params) junk (mc_junk _ _ _ _ _ _ _ Hm) _ _ own rss ph i p o _ I Ho Hlt Hi) as Hg. by rewrite Hf in Hg.
Qed.

(** C16: Every entry is in the chain of the bucket to which linear hashing leads, and no
    key occurs twice, also while buckets are split and merged; the chains and the
    reserved buckets are disjoint and are all the memory there is, and the directory uses no
    bucket outside its arrays. *)
Theorem hash_table_entries_in_place n m c : machine -> 2 * Z.of_nat n + 1 < 2 ^ 31 -> Z.of_nat m < 2 ^ 63 -> run n m c ->
  exists own rss, memory_ok (m_heap (shared c)) (m_rgrgBucket (shared c)) own (reserves (shared c)) rss /\
    dir_ok (cap own) (m_dirptrs0 (shared c)) /\ placed own (m_dirptrs0 (shared c)) /\ distinct own.
Proof.
  intros Hm Hn Hlt Hr. destruct (run_ok n m c Hm Hn Hlt Hr) as (M & (own & rss & ph & I & _ & _) & _). exists own, rss. split_and!; [apply I..].
Qed.

(** C17: There is no deadlock: a client inside a call can take its next step, or it waits
    for the lock of a bucket that another client holds, and that client waits for no lock
    and can take its next step. *)
Theorem hash_table_no_deadlock n m c (i : nat) p : machine -> 2 * Z.of_nat n + 1 < 2 ^ 31 -> Z.of_nat m < 2 ^ 63 -> run n m c -> pcs c !! i = Some p -> p <> Idle ->
  (exists s' p', tstep junk go_on (shared c) p = Next s' p') \/
  (exists a (j : nat) q w, waits_for_lock p = Some a /\ pcs c !! j = Some q /\ (a, w) ∈ locks_of q /\ waits_for_lock q = None /\
     exists s' q', tstep junk go_on (shared c) q = Next s' q').
Proof.
  intros Hm Hn Hlt Hr Hi Hp. destruct (run_ok n m c Hm Hn Hlt Hr) as (M & (own & rss & ph & I & Ho & _) & HL & HP).
  by apply (no_deadlock (L := table_layout) (TP := table_params) junk (mc_junk _ _ _ _ _ _ _ Hm) _ _ own rss ph i p _ I Ho Hlt).
Qed.

(** C19: When the clients have returned, [Term] releases every bucket, reserved or in a
    chain, every lock and every array. *)
Theorem hash_table_terminates n m c : machine -> 2 * Z.of_nat n + 1 < 2 ^ 31 -> Z.of_nat m < 2 ^ 63 -> run n m c -> (forall p, p ∈ pcs c -> p = Idle) ->
  exists s', Term (shared c) = Some s' /\ released s'.
Proof.
  intros Hm Hn Hlt Hr Hi. destruct (run_ok n m c Hm Hn Hlt Hr) as (M & (own & rss & ph & I & _ & _) & HL & _).
  destruct (idle_standing _ _ _ _ _ I Hi) as [e Hs]. by apply (Term_ok _ own rss e).
Qed.

End Program.

(** ** A concrete table

    Two processors, buckets of 96 bytes with room for four entries, an allocator that
    puts one block after the other, and two clients. *)

#[export] Instance demo_client : ClientLaws Z (Z * Z).
Proof. refine {| key_of := fst |}; [|done]. intros e k. cbn. apply Z.eqb_eq. Defined.

Definition table_junk (p : Z) : BUCKET (Z * Z) := Bucket (Some 0) 0 (replicate 4 (0, 0)).

Definition table_alloc (L : BucketLayout) (h : heap (Z * Z)) (n : nat) : option Z :=
  let p := 4096 * (1 + Z.of_nat (size (blocks h))) in if bool_decide (fresh h p n) then Some p else None.

Lemma demo_machine : machine_ok 24 16 2 1 4 table_junk table_alloc.
Proof.
  split; try done. intros h n p. unfold table_alloc. case_bool_decide; [|done]. by intros [= <-].
Qed.

Definition demo_tstep := @tstep Z (Z * Z) demo_keys (dir_layout 24 16 1) (dir_params 2 1 4) table_junk.

Abbreviation demo_conf := (conf (CDynamicHashTable (Z * Z)) (@pc Z (Z * Z))).

Definition demo_start : demo_conf :=
  match ErrInit 24 16 2 table_junk table_alloc true 1 4 with
  | Some (_, s) => Conf s [Idle; Idle]
  | None => Conf (Table (Heap ∅ ∅) ∅ (Dirptrs 0 0) (Dirptrs 0 0) [] [] 0 0 stateNil 0 0) []
  end.

Definition call_of (c : @call Z (Z * Z)) : @op Z (Z * Z) := Op c 0 (Some 65536) false.

(** One client has written the key 5, the other waits for it. *)
Definition demo_wait : list (nat * @op Z (Z * Z)) :=
  replicate 7 (0%nat, call_of (WriteLockKey 5)) ++ [(0%nat, call_of (ErrInsertEntry (5, 50)))] ++ replicate 3 (1%nat, call_of (ReadLockKey 5)).

(** The first one leaves, and the second one reads. *)
Definition demo_read : list (nat * @op Z (Z * Z)) :=
  demo_wait ++ replicate 5 (0%nat, call_of UnlockKey) ++ replicate 4 (1%nat, call_of (ReadLockKey 5)) ++ [(1%nat, call_of ErrRetrieveEntry)].

Abbreviation demo_run := (run (K := Z) 24 16 2 1 4 table_junk table_alloc 2).

Lemma demo_reaches sched ps : pcs <$> exec demo_tstep sched demo_start = Some ps -> exists c, demo_run (length sched) c /\ pcs c = ps.
Proof.
  destruct (exec demo_tstep sched demo_start) as [c|] eqn:Ec; [|done]. intros [= <-]. exists c. split; [|done].
  assert (Ei : ErrInit 24 16 2 table_junk table_alloc true 1 4 = Some (errSuccess, shared demo_start)) by (by vm_compute).
  exists (shared demo_start). split; [done|]. apply exec_nsteps. exact Ec.
Qed.

Definition reader (plock : CLock) : @pc Z (Z * Z) := Held plock 5 (Some (errSuccess, Some (5, 50))).

Definition read_lock : CLock := Lock lsRead false 0 4192 4192 0 4216 0 0.

Lemma demo_reads : pcs <$> exec demo_tstep demo_read demo_start = Some [Idle; reader read_lock].
Proof. by vm_compute. Qed.

Lemma hash_table_init_witness : exists err s, ErrInit 24 16 2 table_junk table_alloc false 1 4 = Some (err, s) /\ err = errOutOfMemory /\ released s.
Proof.
  destruct (hash_table_init (K := Z) 24 16 2 1 4 table_junk table_alloc 2 false demo_machine ltac:(done)) as (err & s & Ei & Hc). exists err, s. split; [done|].
  assert (Ee : err = errOutOfMemory) by (vm_compute in Ei; by injection Ei). destruct Hc as [(-> & _)|[Hc|(-> & _)]]; done.
Defined.

(** The calls of the demonstration and what the clients see after them. *)
Definition demo_calls : list (nat * @call Z (Z * Z) * aclient Z (Z * Z)) :=
  (fun ev => (ev_client ev, op_call (ev_op ev), ev_sees ev)) <$> filter (fun ev => ev_call ev = true) (@trace Z (Z * Z) demo_keys (dir_layout 24 16 1) (dir_params 2 1 4) table_junk demo_read demo_start).

Lemma hash_table_refines_map_witness : exists (c : demo_conf) own rss,
  exec demo_tstep demo_read demo_start = Some c /\ abstract <$> pcs c = [AOut; AHas 5 false (Some (errSuccess, Some (5, 50)))] /\
  memory_ok (L := dir_layout 24 16 1) (m_heap (shared c)) (m_rgrgBucket (shared c)) own (reserves (shared c)) rss /\
  spec_run (@trace Z (Z * Z) demo_keys (dir_layout 24 16 1) (dir_params 2 1 4) table_junk demo_read demo_start) (∅, [AOut; AOut]) (contents own, abstract <$> pcs c) /\
  demo_calls = [(0%nat, WriteLockKey 5, AWait 5 true false); (0%nat, ErrInsertEntry (5, 50), AHas 5 true (Some (errSuccess, None)));
    (1%nat, ReadLockKey 5, AWait 5 false false); (0%nat, UnlockKey, AOut);
    (1%nat, ErrRetrieveEntry, AHas 5 false (Some (errSuccess, Some (5, 50))))].
Proof.
  destruct (exec demo_tstep demo_read demo_start) as [c|] eqn:Ec; [|exfalso; pose proof demo_reads as Hd; by rewrite Ec in Hd].
  assert (Hp : pcs c = [Idle; reader read_lock]) by (pose proof demo_reads as Hd; rewrite Ec in Hd; by injection Hd).
  assert (Ei : ErrInit 24 16 2 table_junk table_alloc true 1 4 = Some (errSuccess, shared demo_start)) by (by vm_compute).
  destruct (hash_table_refines_map (K := Z) 24 16 2 1 4 table_junk table_alloc 2 demo_read (shared demo_start) c demo_machine ltac:(done) ltac:(done) Ei Ec) as (own & rss & Hm & Hs & _).
  exists c, own, rss. split; [reflexivity|]. split; [by rewrite Hp|]. split; [exact Hm|]. split; [exact Hs|]. vm_compute. reflexivity.
Defined.

Lemma hash_table_never_faults_witness : exists c : demo_conf, pcs c = [Idle; reader read_lock] /\ demo_tstep (call_of ErrRetrieveEntry) (shared c) (reader read_lock) <> Fault.
Proof.
  destruct (demo_reaches _ _ demo_reads) as (c & Hr & Hp). exists c. split; [done|].
  apply (hash_table_never_faults 24 16 2 1 4 table_junk table_alloc 2 (length demo_read) c 1 _ (call_of ErrRetrieveEntry) demo_machine ltac:(done) ltac:(done) Hr). by rewrite Hp.
Defined.

Lemma hash_table_entries_in_place_witness : exists (c : demo_conf) own rss, pcs c = [Idle; reader read_lock] /\
  memory_ok (L := dir_layout 24 16 1) (m_heap (shared c)) (m_rgrgBucket (shared c)) own (reserves (shared c)) rss /\ placed own (m_dirptrs0 (shared c)).
Proof.
  destruct (demo_reaches _ _ demo_reads) as (c & Hr & Hp).
  destruct (hash_table_entries_in_place 24 16 2 1 4 table_junk table_alloc 2 (length demo_read) c demo_machine ltac:(done) ltac:(done) Hr) as (own & rss & Hm & _ & Hpl & _).
  exists c, own, rss. done.
Defined.

(** The second client waits for the lock of the first. *)
Lemma hash_table_no_deadlock_witness : exists (c : demo_conf) p, pcs c !! 1%nat = Some p /\ waits_for_lock p = Some 4192 /\
  ((exists s' p', demo_tstep go_on (shared c) p = Next s' p') \/
   exists a (j : nat) q w, waits_for_lock p = Some a /\ pcs c !! j = Some q /\ (a, w) ∈ locks_of q /\ waits_for_lock q = None /\
     exists s' q', demo_tstep go_on (shared c) q = Next s' q').
Proof.
  assert (Hw : pcs <$> exec demo_tstep demo_wait demo_start =
    Some [Held (Lock lsWrite true 0 4192 4192 0 4216 0 0) 5 (Some (errSuccess, None)); LkLock (Lock lsRead false 0 4192 0 0 0 0 0) 5 false false stateGrow 2 1 2]) by (by vm_compute).
  destruct (demo_reaches _ _ Hw) as (c & Hr & Hp). eexists c, _. split; [by rewrite Hp|]. split; [done|].
  apply (hash_table_no_deadlock 24 16 2 1 4 table_junk table_alloc 2 (length demo_wait) c 1 _ demo_machine ltac:(done) ltac:(done) Hr); [by rewrite Hp|done].
Defined.

Lemma hash_table_terminates_witness : exists (c : demo_conf) s', pcs c = [Idle; Idle] /\ Term (L := dir_layout 24 16 1) (shared c) = Some s' /\ released s'.
Proof.
  assert (Hw : pcs <$> exec demo_tstep (demo_read ++ [(1%nat, call_of UnlockKey)]) demo_start = Some [Idle; Idle]) by (by vm_compute).
  destruct (demo_reaches _ _ Hw) as (c & Hr & Hp).
  destruct (hash_table_terminates 24 16 2 1 4 table_junk table_alloc 2 (length (demo_read ++ [(1%nat, call_of UnlockKey)])) c demo_machine ltac:(done) ltac:(done) Hr) as (s' & Ht & Hrel).
  - rewrite Hp. intros p [->|[->|[]%not_elem_of_nil]%elem_of_cons]%elem_of_cons; done.
  - exists c, s'. split; [exact Hp|]. split; [exact Ht|exact Hrel].
Defined.
