(* ===== verification/LocklessList.v ===== *)
(** * LocklessList: threads that share one lock-less list

    [CLocklessLinkedList] with any number of threads: [AtomicInsertAsPrevMost]
    as the atomic operations of [AtomicAddLinklistNode] (read the head, write the
    node's link, compare-exchange the head, again if it has changed), and
    [AtomicRemoveList] as one atomic exchange.  A thread works through the list it
    has taken with [RemovePrevMost] on a list of its own.  Every thread starts with
    some objects, inserts objects it owns and owns the objects it has removed.

    The specification is the same threads on a plain sequence, with the insertion
    one atomic operation. *)

From stdpp Require Import gmap relations.
From S2P Require Import Prelude SimpleQueue SimpleQueueProofs Threads.

(** Where a thread is in [AtomicAddLinklistNode( pvNode, ppvNext, ... )]. *)
Inductive position :=
  | Ready
  | AddRead (pvNode ppvNext : Z)            (** about to read the head *)
  | AddLink (pvNode ppvNext pvHead : Z)     (** about to write the link *)
  | AddCas (pvNode ppvNext pvHead : Z).     (** about to compare and exchange *)

(** [own]: the objects the thread may insert; [local]: the [m_pHead] of its own list. *)
Record thread := Thread { pos : position; own : list Z; local : Z }.

Record memory := Memory { lmem : links; m_pHead : Z }.

Inductive lop := OInsert (pobj : Z) | OTake | ORemove.

(** One object taken out of those a thread owns. *)
Fixpoint take_out (p : Z) (l : list Z) : option (list Z) :=
  match l with
  | [] => None
  | x :: l => if p =? x then Some l else l' ← take_out p l; Some (x :: l')
  end.

Section Steps.
Context `{L : Layout}.

Definition of_option {A S P} (o : option A) (k : A -> outcome S P) : outcome S P :=
  match o with Some x => k x | None => Fault end.

(** [AtomicInsertAsPrevMost( pobj )], up to the loop. *)
Definition begin_insert (pobj : Z) (s : memory) (t : thread) : outcome memory thread :=
  match take_out pobj (own t) with
  | None => Blocked
  | Some own' =>
      of_option (Lockless.insert_link (lmem s) pobj) (fun pp =>
      Next s (Thread (AddRead pobj pp) own' (local t)))
  end.

(** [AtomicRemoveList], into the thread's own list when that is empty. *)
Definition take_list (s : memory) (t : thread) : outcome memory thread :=
  if local t =? 0 then
    let '(r, head) := Lockless.AtomicRemoveList (m_pHead s) in
    Next (Memory (lmem s) head) (Thread Ready (own t) r)
  else Blocked.

(** [RemovePrevMost] on the thread's own list, whose objects no other thread touches. *)
Definition remove_own (s : memory) (t : thread) : outcome memory thread :=
  of_option (Lockless.RemovePrevMost (lmem s) (local t)) (fun '(r, h, c) =>
  Next (Memory h (m_pHead s)) (Thread Ready (if r =? 0 then own t else r :: own t) c)).

(** The compare-exchange of [AtomicAddLinklistNode]: the end of its loop, or the
    next round. *)
Definition add_cas (p pp pvHead : Z) (s : memory) (t : thread) : outcome memory thread :=
  let '(pvResult, head) := cmpxchg (m_pHead s) pvHead p in
  Next (Memory (lmem s) head) (Thread (if pvResult =? pvHead then Ready else AddRead p pp) (own t) (local t)).

Definition tstep (o : lop) (s : memory) (t : thread) : outcome memory thread :=
  match pos t with
  | Ready =>
      match o with
      | OInsert pobj => begin_insert pobj s t
      | OTake => take_list s t
      | ORemove => remove_own s t
      end
  | AddRead p pp => Next s (Thread (AddLink p pp (m_pHead s)) (own t) (local t))
  | AddLink p pp pvHead =>
      of_option (wr_link (lmem s) pp pvHead) (fun h =>
      Next (Memory h (m_pHead s)) (Thread (AddCas p pp pvHead) (own t) (local t)))
  | AddCas p pp pvHead => add_cas p pp pvHead s t
  end.

(** The objects of a list, found by following the links. *)
Fixpoint walk_loop (fuel : nat) (h : links) (head : Z) : option (list Z) :=
  match fuel with
  | O => None
  | S fuel => if head =? 0 then Some [] else n ← h !! link head; l ← walk_loop fuel h n; Some (head :: l)
  end.

Definition walk (h : links) (head : Z) : option (list Z) := walk_loop (S (size h)) h head.

(** Threads that own the objects [objs]; the shared list and their own are empty. *)
Definition start (objs : list (list Z)) : conf memory thread :=
  Conf (Memory (list_to_map ((fun p => (link p, 0)) <$> concat objs)) Lockless.ctor)
       ((fun l => Thread Ready l Lockless.ctor) <$> objs).

End Steps.

(** ** The specification *)

(** [pending]: the object the thread is inserting; [taken]: its own list. *)
Record athread := AThread { pending : option Z; aown : list Z; taken : list Z }.

Definition atstep (o : lop) (l : list Z) (t : athread) : outcome (list Z) athread :=
  match pending t with
  | Some p => Next (p :: l) (AThread None (aown t) (taken t))
  | None =>
      match o with
      | OInsert p =>
          match take_out p (aown t) with
          | None => Blocked
          | Some own' => Next l (AThread (Some p) own' (taken t))
          end
      | OTake =>
          match taken t with
          | [] => Next [] (AThread None (aown t) l)
          | _ :: _ => Blocked
          end
      | ORemove =>
          match taken t with
          | [] => Next l t
          | x :: k => Next l (AThread None (x :: aown t) k)
          end
      end
  end.

Definition astart (objs : list (list Z)) : conf (list Z) athread :=
  Conf [] ((fun l => AThread None l []) <$> objs).

Definition thread_objects (t : athread) : list Z := option_list (pending t) ++ aown t ++ taken t.

(** All objects: in the shared list, being inserted, owned, or in a thread's list. *)
Definition all_objects (a : conf (list Z) athread) : list Z := shared a ++ concat (thread_objects <$> pcs a).

Definition is_pending (q : position) : option Z :=
  match q with Ready => None | AddRead p _ | AddLink p _ _ | AddCas p _ _ => Some p end.

(** What is seen of a thread agrees with the specification. *)
Definition shows `{L : Layout} (h : links) (t : thread) (a : athread) : Prop :=
  is_pending (pos t) = pending a /\ own t = aown a /\ walk h (local t) = Some (taken a).

(** ** Nothing is lost or duplicated, in the specification *)

Lemma take_out_Permutation (p : Z) (l l' : list Z) : take_out p l = Some l' -> l ≡ₚ p :: l'.
Proof.
  revert l'. induction l as [|x l IH]; intros l' H; cbn in H; [done|].
  destruct (Z.eqb_spec p x) as [->|_]; [by simplify_eq|].
  destruct (take_out p l) as [k|]; [|done]. simplify_eq/=. rewrite (IH k) by done. apply Permutation_swap.
Qed.

(** One thread's step keeps its objects together with those of the list. *)
Lemma atstep_objects (o : lop) (l l' : list Z) (t t' : athread) :
  atstep o l t = Next l' t' -> l' ++ thread_objects t' ≡ₚ l ++ thread_objects t.
Proof.
  destruct t as [[p|] ow tk]; unfold atstep, thread_objects; cbn; intros H.
  - simplify_eq/=. apply Permutation_middle.
  - destruct o as [p| |].
    + destruct (take_out p ow) as [ow'|] eqn:E; [|done]. simplify_eq/=. by rewrite (take_out_Permutation _ _ _ E).
    + destruct tk; [|done]. simplify_eq/=. rewrite app_nil_r. apply Permutation_app_comm.
    + destruct tk as [|x tk]; simplify_eq/=; [done|]. by rewrite (Permutation_middle ow tk x).
Qed.

Lemma concat_split (f : athread -> list Z) (ts1 ts2 : list athread) (t : athread) :
  concat (f <$> ts1 ++ t :: ts2) ≡ₚ f t ++ concat (f <$> ts1) ++ concat (f <$> ts2).
Proof.
  rewrite fmap_app, concat_app. cbn. rewrite !app_assoc. apply Permutation_app_tail, Permutation_app_comm.
Qed.

Lemma astep_objects (a a' : conf (list Z) athread) : step atstep a a' -> all_objects a' ≡ₚ all_objects a.
Proof.
  destruct 1 as [o l ts i t l' t' Hi E]. apply atstep_objects in E. unfold all_objects; cbn.
  rewrite <- (take_drop_middle ts i t) by done.
  rewrite insert_app_r_alt by (rewrite length_take; lia).
  rewrite length_take_le by (apply lookup_lt_Some in Hi; lia). rewrite Nat.sub_diag. cbn.
  rewrite !concat_split, !app_assoc. by rewrite E.
Qed.

Lemma reachable_objects (a a' : conf (list Z) athread) : rtc (step atstep) a a' -> all_objects a' ≡ₚ all_objects a.
Proof. induction 1 as [|a1 a2 a3 H _ IH]; [done|]. rewrite IH. by apply astep_objects. Qed.
