(* ===== verification/LocklessListTop.v ===== *)
(** * LocklessListTop: the shared list is linearizable

    Every interleaving of [LocklessList] is an interleaving of its specification,
    in which an insertion is one atomic operation: the compare-exchange that
    succeeds.  The invariant relates the two: the shared list and every thread's
    own list are linked as the specification says, the link of an object its
    thread may insert is null, and a thread about to compare and exchange has
    linked its object to the head it read. *)

From stdpp Require Import gmap relations.
From S2P Require Import Prelude SimpleQueue SimpleQueueProofs Threads LocklessList.

Section Simulation.
Context `{L : Layout}.
Hypothesis Hlayout : cbOffsetOfNext + 8 <= sizeof_CObject.

Definition pos_ok (h : links) (q : position) (o : option Z) : Prop :=
  match q with
  | Ready => o = None
  | AddRead p pp | AddLink p pp _ => o = Some p /\ pp = link p /\ is_Some (h !! link p)
  | AddCas p pp pvHead => o = Some p /\ pp = link p /\ h !! link p = Some pvHead
  end.

Record thread_ok (h : links) (t : thread) (a : athread) : Prop := {
  thread_own : own t = aown a;
  thread_chain : chain h (local t) (taken a);
  thread_free : forall p, p ∈ aown a -> h !! link p = Some 0;
  thread_pos : pos_ok h (pos t) (pending a) }.

Lemma thread_write (h : links) (t : thread) (a : athread) (z v : Z) :
  obj_ok z -> Forall obj_ok (thread_objects a) -> z ∉ thread_objects a ->
  thread_ok h t a -> thread_ok (<[link z := v]> h) t a.
Proof.
  intros Hz Ho Hn [Hown Hc Hf Hp]. unfold thread_objects in *.
  assert (Hne : forall p, p ∈ option_list (pending a) ++ aown a ++ taken a -> link z <> link p).
  { intros p Hp' ->%link_inj; [done..|]. by apply (proj1 (list.Forall_forall _ _) Ho). }
  split; [done| | |].
  - apply chain_write; set_solver.
  - intros p Hp'. rewrite lookup_insert_ne; [by apply Hf|apply Hne; set_solver].
  - destruct (pos t) as [|p pp|p pp hd|p pp hd]; cbn in *; [done|..]; destruct Hp as (E & -> & Hl);
      rewrite E in Hne; cbn in Hne; (rewrite lookup_insert_ne; [done|apply Hne; set_solver]).
Qed.

Context (objs : list (list Z)) (Hobjs : Forall obj_ok (concat objs)) (Hnodup : NoDup (concat objs)).

Record Inv (c : conf memory thread) (a : conf (list Z) athread) : Prop := {
  inv_list : chain (lmem (shared c)) (m_pHead (shared c)) (shared a);
  inv_threads : Forall2 (thread_ok (lmem (shared c))) (pcs c) (pcs a);
  inv_reach : rtc (step atstep) (astart objs) a }.

Lemma astart_objects : all_objects (astart objs) = concat objs.
Proof.
  unfold all_objects, astart, thread_objects; cbn. clear. induction objs as [|l ls IH]; [done|].
  cbn. by rewrite app_nil_r, IH.
Qed.

(** The objects the specification speaks of are those of the start, each once. *)
Lemma inv_objects (c : conf memory thread) (a : conf (list Z) athread) :
  Inv c a -> NoDup (all_objects a) /\ Forall obj_ok (all_objects a).
Proof.
  intros [_ _ H%reachable_objects]. rewrite astart_objects in H. by rewrite H.
Qed.

(** A step writes no link, or one of an object of its thread. *)
Definition touches (h h' : links) (a : athread) : Prop :=
  h' = h \/ exists z v, z ∈ thread_objects a /\ h' = <[link z := v]> h.

Lemma split_objects (a : conf (list Z) athread) (ts1 ts2 : list athread) (t : athread) :
  pcs a = ts1 ++ t :: ts2 -> NoDup (all_objects a) -> Forall obj_ok (all_objects a) ->
  Forall obj_ok (thread_objects t) /\ NoDup (thread_objects t) /\
  (forall z, z ∈ thread_objects t -> z ∉ shared a /\
    Forall (fun t' => Forall obj_ok (thread_objects t') /\ z ∉ thread_objects t') (ts1 ++ ts2)).
Proof.
  unfold all_objects. intros -> Hd Ho. rewrite concat_split in Hd, Ho. rewrite <- concat_app, <- fmap_app in Hd, Ho.
  rewrite !list.NoDup_app in Hd. rewrite !Forall_app in Ho. destruct Ho as (_ & Ht & Ho).
  destruct Hd as (_ & Hd1 & Hd2 & Hd3 & _). split_and!; [done|done|]. intros z Hz. split; [set_solver|].
  specialize (Hd3 z Hz). clear -Ho Hd3. induction (ts1 ++ ts2) as [|t' ts IH]; [constructor|].
  cbn in *. rewrite Forall_app in Ho. constructor; [set_solver|]. apply IH; [set_solver|apply Ho].
Qed.

Lemma touched (s : memory) (ts : list thread) (a : conf (list Z) athread) (i : nat) (t t' : thread)
    (at0 at' : athread) (h' : links) :
  Inv (Conf s ts) a -> ts !! i = Some t -> pcs a !! i = Some at0 -> touches (lmem s) h' at0 ->
  chain h' (m_pHead s) (shared a) /\
  (thread_ok h' t' at' -> Forall2 (thread_ok h') (<[i := t']> ts) (<[i := at']> (pcs a))).
Proof.
  intros Hinv Hi Hai Ht. destruct (inv_objects _ _ Hinv) as [Hd Ho]. destruct Hinv as [Hl Hts _]. cbn in *.
  destruct (Forall2_split _ _ _ _ _ _ Hts Hi Hai) as (ts1 & ts2 & as1 & as2 & _ & Ea & H1 & H2 & Et' & Ea').
  destruct (split_objects _ _ _ _ Ea Hd Ho) as (Hot & _ & Hz). rewrite Et', Ea'.
  destruct Ht as [->|(z & v & Hzt & ->)]; [split; [done|]; intros; by apply Forall2_app, Forall2_cons|].
  pose proof (proj1 (list.Forall_forall _ _) Hot z Hzt) as Hzo. destruct (Hz z Hzt) as [Hzl [Hz1 Hz2]%Forall_app].
  split; [by apply chain_write|]. intros Hok.
  assert (Hw : forall ts as_, Forall2 (thread_ok (lmem s)) ts as_ ->
    Forall (fun t' => Forall obj_ok (thread_objects t') /\ z ∉ thread_objects t') as_ ->
    Forall2 (thread_ok (<[link z := v]> (lmem s))) ts as_).
  { clear -Hzo Hlayout. intros ts as_ H. induction H as [|x y ts as_ Hxy H IH]; intros Hf; [constructor|].
    apply list.Forall_cons in Hf as [[Hy1 Hy2] Hf]. constructor; [by apply thread_write|by apply IH]. }
  apply Forall2_app; [by apply Hw|]. apply Forall2_cons; auto.
Qed.

(** A step that the specification does not see. *)
Lemma inv_internal (s : memory) (ts : list thread) (a : conf (list Z) athread) (i : nat) (t t' : thread)
    (at0 : athread) (h' : links) :
  Inv (Conf s ts) a -> ts !! i = Some t -> pcs a !! i = Some at0 -> touches (lmem s) h' at0 ->
  thread_ok h' t' at0 -> Inv (Conf (Memory h' (m_pHead s)) (<[i := t']> ts)) a.
Proof.
  intros Hinv Hi Hai Ht Hok. destruct (touched s ts a i t t' at0 at0 h' Hinv Hi Hai Ht) as [Hl Hts].
  specialize (Hts Hok). rewrite (list_insert_id (pcs a)) in Hts by done. split; [done..|apply Hinv].
Qed.

(** A step that is one of the specification. *)
Lemma inv_atomic (o : lop) (s : memory) (ts : list thread) (a : conf (list Z) athread) (i : nat) (t t' : thread)
    (at0 at' : athread) (h' : links) (head' : Z) (l' : list Z) :
  Inv (Conf s ts) a -> ts !! i = Some t -> pcs a !! i = Some at0 -> touches (lmem s) h' at0 ->
  atstep o (shared a) at0 = Next l' at' ->
  (chain h' (m_pHead s) (shared a) -> chain h' head' l') -> thread_ok h' t' at' ->
  Inv (Conf (Memory h' head') (<[i := t']> ts)) (Conf l' (<[i := at']> (pcs a))).
Proof.
  intros Hinv Hi Hai Ht Ha Hl Hok. destruct (touched s ts a i t t' at0 at' h' Hinv Hi Hai Ht) as [Hl' Hts].
  split; [by apply Hl|by apply Hts|]. eapply rtc_r; [apply (inv_reach _ _ Hinv)|].
  destruct a as [l ats]. by apply (step_thread _ o _ _ _ at0).
Qed.

(** What a step from a related configuration must give. *)
Definition sim (s : memory) (ts : list thread) (a : conf (list Z) athread) (i : nat) (r : outcome memory thread) : Prop :=
  match r with
  | Blocked => True
  | Fault => False
  | Next s' t' => exists a', Inv (Conf s' (<[i := t']> ts)) a'
  end.

Section Step.
Context (s : memory) (ts : list thread) (a : conf (list Z) athread) (i : nat) (t : thread) (at0 : athread).
Hypothesis Hinv : Inv (Conf s ts) a.
Hypothesis Hi : ts !! i = Some t.
Hypothesis Hai : pcs a !! i = Some at0.

Lemma this_ok : thread_ok (lmem s) t at0.
Proof. eapply (Forall2_lookup_lr _ _ _ _ _ _ (inv_threads _ _ Hinv)); done. Qed.

Lemma this_objects : Forall obj_ok (thread_objects at0) /\ NoDup (thread_objects at0) /\
  forall z, z ∈ thread_objects at0 -> z ∉ shared a.
Proof.
  destruct (inv_objects _ _ Hinv) as [Hd Ho]. pose proof (take_drop_middle _ _ _ Hai) as E. symmetry in E.
  destruct (split_objects _ _ _ _ E Hd Ho) as (H1 & H2 & H3). split_and!; [done..|]. intros z Hz. by apply H3.
Qed.

Lemma this_obj (p : Z) : p ∈ thread_objects at0 -> obj_ok p.
Proof. destruct this_objects as [H _]. by apply list.Forall_forall. Qed.

Lemma begin_insert_sim (p : Z) : pending at0 = None -> sim s ts a i (begin_insert p s t).
Proof.
  intros Hn. destruct this_ok as [Hown Hc Hf Hp]. unfold begin_insert. rewrite Hown.
  destruct (take_out p (aown at0)) as [ow|] eqn:E; [|done]. pose proof (take_out_Permutation _ _ _ E) as HP.
  assert (Hpo : p ∈ aown at0) by (rewrite HP; set_solver).
  rewrite (insert_link_eq Hlayout) by first [by apply Hf | apply this_obj; unfold thread_objects; set_solver].
  cbn. eexists. destruct s as [h head]. eapply (inv_atomic (OInsert p) _ ts a i t _ at0 _ h);
    [done|done|done|by left|by unfold atstep; rewrite Hn, E|done|].
  split; cbn; [done|done| |].
  - intros q Hq. apply Hf. rewrite HP. set_solver.
  - split_and!; [done..|]. exists 0. by apply Hf.
Qed.

Lemma take_list_sim : pos t = Ready -> pending at0 = None -> sim s ts a i (take_list s t).
Proof.
  intros Hr Hn. destruct this_ok as [Hown Hc Hf Hp]. unfold take_list.
  destruct (Z.eqb_spec (local t) 0) as [Hz|]; [|done]. apply (chain_null _ _ _ Hc) in Hz.
  cbn. eexists. eapply (inv_atomic OTake _ ts a i t _ at0 _ (lmem s));
    [done|done|done|by left|by unfold atstep; rewrite Hn, Hz|intros; apply chain_nil|].
  split; cbn; [done|apply (inv_list _ _ Hinv)|done|done].
Qed.

Lemma remove_own_sim : pos t = Ready -> pending at0 = None -> sim s ts a i (remove_own s t).
Proof.
  intros Hr Hn. destruct this_ok as [Hown Hc Hf Hp]. unfold remove_own. destruct (taken at0) as [|x l] eqn:Htk.
  - rewrite (proj2 (chain_null _ _ _ Hc) eq_refl). rewrite (remove_empty Hlayout). cbn. exists a.
    eapply inv_internal; [done..|by left|]. split; cbn; [done|rewrite Htk; apply chain_nil|done|done].
  - assert (Hx : x ∈ thread_objects at0) by (unfold thread_objects; rewrite Htk; set_solver).
    destruct (this_obj x Hx) as [Hx0 _]. rewrite (remove_eq Hlayout _ _ _ _ Hc). cbn.
    rewrite (proj2 (Z.eqb_neq x 0)) by lia. eexists.
    destruct this_objects as (_ & Hd & _). unfold thread_objects in Hd. rewrite Hn, Htk in Hd. cbn in Hd.
    apply list.NoDup_app in Hd as (_ & Hd & _).
    eapply (inv_atomic ORemove _ ts a i t _ at0);
      [done|done|done|by right; exists x, 0|by unfold atstep; rewrite Hn, Htk|done|].
    split; cbn; [by rewrite Hown|by eapply chain_pop| |done].
    intros p [->|Hpo]%elem_of_cons; [by rewrite lookup_insert_eq|].
    rewrite lookup_insert_ne; [by apply Hf|]. intros ->%link_inj; [set_solver|by apply this_obj|].
    apply this_obj. unfold thread_objects. set_solver.
Qed.

Lemma add_link_sim (p pp pvHead : Z) (o : lop) : pos t = AddLink p pp pvHead -> sim s ts a i (tstep o s t).
Proof.
  intros Hpos. destruct this_ok as [Hown Hc Hf Hp]. unfold tstep. rewrite Hpos in *. destruct Hp as (Hp & -> & [n E]).
  rewrite (wr_link_eq _ _ _ n) by done. cbn. exists a.
  destruct this_objects as (_ & Hd & _). unfold thread_objects in Hd. rewrite Hp in Hd. cbn in Hd.
  apply list.NoDup_cons in Hd as [Hd _].
  assert (Hpin : p ∈ thread_objects at0) by (unfold thread_objects; rewrite Hp; set_solver).
  eapply (inv_internal s ts a i t _ at0); [done..|by right; exists p, pvHead|].
  split; cbn; [done|apply chain_write; [by apply this_obj|set_solver|done]| |by rewrite lookup_insert_eq].
  intros q Hq. rewrite lookup_insert_ne; [by apply Hf|]. intros ->%link_inj; [set_solver|by apply this_obj|].
  apply this_obj. unfold thread_objects. set_solver.
Qed.

Lemma add_cas_sim (p pp pvHead : Z) (o : lop) : pos t = AddCas p pp pvHead -> sim s ts a i (tstep o s t).
Proof.
  intros Hpos. destruct this_ok as [Hown Hc Hf Hp]. unfold tstep. rewrite Hpos in *. unfold add_cas, cmpxchg. destruct Hp as (Hp & -> & E).
  destruct (Z.eqb_spec (m_pHead s) pvHead) as [<-|_]; cbn.
  - eexists. eapply (inv_atomic o _ ts a i t _ at0); [done|done|done|by left|by unfold atstep; rewrite Hp| |].
    + intros Hl. assert (Hpin : p ∈ thread_objects at0) by (unfold thread_objects; rewrite Hp; set_solver).
      apply chain_cons. rewrite <- (chain_head _ _ _ Hl).
      split_and!; [done|done|done|by apply this_objects|by apply this_obj].
    + by split.
  - exists a. eapply inv_internal; [done..|by left|]. split; cbn; [done..|]. by rewrite E.
Qed.

End Step.

Lemma tstep_sim (s : memory) (ts : list thread) (a : conf (list Z) athread) (i : nat) (t : thread) (o : lop) :
  Inv (Conf s ts) a -> ts !! i = Some t -> sim s ts a i (tstep o s t).
Proof.
  intros Hinv Hi. destruct (Forall2_lookup_l _ _ _ _ _ (inv_threads _ _ Hinv) Hi) as (at0 & Hai & Ht).
  cbn in Hai, Ht. destruct (pos t) as [|p pp|p pp hd|p pp hd] eqn:Hpos.
  - pose proof (thread_pos _ _ _ Ht) as Hp. rewrite Hpos in Hp. unfold tstep. rewrite Hpos. destruct o.
    + by eapply begin_insert_sim.
    + by eapply take_list_sim.
    + by eapply remove_own_sim.
  - unfold tstep. rewrite Hpos. exists a.
    destruct s as [h head]. eapply (inv_internal (Memory h head)); [done..|by left|].
    destruct Ht as [? ? ? Hp]. rewrite Hpos in Hp. by split.
  - by eapply add_link_sim.
  - by eapply add_cas_sim.
Qed.

Lemma start_inv : Inv (start objs) (astart objs).
Proof.
  split; cbn; [apply chain_nil| |reflexivity].
  set (h := list_to_map _). assert (Hh : forall p, p ∈ concat objs -> h !! link p = Some 0).
  { intros p Hp. apply elem_of_list_to_map_1'; [|apply list_elem_of_fmap; by exists p].
    intros y (q & Hy & _)%list_elem_of_fmap. congruence. }
  clearbody h. clear Hobjs Hnodup. induction objs as [|l ls IH]; [constructor|]. cbn in *. constructor.
  - split; cbn; [done|apply chain_nil| |done]. intros p Hp. apply Hh. set_solver.
  - apply IH. intros p Hp. apply Hh. set_solver.
Qed.

Lemma reachable_inv (c : conf memory thread) : rtc (step tstep) (start objs) c -> exists a, Inv c a.
Proof.
  apply (invariant_reachable tstep (fun c => exists a, Inv c a)); [|exists (astart objs); apply start_inv].
  intros c1 c2 [a Ha] H. destruct H as [o s ts i t s' t' Hi E]. pose proof (tstep_sim _ _ _ _ _ o Ha Hi) as Hs.
  by rewrite E in Hs.
Qed.

Lemma walk_loop_chain (h : links) (l : list Z) : forall fuel head, chain h head l -> (length l < fuel)%nat ->
  walk_loop fuel h head = Some l.
Proof.
  induction l as [|x l IH]; intros [|fuel] head Hc Hf; try lia; cbn [walk_loop].
  - by rewrite (chain_head _ _ _ Hc).
  - apply chain_cons in Hc as (-> & E & Hc & _ & [Hx _]). rewrite (proj2 (Z.eqb_neq x 0)), E by lia.
    cbn in *. by rewrite (IH fuel) by (done || lia).
Qed.

Lemma walk_chain (h : links) (head : Z) (l : list Z) : chain h head l -> walk h head = Some l.
Proof. intros Hc. apply walk_loop_chain; [done|]. pose proof (chain_size Hlayout _ _ _ Hc). lia. Qed.

(** C13: threads that insert objects into one lock-less list and take the whole
    list out of it, in any interleaving of their atomic operations.  Every
    configuration they reach is one the specification reaches, in which an
    insertion puts its object in front of a sequence in one step and a taker gets
    the whole sequence: following the links of the shared list and of every
    thread's list gives exactly the sequences of the specification, the threads
    own the same objects, and together these are the objects of the start, each
    in one place.  No assertion fails and no link of anything but an object is
    followed. *)
Theorem lockless_list_refines (c : conf memory thread) :
  rtc (step tstep) (start objs) c ->
  (exists a, rtc (step atstep) (astart objs) a /\
    walk (lmem (shared c)) (m_pHead (shared c)) = Some (shared a) /\
    Forall2 (shows (lmem (shared c))) (pcs c) (pcs a) /\ all_objects a ≡ₚ concat objs) /\
  never_faults tstep c.
Proof.
  intros Hc. split.
  - destruct (reachable_inv c Hc) as [a [Hl Hts Hr]]. exists a. split_and!; [done|by apply walk_chain| |].
    + eapply list.Forall2_impl; [exact Hts|]. intros t at0 [Ho Hch _ Hp]. split_and!; [|done|by apply walk_chain].
      destruct (pos t); cbn in *; tauto || (symmetry; tauto) || (by symmetry).
    + apply reachable_objects in Hr. by rewrite astart_objects in Hr.
  - intros c' i t o Hc' Hi E. destruct (reachable_inv c') as [a Ha]; [by etrans|]. destruct c' as [s ts].
    pose proof (tstep_sim _ _ _ _ _ o Ha Hi) as Hs. cbn in E. by rewrite E in Hs.
Qed.

(** ** An insertion that is not disturbed ends *)

(** Thread [i] alone takes [k] steps from [c], after which its object [p] is in
    front of the sequence [l] and nothing of the other threads has changed. *)
Definition inserts_in (k : nat) (c : conf memory thread) (i : nat) (p : Z) (ow : list Z) (lo : Z) (l : list Z) : Prop :=
  exists c', exec tstep (replicate k (i, OTake)) c = Some c' /\
    walk (lmem (shared c')) (m_pHead (shared c')) = Some (p :: l) /\ pcs c' = <[i := Thread Ready ow lo]> (pcs c).

Section Alone.
Context (i : nat) (p lo : Z) (ow l : list Z) (Hp : obj_ok p) (Hpl : p ∉ l).

Lemma inserts_step (k : nat) (s s' : memory) (ts : list thread) (t t' : thread) :
  ts !! i = Some t -> tstep OTake s t = Next s' t' ->
  inserts_in k (Conf s' (<[i := t']> ts)) i p ow lo l -> inserts_in (S k) (Conf s ts) i p ow lo l.
Proof.
  intros Hi E (c' & Ee & Hw & Hts). exists c'. cbn [replicate exec pcs shared] in *. rewrite Hi, E.
  split_and!; [done..|]. by rewrite Hts, list_insert_insert_eq.
Qed.

Lemma insert_lookup (ts : list thread) (t t' : thread) : ts !! i = Some t -> <[i := t']> ts !! i = Some t'.
Proof. intros H%lookup_lt_Some. by apply list_lookup_insert_eq. Qed.

(** The compare-exchange with the current head. *)
Lemma cas_inserts (h : links) (head : Z) (ts : list thread) :
  chain h head l -> h !! link p = Some head -> ts !! i = Some (Thread (AddCas p (link p) head) ow lo) ->
  inserts_in 1 (Conf (Memory h head) ts) i p ow lo l.
Proof.
  intros Hc E Hi. eapply inserts_step; [done|unfold tstep, add_cas, cmpxchg; cbn; by rewrite !Z.eqb_refl|].
  eexists. split_and!; [done| |cbn; by rewrite list_insert_insert_eq]. cbn. apply walk_chain, chain_cons.
  by rewrite <- (chain_head _ _ _ Hc).
Qed.

Lemma link_inserts (h : links) (head : Z) (ts : list thread) :
  chain h head l -> is_Some (h !! link p) -> ts !! i = Some (Thread (AddLink p (link p) head) ow lo) ->
  inserts_in 2 (Conf (Memory h head) ts) i p ow lo l.
Proof.
  intros Hc [n E] Hi. eapply inserts_step; [done|unfold tstep; cbn; by rewrite (wr_link_eq _ _ _ n)|].
  apply cas_inserts; [by apply chain_write|by rewrite lookup_insert_eq|by eapply insert_lookup].
Qed.

Lemma read_inserts (h : links) (head : Z) (ts : list thread) :
  chain h head l -> is_Some (h !! link p) -> ts !! i = Some (Thread (AddRead p (link p)) ow lo) ->
  inserts_in 3 (Conf (Memory h head) ts) i p ow lo l.
Proof.
  intros Hc E Hi. eapply inserts_step; [done|done|]. by apply link_inserts; [..|eapply insert_lookup].
Qed.

Lemma any_cas_inserts (h : links) (head pvHead : Z) (ts : list thread) :
  chain h head l -> h !! link p = Some pvHead -> ts !! i = Some (Thread (AddCas p (link p) pvHead) ow lo) ->
  exists k, (k <= 4)%nat /\ inserts_in k (Conf (Memory h head) ts) i p ow lo l.
Proof.
  intros Hc E Hi. destruct (Z.eq_dec head pvHead) as [->|Hne].
  - exists 1%nat. split; [lia|]. by apply cas_inserts.
  - exists 4%nat. split; [lia|]. eapply inserts_step; [done| |].
    + unfold tstep, add_cas, cmpxchg; cbn. by rewrite !(proj2 (Z.eqb_neq head pvHead)).
    + by apply read_inserts; [|rewrite E|eapply insert_lookup].
Qed.

End Alone.

(** an insertion ends.  In every configuration the threads reach, a thread in
    the middle of an insertion that takes its next steps undisturbed has inserted
    its object after at most five of them, whatever head it read before: the object
    is in front of the sequence the list held, and the other threads are where they
    were. *)
Theorem insertion_ends (c : conf memory thread) (i : nat) (t : thread) (p : Z) :
  rtc (step tstep) (start objs) c -> pcs c !! i = Some t -> is_pending (pos t) = Some p ->
  exists k l, (k <= 5)%nat /\ walk (lmem (shared c)) (m_pHead (shared c)) = Some l /\
    inserts_in k c i p (own t) (local t) l.
Proof.
  intros Hc Hi Hp. destruct (reachable_inv c Hc) as [a Hinv]. destruct c as [[h head] ts]. cbn [pcs shared lmem m_pHead] in *.
  destruct (Forall2_lookup_l _ _ _ _ _ (inv_threads _ _ Hinv) Hi) as (at0 & Hai & Ht).
  pose proof (inv_list _ _ Hinv) as Hl. cbn in Hl, Hai, Ht. destruct Ht as [_ _ _ Hpos].
  assert (Hin : p ∈ thread_objects at0).
  { unfold thread_objects. destruct (pos t); cbn in *; simplify_eq; destruct Hpos as [-> _]; set_solver. }
  pose proof (this_obj _ _ _ _ _ Hinv Hai p Hin) as Hpo.
  pose proof (this_objects _ _ _ _ _ Hinv Hai) as (_ & _ & Hsh). specialize (Hsh p Hin).
  destruct t as [q ow lo]. cbn [pos own local] in *.
  destruct q as [|p' pp|p' pp hd|p' pp hd]; simplify_eq/=; destruct Hpos as (_ & -> & E).
  - exists 3%nat, (shared a). split_and!; [lia|by apply walk_chain|by apply read_inserts].
  - destruct E as [n E].
    destruct (any_cas_inserts i p lo ow (shared a) Hpo Hsh (<[link p := hd]> h) head hd
      (<[i := Thread (AddCas p (link p) hd) ow lo]> ts)) as (k & Hk & Hins).
    + by apply chain_write.
    + by rewrite lookup_insert_eq.
    + by eapply insert_lookup.
    + exists (S k), (shared a). split_and!; [lia|by apply walk_chain|]. eapply inserts_step; [done| |done].
      unfold tstep; cbn. by rewrite (wr_link_eq _ _ _ n).
  - destruct (any_cas_inserts i p lo ow (shared a) Hpo Hsh h head hd ts Hl E Hi) as (k & Hk & Hins).
    exists k, (shared a). split_and!; [lia|by apply walk_chain|done].
Qed.

End Simulation.

(** Two threads insert at the same time; the first one's compare-exchange fails,
    so that it goes around the loop again. *)
Definition race : list (nat * lop) :=
  [(0, OInsert 4096); (0, OTake); (0, OTake); (1, OInsert 12288); (1, OTake); (1, OTake); (1, OTake); (0, OTake)]%nat.

Definition race_objs : list (list Z) := [[4096; 8192]; [12288]].

Lemma race_objs_ok : Forall (@obj_ok layout32) (concat race_objs).
Proof. repeat (apply Forall_cons_2; [unfold obj_ok; cbn; lia|]). apply Forall_nil_2. Qed.

Lemma race_objs_nodup : NoDup (concat race_objs).
Proof. apply (bool_decide_unpack (NoDup _)). vm_compute. exact I. Qed.

(** After the race thread 0 finishes and thread 1 takes both objects and removes one. *)
Lemma lockless_list_refines_witness :
  exists c a, exec (@tstep layout32) (race ++ [(0, OTake); (0, OTake); (0, OTake); (1, OTake); (1, ORemove)]%nat)
      (@start layout32 race_objs) = Some c /\
    rtc (step atstep) (astart race_objs) a /\
    Forall2 (@shows layout32 (lmem (shared c))) (pcs c) (pcs a) /\
    (taken <$> pcs a) = [[]; [12288]] /\ (aown <$> pcs a) = [[8192]; [4096]] /\ all_objects a ≡ₚ [4096; 8192; 12288].
Proof.
  destruct (exec (@tstep layout32) (race ++ [(0, OTake); (0, OTake); (0, OTake); (1, OTake); (1, ORemove)]%nat)
    (@start layout32 race_objs)) as [c|] eqn:E; [|vm_compute in E; discriminate E].
  destruct (@lockless_list_refines layout32 ltac:(cbn; lia) race_objs race_objs_ok race_objs_nodup c
    (exec_steps _ _ _ _ E)) as [(a & Hr & Hw & Hs & Hp) _].
  exists c, a. split_and!; [done|done|done| | |done].
  - clear -E Hs. vm_compute in E. injection E as <-. destruct a as [l ats]. cbn [pcs shared] in *.
    inversion Hs as [|? a0 ? ? (_ & _ & H0) Hs']; subst. inversion Hs' as [|? a1 ? ? (_ & _ & H1) Hs'']; subst.
    inversion Hs''; subst. destruct a0, a1. vm_compute in H0, H1. by simplify_eq.
  - clear -E Hs. vm_compute in E. injection E as <-. destruct a as [l ats]. cbn [pcs shared] in *.
    inversion Hs as [|? a0 ? ? (_ & H0 & _) Hs']; subst. inversion Hs' as [|? a1 ? ? (_ & H1 & _) Hs'']; subst.
    inversion Hs''; subst. cbn in *. by rewrite <- H0, <- H1.
Defined.

Lemma insertion_ends_witness :
  exists c, exec (@tstep layout32) race (@start layout32 race_objs) = Some c /\
    exists k l, (k <= 5)%nat /\ @walk layout32 (lmem (shared c)) (m_pHead (shared c)) = Some l /\
      @inserts_in layout32 k c 0 4096 [8192] 0 l.
Proof.
  eexists. split; [vm_compute; reflexivity|].
  apply (@insertion_ends layout32 ltac:(cbn; lia) race_objs race_objs_ok race_objs_nodup _ 0
    (Thread (AddRead 4096 4120) [8192] 0) 4096); [|reflexivity|reflexivity].
  apply (exec_steps _ race). vm_compute. reflexivity.
Defined.
