(* ===== verification/ControlWord.v ===== *)
(** * ControlWord: a 32-bit word of two counters and two flags

    [CReaderWriterLock] and [CBinaryLock] use the same layout: a 15-bit counter
    and a flag in the low half, and again in the high half.  The lemmas evaluate
    the masks and the carries of the locks' arithmetic on these fields. *)

From S2P Require Import Prelude Threads.

(** [LONG_PTR( LONG( x ) ) >> 31]: -1 when bit 31 of [x] is set, else 0. *)
Definition sign_mask (x : Z) : Z := Z.shiftr (s32 x) 31.

(** The word with counters [w] and [r] and flags [q] and [Q]. *)
Definition cword (w : Z) (q : bool) (r : Z) (Q : bool) : Z :=
  w + 2 ^ 15 * (Z.b2z q + 2 ^ 1 * (r + 2 ^ 15 * Z.b2z Q)).

(** A counter's range. *)
Definition field (x : Z) : Prop := 0 <= x < 2 ^ 15.

Create HintDb cword.

Lemma cword_range w q r Q : field w -> field r -> 0 <= cword w q r Q < 2 ^ 32.
Proof. unfold field, cword. destruct q, Q; cbn [Z.b2z]; lia. Qed.

Lemma u32_eq k x y : 0 <= y < 2 ^ 32 -> x = y + k * 2 ^ 32 -> u32 x = y.
Proof. intros Hy ->. unfold wrapu. rewrite Z.mod_add by lia. now apply Z.mod_small. Qed.

Definition counter_mask (b : bool) : Z := if b then 0x7FFF else 0.

Lemma land_counter x b : field x -> x .& counter_mask b = if b then x else 0.
Proof.
  unfold field. intros H. destruct b; unfold counter_mask.
  - change 0x7FFF with (Z.ones 15). rewrite Z.land_ones by lia. now apply Z.mod_small.
  - apply Z.land_0_r.
Qed.

Lemma land_b2z a b : Z.b2z a .& Z.b2z b = Z.b2z (a && b).
Proof. now destruct a, b. Qed.

(** Masking selects fields. *)
Lemma land_cword w q r Q mw mq mr mQ : field w -> field r ->
  cword w q r Q .& cword (counter_mask mw) mq (counter_mask mr) mQ =
  cword (if mw then w else 0) (q && mq) (if mr then r else 0) (Q && mQ).
Proof.
  intros Hw Hr.
  assert (Hb : forall b, 0 <= Z.b2z b < 2 ^ 1) by (intros []; cbn; lia).
  assert (Hc : forall b, 0 <= counter_mask b < 2 ^ 15) by (intros []; cbn; lia).
  unfold cword. rewrite !land_split by (first [lia | easy | apply Hb | apply Hc]).
  now rewrite !land_counter, !land_b2z.
Qed.

Section Masks.
Context (w : Z) (q : bool) (r : Z) (Q : bool) (Hw : field w) (Hr : field r).

Ltac mask a b c d := 
  let E := fresh in
  pose proof (land_cword w q r Q a b c d Hw Hr) as E;
  rewrite ?andb_true_r, ?andb_false_r in E; exact E.

Lemma land_FFFF7FFF : cword w q r Q .& 0xFFFF7FFF = cword w false r Q.
Proof. mask true false true true. Qed.
Lemma land_7FFFFFFF : cword w q r Q .& 0x7FFFFFFF = cword w q r false.
Proof. mask true true true false. Qed.
Lemma land_FFFF0000 : cword w q r Q .& 0xFFFF0000 = cword 0 false r Q.
Proof. mask false false true true. Qed.
Lemma land_0000FFFF : cword w q r Q .& 0x0000FFFF = cword w q 0 false.
Proof. mask true true false false. Qed.
Lemma land_80000000 : cword w q r Q .& 0x80000000 = cword 0 false 0 Q.
Proof. mask false false false true. Qed.
Lemma land_7FFF0000 : cword w q r Q .& 0x7FFF0000 = cword 0 false r false.
Proof. mask false false true false. Qed.
Lemma land_00008000 : cword w q r Q .& 0x00008000 = cword 0 q 0 false.
Proof. mask false true false false. Qed.
Lemma land_00007FFF : cword w q r Q .& 0x00007FFF = cword w false 0 false.
Proof. mask true false false false. Qed.
Lemma land_80008000 : cword w q r Q .& 0x80008000 = cword 0 q 0 Q.
Proof. mask false true false true. Qed.
Lemma land_8000FFFF : cword w q r Q .& 0x8000FFFF = cword w q 0 Q.
Proof. mask true true false true. Qed.
Lemma land_FFFF8000 : cword w q r Q .& 0xFFFF8000 = cword 0 q r Q.
Proof. mask false true true true. Qed.

(** Adding a flag. *)
Lemma lor_80000000 : cword w q r Q .| 0x80000000 = cword w q r true.
Proof.
  pose proof (Z.add_lor_land (cword w q r Q) 0x80000000) as E. rewrite land_80000000 in E.
  unfold cword in *. destruct Q; cbn [Z.b2z] in *; lia.
Qed.

Lemma lor_00008000 : cword w q r Q .| 0x00008000 = cword w true r Q.
Proof.
  pose proof (Z.add_lor_land (cword w q r Q) 0x00008000) as E. rewrite land_00008000 in E.
  unfold cword in *. destruct q, Q; cbn [Z.b2z] in *; lia.
Qed.

End Masks.

(** ** Signs and zero tests *)

Lemma sign_mask_spec x : 0 <= x < 2 ^ 32 -> sign_mask x = if x <? 2 ^ 31 then 0 else -1.
Proof.
  intros Hx. unfold sign_mask. rewrite Z.shiftr_div_pow2 by lia.
  destruct (Z.ltb_spec x (2 ^ 31)) as [H|H].
  - rewrite wraps_small by (unfold in_s; lia). apply Z.div_small. lia.
  - replace (s32 x) with (x - 2 ^ 32).
    + symmetry. apply Z.div_unique with (r := x - 2 ^ 31); lia.
    + unfold wraps. replace (x + 2 ^ (32 - 1)) with (x - 2 ^ 31 + 1 * 2 ^ 32) by lia.
      rewrite Z.mod_add, Z.mod_small by lia. lia.
Qed.

Lemma sign_mask_cword w q r Q : field w -> field r ->
  sign_mask (cword w q r Q) = if Q then -1 else 0.
Proof.
  intros Hw Hr. pose proof (cword_range w q r Q Hw Hr) as H. rewrite sign_mask_spec by easy.
  unfold cword, field in *. destruct Q, q; cbn [Z.b2z] in *;
    match goal with |- (if ?b then _ else _) = _ => destruct b eqn:E end; bool_to_prop; lia.
Qed.

Lemma cword_eq0 w q r Q : field w -> field r ->
  (cword w q r Q =? 0) = (w =? 0) && negb q && (r =? 0) && negb Q.
Proof.
  intros Hw Hr. unfold cword, field in *. apply eq_true_iff_eq.
  rewrite Z.eqb_eq, !andb_true_iff, !negb_true_iff, !Z.eqb_eq.
  destruct q, Q; cbn [Z.b2z]; lia.
Qed.

(** The word determines its fields. *)
Lemma cword_inj w q r Q w' q' r' Q' : field w -> field r -> field w' -> field r' ->
  cword w q r Q = cword w' q' r' Q' -> w = w' /\ q = q' /\ r = r' /\ Q = Q'.
Proof.
  unfold cword, field. intros Hw Hr Hw' Hr' E.
  destruct q, Q, q', Q'; cbn [Z.b2z] in E; split_and!; try done; lia.
Qed.

Lemma shiftr_counter r : field r -> Z.shiftr (cword 0 false r false) 16 = r.
Proof.
  intros Hr. rewrite Z.shiftr_div_pow2 by lia. unfold cword. cbn [Z.b2z].
  symmetry. apply Z.div_unique with (r := 0); lia.
Qed.

Lemma lxor_lor_0 a b m : ((a ^^ b) .| m =? 0) = (a =? b) && (m =? 0).
Proof.
  apply eq_true_iff_eq. rewrite Z.eqb_eq, andb_true_iff, !Z.eqb_eq.
  rewrite Z.lor_eq_0_iff, Z.lxor_eq_0_iff. reflexivity.
Qed.

(** The low half moved to the high half. *)
Lemma shl16_word w q r Q : field w -> field r ->
  u32 (Z.shiftl (cword w q r Q) 16) = cword 0 false w q.
Proof.
  intros Hw Hr. rewrite Z.shiftl_mul_pow2 by lia.
  apply (u32_eq (r + 2 ^ 15 * Z.b2z Q)); [apply cword_range; unfold field in *; lia|].
  unfold cword. cbn [Z.b2z]. lia.
Qed.

#[export] Hint Rewrite land_FFFF7FFF land_7FFFFFFF land_FFFF0000 land_0000FFFF land_80000000
  land_7FFF0000 land_00008000 land_00007FFF land_80008000 land_8000FFFF land_FFFF8000
  lor_80000000 lor_00008000 sign_mask_cword cword_eq0 shiftr_counter
  using (assumption || (unfold field in *; lia)) : cword.

(** ** A signed counter in a 32-bit word *)

Lemma u32_add x d : u32 (u32 x + d) = u32 (x + d).
Proof. unfold wrapu. apply Zplus_mod_idemp_l. Qed.

Lemma u32_dec x : u32 (u32 x + 0xFFFFFFFF) = u32 (x - 1).
Proof.
  rewrite u32_add. unfold wrapu. replace (x + 4294967295) with (x - 1 + 1 * 2 ^ 32) by lia.
  apply Z.mod_add. lia.
Qed.

Lemma u32_eq0 x : - 2 ^ 32 < x < 2 ^ 32 -> (u32 x =? 0) = (x =? 0).
Proof.
  intros H. unfold wrapu. apply eq_true_iff_eq. rewrite !Z.eqb_eq. split; intros E; [|by subst].
  apply Z.mod_divide in E as [k Hk]; lia.
Qed.

Lemma s32_u32 x : - 2 ^ 31 <= x < 2 ^ 31 -> s32 (u32 x) = x.
Proof. intros Hx. unfold wraps, wrapu. rewrite Z.add_mod_idemp_l, Z.mod_small by lia. lia. Qed.

(** ** States of the locks

    The number the locks' tables give to a word, by which counters are zero and
    which flags are set; -1 for a word that is no state. *)
Definition state_of (w0 q r0 Q : bool) : Z :=
  match w0, q, r0, Q with
  | true, false, true, false => 0
  | true, true, false, false => 1
  | false, false, true, true => 2
  | false, true, true, true => 3
  | true, true, false, true => 4
  | false, true, false, true => 5
  | _, _, _, _ => -1
  end.

Lemma low_counter w : cword w false 0 false = w.
Proof. unfold cword. cbn [Z.b2z]. lia. Qed.
