(* ===== verification/RWLock.v ===== *)
(** * RWLock: the reader-writer lock of sync.hxx and sync.cxx

    [CReaderWriterLock] keeps its state in a control word of four fields: the
    writers that own or wait for the lock (15 bits), a bit that says writers are
    quiesced, the readers that own or wait (15 bits), a bit that says readers are
    quiesced.  When one group must wait for the other, the owners of the other
    group are counted in [m_cOwner], and the thread that brings this count to zero
    hands the lock over by releasing a semaphore.  Every operation is written as
    the sequence of its atomic accesses, as positions of a thread. *)

From S2P Require Import Prelude Threads ControlWord.

Record CReaderWriterLockState := RWState {
  m_cw : Z; m_cOwner : Z; m_semWriter : Z; m_semReader : Z }.

Definition CReaderWriterLockState_ctor : CReaderWriterLockState := RWState 0 0 0 0.

Definition set_cw (cw : Z) (s : CReaderWriterLockState) : CReaderWriterLockState :=
  RWState cw (m_cOwner s) (m_semWriter s) (m_semReader s).

Definition set_cOwner (c : Z) (s : CReaderWriterLockState) : CReaderWriterLockState :=
  RWState (m_cw s) c (m_semWriter s) (m_semReader s).

Definition set_semWriter (c : Z) (s : CReaderWriterLockState) : CReaderWriterLockState :=
  RWState (m_cw s) (m_cOwner s) c (m_semReader s).

Definition set_semReader (c : Z) (s : CReaderWriterLockState) : CReaderWriterLockState :=
  RWState (m_cw s) (m_cOwner s) (m_semWriter s) c.

(** [AtomicCompareExchange( &State().m_cw, cwBIExpected, cwAI )]; the value it
    returns is the word before. *)
Definition cmpxchg_cw (cwBIExpected cwAI : Z) (s : CReaderWriterLockState) : CReaderWriterLockState :=
  if m_cw s =? cwBIExpected then set_cw cwAI s else s.

(** ** The assertions on transitions *)

Inductive TransitionReason := trEnterAsWriter | trLeaveAsWriter | trEnterAsReader | trLeaveAsReader.

Definition tr_bit (tr : TransitionReason) : Z :=
  match tr with
  | trEnterAsWriter => 1
  | trLeaveAsWriter => 2
  | trEnterAsReader => 4
  | trLeaveAsReader => 8
  end.

Definition mpindexstateRW : list Z := [0; -1; -1; -1; -1; -1; 1; -1; -1; 2; -1; 3; -1; -1; 4; 5].

Definition _StateFromControlWord (cw : Z) : Z :=
  let index := 0 in
  let index := index .| (if cw .& 0x80000000 =? 0 then 0 else 8) in
  let index := index .| (if cw .& 0x7FFF0000 =? 0 then 0 else 4) in
  let index := index .| (if cw .& 0x00008000 =? 0 then 0 else 2) in
  let index := index .| (if cw .& 0x00007FFF =? 0 then 0 else 1) in
  default (-1) (rd mpindexstateRW index).

Definition mpstatestatetrmaskRW : list (list Z) :=
  let NO := 0 in let EW := 1 in let LW := 2 in let ER := 4 in let LR := 8 in
  [[NO; ER; EW; NO; NO; NO];
   [LR; ER .| LR; NO; EW; NO; NO];
   [LW; NO; EW .| LW; NO; ER; ER];
   [NO; NO; LR; EW .| LR; NO; ER];
   [NO; LW; NO; NO; ER; EW];
   [NO; NO; NO; LW; LR; EW .| ER .| LR]].

Definition _FValidStateTransition (cwBI cwAI : Z) (tr : TransitionReason) : bool :=
  let stateBI := _StateFromControlWord cwBI in
  let stateAI := _StateFromControlWord cwAI in
  if (stateBI <? 0) || (stateAI <? 0) then false
  else
    let dcOOW2 := s32 (u32 (Z.shiftr (cwAI .& 0x7FFF0000) 16 - Z.shiftr (cwBI .& 0x7FFF0000) 16)) in
    if ((dcOOW2 <? -1) || (1 <? dcOOW2)) && negb (cwAI .& 0x7FFF0000 =? 0) then false
    else
      let dcOOW1 := s32 (u32 ((cwAI .& 0x00007FFF) - (cwBI .& 0x00007FFF))) in
      if (dcOOW1 <? -1) || (1 <? dcOOW1) then false
      else
        match rd mpstatestatetrmaskRW stateBI ≫= fun row => rd row stateAI with
        | Some mask => negb (mask .& tr_bit tr =? 0)
        | None => false
        end.

(** ** The new control words *)

Definition EnterAsWriter_cwAI (cwBIExpected : Z) : Z :=
  u32 (((cwBIExpected .& (sign_mask cwBIExpected .| 0x0000FFFF)) .| 0x80000000) + 0x00000001).

Definition LeaveAsWriter_cwAI (cwBIExpected : Z) : Z :=
  let cwAI := u32 (cwBIExpected + 0xFFFFFFFF) in
  u32 (cwAI - (u32 (Z.shiftl (u32 (cwAI + 0xFFFFFFFF)) 16) .& 0x80000000)).

Definition EnterAsReader_cwAI (cwBIExpected : Z) : Z :=
  u32 ((cwBIExpected .& 0xFFFF7FFF) +
       (if cwBIExpected .& 0x80008000 =? 0x80000000 then 0x00017FFF else 0x00018000)).

Definition LeaveAsReader_cwAI (cwBIExpected : Z) : Z :=
  u32 (u32 (cwBIExpected + 0xFFFF0000) + (sign_mask (u32 (cwBIExpected + 0xFFFE0000)) .& 0xFFFF8000)).

Definition UpdateAsWriter_cwAI (cwBIExpected : Z) : Z :=
  u32 (cwBIExpected .&
       ((sign_mask (u32 (Z.shiftl (u32 (cwBIExpected + 0xFFFF7FFF)) 16)) .& 0xFFFF0000) ^^ 0x8000FFFF)).

Definition UpdateAsReader_cwAI (cwBIExpected : Z) : Z :=
  u32 (cwBIExpected + (if cwBIExpected .& 0x7FFF0000 =? 0 then 0xFFFF8000 else 0xFFFFFFFF)).

(** ** Positions of a thread *)

(** Where [_UpdateQuiescedOwnerCount...] returns to: [_EnterAs...] goes on to
    wait for the semaphore, [LeaveAs...] is finished. *)
Inductive after := AfterEnter | AfterLeave.

Inductive pc :=
  | Idle
  (** [EnterAsWriter]: before the read, before the exchange, in [m_semWriter.Acquire] *)
  | EW | EW_cas (cwBIExpected : Z) | WaitW
  (** [FTryEnterAsWriter]: the first test, the loop *)
  | TW | TW_read | TW_cas (cwBIExpected : Z)
  (** the lock is held for writing; [FTryEnterAsWriter] by the owner *)
  | OwnW | OwnW_try
  (** [LeaveAsWriter], with [m_semWriter.Release()] at the end *)
  | LW | LW_cas (cwBIExpected : Z) | LW_rel
  (** [EnterAsReader], [FTryEnterAsReader], the lock held for reading, [LeaveAsReader] *)
  | ER | ER_cas (cwBIExpected : Z) | WaitR
  | TR | TR_cas (cwBIExpected : Z)
  | OwnR
  | LR | LR_cas (cwBIExpected : Z)
  (** [_UpdateQuiescedOwnerCountAsWriter]: the addition, the loop, the second
      addition, the release of the readers *)
  | UW_add (cOwnerDelta : Z) (k : after) | UW (k : after) | UW_cas (cwBIExpected : Z) (k : after)
  | UW_add2 (cOwnerDeltaT cRelease : Z) (k : after) | UW_rel (cRelease : Z) (k : after)
  (** [_UpdateQuiescedOwnerCountAsReader] *)
  | UR_add (cOwnerDelta : Z) (k : after) | UR (k : after) | UR_cas (cwBIExpected : Z) (k : after)
  | UR_add2 (k : after) | UR_rel (k : after).

#[export] Instance rw_after_eq_dec : EqDecision after.
Proof. solve_decision. Defined.

#[export] Instance rw_pc_eq_dec : EqDecision pc.
Proof. solve_decision. Defined.

Abbreviation result := (outcome CReaderWriterLockState pc).

(** ** Operations *)

Definition return_writer (k : after) : pc := match k with AfterEnter => WaitR | AfterLeave => Idle end.

Definition _UpdateQuiescedOwnerCountAsWriter (s : CReaderWriterLockState) (p : pc) : result :=
  match p with
  | UW_add cOwnerDelta k =>
      let cOwnerBI := m_cOwner s in
      let cOwnerAI := u32 (cOwnerBI + cOwnerDelta) in
      let s := set_cOwner cOwnerAI s in
      if cOwnerAI =? 0 then Next s (UW k) else Next s (return_writer k)
  | UW k =>
      let cwBIExpected := m_cw s in
      OSSYNCAssert (_FValidStateTransition cwBIExpected (UpdateAsWriter_cwAI cwBIExpected) trLeaveAsWriter)
        (Next s (UW_cas cwBIExpected k))
  | UW_cas cwBIExpected k =>
      let cwBI := m_cw s in
      let s := cmpxchg_cw cwBIExpected (UpdateAsWriter_cwAI cwBIExpected) s in
      if negb (cwBI =? cwBIExpected) then Next s (UW k)
      else
        let cReaders := Z.shiftr (cwBI .& 0x7FFF0000) 16 in
        if negb (cwBI .& 0x00007FFF =? 0) then Next s (UW_add2 cReaders cReaders k)
        else Next s (UW_rel cReaders k)
  | UW_add2 cOwnerDeltaT cRelease k =>
      Next (set_cOwner (u32 (m_cOwner s + cOwnerDeltaT)) s) (UW_rel cRelease k)
  | UW_rel cRelease k =>
      Next (set_semReader (sem_release cRelease (m_semReader s)) s) (return_writer k)
  | _ => Blocked
  end.

Definition return_reader (k : after) : pc := match k with AfterEnter => WaitW | AfterLeave => Idle end.

Definition _UpdateQuiescedOwnerCountAsReader (s : CReaderWriterLockState) (p : pc) : result :=
  match p with
  | UR_add cOwnerDelta k =>
      let cOwnerBI := m_cOwner s in
      let cOwnerAI := u32 (cOwnerBI + cOwnerDelta) in
      let s := set_cOwner cOwnerAI s in
      if cOwnerAI =? 0 then Next s (UR k) else Next s (return_reader k)
  | UR k =>
      let cwBIExpected := m_cw s in
      OSSYNCAssert (_FValidStateTransition cwBIExpected (UpdateAsReader_cwAI cwBIExpected) trLeaveAsReader)
        (Next s (UR_cas cwBIExpected k))
  | UR_cas cwBIExpected k =>
      let cwBI := m_cw s in
      let s := cmpxchg_cw cwBIExpected (UpdateAsReader_cwAI cwBIExpected) s in
      if negb (cwBI =? cwBIExpected) then Next s (UR k)
      else if negb (cwBI .& 0x7FFF0000 =? 0) then Next s (UR_add2 k)
      else Next s (UR_rel k)
  | UR_add2 k => Next (set_cOwner (u32 (m_cOwner s + 1)) s) (UR_rel k)
  | UR_rel k => Next (set_semWriter (sem_release 1 (m_semWriter s)) s) (return_reader k)
  | _ => Blocked
  end.

(** [_EnterAsWriter( cwBIOld )] up to its first shared access. *)
Definition _EnterAsWriter (cwBIOld : Z) : pc :=
  if cwBIOld .& 0x80008000 =? 0x00008000
  then UR_add (Z.shiftr (cwBIOld .& 0x7FFF0000) 16) AfterEnter
  else WaitW.

Definition _EnterAsReader (cwBIOld : Z) : pc :=
  if cwBIOld .& 0x80008000 =? 0x80000000 then UW_add 0x00000001 AfterEnter else WaitR.

Definition EnterAsWriter (s : CReaderWriterLockState) (p : pc) : result :=
  match p with
  | EW =>
      let cwBIExpected := m_cw s in
      OSSYNCAssert (_FValidStateTransition cwBIExpected (EnterAsWriter_cwAI cwBIExpected) trEnterAsWriter)
        (Next s (EW_cas cwBIExpected))
  | EW_cas cwBIExpected =>
      let cwBI := m_cw s in
      let s := cmpxchg_cw cwBIExpected (EnterAsWriter_cwAI cwBIExpected) s in
      if negb ((cwBI ^^ cwBIExpected) .| (cwBI .& 0x0000FFFF) =? 0)
      then if negb (cwBI =? cwBIExpected) then Next s EW else Next s (_EnterAsWriter cwBI)
      else Next s OwnW
  | WaitW => sem_acquire (m_semWriter s) (fun c => Next (set_semWriter c s) OwnW)
  | _ => Blocked
  end.

Definition FTryEnterAsWriter (s : CReaderWriterLockState) (p : pc) : result :=
  match p with
  | TW => if negb (m_cw s .& 0x0000FFFF =? 0) then Next s Idle else Next s TW_read
  | OwnW_try =>
      (* the owner: [OSSYNCAssert( State().FNotOwner( 0 ) )] follows the test *)
      if negb (m_cw s .& 0x0000FFFF =? 0) then Next s OwnW else Fault
  | TW_read =>
      let cwBIExpected := m_cw s .& 0xFFFF0000 in
      OSSYNCAssert ((_StateFromControlWord cwBIExpected <? 0) ||
                    _FValidStateTransition cwBIExpected (EnterAsWriter_cwAI cwBIExpected) trEnterAsWriter)
        (Next s (TW_cas cwBIExpected))
  | TW_cas cwBIExpected =>
      let cwBI := m_cw s in
      let s := cmpxchg_cw cwBIExpected (EnterAsWriter_cwAI cwBIExpected) s in
      if negb (cwBI =? cwBIExpected)
      then if negb (cwBI .& 0x0000FFFF =? 0) then Next s Idle else Next s TW_read
      else Next s OwnW
  | _ => Blocked
  end.

Definition LeaveAsWriter (s : CReaderWriterLockState) (p : pc) : result :=
  match p with
  | LW =>
      let cwBIExpected := m_cw s .& 0xFFFF7FFF in
      OSSYNCAssert ((_StateFromControlWord cwBIExpected <? 0) ||
                    _FValidStateTransition cwBIExpected (LeaveAsWriter_cwAI cwBIExpected) trLeaveAsWriter)
        (Next s (LW_cas cwBIExpected))
  | LW_cas cwBIExpected =>
      let cwBI := m_cw s in
      let cwAI := LeaveAsWriter_cwAI cwBIExpected in
      let s := cmpxchg_cw cwBIExpected cwAI s in
      if negb (cwBI =? cwBIExpected)
      then if negb (cwBI .& 0x00008000 =? 0) then Next s (UW_add 0xFFFFFFFF AfterLeave) else Next s LW
      else if negb (cwAI .& 0x00007FFF =? 0) then Next s LW_rel else Next s Idle
  | LW_rel => Next (set_semWriter (sem_release 1 (m_semWriter s)) s) Idle
  | _ => Blocked
  end.

Definition EnterAsReader (s : CReaderWriterLockState) (p : pc) : result :=
  match p with
  | ER =>
      let cwBIExpected := m_cw s in
      OSSYNCAssert (_FValidStateTransition cwBIExpected (EnterAsReader_cwAI cwBIExpected) trEnterAsReader)
        (Next s (ER_cas cwBIExpected))
  | ER_cas cwBIExpected =>
      let cwBI := m_cw s in
      let s := cmpxchg_cw cwBIExpected (EnterAsReader_cwAI cwBIExpected) s in
      if negb ((cwBI ^^ cwBIExpected) .| (cwBI .& 0x80000000) =? 0)
      then if negb (cwBI =? cwBIExpected) then Next s ER else Next s (_EnterAsReader cwBI)
      else Next s OwnR
  | WaitR => sem_acquire (m_semReader s) (fun c => Next (set_semReader c s) OwnR)
  | _ => Blocked
  end.

Definition FTryEnterAsReader (s : CReaderWriterLockState) (p : pc) : result :=
  match p with
  | TR =>
      let cwBIExpected := m_cw s .& 0x7FFFFFFF in
      OSSYNCAssert ((_StateFromControlWord cwBIExpected <? 0) ||
                    _FValidStateTransition cwBIExpected (EnterAsReader_cwAI cwBIExpected) trEnterAsReader)
        (Next s (TR_cas cwBIExpected))
  | TR_cas cwBIExpected =>
      let cwBI := m_cw s in
      let s := cmpxchg_cw cwBIExpected (EnterAsReader_cwAI cwBIExpected) s in
      if negb (cwBI =? cwBIExpected)
      then if negb (cwBI .& 0x80000000 =? 0) then Next s Idle else Next s TR
      else Next s OwnR
  | _ => Blocked
  end.

Definition LeaveAsReader (s : CReaderWriterLockState) (p : pc) : result :=
  match p with
  | LR =>
      let cwBIExpected := m_cw s .& 0x7FFFFFFF in
      OSSYNCAssert ((_StateFromControlWord cwBIExpected <? 0) ||
                    _FValidStateTransition cwBIExpected (LeaveAsReader_cwAI cwBIExpected) trLeaveAsReader)
        (Next s (LR_cas cwBIExpected))
  | LR_cas cwBIExpected =>
      let cwBI := m_cw s in
      let s := cmpxchg_cw cwBIExpected (LeaveAsReader_cwAI cwBIExpected) s in
      if negb (cwBI =? cwBIExpected)
      then if negb (cwBI .& 0x80000000 =? 0) then Next s (UR_add 0xFFFFFFFF AfterLeave) else Next s LR
      else Next s Idle
  | _ => Blocked
  end.

(** ** Threads *)

(** The calls of the class's interface. *)
Inductive op :=
  | OpEnterAsWriter | OpFTryEnterAsWriter | OpLeaveAsWriter
  | OpEnterAsReader | OpFTryEnterAsReader | OpLeaveAsReader.

(** The next step of a thread: a call, which a thread makes only as the locking
    discipline allows, or the next atomic access of the call it is in. *)
Definition tstep (o : op) (s : CReaderWriterLockState) (p : pc) : result :=
  match p with
  | Idle =>
      match o with
      | OpEnterAsWriter => Next s EW
      | OpFTryEnterAsWriter => Next s TW
      | OpEnterAsReader => Next s ER
      | OpFTryEnterAsReader => Next s TR
      | _ => Blocked
      end
  | OwnW =>
      match o with
      | OpLeaveAsWriter => Next s LW
      | OpFTryEnterAsWriter => Next s OwnW_try
      | _ => Blocked
      end
  | OwnR => match o with OpLeaveAsReader => Next s LR | _ => Blocked end
  | EW | EW_cas _ | WaitW => EnterAsWriter s p
  | TW | TW_read | TW_cas _ | OwnW_try => FTryEnterAsWriter s p
  | LW | LW_cas _ | LW_rel => LeaveAsWriter s p
  | ER | ER_cas _ | WaitR => EnterAsReader s p
  | TR | TR_cas _ => FTryEnterAsReader s p
  | LR | LR_cas _ => LeaveAsReader s p
  | UW_add _ _ | UW _ | UW_cas _ _ | UW_add2 _ _ _ | UW_rel _ _ => _UpdateQuiescedOwnerCountAsWriter s p
  | UR_add _ _ | UR _ | UR_cas _ _ | UR_add2 _ | UR_rel _ => _UpdateQuiescedOwnerCountAsReader s p
  end.

Abbreviation RWStep := (step tstep).

(** [n] threads outside a lock that was just constructed. *)
Definition rw_init (n : nat) : conf CReaderWriterLockState pc :=
  Conf CReaderWriterLockState_ctor (replicate n Idle).
