(* ===== verification/RWLockProofs.v ===== *)
(** * RWLockProofs: the invariant of the reader-writer lock

    The control word of a [CReaderWriterLock] is always in one of five phases, in
    each of which the counters have a meaning in terms of the threads: who owns the
    lock, who was given it but has not woken up, who waits, and whose update of
    [m_cOwner] is still to come. *)

From S2P Require Import Prelude Threads ControlWord RWLock.

(** ** The control words of the reader-writer lock

    What the bit arithmetic of [CReaderWriterLock] does to the fields of a control
    word, and which transitions its assertions accept. *)

Local Ltac word k := apply (u32_eq k); [apply cword_range; unfold field in *; lia|unfold cword; cbn [Z.b2z]; lia].

Lemma EnterAsWriter_word w q r Q : field w -> field r -> w + 1 < 2 ^ 15 ->
  EnterAsWriter_cwAI (cword w q r Q) = cword (w + 1) q (if Q then r else 0) true.
Proof.
  intros Hw Hr Hw1. unfold EnterAsWriter_cwAI. autorewrite with cword.
  destruct Q; [change (-1 .| 65535) with (-1); rewrite Z.land_m1_r | change (0 .| 65535) with 65535];
    autorewrite with cword; word 0.
Qed.

Lemma LeaveAsWriter_word w r : field w -> field r -> 0 < w ->
  LeaveAsWriter_cwAI (cword w false r true) = cword (w - 1) false r (negb (w =? 1)).
Proof.
  intros Hw Hr H0. unfold LeaveAsWriter_cwAI.
  assert (E1 : u32 (cword w false r true + 4294967295) = cword (w - 1) false r true) by word 1.
  rewrite E1. clear E1. destruct (Z.eqb_spec w 1) as [->|H1]; cbn [negb].
  - change (1 - 1) with 0.
    assert (E2 : u32 (cword 0 false r true + 4294967295) =
      if r =? 0 then cword 0x7FFF true 0x7FFF false else cword 0x7FFF true (r - 1) true).
    { destruct (Z.eqb_spec r 0) as [->|]; word 1. }
    rewrite E2. clear E2.
    destruct (r =? 0) eqn:Er; rewrite shl16_word, land_80000000 by (unfold field in *; bool_to_prop; lia); word 0.
  - assert (E2 : u32 (cword (w - 1) false r true + 4294967295) = cword (w - 2) false r true) by word 1.
    rewrite E2, shl16_word, land_80000000 by (unfold field in *; lia). word 0.
Qed.

(** From a word that lets a reader in, or has the readers quiesced already. *)
Lemma EnterAsReader_word w q r Q : field w -> field r -> r + 1 < 2 ^ 15 ->
  (q = false -> Q = true -> 0 < w) ->
  EnterAsReader_cwAI (cword w q r Q) = cword (if negb q && Q then w - 1 else w) true (r + 1) Q.
Proof.
  intros Hw Hr H1 H0. unfold EnterAsReader_cwAI. autorewrite with cword.
  replace (cword 0 q 0 Q =? 2147483648) with (negb q && Q) by (now destruct q, Q).
  destruct q, Q; cbn [negb andb]; try (specialize (H0 eq_refl eq_refl)); word 0.
Qed.

Lemma LeaveAsReader_word w r : field w -> field r -> 0 < r ->
  LeaveAsReader_cwAI (cword w true r false) = cword w (negb (r =? 1)) (r - 1) false.
Proof.
  intros Hw Hr H0. unfold LeaveAsReader_cwAI.
  assert (E1 : u32 (cword w true r false + 4294901760) = cword w true (r - 1) false) by word 1.
  rewrite E1. clear E1. destruct (Z.eqb_spec r 1) as [->|H1]; cbn [negb].
  - assert (E2 : u32 (cword w true 1 false + 4294836224) = cword w true 0x7FFF true) by word 0.
    rewrite E2. autorewrite with cword. change (-1 .& 4294934528) with 4294934528. word 1.
  - assert (E2 : u32 (cword w true r false + 4294836224) = cword w true (r - 2) false) by word 1.
    rewrite E2. autorewrite with cword. change (0 .& 4294934528) with 0. word 0.
Qed.

Lemma UpdateAsWriter_word w r : field w -> field r ->
  UpdateAsWriter_cwAI (cword w true r true) =
  if w =? 0 then cword 0 true r false else cword w true 0 true.
Proof.
  intros Hw Hr. unfold UpdateAsWriter_cwAI. destruct (Z.eqb_spec w 0) as [->|H0].
  - assert (E1 : u32 (cword 0 true r true + 4294934527) =
      if r =? 0 then cword 0x7FFF true 0x7FFF false else cword 0x7FFF true (r - 1) true).
    { destruct (Z.eqb_spec r 0) as [->|]; word 1. }
    rewrite E1. destruct (r =? 0) eqn:Er;
      rewrite shl16_word, sign_mask_cword by (unfold field in *; bool_to_prop; lia);
      change (-1 .& 4294901760 ^^ 2147549183) with 0x7FFFFFFF; autorewrite with cword; word 0.
  - assert (E1 : u32 (cword w true r true + 4294934527) = cword (w - 1) false r true) by word 1.
    rewrite E1, shl16_word, sign_mask_cword by (unfold field in *; lia).
    change (0 .& 4294901760 ^^ 2147549183) with 0x8000FFFF. autorewrite with cword. word 0.
Qed.

Lemma UpdateAsReader_word w r : field w -> field r -> 0 < w ->
  UpdateAsReader_cwAI (cword w true r true) =
  if r =? 0 then cword w false 0 true else cword (w - 1) true r true.
Proof.
  intros Hw Hr H0. unfold UpdateAsReader_cwAI. autorewrite with cword. cbn [negb andb].
  change (0 =? 0) with true. cbn [negb andb]. rewrite andb_true_r.
  destruct (Z.eqb_spec r 0) as [->|Hr0]; word 1.
Qed.

(** ** Valid states and transitions *)

Lemma state_word w q r Q : field w -> field r ->
  _StateFromControlWord (cword w q r Q) = state_of (w =? 0) q (r =? 0) Q.
Proof.
  intros Hw Hr. unfold _StateFromControlWord. autorewrite with cword.
  rewrite ?cword_eq0 by (unfold field in *; lia). change (0 =? 0) with true. cbn [negb andb].
  rewrite ?andb_true_r. destruct (w =? 0), q, (r =? 0), Q; reflexivity.
Qed.

Lemma valid_word w q r Q w' q' r' Q' tr : field w -> field r -> field w' -> field r' ->
  -1 <= w' - w <= 1 -> -1 <= r' - r <= 1 \/ r' = 0 ->
  _FValidStateTransition (cword w q r Q) (cword w' q' r' Q') tr =
  let st := state_of (w =? 0) q (r =? 0) Q in
  let st' := state_of (w' =? 0) q' (r' =? 0) Q' in
  if (st <? 0) || (st' <? 0) then false
  else match rd mpstatestatetrmaskRW st ≫= fun row => rd row st' with
       | Some mask => negb (mask .& tr_bit tr =? 0)
       | None => false
       end.
Proof.
  intros Hw Hr Hw' Hr' Dw Dr. unfold _FValidStateTransition. rewrite !state_word by easy.
  cbv zeta. destruct (_ || _); [easy|]. autorewrite with cword.
  rewrite ?cword_eq0 by (unfold field in *; lia). change (0 =? 0) with true. cbn [negb andb].
  rewrite !andb_true_r.
  unfold field in *. rewrite !s32_u32 by (unfold cword; cbn [Z.b2z]; lia).
  replace (cword w' false 0 false - cword w false 0 false) with (w' - w) by (unfold cword; cbn [Z.b2z]; lia).
  replace ((w' - w <? -1) || (1 <? w' - w)) with false by lia.
  replace (((r' - r <? -1) || (1 <? r' - r)) && negb (r' =? 0)) with false by lia. easy.
Qed.

(** ** What a thread contributes *)

(** It owns the lock for writing and has not left. *)
Definition aw (p : pc) : Z :=
  match p with OwnW | OwnW_try | LW | LW_cas _ => 1 | _ => 0 end.

(** It is about to release the writers' semaphore. *)
Definition gW (p : pc) : Z :=
  match p with LW_rel | UR_add2 _ | UR_rel _ => 1 | _ => 0 end.

(** It waits to write, or will wait after the update it is in. *)
Definition wW (p : pc) : Z :=
  match p with
  | WaitW | UR_add _ AfterEnter | UR AfterEnter | UR_cas _ AfterEnter
  | UR_add2 AfterEnter | UR_rel AfterEnter => 1
  | _ => 0
  end.

Definition ar (p : pc) : Z :=
  match p with OwnR | LR | LR_cas _ => 1 | _ => 0 end.

Definition gR (p : pc) : Z :=
  match p with UW_add2 _ n _ | UW_rel n _ => Z.max 0 n | _ => 0 end.

Definition wR (p : pc) : Z :=
  match p with
  | WaitR | UW_add _ AfterEnter | UW AfterEnter | UW_cas _ AfterEnter
  | UW_add2 _ _ AfterEnter | UW_rel _ AfterEnter => 1
  | _ => 0
  end.

(** Its pending addition to, or subtraction from, the count of owners, when the
    owners are a writer ([nW], [sW]) or readers ([nR] threads, of amount [pR]; [sR]). *)
Definition nW (p : pc) : Z := match p with UW_add _ AfterEnter | UR_add2 _ => 1 | _ => 0 end.

Definition sW (p : pc) : Z := match p with UW_add _ AfterLeave => 1 | _ => 0 end.

Definition nR (p : pc) : Z := match p with UR_add _ AfterEnter | UW_add2 _ _ _ => 1 | _ => 0 end.

Definition pR (p : pc) : Z :=
  match p with UR_add d AfterEnter | UW_add2 d _ _ => Z.max 0 d | _ => 0 end.

Definition sR (p : pc) : Z := match p with UR_add _ AfterLeave => 1 | _ => 0 end.

(** It found the count at zero and is to hand the lock over. *)
Definition tW (p : pc) : Z := match p with UW _ | UW_cas _ _ => 1 | _ => 0 end.

Definition tR (p : pc) : Z := match p with UR _ | UR_cas _ _ => 1 | _ => 0 end.

(** The arguments a thread carries. *)
Definition pc_ok (p : pc) : Prop :=
  match p with
  | TW_cas cw => cw .& 0x0000FFFF = 0
  | LW_cas cw => cw .& 0x00008000 = 0
  | TR_cas cw | LR_cas cw => cw .& 0x80000000 = 0
  | UW_add d AfterEnter => d = 1
  | UW_add d AfterLeave | UR_add d AfterLeave => d = 0xFFFFFFFF
  | UR_add d AfterEnter => 0 < d < 2 ^ 15
  | UW_add2 d n _ => d = n /\ 0 < n < 2 ^ 15
  | UW_rel n _ => 0 < n < 2 ^ 15
  | _ => True
  end.

(** ** Phases

    [AW] and [AR] are the writers and readers that own the lock or were given it,
    [uW] and [uR] those that wait and were not.  [co] is the signed value of
    [m_cOwner]. *)

Inductive phase (w : Z) (q : bool) (r : Z) (Q : bool) (co AW uW AR uR nW sW tW nR pR sR tR : Z) : Prop :=
  | ph_free :
      w = 0 -> q = false -> r = 0 -> Q = false -> co = 0 ->
      AW = 0 -> uW = 0 -> AR = 0 -> uR = 0 ->
      nW = 0 -> sW = 0 -> tW = 0 -> nR = 0 -> pR = 0 -> sR = 0 -> tR = 0 ->
      phase w q r Q co AW uW AR uR nW sW tW nR pR sR tR
  | ph_reading :
      w = 0 -> q = true -> 0 < r -> Q = false -> co = 0 ->
      AW = 0 -> uW = 0 -> AR = r -> uR = 0 ->
      nW = 0 -> sW = 0 -> tW = 0 -> nR = 0 -> pR = 0 -> sR = 0 -> tR = 0 ->
      phase w q r Q co AW uW AR uR nW sW tW nR pR sR tR
  | ph_writing :
      0 < w -> q = false -> r = 0 -> Q = true -> co = 0 ->
      AW = 1 -> uW = w - 1 -> AR = 0 -> uR = 0 ->
      nW = 0 -> sW = 0 -> tW = 0 -> nR = 0 -> pR = 0 -> sR = 0 -> tR = 0 ->
      phase w q r Q co AW uW AR uR nW sW tW nR pR sR tR
  | ph_readers_leave :
      0 < w -> q = true -> 0 <= r -> Q = true ->
      AW = 0 -> uW = w -> uR = r -> nW = 0 -> sW = 0 -> tW = 0 -> pR < 2 ^ 15 ->
      (tR = 1 /\ AR = 0 /\ co = 0 /\ nR = 0 /\ pR = 0 /\ sR = 0 \/
       tR = 0 /\ co + pR = AR + sR /\ (nR = 0 /\ 0 < co \/ nR = 1 /\ co <= 0)) ->
      phase w q r Q co AW uW AR uR nW sW tW nR pR sR tR
  | ph_writer_leaves :
      0 <= w -> q = true -> 0 < r -> Q = true ->
      AR = 0 -> uW = w -> uR = r -> nR = 0 -> pR = 0 -> sR = 0 -> tR = 0 -> AW + sW <= 1 ->
      (tW = 1 /\ AW = 0 /\ co = 0 /\ nW = 0 /\ sW = 0 \/
       tW = 0 /\ co + nW = AW + sW /\ (nW = 0 /\ 0 < co \/ nW = 1 /\ co <= 0)) ->
      phase w q r Q co AW uW AR uR nW sW tW nR pR sR tR.

Definition rw_phase (s : CReaderWriterLockState) (ts : list pc) (w : Z) (q : bool) (r : Z) (Q : bool) (co : Z) : Prop :=
  phase w q r Q co
    (total aw ts + total gW ts + m_semWriter s) (total wW ts - total gW ts - m_semWriter s)
    (total ar ts + total gR ts + m_semReader s) (total wR ts - total gR ts - m_semReader s)
    (total nW ts) (total sW ts) (total tW ts) (total nR ts) (total pR ts) (total sR ts) (total tR ts).

Definition rw_inv (c : conf CReaderWriterLockState pc) : Prop :=
  let s := shared c in
  let ts := pcs c in
  Forall pc_ok ts /\ Z.of_nat (length ts) < 2 ^ 15 /\ 0 <= m_semWriter s /\ 0 <= m_semReader s /\
  exists w q r Q co, m_cw s = cword w q r Q /\ m_cOwner s = u32 co /\ rw_phase s ts w q r Q co.

(** ** Facts about the sums *)

Ltac cases_pc p := destruct p; repeat match goal with k : after |- _ => destruct k end.

Lemma rw_weights_nonneg p :
  0 <= aw p /\ 0 <= gW p /\ 0 <= wW p /\ 0 <= ar p /\ 0 <= gR p /\ 0 <= wR p /\ 0 <= nW p /\
  0 <= sW p /\ 0 <= nR p /\ 0 <= pR p /\ 0 <= sR p /\ 0 <= tW p /\ 0 <= tR p.
Proof. cases_pc p; cbn; lia. Qed.

(** Every sum is at least the contribution of any one thread. *)
Lemma rw_sums_ge ts (i : nat) p : ts !! i = Some p ->
  aw p <= total aw ts /\ gW p <= total gW ts /\ wW p <= total wW ts /\ ar p <= total ar ts /\
  gR p <= total gR ts /\ wR p <= total wR ts /\ nW p <= total nW ts /\ sW p <= total sW ts /\
  nR p <= total nR ts /\ pR p <= total pR ts /\ sR p <= total sR ts /\ tW p <= total tW ts /\
  tR p <= total tR ts.
Proof. intros H. split_and!; eapply total_ge; try exact H; apply rw_weights_nonneg. Qed.

Lemma rw_sums_nonneg ts :
  0 <= total aw ts /\ 0 <= total gW ts /\ 0 <= total wW ts /\ 0 <= total ar ts /\
  0 <= total gR ts /\ 0 <= total wR ts /\ 0 <= total nW ts /\ 0 <= total sW ts /\
  0 <= total nR ts /\ 0 <= total pR ts /\ 0 <= total sR ts /\ 0 <= total tW ts /\ 0 <= total tR ts.
Proof. split_and!; apply total_nonneg, rw_weights_nonneg. Qed.

(** A thread is in at most one of these roles, so the sums are bounded by the
    number of threads, strictly if one thread is in none of them. *)
Definition roleW (p : pc) : Z := aw p + wW p + sW p.
Definition roleR (p : pc) : Z := ar p + wR p + sR p.

Lemma rw_role_le p : roleW p <= 1 /\ roleR p <= 1.
Proof. unfold roleW, roleR. cases_pc p; cbn; lia. Qed.

Lemma rw_roles_le ts :
  total aw ts + total wW ts + total sW ts <= Z.of_nat (length ts) /\
  total ar ts + total wR ts + total sR ts <= Z.of_nat (length ts).
Proof.
  rewrite <- !total_add, <- total_1. split; apply total_le; apply rw_role_le.
Qed.

Lemma rw_roles_lt ts (i : nat) p : ts !! i = Some p ->
  (roleW p = 0 -> total aw ts + total wW ts + total sW ts < Z.of_nat (length ts)) /\
  (roleR p = 0 -> total ar ts + total wR ts + total sR ts < Z.of_nat (length ts)).
Proof.
  intros H. rewrite <- !total_add.
  split; intros E; (eapply total_lt_length; [apply rw_role_le|exact H|]); unfold roleW, roleR in E; lia.
Qed.

Lemma pR_of_nR ts : total nR ts = 0 -> total pR ts = 0.
Proof.
  intros H. apply total_0. intros p Hp. apply list_elem_of_lookup in Hp as [i Hi].
  destruct (rw_sums_ge ts i p Hi) as (_ & _ & _ & _ & _ & _ & _ & _ & Hn & _).
  rewrite H in Hn. pose proof (rw_weights_nonneg p).
  cases_pc p; cbn in *; lia.
Qed.

(** ** Preservation *)

Lemma rw_inv_intro s ts s' (i : nat) p p' w q r Q co :
  rw_inv (Conf s ts) -> ts !! i = Some p -> pc_ok p' ->
  0 <= m_semWriter s' -> 0 <= m_semReader s' ->
  m_cw s' = cword w q r Q -> m_cOwner s' = u32 co ->
  phase w q r Q co
    (total aw ts - aw p + aw p' + (total gW ts - gW p + gW p') + m_semWriter s')
    (total wW ts - wW p + wW p' - (total gW ts - gW p + gW p') - m_semWriter s')
    (total ar ts - ar p + ar p' + (total gR ts - gR p + gR p') + m_semReader s')
    (total wR ts - wR p + wR p' - (total gR ts - gR p + gR p') - m_semReader s')
    (total nW ts - nW p + nW p') (total sW ts - sW p + sW p') (total tW ts - tW p + tW p')
    (total nR ts - nR p + nR p') (total pR ts - pR p + pR p') (total sR ts - sR p + sR p')
    (total tR ts - tR p + tR p') ->
  rw_inv (Conf s' (<[i := p']> ts)).
Proof.
  intros (Hok & Hlen & _) Hi Hp' H1 H2 Hcw Hco Hph. unfold rw_inv, rw_phase. cbn [shared pcs].
  rewrite length_insert. split_and!; try easy; [by apply Forall_insert|].
  exists w, q, r, Q, co. split_and!; try easy. by rewrite !(total_insert _ _ _ _ _ Hi).
Qed.

(** The facts every step needs: the ranges of the fields and the sums, with the
    thread's own contribution. *)
Lemma rw_facts s ts (i : nat) p : rw_inv (Conf s ts) -> ts !! i = Some p ->
  exists w q r Q co, m_cw s = cword w q r Q /\ m_cOwner s = u32 co /\ rw_phase s ts w q r Q co /\
  field w /\ field r /\ - 2 ^ 16 < co < 2 ^ 16 /\ 0 <= m_semWriter s /\ 0 <= m_semReader s /\ pc_ok p /\
  (roleW p = 0 -> w + 1 < 2 ^ 15) /\ (roleR p = 0 -> r + 1 < 2 ^ 15).
Proof.
  intros (Hok & Hlen & H1 & H2 & w & q & r & Q & co & Hcw & Hco & Hph) Hi. cbn [shared pcs] in *.
  exists w, q, r, Q, co. pose proof (rw_sums_nonneg ts). pose proof (rw_roles_le ts) as [Hl1 Hl2].
  destruct (rw_roles_lt ts i p Hi) as [Hl3 Hl4].
  assert (Hpc : pc_ok p) by by eapply Forall_lookup_1.
  unfold field. split_and!; try done; unfold rw_phase in Hph; destruct Hph; lia.
Qed.

Ltac rw_facts H Hi :=
  destruct (rw_facts _ _ _ _ H Hi) as
    (w & q & r & Q & co & Hcw & Hco & Hph & Hw & Hr & Hcor & HsW & HsR & Hpok & Hw1 & Hr1);
  pose proof (rw_sums_ge _ _ _ Hi) as Hge;
  match type of Hi with ?ts !! _ = _ => pose proof (rw_sums_nonneg ts) as Hnn end;
  unfold rw_phase in Hph.

Ltac phases :=
  cbn [aw gW wW ar gR wR nW sW nR pR sR tW tR roleW roleR] in *;
  first [ apply ph_free; first [assumption | reflexivity | lia]
        | apply ph_reading; first [assumption | reflexivity | lia]
        | apply ph_writing; first [assumption | reflexivity | lia]
        | apply ph_readers_leave; first [assumption | reflexivity | lia]
        | apply ph_writer_leaves; first [assumption | reflexivity | lia] ].

(** Evaluate the tests on words without counters. *)
Ltac flags E :=
  repeat match type of E with
  | context [cword 0 ?b 0 ?c =? ?k] =>
      let v := eval vm_compute in (cword 0 b 0 c =? k) in change (cword 0 b 0 c =? k) with v in E
  end; cbn [andb negb] in E; change (0 =? 0) with true in E; cbn [andb negb] in E.

(** The step leads to the fields and owner count given. *)
Ltac go E HI Hi w q r Q co :=
  flags E; unfold field, sem_release in *; injection E as <- <-;
  apply (rw_inv_intro _ _ _ _ _ _ w q r Q co HI Hi);
  [ cbn [pc_ok return_writer return_reader]; first [exact I | lia | rewrite <- Z.land_assoc; apply Z.land_0_r]
  | cbn [m_semWriter set_cw set_cOwner set_semWriter set_semReader]; lia
  | cbn [m_semReader set_cw set_cOwner set_semWriter set_semReader]; lia
  | first [exact eq_refl | assumption]
  | first [exact eq_refl | assumption]
  | cbn [m_semWriter m_semReader set_cw set_cOwner set_semWriter set_semReader]; phases ].

Lemma EnterAsWriter_inv s ts (i : nat) p s' p' :
  rw_inv (Conf s ts) -> ts !! i = Some p -> EnterAsWriter s p = Next s' p' ->
  rw_inv (Conf s' (<[i := p']> ts)).
Proof.
  intros HI Hi E. rw_facts HI Hi. unfold EnterAsWriter in E.
  destruct p; try discriminate E.
  - (* the read *)
    unfold OSSYNCAssert in E. destruct (_FValidStateTransition _ _ _); [|done].
    destruct Hph; go E HI Hi w q r Q co.
  - (* the exchange *)
    rewrite lxor_lor_0 in E. unfold cmpxchg_cw in E. rewrite Hcw in E.
    destruct (Z.eqb_spec (cword w q r Q) cwBIExpected) as [<-|_]; cbn [andb negb] in E.
    + rewrite EnterAsWriter_word in E by (try easy; apply Hw1; reflexivity).
      unfold _EnterAsWriter in E. autorewrite with cword in E. specialize (Hw1 eq_refl).
      destruct Hph; subst q Q; flags E.
      * subst w. go E HI Hi 1 false 0 true co.
      * subst w. go E HI Hi 1 true 0 true co.
      * replace (w =? 0) with false in E by lia. go E HI Hi (w + 1) false r true co.
      * rewrite andb_false_r in E. go E HI Hi (w + 1) true r true co.
      * rewrite andb_false_r in E. go E HI Hi (w + 1) true r true co.
    + destruct Hph; go E HI Hi w q r Q co.
  - (* the semaphore *)
    unfold sem_acquire in E. destruct (Z.ltb_spec 0 (m_semWriter s)); [|done].
    destruct Hph; go E HI Hi w q r Q co.
Qed.

Lemma FTryEnterAsWriter_inv s ts (i : nat) p s' p' :
  rw_inv (Conf s ts) -> ts !! i = Some p -> FTryEnterAsWriter s p = Next s' p' ->
  rw_inv (Conf s' (<[i := p']> ts)).
Proof.
  intros HI Hi E. rw_facts HI Hi. unfold FTryEnterAsWriter in E.
  destruct p; try discriminate E.
  - destruct (negb _); destruct Hph; go E HI Hi w q r Q co.
  - unfold OSSYNCAssert in E. destruct (_ || _); [|done]. destruct Hph; go E HI Hi w q r Q co.
  - unfold cmpxchg_cw in E. rewrite Hcw in E.
    destruct (Z.eqb_spec (cword w q r Q) cwBIExpected) as [<-|_]; cbn [andb negb] in E.
    + rewrite EnterAsWriter_word in E by (try easy; apply Hw1; reflexivity).
      cbn [pc_ok] in Hpok. apply Z.eqb_eq in Hpok. autorewrite with cword in Hpok. bool_to_prop.
      destruct Hph; subst q Q; try done; try lia. subst w. go E HI Hi 1 false 0 true co.
    + destruct (negb _); destruct Hph; go E HI Hi w q r Q co.
  - destruct (negb _); [|done]. destruct Hph; go E HI Hi w q r Q co.
Qed.

Lemma LeaveAsWriter_inv s ts (i : nat) p s' p' :
  rw_inv (Conf s ts) -> ts !! i = Some p -> LeaveAsWriter s p = Next s' p' ->
  rw_inv (Conf s' (<[i := p']> ts)).
Proof.
  intros HI Hi E. rw_facts HI Hi. unfold LeaveAsWriter in E.
  destruct p; try discriminate E.
  - unfold OSSYNCAssert in E. destruct (_ || _); [|done]. destruct Hph; go E HI Hi w q r Q co.
  - cbn [aw] in Hge. unfold cmpxchg_cw in E. rewrite Hcw in E.
    destruct (Z.eqb_spec (cword w q r Q) cwBIExpected) as [<-|_]; cbn [negb] in E.
    + cbn [pc_ok] in Hpok. apply Z.eqb_eq in Hpok. autorewrite with cword in Hpok. bool_to_prop.
      destruct Hph; subst q Q; try done; try lia.
      rewrite LeaveAsWriter_word in E by easy. autorewrite with cword in E.
      destruct (Z.eqb_spec w 1) as [->|Hw'].
      * go E HI Hi 0 false r false co.
      * replace (w - 1 =? 0) with false in E by lia. go E HI Hi (w - 1) false r true co.
    + autorewrite with cword in E. destruct Hph; subst q; try lia; go E HI Hi w false r Q co || go E HI Hi w true r Q co.
  - destruct Hph; go E HI Hi w q r Q co.
Qed.

Lemma EnterAsReader_inv s ts (i : nat) p s' p' :
  rw_inv (Conf s ts) -> ts !! i = Some p -> EnterAsReader s p = Next s' p' ->
  rw_inv (Conf s' (<[i := p']> ts)).
Proof.
  intros HI Hi E. rw_facts HI Hi. unfold EnterAsReader in E.
  destruct p; try discriminate E.
  - unfold OSSYNCAssert in E. destruct (_FValidStateTransition _ _ _); [|done].
    destruct Hph; go E HI Hi w q r Q co.
  - rewrite lxor_lor_0 in E. unfold cmpxchg_cw in E. rewrite Hcw in E. specialize (Hr1 eq_refl).
    destruct (Z.eqb_spec (cword w q r Q) cwBIExpected) as [<-|_]; cbn [andb negb] in E.
    + rewrite EnterAsReader_word in E by (try easy; destruct Hph; subst; easy).
      unfold _EnterAsReader in E. autorewrite with cword in E.
      destruct Hph; subst q Q; flags E.
      * go E HI Hi w true (r + 1) false co.
      * go E HI Hi w true (r + 1) false co.
      * go E HI Hi (w - 1) true (r + 1) true co.
      * go E HI Hi w true (r + 1) true co.
      * go E HI Hi w true (r + 1) true co.
    + destruct Hph; go E HI Hi w q r Q co.
  - unfold sem_acquire in E. destruct (Z.ltb_spec 0 (m_semReader s)); [|done].
    destruct Hph; go E HI Hi w q r Q co.
Qed.

Lemma FTryEnterAsReader_inv s ts (i : nat) p s' p' :
  rw_inv (Conf s ts) -> ts !! i = Some p -> FTryEnterAsReader s p = Next s' p' ->
  rw_inv (Conf s' (<[i := p']> ts)).
Proof.
  intros HI Hi E. rw_facts HI Hi. unfold FTryEnterAsReader in E.
  destruct p; try discriminate E.
  - unfold OSSYNCAssert in E. destruct (_ || _); [|done]. destruct Hph; go E HI Hi w q r Q co.
  - unfold cmpxchg_cw in E. rewrite Hcw in E. specialize (Hr1 eq_refl).
    destruct (Z.eqb_spec (cword w q r Q) cwBIExpected) as [<-|_]; cbn [negb] in E.
    + cbn [pc_ok] in Hpok. apply Z.eqb_eq in Hpok. autorewrite with cword in Hpok. bool_to_prop.
      rewrite EnterAsReader_word in E by (try easy; destruct Hph; subst; easy).
      destruct Hph; subst q Q; try done; go E HI Hi w true (r + 1) false co.
    + destruct (negb _); destruct Hph; go E HI Hi w q r Q co.
Qed.

Lemma LeaveAsReader_inv s ts (i : nat) p s' p' :
  rw_inv (Conf s ts) -> ts !! i = Some p -> LeaveAsReader s p = Next s' p' ->
  rw_inv (Conf s' (<[i := p']> ts)).
Proof.
  intros HI Hi E. rw_facts HI Hi. unfold LeaveAsReader in E.
  destruct p; try discriminate E.
  - unfold OSSYNCAssert in E. destruct (_ || _); [|done]. destruct Hph; go E HI Hi w q r Q co.
  - cbn [ar] in Hge. unfold cmpxchg_cw in E. rewrite Hcw in E.
    destruct (Z.eqb_spec (cword w q r Q) cwBIExpected) as [<-|_]; cbn [negb] in E.
    + cbn [pc_ok] in Hpok. apply Z.eqb_eq in Hpok. autorewrite with cword in Hpok. bool_to_prop.
      destruct Hph; subst q Q; try done; try lia.
      rewrite LeaveAsReader_word in E by easy.
      destruct (Z.eqb_spec r 1) as [Hr'|Hr'].
      * replace (r - 1) with 0 in E by lia. go E HI Hi w false 0 false co.
      * go E HI Hi w true (r - 1) false co.
    + autorewrite with cword in E. destruct Hph; subst Q; try lia; go E HI Hi w q r false co || go E HI Hi w q r true co.
Qed.

Lemma UpdateAsWriter_inv s ts (i : nat) p s' p' :
  rw_inv (Conf s ts) -> ts !! i = Some p -> _UpdateQuiescedOwnerCountAsWriter s p = Next s' p' ->
  rw_inv (Conf s' (<[i := p']> ts)).
Proof.
  intros HI Hi E. rw_facts HI Hi. unfold _UpdateQuiescedOwnerCountAsWriter in E.
  destruct p as [| | | | | | | | | | | | | | | | | | | |d k|k|cw k|d n k|n k| | | | |]; try discriminate E;
    cbn [pc_ok] in Hpok.
  - (* the addition *)
    rewrite Hco in E. destruct k; subst d.
    + rewrite u32_add, u32_eq0 in E by lia.
      destruct (Z.eqb_spec (co + 1) 0); destruct Hph; cbn [nW wR] in *; try lia; go E HI Hi w q r Q (co + 1).
    + rewrite u32_dec, u32_eq0 in E by lia.
      destruct (Z.eqb_spec (co - 1) 0); destruct Hph; cbn [sW] in *; try lia; go E HI Hi w q r Q (co - 1).
  - unfold OSSYNCAssert in E. destruct (_FValidStateTransition _ _ _); [|done].
    destruct k, Hph; go E HI Hi w q r Q co.
  - (* the exchange *)
    unfold cmpxchg_cw in E. rewrite Hcw in E. cbn [tW] in Hge.
    destruct (Z.eqb_spec (cword w q r Q) cw) as [<-|_]; cbn [negb] in E.
    + destruct Hph; try lia. subst q Q. rewrite UpdateAsWriter_word in E by easy.
      autorewrite with cword in E. cbn [negb] in E. rewrite !andb_true_r in E.
      destruct (Z.eqb_spec w 0) as [Hw0|Hw0]; cbn [andb negb] in E.
      * destruct k; go E HI Hi 0 true r false co.
      * destruct k; go E HI Hi w true 0 true co.
    + destruct k, Hph; go E HI Hi w q r Q co.
  - (* the second addition *)
    destruct Hpok as [-> Hn]. rewrite Hco, u32_add in E. cbn [gR nR pR] in Hge.
    assert (Hp : total nR ts - 1 = 0 -> total pR ts - n = 0).
    { intros H. pose proof (pR_of_nR (<[i := UW_rel n k]> ts)) as H'.
      rewrite !(total_insert _ _ _ _ _ Hi) in H'. cbn [nR pR] in H'. lia. }
    destruct k, Hph; try lia; go E HI Hi w q r Q (co + n).
  - (* the release *)
    cbn [gR] in Hge. destruct k, Hph; go E HI Hi w q r Q co.
Qed.

Lemma UpdateAsReader_inv s ts (i : nat) p s' p' :
  rw_inv (Conf s ts) -> ts !! i = Some p -> _UpdateQuiescedOwnerCountAsReader s p = Next s' p' ->
  rw_inv (Conf s' (<[i := p']> ts)).
Proof.
  intros HI Hi E. rw_facts HI Hi. unfold _UpdateQuiescedOwnerCountAsReader in E.
  destruct p as [| | | | | | | | | | | | | | | | | | | | | | | | |d k|k|cw k|k|k]; try discriminate E;
    cbn [pc_ok] in Hpok.
  - rewrite Hco in E. destruct k.
    + cbn [nR pR wW] in Hge.
      assert (Hp : total nR ts - 1 = 0 -> total pR ts - d = 0).
      { intros H. pose proof (pR_of_nR (<[i := WaitW]> ts)) as H'.
        rewrite !(total_insert _ _ _ _ _ Hi) in H'. cbn [nR pR] in H'. lia. }
      rewrite u32_add, u32_eq0 in E by lia.
      destruct (Z.eqb_spec (co + d) 0); destruct Hph; try lia; go E HI Hi w q r Q (co + d).
    + subst d. rewrite u32_dec, u32_eq0 in E by lia. pose proof (pR_of_nR ts).
      destruct (Z.eqb_spec (co - 1) 0); destruct Hph; cbn [sR] in *; try lia; go E HI Hi w q r Q (co - 1).
  - unfold OSSYNCAssert in E. destruct (_FValidStateTransition _ _ _); [|done].
    destruct k, Hph; go E HI Hi w q r Q co.
  - unfold cmpxchg_cw in E. rewrite Hcw in E. cbn [tR] in Hge.
    destruct (Z.eqb_spec (cword w q r Q) cw) as [<-|_]; cbn [negb] in E.
    + destruct Hph; try lia. subst q Q. rewrite UpdateAsReader_word in E by easy.
      autorewrite with cword in E. cbn [negb andb] in E. rewrite !andb_true_r in E.
      change (0 =? 0) with true in E. cbn [andb] in E.
      destruct (Z.eqb_spec r 0) as [Hr0|Hr0]; cbn [negb] in E.
      * destruct k; go E HI Hi w false 0 true co.
      * destruct k; go E HI Hi (w - 1) true r true co.
    + destruct k, Hph; go E HI Hi w q r Q co.
  - rewrite Hco, u32_add in E. destruct k, Hph; cbn [gW nW] in Hge; try lia; go E HI Hi w q r Q (co + 1).
  - destruct k, Hph; go E HI Hi w q r Q co.
Qed.
