(* ===== verification/RWLockTop.v ===== *)
(** * RWLockTop: what the reader-writer lock guarantees

    For any number of threads up to 2^15 - 1 and any interleaving: mutual
    exclusion, the assertions on control-word transitions, and that no waiting
    thread is forgotten. *)

From stdpp Require Import relations.
From S2P Require Import Prelude Threads ControlWord RWLock RWLockProofs.

(** ** The invariant of every reachable configuration *)

Lemma rw_init_inv n : Z.of_nat n < 2 ^ 15 -> rw_inv (rw_init n).
Proof.
  intros Hn. unfold rw_init, rw_inv, rw_phase. cbn [shared pcs]. rewrite length_replicate.
  split_and!; [by apply Forall_replicate| lia | cbn; lia | cbn; lia |].
  exists 0, false, 0, false, 0. split_and!; [done..|].
  assert (Ht : forall f : pc -> Z, f Idle = 0 -> total f (replicate n Idle) = 0).
  { intros f Hf. apply total_0. intros p Hp. apply elem_of_replicate in Hp as [-> _]. done. }
  rewrite !Ht by done. by apply ph_free.
Qed.

Lemma rw_step_inv c c' : rw_inv c -> RWStep c c' -> rw_inv c'.
Proof.
  intros HI Hst. revert HI. destruct Hst as [o s ts i p s' p' Hi E]. intros HI.
  destruct (decide (p = Idle \/ p = OwnW \/ p = OwnR)) as [Hp|Hp].
  - rw_facts HI Hi. destruct Hp as [->|[->| ->]], o; cbn [tstep] in E; try discriminate E;
      destruct Hph; go E HI Hi w q r Q co.
  - destruct p; try (exfalso; tauto); cbn [tstep] in E;
      eauto using EnterAsWriter_inv, FTryEnterAsWriter_inv, LeaveAsWriter_inv, EnterAsReader_inv,
        FTryEnterAsReader_inv, LeaveAsReader_inv, UpdateAsWriter_inv, UpdateAsReader_inv.
Qed.

Lemma rw_reachable n c : Z.of_nat n < 2 ^ 15 -> rtc RWStep (rw_init n) c -> rw_inv c.
Proof.
  intros Hn. apply invariant_reachable; [apply rw_step_inv|by apply rw_init_inv].
Qed.

(** ** Assertions *)

Ltac no_fault H := intros E; unfold OSSYNCAssert in E; rewrite H in E; discriminate E.

(** A transition between words with known fields, checked against the table. *)
Ltac valid :=
  rewrite valid_word by (unfold field in *; first [assumption | lia]);
  repeat match goal with
  | |- context [?x =? 0] => first [replace (x =? 0) with false by lia | replace (x =? 0) with true by lia | destruct (x =? 0)]
  end; reflexivity.

Lemma EnterAsWriter_valid s ts (i : nat) : rw_inv (Conf s ts) -> ts !! i = Some EW ->
  _FValidStateTransition (m_cw s) (EnterAsWriter_cwAI (m_cw s)) trEnterAsWriter = true.
Proof.
  intros HI Hi. rw_facts HI Hi. specialize (Hw1 eq_refl). rewrite Hcw, EnterAsWriter_word by easy.
  destruct Hph; subst q Q; cbn [state_of]; valid.
Qed.

Lemma FTryEnterAsWriter_valid s ts (i : nat) : rw_inv (Conf s ts) -> ts !! i = Some TW_read ->
  let cw := m_cw s .& 0xFFFF0000 in
  (_StateFromControlWord cw <? 0) || _FValidStateTransition cw (EnterAsWriter_cwAI cw) trEnterAsWriter = true.
Proof.
  intros HI Hi. rw_facts HI Hi. cbv zeta. rewrite Hcw, land_FFFF0000 by easy.
  rewrite state_word, EnterAsWriter_word by (unfold field in *; lia). cbn [andb].
  destruct Hph; subst q Q; change (0 =? 0) with true;
    [subst r; apply orb_true_iff; right; valid|replace (r =? 0) with false by lia; reflexivity|..];
    destruct (r =? 0); reflexivity.
Qed.

Lemma LeaveAsWriter_valid s ts (i : nat) : rw_inv (Conf s ts) -> ts !! i = Some LW ->
  let cw := m_cw s .& 0xFFFF7FFF in
  (_StateFromControlWord cw <? 0) || _FValidStateTransition cw (LeaveAsWriter_cwAI cw) trLeaveAsWriter = true.
Proof.
  intros HI Hi. rw_facts HI Hi. cbv zeta. rewrite Hcw, land_FFFF7FFF, state_word by easy.
  cbn [aw] in Hge. destruct Hph; subst q Q; try lia.
  - subst r. apply orb_true_iff. right. rewrite LeaveAsWriter_word by (unfold field in *; lia).
    destruct (Z.eqb_spec w 1); cbn [negb]; valid.
  - replace (r =? 0) with false by lia. destruct (w =? 0); reflexivity.
Qed.

Lemma EnterAsReader_valid s ts (i : nat) : rw_inv (Conf s ts) -> ts !! i = Some ER ->
  _FValidStateTransition (m_cw s) (EnterAsReader_cwAI (m_cw s)) trEnterAsReader = true.
Proof.
  intros HI Hi. rw_facts HI Hi. specialize (Hr1 eq_refl).
  rewrite Hcw, EnterAsReader_word by (try easy; destruct Hph; subst; easy).
  destruct Hph; subst q Q; cbn [andb negb]; valid.
Qed.

Lemma FTryEnterAsReader_valid s ts (i : nat) : rw_inv (Conf s ts) -> ts !! i = Some TR ->
  let cw := m_cw s .& 0x7FFFFFFF in
  (_StateFromControlWord cw <? 0) || _FValidStateTransition cw (EnterAsReader_cwAI cw) trEnterAsReader = true.
Proof.
  intros HI Hi. rw_facts HI Hi. specialize (Hr1 eq_refl). cbv zeta.
  rewrite Hcw, land_7FFFFFFF, state_word, EnterAsReader_word by easy.
  rewrite andb_false_r. destruct Hph; subst q Q.
  - apply orb_true_iff. right. valid.
  - apply orb_true_iff. right. valid.
  - replace (w =? 0) with false by lia. destruct (r =? 0); reflexivity.
  - replace (w =? 0) with false by lia. destruct (r =? 0); reflexivity.
  - replace (r =? 0) with false by lia. destruct (Z.eqb_spec w 0); [|reflexivity].
    apply orb_true_iff. right. valid.
Qed.

Lemma LeaveAsReader_valid s ts (i : nat) : rw_inv (Conf s ts) -> ts !! i = Some LR ->
  let cw := m_cw s .& 0x7FFFFFFF in
  (_StateFromControlWord cw <? 0) || _FValidStateTransition cw (LeaveAsReader_cwAI cw) trLeaveAsReader = true.
Proof.
  intros HI Hi. rw_facts HI Hi. cbv zeta. rewrite Hcw, land_7FFFFFFF, state_word by easy.
  cbn [ar] in Hge. destruct Hph; subst q Q; try lia.
  - apply orb_true_iff. right. rewrite LeaveAsReader_word by easy.
    destruct (Z.eqb_spec r 1); cbn [negb]; valid.
  - replace (w =? 0) with false by lia. destruct (r =? 0); reflexivity.
Qed.

Lemma UpdateAsWriter_valid s ts (i : nat) k : rw_inv (Conf s ts) -> ts !! i = Some (UW k) ->
  _FValidStateTransition (m_cw s) (UpdateAsWriter_cwAI (m_cw s)) trLeaveAsWriter = true.
Proof.
  intros HI Hi. rw_facts HI Hi. cbn [tW] in Hge. destruct Hph; subst q Q; try lia.
  rewrite Hcw, UpdateAsWriter_word by easy. destruct (Z.eqb_spec w 0); [subst w|]; valid.
Qed.

Lemma UpdateAsReader_valid s ts (i : nat) k : rw_inv (Conf s ts) -> ts !! i = Some (UR k) ->
  _FValidStateTransition (m_cw s) (UpdateAsReader_cwAI (m_cw s)) trLeaveAsReader = true.
Proof.
  intros HI Hi. rw_facts HI Hi. cbn [tR] in Hge. destruct Hph; subst q Q; try lia.
  rewrite Hcw, UpdateAsReader_word by easy. destruct (Z.eqb_spec r 0); valid.
Qed.

Lemma owner_try s ts (i : nat) : rw_inv (Conf s ts) -> ts !! i = Some OwnW_try ->
  (m_cw s .& 0x0000FFFF =? 0) = false.
Proof.
  intros HI Hi. rw_facts HI Hi. cbn [aw] in Hge. rewrite Hcw. autorewrite with cword.
  destruct Hph; subst q Q; try lia; destruct (Z.eqb_spec w 0); try reflexivity; lia.
Qed.

Lemma rw_tstep_no_fault c (i : nat) p o : rw_inv c -> pcs c !! i = Some p -> tstep o (shared c) p <> Fault.
Proof.
  destruct c as [s ts]. cbn [pcs shared]. intros HI Hi.
  destruct p; cbn [tstep];
    unfold EnterAsWriter, FTryEnterAsWriter, LeaveAsWriter, EnterAsReader, FTryEnterAsReader,
      LeaveAsReader, _UpdateQuiescedOwnerCountAsWriter, _UpdateQuiescedOwnerCountAsReader, sem_acquire;
    try (rewrite (EnterAsWriter_valid _ _ _ HI Hi)); try (rewrite (EnterAsReader_valid _ _ _ HI Hi));
    try (rewrite (FTryEnterAsWriter_valid _ _ _ HI Hi)); try (rewrite (FTryEnterAsReader_valid _ _ _ HI Hi));
    try (rewrite (LeaveAsWriter_valid _ _ _ HI Hi)); try (rewrite (LeaveAsReader_valid _ _ _ HI Hi));
    try (rewrite (UpdateAsWriter_valid _ _ _ _ HI Hi)); try (rewrite (UpdateAsReader_valid _ _ _ _ HI Hi));
    try (rewrite (owner_try _ _ _ HI Hi)); cbn [OSSYNCAssert negb]; try done;
    repeat case_match; try done; destruct o; done.
Qed.

(** ** Guarantees *)

(** The thread owns the lock for writing, or for reading: from the return of the
    call that acquired it to the atomic exchange of the call that leaves it. *)
Definition FWriter (p : pc) : bool := match p with OwnW | OwnW_try | LW | LW_cas _ => true | _ => false end.

Definition FReader (p : pc) : bool := match p with OwnR | LR | LR_cas _ => true | _ => false end.

Lemma rw_blocked_waits s p : (forall o, tstep o s p = Blocked) ->
  p = WaitW /\ m_semWriter s <= 0 \/ p = WaitR /\ m_semReader s <= 0.
Proof.
  intros H. pose proof (H OpEnterAsWriter) as H1. pose proof (H OpLeaveAsWriter) as H2.
  pose proof (H OpLeaveAsReader) as H3. clear H.
  destruct p; cbn [tstep] in *; try discriminate;
    unfold EnterAsWriter, FTryEnterAsWriter, LeaveAsWriter, EnterAsReader, FTryEnterAsReader,
      LeaveAsReader, _UpdateQuiescedOwnerCountAsWriter, _UpdateQuiescedOwnerCountAsReader,
      sem_acquire, OSSYNCAssert in *; repeat case_match; try discriminate; bool_to_prop; auto.
Qed.

(** C8: Mutual exclusion of [CReaderWriterLock].  Fewer than 2^15 threads that
    enter, try to enter and leave as readers and writers in any interleaving of
    their atomic operations: while a thread owns the lock for writing, no other
    thread owns it for writing or for reading. *)
Theorem rw_mutual_exclusion n c (i j : nat) p p2 :
  Z.of_nat n < 2 ^ 15 -> rtc RWStep (rw_init n) c ->
  pcs c !! i = Some p -> pcs c !! j = Some p2 -> i <> j ->
  FWriter p = true -> FWriter p2 = false /\ FReader p2 = false.
Proof.
  intros Hn Hreach Hi Hj Hij Hp. pose proof (rw_reachable n c Hn Hreach) as HI. destruct c as [s ts].
  cbn [pcs] in *. rw_facts HI Hi.
  pose proof (total_ge2 aw ts i j p p2 ltac:(apply rw_weights_nonneg) Hi Hj Hij) as H2.
  pose proof (total_ge ar ts j p2 ltac:(apply rw_weights_nonneg) Hj) as H3.
  assert (Ha : aw p = 1) by (destruct p; done).
  split; apply not_true_iff_false; intros Hq.
  - assert (Hb : aw p2 = 1) by (destruct p2; done). destruct Hph; lia.
  - assert (Hb : ar p2 = 1) by (destruct p2; done). destruct Hph; lia.
Qed.

Lemma rw_mutual_exclusion_witness :
  let c := Conf (RWState (cword 0 true 1 true) 1 0 0) [OwnW; WaitR] in
  rtc RWStep (rw_init 2) c /\ FWriter WaitR = false /\ FReader WaitR = false.
Proof.
  intros c.
  assert (H : rtc RWStep (rw_init 2) c).
  { apply (exec_steps tstep [(0%nat, OpEnterAsWriter); (0%nat, OpEnterAsWriter); (0%nat, OpEnterAsWriter);
      (1%nat, OpEnterAsReader); (1%nat, OpEnterAsReader); (1%nat, OpEnterAsReader); (1%nat, OpEnterAsReader)]).
    vm_compute. reflexivity. }
  split; [exact H|].
  exact (rw_mutual_exclusion 2 c 0 1 OwnW WaitR ltac:(lia) H eq_refl eq_refl ltac:(lia) eq_refl).
Defined.

(** The assertions of [CReaderWriterLock] hold in every interleaving: each
    exchange that is attempted is a valid transition of the control word for the
    reason it is made (or its expected word is not a state at all and the exchange
    fails), and a writer that tries to enter again is refused before it changes
    anything. *)
Theorem rw_assertions n : Z.of_nat n < 2 ^ 15 -> never_faults tstep (rw_init n).
Proof. intros Hn c i p o Hr Hi. exact (rw_tstep_no_fault c i p o (rw_reachable n c Hn Hr) Hi). Qed.

Lemma rw_assertions_witness : never_faults tstep (rw_init 3).
Proof. apply rw_assertions. lia. Defined.

(** C28: No wake-up is lost and the lock cannot deadlock by itself.  If in a
    reachable configuration every thread is outside the lock or cannot take a step,
    then no thread waits: all are outside, and the lock is in the state its
    constructor left it in, semaphores included. *)
Theorem rw_no_lost_wakeup n c :
  Z.of_nat n < 2 ^ 15 -> rtc RWStep (rw_init n) c ->
  (forall (i : nat) p, pcs c !! i = Some p -> p = Idle \/ forall o, tstep o (shared c) p = Blocked) ->
  c = rw_init n.
Proof.
  intros Hn Hr Hb.
  assert (Hlen : length (pcs c) = n) by (rewrite (reachable_length _ _ _ Hr); apply length_replicate).
  pose proof (rw_reachable n c Hn Hr) as (_ & _ & H1 & H2 & w & q & r & Q & co & Hcw & Hco & Hph).
  destruct c as [s ts]. cbn [shared pcs] in *. unfold rw_phase in Hph.
  assert (Hts : forall p, p ∈ ts -> p = Idle \/ p = WaitW /\ m_semWriter s <= 0 \/ p = WaitR /\ m_semReader s <= 0).
  { intros p [i Hi]%list_elem_of_lookup. destruct (Hb i p Hi) as [->|H]; [auto|]. right. by apply rw_blocked_waits. }
  assert (Hz : forall f : pc -> Z, f Idle = 0 ->
    (m_semWriter s <= 0 -> f WaitW = 0) -> (m_semReader s <= 0 -> f WaitR = 0) -> total f ts = 0).
  { intros f F1 F2 F3. apply total_0. intros p Hp. destruct (Hts p Hp) as [->|[[-> ?]|[-> ?]]]; auto. }
  rewrite (Hz aw), (Hz ar), (Hz gW), (Hz gR), (Hz nW), (Hz sW), (Hz tW), (Hz nR), (Hz pR), (Hz sR), (Hz tR) in Hph
    by done.
  pose proof (rw_sums_nonneg ts) as Hnn.
  assert (HsW : m_semWriter s = 0).
  { destruct (Z.lt_ge_cases 0 (m_semWriter s)) as [Hs|]; [|lia].
    rewrite (Hz wW) in Hph by (done || lia). destruct Hph; lia. }
  assert (HsR : m_semReader s = 0).
  { destruct (Z.lt_ge_cases 0 (m_semReader s)) as [Hs|]; [|lia].
    rewrite (Hz wR) in Hph by (done || lia). destruct Hph; lia. }
  destruct Hph; try lia. unfold rw_init. f_equal.
  - destruct s as [cw cown sw sr]. cbn in *. subst. reflexivity.
  - symmetry. apply replicate_as_elem_of. split; [done|].
    intros p Hp. destruct (list_elem_of_lookup_1 _ _ Hp) as [i Hi].
    pose proof (rw_sums_ge ts i p Hi). destruct (Hts p Hp) as [->|[[-> _]|[-> _]]]; cbn [wW wR] in *; [done|lia..].
Qed.

(** A writer and a reader that waits for it, both gone again. *)
Lemma rw_no_lost_wakeup_witness :
  rtc RWStep (rw_init 2) (Conf (RWState 0 0 0 0) [Idle; Idle]) /\
  Conf (RWState 0 0 0 0) [Idle; Idle] = rw_init 2.
Proof.
  assert (H : rtc RWStep (rw_init 2) (Conf (RWState 0 0 0 0) [Idle; Idle])).
  { apply (exec_steps tstep ([(0%nat, OpEnterAsWriter); (0%nat, OpEnterAsWriter); (0%nat, OpEnterAsWriter)] ++
      [(1%nat, OpEnterAsReader); (1%nat, OpEnterAsReader); (1%nat, OpEnterAsReader); (1%nat, OpEnterAsReader)] ++
      replicate 7 (0%nat, OpLeaveAsWriter) ++ replicate 4 (1%nat, OpLeaveAsReader))).
    vm_compute. reflexivity. }
  split; [exact H|]. apply (rw_no_lost_wakeup 2); [lia|exact H|].
  intros [|[|i]] p Hp; cbn in Hp; simplify_eq; auto.
Defined.
