(* ===== verification/BinaryLock.v ===== *)
(** * BinaryLock: the two-group lock of sync.hxx and sync.cxx

    [CBinaryLock] lets any number of members of one group own it together, but
    never members of both.  Its control word has the layout of the reader-writer
    lock's: the members of each group that own the lock, or wait for it when the
    group is quiesced.  Members entering while the other group owns the lock close
    it to newcomers, count the owners in [m_cOwner], and wait until the last of them
    hands the lock over. *)

From S2P Require Import Prelude Threads ControlWord.

Record CBinaryLockState := BLState { m_cw : Z; m_cOwner : Z; m_sem1 : Z; m_sem2 : Z }.

Definition CBinaryLockState_ctor : CBinaryLockState := BLState 0 0 0 0.

Definition set_cw (cw : Z) (s : CBinaryLockState) : CBinaryLockState :=
  BLState cw (m_cOwner s) (m_sem1 s) (m_sem2 s).

Definition set_cOwner (c : Z) (s : CBinaryLockState) : CBinaryLockState :=
  BLState (m_cw s) c (m_sem1 s) (m_sem2 s).

Definition set_sem1 (c : Z) (s : CBinaryLockState) : CBinaryLockState :=
  BLState (m_cw s) (m_cOwner s) c (m_sem2 s).

Definition set_sem2 (c : Z) (s : CBinaryLockState) : CBinaryLockState :=
  BLState (m_cw s) (m_cOwner s) (m_sem1 s) c.

(** [AtomicCompareExchange( &State().m_cw, cwBIExpected, cwAI )]; the value it
    returns is the word before. *)
Definition cmpxchg_cw (cwBIExpected cwAI : Z) (s : CBinaryLockState) : CBinaryLockState :=
  if m_cw s =? cwBIExpected then set_cw cwAI s else s.

(** ** The assertions on transitions *)

Inductive TransitionReason := trEnter1 | trLeave1 | trEnter2 | trLeave2.

Definition tr_bit (tr : TransitionReason) : Z :=
  match tr with trEnter1 => 1 | trLeave1 => 2 | trEnter2 => 4 | trLeave2 => 8 end.

Definition mpindexstate : list Z := [0; -1; -1; -1; -1; -1; 1; -1; -1; 2; -1; 3; -1; -1; 4; 5].

Definition _StateFromControlWord (cw : Z) : Z :=
  let index := 0 in
  let index := index .| (if cw .& 0x80000000 =? 0 then 0 else 8) in
  let index := index .| (if cw .& 0x7FFF0000 =? 0 then 0 else 4) in
  let index := index .| (if cw .& 0x00008000 =? 0 then 0 else 2) in
  let index := index .| (if cw .& 0x00007FFF =? 0 then 0 else 1) in
  default (-1) (rd mpindexstate index).

Definition mpstatestatetrmask : list (list Z) :=
  let NO := 0 in let E1 := 1 in let L1 := 2 in let E2 := 4 in let L2 := 8 in
  [[NO; E2; E1; NO; NO; NO];
   [L2; E2 .| L2; NO; E1; NO; NO];
   [L1; NO; E1 .| L1; NO; E2; NO];
   [NO; NO; L2; E1 .| L2; NO; E2];
   [NO; L1; NO; NO; L1 .| E2; E1];
   [NO; NO; NO; L1; L2; E1 .| L1 .| E2 .| L2]].

Definition _FValidStateTransition (cwBI cwAI : Z) (tr : TransitionReason) : bool :=
  let stateBI := _StateFromControlWord cwBI in
  let stateAI := _StateFromControlWord cwAI in
  if (stateBI <? 0) || (stateAI <? 0) then false
  else
    let dcOOW2 := s32 (u32 (Z.shiftr (cwAI .& 0x7FFF0000) 16 - Z.shiftr (cwBI .& 0x7FFF0000) 16)) in
    if ((dcOOW2 <? -1) || (1 <? dcOOW2)) && negb (cwAI .& 0x7FFF0000 =? 0) then false
    else
      let dcOOW1 := s32 (u32 ((cwAI .& 0x00007FFF) - (cwBI .& 0x00007FFF))) in
      if ((dcOOW1 <? -1) || (1 <? dcOOW1)) && negb (cwAI .& 0x00007FFF =? 0) then false
      else
        match rd mpstatestatetrmask stateBI ≫= fun row => rd row stateAI with
        | Some mask => negb (mask .& tr_bit tr =? 0)
        | None => false
        end.

(** ** The new control words *)

Definition Enter1_cwAI (cwBIExpected : Z) : Z :=
  u32 (((cwBIExpected .& (sign_mask cwBIExpected .| 0x0000FFFF)) .| 0x80000000) + 0x00000001).

Definition Leave1_cwAI (cwBIExpected : Z) : Z :=
  let cwAI := u32 (cwBIExpected + 0xFFFFFFFF) in
  u32 (cwAI - (u32 (Z.shiftl (u32 (cwAI + 0xFFFFFFFF)) 16) .& 0x80000000)).

Definition Enter2_cwAI (cwBIExpected : Z) : Z :=
  u32 (((cwBIExpected .& (sign_mask (u32 (Z.shiftl cwBIExpected 16)) .| 0xFFFF0000)) .| 0x00008000) + 0x00010000).

Definition Leave2_cwAI (cwBIExpected : Z) : Z :=
  let cwAI := u32 (cwBIExpected + 0xFFFF0000) in
  u32 (cwAI - (Z.shiftr (u32 (cwAI + 0xFFFF0000)) 16 .& 0x00008000)).

Definition UpdateAsGroup1_cwAI (cwBIExpected : Z) : Z :=
  u32 (cwBIExpected .&
       ((sign_mask (u32 (Z.shiftl (u32 (cwBIExpected + 0xFFFF7FFF)) 16)) .& 0xFFFF0000) ^^ 0x8000FFFF)).

Definition UpdateAsGroup2_cwAI (cwBIExpected : Z) : Z :=
  u32 (cwBIExpected .& ((sign_mask (u32 (cwBIExpected + 0x7FFF0000)) .& 0x0000FFFF) ^^ 0xFFFF8000)).

(** ** Positions of a thread *)

(** Where [_UpdateQuiescedOwnerCountAsGroup...] returns to: [_Enter...] goes on to
    wait for the semaphore, [Leave...] is finished. *)
Inductive after := AfterEnter | AfterLeave.

Inductive pc :=
  | Idle
  (** [Enter1]: before the read, before the exchange, in [m_sem1.Acquire] *)
  | E1 | E1_cas (cwBIExpected : Z) | Wait1
  (** [FTryEnter1], the lock held by a member of group 1, [Leave1] *)
  | T1 | T1_cas (cwBIExpected : Z)
  | Own1
  | L1 | L1_cas (cwBIExpected : Z)
  (** the same for group 2 *)
  | E2 | E2_cas (cwBIExpected : Z) | Wait2
  | T2 | T2_cas (cwBIExpected : Z)
  | Own2
  | L2 | L2_cas (cwBIExpected : Z)
  (** [_UpdateQuiescedOwnerCountAsGroup1]: the addition, the loop, the second
      addition, the release of group 2 *)
  | U1_add (cOwnerDelta : Z) (k : after) | U1 (k : after) | U1_cas (cwBIExpected : Z) (k : after)
  | U1_add2 (cOwnerDeltaT cRelease : Z) (k : after) | U1_rel (cRelease : Z) (k : after)
  (** [_UpdateQuiescedOwnerCountAsGroup2] *)
  | U2_add (cOwnerDelta : Z) (k : after) | U2 (k : after) | U2_cas (cwBIExpected : Z) (k : after)
  | U2_add2 (cOwnerDeltaT cRelease : Z) (k : after) | U2_rel (cRelease : Z) (k : after).

#[export] Instance bl_after_eq_dec : EqDecision after.
Proof. solve_decision. Defined.

#[export] Instance bl_pc_eq_dec : EqDecision pc.
Proof. solve_decision. Defined.

Abbreviation result := (outcome CBinaryLockState pc).

(** ** Operations *)

Definition return_as1 (k : after) : pc := match k with AfterEnter => Wait2 | AfterLeave => Idle end.

Definition _UpdateQuiescedOwnerCountAsGroup1 (s : CBinaryLockState) (p : pc) : result :=
  match p with
  | U1_add cOwnerDelta k =>
      let cOwnerBI := m_cOwner s in
      let cOwnerAI := u32 (cOwnerBI + cOwnerDelta) in
      let s := set_cOwner cOwnerAI s in
      if cOwnerAI =? 0 then Next s (U1 k) else Next s (return_as1 k)
  | U1 k =>
      let cwBIExpected := m_cw s in
      OSSYNCAssert (_FValidStateTransition cwBIExpected (UpdateAsGroup1_cwAI cwBIExpected) trLeave1)
        (Next s (U1_cas cwBIExpected k))
  | U1_cas cwBIExpected k =>
      let cwBI := m_cw s in
      let s := cmpxchg_cw cwBIExpected (UpdateAsGroup1_cwAI cwBIExpected) s in
      if negb (cwBI =? cwBIExpected) then Next s (U1 k)
      else
        let cWaiters := Z.shiftr (cwBI .& 0x7FFF0000) 16 in
        if negb (cwBI .& 0x00007FFF =? 0) then Next s (U1_add2 cWaiters cWaiters k)
        else Next s (U1_rel cWaiters k)
  | U1_add2 cOwnerDeltaT cRelease k =>
      Next (set_cOwner (u32 (m_cOwner s + cOwnerDeltaT)) s) (U1_rel cRelease k)
  | U1_rel cRelease k =>
      Next (set_sem2 (sem_release cRelease (m_sem2 s)) s) (return_as1 k)
  | _ => Blocked
  end.

Definition return_as2 (k : after) : pc := match k with AfterEnter => Wait1 | AfterLeave => Idle end.

Definition _UpdateQuiescedOwnerCountAsGroup2 (s : CBinaryLockState) (p : pc) : result :=
  match p with
  | U2_add cOwnerDelta k =>
      let cOwnerBI := m_cOwner s in
      let cOwnerAI := u32 (cOwnerBI + cOwnerDelta) in
      let s := set_cOwner cOwnerAI s in
      if cOwnerAI =? 0 then Next s (U2 k) else Next s (return_as2 k)
  | U2 k =>
      let cwBIExpected := m_cw s in
      OSSYNCAssert (_FValidStateTransition cwBIExpected (UpdateAsGroup2_cwAI cwBIExpected) trLeave2)
        (Next s (U2_cas cwBIExpected k))
  | U2_cas cwBIExpected k =>
      let cwBI := m_cw s in
      let s := cmpxchg_cw cwBIExpected (UpdateAsGroup2_cwAI cwBIExpected) s in
      if negb (cwBI =? cwBIExpected) then Next s (U2 k)
      else
        let cWaiters := cwBI .& 0x00007FFF in
        if negb (cwBI .& 0x7FFF0000 =? 0) then Next s (U2_add2 cWaiters cWaiters k)
        else Next s (U2_rel cWaiters k)
  | U2_add2 cOwnerDeltaT cRelease k =>
      Next (set_cOwner (u32 (m_cOwner s + cOwnerDeltaT)) s) (U2_rel cRelease k)
  | U2_rel cRelease k =>
      Next (set_sem1 (sem_release cRelease (m_sem1 s)) s) (return_as2 k)
  | _ => Blocked
  end.

(** [_Enter1( cwBIOld )] up to its first shared access. *)
Definition _Enter1 (cwBIOld : Z) : pc :=
  if cwBIOld .& 0x80008000 =? 0x00008000
  then U2_add (Z.shiftr (cwBIOld .& 0x7FFF0000) 16) AfterEnter
  else Wait1.

Definition Enter1 (s : CBinaryLockState) (p : pc) : result :=
  match p with
  | E1 =>
      let cwBIExpected := m_cw s in
      OSSYNCAssert (_FValidStateTransition cwBIExpected (Enter1_cwAI cwBIExpected) trEnter1)
        (Next s (E1_cas cwBIExpected))
  | E1_cas cwBIExpected =>
      let cwBI := m_cw s in
      let s := cmpxchg_cw cwBIExpected (Enter1_cwAI cwBIExpected) s in
      if negb ((cwBI ^^ cwBIExpected) .| (cwBI .& 0x00008000) =? 0)
      then if negb (cwBI =? cwBIExpected) then Next s E1 else Next s (_Enter1 cwBI)
      else Next s Own1
  | Wait1 => sem_acquire (m_sem1 s) (fun c => Next (set_sem1 c s) Own1)
  | _ => Blocked
  end.

Definition FTryEnter1 (s : CBinaryLockState) (p : pc) : result :=
  match p with
  | T1 =>
      let cwBIExpected := m_cw s .& 0xFFFF7FFF in
      OSSYNCAssert ((_StateFromControlWord cwBIExpected <? 0) ||
                    _FValidStateTransition cwBIExpected (Enter1_cwAI cwBIExpected) trEnter1)
        (Next s (T1_cas cwBIExpected))
  | T1_cas cwBIExpected =>
      let cwBI := m_cw s in
      let s := cmpxchg_cw cwBIExpected (Enter1_cwAI cwBIExpected) s in
      if negb (cwBI =? cwBIExpected)
      then if negb (cwBI .& 0x00008000 =? 0) then Next s Idle else Next s T1
      else Next s Own1
  | _ => Blocked
  end.

Definition Leave1 (s : CBinaryLockState) (p : pc) : result :=
  match p with
  | L1 =>
      let cwBIExpected := m_cw s .& 0xFFFF7FFF in
      OSSYNCAssert ((_StateFromControlWord cwBIExpected <? 0) ||
                    _FValidStateTransition cwBIExpected (Leave1_cwAI cwBIExpected) trLeave1)
        (Next s (L1_cas cwBIExpected))
  | L1_cas cwBIExpected =>
      let cwBI := m_cw s in
      let s := cmpxchg_cw cwBIExpected (Leave1_cwAI cwBIExpected) s in
      if negb (cwBI =? cwBIExpected)
      then if negb (cwBI .& 0x00008000 =? 0) then Next s (U1_add 0xFFFFFFFF AfterLeave) else Next s L1
      else Next s Idle
  | _ => Blocked
  end.

(** [_Enter2( cwBIOld )] up to its first shared access. *)
Definition _Enter2 (cwBIOld : Z) : pc :=
  if cwBIOld .& 0x80008000 =? 0x80000000
  then U1_add (cwBIOld .& 0x00007FFF) AfterEnter
  else Wait2.

Definition Enter2 (s : CBinaryLockState) (p : pc) : result :=
  match p with
  | E2 =>
      let cwBIExpected := m_cw s in
      OSSYNCAssert (_FValidStateTransition cwBIExpected (Enter2_cwAI cwBIExpected) trEnter2)
        (Next s (E2_cas cwBIExpected))
  | E2_cas cwBIExpected =>
      let cwBI := m_cw s in
      let s := cmpxchg_cw cwBIExpected (Enter2_cwAI cwBIExpected) s in
      if negb ((cwBI ^^ cwBIExpected) .| (cwBI .& 0x80000000) =? 0)
      then if negb (cwBI =? cwBIExpected) then Next s E2 else Next s (_Enter2 cwBI)
      else Next s Own2
  | Wait2 => sem_acquire (m_sem2 s) (fun c => Next (set_sem2 c s) Own2)
  | _ => Blocked
  end.

Definition FTryEnter2 (s : CBinaryLockState) (p : pc) : result :=
  match p with
  | T2 =>
      let cwBIExpected := m_cw s .& 0x7FFFFFFF in
      OSSYNCAssert ((_StateFromControlWord cwBIExpected <? 0) ||
                    _FValidStateTransition cwBIExpected (Enter2_cwAI cwBIExpected) trEnter2)
        (Next s (T2_cas cwBIExpected))
  | T2_cas cwBIExpected =>
      let cwBI := m_cw s in
      let s := cmpxchg_cw cwBIExpected (Enter2_cwAI cwBIExpected) s in
      if negb (cwBI =? cwBIExpected)
      then if negb (cwBI .& 0x80000000 =? 0) then Next s Idle else Next s T2
      else Next s Own2
  | _ => Blocked
  end.

Definition Leave2 (s : CBinaryLockState) (p : pc) : result :=
  match p with
  | L2 =>
      let cwBIExpected := m_cw s .& 0x7FFFFFFF in
      OSSYNCAssert ((_StateFromControlWord cwBIExpected <? 0) ||
                    _FValidStateTransition cwBIExpected (Leave2_cwAI cwBIExpected) trLeave2)
        (Next s (L2_cas cwBIExpected))
  | L2_cas cwBIExpected =>
      let cwBI := m_cw s in
      let s := cmpxchg_cw cwBIExpected (Leave2_cwAI cwBIExpected) s in
      if negb (cwBI =? cwBIExpected)
      then if negb (cwBI .& 0x80000000 =? 0) then Next s (U2_add 0xFFFFFFFF AfterLeave) else Next s L2
      else Next s Idle
  | _ => Blocked
  end.

(** ** Threads *)

Inductive op := OpEnter1 | OpFTryEnter1 | OpLeave1 | OpEnter2 | OpFTryEnter2 | OpLeave2.

(** The next step of a thread: a call, which a thread makes only as the locking
    discipline allows, or the next atomic access of the call it is in. *)
Definition tstep (o : op) (s : CBinaryLockState) (p : pc) : result :=
  match p with
  | Idle =>
      match o with
      | OpEnter1 => Next s E1
      | OpFTryEnter1 => Next s T1
      | OpEnter2 => Next s E2
      | OpFTryEnter2 => Next s T2
      | _ => Blocked
      end
  | Own1 => match o with OpLeave1 => Next s L1 | _ => Blocked end
  | Own2 => match o with OpLeave2 => Next s L2 | _ => Blocked end
  | E1 | E1_cas _ | Wait1 => Enter1 s p
  | T1 | T1_cas _ => FTryEnter1 s p
  | L1 | L1_cas _ => Leave1 s p
  | E2 | E2_cas _ | Wait2 => Enter2 s p
  | T2 | T2_cas _ => FTryEnter2 s p
  | L2 | L2_cas _ => Leave2 s p
  | U1_add _ _ | U1 _ | U1_cas _ _ | U1_add2 _ _ _ | U1_rel _ _ => _UpdateQuiescedOwnerCountAsGroup1 s p
  | U2_add _ _ | U2 _ | U2_cas _ _ | U2_add2 _ _ _ | U2_rel _ _ => _UpdateQuiescedOwnerCountAsGroup2 s p
  end.

Abbreviation BLStep := (step tstep).

(** [n] threads outside a lock that was just constructed. *)
Definition bl_init (n : nat) : conf CBinaryLockState pc :=
  Conf CBinaryLockState_ctor (replicate n Idle).
