(* ===== verification/BinaryLockProofs.v ===== *)
(** * BinaryLockProofs: the invariant of the two-group lock

    The control word of a [CBinaryLock] is always in one of five phases: free,
    owned by one of the groups and open to it, or owned by one of the groups with
    both groups quiesced. *)

From S2P Require Import Prelude Threads ControlWord RWLock RWLockProofs BinaryLock.

(** ** The control words of the two-group lock

    Group 1 uses the arithmetic of the writers of [CReaderWriterLock]; group 2 has
    its own, and the table of transitions differs. *)

Local Ltac word k := apply (u32_eq k); [apply cword_range; unfold field in *; lia|unfold cword; cbn [Z.b2z]; lia].

Lemma Enter1_word w q r Q : field w -> field r -> w + 1 < 2 ^ 15 ->
  Enter1_cwAI (cword w q r Q) = cword (w + 1) q (if Q then r else 0) true.
Proof. exact (EnterAsWriter_word w q r Q). Qed.

Lemma Leave1_word w r : field w -> field r -> 0 < w ->
  Leave1_cwAI (cword w false r true) = cword (w - 1) false r (negb (w =? 1)).
Proof. exact (LeaveAsWriter_word w r). Qed.

Lemma UpdateAsGroup1_word w r : field w -> field r ->
  UpdateAsGroup1_cwAI (cword w true r true) = if w =? 0 then cword 0 true r false else cword w true 0 true.
Proof. exact (UpdateAsWriter_word w r). Qed.

Lemma Enter2_word w q r Q : field w -> field r -> r + 1 < 2 ^ 15 ->
  Enter2_cwAI (cword w q r Q) = cword (if q then w else 0) true (r + 1) Q.
Proof.
  intros Hw Hr H1. unfold Enter2_cwAI. rewrite shl16_word by easy.
  rewrite sign_mask_cword by (unfold field in *; lia).
  destruct q; [change (-1 .| 4294901760) with (-1); rewrite Z.land_m1_r | change (0 .| 4294901760) with 4294901760];
    autorewrite with cword; word 0.
Qed.

Lemma Leave2_word w r : field w -> field r -> 0 < r ->
  Leave2_cwAI (cword w true r false) = cword w (negb (r =? 1)) (r - 1) false.
Proof.
  intros Hw Hr H0. unfold Leave2_cwAI.
  assert (E1 : u32 (cword w true r false + 4294901760) = cword w true (r - 1) false) by word 1.
  rewrite E1. clear E1.
  assert (E3 : forall r Q, field r -> Z.shiftr (cword w true r Q) 16 = cword r Q 0 false).
  { intros r' Q' Hr'. rewrite Z.shiftr_div_pow2 by lia. symmetry.
    apply Z.div_unique with (r := cword w true 0 false); unfold cword, field in *; cbn [Z.b2z]; lia. }
  destruct (Z.eqb_spec r 1) as [->|H1]; cbn [negb].
  - assert (E2 : u32 (cword w true (1 - 1) false + 4294901760) = cword w true 0x7FFF true) by word 0.
    rewrite E2, E3 by (unfold field; lia). autorewrite with cword. word 0.
  - assert (E2 : u32 (cword w true (r - 1) false + 4294901760) = cword w true (r - 2) false) by word 1.
    rewrite E2, E3 by (unfold field in *; lia). autorewrite with cword. word 0.
Qed.

Lemma UpdateAsGroup2_word w r : field w -> field r ->
  UpdateAsGroup2_cwAI (cword w true r true) = if r =? 0 then cword w false 0 true else cword 0 true r true.
Proof.
  intros Hw Hr. unfold UpdateAsGroup2_cwAI. destruct (Z.eqb_spec r 0) as [->|H0].
  - assert (E1 : u32 (cword w true 0 true + 2147418112) = cword w true 0x7FFF true) by word 0.
    rewrite E1. autorewrite with cword. change (-1 .& 65535 ^^ 4294934528) with 0xFFFF7FFF.
    autorewrite with cword. word 0.
  - assert (E1 : u32 (cword w true r true + 2147418112) = cword w true (r - 1) false) by word 1.
    rewrite E1. autorewrite with cword. change (0 .& 65535 ^^ 4294934528) with 0xFFFF8000.
    autorewrite with cword. word 0.
Qed.

Lemma bl_state_word w q r Q : field w -> field r ->
  _StateFromControlWord (cword w q r Q) = state_of (w =? 0) q (r =? 0) Q.
Proof. exact (state_word w q r Q). Qed.

Lemma bl_valid_word w q r Q w' q' r' Q' tr : field w -> field r -> field w' -> field r' ->
  -1 <= w' - w <= 1 \/ w' = 0 -> -1 <= r' - r <= 1 \/ r' = 0 ->
  _FValidStateTransition (cword w q r Q) (cword w' q' r' Q') tr =
  let st := state_of (w =? 0) q (r =? 0) Q in
  let st' := state_of (w' =? 0) q' (r' =? 0) Q' in
  if (st <? 0) || (st' <? 0) then false
  else match rd mpstatestatetrmask st ≫= fun row => rd row st' with
       | Some mask => negb (mask .& tr_bit tr =? 0)
       | None => false
       end.
Proof.
  intros Hw Hr Hw' Hr' Dw Dr. unfold _FValidStateTransition. rewrite !bl_state_word by easy.
  cbv zeta. destruct (_ || _); [easy|]. autorewrite with cword.
  rewrite ?cword_eq0 by (unfold field in *; lia). change (0 =? 0) with true. cbn [negb andb].
  rewrite !andb_true_r.
  unfold field in *. rewrite !s32_u32 by (unfold cword; cbn [Z.b2z]; lia).
  replace (cword w' false 0 false - cword w false 0 false) with (w' - w) by (unfold cword; cbn [Z.b2z]; lia).
  replace (((w' - w <? -1) || (1 <? w' - w)) && negb (w' =? 0)) with false by lia.
  replace (((r' - r <? -1) || (1 <? r' - r)) && negb (r' =? 0)) with false by lia. easy.
Qed.

(** ** What a thread contributes

    For each group: it owns the lock and has not left ([a]), it is about to release
    that many members ([g]), it waits or will wait ([w]), it is to add the amount [p]
    to the count of owners of this group ([n]) or to subtract one ([s]), it found the
    count at zero and is to hand the lock over ([t]). *)

Definition a1 (p : pc) : Z := match p with Own1 | L1 | L1_cas _ => 1 | _ => 0 end.

Definition g1 (p : pc) : Z := match p with U2_add2 _ n _ | U2_rel n _ => Z.max 0 n | _ => 0 end.

Definition w1 (p : pc) : Z :=
  match p with
  | Wait1 | U2_add _ AfterEnter | U2 AfterEnter | U2_cas _ AfterEnter
  | U2_add2 _ _ AfterEnter | U2_rel _ AfterEnter => 1
  | _ => 0
  end.

Definition n1 (p : pc) : Z := match p with U1_add _ AfterEnter | U2_add2 _ _ _ => 1 | _ => 0 end.

Definition p1 (p : pc) : Z :=
  match p with U1_add d AfterEnter | U2_add2 d _ _ => Z.max 0 d | _ => 0 end.

Definition s1 (p : pc) : Z := match p with U1_add _ AfterLeave => 1 | _ => 0 end.

Definition t1 (p : pc) : Z := match p with U1 _ | U1_cas _ _ => 1 | _ => 0 end.

Definition a2 (p : pc) : Z := match p with Own2 | L2 | L2_cas _ => 1 | _ => 0 end.

Definition g2 (p : pc) : Z := match p with U1_add2 _ n _ | U1_rel n _ => Z.max 0 n | _ => 0 end.

Definition w2 (p : pc) : Z :=
  match p with
  | Wait2 | U1_add _ AfterEnter | U1 AfterEnter | U1_cas _ AfterEnter
  | U1_add2 _ _ AfterEnter | U1_rel _ AfterEnter => 1
  | _ => 0
  end.

Definition n2 (p : pc) : Z := match p with U2_add _ AfterEnter | U1_add2 _ _ _ => 1 | _ => 0 end.

Definition p2 (p : pc) : Z :=
  match p with U2_add d AfterEnter | U1_add2 d _ _ => Z.max 0 d | _ => 0 end.

Definition s2 (p : pc) : Z := match p with U2_add _ AfterLeave => 1 | _ => 0 end.

Definition t2 (p : pc) : Z := match p with U2 _ | U2_cas _ _ => 1 | _ => 0 end.

(** The arguments a thread carries. *)
Definition pc_ok (p : pc) : Prop :=
  match p with
  | T1_cas cw | L1_cas cw => cw .& 0x00008000 = 0
  | T2_cas cw | L2_cas cw => cw .& 0x80000000 = 0
  | U1_add d AfterLeave | U2_add d AfterLeave => d = 0xFFFFFFFF
  | U1_add d AfterEnter | U2_add d AfterEnter => 0 < d < 2 ^ 15
  | U1_add2 d n _ | U2_add2 d n _ => d = n /\ 0 < n < 2 ^ 15
  | U1_rel n _ | U2_rel n _ => 0 < n < 2 ^ 15
  | _ => True
  end.

(** ** Phases

    [A1] and [A2] are the members of the groups that own the lock or were given it,
    [u1] and [u2] those that wait and were not.  [co] is the signed value of
    [m_cOwner]. *)

Inductive phase (w : Z) (q : bool) (r : Z) (Q : bool)
    (co A1 u1 A2 u2 n1 p1 s1 t1 n2 p2 s2 t2 : Z) : Prop :=
  | ph_free :
      w = 0 -> q = false -> r = 0 -> Q = false -> co = 0 ->
      A1 = 0 -> u1 = 0 -> A2 = 0 -> u2 = 0 ->
      n1 = 0 -> p1 = 0 -> s1 = 0 -> t1 = 0 -> n2 = 0 -> p2 = 0 -> s2 = 0 -> t2 = 0 ->
      phase w q r Q co A1 u1 A2 u2 n1 p1 s1 t1 n2 p2 s2 t2
  | ph_own2 :
      w = 0 -> q = true -> 0 < r -> Q = false -> co = 0 ->
      A1 = 0 -> u1 = 0 -> A2 = r -> u2 = 0 ->
      n1 = 0 -> p1 = 0 -> s1 = 0 -> t1 = 0 -> n2 = 0 -> p2 = 0 -> s2 = 0 -> t2 = 0 ->
      phase w q r Q co A1 u1 A2 u2 n1 p1 s1 t1 n2 p2 s2 t2
  | ph_own1 :
      0 < w -> q = false -> r = 0 -> Q = true -> co = 0 ->
      A1 = w -> u1 = 0 -> A2 = 0 -> u2 = 0 ->
      n1 = 0 -> p1 = 0 -> s1 = 0 -> t1 = 0 -> n2 = 0 -> p2 = 0 -> s2 = 0 -> t2 = 0 ->
      phase w q r Q co A1 u1 A2 u2 n1 p1 s1 t1 n2 p2 s2 t2
  | ph_leave2 :
      0 < w -> q = true -> 0 <= r -> Q = true ->
      A1 = 0 -> u1 = w -> u2 = r -> n1 = 0 -> p1 = 0 -> s1 = 0 -> t1 = 0 -> p2 < 2 ^ 15 ->
      (t2 = 1 /\ A2 = 0 /\ co = 0 /\ n2 = 0 /\ p2 = 0 /\ s2 = 0 \/
       t2 = 0 /\ co + p2 = A2 + s2 /\ (n2 = 0 /\ 0 < co \/ n2 = 1 /\ co <= 0)) ->
      phase w q r Q co A1 u1 A2 u2 n1 p1 s1 t1 n2 p2 s2 t2
  | ph_leave1 :
      0 <= w -> q = true -> 0 < r -> Q = true ->
      A2 = 0 -> u1 = w -> u2 = r -> n2 = 0 -> p2 = 0 -> s2 = 0 -> t2 = 0 -> p1 < 2 ^ 15 ->
      (t1 = 1 /\ A1 = 0 /\ co = 0 /\ n1 = 0 /\ p1 = 0 /\ s1 = 0 \/
       t1 = 0 /\ co + p1 = A1 + s1 /\ (n1 = 0 /\ 0 < co \/ n1 = 1 /\ co <= 0)) ->
      phase w q r Q co A1 u1 A2 u2 n1 p1 s1 t1 n2 p2 s2 t2.

Definition bl_phase (s : CBinaryLockState) (ts : list pc) (w : Z) (q : bool) (r : Z) (Q : bool) (co : Z) : Prop :=
  phase w q r Q co
    (total a1 ts + total g1 ts + m_sem1 s) (total w1 ts - total g1 ts - m_sem1 s)
    (total a2 ts + total g2 ts + m_sem2 s) (total w2 ts - total g2 ts - m_sem2 s)
    (total n1 ts) (total p1 ts) (total s1 ts) (total t1 ts)
    (total n2 ts) (total p2 ts) (total s2 ts) (total t2 ts).

Definition bl_inv (c : conf CBinaryLockState pc) : Prop :=
  let s := shared c in
  let ts := pcs c in
  Forall pc_ok ts /\ Z.of_nat (length ts) < 2 ^ 15 /\ 0 <= m_sem1 s /\ 0 <= m_sem2 s /\
  exists w q r Q co, m_cw s = cword w q r Q /\ m_cOwner s = u32 co /\ bl_phase s ts w q r Q co.

(** ** Facts about the sums *)

Ltac cases_pc p := destruct p; repeat match goal with k : after |- _ => destruct k end.

Lemma bl_weights_nonneg p :
  0 <= a1 p /\ 0 <= g1 p /\ 0 <= w1 p /\ 0 <= a2 p /\ 0 <= g2 p /\ 0 <= w2 p /\
  0 <= n1 p /\ 0 <= p1 p /\ 0 <= s1 p /\ 0 <= t1 p /\ 0 <= n2 p /\ 0 <= p2 p /\ 0 <= s2 p /\ 0 <= t2 p.
Proof. cases_pc p; cbn; lia. Qed.

(** Every sum is at least the contribution of any one thread. *)
Lemma bl_sums_ge ts (i : nat) p : ts !! i = Some p ->
  a1 p <= total a1 ts /\ g1 p <= total g1 ts /\ w1 p <= total w1 ts /\
  a2 p <= total a2 ts /\ g2 p <= total g2 ts /\ w2 p <= total w2 ts /\
  n1 p <= total n1 ts /\ p1 p <= total p1 ts /\ s1 p <= total s1 ts /\ t1 p <= total t1 ts /\
  n2 p <= total n2 ts /\ p2 p <= total p2 ts /\ s2 p <= total s2 ts /\ t2 p <= total t2 ts.
Proof. intros H. split_and!; eapply total_ge; try exact H; apply bl_weights_nonneg. Qed.

Lemma bl_sums_nonneg ts :
  0 <= total a1 ts /\ 0 <= total g1 ts /\ 0 <= total w1 ts /\
  0 <= total a2 ts /\ 0 <= total g2 ts /\ 0 <= total w2 ts /\
  0 <= total n1 ts /\ 0 <= total p1 ts /\ 0 <= total s1 ts /\ 0 <= total t1 ts /\
  0 <= total n2 ts /\ 0 <= total p2 ts /\ 0 <= total s2 ts /\ 0 <= total t2 ts.
Proof. split_and!; apply total_nonneg, bl_weights_nonneg. Qed.

(** A thread is in at most one of these roles, so the sums are bounded by the
    number of threads, strictly if one thread is in none of them. *)
Definition role1 (p : pc) : Z := a1 p + w1 p + s1 p.
Definition role2 (p : pc) : Z := a2 p + w2 p + s2 p.

Lemma bl_role_le p : role1 p <= 1 /\ role2 p <= 1.
Proof. unfold role1, role2. cases_pc p; cbn; lia. Qed.

Lemma bl_roles_le ts :
  total a1 ts + total w1 ts + total s1 ts <= Z.of_nat (length ts) /\
  total a2 ts + total w2 ts + total s2 ts <= Z.of_nat (length ts).
Proof. rewrite <- !total_add, <- total_1. split; apply total_le; apply bl_role_le. Qed.

Lemma bl_roles_lt ts (i : nat) p : ts !! i = Some p ->
  (role1 p = 0 -> total a1 ts + total w1 ts + total s1 ts < Z.of_nat (length ts)) /\
  (role2 p = 0 -> total a2 ts + total w2 ts + total s2 ts < Z.of_nat (length ts)).
Proof.
  intros H. rewrite <- !total_add.
  split; intros E; (eapply total_lt_length; [apply bl_role_le|exact H|]); unfold role1, role2 in E; lia.
Qed.

(** No pending addition, no pending amount. *)
Lemma amounts ts : (total n1 ts = 0 -> total p1 ts = 0) /\ (total n2 ts = 0 -> total p2 ts = 0).
Proof.
  split; intros H; apply total_0; intros p Hp; apply list_elem_of_lookup in Hp as [i Hi];
    pose proof (bl_sums_ge ts i p Hi); pose proof (bl_weights_nonneg p); cases_pc p; cbn in *; lia.
Qed.

(** The amounts once the thread at [i] has made its addition. *)
Lemma amounts_after ts (i : nat) p p' : ts !! i = Some p ->
  (total n1 ts - n1 p + n1 p' = 0 -> total p1 ts - p1 p + p1 p' = 0) /\
  (total n2 ts - n2 p + n2 p' = 0 -> total p2 ts - p2 p + p2 p' = 0).
Proof. intros Hi. pose proof (amounts (<[i := p']> ts)) as H. by rewrite !(total_insert _ _ _ _ _ Hi) in H. Qed.

(** ** Preservation *)

Lemma bl_inv_intro s ts s' (i : nat) p p' w q r Q co :
  bl_inv (Conf s ts) -> ts !! i = Some p -> pc_ok p' ->
  0 <= m_sem1 s' -> 0 <= m_sem2 s' ->
  m_cw s' = cword w q r Q -> m_cOwner s' = u32 co ->
  phase w q r Q co
    (total a1 ts - a1 p + a1 p' + (total g1 ts - g1 p + g1 p') + m_sem1 s')
    (total w1 ts - w1 p + w1 p' - (total g1 ts - g1 p + g1 p') - m_sem1 s')
    (total a2 ts - a2 p + a2 p' + (total g2 ts - g2 p + g2 p') + m_sem2 s')
    (total w2 ts - w2 p + w2 p' - (total g2 ts - g2 p + g2 p') - m_sem2 s')
    (total n1 ts - n1 p + n1 p') (total p1 ts - p1 p + p1 p') (total s1 ts - s1 p + s1 p') (total t1 ts - t1 p + t1 p')
    (total n2 ts - n2 p + n2 p') (total p2 ts - p2 p + p2 p') (total s2 ts - s2 p + s2 p') (total t2 ts - t2 p + t2 p') ->
  bl_inv (Conf s' (<[i := p']> ts)).
Proof.
  intros (Hok & Hlen & _) Hi Hp' H1 H2 Hcw Hco Hph. unfold bl_inv, bl_phase. cbn [shared pcs].
  rewrite length_insert. split_and!; try easy; [by apply Forall_insert|].
  exists w, q, r, Q, co. split_and!; try easy. by rewrite !(total_insert _ _ _ _ _ Hi).
Qed.

(** The facts every step needs: the ranges of the fields and the sums, with the
    thread's own contribution. *)
Lemma bl_facts s ts (i : nat) p : bl_inv (Conf s ts) -> ts !! i = Some p ->
  exists w q r Q co, m_cw s = cword w q r Q /\ m_cOwner s = u32 co /\ bl_phase s ts w q r Q co /\
  field w /\ field r /\ - 2 ^ 16 < co < 2 ^ 16 /\ 0 <= m_sem1 s /\ 0 <= m_sem2 s /\ pc_ok p /\
  (role1 p = 0 -> w + 1 < 2 ^ 15) /\ (role2 p = 0 -> r + 1 < 2 ^ 15).
Proof.
  intros (Hok & Hlen & H1 & H2 & w & q & r & Q & co & Hcw & Hco & Hph) Hi. cbn [shared pcs] in *.
  exists w, q, r, Q, co. pose proof (bl_sums_nonneg ts). pose proof (bl_roles_le ts) as [Hl1 Hl2].
  destruct (bl_roles_lt ts i p Hi) as [Hl3 Hl4].
  assert (Hpc : pc_ok p) by by eapply Forall_lookup_1.
  unfold field. split_and!; try done; unfold bl_phase in Hph; destruct Hph; lia.
Qed.

Ltac bl_facts H Hi :=
  destruct (bl_facts _ _ _ _ H Hi) as
    (w & q & r & Q & co & Hcw & Hco & Hph & Hw & Hr & Hcor & Hs1 & Hs2 & Hpok & Hw1 & Hr1);
  pose proof (bl_sums_ge _ _ _ Hi) as Hge;
  match type of Hi with ?ts !! _ = _ => pose proof (bl_sums_nonneg ts) as Hnn; pose proof (amounts ts) as Ham end;
  unfold bl_phase in Hph.

Ltac phases :=
  cbn [a1 g1 w1 n1 p1 s1 t1 a2 g2 w2 n2 p2 s2 t2 role1 role2] in *;
  first [ apply ph_free; first [assumption | reflexivity | lia]
        | apply ph_own2; first [assumption | reflexivity | lia]
        | apply ph_own1; first [assumption | reflexivity | lia]
        | apply ph_leave2; first [assumption | reflexivity | lia]
        | apply ph_leave1; first [assumption | reflexivity | lia] ].

(** Evaluate the tests on words without counters. *)
Ltac flags E :=
  repeat match type of E with
  | context [cword 0 ?b 0 ?c =? ?k] =>
      let v := eval vm_compute in (cword 0 b 0 c =? k) in change (cword 0 b 0 c =? k) with v in E
  end; cbn [andb negb] in E; change (0 =? 0) with true in E; cbn [andb negb] in E.

(** The step leads to the fields and owner count given. *)
Ltac go E HI Hi w q r Q co :=
  flags E; unfold field, sem_release in *; injection E as <- <-;
  apply (bl_inv_intro _ _ _ _ _ _ w q r Q co HI Hi);
  [ cbn [pc_ok return_as1 return_as2]; first [exact I | lia | rewrite <- Z.land_assoc; apply Z.land_0_r]
  | cbn [m_sem1 set_cw set_cOwner set_sem1 set_sem2]; lia
  | cbn [m_sem2 set_cw set_cOwner set_sem1 set_sem2]; lia
  | first [exact eq_refl | assumption]
  | first [exact eq_refl | assumption]
  | cbn [m_sem1 m_sem2 set_cw set_cOwner set_sem1 set_sem2]; phases ].

(** The lock's word is the one the thread expects. *)
Ltac at_expected E Hcw w q r Q e :=
  unfold cmpxchg_cw in E; rewrite Hcw in E;
  destruct (Z.eqb_spec (cword w q r Q) e) as [<-|_]; cbn [andb negb] in E.

Lemma Enter1_inv s ts (i : nat) p s' p' :
  bl_inv (Conf s ts) -> ts !! i = Some p -> Enter1 s p = Next s' p' ->
  bl_inv (Conf s' (<[i := p']> ts)).
Proof.
  intros HI Hi E. bl_facts HI Hi. unfold Enter1 in E.
  destruct p; try discriminate E.
  - unfold OSSYNCAssert in E. destruct (_FValidStateTransition _ _ _); [|done].
    destruct Hph; go E HI Hi w q r Q co.
  - rewrite lxor_lor_0 in E. at_expected E Hcw w q r Q cwBIExpected.
    + specialize (Hw1 eq_refl). rewrite Enter1_word in E by easy.
      unfold _Enter1 in E. autorewrite with cword in E.
      destruct Hph; subst q Q; flags E; rewrite ?low_counter in E.
      * subst w. go E HI Hi 1 false 0 true co.
      * subst w. go E HI Hi 1 true 0 true co.
      * go E HI Hi (w + 1) false r true co.
      * go E HI Hi (w + 1) true r true co.
      * go E HI Hi (w + 1) true r true co.
    + destruct Hph; go E HI Hi w q r Q co.
  - unfold sem_acquire in E. destruct (Z.ltb_spec 0 (m_sem1 s)); [|done].
    destruct Hph; go E HI Hi w q r Q co.
Qed.

Lemma FTryEnter1_inv s ts (i : nat) p s' p' :
  bl_inv (Conf s ts) -> ts !! i = Some p -> FTryEnter1 s p = Next s' p' ->
  bl_inv (Conf s' (<[i := p']> ts)).
Proof.
  intros HI Hi E. bl_facts HI Hi. unfold FTryEnter1 in E.
  destruct p; try discriminate E.
  - unfold OSSYNCAssert in E. destruct (_ || _); [|done]. destruct Hph; go E HI Hi w q r Q co.
  - at_expected E Hcw w q r Q cwBIExpected.
    + specialize (Hw1 eq_refl). rewrite Enter1_word in E by easy.
      cbn [pc_ok] in Hpok. apply Z.eqb_eq in Hpok. autorewrite with cword in Hpok. bool_to_prop.
      destruct Hph; subst q Q; try done; try lia; go E HI Hi (w + 1) false 0 true co || go E HI Hi (w + 1) false r true co.
    + destruct (negb _); destruct Hph; go E HI Hi w q r Q co.
Qed.

Lemma Leave1_inv s ts (i : nat) p s' p' :
  bl_inv (Conf s ts) -> ts !! i = Some p -> Leave1 s p = Next s' p' ->
  bl_inv (Conf s' (<[i := p']> ts)).
Proof.
  intros HI Hi E. bl_facts HI Hi. unfold Leave1 in E.
  destruct p; try discriminate E.
  - unfold OSSYNCAssert in E. destruct (_ || _); [|done]. destruct Hph; go E HI Hi w q r Q co.
  - cbn [a1] in Hge. at_expected E Hcw w q r Q cwBIExpected.
    + cbn [pc_ok] in Hpok. apply Z.eqb_eq in Hpok. autorewrite with cword in Hpok. bool_to_prop.
      destruct Hph; subst q Q; try done; try lia.
      rewrite Leave1_word in E by easy. destruct (Z.eqb_spec w 1) as [Hx|Hx].
      * replace (w - 1) with 0 in E by lia. go E HI Hi 0 false r false co.
      * go E HI Hi (w - 1) false r true co.
    + autorewrite with cword in E. destruct Hph; subst q; try lia; go E HI Hi w false r Q co || go E HI Hi w true r Q co.
Qed.

Lemma Enter2_inv s ts (i : nat) p s' p' :
  bl_inv (Conf s ts) -> ts !! i = Some p -> Enter2 s p = Next s' p' ->
  bl_inv (Conf s' (<[i := p']> ts)).
Proof.
  intros HI Hi E. bl_facts HI Hi. unfold Enter2 in E.
  destruct p; try discriminate E.
  - unfold OSSYNCAssert in E. destruct (_FValidStateTransition _ _ _); [|done].
    destruct Hph; go E HI Hi w q r Q co.
  - rewrite lxor_lor_0 in E. at_expected E Hcw w q r Q cwBIExpected.
    + specialize (Hr1 eq_refl). rewrite Enter2_word in E by easy.
      unfold _Enter2 in E. autorewrite with cword in E.
      destruct Hph; subst q Q; flags E; rewrite ?low_counter in E.
      * go E HI Hi 0 true (r + 1) false co.
      * go E HI Hi w true (r + 1) false co.
      * go E HI Hi 0 true (r + 1) true co.
      * go E HI Hi w true (r + 1) true co.
      * go E HI Hi w true (r + 1) true co.
    + destruct Hph; go E HI Hi w q r Q co.
  - unfold sem_acquire in E. destruct (Z.ltb_spec 0 (m_sem2 s)); [|done].
    destruct Hph; go E HI Hi w q r Q co.
Qed.

Lemma FTryEnter2_inv s ts (i : nat) p s' p' :
  bl_inv (Conf s ts) -> ts !! i = Some p -> FTryEnter2 s p = Next s' p' ->
  bl_inv (Conf s' (<[i := p']> ts)).
Proof.
  intros HI Hi E. bl_facts HI Hi. unfold FTryEnter2 in E.
  destruct p; try discriminate E.
  - unfold OSSYNCAssert in E. destruct (_ || _); [|done]. destruct Hph; go E HI Hi w q r Q co.
  - at_expected E Hcw w q r Q cwBIExpected.
    + specialize (Hr1 eq_refl). rewrite Enter2_word in E by easy.
      cbn [pc_ok] in Hpok. apply Z.eqb_eq in Hpok. autorewrite with cword in Hpok. bool_to_prop.
      destruct Hph; subst q Q; try done; try lia; go E HI Hi 0 true (r + 1) false co || go E HI Hi w true (r + 1) false co.
    + destruct (negb _); destruct Hph; go E HI Hi w q r Q co.
Qed.

Lemma Leave2_inv s ts (i : nat) p s' p' :
  bl_inv (Conf s ts) -> ts !! i = Some p -> Leave2 s p = Next s' p' ->
  bl_inv (Conf s' (<[i := p']> ts)).
Proof.
  intros HI Hi E. bl_facts HI Hi. unfold Leave2 in E.
  destruct p; try discriminate E.
  - unfold OSSYNCAssert in E. destruct (_ || _); [|done]. destruct Hph; go E HI Hi w q r Q co.
  - cbn [a2] in Hge. at_expected E Hcw w q r Q cwBIExpected.
    + cbn [pc_ok] in Hpok. apply Z.eqb_eq in Hpok. autorewrite with cword in Hpok. bool_to_prop.
      destruct Hph; subst q Q; try done; try lia.
      rewrite Leave2_word in E by easy. destruct (Z.eqb_spec r 1) as [Hx|Hx].
      * replace (r - 1) with 0 in E by lia. go E HI Hi w false 0 false co.
      * go E HI Hi w true (r - 1) false co.
    + autorewrite with cword in E. destruct Hph; subst Q; try lia; go E HI Hi w q r false co || go E HI Hi w q r true co.
Qed.

Lemma UpdateAsGroup1_inv s ts (i : nat) p s' p' :
  bl_inv (Conf s ts) -> ts !! i = Some p -> _UpdateQuiescedOwnerCountAsGroup1 s p = Next s' p' ->
  bl_inv (Conf s' (<[i := p']> ts)).
Proof.
  intros HI Hi E. bl_facts HI Hi. unfold _UpdateQuiescedOwnerCountAsGroup1 in E.
  destruct p as [| | | | | | | | | | | | | | | | | d k|k|cw k|d n k|n k| | | | |]; try discriminate E;
    cbn [pc_ok] in Hpok.
  - (* the addition *)
    rewrite Hco in E. destruct k.
    + pose proof (amounts_after ts i _ Idle Hi) as Ham'. cbn in Hge, Ham'. rewrite u32_add, u32_eq0 in E by lia.
      destruct (Z.eqb_spec (co + d) 0); destruct Hph; try lia; go E HI Hi w q r Q (co + d).
    + cbn in Hge. subst d. rewrite u32_dec, u32_eq0 in E by lia.
      destruct (Z.eqb_spec (co - 1) 0); destruct Hph; try lia; go E HI Hi w q r Q (co - 1).
  - unfold OSSYNCAssert in E. destruct (_FValidStateTransition _ _ _); [|done].
    destruct k, Hph; go E HI Hi w q r Q co.
  - (* the exchange *)
    cbn [t1] in Hge. at_expected E Hcw w q r Q cw.
    + destruct Hph; try lia. subst q Q. rewrite UpdateAsGroup1_word in E by easy.
      autorewrite with cword in E. cbn [negb andb] in E. rewrite ?andb_true_r in E.
      change (0 =? 0) with true in E. cbn [andb] in E. 
      destruct (Z.eqb_spec w 0) as [H0'|H0']; cbn [andb negb] in E.
      * destruct k; go E HI Hi 0 true r false co.
      * destruct k; go E HI Hi w true 0 true co.
    + destruct k, Hph; go E HI Hi w q r Q co.
  - (* the second addition *)
    destruct Hpok as [-> Hn]. rewrite Hco, u32_add in E.
    pose proof (amounts_after ts i _ Idle Hi) as Ham'. cbn in Hge, Ham'.
    destruct k, Hph; try lia; go E HI Hi w q r Q (co + n).
  - (* the release *)
    cbn in Hge. destruct k, Hph; go E HI Hi w q r Q co.
Qed.

Lemma UpdateAsGroup2_inv s ts (i : nat) p s' p' :
  bl_inv (Conf s ts) -> ts !! i = Some p -> _UpdateQuiescedOwnerCountAsGroup2 s p = Next s' p' ->
  bl_inv (Conf s' (<[i := p']> ts)).
Proof.
  intros HI Hi E. bl_facts HI Hi. unfold _UpdateQuiescedOwnerCountAsGroup2 in E.
  destruct p as [| | | | | | | | | | | | | | | | | | | | | |d k|k|cw k|d n k|n k]; try discriminate E;
    cbn [pc_ok] in Hpok.
  - (* the addition *)
    rewrite Hco in E. destruct k.
    + pose proof (amounts_after ts i _ Idle Hi) as Ham'. cbn in Hge, Ham'. rewrite u32_add, u32_eq0 in E by lia.
      destruct (Z.eqb_spec (co + d) 0); destruct Hph; try lia; go E HI Hi w q r Q (co + d).
    + cbn in Hge. subst d. rewrite u32_dec, u32_eq0 in E by lia.
      destruct (Z.eqb_spec (co - 1) 0); destruct Hph; try lia; go E HI Hi w q r Q (co - 1).
  - unfold OSSYNCAssert in E. destruct (_FValidStateTransition _ _ _); [|done].
    destruct k, Hph; go E HI Hi w q r Q co.
  - (* the exchange *)
    cbn [t2] in Hge. at_expected E Hcw w q r Q cw.
    + destruct Hph; try lia. subst q Q. rewrite UpdateAsGroup2_word in E by easy.
      autorewrite with cword in E. cbn [negb andb] in E. rewrite ?andb_true_r in E.
      change (0 =? 0) with true in E. cbn [andb] in E. rewrite ?low_counter in E.
      destruct (Z.eqb_spec r 0) as [H0'|H0']; cbn [andb negb] in E.
      * destruct k; go E HI Hi w false 0 true co.
      * destruct k; go E HI Hi 0 true r true co.
    + destruct k, Hph; go E HI Hi w q r Q co.
  - (* the second addition *)
    destruct Hpok as [-> Hn]. rewrite Hco, u32_add in E.
    pose proof (amounts_after ts i _ Idle Hi) as Ham'. cbn in Hge, Ham'.
    destruct k, Hph; try lia; go E HI Hi w q r Q (co + n).
  - (* the release *)
    cbn in Hge. destruct k, Hph; go E HI Hi w q r Q co.
Qed.
