(* ===== verification/BinaryLockTop.v ===== *)
(** * BinaryLockTop: what the two-group lock guarantees *)

From stdpp Require Import relations.
From S2P Require Import Prelude Threads ControlWord BinaryLock BinaryLockProofs.

(** ** The invariant of every reachable configuration *)

Lemma bl_init_inv n : Z.of_nat n < 2 ^ 15 -> bl_inv (bl_init n).
Proof.
  intros Hn. unfold bl_init, bl_inv, bl_phase. cbn [shared pcs]. rewrite length_replicate.
  split_and!; [by apply Forall_replicate| lia | cbn; lia | cbn; lia |].
  exists 0, false, 0, false, 0. split_and!; [done..|].
  assert (Ht : forall f : pc -> Z, f Idle = 0 -> total f (replicate n Idle) = 0).
  { intros f Hf. apply total_0. intros p Hp. apply elem_of_replicate in Hp as [-> _]. done. }
  rewrite !Ht by done. by apply ph_free.
Qed.

Lemma bl_step_inv c c' : bl_inv c -> BLStep c c' -> bl_inv c'.
Proof.
  intros HI Hst. revert HI. destruct Hst as [o s ts i p s' p' Hi E]. intros HI.
  destruct (decide (p = Idle \/ p = Own1 \/ p = Own2)) as [Hp|Hp].
  - bl_facts HI Hi. destruct Hp as [->|[->| ->]], o; cbn [tstep] in E; try discriminate E;
      destruct Hph; go E HI Hi w q r Q co.
  - destruct p; try (exfalso; tauto); cbn [tstep] in E;
      eauto using Enter1_inv, FTryEnter1_inv, Leave1_inv, Enter2_inv, FTryEnter2_inv, Leave2_inv,
        UpdateAsGroup1_inv, UpdateAsGroup2_inv.
Qed.

Lemma bl_reachable n c : Z.of_nat n < 2 ^ 15 -> rtc BLStep (bl_init n) c -> bl_inv c.
Proof. intros Hn. apply invariant_reachable; [apply bl_step_inv|by apply bl_init_inv]. Qed.

(** ** Assertions *)

(** A transition between words with known fields, checked against the table. *)
Ltac valid :=
  rewrite bl_valid_word by (unfold field in *; first [assumption | lia]);
  repeat match goal with
  | |- context [?x =? 0] => first [replace (x =? 0) with false by lia | replace (x =? 0) with true by lia | destruct (x =? 0)]
  end; reflexivity.

Lemma Enter1_valid s ts (i : nat) : bl_inv (Conf s ts) -> ts !! i = Some E1 ->
  _FValidStateTransition (m_cw s) (Enter1_cwAI (m_cw s)) trEnter1 = true.
Proof.
  intros HI Hi. bl_facts HI Hi. specialize (Hw1 eq_refl). rewrite Hcw, Enter1_word by easy.
  destruct Hph; subst q Q; cbn [state_of]; valid.
Qed.

Lemma FTryEnter1_valid s ts (i : nat) : bl_inv (Conf s ts) -> ts !! i = Some T1 ->
  let cw := m_cw s .& 0xFFFF7FFF in
  (_StateFromControlWord cw <? 0) || _FValidStateTransition cw (Enter1_cwAI cw) trEnter1 = true.
Proof.
  intros HI Hi. bl_facts HI Hi. specialize (Hw1 eq_refl). cbv zeta.
  rewrite Hcw, land_FFFF7FFF, bl_state_word, Enter1_word by easy.
  destruct Hph; subst q Q; destruct (Z.eqb_spec w 0), (Z.eqb_spec r 0); try lia; try reflexivity;
    apply orb_true_iff; right; valid.
Qed.

Lemma Leave1_valid s ts (i : nat) : bl_inv (Conf s ts) -> ts !! i = Some L1 ->
  let cw := m_cw s .& 0xFFFF7FFF in
  (_StateFromControlWord cw <? 0) || _FValidStateTransition cw (Leave1_cwAI cw) trLeave1 = true.
Proof.
  intros HI Hi. bl_facts HI Hi. cbv zeta. rewrite Hcw, land_FFFF7FFF, bl_state_word by easy.
  cbn [a1] in Hge.
  destruct Hph; subst q Q; try lia; destruct (Z.eqb_spec w 0), (Z.eqb_spec r 0); try lia; try reflexivity;
    (apply orb_true_iff; right; rewrite Leave1_word by (unfold field in *; lia);
     destruct (Z.eqb_spec w 1); cbn [negb]; valid).
Qed.

Lemma UpdateAsGroup1_valid s ts (i : nat) k : bl_inv (Conf s ts) -> ts !! i = Some (U1 k) ->
  _FValidStateTransition (m_cw s) (UpdateAsGroup1_cwAI (m_cw s)) trLeave1 = true.
Proof.
  intros HI Hi. bl_facts HI Hi. cbn [t1] in Hge. destruct Hph; subst q Q; try lia.
  rewrite Hcw, UpdateAsGroup1_word by easy. destruct (Z.eqb_spec w 0); valid.
Qed.

Lemma Enter2_valid s ts (i : nat) : bl_inv (Conf s ts) -> ts !! i = Some E2 ->
  _FValidStateTransition (m_cw s) (Enter2_cwAI (m_cw s)) trEnter2 = true.
Proof.
  intros HI Hi. bl_facts HI Hi. specialize (Hr1 eq_refl). rewrite Hcw, Enter2_word by easy.
  destruct Hph; subst q Q; cbn [state_of]; valid.
Qed.

Lemma FTryEnter2_valid s ts (i : nat) : bl_inv (Conf s ts) -> ts !! i = Some T2 ->
  let cw := m_cw s .& 0x7FFFFFFF in
  (_StateFromControlWord cw <? 0) || _FValidStateTransition cw (Enter2_cwAI cw) trEnter2 = true.
Proof.
  intros HI Hi. bl_facts HI Hi. specialize (Hr1 eq_refl). cbv zeta.
  rewrite Hcw, land_7FFFFFFF, bl_state_word, Enter2_word by easy.
  destruct Hph; subst q Q; destruct (Z.eqb_spec w 0), (Z.eqb_spec r 0); try lia; try reflexivity;
    apply orb_true_iff; right; valid.
Qed.

Lemma Leave2_valid s ts (i : nat) : bl_inv (Conf s ts) -> ts !! i = Some L2 ->
  let cw := m_cw s .& 0x7FFFFFFF in
  (_StateFromControlWord cw <? 0) || _FValidStateTransition cw (Leave2_cwAI cw) trLeave2 = true.
Proof.
  intros HI Hi. bl_facts HI Hi. cbv zeta. rewrite Hcw, land_7FFFFFFF, bl_state_word by easy.
  cbn [a2] in Hge.
  destruct Hph; subst q Q; try lia; destruct (Z.eqb_spec w 0), (Z.eqb_spec r 0); try lia; try reflexivity;
    (apply orb_true_iff; right; rewrite Leave2_word by (unfold field in *; lia);
     destruct (Z.eqb_spec r 1); cbn [negb]; valid).
Qed.

Lemma UpdateAsGroup2_valid s ts (i : nat) k : bl_inv (Conf s ts) -> ts !! i = Some (U2 k) ->
  _FValidStateTransition (m_cw s) (UpdateAsGroup2_cwAI (m_cw s)) trLeave2 = true.
Proof.
  intros HI Hi. bl_facts HI Hi. cbn [t2] in Hge. destruct Hph; subst q Q; try lia.
  rewrite Hcw, UpdateAsGroup2_word by easy. destruct (Z.eqb_spec r 0); valid.
Qed.

Lemma bl_tstep_no_fault c (i : nat) p o : bl_inv c -> pcs c !! i = Some p -> tstep o (shared c) p <> Fault.
Proof.
  destruct c as [s ts]. cbn [pcs shared]. intros HI Hi.
  destruct p; cbn [tstep];
    unfold Enter1, FTryEnter1, Leave1, Enter2, FTryEnter2, Leave2,
      _UpdateQuiescedOwnerCountAsGroup1, _UpdateQuiescedOwnerCountAsGroup2, sem_acquire;
    try (rewrite (Enter1_valid _ _ _ HI Hi)); try (rewrite (Enter2_valid _ _ _ HI Hi));
    try (rewrite (FTryEnter1_valid _ _ _ HI Hi)); try (rewrite (FTryEnter2_valid _ _ _ HI Hi));
    try (rewrite (Leave1_valid _ _ _ HI Hi)); try (rewrite (Leave2_valid _ _ _ HI Hi));
    try (rewrite (UpdateAsGroup1_valid _ _ _ _ HI Hi)); try (rewrite (UpdateAsGroup2_valid _ _ _ _ HI Hi));
    cbn [OSSYNCAssert negb]; try done;
    repeat case_match; try done; destruct o; done.
Qed.

(** ** Guarantees *)

(** The thread is a member of group 1, or of group 2, that owns the lock: from the
    return of the call that entered it to the atomic exchange of the call that
    leaves it. *)
Definition FMemberOfGroup1 (p : pc) : bool := match p with Own1 | L1 | L1_cas _ => true | _ => false end.

Definition FMemberOfGroup2 (p : pc) : bool := match p with Own2 | L2 | L2_cas _ => true | _ => false end.

Lemma bl_blocked_waits s p : (forall o, tstep o s p = Blocked) ->
  p = Wait1 /\ m_sem1 s <= 0 \/ p = Wait2 /\ m_sem2 s <= 0.
Proof.
  intros H. pose proof (H OpEnter1) as H1. pose proof (H OpLeave1) as H2. pose proof (H OpLeave2) as H3.
  clear H. destruct p; cbn [tstep] in *; try discriminate;
    unfold Enter1, FTryEnter1, Leave1, Enter2, FTryEnter2, Leave2,
      _UpdateQuiescedOwnerCountAsGroup1, _UpdateQuiescedOwnerCountAsGroup2,
      sem_acquire, OSSYNCAssert in *; repeat case_match; try discriminate; bool_to_prop; auto.
Qed.

Lemma bl_length n c : rtc BLStep (bl_init n) c -> length (pcs c) = n.
Proof. intros ->%reachable_length. apply length_replicate. Qed.

Lemma bl_all_outside n c : Z.of_nat n < 2 ^ 15 -> rtc BLStep (bl_init n) c ->
  (forall (i : nat) p, pcs c !! i = Some p -> p = Idle \/ forall o, tstep o (shared c) p = Blocked) ->
  c = bl_init n.
Proof.
  intros Hn Hr Hb. pose proof (bl_length n c Hr) as Hlen.
  pose proof (bl_reachable n c Hn Hr) as (_ & _ & H1 & H2 & w & q & r & Q & co & Hcw & Hco & Hph).
  destruct c as [s ts]. cbn [shared pcs] in *. unfold bl_phase in Hph.
  assert (Hts : forall p, p ∈ ts -> p = Idle \/ p = Wait1 /\ m_sem1 s <= 0 \/ p = Wait2 /\ m_sem2 s <= 0).
  { intros p [i Hi]%list_elem_of_lookup. destruct (Hb i p Hi) as [->|H]; [auto|]. right. by apply bl_blocked_waits. }
  assert (Hz : forall f : pc -> Z, f Idle = 0 ->
    (m_sem1 s <= 0 -> f Wait1 = 0) -> (m_sem2 s <= 0 -> f Wait2 = 0) -> total f ts = 0).
  { intros f F1 F2 F3. apply total_0. intros p Hp. destruct (Hts p Hp) as [->|[[-> ?]|[-> ?]]]; auto. }
  rewrite (Hz a1), (Hz a2), (Hz g1), (Hz g2), (Hz n1), (Hz p1), (Hz s1), (Hz t1), (Hz n2), (Hz p2),
    (Hz s2), (Hz t2) in Hph by done.
  pose proof (bl_sums_nonneg ts) as Hnn.
  assert (HsW : m_sem1 s = 0).
  { destruct (Z.lt_ge_cases 0 (m_sem1 s)) as [Hs|]; [|lia].
    rewrite (Hz w1) in Hph by (done || lia). destruct Hph; lia. }
  assert (HsR : m_sem2 s = 0).
  { destruct (Z.lt_ge_cases 0 (m_sem2 s)) as [Hs|]; [|lia].
    rewrite (Hz w2) in Hph by (done || lia). destruct Hph; lia. }
  destruct Hph; try lia. unfold bl_init. f_equal.
  - destruct s as [cw cown sw sr]. cbn in *. subst. reflexivity.
  - symmetry. apply replicate_as_elem_of. split; [done|].
    intros p Hp. destruct (list_elem_of_lookup_1 _ _ Hp) as [i Hi].
    pose proof (bl_sums_ge ts i p Hi). destruct (Hts p Hp) as [->|[[-> _]|[-> _]]]; cbn [w1 w2] in *; [done|lia..].
Qed.

(** C30: [CBinaryLock], for fewer than 2^15 threads that enter, try to enter and leave
    as members of either group, in any interleaving of their atomic operations:
    while a member of group 1 owns the lock no member of group 2 does; every
    exchange attempted passes the assertion on control-word transitions; and if every
    thread is outside or cannot take a step, then none waits and the lock is back in
    its constructed state. *)
Theorem binary_lock_correct n c :
  Z.of_nat n < 2 ^ 15 -> rtc BLStep (bl_init n) c ->
  (forall (i j : nat) pi pj, pcs c !! i = Some pi -> pcs c !! j = Some pj ->
     FMemberOfGroup1 pi = true -> FMemberOfGroup2 pj = false) /\
  (forall (i : nat) p o, pcs c !! i = Some p -> tstep o (shared c) p <> Fault) /\
  ((forall (i : nat) p, pcs c !! i = Some p -> p = Idle \/ forall o, tstep o (shared c) p = Blocked) ->
   c = bl_init n).
Proof.
  intros Hn Hr. pose proof (bl_reachable n c Hn Hr) as HI. split_and!.
  - intros i j pi pj Hi Hj Hp. destruct c as [s ts]. cbn [pcs] in *. clear Hr.
    pose proof (total_ge a2 ts j pj ltac:(apply bl_weights_nonneg) Hj) as H2. bl_facts HI Hi.
    assert (Ha : a1 pi = 1) by (destruct pi; done).
    apply not_true_iff_false. intros Hq. assert (Hb : a2 pj = 1) by (destruct pj; done).
    destruct Hph; lia.
  - intros i p o Hi. by apply (bl_tstep_no_fault c i).
  - by apply bl_all_outside.
Qed.

(** A member of group 1 owns the lock and a member of group 2 waits for it. *)
Lemma binary_lock_correct_witness :
  let c := Conf (BLState (cword 0 true 1 true) 1 0 0) [Own1; Wait2] in
  rtc BLStep (bl_init 2) c /\ tstep OpEnter1 (shared c) Own1 <> Fault.
Proof.
  intros c.
  assert (H : rtc BLStep (bl_init 2) c).
  { apply (exec_steps tstep (replicate 3 (0%nat, OpEnter1) ++ replicate 4 (1%nat, OpEnter2))).
    vm_compute. reflexivity. }
  split; [exact H|].
  exact (proj1 (proj2 (binary_lock_correct 2 c ltac:(lia) H)) 0%nat Own1 OpEnter1 eq_refl).
Defined.
