(* ===== verification/SXWLatch.v ===== *)
(** * SXWLatch: the shared / exclusive / write latch of sync.hxx

    [CSXWLatch] has three modes: any number of shared owners, one exclusive owner
    beside them, and one write owner alone.  The control word counts the shared
    owners (or, when they are quiesced, the threads waiting to share) in 15 bits,
    has a flag for the quiesced state, and counts in 16 bits the owners and waiters
    of the other two modes.  A thread that wants to write quiesces the sharers,
    adds their number to [m_cQS], and waits for the last of them.

    A position stands for one latch a thread holds or asks for.  An operation that
    returns [errWaitFor...] leads to the position from which its caller must wait;
    one that returns [errLatchConflict] leads back to where it was called. *)

From S2P Require Import Prelude Threads.

Record CSXWLatchState := SXWState { m_cw : Z; m_cQS : Z; m_semS : Z; m_semX : Z; m_semW : Z }.

Definition CSXWLatchState_ctor : CSXWLatchState := SXWState 0 0 0 0 0.

Definition set_cw (cw : Z) (s : CSXWLatchState) : CSXWLatchState :=
  SXWState cw (m_cQS s) (m_semS s) (m_semX s) (m_semW s).

Definition set_cQS (c : Z) (s : CSXWLatchState) : CSXWLatchState :=
  SXWState (m_cw s) c (m_semS s) (m_semX s) (m_semW s).

Definition set_semS (c : Z) (s : CSXWLatchState) : CSXWLatchState :=
  SXWState (m_cw s) (m_cQS s) c (m_semX s) (m_semW s).

Definition set_semX (c : Z) (s : CSXWLatchState) : CSXWLatchState :=
  SXWState (m_cw s) (m_cQS s) (m_semS s) c (m_semW s).

Definition set_semW (c : Z) (s : CSXWLatchState) : CSXWLatchState :=
  SXWState (m_cw s) (m_cQS s) (m_semS s) (m_semX s) c.

(** [AtomicCompareExchange] and [AtomicExchangeAdd] on the control word; the value
    they return is the word before. *)
Definition cmpxchg_cw (cwBIExpected cwAI : Z) (s : CSXWLatchState) : CSXWLatchState :=
  if m_cw s =? cwBIExpected then set_cw cwAI s else s.

Definition xadd_cw (cwDelta : Z) (s : CSXWLatchState) : CSXWLatchState :=
  set_cw (u32 (m_cw s + cwDelta)) s.

(** ** Checks *)

Inductive iGroup := iSharedGroup | iExclusiveGroup | iWriteGroup | iNoGroup.

(** [AssertValid], whose conditions are enforced in every build but for the
    [switch]. *)
Definition AssertValid (iGroupOwnsOrWaits : iGroup) (s : CSXWLatchState) : bool :=
  negb (m_cw s .& 0x00007FFF =? 0x00007FFF) && negb (m_cw s .& 0xFFFF0000 =? 0xFFFF0000) &&
  match iGroupOwnsOrWaits with
  | iSharedGroup | iNoGroup => true
  | iExclusiveGroup => negb (m_cw s .& 0xFFFF0000 =? 0)
  | iWriteGroup => negb (m_cw s .& 0xFFFF0000 =? 0) && (m_cw s .& 0x00008000 =? 0x00008000)
  end.

(** [FLatched], and the debugging predicates [CSharers], [FSharedLatched],
    [FExclusiveLatched] and [FWriteLatched]. *)
Definition FLatched (s : CSXWLatchState) : bool := negb (m_cw s =? 0).

Definition CSharers (s : CSXWLatchState) : Z :=
  if negb (m_cw s .& 0x00008000 =? 0x8000) then m_cw s .& 0x00007FFF else s32 (m_cQS s).

Definition FSharedLatched (s : CSXWLatchState) : bool := 0x00000001 <=? CSharers s.

Definition FExclusiveLatched (s : CSXWLatchState) : bool :=
  (0x00010000 <=? m_cw s .& 0xFFFF0000) && negb (m_cw s .& 0x00008000 =? 0x8000).

Definition FWriteLatched (s : CSXWLatchState) : bool :=
  (0x00010000 <=? m_cw s .& 0xFFFF0000) && ((m_cw s .& 0x00008000 =? 0x8000) && (m_cQS s =? 0)).

(** ** Positions *)

(** Where [_UpdateQuiescedSharedLatchCount] returns to. *)
Inductive after := AfterUpgrade | AfterRelease.

Inductive pc :=
  | Idle
  (** [ErrAcquireSharedLatch]; it returned [errWaitForSharedLatch]; [WaitForSharedLatch];
      the shared latch is held; [ErrTryAcquireSharedLatch] *)
  | AS | RetWaitS | WaitS | OwnS | TS | TS_cas (cwBIExpected : Z)
  (** the same for the exclusive latch *)
  | AX | RetWaitX | WaitX | OwnX | TX | TX_cas (cwBIExpected : Z)
  (** [ErrTryAcquireWriteLatch], the write latch is held *)
  | TW | OwnW
  (** [ErrUpgradeSharedLatchToExclusiveLatch], [ErrUpgradeSharedLatchToWriteLatch],
      [ErrUpgradeExclusiveLatchToWriteLatch], with the wait for the write latch *)
  | USX | USX_cas (cwBIExpected : Z)
  | USW | USW_cas (cwBIExpected : Z)
  | UXW | UXW_cas (cwBIExpected : Z) | RetWaitW | WaitW
  (** [ErrTryUpgradeSharedLatchToWriteLatch], [ErrTryUpgradeExclusiveLatchToWriteLatch] *)
  | TUSW | TUXW
  (** the downgrades, with the releases of the sharers and of an exclusive waiter *)
  | DWX | DWX_relS (c : Z)
  | DWS | DWS_relS (c : Z) (fX : bool) | DWS_relX
  | DXS | DXS_relX
  (** [ReleaseWriteLatch], [ReleaseExclusiveLatch], [ReleaseSharedLatch] *)
  | RW | RW_relS (c : Z) (fX : bool) | RW_relX
  | RX | RX_relX
  | RS | RS_cas (cwBIExpected : Z)
  (** [_UpdateQuiescedSharedLatchCount]: the addition, the release of the writer *)
  | UQ_add (cQSDelta : Z) (k : after) | UQ_rel (k : after).

#[export] Instance sxw_after_eq_dec : EqDecision after.
Proof. solve_decision. Defined.

#[export] Instance sxw_pc_eq_dec : EqDecision pc.
Proof. solve_decision. Defined.

Abbreviation result := (outcome CSXWLatchState pc).

(** ** Operations *)

Definition ErrAcquireSharedLatch (s : CSXWLatchState) (p : pc) : result :=
  match p with
  | AS =>
      let cwBI := m_cw s in
      let s := xadd_cw 0x00000001 s in
      if negb (cwBI .& 0x00008000 =? 0) then Next s RetWaitS else Next s OwnS
  | _ => Blocked
  end.

Definition WaitForSharedLatch (s : CSXWLatchState) (p : pc) : result :=
  match p with
  | RetWaitS => Next s WaitS
  | WaitS => sem_acquire (m_semS s) (fun c => Next (set_semS c s) OwnS)
  | _ => Blocked
  end.

Definition ErrTryAcquireSharedLatch (s : CSXWLatchState) (p : pc) : result :=
  match p with
  | TS => Next s (TS_cas (m_cw s .& 0xFFFF7FFF))
  | TS_cas cwBIExpected =>
      let cwBI := m_cw s in
      let s := cmpxchg_cw cwBIExpected (u32 (cwBIExpected + 0x00000001)) s in
      if negb (cwBI =? cwBIExpected)
      then if negb (cwBI .& 0x00008000 =? 0) then Next s Idle else Next s TS
      else Next s OwnS
  | _ => Blocked
  end.

Definition ErrAcquireExclusiveLatch (s : CSXWLatchState) (p : pc) : result :=
  match p with
  | AX =>
      let cwBI := m_cw s in
      let s := xadd_cw 0x00010000 s in
      if negb (cwBI .& 0xFFFF0000 =? 0) then Next s RetWaitX else Next s OwnX
  | _ => Blocked
  end.

Definition WaitForExclusiveLatch (s : CSXWLatchState) (p : pc) : result :=
  match p with
  | RetWaitX => Next s WaitX
  | WaitX => sem_acquire (m_semX s) (fun c => Next (set_semX c s) OwnX)
  | _ => Blocked
  end.

Definition ErrTryAcquireExclusiveLatch (s : CSXWLatchState) (p : pc) : result :=
  match p with
  | TX => Next s (TX_cas (m_cw s .& 0x0000FFFF))
  | TX_cas cwBIExpected =>
      let cwBI := m_cw s in
      let s := cmpxchg_cw cwBIExpected (u32 (cwBIExpected + 0x00010000)) s in
      if negb (cwBI =? cwBIExpected)
      then if negb (cwBI .& 0xFFFF0000 =? 0) then Next s Idle else Next s TX
      else Next s OwnX
  | _ => Blocked
  end.

Definition ErrTryAcquireWriteLatch (s : CSXWLatchState) (p : pc) : result :=
  match p with
  | TW =>
      let cwBI := m_cw s in
      let s := cmpxchg_cw 0x00000000 0x00018000 s in
      if negb (cwBI =? 0x00000000) then Next s Idle else Next s OwnW
  | _ => Blocked
  end.

Definition ErrUpgradeSharedLatchToExclusiveLatch (s : CSXWLatchState) (p : pc) : result :=
  match p with
  | USX => Next s (USX_cas (m_cw s .& 0x0000FFFF))
  | USX_cas cwBIExpected =>
      let cwBI := m_cw s in
      let s := cmpxchg_cw cwBIExpected (u32 (cwBIExpected + 0x0000FFFF)) s in
      if negb (cwBI =? cwBIExpected)
      then if negb (cwBI .& 0xFFFF0000 =? 0) then Next s OwnS else Next s USX
      else Next s OwnX
  | _ => Blocked
  end.

Definition return_from (k : after) : pc := match k with AfterUpgrade => RetWaitW | AfterRelease => Idle end.

Definition _UpdateQuiescedSharedLatchCount (s : CSXWLatchState) (p : pc) : result :=
  match p with
  | UQ_add cQSDelta k =>
      let cQSBI := m_cQS s in
      let cQSAI := u32 (cQSBI + cQSDelta) in
      let s := set_cQS cQSAI s in
      if cQSAI =? 0 then Next s (UQ_rel k) else Next s (return_from k)
  | UQ_rel k => Next (set_semW (sem_release 1 (m_semW s)) s) (return_from k)
  | _ => Blocked
  end.

Definition ErrUpgradeSharedLatchToWriteLatch (s : CSXWLatchState) (p : pc) : result :=
  match p with
  | USW => Next s (USW_cas (m_cw s .& 0x0000FFFF))
  | USW_cas cwBIExpected =>
      let cwBI := m_cw s in
      let s := cmpxchg_cw cwBIExpected 0x00018000 s in
      if negb (cwBI =? cwBIExpected)
      then if negb (cwBI .& 0xFFFF0000 =? 0) then Next s OwnS else Next s USW
      else if negb (cwBI =? 0x00000001) then Next s (UQ_add (u32 (cwBI - 1)) AfterUpgrade)
      else Next s OwnW
  | _ => Blocked
  end.

Definition ErrUpgradeExclusiveLatchToWriteLatch (s : CSXWLatchState) (p : pc) : result :=
  match p with
  | UXW => Next s (UXW_cas (m_cw s))
  | UXW_cas cwBIExpected =>
      let cwBI := m_cw s in
      let s := cmpxchg_cw cwBIExpected ((cwBIExpected .& 0xFFFF0000) .| 0x00008000) s in
      if negb (cwBI =? cwBIExpected) then Next s UXW
      else if negb (cwBI .& 0x00007FFF =? 0) then Next s (UQ_add (cwBI .& 0x00007FFF) AfterUpgrade)
      else Next s OwnW
  | _ => Blocked
  end.

Definition WaitForWriteLatch (s : CSXWLatchState) (p : pc) : result :=
  match p with
  | RetWaitW => Next s WaitW
  | WaitW => sem_acquire (m_semW s) (fun c => Next (set_semW c s) OwnW)
  | _ => Blocked
  end.

Definition ErrTryUpgradeSharedLatchToWriteLatch (s : CSXWLatchState) (p : pc) : result :=
  match p with
  | TUSW =>
      let cwBI := m_cw s in
      let s := cmpxchg_cw 0x00000001 0x00018000 s in
      if negb (cwBI =? 0x00000001) then Next s OwnS else Next s OwnW
  | _ => Blocked
  end.

Definition ErrTryUpgradeExclusiveLatchToWriteLatch (s : CSXWLatchState) (p : pc) : result :=
  match p with
  | TUXW =>
      OSSYNCAssert (negb (m_cw s .& 0x7FFF0000 =? 0))
        (let cwBI := m_cw s in
         let s := cmpxchg_cw 0x00010000 0x00018000 s in
         if negb (cwBI =? 0x00010000) then Next s OwnX else Next s OwnW)
  | _ => Blocked
  end.

Definition DowngradeWriteLatchToExclusiveLatch (s : CSXWLatchState) (p : pc) : result :=
  match p with
  | DWX =>
      let cwBI := m_cw s in
      let s := xadd_cw 0xFFFF8000 s in
      if negb (cwBI .& 0x00007FFF =? 0) then Next s (DWX_relS (cwBI .& 0x00007FFF)) else Next s OwnX
  | DWX_relS c => Next (set_semS (sem_release c (m_semS s)) s) OwnX
  | _ => Blocked
  end.

Definition DowngradeWriteLatchToSharedLatch (s : CSXWLatchState) (p : pc) : result :=
  match p with
  | DWS =>
      let cwBI := m_cw s in
      let s := xadd_cw 0xFFFE8001 s in
      let fX := 0x00020000 <=? cwBI in
      if negb (cwBI .& 0x00007FFF =? 0) then Next s (DWS_relS (cwBI .& 0x00007FFF) fX)
      else if fX then Next s DWS_relX else Next s OwnS
  | DWS_relS c fX =>
      let s := set_semS (sem_release c (m_semS s)) s in
      if fX then Next s DWS_relX else Next s OwnS
  | DWS_relX => Next (set_semX (sem_release 1 (m_semX s)) s) OwnS
  | _ => Blocked
  end.

Definition DowngradeExclusiveLatchToSharedLatch (s : CSXWLatchState) (p : pc) : result :=
  match p with
  | DXS =>
      let cwBI := m_cw s in
      let s := xadd_cw 0xFFFF0001 s in
      if 0x00020000 <=? cwBI then Next s DXS_relX else Next s OwnS
  | DXS_relX => Next (set_semX (sem_release 1 (m_semX s)) s) OwnS
  | _ => Blocked
  end.

Definition ReleaseWriteLatch (s : CSXWLatchState) (p : pc) : result :=
  match p with
  | RW =>
      let cwBI := m_cw s in
      let s := xadd_cw 0xFFFE8000 s in
      let fX := 0x00020000 <=? cwBI in
      if negb (cwBI .& 0x00007FFF =? 0) then Next s (RW_relS (cwBI .& 0x00007FFF) fX)
      else if fX then Next s RW_relX else Next s Idle
  | RW_relS c fX =>
      let s := set_semS (sem_release c (m_semS s)) s in
      if fX then Next s RW_relX else Next s Idle
  | RW_relX => Next (set_semX (sem_release 1 (m_semX s)) s) Idle
  | _ => Blocked
  end.

Definition ReleaseExclusiveLatch (s : CSXWLatchState) (p : pc) : result :=
  match p with
  | RX =>
      let cwBI := m_cw s in
      let s := xadd_cw 0xFFFF0000 s in
      if 0x00020000 <=? cwBI then Next s RX_relX else Next s Idle
  | RX_relX => Next (set_semX (sem_release 1 (m_semX s)) s) Idle
  | _ => Blocked
  end.

Definition ReleaseSharedLatch (s : CSXWLatchState) (p : pc) : result :=
  match p with
  | RS => Next s (RS_cas (m_cw s .& 0xFFFF7FFF))
  | RS_cas cwBIExpected =>
      let cwBI := m_cw s in
      let s := cmpxchg_cw cwBIExpected (u32 (cwBIExpected + 0xFFFFFFFF)) s in
      if negb (cwBI =? cwBIExpected)
      then if negb (cwBI .& 0x00008000 =? 0) then Next s (UQ_add 0xFFFFFFFF AfterRelease) else Next s RS
      else Next s Idle
  | _ => Blocked
  end.

(** ** Threads *)

(** The calls of the class's interface.  [AcquireSharedLatch] is
    [ErrAcquireSharedLatch] with the wait, [AcquireWriteLatch] an exclusive
    acquisition followed by an upgrade, and so on. *)
Inductive op :=
  | OpAcquireShared | OpTryAcquireShared | OpAcquireExclusive | OpTryAcquireExclusive | OpTryAcquireWrite
  | OpUpgradeSX | OpUpgradeSW | OpTryUpgradeSW | OpReleaseShared
  | OpUpgradeXW | OpTryUpgradeXW | OpDowngradeXS | OpReleaseExclusive
  | OpDowngradeWX | OpDowngradeWS | OpReleaseWrite.

(** [ReleaseLatch( igroup )]. *)
Definition ReleaseLatch (g : iGroup) : option op :=
  match g with
  | iSharedGroup => Some OpReleaseShared
  | iExclusiveGroup => Some OpReleaseExclusive
  | iWriteGroup => Some OpReleaseWrite
  | iNoGroup => None
  end.

(** The next step of a thread: a call, which a thread makes only as the latching
    discipline allows, or the next atomic access of the call it is in. *)
Definition tstep (o : op) (s : CSXWLatchState) (p : pc) : result :=
  match p with
  | Idle =>
      match o with
      | OpAcquireShared => Next s AS
      | OpTryAcquireShared => Next s TS
      | OpAcquireExclusive => Next s AX
      | OpTryAcquireExclusive => Next s TX
      | OpTryAcquireWrite => Next s TW
      | _ => Blocked
      end
  | OwnS =>
      match o with
      | OpUpgradeSX => Next s USX
      | OpUpgradeSW => Next s USW
      | OpTryUpgradeSW => Next s TUSW
      | OpReleaseShared => Next s RS
      | _ => Blocked
      end
  | OwnX =>
      match o with
      | OpUpgradeXW => Next s UXW
      | OpTryUpgradeXW => Next s TUXW
      | OpDowngradeXS => Next s DXS
      | OpReleaseExclusive => Next s RX
      | _ => Blocked
      end
  | OwnW =>
      match o with
      | OpDowngradeWX => Next s DWX
      | OpDowngradeWS => Next s DWS
      | OpReleaseWrite => Next s RW
      | _ => Blocked
      end
  | AS => ErrAcquireSharedLatch s p
  | RetWaitS | WaitS => WaitForSharedLatch s p
  | TS | TS_cas _ => ErrTryAcquireSharedLatch s p
  | AX => ErrAcquireExclusiveLatch s p
  | RetWaitX | WaitX => WaitForExclusiveLatch s p
  | TX | TX_cas _ => ErrTryAcquireExclusiveLatch s p
  | TW => ErrTryAcquireWriteLatch s p
  | USX | USX_cas _ => ErrUpgradeSharedLatchToExclusiveLatch s p
  | USW | USW_cas _ => ErrUpgradeSharedLatchToWriteLatch s p
  | UXW | UXW_cas _ => ErrUpgradeExclusiveLatchToWriteLatch s p
  | RetWaitW | WaitW => WaitForWriteLatch s p
  | TUSW => ErrTryUpgradeSharedLatchToWriteLatch s p
  | TUXW => ErrTryUpgradeExclusiveLatchToWriteLatch s p
  | DWX | DWX_relS _ => DowngradeWriteLatchToExclusiveLatch s p
  | DWS | DWS_relS _ _ | DWS_relX => DowngradeWriteLatchToSharedLatch s p
  | DXS | DXS_relX => DowngradeExclusiveLatchToSharedLatch s p
  | RW | RW_relS _ _ | RW_relX => ReleaseWriteLatch s p
  | RX | RX_relX => ReleaseExclusiveLatch s p
  | RS | RS_cas _ => ReleaseSharedLatch s p
  | UQ_add _ _ | UQ_rel _ => _UpdateQuiescedSharedLatchCount s p
  end.

Abbreviation SXWStep := (step tstep).

(** [n] threads outside a latch that was just constructed. *)
Definition sxw_init (n : nat) : conf CSXWLatchState pc :=
  Conf CSXWLatchState_ctor (replicate n Idle).
