(* ===== verification/SXWLatchProofs.v ===== *)
(** * SXWLatchProofs: the invariant of the shared / exclusive / write latch *)

From S2P Require Import Prelude Threads ControlWord SXWLatch.

(** ** The control word *)

(** The word with [S] sharers, the flag [q] and [X] owners and waiters of the other modes. *)
Definition sword (S : Z) (q : bool) (X : Z) : Z := S + 2 ^ 15 * (Z.b2z q + 2 ^ 1 * X).

Definition fieldX (x : Z) : Prop := 0 <= x < 2 ^ 16.

Lemma sword_range S q X : field S -> fieldX X -> 0 <= sword S q X < 2 ^ 32.
Proof. unfold field, fieldX, sword. destruct q; cbn [Z.b2z]; lia. Qed.

Lemma land_sword S q X mS mq mX : field S -> fieldX X ->
  sword S q X .& sword (counter_mask mS) mq (if mX : bool then 0xFFFF else 0) =
  sword (if mS then S else 0) (q && mq) (if mX then X else 0).
Proof.
  intros HS HX.
  assert (Hb : forall b, 0 <= Z.b2z b < 2 ^ 1) by (intros []; cbn; lia).
  assert (Hc : forall b, 0 <= counter_mask b < 2 ^ 15) by (intros []; cbn; lia).
  unfold sword. rewrite !land_split by (first [lia | easy | apply Hb | apply Hc]).
  rewrite land_counter, land_b2z by easy. destruct mX; [|by rewrite Z.land_0_r].
  change 0xFFFF with (Z.ones 16). rewrite Z.land_ones, Z.mod_small by easy. easy.
Qed.

Create HintDb sword.

Section Masks.
Context (S : Z) (q : bool) (X : Z) (HS : field S) (HX : fieldX X).

Ltac mask a b c :=
  let E := fresh in
  pose proof (land_sword S q X a b c HS HX) as E; rewrite ?andb_true_r, ?andb_false_r in E; exact E.

Lemma sland_00008000 : sword S q X .& 0x00008000 = sword 0 q 0.
Proof. mask false true false. Qed.
Lemma sland_00007FFF : sword S q X .& 0x00007FFF = sword S false 0.
Proof. mask true false false. Qed.
Lemma sland_FFFF7FFF : sword S q X .& 0xFFFF7FFF = sword S false X.
Proof. mask true false true. Qed.
Lemma sland_0000FFFF : sword S q X .& 0x0000FFFF = sword S q 0.
Proof. mask true true false. Qed.
Lemma sland_FFFF0000 : sword S q X .& 0xFFFF0000 = sword 0 false X.
Proof. mask false false true. Qed.

Lemma slor_00008000 : sword S q X .| 0x00008000 = sword S true X.
Proof.
  pose proof (Z.add_lor_land (sword S q X) 0x00008000) as E. rewrite sland_00008000 in E.
  unfold sword in *. destruct q; cbn [Z.b2z] in *; lia.
Qed.

Lemma sword_eq0 : (sword S q X =? 0) = (S =? 0) && negb q && (X =? 0).
Proof.
  unfold sword, field, fieldX in *. apply eq_true_iff_eq.
  rewrite Z.eqb_eq, !andb_true_iff, !negb_true_iff, !Z.eqb_eq. destruct q; cbn [Z.b2z]; lia.
Qed.

(** [cwBI >= 0x00020000]. *)
Lemma sword_ge2 : (0x00020000 <=? sword S q X) = (2 <=? X).
Proof. unfold sword, field, fieldX in *. destruct q; cbn [Z.b2z]; lia. Qed.
End Masks.

Lemma slow S : sword S false 0 = S.
Proof. unfold sword. cbn [Z.b2z]. lia. Qed.

Lemma sflag q : (sword 0 q 0 =? 0) = negb q.
Proof. by destruct q. Qed.

Lemma sword_inj S q X S' q' X' : field S -> fieldX X -> field S' -> fieldX X' ->
  sword S q X = sword S' q' X' -> S = S' /\ q = q' /\ X = X'.
Proof. unfold sword, field, fieldX. intros ? ? ? ? E. destruct q, q'; cbn [Z.b2z] in E; split_and!; try done; lia. Qed.

(** An addition to the word, with the carries it makes. *)
Lemma sword_add S q X d k S' q' X' : field S' -> fieldX X' ->
  sword S q X + d = sword S' q' X' + k * 2 ^ 32 -> u32 (sword S q X + d) = sword S' q' X'.
Proof. intros HS HX E. apply (u32_eq k); [by apply sword_range|exact E]. Qed.

(** ** What a thread contributes *)

(** It holds a shared latch, will release that many sharers, waits to share. *)
Definition aS (p : pc) : Z :=
  match p with
  | OwnS | USX | USX_cas _ | USW | USW_cas _ | TUSW | RS | RS_cas _ | DWS_relS _ _ | DWS_relX | DXS_relX => 1
  | _ => 0
  end.

Definition gS (p : pc) : Z :=
  match p with DWX_relS c | DWS_relS c _ | RW_relS c _ => Z.max 0 c | _ => 0 end.

Definition wS (p : pc) : Z := match p with RetWaitS | WaitS => 1 | _ => 0 end.

(** The same for the exclusive latch. *)
Definition aX (p : pc) : Z :=
  match p with OwnX | UXW | UXW_cas _ | TUXW | DWX_relS _ | DXS | RX => 1 | _ => 0 end.

Definition gX (p : pc) : Z :=
  match p with DWS_relS _ true | DWS_relX | DXS_relX | RW_relS _ true | RW_relX | RX_relX => 1 | _ => 0 end.

Definition wX (p : pc) : Z := match p with RetWaitX | WaitX => 1 | _ => 0 end.

(** It holds the write latch, waits for it having quiesced the sharers, will
    release the waiting writer. *)
Definition oW (p : pc) : Z := match p with OwnW | DWX | DWS | RW => 1 | _ => 0 end.

Definition wW (p : pc) : Z :=
  match p with RetWaitW | WaitW | UQ_add _ AfterUpgrade | UQ_rel AfterUpgrade => 1 | _ => 0 end.

Definition gW (p : pc) : Z := match p with UQ_rel _ => 1 | _ => 0 end.

(** Its pending update of [m_cQS]: an addition [nS] of the amount [pS], or a
    subtraction [sS] of one. *)
Definition nS (p : pc) : Z := match p with UQ_add _ AfterUpgrade => 1 | _ => 0 end.

Definition pS (p : pc) : Z := match p with UQ_add d AfterUpgrade => Z.max 0 d | _ => 0 end.

Definition sS (p : pc) : Z := match p with UQ_add _ AfterRelease => 1 | _ => 0 end.

(** The arguments a thread carries. *)
Definition pc_ok (p : pc) : Prop :=
  match p with
  | TS_cas cw | RS_cas cw => cw .& 0x00008000 = 0
  | TX_cas cw | USX_cas cw | USW_cas cw => cw .& 0xFFFF0000 = 0
  | UQ_add d AfterUpgrade => 0 < d < 2 ^ 15
  | UQ_add d AfterRelease => d = 0xFFFFFFFF
  | DWX_relS c | DWS_relS c _ | RW_relS c _ => 0 < c < 2 ^ 15
  | _ => True
  end.

(** ** Phases

    [AS] sharers own the latch or were given it, [uS] wait and were not; the
    exclusive and the write mode together have [AX] and [uX].  [co] is the signed
    value of [m_cQS]. *)

Inductive phase (S : Z) (q : bool) (X co AS uS oW wW grW nS pS sS : Z) : Prop :=
  | ph_open :
      q = false -> oW = 0 -> wW = 0 -> grW = 0 -> S = AS -> uS = 0 -> co = 0 ->
      nS = 0 -> pS = 0 -> sS = 0 -> phase S q X co AS uS oW wW grW nS pS sS
  | ph_write :
      q = true -> oW = 1 -> wW = 0 -> grW = 0 -> S = uS -> AS = 0 -> co = 0 ->
      nS = 0 -> pS = 0 -> sS = 0 -> phase S q X co AS uS oW wW grW nS pS sS
  | ph_drain :
      q = true -> oW = 0 -> wW = 1 -> grW = 0 -> S = uS -> co + pS = AS + sS -> pS < 2 ^ 15 ->
      (nS = 0 /\ 0 < co \/ nS = 1 /\ co <= 0) -> phase S q X co AS uS oW wW grW nS pS sS
  | ph_granted :
      q = true -> oW = 0 -> wW = 1 -> grW = 1 -> S = uS -> AS = 0 -> co = 0 ->
      nS = 0 -> pS = 0 -> sS = 0 -> phase S q X co AS uS oW wW grW nS pS sS.

(** One thread has the exclusive or the write mode if any asks for it. *)
Definition exclusive (X AX uX : Z) : Prop := X = 0 /\ AX = 0 /\ uX = 0 \/ 0 < X /\ AX = 1 /\ uX = X - 1.

Definition sxw_phase (s : CSXWLatchState) (ts : list pc) (S : Z) (q : bool) (X co : Z) : Prop :=
  exclusive X (total aX ts + total oW ts + total wW ts + total gX ts + m_semX s)
    (total wX ts - total gX ts - m_semX s) /\
  phase S q X co (total aS ts + total gS ts + m_semS s) (total wS ts - total gS ts - m_semS s)
    (total oW ts) (total wW ts) (total gW ts + m_semW s) (total nS ts) (total pS ts) (total sS ts).

Definition sxw_inv (c : conf CSXWLatchState pc) : Prop :=
  let s := shared c in
  let ts := pcs c in
  Forall pc_ok ts /\ Z.of_nat (length ts) < 2 ^ 15 - 1 /\
  0 <= m_semS s /\ 0 <= m_semX s /\ 0 <= m_semW s /\
  exists S q X co, m_cw s = sword S q X /\ m_cQS s = u32 co /\ 0 <= S /\ sxw_phase s ts S q X co.

(** ** Facts about the sums *)

Ltac cases_pc p := destruct p; repeat match goal with k : after |- _ => destruct k | b : bool |- _ => destruct b end.

Lemma sxw_weights_nonneg p :
  0 <= aS p /\ 0 <= gS p /\ 0 <= wS p /\ 0 <= aX p /\ 0 <= gX p /\ 0 <= wX p /\
  0 <= oW p /\ 0 <= wW p /\ 0 <= gW p /\ 0 <= nS p /\ 0 <= pS p /\ 0 <= sS p.
Proof. cases_pc p; cbn; lia. Qed.

Lemma sxw_sums_ge ts (i : nat) p : ts !! i = Some p ->
  aS p <= total aS ts /\ gS p <= total gS ts /\ wS p <= total wS ts /\
  aX p <= total aX ts /\ gX p <= total gX ts /\ wX p <= total wX ts /\
  oW p <= total oW ts /\ wW p <= total wW ts /\ gW p <= total gW ts /\
  nS p <= total nS ts /\ pS p <= total pS ts /\ sS p <= total sS ts.
Proof. intros H. split_and!; eapply total_ge; try exact H; apply sxw_weights_nonneg. Qed.

Lemma sxw_sums_nonneg ts :
  0 <= total aS ts /\ 0 <= total gS ts /\ 0 <= total wS ts /\
  0 <= total aX ts /\ 0 <= total gX ts /\ 0 <= total wX ts /\
  0 <= total oW ts /\ 0 <= total wW ts /\ 0 <= total gW ts /\
  0 <= total nS ts /\ 0 <= total pS ts /\ 0 <= total sS ts.
Proof. split_and!; apply total_nonneg, sxw_weights_nonneg. Qed.

(** A thread is in at most one of these roles. *)
Definition roleS (p : pc) : Z := aS p + wS p + sS p.
Definition roleX (p : pc) : Z := aX p + oW p + wW p + wX p.

Lemma sxw_role_le p : roleS p <= 1 /\ roleX p <= 1.
Proof. unfold roleS, roleX. cases_pc p; cbn; lia. Qed.

Lemma sxw_roles_le ts :
  total aS ts + total wS ts + total sS ts <= Z.of_nat (length ts) /\
  total aX ts + total oW ts + total wW ts + total wX ts <= Z.of_nat (length ts).
Proof. rewrite <- !total_add, <- total_1. split; apply total_le; apply sxw_role_le. Qed.

Lemma sxw_amounts ts : total nS ts = 0 -> total pS ts = 0.
Proof.
  intros H. apply total_0. intros p Hp. apply list_elem_of_lookup in Hp as [i Hi].
  pose proof (sxw_sums_ge ts i p Hi). pose proof (sxw_weights_nonneg p). cases_pc p; cbn in *; lia.
Qed.

Lemma sxw_amounts_after ts (i : nat) p p' : ts !! i = Some p ->
  total nS ts - nS p + nS p' = 0 -> total pS ts - pS p + pS p' = 0.
Proof. intros Hi. pose proof (sxw_amounts (<[i := p']> ts)) as H. by rewrite !(total_insert _ _ _ _ _ Hi) in H. Qed.

(** ** Preservation *)

Lemma sxw_inv_intro s ts s' (i : nat) p p' S q X co :
  sxw_inv (Conf s ts) -> ts !! i = Some p -> pc_ok p' ->
  0 <= m_semS s' -> 0 <= m_semX s' -> 0 <= m_semW s' ->
  m_cw s' = sword S q X -> m_cQS s' = u32 co -> 0 <= S ->
  exclusive X
    (total aX ts - aX p + aX p' + (total oW ts - oW p + oW p') + (total wW ts - wW p + wW p') +
     (total gX ts - gX p + gX p') + m_semX s')
    (total wX ts - wX p + wX p' - (total gX ts - gX p + gX p') - m_semX s') ->
  phase S q X co
    (total aS ts - aS p + aS p' + (total gS ts - gS p + gS p') + m_semS s')
    (total wS ts - wS p + wS p' - (total gS ts - gS p + gS p') - m_semS s')
    (total oW ts - oW p + oW p') (total wW ts - wW p + wW p') (total gW ts - gW p + gW p' + m_semW s')
    (total nS ts - nS p + nS p') (total pS ts - pS p + pS p') (total sS ts - sS p + sS p') ->
  sxw_inv (Conf s' (<[i := p']> ts)).
Proof.
  intros (Hok & Hlen & _) Hi Hp' H1 H2 H3 Hcw Hco HS Hex Hph. unfold sxw_inv, sxw_phase. cbn [shared pcs].
  rewrite length_insert. split_and!; try easy; [by apply Forall_insert|].
  exists S, q, X, co. rewrite !(total_insert _ _ _ _ _ Hi). split_and!; easy.
Qed.

Lemma sxw_facts s ts (i : nat) p : sxw_inv (Conf s ts) -> ts !! i = Some p ->
  exists S q X co, m_cw s = sword S q X /\ m_cQS s = u32 co /\ sxw_phase s ts S q X co /\
  field S /\ fieldX X /\ S < 2 ^ 15 - 1 /\ X < 2 ^ 15 - 1 /\ - 2 ^ 16 < co < 2 ^ 16 /\
  0 <= m_semS s /\ 0 <= m_semX s /\ 0 <= m_semW s /\ pc_ok p.
Proof.
  intros (Hok & Hlen & H1 & H2 & H3 & S & q & X & co & Hcw & Hco & HS & Hex & Hph) Hi. cbn [shared pcs] in *.
  exists S, q, X, co. pose proof (sxw_sums_nonneg ts). pose proof (sxw_roles_le ts) as [Hl1 Hl2].
  assert (Hpc : pc_ok p) by by eapply Forall_lookup_1.
  unfold field, fieldX. split_and!; try done; unfold exclusive in Hex; destruct Hph; lia.
Qed.

Ltac sxw_facts H Hi :=
  destruct (sxw_facts _ _ _ _ H Hi) as
    (S & q & X & co & Hcw & Hco & [Hex Hph] & HS & HX & HS1 & HX1 & Hcor & HsS & HsX & HsW & Hpok);
  pose proof (sxw_sums_ge _ _ _ Hi) as Hge;
  match type of Hi with ?ts !! _ = _ => pose proof (sxw_sums_nonneg ts) as Hnn; pose proof (sxw_amounts ts) as Ham end;
  unfold exclusive in Hex.

Ltac weights := cbn [aS gS wS aX gX wX oW wW gW nS pS sS pc_ok return_from] in *.

Ltac phases :=
  first [ apply ph_open; first [assumption | reflexivity | lia]
        | apply ph_write; first [assumption | reflexivity | lia]
        | apply ph_granted; first [assumption | reflexivity | lia]
        | apply ph_drain; first [assumption | reflexivity | lia] ].

Ltac fields := cbn [m_semS m_semX m_semW m_cw m_cQS set_cw set_cQS set_semS set_semX set_semW xadd_cw] in *.

(** An addition to the word gives the word in the goal, with the carry [k]. *)
Ltac word_add k := apply (u32_eq k); [apply sword_range; unfold field, fieldX; lia | unfold sword; cbn [Z.b2z]; lia].

(** The step leads to the fields and count given. *)
Ltac go E HI Hi Hcw S q X co :=
  injection E as <- <-; unfold sem_release, field, fieldX in *; weights;
  apply (sxw_inv_intro _ _ _ _ _ _ S q X co HI Hi); fields; weights; unfold exclusive;
  [ cbn [pc_ok return_from]; first [exact I | lia | rewrite <- Z.land_assoc; apply Z.land_0_r]
  | lia | lia | lia
  | first [assumption | exact eq_refl | rewrite ?Hcw; first [word_add 0 | word_add 1]]
  | first [assumption | exact eq_refl] | lia | lia | phases ].

Ltac masks E := autorewrite with sword in E; rewrite ?slow in E.

(** The latch's word is the one the thread expects. *)
Ltac at_expected E Hcw S q X e :=
  unfold cmpxchg_cw in E; rewrite Hcw in E;
  destruct (Z.eqb_spec (sword S q X) e) as [<-|_]; cbn [andb negb] in E.

Lemma ErrAcquireSharedLatch_inv s ts (i : nat) p s' p' :
  sxw_inv (Conf s ts) -> ts !! i = Some p -> ErrAcquireSharedLatch s p = Next s' p' ->
  sxw_inv (Conf s' (<[i := p']> ts)).
Proof.
  intros HI Hi E. sxw_facts HI Hi. unfold ErrAcquireSharedLatch in E. destruct p; try discriminate E.
  rewrite Hcw, sland_00008000, sflag, negb_involutive in E by easy.
  destruct Hph; subst q; go E HI Hi Hcw (S + 1) false X co || go E HI Hi Hcw (S + 1) true X co.
Qed.

Lemma WaitForSharedLatch_inv s ts (i : nat) p s' p' :
  sxw_inv (Conf s ts) -> ts !! i = Some p -> WaitForSharedLatch s p = Next s' p' ->
  sxw_inv (Conf s' (<[i := p']> ts)).
Proof.
  intros HI Hi E. sxw_facts HI Hi. unfold WaitForSharedLatch, sem_acquire in E. destruct p; try discriminate E.
  - destruct Hph; go E HI Hi Hcw S q X co.
  - destruct (Z.ltb_spec 0 (m_semS s)); [|done]. destruct Hph; go E HI Hi Hcw S q X co.
Qed.

Lemma ErrTryAcquireSharedLatch_inv s ts (i : nat) p s' p' :
  sxw_inv (Conf s ts) -> ts !! i = Some p -> ErrTryAcquireSharedLatch s p = Next s' p' ->
  sxw_inv (Conf s' (<[i := p']> ts)).
Proof.
  intros HI Hi E. sxw_facts HI Hi. unfold ErrTryAcquireSharedLatch in E. destruct p; try discriminate E.
  - destruct Hph; go E HI Hi Hcw S q X co.
  - at_expected E Hcw S q X cwBIExpected.
    + cbn [pc_ok] in Hpok. apply Z.eqb_eq in Hpok. rewrite sland_00008000, sflag in Hpok by easy. bool_to_prop.
      destruct Hph; subst q; try done; go E HI Hi Hcw (S + 1) false X co.
    + destruct (negb _); destruct Hph; go E HI Hi Hcw S q X co.
Qed.

Lemma ErrAcquireExclusiveLatch_inv s ts (i : nat) p s' p' :
  sxw_inv (Conf s ts) -> ts !! i = Some p -> ErrAcquireExclusiveLatch s p = Next s' p' ->
  sxw_inv (Conf s' (<[i := p']> ts)).
Proof.
  intros HI Hi E. sxw_facts HI Hi. unfold ErrAcquireExclusiveLatch in E. destruct p; try discriminate E.
  rewrite Hcw, sland_FFFF0000, sword_eq0 in E by (unfold field; easy || lia).
  destruct (Z.eqb_spec X 0); cbn in E; destruct Hph; go E HI Hi Hcw S q (X + 1) co.
Qed.

Lemma WaitForExclusiveLatch_inv s ts (i : nat) p s' p' :
  sxw_inv (Conf s ts) -> ts !! i = Some p -> WaitForExclusiveLatch s p = Next s' p' ->
  sxw_inv (Conf s' (<[i := p']> ts)).
Proof.
  intros HI Hi E. sxw_facts HI Hi. unfold WaitForExclusiveLatch in E. destruct p; try discriminate E.
  - destruct Hph; go E HI Hi Hcw S q X co.
  - unfold sem_acquire in E. destruct (Z.ltb_spec 0 (m_semX s)); [|done]. destruct Hph; go E HI Hi Hcw S q X co.
Qed.

Lemma ErrTryAcquireExclusiveLatch_inv s ts (i : nat) p s' p' :
  sxw_inv (Conf s ts) -> ts !! i = Some p -> ErrTryAcquireExclusiveLatch s p = Next s' p' ->
  sxw_inv (Conf s' (<[i := p']> ts)).
Proof.
  intros HI Hi E. sxw_facts HI Hi. unfold ErrTryAcquireExclusiveLatch in E. destruct p; try discriminate E.
  - destruct Hph; go E HI Hi Hcw S q X co.
  - at_expected E Hcw S q X cwBIExpected.
    + cbn [pc_ok] in Hpok. apply Z.eqb_eq in Hpok.
      rewrite sland_FFFF0000, sword_eq0 in Hpok by (unfold field; easy || lia). cbn in Hpok. apply Z.eqb_eq in Hpok. subst X.
      destruct Hph; try lia; go E HI Hi Hcw S q 1 co.
    + destruct (negb _); destruct Hph; go E HI Hi Hcw S q X co.
Qed.

Lemma ErrTryAcquireWriteLatch_inv s ts (i : nat) p s' p' :
  sxw_inv (Conf s ts) -> ts !! i = Some p -> ErrTryAcquireWriteLatch s p = Next s' p' ->
  sxw_inv (Conf s' (<[i := p']> ts)).
Proof.
  intros HI Hi E. sxw_facts HI Hi. unfold ErrTryAcquireWriteLatch in E. destruct p; try discriminate E.
  unfold cmpxchg_cw in E. rewrite Hcw, sword_eq0 in E by easy.
  destruct (Z.eqb_spec S 0), q, (Z.eqb_spec X 0); cbn [andb negb] in E;
    destruct Hph; try lia; try discriminate;
    first [go E HI Hi Hcw 0 true 1 co | go E HI Hi Hcw S true X co | go E HI Hi Hcw S false X co].
Qed.

Lemma ErrUpgradeSharedLatchToExclusiveLatch_inv s ts (i : nat) p s' p' :
  sxw_inv (Conf s ts) -> ts !! i = Some p -> ErrUpgradeSharedLatchToExclusiveLatch s p = Next s' p' ->
  sxw_inv (Conf s' (<[i := p']> ts)).
Proof.
  intros HI Hi E. sxw_facts HI Hi. unfold ErrUpgradeSharedLatchToExclusiveLatch in E. destruct p; try discriminate E.
  - destruct Hph; go E HI Hi Hcw S q X co.
  - at_expected E Hcw S q X cwBIExpected.
    + cbn [pc_ok] in Hpok. apply Z.eqb_eq in Hpok.
      rewrite sland_FFFF0000, sword_eq0 in Hpok by (unfold field; easy || lia). cbn in Hpok. apply Z.eqb_eq in Hpok. subst X.
      destruct Hph; weights; try lia; go E HI Hi Hcw (S - 1) q 1 co.
    + destruct (negb _); destruct Hph; go E HI Hi Hcw S q X co.
Qed.

Lemma ErrUpgradeSharedLatchToWriteLatch_inv s ts (i : nat) p s' p' :
  sxw_inv (Conf s ts) -> ts !! i = Some p -> ErrUpgradeSharedLatchToWriteLatch s p = Next s' p' ->
  sxw_inv (Conf s' (<[i := p']> ts)).
Proof.
  intros HI Hi E. sxw_facts HI Hi. unfold ErrUpgradeSharedLatchToWriteLatch in E. destruct p; try discriminate E.
  - destruct Hph; go E HI Hi Hcw S q X co.
  - at_expected E Hcw S q X cwBIExpected.
    + cbn [pc_ok] in Hpok. apply Z.eqb_eq in Hpok.
      rewrite sland_FFFF0000, sword_eq0 in Hpok by (unfold field; easy || lia). cbn in Hpok. apply Z.eqb_eq in Hpok. subst X.
      destruct Hph; weights; try lia. subst q. rewrite slow in E.
      destruct (Z.eqb_spec S 1) as [H1'|H1']; cbn [negb] in E; [go E HI Hi Hcw 0 true 1 co|].
      rewrite wrapu_small in E by (unfold in_u, field in *; lia). go E HI Hi Hcw 0 true 1 co.
    + destruct (negb _); destruct Hph; go E HI Hi Hcw S q X co.
Qed.

Lemma ErrUpgradeExclusiveLatchToWriteLatch_inv s ts (i : nat) p s' p' :
  sxw_inv (Conf s ts) -> ts !! i = Some p -> ErrUpgradeExclusiveLatchToWriteLatch s p = Next s' p' ->
  sxw_inv (Conf s' (<[i := p']> ts)).
Proof.
  intros HI Hi E. sxw_facts HI Hi. unfold ErrUpgradeExclusiveLatchToWriteLatch in E. destruct p; try discriminate E.
  - destruct Hph; go E HI Hi Hcw S q X co.
  - at_expected E Hcw S q X cwBIExpected.
    + rewrite sland_FFFF0000, slor_00008000, sland_00007FFF, slow in E by (unfold field; easy || lia).
      destruct Hph; weights; try lia. subst q.
      destruct (Z.eqb_spec S 0); cbn [negb] in E; go E HI Hi Hcw 0 true X co.
    + destruct Hph; go E HI Hi Hcw S q X co.
Qed.

Lemma WaitForWriteLatch_inv s ts (i : nat) p s' p' :
  sxw_inv (Conf s ts) -> ts !! i = Some p -> WaitForWriteLatch s p = Next s' p' ->
  sxw_inv (Conf s' (<[i := p']> ts)).
Proof.
  intros HI Hi E. sxw_facts HI Hi. unfold WaitForWriteLatch in E. destruct p; try discriminate E.
  - destruct Hph; go E HI Hi Hcw S q X co.
  - unfold sem_acquire in E. destruct (Z.ltb_spec 0 (m_semW s)); [|done]. destruct Hph; try lia; go E HI Hi Hcw S q X co.
Qed.

Lemma ErrTryUpgradeSharedLatchToWriteLatch_inv s ts (i : nat) p s' p' :
  sxw_inv (Conf s ts) -> ts !! i = Some p -> ErrTryUpgradeSharedLatchToWriteLatch s p = Next s' p' ->
  sxw_inv (Conf s' (<[i := p']> ts)).
Proof.
  intros HI Hi E. sxw_facts HI Hi. unfold ErrTryUpgradeSharedLatchToWriteLatch in E. destruct p; try discriminate E.
  unfold cmpxchg_cw in E. rewrite Hcw in E. weights.
  destruct (Z.eqb_spec (sword S q X) 1) as [E1|E1]; cbn [negb] in E.
  - apply (sword_inj S q X 1 false 0) in E1 as (-> & -> & ->); [|unfold field, fieldX in *; lia..].
    destruct Hph; try done; go E HI Hi Hcw 0 true 1 co.
  - destruct Hph; go E HI Hi Hcw S q X co.
Qed.

Lemma ErrTryUpgradeExclusiveLatchToWriteLatch_inv s ts (i : nat) p s' p' :
  sxw_inv (Conf s ts) -> ts !! i = Some p -> ErrTryUpgradeExclusiveLatchToWriteLatch s p = Next s' p' ->
  sxw_inv (Conf s' (<[i := p']> ts)).
Proof.
  intros HI Hi E. sxw_facts HI Hi. unfold ErrTryUpgradeExclusiveLatchToWriteLatch in E. destruct p; try discriminate E.
  unfold OSSYNCAssert in E. destruct (negb (_ .& 2147418112 =? 0)); [|done].
  unfold cmpxchg_cw in E. rewrite Hcw in E. weights.
  destruct (Z.eqb_spec (sword S q X) 65536) as [E1|E1]; cbn [negb] in E.
  - apply (sword_inj S q X 0 false 1) in E1 as (-> & -> & ->); [|unfold field, fieldX in *; lia..].
    destruct Hph; try done; go E HI Hi Hcw 0 true 1 co.
  - destruct Hph; go E HI Hi Hcw S q X co.
Qed.

Lemma DowngradeWriteLatchToExclusiveLatch_inv s ts (i : nat) p s' p' :
  sxw_inv (Conf s ts) -> ts !! i = Some p -> DowngradeWriteLatchToExclusiveLatch s p = Next s' p' ->
  sxw_inv (Conf s' (<[i := p']> ts)).
Proof.
  intros HI Hi E. sxw_facts HI Hi. unfold DowngradeWriteLatchToExclusiveLatch in E. destruct p; try discriminate E.
  - rewrite Hcw, sland_00007FFF, slow in E by easy.
    destruct Hph; weights; try lia. subst q.
    destruct (Z.eqb_spec S 0); cbn [negb] in E; go E HI Hi Hcw S false X co.
  - destruct Hph; go E HI Hi Hcw S q X co.
Qed.

Lemma DowngradeWriteLatchToSharedLatch_inv s ts (i : nat) p s' p' :
  sxw_inv (Conf s ts) -> ts !! i = Some p -> DowngradeWriteLatchToSharedLatch s p = Next s' p' ->
  sxw_inv (Conf s' (<[i := p']> ts)).
Proof.
  intros HI Hi E. sxw_facts HI Hi. unfold DowngradeWriteLatchToSharedLatch in E. destruct p; try discriminate E.
  - rewrite Hcw, sland_00007FFF, slow, sword_ge2 in E by easy.
    destruct Hph; weights; try lia. subst q.
    destruct (Z.eqb_spec S 0), (Z.leb_spec 2 X); cbn [negb] in E; go E HI Hi Hcw (S + 1) false (X - 1) co.
  - destruct fX, Hph; go E HI Hi Hcw S q X co.
  - destruct Hph; go E HI Hi Hcw S q X co.
Qed.

Lemma DowngradeExclusiveLatchToSharedLatch_inv s ts (i : nat) p s' p' :
  sxw_inv (Conf s ts) -> ts !! i = Some p -> DowngradeExclusiveLatchToSharedLatch s p = Next s' p' ->
  sxw_inv (Conf s' (<[i := p']> ts)).
Proof.
  intros HI Hi E. sxw_facts HI Hi. unfold DowngradeExclusiveLatchToSharedLatch in E. destruct p; try discriminate E.
  - rewrite Hcw, sword_ge2 in E by easy.
    destruct Hph; weights; try lia. subst q.
    destruct (Z.leb_spec 2 X); go E HI Hi Hcw (S + 1) false (X - 1) co.
  - destruct Hph; go E HI Hi Hcw S q X co.
Qed.

Lemma ReleaseWriteLatch_inv s ts (i : nat) p s' p' :
  sxw_inv (Conf s ts) -> ts !! i = Some p -> ReleaseWriteLatch s p = Next s' p' ->
  sxw_inv (Conf s' (<[i := p']> ts)).
Proof.
  intros HI Hi E. sxw_facts HI Hi. unfold ReleaseWriteLatch in E. destruct p; try discriminate E.
  - rewrite Hcw, sland_00007FFF, slow, sword_ge2 in E by easy.
    destruct Hph; weights; try lia. subst q.
    destruct (Z.eqb_spec S 0), (Z.leb_spec 2 X); cbn [negb] in E; go E HI Hi Hcw S false (X - 1) co.
  - destruct fX, Hph; go E HI Hi Hcw S q X co.
  - destruct Hph; go E HI Hi Hcw S q X co.
Qed.

Lemma ReleaseExclusiveLatch_inv s ts (i : nat) p s' p' :
  sxw_inv (Conf s ts) -> ts !! i = Some p -> ReleaseExclusiveLatch s p = Next s' p' ->
  sxw_inv (Conf s' (<[i := p']> ts)).
Proof.
  intros HI Hi E. sxw_facts HI Hi. unfold ReleaseExclusiveLatch in E. destruct p; try discriminate E.
  - rewrite Hcw, sword_ge2 in E by easy.
    destruct Hph; weights; try lia. subst q.
    destruct (Z.leb_spec 2 X); go E HI Hi Hcw S false (X - 1) co.
  - destruct Hph; go E HI Hi Hcw S q X co.
Qed.

Lemma ReleaseSharedLatch_inv s ts (i : nat) p s' p' :
  sxw_inv (Conf s ts) -> ts !! i = Some p -> ReleaseSharedLatch s p = Next s' p' ->
  sxw_inv (Conf s' (<[i := p']> ts)).
Proof.
  intros HI Hi E. sxw_facts HI Hi. unfold ReleaseSharedLatch in E. destruct p; try discriminate E.
  - destruct Hph; go E HI Hi Hcw S q X co.
  - at_expected E Hcw S q X cwBIExpected.
    + cbn [pc_ok] in Hpok. apply Z.eqb_eq in Hpok. rewrite sland_00008000, sflag in Hpok by easy. bool_to_prop.
      destruct Hph; subst q; try done; weights; go E HI Hi Hcw (S - 1) false X co.
    + rewrite sland_00008000, sflag, negb_involutive in E by easy.
      destruct Hph; weights; try lia; subst q; go E HI Hi Hcw S true X co || go E HI Hi Hcw S false X co.
Qed.

Lemma UpdateQuiescedSharedLatchCount_inv s ts (i : nat) p s' p' :
  sxw_inv (Conf s ts) -> ts !! i = Some p -> _UpdateQuiescedSharedLatchCount s p = Next s' p' ->
  sxw_inv (Conf s' (<[i := p']> ts)).
Proof.
  intros HI Hi E. sxw_facts HI Hi. unfold _UpdateQuiescedSharedLatchCount in E. destruct p; try discriminate E.
  - rewrite Hco in E. cbn [pc_ok] in Hpok. destruct k.
    + pose proof (sxw_amounts_after ts i _ Idle Hi) as Ham'. weights. rewrite u32_add, u32_eq0 in E by lia.
      destruct (Z.eqb_spec (co + cQSDelta) 0); destruct Hph; try lia; go E HI Hi Hcw S q X (co + cQSDelta).
    + subst cQSDelta. weights. rewrite u32_dec, u32_eq0 in E by lia.
      destruct (Z.eqb_spec (co - 1) 0); destruct Hph; try lia; go E HI Hi Hcw S q X (co - 1).
  - destruct k, Hph; go E HI Hi Hcw S q X co.
Qed.
