(* ===== verification/SXWLatchTop.v ===== *)
(** * SXWLatchTop: what the shared / exclusive / write latch guarantees *)

From stdpp Require Import relations.
From S2P Require Import Prelude Threads ControlWord SXWLatch SXWLatchProofs.

(** ** The invariant of every reachable configuration *)

Lemma sxw_init_inv n : Z.of_nat n < 2 ^ 15 - 1 -> sxw_inv (sxw_init n).
Proof.
  intros Hn. unfold sxw_init, sxw_inv, sxw_phase. cbn [shared pcs]. rewrite length_replicate.
  split_and!; [by apply Forall_replicate| lia | cbn; lia | cbn; lia | cbn; lia |].
  exists 0, false, 0, 0.
  assert (Ht : forall f : pc -> Z, f Idle = 0 -> total f (replicate n Idle) = 0).
  { intros f Hf. apply total_0. intros p Hp. apply elem_of_replicate in Hp as [-> _]. done. }
  rewrite !Ht by done. unfold exclusive. split_and!; [done..|cbn; lia|by apply ph_open].
Qed.

Lemma sxw_step_inv c c' : sxw_inv c -> SXWStep c c' -> sxw_inv c'.
Proof.
  intros HI Hst. revert HI. destruct Hst as [o s ts i p s' p' Hi E]. intros HI.
  destruct (decide (p = Idle \/ p = OwnS \/ p = OwnX \/ p = OwnW)) as [Hp|Hp].
  - sxw_facts HI Hi. destruct Hp as [->|[->|[->| ->]]], o; cbn [tstep] in E; try discriminate E;
      destruct Hph; go E HI Hi Hcw S q X co.
  - destruct p; try (exfalso; tauto); cbn [tstep] in E;
      eauto using ErrAcquireSharedLatch_inv, WaitForSharedLatch_inv, ErrTryAcquireSharedLatch_inv,
        ErrAcquireExclusiveLatch_inv, WaitForExclusiveLatch_inv, ErrTryAcquireExclusiveLatch_inv,
        ErrTryAcquireWriteLatch_inv, ErrUpgradeSharedLatchToExclusiveLatch_inv,
        ErrUpgradeSharedLatchToWriteLatch_inv, ErrUpgradeExclusiveLatchToWriteLatch_inv,
        WaitForWriteLatch_inv, ErrTryUpgradeSharedLatchToWriteLatch_inv,
        ErrTryUpgradeExclusiveLatchToWriteLatch_inv, DowngradeWriteLatchToExclusiveLatch_inv,
        DowngradeWriteLatchToSharedLatch_inv, DowngradeExclusiveLatchToSharedLatch_inv,
        ReleaseWriteLatch_inv, ReleaseExclusiveLatch_inv, ReleaseSharedLatch_inv,
        UpdateQuiescedSharedLatchCount_inv.
Qed.

Lemma sxw_reachable n c : Z.of_nat n < 2 ^ 15 - 1 -> rtc SXWStep (sxw_init n) c -> sxw_inv c.
Proof. intros Hn. apply invariant_reachable; [apply sxw_step_inv|by apply sxw_init_inv]. Qed.

(** ** Guarantees *)

(** The position holds the shared, the exclusive or the write latch: from the
    operation that acquired it to the one that gives it up. *)
Definition FOwnSharedLatch (p : pc) : bool := aS p =? 1.

Definition FOwnExclusiveLatch (p : pc) : bool := aX p =? 1.

Definition FOwnWriteLatch (p : pc) : bool := oW p =? 1.

(** The group with which [AssertValid] is called at a position. *)
Definition group_of (p : pc) : iGroup :=
  match p with
  | OwnW | DWX | DWS | RW | RetWaitW | WaitW | UQ_add _ _ | UQ_rel _ => iWriteGroup
  | OwnX | UXW | UXW_cas _ | TUXW | DWX_relS _ | DXS | RX | RetWaitX | WaitX
  | DWS_relS _ true | DWS_relX | DXS_relX | RW_relS _ true | RW_relX | RX_relX => iExclusiveGroup
  | OwnS | USX | USX_cas _ | USW | USW_cas _ | TUSW | RS | RS_cas _ | RetWaitS | WaitS
  | DWS_relS _ false | RW_relS _ false => iSharedGroup
  | _ => iNoGroup
  end.

(** C9: The modes of [CSXWLatch] exclude each other as they should.  For fewer than
    2^15 - 1 latches held or asked for, with acquisitions, upgrades, downgrades and
    releases in any interleaving of their atomic operations: while one holds the
    write latch no other holds any latch, and while one holds the exclusive latch no
    other holds the exclusive or the write latch. *)
Theorem sxw_exclusion n c (i j : nat) p p2 :
  Z.of_nat n < 2 ^ 15 - 1 -> rtc SXWStep (sxw_init n) c ->
  pcs c !! i = Some p -> pcs c !! j = Some p2 -> i <> j ->
  (FOwnWriteLatch p = true ->
     FOwnWriteLatch p2 = false /\ FOwnExclusiveLatch p2 = false /\ FOwnSharedLatch p2 = false) /\
  (FOwnExclusiveLatch p = true -> FOwnWriteLatch p2 = false /\ FOwnExclusiveLatch p2 = false).
Proof.
  intros Hn Hreach Hi Hj Hij. pose proof (sxw_reachable n c Hn Hreach) as HI. destruct c as [s ts].
  cbn [pcs] in *. sxw_facts HI Hi.
  pose proof (sxw_sums_ge ts j p2 Hj) as Hge2.
  pose proof (total_ge2 aX ts i j p p2 ltac:(apply sxw_weights_nonneg) Hi Hj Hij) as H2.
  pose proof (total_ge2 oW ts i j p p2 ltac:(apply sxw_weights_nonneg) Hi Hj Hij) as H3.
  unfold FOwnWriteLatch, FOwnExclusiveLatch, FOwnSharedLatch. rewrite !Z.eqb_eq, !Z.eqb_neq.
  destruct Hph; lia.
Qed.

(** A writer while another asks for the shared latch; an exclusive owner beside a
    sharer. *)
Lemma sxw_exclusion_witness :
  let cW := Conf (SXWState (sword 1 true 1) 0 0 0 0) [OwnW; WaitS] in
  let cX := Conf (SXWState (sword 1 false 1) 0 0 0 0) [OwnX; OwnS] in
  rtc SXWStep (sxw_init 2) cW /\ FOwnWriteLatch OwnW = true /\
  (FOwnWriteLatch WaitS = false /\ FOwnExclusiveLatch WaitS = false /\ FOwnSharedLatch WaitS = false) /\
  rtc SXWStep (sxw_init 2) cX /\ FOwnExclusiveLatch OwnX = true /\ FOwnSharedLatch OwnS = true /\
  (FOwnWriteLatch OwnS = false /\ FOwnExclusiveLatch OwnS = false).
Proof.
  intros cW cX.
  assert (HW : rtc SXWStep (sxw_init 2) cW).
  { apply (exec_steps tstep (replicate 2 (0%nat, OpTryAcquireWrite) ++ replicate 3 (1%nat, OpAcquireShared))).
    vm_compute. reflexivity. }
  assert (HX : rtc SXWStep (sxw_init 2) cX).
  { apply (exec_steps tstep (replicate 2 (0%nat, OpAcquireExclusive) ++ replicate 2 (1%nat, OpAcquireShared))).
    vm_compute. reflexivity. }
  split; [exact HW|]. split; [reflexivity|].
  split; [exact (proj1 (sxw_exclusion 2 cW 0 1 OwnW WaitS ltac:(lia) HW eq_refl eq_refl ltac:(lia)) eq_refl)|].
  split; [exact HX|]. split; [reflexivity|]. split; [reflexivity|].
  exact (proj2 (sxw_exclusion 2 cX 0 1 OwnX OwnS ltac:(lia) HX eq_refl eq_refl ltac:(lia)) eq_refl).
Defined.

Lemma assert_valid s ts (i : nat) p : sxw_inv (Conf s ts) -> ts !! i = Some p ->
  AssertValid (group_of p) s = true.
Proof.
  intros HI Hi. sxw_facts HI Hi. unfold AssertValid. rewrite Hcw.
  rewrite sland_00007FFF, sland_FFFF0000, sland_00008000, slow by easy.
  assert (E1 : negb (S =? 32767) = true) by (unfold field in *; lia).
  assert (E2 : negb (sword 0 false X =? 4294901760) = true) by (unfold sword, fieldX in *; cbn [Z.b2z]; lia).
  rewrite E1, E2. cbn [andb].
  assert (E3 : 0 < X -> negb (sword 0 false X =? 0) = true) by (unfold sword, fieldX in *; cbn [Z.b2z]; lia).
  destruct p; try destruct fX; try destruct k;
    cbn [group_of]; try reflexivity; cbn in Hge; rewrite E3 by (destruct Hph; lia); cbn [andb];
    try reflexivity; destruct Hph; try lia; subst q; reflexivity.
Qed.

Lemma sxw_no_fault s ts (i : nat) p o : sxw_inv (Conf s ts) -> ts !! i = Some p -> tstep o s p <> Fault.
Proof.
  intros HI Hi.
  destruct p; cbn [tstep]; try (destruct o; done);
    unfold ErrAcquireSharedLatch, WaitForSharedLatch, ErrTryAcquireSharedLatch, ErrAcquireExclusiveLatch,
      WaitForExclusiveLatch, ErrTryAcquireExclusiveLatch, ErrTryAcquireWriteLatch,
      ErrUpgradeSharedLatchToExclusiveLatch, ErrUpgradeSharedLatchToWriteLatch,
      ErrUpgradeExclusiveLatchToWriteLatch, WaitForWriteLatch, ErrTryUpgradeSharedLatchToWriteLatch,
      ErrTryUpgradeExclusiveLatchToWriteLatch, DowngradeWriteLatchToExclusiveLatch,
      DowngradeWriteLatchToSharedLatch, DowngradeExclusiveLatchToSharedLatch, ReleaseWriteLatch,
      ReleaseExclusiveLatch, ReleaseSharedLatch, _UpdateQuiescedSharedLatchCount, sem_acquire;
    try (repeat case_match; done).
  sxw_facts HI Hi. cbn in Hge.
  assert (Hx : negb (m_cw s .& 2147418112 =? 0) = true).
  { rewrite Hcw. apply negb_true_iff, Z.eqb_neq. intros E0.
    assert (Ew : sword S q X = cword S q X false) by (unfold sword, cword; cbn [Z.b2z]; lia).
    rewrite Ew, land_7FFF0000 in E0 by (unfold field in *; destruct Hph; lia).
    unfold cword in E0. cbn [Z.b2z] in E0. destruct Hph; lia. }
  rewrite Hx. cbn [OSSYNCAssert]. case_match; done.
Qed.

(** The checks of [CSXWLatch] hold in every interleaving.  At every position the
    conditions of [AssertValid], for the group the code names there, hold of the
    control word (neither counter overflows; the word counts a thread that owns or
    waits for the exclusive or the write mode; sharers are quiesced while a thread
    owns or waits for the write mode), no assertion fails, and the predicates
    [FExclusiveLatched] and [FWriteLatched], which claiming and releasing
    ownership enforce, are true for an owner. *)
Theorem sxw_checks n c (i : nat) p o :
  Z.of_nat n < 2 ^ 15 - 1 -> rtc SXWStep (sxw_init n) c -> pcs c !! i = Some p ->
  AssertValid (group_of p) (shared c) = true /\ tstep o (shared c) p <> Fault /\
  (FOwnExclusiveLatch p = true -> FExclusiveLatched (shared c) = true) /\
  (FOwnWriteLatch p = true -> FWriteLatched (shared c) = true).
Proof.
  intros Hn Hreach Hi. pose proof (sxw_reachable n c Hn Hreach) as HI. destruct c as [s ts].
  cbn [pcs shared] in *. split_and!; [by apply (assert_valid s ts i)|by apply (sxw_no_fault s ts i)|..];
    intros Hp; sxw_facts HI Hi; unfold FOwnExclusiveLatch, FOwnWriteLatch in Hp; bool_to_prop;
    unfold FExclusiveLatched, FWriteLatched; rewrite Hcw, sland_FFFF0000, sland_00008000 by easy;
    replace (65536 <=? sword 0 false X) with true by (unfold sword; cbn [Z.b2z]; destruct Hph; lia);
    destruct Hph; try lia; subst q; try reflexivity.
  rewrite Hco. subst co. reflexivity.
Qed.

Lemma sxw_checks_witness :
  let c := Conf (SXWState (sword 0 true 1) 0 0 0 0) [OwnW; Idle] in
  rtc SXWStep (sxw_init 2) c /\ AssertValid iWriteGroup (shared c) = true /\ FWriteLatched (shared c) = true.
Proof.
  intros c.
  assert (H : rtc SXWStep (sxw_init 2) c).
  { apply (exec_steps tstep (replicate 2 (0%nat, OpTryAcquireWrite))). vm_compute. reflexivity. }
  split; [exact H|].
  destruct (sxw_checks 2 c 0 OwnW OpReleaseWrite ltac:(lia) H eq_refl) as (H1 & _ & _ & H2).
  split; [exact H1|exact (H2 eq_refl)].
Defined.

Lemma sxw_blocked_waits s p : (forall o, tstep o s p = Blocked) ->
  p = WaitS /\ m_semS s <= 0 \/ p = WaitX /\ m_semX s <= 0 \/ p = WaitW /\ m_semW s <= 0.
Proof.
  intros H. pose proof (H OpAcquireShared) as H1. pose proof (H OpReleaseShared) as H2.
  pose proof (H OpReleaseExclusive) as H3. pose proof (H OpReleaseWrite) as H4. clear H.
  destruct p; cbn [tstep] in *; try discriminate;
    unfold ErrAcquireSharedLatch, WaitForSharedLatch, ErrTryAcquireSharedLatch, ErrAcquireExclusiveLatch,
      WaitForExclusiveLatch, ErrTryAcquireExclusiveLatch, ErrTryAcquireWriteLatch,
      ErrUpgradeSharedLatchToExclusiveLatch, ErrUpgradeSharedLatchToWriteLatch,
      ErrUpgradeExclusiveLatchToWriteLatch, WaitForWriteLatch, ErrTryUpgradeSharedLatchToWriteLatch,
      ErrTryUpgradeExclusiveLatchToWriteLatch, DowngradeWriteLatchToExclusiveLatch,
      DowngradeWriteLatchToSharedLatch, DowngradeExclusiveLatchToSharedLatch, ReleaseWriteLatch,
      ReleaseExclusiveLatch, ReleaseSharedLatch, _UpdateQuiescedSharedLatchCount, sem_acquire,
      OSSYNCAssert in *; repeat case_match; try discriminate; bool_to_prop; auto.
Qed.

Lemma sxw_length n c : rtc SXWStep (sxw_init n) c -> length (pcs c) = n.
Proof. intros ->%reachable_length. apply length_replicate. Qed.

(** C29: No wake-up of [CSXWLatch] is lost.  If in a reachable configuration every
    thread is outside the latch or cannot take a step, then no thread waits: all are
    outside, and the latch is in the state its constructor left it in. *)
Theorem sxw_no_lost_wakeup n c :
  Z.of_nat n < 2 ^ 15 - 1 -> rtc SXWStep (sxw_init n) c ->
  (forall (i : nat) p, pcs c !! i = Some p -> p = Idle \/ forall o, tstep o (shared c) p = Blocked) ->
  c = sxw_init n.
Proof.
  intros Hn Hr Hb. pose proof (sxw_length n c Hr) as Hlen.
  pose proof (sxw_reachable n c Hn Hr) as (_ & _ & H1 & H2 & H3 & S & q & X & co & Hcw & Hco & HS0 & Hex & Hph).
  destruct c as [s ts]. cbn [shared pcs] in *. unfold exclusive in Hex.
  assert (Hts : forall p, p ∈ ts -> p = Idle \/ p = WaitS /\ m_semS s <= 0 \/ p = WaitX /\ m_semX s <= 0 \/
                          p = WaitW /\ m_semW s <= 0).
  { intros p [i Hi]%list_elem_of_lookup. destruct (Hb i p Hi) as [->|H]; [auto|]. right. by apply sxw_blocked_waits. }
  assert (Hz : forall f : pc -> Z, f Idle = 0 -> (m_semS s <= 0 -> f WaitS = 0) ->
    (m_semX s <= 0 -> f WaitX = 0) -> (m_semW s <= 0 -> f WaitW = 0) -> total f ts = 0).
  { intros f F1 F2 F3 F4. apply total_0. intros p Hp. destruct (Hts p Hp) as [->|[[-> ?]|[[-> ?]|[-> ?]]]]; auto. }
  rewrite (Hz aX), (Hz oW), (Hz gX) in Hex by done.
  rewrite (Hz aS), (Hz gS), (Hz oW), (Hz gW), (Hz nS), (Hz pS), (Hz sS) in Hph by done.
  pose proof (sxw_sums_nonneg ts) as Hnn.
  assert (HsX : m_semX s = 0).
  { destruct (Z.lt_ge_cases 0 (m_semX s)); [|lia]. rewrite (Hz wX) in Hex by (done || lia). lia. }
  assert (HsS : m_semS s = 0).
  { destruct (Z.lt_ge_cases 0 (m_semS s)); [|lia]. rewrite (Hz wS) in Hph by (done || lia). destruct Hph; lia. }
  assert (HsW : m_semW s = 0).
  { destruct (Z.lt_ge_cases 0 (m_semW s)); [|lia]. rewrite (Hz wW) in Hph by (done || lia). destruct Hph; lia. }
  destruct Hph; try lia. unfold sxw_init. f_equal.
  - destruct s as [cw cown ss sx sw]. cbn in *. assert (X = 0) by lia. subst. reflexivity.
  - symmetry. apply replicate_as_elem_of. split; [done|].
    intros p Hp. destruct (list_elem_of_lookup_1 _ _ Hp) as [i Hi].
    pose proof (sxw_sums_ge ts i p Hi).
    destruct (Hts p Hp) as [->|[[-> _]|[[-> _]|[-> _]]]]; cbn [wS wX wW] in *; [done|lia..].
Qed.

(** A writer that had to wait for a sharer; all gone again. *)
Lemma sxw_no_lost_wakeup_witness :
  let c := Conf (SXWState 0 0 0 0 0) [Idle; Idle] in
  rtc SXWStep (sxw_init 2) c /\ c = sxw_init 2.
Proof.
  intros c.
  assert (H : rtc SXWStep (sxw_init 2) c).
  { apply (exec_steps tstep ([(0%nat, OpAcquireShared); (0%nat, OpAcquireShared); (1%nat, OpAcquireExclusive);
      (1%nat, OpAcquireExclusive)] ++ replicate 5 (1%nat, OpUpgradeXW) ++ replicate 5 (0%nat, OpReleaseShared) ++
      replicate 3 (1%nat, OpReleaseWrite))).
    vm_compute. reflexivity. }
  split; [exact H|]. apply (sxw_no_lost_wakeup 2); [lia|exact H|].
  intros [|[|i]] p Hp; cbn in Hp; simplify_eq; auto.
Defined.
