(* ===== verification/Semaphore.v ===== *)
(** * Semaphore: [CSemaphore] on pooled kernel semaphores (sync.hxx, sync.cxx)

    A [CSemaphore] is one signed 32-bit word: a count of units when it is not
    negative, otherwise the number of waiting threads (negated, in the high half)
    and the index of the kernel semaphore they wait on (in the low half).  Kernel
    semaphores come from a pool shared by all semaphores, with reference counts: the
    first waiter of a semaphore allocates one, later ones take a reference, and the
    last reference returns it to the pool.  A thread whose wait times out leaves
    the count of waiters, unless a releaser has already counted it out, in which
    case it must take the unit it was given.

    The model has any number of semaphores over one pool.  A kernel semaphore is a
    count; waiting on it takes one unit or, with a finite timeout, may give up.  The
    steps of [FUnreference], [SetUser] and [Free] on a slot that no other thread can
    allocate are taken as one; [Allocate], which scans the pool, may find any
    available slot or make a new one.  Making a new one ([AllocateNew]: counting the slot,
    committing its page and constructing it) is one step, so an [Allocate] that scans a
    slot which another thread has counted and not yet constructed is not modelled. *)

From S2P Require Import Prelude Threads.

(** ** The word ([CSemaphoreState]) *)

(** [CSemaphoreState( cWait, irksem )], as the value of [m_cAvail]. *)
Definition CSemaphoreState_wait (cWait irksem : Z) : Z := s32 (Z.shiftl (u16 (- cWait)) 16 .| u16 irksem).

Definition FNoWait (m_cAvail : Z) : bool := 0 <=? m_cAvail.

Definition FWait (m_cAvail : Z) : bool := m_cAvail <? 0.

Definition FAvail (m_cAvail : Z) : bool := 0 <? m_cAvail.

Definition FNoWaitAndNoAvail (m_cAvail : Z) : bool := m_cAvail =? 0.

Definition CWait (m_cAvail : Z) : Z := - s16 (Z.shiftr m_cAvail 16).

Definition Irksem (m_cAvail : Z) : Z := m_cAvail .& 0xFFFF.

(** ** The pool ([CKernelSemaphorePool]) *)

(** [CReferencedKernelSemaphore]: the word of the reference count and the in-use
    bit, whether it can be allocated, the semaphore that uses it, and the count of
    the kernel semaphore. *)
Record CReferencedKernelSemaphore := Rksem {
  m_l : Z; m_fAvailable : bool; m_psyncobjUser : option nat; m_count : Z }.

Record shared_state := SemState {
  m_cAvail : list Z;                                (* the words of the semaphores *)
  m_mpirksemrksem : list CReferencedKernelSemaphore (* the pool *) }.

Definition FInUse (k : CReferencedKernelSemaphore) : bool := negb (m_l k .& 0x8000 =? 0).

(** [!FTryAcquire()]: no counts are available. *)
Definition FReset (k : CReferencedKernelSemaphore) : bool := m_count k <=? 0.

Definition Rksem_ctor : CReferencedKernelSemaphore := Rksem 0 false None 0.

(** [FAllocate], on a slot that is available. *)
Definition FAllocate (k : CReferencedKernelSemaphore) : CReferencedKernelSemaphore :=
  Rksem (m_l k) false (m_psyncobjUser k) (m_count k).

(** The rest of [Allocate]: [SetUser], with the checks that the slot is unused and
    has no available counts; [None] when a check fails. *)
Definition SetUser (psyncobj : nat) (k : CReferencedKernelSemaphore) : option CReferencedKernelSemaphore :=
  if negb (FInUse k) && bool_decide (m_psyncobjUser k = None) && FReset k
  then Some (Rksem (s32 (m_l k + 0x00008001)) (m_fAvailable k) (Some psyncobj) (m_count k)) else None.

Definition Reference (k : CReferencedKernelSemaphore) : CReferencedKernelSemaphore :=
  Rksem (s32 (m_l k + 1)) (m_fAvailable k) (m_psyncobjUser k) (m_count k).

(** The exchange of [FUnreference], and whether the slot is to be freed. *)
Definition FUnreference (k : CReferencedKernelSemaphore) : CReferencedKernelSemaphore * bool :=
  let lAI := s32 (m_l k + (if m_l k =? 0x00008001 then 0xFFFF7FFF else 0xFFFFFFFF)) in
  if m_l k =? 0x00008001 then (Rksem lAI (m_fAvailable k) None (m_count k), true)
  else (Rksem lAI (m_fAvailable k) (m_psyncobjUser k) (m_count k), false).

(** [Free]: the checks, then the slot becomes available. *)
Definition Free (k : CReferencedKernelSemaphore) : option CReferencedKernelSemaphore :=
  if negb (FInUse k) && negb (m_fAvailable k) && FReset k
  then Some (Rksem (m_l k) true (m_psyncobjUser k) (m_count k)) else None.

(** [CKernelSemaphore::Release] and a successful [FAcquire]. *)
Definition add_count (n : Z) (k : CReferencedKernelSemaphore) : CReferencedKernelSemaphore :=
  Rksem (m_l k) (m_fAvailable k) (m_psyncobjUser k) (m_count k + n).

(** ** Positions of a thread *)

(** What follows [Unreference]: the call returns, the loop of [_FAcquire] goes on, or
    the thread waits on the kernel semaphore it has joined. *)
Inductive cont :=
  | KReturn (fAcquire : bool)
  | KLoop (sem : nat) (fTimeout : bool) (cSpin : nat) (irksemAlloc : option nat)
  | KWait (sem : nat) (fTimeout : bool) (irksem : nat).

Inductive pc :=
  (** not in a call; the result of the last call, if it has one *)
  | Idle (result : option bool)
  (** [FDecAvail], in [FTryAcquire] ([None]) or [FAcquire] (with or without a timeout) *)
  | D (sem : nat) (m : option bool) | D_cas (sem : nat) (m : option bool) (cAvailStart cAvailEnd : Z)
  (** the loop of [_FAcquire]: the read, the exchange that takes a unit, [Allocate] and
      [SetUser], the exchange that publishes the kernel semaphore, [Reference], the
      exchange that joins the waiters, the wait *)
  | A (sem : nat) (fTimeout : bool) (cSpin : nat) (irksemAlloc : option nat)
  | A_dec (sem : nat) (fTimeout : bool) (cSpin : nat) (irksemAlloc : option nat) (stateCur : Z)
  | A_alloc (sem : nat) (fTimeout : bool)
  | A_user (sem : nat) (fTimeout : bool) (irksem : nat)
  | A_pub (sem : nat) (fTimeout : bool) (irksemAlloc : nat)
  | A_ref (sem : nat) (fTimeout : bool) (irksemAlloc : option nat) (stateCur : Z)
  | A_join (sem : nat) (fTimeout : bool) (irksemAlloc : option nat) (stateCur : Z)
  | W (sem : nat) (fTimeout : bool) (irksem : nat)
  (** after a timeout: the read, the exchange that leaves, the second wait *)
  | TO (sem irksem : nat) | TO_cas (sem irksem : nat) (stateAfterWait : Z) | TA (sem irksem : nat)
  (** [Unreference]: the exchange, [Free] *)
  | UN (irksem : nat) (k : cont) | FR (irksem : nat) (k : cont)
  (** [FIncAvail], [_Release], [ReleaseAllWaiters], [CKernelSemaphore::Release] *)
  | I (sem : nat) (cToInc : Z) | I_cas (sem : nat) (cToInc cAvailStart : Z)
  | R (sem : nat) (cToRelease : Z) | R_cas (sem : nat) (cToRelease stateCur : Z)
  | RA (sem : nat) | RA_cas (sem : nat) (stateCur : Z)
  | KS (sem irksem : nat) (cToRelease : Z).

Inductive op :=
  | OpAcquire (sem : nat) | OpAcquireTimeout (sem : nat) | OpTryAcquire (sem : nat)
  | OpRelease (sem : nat) (cToRelease : Z) | OpReleaseAllWaiters (sem : nat)
  (** what the environment decides: the slot [Allocate] finds, or none; a timeout *)
  | OpFound (irksem : nat) | OpAllocateNew | OpTimeout | OpGo.

Abbreviation result := (outcome shared_state pc).

(** ** Operations *)

Definition set_word (sem : nat) (x : Z) (s : shared_state) : shared_state :=
  SemState (<[sem := x]> (m_cAvail s)) (m_mpirksemrksem s).

Definition set_slot (irksem : nat) (k : CReferencedKernelSemaphore) (s : shared_state) : shared_state :=
  SemState (m_cAvail s) (<[irksem := k]> (m_mpirksemrksem s)).

(** Run on the word of a semaphore, or on a slot; a semaphore or slot that does not
    exist is a fault. *)
Definition with_word (sem : nat) (s : shared_state) (f : Z -> result) : result :=
  match m_cAvail s !! sem with Some x => f x | None => Fault end.

Definition with_slot (irksem : nat) (s : shared_state) (f : CReferencedKernelSemaphore -> result) : result :=
  match m_mpirksemrksem s !! irksem with Some k => f k | None => Fault end.

(** [g_ksempoolGlobal.Ksem( irksem, this )]: the slot must be in use by this semaphore. *)
Definition Ksem (irksem psyncobj : nat) (s : shared_state) (f : CReferencedKernelSemaphore -> result) : result :=
  with_slot irksem s (fun k => OSSYNCAssert (bool_decide (m_psyncobjUser k = Some psyncobj)) (f k)).

Definition resume (k : cont) : pc :=
  match k with
  | KReturn r => Idle (Some r)
  | KLoop sem t c a => A sem t c a
  | KWait sem t irksem => W sem t irksem
  end.

(** [Unreference] of [irksemAlloc] if there is one, then [k]. *)
Definition unref_alloc (irksemAlloc : option nat) (k : cont) : pc :=
  match irksemAlloc with Some a => UN a k | None => resume k end.

Definition Unreference (s : shared_state) (p : pc) : result :=
  match p with
  | UN irksem k =>
      with_slot irksem s (fun sl =>
        OSSYNCAssert (0 <? m_l sl .& 0x7FFF)
          (let '(sl, fFree) := FUnreference sl in
           Next (set_slot irksem sl s) (if fFree then FR irksem k else resume k)))
  | FR irksem k =>
      with_slot irksem s (fun sl =>
        match Free sl with Some sl => Next (set_slot irksem sl s) (resume k) | None => Fault end)
  | _ => Blocked
  end.

Section Spin.

(** [g_cSpinMax] *)
Context (g_cSpinMax : nat).

Definition FDecAvail (s : shared_state) (p : pc) : result :=
  match p with
  | D sem m =>
      with_word sem s (fun cAvail =>
        OSSYNCAssert (negb (cAvail =? -2147483648))
          (let cAvailEnd := s32 (cAvail - 1) .& 0x7FFFFFFF in
           let cAvailStart := s32 (cAvailEnd + 1) in
           OSSYNCAssert ((cAvail <=? 0) ||
               ((0 <? cAvailStart) && (0 <=? cAvailEnd) && (cAvailEnd =? cAvail - 1)))
             (Next s (D_cas sem m cAvailStart cAvailEnd))))
  | D_cas sem m cAvailStart cAvailEnd =>
      with_word sem s (fun cAvailOld =>
        if cAvailOld =? cAvailStart then Next (set_word sem cAvailEnd s) (Idle (Some true))
        else if 0 <? cAvailOld then Next s (D sem m)
        else match m with
             | None => Next s (Idle (Some false))
             | Some fTimeout => Next s (A sem fTimeout g_cSpinMax None)
             end)
  | _ => Blocked
  end.

Definition _FAcquire (o : op) (s : shared_state) (p : pc) : result :=
  match p with
  | A sem t cSpin irksemAlloc =>
      with_word sem s (fun stateCur =>
        if FAvail stateCur then Next s (A_dec sem t cSpin irksemAlloc stateCur)
        else match cSpin with
             | S cSpin => Next s (A sem t cSpin irksemAlloc)
             | O =>
                 if FNoWaitAndNoAvail stateCur
                 then match irksemAlloc with
                      | None => Next s (A_alloc sem t)
                      | Some a => Next s (A_pub sem t a)
                      end
                 else OSSYNCAssert (FWait stateCur) (Next s (A_ref sem t irksemAlloc stateCur))
             end)
  | A_dec sem t cSpin irksemAlloc stateCur =>
      with_word sem s (fun cur =>
        if cur =? stateCur then Next (set_word sem (stateCur - 1) s) (unref_alloc irksemAlloc (KReturn true))
        else Next s (A sem t cSpin irksemAlloc))
  | A_alloc sem t =>
      match o with
      | OpFound irksem =>
          match m_mpirksemrksem s !! irksem with
          | Some sl => if m_fAvailable sl then Next (set_slot irksem (FAllocate sl) s) (A_user sem t irksem) else Blocked
          | None => Blocked
          end
      | _ =>
          let irksem := length (m_mpirksemrksem s) in
          if Z.of_nat irksem <=? 0xFFFE
          then Next (SemState (m_cAvail s) (m_mpirksemrksem s ++ [Rksem_ctor])) (A_user sem t irksem)
          else Fault
      end
  | A_user sem t irksem =>
      with_slot irksem s (fun sl =>
        match SetUser sem sl with Some sl => Next (set_slot irksem sl s) (A_pub sem t irksem) | None => Fault end)
  | A_pub sem t a =>
      (* [stateCur] is the state with no units and no waiters *)
      with_word sem s (fun cur =>
        if cur =? 0 then Next (set_word sem (CSemaphoreState_wait 1 (Z.of_nat a)) s) (W sem t a)
        else Next s (A sem t 0 (Some a)))
  | A_ref sem t irksemAlloc stateCur =>
      let irksem := Z.to_nat (Irksem stateCur) in
      with_slot irksem s (fun sl => Next (set_slot irksem (Reference sl) s) (A_join sem t irksemAlloc stateCur))
  | A_join sem t irksemAlloc stateCur =>
      let irksem := Z.to_nat (Irksem stateCur) in
      with_word sem s (fun cur =>
        if cur =? stateCur
        then OSSYNCAssert (CWait stateCur + 1 <=? 0x7FFF)
               (Next (set_word sem (CSemaphoreState_wait (CWait stateCur + 1) (Irksem stateCur)) s)
                     (unref_alloc irksemAlloc (KWait sem t irksem)))
        else Next s (UN irksem (KLoop sem t 0 irksemAlloc)))
  | W sem t irksem =>
      Ksem irksem sem s (fun sl =>
        match o, t with
        | OpTimeout, true => Next s (TO sem irksem)
        | _, _ => sem_acquire (m_count sl) (fun _ => Next (set_slot irksem (add_count (-1) sl) s) (UN irksem (KReturn true)))
        end)
  | TO sem irksem =>
      with_word sem s (fun stateAfterWait =>
        if FNoWait stateAfterWait || negb (Irksem stateAfterWait =? Z.of_nat irksem)
        then Next s (TA sem irksem) else Next s (TO_cas sem irksem stateAfterWait))
  | TO_cas sem irksem stateAfterWait =>
      with_word sem s (fun cur =>
        if cur =? stateAfterWait
        then if CWait stateAfterWait =? 1 then Next (set_word sem 0 s) (UN irksem (KReturn false))
             else OSSYNCAssert (1 <? CWait stateAfterWait)
                    (Next (set_word sem (CSemaphoreState_wait (CWait stateAfterWait - 1) (Irksem stateAfterWait)) s)
                          (UN irksem (KReturn false)))
        else Next s (TO sem irksem))
  | TA sem irksem =>
      Ksem irksem sem s (fun sl =>
        sem_acquire (m_count sl) (fun _ => Next (set_slot irksem (add_count (-1) sl) s) (UN irksem (KReturn true))))
  | _ => Blocked
  end.

(** [Release]: [FIncAvail], then [_Release] if there are waiters.  A count that would
    exceed 2^31 - 1 is a violated assertion. *)
Definition FIncAvail (s : shared_state) (p : pc) : result :=
  match p with
  | I sem cToInc => with_word sem s (fun cAvail => Next s (I_cas sem cToInc (cAvail .& 0x7FFFFFFF)))
  | I_cas sem cToInc cAvailStart =>
      with_word sem s (fun cAvailOld =>
        if cAvailOld =? cAvailStart
        then OSSYNCAssert (cAvailStart + cToInc <=? 0x7FFFFFFF) (Next (set_word sem (cAvailStart + cToInc) s) (Idle None))
        else if 0 <=? cAvailOld then Next s (I sem cToInc) else Next s (R sem cToInc))
  | _ => Blocked
  end.

Definition _Release (s : shared_state) (p : pc) : result :=
  match p with
  | R sem cToRelease => with_word sem s (fun stateCur => Next s (R_cas sem cToRelease stateCur))
  | R_cas sem cToRelease stateCur =>
      with_word sem s (fun cur =>
        if negb (cur =? stateCur) then Next s (R sem cToRelease)
        else if FNoWait stateCur
        then OSSYNCAssert (stateCur + cToRelease <=? 0x7FFFFFFF) (Next (set_word sem (stateCur + cToRelease) s) (Idle None))
        else
          let irksem := Z.to_nat (Irksem stateCur) in
          if CWait stateCur <=? cToRelease
          then Next (set_word sem (cToRelease - CWait stateCur) s) (KS sem irksem (CWait stateCur))
          else Next (set_word sem (CSemaphoreState_wait (CWait stateCur - cToRelease) (Irksem stateCur)) s)
                    (KS sem irksem cToRelease))
  | KS sem irksem cToRelease =>
      Ksem irksem sem s (fun sl => Next (set_slot irksem (add_count cToRelease sl) s) (Idle None))
  | _ => Blocked
  end.

Definition ReleaseAllWaiters (s : shared_state) (p : pc) : result :=
  match p with
  | RA sem =>
      with_word sem s (fun stateCur => if FNoWait stateCur then Next s (Idle None) else Next s (RA_cas sem stateCur))
  | RA_cas sem stateCur =>
      with_word sem s (fun cur =>
        if cur =? stateCur
        then Next (set_word sem 0 s) (KS sem (Z.to_nat (Irksem stateCur)) (CWait stateCur))
        else Next s (RA sem))
  | _ => Blocked
  end.

(** ** Threads *)

(** A call on one of the semaphores. *)
Definition call (sem : nat) (s : shared_state) (p : pc) : result :=
  match m_cAvail s !! sem with Some _ => Next s p | None => Blocked end.

Definition tstep (o : op) (s : shared_state) (p : pc) : result :=
  match p with
  | Idle _ =>
      match o with
      | OpAcquire sem => call sem s (D sem (Some false))
      | OpAcquireTimeout sem => call sem s (D sem (Some true))
      | OpTryAcquire sem => call sem s (D sem None)
      | OpRelease sem n => if (0 <? n) && (n <=? 0x7FFFFFFF) then call sem s (I sem n) else Blocked
      | OpReleaseAllWaiters sem => call sem s (RA sem)
      | _ => Blocked
      end
  | D _ _ | D_cas _ _ _ _ => FDecAvail s p
  | A _ _ _ _ | A_dec _ _ _ _ _ | A_alloc _ _ | A_user _ _ _ | A_pub _ _ _ | A_ref _ _ _ _ | A_join _ _ _ _
  | W _ _ _ | TO _ _ | TO_cas _ _ _ | TA _ _ => _FAcquire o s p
  | UN _ _ | FR _ _ => Unreference s p
  | I _ _ | I_cas _ _ _ => FIncAvail s p
  | R _ _ | R_cas _ _ _ | KS _ _ _ => _Release s p
  | RA _ | RA_cas _ _ => ReleaseAllWaiters s p
  end.

End Spin.

(** [n] threads and [m] semaphores, just constructed, with an empty pool. *)
Definition sem_init (n m : nat) : conf shared_state pc :=
  Conf (SemState (replicate m 0) []) (replicate n (Idle None)).
