(* ===== verification/CriticalSection.v ===== *)
(** * CriticalSection: critical sections, nestable or not, and gates (sync.hxx, sync.cxx)

    [CCriticalSection] is a [CSemaphore] with one unit.  [CNestableCriticalSection] adds the
    owner and the number of its entries, which the owner changes without atomic
    operations and the others read at any time.  [CGate] lets threads wait until another one
    that is in the critical section releases them.

    Threads interleave as in [Threads]; a step is one access to shared memory.  The semaphore
    is a count ([sem_acquire], [sem_release]); a wait with a timeout may give up.  The
    environment chooses the calls, and a thread leaves only what it has entered. *)

From stdpp Require Import list relations.
From S2P Require Import Prelude Threads Semaphore.

(** The three ways to enter. *)
Inductive mode := Enter | FTryEnter | FEnter.

(** ** [CNestableCriticalSection] *)

Module Nestable.

(** [m_pclsOwner] is the thread's local storage, here its number, or null. *)
Record CNestableCriticalSectionState := State { m_sem : Z; m_pclsOwner : option nat; m_cEntry : Z }.

(** The constructors: the semaphore gets its unit. *)
Definition CNestableCriticalSection : CNestableCriticalSectionState := State (sem_release 1 0) None 0.

(** The depth is the number of entries the thread has made and not left, and is known to it. *)
Inductive nest_pc :=
  | Idle (depth : Z) (result : option bool)
  (** the read of the owner, and the checks of a nested entry *)
  | NE_read (m : mode) (depth : Z) | NE_avail (depth : Z) | NE_entry (depth : Z)
  (** the second read of the owner, the semaphore, the check after it, and [SetOwner] *)
  | NA_check (m : mode) (depth : Z) | NA (m : mode) (depth : Z) | NA_avail (depth : Z) | NA_owner (depth : Z)
  (** [CNestableCriticalSectionState::Enter]: the checks, the load and the store *)
  | NI_owner (depth : Z) | NI_load (depth : Z) | NI_store (depth c : Z)
  (** [Leave]: the checks, [CNestableCriticalSectionState::Leave], the test, [SetOwner( 0 )], the semaphore *)
  | NL_owner (depth : Z) | NL_avail (depth : Z) | NL_entry (depth : Z) | NL_owner2 (depth : Z) | NL_load (depth : Z) | NL_store (depth c : Z)
  | NL_test (depth : Z) | NL_clear (depth : Z) | NL_release (depth : Z).

Inductive nest_op := OpEnter (m : mode) | OpLeave | OpTimeout | OpGo.

(** [Pcls()] and the position. *)
Record thread := Thread { pcls : nat; pos : nest_pc }.

Abbreviation result_t := (outcome CNestableCriticalSectionState thread).

(** The number of nested entries is limited by [INT]. *)
Definition max_depth : Z := 2 ^ 31 - 1.

Definition nest_set_sem (x : Z) (s : CNestableCriticalSectionState) : CNestableCriticalSectionState := State x (m_pclsOwner s) (m_cEntry s).
Definition SetOwner (p : option nat) (s : CNestableCriticalSectionState) : CNestableCriticalSectionState := State (m_sem s) p (m_cEntry s).
Definition set_cEntry (c : Z) (s : CNestableCriticalSectionState) : CNestableCriticalSectionState := State (m_sem s) (m_pclsOwner s) c.

(** The common part of [Enter], [FTryEnter] and [FEnter]. *)
Definition nest_enter (o : nest_op) (s : CNestableCriticalSectionState) (t : thread) : result_t :=
  let go p := Thread (pcls t) p in
  match pos t with
  | NE_read m d => Next s (go (if bool_decide (m_pclsOwner s = Some (pcls t)) then NE_avail d else NA_check m d))
  | NE_avail d => OSSYNCAssert (m_sem s =? 0) (Next s (go (NE_entry d)))
  | NE_entry d => OSSYNCAssert (1 <=? m_cEntry s) (Next s (go (NI_owner d)))
  | NA_check m d => OSSYNCAssert (negb (bool_decide (m_pclsOwner s = Some (pcls t)))) (Next s (go (NA m d)))
  | NA m d =>
      match m, o with
      | FTryEnter, _ => if 0 <? m_sem s then Next (nest_set_sem (m_sem s - 1) s) (go (NA_avail d)) else Next s (go (Idle d (Some false)))
      | FEnter, OpTimeout => Next s (go (Idle d (Some false)))
      | _, _ => sem_acquire (m_sem s) (fun n => Next (nest_set_sem n s) (go (NA_avail d)))
      end
  | NA_avail d => OSSYNCAssert (m_sem s =? 0) (Next s (go (NA_owner d)))
  | NA_owner d => OSSYNCAssert (bool_decide (m_pclsOwner s = None)) (Next (SetOwner (Some (pcls t)) s) (go (NI_owner d)))
  | NI_owner d => OSSYNCAssert (negb (bool_decide (m_pclsOwner s = None))) (Next s (go (NI_load d)))
  | NI_load d => OSSYNCAssert (1 <=? s32 (m_cEntry s + 1)) (Next s (go (NI_store d (m_cEntry s))))
  | NI_store d c => Next (set_cEntry (s32 (c + 1)) s) (go (Idle (d + 1) (Some true)))
  | _ => Blocked
  end.

Definition nest_leave (s : CNestableCriticalSectionState) (t : thread) : result_t :=
  let go p := Thread (pcls t) p in
  match pos t with
  | NL_owner d => OSSYNCAssert (bool_decide (m_pclsOwner s = Some (pcls t))) (Next s (go (NL_avail d)))
  | NL_avail d => OSSYNCAssert (m_sem s =? 0) (Next s (go (NL_entry d)))
  | NL_entry d => OSSYNCAssert (1 <=? m_cEntry s) (Next s (go (NL_owner2 d)))
  | NL_owner2 d => OSSYNCAssert (negb (bool_decide (m_pclsOwner s = None))) (Next s (go (NL_load d)))
  | NL_load d => Next s (go (NL_store d (m_cEntry s)))
  | NL_store d c => Next (set_cEntry (s32 (c - 1)) s) (go (NL_test d))
  | NL_test d => Next s (go (if m_cEntry s =? 0 then NL_clear d else Idle (d - 1) None))
  | NL_clear d => Next (SetOwner None s) (go (NL_release d))
  | NL_release d => Next (nest_set_sem (sem_release 1 (m_sem s)) s) (go (Idle (d - 1) None))
  | _ => Blocked
  end.

Definition nest_step (o : nest_op) (s : CNestableCriticalSectionState) (t : thread) : result_t :=
  match pos t with
  | Idle d _ =>
      match o with
      | OpEnter m => if d <? max_depth then Next s (Thread (pcls t) (NE_read m d)) else Blocked
      | OpLeave => if 0 <? d then Next s (Thread (pcls t) (NL_owner d)) else Blocked
      | _ => Blocked
      end
  | NE_read _ _ | NE_avail _ | NE_entry _ | NA_check _ _ | NA _ _ | NA_avail _ | NA_owner _ | NI_owner _ | NI_load _ | NI_store _ _ => nest_enter o s t
  | _ => nest_leave s t
  end.

Definition nest_init (n : nat) : conf CNestableCriticalSectionState thread :=
  Conf CNestableCriticalSection ((fun i => Thread i (Idle 0 None)) <$> seq 0 n).

(** *** What a thread has *)

(** The unit of the semaphore, the entry as the owner, and the count it sees. *)
Definition unit_ (t : thread) : bool :=
  match pos t with
  | Idle d _ | NE_read _ d | NA_check _ d | NA _ d => 0 <? d
  | _ => true
  end.

Definition owner_ (t : thread) : bool :=
  match pos t with
  | NA_avail _ | NA_owner _ | NL_release _ => false
  | _ => unit_ t
  end.

Definition entry (p : nest_pc) : Z :=
  match p with
  | Idle d _ | NE_read _ d | NE_avail d | NE_entry d | NA_check _ d | NA _ d | NA_avail d | NA_owner d | NI_owner d | NI_load d | NI_store d _ => d
  | NL_owner d | NL_avail d | NL_entry d | NL_owner2 d | NL_load d | NL_store d _ => d
  | NL_test d | NL_clear d | NL_release d => d - 1
  end.

Definition local_ok (p : nest_pc) : Prop :=
  match p with
  | Idle d _ => 0 <= d <= max_depth
  | NE_read _ d | NI_owner d | NI_load d => 0 <= d < max_depth
  | NE_avail d | NE_entry d => 1 <= d < max_depth
  | NA_check _ d | NA _ d | NA_avail d | NA_owner d => d = 0
  | NI_store d c => 0 <= d < max_depth /\ c = d
  | NL_owner d | NL_avail d | NL_entry d | NL_owner2 d | NL_load d => 1 <= d <= max_depth
  | NL_store d c => 1 <= d <= max_depth /\ c = d
  | NL_test d => 1 <= d <= max_depth
  | NL_clear d | NL_release d => d = 1
  end.

(** What the shared state is when [t] has the unit. *)
Definition held_by (t : thread) (s : CNestableCriticalSectionState) : Prop :=
  m_sem s = 0 /\ m_pclsOwner s = (if owner_ t then Some (pcls t) else None) /\ m_cEntry s = entry (pos t).

Definition free (s : CNestableCriticalSectionState) : Prop := m_sem s = 1 /\ m_pclsOwner s = None /\ m_cEntry s = 0.

Record ok (s : CNestableCriticalSectionState) (ts : list thread) : Prop := {
  ok_pcls : forall i j t t', ts !! i = Some t -> ts !! j = Some t' -> pcls t = pcls t' -> i = j;
  ok_local : forall i t, ts !! i = Some t -> local_ok (pos t);
  ok_unit : (free s /\ forall i t, ts !! i = Some t -> unit_ t = false) \/
            (exists h t, ts !! h = Some t /\ unit_ t = true /\ held_by t s /\ forall i t', ts !! i = Some t' -> i <> h -> unit_ t' = false) }.

Lemma s32_in x : - 2 ^ 31 <= x < 2 ^ 31 -> s32 x = x.
Proof. intros Hx. unfold s32. rewrite Z.mod_small; lia. Qed.

(** *** Every step *)

Section Step.
Context (s : CNestableCriticalSectionState) (ts : list thread) (H : ok s ts).
Context (i : nat) (t : thread) (Hi : ts !! i = Some t).

Lemma has_unit : unit_ t = true -> held_by t s /\ forall j t', ts !! j = Some t' -> j <> i -> unit_ t' = false.
Proof.
  intros Hu. destruct (ok_unit _ _ H) as [[_ Hn]|(h & th & Hh & Huh & Hs & Hn)]; [by rewrite (Hn i t Hi) in Hu|].
  destruct (decide (i = h)) as [->|Hne]; [|by rewrite (Hn i t Hi Hne) in Hu]. rewrite Hi in Hh. by injection Hh as <-.
Qed.

Lemma not_owner : unit_ t = false -> m_pclsOwner s <> Some (pcls t).
Proof.
  intros Hu E. destruct (ok_unit _ _ H) as [[(_ & Ho & _) _]|(h & th & Hh & Huh & (_ & Ho & _) & _)]; [congruence|].
  rewrite Ho in E. destruct (owner_ th); [|done]. injection E as E. rewrite (ok_pcls _ _ H h i th t Hh Hi E) in Hh. congruence.
Qed.

Lemma units_free : 0 < m_sem s -> free s /\ forall j t', ts !! j = Some t' -> unit_ t' = false.
Proof. intros Hs. destruct (ok_unit _ _ H) as [Hf|(h & th & _ & _ & (Hz & _) & _)]; [done|lia]. Qed.

Lemma sem_range : 0 <= m_sem s <= 1.
Proof. destruct (ok_unit _ _ H) as [[(Hz & _) _]|(h & th & _ & _ & (Hz & _) & _)]; lia. Qed.

Lemma nest_moved_ok s' t' : pcls t' = pcls t -> local_ok (pos t') ->
  (unit_ t = false /\ unit_ t' = false /\ s' = s) \/ (unit_ t = true /\ unit_ t' = true /\ held_by t' s') \/
  (0 < m_sem s /\ unit_ t' = true /\ held_by t' s') \/ (unit_ t = true /\ unit_ t' = false /\ free s') -> ok s' (<[i := t']> ts).
Proof.
  intros Hp Hl Hc. pose proof (lookup_lt_Some _ _ _ Hi) as Hlt.
  assert (Hlook : forall j u, <[i := t']> ts !! j = Some u -> (j = i /\ u = t') \/ (j <> i /\ ts !! j = Some u)).
  { intros j u Hj. destruct (decide (j = i)) as [->|Hne]; [rewrite list_lookup_insert_eq in Hj by done; left; split; congruence|].
    rewrite list_lookup_insert_ne in Hj by done. by right. }
  split.
  - intros j k u u' [[-> ->]|[Hj Eu]]%Hlook [[-> ->]|[Hk Eu']]%Hlook E; [done| | |by eapply (ok_pcls _ _ H)].
    + apply (ok_pcls _ _ H i k t u' Hi Eu'). congruence.
    + apply (ok_pcls _ _ H j i u t Eu Hi). congruence.
  - intros j u [[-> ->]|[_ Eu]]%Hlook; [done|by eapply (ok_local _ _ H)].
  - destruct Hc as [(Hu & Hu' & ->)|[(Hu & Hu' & Hs)|[(Hpos & Hu' & Hs)|(Hu & Hu' & Hs)]]].
    + destruct (ok_unit _ _ H) as [[Hf Hn]|(h & th & Hh & Huh & Hs & Hn)].
      * left. split; [done|]. intros j u [[-> ->]|[_ Eu]]%Hlook; [done|by eapply Hn].
      * assert (Hne : h <> i) by (intros ->; congruence). right. exists h, th. rewrite list_lookup_insert_ne by done. split_and!; try done.
        intros j u [[-> ->]|[_ Eu]]%Hlook Hjh; [done|by eapply Hn].
    + destruct (has_unit Hu) as [_ Hn]. right. exists i, t'. rewrite list_lookup_insert_eq by done. split_and!; try done.
      intros j u [[-> ->]|[Hj Eu]]%Hlook Hji; [done|by eapply Hn].
    + destruct (units_free Hpos) as [_ Hn]. right. exists i, t'. rewrite list_lookup_insert_eq by done. split_and!; try done.
      intros j u [[-> ->]|[Hj Eu]]%Hlook Hji; [done|by eapply Hn].
    + destruct (has_unit Hu) as [_ Hn]. left. split; [done|]. intros j u [[-> ->]|[Hj Eu]]%Hlook; [done|by eapply Hn].
Qed.

Definition good (r : result_t) : Prop := match r with Blocked => True | Fault => False | Next s' t' => ok s' (<[i := t']> ts) end.

Ltac unit_case := unfold max_depth, held_by, free, owner_, unit_ in *; cbn [pos pcls entry m_sem m_pclsOwner m_cEntry nest_set_sem SetOwner set_cEntry] in *.

Lemma tstep_ok o : good (nest_step o s t).
Proof.
  pose proof (ok_local _ _ H i t Hi) as Hl. pose proof sem_range as Hr. pose proof has_unit as Hu. pose proof not_owner as Hno.
  pose proof nest_moved_ok as Hm. destruct t as [me p]. unfold nest_step. cbn [pos pcls] in *. unfold max_depth in *.
  assert (Hin : unit_ (Thread me p) = true -> forall s' p', local_ok p' -> unit_ (Thread me p') = true -> held_by (Thread me p') s' -> good (Next s' (Thread me p'))).
  { intros Hx s' p' Hp' Hu' Hs'. apply Hm; [done|done|]. right. left. done. }
  assert (Hout : unit_ (Thread me p) = false -> forall p', local_ok p' -> unit_ (Thread me p') = false -> good (Next s (Thread me p'))).
  { intros Hx p' Hp' Hu'. apply Hm; [done|done|]. by left. }
  assert (Hget : 0 < m_sem s -> good (Next (nest_set_sem (m_sem s - 1) s) (Thread me (NA_avail 0)))).
  { intros Hpos. destruct (units_free Hpos) as [(Hs & Ho & He) _]. apply Hm; [done|done|]. right. right. left. split_and!; [done|done|]. unit_case. split_and!; [lia|done|done]. }
  destruct p; cbn [local_ok] in Hl; unfold max_depth in *; unfold nest_enter, nest_leave; cbn [pos pcls];
    try (destruct (Hu eq_refl) as [(Hs & Ho & He) _]; unit_case; rewrite ?Hs, ?Ho, ?He; cbn [Z.eqb]; rewrite ?bool_decide_eq_true_2, ?bool_decide_eq_false_2 by done;
         rewrite ?(proj2 (Z.leb_le 1 _)) by (unfold s32; lia); cbn [OSSYNCAssert negb]; apply (Hin eq_refl); unit_case; cbn [local_ok]; unfold max_depth; split_and?; (done || lia)).
  - destruct o; try done.
    + destruct (Z.ltb_spec depth (2 ^ 31 - 1)); [|done]. destruct (Z.ltb_spec 0 depth) as [Hd|Hd].
      * destruct Hu as [(Hs & Ho & He) _]; [by apply Z.ltb_lt|]. apply Hin; unit_case; rewrite ?(proj2 (Z.ltb_lt 0 depth)) in * by done; cbn [local_ok]; unfold max_depth; split_and?; (done || lia).
      * apply Hout; unit_case; cbn [local_ok]; unfold max_depth; (lia || by apply Z.ltb_ge).
    + destruct (Z.ltb_spec 0 depth) as [Hd|Hd]; [|done]. destruct Hu as [(Hs & Ho & He) _]; [by apply Z.ltb_lt|].
      apply Hin; unit_case; rewrite ?(proj2 (Z.ltb_lt 0 depth)) in * by done; cbn [local_ok]; unfold max_depth; split_and?; (done || lia).
  - destruct (Z.ltb_spec 0 depth) as [Hd|Hd].
    + destruct Hu as [(Hs & Ho & He) _]; [by apply Z.ltb_lt|]. unit_case. rewrite (proj2 (Z.ltb_lt 0 depth)) in Ho by done. rewrite Ho, bool_decide_eq_true_2 by done.
      apply Hin; unit_case; rewrite ?(proj2 (Z.ltb_lt 0 depth)) in * by done; cbn [local_ok]; unfold max_depth; split_and?; (done || lia).
    + assert (depth = 0) as -> by lia. rewrite bool_decide_eq_false_2 by (by apply Hno). by apply Hout.
  - subst depth. rewrite bool_decide_eq_false_2 by (by apply Hno). by apply Hout.
  - subst depth. assert (Hacq : good (sem_acquire (m_sem s) (fun n => Next (nest_set_sem n s) (Thread me (NA_avail 0))))).
    { unfold sem_acquire. destruct (Z.ltb_spec 0 (m_sem s)); [by apply Hget|done]. }
    assert (Hfail : good (Next s (Thread me (Idle 0 (Some false))))) by (apply Hout; [done|by cbn; unfold max_depth|done]).
    destruct m; [done| |by destruct o]. destruct (Z.ltb_spec 0 (m_sem s)); [by apply Hget|done].
  - destruct (Hu eq_refl) as [(Hs & Ho & He) _]. unit_case. rewrite He, s32_in by lia. rewrite (proj2 (Z.leb_le 1 _)) by lia. cbn [OSSYNCAssert].
    apply (Hin eq_refl); unit_case; cbn [local_ok]; unfold max_depth; split_and?; (done || lia).
  - destruct Hl as [Hl ->]. destruct (Hu eq_refl) as [(Hs & Ho & He) _]. unit_case. rewrite s32_in by lia.
    apply (Hin eq_refl); unit_case; rewrite ?(proj2 (Z.ltb_lt 0 (depth + 1))) in * by lia; cbn [local_ok]; unfold max_depth; split_and?; (done || lia).
  - destruct Hl as [Hl ->]. destruct (Hu eq_refl) as [(Hs & Ho & He) _]. unit_case. rewrite s32_in by lia.
    apply (Hin eq_refl); unit_case; cbn [local_ok]; unfold max_depth; split_and?; (done || lia).
  - destruct (Hu eq_refl) as [(Hs & Ho & He) _]. unit_case. rewrite He. destruct (Z.eqb_spec (depth - 1) 0).
    + apply (Hin eq_refl); unit_case; cbn [local_ok]; unfold max_depth; split_and?; (done || lia).
    + apply (Hin eq_refl); unit_case; rewrite ?(proj2 (Z.ltb_lt 0 (depth - 1))) in * by lia; cbn [local_ok]; unfold max_depth; split_and?; (done || lia).
  - subst depth. destruct (Hu eq_refl) as [(Hs & Ho & He) _]. apply Hm; [done|by cbn; unfold max_depth|]. right. right. right. unit_case. unfold sem_release. split_and!; [done|done|lia|done|done].
Qed.

End Step.

(** *** Executions *)

Lemma nestable_init n : ok (shared (nest_init n)) (pcs (nest_init n)).
Proof.
  assert (Hlook : forall i t, pcs (nest_init n) !! i = Some t -> t = Thread i (Idle 0 None)).
  { intros i t Hi. unfold nest_init in Hi. cbn [pcs] in Hi. rewrite list_lookup_fmap in Hi. destruct (seq 0 n !! i) as [j|] eqn:Hj; [|done].
    apply lookup_seq in Hj as [-> _]. by injection Hi as <-. }
  split.
  - intros i j t t' ->%Hlook ->%Hlook. done.
  - intros i t ->%Hlook. cbn. unfold max_depth. lia.
  - left. split; [done|]. by intros i t ->%Hlook.
Qed.

Lemma nestable_reachable n c : rtc (step nest_step) (nest_init n) c -> ok (shared c) (pcs c).
Proof.
  apply (invariant_reachable _ (fun c => ok (shared c) (pcs c))); [|apply nestable_init].
  intros c1 c2 H Hs. destruct Hs as [o s ts i p s' p' Hi E]. cbn [shared pcs] in *. pose proof (tstep_ok s ts H i p Hi o) as G. by rewrite E in G.
Qed.

(** Who blocks waits for the semaphore. *)
Lemma blocked_waits s ts i t : ok s ts -> ts !! i = Some t -> (forall d r, pos t <> Idle d r) ->
  (exists s' t', nest_step OpGo s t = Next s' t') \/ (m_sem s = 0 /\ unit_ t = false).
Proof.
  intros H Hi Hp. pose proof (tstep_ok s ts H i t Hi OpGo) as G. pose proof (sem_range s ts H) as Hr. pose proof (ok_local _ _ H i t Hi) as Hl.
  destruct (nest_step OpGo s t) as [| |s' t'] eqn:E; [|done|left; by exists s', t'].
  right. destruct t as [me p]. unfold nest_step, nest_enter, nest_leave, unit_ in *. cbn [pos] in *. destruct p; try done; try (by destruct (Hp depth result)).
  all: try (unfold OSSYNCAssert in E; by case_match).
  cbn [local_ok] in Hl. subst depth. split; [|done]. destruct m; unfold sem_acquire in E; destruct (Z.ltb_spec 0 (m_sem s)); done || lia.
Qed.

(** C33: with any number of threads that enter, try to enter, give up waiting and leave, to
    any depth that an [INT] counts and in any interleaving, no assertion of
    [CNestableCriticalSection] fails; one thread at most is inside; between its calls it is the
    owner and [m_cEntry] is the number of its entries; and when no thread is inside or in a
    call, the section is free. *)
Theorem nestable_exclusion n c : rtc (step nest_step) (nest_init n) c ->
  (forall i t o, pcs c !! i = Some t -> nest_step o (shared c) t <> Fault) /\
  (forall i j t t', i <> j -> pcs c !! i = Some t -> pcs c !! j = Some t' -> unit_ t = true -> unit_ t' = false) /\
  (forall i t d r, pcs c !! i = Some t -> pos t = Idle d r -> 0 < d -> m_sem (shared c) = 0 /\ m_pclsOwner (shared c) = Some (pcls t) /\ m_cEntry (shared c) = d) /\
  ((forall i t, pcs c !! i = Some t -> exists r, pos t = Idle 0 r) -> shared c = CNestableCriticalSection).
Proof.
  intros Hr. pose proof (nestable_reachable n c Hr) as H. split_and!.
  - intros i t o Hi E. pose proof (tstep_ok _ _ H i t Hi o) as G. by rewrite E in G.
  - intros i j t t' Hne Hi Hj Hu. destruct (has_unit _ _ H i t Hi Hu) as [_ Hn]. by apply (Hn j t' Hj).
  - intros i t d r Hi Hp Hd. assert (Hu : unit_ t = true) by (unfold unit_; rewrite Hp; by apply Z.ltb_lt).
    destruct (has_unit _ _ H i t Hi Hu) as [(Hs & Ho & He) _]. unfold owner_ in Ho. rewrite Hp, Hu in Ho. rewrite Hp in He. done.
  - intros Hall. destruct (ok_unit _ _ H) as [[(Hs & Ho & He) _]|(h & t & Hh & Hu & _)].
    + destruct (shared c) as [sm ow ce]. cbn in *. by subst.
    + destruct (Hall h t Hh) as [r Hp]. unfold unit_ in Hu. by rewrite Hp in Hu.
Qed.

(** a thread inside a call can take its next step without giving up its wait, or it waits
    for the semaphore while another thread has the unit; and that one is not in a call, or can
    take its own next step. *)
Theorem nestable_no_deadlock n c i t : rtc (step nest_step) (nest_init n) c -> pcs c !! i = Some t -> (forall d r, pos t <> Idle d r) ->
  (exists s' t', nest_step OpGo (shared c) t = Next s' t') \/
  exists j th, j <> i /\ pcs c !! j = Some th /\ unit_ th = true /\ ((exists d r, pos th = Idle d r) \/ exists s' t', nest_step OpGo (shared c) th = Next s' t').
Proof.
  intros Hr Hi Hp. pose proof (nestable_reachable n c Hr) as H. destruct (blocked_waits _ _ i t H Hi Hp) as [Hs|[Hs Hu]]; [by left|right].
  destruct (ok_unit _ _ H) as [[(Hf & _) _]|(h & th & Hh & Huh & _)]; [lia|]. exists h, th. split_and!; [intros ->; congruence|done|done|].
  destruct (pos th) as [d r| | | | | | | | | | | | | | | | | | |] eqn:Eh; [left; by exists d, r|right..].
  all: destruct (blocked_waits _ _ h th H Hh) as [?|[_ Hn]]; [intros ??; congruence|done|congruence].
Qed.

(** Three nested entries, a second thread that waits. *)
Definition nestable_demo : conf CNestableCriticalSectionState thread :=
  Conf (State 0 (Some 0%nat) 2) [Thread 0 (Idle 2 (Some true)); Thread 1 (NA Enter 0)].

Lemma nestable_demo_reached : rtc (step nest_step) (nest_init 2) nestable_demo.
Proof.
  apply (exec_steps _ ([(0%nat, OpEnter Enter)] ++ replicate 8 (0%nat, OpGo) ++ [(0%nat, OpEnter FTryEnter)] ++ replicate 6 (0%nat, OpGo) ++ [(1%nat, OpEnter Enter); (1%nat, OpGo); (1%nat, OpGo)])).
  vm_compute. reflexivity.
Qed.

Lemma nestable_exclusion_witness : m_pclsOwner (shared nestable_demo) = Some 0%nat /\ m_cEntry (shared nestable_demo) = 2.
Proof.
  destruct (nestable_exclusion 2 nestable_demo nestable_demo_reached) as (_ & _ & H & _).
  destruct (H 0%nat (Thread 0 (Idle 2 (Some true))) 2 (Some true) eq_refl eq_refl eq_refl) as (_ & Ho & He). split; [exact Ho|exact He].
Defined.

Lemma nestable_no_deadlock_witness : exists j th, j <> 1%nat /\ pcs nestable_demo !! j = Some th /\ unit_ th = true.
Proof.
  destruct (nestable_no_deadlock 2 nestable_demo 1%nat (Thread 1 (NA Enter 0)) nestable_demo_reached eq_refl) as [(s' & t' & H)|(j & th & Hj & Ht & Hu & _)].
  - discriminate.
  - discriminate H.
  - exists j, th. split_and!; [exact Hj|exact Ht|exact Hu].
Defined.

End Nestable.

(** ** [CCriticalSection] and [CGate] *)

Module Gate.

(** A gate with the critical section that protects it: the unit of its semaphore, and the
    number of waiting threads with the kernel semaphore they wait on. *)
Record CGateState := State { m_sem : Z; m_cWait : Z; m_irksem : Z }.

Definition irksemNil : Z := 0xFFFF.

(** The constructors of the two. *)
Definition CGate : CGateState := State (sem_release 1 0) 0 irksemNil.

(** The gates, and the pool of kernel semaphores that they share. *)
Record system := Sys { gates : list CGateState; pool : list CReferencedKernelSemaphore }.

(** What follows [crit.Leave()]. *)
Inductive cont := KReturn | KWait (irksem : nat) | KRelease (irksem : nat) (cToRelease : Z).

Inductive gate_pc :=
  | Out (result : option bool)
  (** [CCriticalSection::Enter] and the like: the semaphore and the check *)
  | CE (g : nat) (m : mode) | CE_avail (g : nat)
  | Inside (g : nat)
  (** [CCriticalSection::Leave]: the check and the semaphore *)
  | LV_avail (g : nat) (k : cont) | LV_release (g : nat) (k : cont)
  (** [Wait]: the count, [Allocate] or [Reference], the kernel semaphore, [Unreference] *)
  | GW (g : nat) | GW_alloc (g : nat) | GW_user (g irksem : nat) | GW_ref (g : nat) | GW_acquire (g irksem : nat) | UN (irksem : nat) | FR (irksem : nat)
  (** [Release], and [ReleaseAndHold]: the count and the kernel semaphore *)
  | GR (g : nat) (cToRelease : Z) (fHold : bool) | GR_ksem (g irksem : nat) (cToRelease : Z) | GH_ksem (g irksem : nat) (cToRelease : Z).

Inductive gate_op := OpEnter (g : nat) (m : mode) | OpLeave | OpWait | OpRelease (cToRelease : Z) | OpReleaseAll | OpReleaseAndHold (cToRelease : Z)
  | OpTimeout | OpFound (irksem : nat) | OpGo.

Abbreviation result_t := (outcome system gate_pc).

Definition set_gate (g : nat) (G : CGateState) (s : system) : system := Sys (<[g := G]> (gates s)) (pool s).
Definition set_slot (k : nat) (sl : CReferencedKernelSemaphore) (s : system) : system := Sys (gates s) (<[k := sl]> (pool s)).

Definition with_gate (g : nat) (s : system) (f : CGateState -> result_t) : result_t := match gates s !! g with Some G => f G | None => Fault end.
Definition with_slot (k : nat) (s : system) (f : CReferencedKernelSemaphore -> result_t) : result_t := match pool s !! k with Some sl => f sl | None => Fault end.

(** [g_ksempoolGlobal.Ksem( irksem, this )] *)
Definition Ksem (irksem g : nat) (s : system) (f : CReferencedKernelSemaphore -> result_t) : result_t :=
  with_slot irksem s (fun sl => OSSYNCAssert (bool_decide (m_psyncobjUser sl = Some g)) (f sl)).

(** [CGateState::SetWaitCount] and [SetIrksem]; the checks come first. *)
Definition SetWaitCount (cWait : Z) (G : CGateState) : option CGateState :=
  if (0 <=? cWait) && (cWait <=? 0x7FFF) then Some (State (m_sem G) (s16 (u16 cWait)) (m_irksem G)) else None.
Definition SetIrksem (irksem : Z) (G : CGateState) : option CGateState :=
  if (0 <=? irksem) && (irksem <=? 0xFFFF) then Some (State (m_sem G) (m_cWait G) (u16 irksem)) else None.

(** The build: [fDEBUG] says whether DEBUG is defined.  Only then does the code make its
    assertions, and only then does [Release] reset [m_irksem]; so the check of [Wait]
    that [m_irksem] is nil is made when [fDEBUG], and all the others always. *)
Section Build.
Context (fDEBUG : bool).

Definition DEBUGAssert (b : bool) (k : result_t) : result_t := if fDEBUG then OSSYNCAssert b k else k.

Definition crit_set_sem (x : Z) (G : CGateState) : CGateState := State x (m_cWait G) (m_irksem G).

Definition change_gate (g : nat) (s : system) (G : option CGateState) (f : system -> result_t) : result_t :=
  match G with Some G => f (set_gate g G s) | None => Fault end.

(** [CCriticalSection]: [Enter], [FTryEnter], [FEnter] *)
Definition crit_enter (o : gate_op) (s : system) (p : gate_pc) : result_t :=
  match p with
  | CE g m =>
      with_gate g s (fun G =>
      match m, o with
      | FTryEnter, _ => if 0 <? m_sem G then Next (set_gate g (crit_set_sem (m_sem G - 1) G) s) (CE_avail g) else Next s (Out (Some false))
      | FEnter, OpTimeout => Next s (Out (Some false))
      | _, _ => sem_acquire (m_sem G) (fun n => Next (set_gate g (crit_set_sem n G) s) (CE_avail g))
      end)
  | CE_avail g => with_gate g s (fun G => OSSYNCAssert (m_sem G =? 0) (Next s (Inside g)))
  | _ => Blocked
  end.

Definition resume (g : nat) (k : cont) : gate_pc :=
  match k with KReturn => Out None | KWait irksem => GW_acquire g irksem | KRelease irksem c => GR_ksem g irksem c end.

Definition crit_leave (s : system) (p : gate_pc) : result_t :=
  match p with
  | LV_avail g k => with_gate g s (fun G => OSSYNCAssert (m_sem G =? 0) (Next s (LV_release g k)))
  | LV_release g k => with_gate g s (fun G => Next (set_gate g (crit_set_sem (sem_release 1 (m_sem G)) G) s) (resume g k))
  | _ => Blocked
  end.

(** [CGate::Wait]; the steps of [Unreference] are those of the semaphores. *)
Definition Wait (o : gate_op) (s : system) (p : gate_pc) : result_t :=
  match p with
  | GW g =>
      with_gate g s (fun G =>
      OSSYNCAssert (m_cWait G <? 0x7FFF)
        (let cWait := m_cWait G + 1 in
         change_gate g s (SetWaitCount cWait G) (fun s =>
         if cWait =? 1 then DEBUGAssert (m_irksem G =? irksemNil) (Next s (GW_alloc g)) else Next s (GW_ref g))))
  | GW_alloc g =>
      match o with
      | OpFound irksem =>
          match pool s !! irksem with
          | Some sl => if m_fAvailable sl then Next (set_slot irksem (FAllocate sl) s) (GW_user g irksem) else Blocked
          | None => Blocked
          end
      | _ =>
          let irksem := length (pool s) in
          if Z.of_nat irksem <=? 0xFFFE then Next (Sys (gates s) (pool s ++ [Rksem_ctor])) (GW_user g irksem) else Fault
      end
  | GW_user g irksem =>
      with_gate g s (fun G => with_slot irksem s (fun sl =>
      match SetUser g sl with
      | Some sl =>
          change_gate g (set_slot irksem sl s) (SetIrksem (Z.of_nat irksem) G) (fun s =>
          OSSYNCAssert (negb (Z.of_nat irksem =? irksemNil)) (Next s (LV_avail g (KWait irksem))))
      | None => Fault
      end))
  | GW_ref g =>
      with_gate g s (fun G =>
      OSSYNCAssert (negb (m_irksem G =? irksemNil))
        (let irksem := Z.to_nat (m_irksem G) in
         with_slot irksem s (fun sl => Next (set_slot irksem (Reference sl) s) (LV_avail g (KWait irksem)))))
  | GW_acquire g irksem =>
      Ksem irksem g s (fun sl => sem_acquire (m_count sl) (fun _ => Next (set_slot irksem (add_count (-1) sl) s) (UN irksem)))
  | UN irksem =>
      with_slot irksem s (fun sl =>
      OSSYNCAssert (0 <? Z.land (m_l sl) 0x7FFF)
        (let '(sl, fFree) := FUnreference sl in Next (set_slot irksem sl s) (if fFree then FR irksem else Out None)))
  | FR irksem =>
      with_slot irksem s (fun sl => match Free sl with Some sl => Next (set_slot irksem sl s) (Out None) | None => Fault end)
  | _ => Blocked
  end.

(** In the build with DEBUG a gate for which nobody waits has no kernel semaphore. *)
Definition reset_irksem (G : CGateState) : option CGateState :=
  if fDEBUG && (m_cWait G =? 0) then SetIrksem irksemNil G else Some G.

(** [CGate::Release] and [ReleaseAndHold] *)
Definition Release (s : system) (p : gate_pc) : result_t :=
  match p with
  | GR g c fHold =>
      with_gate g s (fun G =>
      OSSYNCAssert ((0 <? c) && (c <=? m_cWait G))
        (change_gate g s (SetWaitCount (m_cWait G - c) G ≫= reset_irksem) (fun s =>
         let irksem := Z.to_nat (m_irksem G) in
         Next s (if fHold then GH_ksem g irksem c else LV_avail g (KRelease irksem c)))))
  | GR_ksem g irksem c => Ksem irksem g s (fun sl => Next (set_slot irksem (add_count c sl) s) (Out None))
  | GH_ksem g irksem c => Ksem irksem g s (fun sl => Next (set_slot irksem (add_count c sl) s) (Inside g))
  | _ => Blocked
  end.

(** A thread that is in the critical section looks at [CWait()] before it releases. *)
Definition in_range (s : system) (g : nat) (c : Z) : bool :=
  match gates s !! g with Some G => (0 <? c) && (c <=? m_cWait G) | None => false end.

Definition gate_tstep (o : gate_op) (s : system) (p : gate_pc) : result_t :=
  match p with
  | Out _ => match o with OpEnter g m => match gates s !! g with Some _ => Next s (CE g m) | None => Blocked end | _ => Blocked end
  | Inside g =>
      match o with
      | OpLeave => Next s (LV_avail g KReturn)
      | OpWait => Next s (GW g)
      | OpRelease c => if in_range s g c then Next s (GR g c false) else Blocked
      | OpReleaseAndHold c => if in_range s g c then Next s (GR g c true) else Blocked
      | OpReleaseAll => with_gate g s (fun G => if 0 <? m_cWait G then Next s (GR g (m_cWait G) false) else Blocked)
      | _ => Blocked
      end
  | CE _ _ | CE_avail _ => crit_enter o s p
  | LV_avail _ _ | LV_release _ _ => crit_leave s p
  | GR _ _ _ | GR_ksem _ _ _ | GH_ksem _ _ _ => Release s p
  | _ => Wait o s p
  end.

(** [n] threads and [m] gates, with an empty pool. *)
Definition gate_init (n m : nat) : conf system gate_pc := Conf (Sys (replicate m CGate) []) (replicate n (Out None)).

(** *** What a thread has *)

Definition at_ (o : option nat) (x : nat) : Z := if decide (o = Some x) then 1 else 0.

Definition gate_of (p : gate_pc) : option nat :=
  match p with
  | CE g _ | CE_avail g | Inside g | LV_avail g _ | LV_release g _ | GW g | GW_alloc g | GW_user g _ | GW_ref g | GW_acquire g _ | GR g _ _ | GR_ksem g _ _ | GH_ksem g _ _ => Some g
  | Out _ | UN _ | FR _ => None
  end.

(** The critical section it is in, and the gate whose count it has increased without having a
    kernel semaphore yet. *)
Definition hold (g : nat) (p : gate_pc) : Z := at_ (match p with CE _ _ | GW_acquire _ _ | GR_ksem _ _ _ => None | _ => gate_of p end) g.
Definition mid (g : nat) (p : gate_pc) : Z := at_ (match p with GW_alloc _ | GW_user _ _ | GW_ref _ => gate_of p | _ => None end) g.

(** The kernel semaphore it waits on, has a reference to, is allocating or freeing, and the
    units it is about to release to it. *)
Definition reg_of (p : gate_pc) : option nat := match p with LV_avail _ (KWait k) | LV_release _ (KWait k) | GW_acquire _ k => Some k | _ => None end.
Definition reg (k : nat) (p : gate_pc) : Z := at_ (reg_of p) k.
Definition ref (k : nat) (p : gate_pc) : Z := at_ (match p with UN j => Some j | _ => reg_of p end) k.
Definition resv (k : nat) (p : gate_pc) : Z := at_ (match p with GW_user _ j | FR j => Some j | _ => None end) k.
Definition pend_of (p : gate_pc) : option (nat * Z) :=
  match p with LV_avail _ (KRelease j c) | LV_release _ (KRelease j c) | GR_ksem _ j c | GH_ksem _ j c => Some (j, c) | _ => None end.
Definition pend (k : nat) (p : gate_pc) : Z := match pend_of p with Some (j, c) => at_ (Some j) k * Z.max 0 c | None => 0 end.

(** *** The invariant *)

Definition user_of (slots : list CReferencedKernelSemaphore) (k : nat) : option nat := slots !! k ≫= m_psyncobjUser.

(** The threads that a gate counts on the kernel semaphore [k]. *)
Definition counted (G : CGateState) (mids : Z) (k : nat) : Z := if decide (Z.to_nat (m_irksem G) = k) then m_cWait G - mids else 0.

Definition slot_ok (gs : list CGateState) (osl : option CReferencedKernelSemaphore) (k : nat) (refs regs pends resvs : Z) (mids : nat -> Z) : Prop :=
  match osl with
  | None => refs = 0 /\ regs = 0 /\ pends = 0 /\ resvs = 0
  | Some sl =>
      (m_l sl = 0 /\ m_psyncobjUser sl = None /\ m_count sl = 0 /\ refs = 0 /\ regs = 0 /\ pends = 0 /\ resvs + Z.b2z (m_fAvailable sl) = 1) \/
      (exists g G, m_psyncobjUser sl = Some g /\ gs !! g = Some G /\ m_l sl = refs + 0x8000 /\ 0 < refs /\ m_fAvailable sl = false /\ resvs = 0 /\ 0 <= m_count sl /\
         regs = m_count sl + pends + counted G (mids g) k)
  end.

Definition count_ok (p : gate_pc) (cWait : Z) : Prop :=
  match p with GW_alloc _ | GW_user _ _ => cWait = 1 | GW_ref _ => 2 <= cWait | GR _ c _ => 0 < c <= cWait | _ => True end.

(** Its gate exists, the count is what it knows, and the kernel semaphore it relies on belongs to the gate. *)
Definition thread_ok (s : system) (p : gate_pc) : Prop :=
  (forall g, gate_of p = Some g -> exists G, gates s !! g = Some G /\ count_ok p (m_cWait G)) /\
  (forall g k, gate_of p = Some g -> reg_of p = Some k -> user_of (pool s) k = Some g) /\
  (forall g k c, gate_of p = Some g -> pend_of p = Some (k, c) -> user_of (pool s) k = Some g /\ 0 < c).

Definition gate_ok (s : system) (g : nat) (G : CGateState) (holds mids : Z) : Prop :=
  0 <= m_sem G /\ m_sem G = 1 - holds /\ 0 <= m_irksem G <= 0xFFFF /\ 0 <= m_cWait G - mids /\
  (0 < m_cWait G - mids -> user_of (pool s) (Z.to_nat (m_irksem G)) = Some g) /\
  (fDEBUG = true -> m_cWait G - mids = 0 -> m_irksem G = irksemNil).

Record ok (s : system) (ts : list gate_pc) : Prop := {
  ok_n : Z.of_nat (length ts) < 2 ^ 15;
  ok_pool : Z.of_nat (length (pool s)) <= 0xFFFF;
  ok_gate : forall g G, gates s !! g = Some G -> gate_ok s g G (total (hold g) ts) (total (mid g) ts);
  ok_slot : forall k, slot_ok (gates s) (pool s !! k) k (total (ref k) ts) (total (reg k) ts) (total (pend k) ts) (total (resv k) ts) (fun g => total (mid g) ts);
  ok_thread : forall i p, ts !! i = Some p -> thread_ok s p }.

Ltac weigh := unfold hold, mid, reg, ref, resv, pend, at_ in *; cbn [gate_of reg_of pend_of] in *.

Lemma gate_weights k p : 0 <= hold k p <= 1 /\ 0 <= mid k p <= hold k p /\ 0 <= reg k p <= ref k p /\ ref k p <= 1 /\ 0 <= resv k p <= 1 /\ 0 <= pend k p.
Proof. destruct p as [| | | |? []|? []| | | | | | | | | |]; weigh; repeat case_decide; repeat case_match; simplify_eq; lia. Qed.

Lemma sums_nonneg k ts : 0 <= total (hold k) ts /\ 0 <= total (mid k) ts <= total (hold k) ts /\ 0 <= total (reg k) ts <= total (ref k) ts /\
  total (ref k) ts <= Z.of_nat (length ts) /\ 0 <= total (resv k) ts /\ 0 <= total (pend k) ts.
Proof.
  split_and!; try (apply total_nonneg; intros p; apply gate_weights); try (apply total_le; intros p; apply gate_weights).
  rewrite <- total_1. apply total_le. intros p. apply gate_weights.
Qed.

Section Step.
Context (s : system) (ts : list gate_pc) (H : ok s ts) (i : nat) (p : gate_pc) (Hi : ts !! i = Some p).

(** The sum after the thread has moved to [p']. *)
Definition moved (f : gate_pc -> Z) (p' : gate_pc) : Z := total f ts - f p + f p'.

(** What the others have. *)
Definition rest (f : gate_pc -> Z) : Z := total f ts - f p.

Lemma rest_ge f j q : (forall p, 0 <= f p) -> ts !! j = Some q -> j <> i -> f q <= rest f.
Proof. intros Hf Hj Hne. unfold rest. pose proof (total_ge2 f ts i j p q Hf Hi Hj ltac:(done)). lia. Qed.

Lemma rests k : 0 <= rest (hold k) /\ 0 <= rest (mid k) <= rest (hold k) /\ 0 <= rest (reg k) <= rest (ref k) /\ 0 <= rest (resv k) /\ 0 <= rest (pend k) /\ rest (ref k) < Z.of_nat (length ts).
Proof.
  assert (Hz : forall f, (forall q, 0 <= f q) -> 0 <= rest f).
  { intros f Hf. unfold rest. pose proof (total_rest (fun _ => 0) f ts i p Hf Hi). rewrite (total_0 (fun _ : gate_pc => 0)) in *; [lia|done]. }
  assert (Hle : forall f f', (forall q, f q <= f' q) -> rest f <= rest f') by (intros f f' Hf; unfold rest; by apply (total_rest f f' ts i p)).
  split_and!; try (apply Hz; intros q; apply gate_weights); try (apply Hle; intros q; apply gate_weights).
  pose proof (Hle (ref k) (fun _ => 1) ltac:(intros q; apply gate_weights)) as H1. unfold rest in *. rewrite total_1 in H1. lia.
Qed.

Lemma ok_update s' p' : Z.of_nat (length (pool s')) <= 0xFFFF ->
  (forall g G, gates s' !! g = Some G -> gate_ok s' g G (moved (hold g) p') (moved (mid g) p')) ->
  (forall k, slot_ok (gates s') (pool s' !! k) k (moved (ref k) p') (moved (reg k) p') (moved (pend k) p') (moved (resv k) p') (fun g => moved (mid g) p')) ->
  thread_ok s' p' -> (forall j q, j <> i -> ts !! j = Some q -> thread_ok s' q) -> ok s' (<[i := p']> ts).
Proof.
  intros Hl Hg Hs Hp Hq. split.
  - rewrite length_insert. apply H.
  - done.
  - intros g G HG. rewrite !(total_insert _ _ _ _ _ Hi). by apply Hg.
  - intros k. rewrite !(total_insert _ _ _ _ _ Hi). specialize (Hs k). unfold slot_ok in *. destruct (pool s' !! k); [|done].
    destruct Hs as [Hs|(g & G & Hs)]; [by left|right]. exists g, G. by rewrite (total_insert _ _ _ _ _ Hi).
  - intros j q Hj. destruct (decide (j = i)) as [->|Hne].
    + rewrite list_lookup_insert_eq in Hj by (by eapply lookup_lt_Some). by injection Hj as <-.
    + rewrite list_lookup_insert_ne in Hj by done. by eapply Hq.
Qed.

(** Only the thread in the critical section of [g] has one of its positions. *)
Lemma exclusive g j q : hold g p = 1 -> (exists G, gates s !! g = Some G) -> ts !! j = Some q -> j <> i -> hold g q = 0.
Proof.
  intros Hp [G HG] Hj Hne. destruct (ok_gate _ _ H g G HG) as (Hs0 & Hs & _). pose proof (rest_ge (hold g) j q ltac:(intros r; apply gate_weights) Hj Hne) as Hr.
  pose proof (gate_weights g q). unfold rest in Hr. lia.
Qed.

Lemma count_needs_hold q g c : gate_of q = Some g -> hold g q = 0 -> count_ok q c.
Proof. intros Hg Hh. destruct q; try done; weigh; rewrite decide_True in Hh by done; done. Qed.

(** A thread other than the one that moves relies on no more than stays the same. *)
Lemma others_ok s' g k j q : (forall g2, g2 <> g -> gates s' !! g2 = gates s !! g2) -> (is_Some (gates s !! g) -> is_Some (gates s' !! g)) ->
  (forall G G', gates s !! g = Some G -> gates s' !! g = Some G' -> m_cWait G' = m_cWait G \/ hold g p = 1) ->
  (forall k2, k2 <> k -> pool s' !! k2 = pool s !! k2) -> (user_of (pool s') k = user_of (pool s) k \/ rest (reg k) + rest (pend k) <= 0) ->
  ts !! j = Some q -> j <> i -> thread_ok s' q.
Proof.
  intros Hg2 Hsome Hcnt Hk2 Huser Hj Hne. destruct (ok_thread _ _ H j q Hj) as (T1 & T2 & T3). split_and!.
  - intros g2 Hg. destruct (T1 g2 Hg) as (G & HG & Hc). destruct (decide (g2 = g)) as [->|Hn]; [|exists G; by rewrite Hg2].
    destruct (Hsome ltac:(by eexists)) as [G' HG']. exists G'. split; [done|]. destruct (Hcnt G G' HG HG') as [->|Hh]; [done|].
    apply (count_needs_hold q g); [done|]. apply (exclusive g j q Hh ltac:(by eexists) Hj Hne).
  - intros g2 k2 Hg Hr. specialize (T2 g2 k2 Hg Hr). destruct (decide (k2 = k)) as [->|Hn]; [|unfold user_of in *; by rewrite Hk2].
    destruct Huser as [->|Hz]; [done|]. pose proof (rest_ge (reg k) j q ltac:(intros r; apply gate_weights) Hj Hne) as Hr2.
    pose proof (rests k). unfold reg at 1, at_ in Hr2. rewrite Hr, decide_True in Hr2 by done. lia.
  - intros g2 k2 c Hg Hr. destruct (T3 g2 k2 c Hg Hr) as [Hu Hc]. split; [|done]. destruct (decide (k2 = k)) as [->|Hn]; [|unfold user_of in *; by rewrite Hk2].
    destruct Huser as [->|Hz]; [done|]. pose proof (rest_ge (pend k) j q ltac:(intros r; apply gate_weights) Hj Hne) as Hr2.
    pose proof (rests k). unfold pend at 1, at_ in Hr2. rewrite Hr, decide_True in Hr2 by done. lia.
Qed.

(** A step that concerns the gate [g] and the kernel semaphore [k]. *)
Lemma step_at s' p' g k : Z.of_nat (length (pool s')) <= 0xFFFF ->
  (forall g2, g2 <> g -> gates s' !! g2 = gates s !! g2 /\ hold g2 p' = hold g2 p /\ mid g2 p' = mid g2 p) ->
  (forall k2, k2 <> k -> pool s' !! k2 = pool s !! k2 /\ ref k2 p' = ref k2 p /\ reg k2 p' = reg k2 p /\ pend k2 p' = pend k2 p /\ resv k2 p' = resv k2 p) ->
  (is_Some (gates s !! g) -> is_Some (gates s' !! g)) ->
  (forall G G', gates s !! g = Some G -> gates s' !! g = Some G' -> (m_cWait G' = m_cWait G \/ hold g p = 1) /\
     forall k2, k2 <> k -> counted G' (moved (mid g) p') k2 = counted G (total (mid g) ts) k2) ->
  (forall G', gates s' !! g = Some G' -> gate_ok s' g G' (moved (hold g) p') (moved (mid g) p')) ->
  slot_ok (gates s') (pool s' !! k) k (moved (ref k) p') (moved (reg k) p') (moved (pend k) p') (moved (resv k) p') (fun g => moved (mid g) p') ->
  (user_of (pool s') k = user_of (pool s) k \/ rest (reg k) + rest (pend k) <= 0 /\ forall g2, g2 <> g -> user_of (pool s) k <> Some g2) ->
  thread_ok s' p' -> ok s' (<[i := p']> ts).
Proof.
  intros Hl Hg2 Hk2 Hsome Hcnt Hgate Hslot Huser Hp'. apply ok_update; [done| | |done|].
  - intros g2 G HG. destruct (decide (g2 = g)) as [->|Hn]; [by apply Hgate|]. destruct (Hg2 g2 Hn) as (Eg & Eh & Em). rewrite Eg in HG.
    unfold moved. rewrite Eh, Em, !Z.sub_add. destruct (ok_gate _ _ H g2 G HG) as (A1 & A2 & A3 & A4 & A5 & A6). split_and!; try done; try lia.
    intros He. specialize (A5 He). destruct (decide (Z.to_nat (m_irksem G) = k)) as [Ek|Hn2]; [|unfold user_of in *; by rewrite (proj1 (Hk2 _ Hn2))].
    rewrite Ek in *. destruct Huser as [->|[_ Hno]]; [done|]. by destruct (Hno g2 Hn).
  - intros k2. destruct (decide (k2 = k)) as [->|Hn]; [done|]. destruct (Hk2 k2 Hn) as (-> & Er & Eg & Ep & Ev). unfold moved. rewrite Er, Eg, Ep, Ev, !Z.sub_add.
    pose proof (ok_slot _ _ H k2) as Hs. unfold slot_ok in *. destruct (pool s !! k2) as [sl|]; [|done]. destruct Hs as [Hs|(g' & G & U1 & U2 & U)]; [by left|right].
    destruct (decide (g' = g)) as [->|Hn2].
    + destruct (Hsome ltac:(by eexists)) as [G' HG']. exists g, G'. destruct (Hcnt G G' U2 HG') as [_ Hc]. unfold moved in Hc. rewrite (Hc k2 Hn). done.
    + destruct (Hg2 g' Hn2) as (Eg' & _ & Em). exists g', G. rewrite Eg', Em, Z.sub_add. done.
  - intros j q Hne Hj. apply (others_ok s' g k j q); [|done| | | |done|done].
    + intros g2 Hn. apply (Hg2 g2 Hn).
    + intros G G' HG HG'. apply (Hcnt G G' HG HG').
    + intros k2 Hn. apply (Hk2 k2 Hn).
    + destruct Huser as [Hu|[Hu _]]; [by left|by right].
Qed.

(** Nothing changes but the position. *)
Lemma silent p' : (forall x, hold x p' = hold x p /\ mid x p' = mid x p /\ ref x p' = ref x p /\ reg x p' = reg x p /\ pend x p' = pend x p /\ resv x p' = resv x p) ->
  thread_ok s p' -> ok s (<[i := p']> ts).
Proof.
  intros Hw Hp'. apply ok_update; [apply H| | |done|].
  - intros g G HG. unfold moved. destruct (Hw g) as (-> & -> & _). rewrite !Z.sub_add. by apply H.
  - intros k. unfold moved. destruct (Hw k) as (_ & _ & -> & -> & -> & ->). rewrite !Z.sub_add. pose proof (ok_slot _ _ H k) as Hs. unfold slot_ok in *.
    destruct (pool s !! k); [|done]. destruct Hs as [?|(g & G & Hs)]; [by left|right]. exists g, G. destruct (Hw g) as (_ & -> & _). by rewrite Z.sub_add.
  - intros j q _ Hj. by apply (ok_thread _ _ H j).
Qed.

(** The semaphore or the count of a gate changes, the count together with the thread's position. *)
Lemma gate_step G G' p' g : gates s !! g = Some G -> (forall g2, g2 <> g -> hold g2 p' = hold g2 p /\ mid g2 p' = mid g2 p) ->
  (forall k, ref k p' = ref k p /\ reg k p' = reg k p /\ pend k p' = pend k p /\ resv k p' = resv k p) -> m_irksem G' = m_irksem G ->
  m_cWait G' - mid g p' = m_cWait G - mid g p -> m_cWait G' = m_cWait G \/ hold g p = 1 -> 0 <= m_sem G' -> m_sem G' - m_sem G = hold g p - hold g p' ->
  thread_ok (set_gate g G' s) p' -> ok (set_gate g G' s) (<[i := p']> ts).
Proof.
  intros HG Hg2 Hk Hirk Heff Hc Hs0 Hs Hp'. pose proof (lookup_lt_Some _ _ _ HG) as Hlt. destruct (ok_gate _ _ H g G HG) as (A1 & A2 & A3 & A4 & A5 & A6).
  assert (Hcnt : forall k, counted G' (moved (mid g) p') k = counted G (total (mid g) ts) k) by (intros k; unfold counted, moved; rewrite Hirk; case_decide; lia).
  assert (Hthis : forall G2, gates (set_gate g G' s) !! g = Some G2 -> G2 = G') by (intros G2; cbn; rewrite list_lookup_insert_eq by done; congruence).
  apply (step_at _ p' g 0); cbn [pool set_gate].
  - apply H.
  - intros g2 Hn. cbn. rewrite list_lookup_insert_ne by done. split; [done|by apply Hg2].
  - intros k2 _. split; [done|apply Hk].
  - intros _. cbn. rewrite list_lookup_insert_eq by done. by eexists.
  - intros G1 G2 HG1 ->%Hthis. rewrite HG in HG1. injection HG1 as <-. split; [done|]. intros k2 _. apply Hcnt.
  - intros G2 ->%Hthis. unfold gate_ok, moved. rewrite Hirk. split_and!; try lia; [intros He; apply A5; lia|intros Hd He; apply A6; [done|lia]].
  - unfold moved. destruct (Hk 0%nat) as (-> & -> & -> & ->). rewrite !Z.sub_add. pose proof (ok_slot _ _ H 0) as Hsl. unfold slot_ok in *.
    destruct (pool s !! 0%nat); [|done]. destruct Hsl as [?|(g' & G1 & U1 & U2 & U)]; [by left|right]. cbn. destruct (decide (g' = g)) as [->|Hn].
    + exists g, G'. rewrite list_lookup_insert_eq by done. rewrite HG in U2. injection U2 as <-. specialize (Hcnt 0%nat). unfold moved in Hcnt. rewrite Hcnt. done.
    + exists g', G1. rewrite list_lookup_insert_ne by done. destruct (Hg2 g' Hn) as [_ ->]. rewrite Z.sub_add. done.
  - by left.
  - done.
Qed.

Definition good (r : result_t) : Prop := match r with Blocked => True | Fault => False | Next s' p' => ok s' (<[i := p']> ts) end.

Lemma here_gate g : gate_of p = Some g -> exists G, gates s !! g = Some G /\ count_ok p (m_cWait G) /\ gate_ok s g G (total (hold g) ts) (total (mid g) ts).
Proof. intros Hg. destruct (ok_thread _ _ H i p Hi) as (T1 & _). destruct (T1 g Hg) as (G & HG & Hc). exists G. split_and!; [done|done|by apply H]. Qed.

(** The sum of [hold] is 1 when the thread is in the critical section. *)
Lemma held g G : gates s !! g = Some G -> hold g p = 1 -> m_sem G = 0 /\ total (hold g) ts = 1 /\ rest (mid g) = 0.
Proof.
  intros HG Hh. destruct (ok_gate _ _ H g G HG) as (A1 & A2 & _). pose proof (rests g) as R. unfold rest in *. lia.
Qed.

(** A kernel semaphore changes, but not its user. *)
Lemma slot_step k sl sl' p' : pool s !! k = Some sl -> m_psyncobjUser sl' = m_psyncobjUser sl -> (forall g, hold g p' = hold g p /\ mid g p' = mid g p) ->
  (forall k2, k2 <> k -> ref k2 p' = ref k2 p /\ reg k2 p' = reg k2 p /\ pend k2 p' = pend k2 p /\ resv k2 p' = resv k2 p) ->
  slot_ok (gates s) (Some sl') k (moved (ref k) p') (moved (reg k) p') (moved (pend k) p') (moved (resv k) p') (fun g => total (mid g) ts) ->
  thread_ok (set_slot k sl' s) p' -> ok (set_slot k sl' s) (<[i := p']> ts).
Proof.
  intros Hk Hu Hg Hk2 Hs Hp'. pose proof (lookup_lt_Some _ _ _ Hk) as Hlt.
  assert (Huser : forall k2, user_of (pool (set_slot k sl' s)) k2 = user_of (pool s) k2).
  { intros k2. unfold user_of. cbn. destruct (decide (k2 = k)) as [->|Hn]; [rewrite list_lookup_insert_eq, Hk by done; done|by rewrite list_lookup_insert_ne]. }
  apply (step_at _ p' 0 k); cbn [gates set_slot].
  - cbn. rewrite length_insert. apply H.
  - intros g2 _. split; [done|apply Hg].
  - intros k2 Hn. cbn. rewrite list_lookup_insert_ne by done. split; [done|by apply Hk2].
  - done.
  - intros G G' HG HG'. rewrite HG in HG'. injection HG' as <-. split; [by left|]. intros k2 _. unfold moved. destruct (Hg 0%nat) as [_ ->]. by rewrite Z.sub_add.
  - intros G HG. unfold gate_ok, moved. destruct (Hg 0%nat) as [-> ->]. rewrite !Z.sub_add, Huser. by apply (ok_gate _ _ H).
  - cbn. rewrite list_lookup_insert_eq by done. cbn in *. destruct Hs as [Hs|(g & G & Hs)]; [by left|right]. exists g, G. unfold moved in *. destruct (Hg g) as [_ ->]. by rewrite Z.sub_add.
  - left. apply Huser.
  - done.
Qed.

(** What a gate counts is bounded by the threads that wait. *)
Lemma gate_bound g G : gates s !! g = Some G -> (forall k, reg k p = 0) -> m_cWait G - total (mid g) ts < 0x7FFF.
Proof.
  intros HG Hp. destruct (ok_gate _ _ H g G HG) as (_ & _ & _ & A4 & A5 & _). destruct (Z.eq_dec (m_cWait G - total (mid g) ts) 0) as [->|Hne]; [lia|].
  specialize (A5 ltac:(lia)). set (k := Z.to_nat (m_irksem G)) in *. pose proof (ok_slot _ _ H k) as Hs. pose proof (rests k) as R. pose proof (sums_nonneg k ts). specialize (Hp k).
  unfold user_of in A5. destruct (pool s !! k) as [sl|]; [|done]. cbn in A5, Hs. destruct Hs as [(_ & Hno & _)|(g' & G' & U1 & U2 & U)]; [congruence|].
  assert (g' = g) as -> by congruence. assert (G' = G) as -> by congruence. unfold counted in U. rewrite decide_True in U by done. pose proof (ok_n _ _ H). unfold rest in R. lia.
Qed.

(** The kernel semaphore that a gate or a thread relies on. *)
Lemma used_slot k g : user_of (pool s) k = Some g -> exists sl G, pool s !! k = Some sl /\ m_psyncobjUser sl = Some g /\ gates s !! g = Some G /\
  m_l sl = total (ref k) ts + 0x8000 /\ 0 < total (ref k) ts < 2 ^ 15 /\ m_fAvailable sl = false /\ total (resv k) ts = 0 /\ 0 <= m_count sl /\
  total (reg k) ts = m_count sl + total (pend k) ts + counted G (total (mid g) ts) k.
Proof.
  intros Hu. pose proof (ok_slot _ _ H k) as Hs. pose proof (sums_nonneg k ts). pose proof (ok_n _ _ H). unfold user_of in Hu. destruct (pool s !! k) as [sl|]; [|done]. cbn in Hu, Hs.
  destruct Hs as [(_ & Hno & _)|(g' & G & U1 & U2 & U3 & U4 & U5 & U6 & U7 & U8)]; [congruence|]. assert (g' = g) as -> by congruence. exists sl, G. split_and!; (done || lia).
Qed.

End Step.

#[local] Arguments hold g !p /.
#[local] Arguments mid g !p /.
#[local] Arguments reg k !p /.
#[local] Arguments ref k !p /.
#[local] Arguments resv k !p /.
#[local] Arguments pend k !p /.

Lemma at_same x : at_ (Some x) x = 1.
Proof. unfold at_. by rewrite decide_True. Qed.

Lemma at_none x : at_ None x = 0.
Proof. unfold at_. by rewrite decide_False. Qed.

(** The weights of positions that are known. *)
Ltac vals := cbn [hold mid reg ref resv pend gate_of reg_of pend_of] in *; rewrite ?at_same, ?at_none in *.

Lemma SetWaitCount_ok c G : 0 <= c <= 0x7FFF -> SetWaitCount c G = Some (State (m_sem G) c (m_irksem G)).
Proof.
  intros Hc. unfold SetWaitCount. rewrite (proj2 (Z.leb_le 0 c)), (proj2 (Z.leb_le c _)) by lia. cbn [andb]. do 2 f_equal. unfold u16, s16.
  rewrite (Z.mod_small c) by lia. rewrite Z.mod_small; lia.
Qed.

Ltac same := intros; weigh; repeat case_decide; simplify_eq; split_and?; (done || lia).

Ltac this := unfold hold, at_; cbn [gate_of]; by rewrite decide_True.

(** A position that relies on no kernel semaphore and on no count. *)
Lemma thread_simple s p g G : gate_of p = Some g -> gates s !! g = Some G -> count_ok p (m_cWait G) -> reg_of p = None -> pend_of p = None -> thread_ok s p.
Proof. intros Hg HG Hc Hr Hp. split_and!; intros *; [|by rewrite Hr|by rewrite Hp]. rewrite Hg. intros [= <-]. by exists G. Qed.

Section Steps.
Context (s : system) (ts : list gate_pc) (H : ok s ts) (i : nat).

Lemma crit_enter_good o g m : ts !! i = Some (CE g m) -> good ts i (crit_enter o s (CE g m)).
Proof.
  intros Hi. destruct (here_gate s ts H i _ Hi g eq_refl) as (G & HG & _ & A1 & A2 & _). cbn [crit_enter]. unfold with_gate. rewrite HG.
  assert (Hget : 0 < m_sem G -> ok (set_gate g (crit_set_sem (m_sem G - 1) G) s) (<[i := CE_avail g]> ts)).
  { intros Hpos. apply (gate_step s ts H i _ Hi G); cbn [m_sem m_cWait m_irksem crit_set_sem]; try done; try lia; try same.
    apply (thread_simple _ _ g (crit_set_sem (m_sem G - 1) G)); try done. cbn. by rewrite list_lookup_insert_eq by (by eapply lookup_lt_Some). }
  assert (Hout : ok s (<[i := Out (Some false)]> ts)) by (apply (silent s ts H i _ Hi); [same|split_and!; intros; done]).
  assert (Hacq : good ts i (sem_acquire (m_sem G) (fun n => Next (set_gate g (crit_set_sem n G) s) (CE_avail g)))).
  { unfold sem_acquire. destruct (Z.ltb_spec 0 (m_sem G)); [by apply Hget|done]. }
  destruct m; [done| |by destruct o]. destruct (Z.ltb_spec 0 (m_sem G)); [by apply Hget|done].
Qed.

Lemma crit_leave_good g k : ts !! i = Some (LV_release g k) -> good ts i (crit_leave s (LV_release g k)).
Proof.
  intros Hi. destruct (here_gate s ts H i _ Hi g eq_refl) as (G & HG & _ & A1 & A2 & _). cbn [crit_leave]. unfold with_gate. rewrite HG. cbn [good].
  destruct (held s ts H i _ Hi g G HG ltac:(this)) as (Hs & _). destruct (ok_thread _ _ H i _ Hi) as (_ & T2 & T3).
  apply (gate_step s ts H i _ Hi G); cbn [m_sem m_cWait m_irksem crit_set_sem]; unfold sem_release; try done; try lia; try (destruct k; same); [by intros k0; destruct k|].
  split_and!.
  - intros g2 Hg2. assert (g2 = g \/ k = KReturn) as [-> | ->] by (destruct k; cbn in Hg2; [by right|left; congruence|left; congruence]); [|done].
    exists (crit_set_sem (m_sem G + 1) G). cbn. rewrite list_lookup_insert_eq by (by eapply lookup_lt_Some). split; [done|by destruct k].
  - intros g2 k2 Hg2 Hr2. destruct k; try done. apply (T2 g2 k2); [exact Hg2|exact Hr2].
  - intros g2 k2 c Hg2 Hr2. destruct k; try done. apply (T3 g2 k2 c); [exact Hg2|exact Hr2].
Qed.

Lemma GW_good o g : ts !! i = Some (GW g) -> good ts i (Wait o s (GW g)).
Proof.
  intros Hi. destruct (here_gate s ts H i _ Hi g eq_refl) as (G & HG & _ & A1 & A2 & A3 & A4 & A5 & A6). destruct (held s ts H i _ Hi g G HG ltac:(this)) as (Hs & _ & Hmid).
  assert (Hm : total (mid g) ts = 0) by (unfold rest in Hmid; weigh; rewrite decide_False in Hmid by done; lia).
  pose proof (gate_bound s ts H i _ Hi g G HG ltac:(same)) as Hb. rewrite Hm in *.
  cbn [Wait]. unfold with_gate, change_gate. rewrite HG, (proj2 (Z.ltb_lt _ _)), SetWaitCount_ok by lia. cbn [OSSYNCAssert].
  assert (Hnil : forall s' p1, (if m_cWait G + 1 =? 1 then DEBUGAssert (m_irksem G =? irksemNil) (Next s' p1) else Next s' (GW_ref g)) =
    Next s' (if m_cWait G + 1 =? 1 then p1 else GW_ref g)).
  { intros s' p1. unfold DEBUGAssert. destruct (Z.eqb_spec (m_cWait G + 1) 1) as [E1|]; [|done]. destruct fDEBUG eqn:Hd; [|done].
    rewrite A6, Z.eqb_refl by (done || lia). done. }
  rewrite Hnil. cbn [good].
  set (p' := if m_cWait G + 1 =? 1 then GW_alloc g else GW_ref g).
  assert (Hp' : gate_of p' = Some g /\ count_ok p' (m_cWait G + 1) /\ reg_of p' = None /\ pend_of p' = None /\ mid g p' = 1 /\
    (forall x, hold x p' = hold x (GW g)) /\ (forall x, x <> g -> mid x p' = 0) /\ forall x, ref x p' = 0 /\ reg x p' = 0 /\ pend x p' = 0 /\ resv x p' = 0).
  { unfold p'. destruct (Z.eqb_spec (m_cWait G + 1) 1); cbn [count_ok]; split_and!; try done; try lia; try same; weigh; by rewrite decide_True. }
  destruct Hp' as (P1 & P2 & P3 & P4 & P5 & P6 & P7 & P8).
  apply (gate_step s ts H i _ Hi G); cbn [m_sem m_cWait m_irksem]; try done; try lia.
  - intros g2 Hn. rewrite P6, P7 by done. split; [done|]. same.
  - rewrite P5. weigh. rewrite decide_False by done. lia.
  - right. this.
  - rewrite P6. lia.
  - apply (thread_simple _ _ g (State (m_sem G) (m_cWait G + 1) (m_irksem G))); try done. cbn. by rewrite list_lookup_insert_eq by (by eapply lookup_lt_Some).
Qed.

(** The kernel semaphore that is found, or made. *)
Lemma alloc_good o g : ts !! i = Some (GW_alloc g) -> Z.of_nat (length (pool s)) <= 0xFFFE \/ (exists k, o = OpFound k) -> good ts i (Wait o s (GW_alloc g)).
Proof.
  intros Hi Hlen. destruct (here_gate s ts H i _ Hi g eq_refl) as (G & HG & Hc & A). cbn [count_ok] in Hc.
  assert (Hfound : forall k sl, pool s !! k = Some sl -> m_fAvailable sl = true -> ok (set_slot k (FAllocate sl) s) (<[i := GW_user g k]> ts)).
  { intros k sl Hk Hav. pose proof (ok_slot _ _ H k) as Hs. rewrite Hk in Hs.
    apply (slot_step s ts H i _ Hi k sl); [done|done|same|same| |].
    - destruct Hs as [(U1 & U2 & U3 & U4 & U5 & U6 & U7)|(g' & G' & _ & _ & _ & _ & U & _)]; [|congruence]. rewrite Hav in U7. cbn in U7.
      left. cbn. unfold moved. vals. split_and!; (done || lia).
    - by apply (thread_simple _ _ g G). }
  assert (Hnew : Z.of_nat (length (pool s)) <= 0xFFFE -> ok (Sys (gates s) (pool s ++ [Rksem_ctor])) (<[i := GW_user g (length (pool s))]> ts)).
  { intros Hroom. pose proof (ok_slot _ _ H (length (pool s))) as Hs. rewrite (lookup_ge_None_2 (pool s)) in Hs by done. destruct Hs as (Z1 & Z2 & Z3 & Z4).
    assert (Huser : forall k, user_of (pool s ++ [Rksem_ctor]) k = user_of (pool s) k).
    { intros k. unfold user_of. destruct (decide (k < length (pool s))%nat); [by rewrite lookup_app_l|]. rewrite lookup_app_r, (lookup_ge_None_2 (pool s)) by lia.
      by destruct (k - length (pool s))%nat as [|[|]]. }
    apply (step_at s ts H i _ Hi _ _ g (length (pool s))); cbn [gates pool].
    - rewrite length_app. cbn. lia.
    - same.
    - intros k2 Hn. destruct (decide (k2 < length (pool s))%nat); [rewrite lookup_app_l by done; same|].
      rewrite !lookup_ge_None_2 by (rewrite ?length_app; cbn; lia). same.
    - done.
    - intros G1 G2 HG1 HG2. assert (G2 = G1) as -> by congruence. split; [by left|]. intros k2 _. f_equal. unfold moved. vals. lia.
    - intros G2 HG2. assert (G2 = G) as -> by congruence. unfold gate_ok, moved in *. cbn [pool]. rewrite Huser. vals. by rewrite !Z.sub_add.
    - rewrite list_lookup_middle by done. left. cbn. unfold moved. vals. split_and!; (done || lia).
    - left. apply Huser.
    - by apply (thread_simple _ _ g G). }
  assert (Hf : forall k, good ts i (Wait (OpFound k) s (GW_alloc g))).
  { intros k. cbn [Wait]. destruct (pool s !! k) as [sl|] eqn:Hk; [|done]. destruct (m_fAvailable sl) eqn:Hav; [|done]. by apply Hfound. }
  destruct Hlen as [Hlen|[k ->]]; [|done]. specialize (Hnew Hlen). cbn [Wait]. rewrite (proj2 (Z.leb_le _ _)) by done. destruct o; try done. apply Hf.
Qed.

Lemma user_good o g k : ts !! i = Some (GW_user g k) -> good ts i (Wait o s (GW_user g k)).
Proof.
  intros Hi. destruct (here_gate s ts H i _ Hi g eq_refl) as (G & HG & Hc & A1 & A2 & A3 & A4 & A5 & A6). cbn [count_ok] in Hc.
  destruct (held s ts H i _ Hi g G HG ltac:(this)) as (Hsem & Hhold & Hmid).
  pose proof (ok_slot _ _ H k) as Hs. pose proof (rests ts i _ Hi k) as R. unfold rest in *.
  assert (Hr1 : resv k (GW_user g k) = 1 /\ mid g (GW_user g k) = 1 /\ ref k (GW_user g k) = 0 /\ reg k (GW_user g k) = 0 /\ pend k (GW_user g k) = 0).
  { by vals. }
  destruct Hr1 as (W1 & W2 & W3 & W4 & W5). rewrite W1, W2, W3, W4, W5 in *.
  destruct (pool s !! k) as [sl|] eqn:Hk; cbn in Hs; [|lia]. pose proof (lookup_lt_Some _ _ _ Hk) as Hlt. pose proof (ok_pool _ _ H) as Hpool.
  destruct Hs as [(U1 & U2 & U3 & U4 & U5 & U6 & U7)|(g' & G' & U)]; [|lia].
  assert (Hav : m_fAvailable sl = false) by (destruct (m_fAvailable sl); [cbn in U7; lia|done]). rewrite Hav in U7. cbn [Z.b2z] in U7.
  cbn [Wait]. unfold with_gate, with_slot, SetUser, FInUse, FReset, SetIrksem, change_gate. rewrite HG, Hk, U1, U2, U3, Hav. cbn [Z.land Z.eqb negb andb bool_decide Z.leb Z.compare].
  rewrite bool_decide_eq_true_2 by done. cbn [andb]. rewrite (proj2 (Z.leb_le 0 _)), (proj2 (Z.leb_le _ 0xFFFF)) by lia. cbn [andb].
  rewrite (proj2 (Z.eqb_neq _ irksemNil)) by (unfold irksemNil; lia). cbn [negb OSSYNCAssert good].
  assert (Eu : u16 (Z.of_nat k) = Z.of_nat k) by (unfold u16; apply Z.mod_small; lia). rewrite Eu.
  change (s32 (0 + 0x8001)) with 0x8001. set (G' := State (m_sem G) (m_cWait G) (Z.of_nat k)). set (sl' := Rksem 0x8001 false (Some g) 0).
  assert (Hthis : forall G2, <[g := G']> (gates s) !! g = Some G2 -> G2 = G') by (intros G2; rewrite list_lookup_insert_eq by (by eapply lookup_lt_Some); congruence).
  assert (Hk' : <[k := sl']> (pool s) !! k = Some sl') by (by rewrite list_lookup_insert_eq).
  apply (step_at s ts H i _ Hi _ _ g k); cbn [gates pool set_gate set_slot].
  - by rewrite length_insert.
  - intros g2 Hn. rewrite list_lookup_insert_ne by done. same.
  - intros k2 Hn. rewrite list_lookup_insert_ne by done. same.
  - intros _. rewrite list_lookup_insert_eq by (by eapply lookup_lt_Some). by eexists.
  - intros G1 G2 HG1 ->%Hthis. assert (G1 = G) as -> by congruence. split; [by left|]. intros k2 Hn. unfold counted. cbn [m_irksem G']. rewrite Nat2Z.id, decide_False by done.
    case_decide; [|done]. lia.
  - intros G2 ->%Hthis. unfold gate_ok, moved. cbn [m_sem m_cWait m_irksem G']. rewrite W2. assert (mid g (LV_avail g (KWait k)) = 0 /\ hold g (LV_avail g (KWait k)) = hold g (GW_user g k)) as [-> ->] by same.
    rewrite Nat2Z.id. split_and!; try lia. intros _. unfold user_of. cbn. by rewrite Hk'.
  - rewrite Hk'. right. exists g, G'. rewrite list_lookup_insert_eq by (by eapply lookup_lt_Some). unfold moved, counted. cbn [m_irksem m_cWait G' sl' m_psyncobjUser m_l m_fAvailable m_count].
    rewrite Nat2Z.id, decide_True by done. rewrite W1, W2, W3, W4, W5.
    assert (ref k (LV_avail g (KWait k)) = 1 /\ reg k (LV_avail g (KWait k)) = 1 /\ pend k (LV_avail g (KWait k)) = 0 /\ resv k (LV_avail g (KWait k)) = 0 /\ mid g (LV_avail g (KWait k)) = 0) as (-> & -> & -> & -> & ->) by (by vals).
    split_and!; (done || lia).
  - right. split; [unfold rest; lia|]. intros g2 _. unfold user_of. rewrite Hk. cbn. by rewrite U2.
  - split_and!.
    + intros g2 [= <-]. exists G'. cbn. by rewrite list_lookup_insert_eq by (by eapply lookup_lt_Some).
    + intros g2 k2 [= <-] [= <-]. unfold user_of. cbn. by rewrite Hk'.
    + done.
Qed.

Lemma Reference_word sl r : m_l sl = r + 0x8000 -> 0 < r < 2 ^ 15 -> Reference sl = Rksem (r + 1 + 0x8000) (m_fAvailable sl) (m_psyncobjUser sl) (m_count sl).
Proof. intros E Hr. unfold Reference. rewrite E. f_equal. unfold s32. rewrite Z.mod_small; lia. Qed.

Lemma ref_good o g : ts !! i = Some (GW_ref g) -> good ts i (Wait o s (GW_ref g)).
Proof.
  intros Hi. destruct (here_gate s ts H i _ Hi g eq_refl) as (G & HG & Hc & A1 & A2 & A3 & A4 & A5 & A6). cbn [count_ok] in Hc.
  destruct (held s ts H i _ Hi g G HG ltac:(this)) as (Hsem & Hhold & Hmid). unfold rest in Hmid. vals. set (k := Z.to_nat (m_irksem G)) in *.
  specialize (A5 ltac:(lia)). destruct (used_slot s ts H k g A5) as (sl & G1 & Hk & U1 & U2 & U3 & U4 & U5 & U6 & U7 & U8). assert (G1 = G) as -> by congruence.
  pose proof (lookup_lt_Some _ _ _ Hk) as Hlt. pose proof (ok_pool _ _ H) as Hpool.
  cbn [Wait]. unfold with_gate, with_slot. rewrite HG. fold k. rewrite Hk, (proj2 (Z.eqb_neq _ _)) by (unfold irksemNil; lia). cbn [negb OSSYNCAssert good].
  rewrite (Reference_word sl _ U3 U4). set (sl' := Rksem _ _ _ _).
  assert (Hk' : <[k := sl']> (pool s) !! k = Some sl') by (by rewrite list_lookup_insert_eq).
  assert (Huser : forall k2, user_of (<[k := sl']> (pool s)) k2 = user_of (pool s) k2).
  { intros k2. unfold user_of. destruct (decide (k2 = k)) as [->|Hn]; [by rewrite Hk', Hk|by rewrite list_lookup_insert_ne]. }
  apply (step_at s ts H i _ Hi _ _ g k); cbn [gates pool set_slot].
  - by rewrite length_insert.
  - same.
  - intros k2 Hn. rewrite list_lookup_insert_ne by done. same.
  - done.
  - intros G1 G2 HG1 HG2. assert (G2 = G1) as -> by congruence. assert (G1 = G) as -> by congruence. split; [by left|]. intros k2 Hn. unfold counted. fold k. by rewrite !decide_False.
  - intros G2 HG2. assert (G2 = G) as -> by congruence. unfold gate_ok, moved. vals. cbn [pool]. rewrite Huser. fold k. split_and!; (done || lia).
  - rewrite Hk'. right. exists g, G. unfold moved, counted in *. fold k. rewrite decide_True in * by done. cbn [sl' m_psyncobjUser m_l m_fAvailable m_count]. vals. split_and!; (done || lia).
  - left. apply Huser.
  - split_and!.
    + intros g2 [= <-]. by exists G.
    + intros g2 k2 [= <-] [= <-]. cbn. by rewrite Huser.
    + done.
Qed.

(** [Release] up to [crit.Leave()], and [ReleaseAndHold] up to the kernel semaphore. *)
Lemma release_good g c fHold : ts !! i = Some (GR g c fHold) -> good ts i (Release s (GR g c fHold)).
Proof.
  intros Hi. destruct (here_gate s ts H i _ Hi g eq_refl) as (G & HG & Hc & A1 & A2 & A3 & A4 & A5 & A6). cbn [count_ok] in Hc.
  destruct (held s ts H i _ Hi g G HG ltac:(this)) as (Hsem & Hhold & Hmid). unfold rest in Hmid. vals. set (k := Z.to_nat (m_irksem G)) in *.
  specialize (A5 ltac:(lia)). destruct (used_slot s ts H k g A5) as (sl & G1 & Hk & U1 & U2 & U3 & U4 & U5 & U6 & U7 & U8). assert (G1 = G) as -> by congruence.
  pose proof (gate_bound s ts H i _ Hi g G HG ltac:(intros k2; by vals)) as Hb.
  cbn [Release]. unfold with_gate, change_gate. rewrite HG, (proj2 (Z.ltb_lt 0 c)), (proj2 (Z.leb_le c _)), SetWaitCount_ok by lia. cbn [andb OSSYNCAssert mbind option_bind].
  set (irk := if fDEBUG && (m_cWait G - c =? 0) then irksemNil else m_irksem G).
  assert (Ereset : reset_irksem (State (m_sem G) (m_cWait G - c) (m_irksem G)) = Some (State (m_sem G) (m_cWait G - c) irk)).
  { unfold reset_irksem, irk. cbn [m_cWait]. by destruct (fDEBUG && _). }
  rewrite Ereset. cbn [good]. fold k.
  set (p' := if fHold then GH_ksem g k c else LV_avail g (KRelease k c)). set (G' := State (m_sem G) (m_cWait G - c) irk).
  assert (Hirk : irk = m_irksem G \/ irk = irksemNil /\ m_cWait G - c = 0) by (unfold irk; destruct (_ && _) eqn:Eb; [right|by left]; apply andb_prop in Eb as [_ ?%Z.eqb_eq]; done).
  assert (Hcnt : forall x, counted G' 0 x = if decide (x = k) then m_cWait G - c else 0).
  { intros x. unfold counted. cbn [m_irksem m_cWait G']. destruct Hirk as [-> |[-> Ez]]; [fold k; repeat case_decide; (congruence || lia)|]. repeat case_decide; lia. }
  assert (Hp' : gate_of p' = Some g /\ reg_of p' = None /\ pend_of p' = Some (k, c) /\ (forall x, hold x p' = hold x (GR g c fHold) /\ mid x p' = 0 /\ ref x p' = 0 /\ reg x p' = 0 /\ resv x p' = 0) /\
    pend k p' = c /\ (forall x, x <> k -> pend x p' = 0) /\ forall n, count_ok p' n).
  { unfold p', pend, at_. destruct fHold; cbn [pend_of]; split_and!; try done; try (rewrite decide_True by done; lia); intros x Hx; rewrite decide_False; (congruence || lia). }
  destruct Hp' as (P1 & P2 & P3 & P4 & P5 & P6 & P7). assert (Hmids : moved ts (GR g c fHold) (mid g) p' = 0) by (unfold moved; destruct (P4 g) as (_ & -> & _); vals; lia).
  assert (Hthis : forall G2, <[g := G']> (gates s) !! g = Some G2 -> G2 = G') by (intros G2; rewrite list_lookup_insert_eq by (by eapply lookup_lt_Some); congruence).
  apply (step_at s ts H i _ Hi _ _ g k); cbn [gates pool set_gate].
  - apply H.
  - intros g2 Hn. rewrite list_lookup_insert_ne by done. destruct (P4 g2) as (-> & -> & _). by vals.
  - intros k2 Hn. destruct (P4 k2) as (_ & _ & -> & -> & ->). rewrite P6 by done. by vals.
  - intros _. rewrite list_lookup_insert_eq by (by eapply lookup_lt_Some). by eexists.
  - intros G1 G2 HG1 ->%Hthis. assert (G1 = G) as -> by congruence. split; [right; by vals|]. intros k2 Hn. rewrite Hmids, Hcnt, decide_False by done. unfold counted. fold k. by rewrite decide_False.
  - intros G2 ->%Hthis. rewrite Hmids. unfold gate_ok, moved. destruct (P4 g) as (-> & _). rewrite Z.sub_add. cbn [m_sem m_cWait m_irksem G' pool]. split_and!; try lia.
    + destruct Hirk as [-> |[-> _]]; [lia|by unfold irksemNil].
    + destruct Hirk as [-> |[-> _]]; [lia|by unfold irksemNil].
    + intros He. destruct Hirk as [-> |[_ Ez]]; [done|lia].
    + intros Hd He. unfold irk. rewrite Hd. rewrite (proj2 (Z.eqb_eq _ 0)) by lia. done.
  - rewrite Hk. right. exists g, G'. rewrite list_lookup_insert_eq by (by eapply lookup_lt_Some). rewrite Hmids, Hcnt, decide_True by done. unfold moved, counted in *. fold k in U8. rewrite decide_True in U8 by done.
    destruct (P4 k) as (_ & _ & -> & -> & ->). rewrite P5. vals. split_and!; (done || lia).
  - by left.
  - split_and!.
    + intros g2. rewrite P1. intros [= <-]. exists G'. cbn. rewrite list_lookup_insert_eq by (by eapply lookup_lt_Some). done.
    + intros g2 k2. by rewrite P2.
    + intros g2 k2 c2. rewrite P1, P3. intros [= <-] [= <- <-]. split; [done|lia].
Qed.

(** Units for the kernel semaphore. *)
Lemma ksem_good p p' g k c : ts !! i = Some p -> gate_of p = Some g -> pend_of p = Some (k, c) -> (forall x, hold x p' = hold x p /\ mid x p' = mid x p) ->
  (forall x, ref x p = 0 /\ reg x p = 0 /\ resv x p = 0 /\ ref x p' = 0 /\ reg x p' = 0 /\ resv x p' = 0 /\ pend x p' = 0) -> thread_ok s p' ->
  good ts i (Ksem k g s (fun sl => Next (set_slot k (add_count c sl) s) p')).
Proof.
  intros Hi Hg Hpend Hh Hw Hp'. destruct (ok_thread _ _ H i _ Hi) as (_ & _ & T3). destruct (T3 g k c Hg Hpend) as [Hu Hc].
  destruct (used_slot s ts H k g Hu) as (sl & G & Hk & U1 & U2 & U3 & U4 & U5 & U6 & U7 & U8).
  assert (Hpk : pend k p = c /\ forall x, x <> k -> pend x p = 0).
  { unfold pend, at_. rewrite Hpend. split; [rewrite decide_True by done; lia|]. intros x Hx. rewrite decide_False; (congruence || lia). }
  destruct Hpk as [P1 P2]. unfold Ksem, with_slot. rewrite Hk, U1, bool_decide_eq_true_2 by done. cbn [OSSYNCAssert good].
  apply (slot_step s ts H i _ Hi k sl); [done|done|done| | |].
  - intros k2 Hn. destruct (Hw k2) as (-> & -> & -> & -> & -> & -> & ->). by rewrite P2.
  - right. exists g, G. unfold moved. destruct (Hw k) as (-> & -> & -> & -> & -> & -> & ->). rewrite P1. cbn. split_and!; (done || lia).
  - destruct Hp' as (T1' & T2' & T3'). assert (Huser : forall k2, user_of (pool (set_slot k (add_count c sl) s)) k2 = user_of (pool s) k2).
    { intros k2. unfold user_of. cbn. destruct (decide (k2 = k)) as [->|Hn]; [rewrite list_lookup_insert_eq, Hk by (by eapply lookup_lt_Some); done|by rewrite list_lookup_insert_ne]. }
    split_and!; [done| |]; intros *; rewrite Huser; auto.
Qed.

Lemma acquire_good o g k : ts !! i = Some (GW_acquire g k) -> good ts i (Wait o s (GW_acquire g k)).
Proof.
  intros Hi. destruct (ok_thread _ _ H i _ Hi) as (_ & T2 & _). specialize (T2 g k eq_refl eq_refl).
  destruct (used_slot s ts H k g T2) as (sl & G & Hk & U1 & U2 & U3 & U4 & U5 & U6 & U7 & U8).
  cbn [Wait]. unfold Ksem, with_slot. rewrite Hk, U1, bool_decide_eq_true_2 by done. cbn [OSSYNCAssert]. unfold sem_acquire. destruct (Z.ltb_spec 0 (m_count sl)); [|done]. cbn [good].
  apply (slot_step s ts H i _ Hi k sl); [done|done|same|same| |by split_and!].
  right. exists g, G. unfold moved. vals. cbn. split_and!; (done || lia).
Qed.

Lemma unreference_good o k : ts !! i = Some (UN k) -> good ts i (Wait o s (UN k)).
Proof.
  intros Hi. pose proof (ok_slot _ _ H k) as Hs. pose proof (rests ts i _ Hi k) as R. pose proof (ok_n _ _ H) as Hn. unfold rest in R. vals.
  destruct (pool s !! k) as [sl|] eqn:Hk; cbn in Hs; [|lia]. destruct Hs as [Hs|(g & G & U1 & U2 & U3 & U4 & U5 & U6 & U7 & U8)]; [lia|].
  pose proof (sums_nonneg k ts) as Sk. destruct (ok_gate _ _ H g G U2) as (A1 & A2 & A3 & A4 & A5 & A6).
  cbn [Wait]. unfold with_slot. rewrite Hk.
  assert (Hland : Z.land (m_l sl) 0x7FFF = total (ref k) ts).
  { change 0x7FFF with (Z.ones 15). rewrite Z.land_ones, U3 by lia. change 0x8000 with (1 * 2 ^ 15). rewrite Z.mod_add, Z.mod_small by lia. lia. }
  rewrite Hland, (proj2 (Z.ltb_lt _ _)) by lia. cbn [OSSYNCAssert]. unfold FUnreference. destruct (Z.eqb_spec (m_l sl) 0x8001) as [E|E].
  - cbn [good]. rewrite E. change (s32 (0x8001 + 0xFFFF7FFF)) with 0. set (sl' := Rksem _ _ _ _).
    assert (Hcnt : 0 <= counted G (total (mid g) ts) k) by (unfold counted; case_decide; lia).
    assert (Hk' : <[k := sl']> (pool s) !! k = Some sl') by (by rewrite list_lookup_insert_eq by (by eapply lookup_lt_Some)).
    apply (step_at s ts H i _ Hi _ _ g k); cbn [gates pool set_slot].
    + rewrite length_insert. apply H.
    + intros g2 _. by vals.
    + intros k2 Hn2. rewrite list_lookup_insert_ne by done. same.
    + done.
    + intros G1 G2 HG1 HG2. assert (G2 = G1) as -> by congruence. split; [by left|]. intros k2 _. f_equal. unfold moved. vals. lia.
    + intros G2 HG2. assert (G2 = G) as -> by congruence. unfold gate_ok, moved. vals. rewrite !Z.sub_0_r, !Z.add_0_r. split_and!; try done; try lia. intros He. specialize (A5 He).
      assert (Hirk : Z.to_nat (m_irksem G) <> k) by (intros Ek; unfold counted in Hcnt, U8; rewrite decide_True in Hcnt, U8 by done; lia).
      unfold user_of in *. cbn [pool set_slot]. by rewrite list_lookup_insert_ne.
    + rewrite Hk'. left. unfold moved. cbn [sl' m_l m_psyncobjUser m_count m_fAvailable]. vals. rewrite U5. cbn. split_and!; (done || lia).
    + right. unfold rest. vals. split; [lia|]. intros g2 Hn2. unfold user_of. rewrite Hk. cbn. congruence.
    + by split_and!.
  - cbn [good]. assert (Ew : s32 (m_l sl + 0xFFFFFFFF) = m_l sl - 1).
    { unfold s32. rewrite U3. replace (total (ref k) ts + 0x8000 + 0xFFFFFFFF + 2 ^ (32 - 1)) with (total (ref k) ts + 0x8000 - 1 + 2 ^ 31 + 1 * 2 ^ 32) by lia.
      rewrite Z.mod_add, Z.mod_small by lia. lia. }
    rewrite Ew. apply (slot_step s ts H i _ Hi k sl); [done|done|same|same| |by split_and!].
    right. exists g, G. unfold moved. vals. cbn. split_and!; (done || lia).
Qed.

Lemma free_good o k : ts !! i = Some (FR k) -> good ts i (Wait o s (FR k)).
Proof.
  intros Hi. pose proof (ok_slot _ _ H k) as Hs. pose proof (rests ts i _ Hi k) as R. unfold rest in R. vals.
  destruct (pool s !! k) as [sl|] eqn:Hk; cbn in Hs; [|lia]. destruct Hs as [(U1 & U2 & U3 & U4 & U5 & U6 & U7)|(g & G & _ & _ & _ & _ & _ & U6 & _)]; [|lia].
  assert (Hav : m_fAvailable sl = false) by (destruct (m_fAvailable sl); [cbn in U7; lia|done]). rewrite Hav in U7. cbn [Z.b2z] in U7.
  cbn [Wait]. unfold with_slot, Free, FInUse, FReset. rewrite Hk, U1, U3, Hav. cbn [Z.land Z.eqb negb andb Z.leb Z.compare good].
  apply (slot_step s ts H i _ Hi k sl); [done|done|same|same| |by split_and!].
  left. unfold moved. vals. cbn. split_and!; (done || lia).
Qed.

(** Every step keeps the invariant, and no check fails, unless the pool is full. *)
Lemma step_good o p : ts !! i = Some p -> (forall g, p = GW_alloc g -> Z.of_nat (length (pool s)) <= 0xFFFE \/ exists k, o = OpFound k) -> good ts i (gate_tstep o s p).
Proof.
  intros Hi Hfull. assert (Hmove : forall g p', gate_of p' = Some g -> (exists G, gates s !! g = Some G /\ count_ok p' (m_cWait G)) -> reg_of p' = None -> pend_of p' = None ->
    (forall x, hold x p' = hold x p /\ mid x p' = mid x p /\ ref x p' = ref x p /\ reg x p' = reg x p /\ pend x p' = pend x p /\ resv x p' = resv x p) -> good ts i (Next s p')).
  { intros g p' Hg (G & HG & Hc) Hr Hp Hw. cbn [good]. apply (silent s ts H i _ Hi); [done|]. by apply (thread_simple _ _ g G). }
  unfold gate_tstep. destruct p.
  - destruct o; try done. destruct (gates s !! g) as [G|] eqn:HG; [|done]. apply (Hmove g); [done|by exists G|done|done|by intros x; vals].
  - by apply crit_enter_good.
  - destruct (here_gate s ts H i _ Hi g eq_refl) as (G & HG & _). destruct (held s ts H i _ Hi g G HG ltac:(this)) as (Hs & _). cbn [crit_enter]. unfold with_gate. rewrite HG, Hs.
    cbn [Z.eqb OSSYNCAssert]. apply (Hmove g); [done|by exists G|done|done|by intros x; vals].
  - destruct (here_gate s ts H i _ Hi g eq_refl) as (G & HG & _). unfold in_range, with_gate. rewrite HG. destruct o; try done.
    + apply (Hmove g); [done|by exists G|done|done|by intros x; vals].
    + apply (Hmove g); [done|by exists G|done|done|by intros x; vals].
    + destruct (_ && _) eqn:Hr; [|done]. apply andb_prop in Hr as [?%Z.ltb_lt ?%Z.leb_le]. apply (Hmove g); [done|by exists G|done|done|by intros x; vals].
    + destruct (Z.ltb_spec 0 (m_cWait G)); [|done]. apply (Hmove g); [done|exists G; cbn; split; [done|lia]|done|done|by intros x; vals].
    + destruct (_ && _) eqn:Hr; [|done]. apply andb_prop in Hr as [?%Z.ltb_lt ?%Z.leb_le]. apply (Hmove g); [done|by exists G|done|done|by intros x; vals].
  - destruct (here_gate s ts H i _ Hi g eq_refl) as (G & HG & _). destruct (held s ts H i _ Hi g G HG ltac:(this)) as (Hs & _). cbn [crit_leave]. unfold with_gate. rewrite HG, Hs.
    cbn [Z.eqb OSSYNCAssert good]. destruct (ok_thread _ _ H i _ Hi) as (T1 & T2 & T3). apply (silent s ts H i _ Hi); [intros x; by destruct k; vals|]. by split_and!.
  - by apply crit_leave_good.
  - by apply GW_good.
  - apply alloc_good; [done|]. by apply (Hfull g).
  - by apply user_good.
  - by apply ref_good.
  - by apply acquire_good.
  - by apply unreference_good.
  - by apply free_good.
  - by apply release_good.
  - cbn [Release]. by apply (ksem_good (GR_ksem g irksem cToRelease)).
  - destruct (here_gate s ts H i _ Hi g eq_refl) as (G & HG & _). cbn [Release]. apply (ksem_good (GH_ksem g irksem cToRelease)); try done. by apply (thread_simple _ _ g G).
Qed.

End Steps.

(** *** Executions *)

Lemma gate_init_ok n m : Z.of_nat n < 2 ^ 15 -> ok (shared (gate_init n m)) (pcs (gate_init n m)).
Proof.
  intros Hn. unfold gate_init. cbn [shared pcs].
  assert (Hz : forall f : gate_pc -> Z, f (Out None) = 0 -> total f (replicate n (Out None)) = 0) by (intros f Hf; apply total_0; intros p [-> _]%elem_of_replicate; done).
  split.
  - by rewrite length_replicate.
  - done.
  - cbn. intros g G [-> _]%lookup_replicate_1. rewrite !Hz by done. unfold gate_ok. cbn. unfold irksemNil. split_and!; (done || lia).
  - intros k. cbn. rewrite !Hz by done. done.
  - intros i p [-> _]%lookup_replicate_1. by split_and!.
Qed.

Lemma reachable_ok n m c : Z.of_nat n < 2 ^ 15 -> rtc (step gate_tstep) (gate_init n m) c -> ok (shared c) (pcs c).
Proof.
  intros Hn. apply (invariant_reachable _ (fun c => ok (shared c) (pcs c))); [|by apply gate_init_ok]. intros c1 c2 H Hs. destruct Hs as [o s ts i p s' p' Hi E]. cbn [shared pcs] in *.
  pose proof (step_good s ts H i o p Hi) as G. rewrite E in G. apply G. intros g ->. destruct (Z.le_gt_cases (Z.of_nat (length (pool s))) 0xFFFE) as [Hle|Hgt]; [by left|right].
  cbn in E. rewrite (proj2 (Z.leb_gt _ _)) in E by lia. destruct o; try done. by eexists.
Qed.

(** The thread can take its next step without giving up a wait. *)
Definition moves (s : system) (p : gate_pc) : Prop := exists s' p', gate_tstep OpGo s p = Next s' p'.

Lemma moves_or_waits s ts i p : ok s ts -> ts !! i = Some p -> Z.of_nat (length (pool s)) <= 0xFFFE -> moves s p \/
  (exists r, p = Out r) \/ (exists g, p = Inside g) \/ (exists g m G, p = CE g m /\ gates s !! g = Some G /\ m_sem G = 0) \/
  exists g k sl, p = GW_acquire g k /\ pool s !! k = Some sl /\ m_count sl = 0.
Proof.
  intros H Hi Hroom. pose proof (step_good s ts H i OpGo p Hi ltac:(by left)) as G. destruct (gate_tstep OpGo s p) as [| |s' p'] eqn:E; [|done|left; by exists s', p']. right.
  destruct p; unfold gate_tstep in E; [left; by eexists| |by unfold crit_enter, with_gate, OSSYNCAssert in E; repeat case_match|right; left; by eexists|..].
  - right. right. left. destruct (here_gate s ts H i _ Hi g eq_refl) as (G1 & HG & _ & A1 & _). exists g, m, G1. split_and!; [done|done|]. cbn in E. unfold with_gate in E. rewrite HG in E.
    unfold sem_acquire in E. destruct m; destruct (Z.ltb_spec 0 (m_sem G1)); done || lia.
  - by unfold crit_leave, with_gate, OSSYNCAssert in E; repeat case_match.
  - by unfold crit_leave, with_gate, OSSYNCAssert in E; repeat case_match.
  - by unfold Wait, with_gate, change_gate, DEBUGAssert, OSSYNCAssert in E; repeat case_match.
  - by unfold Wait, with_gate, change_gate, DEBUGAssert, OSSYNCAssert in E; repeat case_match.
  - by unfold Wait, with_gate, with_slot, change_gate, OSSYNCAssert in E; repeat case_match.
  - by unfold Wait, with_gate, with_slot, OSSYNCAssert in E; repeat case_match.
  - right. right. right. destruct (ok_thread _ _ H i _ Hi) as (_ & T2 & _). destruct (used_slot s ts H irksem g (T2 g irksem eq_refl eq_refl)) as (sl & G1 & Hk & U1 & _ & _ & _ & _ & _ & U7 & _).
    exists g, irksem, sl. split_and!; [done|done|]. cbn in E. unfold Ksem, with_slot in E. rewrite Hk, U1, bool_decide_eq_true_2 in E by done. cbn in E. unfold sem_acquire in E.
    destruct (Z.ltb_spec 0 (m_count sl)); done || lia.
  - by unfold Wait, with_slot, OSSYNCAssert in E; repeat case_match.
  - by unfold Wait, with_slot, OSSYNCAssert in E; repeat case_match.
  - by unfold Release, with_gate, change_gate, OSSYNCAssert in E; repeat case_match.
  - by unfold Release, Ksem, with_slot, OSSYNCAssert in E; repeat case_match.
  - by unfold Release, Ksem, with_slot, OSSYNCAssert in E; repeat case_match.
Qed.

(** C32: in both builds, with fewer than 2^15 threads that use any number of gates and their
    critical sections in any interleaving, the only check that can fail is the one that the pool
    of kernel semaphores does not grow beyond 0xFFFF of them; all others hold: the kernel semaphore a thread waits on or releases always belongs to its gate,
    and no count overflows.  Two threads are never in the same critical section.  And a thread
    that waits is woken as often as it is released: on every kernel semaphore in use, the
    threads that wait are its units, those that releasing threads still owe it, and those the
    gate counts. *)
Theorem gate_correct n m c : Z.of_nat n < 2 ^ 15 -> rtc (step gate_tstep) (gate_init n m) c ->
  (forall i p o, pcs c !! i = Some p -> gate_tstep o (shared c) p = Fault -> exists g, p = GW_alloc g /\ 0xFFFE < Z.of_nat (length (pool (shared c)))) /\
  (forall i j p q g, i <> j -> pcs c !! i = Some p -> pcs c !! j = Some q -> hold g p = 1 -> hold g q = 0) /\
  (forall k sl, pool (shared c) !! k = Some sl -> 0 < total (reg k) (pcs c) -> exists g G, m_psyncobjUser sl = Some g /\ gates (shared c) !! g = Some G /\
     total (reg k) (pcs c) = m_count sl + total (pend k) (pcs c) + counted G (total (mid g) (pcs c)) k).
Proof.
  intros Hn Hr. pose proof (reachable_ok n m c Hn Hr) as H. split_and!.
  - intros i p o Hi E. destruct (Z.le_gt_cases (Z.of_nat (length (pool (shared c)))) 0xFFFE) as [Hle|Hgt].
    + pose proof (step_good _ _ H i o p Hi ltac:(by left)) as G. by rewrite E in G.
    + destruct p; try (pose proof (step_good _ _ H i o _ Hi ltac:(done)) as G; by rewrite E in G). by exists g.
  - intros i j p q g Hne Hi Hj Hh. assert (Hg : exists G, gates (shared c) !! g = Some G).
    { destruct (ok_thread _ _ H i p Hi) as (T1 & _). destruct (T1 g) as (G & HG & _); [|by exists G]. destruct p; weigh; by case_decide. }
    by apply (exclusive (shared c) (pcs c) H i p Hi g j q Hh Hg Hj).
  - intros k sl Hk Hreg. pose proof (ok_slot _ _ H k) as Hs. rewrite Hk in Hs. cbn in Hs. destruct Hs as [Hs|(g & G & U1 & U2 & _ & _ & _ & _ & _ & U)]; [lia|]. by exists g, G.
Qed.

(** C31: in both builds no wake-up is lost and no thread is stuck.  A thread that is inside a call can take its
    next step, or waits for a critical section that another one is in, who is between two
    calls or can take its next step; or it waits at its gate, and then a thread that
    releases it has still to add the units and can do so, or the gate counts every thread that
    waits on the same kernel semaphore. *)
Theorem gate_no_lost_wakeup n m c i p : Z.of_nat n < 2 ^ 15 -> rtc (step gate_tstep) (gate_init n m) c -> Z.of_nat (length (pool (shared c))) <= 0xFFFE -> pcs c !! i = Some p ->
  moves (shared c) p \/ (exists r, p = Out r) \/ (exists g, p = Inside g) \/
  (exists g md j q, p = CE g md /\ j <> i /\ pcs c !! j = Some q /\ hold g q = 1 /\ (q = Inside g \/ moves (shared c) q)) \/
  (exists g k G, p = GW_acquire g k /\ gates (shared c) !! g = Some G /\
     ((exists j q, pcs c !! j = Some q /\ 0 < pend k q /\ moves (shared c) q) \/
      (Z.to_nat (m_irksem G) = k /\ total (reg k) (pcs c) = m_cWait G - total (mid g) (pcs c)))).
Proof.
  intros Hn Hr Hroom Hi. pose proof (reachable_ok n m c Hn Hr) as H. pose proof (fun j q => moves_or_waits _ _ j q H) as Hmw.
  destruct (Hmw i p Hi Hroom) as [?|[?|[?|[(g & md & G & -> & HG & Hs)|(g & k & sl & -> & Hk & Hcnt)]]]]; [by left|by (right; left)|by (right; right; left)| |].
  - right. right. right. left. destruct (ok_gate _ _ H g G HG) as (_ & A2 & _). destruct (total_pos (hold g) (pcs c)) as (j & q & Hj & Hh); [lia|].
    pose proof (gate_weights g q) as W. exists g, md, j, q. split_and!; [done| |done|lia|].
    + intros ->. assert (q = CE g md) as -> by congruence. by vals.
    + destruct (Hmw j q Hj Hroom) as [?|[[r ->]|[[g2 ->]|[(g2 & m2 & G2 & -> & _)|(g2 & k2 & sl2 & -> & _)]]]]; [by right|by vals| |by vals|by vals].
      left. f_equal. vals. unfold at_ in Hh. case_decide; [congruence|lia].
  - right. right. right. right. destruct (ok_thread _ _ H i _ Hi) as (_ & T2 & _). destruct (used_slot _ _ H k g (T2 g k eq_refl eq_refl)) as (sl' & G & Hk' & U1 & U2 & _ & _ & _ & _ & _ & U8).
    assert (sl' = sl) as -> by congruence. exists g, k, G. split_and!; [done|done|]. pose proof (sums_nonneg k (pcs c)) as Sk.
    destruct (Z.eq_dec (total (pend k) (pcs c)) 0) as [Hz|Hnz].
    + right. pose proof (total_ge (reg k) (pcs c) i _ ltac:(intros q; apply gate_weights) Hi) as Hge. vals. unfold counted in U8. case_decide; [split; [done|lia]|lia].
    + left. destruct (total_pos (pend k) (pcs c)) as (j & q & Hj & Hp); [lia|]. exists j, q. split_and!; [done|done|].
      destruct (Hmw j q Hj Hroom) as [?|[[r ->]|[[g2 ->]|[(g2 & m2 & G2 & -> & _)|(g2 & k2 & sl2 & -> & _)]]]]; [done|by vals..].
Qed.

End Build.

(** A thread has waited at the gate, was released by another one, and waits again. *)
Definition gate_demo : conf system gate_pc := Conf (Sys [State 1 1 0] [Rksem 0x8001 false (Some 0%nat) 0]) [GW_acquire 0 0; Out None].

Lemma gate_demo_reached : rtc (step (gate_tstep true)) (gate_init 2 1) gate_demo.
Proof.
  apply (exec_steps _ ([(0%nat, OpEnter 0 Enter); (0%nat, OpGo); (0%nat, OpGo); (0%nat, OpWait)] ++ replicate 5 (0%nat, OpGo) ++
    [(1%nat, OpEnter 0 FTryEnter); (1%nat, OpGo); (1%nat, OpGo); (1%nat, OpReleaseAll)] ++ replicate 4 (1%nat, OpGo) ++ replicate 3 (0%nat, OpGo) ++
    [(0%nat, OpEnter 0 Enter); (0%nat, OpGo); (0%nat, OpGo); (0%nat, OpWait); (0%nat, OpGo); (0%nat, OpFound 0)] ++ replicate 3 (0%nat, OpGo))). vm_compute. reflexivity.
Qed.

Lemma gate_correct_witness : exists g G, m_psyncobjUser (Rksem 0x8001 false (Some 0%nat) 0) = Some g /\ gates (shared gate_demo) !! g = Some G /\ counted G 0 0 = 1.
Proof.
  destruct (gate_correct true 2 1 gate_demo ltac:(lia) gate_demo_reached) as (_ & _ & H). destruct (H 0%nat (Rksem 0x8001 false (Some 0%nat) 0) eq_refl eq_refl) as (g & G & Hu & HG & _).
  exists g, G. split_and!; [exact Hu|exact HG|]. injection Hu as <-. injection HG as <-. reflexivity.
Defined.

Lemma gate_no_lost_wakeup_witness : exists G, gates (shared gate_demo) !! 0%nat = Some G /\ total (reg 0) (pcs gate_demo) = m_cWait G - total (mid 0) (pcs gate_demo).
Proof.
  destruct (gate_no_lost_wakeup true 2 1 gate_demo 0%nat (GW_acquire 0 0) ltac:(lia) gate_demo_reached ltac:(cbn; lia) eq_refl) as [Hm|[Ho|[Hn|[Hc|(g & k & G & Hp & HG & _)]]]].
  - destruct Hm as (s' & p' & E). discriminate E.
  - destruct Ho as [r E]. discriminate E.
  - destruct Hn as [g E]. discriminate E.
  - destruct Hc as (g & md & j & q & E & _). discriminate E.
  - injection Hp as <- <-. exists G. split; [exact HG|]. injection HG as <-. reflexivity.
Defined.

End Gate.
