(* ===== verification/SemaphoreProofs.v ===== *)
(** * SemaphoreProofs: the invariant of the semaphores and their pool *)

From S2P Require Import Prelude Threads ControlWord Semaphore.

(** ** The word *)

(** [c] threads wait on the kernel semaphore [k]. *)
Definition enc (c : Z) (k : nat) : Z := - c * 2 ^ 16 + Z.of_nat k.

Lemma wait_word c k : 1 <= c <= 0x7FFF -> Z.of_nat k < 2 ^ 16 -> CSemaphoreState_wait c (Z.of_nat k) = enc c k.
Proof.
  intros Hc Hk. unfold CSemaphoreState_wait, enc.
  rewrite (wrapu_small 16 (Z.of_nat k)) by (unfold in_u; lia).
  replace (u16 (- c)) with (2 ^ 16 - c).
  2:{ unfold wrapu. replace (- c) with (2 ^ 16 - c + (-1) * 2 ^ 16) by lia. rewrite Z.mod_add, Z.mod_small by lia. lia. }
  rewrite Z.shiftl_mul_pow2 by lia.
  pose proof (Z.add_lor_land ((2 ^ 16 - c) * 2 ^ 16) (Z.of_nat k)) as E.
  assert (Hl : (2 ^ 16 - c) * 2 ^ 16 .& Z.of_nat k = 0).
  { replace ((2 ^ 16 - c) * 2 ^ 16) with (0 + 2 ^ 16 * (2 ^ 16 - c)) by lia.
    replace (Z.of_nat k) with (Z.of_nat k + 2 ^ 16 * 0) by lia.
    rewrite land_split, Z.land_0_l, Z.land_0_r by lia. lia. }
  rewrite Hl in E. replace (_ .| _) with ((2 ^ 16 - c) * 2 ^ 16 + Z.of_nat k) by lia.
  unfold wraps. replace ((2 ^ 16 - c) * 2 ^ 16 + Z.of_nat k + 2 ^ (32 - 1))
    with (- c * 2 ^ 16 + Z.of_nat k + 2 ^ 31 + 1 * 2 ^ 32) by lia.
  rewrite Z.mod_add, Z.mod_small by lia. lia.
Qed.

Lemma CWait_enc c k : 1 <= c <= 0x7FFF -> Z.of_nat k < 2 ^ 16 -> CWait (enc c k) = c.
Proof.
  intros Hc Hk. unfold CWait, enc. rewrite Z.shiftr_div_pow2 by lia.
  replace ((- c * 2 ^ 16 + Z.of_nat k) / 2 ^ 16) with (- c).
  - rewrite wraps_small by (unfold in_s; lia). lia.
  - symmetry. rewrite Z.div_add_l by lia. rewrite Z.div_small by lia. lia.
Qed.

Lemma Irksem_enc c k : Z.of_nat k < 2 ^ 16 -> Irksem (enc c k) = Z.of_nat k.
Proof.
  intros Hk. unfold Irksem, enc. change 0xFFFF with (Z.ones 16). rewrite Z.land_ones by lia.
  rewrite Z.add_comm, Z.mod_add, Z.mod_small by lia. lia.
Qed.

Lemma enc_neg c k : 1 <= c -> Z.of_nat k < 2 ^ 16 -> enc c k < 0.
Proof. unfold enc. lia. Qed.

(** The word of a semaphore: units, or waiters. *)
Definition word_ok (w : Z) : Prop :=
  0 <= w < 2 ^ 31 \/ exists c k, w = enc c k /\ 1 <= c <= 0x7FFF /\ Z.of_nat k <= 0xFFFE.

(** The threads the word counts as waiting on the kernel semaphore [k]. *)
Definition wc (k : nat) (w : Z) : Z :=
  if (w <? 0) && (Irksem w =? Z.of_nat k) then CWait w else 0.

Lemma wc_enc k c j : 1 <= c <= 0x7FFF -> Z.of_nat j <= 0xFFFE ->
  wc k (enc c j) = if decide (j = k) then c else 0.
Proof.
  intros Hc Hj. unfold wc. rewrite Irksem_enc, CWait_enc by lia.
  pose proof (enc_neg c j). replace (enc c j <? 0) with true by lia. cbn [andb].
  destruct (decide (j = k)) as [->|]; [by rewrite Z.eqb_refl|].
  replace (Z.of_nat j =? Z.of_nat k) with false by lia. done.
Qed.

Lemma wc_units k w : 0 <= w -> wc k w = 0.
Proof. intros H. unfold wc. replace (w <? 0) with false by lia. done. Qed.

Lemma wc_nonneg k w : word_ok w -> 0 <= wc k w.
Proof.
  intros [H|(c & j & -> & Hc & Hj)]; [rewrite wc_units; lia|]. rewrite wc_enc by easy. case_decide; lia.
Qed.

(** ** What a thread contributes to a kernel semaphore *)

Definition at_ (k a : nat) : Z := if decide (a = k) then 1 else 0.

Definition oat (k : nat) (a : option nat) : Z := match a with Some a => at_ k a | None => 0 end.

(** References it holds. *)
Definition ref_cont (k : nat) (c : cont) : Z :=
  match c with KReturn _ => 0 | KLoop _ _ _ a => oat k a | KWait _ _ j => at_ k j end.

Definition refk (k : nat) (p : pc) : Z :=
  match p with
  | A _ _ _ a | A_dec _ _ _ a _ | A_ref _ _ a _ => oat k a
  | A_pub _ _ a => at_ k a
  | A_join _ _ a st => oat k a + at_ k (Z.to_nat (Irksem st))
  | W _ _ j | TO _ j | TO_cas _ j _ | TA _ j => at_ k j
  | UN j c => at_ k j + ref_cont k c
  | FR j c => ref_cont k c
  | _ => 0
  end.

(** It waits on [k]: it was counted in a word and has not taken a unit or left. *)
Definition reg_cont (k : nat) (c : cont) : Z := match c with KWait _ _ j => at_ k j | _ => 0 end.

Definition regk (k : nat) (p : pc) : Z :=
  match p with
  | W _ _ j | TO _ j | TO_cas _ j _ | TA _ j => at_ k j
  | UN _ c | FR _ c => reg_cont k c
  | _ => 0
  end.

(** It has allocated [k] and not published it. *)
Definition priv_cont (k : nat) (c : cont) : Z := match c with KLoop _ _ _ a => oat k a | _ => 0 end.

Definition privk (k : nat) (p : pc) : Z :=
  match p with
  | A _ _ _ a | A_dec _ _ _ a _ | A_ref _ _ a _ | A_join _ _ a _ => oat k a
  | A_pub _ _ a => at_ k a
  | UN _ c | FR _ c => priv_cont k c
  | _ => 0
  end.

(** It is about to release units of [k]. *)
Definition pendk (k : nat) (p : pc) : Z := match p with KS _ j n => at_ k j * Z.max 0 n | _ => 0 end.

(** It allocates or frees the slot. *)
Definition resvk (k : nat) (p : pc) : Z := match p with A_user _ _ j | FR j _ => at_ k j | _ => 0 end.

(** Its wait timed out, after a releaser counted it out. *)
Definition takk (k : nat) (p : pc) : Z := match p with TA _ j => at_ k j | _ => 0 end.

(** The kernel semaphores a thread relies on, with the semaphore that uses them. *)
Definition oclaim (sem : nat) (a : option nat) : list (nat * nat) :=
  match a with Some a => [(sem, a)] | None => [] end.

Definition claims_cont (c : cont) : list (nat * nat) :=
  match c with KReturn _ => [] | KLoop sem _ _ a => oclaim sem a | KWait sem _ j => [(sem, j)] end.

Definition claims (p : pc) : list (nat * nat) :=
  match p with
  | A sem _ _ a | A_dec sem _ _ a _ | A_ref sem _ a _ | A_join sem _ a _ => oclaim sem a
  | A_pub sem _ j | W sem _ j | TO sem j | TO_cas sem j _ | TA sem j | KS sem j _ => [(sem, j)]
  | UN _ c | FR _ c => claims_cont c
  | _ => []
  end.

(** The semaphores a thread works on. *)
Definition sems_cont (c : cont) : list nat :=
  match c with KReturn _ => [] | KLoop sem _ _ _ | KWait sem _ _ => [sem] end.

Definition sems (p : pc) : list nat :=
  match p with
  | Idle _ => []
  | D sem _ | D_cas sem _ _ _ | A sem _ _ _ | A_dec sem _ _ _ _ | A_alloc sem _ | A_user sem _ _
  | A_pub sem _ _ | A_ref sem _ _ _ | A_join sem _ _ _ | W sem _ _ | TO sem _ | TO_cas sem _ _ | TA sem _
  | I sem _ | I_cas sem _ _ | R sem _ | R_cas sem _ _ | RA sem | RA_cas sem _ | KS sem _ _ => [sem]
  | UN _ c | FR _ c => sems_cont c
  end.

(** The values a thread carries. *)
Definition pc_ok (nslots : nat) (p : pc) : Prop :=
  match p with
  | D_cas _ _ st en => 0 < st /\ en = st - 1 \/ st = - 2 ^ 31
  | A_dec _ _ _ _ st => 0 < st
  | A_ref _ _ _ st | A_join _ _ _ st => st < 0 /\ (Z.to_nat (Irksem st) < nslots)%nat
  | TO_cas _ k st => st < 0 /\ Irksem st = Z.of_nat k
  | I _ n | R _ n | R_cas _ n _ => 0 < n < 2 ^ 31
  | I_cas _ n st => 0 < n < 2 ^ 31 /\ 0 <= st
  | RA_cas _ st => st < 0
  | KS _ _ n => 0 < n
  | _ => True
  end.

(** ** The invariant *)

Definition user_of (slots : list CReferencedKernelSemaphore) (k : nat) : option nat :=
  slots !! k ≫= m_psyncobjUser.

(** A slot nobody uses: available, or about to be allocated or freed. *)
Definition slot_unused (sl : CReferencedKernelSemaphore) (ref reg priv pend resv c : Z) : Prop :=
  m_l sl = ref /\ m_psyncobjUser sl = None /\ m_count sl = 0 /\
  reg = 0 /\ priv = 0 /\ pend = 0 /\ c = 0 /\ resv + Z.b2z (m_fAvailable sl) = 1.

(** A slot a semaphore uses: every waiting thread is counted in the word, or a unit
    is available or about to be released for it. *)
Definition slot_used (sl : CReferencedKernelSemaphore) (ref reg priv pend resv tak c : Z) : Prop :=
  m_l sl = ref + 0x8000 /\ is_Some (m_psyncobjUser sl) /\ m_fAvailable sl = false /\ resv = 0 /\
  0 <= m_count sl /\ reg = m_count sl + pend + c /\ (priv = 0 \/ priv = 1 /\ reg = 0) /\ (tak = 0 \/ c = 0).

(** A slot, or none, with [ref] references, [reg] waiting threads, [priv] threads that
    have it unpublished, [pend] units about to be released, [resv] threads that
    allocate or free it, [tak] threads that will take a unit after a timeout, and [c]
    waiters counted in words. *)
Definition slot_ok (osl : option CReferencedKernelSemaphore) (ref reg priv pend resv tak c : Z) : Prop :=
  match osl with
  | Some sl => slot_unused sl ref reg priv pend resv c \/ slot_used sl ref reg priv pend resv tak c
  | None => ref = 0 /\ reg = 0 /\ priv = 0 /\ pend = 0 /\ resv = 0 /\ c = 0
  end.

(** The slot [k] with the contributions of the threads. *)
Definition slot_at (k : nat) (osl : option CReferencedKernelSemaphore) (ts : list pc) (c : Z) : Prop :=
  slot_ok osl (total (refk k) ts) (total (regk k) ts) (total (privk k) ts) (total (pendk k) ts)
    (total (resvk k) ts) (total (takk k) ts) c.

Definition used_at (k : nat) (sl : CReferencedKernelSemaphore) (ts : list pc) (c : Z) : Prop :=
  slot_used sl (total (refk k) ts) (total (regk k) ts) (total (privk k) ts) (total (pendk k) ts)
    (total (resvk k) ts) (total (takk k) ts) c.

Definition slots_ok (words : list Z) (slots : list CReferencedKernelSemaphore) (ts : list pc) : Prop :=
  forall k, slot_at k (slots !! k) ts (total (wc k) words).

(** A thread knows only semaphores that exist, and the kernel semaphores it relies on
    are used by the semaphore it works on. *)
Definition thread_ok (s : shared_state) (p : pc) : Prop :=
  pc_ok (length (m_mpirksemrksem s)) p /\
  Forall (fun sem => (sem < length (m_cAvail s))%nat) (sems p) /\
  Forall (fun x => user_of (m_mpirksemrksem s) x.2 = Some x.1) (claims p).

(** The kernel semaphore in the word of a semaphore is used by it. *)
Definition words_ok (s : shared_state) : Prop :=
  forall sem w, m_cAvail s !! sem = Some w ->
    word_ok w /\ (w < 0 -> user_of (m_mpirksemrksem s) (Z.to_nat (Irksem w)) = Some sem).

Definition sem_inv (c : conf shared_state pc) : Prop :=
  Z.of_nat (length (pcs c)) < 2 ^ 14 /\ Z.of_nat (length (m_mpirksemrksem (shared c))) <= 0xFFFF /\
  words_ok (shared c) /\ slots_ok (m_cAvail (shared c)) (m_mpirksemrksem (shared c)) (pcs c) /\
  Forall (thread_ok (shared c)) (pcs c).

(** ** Facts on weights *)

Ltac weights :=
  cbn [refk ref_cont regk reg_cont privk priv_cont pendk resvk takk oat] in *; unfold at_ in *.

Lemma weights_nonneg k p :
  0 <= refk k p /\ 0 <= regk k p /\ 0 <= privk k p /\ 0 <= pendk k p /\ 0 <= resvk k p /\ 0 <= takk k p.
Proof. destruct p; weights; unfold ref_cont, reg_cont, priv_cont, oat, at_; repeat case_match; lia. Qed.

(** A thread holds at most two references, and waiting or owning takes one. *)
Lemma weights_le k p : refk k p <= 2 /\ regk k p + privk k p <= refk k p /\ takk k p <= regk k p /\ regk k p <= 1.
Proof. destruct p; weights; unfold ref_cont, reg_cont, priv_cont, oat, at_; repeat case_match; lia. Qed.

Lemma claim_weight s p x :
  thread_ok s p -> x ∈ claims p -> 1 <= regk x.2 p + privk x.2 p + pendk x.2 p.
Proof.
  intros (Hok & _) Hx. destruct x as [sem k]. cbn [snd].
  destruct p; cbn [claims] in Hx; try (by apply elem_of_nil in Hx);
    try match type of Hx with _ ∈ oclaim _ ?a => destruct a; cbn [oclaim] in Hx end;
    try match type of Hx with _ ∈ claims_cont ?a => destruct a as [|? ? ? []|]; cbn in Hx end;
    try (by apply elem_of_nil in Hx);
    apply list_elem_of_singleton in Hx; simplify_eq; weights; unfold at_; rewrite decide_True by done;
    cbn [pc_ok] in Hok; repeat case_match; lia.
Qed.
