(* ===== verification/SemaphoreInv.v ===== *)
(** * SemaphoreInv: every step keeps the invariant of the semaphores *)

From S2P Require Import Prelude Threads ControlWord Semaphore SemaphoreProofs.

(** ** Sums over the threads *)

(** The sums for the kernel semaphore [k], in a configuration with a thread at [p]. *)
Lemma sem_sums k ts (i : nat) p : Z.of_nat (length ts) < 2 ^ 14 -> ts !! i = Some p ->
  (refk k p <= total (refk k) ts < 2 ^ 15) /\ (regk k p <= total (regk k) ts < 2 ^ 14) /\
  (privk k p <= total (privk k) ts) /\ (pendk k p <= total (pendk k) ts) /\ (resvk k p <= total (resvk k) ts) /\
  (takk k p <= total (takk k) ts) /\
  total (regk k) ts - regk k p + (total (privk k) ts - privk k p) <= total (refk k) ts - refk k p /\
  total (takk k) ts - takk k p <= total (regk k) ts - regk k p.
Proof.
  intros Hn Hi.
  pose proof (total_rest (fun p => regk k p + privk k p) (refk k) ts i p ltac:(intros q; apply weights_le) Hi) as H1.
  pose proof (total_rest (takk k) (regk k) ts i p ltac:(intros q; apply weights_le) Hi) as H2.
  pose proof (total_le (regk k) (fun _ => 1) ts ltac:(intros q; apply weights_le)) as H3.
  pose proof (total_le (refk k) (fun _ => 1 + 1) ts ltac:(intros q; apply (weights_le k q))) as H4.
  rewrite (total_add (regk k)) in H1. rewrite (total_add (fun _ => 1)) in H4. rewrite total_1 in *.
  split_and!; try lia; apply (total_ge _ _ i); try done; intros q; apply weights_nonneg.
Qed.

Lemma sem_sums_nonneg k ts :
  0 <= total (regk k) ts /\ 0 <= total (privk k) ts /\ 0 <= total (pendk k) ts /\ 0 <= total (resvk k) ts /\
  0 <= total (takk k) ts /\ 0 <= total (refk k) ts.
Proof. split_and!; apply total_nonneg; intros p; apply weights_nonneg. Qed.

(** ** What changes *)

(** The slot [k] when the thread at [p] has moved to [p']. *)
Definition slot_moved (k : nat) (osl : option CReferencedKernelSemaphore) (ts : list pc) (p p' : pc) (c : Z) : Prop :=
  slot_ok osl (total (refk k) ts - refk k p + refk k p') (total (regk k) ts - regk k p + regk k p')
    (total (privk k) ts - privk k p + privk k p') (total (pendk k) ts - pendk k p + pendk k p')
    (total (resvk k) ts - resvk k p + resvk k p') (total (takk k) ts - takk k p + takk k p') c.

Lemma thread_ok_mono s s' p :
  length (m_cAvail s') = length (m_cAvail s) ->
  (length (m_mpirksemrksem s) <= length (m_mpirksemrksem s'))%nat ->
  Forall (fun x => user_of (m_mpirksemrksem s') x.2 = Some x.1) (claims p) ->
  thread_ok s p -> thread_ok s' p.
Proof.
  intros Hw Hl Hc (H1 & H2 & _). split_and!; [|by rewrite Hw|done].
  destruct p; cbn [pc_ok] in *; try done; destruct H1; split; lia.
Qed.

(** A thread moves from [p] to [p'] and the shared state from [s] to [s'].  A slot that
    changes its user is one no other thread relies on. *)
Lemma inv_update s ts (i : nat) p s' p' :
  sem_inv (Conf s ts) -> ts !! i = Some p ->
  length (m_cAvail s') = length (m_cAvail s) ->
  (length (m_mpirksemrksem s) <= length (m_mpirksemrksem s'))%nat ->
  Z.of_nat (length (m_mpirksemrksem s')) <= 0xFFFF ->
  words_ok s' -> thread_ok s' p' ->
  (forall k, slot_moved k (m_mpirksemrksem s' !! k) ts p p' (total (wc k) (m_cAvail s'))) ->
  (forall k, user_of (m_mpirksemrksem s') k = user_of (m_mpirksemrksem s) k \/
      total (regk k) ts - regk k p + (total (privk k) ts - privk k p) + (total (pendk k) ts - pendk k p) <= 0) ->
  sem_inv (Conf s' (<[i := p']> ts)).
Proof.
  intros (Hn & Hl & Hw & Hs & Ht) Hi Hlw Hls Hls' Hw' Hp' Hs' Hu. cbn [shared pcs] in *.
  unfold sem_inv. cbn [shared pcs]. rewrite length_insert. split_and!; [done..| |].
  { intros k. unfold slot_at. rewrite !(total_insert _ _ _ _ _ Hi). apply Hs'. }
  apply list.Forall_forall. intros q [j Hj]%list_elem_of_lookup.
  rewrite list_lookup_insert_Some in Hj. destruct Hj as [(-> & -> & _)|[Hij Hj]]; [done|].
  rewrite Forall_lookup in Ht. pose proof (Ht _ _ Hj) as Hq.
  apply (thread_ok_mono s); [done..| |done]. apply list.Forall_forall. intros x Hx.
  destruct (Hu x.2) as [->|Hz].
  - destruct Hq as (_ & _ & Hq). rewrite list.Forall_forall in Hq. by apply Hq.
  - exfalso. pose proof (claim_weight s q x Hq Hx) as H1.
    pose proof (total_ge2 (fun p => regk x.2 p + privk x.2 p + pendk x.2 p) ts i j p q
      ltac:(intros r; pose proof (weights_nonneg x.2 r); lia) Hi Hj ltac:(done)) as H2.
    rewrite !total_add in H2. lia.
Qed.

(** Only the position changes. *)
Lemma inv_keep s ts (i : nat) p p' :
  sem_inv (Conf s ts) -> ts !! i = Some p -> thread_ok s p' ->
  (forall k, slot_at k (m_mpirksemrksem s !! k) ts (total (wc k) (m_cAvail s)) ->
    slot_moved k (m_mpirksemrksem s !! k) ts p p' (total (wc k) (m_cAvail s))) ->
  sem_inv (Conf s (<[i := p']> ts)).
Proof.
  intros HI Hi Hp' Hs. pose proof HI as (Hn & Hl & Hw & Hsl & Ht). cbn [shared pcs] in *.
  apply (inv_update s ts i p); auto.
Qed.

(** The word of a semaphore changes. *)
Lemma inv_word s ts (i : nat) p p' sem w w' :
  sem_inv (Conf s ts) -> ts !! i = Some p -> m_cAvail s !! sem = Some w ->
  word_ok w' -> (w' < 0 -> user_of (m_mpirksemrksem s) (Z.to_nat (Irksem w')) = Some sem) ->
  thread_ok s p' ->
  (forall k, slot_at k (m_mpirksemrksem s !! k) ts (total (wc k) (m_cAvail s)) ->
    slot_moved k (m_mpirksemrksem s !! k) ts p p' (total (wc k) (m_cAvail s) - wc k w + wc k w')) ->
  sem_inv (Conf (set_word sem w' s) (<[i := p']> ts)).
Proof.
  intros HI Hi Hsem Hok Hu Hp' Hs. pose proof HI as (Hn & Hl & Hw & Hsl & Ht). cbn [shared pcs] in *.
  apply (inv_update s ts i p); auto; cbn [set_word m_cAvail m_mpirksemrksem].
  - apply length_insert.
  - intros sem' w1. cbn [set_word m_cAvail m_mpirksemrksem]. rewrite list_lookup_insert_Some.
    intros [(-> & <- & _)|[_ Hlk]]; [done|by apply Hw].
  - apply (thread_ok_mono s); cbn [set_word m_cAvail m_mpirksemrksem]; auto; [apply length_insert|apply Hp'].
  - intros k. rewrite (total_insert _ _ _ _ _ Hsem). by apply Hs.
Qed.

(** A slot changes; its user only if no other thread and no word relies on it. *)
Lemma inv_slot s ts (i : nat) p p' k sl sl' :
  sem_inv (Conf s ts) -> ts !! i = Some p -> m_mpirksemrksem s !! k = Some sl ->
  thread_ok (set_slot k sl' s) p' ->
  (forall j, j <> k ->
    refk j p' = refk j p /\ regk j p' = regk j p /\ privk j p' = privk j p /\ pendk j p' = pendk j p /\
    resvk j p' = resvk j p /\ takk j p' = takk j p) ->
  slot_moved k (Some sl') ts p p' (total (wc k) (m_cAvail s)) ->
  m_psyncobjUser sl' = m_psyncobjUser sl \/
    total (regk k) ts - regk k p + (total (privk k) ts - privk k p) + (total (pendk k) ts - pendk k p) <= 0 /\
    (forall sem w, m_cAvail s !! sem = Some w -> w < 0 -> Z.to_nat (Irksem w) <> k) ->
  sem_inv (Conf (set_slot k sl' s) (<[i := p']> ts)).
Proof.
  intros HI Hi Hk Hp' Hj Hs Hu. pose proof HI as (Hn & Hl & Hw & Hsl & Ht). cbn [shared pcs] in *.
  assert (Huser : forall j, j <> k ->
    user_of (m_mpirksemrksem (set_slot k sl' s)) j = user_of (m_mpirksemrksem s) j).
  { intros j Hjk. unfold user_of. cbn [set_slot m_mpirksemrksem]. by rewrite list_lookup_insert_ne. }
  assert (Huserk : user_of (m_mpirksemrksem (set_slot k sl' s)) k = m_psyncobjUser sl').
  { unfold user_of. cbn [set_slot m_mpirksemrksem]. rewrite list_lookup_insert_eq; [done|].
    by apply lookup_lt_is_Some_1. }
  apply (inv_update s ts i p); auto.
  - cbn [set_slot m_mpirksemrksem]. rewrite length_insert. lia.
  - cbn [set_slot m_mpirksemrksem]. rewrite length_insert. lia.
  - intros sem w Hlk. destruct (Hw sem w Hlk) as [Hok Hneg]. split; [done|]. intros Hw0. specialize (Hneg Hw0).
    destruct (decide (Z.to_nat (Irksem w) = k)) as [Hwk|Hwk]; [|by rewrite Huser].
    rewrite Hwk, Huserk. destruct Hu as [->|[_ Hno]]; [|exfalso; by eapply Hno].
    unfold user_of in Hneg. rewrite Hwk, Hk in Hneg. exact Hneg.
  - intros j. destruct (decide (j = k)) as [->|Hjk].
    + cbn [set_slot m_mpirksemrksem m_cAvail]. rewrite list_lookup_insert_eq by by apply lookup_lt_is_Some_1. exact Hs.
    + specialize (Hj j Hjk). unfold slot_moved. destruct Hj as (-> & -> & -> & -> & -> & ->). rewrite !Z.sub_add.
      cbn [set_slot m_mpirksemrksem m_cAvail]. rewrite list_lookup_insert_ne by done. apply Hsl.
  - intros j. destruct (decide (j = k)) as [->|Hjk]; [|left; by apply Huser].
    destruct Hu as [Hu|[Hu _]]; [left|by right]. rewrite Huserk, Hu. unfold user_of. by rewrite Hk.
Qed.

(** No weight changes. *)
Lemma inv_silent s ts (i : nat) p p' :
  sem_inv (Conf s ts) -> ts !! i = Some p -> thread_ok s p' ->
  (forall k, refk k p' = refk k p /\ regk k p' = regk k p /\ privk k p' = privk k p /\ pendk k p' = pendk k p /\
    resvk k p' = resvk k p /\ takk k p' = takk k p) ->
  sem_inv (Conf s (<[i := p']> ts)).
Proof.
  intros HI Hi Hp' Hk. apply (inv_keep s ts i p); [done..|]. intros k.
  unfold slot_moved. destruct (Hk k) as (-> & -> & -> & -> & -> & ->). by rewrite !Z.sub_add.
Qed.

(** ** Facts at a step *)

Lemma inv_thread s ts (i : nat) p : sem_inv (Conf s ts) -> ts !! i = Some p -> thread_ok s p.
Proof. intros (_ & _ & _ & _ & Ht) Hi. rewrite Forall_lookup in Ht. by apply (Ht i). Qed.

Lemma claim_user s p sem k : thread_ok s p -> claims p = [(sem, k)] -> user_of (m_mpirksemrksem s) k = Some sem.
Proof. intros (_ & _ & H) Hc. rewrite Hc in H. by inversion H. Qed.

Lemma user_lookup slots k sem : user_of slots k = Some sem ->
  exists sl, slots !! k = Some sl /\ m_psyncobjUser sl = Some sem.
Proof. unfold user_of. destruct (slots !! k) as [sl|]; [|done]. intros H. by exists sl. Qed.

Lemma inv_wc_nonneg s ts k : sem_inv (Conf s ts) -> 0 <= total (wc k) (m_cAvail s).
Proof.
  intros (_ & _ & Hw & _). cbn [shared] in Hw.
  assert (Hf : Forall (fun w => 0 <= wc k w) (m_cAvail s)).
  { apply Forall_lookup. intros j w Hj. apply wc_nonneg. by eapply Hw. }
  induction Hf; cbn [total]; lia.
Qed.

(** A kernel semaphore with a user. *)
Lemma inv_used s ts k sem : sem_inv (Conf s ts) -> user_of (m_mpirksemrksem s) k = Some sem ->
  exists sl, m_mpirksemrksem s !! k = Some sl /\ m_psyncobjUser sl = Some sem /\ Z.of_nat k <= 0xFFFE /\
    used_at k sl ts (total (wc k) (m_cAvail s)) /\ 0 <= total (wc k) (m_cAvail s).
Proof.
  intros HI (sl & Hk & Hu)%user_lookup. pose proof (inv_wc_nonneg _ _ k HI) as H0. revert HI. intros (_ & Hl & _ & Hs & _). cbn [shared pcs] in *. exists sl.
  split_and!; [done..| | |done].
  - apply lookup_lt_Some in Hk. lia.
  - specialize (Hs k). rewrite Hk in Hs. destruct Hs as [(_ & Hn & _)|Hs]; [congruence|done].
Qed.

(** A word with waiters. *)
Lemma inv_neg s ts sem w : sem_inv (Conf s ts) -> m_cAvail s !! sem = Some w -> w < 0 ->
  exists c k, w = enc c k /\ 1 <= c <= 0x7FFF /\ user_of (m_mpirksemrksem s) k = Some sem /\
    Irksem w = Z.of_nat k /\ CWait w = c /\ Z.to_nat (Irksem w) = k /\ Z.of_nat k <= 0xFFFE.
Proof.
  intros (_ & Hl & Hw & _) Hsem Hneg. destruct (Hw _ _ Hsem) as [[H|(c & k & -> & Hc & Hk)] Hu]; [lia|].
  specialize (Hu Hneg). rewrite Irksem_enc, Nat2Z.id in Hu by lia. exists c, k.
  rewrite Irksem_enc, CWait_enc, Nat2Z.id by lia. done.
Qed.

(** The waiters of a kernel semaphore are counted in the word of its user only. *)
Lemma inv_wc s ts k sem w : sem_inv (Conf s ts) -> user_of (m_mpirksemrksem s) k = Some sem ->
  m_cAvail s !! sem = Some w -> total (wc k) (m_cAvail s) = wc k w.
Proof.
  intros HI Hu Hsem. apply (total_single _ _ sem); [done|]. intros j q Hj Hne.
  destruct (Z.lt_ge_cases q 0) as [Hq|Hq]; [|apply wc_units; lia].
  destruct (inv_neg _ _ _ _ HI Hj Hq) as (c & k' & -> & Hc & Hu' & _ & _ & _ & Hk').
  rewrite wc_enc by done. rewrite decide_False by (intros ->; congruence). done.
Qed.

Lemma inv_word_lookup s sem : (sem < length (m_cAvail s))%nat -> exists w, m_cAvail s !! sem = Some w.
Proof. intros H. by apply lookup_lt_is_Some in H. Qed.

(** ** Steps *)

(** Open the accesses of a step. *)
Ltac open_step E :=
  repeat first
    [ progress unfold with_word, with_slot, Ksem, OSSYNCAssert, sem_acquire, call in E
    | progress cbv zeta in E
    | match type of E with
      | Next _ _ = Next _ _ => injection E as <- <-
      | Fault = _ => discriminate E
      | Blocked = _ => discriminate E
      | (match ?x with _ => _ end) = _ => destruct x eqn:?; try discriminate E
      end ].

(** The new position knows what it relies on. *)
Ltac thread Hp :=
  destruct Hp as (Hp1 & Hp2 & Hp3); cbn [pc_ok sems claims] in Hp1, Hp2, Hp3;
  split_and!; cbn [pc_ok sems sems_cont claims claims_cont oclaim unref_alloc resume]; auto; try lia.

Ltac silent HI Hi Hp :=
  apply (inv_silent _ _ _ _ _ HI Hi); [thread Hp | intros k0; weights; split_and!; done].

(** An exchange has found the word it expected. *)
Ltac cas :=
  repeat match goal with
    | H : negb (_ =? _) = false |- _ => apply negb_false_iff in H
    | H : (?a =? _) = true, Hl : _ = Some ?a |- _ => apply Z.eqb_eq in H; rewrite H in *; clear H
    end.

(** The semaphore's word counts waiters. *)
Ltac waiters HI Hw c k :=
  destruct (inv_neg _ _ _ _ HI Hw) as (c & k & -> & Hc & Hu & HIr & HCW & HIn & Hk);
  [lia | rewrite ?HIn, ?HIr, ?HCW in *].

(** The slot of the semaphore, when the thread moves. *)
Ltac slot_solve :=
  unfold slot_at, slot_moved in *;
  match goal with
  | H : slot_ok ?o _ _ _ _ _ _ _ |- slot_ok ?o _ _ _ _ _ _ _ =>
      let sl0 := fresh "sl0" in
      revert H; destruct o as [sl0|] eqn:?; intros H; cbn [slot_ok] in *;
      [ destruct H as [H|H]; [left; unfold slot_unused in * | right; unfold slot_used in *];
        simplify_eq; destruct_and?; split_and?; first [done | lia | congruence]
      | simplify_eq; lia ]
  end.

(** The values [FDecAvail] computes. *)
Lemma FDecAvail_values z :
  let en := s32 (z - 1) .& 0x7FFFFFFF in
  0 < s32 (en + 1) /\ en = s32 (en + 1) - 1 \/ s32 (en + 1) = - 2 ^ 31.
Proof.
  cbv zeta. change 0x7FFFFFFF with (Z.ones 31). rewrite Z.land_ones by lia.
  pose proof (Z.mod_pos_bound (s32 (z - 1)) (2 ^ 31) ltac:(lia)) as H.
  generalize dependent (s32 (z - 1) mod 2 ^ 31). intros en H.
  destruct (decide (en = 2 ^ 31 - 1)) as [->|]; [by right|left].
  rewrite wraps_small by (unfold in_s; lia). lia.
Qed.

(** The word is above its least value, so the assertion of [FDecAvail] holds. *)
Lemma word_ok_min w : word_ok w -> - 2 ^ 31 < w < 2 ^ 31.
Proof. intros [H|(c & k & -> & Hc & Hk)]; [lia|]. unfold enc. lia. Qed.

Lemma word_units w : 0 <= w < 2 ^ 31 -> word_ok w.
Proof. by left. Qed.

(** Units are taken or added while no thread waits. *)
Lemma inv_units s ts (i : nat) p p' sem w w' :
  sem_inv (Conf s ts) -> ts !! i = Some p -> m_cAvail s !! sem = Some w ->
  0 <= w -> 0 <= w' < 2 ^ 31 -> thread_ok s p' ->
  (forall k, slot_at k (m_mpirksemrksem s !! k) ts (total (wc k) (m_cAvail s)) ->
    slot_moved k (m_mpirksemrksem s !! k) ts p p' (total (wc k) (m_cAvail s))) ->
  sem_inv (Conf (set_word sem w' s) (<[i := p']> ts)).
Proof.
  intros HI Hi Hw Hw0 Hw' Hp' Hs. apply (inv_word s ts i p p' sem w); auto; [by apply word_units|lia|].
  intros k Hk. rewrite !wc_units, Z.sub_add by lia. by apply Hs.
Qed.

Lemma FDecAvail_inv g_cSpinMax s ts (i : nat) p s' p' :
  sem_inv (Conf s ts) -> ts !! i = Some p -> FDecAvail g_cSpinMax s p = Next s' p' -> sem_inv (Conf s' (<[i := p']> ts)).
Proof.
  intros HI Hi E. pose proof (inv_thread _ _ _ _ HI Hi) as Hp.
  destruct p; cbn [FDecAvail] in E; try discriminate E; open_step E; try (silent HI Hi Hp; fail).
  - silent HI Hi Hp. apply FDecAvail_values.
  - pose proof HI as (_ & _ & Hw & _). destruct (Hw _ _ Heqo) as [Hok _]. apply word_ok_min in Hok.
    pose proof Hp as (Hp' & _). cbn [pc_ok] in Hp'.
    eapply inv_units; eauto; [lia|lia|by thread Hp|]. intros k Hk. unfold slot_moved. weights. by rewrite !Z.sub_add.
Qed.

Lemma FIncAvail_inv s ts (i : nat) p s' p' :
  sem_inv (Conf s ts) -> ts !! i = Some p -> FIncAvail s p = Next s' p' -> sem_inv (Conf s' (<[i := p']> ts)).
Proof.
  intros HI Hi E. pose proof (inv_thread _ _ _ _ HI Hi) as Hp.
  destruct p; cbn [FIncAvail] in E; try discriminate E; open_step E; try (silent HI Hi Hp; fail).
  - silent HI Hi Hp. split; [lia|]. apply Z.land_nonneg. lia.
  - pose proof Hp as (Hp' & _). cbn [pc_ok] in Hp'.
    eapply inv_units; eauto; [lia|lia|by thread Hp|]. intros k Hk. unfold slot_moved. weights. by rewrite !Z.sub_add.
Qed.

(** A releaser counts waiters out of the word, and will release units for them. *)
Lemma inv_count_out s ts (i : nat) p sem c k n w' :
  sem_inv (Conf s ts) -> ts !! i = Some p -> m_cAvail s !! sem = Some (enc c k) ->
  1 <= c <= 0x7FFF -> Z.of_nat k <= 0xFFFE -> 1 <= n <= c -> thread_ok s (KS sem k n) ->
  (n = c /\ 0 <= w' < 2 ^ 31 \/ n < c /\ w' = enc (c - n) k) ->
  (forall k, refk k p = 0 /\ regk k p = 0 /\ privk k p = 0 /\ pendk k p = 0 /\ resvk k p = 0 /\ takk k p = 0) ->
  sem_inv (Conf (set_word sem w' s) (<[i := KS sem k n]> ts)).
Proof.
  intros HI Hi Hw Hc Hk Hn Hp' Hw' H0. pose proof (claim_user _ _ sem k Hp' ltac:(done)) as Hu.
  eapply inv_word; eauto.
  - destruct Hw' as [[-> H]|[H ->]]; [by left|right]. exists (c - n), k. split; [done|lia].
  - intros Hneg. destruct Hw' as [[-> H]|[H ->]]; [lia|]. rewrite Irksem_enc, Nat2Z.id by lia. done.
  - intros j Hj. destruct (H0 j) as (E1 & E2 & E3 & E4 & E5 & E6).
    pose proof (wc_enc j c k ltac:(lia) ltac:(lia)) as Ec.
    assert (Ec' : wc j w' = if decide (k = j) then c - n else 0).
    { destruct Hw' as [[-> H]|[H ->]]; [rewrite wc_units by lia; case_decide; lia|apply wc_enc; lia]. }
    unfold slot_moved. rewrite E1, E2, E3, E4, E5, E6, Ec, Ec'. cbn [refk regk privk pendk resvk takk].
    destruct (inv_used _ _ _ _ HI Hu) as (sl & Hlk & Hsl & _ & _ & _). unfold at_.
    pose proof (inv_wc _ _ _ _ _ HI Hu Hw) as Hwc.
    destruct (decide (k = j)) as [->|Hkj]; [rewrite Ec in Hwc|]; slot_solve.
Qed.

(** A unit of the kernel semaphore is released, or taken by a thread that waits. *)
Lemma inv_count s ts (i : nat) p p' sem k sl n :
  sem_inv (Conf s ts) -> ts !! i = Some p -> m_mpirksemrksem s !! k = Some sl -> m_psyncobjUser sl = Some sem ->
  (0 <= m_count sl -> 0 <= m_count sl + n) -> claims p' = [] -> Forall (fun sem => (sem < length (m_cAvail s))%nat) (sems p') ->
  pc_ok (length (m_mpirksemrksem s)) p' ->
  (forall j, refk j p' = refk j p /\ privk j p' = privk j p /\ resvk j p' = resvk j p /\
    takk j p' <= takk j p /\ 0 <= takk j p' /\
    regk j p' - regk j p = pendk j p' - pendk j p + (if decide (k = j) then n else 0) /\
    (j <> k -> regk j p' = regk j p /\ takk j p' = takk j p)) ->
  privk k p = 0 -> 0 < regk k p + pendk k p ->
  sem_inv (Conf (set_slot k (add_count n sl) s) (<[i := p']> ts)).
Proof.
  intros HI Hi Hk Hsl Hc Hcl Hse Hok Hw Hpr H1.
  assert (Hu : user_of (m_mpirksemrksem s) k = Some sem) by (unfold user_of; by rewrite Hk).
  destruct (inv_used _ _ _ _ HI Hu) as (sl' & Hk' & _ & _ & Hused & Hc0). rewrite Hk in Hk'. injection Hk' as <-.
  pose proof HI as (Hn & _). cbn [pcs] in Hn.
  pose proof (sem_sums k _ _ _ Hn Hi) as Hsum. pose proof (sem_sums_nonneg k ts) as Hnn.
  pose proof (weights_nonneg k p) as Hwp. pose proof (weights_nonneg k p') as Hwp'.
  eapply inv_slot; eauto.
  - split_and!; [by cbn [set_slot m_mpirksemrksem]; rewrite length_insert|done|by rewrite Hcl].
  - intros j Hj. destruct (Hw j) as (? & ? & ? & ? & ? & Hreg & Hne). rewrite decide_False in Hreg by done.
    destruct (Hne Hj). split_and!; lia.
  - right. destruct (Hw k) as (? & ? & ? & ? & ? & Hreg & _). rewrite decide_True in Hreg by done.
    unfold used_at, slot_used in *. cbn [add_count m_l m_psyncobjUser m_fAvailable m_count].
    destruct_and! Hused. split_and!; first [done|lia].
Qed.

Lemma _Release_inv s ts (i : nat) p s' p' :
  sem_inv (Conf s ts) -> ts !! i = Some p -> _Release s p = Next s' p' -> sem_inv (Conf s' (<[i := p']> ts)).
Proof.
  intros HI Hi E. pose proof (inv_thread _ _ _ _ HI Hi) as Hp. pose proof Hp as (Hp' & _).
  destruct p; cbn [_Release pc_ok] in *; try discriminate E; open_step E; try (silent HI Hi Hp; fail); unfold FNoWait in *; cas.
  - eapply inv_units; eauto; [lia|lia|by thread Hp|].
    intros k Hk. unfold slot_moved. weights. by rewrite !Z.sub_add.
  - waiters HI Heqo c k. eapply inv_count_out; eauto; [lia| |lia|done]. by thread Hp.
  - waiters HI Heqo c k. rewrite wait_word by lia.
    eapply inv_count_out; eauto; [lia| |lia|done]. by thread Hp.
  - apply bool_decide_eq_true in Heqb. eapply inv_count; eauto; [lia|done| |].
    + intros j. weights. case_decide; split_and!; lia.
    + weights. rewrite decide_True by done. lia.
Qed.

Lemma ReleaseAllWaiters_inv s ts (i : nat) p s' p' :
  sem_inv (Conf s ts) -> ts !! i = Some p -> ReleaseAllWaiters s p = Next s' p' -> sem_inv (Conf s' (<[i := p']> ts)).
Proof.
  intros HI Hi E. pose proof (inv_thread _ _ _ _ HI Hi) as Hp. pose proof Hp as (Hp' & _).
  destruct p; cbn [ReleaseAllWaiters pc_ok] in *; try discriminate E; open_step E; try (silent HI Hi Hp; fail);
    unfold FNoWait in *; cas.
  - silent HI Hi Hp.
  - waiters HI Heqo c k. eapply inv_count_out; eauto; [lia|by thread Hp|lia|done].
Qed.

(** ** References *)

(** The word of a slot with [ref] references. *)
Lemma m_l_count ref b : 0 <= ref < 2 ^ 15 -> (ref + Z.b2z b * 0x8000) .& 0x7FFF = ref.
Proof.
  intros H. change 0x7FFF with (Z.ones 15). rewrite Z.land_ones by lia.
  change 0x8000 with (2 ^ 15). rewrite Z.mod_add, Z.mod_small by lia. done.
Qed.

Lemma m_l_in_use ref : 0 <= ref < 2 ^ 15 -> ref .& 0x8000 = 0.
Proof.
  intros H. bitwise i. rewrite Z.land_spec, Z.bits_0. destruct (decide (i = 15)) as [->|Hi].
  - rewrite (in_u_testbit_high 15 ref 15) by (unfold in_u; lia). done.
  - change 0x8000 with (2 ^ 15). rewrite Z.pow2_bits_false by lia. apply andb_false_r.
Qed.

Lemma FInUse_unused sl ref : m_l sl = ref -> 0 <= ref < 2 ^ 15 -> FInUse sl = false.
Proof. intros H1 H. unfold FInUse. by rewrite H1, m_l_in_use. Qed.

(** A reference is dropped, and it is not the last one. *)
Lemma FUnreference_keep sl : 0 < m_l sl < 2 ^ 16 -> m_l sl <> 0x8001 ->
  FUnreference sl = (Rksem (m_l sl - 1) (m_fAvailable sl) (m_psyncobjUser sl) (m_count sl), false).
Proof.
  intros H Hne. unfold FUnreference. replace (m_l sl =? 0x8001) with false by lia. do 2 f_equal.
  unfold wraps. replace (m_l sl + 0xFFFFFFFF + 2 ^ (32 - 1)) with (m_l sl - 1 + 2 ^ 31 + 1 * 2 ^ 32) by lia.
  rewrite Z.mod_add, Z.mod_small by lia. lia.
Qed.

Lemma FUnreference_last sl : m_l sl = 0x8001 ->
  FUnreference sl = (Rksem 0 (m_fAvailable sl) None (m_count sl), true).
Proof. intros H. unfold FUnreference. by rewrite H. Qed.

Lemma at_eq k : at_ k k = 1.
Proof. unfold at_. by rewrite decide_True. Qed.

Lemma at_ne j k : j <> k -> at_ j k = 0.
Proof. intros H. unfold at_. by rewrite decide_False by congruence. Qed.

(** What is left after [Unreference]. *)
Lemma resume_weights j c :
  refk j (resume c) = ref_cont j c /\ regk j (resume c) = reg_cont j c /\ privk j (resume c) = priv_cont j c /\
  pendk j (resume c) = 0 /\ resvk j (resume c) = 0 /\ takk j (resume c) = 0.
Proof. by destruct c. Qed.

Lemma resume_thread s a c : thread_ok s (UN a c) -> thread_ok s (resume c) /\ thread_ok s (FR a c).
Proof. intros (H1 & H2 & H3). split; [|done]. by destruct c. Qed.

(** The claims of a thread do not need a slot it has no weight on. *)
Lemma thread_ok_slot s p k sl' :
  thread_ok s p -> regk k p = 0 -> privk k p = 0 -> pendk k p = 0 -> thread_ok (set_slot k sl' s) p.
Proof.
  intros Hp H1 H2 H3. apply (thread_ok_mono s); [done| | |done].
  - cbn [set_slot m_mpirksemrksem]. by rewrite length_insert.
  - apply list.Forall_forall. intros x Hx. pose proof (claim_weight s p x Hp Hx) as Hcl.
    destruct (decide (k = x.2)) as [->|Hne]; [lia|]. unfold user_of. cbn [set_slot m_mpirksemrksem].
    rewrite list_lookup_insert_ne by done. destruct Hp as (_ & _ & Hp).
    by apply (proj1 (list.Forall_forall _ _) Hp).
Qed.

Lemma thread_ok_same_user s p k sl sl' :
  thread_ok s p -> m_mpirksemrksem s !! k = Some sl -> m_psyncobjUser sl' = m_psyncobjUser sl ->
  thread_ok (set_slot k sl' s) p.
Proof.
  intros Hp Hk Hu. apply (thread_ok_mono s); [done| | |done].
  - cbn [set_slot m_mpirksemrksem]. by rewrite length_insert.
  - destruct Hp as (_ & _ & Hp). revert Hp. apply Forall_impl. intros x. cbn beta. unfold user_of.
    cbn [set_slot m_mpirksemrksem]. destruct (decide (k = x.2)) as [->|Hne]; [|by rewrite list_lookup_insert_ne].
    rewrite list_lookup_insert_eq by by apply lookup_lt_is_Some_1. rewrite Hk. cbn. by rewrite Hu.
Qed.

(** No word relies on a slot that counts no waiters. *)
Lemma no_word s ts k : sem_inv (Conf s ts) -> total (wc k) (m_cAvail s) = 0 ->
  forall sem w, m_cAvail s !! sem = Some w -> w < 0 -> Z.to_nat (Irksem w) <> k.
Proof.
  intros HI H0 sem w Hw Hneg Heq. waiters HI Hw c k'. subst k'.
  pose proof (inv_wc _ _ _ _ _ HI Hu Hw) as Hwc. rewrite wc_enc, decide_True in Hwc by (done || lia). lia.
Qed.

(** The last reference: the slot loses its user. *)
Lemma inv_unref_last s ts (i : nat) a c sl :
  sem_inv (Conf s ts) -> ts !! i = Some (UN a c) -> m_mpirksemrksem s !! a = Some sl -> m_l sl = 0x8001 ->
  sem_inv (Conf (set_slot a (Rksem 0 (m_fAvailable sl) None (m_count sl)) s) (<[i := FR a c]> ts)).
Proof.
  intros HI Hi Ha Hl. pose proof HI as (Hn & _ & _ & Hs & _). cbn [shared pcs] in *.
  pose proof (resume_thread _ _ _ (inv_thread _ _ _ _ HI Hi)) as [_ Hp].
  pose proof (sem_sums a _ _ _ Hn Hi) as Hsum. pose proof (sem_sums_nonneg a ts) as Hnn.
  pose proof (weights_nonneg a (resume c)) as Hw0. pose proof (weights_le a (resume c)) as Hw1.
  pose proof (resume_weights a c) as Hr. pose proof (inv_wc_nonneg _ _ a HI) as Hwc.
  cbn [refk regk privk pendk resvk takk] in Hsum. rewrite at_eq in Hsum.
  pose proof (Hs a) as Hsl. rewrite Ha in Hsl.
  destruct Hsl as [Hsl|Hsl]; [destruct_and! Hsl; lia|]. unfold slot_used in Hsl. destruct_and! Hsl.
  assert (Hav : m_fAvailable sl = false) by done.
  eapply inv_slot; eauto.
  - apply thread_ok_slot; [done|cbn [regk privk pendk]; lia..].
  - intros j Hj. cbn [refk regk privk pendk resvk takk]. rewrite at_ne by done. done.
  - left. unfold slot_unused. cbn [m_l m_psyncobjUser m_count m_fAvailable refk regk privk pendk resvk takk].
    rewrite at_eq, Hav. split_and!; try done; cbn [Z.b2z]; lia.
  - right. cbn [regk privk pendk]. split; [lia|]. apply (no_word _ _ _ HI). lia.
Qed.

(** Another reference remains. *)
Lemma inv_unref_keep s ts (i : nat) a c sl :
  sem_inv (Conf s ts) -> ts !! i = Some (UN a c) -> m_mpirksemrksem s !! a = Some sl -> m_l sl <> 0x8001 ->
  0 < m_l sl < 2 ^ 16 /\
  sem_inv (Conf (set_slot a (Rksem (m_l sl - 1) (m_fAvailable sl) (m_psyncobjUser sl) (m_count sl)) s)
    (<[i := resume c]> ts)).
Proof.
  intros HI Hi Ha Hl. pose proof HI as (Hn & _ & _ & Hs & _). cbn [shared pcs] in *.
  pose proof (resume_thread _ _ _ (inv_thread _ _ _ _ HI Hi)) as [Hp _].
  pose proof (sem_sums a _ _ _ Hn Hi) as Hsum. pose proof (resume_weights a c) as (E1 & E2 & E3 & E4 & E5 & E6).
  cbn [refk regk privk pendk resvk takk] in Hsum. rewrite at_eq in Hsum.
  pose proof (weights_nonneg a (resume c)) as Hw0.
  pose proof (Hs a) as Hsl. rewrite Ha in Hsl. split.
  { destruct Hsl as [Hsl|Hsl]; destruct_and! Hsl; lia. }
  eapply inv_slot; eauto.
  - by eapply thread_ok_same_user.
  - intros j Hj. destruct (resume_weights j c) as (-> & -> & -> & -> & -> & ->).
    cbn [refk regk privk pendk resvk takk]. by rewrite at_ne.
  - unfold slot_moved. rewrite E1, E2, E3, E4, E5, E6. cbn [refk regk privk pendk resvk takk]. rewrite at_eq.
    destruct Hsl as [Hsl|Hsl]; [left; unfold slot_unused in *|right; unfold slot_used in *];
      cbn [m_l m_psyncobjUser m_count m_fAvailable]; destruct_and! Hsl; split_and!; first [done|lia].
Qed.

Lemma inv_free s ts (i : nat) a c :
  sem_inv (Conf s ts) -> ts !! i = Some (FR a c) ->
  exists sl, m_mpirksemrksem s !! a = Some sl /\
    Free sl = Some (Rksem (m_l sl) true (m_psyncobjUser sl) (m_count sl)) /\
    sem_inv (Conf (set_slot a (Rksem (m_l sl) true (m_psyncobjUser sl) (m_count sl)) s) (<[i := resume c]> ts)).
Proof.
  intros HI Hi. pose proof HI as (Hn & _ & _ & Hs & _). cbn [shared pcs] in *.
  pose proof (resume_thread s a c (inv_thread _ _ _ _ HI Hi)) as [Hp _].
  pose proof (sem_sums a _ _ _ Hn Hi) as Hsum. pose proof (resume_weights a c) as (E1 & E2 & E3 & E4 & E5 & E6).
  pose proof (weights_nonneg a (FR a c)) as Hw0.
  cbn [refk regk privk pendk resvk takk] in *. rewrite at_eq in *.
  pose proof (Hs a) as Hsl. destruct (m_mpirksemrksem s !! a) as [sl|] eqn:Ha; cbn [slot_at slot_ok] in Hsl; [|lia].
  exists sl. split; [done|].
  destruct Hsl as [Hsl|Hsl]; [|unfold slot_used in Hsl; destruct_and! Hsl; lia]. unfold slot_unused in Hsl.
  destruct Hsl as (Hm & Hu & Hcount & H1 & H2 & H3 & H4 & H5).
  assert (Hav : m_fAvailable sl = false) by (destruct (m_fAvailable sl); [cbn in H5; lia|done]).
  split.
  { unfold Free, FReset. rewrite (FInUse_unused sl _ Hm), Hav, Hcount by lia. done. }
  eapply inv_slot; eauto.
  - by eapply thread_ok_same_user.
  - intros j Hj. destruct (resume_weights j c) as (-> & -> & -> & -> & -> & ->).
    cbn [refk regk privk pendk resvk takk]. by rewrite at_ne.
  - left. unfold slot_unused. rewrite E1, E2, E3, E4, E5. cbn [refk regk privk pendk resvk takk].
    cbn [m_l m_psyncobjUser m_count m_fAvailable]. rewrite at_eq, Hav in *. cbn [Z.b2z] in *. split_and!; first [done|lia].
Qed.

Lemma Unreference_inv s ts (i : nat) p s' p' :
  sem_inv (Conf s ts) -> ts !! i = Some p -> Unreference s p = Next s' p' -> sem_inv (Conf s' (<[i := p']> ts)).
Proof.
  intros HI Hi E. destruct p as [| | | | | | | | | | | | | |a c|a c| | | | | | |];
    cbn [Unreference] in *; try discriminate E; unfold with_slot in E.
  - destruct (m_mpirksemrksem s !! a) as [sl|] eqn:Ha; [|discriminate].
    destruct (decide (m_l sl = 0x8001)) as [Hl|Hl].
    + rewrite (FUnreference_last _ Hl) in E. open_step E. by apply inv_unref_last.
    + destruct (inv_unref_keep _ _ _ _ _ _ HI Hi Ha Hl) as [Hr HI'].
      rewrite (FUnreference_keep _ Hr Hl) in E. open_step E. exact HI'.
  - destruct (inv_free _ _ _ _ _ HI Hi) as (sl & Ha & Hf & HI'). rewrite Ha, Hf in E. open_step E. exact HI'.
Qed.

(** ** The loop of [_FAcquire] keeps the invariant *)

(** ** The steps that change the shared state *)

Lemma user_lt slots k sem : user_of slots k = Some sem -> (k < length slots)%nat.
Proof. intros (sl & Hk & _)%user_lookup. by eapply lookup_lt_Some. Qed.

(** The sums for the slot [k]. *)
Ltac sums HI Hi k :=
  let Hn := fresh in
  let Hsum := fresh "Hsum" in
  let Hnn := fresh "Hnn" in
  let Hwn := fresh "Hwn" in
  pose proof (proj1 HI) as Hn; cbn [pcs] in Hn;
  pose proof (sem_sums k _ _ _ Hn Hi) as Hsum;
  match type of Hi with ?ts !! _ = _ => pose proof (sem_sums_nonneg k ts) as Hnn end;
  pose proof (inv_wc_nonneg _ _ k HI) as Hwn; clear Hn.

(** A unit is taken from the word; an allocated kernel semaphore is given back. *)
Lemma inv_take s ts (i : nat) sem t n a w :
  sem_inv (Conf s ts) -> ts !! i = Some (A_dec sem t n a w) -> m_cAvail s !! sem = Some w -> 0 < w ->
  sem_inv (Conf (set_word sem (w - 1) s) (<[i := unref_alloc a (KReturn true)]> ts)).
Proof.
  intros HI Hi Hw H0. pose proof (inv_thread _ _ _ _ HI Hi) as Hp.
  pose proof HI as (_ & _ & Hwo & _). destruct (Hwo _ _ Hw) as [Hok _]. apply word_ok_min in Hok.
  eapply inv_units; eauto; [lia|lia| |].
  - destruct a; by thread Hp.
  - intros k Hk. sums HI Hi k. destruct a as [a|]; unfold slot_moved; cbn [unref_alloc resume]; weights;
      [destruct (decide (a = k))|]; slot_solve.
Qed.

(** The first waiter publishes the kernel semaphore it has allocated. *)
Lemma inv_publish s ts (i : nat) sem t a :
  sem_inv (Conf s ts) -> ts !! i = Some (A_pub sem t a) -> m_cAvail s !! sem = Some 0 ->
  sem_inv (Conf (set_word sem (CSemaphoreState_wait 1 (Z.of_nat a)) s) (<[i := W sem t a]> ts)).
Proof.
  intros HI Hi Hw. pose proof (inv_thread _ _ _ _ HI Hi) as Hp.
  pose proof (claim_user _ _ _ _ Hp ltac:(done)) as Hu.
  destruct (inv_used _ _ _ _ HI Hu) as (sl & Hk & Hsl & Hka & Hused & Hc).
  rewrite wait_word by lia. eapply inv_word; eauto.
  - right. exists 1, a. split; [done|lia].
  - intros _. rewrite Irksem_enc, Nat2Z.id by lia. done.
  - intros k Hsk. pose proof (wc_enc k 1 a ltac:(lia) ltac:(lia)) as Ec. rewrite Ec, wc_units by lia.
    sums HI Hi k. unfold slot_moved. weights. destruct (decide (a = k)) as [->|]; slot_solve.
Qed.

(** [Allocate] takes an available slot. *)
Lemma inv_found s ts (i : nat) sem t k sl :
  sem_inv (Conf s ts) -> ts !! i = Some (A_alloc sem t) -> m_mpirksemrksem s !! k = Some sl -> m_fAvailable sl = true ->
  sem_inv (Conf (set_slot k (FAllocate sl) s) (<[i := A_user sem t k]> ts)).
Proof.
  intros HI Hi Hk Hav. pose proof (inv_thread _ _ _ _ HI Hi) as Hp. sums HI Hi k.
  pose proof HI as (_ & _ & _ & Hs & _). specialize (Hs k). cbn [shared pcs] in Hs. rewrite Hk in Hs.
  eapply inv_slot; eauto.
  - eapply thread_ok_same_user; [by thread Hp|done|done].
  - intros j Hj. weights. by rewrite decide_False by congruence.
  - destruct Hs as [Hs|Hs]; [|unfold slot_used in Hs; destruct_and! Hs; congruence].
    left. unfold slot_unused in *. weights. rewrite decide_True, Hav in * by done.
    cbn [FAllocate m_l m_psyncobjUser m_count m_fAvailable Z.b2z] in *. destruct_and! Hs. split_and!; first [done|lia].
Qed.

(** [AllocateNew]. *)
Lemma inv_new s ts (i : nat) sem t :
  sem_inv (Conf s ts) -> ts !! i = Some (A_alloc sem t) -> Z.of_nat (length (m_mpirksemrksem s)) <= 0xFFFE ->
  sem_inv (Conf (SemState (m_cAvail s) (m_mpirksemrksem s ++ [Rksem_ctor]))
    (<[i := A_user sem t (length (m_mpirksemrksem s))]> ts)).
Proof.
  intros HI Hi Hl. pose proof (inv_thread _ _ _ _ HI Hi) as Hp.
  pose proof HI as (_ & _ & Hw & Hs & _). cbn [shared pcs] in *.
  assert (Hu : forall j, user_of (m_mpirksemrksem s ++ [Rksem_ctor]) j = user_of (m_mpirksemrksem s) j).
  { intros j. unfold user_of. destruct (decide (j < length (m_mpirksemrksem s))%nat) as [Hj|Hj].
    - by rewrite lookup_app_l.
    - rewrite lookup_app_r, (lookup_ge_None_2 (m_mpirksemrksem s)) by lia.
      destruct (j - length (m_mpirksemrksem s))%nat; done. }
  eapply inv_update; eauto; cbn [m_cAvail m_mpirksemrksem]; rewrite ?length_app; cbn [length]; try lia.
  - intros sem' w. cbn [m_cAvail m_mpirksemrksem]. rewrite Hu. apply Hw.
  - by thread Hp.
  - intros k. specialize (Hs k). sums HI Hi k. weights. unfold slot_moved. weights.
    destruct (Nat.lt_trichotomy k (length (m_mpirksemrksem s))) as [H|[H|H]].
    + rewrite lookup_app_l, decide_False by lia. unfold slot_at in Hs. by rewrite !Z.sub_0_r, !Z.add_0_r.
    + subst k. rewrite list_lookup_middle, decide_True by done.
      rewrite (lookup_ge_None_2 (m_mpirksemrksem s)) in Hs by lia. cbn [slot_at slot_ok] in Hs.
      left. unfold slot_unused. cbn. split_and!; first [done|lia].
    + rewrite (lookup_ge_None_2 (m_mpirksemrksem s)) in Hs by lia.
      rewrite (lookup_ge_None_2 (_ ++ _)), decide_False by (rewrite ?length_app; cbn; lia).
      cbn [slot_at slot_ok] in *. lia.
Qed.

(** [SetUser]: the slot is unused, so its checks hold. *)
Lemma inv_set_user s ts (i : nat) sem t k :
  sem_inv (Conf s ts) -> ts !! i = Some (A_user sem t k) ->
  exists sl sl', m_mpirksemrksem s !! k = Some sl /\ SetUser sem sl = Some sl' /\
    sem_inv (Conf (set_slot k sl' s) (<[i := A_pub sem t k]> ts)).
Proof.
  intros HI Hi. pose proof (inv_thread _ _ _ _ HI Hi) as Hp. sums HI Hi k.
  pose proof HI as (_ & _ & _ & Hs & _). specialize (Hs k). cbn [shared pcs] in Hs.
  weights. rewrite decide_True in * by done.
  destruct (m_mpirksemrksem s !! k) as [sl|] eqn:Hk; cbn [slot_at slot_ok] in Hs; [|lia].
  destruct Hs as [Hs|Hs]; [|unfold slot_used in Hs; destruct_and! Hs; lia]. unfold slot_unused in Hs.
  destruct Hs as (Hm & Hu & Hcount & H1 & H2 & H3 & H4 & H5).
  assert (Hav : m_fAvailable sl = false) by (destruct (m_fAvailable sl); [cbn in H5; lia|done]).
  exists sl, (Rksem (total (refk k) ts + 1 + 0x8000) false (Some sem) 0). split; [done|]. split.
  { unfold SetUser, FReset. rewrite (FInUse_unused sl _ Hm), Hu, Hcount, Hm, Hav by lia. cbn.
    rewrite wraps_small by (unfold in_s; lia). do 2 f_equal. lia. }
  eapply inv_slot; eauto.
  - thread Hp. constructor; [|done]. unfold user_of. cbn [set_slot m_mpirksemrksem fst snd].
    by rewrite list_lookup_insert_eq by by apply lookup_lt_is_Some_1.
  - intros j Hj. weights. by rewrite !decide_False by congruence.
  - right. unfold slot_used. weights. rewrite !decide_True by done. cbn [m_l m_psyncobjUser m_count m_fAvailable].
    split_and!; first [done|by eexists|rewrite Hav in H5; cbn [Z.b2z] in H5; lia].
  - right. weights. split; [lia|]. by apply (no_word _ _ _ HI).
Qed.

(** [Reference]: the slot may be unused by now, or used by another semaphore. *)
Lemma inv_reference s ts (i : nat) sem t a st :
  sem_inv (Conf s ts) -> ts !! i = Some (A_ref sem t a st) ->
  let k := Z.to_nat (Irksem st) in
  exists sl, m_mpirksemrksem s !! k = Some sl /\
    sem_inv (Conf (set_slot k (Reference sl) s) (<[i := A_join sem t a st]> ts)).
Proof.
  intros HI Hi k. pose proof (inv_thread _ _ _ _ HI Hi) as Hp. pose proof Hp as ([Hst Hlt] & _).
  destruct (lookup_lt_is_Some_2 _ _ Hlt) as [sl Hk]. exists sl. split; [done|]. fold k in Hk.
  pose proof HI as (_ & _ & _ & Hs & _). specialize (Hs k). cbn [shared pcs] in Hs. rewrite Hk in Hs.
  sums HI Hi k.
  assert (Hm : 0 <= m_l sl < 2 ^ 16) by (destruct Hs as [Hs|Hs]; destruct_and! Hs; lia).
  unfold Reference. rewrite wraps_small by (unfold in_s; lia).
  eapply inv_slot; eauto.
  - eapply thread_ok_same_user; [by thread Hp|done|done].
  - intros j Hj. cbn [refk regk privk pendk resvk takk]. fold k. rewrite at_ne by done. split_and!; lia.
  - unfold slot_moved. cbn [refk regk privk pendk resvk takk] in *. fold k. rewrite at_eq.
    destruct Hs as [Hs|Hs]; [left; unfold slot_unused in *|right; unfold slot_used in *];
      cbn [m_l m_psyncobjUser m_count m_fAvailable]; destruct_and! Hs; split_and!; first [done|lia].
Qed.

(** A thread joins the waiters. *)
Lemma inv_join s ts (i : nat) sem t a c k :
  sem_inv (Conf s ts) -> ts !! i = Some (A_join sem t a (enc c k)) -> m_cAvail s !! sem = Some (enc c k) ->
  1 <= c <= 0x7FFF -> Z.of_nat k <= 0xFFFE -> user_of (m_mpirksemrksem s) k = Some sem ->
  c + 1 <= 0x7FFF /\
  sem_inv (Conf (set_word sem (enc (c + 1) k) s) (<[i := unref_alloc a (KWait sem t k)]> ts)).
Proof.
  intros HI Hi Hw Hc Hk Hu. pose proof (inv_thread _ _ _ _ HI Hi) as Hp.
  destruct (inv_used _ _ _ _ HI Hu) as (sl & Hlk & Hsl & _ & Hused & _).
  pose proof (inv_wc _ _ _ _ _ HI Hu Hw) as Hwc. rewrite wc_enc, decide_True in Hwc by (done || lia).
  assert (Hc' : c + 1 <= 0x7FFF).
  { sums HI Hi k. unfold used_at, slot_used in Hused. destruct_and! Hused. lia. }
  split; [done|]. eapply inv_word; eauto.
  - right. exists (c + 1), k. split; [done|lia].
  - intros _. rewrite Irksem_enc, Nat2Z.id by lia. done.
  - destruct a; thread Hp; by constructor.
  - intros j Hj. rewrite !wc_enc by lia. sums HI Hi j.
    assert (Hkj : match a with Some a => a <> k | None => True end).
    { destruct a as [a|]; [|done]. intros ->. sums HI Hi k. weights. rewrite decide_True in * by done.
      unfold used_at, slot_used in Hused. destruct_and! Hused. lia. }
    unfold slot_moved. destruct a as [a|]; cbn [unref_alloc resume]; weights; rewrite Irksem_enc, Nat2Z.id in * by lia;
      [destruct (decide (a = j))|]; destruct (decide (k = j)); subst; try done; slot_solve.
Qed.

(** A thread whose wait has timed out leaves the waiters. *)
Lemma inv_leave s ts (i : nat) sem c k w' :
  sem_inv (Conf s ts) -> ts !! i = Some (TO_cas sem k (enc c k)) -> m_cAvail s !! sem = Some (enc c k) ->
  1 <= c <= 0x7FFF -> Z.of_nat k <= 0xFFFE -> user_of (m_mpirksemrksem s) k = Some sem ->
  (c = 1 /\ w' = 0 \/ 1 < c /\ w' = enc (c - 1) k) ->
  sem_inv (Conf (set_word sem w' s) (<[i := UN k (KReturn false)]> ts)).
Proof.
  intros HI Hi Hw Hc Hk Hu Hw'. pose proof (inv_thread _ _ _ _ HI Hi) as Hp.
  destruct (inv_used _ _ _ _ HI Hu) as (sl & Hlk & Hsl & _ & Hused & _).
  eapply inv_word; eauto.
  - destruct Hw' as [[-> ->]|[H ->]]; [left; lia|right]. exists (c - 1), k. split; [done|lia].
  - intros Hneg. destruct Hw' as [[-> ->]|[H ->]]; [lia|]. rewrite Irksem_enc, Nat2Z.id by lia. done.
  - by thread Hp.
  - intros j Hj. assert (Ec' : wc j w' = if decide (k = j) then c - 1 else 0).
    { destruct Hw' as [[-> ->]|[H ->]]; [rewrite wc_units by lia; by case_decide|apply wc_enc; lia]. }
    rewrite Ec', wc_enc by lia. sums HI Hi j. unfold slot_moved. weights.
    pose proof (inv_wc _ _ _ _ _ HI Hu Hw) as Hwc. rewrite wc_enc, decide_True in Hwc by (done || lia).
    destruct (decide (k = j)) as [->|]; slot_solve.
Qed.

(** A thread whose wait has timed out was counted out before it could leave. *)
Lemma inv_counted_out s ts (i : nat) sem k w :
  sem_inv (Conf s ts) -> ts !! i = Some (TO sem k) -> m_cAvail s !! sem = Some w ->
  0 <= w \/ Irksem w <> Z.of_nat k -> sem_inv (Conf s (<[i := TA sem k]> ts)).
Proof.
  intros HI Hi Hw H. pose proof (inv_thread _ _ _ _ HI Hi) as Hp.
  pose proof (claim_user _ _ _ _ Hp ltac:(done)) as Hu.
  eapply inv_keep; eauto. intros j Hj. unfold slot_moved. weights.
  destruct (decide (k = j)) as [->|]; [|by rewrite !Z.sub_0_r, !Z.add_0_r].
  assert (Hwc : total (wc j) (m_cAvail s) = 0).
  { rewrite (inv_wc _ _ _ _ _ HI Hu Hw). unfold wc. destruct H as [H|H].
    - replace (w <? 0) with false by lia. done.
    - replace (Irksem w =? Z.of_nat j) with false by lia. by rewrite andb_false_r. }
  sums HI Hi j. slot_solve.
Qed.

(** ** [_FAcquire] *)

(** A unit of the kernel semaphore is taken by a thread that waits on it. *)
Lemma inv_acquired s ts (i : nat) p sem k sl :
  sem_inv (Conf s ts) -> ts !! i = Some p -> (exists t, p = W sem t k) \/ p = TA sem k ->
  m_mpirksemrksem s !! k = Some sl -> m_psyncobjUser sl = Some sem -> 0 < m_count sl ->
  sem_inv (Conf (set_slot k (add_count (-1) sl) s) (<[i := UN k (KReturn true)]> ts)).
Proof.
  intros HI Hi Hp Hk Hu Hc. destruct Hp as [[t ->]| ->]; (eapply inv_count; eauto; [lia|done|intros j|]);
    weights; (case_decide || rewrite decide_True by done); split_and?; try lia; intros; split; congruence || lia.
Qed.

Lemma _FAcquire_inv o s ts (i : nat) p s' p' :
  sem_inv (Conf s ts) -> ts !! i = Some p -> _FAcquire o s p = Next s' p' -> sem_inv (Conf s' (<[i := p']> ts)).
Proof.
  intros HI Hi E. pose proof (inv_thread _ _ _ _ HI Hi) as Hp. pose proof Hp as (Hp' & _).
  destruct p; cbn [_FAcquire pc_ok] in *; try discriminate E; open_step E;
    unfold FAvail, FWait, FNoWait, FNoWaitAndNoAvail in *; cas; try (silent HI Hi Hp; fail);
    try (apply inv_new; auto; lia);
    try (match goal with H : bool_decide _ = true |- _ => apply bool_decide_eq_true in H end;
         eapply inv_acquired; eauto; lia).
  - waiters HI Heqo0 c k. silent HI Hi Hp. split; [lia|]. rewrite Irksem_enc, Nat2Z.id by lia. by eapply user_lt.
  - by eapply inv_take.
  - by apply inv_found.
  - destruct (inv_set_user _ _ _ _ _ _ HI Hi) as (sl & sl' & Hk & Hu & HI'). congruence.
  - apply inv_publish; [done..|congruence].
  - destruct (inv_reference _ _ _ _ _ _ _ HI Hi) as (sl & Hk & HI'). cbv zeta in *. congruence.
  - waiters HI Heqo0 c k. destruct (inv_join _ _ _ _ _ _ _ _ HI Hi Heqo0) as [Hc' HI']; [done..|].
    by rewrite wait_word by lia.
  - apply (inv_silent _ _ _ _ _ HI Hi); [by thread Hp|intros k; weights; split_and!; lia].
  - eapply inv_counted_out; eauto. apply orb_true_iff in Heqb as [H|H]; [left|right]; lia.
  - waiters HI Heqo0 c k. destruct Hp' as [_ ->%Nat2Z.inj]. eapply inv_leave; eauto. lia.
  - waiters HI Heqo0 c k. destruct Hp' as [_ ->%Nat2Z.inj]. rewrite wait_word by lia.
    eapply inv_leave; eauto. lia.
Qed.
