(* ===== verification/SemaphoreTop.v ===== *)
(** * SemaphoreTop: what the semaphores guarantee *)

From stdpp Require Import relations.
From S2P Require Import Prelude Threads ControlWord Semaphore SemaphoreProofs SemaphoreInv.

Section System.

Context (g_cSpinMax : nat).

Abbreviation SemStep := (step (tstep g_cSpinMax)).

(** ** Every reachable configuration satisfies the invariant *)

Lemma sem_init_inv n m : Z.of_nat n < 2 ^ 14 -> sem_inv (sem_init n m).
Proof.
  intros Hn. unfold sem_init, sem_inv. cbn [shared pcs m_cAvail m_mpirksemrksem].
  assert (Ht : forall f : pc -> Z, f (Idle None) = 0 -> total f (replicate n (Idle None)) = 0).
  { intros f Hf. apply total_0. intros p Hp. apply elem_of_replicate in Hp as [-> _]. done. }
  split_and!.
  - by rewrite length_replicate.
  - cbn. lia.
  - intros sem w [-> _]%lookup_replicate. split; [left; lia|lia].
  - intros k. unfold slot_at. rewrite lookup_nil. cbn [slot_ok]. rewrite !Ht by done. split_and!; try done.
    apply total_0. intros w [-> _]%elem_of_replicate. by apply wc_units.
  - apply Forall_replicate. repeat constructor.
Qed.

Lemma sem_tstep_inv o s ts (i : nat) p s' p' :
  sem_inv (Conf s ts) -> ts !! i = Some p -> tstep g_cSpinMax o s p = Next s' p' ->
  sem_inv (Conf s' (<[i := p']> ts)).
Proof.
  intros HI Hi E. destruct p; cbn [tstep] in E;
    eauto using FDecAvail_inv, FIncAvail_inv, _Release_inv, ReleaseAllWaiters_inv, Unreference_inv, _FAcquire_inv.
  pose proof (inv_thread _ _ _ _ HI Hi) as Hp.
  assert (Hsem : forall sem w, m_cAvail s !! sem = Some w -> Forall (fun sem => (sem < length (m_cAvail s))%nat) [sem]).
  { intros sem w Hw. constructor; [|done]. by eapply lookup_lt_Some. }
  destruct o; try discriminate E; open_step E;
    (apply (inv_silent _ _ _ _ _ HI Hi); [thread Hp; by eapply Hsem|intros k0; weights; split_and!; done]).
Qed.

Lemma sem_step_inv c c' : sem_inv c -> SemStep c c' -> sem_inv c'.
Proof. intros HI Hst. revert HI. destruct Hst as [o s ts i p s' p' Hi E]. intros HI. by eapply sem_tstep_inv. Qed.

Lemma sem_reachable n m c : Z.of_nat n < 2 ^ 14 -> rtc SemStep (sem_init n m) c -> sem_inv c.
Proof. intros Hn. apply invariant_reachable; [apply sem_step_inv|by apply sem_init_inv]. Qed.

(** ** No check fails *)

(** What no check of the code prevents: a release that would take the count past
    2^31 - 1, and a pool whose 65535 slots are all allocated. *)
Definition exhausted (s : shared_state) (p : pc) : Prop :=
  match p with
  | I_cas sem n st | R_cas sem n st => m_cAvail s !! sem = Some st /\ 0x7FFFFFFF < st + n
  | A_alloc _ _ => Z.of_nat (length (m_mpirksemrksem s)) = 0xFFFF
  | _ => False
  end.

(** The assertion of [FDecAvail] on what it computes. *)
Lemma FDecAvail_assert z : 0 < z < 2 ^ 31 ->
  s32 (z - 1) .& 0x7FFFFFFF = z - 1 /\ s32 (z - 1 + 1) = z.
Proof.
  intros H. rewrite wraps_small by (unfold in_s; lia). change 0x7FFFFFFF with (Z.ones 31).
  rewrite Z.land_ones, Z.mod_small by lia. rewrite wraps_small by (unfold in_s; lia). lia.
Qed.

(** A slot that is referenced exists, and its count is not zero. *)
Lemma inv_referenced s ts (i : nat) a c : sem_inv (Conf s ts) -> ts !! i = Some (UN a c) ->
  exists sl, m_mpirksemrksem s !! a = Some sl /\ (0 <? m_l sl .& 0x7FFF) = true.
Proof.
  intros HI Hi. sums HI Hi a. pose proof (weights_nonneg a (FR a c)) as Hw.
  cbn [refk regk privk pendk resvk takk] in *. rewrite at_eq in *.
  pose proof HI as (_ & _ & _ & Hs & _). specialize (Hs a). cbn [shared pcs] in Hs.
  destruct (m_mpirksemrksem s !! a) as [sl|]; cbn [slot_at slot_ok] in Hs; [|lia]. exists sl. split; [done|].
  destruct Hs as [(Hm & _)|(Hm & _)]; rewrite Hm.
  - replace (total (refk a) ts) with (total (refk a) ts + Z.b2z false * 0x8000) by (cbn; lia).
    rewrite m_l_count by lia. lia.
  - replace 0x8000 with (Z.b2z true * 0x8000) by done. rewrite m_l_count by lia. lia.
Qed.

Lemma sem_no_fault o s ts (i : nat) p :
  sem_inv (Conf s ts) -> ts !! i = Some p -> tstep g_cSpinMax o s p = Fault -> exhausted s p.
Proof.
  intros HI Hi E. pose proof (inv_thread _ _ _ _ HI Hi) as Hp. pose proof Hp as (Hok & Hse & _).
  pose proof HI as (_ & _ & Hw & _).
  assert (Hword : forall sem, sems p = [sem] -> exists w, m_cAvail s !! sem = Some w /\ word_ok w).
  { intros sem Hs. rewrite Hs in Hse. apply Forall_cons_1 in Hse as [Hlt _].
    destruct (inv_word_lookup s sem Hlt) as [w Hlk]. exists w. split; [done|]. by eapply Hw. }
  assert (Hksem : forall sem k (f : CReferencedKernelSemaphore -> result),
    claims p = [(sem, k)] -> Ksem k sem s f = Fault -> exists sl, f sl = Fault).
  { intros sem k f Hc Hf. pose proof (claim_user _ _ _ _ Hp Hc) as (sl & Hk & Hu)%user_lookup.
    unfold Ksem, with_slot in Hf. rewrite Hk, Hu, bool_decide_true in Hf by done. by exists sl. }
  destruct p; cbn [tstep FDecAvail _FAcquire Unreference FIncAvail _Release ReleaseAllWaiters exhausted pc_ok] in *;
    try (destruct (Hword _ eq_refl) as (w & Hlk & Hwok); unfold with_word in E; rewrite Hlk in E; cbv beta in E);
    try (apply (Hksem _ _ _ eq_refl) in E as [sl E]).
  all: unfold OSSYNCAssert, sem_acquire, call, FAvail, FWait, FNoWait, FNoWaitAndNoAvail, unref_alloc in E;
    try (repeat case_match; first [done|lia]; fail).
  - pose proof (word_ok_min w Hwok) as Hmin. destruct (Z.lt_ge_cases 0 w) as [H0|H0].
    + destruct (FDecAvail_assert w ltac:(lia)) as [E1 E2]. rewrite E1, E2 in E. repeat case_match; first [done|lia].
    + replace (w <=? 0) with true in E by lia. repeat case_match; first [done|lia].
  - pose proof HI as (_ & Hl & _). cbn [shared] in Hl. repeat case_match; first [done|lia].
  - destruct (inv_set_user _ _ _ _ _ _ HI Hi) as (sl & sl' & Hk & Hu & _).
    unfold with_slot in E. by rewrite Hk, Hu in E.
  - destruct (inv_reference _ _ _ _ _ _ _ HI Hi) as (sl & Hk & _). cbv zeta in *. unfold with_slot in E. by rewrite Hk in E.
  - destruct (w =? stateCur) eqn:Hcas; [|done]. cas. waiters HI Hlk c k.
    destruct (inv_join _ _ _ _ _ _ _ _ HI Hi Hlk) as [Hc' _]; [done..|]. case_match; [done|lia].
  - destruct (w =? stateAfterWait) eqn:Hcas; [|done]. cas. waiters HI Hlk c k. repeat case_match; first [done|lia].
  - destruct (inv_referenced _ _ _ _ _ HI Hi) as (sl & Hk & Hpos). unfold with_slot in E. rewrite Hk, Hpos in E.
    destruct (FUnreference sl) as [? []]; done.
  - destruct (inv_free _ _ _ _ _ HI Hi) as (sl & Hk & Hf & _). unfold with_slot in E. by rewrite Hk, Hf in E.
  - destruct (w =? cAvailStart) eqn:Hcas; [|by case_match]. cas. case_match; [done|]. split; [done|lia].
  - destruct (w =? stateCur) eqn:Hcas; cbn [negb] in E; [|done]. cas. repeat case_match; try done. split; [done|lia].
Qed.

(** ** The counting semaphore they implement *)

(** The units of a kernel semaphore that belong to [sem], and those about to be
    released to it. *)
Definition kcount (sem : nat) (sl : CReferencedKernelSemaphore) : Z :=
  if decide (m_psyncobjUser sl = Some sem) then m_count sl else 0.

Definition in_release (sem : nat) (p : pc) : Z :=
  match p with KS sem' _ n => if decide (sem' = sem) then n else 0 | _ => 0 end.

(** The units of [sem]: those in its word, those of the kernel semaphores it uses, and
    those in the hands of a releaser. *)
Definition units (c : conf shared_state pc) (sem : nat) : Z :=
  match m_cAvail (shared c) !! sem with Some w => Z.max 0 w | None => 0 end +
  total (kcount sem) (m_mpirksemrksem (shared c)) + total (in_release sem) (pcs c).

(** What a step does, as seen by the clients: a call takes a unit, or gives some. *)
Inductive event := Silent | Acquired (sem : nat) | Released (sem : nat) (n : Z).

(** The call of the thread returns [fTrue]: it has its unit. *)
Definition has_unit (p : pc) : bool :=
  match p with Idle (Some true) | UN _ (KReturn true) | FR _ (KReturn true) => true | _ => false end.

Definition event_of (p p' : pc) : event :=
  match p with
  | D_cas sem _ _ _ | A_dec sem _ _ _ _ | W sem _ _ | TA sem _ => if has_unit p' then Acquired sem else Silent
  | I_cas sem n _ | R_cas sem n _ => match p' with Idle _ | KS _ _ _ => Released sem n | _ => Silent end
  | RA_cas sem _ => match p' with KS _ _ n => Released sem n | _ => Silent end
  | _ => Silent
  end.

(** The specification: [Acquired] takes a unit, and there must be one; [Released] adds
    units. *)
Definition spec_step (ev : event) (avail : list Z) : option (list Z) :=
  match ev with
  | Silent => Some avail
  | Acquired sem => u ← avail !! sem; if 0 <? u then Some (<[sem := u - 1]> avail) else None
  | Released sem n => u ← avail !! sem; if 0 <? n then Some (<[sem := u + n]> avail) else None
  end.

Fixpoint spec_run (evs : list event) (avail : list Z) : option (list Z) :=
  match evs with
  | [] => Some avail
  | ev :: evs => avail ← spec_step ev avail; spec_run evs avail
  end.

(** How the units of a semaphore change in an event. *)
Definition delta (ev : event) (sem : nat) : Z :=
  match ev with
  | Silent => 0
  | Acquired sem' => if decide (sem' = sem) then -1 else 0
  | Released sem' n => if decide (sem' = sem) then n else 0
  end.

Lemma units_word s ts sem w w' sem' : m_cAvail s !! sem = Some w ->
  units (Conf (set_word sem w' s) ts) sem' =
    units (Conf s ts) sem' + (if decide (sem = sem') then Z.max 0 w' - Z.max 0 w else 0).
Proof.
  intros Hw. unfold units. cbn [shared pcs set_word m_cAvail m_mpirksemrksem]. case_decide as Hs.
  - subst sem'. rewrite list_lookup_insert_eq by (by eapply lookup_lt_Some). rewrite Hw. lia.
  - rewrite list_lookup_insert_ne by done. lia.
Qed.

Lemma units_slot s ts k sl sl' sem : m_mpirksemrksem s !! k = Some sl ->
  units (Conf (set_slot k sl' s) ts) sem = units (Conf s ts) sem - kcount sem sl + kcount sem sl'.
Proof.
  intros Hk. unfold units. cbn [shared pcs set_slot m_cAvail m_mpirksemrksem].
  rewrite (total_insert _ _ _ _ _ Hk). lia.
Qed.

Lemma units_new s ts sem :
  units (Conf (SemState (m_cAvail s) (m_mpirksemrksem s ++ [Rksem_ctor])) ts) sem = units (Conf s ts) sem.
Proof.
  unfold units. cbn [shared pcs m_cAvail m_mpirksemrksem]. rewrite total_app. cbn [total].
  replace (kcount sem Rksem_ctor) with 0 by done. lia.
Qed.

Lemma units_keep s ts (i : nat) p p' sem :
  ts !! i = Some p -> units (Conf s (<[i := p']> ts)) sem = units (Conf s ts) sem - in_release sem p + in_release sem p'.
Proof. intros Hi. unfold units. cbn [shared pcs]. rewrite (total_insert _ _ _ _ _ Hi). lia. Qed.

Lemma kcount_add sem sem' n sl : m_psyncobjUser sl = Some sem' ->
  kcount sem (add_count n sl) = kcount sem sl + (if decide (sem' = sem) then n else 0).
Proof.
  intros Hu. unfold kcount. cbn [add_count m_psyncobjUser m_count]. rewrite Hu.
  repeat case_decide; simplify_eq; done || lia.
Qed.

Lemma in_release_resume sem c : in_release sem (resume c) = 0.
Proof. by destruct c. Qed.

Lemma inv_count_nonneg s ts k sl : sem_inv (Conf s ts) -> m_mpirksemrksem s !! k = Some sl -> 0 <= m_count sl.
Proof.
  intros (_ & _ & _ & Hs & _) Hk. specialize (Hs k). cbn [shared pcs] in Hs. rewrite Hk in Hs.
  destruct Hs as [Hs|Hs]; destruct_and! Hs; lia.
Qed.

(** A slot without a user has no units. *)
Lemma inv_count_unused s ts k sl : sem_inv (Conf s ts) -> m_mpirksemrksem s !! k = Some sl ->
  m_psyncobjUser sl = None -> m_count sl = 0.
Proof.
  intros (_ & _ & _ & Hs & _) Hk Hu. specialize (Hs k). cbn [shared pcs] in Hs. rewrite Hk in Hs.
  destruct Hs as [Hs|Hs]; destruct_and! Hs; [lia|]. rewrite Hu in *. by destruct (is_Some_None (A := nat)).
Qed.

(** [Unreference] leaves the units as they are: with the last reference there are none. *)
Lemma Unreference_units s ts (i : nat) a c sl sem :
  sem_inv (Conf s ts) -> ts !! i = Some (UN a c) -> m_mpirksemrksem s !! a = Some sl ->
  kcount sem (FUnreference sl).1 = kcount sem sl.
Proof.
  intros HI Hi Ha. destruct (decide (m_l sl = 0x8001)) as [Hl|Hl].
  - rewrite (FUnreference_last _ Hl). cbn [fst].
    pose proof (inv_unref_last _ _ _ _ _ _ HI Hi Ha Hl) as HI'.
    pose proof (inv_count_unused _ _ a _ HI' (list_lookup_insert_eq _ _ _ (lookup_lt_Some _ _ _ Ha)) eq_refl) as H0.
    cbn [m_count] in H0. unfold kcount. cbn. rewrite H0. by repeat case_decide.
  - destruct (inv_unref_keep _ _ _ _ _ _ HI Hi Ha Hl) as [Hr _]. by rewrite (FUnreference_keep _ Hr Hl).
Qed.

Ltac word_units := cbn [in_release event_of has_unit delta resume]; case_decide; try done.

(** Every step changes the units of the semaphores as its event says. *)
Lemma sem_step_units o s ts (i : nat) p s' p' sem :
  sem_inv (Conf s ts) -> ts !! i = Some p -> tstep g_cSpinMax o s p = Next s' p' ->
  units (Conf s' (<[i := p']> ts)) sem = units (Conf s ts) sem + delta (event_of p p') sem.
Proof.
  intros HI Hi E. pose proof (inv_thread _ _ _ _ HI Hi) as Hp. pose proof Hp as (Hok & _).
  assert (Hneg : forall c k, 1 <= c -> Z.of_nat k <= 0xFFFE -> Z.max 0 (enc c k) = 0).
  { intros c k Hc Hk. pose proof (enc_neg c k Hc ltac:(lia)). lia. }
  destruct p; cbn [tstep FDecAvail _FAcquire Unreference FIncAvail _Release ReleaseAllWaiters pc_ok] in *; open_step E;
    unfold FAvail, FWait, FNoWait, FNoWaitAndNoAvail, unref_alloc in *; cas; rewrite ?(units_keep _ _ _ _ _ _ Hi);
    try (cbn; lia); rewrite ?units_new; try (cbn; lia);
    try (erewrite units_word by eassumption); try (erewrite units_slot by eassumption);
    try (match goal with H : bool_decide _ = true |- _ => apply bool_decide_eq_true in H end;
         erewrite kcount_add by eassumption; cbn [in_release event_of has_unit delta]; case_decide; lia).
  - word_units; [|lia]. pose proof HI as (_ & _ & Hw & _). destruct (Hw _ _ Heqo0) as [Hmin _].
    apply word_ok_min in Hmin. lia.
  - destruct irksemAlloc; word_units; lia.
  - unfold kcount. cbn. lia.
  - pose proof (inv_count_nonneg _ _ _ _ HI Heqo0) as H0. revert Heqo1. unfold SetUser, FReset.
    destruct (FInUse c); [done|]. case_bool_decide as Hu; [|done]. destruct (Z.leb_spec (m_count c) 0); [|done].
    intros [= <-]. unfold kcount. rewrite Hu. cbn. repeat case_decide; done || lia.
  - pose proof (claim_user _ _ _ _ Hp ltac:(done)) as Hu. destruct (inv_used _ _ _ _ HI Hu) as (_ & _ & _ & Hk & _).
    rewrite wait_word, Hneg by lia. word_units; lia.
  - unfold kcount. cbn. lia.
  - waiters HI Heqo0 c k. rewrite wait_word, !Hneg by lia. destruct irksemAlloc; word_units; lia.
  - waiters HI Heqo0 c k. rewrite !Hneg by lia. word_units; lia.
  - waiters HI Heqo0 c k. rewrite wait_word, !Hneg by lia. word_units; lia.
  - pose proof (Unreference_units _ _ _ _ _ _ sem HI Hi Heqo0) as Hu. rewrite Heqp in Hu. cbn [fst] in Hu.
    destruct b; rewrite ?in_release_resume; cbn; lia.
  - destruct (inv_free _ _ _ _ _ HI Hi) as (sl & Ha & Hf & _). rewrite Heqo0 in Ha. injection Ha as <-.
    rewrite Heqo1 in Hf. injection Hf as ->. rewrite in_release_resume. unfold kcount. cbn. lia.
  - word_units; lia.
  - word_units; lia.
  - waiters HI Heqo0 c k. rewrite Hneg by lia. word_units; lia.
  - waiters HI Heqo0 c k. rewrite wait_word, !Hneg by lia. word_units; lia.
  - waiters HI Heqo0 c k. rewrite Hneg by lia. word_units; lia.
Qed.

(** The state of the specification: the units of each semaphore. *)
Definition avail (c : conf shared_state pc) : list Z := imap (fun sem _ => units c sem) (m_cAvail (shared c)).

Lemma avail_lookup c sem : (sem < length (m_cAvail (shared c)))%nat -> avail c !! sem = Some (units c sem).
Proof.
  intros H. unfold avail. rewrite list_lookup_imap. apply lookup_lt_is_Some in H as [w ->]. done.
Qed.

Lemma units_nonneg c sem : sem_inv c -> 0 <= units c sem.
Proof.
  destruct c as [s ts]. intros HI. unfold units. cbn [shared pcs].
  assert (H1 : 0 <= total (kcount sem) (m_mpirksemrksem s)).
  { apply total_nonneg_in. intros sl [k Hk]%list_elem_of_lookup. pose proof (inv_count_nonneg _ _ _ _ HI Hk).
    unfold kcount. case_decide; lia. }
  assert (H2 : 0 <= total (in_release sem) ts).
  { apply total_nonneg_in. intros p [i Hi]%list_elem_of_lookup. destruct (inv_thread _ _ _ _ HI Hi) as [Hok _].
    destruct p; cbn [in_release pc_ok] in *; repeat case_decide; lia. }
  case_match; lia.
Qed.

Lemma sem_tstep_length o s p s' p' :
  tstep g_cSpinMax o s p = Next s' p' -> length (m_cAvail s') = length (m_cAvail s).
Proof.
  intros E. destruct p; cbn [tstep FDecAvail _FAcquire Unreference FIncAvail _Release ReleaseAllWaiters] in E;
    open_step E; cbn [set_word set_slot m_cAvail]; rewrite ?length_insert; done.
Qed.

(** An event is about a semaphore that exists, and a release gives units. *)
Lemma event_ok s p s' p' : thread_ok s p -> thread_ok s' p' ->
  match event_of p p' with
  | Silent => True
  | Acquired sem => (sem < length (m_cAvail s))%nat
  | Released sem n => (sem < length (m_cAvail s))%nat /\ 0 < n
  end.
Proof.
  intros (Hok & Hse & _) (Hok' & _).
  destruct p; cbn [event_of sems pc_ok] in *; try done; apply Forall_cons_1 in Hse as [Hlt _];
    repeat case_match; simplify_eq; cbn [pc_ok] in *; done || lia || (split; [done|lia]).
Qed.

Lemma sem_step_spec o s ts (i : nat) p s' p' :
  sem_inv (Conf s ts) -> ts !! i = Some p -> tstep g_cSpinMax o s p = Next s' p' ->
  spec_step (event_of p p') (avail (Conf s ts)) = Some (avail (Conf s' (<[i := p']> ts))).
Proof.
  intros HI Hi E. pose proof (sem_tstep_inv _ _ _ _ _ _ _ HI Hi E) as HI'.
  assert (Hi' : <[i := p']> ts !! i = Some p') by (apply list_lookup_insert_eq; by eapply lookup_lt_Some).
  pose proof (event_ok _ _ _ _ (inv_thread _ _ _ _ HI Hi) (inv_thread _ _ _ _ HI' Hi')) as Hev.
  pose proof (fun sem => sem_step_units _ _ _ _ _ _ _ sem HI Hi E) as Hd.
  pose proof (sem_tstep_length _ _ _ _ _ E) as Hlen.
  assert (Heq : forall a sem, (sem < length (m_cAvail s))%nat -> a = units (Conf s' (<[i := p']> ts)) sem ->
    (forall sem', sem' <> sem -> delta (event_of p p') sem' = 0) ->
    <[sem := a]> (avail (Conf s ts)) = avail (Conf s' (<[i := p']> ts))).
  { intros a sem Hs -> Hne. apply list_eq. intros j.
    destruct (decide (j < length (m_cAvail s))%nat) as [Hj|Hj].
    - rewrite (avail_lookup (Conf s' _)) by (cbn [shared]; lia). destruct (decide (j = sem)) as [->|Hjs].
      + rewrite list_lookup_insert_eq; [done|]. unfold avail. by rewrite length_imap.
      + rewrite list_lookup_insert_ne, avail_lookup by done. f_equal. rewrite Hd, (Hne j Hjs). lia.
    - rewrite !lookup_ge_None_2; [done|..]; unfold avail; rewrite ?length_insert, length_imap; cbn [shared]; lia. }
  pose proof (fun sem => units_nonneg _ sem HI') as Hnn.
  destruct (event_of p p') as [|sem|sem n]; cbn [spec_step delta] in *.
  - f_equal. apply list_eq. intros j. unfold avail. rewrite !list_lookup_imap. cbn [shared].
    destruct (decide (j < length (m_cAvail s))%nat) as [Hj|Hj].
    + destruct (lookup_lt_is_Some_2 _ _ Hj) as [w ->]. destruct (lookup_lt_is_Some_2 (m_cAvail s') j ltac:(lia)) as [w' ->].
      cbn. f_equal. rewrite Hd. lia.
    + by rewrite !lookup_ge_None_2 by lia.
  - rewrite avail_lookup by done. cbn [mbind option_bind]. specialize (Hnn sem). specialize (Hd sem) as Hds.
    rewrite decide_True in Hds by done. replace (0 <? units (Conf s ts) sem) with true by lia. f_equal.
    apply Heq; [done|lia|]. intros j Hj. by rewrite decide_False.
  - destruct Hev as [Hs Hn]. rewrite avail_lookup by done. cbn [mbind option_bind]. specialize (Hd sem) as Hds.
    rewrite decide_True in Hds by done. replace (0 <? n) with true by lia. f_equal.
    apply Heq; [done|lia|]. intros j Hj. by rewrite decide_False.
Qed.

(** A run, with the event of each step. *)
Inductive run (c : conf shared_state pc) : list event -> conf shared_state pc -> Prop :=
  | run_nil : run c [] c
  | run_snoc evs s ts o (i : nat) p s' p' :
      run c evs (Conf s ts) -> ts !! i = Some p -> tstep g_cSpinMax o s p = Next s' p' ->
      run c (evs ++ [event_of p p']) (Conf s' (<[i := p']> ts)).

Lemma run_inv c evs c' : sem_inv c -> run c evs c' -> sem_inv c'.
Proof. intros HI Hr. induction Hr as [|evs s ts o i p s' p' Hr IH Hi E]; [done|]. by eapply sem_tstep_inv. Qed.

Lemma spec_run_app evs1 evs2 a : spec_run (evs1 ++ evs2) a = a' ← spec_run evs1 a; spec_run evs2 a'.
Proof. revert a. induction evs1 as [|ev evs1 IH]; intros a; cbn; [done|]. destruct (spec_step ev a); cbn; auto. Qed.

Lemma run_spec c evs c' : sem_inv c -> run c evs c' -> spec_run evs (avail c) = Some (avail c').
Proof.
  intros HI Hr. induction Hr as [|evs s ts o i p s' p' Hr IH Hi E]; [done|].
  rewrite spec_run_app, IH. cbn. by rewrite (sem_step_spec o s ts i p s' p' (run_inv _ _ _ HI Hr) Hi E).
Qed.

Lemma avail_init n m : avail (sem_init n m) = replicate m 0.
Proof.
  apply list_eq. intros j. unfold avail. rewrite list_lookup_imap. cbn [shared sem_init m_cAvail].
  destruct (decide (j < m)%nat) as [Hj|Hj].
  - rewrite lookup_replicate_2 by done. cbn. f_equal. unfold units. cbn [shared sem_init m_cAvail m_mpirksemrksem pcs].
    rewrite lookup_replicate_2 by done. cbn. apply total_0. by intros p [-> _]%elem_of_replicate.
  - rewrite lookup_ge_None_2 by (rewrite length_replicate; lia). done.
Qed.

(** ** Progress *)

(** A thread that can take no step waits on a kernel semaphore without units. *)
Lemma stuck_waits s p : (forall r, p <> Idle r) -> (forall o, tstep g_cSpinMax o s p = Blocked) ->
  exists sem k sl, (p = W sem false k \/ p = TA sem k) /\ m_mpirksemrksem s !! k = Some sl /\ m_count sl <= 0.
Proof.
  intros Hne H. pose proof (H OpAllocateNew) as Hg. pose proof (H OpTimeout) as Ht.
  destruct p; cbn [tstep FDecAvail _FAcquire Unreference FIncAvail _Release ReleaseAllWaiters] in *;
    unfold with_word, with_slot, Ksem, OSSYNCAssert, sem_acquire, with_slot in *; cbv zeta in *; try (by destruct (Hne result));
    repeat case_match; try done; eexists _, _, _; split_and!; eauto; lia.
Qed.

(** Every thread is out of calls, or waits on a kernel semaphore without units. *)
Definition all_wait (s : shared_state) (ts : list pc) : Prop :=
  forall (j : nat) q, ts !! j = Some q -> (exists r, q = Idle r) \/
    exists sem k sl, (q = W sem false k \/ q = TA sem k) /\ m_mpirksemrksem s !! k = Some sl /\ m_count sl <= 0.

Lemma stuck_all_wait s ts :
  (forall (j : nat) q, ts !! j = Some q -> (exists r, q = Idle r) \/ forall o, tstep g_cSpinMax o s q = Blocked) ->
  all_wait s ts.
Proof.
  intros Hall j q Hj. destruct (Hall j q Hj) as [Hr|Hb]; [by left|].
  assert ((exists r, q = Idle r) \/ forall r, q <> Idle r) as [Hr|Hr] by (destruct q; eauto; by right).
  - by left.
  - right. by apply stuck_waits.
Qed.

Lemma all_wait_pend s ts k : all_wait s ts -> total (pendk k) ts = 0.
Proof.
  intros Hq. apply total_0. intros q [j Hj]%list_elem_of_lookup.
  by destruct (Hq j q Hj) as [[r ->]|(sem & k' & sl & [-> | ->] & _)].
Qed.

(** Then no kernel semaphore has units: a thread it was given to would not wait. *)
Lemma all_wait_count s ts k sl :
  sem_inv (Conf s ts) -> all_wait s ts -> m_mpirksemrksem s !! k = Some sl -> m_count sl = 0.
Proof.
  intros HI Hq Hk. pose proof (inv_count_nonneg _ _ _ _ HI Hk) as H0.
  destruct (decide (m_count sl = 0)) as [|Hne]; [done|exfalso].
  destruct (m_psyncobjUser sl) as [u|] eqn:Hu; [|by rewrite (inv_count_unused _ _ _ _ HI Hk Hu) in Hne].
  destruct (inv_used s ts k u HI) as (sl' & Hk' & _ & _ & Hused & Hc); [unfold user_of; by rewrite Hk|].
  rewrite Hk in Hk'. injection Hk' as <-.
  unfold used_at, slot_used in Hused. rewrite (all_wait_pend s) in Hused by done. destruct_and! Hused.
  destruct (total_pos (regk k) ts ltac:(lia)) as (j & q & Hj & Hreg).
  destruct (Hq j q Hj) as [[r ->]|(sem & k' & sl' & [-> | ->] & Hk' & Hle)]; cbn [regk] in Hreg; [lia| |];
    (unfold at_ in Hreg; case_decide; [subst k'; rewrite Hk in Hk'; injection Hk' as <-; lia|lia]).
Qed.

Lemma sem_progress s ts (i : nat) p :
  sem_inv (Conf s ts) -> all_wait s ts -> ts !! i = Some p -> (forall r, p <> Idle r) ->
  exists sem k, p = W sem false k /\ units (Conf s ts) sem = 0.
Proof.
  intros HI Hq Hi Hp. destruct (Hq i p Hi) as [[r ->]|(sem & k & sl & Hpos & Hk & _)]; [by destruct (Hp r)|].
  assert (Hu : user_of (m_mpirksemrksem s) k = Some sem).
  { apply (claim_user s p); [by eapply inv_thread|]. by destruct Hpos as [-> | ->]. }
  pose proof (inv_thread _ _ _ _ HI Hi) as (_ & Hse & _).
  destruct (inv_word_lookup s sem) as [w Hw]; [by destruct Hpos as [-> | ->]; apply Forall_cons_1 in Hse as [? _]|].
  destruct (inv_used _ _ _ _ HI Hu) as (sl' & Hk' & _ & _ & Hused & Hc). rewrite Hk in Hk'. injection Hk' as <-.
  unfold used_at, slot_used in Hused.
  rewrite (all_wait_pend s), (all_wait_count _ _ _ _ HI Hq Hk), (inv_wc _ _ _ _ _ HI Hu Hw) in Hused by done.
  destruct_and! Hused. sums HI Hi k.
  assert (Hreg : regk k p = 1) by (destruct Hpos as [-> | ->]; apply at_eq).
  exists sem, k. split.
  - destruct Hpos as [-> | ->]; [done|exfalso]. cbn [takk regk] in *. rewrite at_eq in *. lia.
  - unfold units. cbn [shared pcs]. rewrite Hw.
    assert (w < 0) by (destruct (Z.lt_ge_cases w 0); [done|rewrite wc_units in * by lia; lia]).
    rewrite (total_0 (kcount sem)), (total_0 (in_release sem)); [lia|..].
    + intros q [j Hj]%list_elem_of_lookup. by destruct (Hq j q Hj) as [[r ->]|(? & ? & ? & [-> | ->] & _)].
    + intros q [j Hj]%list_elem_of_lookup. unfold kcount. rewrite (all_wait_count _ _ _ _ HI Hq Hj). by case_decide.
Qed.

(** ** Guarantees *)

Definition is_acquired (ev : event) : bool := match ev with Acquired _ => true | _ => false end.

(** A call returns [fTrue] exactly if one of its steps takes a unit. *)
Lemma sem_results o s p s' p' : tstep g_cSpinMax o s p = Next s' p' ->
  has_unit p' = match p with Idle _ => false | _ => has_unit p || is_acquired (event_of p p') end.
Proof.
  intros E. destruct p; cbn [tstep FDecAvail _FAcquire Unreference FIncAvail _Release ReleaseAllWaiters] in E;
    open_step E; try reflexivity; try (by destruct irksemAlloc);
    try match goal with b : bool |- context [if ?b then FR _ _ else _] => destruct b end; destruct k as [[]| |]; done.
Qed.

(** C6: The semaphores of the library are counting semaphores, with timeouts and the
    shared pool of kernel semaphores behind them.  For fewer than 2^14 threads and any
    number of semaphores, every run, in which the calls of the threads are interleaved
    in any order of their atomic operations, is a run of the specification: the steps
    that give a call its unit find one and take it, the steps of [Release] and
    [ReleaseAllWaiters] add the units they should, and no other step creates, loses or
    moves a unit.  A call returns [fTrue] exactly if one of its steps took a unit, so a
    timed-out call that reports failure has left none behind. *)
Theorem semaphore_refines n m evs c :
  Z.of_nat n < 2 ^ 14 -> run (sem_init n m) evs c ->
  spec_run evs (replicate m 0) = Some (avail c) /\
  (forall (i : nat) p o s' p', pcs c !! i = Some p -> tstep g_cSpinMax o (shared c) p = Next s' p' ->
     has_unit p' = match p with Idle _ => false | _ => has_unit p || is_acquired (event_of p p') end).
Proof.
  intros Hn Hr. split.
  - rewrite <- (avail_init n m). by apply run_spec; [apply sem_init_inv|].
  - intros i p o s' p' _ E. by eapply sem_results.
Qed.

(** The checks of [CSemaphore] and of the pool of kernel semaphores hold in every
    interleaving.  For fewer than 2^14 threads, no step fails an assertion: every
    kernel semaphore is used only by the semaphore it is allocated to, is never
    allocated or freed while in use or twice, has no units left when it is freed, and
    is not referenced after its last reference is gone.  The only ways to fail are
    those the code cannot prevent: releasing past 2^31 - 1 units, and using up the
    65535 slots of the pool. *)
Theorem semaphore_checks n m c (i : nat) p o :
  Z.of_nat n < 2 ^ 14 -> rtc SemStep (sem_init n m) c -> pcs c !! i = Some p ->
  tstep g_cSpinMax o (shared c) p = Fault -> exhausted (shared c) p.
Proof.
  intros Hn Hr Hi E. pose proof (sem_reachable n m c Hn Hr) as HI. destruct c as [s ts]. by eapply sem_no_fault.
Qed.

(** C27: No wake-up of a semaphore is lost.  If in a reachable configuration every thread
    is outside a call or cannot take a step, then each thread in a call waits without
    a timeout for a semaphore that has no units: neither in its word, nor in a kernel
    semaphore, nor in the hands of a releaser.  No thread whose wait has timed out is
    left waiting. *)
Theorem semaphore_no_lost_wakeup n m c :
  Z.of_nat n < 2 ^ 14 -> rtc SemStep (sem_init n m) c ->
  (forall (j : nat) q, pcs c !! j = Some q ->
     (exists r, q = Idle r) \/ forall o, tstep g_cSpinMax o (shared c) q = Blocked) ->
  forall (i : nat) p, pcs c !! i = Some p ->
    (exists r, p = Idle r) \/ exists sem k, p = W sem false k /\ units c sem = 0.
Proof.
  intros Hn Hr Hall i p Hi. pose proof (sem_reachable n m c Hn Hr) as HI. destruct c as [s ts]. cbn [shared pcs] in *.
  pose proof (stuck_all_wait s ts Hall) as Hq.
  destruct (Hq i p Hi) as [Hp|(sem & k & sl & Hpos & _)]; [by left|right].
  apply (sem_progress s ts i p HI Hq Hi). intros r. by destruct Hpos as [-> | ->].
Qed.

(** A schedule with the events of its steps. *)
Fixpoint exec_run (sched : list (nat * op)) (c : conf shared_state pc) : option (list event * conf shared_state pc) :=
  match sched with
  | [] => Some ([], c)
  | (i, o) :: sched =>
      p ← pcs c !! i;
      match tstep g_cSpinMax o (shared c) p with
      | Next s' p' =>
          r ← exec_run sched (Conf s' (<[i := p']> (pcs c)));
          Some (event_of p p' :: r.1, r.2)
      | _ => None
      end
  end.

Lemma run_cons c evs c' s ts o (i : nat) p s' p' :
  c = Conf s ts -> ts !! i = Some p -> tstep g_cSpinMax o s p = Next s' p' ->
  run (Conf s' (<[i := p']> ts)) evs c' -> run c (event_of p p' :: evs) c'.
Proof.
  intros -> Hi E Hr. induction Hr as [|evs s1 ts1 o1 i1 p1 s1' p1' Hr IH Hi1 E1].
  - by apply (run_snoc _ [] s ts o i); [constructor|..].
  - by apply (run_snoc _ (event_of p p' :: evs) s1 ts1 o1 i1).
Qed.

Lemma exec_run_run sched c evs c' : exec_run sched c = Some (evs, c') -> run c evs c'.
Proof.
  revert c evs. induction sched as [|[i o] sched IH]; intros [s ts] evs H; cbn in H; [simplify_eq; constructor|].
  destruct (ts !! i) as [p|] eqn:Hi; [|done]. cbn in H.
  destruct (tstep g_cSpinMax o s p) as [| |s' p'] eqn:E; [done..|].
  destruct (exec_run sched (Conf s' (<[i := p']> ts))) as [[evs' c1]|] eqn:Er; [|done]. cbn in H. simplify_eq.
  eapply run_cons; eauto.
Qed.

End System.

(** Thread 0 waits for a unit, thread 1 releases two, and thread 0 gets one. *)
Lemma semaphore_refines_witness :
  let evs := replicate 11 Silent ++ [Released 0 2; Silent; Acquired 0; Silent; Silent] in
  let c := Conf (SemState [1] [Rksem 0 true None 0]) [Idle (Some true); Idle None] in
  run 0 (sem_init 2 1) evs c /\ spec_run evs [0] = Some (avail c).
Proof.
  intros evs c.
  assert (H : run 0 (sem_init 2 1) evs c).
  { apply (exec_run_run 0 (replicate 7 (0%nat, OpAcquire 0) ++ replicate 6 (1%nat, OpRelease 0 2) ++
      replicate 3 (0%nat, OpGo))). vm_compute. reflexivity. }
  split; [exact H|]. exact (proj1 (semaphore_refines 0 2 1 evs c ltac:(lia) H)).
Defined.

(** One release more than the word can count. *)
Lemma semaphore_checks_witness :
  let p := I_cas 0 1 0x7FFFFFFF in
  let c := Conf (SemState [0x7FFFFFFF] []) [p] in
  tstep 0 OpGo (shared c) p = Fault /\ exhausted (shared c) p.
Proof.
  intros p c. split; [reflexivity|].
  refine (semaphore_checks 0 1 1 c 0 p OpGo ltac:(lia) _ eq_refl eq_refl).
  apply (exec_steps (tstep 0) (replicate 3 (0%nat, OpRelease 0 0x7FFFFFFF) ++ replicate 2 (0%nat, OpRelease 0 1))).
  vm_compute. reflexivity.
Defined.

(** Thread 0 waits for a unit nobody has released; thread 1 has tried and failed. *)
Lemma semaphore_no_lost_wakeup_witness :
  let c := Conf (SemState [enc 1 0] [Rksem 0x8001 false (Some 0%nat) 0]) [W 0 false 0; Idle (Some false)] in
  (exists r, W 0 false 0 = Idle r) \/ exists sem k, W 0 false 0 = W sem false k /\ units c sem = 0.
Proof.
  intros c. refine (semaphore_no_lost_wakeup 0 2 1 c ltac:(lia) _ _ 0%nat (W 0 false 0) eq_refl).
  - apply (exec_steps (tstep 0) (replicate 7 (0%nat, OpAcquire 0) ++ replicate 3 (1%nat, OpTryAcquire 0))).
    vm_compute. reflexivity.
  - intros [|[|j]] q Hq; cbn in Hq; simplify_eq; [right; by intros []|left; eauto].
Defined.
