(* ===== verification/InitTermLock.v ===== *)
(** * InitTermLock: [CInitTermLock] (sync.hxx)

    A reference count that decides who initialises and who terminates a component:
    the first [ErrInitBegin] tells its caller to initialise, the last [ErrTermBegin]
    tells its caller to terminate, and while either is under way other callers spin.
    One word holds the count and two flags.  Each access to the word or to a counter
    of the statistics is a step; [SleepAwayQuanta] only gives up the processor. *)

From stdpp Require Import relations.
From S2P Require Import Prelude Threads ControlWord.

(** ** State *)

Record CInitTermLock := ITLock {
  m_cwState : Z;
  m_cActualInits : Z; m_cRefCountInits : Z; m_cCancelledInits : Z;
  m_cActualTerms : Z; m_cRefCountTerms : Z }.

Definition fInitInProgress : Z := 0x80000000.

Definition fTermInProgress : Z := 0x40000000.

(** [~( fInitInProgress | fTermInProgress )] *)
Definition mskRefCount : Z := 0x3FFFFFFF.

(** The value of a debug build, which is the stricter one. *)
Definition mskBadRefCount : Z := 0x3ffff800.

(** The constructor initialises nothing: it enforces that the word is zero in the storage of
    the object, and leaves the statistics as they are there. *)
Definition CInitTermLock_ctor (storage : CInitTermLock) : option CInitTermLock :=
  if m_cwState storage =? 0 then Some storage else None.

Definition set_cwState (cw : Z) (s : CInitTermLock) : CInitTermLock :=
  ITLock cw (m_cActualInits s) (m_cRefCountInits s) (m_cCancelledInits s) (m_cActualTerms s) (m_cRefCountTerms s).

Definition inc_cActualInits (s : CInitTermLock) : CInitTermLock :=
  ITLock (m_cwState s) (s32 (m_cActualInits s + 1)) (m_cRefCountInits s) (m_cCancelledInits s) (m_cActualTerms s) (m_cRefCountTerms s).

Definition inc_cRefCountInits (s : CInitTermLock) : CInitTermLock :=
  ITLock (m_cwState s) (m_cActualInits s) (s32 (m_cRefCountInits s + 1)) (m_cCancelledInits s) (m_cActualTerms s) (m_cRefCountTerms s).

Definition inc_cCancelledInits (s : CInitTermLock) : CInitTermLock :=
  ITLock (m_cwState s) (m_cActualInits s) (m_cRefCountInits s) (s32 (m_cCancelledInits s + 1)) (m_cActualTerms s) (m_cRefCountTerms s).

Definition inc_cActualTerms (s : CInitTermLock) : CInitTermLock :=
  ITLock (m_cwState s) (m_cActualInits s) (m_cRefCountInits s) (m_cCancelledInits s) (s32 (m_cActualTerms s + 1)) (m_cRefCountTerms s).

Definition inc_cRefCountTerms (s : CInitTermLock) : CInitTermLock :=
  ITLock (m_cwState s) (m_cActualInits s) (m_cRefCountInits s) (m_cCancelledInits s) (m_cActualTerms s) (s32 (m_cRefCountTerms s + 1)).

(** The value [AtomicExchangeReset] stores. *)
Definition AtomicExchangeReset (ulOld ulMask : Z) : Z := ulOld .& Z.lnot ulMask.

(** What the destructor enforces. *)
Definition dtor_enforces (s : CInitTermLock) : bool :=
  (m_cwState s =? 0) && (m_cActualInits s =? m_cActualTerms s) && (m_cRefCountInits s =? m_cRefCountTerms s).

Definition no_bad (cw : Z) : bool := 0 =? (mskBadRefCount .& cw).

Definition in_progress (cw : Z) : bool := negb (cw .& (fInitInProgress .| fTermInProgress) =? 0).

Definition AssertValidStateTransition_ (cwInitial cwFinal : Z) : bool :=
  no_bad cwInitial && no_bad cwFinal &&
  (if cwInitial =? 0 then cwFinal =? (fInitInProgress .| 1)
   else if cwInitial =? (fInitInProgress .| 1) then (cwFinal =? 1) || (cwFinal =? 0)
   else if cwInitial =? 1 then (cwFinal =? 2) || (cwFinal =? fTermInProgress)
   else if cwInitial =? fTermInProgress then cwFinal =? 0
   else (2 <=? cwInitial .& mskRefCount) && negb (in_progress cwInitial) && negb (in_progress cwFinal) &&
        ((cwFinal =? u32 (cwInitial + 1)) || (cwFinal =? u32 (cwInitial - 1)))).

(** ** Positions of a thread *)

Inductive pc :=
  | Idle
  (** [ErrInitBegin]: the assertion, the read, the exchange, the assertion at the end
      (with the result), the statistics *)
  | IB | IB_read | IB_cas (cwBIExpected cwAI : Z) | IB_end (fInitBegun : bool) | IB_stat
  (** the caller initialises the component *)
  | Initing
  (** [InitFinish]: three assertions, the statistics, the exchange, the assertions after it *)
  | IF_1 (ok : bool) | IF_2 (ok : bool) | IF_3 (ok : bool) | IF_stat (ok : bool) | IF_x (ok : bool)
  | IF_4 | IF_5 | IF_6 (ok : bool)
  (** the caller uses the component *)
  | Own
  (** [ErrTermBegin] *)
  | TB | TB_read | TB_cas (cwBIExpected cwAI : Z) | TB_end (fTermBegun : bool) | TB_stat
  (** the caller terminates the component *)
  | Terming
  (** [TermFinish] *)
  | TF_1 | TF_stat | TF_x.

Abbreviation result := (outcome CInitTermLock pc).

(** ** Operations *)

Definition ErrInitBegin (s : CInitTermLock) (p : pc) : result :=
  let cw := m_cwState s in
  match p with
  | IB => OSSYNCAssert (no_bad cw) (Next s IB_read)
  | IB_read =>
      if in_progress cw then Next s IB
      else
        let cwAI := u32 (cw + 1) in
        let cwAI := if cw =? 0 then cwAI .| fInitInProgress else cwAI in
        OSSYNCAssert ((cw =? cw .& mskRefCount) &&
            ((2 <=? cwAI .& mskRefCount) || negb (cwAI .& fInitInProgress =? 0)) &&
            AssertValidStateTransition_ cw cwAI)
          (Next s (IB_cas cw cwAI))
  | IB_cas cwBIExpected cwAI =>
      if negb (cw =? cwBIExpected) then Next s IB
      else OSSYNCAssert (negb (in_progress cw))
             (Next (set_cwState cwAI s) (IB_end (negb (cwAI .& fInitInProgress =? 0))))
  | IB_end fInitBegun => OSSYNCAssert (no_bad cw) (Next s (if fInitBegun then Initing else IB_stat))
  | IB_stat => Next (inc_cRefCountInits s) Own
  | _ => Blocked
  end.

Definition InitFinish (s : CInitTermLock) (p : pc) : result :=
  let cw := m_cwState s in
  let cwBIExpected := fInitInProgress .| 1 in
  match p with
  | IF_1 ok => OSSYNCAssert (negb (cw .& fInitInProgress =? 0)) (Next s (IF_2 ok))
  | IF_2 ok => OSSYNCAssert (0 =? cw .& fTermInProgress) (Next s (IF_3 ok))
  | IF_3 ok => OSSYNCAssert (cw =? cwBIExpected) (Next s (IF_stat ok))
  | IF_stat true => Next (inc_cActualInits s) (IF_x true)
  | IF_stat false =>
      OSSYNCAssert (AssertValidStateTransition_ cwBIExpected 0) (Next (inc_cCancelledInits s) (IF_x false))
  | IF_x true =>
      let cwAI := AtomicExchangeReset cw fInitInProgress in
      OSSYNCAssert ((cw =? cwBIExpected) && AssertValidStateTransition_ cw cwAI && negb (cw .& fInitInProgress =? 0))
        (Next (set_cwState cwAI s) IF_4)
  | IF_x false => OSSYNCAssert (cw =? cwBIExpected) (Next (set_cwState 0 s) (IF_6 false))
  | IF_4 => OSSYNCAssert (0 =? cw .& fInitInProgress) (Next s IF_5)
  | IF_5 => OSSYNCAssert (0 =? cw .& fTermInProgress) (Next s (IF_6 true))
  | IF_6 ok => OSSYNCAssert (no_bad cw) (Next s (if ok then Own else Idle))
  | _ => Blocked
  end.

Definition ErrTermBegin (s : CInitTermLock) (p : pc) : result :=
  let cw := m_cwState s in
  match p with
  | TB => OSSYNCAssert (no_bad cw) (Next s TB_read)
  | TB_read =>
      let cwAI := if 1 =? cw then fTermInProgress else u32 (cw - 1) in
      OSSYNCAssert ((0 =? cw .& fInitInProgress) && negb (in_progress cw) && (cw =? cw .& mskRefCount) &&
          ((1 <=? cwAI .& mskRefCount) || negb (cwAI .& fTermInProgress =? 0)) &&
          AssertValidStateTransition_ cw cwAI)
        (Next s (TB_cas cw cwAI))
  | TB_cas cwBIExpected cwAI =>
      if negb (cw =? cwBIExpected) then Next s TB
      else Next (set_cwState cwAI s) (TB_end (negb (cwAI .& fTermInProgress =? 0)))
  | TB_end fTermBegun => OSSYNCAssert (no_bad cw) (Next s (if fTermBegun then Terming else TB_stat))
  | TB_stat => Next (inc_cRefCountTerms s) Idle
  | _ => Blocked
  end.

Definition TermFinish (s : CInitTermLock) (p : pc) : result :=
  let cw := m_cwState s in
  match p with
  | TF_1 => OSSYNCAssert (cw =? fTermInProgress) (Next s TF_stat)
  | TF_stat => Next (inc_cActualTerms s) TF_x
  | TF_x =>
      OSSYNCAssert (AssertValidStateTransition_ cw 0 && (cw =? fTermInProgress))
        (Next (set_cwState (AtomicExchangeReset cw fTermInProgress) s) Idle)
  | _ => Blocked
  end.

Inductive op := OpErrInitBegin | OpInitFinish (fSuccessfulInit : bool) | OpErrTermBegin | OpTermFinish.

(** A thread begins to initialise or use the component, finishes what it has begun,
    and gives it up once. *)
Definition tstep (o : op) (s : CInitTermLock) (p : pc) : result :=
  match p with
  | Idle => match o with OpErrInitBegin => Next s IB | _ => Blocked end
  | Initing => match o with OpInitFinish ok => Next s (IF_1 ok) | _ => Blocked end
  | Own => match o with OpErrTermBegin => Next s TB | _ => Blocked end
  | Terming => match o with OpTermFinish => Next s TF_1 | _ => Blocked end
  | IB | IB_read | IB_cas _ _ | IB_end _ | IB_stat => ErrInitBegin s p
  | IF_1 _ | IF_2 _ | IF_3 _ | IF_stat _ | IF_x _ | IF_4 | IF_5 | IF_6 _ => InitFinish s p
  | TB | TB_read | TB_cas _ _ | TB_end _ | TB_stat => ErrTermBegin s p
  | TF_1 | TF_stat | TF_x => TermFinish s p
  end.

Abbreviation ITStep := (step tstep).

(** [n] threads and a lock that has been constructed. *)
Definition it_init (n : nat) (s0 : CInitTermLock) : conf CInitTermLock pc := Conf s0 (replicate n Idle).

(** ** The invariant *)

(** Threads that hold a reference, that initialise and that terminate. *)
Definition refs (p : pc) : Z :=
  match p with
  | IB_end false | IB_stat | Own | IF_4 | IF_5 | IF_6 true | TB | TB_read | TB_cas _ _ => 1
  | _ => 0
  end.

Definition inits (p : pc) : Z :=
  match p with IB_end true | Initing | IF_1 _ | IF_2 _ | IF_3 _ | IF_stat _ | IF_x _ => 1 | _ => 0 end.

Definition terms (p : pc) : Z := match p with TB_end true | Terming | TF_1 | TF_stat | TF_x => 1 | _ => 0 end.

(** Statistics not yet updated, or updated early. *)
Definition pRI (p : pc) : Z := match p with IB_end false | IB_stat => 1 | _ => 0 end.

Definition pRT (p : pc) : Z := match p with TB_end false | TB_stat => 1 | _ => 0 end.

Definition eAI (p : pc) : Z := match p with IF_x true => 1 | _ => 0 end.

Definition eAT (p : pc) : Z := match p with TF_x => 1 | _ => 0 end.

(** The word, with [r] references, [i] initialisers and [t] terminators, and the
    statistics: [dA] initialisations not yet matched by a termination, [dR] references
    taken and not given back. *)
Definition it_phase (cw r i t ei et dA dR : Z) : Prop :=
  (cw = r /\ 0 <= r < 2 ^ 11 /\ i = 0 /\ t = 0 /\ ei = 0 /\ et = 0 /\
     (r = 0 /\ dA = 0 \/ 0 < r /\ dA = 1) /\ dR = Z.max 0 (r - 1)) \/
  (cw = 0x80000001 /\ r = 0 /\ i = 1 /\ t = 0 /\ et = 0 /\ dA = ei /\ dR = 0) \/
  (cw = 0x40000000 /\ r = 0 /\ i = 0 /\ t = 1 /\ ei = 0 /\ dA = 1 - et /\ dR = 0).

Definition it_pc_ok (p : pc) : Prop :=
  match p with
  | IB_cas cw cwAI => 0 <= cw < 2 ^ 11 - 1 /\ cwAI = if cw =? 0 then 0x80000001 else cw + 1
  | TB_cas cw cwAI => 1 <= cw < 2 ^ 11 /\ cwAI = if cw =? 1 then 0x40000000 else cw - 1
  | _ => True
  end.

(** The statistics are counted from what they were in the storage of the lock. *)
Section Inv.
Context (s0 : CInitTermLock).

Definition it_inv (c : conf CInitTermLock pc) : Prop :=
  let s := shared c in let ts := pcs c in
  Z.of_nat (length ts) < 2 ^ 11 /\ Forall it_pc_ok ts /\
  exists AI RI AT RT,
    m_cActualInits s = s32 AI /\ m_cRefCountInits s = s32 RI /\ m_cActualTerms s = s32 AT /\
    m_cRefCountTerms s = s32 RT /\
    it_phase (m_cwState s) (total refs ts) (total inits ts) (total terms ts) (total eAI ts) (total eAT ts)
      (AI - AT - (m_cActualInits s0 - m_cActualTerms s0))
      (RI + total pRI ts - RT - total pRT ts - (m_cRefCountInits s0 - m_cRefCountTerms s0)).

(** ** Bits *)

Lemma small_bits r : 0 <= r < 2 ^ 11 ->
  mskBadRefCount .& r = 0 /\ r .& (fInitInProgress .| fTermInProgress) = 0 /\ r .& mskRefCount = r /\
  r .& fInitInProgress = 0 /\ r .& fTermInProgress = 0.
Proof.
  intros H.
  assert (Hl : forall m, r .& Z.shiftl m 11 = 0).
  { intros m. bitwise i. rewrite Z.land_spec, Z.bits_0. destruct (Z.lt_ge_cases i 11).
    - rewrite Z.shiftl_spec_low by lia. apply andb_false_r.
    - rewrite (in_u_testbit_high 11 r i) by (unfold in_u; lia). done. }
  split_and!; [rewrite Z.land_comm; exact (Hl 0x7FFFF)|exact (Hl 0x180000)| |exact (Hl 0x100000)|exact (Hl 0x80000)].
  unfold mskRefCount. change 0x3FFFFFFF with (Z.ones 30). rewrite Z.land_ones by lia. apply Z.mod_small. lia.
Qed.

Lemma small_no_bad r : 0 <= r < 2 ^ 11 -> no_bad r = true.
Proof. intros H. unfold no_bad. by rewrite (proj1 (small_bits r H)). Qed.

Lemma small_in_progress r : 0 <= r < 2 ^ 11 -> in_progress r = false.
Proof. intros H. unfold in_progress. destruct (small_bits r H) as (_ & -> & _). done. Qed.

Lemma phase_no_bad cw r i t ei et dA dR : it_phase cw r i t ei et dA dR -> no_bad cw = true.
Proof. intros [(-> & H & _)|[(-> & _)|(-> & _)]]; [by apply small_no_bad|done..]. Qed.

(** The transitions [ErrInitBegin] and [ErrTermBegin] make. *)
Lemma init_transition r : 0 <= r < 2 ^ 11 - 1 ->
  let cwAI := if r =? 0 then u32 (r + 1) .| fInitInProgress else u32 (r + 1) in
  cwAI = (if r =? 0 then 0x80000001 else r + 1) /\
  (r =? r .& mskRefCount) && ((2 <=? cwAI .& mskRefCount) || negb (cwAI .& fInitInProgress =? 0)) &&
    AssertValidStateTransition_ r cwAI = true.
Proof.
  intros H. cbv zeta. destruct (Z.eqb_spec r 0) as [->|Hr]; [done|].
  rewrite wrapu_small by (unfold in_u; lia). split; [done|].
  destruct (small_bits r ltac:(lia)) as (_ & _ & -> & _).
  destruct (small_bits (r + 1) ltac:(lia)) as (_ & _ & -> & _).
  unfold AssertValidStateTransition_. rewrite !small_no_bad, !small_in_progress by lia.
  destruct (small_bits r ltac:(lia)) as (_ & _ & -> & _).
  rewrite wrapu_small by (unfold in_u; lia). change (fInitInProgress .| 1) with 0x80000001. unfold fTermInProgress.
  repeat case_match; lia.
Qed.

Lemma term_transition r : 1 <= r < 2 ^ 11 ->
  let cwAI := if 1 =? r then fTermInProgress else u32 (r - 1) in
  cwAI = (if r =? 1 then 0x40000000 else r - 1) /\
  (0 =? r .& fInitInProgress) && negb (in_progress r) && (r =? r .& mskRefCount) &&
    ((1 <=? cwAI .& mskRefCount) || negb (cwAI .& fTermInProgress =? 0)) &&
    AssertValidStateTransition_ r cwAI = true.
Proof.
  intros H. cbv zeta. rewrite (Z.eqb_sym 1 r). destruct (Z.eqb_spec r 1) as [->|Hr]; [done|].
  rewrite wrapu_small by (unfold in_u; lia). split; [done|].
  destruct (small_bits r ltac:(lia)) as (_ & _ & E1 & E2 & _).
  destruct (small_bits (r - 1) ltac:(lia)) as (_ & _ & E3 & _).
  unfold AssertValidStateTransition_. rewrite !small_no_bad, !small_in_progress, E1, E2, E3 by lia.
  rewrite (wrapu_small 32 (r - 1)) by (unfold in_u; lia). change (fInitInProgress .| 1) with 0x80000001. unfold fTermInProgress.
  repeat case_match; lia.
Qed.

(** ** Steps *)

Lemma it_weights p :
  0 <= refs p <= 1 /\ 0 <= inits p <= 1 /\ 0 <= terms p <= 1 /\ 0 <= pRI p <= refs p /\ 0 <= pRT p /\
  0 <= eAI p <= inits p /\ 0 <= eAT p <= terms p /\ refs p + inits p + terms p <= 1.
Proof. destruct p; cbn; repeat case_match; lia. Qed.

Lemma it_sums ts (i : nat) p : ts !! i = Some p ->
  refs p <= total refs ts <= Z.of_nat (length ts) /\ inits p <= total inits ts /\ terms p <= total terms ts /\
  pRI p <= total pRI ts /\ pRT p <= total pRT ts /\ eAI p <= total eAI ts /\ eAT p <= total eAT ts /\
  (refs p = 0 -> total refs ts < Z.of_nat (length ts)) /\
  total pRI ts - pRI p <= total refs ts - refs p /\ total eAI ts - eAI p <= total inits ts - inits p /\
  total eAT ts - eAT p <= total terms ts - terms p.
Proof.
  intros Hi. pose proof (total_le refs (fun _ => 1) ts ltac:(intros q; apply it_weights)) as H. rewrite total_1 in H.
  split_and!; try done; try (apply (total_ge _ _ i); [intros q; apply it_weights|done]);
    try (apply (total_rest _ _ _ i); [intros q; apply it_weights|done]).
  intros H0. apply (total_lt_length refs ts i p); [intros q; apply it_weights|done|lia].
Qed.

(** A thread moves from [p] to [p']. *)
Lemma it_update ts (i : nat) p s' p' AI RI AT RT :
  Z.of_nat (length ts) < 2 ^ 11 -> Forall it_pc_ok ts -> ts !! i = Some p -> it_pc_ok p' ->
  m_cActualInits s' = s32 AI -> m_cRefCountInits s' = s32 RI -> m_cActualTerms s' = s32 AT ->
  m_cRefCountTerms s' = s32 RT ->
  it_phase (m_cwState s') (total refs ts - refs p + refs p') (total inits ts - inits p + inits p')
    (total terms ts - terms p + terms p') (total eAI ts - eAI p + eAI p') (total eAT ts - eAT p + eAT p')
    (AI - AT - (m_cActualInits s0 - m_cActualTerms s0))
    (RI + (total pRI ts - pRI p + pRI p') - RT - (total pRT ts - pRT p + pRT p') - (m_cRefCountInits s0 - m_cRefCountTerms s0)) ->
  it_inv (Conf s' (<[i := p']> ts)).
Proof.
  intros Hn Hok Hi Hp' E1 E2 E3 E4 Hph. unfold it_inv. cbn [shared pcs]. rewrite length_insert.
  split_and!; [done|by apply Forall_insert|]. exists AI, RI, AT, RT. rewrite !(total_insert _ _ _ _ _ Hi). done.
Qed.

Lemma s32_succ x : s32 (s32 x + 1) = s32 (x + 1).
Proof.
  unfold wraps. f_equal. rewrite <- (Zplus_mod_idemp_l (x + 1)). symmetry. rewrite Zplus_mod_idemp_l.
  replace ((x + 2 ^ (32 - 1)) mod 2 ^ 32 - 2 ^ (32 - 1) + 1 + 2 ^ (32 - 1)) with ((x + 2 ^ (32 - 1)) mod 2 ^ 32 + 1) by lia.
  rewrite Zplus_mod_idemp_l. f_equal. lia.
Qed.

(** No weight changes. *)
Lemma it_silent s ts (i : nat) p p' :
  it_inv (Conf s ts) -> ts !! i = Some p -> it_pc_ok p' ->
  refs p' = refs p -> inits p' = inits p -> terms p' = terms p -> pRI p' = pRI p -> pRT p' = pRT p ->
  eAI p' = eAI p -> eAT p' = eAT p -> it_inv (Conf s (<[i := p']> ts)).
Proof.
  intros (Hn & Hok & AI & RI & AT & RT & E1 & E2 & E3 & E4 & Hph) Hi Hp' F1 F2 F3 F4 F5 F6 F7.
  apply (it_update ts i p s p' AI RI AT RT); try done. by rewrite F1, F2, F3, F4, F5, F6, F7, !Z.sub_add.
Qed.

Ltac it_open HI Hi :=
  pose proof HI as (Hn & Hok & AI & RI & AT & RT & E1 & E2 & E3 & E4 & Hph); cbn [shared pcs] in *;
  pose proof (it_sums _ _ _ Hi) as Hs; pose proof (phase_no_bad _ _ _ _ _ _ _ _ Hph) as Hnb.

(** The thread moves and the word or a counter changes; [AI] to [RT] are the new counts. *)
Ltac it_go Hn Hok Hi E1 E2 E3 E4 AI RI AT RT :=
  apply (it_update _ _ _ _ _ AI RI AT RT Hn Hok Hi);
  cbn [it_pc_ok set_cwState inc_cActualInits inc_cRefCountInits inc_cCancelledInits inc_cActualTerms
    inc_cRefCountTerms m_cwState m_cActualInits m_cRefCountInits m_cActualTerms m_cRefCountTerms];
  rewrite ?E1, ?E2, ?E3, ?E4, ?s32_succ; try done;
  unfold it_phase in *; cbn [refs inits terms pRI pRT eAI eAT] in *; lia.

(** What the word is while a thread initialises, terminates, or holds a reference. *)
Lemma it_word s ts (i : nat) p : it_inv (Conf s ts) -> ts !! i = Some p ->
  (inits p = 1 -> m_cwState s = 0x80000001) /\ (terms p = 1 -> m_cwState s = 0x40000000) /\
  (refs p = 1 -> 1 <= m_cwState s < 2 ^ 11) /\ (in_progress (m_cwState s) = false ->
     0 <= m_cwState s < 2 ^ 11 /\ (refs p = 0 -> m_cwState s < 2 ^ 11 - 1)).
Proof.
  intros HI Hi. it_open HI Hi. pose proof (it_weights p) as Hw.
  destruct Hph as [(E & Hph)|[(E & Hph)|(E & Hph)]]; rewrite E; split_and!; try (intros; lia); done.
Qed.

Definition it_result (ts : list pc) (i : nat) (r : result) : Prop :=
  match r with
  | Fault => False
  | Blocked => True
  | Next s' p' => it_inv (Conf s' (<[i := p']> ts))
  end.

Lemma ErrInitBegin_ok s ts (i : nat) p : it_inv (Conf s ts) -> ts !! i = Some p -> it_result ts i (ErrInitBegin s p).
Proof.
  intros HI Hi. destruct (it_word _ _ _ _ HI Hi) as (_ & _ & _ & Href). it_open HI Hi.
  assert (Hp : it_pc_ok p) by (rewrite Forall_lookup in Hok; by apply (Hok i)).
  destruct p; cbn [ErrInitBegin]; try done; rewrite ?Hnb; cbn [OSSYNCAssert it_result].
  - by eapply it_silent.
  - destruct (in_progress (m_cwState s)); [by eapply it_silent|]. destruct (Href eq_refl) as [H1 H2].
    specialize (H2 eq_refl). destruct (init_transition (m_cwState s) ltac:(lia)) as [Ev Ea]. cbv zeta in *.
    rewrite Ea. cbn [OSSYNCAssert it_result]. rewrite Ev. eapply it_silent; done || (cbn [it_pc_ok]; lia).
  - cbn [it_pc_ok] in Hp. destruct (Z.eqb_spec (m_cwState s) cwBIExpected) as [E|]; cbn [negb]; [|by eapply it_silent].
    rewrite (small_in_progress (m_cwState s)) by lia. cbn [negb OSSYNCAssert it_result].
    destruct Hp as [Hp ->]. destruct (Z.eqb_spec cwBIExpected 0) as [H0|H0].
    + change (negb (0x80000001 .& fInitInProgress =? 0)) with true. it_go Hn Hok Hi E1 E2 E3 E4 AI RI AT RT.
    + destruct (small_bits (cwBIExpected + 1) ltac:(lia)) as (_ & _ & _ & -> & _). cbn [Z.eqb negb].
      it_go Hn Hok Hi E1 E2 E3 E4 AI RI AT RT.
  - destruct fInitBegun; by eapply it_silent.
  - it_go Hn Hok Hi E1 E2 E3 E4 AI (RI + 1) AT RT.
Qed.

Lemma InitFinish_ok s ts (i : nat) p : it_inv (Conf s ts) -> ts !! i = Some p -> it_result ts i (InitFinish s p).
Proof.
  intros HI Hi. destruct (it_word _ _ _ _ HI Hi) as (Hcw & _ & Href & _). it_open HI Hi.
  destruct p; cbn [InitFinish]; try done; rewrite ?Hnb; try rewrite (Hcw eq_refl);
    try (destruct (small_bits _ (ltac:(pose proof (Href eq_refl); lia) : 0 <= m_cwState s < 2 ^ 11)) as (_ & _ & _ & B1 & B2);
         rewrite ?B1, ?B2).
  - by eapply it_silent.
  - by eapply it_silent.
  - by eapply it_silent.
  - destruct ok; cbn [it_result].
    + it_go Hn Hok Hi E1 E2 E3 E4 (AI + 1) RI AT RT.
    + change (AssertValidStateTransition_ (fInitInProgress .| 1) 0) with true. cbn [OSSYNCAssert it_result].
      it_go Hn Hok Hi E1 E2 E3 E4 AI RI AT RT.
  - destruct ok.
    + change (AtomicExchangeReset 0x80000001 fInitInProgress) with 1. cbn [OSSYNCAssert it_result].
      it_go Hn Hok Hi E1 E2 E3 E4 AI RI AT RT.
    + cbn [OSSYNCAssert it_result]. it_go Hn Hok Hi E1 E2 E3 E4 AI RI AT RT.
  - by eapply it_silent.
  - by eapply it_silent.
  - destruct ok; by eapply it_silent.
Qed.

Lemma ErrTermBegin_ok s ts (i : nat) p : it_inv (Conf s ts) -> ts !! i = Some p -> it_result ts i (ErrTermBegin s p).
Proof.
  intros HI Hi. destruct (it_word _ _ _ _ HI Hi) as (_ & _ & Href & _). it_open HI Hi.
  assert (Hp : it_pc_ok p) by (rewrite Forall_lookup in Hok; by apply (Hok i)).
  destruct p; cbn [ErrTermBegin]; try done; rewrite ?Hnb; cbn [OSSYNCAssert it_result].
  - by eapply it_silent.
  - destruct (term_transition (m_cwState s) (Href eq_refl)) as [Ev Ea]. cbv zeta in *.
    rewrite Ea. cbn [OSSYNCAssert it_result]. rewrite Ev. eapply it_silent; try done. cbn [it_pc_ok]. auto.
  - cbn [it_pc_ok] in Hp. destruct (Z.eqb_spec (m_cwState s) cwBIExpected) as [E|]; cbn [negb]; [|by eapply it_silent].
    cbn [it_result]. destruct Hp as [Hp ->]. destruct (Z.eqb_spec cwBIExpected 1) as [H0|H0].
    + change (negb (0x40000000 .& fTermInProgress =? 0)) with true. it_go Hn Hok Hi E1 E2 E3 E4 AI RI AT RT.
    + destruct (small_bits (cwBIExpected - 1) ltac:(lia)) as (_ & _ & _ & _ & ->). cbn [Z.eqb negb].
      it_go Hn Hok Hi E1 E2 E3 E4 AI RI AT RT.
  - destruct fTermBegun; by eapply it_silent.
  - it_go Hn Hok Hi E1 E2 E3 E4 AI RI AT (RT + 1).
Qed.

Lemma TermFinish_ok s ts (i : nat) p : it_inv (Conf s ts) -> ts !! i = Some p -> it_result ts i (TermFinish s p).
Proof.
  intros HI Hi. destruct (it_word _ _ _ _ HI Hi) as (_ & Hcw & _). it_open HI Hi.
  destruct p; cbn [TermFinish]; try done; try rewrite (Hcw eq_refl).
  - by eapply it_silent.
  - cbn [it_result]. it_go Hn Hok Hi E1 E2 E3 E4 AI RI (AT + 1) RT.
  - change (AtomicExchangeReset 0x40000000 fTermInProgress) with 0. cbn [OSSYNCAssert it_result].
    it_go Hn Hok Hi E1 E2 E3 E4 AI RI AT RT.
Qed.

Lemma it_step_ok s ts (i : nat) p o : it_inv (Conf s ts) -> ts !! i = Some p -> it_result ts i (tstep o s p).
Proof.
  intros HI Hi. destruct p; cbn [tstep];
    auto using ErrInitBegin_ok, InitFinish_ok, ErrTermBegin_ok, TermFinish_ok; destruct o; try done; by eapply it_silent.
Qed.

(** ** Guarantees *)

(** The statistics are of type [LONG]. *)
Definition longs (s : CInitTermLock) : Prop :=
  in_s 32 (m_cActualInits s) /\ in_s 32 (m_cRefCountInits s) /\ in_s 32 (m_cActualTerms s) /\ in_s 32 (m_cRefCountTerms s).

Lemma it_init_inv n : Z.of_nat n < 2 ^ 11 -> CInitTermLock_ctor s0 = Some s0 -> longs s0 -> it_inv (it_init n s0).
Proof.
  intros Hn Hc (L1 & L2 & L3 & L4). unfold it_init, it_inv. cbn [shared pcs]. rewrite length_replicate.
  assert (Ht : forall f : pc -> Z, f Idle = 0 -> total f (replicate n Idle) = 0).
  { intros f Hf. apply total_0. intros p Hp. apply elem_of_replicate in Hp as [-> _]. done. }
  unfold CInitTermLock_ctor in Hc. destruct (Z.eqb_spec (m_cwState s0) 0) as [Hw|]; [|done].
  split_and!; [done|by apply Forall_replicate|]. exists (m_cActualInits s0), (m_cRefCountInits s0), (m_cActualTerms s0), (m_cRefCountTerms s0).
  rewrite !wraps_small by done. rewrite !Ht by done. split_and!; [done..|]. left. lia.
Qed.

Lemma it_reachable n c : Z.of_nat n < 2 ^ 11 -> CInitTermLock_ctor s0 = Some s0 -> longs s0 -> rtc ITStep (it_init n s0) c -> it_inv c.
Proof.
  intros Hn Hc Hl. apply invariant_reachable; [|by apply it_init_inv]. intros c1 c2 HI Hst. revert HI.
  destruct Hst as [o s ts i p s' p' Hi E]. intros HI. pose proof (it_step_ok s ts i p o HI Hi) as H. by rewrite E in H.
Qed.

End Inv.

(** Equality of counters depends only on the difference of the counts. *)
Lemma counts_equal x y x0 y0 : in_s 32 x0 -> in_s 32 y0 -> x - y = x0 - y0 -> (s32 x =? s32 y) = (x0 =? y0).
Proof.
  intros Hx Hy E. unfold in_s in *. change (2 ^ (32 - 1)) with 2147483648 in *. unfold wraps. change (2 ^ (32 - 1)) with 2147483648. change (2 ^ 32) with 4294967296.
  pose proof (Z.div_mod (x + 2147483648) 4294967296 ltac:(lia)) as D1. pose proof (Z.div_mod (y + 2147483648) 4294967296 ltac:(lia)) as D2.
  pose proof (Z.mod_pos_bound (x + 2147483648) 4294967296 ltac:(lia)). pose proof (Z.mod_pos_bound (y + 2147483648) 4294967296 ltac:(lia)).
  destruct (Z.eqb_spec x0 y0) as [->|Hne].
  - replace x with y by lia. apply Z.eqb_refl.
  - apply Z.eqb_neq. intros E2. assert (x0 - y0 = 4294967296 * ((x + 2147483648) / 4294967296 - (y + 2147483648) / 4294967296)) as E3 by lia. nia.
Qed.

(** The thread has been told to initialise, or to terminate, and has not finished; it
    has a reference to the initialised component. *)
Definition FInitialising (p : pc) : bool := inits p =? 1.

Definition FTerminating (p : pc) : bool := terms p =? 1.

Definition FConsumer (p : pc) : bool := refs p =? 1.

(** [CConsumers] *)
Definition CConsumers (s : CInitTermLock) : Z := mskRefCount .& m_cwState s.

(** C35: [CInitTermLock] serialises initialisation and termination.  For fewer than 2^11
    threads, in any interleaving, and in whatever storage its constructor accepts: while one
    thread initialises or terminates the component no other initialises, terminates or uses
    it; when nobody does, [CConsumers] is the number of threads that use it; no assertion of the
    lock fails, in particular every change of the word is one [AssertValidStateTransition_]
    allows; and once every thread has given the component up, the destructor enforces what
    it would have enforced of the storage: the word is zero again, and the statistics
    balance exactly if they did before the constructor ran, which does not set them. *)
Theorem init_term_lock_correct n storage s0 c :
  Z.of_nat n < 2 ^ 11 -> CInitTermLock_ctor storage = Some s0 -> longs storage -> rtc ITStep (it_init n s0) c ->
  (forall (i j : nat) p q, pcs c !! i = Some p -> pcs c !! j = Some q -> i <> j ->
     FInitialising p = true \/ FTerminating p = true ->
     FInitialising q = false /\ FTerminating q = false /\ FConsumer q = false) /\
  (in_progress (m_cwState (shared c)) = false -> CConsumers (shared c) = total refs (pcs c)) /\
  (forall (i : nat) p o, pcs c !! i = Some p -> tstep o (shared c) p <> Fault) /\
  ((forall (i : nat) p, pcs c !! i = Some p -> p = Idle) -> m_cwState (shared c) = 0 /\ dtor_enforces (shared c) = dtor_enforces storage).
Proof.
  intros Hn Hc Hl Hr. assert (s0 = storage /\ m_cwState storage = 0) as [-> Hw] by (unfold CInitTermLock_ctor in Hc; destruct (Z.eqb_spec (m_cwState storage) 0); [split; congruence|done]).
  pose proof (it_reachable storage n c Hn Hc Hl Hr) as HI. destruct c as [s ts]. cbn [shared pcs].
  pose proof HI as (_ & _ & AI & RI & AT & RT & E1 & E2 & E3 & E4 & Hph). cbn [shared pcs] in *. split_and!.
  - intros i j p q Hi Hj Hij Hp. unfold FInitialising, FTerminating, FConsumer in *.
    pose proof (it_weights p) as Hwp. pose proof (it_weights q) as Hwq.
    pose proof (total_ge2 (fun p => inits p + terms p) ts i j p q ltac:(intros r; pose proof (it_weights r); lia) Hi Hj Hij) as H2.
    pose proof (it_sums ts i p Hi) as Hsp. pose proof (it_sums ts j q Hj) as Hsq. rewrite total_add in H2.
    unfold it_phase in Hph. lia.
  - intros Hip. unfold CConsumers. rewrite Z.land_comm. unfold it_phase in Hph.
    destruct Hph as [(-> & H & _)|[(Hcw & _)|(Hcw & _)]]; [|by rewrite Hcw in Hip..].
    by destruct (small_bits _ H) as (_ & _ & -> & _).
  - intros i p o Hi E. pose proof (it_step_ok storage s ts i p o HI Hi) as H. by rewrite E in H.
  - intros Hidle.
    assert (Ht : forall f : pc -> Z, f Idle = 0 -> total f ts = 0).
    { intros f Hf. apply total_0. intros p [i Hi]%list_elem_of_lookup. by rewrite (Hidle i p Hi). }
    rewrite !Ht in Hph by done. unfold it_phase in Hph. unfold dtor_enforces. rewrite E1, E2, E3, E4.
    destruct Hl as (L1 & L2 & L3 & L4). rewrite (counts_equal AI AT _ _ L1 L3), (counts_equal RI RT _ _ L2 L4) by lia.
    rewrite Hw. assert (m_cwState s = 0) as -> by lia. done.
Qed.

(** One thread initialises while another spins; then both use the component, and the
    second one terminates it.  The storage held other counts before. *)
Lemma init_term_lock_correct_witness :
  let s0 := ITLock 0 7 3 9 7 3 in
  let c := Conf (ITLock 0x80000001 7 3 9 7 3) [Initing; IB] in
  let c' := Conf (ITLock 0 8 4 9 8 4) [Idle; Idle] in
  rtc ITStep (it_init 2 s0) c /\ rtc ITStep c c' /\ FConsumer IB = false /\ dtor_enforces (shared c') = dtor_enforces s0.
Proof.
  intros s0 c c'.
  assert (H : rtc ITStep (it_init 2 s0) c).
  { apply (exec_steps tstep (replicate 5 (0%nat, OpErrInitBegin) ++ replicate 3 (1%nat, OpErrInitBegin))).
    vm_compute. reflexivity. }
  assert (H' : rtc ITStep c c').
  { apply (exec_steps tstep (replicate 9 (0%nat, OpInitFinish true) ++ replicate 5 (1%nat, OpErrInitBegin) ++
      replicate 6 (0%nat, OpErrTermBegin) ++ replicate 5 (1%nat, OpErrTermBegin) ++ replicate 4 (1%nat, OpTermFinish))).
    vm_compute. reflexivity. }
  assert (Hl : longs s0) by (unfold longs, in_s; cbn; lia).
  split; [exact H|]. split; [exact H'|]. split.
  - exact (proj2 (proj2 (proj1 (init_term_lock_correct 2 s0 s0 c ltac:(lia) eq_refl Hl H) 0%nat 1%nat Initing IB eq_refl eq_refl ltac:(lia)
      (or_introl eq_refl)))).
  - apply (init_term_lock_correct 2 s0 s0 c' ltac:(lia) eq_refl Hl ltac:(by transitivity c)).
    intros [|[|i]] p Hp; cbn in Hp; simplify_eq; done.
Defined.
