(* ===== verification/MeteredSection.v ===== *)
(** * MeteredSection: [CMeteredSection] (sync.hxx)

    Threads enter and leave the section in one of two groups; [Partition] makes the
    other group the current one and reports when the last thread that was inside has
    left.  One word holds the number of threads in each group and which group is
    current.

    The completion function is the client's ([Some false]) or, for a [Partition] that
    waits, [_PartitionSyncComplete] with the signal of the waiting call ([Some true]);
    [m_asig] is that signal.  Clients may not use [Partition] concurrently: [busy] says
    that one is under way, from its call to its completion, and no other is started
    then.  [cPartitions] and [cCompletions] count the calls of [Partition] and of the
    completion function. *)

From stdpp Require Import relations.
From S2P Require Import Prelude Threads ControlWord.

(** ** State *)

Record CMeteredSection := Metered {
  m_cw : Z; m_pfnPartitionComplete : option bool; m_asig : bool;
  busy : bool; cPartitions : Z; cCompletions : Z }.

Definition CMeteredSection_ctor : CMeteredSection := Metered 0x80000000 None false false 0 0.

Definition cMaxActive : Z := 0x7ffe.

Definition set_cw (cw : Z) (s : CMeteredSection) : CMeteredSection :=
  Metered cw (m_pfnPartitionComplete s) (m_asig s) (busy s) (cPartitions s) (cCompletions s).

(** [GroupActive], [GroupInactive], [CActiveUsers], [CQuiescingUsers] and [FEmpty]. *)
Definition GroupActive (s : CMeteredSection) : bool := negb (Z.shiftr (m_cw s) 15 .& 1 =? 0).

Definition GroupInactive (s : CMeteredSection) : bool := negb (GroupActive s).

Definition CActiveUsers (s : CMeteredSection) : Z := m_cw s .& 0x00007FFF.

Definition CQuiescingUsers (s : CMeteredSection) : Z := Z.shiftr (m_cw s .& 0x7FFF0000) 16.

Definition FEmpty (s : CMeteredSection) : bool := m_cw s .& 0x7FFF7FFF =? 0.

(** ** Positions of a thread *)

(** A group is 0 or 1, here a boolean. *)
Inductive pc :=
  (** outside; whether its last [GroupEnter] returned [groupTooManyActiveErr] *)
  | Out (fTooMany : bool)
  | GE | GE_cas (cwBIExpected : Z)
  | In (group : bool)
  | LV (group : bool) | LV_cas (group : bool) (cwBIExpected : Z) | LV_call
  (** [Partition]: the assertion, the completion function, the read, the exchange, the
      call of the completion function, the wait for the signal *)
  | PA (fSync : bool) | PA_set (fSync : bool) | PA_read (fSync : bool) | PA_cas (fSync : bool) (cwBIExpected : Z)
  | PA_call (fSync : bool) | PWait.

Abbreviation result := (outcome CMeteredSection pc).

(** ** Operations *)

Definition GroupEnter (s : CMeteredSection) (p : pc) : result :=
  match p with
  | GE =>
      let cwAI := u32 (m_cw s + 1) in
      if cMaxActive <? cwAI .& 0x00007fff then Next s (Out true)
      else OSSYNCAssert (m_cw s .& 0x80008000 =? cwAI .& 0x80008000) (Next s (GE_cas (m_cw s)))
  | GE_cas cwBIExpected =>
      let cwBI := m_cw s in
      if negb (cwBI =? cwBIExpected) then Next s GE
      else OSSYNCAssert ((cwBI .& 0x80008000 =? u32 (cwBI + 1) .& 0x80008000) && negb (cwBI .& 0x00007fff =? 0x7fff))
             (Next (set_cw (u32 (cwBIExpected + 1)) s) (In (negb (Z.shiftr cwBI 15 .& 1 =? 0))))
  | _ => Blocked
  end.

(** The word after a thread of [group] has left. *)
Definition Leave_cwAI (group : bool) (cwBIExpected : Z) : Z :=
  u32 (cwBIExpected -
    (Z.shiftr ((cwBIExpected .& 0x80008000) ^^ 0x80008000) 15 ^^ (Z.shiftl (Z.b2z group) 16 .| Z.b2z group))).

(** The call of the completion function. *)
Definition partition_complete (s : CMeteredSection) (p' : pc) : result :=
  match m_pfnPartitionComplete s with
  | None => Fault
  | Some true => Next (Metered (m_cw s) (Some true) true (busy s) (cPartitions s) (cCompletions s + 1)) p'
  | Some false => Next (Metered (m_cw s) (Some false) (m_asig s) false (cPartitions s) (cCompletions s + 1)) p'
  end.

Definition Leave (s : CMeteredSection) (p : pc) : result :=
  match p with
  | LV group =>
      let cwAI := Leave_cwAI group (m_cw s) in
      OSSYNCAssert (negb (m_cw s .& 0x00007fff =? 0x7fff) && negb (cwAI .& 0x00007fff =? 0x7fff) &&
          negb (Z.shiftr cwAI 16 =? 0x7fff) && (m_cw s .& 0x80008000 =? cwAI .& 0x80008000))
        (Next s (LV_cas group (m_cw s)))
  | LV_cas group cwBIExpected =>
      let cwAI := Leave_cwAI group cwBIExpected in
      if negb (m_cw s =? cwBIExpected) then Next s (LV group)
      else Next (set_cw cwAI s)
             (if (m_cw s .& 0x7FFF0000) + (cwAI .& 0x7FFF0000) =? 0x00010000 then LV_call else Out false)
  | LV_call => partition_complete s (Out false)
  | _ => Blocked
  end.

Definition Partition_cwAI (cwBIExpected : Z) : Z := Z.shiftr cwBIExpected 16 .| u32 (Z.shiftl cwBIExpected 16).

(** Where [Partition] goes on after [_PartitionAsync]. *)
Definition after_async (fSync : bool) : pc := if fSync then PWait else Out false.

Definition Partition (s : CMeteredSection) (p : pc) : result :=
  match p with
  | PA fSync => OSSYNCAssert (m_cw s .& 0x7FFF0000 =? 0) (Next s (PA_set fSync))
  | PA_set fSync =>
      Next (Metered (m_cw s) (Some fSync) (m_asig s) (busy s) (cPartitions s) (cCompletions s)) (PA_read fSync)
  | PA_read fSync =>
      let cwAI := Partition_cwAI (m_cw s) in
      OSSYNCAssert (negb (m_cw s .& 0x00007fff =? 0x7fff) && negb (Z.shiftr (m_cw s) 16 =? 0x7fff) &&
          negb (cwAI .& 0x00007fff =? 0x7fff) && negb (Z.shiftr cwAI 16 =? 0x7fff))
        (Next s (PA_cas fSync (m_cw s)))
  | PA_cas fSync cwBIExpected =>
      let cwAI := Partition_cwAI cwBIExpected in
      if negb (m_cw s =? cwBIExpected) then Next s (PA_read fSync)
      else Next (set_cw cwAI s) (if cwAI .& 0x7FFF0000 =? 0 then PA_call fSync else after_async fSync)
  | PA_call fSync => partition_complete s (after_async fSync)
  | PWait =>
      if m_asig s
      then Next (Metered (m_cw s) (m_pfnPartitionComplete s) false false (cPartitions s) (cCompletions s)) (Out false)
      else Blocked
  | _ => Blocked
  end.

Inductive op := OpGroupEnter | OpLeave | OpPartition (fSync : bool).

Definition tstep (o : op) (s : CMeteredSection) (p : pc) : result :=
  match p with
  | Out _ =>
      match o with
      | OpGroupEnter => Next s GE
      | OpPartition fSync =>
          if busy s then Blocked
          else Next (Metered (m_cw s) (m_pfnPartitionComplete s) (m_asig s) true (cPartitions s + 1) (cCompletions s))
                    (PA fSync)
      | OpLeave => Blocked
      end
  | In group => match o with OpLeave => Next s (LV group) | _ => Blocked end
  | GE | GE_cas _ => GroupEnter s p
  | LV _ | LV_cas _ _ | LV_call => Leave s p
  | PA _ | PA_set _ | PA_read _ | PA_cas _ _ | PA_call _ | PWait => Partition s p
  end.

Abbreviation MSStep := (step tstep).

Definition ms_init (n : nat) : conf CMeteredSection pc := Conf CMeteredSection_ctor (replicate n (Out false)).

(** ** The word *)

(** [w] threads in the current group [q], [r] in the other one. *)
Definition mword (w : Z) (q : bool) (r : Z) : Z := cword w q r (negb q).

Definition mfield (x : Z) : Prop := 0 <= x <= cMaxActive.

Lemma mfield_field x : mfield x -> field x.
Proof. unfold mfield, field, cMaxActive. lia. Qed.

#[local] Hint Resolve mfield_field : core.

Lemma shiftr16 w q r Q : field w -> field r -> Z.shiftr (cword w q r Q) 16 = r + 2 ^ 15 * Z.b2z Q.
Proof.
  unfold field, cword. intros Hw Hr. rewrite Z.shiftr_div_pow2 by lia.
  replace (w + 2 ^ 15 * (Z.b2z q + 2 ^ 1 * (r + 2 ^ 15 * Z.b2z Q)))
    with ((r + 2 ^ 15 * Z.b2z Q) * 2 ^ 16 + (w + 2 ^ 15 * Z.b2z q)) by lia.
  rewrite Z.div_add_l, Z.div_small by (destruct q; cbn; lia). lia.
Qed.

Lemma group_bit w q r Q : field w -> field r -> negb (Z.shiftr (cword w q r Q) 15 .& 1 =? 0) = q.
Proof.
  unfold field, cword. intros Hw Hr. rewrite Z.shiftr_div_pow2 by lia.
  rewrite Z.add_comm, (Z.mul_comm (2 ^ 15)), Z.div_add_l, Z.div_small by lia.
  change 1 with (Z.ones 1) at 2. rewrite Z.land_ones by lia.
  rewrite Z.add_0_r, Z.mul_comm, Z.mod_add by lia. by destruct q.
Qed.

Lemma upper_not_7fff w q r : field w -> mfield r -> negb (Z.shiftr (mword w q r) 16 =? 0x7fff) = true.
Proof.
  intros Hw Hr. unfold mword. rewrite shiftr16 by auto. unfold mfield, cMaxActive in Hr. destruct q; cbn; lia.
Qed.

Lemma lower_not_7fff w q r : mfield w -> field r -> negb (mword w q r .& 0x00007fff =? 0x7fff) = true.
Proof.
  intros Hw Hr. unfold mword. rewrite land_00007FFF, low_counter by auto. unfold mfield, cMaxActive in Hw. lia.
Qed.

Lemma quiesced_bits w q r : field w -> field r -> mword w q r .& 0x7FFF0000 = r * 2 ^ 16.
Proof. intros Hw Hr. unfold mword. rewrite land_7FFF0000 by done. unfold cword. cbn [Z.b2z]. lia. Qed.

Lemma enter_word w q r : mfield w -> field r -> u32 (mword w q r + 1) = mword (w + 1) q r.
Proof.
  intros Hw Hr. apply (u32_eq 0); [apply cword_range; [unfold mfield, field, cMaxActive in *; lia|done]|].
  unfold mword, cword. lia.
Qed.

Lemma leave_word w q r g : field w -> field r -> (if eqb g q then 1 <= w else 1 <= r) ->
  Leave_cwAI g (mword w q r) = if eqb g q then mword (w - 1) q r else mword w q (r - 1).
Proof.
  intros Hw Hr Hg. unfold Leave_cwAI, mword. rewrite land_80008000 by done.
  assert (E : Z.shiftr (cword 0 q 0 (negb q) ^^ 0x80008000) 15 ^^ (Z.shiftl (Z.b2z g) 16 .| Z.b2z g) =
    if eqb g q then 1 else 0x10000) by (by destruct g, q).
  rewrite E. unfold field in *. destruct (eqb g q);
    (apply (u32_eq 0); [apply cword_range; unfold field; lia|unfold cword; lia]).
Qed.

Lemma partition_word w q r : field w -> field r -> Partition_cwAI (mword w q r) = mword r (negb q) w.
Proof.
  intros Hw Hr. unfold Partition_cwAI, mword. rewrite shl16_word, shiftr16 by done. rewrite negb_involutive.
  pose proof (Z.add_lor_land (r + 2 ^ 15 * Z.b2z (negb q)) (cword 0 false w q)) as E.
  assert (H0 : (r + 2 ^ 15 * Z.b2z (negb q)) .& cword 0 false w q = 0).
  { replace (r + 2 ^ 15 * Z.b2z (negb q)) with (r + 2 ^ 15 * Z.b2z (negb q) + 2 ^ 16 * 0) by lia.
    replace (cword 0 false w q) with (0 + 2 ^ 16 * (w + 2 ^ 15 * Z.b2z q)) by (unfold cword; cbn [Z.b2z]; lia).
    rewrite land_split, Z.land_0_l, Z.land_0_r by (unfold field in *; destruct q; cbn; lia). lia. }
  rewrite H0, Z.add_0_r in E. rewrite E. unfold cword. destruct q; cbn [Z.b2z negb]; lia.
Qed.

(** ** The invariant *)

(** Threads inside in group [g]; threads about to swap the groups; threads about to call
    the completion function; threads whose [Partition] waits, or does not, past the
    point where it set the completion function. *)
Definition mem (g : bool) (p : pc) : Z :=
  match p with In g' | LV g' | LV_cas g' _ => Z.b2z (eqb g' g) | _ => 0 end.

Definition prep (p : pc) : Z := match p with PA _ | PA_set _ | PA_read _ | PA_cas _ _ => 1 | _ => 0 end.

Definition calls (p : pc) : Z := match p with LV_call | PA_call _ => 1 | _ => 0 end.

Definition wantS (p : pc) : Z := match p with PA_read true | PA_cas true _ | PA_call true | PWait => 1 | _ => 0 end.

Definition wantA (p : pc) : Z := match p with PA_read false | PA_cas false _ | PA_call false => 1 | _ => 0 end.

Definition waits (p : pc) : Z := match p with PWait => 1 | _ => 0 end.

(** The completion function is that of the [Partition] under way. *)
Definition pfn_is (pfn : option bool) (nS nA : Z) : Prop :=
  pfn = Some true /\ nS = 1 /\ nA = 0 \/ pfn = Some false /\ nS = 0 /\ 0 <= nA <= 1.

(** The stages of a [Partition]: none; before the groups are swapped; after, with
    threads in the old group; the old group is empty and the completion function is
    about to be called; the waiting call has been signalled. *)
Inductive stage (pfn : option bool) : Z -> Z -> Z -> Z -> Z -> Z -> bool -> bool -> Z -> Prop :=
  | st_none : stage pfn 0 0 0 0 0 0 false false 0
  | st_prep nS nA : nS = 0 /\ nA = 0 \/ nS + nA = 1 /\ pfn_is pfn nS nA -> stage pfn 0 1 0 nS nA 0 false true 1
  | st_quiesce r nS nW : 0 < r -> pfn_is pfn nS 0 -> stage pfn r 0 0 nS 0 nW false true 1
  | st_call nS nA nW : pfn_is pfn nS nA -> stage pfn 0 0 1 nS nA nW false true 1
  | st_done nW : stage pfn 0 0 0 1 0 nW true true 0.

(** [GroupEnter] found room when it read the word. *)
Definition ms_pc_ok (p : pc) : Prop :=
  match p with GE_cas cwBIExpected => cwBIExpected .& 0x00007FFF < cMaxActive | _ => True end.

Definition ms_inv (c : conf CMeteredSection pc) : Prop :=
  let s := shared c in let ts := pcs c in
  Forall ms_pc_ok ts /\ exists w q r, m_cw s = mword w q r /\ mfield w /\ mfield r /\ total (mem q) ts = w /\ total (mem (negb q)) ts = r /\
    stage (m_pfnPartitionComplete s) r (total prep ts) (total calls ts) (total wantS ts) (total wantA ts)
      (total waits ts) (m_asig s) (busy s) (cPartitions s - cCompletions s).

(** ** Steps *)

Lemma ms_weights p :
  0 <= prep p <= 1 /\ 0 <= calls p <= 1 /\ 0 <= wantS p <= 1 /\ 0 <= wantA p <= 1 /\
  0 <= mem true p <= 1 /\ 0 <= mem false p <= 1 /\ 0 <= waits p <= wantS p /\
  wantS p - waits p + wantA p <= prep p + calls p.
Proof. destruct p as [| | |[]|[]|[] ?| |[]|[]|[]|[] ?|[]|]; cbn; lia. Qed.

Lemma mem_nonneg g p : 0 <= mem g p.
Proof. pose proof (ms_weights p). destruct g; lia. Qed.

Lemma ms_sums ts (i : nat) p : ts !! i = Some p ->
  prep p <= total prep ts /\ calls p <= total calls ts /\ wantS p <= total wantS ts /\ wantA p <= total wantA ts /\
  waits p <= total waits ts /\ total waits ts - waits p <= total wantS ts - wantS p /\
  total wantS ts - wantS p + (total wantA ts - wantA p) <=
    total prep ts - prep p + (total calls ts - calls p) + (total waits ts - waits p) /\
  forall g, mem g p <= total (mem g) ts.
Proof.
  intros Hi.
  pose proof (total_rest (fun p => wantS p + wantA p) (fun p => prep p + calls p + waits p) ts i p
    ltac:(intros x; pose proof (ms_weights x); cbv beta; lia) Hi) as H. rewrite !total_add in H.
  pose proof (total_rest waits wantS ts i p ltac:(intros x; apply ms_weights) Hi) as H'.
  split_and!; [..|intros g]; try lia; apply (total_ge _ _ i); try done; intros q;
    first [apply ms_weights|apply mem_nonneg].
Qed.

Definition ms_result (ts : list pc) (i : nat) (r : result) : Prop :=
  match r with
  | Fault => False
  | Blocked => True
  | Next s' p' => ms_inv (Conf s' (<[i := p']> ts))
  end.

Ltac ms_open HI Hi :=
  destruct HI as (Hok & w & q & r & Hcw & Hw & Hr & Ew & Er & Hst); cbn [shared pcs] in *;
  pose proof (ms_sums _ _ _ Hi) as (Hs1 & Hs2 & Hs3 & Hs4 & Hs7 & Hs8 & Hs6 & Hs5); pose proof (Hs5 q) as Hsq; pose proof (Hs5 (negb q)) as Hsn;
  clear Hs5; rewrite Ew in Hsq; rewrite Er in Hsn.

(** The thread moves from [p] to [p'], and the word may change. *)
Lemma ms_update ts (i : nat) p p' s' w q r :
  Forall ms_pc_ok ts -> ms_pc_ok p' -> ts !! i = Some p -> m_cw s' = mword w q r -> mfield w -> mfield r ->
  total (mem q) ts - mem q p + mem q p' = w -> total (mem (negb q)) ts - mem (negb q) p + mem (negb q) p' = r ->
  stage (m_pfnPartitionComplete s') r (total prep ts - prep p + prep p') (total calls ts - calls p + calls p')
    (total wantS ts - wantS p + wantS p') (total wantA ts - wantA p + wantA p')
    (total waits ts - waits p + waits p') (m_asig s') (busy s') (cPartitions s' - cCompletions s') ->
  ms_inv (Conf s' (<[i := p']> ts)).
Proof.
  intros Hok Hp' Hi Hcw Hw Hr Ew Er Hst. split; [by apply Forall_insert|]. exists w, q, r. cbn [shared pcs]. rewrite !(total_insert _ _ _ _ _ Hi). done.
Qed.

(** The word and the stage stay. *)
Lemma ms_keep s ts (i : nat) p p' : ms_inv (Conf s ts) -> ts !! i = Some p -> ms_pc_ok p' ->
  (forall g, mem g p' = mem g p) -> prep p' = prep p -> calls p' = calls p -> wantS p' = wantS p -> wantA p' = wantA p -> waits p' = waits p ->
  ms_inv (Conf s (<[i := p']> ts)).
Proof.
  intros (Hok & w & q & r & Hcw & Hw & Hr & Ew & Er & Hst) Hi Hp' F1 F2 F3 F4 F5 F6. cbn [shared pcs] in *.
  apply (ms_update ts i p p' s w q r); try done; rewrite ?F1, ?F2, ?F3, ?F4, ?F5, ?F6, ?Z.sub_add; done.
Qed.

Lemma GroupEnter_ok s ts (i : nat) p : ms_inv (Conf s ts) -> ts !! i = Some p -> ms_result ts i (GroupEnter s p).
Proof.
  intros HI Hi. destruct p; cbn [GroupEnter]; try done; pose proof HI as HI'; ms_open HI Hi.
  - rewrite Hcw, enter_word by auto.
    assert (Hf : field (w + 1)) by (unfold mfield, field, cMaxActive in *; lia).
    unfold mword. rewrite !land_80008000, land_00007FFF, low_counter, Z.eqb_refl by auto. cbn [OSSYNCAssert].
    case_match; cbn [ms_result]; eapply ms_keep; try done. cbn [ms_pc_ok].
    rewrite land_00007FFF, low_counter by auto. lia.
  - destruct (Z.eqb_spec (m_cw s) cwBIExpected) as [E|]; cbn [negb ms_result]; [|by eapply ms_keep].
    assert (Hp : ms_pc_ok (GE_cas cwBIExpected)) by (rewrite Forall_lookup in Hok; by apply (Hok i)).
    subst cwBIExpected. cbn [ms_pc_ok] in Hp. rewrite Hcw in *. rewrite enter_word, lower_not_7fff by auto.
    assert (Hf : field (w + 1)) by (unfold mfield, field, cMaxActive in *; lia).
    unfold mword in *. rewrite land_00007FFF, low_counter in Hp by auto.
    rewrite !land_80008000, Z.eqb_refl, group_bit by auto. cbn [OSSYNCAssert ms_result andb].
    apply (ms_update ts i (GE_cas (cword w q r (negb q))) _ _ (w + 1) q r); try done; cbn [set_cw m_pfnPartitionComplete m_asig busy cPartitions cCompletions mem prep calls wantS wantA waits].
    + unfold mfield, cMaxActive in *. lia.
    + rewrite eqb_reflx. cbn. lia.
    + replace (eqb q (negb q)) with false by (by destruct q). cbn. lia.
    + by rewrite !Z.sub_0_r, !Z.add_0_r.
Qed.

(** A member of group [g] is counted in the word. *)
Lemma member_counted g q w r p : mem g p = 1 -> mem q p <= w -> mem (negb q) p <= r ->
  if eqb g q then 1 <= w else 1 <= r.
Proof. intros Hm Hq Hn. destruct g, q; cbn [eqb negb] in *; lia. Qed.

Ltac ms_fields :=
  cbn [mem prep calls wantS wantA waits set_cw m_cw m_pfnPartitionComplete m_asig busy cPartitions cCompletions] in *.

(** The stage is given by the numbers in it. *)
Lemma stage_eq pfn r p c nS nA nW a b d r' p' c' nS' nA' nW' a' b' d' :
  stage pfn r p c nS nA nW a b d ->
  r' = r -> p' = p -> c' = c -> nS' = nS -> nA' = nA -> nW' = nW -> a' = a -> b' = b -> d' = d ->
  stage pfn r' p' c' nS' nA' nW' a' b' d'.
Proof. by intros H -> -> -> -> -> -> -> -> ->. Qed.

Ltac stage_is K := eapply stage_eq; [eapply K|..]; try done; try lia.

Lemma Leave_cas_ok s ts (i : nat) g : ms_inv (Conf s ts) -> ts !! i = Some (LV_cas g (m_cw s)) ->
  ms_result ts i (Leave s (LV_cas g (m_cw s))).
Proof.
  intros HI Hi. ms_open HI Hi. cbn [Leave]. rewrite Z.eqb_refl. cbn [negb ms_result]. rewrite Hcw in *.
  assert (Hg : if eqb g q then 1 <= w else 1 <= r).
  { apply (member_counted g q w r (LV_cas g (mword w q r))); [cbn [mem]; by rewrite eqb_reflx|done..]. }
  rewrite leave_word by auto. destruct (eqb g q) eqn:Egq.
  - apply eqb_prop in Egq. subst g. rewrite !quiesced_bits by (auto || (unfold mfield, field, cMaxActive in *; lia)).
    replace (r * 2 ^ 16 + r * 2 ^ 16 =? 0x10000) with false by lia. apply (ms_update ts i _ (Out false) _ (w - 1) q r Hok I Hi); try done; ms_fields.
    + unfold mfield in *. lia.
    + rewrite eqb_reflx. cbn. lia.
    + replace (eqb q (negb q)) with false by (by destruct q). cbn. lia.
    + by rewrite !Z.sub_0_r, !Z.add_0_r.
  - assert (g = negb q) as -> by (by destruct g, q). 
    rewrite !quiesced_bits by (auto || (unfold mfield, field, cMaxActive in *; lia)).
    replace (r * 2 ^ 16 + (r - 1) * 2 ^ 16 =? 0x10000) with (r =? 1) by lia. replace (eqb (negb q) q) with false in * by (by destruct q).
    destruct (Z.eqb_spec r 1) as [Hr1|Hr1];
      [apply (ms_update ts i _ LV_call _ w q (r - 1) Hok I Hi)|apply (ms_update ts i _ (Out false) _ w q (r - 1) Hok I Hi)];
      try done; ms_fields;
      try (unfold mfield in *; lia); rewrite ?eqb_reflx; replace (eqb (negb q) q) with false by (by destruct q);
      cbn [Z.b2z]; try lia; inversion Hst; subst; try lia.
    + stage_is st_call.
    + stage_is (st_quiesce (m_pfnPartitionComplete s) (total (mem (negb q)) ts - 1) (total wantS ts) (total waits ts)).
Qed.

Lemma Leave_ok s ts (i : nat) p : ms_inv (Conf s ts) -> ts !! i = Some p -> ms_result ts i (Leave s p).
Proof.
  intros HI Hi. destruct p; cbn [Leave]; try done.
  - pose proof HI as HI'. ms_open HI' Hi. rewrite Hcw.
    assert (Hg : if eqb group q then 1 <= w else 1 <= r).
    { apply (member_counted group q w r (LV group)); [cbn [mem]; by rewrite eqb_reflx|done..]. }
    rewrite leave_word, lower_not_7fff by auto.
    assert (E : exists w' r', (if eqb group q then mword (w - 1) q r else mword w q (r - 1)) = mword w' q r' /\ mfield w' /\ mfield r').
    { unfold mfield in *. destruct (eqb group q); eexists _, _; split; try done; lia. }
    destruct E as (w' & r' & -> & Hw' & Hr'). rewrite lower_not_7fff, upper_not_7fff by auto.
    unfold mword at 1 2. rewrite !land_80008000, Z.eqb_refl by auto. cbn [andb OSSYNCAssert ms_result]. by eapply ms_keep.
  - destruct (Z.eqb_spec (m_cw s) cwBIExpected) as [<-|]; cbn [negb]; [|by eapply ms_keep].
    pose proof (Leave_cas_ok s ts i group HI Hi) as H. cbn [Leave] in H. by rewrite Z.eqb_refl in H.
  - ms_open HI Hi. ms_fields. inversion Hst as [| | |nS nA nW Hpf|]; subst; try lia. unfold partition_complete.
    destruct Hpf as [(Hf & HnS & HnA)|(Hf & HnS & HnA)]; rewrite Hf; cbn [ms_result];
      apply (ms_update ts i _ (Out false) _ (total (mem q) ts) q (total (mem (negb q)) ts) Hok I Hi); try done; ms_fields; try lia.
    + stage_is st_done.
    + stage_is st_none.
Qed.

Lemma Partition_cas_ok s ts (i : nat) fSync : ms_inv (Conf s ts) -> ts !! i = Some (PA_cas fSync (m_cw s)) ->
  ms_result ts i (Partition s (PA_cas fSync (m_cw s))).
Proof.
  intros HI Hi. cbn [Partition]. rewrite Z.eqb_refl. cbn [negb ms_result]. ms_open HI Hi; ms_fields.
  rewrite Hcw, partition_word, quiesced_bits by auto.
  assert (Hpc : total (mem (negb q)) ts = 0) by (inversion Hst; lia).
  inversion Hst as [|nS nA Hpf| | |]; subst; try lia.
  assert (Hpf' : pfn_is (m_pfnPartitionComplete s) (total wantS ts) (total wantA ts))
    by (destruct Hpf as [Hpf|[_ Hpf]]; [destruct fSync; lia|done]).
  destruct (Z.eqb_spec (total (mem q) ts * 2 ^ 16) 0) as [Hz|Hz]; cbn [ms_result].
  - apply (ms_update ts i _ (PA_call fSync) _ 0 (negb q) (total (mem q) ts) Hok I Hi);
      rewrite ?negb_involutive; ms_fields; try done; try lia; try (by rewrite Hpc).
    stage_is (st_call (m_pfnPartitionComplete s) (total wantS ts) (total wantA ts) (total waits ts)).
  - assert (Hst' : forall nS' nW', nS' = total wantS ts ->
      stage (m_pfnPartitionComplete s) (total (mem q) ts) 0 0 nS' 0 nW' false true 1).
    { intros nS' nW' ->. apply st_quiesce; [lia|].
      destruct Hpf' as [Hf|Hf]; [left|right]; destruct_and! Hf; split_and!; done || lia. }
    destruct fSync; cbn [after_async];
      [apply (ms_update ts i _ PWait _ 0 (negb q) (total (mem q) ts) Hok I Hi)
      |apply (ms_update ts i _ (Out false) _ 0 (negb q) (total (mem q) ts) Hok I Hi)];
      rewrite ?negb_involutive; ms_fields; try done; try lia; try (by rewrite Hpc);
      (eapply stage_eq; [apply Hst'; reflexivity|..]; try done; try lia).
Qed.

Lemma Partition_ok s ts (i : nat) p : ms_inv (Conf s ts) -> ts !! i = Some p -> ms_result ts i (Partition s p).
Proof.
  intros HI Hi. destruct p; cbn [Partition]; try done; pose proof HI as HI'; ms_open HI' Hi; ms_fields.
  - inversion Hst; subst; try lia. rewrite Hcw, quiesced_bits by auto.
    replace (total (mem (negb q)) ts * 2 ^ 16 =? 0) with true by lia. by eapply ms_keep.
  - inversion Hst; subst; try lia.
    eapply (ms_update ts i _ (PA_read fSync) _ _ q _ Hok I Hi); ms_fields; eauto; try lia.
    eapply stage_eq; [eapply (st_prep _ (if fSync then 1 else 0) (if fSync then 0 else 1))|..]; try done; try lia.
    right. destruct fSync; (split; [lia|]); [left|right]; split_and!; done || lia.
  - rewrite Hcw, partition_word, !lower_not_7fff, !upper_not_7fff by auto. cbn [andb OSSYNCAssert ms_result].
    by eapply ms_keep.
  - destruct (Z.eqb_spec (m_cw s) cwBIExpected) as [<-|]; cbn [negb]; [|by eapply ms_keep].
    pose proof (Partition_cas_ok s ts i fSync HI Hi) as H. cbn [Partition] in H. by rewrite Z.eqb_refl in H.
  - inversion Hst as [| | |nS nA nW Hpf|]; subst; try lia. unfold partition_complete.
    destruct Hpf as [(Hf & HnS & HnA)|(Hf & HnS & HnA)]; rewrite Hf; cbn [ms_result]; destruct fSync; try lia; cbn [after_async];
      [apply (ms_update ts i _ PWait _ (total (mem q) ts) q (total (mem (negb q)) ts) Hok I Hi)
      |apply (ms_update ts i _ (Out false) _ (total (mem q) ts) q (total (mem (negb q)) ts) Hok I Hi)];
      ms_fields; try done; try lia.
    + stage_is (st_done (Some true) (total waits ts + 1)).
    + stage_is (st_none (Some false)).
  - inversion Hst; subst; try done; try lia. cbn [ms_result].
    apply (ms_update ts i _ (Out false) _ (total (mem q) ts) q (total (mem (negb q)) ts) Hok I Hi);
      ms_fields; try done; try lia. stage_is (st_none (m_pfnPartitionComplete s)).
Qed.

Lemma ms_step_ok s ts (i : nat) p o : ms_inv (Conf s ts) -> ts !! i = Some p -> ms_result ts i (tstep o s p).
Proof.
  intros HI Hi. destruct p; cbn [tstep]; auto using GroupEnter_ok, Leave_ok, Partition_ok;
    destruct o; try done; try (by eapply ms_keep).
  destruct (busy s) eqn:Hb; [done|]. cbn [ms_result]. ms_open HI Hi. ms_fields.
  inversion Hst; subst; try congruence.
  apply (ms_update ts i _ (PA fSync) _ (total (mem q) ts) q (total (mem (negb q)) ts) Hok I Hi);
    ms_fields; try done; try lia. stage_is (st_prep (m_pfnPartitionComplete s) 0 0).
Qed.

(** ** Guarantees *)

Lemma ms_init_inv n : ms_inv (ms_init n).
Proof.
  unfold ms_init, ms_inv. cbn [shared pcs].
  assert (Ht : forall f : pc -> Z, f (Out false) = 0 -> total f (replicate n (Out false)) = 0).
  { intros f Hf. apply total_0. intros p Hp. apply elem_of_replicate in Hp as [-> _]. done. }
  split; [by apply Forall_replicate|]. exists 0, false, 0. rewrite !Ht by done.
  split_and!; try done. apply st_none.
Qed.

Lemma ms_reachable n c : rtc MSStep (ms_init n) c -> ms_inv c.
Proof.
  apply invariant_reachable; [|apply ms_init_inv]. intros c1 c2 HI Hst. revert HI.
  destruct Hst as [o s ts i p s' p' Hi E]. intros HI. pose proof (ms_step_ok s ts i p o HI Hi) as H. by rewrite E in H.
Qed.

(** The thread is inside in group [g]. *)
Definition FMember (g : bool) (p : pc) : bool := mem g p =? 1.

Lemma ms_words s w q r : m_cw s = mword w q r -> mfield w -> mfield r ->
  GroupActive s = q /\ GroupInactive s = negb q /\ CActiveUsers s = w /\ CQuiescingUsers s = r.
Proof.
  intros Hcw Hw Hr. unfold GroupInactive, GroupActive, CActiveUsers, CQuiescingUsers. rewrite Hcw, quiesced_bits by auto.
  unfold mword. rewrite group_bit, land_00007FFF, low_counter by auto. split_and!; try done.
  rewrite Z.shiftr_div_pow2 by lia. apply Z.div_mul. lia.
Qed.

(** C34: [CMeteredSection] meters correctly.  For any number of threads in any
    interleaving: the two counts are the numbers of threads inside in the active and in
    the inactive group; from the call of [Partition] until it swaps the groups nobody
    is in the inactive group, so that all who are inside are in the group that becomes
    inactive; when the completion function is about to be called nobody is left in it;
    the completion function is called at most once for each [Partition], and a call is
    outstanding only while a thread still has to swap the groups, is in the inactive
    group or is about to make the call: it is not skipped, so that once nobody is there
    there were as many calls as partitions; no assertion fails, the count does not
    overflow ([GroupEnter] refuses entry instead) and the completion function is never
    missing. *)
Theorem metered_section_correct n c :
  rtc MSStep (ms_init n) c ->
  (forall (i : nat) p o, pcs c !! i = Some p -> tstep o (shared c) p <> Fault) /\
  CActiveUsers (shared c) = total (mem (GroupActive (shared c))) (pcs c) /\
  CQuiescingUsers (shared c) = total (mem (GroupInactive (shared c))) (pcs c) /\
  (forall (i j : nat) p p2, pcs c !! i = Some p -> pcs c !! j = Some p2 -> prep p = 1 \/ calls p = 1 ->
     FMember (GroupInactive (shared c)) p2 = false) /\
  cCompletions (shared c) <= cPartitions (shared c) <= cCompletions (shared c) + 1 /\
  (busy (shared c) = false -> cPartitions (shared c) = cCompletions (shared c)) /\
  (Forall (fun p => prep p = 0 /\ calls p = 0 /\ FMember (GroupInactive (shared c)) p = false) (pcs c) ->
   cPartitions (shared c) = cCompletions (shared c)).
Proof.
  intros Hr. pose proof (ms_reachable n c Hr) as HI. destruct c as [s ts]. cbn [shared pcs] in *.
  split; [intros i p o Hi E; pose proof (ms_step_ok s ts i p o HI Hi) as H; by rewrite E in H|].
  destruct HI as (Hok & w & q & r & Hcw & Hw & Hrr & Ew & Er & Hst). cbn [shared pcs] in *.
  destruct (ms_words s w q r Hcw Hw Hrr) as (-> & -> & -> & ->). split_and!; try done.
  - intros i j p p2 Hi Hj Hp. unfold FMember.
    pose proof (ms_sums ts i p Hi) as Hs. pose proof (ms_sums ts j p2 Hj) as (_ & _ & _ & _ & _ & _ & _ & Hm).
    specialize (Hm (negb q)). inversion Hst; subst; lia.
  - inversion Hst; lia.
  - inversion Hst; lia.
  - intros Hb. inversion Hst; congruence || lia.
  - intros Hall. rewrite list.Forall_forall in Hall.
    assert (Hz : total prep ts = 0 /\ total calls ts = 0 /\ total (mem (negb q)) ts = 0).
    { split_and!; apply total_0; intros p Hp; destruct (Hall p Hp) as (H1 & H2 & H3); try done.
      unfold FMember in H3. pose proof (ms_weights p). destruct (negb q); lia. }
    inversion Hst; lia.
Qed.

(** A thread that entered before the groups were swapped has left, one that entered
    later is inside, and the completion function is about to be called; after the call
    nobody has to make it and there were as many completions as partitions. *)
Lemma metered_section_correct_witness :
  let c := Conf (Metered (mword 1 true 0) (Some true) false true 1 0) [LV_call; In true; PWait] in
  let c' := Conf (Metered (mword 1 true 0) (Some true) true true 1 1) [Out false; In true; PWait] in
  rtc MSStep (ms_init 3) c /\ CActiveUsers (shared c) = 1 /\ FMember (GroupInactive (shared c)) (In true) = false /\
  rtc MSStep (ms_init 3) c' /\ cPartitions (shared c') = cCompletions (shared c').
Proof.
  intros c c'.
  assert (Hs : forall k, exec tstep (replicate 3 (0%nat, OpGroupEnter) ++ replicate 5 (2%nat, OpPartition true) ++
      replicate 3 (1%nat, OpGroupEnter) ++ replicate k (0%nat, OpLeave)) (ms_init 3) =
      exec tstep (replicate k (0%nat, OpLeave)) (Conf (Metered (mword 1 true 1) (Some true) false true 1 0) [In false; In true; PWait])).
  { intros k. reflexivity. }
  assert (H : rtc MSStep (ms_init 3) c) by (eapply exec_steps; rewrite (Hs 3%nat); vm_compute; reflexivity).
  assert (H' : rtc MSStep (ms_init 3) c') by (eapply exec_steps; rewrite (Hs 4%nat); vm_compute; reflexivity).
  split; [exact H|].
  destruct (metered_section_correct 3 c H) as (_ & H1 & _ & H2 & _). split; [exact H1|].
  split; [exact (H2 0%nat 1%nat LV_call (In true) eq_refl eq_refl (or_intror eq_refl))|]. split; [exact H'|].
  apply (metered_section_correct 3 c' H'). repeat constructor.
Defined.

(** No completion of [CMeteredSection] is lost.  If every thread is outside, inside
    and not leaving, or cannot take a step, and one of them waits in [Partition], then
    a thread that was inside when the groups were swapped is still inside. *)
Theorem metered_partition_waits n c (i : nat) :
  rtc MSStep (ms_init n) c -> pcs c !! i = Some PWait ->
  (forall (j : nat) p, pcs c !! j = Some p ->
     (exists b, p = Out b) \/ (exists g, p = In g) \/ forall o, tstep o (shared c) p = Blocked) ->
  exists j, pcs c !! j = Some (In (GroupInactive (shared c))).
Proof.
  intros Hreach Hi Hall. pose proof (ms_reachable n c Hreach) as HI. destruct c as [s ts]. cbn [shared pcs] in *.
  assert (Hts : forall (j : nat) p, ts !! j = Some p ->
    (exists b, p = Out b) \/ (exists g, p = In g) \/ p = PWait /\ m_asig s = false).
  { intros j p Hj. destruct (Hall j p Hj) as [H|[H|H]]; auto. right. right. pose proof (H OpGroupEnter) as H1.
    pose proof (H OpLeave) as H2.
    destruct p; cbn [tstep GroupEnter Leave Partition] in *; unfold OSSYNCAssert, partition_complete in *;
      repeat case_match; done. }
  ms_open HI Hi. destruct (ms_words s w q r Hcw Hw Hr) as (_ & -> & _).
  assert (Hz : forall f : pc -> Z, (forall b, f (Out b) = 0) -> (forall g, f (In g) = 0) -> f PWait = 0 -> total f ts = 0).
  { intros f F1 F2 F3. apply total_0. intros p [j Hj]%list_elem_of_lookup.
    destruct (Hts j p Hj) as [[b ->]|[[g ->]|[-> _]]]; auto. }
  rewrite (Hz prep), (Hz calls), (Hz wantA) in Hst by done. ms_fields.
  destruct (Hts i _ Hi) as [[b Hb]|[[g Hg]|[_ Hsig]]]; [done..|].
  inversion Hst; subst; try lia; try congruence.
  destruct (total_pos (mem (negb q)) ts ltac:(lia)) as (j & p & Hj & Hm). exists j. rewrite Hj.
  destruct (Hts j p Hj) as [[b ->]|[[g ->]|[-> _]]]; cbn [mem] in Hm; try lia.
  destruct g, q; cbn in Hm; done || lia.
Qed.

Lemma metered_partition_waits_witness :
  let c := Conf (Metered (mword 0 true 1) (Some true) false true 1 0) [In false; PWait] in
  rtc MSStep (ms_init 2) c /\ exists j, pcs c !! j = Some (In (GroupInactive (shared c))).
Proof.
  intros c.
  assert (H : rtc MSStep (ms_init 2) c).
  { apply (exec_steps tstep (replicate 3 (0%nat, OpGroupEnter) ++ replicate 5 (1%nat, OpPartition true))).
    vm_compute. reflexivity. }
  split; [exact H|]. apply (metered_partition_waits 2 c 1 H eq_refl).
  intros [|[|j]] p Hp; cbn in Hp; simplify_eq; [right; left; eauto|right; right; by intros []].
Defined.
